(* ===== verification/_CoqProject ===== *)
-Q . S2P
Prelude.v
GoStd.v
BitPacking.v
BitUtil.v
BitRuns.v
BitBlocks.v
BitRunReader.v
BitWriter.v
BitReader.v
BitReaderBatch.v
BitReaderIndex.v
RleFormat.v
RleDecoder.v
RleLevels.v
RleEncoder.v
RleBatch.v
Codec.v
MathUtil.v
Levels.v
Memory.v
HashTable.v
MemoTable.v
DictDecode.v
Spaced.v
PlainSpaced.v
PageOps.v
DictEncode.v
DeltaBitPack.v
DeltaFormat.v
DeltaEncode.v
DeltaDecode.v
DeltaSafety.v
DeltaBytes.v
DeltaBytesOk.v
DeltaBytesClaims.v
ByteSplit.v
ByteSplitOk.v
PathBuilder.v
PathShred.v
PathColumns.v
PathClaims.v
Bmi.v
BitmapWriter.v
LevelConversion.v
LevelLists.v
Nested.v
NestedClaims.v
Bitmaps.v
BitmapOps.v
BitmapsOk.v
BitmapOpsOk.v
BitmapClaims.v
Booleans.v
BooleansOk.v
BooleanDecode.v
BooleanSpaced.v
BooleanPages.v
BooleanClaims.v
BitReaderBitmap.v
BooleanRle.v
BooleanRleOk.v
BooleanRleClaims.v
RunEnds.v
RunEndsOk.v
RunEndsClaims.v
Decimals.v
DecimalLaws.v
DecimalsOk.v
Decimal128Ok.v
Decimal256Ok.v
DecimalText.v
DecimalTextOk.v
DecimalClaims.v
