(* ===== verification/Prelude.v ===== *)
(** * Arrow and Parquet for Go: a verified core

    The program is the Go implementation of Apache Arrow (in-memory columns, [arrow/]) and
    Apache Parquet (the file format, [parquet/]).  This development verifies the code below
    the column readers and writers: the value and level encodings of Parquet and what they are
    built on.  Reading and writing a column goes through it for every definition level,
    repetition level, dictionary index, boolean, plain, dictionary- or delta-encoded value.
    Beside it, of Arrow: bitmaps, decimals and the utilities of run-end encoded arrays.

    ** Parts of the program and where they are modelled

    Bits and bitmaps:
    - [arrow/bitutil/bitutil.go], bitmaps as byte slices: [BitUtil].
    - [internal/bitutils/], runs and blocks of a bitmap: the set-bit-run readers, forward and
      reverse, in [BitRuns], the block counters and visitors in [BitBlocks], the reader of runs
      of equal bits in [BitRunReader].
    - [arrow/bitutil/bitmaps.go] and [bitmap_ops.go], readers and writers of bitmaps by bits and
      by words in [Bitmaps], copies, inversion, the boolean operations and comparison in
      [BitmapOps]; proofs in [BitmapsOk] and [BitmapOpsOk] (a source of words is the class
      [WordSource], an operation bit by bit the class [Bitwise]), theorems in [BitmapClaims].
    - [parquet/internal/utils/bit_packing_default.go], the generated routines that unpack 32
      values of a fixed width: [BitPacking].  A routine is a list of the statements it
      consists of, run by a small interpreter on the two words in flight.
    - [parquet/internal/utils/bit_writer.go], bits into bytes: [BitWriter].  The writer
      underneath ([WriterAtWithLen]) is the class [WriterAt]; what clients may rely on is the
      class [WriterAtOk].  A fixed slice ([WriterAtBuffer]) and the pooled sink of the
      encoders ([Memory.PooledBufferWriter]) are instances.
    - [parquet/internal/utils/bit_reader.go], bytes into bits: [BitReader], over
      [bytes.Reader] ([GoStd]); the batches of levels and indices, which have loops of their
      own, in [BitReaderBatch] and [BitReaderIndex], the batches into bitmaps, with those of
      the RLE decoder, in [BitReaderBitmap].

    Encodings:
    - [parquet/internal/utils/rle.go], run-length and bit-packed hybrid: the format in
      [RleFormat], the decoder in [RleDecoder] (its loop is parametrised by where values go,
      [RunSink]) and [RleLevels], the encoder in [RleEncoder], its batch operations in
      [RleBatch].
    - [parquet/internal/encoding/levels.go], definition and repetition levels: [Levels], with
      the overflow-checked arithmetic of [internal/utils/math.go] in [MathUtil], which also has
      [min_max.go].
    - [parquet/internal/encoding/delta_bit_packing.go], delta binary packing of int32 and
      int64: the code in [DeltaBitPack], the format in [DeltaFormat] (for any sizes of blocks and
      mini blocks, the class [geometry], of which the encoder's is [stdGeo]), the encoder's proofs in
      [DeltaEncode], the decoder's in [DeltaDecode], arbitrary input in [DeltaSafety].
    - [internal/hashing/], the hash table of the dictionary encoders and the memo tables on
      it: [HashTable], [MemoTable].
    - Dictionary pages ([decoder.go], [encoder.go], [typed_encoder.go] of
      [parquet/internal/encoding], [typed_rle_dict.go]): the plain decoder, the dictionary
      converter and the dictionary decoder in [DictDecode], the encoder in [DictEncode].  The
      decoder's batch is written against the class [DictionaryConverter], the Go interface,
      and the converter against [ValueDecoder].
    - Values with nulls ([plain_encoding_types.go], [encoder.go], [decoder.go]): [Spaced], its
      theorems on pages in [PlainSpaced].
    - [PageOps] has what encoders and decoders of pages have in common: sequences of puts,
      reads, discards and reads with nulls, and the classes [PageEncoderOk] and
      [PageDecoderOk] that the encodings below are instances of.
    - [delta_length_byte_array.go], [delta_byte_array.go], lengths and front coding of byte
      arrays: the code in [DeltaBytes], proofs in [DeltaBytesOk] and [DeltaBytesClaims].  A
      value that lies in the scratch memory of [Discard] is marked, so that handing it out
      can be excluded.
    - [byte_stream_split.go] and its portable batch decoders: [ByteSplit], [ByteSplitOk].
    - [boolean_encoder.go] and [boolean_decoder.go]: the plain encoding in [Booleans], the RLE
      encoding in [BooleanRle]; proofs in [BooleansOk], [BooleanDecode], [BooleanSpaced] and
      [BooleanRleOk].  [BooleanPages] has what both encodings promise: sequences of puts and of
      reads, as bools and as bitmaps, with and without nulls, and the classes [BoolEncoderOk]
      and [BoolDecoderOk]; the theorems are in [BooleanClaims] and [BooleanRleClaims].

    Records:
    - [parquet/pqarrow/path_builder.go], nested arrow arrays into levels: the builder of paths,
      the nodes and the walk in [PathBuilder]; [PathShred] has the entries of a path by
      recursion and the proof that the walk writes them; [PathColumns] the logical values of an
      array and the levels they have by definition; [PathClaims] the builder as a whole.
    - [parquet/file/level_conversion.go], levels into validity bits and list offsets:
      [LevelConversion] and [LevelLists], over [parquet/internal/bmi/bmi.go] in [Bmi] and
      the first-time writer of [parquet/internal/utils/bitmap_writer.go] in [BitmapWriter].
    - [Nested] and [NestedClaims] put the two together: what is written is what is read.

    Arrow:
    - [arrow/encoded/ree_utils.go], which run a position of a run-end encoded array is in, and
      two arrays run by run: [RunEnds], [RunEndsOk], [RunEndsClaims].
    - [arrow/decimal], [arrow/decimal128] and [arrow/decimal256], integers of 32 to 256 bits as
      decimals: the code in [Decimals], with the Go interface [Num] as the class [DecNum].
      [DecimalLaws] states what it promises in terms of the integers held ([DecLaws]);
      [DecimalsOk], [Decimal128Ok] and [Decimal256Ok] prove it for the four types; the theorems
      of [DecimalClaims] are proved from the laws for all of them.  Decimals as text are in
      [DecimalText] and [DecimalTextOk].

    Shared:
    - [arrow/memory/buffer.go], [go_allocator.go] and the [PooledBufferWriter] of
      [parquet/internal/encoding/types.go], growable memory: [Memory].
    - [Codec] puts readers and writers together.
    - The parts of Go's library the code uses ([bytes.Reader], [encoding/binary], [math/bits])
      are in [GoStd]; this file has slices, machine integers, bytes and bit fields.

    ** How the code is represented

    Integers are [Z]; where the code computes at a machine width and the value can leave it,
    the conversion is written out ([u8], [u32], [i32], [u64], [i64]).  A slice is a list;
    indexing, storing and slicing with Go's run-time checks are [index], [store] and [slice],
    and [None] is a panic.  A method with a pointer receiver takes the struct as a record and
    returns the new one.  An error result is an [option goerr]; messages are kept without
    their formatted arguments.  Scratch arrays that are overwritten before every use are not
    part of the state.  Memory that has been reserved and not written is a cell [None] in
    [BitWriter.holds], so that no theorem depends on what it contains.  A callback is a
    function on a state of the caller's choice that may fail or panic.

    Loops over slices are structural recursion.  The others take fuel:
    [RleDecoder.RD.rleLoop], where every iteration but the failing one delivers a value or
    reads a run, has its fuel computed from the number of values and is shown to be enough on
    every input ([RleDecoder.rle_decode_terminates]); [BitReader.BR.unpackChunks] has one
    unit per value; [DeltaBitPack.DD.decodeLoop] has one unit per value to be filled, which
    is enough on every input that [SetData] accepts ([DeltaSafety.delta_decode_safe]) until a
    call fails; after a truncated mini block the loop of a further call does not end, stated of
    the steps of the loop and not of the fuel ([DeltaSafety.delta_retry_diverges]).  The walk of a
    path has no bound computed by the code; the theorems give one for each array.  The run readers
    have one unit per bit left (a run takes at least one), the block visitors one per bit, the probe loop of the hash table one
    per slot of the table and more than the perturbation can use up, [RunEnds.Search] one per
    element, [Decimals.intPow] one per bit of the exponent; the theorems on them
    show a result, so that the fuel is enough.

    ** What the theorems show

    - Round trips: bit-packed values ([BitPacking.unpack32_packed]), the RLE hybrid ([Codec.rle_roundtrip]),
      levels in both encodings ([Levels.levels_rle_roundtrip],
      [Levels.levels_bitpacked_roundtrip]), delta binary packing
      ([DeltaDecode.delta_roundtrip]), dictionary pages ([DictEncode.dict_roundtrip]), plain
      pages with nulls ([PlainSpaced.plain_spaced_roundtrip]), closing up and spreading slots
      ([Spaced.spaced_roundtrip]),
      byte arrays ([DeltaBytesClaims.delta_byte_array_roundtrip],
      [DeltaBytesClaims.delta_length_roundtrip]), byte streams
      ([ByteSplitOk.byte_stream_split_roundtrip]), pages of
      booleans in both encodings ([BooleanClaims.bool_page_roundtrip],
      [BooleanRleClaims.rle_bool_roundtrip]), nested arrays through
      levels ([NestedClaims.nested_roundtrip]), decimals through text
      ([DecimalClaims.decimal_text]), through [big.Int] ([DecimalClaims.decimal_bigint]) and
      through another scale ([DecimalClaims.rescale_roundtrip]).
    - Refinement, for each side alone: a decoder reads any stream the format allows
      within the bounds below ([RleDecoder.rle_decode_conforming], [DeltaDecode.delta_decode_conforming]), an
      encoder writes the format ([BitWriter.write_values_correct],
      [DeltaDecode.delta_encode_conforms]); the memo table is the list of its values in
      insertion order ([MemoTable.memo_table_refines]); shredding gives the levels the definition gives to the
      logical values ([PathClaims.shred_levels]), over the paths that the builder makes, which are
      defined by recursion on the columns of the array ([PathClaims.builder_paths]);
      the boolean decoder is the list of the bits that are there, whatever the data ([BooleanClaims.bool_decoder_refines]); [Rescale] is the exact change of
      scale where that is possible ([DecimalClaims.rescale_correct]).
    - Equivalence of fast paths with the plain ones: [PutBatchLevels] and [PutBatchIndices]
      with [Put] ([Codec.put_batch_levels_equiv], [Codec.put_batch_indices_equiv]), the
      table-driven bit selection with picking bits ([NestedClaims.bit_selection]); of the walk
      over two run-end encoded arrays with looking up each position
      ([RunEndsClaims.merged_runs_correct]); of the parser of precision and scale with the
      grammar of decimals ([DecimalClaims.prec_scale_accepts]).
    - Behaviour at any position and on short input ([BitReader.get_batch_correct]), and safety on
      arbitrary bytes ([RleDecoder.rle_decode_terminates], [DeltaSafety.delta_decode_safe],
      [DictEncode.dict_decode_safe], [DeltaBytesClaims.delta_bytes_safe]).
    - Bitmaps: the runs of set bits ([BitRuns.set_bit_runs_correct]), of equal bits
      ([BitRunReader.bit_run_reader_correct]), validity bits from levels
      ([NestedClaims.def_levels_bitmap]), copies and boolean operations at any offsets
      ([BitmapClaims.bitmap_ops_correct]), comparison ([BitmapClaims.bitmap_equals_correct]),
      the writer ([BitmapClaims.bitmap_writer_correct]), moves inside a bitmap
      ([BooleanClaims.bitmap_move_correct]).
    - Run-end encoded arrays: the physical index and length
      ([RunEndsClaims.physical_index_correct]), and that every walk over two arrays comes to its
      end ([RunEndsClaims.merged_runs_ends]).
    - Decimals: arithmetic ([DecimalClaims.decimal_arithmetic]), rounding
      ([DecimalClaims.reduce_scale_correct]), precision ([DecimalClaims.fits_in_precision]),
      powers ([DecimalClaims.int_pow_loop]).
    - State and arithmetic: reuse after [Clear] and after a page ([Codec.rle_clear_reuse],
      [DeltaDecode.delta_roundtrip]), growable memory ([Memory.pooled_write_stream]), checked
      arithmetic ([MathUtil.checked_arith_correct]).
    - Defects of the code: [RleDecoder.rle_width0_reads_next_byte],
      [RleDecoder.rle_truncated_run_delivers], [DeltaSafety.delta_flush_twice_panics],
      [DeltaSafety.delta_retry_diverges], [ByteSplitOk.split_decode_panics],
      [PathClaims.fixed_size_slice_wrong], [NestedClaims.def_levels_exceed_bound],
      [BitmapClaims.append_bools_clobbers], [BooleanClaims.bool_all_null_panics],
      [BooleanRleClaims.rle_bool_second_page], [DecimalClaims.decimal64_step_wrong],
      [DecimalClaims.max_decimal128_wrong].

    Bounds: the RLE theorems are for at most 2^31 - 1 values, beyond which the run counters
    of the code (int32) overflow; the delta theorems for pages of less than 2^32 values, what
    the decoder accepts; memory sizes are below 2^62, where [NextPowerOf2] overflows; the
    levels of a leaf are fewer than 2^60, and the nesting leaves the levels within int16;
    bitmaps
    below 2^63 - 7 bits, where the rounding of [CountSetBits] overflows.  The steps of scale are
    at most 9 for Decimal32 and Decimal64, 38 for decimal128 and 76 for decimal256; text is that of
    decimal128 and decimal256 within these numbers of digits and scales.  The RLE hybrid is that of
    widths 1 to 64: runs of width 0 are read wrongly.  Lists of a fixed size have at least one
    element and are not sliced ([PathColumns.plainFixed]); slices are written wrongly.  A page of
    byte arrays has at least one value that is not null.

    ** What is not modelled

    The SIMD variants selected by build tags (assembly), big-endian machines, reference
    counting, [sync.Pool] (the buffer it returns is an argument), the bit reader's
    batches of booleans, the RLE decoder's spaced batches, the spaced
    and index operations of the dictionary coders, memo tables of byte arrays (their hash,
    xxh3, is a library) and floats, [VisitWordsAndWrite] of the bitmaps, and the conversions of
    decimals from and to floating point numbers ([math/big.Float]).  The parts above these (column
    chunks, files, schemas), which do I/O, and beside them (arrays and their builders, compute
    kernels, IPC, Flight, variants, text formats) are not modelled. *)

From Stdlib Require Import ZArith List Lia Bool Btauto String.
Import ListNotations.
#[local] Open Scope Z_scope.

(** ** Notations

    The development's own scope: lengths as [Z], the way Go's [len] has them. *)
Declare Scope go_scope.
Delimit Scope go_scope with go.

Abbreviation len l := (Z.of_nat (List.length l)).
Notation "x '>>' n" := (Z.shiftr x n) (at level 40, left associativity) : go_scope.
Notation "x '&' y" := (Z.land x y) (at level 45, left associativity) : go_scope.

(** ** Hint databases and tactics *)
Create HintDb goarith.
Create HintDb gobytes.

(** Closes a goal about quotients and remainders by the constants of the code. *)
Ltac zdiv := Z.to_euclidean_division_equations; lia.

(** Splits every comparison the goal branches on, as a proposition. *)
Ltac case_cmp :=
  repeat match goal with
  | |- context [Z.ltb ?a ?b] => destruct (Z.ltb_spec a b)
  | |- context [Z.leb ?a ?b] => destruct (Z.leb_spec a b)
  | |- context [Z.eqb ?a ?b] => destruct (Z.eqb_spec a b)
  end.

(** Unpacks conjunctions and existentials of the hypotheses. *)
Ltac unpack :=
  repeat match goal with
  | H : _ /\ _ |- _ => destruct H
  | H : exists _, _ |- _ => destruct H
  end.

(** Splits the visible conjunctions of the goal and no others. *)
Ltac splits := repeat match goal with |- _ /\ _ => split end.

(** Decides the boolean comparison [b] when [lia] can, and rewrites with it. *)
Ltac bool_lia b :=
  first
    [ replace b with true by (symmetry; first [apply Z.ltb_lt | apply Z.leb_le | apply Z.eqb_eq]; lia)
    | replace b with false by (symmetry; first [apply Z.ltb_ge | apply Z.leb_gt | apply Z.eqb_neq]; lia) ].

Ltac cmp_lia :=
  repeat match goal with
  | |- context [Z.ltb ?a ?b] => bool_lia (Z.ltb a b)
  | |- context [Z.leb ?a ?b] => bool_lia (Z.leb a b)
  | |- context [Z.eqb ?a ?b] => bool_lia (Z.eqb a b)
  end; cbv iota.

(** ** Machine integers

    A w-bit Go integer is a [Z] in range; arithmetic that can leave the range goes
    through the wrap-around of its type. *)
Definition u8 (x : Z) : Z := x mod 2 ^ 8.
Definition u16 (x : Z) : Z := x mod 2 ^ 16.
Definition u32 (x : Z) : Z := x mod 2 ^ 32.
Definition u64 (x : Z) : Z := x mod 2 ^ 64.
Definition i16 (x : Z) : Z := (x + 2 ^ 15) mod 2 ^ 16 - 2 ^ 15.
Definition i32 (x : Z) : Z := (x + 2 ^ 31) mod 2 ^ 32 - 2 ^ 31.
Definition i64 (x : Z) : Z := (x + 2 ^ 63) mod 2 ^ 64 - 2 ^ 63.

Definition MaxInt32 : Z := 2147483647.
Definition MaxUint32 : Z := 4294967295.
Definition MinInt32 : Z := -2147483648.
Definition MaxInt64 : Z := 9223372036854775807.
Definition MinInt64 : Z := -9223372036854775808.

(** The errors the modelled code returns or passes on. *)
Inductive goerr : Type :=
| EOF
| ErrUnexpectedEOF
| ErrNoProgress
| ErrMsg (msg : string).

(** ** Lists as slices *)

(** [l[i] = x]; callers index within the slice. *)
Fixpoint upd {A} (l : list A) (i : nat) (x : A) : list A :=
  match l, i with
  | [], _ => []
  | _ :: t, O => x :: t
  | h :: t, S i' => h :: upd t i' x
  end.

(** Overwrites [l] from [off] on with [p] (Go's [copy(l[off:], p)]). *)
Definition splice {A} (l : list A) (off : nat) (p : list A) : list A :=
  firstn off l ++ firstn (List.length l - off) p ++ skipn (off + List.length p) l.

(** Indexing and slicing with Go's run-time checks: [None] is a panic.  The capacity of
    a slice is taken to be its length. *)
Definition index {A} (l : list A) (i : Z) : option A :=
  if (0 <=? i) && (i <? len l) then nth_error l (Z.to_nat i) else None.

Definition store {A} (l : list A) (i : Z) (x : A) : option (list A) :=
  if (0 <=? i) && (i <? len l) then Some (upd l (Z.to_nat i) x) else None.

Definition slice {A} (l : list A) (lo hi : Z) : option (list A) :=
  if (0 <=? lo) && (lo <=? hi) && (hi <=? len l)
  then Some (firstn (Z.to_nat (hi - lo)) (skipn (Z.to_nat lo) l)) else None.

(** Sequencing of computations that may panic. *)
Definition opt_bind {A B} (o : option A) (f : A -> option B) : option B :=
  match o with Some x => f x | None => None end.

Notation "x <- e ;; k" := (opt_bind e (fun x => k))
  (at level 61, e at next level, right associativity) : go_scope.

(** [for i := start; i < start + n; i++ { s = body(i, s) }] *)
Fixpoint for_up {S} (n : nat) (i : Z) (body : Z -> S -> option S) (s : S) : option S :=
  match n with
  | O => Some s
  | Datatypes.S n' => opt_bind (body i s) (for_up n' (i + 1) body)
  end.

(** ** Bytes, little-endian values, bit fields *)

Definition is_byte (b : Z) : Prop := 0 <= b < 256.
Definition bytes (l : list Z) : Prop := Forall is_byte l.

(** The value of a byte sequence, least significant byte first. *)
Fixpoint leval (l : list Z) : Z :=
  match l with
  | [] => 0
  | b :: t => b + 256 * leval t
  end.

(** The first [n] bytes of [z], least significant first. *)
Fixpoint lebytes (n : nat) (z : Z) : list Z :=
  match n with
  | O => []
  | S n' => z mod 256 :: lebytes n' (z / 256)
  end.

(** Bits [p .. p+n) of [x] as an unsigned number. *)
Definition field (x p n : Z) : Z := (x / 2 ^ p) mod 2 ^ n.

(** [k] consecutive [w]-bit fields of [x], the first one at bit [p]. *)
Definition fields (x p w : Z) (k : nat) : list Z :=
  map (fun j => field x (p + Z.of_nat j * w) w) (seq 0 k).

(** The converse: the number whose consecutive [w]-bit fields are [vs]. *)
Fixpoint packed (w : Z) (vs : list Z) : Z :=
  match vs with
  | [] => 0
  | v :: t => v + 2 ^ w * packed w t
  end.

(** A value that fits in [w] bits. *)
Definition fits (w v : Z) : Prop := 0 <= v < 2 ^ w.

(** Injectivity without the reduction [injection] does. *)
Lemma Some_inj {A} (x y : A) : Some x = Some y -> x = y.
Proof. congruence. Qed.

Lemma pair_inj {A B} (x x' : A) (y y' : B) : (x, y) = (x', y') -> x = x' /\ y = y'.
Proof. intros H; split; congruence. Qed.

(** ** Slice updates *)

Section SliceUpdate.
Context {A : Type}.
Implicit Types (l p : list A) (i j : nat) (x d : A).

Lemma length_upd l i x : List.length (upd l i x) = List.length l.
Proof. revert i; induction l; intros [|i]; cbn; auto. Qed.

Lemma nth_upd_eq l i x d : (i < List.length l)%nat -> nth i (upd l i x) d = x.
Proof. revert i; induction l; intros [|i] H; cbn in *; try lia; auto. apply IHl; lia. Qed.

Lemma nth_upd_ne l i j x d : i <> j -> nth j (upd l i x) d = nth j l d.
Proof. revert i j; induction l; intros [|i] [|j] H; cbn; auto; try lia. Qed.

Lemma skipn_upd l i n x : (i < n)%nat -> skipn n (upd l i x) = skipn n l.
Proof.
  revert i n; induction l; intros [|i] [|n] H; cbn; auto; try lia. apply IHl; lia.
Qed.

Lemma length_splice l i p : (i <= List.length l)%nat -> List.length (splice l i p) = List.length l.
Proof.
  intros. unfold splice. rewrite !length_app, !length_firstn, length_skipn. lia.
Qed.

Lemma splice_in l i p :
  (i + List.length p <= List.length l)%nat ->
  splice l i p = firstn i l ++ p ++ skipn (i + List.length p) l.
Proof. intros. unfold splice. do 2 f_equal. apply firstn_all2; lia. Qed.

(** Two lists of the same length with the same elements are equal. *)
Lemma nth_ext_eq l p d :
  List.length l = List.length p ->
  (forall i, (i < List.length l)%nat -> nth i l d = nth i p d) -> l = p.
Proof. intros; apply (nth_ext _ _ d d); auto. Qed.

End SliceUpdate.

Lemma skipn_cons {A} (l : list A) n d :
  (n < List.length l)%nat -> skipn n l = nth n l d :: skipn (S n) l.
Proof. revert n; induction l; intros [|n] H; cbn in *; try lia; auto. apply IHl. lia. Qed.

Lemma firstn_app_exact {A} (F t : list A) k : List.length F = k -> firstn k (F ++ t) = F.
Proof. intros <-. now rewrite firstn_app, Nat.sub_diag, firstn_O, app_nil_r, firstn_all. Qed.

Lemma skipn_app_exact {A} (F t : list A) k : List.length F = k -> skipn k (F ++ t) = t.
Proof. intros <-. now rewrite skipn_app, Nat.sub_diag, skipn_O, skipn_all. Qed.

Lemma firstn_split {A} (l : list A) n k : (n <= k)%nat -> firstn k l = firstn n l ++ firstn (k - n) (skipn n l).
Proof.
  intros Hn. rewrite <- (firstn_skipn n (firstn k l)), firstn_firstn, Nat.min_l, firstn_skipn_comm by lia. do 3 f_equal. lia.
Qed.

(** ** Consecutive integers *)

Definition zseq (i : Z) (k : nat) : list Z := map (fun j => i + Z.of_nat j) (seq 0 k).

Lemma zseq_S i k : zseq i (S k) = i :: zseq (i + 1) k.
Proof. unfold zseq. cbn [seq map]. rewrite <- seq_shift, map_map. f_equal; [lia|]. apply map_ext. intros j. lia. Qed.

Lemma in_zseq i k x : In x (zseq i k) <-> i <= x < i + Z.of_nat k.
Proof.
  unfold zseq. rewrite in_map_iff. split; [intros (j & <- & Hj); apply in_seq in Hj; lia|]. intros H. exists (Z.to_nat (x - i)). split; [lia|apply in_seq; lia].
Qed.

Lemma zseq_app i a b : zseq i (a + b) = zseq i a ++ zseq (i + Z.of_nat a) b.
Proof.
  revert i. induction a as [|a IH]; intros i; cbn [Nat.add]; [cbn; now rewrite Z.add_0_r|]. rewrite !zseq_S, IH. cbn [app]. do 3 f_equal. lia.
Qed.

Lemma length_zseq i k : List.length (zseq i k) = k.
Proof. unfold zseq. now rewrite length_map, length_seq. Qed.

Lemma Forall_firstn {A} (P : A -> Prop) n l : Forall P l -> Forall P (firstn n l).
Proof. intros H. revert n. induction H; intros [|n]; cbn; constructor; auto. Qed.

Lemma Forall_skipn {A} (P : A -> Prop) n l : Forall P l -> Forall P (skipn n l).
Proof. intros H. revert n. induction H; intros [|n]; cbn; auto. Qed.

Lemma index_ok {A} (l : list A) i d : 0 <= i < len l -> index l i = Some (nth (Z.to_nat i) l d).
Proof.
  intros H. unfold index. cmp_lia. cbn [andb]. apply nth_error_nth'. lia.
Qed.

Lemma store_ok {A} (l : list A) i x : 0 <= i < len l -> store l i x = Some (upd l (Z.to_nat i) x).
Proof. intros H. unfold store. now cmp_lia. Qed.

Lemma slice_ok {A} (l : list A) lo hi :
  0 <= lo <= hi -> hi <= len l ->
  slice l lo hi = Some (firstn (Z.to_nat (hi - lo)) (skipn (Z.to_nat lo) l)).
Proof. intros. unfold slice. now cmp_lia. Qed.

(** ** Powers of two *)

Lemma pow2_pos n : 0 <= n -> 0 < 2 ^ n.
Proof. intros; apply Z.pow_pos_nonneg; lia. Qed.

Lemma pow2_le n m : n <= m -> 2 ^ n <= 2 ^ m.
Proof. apply Z.pow_le_mono_r; lia. Qed.

Lemma pow2_split n m : 0 <= n -> 0 <= m -> 2 ^ (n + m) = 2 ^ n * 2 ^ m.
Proof. intros; apply Z.pow_add_r; lia. Qed.

Lemma pow2_sub n m : 0 <= m <= n -> 2 ^ n = 2 ^ m * 2 ^ (n - m).
Proof. intros; rewrite <- Z.pow_add_r by lia; f_equal; lia. Qed.

Lemma pow2_8 n : 2 ^ (8 * (1 + n)) = 256 * 2 ^ (8 * n) \/ n < 0.
Proof.
  destruct (Z.ltb_spec n 0); [now right|left].
  rewrite Z.mul_add_distr_l, Z.pow_add_r by lia; reflexivity.
Qed.

Lemma pow2_8_succ n : 0 <= n -> 2 ^ (8 * (1 + n)) = 256 * 2 ^ (8 * n).
Proof. intros; destruct (pow2_8 n); [assumption|lia]. Qed.

#[export] Hint Resolve pow2_pos : goarith.

(** ** Bit operations as arithmetic *)

Lemma shiftr_div x n : 0 <= n -> Z.shiftr x n = x / 2 ^ n.
Proof. apply Z.shiftr_div_pow2. Qed.

Lemma shiftl_mul x n : 0 <= n -> Z.shiftl x n = x * 2 ^ n.
Proof. apply Z.shiftl_mul_pow2. Qed.

(** Disjoint bits: an [or] is a sum. *)
Lemma lor_disjoint n a b : 0 <= n -> 0 <= a < 2 ^ n -> Z.lor a (b * 2 ^ n) = a + b * 2 ^ n.
Proof.
  intros Hn Ha.
  rewrite <- Z.shiftl_mul_pow2 by lia.
  rewrite <- Z.lxor_lor.
  - symmetry; apply Z.add_nocarry_lxor.
    apply Z.bits_inj'; intros i Hi.
    rewrite Z.land_spec, Z.bits_0, Z.shiftl_spec by lia.
    destruct (Z.ltb_spec i n).
    + rewrite (Z.testbit_neg_r b) by lia; apply andb_false_r.
    + rewrite <- (Z.mod_small a (2 ^ n)) by lia.
      rewrite Z.mod_pow2_bits_high by lia; reflexivity.
  - apply Z.bits_inj'; intros i Hi.
    rewrite Z.land_spec, Z.bits_0, Z.shiftl_spec by lia.
    destruct (Z.ltb_spec i n).
    + rewrite (Z.testbit_neg_r b) by lia; apply andb_false_r.
    + rewrite <- (Z.mod_small a (2 ^ n)) by lia.
      rewrite Z.mod_pow2_bits_high by lia; reflexivity.
Qed.

(** ** Fields *)

Lemma field_bound x p n : 0 <= n -> 0 <= field x p n < 2 ^ n.
Proof. intros; apply Z.mod_pos_bound; auto with goarith. Qed.

Lemma field_0_r x p : field x p 0 = 0.
Proof. unfold field; now rewrite Z.pow_0_r, Z.mod_1_r. Qed.

Lemma field_full x n : 0 <= x < 2 ^ n -> field x 0 n = x.
Proof. intros; unfold field; rewrite Z.pow_0_r, Z.div_1_r; now apply Z.mod_small. Qed.

Lemma field_0_l p n : field 0 p n = 0.
Proof. unfold field; now rewrite Zdiv_0_l, Zmod_0_l. Qed.

Lemma field_shift x k p n : 0 <= k -> 0 <= p -> field (x / 2 ^ k) p n = field x (k + p) n.
Proof.
  intros; unfold field. rewrite Z.pow_add_r by lia.
  rewrite Z.div_div by (pose proof (pow2_pos k); pose proof (pow2_pos p); lia).
  reflexivity.
Qed.

Lemma div_mod_pow2 x p n : 0 <= p -> 0 <= n -> (x mod 2 ^ (p + n)) / 2 ^ p = (x / 2 ^ p) mod 2 ^ n.
Proof.
  intros. rewrite Z.pow_add_r by lia.
  pose proof (pow2_pos p) as Hp; pose proof (pow2_pos n) as Hn.
  rewrite Z.rem_mul_r by lia.
  rewrite (Z.mul_comm (2 ^ p)), Z.div_add by lia.
  rewrite Z.div_small by (apply Z.mod_pos_bound; lia). lia.
Qed.

Lemma mod_mod_pow2 x n m : 0 <= m <= n -> (x mod 2 ^ n) mod 2 ^ m = x mod 2 ^ m.
Proof.
  intros. rewrite (pow2_sub n m) by lia.
  pose proof (pow2_pos m); pose proof (pow2_pos (n - m)).
  rewrite Z.rem_mul_r by lia.
  rewrite Z.mul_comm, Z.mod_add by lia. apply Z.mod_mod; lia.
Qed.

(** A field of a field. *)
Lemma field_field x p n q m :
  0 <= p -> 0 <= q -> 0 <= m -> q + m <= n -> field (field x p n) q m = field x (p + q) m.
Proof.
  intros. rewrite <- (field_shift x p q) by lia.
  unfold field at 1 2. set (y := x / 2 ^ p).
  replace n with (q + (n - q)) by lia.
  rewrite div_mod_pow2, mod_mod_pow2 by lia. reflexivity.
Qed.

Lemma field_mod x n p m : 0 <= p -> 0 <= m -> p + m <= n -> field (x mod 2 ^ n) p m = field x p m.
Proof.
  intros. rewrite <- (Z.add_0_l p) at 2.
  rewrite <- (field_field x 0 n p m) by lia.
  f_equal. unfold field. now rewrite Z.pow_0_r, Z.div_1_r.
Qed.

(** What is above the field does not matter ... *)
Lemma field_low x y m p n :
  0 <= p -> 0 <= n -> p + n <= m -> field (x + 2 ^ m * y) p n = field x p n.
Proof.
  intros. rewrite <- (field_mod (x + 2 ^ m * y) m) by lia.
  rewrite Z.mul_comm, Z.mod_add by (pose proof (pow2_pos m); lia).
  apply field_mod; lia.
Qed.

(** ... and neither does what is below it. *)
Lemma field_high x y m p n :
  0 <= m -> 0 <= p -> 0 <= x < 2 ^ m -> field (x + 2 ^ m * y) (m + p) n = field y p n.
Proof.
  intros. rewrite <- field_shift by lia. f_equal.
  rewrite Z.mul_comm, Z.div_add by lia.
  rewrite Z.div_small by lia. lia.
Qed.

Lemma field_split x p n m :
  0 <= p -> 0 <= n -> 0 <= m -> field x p (n + m) = field x p n + 2 ^ n * field x (p + n) m.
Proof.
  intros. unfold field. rewrite !Z.pow_add_r by lia.
  pose proof (pow2_pos p); pose proof (pow2_pos n); pose proof (pow2_pos m).
  rewrite <- Z.div_div by lia. apply Z.rem_mul_r; lia.
Qed.

Lemma field_small x p n m : 0 <= p -> 0 <= m -> 0 <= x < 2 ^ n -> n <= p -> field x p m = 0.
Proof.
  intros. unfold field. rewrite Z.div_small, Zmod_0_l; [reflexivity|].
  pose proof (pow2_le n p). lia.
Qed.

Lemma length_fields x p w k : List.length (fields x p w k) = k.
Proof. unfold fields; now rewrite length_map, length_seq. Qed.

Lemma fields_S x p w k : fields x p w (S k) = field x p w :: fields x (p + w) w k.
Proof.
  unfold fields; cbn [seq map]. rewrite <- seq_shift, map_map. f_equal.
  - now rewrite Z.mul_0_l, Z.add_0_r.
  - apply map_ext; intro j. f_equal; lia.
Qed.

Lemma fields_app x p w k1 k2 :
  fields x p w (k1 + k2) = fields x p w k1 ++ fields x (p + Z.of_nat k1 * w) w k2.
Proof.
  revert p; induction k1 as [|k1 IH]; intro p.
  - cbn. now rewrite Z.add_0_r.
  - cbn [Nat.add]. rewrite !fields_S, IH. cbn [app]. do 3 f_equal. lia.
Qed.

Lemma fields_ext x y p q w k :
  (forall j, (j < k)%nat -> field x (p + Z.of_nat j * w) w = field y (q + Z.of_nat j * w) w) ->
  fields x p w k = fields y q w k.
Proof. intros H; apply map_ext_in; intros j Hj; apply in_seq in Hj; apply H; lia. Qed.

(** ** Little-endian byte sequences *)

Lemma bytes_app l1 l2 : bytes (l1 ++ l2) <-> bytes l1 /\ bytes l2.
Proof. apply Forall_app. Qed.

Lemma bytes_firstn n l : bytes l -> bytes (firstn n l).
Proof. intros H; rewrite <- (firstn_skipn n l) in H; now apply bytes_app in H. Qed.

Lemma bytes_skipn n l : bytes l -> bytes (skipn n l).
Proof. intros H; rewrite <- (firstn_skipn n l) in H; now apply bytes_app in H. Qed.

Lemma bytes_repeat0 n : bytes (repeat 0 n).
Proof. apply Forall_forall; intros x Hx; apply repeat_spec in Hx; subst; red; lia. Qed.

Lemma lebytes_bytes n z : bytes (lebytes n z).
Proof.
  revert z; induction n as [|n IH]; intro z; cbn; constructor; [|apply IH].
  red; apply Z.mod_pos_bound; lia.
Qed.

Lemma length_lebytes n z : List.length (lebytes n z) = n.
Proof. revert z; induction n; intro z; cbn; auto. Qed.

#[export] Hint Resolve bytes_firstn bytes_skipn bytes_repeat0 lebytes_bytes : gobytes.

Lemma leval_app l1 l2 : leval (l1 ++ l2) = leval l1 + 2 ^ (8 * len l1) * leval l2.
Proof.
  induction l1 as [|b l1 IH]; [cbn [app leval List.length Z.of_nat]; rewrite Z.mul_0_r; lia|].
  cbn [app leval List.length]. rewrite IH, Nat2Z.inj_succ, <- Z.add_1_l, pow2_8_succ by lia. ring.
Qed.

Lemma leval_bound l : bytes l -> 0 <= leval l < 2 ^ (8 * len l).
Proof.
  induction 1 as [|b l Hb _ IH]; [cbn; lia|].
  cbn [leval List.length]. rewrite Nat2Z.inj_succ, <- Z.add_1_l, pow2_8_succ by lia.
  red in Hb; lia.
Qed.

Lemma leval_lebytes n z : leval (lebytes n z) = z mod 2 ^ (8 * Z.of_nat n).
Proof.
  revert z; induction n as [|n IH]; intro z; [cbn; now rewrite Z.mod_1_r|].
  cbn [lebytes leval]. rewrite IH, Nat2Z.inj_succ, <- Z.add_1_l, pow2_8_succ by lia.
  symmetry; apply Z.rem_mul_r; [lia|apply pow2_pos; lia].
Qed.

Lemma lebytes_leval l : bytes l -> lebytes (List.length l) (leval l) = l.
Proof.
  induction 1 as [|b l Hb _ IH]; [reflexivity|].
  red in Hb. cbn [List.length lebytes leval]. f_equal.
  - rewrite Z.mul_comm, Z.mod_add by lia. apply Z.mod_small; lia.
  - rewrite Z.mul_comm, Z.div_add, Z.div_small, Z.add_0_l by lia. exact IH.
Qed.

Lemma firstn_lebytes n m z : (n <= m)%nat -> firstn n (lebytes m z) = lebytes n z.
Proof.
  revert m z; induction n as [|n IH]; intros [|m] z H; cbn; try lia; auto. f_equal. apply IH; lia.
Qed.

Lemma leval_repeat0 n : leval (repeat 0 n) = 0.
Proof. induction n; cbn [repeat leval]; lia. Qed.

(** Equal lengths and equal values: equal bytes. *)
Lemma leval_inj l1 l2 :
  bytes l1 -> bytes l2 -> List.length l1 = List.length l2 -> leval l1 = leval l2 -> l1 = l2.
Proof.
  intros H1 H2 HL HV. rewrite <- (lebytes_leval l1), <- (lebytes_leval l2) by assumption.
  now rewrite HL, HV.
Qed.

(** The bytes of a value split at a byte boundary. *)
Lemma lebytes_app bs n x :
  bytes bs -> 0 <= x < 2 ^ (8 * Z.of_nat n) ->
  lebytes (List.length bs + n) (leval bs + 2 ^ (8 * len bs) * x) = bs ++ lebytes n x.
Proof.
  intros Hb Hx. pose proof (leval_bound bs Hb). pose proof (pow2_pos (8 * len bs)).
  apply leval_inj; [apply lebytes_bytes|apply bytes_app; split; [assumption|apply lebytes_bytes]| |].
  - now rewrite length_app, !length_lebytes.
  - rewrite leval_app, !leval_lebytes, (Z.mod_small x) by lia. apply Z.mod_small.
    rewrite Nat2Z.inj_add, Z.mul_add_distr_l, Z.pow_add_r by lia. nia.
Qed.

(** The bytes between [off] and [off + n] are a field of the whole. *)
Lemma leval_slice l off n :
  bytes l -> leval (firstn n (skipn off l)) = field (leval l) (8 * Z.of_nat off) (8 * Z.of_nat n).
Proof.
  intros Hl. destruct (Nat.le_gt_cases (List.length l) off) as [Hoff|Hoff].
  - rewrite skipn_all2, firstn_nil by lia. symmetry. cbn [leval].
    apply field_small with (n := 8 * len l); try lia. now apply leval_bound.
  - rewrite <- (firstn_skipn off l) at 2. rewrite leval_app, length_firstn, Nat.min_l by lia.
    rewrite <- (Z.add_0_r (8 * Z.of_nat off)) at 2.
    rewrite field_high; try lia.
    2:{ pose proof (leval_bound (firstn off l)) as HB.
        rewrite length_firstn, Nat.min_l in HB by lia. auto with gobytes. }
    set (t := skipn off l). assert (Ht : bytes t) by (subst t; auto with gobytes).
    destruct (Nat.le_gt_cases (List.length t) n).
    + rewrite firstn_all2, field_full; auto.
      pose proof (leval_bound t Ht). pose proof (pow2_le (8 * len t) (8 * Z.of_nat n)). lia.
    + rewrite <- (firstn_skipn n t) at 2. rewrite leval_app, length_firstn, Nat.min_l by lia.
      rewrite field_low by lia. rewrite field_full; auto.
      pose proof (leval_bound (firstn n t)) as HB.
      rewrite length_firstn, Nat.min_l in HB by lia. auto with gobytes.
Qed.

Lemma leval_firstn l n : bytes l -> leval (firstn n l) = field (leval l) 0 (8 * Z.of_nat n).
Proof. intros; change (firstn n l) with (firstn n (skipn 0 l)). now rewrite leval_slice. Qed.

Lemma leval_skipn l n : bytes l -> leval (skipn n l) = leval l / 2 ^ (8 * Z.of_nat n).
Proof.
  intros Hl. rewrite <- (firstn_skipn n l) at 2. rewrite leval_app.
  destruct (Nat.le_gt_cases n (List.length l)).
  - rewrite length_firstn, Nat.min_l by lia.
    pose proof (pow2_pos (8 * Z.of_nat n)).
    rewrite Z.mul_comm, Z.div_add by lia. rewrite Z.div_small; [lia|].
    pose proof (leval_bound (firstn n l)) as HB.
    rewrite length_firstn, Nat.min_l in HB by lia. auto with gobytes.
  - rewrite skipn_all2, firstn_all2 by lia. cbn [leval]. rewrite Z.mul_0_r, Z.add_0_r.
    symmetry; apply Z.div_small. pose proof (leval_bound l Hl).
    pose proof (pow2_le (8 * len l) (8 * Z.of_nat n)). lia.
Qed.

(** Zero bytes at the end do not change the value. *)
Lemma leval_pad l n : leval (l ++ repeat 0 n) = leval l.
Proof. rewrite leval_app, leval_repeat0; lia. Qed.

(** A field that lies inside [l1] is not affected by what follows. *)
Lemma field_leval_app l1 l2 p n :
  0 <= p -> 0 <= n -> p + n <= 8 * len l1 -> field (leval (l1 ++ l2)) p n = field (leval l1) p n.
Proof. intros; rewrite leval_app; apply field_low; lia. Qed.

(** ** Packed values *)

Lemma packed_app w vs1 vs2 :
  0 <= w -> packed w (vs1 ++ vs2) = packed w vs1 + 2 ^ (len vs1 * w) * packed w vs2.
Proof.
  intros Hw. induction vs1 as [|v vs1 IH]; [cbn [app packed List.length]; rewrite Z.mul_0_l; lia|].
  cbn [app packed List.length]. rewrite IH, Nat2Z.inj_succ, Z.mul_succ_l.
  rewrite (Z.add_comm _ w), Z.pow_add_r by lia. ring.
Qed.

Lemma packed_bound w vs :
  0 <= w -> Forall (fits w) vs -> 0 <= packed w vs < 2 ^ (len vs * w).
Proof.
  intros Hw. induction 1 as [|v vs Hv _ IH]; [cbn; lia|].
  cbn [packed List.length]. rewrite Nat2Z.inj_succ, Z.mul_succ_l, Z.add_comm.
  rewrite (Z.add_comm _ w), Z.pow_add_r by lia. red in Hv. pose proof (pow2_pos w). nia.
Qed.

(** Unpacking what was packed. *)
Lemma fields_packed w vs :
  0 <= w -> Forall (fits w) vs -> fields (packed w vs) 0 w (List.length vs) = vs.
Proof.
  intros Hw. induction 1 as [|v vs Hv _ IH]; [reflexivity|].
  cbn [List.length packed]. rewrite fields_S. f_equal.
  - rewrite field_low by lia. now apply field_full.
  - etransitivity; [|exact IH]. apply fields_ext; intros j _. red in Hv.
    rewrite !Z.add_0_l, field_high by lia. f_equal.
Qed.

(** ** Bits of byte sequences *)

Lemma testbit_field x p n j :
  0 <= p -> 0 <= n -> Z.testbit (field x p n) j = (j <? n) && (0 <=? j) && Z.testbit x (p + j).
Proof.
  intros. unfold field. destruct (Z.ltb_spec j n); destruct (Z.leb_spec 0 j); cbn [andb].
  - rewrite Z.mod_pow2_bits_low, Z.div_pow2_bits by lia. f_equal; lia.
  - now rewrite Z.testbit_neg_r by lia.
  - apply Z.mod_pow2_bits_high; lia.
  - lia.
Qed.

Lemma nth_leval l k : bytes l -> nth k l 0 = field (leval l) (8 * Z.of_nat k) 8.
Proof.
  intros Hl. change 8 with (8 * Z.of_nat 1) at 2. rewrite <- leval_slice by assumption.
  destruct (Nat.le_gt_cases (List.length l) k).
  - now rewrite nth_overflow, skipn_all2 by lia.
  - rewrite <- (firstn_skipn k l) at 1.
    rewrite app_nth2; rewrite length_firstn, Nat.min_l by lia; [|lia]. rewrite Nat.sub_diag.
    destruct (skipn k l) as [|b t]; cbn [firstn leval nth]; lia.
Qed.

(** Bit [i] of a bitmap. *)
Lemma testbit_leval l i :
  bytes l -> 0 <= i -> Z.testbit (leval l) i = Z.testbit (nth (Z.to_nat (i / 8)) l 0) (i mod 8).
Proof.
  intros Hl Hi. rewrite nth_leval, testbit_field by (auto; lia).
  pose proof (Z.mod_pos_bound i 8 eq_refl). cmp_lia. cbn [andb]. f_equal. zdiv.
Qed.

Lemma bytes_upd l k b : bytes l -> is_byte b -> bytes (upd l k b).
Proof.
  intros Hl Hb. revert k; induction Hl; intros [|k]; cbn [upd]; constructor; auto.
  apply IHHl.
Qed.

Lemma bytes_nth l k : bytes l -> is_byte (nth k l 0).
Proof.
  intros Hl. destruct (Nat.lt_ge_cases k (List.length l)).
  - revert Hl. unfold bytes. rewrite Forall_forall. intros Hl; apply Hl, nth_In; assumption.
  - rewrite nth_overflow by lia. red; lia.
Qed.

Lemma bytes_splice l i p : bytes l -> bytes p -> bytes (splice l i p).
Proof. intros. unfold splice. rewrite !bytes_app. auto with gobytes. Qed.

#[export] Hint Resolve bytes_upd bytes_nth bytes_splice : gobytes.

Lemma testbit_upd l k b j :
  bytes l -> is_byte b -> (k < List.length l)%nat -> 0 <= j ->
  Z.testbit (leval (upd l k b)) j =
    if j / 8 =? Z.of_nat k then Z.testbit b (j mod 8) else Z.testbit (leval l) j.
Proof.
  intros Hl Hb Hk Hj. rewrite !testbit_leval by auto with gobytes.
  destruct (Z.eqb_spec (j / 8) (Z.of_nat k)) as [->|Hne].
  - now rewrite Nat2Z.id, nth_upd_eq.
  - rewrite nth_upd_ne; [reflexivity|]. intros ->. apply Hne. rewrite Z2Nat.id; zdiv.
Qed.

Lemma testbit_splice l i p j :
  bytes l -> bytes p -> (i + List.length p <= List.length l)%nat -> 0 <= j ->
  Z.testbit (leval (splice l i p)) j =
    if (Z.of_nat i <=? j / 8) && (j / 8 <? Z.of_nat i + len p)
    then Z.testbit (nth (Z.to_nat (j / 8) - i) p 0) (j mod 8) else Z.testbit (leval l) j.
Proof.
  intros Hl Hp Hle Hj. rewrite !testbit_leval by auto with gobytes.
  rewrite splice_in by assumption. assert (0 <= j / 8) by zdiv. set (k := Z.to_nat (j / 8)).
  assert (Hk : j / 8 = Z.of_nat k) by (subst k; lia). rewrite Hk.
  destruct (Z.leb_spec (Z.of_nat i) (Z.of_nat k)); [|cbn [andb]].
  - rewrite app_nth2 by (rewrite length_firstn; lia). rewrite length_firstn, Nat.min_l by lia.
    destruct (Z.ltb_spec (Z.of_nat k) (Z.of_nat i + len p)); cbn [andb].
    + now rewrite app_nth1 by lia.
    + rewrite app_nth2 by lia. rewrite nth_skipn. do 2 f_equal. lia.
  - rewrite app_nth1 by (rewrite length_firstn; lia). rewrite nth_firstn.
    now replace (k <? i)%nat with true by (symmetry; apply Nat.ltb_lt; lia).
Qed.

(** A single bit of a word. *)
Lemma land_pow2 w k : 0 <= k -> (Z.land w (2 ^ k) =? 0) = negb (Z.testbit w k).
Proof.
  intros Hk. destruct (Z.testbit w k) eqn:E; cbn [negb].
  - apply Z.eqb_neq. intros H0. assert (HT : Z.testbit (Z.land w (2 ^ k)) k = true) by (now rewrite Z.land_spec, E, Z.pow2_bits_true by lia).
    rewrite H0, Z.bits_0 in HT. discriminate.
  - apply Z.eqb_eq. apply Z.bits_inj'; intros i Hi. rewrite Z.land_spec, Z.bits_0, Z.pow2_bits_eqb by lia.
    destruct (Z.eqb_spec k i) as [<-|]; [now rewrite E|apply andb_false_r].
Qed.

Lemma firstn_repeat {T} (v : T) n m : firstn n (repeat v m) = repeat v (Nat.min n m).
Proof. revert m. induction n as [|n IH]; intros [|m]; cbn; [reflexivity..|]. now rewrite IH. Qed.
