(* ===== verification/GoStd.v ===== *)
(** * The parts of Go's standard library the modelled code calls

    - [bytes.Reader]: [Read], [ReadAt], [Seek] from the start, and [io.ReadFull] on it;
    - [encoding/binary]: [PutUvarint] and [ReadUvarint], the latter over any
      [io.ByteReader] (a [ByteReader] instance);
    - [math/bits.Len64].

    The lemmas say what a reader at a position returns and that a varint that was
    written is read back. *)

From Stdlib Require Import ZArith List Lia Bool String.
From S2P Require Import Prelude.
Import ListNotations.
#[local] Open Scope Z_scope.
#[local] Open Scope go_scope.

(** ** bytes.Reader and io.ReadFull *)
Module BytesReader.

Record t := mk { data : list Z; pos : Z }.

Definition new (d : list Z) : t := mk d 0.

(** [Seek(off, io.SeekStart)] with a non-negative offset. *)
Definition Seek (r : t) (off : Z) : t := mk (data r) off.

(** [Read] into a slice of [n] bytes: the reader, the bytes read, the error. *)
Definition Read (r : t) (n : Z) : t * list Z * option goerr :=
  if len (data r) <=? pos r then (r, [], Some EOF)
  else let bs := firstn (Z.to_nat n) (skipn (Z.to_nat (pos r)) (data r)) in
       (mk (data r) (pos r + len bs), bs, None).

(** [ReadAt] into a slice of [n] bytes at [off]; the position is not used. *)
Definition ReadAt (r : t) (n off : Z) : list Z * option goerr :=
  if off <? 0 then ([], Some (ErrMsg "bytes.Reader.ReadAt: negative offset"))
  else if len (data r) <=? off then ([], Some EOF)
  else let bs := firstn (Z.to_nat n) (skipn (Z.to_nat off) (data r)) in
       (bs, if len bs <? n then Some EOF else None).

(** [io.ReadFull] of [n] bytes: a [bytes.Reader] that returns fewer bytes than asked
    for is at its end, so the second [Read] is the last one. *)
Definition ReadFull (r : t) (n : Z) : t * list Z * option goerr :=
  if n =? 0 then (r, [], None)
  else
    let '(r1, bs1, e1) := Read r n in
    match e1 with
    | Some e => (r1, bs1, Some e)
    | None =>
        if len bs1 =? n then (r1, bs1, None)
        else
          let '(r2, bs2, e2) := Read r1 (n - len bs1) in
          (r2, bs1 ++ bs2,
           match e2 with Some EOF => Some ErrUnexpectedEOF | e => e end)
    end.

Lemma ReadFull_ok r n :
  0 <= pos r -> 0 <= n -> n = 0 \/ pos r + n <= len (data r) ->
  ReadFull r n = (mk (data r) (pos r + n),
                  firstn (Z.to_nat n) (skipn (Z.to_nat (pos r)) (data r)), None).
Proof.
  intros Hp Hn Hle. unfold ReadFull, Read. destruct (Z.eqb_spec n 0) as [->|Hne].
  - cbn [firstn Z.to_nat]. rewrite Z.add_0_r. now destruct r.
  - cmp_lia. set (bs := firstn _ _). assert (HL : len bs = n).
    { subst bs. rewrite length_firstn, length_skipn. lia. }
    rewrite HL. cmp_lia. reflexivity.
Qed.

(** A short read: an error, and nothing is known to be complete. *)
Lemma ReadFull_short r n :
  0 <= pos r -> 0 < n -> len (data r) < pos r + n ->
  exists r' bs e, ReadFull r n = (r', bs, Some e) /\
    data r' = data r /\ 0 <= pos r' /\ (e = EOF \/ e = ErrUnexpectedEOF).
Proof.
  intros Hp Hn Hle. unfold ReadFull, Read. cmp_lia.
  destruct (Z.leb_spec (len (data r)) (pos r)); [do 3 eexists; eauto|].
  set (bs := firstn _ _). assert (HL : len bs = len (data r) - pos r).
  { subst bs. rewrite length_firstn, length_skipn. lia. }
  cbn [data pos]. rewrite HL. cmp_lia. do 3 eexists.
  split; [reflexivity|]. cbn [data pos]. repeat split; auto; lia.
Qed.

(** What [ReadAt] returns, whether or not there are enough bytes. *)
Lemma ReadAt_bytes r n off :
  0 <= off -> 0 <= n ->
  fst (ReadAt r n off) = firstn (Z.to_nat n) (skipn (Z.to_nat off) (data r)).
Proof.
  intros. unfold ReadAt. cmp_lia. destruct (Z.leb_spec (len (data r)) off); [|reflexivity].
  now rewrite skipn_all2, firstn_nil by lia.
Qed.

Lemma ReadAt_err r n off :
  0 <= off -> snd (ReadAt r n off) = None \/ snd (ReadAt r n off) = Some EOF.
Proof. intros. unfold ReadAt. cmp_lia. repeat destruct (_ <=? _); auto. destruct (_ <? _); auto. Qed.

End BytesReader.

(** ** encoding/binary: unsigned varints *)
Module Binary.

(** The continuation bytes of a varint: seven bits of the value below a set bit. *)
Lemma cont_byte x : Z.lor (u8 x) 128 = 128 + x mod 128.
Proof.
  unfold u8. change 128 with (1 * 2 ^ 7) at 1.
  assert (Hbit : x mod 2 ^ 8 = x mod 128 + 128 * ((x / 128) mod 2))
    by (change (2 ^ 8) with (128 * 2); apply Z.rem_mul_r; lia).
  pose proof (Z.mod_pos_bound x 128 eq_refl). pose proof (Z.mod_pos_bound (x / 128) 2 eq_refl).
  assert (Hc : (x / 128) mod 2 = 0 \/ (x / 128) mod 2 = 1) by lia.
  rewrite Hbit. destruct Hc as [-> | ->].
  - rewrite Z.mul_0_r, Z.add_0_r, lor_disjoint by (cbn; lia). lia.
  - replace (x mod 128 + 128 * 1) with (x mod 128 + 1 * 2 ^ 7) by lia.
    rewrite <- lor_disjoint by (cbn; lia). rewrite <- Z.lor_assoc, Z.lor_diag.
    rewrite lor_disjoint by (cbn; lia). lia.
Qed.

Lemma cont_bits x : (128 + x mod 128) & 127 = x mod 128.
Proof.
  change 127 with (Z.ones 7). rewrite Z.land_ones by lia. change (2 ^ 7) with 128.
  pose proof (Z.mod_pos_bound x 128 eq_refl).
  rewrite <- (Z.mul_1_l 128) at 1. rewrite Z.add_comm, Z.mod_add by lia. apply Z.mod_small; lia.
Qed.

Definition MaxVarintLen64 : nat := 10.
Definition MaxVarintLen32 : Z := 5.

Fixpoint putUvarint (fuel : nat) (x : Z) : list Z :=
  match fuel with
  | O => []
  | S fuel' =>
      if 128 <=? x then Z.lor (u8 x) 128 :: putUvarint fuel' (x >> 7) else [u8 x]
  end.

(** [PutUvarint]: at most ten bytes for a 64-bit value. *)
Definition PutUvarint (x : Z) : list Z := putUvarint MaxVarintLen64 x.

(** [io.ByteReader] *)
Class ByteReader (R : Type) := ReadByte : R -> R * (Z + goerr).

Section ReadUvarint.
Context {R : Type} {BR : ByteReader R}.

(** The loop of [ReadUvarint]: [n] iterations left, so [i = MaxVarintLen64 - n]. *)
Fixpoint readUvarint (n : nat) (x s : Z) (r : R) : R * (Z + goerr) :=
  match n with
  | O => (r, inr (ErrMsg "binary: varint overflows a 64-bit integer"))
  | S n' =>
      match ReadByte r with
      | (r', inr e) =>
          (r', inr (if (n <? MaxVarintLen64)%nat
                    then match e with EOF => ErrUnexpectedEOF | e => e end else e))
      | (r', inl b) =>
          if b <? 128 then
            if (n' =? 0)%nat && (1 <? b)
            then (r', inr (ErrMsg "binary: varint overflows a 64-bit integer"))
            else (r', inl (Z.lor x (u64 (Z.shiftl b s))))
          else readUvarint n' (Z.lor x (u64 (Z.shiftl (b & 127) s))) (s + 7) r'
      end
  end.

Definition ReadUvarint (r : R) : R * (Z + goerr) := readUvarint MaxVarintLen64 0 0 r.

(** [r] delivers the bytes [bs] and is then [r']. *)
Inductive delivers : R -> list Z -> R -> Prop :=
| delivers_nil r : delivers r [] r
| delivers_cons r b r1 bs r2 :
    ReadByte r = (r1, inl b) -> delivers r1 bs r2 -> delivers r (b :: bs) r2.

Lemma readUvarint_put n x acc s r r' :
  0 <= s -> s + 7 * Z.of_nat n = 70 -> 0 <= x -> 0 <= acc < 2 ^ s -> acc + 2 ^ s * x < 2 ^ 64 ->
  (0 < n)%nat -> x < 2 ^ (7 * Z.of_nat n) ->
  delivers r (putUvarint n x) r' ->
  readUvarint n acc s r = (r', inl (acc + 2 ^ s * x)).
Proof.
  revert x acc s r. induction n as [|n IH]; intros x acc s r Hs Hsn Hx Hacc Hlt Hn Hxn Hd; [lia|].
  pose proof (pow2_pos s Hs) as Hps.
  cbn [putUvarint readUvarint] in *. destruct (Z.leb_spec 128 x) as [Hbig|Hsmall].
  - inversion Hd as [|? ? r1 ? ? HR Hd']; subst. rewrite HR.
    rewrite cont_byte. pose proof (Z.mod_pos_bound x 128 eq_refl).
    bool_lia (128 + x mod 128 <? 128).
    rewrite cont_bits, shiftl_mul by lia.
    assert (Hx7 : x = x mod 128 + 128 * (x / 128)) by (pose proof (Z.div_mod x 128); lia).
    assert (Hp7 : 2 ^ (s + 7) = 2 ^ s * 128) by (rewrite Z.pow_add_r; lia).
    assert (Hfit : x mod 128 * 2 ^ s < 2 ^ 64) by nia.
    unfold u64. rewrite Z.mod_small by nia. rewrite lor_disjoint by lia.
    rewrite (IH (x / 128)); try lia.
    + f_equal. f_equal. rewrite Hp7. nia.
    + rewrite Hp7. nia.
    + destruct n; [cbn in Hxn; lia|lia].
    + apply Z.div_lt_upper_bound; [lia|].
      replace (7 * Z.of_nat (S n)) with (7 + 7 * Z.of_nat n) in Hxn by lia.
      rewrite Z.pow_add_r in Hxn by lia. exact Hxn.
    + rewrite shiftr_div in Hd' by lia. exact Hd'.
  - inversion Hd as [|? ? r1 ? ? HR Hd']; subst. inversion Hd'; subst. rewrite HR.
    assert (Hu : u8 x = x) by (unfold u8; apply Z.mod_small; cbn; lia).
    rewrite Hu. bool_lia (x <? 128).
    replace ((n =? 0)%nat && (1 <? x)) with false.
    2:{ symmetry. destruct n; [|reflexivity]. cbn [Nat.eqb andb]. apply Z.ltb_ge.
        assert (Es : s = 63) by lia. rewrite Es in Hlt.
        change (2 ^ 64) with (2 ^ 63 * 2) in Hlt. nia. }
    rewrite shiftl_mul by lia. unfold u64. rewrite Z.mod_small by nia.
    rewrite lor_disjoint by lia. do 2 f_equal. lia.
Qed.

(** A varint that was written is read back, from any byte reader. *)
Lemma ReadUvarint_put x r r' :
  0 <= x < 2 ^ 64 -> delivers r (PutUvarint x) r' -> ReadUvarint r = (r', inl x).
Proof.
  intros Hx Hd. unfold ReadUvarint, MaxVarintLen64. rewrite (readUvarint_put 10 x 0 0 r r'); try lia; auto.
  - do 2 f_equal. lia.
Qed.

End ReadUvarint.

Lemma putUvarint_bytes n x : 0 <= x -> bytes (putUvarint n x).
Proof.
  revert x; induction n as [|n IH]; intros x Hx; cbn [putUvarint]; [constructor|].
  assert (Hu : 0 <= u8 x < 256) by (apply Z.mod_pos_bound; lia).
  destruct (128 <=? x).
  - constructor; [|apply IH; rewrite shiftr_div by lia; apply Z.div_pos; lia].
    split; [apply Z.lor_nonneg; lia|].
    assert (Z.lor (u8 x) 128 <> 0 /\ Z.log2 (Z.lor (u8 x) 128) < 8) as [H1 H2].
    { split; [intros E; apply Z.lor_eq_0_iff in E; lia|].
      rewrite Z.log2_lor by lia. apply Z.max_lub_lt; [|cbn; lia].
      destruct (Z.eq_dec (u8 x) 0) as [->|]; [cbn; lia|]. apply Z.log2_lt_pow2; lia. }
    apply Z.log2_lt_pow2 in H2; [exact H2|].
    assert (0 <= Z.lor (u8 x) 128) by (apply Z.lor_nonneg; lia). lia.
  - constructor; [exact Hu|constructor].
Qed.

Lemma PutUvarint_bytes x : 0 <= x -> bytes (PutUvarint x).
Proof. apply putUvarint_bytes. Qed.

Lemma putUvarint_length n x : (0 < n)%nat -> (1 <= List.length (putUvarint n x) <= n)%nat.
Proof.
  revert x; induction n as [|n IH]; intros x Hn; [lia|]. cbn [putUvarint].
  destruct (128 <=? x); cbn [List.length]; [|lia]. destruct n; [cbn; lia|].
  specialize (IH (x >> 7)). lia.
Qed.

End Binary.

(** ** math/bits *)
Module Bits.

(** [bits.Len64]: the number of bits needed for [x], 0 for 0. *)
Definition Len64 (x : Z) : Z := if x <=? 0 then 0 else Z.log2 x + 1.

Lemma Len64_fits x : 0 <= x -> 0 <= Len64 x /\ fits (Len64 x) x.
Proof.
  intros Hx. unfold Len64, fits. destruct (Z.leb_spec x 0).
  - assert (x = 0) by lia. subst. cbn. lia.
  - pose proof (Z.log2_spec x). pose proof (Z.log2_nonneg x).
    rewrite Z.add_1_r. lia.
Qed.

Lemma Len64_le x n : 0 <= n -> x < 2 ^ n -> Len64 x <= n.
Proof.
  intros Hn Hx. unfold Len64. destruct (Z.leb_spec x 0); [lia|].
  apply Z.log2_lt_pow2 in Hx; lia.
Qed.

End Bits.
