(* ===== verification/BitPacking.v ===== *)
(** * Unpacking of bit-packed 32-bit values (parquet/internal/utils/bit_packing_default.go)

    [unpackN_32] reads [N] little-endian 32-bit words and writes 32 values of [N] bits
    each.  The source has one unrolled routine per width; each is translated statement
    by statement, a [stmt] standing for one line of the routine and [execStmt] giving its
    effect on the reader, on the local [inl] and on the output slice.

    The routines are proved equal to one reference: output [k] is the [N]-bit field at
    bit [k * N] of the input.  The proof is by reflection: [absStmt] tracks which field of
    the input each output holds, its soundness is proved once ([absRun_sound]), and the
    kernel evaluates it on each routine. *)

From Stdlib Require Import ZArith List Lia Bool.
From S2P Require Import Prelude GoStd.
Import ListNotations.
#[local] Open Scope Z_scope.
#[local] Open Scope go_scope.

(** ** The statements of the routines *)

(** [Rd]: [binary.Read(in, binary.LittleEndian, &inl)];
    [RdOut k]: [binary.Read(in, binary.LittleEndian, &out[k])];
    [Out k s]: [out[k] = (inl >> s)];
    [OutM k s m]: [out[k] = (inl >> s) % (1 << m)];
    [OutAnd k s b]: [out[k] = (inl >> s) & b];
    [OrOut k m d]: [out[k] |= (inl % (1 << m)) << d]. *)
Inductive stmt : Type :=
| Rd
| RdOut (k : nat)
| Out (k : nat) (s : Z)
| OutM (k : nat) (s m : Z)
| OutAnd (k : nat) (s b : Z)
| OrOut (k : nat) (m d : Z).

(** What a routine works on: the bytes left in the reader, [inl], the output slice. *)
Record ustate : Type := mkU { u_in : list Z; u_inl : Z; u_out : list Z }.

(** [binary.Read] of a [uint32]: on a short read the error is dropped and the variable
    keeps its value. *)
Definition binaryRead (inp : list Z) (old : Z) : list Z * Z :=
  if 4 <=? len inp then (skipn 4 inp, leval (firstn 4 inp)) else ([], old).

Definition execStmt (c : stmt) (u : ustate) : ustate :=
  let '(mkU inp v out) := u in
  match c with
  | Rd => let '(inp', x) := binaryRead inp v in mkU inp' x out
  | RdOut k => let '(inp', x) := binaryRead inp (nth k out 0) in mkU inp' v (upd out k x)
  | Out k s => mkU inp v (upd out k (v >> s))
  | OutM k s m => mkU inp v (upd out k ((v >> s) mod 2 ^ m))
  | OutAnd k s b => mkU inp v (upd out k ((v >> s) & b))
  | OrOut k m d =>
      mkU inp v (upd out k (Z.lor (nth k out 0) (u32 (Z.shiftl (v mod 2 ^ m) d))))
  end.

(** A routine: [inl] starts at zero, the result is the output slice. *)
Definition runStmts (p : list stmt) (inp out : list Z) : list Z :=
  u_out (fold_left (fun u c => execStmt c u) p (mkU inp 0 out)).

(** ** The routines, one per bit width *)

Definition unpack1_32 : list Z -> list Z -> list Z := runStmts
  (Rd :: map (fun idx => OutAnd idx (Z.of_nat idx) 1) (seq 0 32)).

Definition unpack2_32 : list Z -> list Z -> list Z := runStmts
  [Rd; OutM 0 0 2; OutM 1 2 2; OutM 2 4 2; OutM 3 6 2; OutM 4 8 2; OutM 5 10 2; OutM 6 12 2;
   OutM 7 14 2; OutM 8 16 2; OutM 9 18 2; OutM 10 20 2; OutM 11 22 2; OutM 12 24 2;
   OutM 13 26 2; OutM 14 28 2; Out 15 30; Rd; OutM 16 0 2; OutM 17 2 2; OutM 18 4 2;
   OutM 19 6 2; OutM 20 8 2; OutM 21 10 2; OutM 22 12 2; OutM 23 14 2; OutM 24 16 2;
   OutM 25 18 2; OutM 26 20 2; OutM 27 22 2; OutM 28 24 2; OutM 29 26 2; OutM 30 28 2;
   Out 31 30].

Definition unpack3_32 : list Z -> list Z -> list Z := runStmts
  [Rd; OutM 0 0 3; OutM 1 3 3; OutM 2 6 3; OutM 3 9 3; OutM 4 12 3; OutM 5 15 3; OutM 6 18 3;
   OutM 7 21 3; OutM 8 24 3; OutM 9 27 3; Out 10 30; Rd; OrOut 10 1 (3 - 1); OutM 11 1 3;
   OutM 12 4 3; OutM 13 7 3; OutM 14 10 3; OutM 15 13 3; OutM 16 16 3; OutM 17 19 3;
   OutM 18 22 3; OutM 19 25 3; OutM 20 28 3; OutM 21 31 3; Rd; OrOut 21 2 (3 - 2); OutM 22 2 3;
   OutM 23 5 3; OutM 24 8 3; OutM 25 11 3; OutM 26 14 3; OutM 27 17 3; OutM 28 20 3;
   OutM 29 23 3; OutM 30 26 3; Out 31 29].

Definition unpack4_32 : list Z -> list Z -> list Z := runStmts
  (let group (base : nat) :=
     Rd :: map (fun j => let i := (4 * j)%nat in OutM (base + i / 4) (Z.of_nat i) 4) (seq 0 7)
        ++ [Out (base + 7) 28] in
   group 0%nat ++ group 8%nat ++ group 16%nat ++ group 24%nat).

Definition unpack5_32 : list Z -> list Z -> list Z := runStmts
  [Rd; OutM 0 0 5; OutM 1 5 5; OutM 2 10 5; OutM 3 15 5; OutM 4 20 5; OutM 5 25 5; Out 6 30;
   Rd; OrOut 6 3 (5 - 3); OutM 7 3 5; OutM 8 8 5; OutM 9 13 5; OutM 10 18 5; OutM 11 23 5;
   Out 12 28; Rd; OrOut 12 1 (5 - 1); OutM 13 1 5; OutM 14 6 5; OutM 15 11 5; OutM 16 16 5;
   OutM 17 21 5; OutM 18 26 5; Out 19 31; Rd; OrOut 19 4 (5 - 4); OutM 20 4 5; OutM 21 9 5;
   OutM 22 14 5; OutM 23 19 5; OutM 24 24 5; Out 25 29; Rd; OrOut 25 2 (5 - 2); OutM 26 2 5;
   OutM 27 7 5; OutM 28 12 5; OutM 29 17 5; OutM 30 22 5; Out 31 27].

Definition unpack6_32 : list Z -> list Z -> list Z := runStmts
  [Rd; OutM 0 0 6; OutM 1 6 6; OutM 2 12 6; OutM 3 18 6; OutM 4 24 6; Out 5 30; Rd;
   OrOut 5 4 (6 - 4); OutM 6 4 6; OutM 7 10 6; OutM 8 16 6; OutM 9 22 6; Out 10 28; Rd;
   OrOut 10 2 (6 - 2); OutM 11 2 6; OutM 12 8 6; OutM 13 14 6; OutM 14 20 6; Out 15 26; Rd;
   OutM 16 0 6; OutM 17 6 6; OutM 18 12 6; OutM 19 18 6; OutM 20 24 6; Out 21 30; Rd;
   OrOut 21 4 (6 - 4); OutM 22 4 6; OutM 23 10 6; OutM 24 16 6; OutM 25 22 6; Out 26 28; Rd;
   OrOut 26 2 (6 - 2); OutM 27 2 6; OutM 28 8 6; OutM 29 14 6; OutM 30 20 6; Out 31 26].

Definition unpack7_32 : list Z -> list Z -> list Z := runStmts
  [Rd; OutM 0 0 7; OutM 1 7 7; OutM 2 14 7; OutM 3 21 7; Out 4 28; Rd; OrOut 4 3 (7 - 3);
   OutM 5 3 7; OutM 6 10 7; OutM 7 17 7; OutM 8 24 7; Out 9 31; Rd; OrOut 9 6 (7 - 6);
   OutM 10 6 7; OutM 11 13 7; OutM 12 20 7; Out 13 27; Rd; OrOut 13 2 (7 - 2); OutM 14 2 7;
   OutM 15 9 7; OutM 16 16 7; OutM 17 23 7; Out 18 30; Rd; OrOut 18 5 (7 - 5); OutM 19 5 7;
   OutM 20 12 7; OutM 21 19 7; Out 22 26; Rd; OrOut 22 1 (7 - 1); OutM 23 1 7; OutM 24 8 7;
   OutM 25 15 7; OutM 26 22 7; Out 27 29; Rd; OrOut 27 4 (7 - 4); OutM 28 4 7; OutM 29 11 7;
   OutM 30 18 7; Out 31 25].

Definition unpack8_32 : list Z -> list Z -> list Z := runStmts
  (let group (base : nat) :=
     Rd :: map (fun j => let i := (8 * j)%nat in OutM (base + i / 8) (Z.of_nat i) 8) (seq 0 3)
        ++ [Out (base + 3) 24] in
   group 0%nat ++ group 4%nat ++ group 8%nat ++ group 12%nat ++
   group 16%nat ++ group 20%nat ++ group 24%nat ++ group 28%nat).

Definition unpack9_32 : list Z -> list Z -> list Z := runStmts
  [Rd; OutM 0 0 9; OutM 1 9 9; OutM 2 18 9; Out 3 27; Rd; OrOut 3 4 (9 - 4); OutM 4 4 9;
   OutM 5 13 9; OutM 6 22 9; Out 7 31; Rd; OrOut 7 8 (9 - 8); OutM 8 8 9; OutM 9 17 9;
   Out 10 26; Rd; OrOut 10 3 (9 - 3); OutM 11 3 9; OutM 12 12 9; OutM 13 21 9; Out 14 30; Rd;
   OrOut 14 7 (9 - 7); OutM 15 7 9; OutM 16 16 9; Out 17 25; Rd; OrOut 17 2 (9 - 2);
   OutM 18 2 9; OutM 19 11 9; OutM 20 20 9; Out 21 29; Rd; OrOut 21 6 (9 - 6); OutM 22 6 9;
   OutM 23 15 9; Out 24 24; Rd; OrOut 24 1 (9 - 1); OutM 25 1 9; OutM 26 10 9; OutM 27 19 9;
   Out 28 28; Rd; OrOut 28 5 (9 - 5); OutM 29 5 9; OutM 30 14 9; Out 31 23].

Definition unpack10_32 : list Z -> list Z -> list Z := runStmts
  [Rd; OutM 0 0 10; OutM 1 10 10; OutM 2 20 10; Out 3 30; Rd; OrOut 3 8 (10 - 8); OutM 4 8 10;
   OutM 5 18 10; Out 6 28; Rd; OrOut 6 6 (10 - 6); OutM 7 6 10; OutM 8 16 10; Out 9 26; Rd;
   OrOut 9 4 (10 - 4); OutM 10 4 10; OutM 11 14 10; Out 12 24; Rd; OrOut 12 2 (10 - 2);
   OutM 13 2 10; OutM 14 12 10; Out 15 22; Rd; OutM 16 0 10; OutM 17 10 10; OutM 18 20 10;
   Out 19 30; Rd; OrOut 19 8 (10 - 8); OutM 20 8 10; OutM 21 18 10; Out 22 28; Rd;
   OrOut 22 6 (10 - 6); OutM 23 6 10; OutM 24 16 10; Out 25 26; Rd; OrOut 25 4 (10 - 4);
   OutM 26 4 10; OutM 27 14 10; Out 28 24; Rd; OrOut 28 2 (10 - 2); OutM 29 2 10;
   OutM 30 12 10; Out 31 22].

Definition unpack11_32 : list Z -> list Z -> list Z := runStmts
  [Rd; OutM 0 0 11; OutM 1 11 11; Out 2 22; Rd; OrOut 2 1 (11 - 1); OutM 3 1 11; OutM 4 12 11;
   Out 5 23; Rd; OrOut 5 2 (11 - 2); OutM 6 2 11; OutM 7 13 11; Out 8 24; Rd;
   OrOut 8 3 (11 - 3); OutM 9 3 11; OutM 10 14 11; Out 11 25; Rd; OrOut 11 4 (11 - 4);
   OutM 12 4 11; OutM 13 15 11; Out 14 26; Rd; OrOut 14 5 (11 - 5); OutM 15 5 11;
   OutM 16 16 11; Out 17 27; Rd; OrOut 17 6 (11 - 6); OutM 18 6 11; OutM 19 17 11; Out 20 28;
   Rd; OrOut 20 7 (11 - 7); OutM 21 7 11; OutM 22 18 11; Out 23 29; Rd; OrOut 23 8 (11 - 8);
   OutM 24 8 11; OutM 25 19 11; Out 26 30; Rd; OrOut 26 9 (11 - 9); OutM 27 9 11;
   OutM 28 20 11; Out 29 31; Rd; OrOut 29 10 (11 - 10); OutM 30 10 11; Out 31 21].

Definition unpack12_32 : list Z -> list Z -> list Z := runStmts
  [Rd; OutM 0 0 12; OutM 1 12 12; Out 2 24; Rd; OrOut 2 4 (12 - 4); OutM 3 4 12; OutM 4 16 12;
   Out 5 28; Rd; OrOut 5 8 (12 - 8); OutM 6 8 12; Out 7 20; Rd; OutM 8 0 12; OutM 9 12 12;
   Out 10 24; Rd; OrOut 10 4 (12 - 4); OutM 11 4 12; OutM 12 16 12; Out 13 28; Rd;
   OrOut 13 8 (12 - 8); OutM 14 8 12; Out 15 20; Rd; OutM 16 0 12; OutM 17 12 12; Out 18 24;
   Rd; OrOut 18 4 (12 - 4); OutM 19 4 12; OutM 20 16 12; Out 21 28; Rd; OrOut 21 8 (12 - 8);
   OutM 22 8 12; Out 23 20; Rd; OutM 24 0 12; OutM 25 12 12; Out 26 24; Rd;
   OrOut 26 4 (12 - 4); OutM 27 4 12; OutM 28 16 12; Out 29 28; Rd; OrOut 29 8 (12 - 8);
   OutM 30 8 12; Out 31 20].

Definition unpack13_32 : list Z -> list Z -> list Z := runStmts
  [Rd; OutM 0 0 13; OutM 1 13 13; Out 2 26; Rd; OrOut 2 7 (13 - 7); OutM 3 7 13; Out 4 20; Rd;
   OrOut 4 1 (13 - 1); OutM 5 1 13; OutM 6 14 13; Out 7 27; Rd; OrOut 7 8 (13 - 8);
   OutM 8 8 13; Out 9 21; Rd; OrOut 9 2 (13 - 2); OutM 10 2 13; OutM 11 15 13; Out 12 28; Rd;
   OrOut 12 9 (13 - 9); OutM 13 9 13; Out 14 22; Rd; OrOut 14 3 (13 - 3); OutM 15 3 13;
   OutM 16 16 13; Out 17 29; Rd; OrOut 17 10 (13 - 10); OutM 18 10 13; Out 19 23; Rd;
   OrOut 19 4 (13 - 4); OutM 20 4 13; OutM 21 17 13; Out 22 30; Rd; OrOut 22 11 (13 - 11);
   OutM 23 11 13; Out 24 24; Rd; OrOut 24 5 (13 - 5); OutM 25 5 13; OutM 26 18 13; Out 27 31;
   Rd; OrOut 27 12 (13 - 12); OutM 28 12 13; Out 29 25; Rd; OrOut 29 6 (13 - 6); OutM 30 6 13;
   Out 31 19].

Definition unpack14_32 : list Z -> list Z -> list Z := runStmts
  [Rd; OutM 0 0 14; OutM 1 14 14; Out 2 28; Rd; OrOut 2 10 (14 - 10); OutM 3 10 14; Out 4 24;
   Rd; OrOut 4 6 (14 - 6); OutM 5 6 14; Out 6 20; Rd; OrOut 6 2 (14 - 2); OutM 7 2 14;
   OutM 8 16 14; Out 9 30; Rd; OrOut 9 12 (14 - 12); OutM 10 12 14; Out 11 26; Rd;
   OrOut 11 8 (14 - 8); OutM 12 8 14; Out 13 22; Rd; OrOut 13 4 (14 - 4); OutM 14 4 14;
   Out 15 18; Rd; OutM 16 0 14; OutM 17 14 14; Out 18 28; Rd; OrOut 18 10 (14 - 10);
   OutM 19 10 14; Out 20 24; Rd; OrOut 20 6 (14 - 6); OutM 21 6 14; Out 22 20; Rd;
   OrOut 22 2 (14 - 2); OutM 23 2 14; OutM 24 16 14; Out 25 30; Rd; OrOut 25 12 (14 - 12);
   OutM 26 12 14; Out 27 26; Rd; OrOut 27 8 (14 - 8); OutM 28 8 14; Out 29 22; Rd;
   OrOut 29 4 (14 - 4); OutM 30 4 14; Out 31 18].

Definition unpack15_32 : list Z -> list Z -> list Z := runStmts
  [Rd; OutM 0 0 15; OutM 1 15 15; Out 2 30; Rd; OrOut 2 13 (15 - 13); OutM 3 13 15; Out 4 28;
   Rd; OrOut 4 11 (15 - 11); OutM 5 11 15; Out 6 26; Rd; OrOut 6 9 (15 - 9); OutM 7 9 15;
   Out 8 24; Rd; OrOut 8 7 (15 - 7); OutM 9 7 15; Out 10 22; Rd; OrOut 10 5 (15 - 5);
   OutM 11 5 15; Out 12 20; Rd; OrOut 12 3 (15 - 3); OutM 13 3 15; Out 14 18; Rd;
   OrOut 14 1 (15 - 1); OutM 15 1 15; OutM 16 16 15; Out 17 31; Rd; OrOut 17 14 (15 - 14);
   OutM 18 14 15; Out 19 29; Rd; OrOut 19 12 (15 - 12); OutM 20 12 15; Out 21 27; Rd;
   OrOut 21 10 (15 - 10); OutM 22 10 15; Out 23 25; Rd; OrOut 23 8 (15 - 8); OutM 24 8 15;
   Out 25 23; Rd; OrOut 25 6 (15 - 6); OutM 26 6 15; Out 27 21; Rd; OrOut 27 4 (15 - 4);
   OutM 28 4 15; Out 29 19; Rd; OrOut 29 2 (15 - 2); OutM 30 2 15; Out 31 17].

Definition unpack16_32 : list Z -> list Z -> list Z := runStmts
  (flat_map (fun i => [Rd; OutM (i * 2) 0 16; Out (i * 2 + 1) 16]) (seq 0 16)).

Definition unpack17_32 : list Z -> list Z -> list Z := runStmts
  [Rd; OutM 0 0 17; Out 1 17; Rd; OrOut 1 2 (17 - 2); OutM 2 2 17; Out 3 19; Rd;
   OrOut 3 4 (17 - 4); OutM 4 4 17; Out 5 21; Rd; OrOut 5 6 (17 - 6); OutM 6 6 17; Out 7 23;
   Rd; OrOut 7 8 (17 - 8); OutM 8 8 17; Out 9 25; Rd; OrOut 9 10 (17 - 10); OutM 10 10 17;
   Out 11 27; Rd; OrOut 11 12 (17 - 12); OutM 12 12 17; Out 13 29; Rd; OrOut 13 14 (17 - 14);
   OutM 14 14 17; Out 15 31; Rd; OrOut 15 16 (17 - 16); Out 16 16; Rd; OrOut 16 1 (17 - 1);
   OutM 17 1 17; Out 18 18; Rd; OrOut 18 3 (17 - 3); OutM 19 3 17; Out 20 20; Rd;
   OrOut 20 5 (17 - 5); OutM 21 5 17; Out 22 22; Rd; OrOut 22 7 (17 - 7); OutM 23 7 17;
   Out 24 24; Rd; OrOut 24 9 (17 - 9); OutM 25 9 17; Out 26 26; Rd; OrOut 26 11 (17 - 11);
   OutM 27 11 17; Out 28 28; Rd; OrOut 28 13 (17 - 13); OutM 29 13 17; Out 30 30; Rd;
   OrOut 30 15 (17 - 15); Out 31 15].

Definition unpack18_32 : list Z -> list Z -> list Z := runStmts
  [Rd; OutM 0 0 18; Out 1 18; Rd; OrOut 1 4 (18 - 4); OutM 2 4 18; Out 3 22; Rd;
   OrOut 3 8 (18 - 8); OutM 4 8 18; Out 5 26; Rd; OrOut 5 12 (18 - 12); OutM 6 12 18; Out 7 30;
   Rd; OrOut 7 16 (18 - 16); Out 8 16; Rd; OrOut 8 2 (18 - 2); OutM 9 2 18; Out 10 20; Rd;
   OrOut 10 6 (18 - 6); OutM 11 6 18; Out 12 24; Rd; OrOut 12 10 (18 - 10); OutM 13 10 18;
   Out 14 28; Rd; OrOut 14 14 (18 - 14); Out 15 14; Rd; OutM 16 0 18; Out 17 18; Rd;
   OrOut 17 4 (18 - 4); OutM 18 4 18; Out 19 22; Rd; OrOut 19 8 (18 - 8); OutM 20 8 18;
   Out 21 26; Rd; OrOut 21 12 (18 - 12); OutM 22 12 18; Out 23 30; Rd; OrOut 23 16 (18 - 16);
   Out 24 16; Rd; OrOut 24 2 (18 - 2); OutM 25 2 18; Out 26 20; Rd; OrOut 26 6 (18 - 6);
   OutM 27 6 18; Out 28 24; Rd; OrOut 28 10 (18 - 10); OutM 29 10 18; Out 30 28; Rd;
   OrOut 30 14 (18 - 14); Out 31 14].

Definition unpack19_32 : list Z -> list Z -> list Z := runStmts
  [Rd; OutM 0 0 19; Out 1 19; Rd; OrOut 1 6 (19 - 6); OutM 2 6 19; Out 3 25; Rd;
   OrOut 3 12 (19 - 12); OutM 4 12 19; Out 5 31; Rd; OrOut 5 18 (19 - 18); Out 6 18; Rd;
   OrOut 6 5 (19 - 5); OutM 7 5 19; Out 8 24; Rd; OrOut 8 11 (19 - 11); OutM 9 11 19;
   Out 10 30; Rd; OrOut 10 17 (19 - 17); Out 11 17; Rd; OrOut 11 4 (19 - 4); OutM 12 4 19;
   Out 13 23; Rd; OrOut 13 10 (19 - 10); OutM 14 10 19; Out 15 29; Rd; OrOut 15 16 (19 - 16);
   Out 16 16; Rd; OrOut 16 3 (19 - 3); OutM 17 3 19; Out 18 22; Rd; OrOut 18 9 (19 - 9);
   OutM 19 9 19; Out 20 28; Rd; OrOut 20 15 (19 - 15); Out 21 15; Rd; OrOut 21 2 (19 - 2);
   OutM 22 2 19; Out 23 21; Rd; OrOut 23 8 (19 - 8); OutM 24 8 19; Out 25 27; Rd;
   OrOut 25 14 (19 - 14); Out 26 14; Rd; OrOut 26 1 (19 - 1); OutM 27 1 19; Out 28 20; Rd;
   OrOut 28 7 (19 - 7); OutM 29 7 19; Out 30 26; Rd; OrOut 30 13 (19 - 13); Out 31 13].

Definition unpack20_32 : list Z -> list Z -> list Z := runStmts
  [Rd; OutM 0 0 20; Out 1 20; Rd; OrOut 1 8 (20 - 8); OutM 2 8 20; Out 3 28; Rd;
   OrOut 3 16 (20 - 16); Out 4 16; Rd; OrOut 4 4 (20 - 4); OutM 5 4 20; Out 6 24; Rd;
   OrOut 6 12 (20 - 12); Out 7 12; Rd; OutM 8 0 20; Out 9 20; Rd; OrOut 9 8 (20 - 8);
   OutM 10 8 20; Out 11 28; Rd; OrOut 11 16 (20 - 16); Out 12 16; Rd; OrOut 12 4 (20 - 4);
   OutM 13 4 20; Out 14 24; Rd; OrOut 14 12 (20 - 12); Out 15 12; Rd; OutM 16 0 20; Out 17 20;
   Rd; OrOut 17 8 (20 - 8); OutM 18 8 20; Out 19 28; Rd; OrOut 19 16 (20 - 16); Out 20 16; Rd;
   OrOut 20 4 (20 - 4); OutM 21 4 20; Out 22 24; Rd; OrOut 22 12 (20 - 12); Out 23 12; Rd;
   OutM 24 0 20; Out 25 20; Rd; OrOut 25 8 (20 - 8); OutM 26 8 20; Out 27 28; Rd;
   OrOut 27 16 (20 - 16); Out 28 16; Rd; OrOut 28 4 (20 - 4); OutM 29 4 20; Out 30 24; Rd;
   OrOut 30 12 (20 - 12); Out 31 12].

Definition unpack21_32 : list Z -> list Z -> list Z := runStmts
  [Rd; OutM 0 0 21; Out 1 21; Rd; OrOut 1 10 (21 - 10); OutM 2 10 21; Out 3 31; Rd;
   OrOut 3 20 (21 - 20); Out 4 20; Rd; OrOut 4 9 (21 - 9); OutM 5 9 21; Out 6 30; Rd;
   OrOut 6 19 (21 - 19); Out 7 19; Rd; OrOut 7 8 (21 - 8); OutM 8 8 21; Out 9 29; Rd;
   OrOut 9 18 (21 - 18); Out 10 18; Rd; OrOut 10 7 (21 - 7); OutM 11 7 21; Out 12 28; Rd;
   OrOut 12 17 (21 - 17); Out 13 17; Rd; OrOut 13 6 (21 - 6); OutM 14 6 21; Out 15 27; Rd;
   OrOut 15 16 (21 - 16); Out 16 16; Rd; OrOut 16 5 (21 - 5); OutM 17 5 21; Out 18 26; Rd;
   OrOut 18 15 (21 - 15); Out 19 15; Rd; OrOut 19 4 (21 - 4); OutM 20 4 21; Out 21 25; Rd;
   OrOut 21 14 (21 - 14); Out 22 14; Rd; OrOut 22 3 (21 - 3); OutM 23 3 21; Out 24 24; Rd;
   OrOut 24 13 (21 - 13); Out 25 13; Rd; OrOut 25 2 (21 - 2); OutM 26 2 21; Out 27 23; Rd;
   OrOut 27 12 (21 - 12); Out 28 12; Rd; OrOut 28 1 (21 - 1); OutM 29 1 21; Out 30 22; Rd;
   OrOut 30 11 (21 - 11); Out 31 11].

Definition unpack22_32 : list Z -> list Z -> list Z := runStmts
  [Rd; OutM 0 0 22; Out 1 22; Rd; OrOut 1 12 (22 - 12); Out 2 12; Rd; OrOut 2 2 (22 - 2);
   OutM 3 2 22; Out 4 24; Rd; OrOut 4 14 (22 - 14); Out 5 14; Rd; OrOut 5 4 (22 - 4);
   OutM 6 4 22; Out 7 26; Rd; OrOut 7 16 (22 - 16); Out 8 16; Rd; OrOut 8 6 (22 - 6);
   OutM 9 6 22; Out 10 28; Rd; OrOut 10 18 (22 - 18); Out 11 18; Rd; OrOut 11 8 (22 - 8);
   OutM 12 8 22; Out 13 30; Rd; OrOut 13 20 (22 - 20); Out 14 20; Rd; OrOut 14 10 (22 - 10);
   Out 15 10; Rd; OutM 16 0 22; Out 17 22; Rd; OrOut 17 12 (22 - 12); Out 18 12; Rd;
   OrOut 18 2 (22 - 2); OutM 19 2 22; Out 20 24; Rd; OrOut 20 14 (22 - 14); Out 21 14; Rd;
   OrOut 21 4 (22 - 4); OutM 22 4 22; Out 23 26; Rd; OrOut 23 16 (22 - 16); Out 24 16; Rd;
   OrOut 24 6 (22 - 6); OutM 25 6 22; Out 26 28; Rd; OrOut 26 18 (22 - 18); Out 27 18; Rd;
   OrOut 27 8 (22 - 8); OutM 28 8 22; Out 29 30; Rd; OrOut 29 20 (22 - 20); Out 30 20; Rd;
   OrOut 30 10 (22 - 10); Out 31 10].

Definition unpack23_32 : list Z -> list Z -> list Z := runStmts
  [Rd; OutM 0 0 23; Out 1 23; Rd; OrOut 1 14 (23 - 14); Out 2 14; Rd; OrOut 2 5 (23 - 5);
   OutM 3 5 23; Out 4 28; Rd; OrOut 4 19 (23 - 19); Out 5 19; Rd; OrOut 5 10 (23 - 10);
   Out 6 10; Rd; OrOut 6 1 (23 - 1); OutM 7 1 23; Out 8 24; Rd; OrOut 8 15 (23 - 15); Out 9 15;
   Rd; OrOut 9 6 (23 - 6); OutM 10 6 23; Out 11 29; Rd; OrOut 11 20 (23 - 20); Out 12 20; Rd;
   OrOut 12 11 (23 - 11); Out 13 11; Rd; OrOut 13 2 (23 - 2); OutM 14 2 23; Out 15 25; Rd;
   OrOut 15 16 (23 - 16); Out 16 16; Rd; OrOut 16 7 (23 - 7); OutM 17 7 23; Out 18 30; Rd;
   OrOut 18 21 (23 - 21); Out 19 21; Rd; OrOut 19 12 (23 - 12); Out 20 12; Rd;
   OrOut 20 3 (23 - 3); OutM 21 3 23; Out 22 26; Rd; OrOut 22 17 (23 - 17); Out 23 17; Rd;
   OrOut 23 8 (23 - 8); OutM 24 8 23; Out 25 31; Rd; OrOut 25 22 (23 - 22); Out 26 22; Rd;
   OrOut 26 13 (23 - 13); Out 27 13; Rd; OrOut 27 4 (23 - 4); OutM 28 4 23; Out 29 27; Rd;
   OrOut 29 18 (23 - 18); Out 30 18; Rd; OrOut 30 9 (23 - 9); Out 31 9].

Definition unpack24_32 : list Z -> list Z -> list Z := runStmts
  (flat_map (fun i =>
     let base := (i * 4)%nat in
     [Rd; OutM base 0 24; Out (base + 1) 24;
      Rd; OrOut (base + 1) 16 (24 - 16); Out (base + 2) 16;
      Rd; OrOut (base + 2) 8 (24 - 8); Out (base + 3) 8]) (seq 0 8)).

Definition unpack25_32 : list Z -> list Z -> list Z := runStmts
  [Rd; OutM 0 0 25; Out 1 25; Rd; OrOut 1 18 (25 - 18); Out 2 18; Rd; OrOut 2 11 (25 - 11);
   Out 3 11; Rd; OrOut 3 4 (25 - 4); OutM 4 4 25; Out 5 29; Rd; OrOut 5 22 (25 - 22); Out 6 22;
   Rd; OrOut 6 15 (25 - 15); Out 7 15; Rd; OrOut 7 8 (25 - 8); Out 8 8; Rd; OrOut 8 1 (25 - 1);
   OutM 9 1 25; Out 10 26; Rd; OrOut 10 19 (25 - 19); Out 11 19; Rd; OrOut 11 12 (25 - 12);
   Out 12 12; Rd; OrOut 12 5 (25 - 5); OutM 13 5 25; Out 14 30; Rd; OrOut 14 23 (25 - 23);
   Out 15 23; Rd; OrOut 15 16 (25 - 16); Out 16 16; Rd; OrOut 16 9 (25 - 9); Out 17 9; Rd;
   OrOut 17 2 (25 - 2); OutM 18 2 25; Out 19 27; Rd; OrOut 19 20 (25 - 20); Out 20 20; Rd;
   OrOut 20 13 (25 - 13); Out 21 13; Rd; OrOut 21 6 (25 - 6); OutM 22 6 25; Out 23 31; Rd;
   OrOut 23 24 (25 - 24); Out 24 24; Rd; OrOut 24 17 (25 - 17); Out 25 17; Rd;
   OrOut 25 10 (25 - 10); Out 26 10; Rd; OrOut 26 3 (25 - 3); OutM 27 3 25; Out 28 28; Rd;
   OrOut 28 21 (25 - 21); Out 29 21; Rd; OrOut 29 14 (25 - 14); Out 30 14; Rd;
   OrOut 30 7 (25 - 7); Out 31 7].

Definition unpack26_32 : list Z -> list Z -> list Z := runStmts
  [Rd; OutM 0 0 26; Out 1 26; Rd; OrOut 1 20 (26 - 20); Out 2 20; Rd; OrOut 2 14 (26 - 14);
   Out 3 14; Rd; OrOut 3 8 (26 - 8); Out 4 8; Rd; OrOut 4 2 (26 - 2); OutM 5 2 26; Out 6 28;
   Rd; OrOut 6 22 (26 - 22); Out 7 22; Rd; OrOut 7 16 (26 - 16); Out 8 16; Rd;
   OrOut 8 10 (26 - 10); Out 9 10; Rd; OrOut 9 4 (26 - 4); OutM 10 4 26; Out 11 30; Rd;
   OrOut 11 24 (26 - 24); Out 12 24; Rd; OrOut 12 18 (26 - 18); Out 13 18; Rd;
   OrOut 13 12 (26 - 12); Out 14 12; Rd; OrOut 14 6 (26 - 6); Out 15 6; Rd; OutM 16 0 26;
   Out 17 26; Rd; OrOut 17 20 (26 - 20); Out 18 20; Rd; OrOut 18 14 (26 - 14); Out 19 14; Rd;
   OrOut 19 8 (26 - 8); Out 20 8; Rd; OrOut 20 2 (26 - 2); OutM 21 2 26; Out 22 28; Rd;
   OrOut 22 22 (26 - 22); Out 23 22; Rd; OrOut 23 16 (26 - 16); Out 24 16; Rd;
   OrOut 24 10 (26 - 10); Out 25 10; Rd; OrOut 25 4 (26 - 4); OutM 26 4 26; Out 27 30; Rd;
   OrOut 27 24 (26 - 24); Out 28 24; Rd; OrOut 28 18 (26 - 18); Out 29 18; Rd;
   OrOut 29 12 (26 - 12); Out 30 12; Rd; OrOut 30 6 (26 - 6); Out 31 6].

Definition unpack27_32 : list Z -> list Z -> list Z := runStmts
  [Rd; OutM 0 0 27; Out 1 27; Rd; OrOut 1 22 (27 - 22); Out 2 22; Rd; OrOut 2 17 (27 - 17);
   Out 3 17; Rd; OrOut 3 12 (27 - 12); Out 4 12; Rd; OrOut 4 7 (27 - 7); Out 5 7; Rd;
   OrOut 5 2 (27 - 2); OutM 6 2 27; Out 7 29; Rd; OrOut 7 24 (27 - 24); Out 8 24; Rd;
   OrOut 8 19 (27 - 19); Out 9 19; Rd; OrOut 9 14 (27 - 14); Out 10 14; Rd;
   OrOut 10 9 (27 - 9); Out 11 9; Rd; OrOut 11 4 (27 - 4); OutM 12 4 27; Out 13 31; Rd;
   OrOut 13 26 (27 - 26); Out 14 26; Rd; OrOut 14 21 (27 - 21); Out 15 21; Rd;
   OrOut 15 16 (27 - 16); Out 16 16; Rd; OrOut 16 11 (27 - 11); Out 17 11; Rd;
   OrOut 17 6 (27 - 6); Out 18 6; Rd; OrOut 18 1 (27 - 1); OutM 19 1 27; Out 20 28; Rd;
   OrOut 20 23 (27 - 23); Out 21 23; Rd; OrOut 21 18 (27 - 18); Out 22 18; Rd;
   OrOut 22 13 (27 - 13); Out 23 13; Rd; OrOut 23 8 (27 - 8); Out 24 8; Rd;
   OrOut 24 3 (27 - 3); OutM 25 3 27; Out 26 30; Rd; OrOut 26 25 (27 - 25); Out 27 25; Rd;
   OrOut 27 20 (27 - 20); Out 28 20; Rd; OrOut 28 15 (27 - 15); Out 29 15; Rd;
   OrOut 29 10 (27 - 10); Out 30 10; Rd; OrOut 30 5 (27 - 5); Out 31 5].

Definition unpack28_32 : list Z -> list Z -> list Z := runStmts
  (flat_map (fun i =>
     let base := (i * 8)%nat in
     [Rd; OutM base 0 28; Out (base + 1) 28;
      Rd; OrOut (base + 1) 24 (28 - 24); Out (base + 2) 24;
      Rd; OrOut (base + 2) 20 (28 - 20); Out (base + 3) 20;
      Rd; OrOut (base + 3) 16 (28 - 16); Out (base + 4) 16;
      Rd; OrOut (base + 4) 12 (28 - 12); Out (base + 5) 12;
      Rd; OrOut (base + 5) 8 (28 - 8); Out (base + 6) 8;
      Rd; OrOut (base + 6) 4 (28 - 4); Out (base + 7) 4]) (seq 0 4)).

Definition unpack29_32 : list Z -> list Z -> list Z := runStmts
  [Rd; OutM 0 0 29; Out 1 29; Rd; OrOut 1 26 (29 - 26); Out 2 26; Rd; OrOut 2 23 (29 - 23);
   Out 3 23; Rd; OrOut 3 20 (29 - 20); Out 4 20; Rd; OrOut 4 17 (29 - 17); Out 5 17; Rd;
   OrOut 5 14 (29 - 14); Out 6 14; Rd; OrOut 6 11 (29 - 11); Out 7 11; Rd; OrOut 7 8 (29 - 8);
   Out 8 8; Rd; OrOut 8 5 (29 - 5); Out 9 5; Rd; OrOut 9 2 (29 - 2); OutM 10 2 29; Out 11 31;
   Rd; OrOut 11 28 (29 - 28); Out 12 28; Rd; OrOut 12 25 (29 - 25); Out 13 25; Rd;
   OrOut 13 22 (29 - 22); Out 14 22; Rd; OrOut 14 19 (29 - 19); Out 15 19; Rd;
   OrOut 15 16 (29 - 16); Out 16 16; Rd; OrOut 16 13 (29 - 13); Out 17 13; Rd;
   OrOut 17 10 (29 - 10); Out 18 10; Rd; OrOut 18 7 (29 - 7); Out 19 7; Rd;
   OrOut 19 4 (29 - 4); Out 20 4; Rd; OrOut 20 1 (29 - 1); OutM 21 1 29; Out 22 30; Rd;
   OrOut 22 27 (29 - 27); Out 23 27; Rd; OrOut 23 24 (29 - 24); Out 24 24; Rd;
   OrOut 24 21 (29 - 21); Out 25 21; Rd; OrOut 25 18 (29 - 18); Out 26 18; Rd;
   OrOut 26 15 (29 - 15); Out 27 15; Rd; OrOut 27 12 (29 - 12); Out 28 12; Rd;
   OrOut 28 9 (29 - 9); Out 29 9; Rd; OrOut 29 6 (29 - 6); Out 30 6; Rd; OrOut 30 3 (29 - 3);
   Out 31 3].

Definition unpack30_32 : list Z -> list Z -> list Z := runStmts
  [Rd; OutM 0 0 30; Out 1 30; Rd; OrOut 1 28 (30 - 28); Out 2 28; Rd; OrOut 2 26 (30 - 26);
   Out 3 26; Rd; OrOut 3 24 (30 - 24); Out 4 24; Rd; OrOut 4 22 (30 - 22); Out 5 22; Rd;
   OrOut 5 20 (30 - 20); Out 6 20; Rd; OrOut 6 18 (30 - 18); Out 7 18; Rd;
   OrOut 7 16 (30 - 16); Out 8 16; Rd; OrOut 8 14 (30 - 14); Out 9 14; Rd;
   OrOut 9 12 (30 - 12); Out 10 12; Rd; OrOut 10 10 (30 - 10); Out 11 10; Rd;
   OrOut 11 8 (30 - 8); Out 12 8; Rd; OrOut 12 6 (30 - 6); Out 13 6; Rd; OrOut 13 4 (30 - 4);
   Out 14 4; Rd; OrOut 14 2 (30 - 2); Out 15 2; Rd; OutM 16 0 30; Out 17 30; Rd;
   OrOut 17 28 (30 - 28); Out 18 28; Rd; OrOut 18 26 (30 - 26); Out 19 26; Rd;
   OrOut 19 24 (30 - 24); Out 20 24; Rd; OrOut 20 22 (30 - 22); Out 21 22; Rd;
   OrOut 21 20 (30 - 20); Out 22 20; Rd; OrOut 22 18 (30 - 18); Out 23 18; Rd;
   OrOut 23 16 (30 - 16); Out 24 16; Rd; OrOut 24 14 (30 - 14); Out 25 14; Rd;
   OrOut 25 12 (30 - 12); Out 26 12; Rd; OrOut 26 10 (30 - 10); Out 27 10; Rd;
   OrOut 27 8 (30 - 8); Out 28 8; Rd; OrOut 28 6 (30 - 6); Out 29 6; Rd; OrOut 29 4 (30 - 4);
   Out 30 4; Rd; OrOut 30 2 (30 - 2); Out 31 2].

Definition unpack31_32 : list Z -> list Z -> list Z := runStmts
  [Rd; OutM 0 0 31; Out 1 31; Rd; OrOut 1 30 (31 - 30); Out 2 30; Rd; OrOut 2 29 (31 - 29);
   Out 3 29; Rd; OrOut 3 28 (31 - 28); Out 4 28; Rd; OrOut 4 27 (31 - 27); Out 5 27; Rd;
   OrOut 5 26 (31 - 26); Out 6 26; Rd; OrOut 6 25 (31 - 25); Out 7 25; Rd;
   OrOut 7 24 (31 - 24); Out 8 24; Rd; OrOut 8 23 (31 - 23); Out 9 23; Rd;
   OrOut 9 22 (31 - 22); Out 10 22; Rd; OrOut 10 21 (31 - 21); Out 11 21; Rd;
   OrOut 11 20 (31 - 20); Out 12 20; Rd; OrOut 12 19 (31 - 19); Out 13 19; Rd;
   OrOut 13 18 (31 - 18); Out 14 18; Rd; OrOut 14 17 (31 - 17); Out 15 17; Rd;
   OrOut 15 16 (31 - 16); Out 16 16; Rd; OrOut 16 15 (31 - 15); Out 17 15; Rd;
   OrOut 17 14 (31 - 14); Out 18 14; Rd; OrOut 18 13 (31 - 13); Out 19 13; Rd;
   OrOut 19 12 (31 - 12); Out 20 12; Rd; OrOut 20 11 (31 - 11); Out 21 11; Rd;
   OrOut 21 10 (31 - 10); Out 22 10; Rd; OrOut 22 9 (31 - 9); Out 23 9; Rd;
   OrOut 23 8 (31 - 8); Out 24 8; Rd; OrOut 24 7 (31 - 7); Out 25 7; Rd; OrOut 25 6 (31 - 6);
   Out 26 6; Rd; OrOut 26 5 (31 - 5); Out 27 5; Rd; OrOut 27 4 (31 - 4); Out 28 4; Rd;
   OrOut 28 3 (31 - 3); Out 29 3; Rd; OrOut 29 2 (31 - 2); Out 30 2; Rd; OrOut 30 1 (31 - 1);
   Out 31 1].

Definition unpack32_32 : list Z -> list Z -> list Z := runStmts
  (map RdOut (seq 0 32)).

(** [nullunpack32]: 32 zeros, by doubling copies. *)
Definition nullunpack32 (inp out : list Z) : list Z :=
  fold_left (fun o i => splice o i (firstn i o)) [1; 2; 4; 8; 16]%nat (upd out 0 0).

(** The routine [unpack32Default] selects for a width; [None] is its [default] case. *)
Definition unpackFunc (nbits : Z) : option (list Z -> list Z -> list Z) :=
  match nbits with
  | 0 => Some nullunpack32
  | 1 => Some unpack1_32
  | 2 => Some unpack2_32
  | 3 => Some unpack3_32
  | 4 => Some unpack4_32
  | 5 => Some unpack5_32
  | 6 => Some unpack6_32
  | 7 => Some unpack7_32
  | 8 => Some unpack8_32
  | 9 => Some unpack9_32
  | 10 => Some unpack10_32
  | 11 => Some unpack11_32
  | 12 => Some unpack12_32
  | 13 => Some unpack13_32
  | 14 => Some unpack14_32
  | 15 => Some unpack15_32
  | 16 => Some unpack16_32
  | 17 => Some unpack17_32
  | 18 => Some unpack18_32
  | 19 => Some unpack19_32
  | 20 => Some unpack20_32
  | 21 => Some unpack21_32
  | 22 => Some unpack22_32
  | 23 => Some unpack23_32
  | 24 => Some unpack24_32
  | 25 => Some unpack25_32
  | 26 => Some unpack26_32
  | 27 => Some unpack27_32
  | 28 => Some unpack28_32
  | 29 => Some unpack29_32
  | 30 => Some unpack30_32
  | 31 => Some unpack31_32
  | 32 => Some unpack32_32
  | _ => None
  end.

(** The loop of [unpack32Default]; [out] is [out[i*32:]], the count is what has been
    unpacked in this and the later iterations. *)
Fixpoint unpackLoop (f : list Z -> list Z -> list Z) (packedBytes : Z) (nloops : nat)
    (r : BytesReader.t) (out : list Z) : BytesReader.t * list Z * Z * option goerr :=
  match nloops with
  | O => (r, out, 0, None)
  | S n =>
      match BytesReader.ReadFull r packedBytes with
      | (r1, _, Some e) => (r1, out, 0, Some e)
      | (r1, packed, None) =>
          let o := f packed out in
          let '(r2, rest, cnt, e) := unpackLoop f packedBytes n r1 (skipn 32 o) in
          (r2, firstn 32 o ++ rest, 32 + cnt, e)
      end
  end.

(** [unpack32Default(in, out, nbits)]: the reader and the slice afterwards, the number of
    values unpacked, the error. *)
Definition unpack32Default (r : BytesReader.t) (out : list Z) (nbits : Z)
    : BytesReader.t * list Z * Z * option goerr :=
  let nloops := (List.length out / 32)%nat in
  match unpackFunc nbits with
  | None => (r, out, 0, None)
  | Some f => unpackLoop f (nbits * 4) nloops r out
  end.

(** ** Which field of the input each output holds *)

(** [a_next]: bits read so far; [a_cur]: the bit position of the word in [inl];
    [a_out]: per output, the position and width of the field it holds. *)
Record astate : Type :=
  mkA { a_next : Z; a_cur : option Z; a_out : list (option (Z * Z)) }.

Definition absStmt (total : Z) (c : stmt) (a : astate) : option astate :=
  let '(mkA nx cur out) := a in
  let ok (k : nat) := (k <? 32)%nat && (k <? List.length out)%nat in
  match c, cur with
  | Rd, _ => if nx + 32 <=? total then Some (mkA (nx + 32) (Some nx) out) else None
  | RdOut k, _ =>
      if (nx + 32 <=? total) && ok k
      then Some (mkA (nx + 32) cur (upd out k (Some (nx, 32)))) else None
  | Out k s, Some c0 =>
      if ok k && (0 <=? s) && (s <=? 32)
      then Some (mkA nx cur (upd out k (Some (c0 + s, 32 - s)))) else None
  | OutM k s m, Some c0 =>
      if ok k && (0 <=? s) && (s <=? 32) && (0 <=? m)
      then Some (mkA nx cur (upd out k (Some (c0 + s, Z.min m (32 - s))))) else None
  | OutAnd k s b, Some c0 =>
      if ok k && (0 <=? s) && (s <? 32) && (b =? 1)
      then Some (mkA nx cur (upd out k (Some (c0 + s, 1)))) else None
  | OrOut k m d, Some c0 =>
      match nth k out None with
      | Some (p, l) =>
          if ok k && (p + l =? c0) && (d =? l) && (0 <=? m) && (l + m <=? 32)
          then Some (mkA nx cur (upd out k (Some (p, l + m)))) else None
      | None => None
      end
  | _, None => None
  end.

Fixpoint absRun (total : Z) (p : list stmt) (a : astate) : option astate :=
  match p with
  | [] => Some a
  | c :: p' => match absStmt total c a with Some a' => absRun total p' a' | None => None end
  end.

Definition eqField (x : option (Z * Z)) (p l : Z) : bool :=
  match x with Some (p', l') => (p' =? p) && (l' =? l) | None => false end.

(** The routine [p] puts field [k] of width [n] into output [k], for all [k < 32]. *)
Definition absCheck (n : Z) (p : list stmt) : bool :=
  match absRun (32 * n) p (mkA 0 None (repeat None 32)) with
  | Some a => (List.length (a_out a) =? 32)%nat &&
              forallb (fun k => eqField (nth k (a_out a) None) (Z.of_nat k * n) n) (seq 0 32)
  | None => false
  end.

Section Soundness.
Variables (inp0 out0 : list Z) (total : Z).
Hypothesis (Hbytes : bytes inp0) (Htotal : total <= 8 * len inp0).
Let W := leval inp0.

(** Output [k] of [out] is the field the abstract output names. *)
Definition outRel (aout : list (option (Z * Z))) (out : list Z) : Prop :=
  forall k p l, nth k aout None = Some (p, l) ->
    0 <= p /\ 0 <= l /\ nth k out 0 = field W p l.

Record absRel (a : astate) (u : ustate) : Prop := mkRel {
  rel_next : 0 <= a_next a /\ a_next a mod 32 = 0;
  rel_in : u_in u = skipn (Z.to_nat (a_next a / 8)) inp0;
  rel_cur : forall c, a_cur a = Some c -> 0 <= c /\ u_inl u = field W c 32;
  rel_out : outRel (a_out a) (u_out u);
  rel_len : (32 <= List.length (u_out u))%nat;
  rel_len0 : List.length (u_out u) = List.length out0;
  rel_rest : skipn 32 (u_out u) = skipn 32 out0
}.

Lemma binaryRead_field nx old :
  0 <= nx -> nx mod 32 = 0 -> nx + 32 <= total ->
  binaryRead (skipn (Z.to_nat (nx / 8)) inp0) old
    = (skipn (Z.to_nat ((nx + 32) / 8)) inp0, field W nx 32).
Proof.
  intros H0 Hm Ht. unfold binaryRead. rewrite length_skipn.
  assert (Hq : nx = 8 * (nx / 8)) by zdiv.
  assert ((nx + 32) / 8 = nx / 8 + 4) by zdiv.
  bool_lia (4 <=? Z.of_nat (List.length inp0 - Z.to_nat (nx / 8))).
  rewrite skipn_skipn. f_equal; [f_equal; lia|].
  rewrite leval_slice by assumption. unfold W. f_equal; lia.
Qed.

Lemma outRel_upd aout out k p l v :
  outRel aout out -> (k < List.length out)%nat -> (k < List.length aout)%nat ->
  0 <= p -> 0 <= l -> v = field W p l ->
  outRel (upd aout k (Some (p, l))) (upd out k v).
Proof.
  intros HR Hk Hka Hp Hl -> k' p' l' Hn. destruct (Nat.eq_dec k k') as [<-|Hne].
  - rewrite nth_upd_eq in Hn by assumption. injection Hn as <- <-.
    rewrite nth_upd_eq by assumption. auto.
  - rewrite nth_upd_ne in Hn by assumption. rewrite nth_upd_ne by assumption. now apply HR.
Qed.

(** Shifting and masking a word takes a field of it. *)
Lemma shift_field c s : 0 <= c -> 0 <= s <= 32 -> field W c 32 >> s = field W (c + s) (32 - s).
Proof.
  intros. rewrite shiftr_div by lia. unfold field at 1.
  replace (2 ^ 32) with (2 ^ (s + (32 - s))) by (f_equal; lia).
  rewrite div_mod_pow2 by lia. apply (field_shift W c s (32 - s)); lia.
Qed.

Lemma field_narrow x p n m : 0 <= p -> 0 <= n -> 0 <= m -> field x p n mod 2 ^ m = field x p (Z.min m n).
Proof.
  intros. destruct (Z.le_gt_cases m n).
  - rewrite Z.min_l by lia. unfold field. apply mod_mod_pow2; lia.
  - rewrite Z.min_r by lia. pose proof (field_bound x p n). pose proof (pow2_le n m).
    apply Z.mod_small; lia.
Qed.

(** Two adjacent fields, the upper one shifted into place. *)
Lemma or_fields p l c m :
  0 <= p -> 0 <= l -> p + l = c -> 0 <= m -> l + m <= 32 ->
  Z.lor (field W p l) (u32 (Z.shiftl (field W c 32 mod 2 ^ m) l)) = field W p (l + m).
Proof.
  intros Hp Hl <- Hm Hlm. rewrite field_narrow, Z.min_l by lia. rewrite shiftl_mul by lia.
  pose proof (field_bound W (p + l) m Hm). pose proof (field_bound W p l Hl).
  pose proof (pow2_pos l Hl). pose proof (pow2_pos m Hm).
  assert (2 ^ l * 2 ^ m <= 2 ^ 32) by (rewrite <- Z.pow_add_r by lia; apply pow2_le; lia).
  unfold u32. rewrite Z.mod_small by nia.
  rewrite lor_disjoint by lia. rewrite field_split by lia. lia.
Qed.

(** Closes a case in which one output is updated. *)
Ltac rel_upd :=
  constructor; cbn [a_next a_cur a_out u_in u_inl u_out];
    rewrite ?length_upd, ?skipn_upd by lia; auto; apply outRel_upd; auto; try lia.

Lemma absStmt_sound c a a' u :
  absStmt total c a = Some a' -> absRel a u -> absRel a' (execStmt c u).
Proof.
  destruct a as [nx cur aout], u as [inp v out].
  intros HA [[Hnx Hm] Hin Hcur Hout Hlen Hlen0 Hrest]; cbn [a_next a_cur a_out u_in u_inl u_out] in *.
  destruct c; cbv beta iota zeta delta [absStmt] in HA; try destruct cur as [c0|]; try discriminate;
    repeat match type of HA with
    | context [if ?b then _ else _] => destruct b eqn:?; try discriminate
    | context [match nth ?k ?o None with _ => _ end] => destruct (nth k o None) as [[p l]|] eqn:?; try discriminate
    end;
    apply Some_inj in HA; subst a'; cbn [execStmt];
    rewrite ?andb_true_iff, ?Nat.ltb_lt, ?Z.leb_le, ?Z.ltb_lt, ?Z.eqb_eq in *; unpack; subst;
    rewrite ?binaryRead_field by lia;
    try (specialize (Hcur _ eq_refl) as Hc; destruct Hc as [Hc0 Hv]; rewrite Hv in *; clear Hv).
  1, 2: constructor; cbn [a_next a_cur a_out u_in u_inl u_out]; auto;
    [split; [lia|zdiv] | intros c' Hc'; apply Some_inj in Hc'; subst c'; auto].
  1, 2: constructor; cbn [a_next a_cur a_out u_in u_inl u_out]; rewrite ?length_upd, ?skipn_upd by lia;
    auto; [split; [lia|zdiv] | apply outRel_upd; auto; lia].
  all: try match goal with E : nth _ _ None = Some _ |- _ => destruct (Hout _ _ _ E) as (Hp & Hl & HE) end.
  all: rel_upd.
  - apply shift_field; lia.
  - rewrite shift_field, field_narrow by lia. reflexivity.
  - rewrite shift_field by lia. change 1 with (Z.ones 1) at 1. rewrite Z.land_ones by lia.
    rewrite field_narrow, Z.min_l by lia. reflexivity.
  - rewrite HE. apply or_fields; lia.
Qed.

Lemma absRun_sound p a a' u :
  absRun total p a = Some a' -> absRel a u ->
  absRel a' (fold_left (fun u c => execStmt c u) p u).
Proof.
  revert a u; induction p as [|c p IH]; cbn [absRun fold_left]; intros a u HA HR.
  - apply Some_inj in HA; now subst.
  - destruct (absStmt total c a) as [a1|] eqn:E; [|discriminate].
    apply (IH a1); auto. eapply absStmt_sound; eauto.
Qed.

End Soundness.

(** A routine that passes the check unpacks its input. *)
Lemma absCheck_sound n p inp out :
  absCheck n p = true -> 0 <= n -> bytes inp -> 4 * n <= len inp -> (32 <= List.length out)%nat ->
  runStmts p inp out = fields (leval inp) 0 n 32 ++ skipn 32 out.
Proof.
  intros HC Hn Hb HL Ho. unfold absCheck in HC.
  destruct (absRun _ _ _) as [a|] eqn:E; [|discriminate].
  apply andb_true_iff in HC as [Hlen HF]. apply Nat.eqb_eq in Hlen. rewrite forallb_forall in HF.
  apply (absRun_sound inp out (32 * n)) with (u := mkU inp 0 out) in E; [|assumption|lia|].
  - unfold runStmts. destruct E as [_ _ _ HR _ HL0 Hrest].
    rewrite <- (firstn_skipn 32 (u_out _)). rewrite Hrest. f_equal.
    apply (nth_ext_eq _ _ 0); [rewrite length_firstn, length_fields; lia|].
    rewrite length_firstn. intros k Hk. rewrite nth_firstn.
    replace (k <? 32)%nat with true by (symmetry; apply Nat.ltb_lt; lia).
    specialize (HF k). rewrite in_seq in HF. specialize (HF ltac:(lia)). unfold eqField in HF.
    destruct (nth k (a_out a) None) as [[p' l']|] eqn:Ek; [|discriminate].
    apply andb_true_iff in HF as [H1 H2]. apply Z.eqb_eq in H1, H2. subst.
    destruct (HR _ _ _ Ek) as (_ & _ & ->). unfold fields.
    rewrite (nth_indep _ 0 (field (leval inp) (0 + Z.of_nat 0 * n) n)) by (rewrite length_map, length_seq; lia).
    rewrite (map_nth (fun j => field (leval inp) (0 + Z.of_nat j * n) n)), seq_nth by lia. reflexivity.
  - constructor; cbn [a_next a_cur a_out u_in u_inl u_out]; auto; [now split|discriminate|].
    intros k p' l' Hk. exfalso. rewrite nth_repeat in Hk. discriminate.
Qed.

(** One doubling copy of [nullunpack32]. *)
Lemma double_zeros i out :
  (i + i <= List.length out)%nat ->
  splice (repeat 0 i ++ skipn i out) i (firstn i (repeat 0 i ++ skipn i out))
    = repeat 0 (i + i) ++ skipn (i + i) out.
Proof.
  intros H. rewrite firstn_app, repeat_length, Nat.sub_diag, firstn_O, app_nil_r.
  rewrite firstn_all2 by (rewrite repeat_length; lia).
  rewrite splice_in by (rewrite length_app, length_skipn, !repeat_length; lia).
  rewrite firstn_app, repeat_length, Nat.sub_diag, firstn_O, app_nil_r.
  rewrite firstn_all2 by (rewrite repeat_length; lia).
  rewrite skipn_app, repeat_length, (skipn_all2 (repeat 0 i)) by (rewrite repeat_length; lia).
  rewrite skipn_skipn, repeat_app, <- app_assoc. cbn [app]. do 3 f_equal. lia.
Qed.

Lemma nullunpack32_zeros inp out :
  (32 <= List.length out)%nat -> nullunpack32 inp out = repeat 0 32 ++ skipn 32 out.
Proof.
  intros H. unfold nullunpack32. cbn [fold_left].
  replace (upd out 0 0) with (repeat 0 1 ++ skipn 1 out) by (destruct out; [cbn in H; lia|reflexivity]).
  rewrite (double_zeros 1), (double_zeros 2), (double_zeros 4), (double_zeros 8), (double_zeros 16) by lia.
  reflexivity.
Qed.

(** ** The dispatch *)

Lemma unpackFunc_spec nbits f inp out :
  unpackFunc nbits = Some f -> bytes inp -> 4 * nbits <= len inp -> (32 <= List.length out)%nat ->
  f inp out = fields (leval inp) 0 nbits 32 ++ skipn 32 out.
Proof.
  intros Hf Hb HL Ho.
  destruct nbits as [|p|p]; [| |discriminate].
  - apply Some_inj in Hf; subst f. rewrite nullunpack32_zeros by assumption. f_equal.
    unfold fields. apply (nth_ext_eq _ _ 0); [reflexivity|]. cbn [List.length repeat]. intros k Hk.
    rewrite (map_ext _ (fun _ => 0)) by (intros; apply field_0_r).
    do 32 (destruct k as [|k]; [reflexivity|]). lia.
  - do 6 (try destruct p as [p|p|]); try discriminate; cbn [unpackFunc] in Hf; apply Some_inj in Hf;
      subst f; apply absCheck_sound; try assumption; try lia; vm_compute; reflexivity.
Qed.

Lemma unpackFunc_width nbits : 0 <= nbits <= 32 <-> exists f, unpackFunc nbits = Some f.
Proof.
  split.
  - intros H. assert (Hin : In nbits (map Z.of_nat (seq 0 33))).
    { apply in_map_iff. exists (Z.to_nat nbits). rewrite in_seq. lia. }
    cbn in Hin. repeat destruct Hin as [<-|Hin]; try (eexists; reflexivity). destruct Hin.
  - intros [f Hf]. destruct nbits as [|p|p]; [lia| |discriminate].
    do 6 (try destruct p as [p|p|]); try discriminate; lia.
Qed.

(** ** The loop *)

(** The fields of a slice of the data are fields of the data. *)
Lemma fields_slice data p n w k :
  bytes data -> 0 <= p -> 0 <= w -> Z.of_nat k * w <= 8 * Z.of_nat n ->
  fields (leval (firstn n (skipn (Z.to_nat p) data))) 0 w k = fields (leval data) (8 * p) w k.
Proof.
  intros Hb Hp Hw Hk. apply fields_ext; intros j Hj.
  rewrite leval_slice by assumption. rewrite field_field by nia. f_equal; lia.
Qed.

(** What [g] complete groups leave in the slice. *)
Definition groupsOut (data : list Z) (p nbits : Z) (g : nat) (out : list Z) : list Z :=
  fields (leval data) (8 * p) nbits (32 * g) ++ skipn (32 * g) out.

Lemma unpackLoop_spec f nbits k r out :
  unpackFunc nbits = Some f -> bytes (BytesReader.data r) -> 0 <= BytesReader.pos r ->
  (32 * k <= List.length out)%nat ->
  exists g r' e, unpackLoop f (nbits * 4) k r out
      = (r', groupsOut (BytesReader.data r) (BytesReader.pos r) nbits g out, 32 * Z.of_nat g, e) /\
    BytesReader.data r' = BytesReader.data r /\ 0 <= BytesReader.pos r' /\ (g <= k)%nat /\
    BytesReader.pos r + 4 * nbits * Z.of_nat g <= Z.max (BytesReader.pos r) (len (BytesReader.data r)) /\
    (g = k /\ e = None /\ BytesReader.pos r' = BytesReader.pos r + 4 * nbits * Z.of_nat g \/
     (g < k)%nat /\ (e = Some EOF \/ e = Some ErrUnexpectedEOF) /\
     len (BytesReader.data r) < BytesReader.pos r + 4 * nbits * (Z.of_nat g + 1)).
Proof.
  intros Hf Hb. assert (Hw : 0 <= nbits <= 32) by (apply unpackFunc_width; eauto).
  revert r out Hb. induction k as [|k IH]; intros r out Hb Hp Ho; cbn [unpackLoop].
  - exists O, r, None. unfold groupsOut. cbn [fields Nat.mul seq map app skipn Z.of_nat].
    rewrite !Z.mul_0_r, Z.add_0_r. repeat split; auto; lia.
  - assert (Hor : (nbits * 4 = 0 \/ BytesReader.pos r + nbits * 4 <= len (BytesReader.data r)) \/
                  0 < nbits /\ len (BytesReader.data r) < BytesReader.pos r + nbits * 4) by lia.
    destruct Hor as [Hle|[Hpos Hgt]].
    + rewrite BytesReader.ReadFull_ok by lia.
      set (packed := firstn _ _). set (r1 := BytesReader.mk _ _).
      assert (HLp : len packed = nbits * 4)
        by (subst packed; rewrite length_firstn, length_skipn; lia).
      rewrite (unpackFunc_spec nbits f) by (auto with gobytes; subst packed; auto with gobytes; lia).
      assert (HF : fields (leval packed) 0 nbits 32
                   = fields (leval (BytesReader.data r)) (8 * BytesReader.pos r) nbits 32)
        by (subst packed; apply fields_slice; auto; lia).
      rewrite HF, skipn_app, length_fields, Nat.sub_diag, skipn_all2, firstn_app, length_fields,
        Nat.sub_diag, firstn_O, app_nil_r, firstn_all2 by (rewrite length_fields; lia).
      rewrite skipn_O. cbn [app]. destruct (IH r1 (skipn 32 out)) as (g & r' & e & HE & Hd & Hp' & Hg & Hmax & Hcase);
        [exact Hb|cbn; lia|rewrite length_skipn; lia|].
      rewrite HE. exists (S g), r', e. cbn [r1 BytesReader.data BytesReader.pos] in *.
      split; [|repeat split; auto; try lia].
      2:{ destruct Hcase as [(-> & -> & ?)|(? & ? & ?)]; [left|right]; repeat split; auto; lia. }
      f_equal; f_equal; [|lia]. f_equal. unfold groupsOut. cbn [r1 BytesReader.data BytesReader.pos].
      replace (32 * S g)%nat with (32 + 32 * g)%nat by lia.
      rewrite fields_app, <- app_assoc, skipn_skipn. change (Z.of_nat 32) with 32.
      replace (8 * BytesReader.pos r + 32 * nbits) with (8 * (BytesReader.pos r + nbits * 4)) by lia.
      do 3 f_equal. lia.
    + destruct (BytesReader.ReadFull_short r (nbits * 4)) as (r1 & bs & e & HE & Hd & Hp1 & He); [lia..|].
      rewrite HE. exists O, r1, (Some e). unfold groupsOut. cbn [fields Nat.mul seq map app skipn Z.of_nat].
      rewrite !Z.mul_0_r, Z.add_0_r. repeat split; auto; try lia. right.
      destruct He; subst; repeat split; auto; lia.
Qed.


(** [unpack32Default] on any data: the complete groups that the data has and the slice
    can hold are unpacked; it fails exactly when the data ends before the last of them. *)
Lemma unpack32Default_ok r out nbits :
  0 <= nbits <= 32 -> bytes (BytesReader.data r) -> 0 <= BytesReader.pos r ->
  exists g r' e, unpack32Default r out nbits
      = (r', groupsOut (BytesReader.data r) (BytesReader.pos r) nbits g out, 32 * Z.of_nat g, e) /\
    BytesReader.data r' = BytesReader.data r /\ 0 <= BytesReader.pos r' /\ (32 * g <= List.length out)%nat /\
    BytesReader.pos r + 4 * nbits * Z.of_nat g <= Z.max (BytesReader.pos r) (len (BytesReader.data r)) /\
    (e = None /\ g = (List.length out / 32)%nat /\ BytesReader.pos r' = BytesReader.pos r + 4 * nbits * Z.of_nat g \/
     (e = Some EOF \/ e = Some ErrUnexpectedEOF) /\ (32 * (g + 1) <= List.length out)%nat /\
     len (BytesReader.data r) < BytesReader.pos r + 4 * nbits * (Z.of_nat g + 1)).
Proof.
  intros Hw Hb Hp. destruct (proj1 (unpackFunc_width nbits) Hw) as [f Hf].
  unfold unpack32Default. rewrite Hf. set (k := (List.length out / 32)%nat).
  pose proof (Nat.div_mod_eq (List.length out) 32) as Hdiv. fold k in Hdiv.
  destruct (unpackLoop_spec f nbits k r out Hf Hb Hp) as (g & r' & e & HE & Hd & Hp' & Hg & Hmax & Hcase); [lia|].
  exists g, r', e. repeat split; auto; [lia|].
  destruct Hcase as [(-> & -> & ?)|(? & ? & ?)]; [left|right]; repeat split; auto; lia.
Qed.

(** ** Claims *)

(** [unpack32Default] undoes bit packing, for every width from 0 to 32: on the bytes of
    [32 * g] packed values it returns these values and consumes all of the bytes. *)
Theorem unpack32_packed nbits vs out g :
  0 <= nbits <= 32 -> Forall (fits nbits) vs -> List.length vs = (32 * g)%nat -> List.length out = (32 * g)%nat ->
  let data := lebytes (4 * Z.to_nat nbits * g) (packed nbits vs) in
  unpack32Default (BytesReader.new data) out nbits
    = (BytesReader.mk data (len data), vs, len vs, None).
Proof.
  intros Hn HF HL Ho data.
  assert (Hld : len data = 4 * nbits * Z.of_nat g) by (subst data; rewrite length_lebytes; lia).
  destruct (unpack32Default_ok (BytesReader.new data) out nbits Hn) as (g' & [d' p'] & e & HE & Hd & _ & Hg & _ & Hc);
    [subst data; cbn; auto with gobytes|cbn; lia|].
  cbn [BytesReader.new BytesReader.data BytesReader.pos] in *. rewrite HE.
  rewrite Ho, Nat.mul_comm, Nat.div_mul in Hc by lia.
  destruct Hc as [(-> & -> & Hp)|(_ & Hlt & Hsh)]; [|nia].
  unfold groupsOut. rewrite skipn_all2, app_nil_r by lia.
  assert (Hv : leval data = packed nbits vs).
  { subst data. rewrite leval_lebytes. apply Z.mod_small. pose proof (packed_bound nbits vs ltac:(lia) HF) as Hb.
    replace (8 * Z.of_nat (4 * Z.to_nat nbits * g)) with (len vs * nbits) by lia. exact Hb. }
  rewrite Hv, Z.mul_0_r, <- HL, fields_packed by (auto; lia). subst d' p'.
  do 3 f_equal; [f_equal; lia|lia].
Qed.

(** On any data, [unpack32Default] unpacks the complete groups of 32 that the data has and
    the slice can hold, leaves the rest of the slice alone and reports their number; it
    reports an error exactly when the data ends before the last group the slice can hold. *)
Theorem unpack32_any r out nbits :
  0 <= nbits <= 32 -> bytes (BytesReader.data r) -> 0 <= BytesReader.pos r ->
  exists g r' e, unpack32Default r out nbits =
      (r', fields (leval (BytesReader.data r)) (8 * BytesReader.pos r) nbits (32 * g) ++ skipn (32 * g) out,
       32 * Z.of_nat g, e) /\
    (e = None /\ g = (List.length out / 32)%nat /\ BytesReader.pos r' = BytesReader.pos r + 4 * nbits * Z.of_nat g \/
     (e = Some EOF \/ e = Some ErrUnexpectedEOF) /\ (g < List.length out / 32)%nat /\
     len (BytesReader.data r) < BytesReader.pos r + 4 * nbits * (Z.of_nat g + 1)).
Proof.
  intros Hn Hb Hp. destruct (unpack32Default_ok r out nbits Hn Hb Hp) as (g & r' & e & HE & _ & _ & _ & _ & Hc).
  exists g, r', e. split; [exact HE|]. destruct Hc as [Hc|(He & Hg & Hs)]; [now left|right]. splits; auto.
  apply Nat.div_le_lower_bound; lia.
Qed.

