(* ===== verification/BitUtil.v ===== *)
(** * Bit utilities (arrow/bitutil/bitutil.go)

    A bitmap is a byte slice; bit [i] is bit [i mod 8] of byte [i / 8], that is bit [i] of
    the little-endian value of the slice.  Every function is translated with its run-time
    checks ([None]: an index out of range), and specified against [Z.testbit (leval buf)]. *)

From Stdlib Require Import ZArith List Lia Bool.
From S2P Require Import Prelude.
Import ListNotations.
#[local] Open Scope Z_scope.
#[local] Open Scope go_scope.

Definition BitMask : list Z := [1; 2; 4; 8; 16; 32; 64; 128].
Definition FlippedBitMask : list Z := [254; 253; 251; 247; 239; 223; 191; 127].
Definition PrecedingBitmask : list Z := [0; 1; 3; 7; 15; 31; 63; 127].
Definition TrailingBitmask : list Z := [255; 254; 252; 248; 240; 224; 192; 128].

Definition IsMultipleOf8 (v : Z) : bool := (v & 7) =? 0.
Definition IsMultipleOf64 (v : Z) : bool := (v & 63) =? 0.

Definition BytesForBits (bits : Z) : Z := i64 (bits + 7) >> 3.

(** [bits.Len(uint(x))] *)
Definition bitsLen (x : Z) : Z := let x := u64 x in if x =? 0 then 0 else Z.log2 x + 1.

Definition NextPowerOf2 (x : Z) : Z := i64 (Z.shiftl 1 (bitsLen x)).

Definition CeilByte (size : Z) : Z := Z.ldiff (i64 (size + 7)) 7.
Definition CeilByte64 (size : Z) : Z := Z.ldiff (i64 (size + 7)) 7.

(** ** Single bits *)

Definition BitIsSet (buf : list Z) (i : Z) : option bool :=
  b <- index buf (u64 i / 8) ;; m <- index BitMask (u8 i mod 8) ;;
  Some (negb ((b & m) =? 0)).

Definition BitIsNotSet (buf : list Z) (i : Z) : option bool :=
  b <- index buf (u64 i / 8) ;; m <- index BitMask (u8 i mod 8) ;;
  Some ((b & m) =? 0).

Definition SetBit (buf : list Z) (i : Z) : option (list Z) :=
  b <- index buf (u64 i / 8) ;; m <- index BitMask (u8 i mod 8) ;;
  store buf (u64 i / 8) (Z.lor b m).

Definition ClearBit (buf : list Z) (i : Z) : option (list Z) :=
  b <- index buf (u64 i / 8) ;; m <- index FlippedBitMask (u8 i mod 8) ;;
  store buf (u64 i / 8) (b & m).

(** The slice afterwards and whether the bit was set before. *)
Definition SetBitSwap (buf : list Z) (i : Z) : option (list Z * bool) :=
  old <- index buf (u64 i / 8) ;; mask <- index BitMask (u8 i mod 8) ;;
  buf' <- store buf (u64 i / 8) (Z.lor old mask) ;;
  Some (buf', negb ((old & mask) =? 0)).

Definition ClearBitSwap (buf : list Z) (i : Z) : option (list Z * bool) :=
  old <- index buf (u64 i / 8) ;; mask <- index BitMask (u8 i mod 8) ;;
  buf' <- store buf (u64 i / 8) (Z.ldiff old mask) ;;
  Some (buf', negb ((old & mask) =? 0)).

Definition SetBitTo (buf : list Z) (i : Z) (val : bool) : option (list Z) :=
  if val then SetBit buf i else ClearBit buf i.

(** ** Counting *)

(** The set bits among the lowest [n] of [x]; [bits.OnesCount64] and [OnesCount8]. *)
Fixpoint ones (n : nat) (x : Z) : Z :=
  match n with
  | O => 0
  | S n' => (if Z.odd x then 1 else 0) + ones n' (Z.div2 x)
  end.

Definition OnesCount64 (x : Z) : Z := ones 64 x.
Definition OnesCount8 (x : Z) : Z := ones 8 x.

Definition roundUp (v f : Z) : Z := Z.quot (v + (f - 1)) f * f.

(** The bytes as 64-bit words (arrow/bitutil/bitutil_bytes.go); [n] is [len(b) / 8]. *)
Fixpoint wordsOf (n : nat) (b : list Z) : list Z :=
  match n with
  | O => []
  | S n' => leval (firstn 8 b) :: wordsOf n' (skipn 8 b)
  end.

Definition bytesToUint64 (b : list Z) : list Z := wordsOf (List.length b / 8) b.

(** The loop [for i := lo; i < hi; i++ { if BitIsSet(buf, i) { count++ } }]. *)
Definition countLoop (buf : list Z) (lo hi count : Z) : option Z :=
  for_up (Z.to_nat (hi - lo)) lo
    (fun i c => s <- BitIsSet buf i ;; Some (if (s : bool) then c + 1 else c)) count.

(** [CountSetBits(buf, 0, n)], the part without an offset. *)
Definition countSetBitsAligned (buf : list Z) (n : Z) : option Z :=
  let uint64Bytes := Z.quot n 64 * 8 in
  head <- slice buf 0 uint64Bytes ;;
  let c1 := fold_left (fun c v => c + OnesCount64 v) (bytesToUint64 head) 0 in
  mid <- slice buf uint64Bytes (Z.quot n 8) ;;
  let c2 := fold_left (fun c v => c + OnesCount8 v) mid c1 in
  countLoop buf (Z.ldiff n 7) n c2.

(** [countSetBitsWithOffset] calls [CountSetBits] back with offset 0. *)
Definition countSetBitsWithOffset (buf : list Z) (offset n : Z) : option Z :=
  let beg := offset in
  let begU8 := roundUp beg 64 in
  let init := Z.min n (begU8 - beg) in
  count <- countLoop buf offset (beg + init) 0 ;;
  let begU64 := BytesForBits (beg + init) in
  rest <- slice buf begU64 (len buf) ;;
  c <- countSetBitsAligned rest (n - init) ;;
  Some (count + c).

Definition CountSetBits (buf : list Z) (offset n : Z) : option Z :=
  if 0 <? offset then countSetBitsWithOffset buf offset n else countSetBitsAligned buf n.

(** ** Ranges *)

(** [memory.Set(bits[lo:hi], fill)] *)
Definition memSet (bits : list Z) (lo hi fill : Z) : option (list Z) :=
  s <- slice bits lo hi ;;
  Some (splice bits (Z.to_nat lo) (repeat fill (List.length s))).

(** [bits[i] &= mask; bits[i] |= fill &^ mask] *)
Definition maskByte (bits : list Z) (i mask fill : Z) : option (list Z) :=
  b <- index bits i ;;
  bits1 <- store bits i (b & mask) ;;
  b1 <- index bits1 i ;;
  store bits1 i (Z.lor b1 (Z.ldiff fill mask)).

Definition SetBitsTo (bits : list Z) (startOffset length : Z) (areSet : bool) : option (list Z) :=
  if length =? 0 then Some bits
  else
    let beg := startOffset in
    let fin := startOffset + length in
    let fill := if areSet then 255 else 0 in
    let byteBeg := Z.quot beg 8 in
    let byteEnd := Z.quot fin 8 + 1 in
    firstByteMask <- index PrecedingBitmask (Z.rem beg 8) ;;
    lastByteMask <- index TrailingBitmask (Z.rem fin 8) ;;
    if byteEnd =? byteBeg + 1 then
      let onlyByteMask :=
        if negb (Z.rem fin 8 =? 0) then Z.lor firstByteMask lastByteMask else firstByteMask in
      maskByte bits byteBeg onlyByteMask fill
    else
      bits1 <- maskByte bits byteBeg firstByteMask fill ;;
      bits2 <- (if 2 <? byteEnd - byteBeg
                then memSet bits1 (byteBeg + 1) (byteEnd - 1) fill else Some bits1) ;;
      if Z.rem fin 8 =? 0 then Some bits2
      else maskByte bits2 (byteEnd - 1) lastByteMask fill.

(** ** The masks *)

(** [P] holds of every bit position and bit index of a byte. *)
Definition forBits (P : Z -> Z -> bool) : bool :=
  forallb (fun k => forallb (fun j => P (Z.of_nat k) (Z.of_nat j)) (seq 0 8)) (seq 0 8).

Lemma forBits_spec P k j : forBits P = true -> 0 <= k < 8 -> 0 <= j < 8 -> P k j = true.
Proof.
  unfold forBits. intros HP Hk Hj. rewrite forallb_forall in HP.
  specialize (HP (Z.to_nat k)). rewrite in_seq in HP. specialize (HP ltac:(lia)).
  rewrite forallb_forall in HP. specialize (HP (Z.to_nat j)). rewrite in_seq in HP.
  specialize (HP ltac:(lia)). now rewrite !Z2Nat.id in HP by lia.
Qed.

Ltac mask_bits P :=
  intros; apply eqb_prop; apply (forBits_spec P); [vm_compute; reflexivity|lia|lia].

Lemma BitMask_bit k j : 0 <= k < 8 -> 0 <= j < 8 ->
  Z.testbit (nth (Z.to_nat k) BitMask 0) j = (j =? k).
Proof. mask_bits (fun k j => Bool.eqb (Z.testbit (nth (Z.to_nat k) BitMask 0) j) (j =? k)). Qed.

Lemma FlippedBitMask_bit k j : 0 <= k < 8 -> 0 <= j < 8 ->
  Z.testbit (nth (Z.to_nat k) FlippedBitMask 0) j = negb (j =? k).
Proof. mask_bits (fun k j => Bool.eqb (Z.testbit (nth (Z.to_nat k) FlippedBitMask 0) j) (negb (j =? k))). Qed.

Lemma PrecedingBitmask_bit k j : 0 <= k < 8 -> 0 <= j < 8 ->
  Z.testbit (nth (Z.to_nat k) PrecedingBitmask 0) j = (j <? k).
Proof. mask_bits (fun k j => Bool.eqb (Z.testbit (nth (Z.to_nat k) PrecedingBitmask 0) j) (j <? k)). Qed.

Lemma TrailingBitmask_bit k j : 0 <= k < 8 -> 0 <= j < 8 ->
  Z.testbit (nth (Z.to_nat k) TrailingBitmask 0) j = (k <=? j).
Proof. mask_bits (fun k j => Bool.eqb (Z.testbit (nth (Z.to_nat k) TrailingBitmask 0) j) (k <=? j)). Qed.

Lemma BitMask_pow k : 0 <= k < 8 -> nth (Z.to_nat k) BitMask 0 = 2 ^ k.
Proof.
  intros. assert (Hk : In k (map Z.of_nat (seq 0 8))) by
    (apply in_map_iff; exists (Z.to_nat k); rewrite in_seq; lia).
  cbn in Hk. repeat destruct Hk as [<-|Hk]; [reflexivity..|destruct Hk].
Qed.

Lemma masks_byte k : is_byte (nth k BitMask 0) /\ is_byte (nth k FlippedBitMask 0) /\
  is_byte (nth k PrecedingBitmask 0) /\ is_byte (nth k TrailingBitmask 0).
Proof.
  repeat split; apply bytes_nth; repeat constructor; lia.
Qed.

(** Bitwise operations stay within a byte. *)
Lemma byte_testbit b : is_byte b <-> 0 <= b /\ forall j, 8 <= j -> Z.testbit b j = false.
Proof.
  unfold is_byte. split.
  - intros Hb. split; [lia|]. intros j Hj. rewrite <- (Z.mod_small b (2 ^ 8)) by (cbn; lia).
    apply Z.mod_pow2_bits_high; lia.
  - intros [H0 Hj]. split; [assumption|].
    assert (b = b mod 2 ^ 8); [|rewrite H; apply Z.mod_pos_bound; lia].
    apply Z.bits_inj'; intros i Hi. destruct (Z.ltb_spec i 8).
    + now rewrite Z.mod_pow2_bits_low by lia.
    + rewrite Z.mod_pow2_bits_high by lia. now apply Hj.
Qed.

Lemma byte_land a b : is_byte a -> is_byte b -> is_byte (a & b).
Proof.
  rewrite !byte_testbit. intros [Ha Haj] [Hb Hbj]. split; [apply Z.land_nonneg; lia|].
  intros j Hj. now rewrite Z.land_spec, Haj.
Qed.

Lemma byte_lor a b : is_byte a -> is_byte b -> is_byte (Z.lor a b).
Proof.
  rewrite !byte_testbit. intros [Ha Haj] [Hb Hbj]. split; [apply Z.lor_nonneg; lia|].
  intros j Hj. now rewrite Z.lor_spec, Haj, Hbj.
Qed.

Lemma byte_ldiff a b : is_byte a -> is_byte (Z.ldiff a b).
Proof.
  rewrite !byte_testbit. intros [Ha Haj]. split; [apply Z.ldiff_nonneg; lia|].
  intros j Hj. now rewrite Z.ldiff_spec, Haj.
Qed.

#[export] Hint Resolve byte_land byte_lor byte_ldiff : gobytes.

(** ** Single bits *)

(** A bitmap Go can address with an [int]. *)
Definition bitmapOk (buf : list Z) : Prop := bytes buf /\ 8 * len buf < 2 ^ 63.

Section OneBit.
Variables (buf : list Z) (i : Z).
Hypothesis (Hbuf : bitmapOk buf) (Hi : 0 <= i < 8 * len buf).

Lemma bit_index : u64 i / 8 = i / 8 /\ u8 i mod 8 = i mod 8 /\ 0 <= i / 8 < len buf /\ 0 <= i mod 8 < 8.
Proof.
  destruct Hbuf as [_ Hlen]. unfold u64, u8. rewrite (Z.mod_small i (2 ^ 64)) by lia.
  change (2 ^ 8) with 256. repeat split; zdiv.
Qed.

Lemma mask_index l : List.length l = 8%nat -> index l (u8 i mod 8) = Some (nth (Z.to_nat (i mod 8)) l 0).
Proof. intros Hl. destruct bit_index as (_ & -> & _ & H). apply index_ok. lia. Qed.

Lemma byte_index : index buf (u64 i / 8) = Some (nth (Z.to_nat (i / 8)) buf 0).
Proof. destruct bit_index as (-> & _ & H & _). now apply index_ok. Qed.

Lemma land_mask b : (b & nth (Z.to_nat (i mod 8)) BitMask 0 =? 0) = negb (Z.testbit b (i mod 8)).
Proof.
  destruct bit_index as (_ & _ & _ & H). rewrite BitMask_pow by assumption.
  destruct (Z.testbit b (i mod 8)) eqn:E; cbn [negb].
  - apply Z.eqb_neq. intros H0. assert (HT : Z.testbit (b & 2 ^ (i mod 8)) (i mod 8) = true).
    { rewrite Z.land_spec, E, Z.pow2_bits_true by lia. reflexivity. }
    rewrite H0, Z.bits_0 in HT. discriminate.
  - apply Z.eqb_eq. apply Z.bits_inj'; intros k Hk. rewrite Z.land_spec, Z.bits_0, Z.pow2_bits_eqb by lia.
    destruct (Z.eqb_spec (i mod 8) k) as [<-|]; [now rewrite E|apply andb_false_r].
Qed.

Lemma BitIsSet_ok : BitIsSet buf i = Some (Z.testbit (leval buf) i).
Proof.
  unfold BitIsSet. rewrite byte_index, mask_index by reflexivity. cbn [opt_bind].
  now rewrite land_mask, negb_involutive, testbit_leval by (destruct Hbuf; auto; lia).
Qed.

Lemma BitIsNotSet_ok : BitIsNotSet buf i = Some (negb (Z.testbit (leval buf) i)).
Proof.
  unfold BitIsNotSet. rewrite byte_index, mask_index by reflexivity. cbn [opt_bind].
  now rewrite land_mask, testbit_leval by (destruct Hbuf; auto; lia).
Qed.

(** Only bit [i] is [v] afterwards, the others are as before. *)
Definition onlyBit (v : bool) (buf' : list Z) : Prop :=
  List.length buf' = List.length buf /\ bytes buf' /\
  forall j, 0 <= j -> Z.testbit (leval buf') j = if j =? i then v else Z.testbit (leval buf) j.

Lemma onlyBit_upd v b :
  is_byte b ->
  (forall j, 0 <= j < 8 -> Z.testbit b j =
     if j =? i mod 8 then v else Z.testbit (nth (Z.to_nat (i / 8)) buf 0) j) ->
  onlyBit v (upd buf (Z.to_nat (i / 8)) b).
Proof.
  intros Hb Hbit. destruct bit_index as (_ & _ & H1 & H2), Hbuf as [Hbytes _].
  split; [apply length_upd|]. split; [auto with gobytes|]. intros j Hj.
  rewrite testbit_upd by (auto; lia). rewrite Z2Nat.id by lia.
  pose proof (Z.mod_pos_bound j 8 eq_refl).
  destruct (Z.eqb_spec (j / 8) (i / 8)) as [He|Hne].
  - rewrite Hbit by lia. rewrite (testbit_leval buf j), He by (auto; lia).
    destruct (Z.eqb_spec (j mod 8) (i mod 8)), (Z.eqb_spec j i); auto; exfalso; subst; zdiv.
  - destruct (Z.eqb_spec j i) as [->|]; congruence.
Qed.

Lemma SetBit_ok : exists buf', SetBit buf i = Some buf' /\ onlyBit true buf'.
Proof.
  unfold SetBit. rewrite byte_index, mask_index by reflexivity. cbn [opt_bind].
  destruct bit_index as (-> & _ & H1 & H2). rewrite store_ok by assumption.
  eexists; split; [reflexivity|]. destruct Hbuf, (masks_byte (Z.to_nat (i mod 8))) as (? & ? & ? & ?).
  apply onlyBit_upd; [auto with gobytes|]. intros j Hj.
  rewrite Z.lor_spec, BitMask_bit by assumption. 
  destruct (j =? i mod 8); [apply orb_true_r|apply orb_false_r].
Qed.

Lemma ClearBit_ok : exists buf', ClearBit buf i = Some buf' /\ onlyBit false buf'.
Proof.
  unfold ClearBit. rewrite byte_index, mask_index by reflexivity. cbn [opt_bind].
  destruct bit_index as (-> & _ & H1 & H2). rewrite store_ok by assumption.
  eexists; split; [reflexivity|]. destruct Hbuf, (masks_byte (Z.to_nat (i mod 8))) as (? & ? & ? & ?).
  apply onlyBit_upd; [auto with gobytes|]. intros j Hj.
  rewrite Z.land_spec, FlippedBitMask_bit by assumption.
  destruct (j =? i mod 8); cbn [negb]; [apply andb_false_r|apply andb_true_r].
Qed.

Lemma SetBitTo_ok v : exists buf', SetBitTo buf i v = Some buf' /\ onlyBit v buf'.
Proof. unfold SetBitTo. destruct v; [apply SetBit_ok|apply ClearBit_ok]. Qed.

Lemma SetBitSwap_ok : exists buf',
  SetBitSwap buf i = Some (buf', Z.testbit (leval buf) i) /\ onlyBit true buf'.
Proof.
  unfold SetBitSwap. rewrite byte_index, mask_index by reflexivity. cbn [opt_bind].
  rewrite land_mask, negb_involutive. pose proof SetBit_ok as (buf' & HS & HB).
  unfold SetBit in HS. rewrite byte_index, mask_index in HS by reflexivity. cbn [opt_bind] in HS.
  rewrite HS. cbn [opt_bind]. rewrite testbit_leval by (destruct Hbuf; auto; lia). eauto.
Qed.

Lemma ClearBitSwap_ok : exists buf',
  ClearBitSwap buf i = Some (buf', Z.testbit (leval buf) i) /\ onlyBit false buf'.
Proof.
  unfold ClearBitSwap. rewrite byte_index, mask_index by reflexivity. cbn [opt_bind].
  rewrite land_mask, negb_involutive. destruct bit_index as (-> & _ & H1 & H2).
  rewrite store_ok by assumption. cbn [opt_bind].
  rewrite testbit_leval by (destruct Hbuf; auto; lia). eexists; split; [reflexivity|].
  destruct Hbuf, (masks_byte (Z.to_nat (i mod 8))) as (? & ? & ? & ?).
  apply onlyBit_upd; [auto with gobytes|]. intros j Hj.
  rewrite Z.ldiff_spec, BitMask_bit by assumption.
  destruct (j =? i mod 8); cbn [negb]; [apply andb_false_r|apply andb_true_r].
Qed.

End OneBit.

(** ** Counting *)

(** The number of set bits of [x] at the positions [p .. p+n): the reference. *)
Definition cnt (x p : Z) (n : nat) : Z :=
  len (filter (fun k => Z.testbit x (p + Z.of_nat k)) (seq 0 n)).

Lemma cnt_S x p n : cnt x p (S n) = (if Z.testbit x p then 1 else 0) + cnt x (p + 1) n.
Proof.
  unfold cnt. cbn [seq filter]. rewrite Z.add_0_r, <- seq_shift.
  assert (Hf : forall l, len (filter (fun k => Z.testbit x (p + Z.of_nat k)) (map S l))
                         = len (filter (fun k => Z.testbit x (p + 1 + Z.of_nat k)) l)).
  { induction l as [|k l IH]; [reflexivity|]. cbn [map filter].
    replace (p + Z.of_nat (S k)) with (p + 1 + Z.of_nat k) by lia.
    destruct (Z.testbit x _); cbn [List.length]; lia. }
  destruct (Z.testbit x p); cbn [List.length]; rewrite <- Hf; lia.
Qed.

Lemma cnt_add x p a b : cnt x p (a + b) = cnt x p a + cnt x (p + Z.of_nat a) b.
Proof.
  revert p; induction a as [|a IH]; intro p.
  - cbn [Nat.add]. now rewrite Z.add_0_r.
  - cbn [Nat.add]. rewrite !cnt_S, IH. replace (p + 1 + Z.of_nat a) with (p + Z.of_nat (S a)) by lia. lia.
Qed.

Lemma cnt_ext x y p q n :
  (forall k, (k < n)%nat -> Z.testbit x (p + Z.of_nat k) = Z.testbit y (q + Z.of_nat k)) ->
  cnt x p n = cnt y q n.
Proof.
  intros H. unfold cnt. do 2 f_equal. apply filter_ext_in. intros k Hk. apply in_seq in Hk. apply H; lia.
Qed.

Lemma ones_cnt n x : ones n x = cnt x 0 n.
Proof.
  revert x; induction n as [|n IH]; intro x; [reflexivity|].
  cbn [ones]. rewrite cnt_S, IH, <- Z.bit0_odd. f_equal.
  apply cnt_ext. intros k _. rewrite Z.div2_spec, Z.shiftr_spec by lia. f_equal. lia.
Qed.

Lemma cnt_field x p n : 0 <= p -> cnt (field x p (Z.of_nat n)) 0 n = cnt x p n.
Proof.
  intros Hp. apply cnt_ext. intros k Hk. rewrite testbit_field by lia. now cmp_lia.
Qed.

Lemma fold_bytes l c : bytes l ->
  fold_left (fun c v => c + OnesCount8 v) l c = c + cnt (leval l) 0 (8 * List.length l).
Proof.
  intros Hl. revert c. induction Hl as [|b l Hb Hl IH]; intro c; cbn [fold_left]; [cbn; lia|].
  rewrite IH. cbn [List.length]. replace (8 * S (List.length l))%nat with (8 + 8 * List.length l)%nat by lia.
  rewrite cnt_add. unfold OnesCount8. rewrite ones_cnt.
  assert (Hlow : cnt (leval (b :: l)) 0 8 = cnt b 0 8).
  { apply cnt_ext; intros k Hk. rewrite testbit_leval by (try constructor; auto; lia).
    rewrite Z.div_small, Z.mod_small by lia. reflexivity. }
  assert (Hhigh : cnt (leval (b :: l)) (0 + Z.of_nat 8) (8 * List.length l) = cnt (leval l) 0 (8 * List.length l)).
  { apply cnt_ext; intros k Hk. change l with (skipn 1 (b :: l)) at 2.
    rewrite leval_skipn by (constructor; auto). rewrite Z.div_pow2_bits by lia. f_equal; lia. }
  lia.
Qed.

Lemma fold_words n b c : bytes b -> (8 * n <= List.length b)%nat ->
  fold_left (fun c v => c + OnesCount64 v) (wordsOf n b) c = c + cnt (leval b) 0 (64 * n).
Proof.
  revert b c. induction n as [|n IH]; intros b c Hb Hn; [cbn; lia|].
  cbn [wordsOf fold_left]. rewrite IH by (auto with gobytes; rewrite length_skipn; lia).
  replace (64 * S n)%nat with (64 + 64 * n)%nat by lia. rewrite cnt_add.
  unfold OnesCount64. rewrite ones_cnt, leval_firstn by assumption.
  change (8 * Z.of_nat 8) with (Z.of_nat 64). rewrite cnt_field by lia.
  assert (Hhigh : cnt (leval b) (0 + Z.of_nat 64) (64 * n) = cnt (leval (skipn 8 b)) 0 (64 * n)).
  { apply cnt_ext; intros k Hk. rewrite leval_skipn by assumption. rewrite Z.div_pow2_bits by lia.
    f_equal; lia. }
  lia.
Qed.

Lemma countLoop_ok buf lo hi c :
  bitmapOk buf -> 0 <= lo -> hi <= 8 * len buf ->
  countLoop buf lo hi c = Some (c + cnt (leval buf) lo (Z.to_nat (hi - lo))).
Proof.
  intros Hb Hlo Hhi. unfold countLoop. remember (Z.to_nat (hi - lo)) as n eqn:Hn.
  revert lo c Hlo Hn. induction n as [|n IH]; intros lo c Hlo Hn; cbn [for_up].
  - cbn; f_equal; lia.
  - rewrite BitIsSet_ok by (auto; lia). cbn [opt_bind]. rewrite IH by lia. rewrite cnt_S.
    f_equal. destruct (Z.testbit _ _); lia.
Qed.

Lemma ldiff7 n : 0 <= n -> Z.ldiff n 7 = n / 8 * 8.
Proof.
  intros. change 7 with (Z.ones 3). rewrite Z.ldiff_ones_r, shiftl_mul, shiftr_div by lia. reflexivity.
Qed.

Lemma countSetBitsAligned_ok buf n :
  bitmapOk buf -> 0 <= n <= 8 * len buf ->
  countSetBitsAligned buf n = Some (cnt (leval buf) 0 (Z.to_nat n)).
Proof.
  intros Hok Hn. destruct Hok as [Hb Hlen] eqn:E. clear E. unfold countSetBitsAligned.
  rewrite !Z.quot_div_nonneg by lia.
  assert (H8 : 0 <= n / 64 * 8 <= n / 8 /\ n / 8 <= len buf /\ n / 8 * 8 <= n) by zdiv.
  set (w := n / 64) in *. set (q := n / 8) in *. assert (Hw : 0 <= w) by (subst w; zdiv).
  rewrite !slice_ok by lia. cbn [opt_bind]. rewrite Z.sub_0_r. cbn [Z.to_nat skipn].
  set (head := firstn _ buf). set (mid := firstn _ _).
  assert (Hh : List.length head = (8 * Z.to_nat w)%nat) by (subst head; rewrite length_firstn; lia).
  assert (Hm : List.length mid = Z.to_nat (q - w * 8)) by (subst mid; rewrite length_firstn, length_skipn; lia).
  unfold bytesToUint64. rewrite Hh, Nat.mul_comm, Nat.div_mul by lia.
  rewrite fold_words by (subst head; auto with gobytes; lia).
  rewrite fold_bytes by (subst mid; auto with gobytes).
  rewrite ldiff7, countLoop_ok by (try split; auto; fold q; lia). fold q. f_equal. rewrite Z.add_0_l.
  replace (Z.to_nat n) with (64 * Z.to_nat w + (8 * List.length mid + Z.to_nat (n - q * 8)))%nat by lia.
  rewrite !cnt_add.
  assert (E1 : cnt (leval head) 0 (64 * Z.to_nat w) = cnt (leval buf) 0 (64 * Z.to_nat w)).
  { subst head. rewrite leval_firstn by assumption.
    replace (8 * Z.of_nat (Z.to_nat (w * 8))) with (Z.of_nat (64 * Z.to_nat w)) by lia.
    apply cnt_field; lia. }
  assert (E2 : cnt (leval mid) 0 (8 * List.length mid)
               = cnt (leval buf) (0 + Z.of_nat (64 * Z.to_nat w)) (8 * List.length mid)).
  { rewrite Hm. subst mid. rewrite leval_slice by assumption.
    replace (8 * Z.of_nat (Z.to_nat (q - w * 8))) with (Z.of_nat (8 * Z.to_nat (q - w * 8))) by lia.
    rewrite cnt_field by lia. f_equal. lia. }
  rewrite E1, E2. replace (0 + Z.of_nat (64 * Z.to_nat w) + Z.of_nat (8 * List.length mid)) with (q * 8) by lia.
  lia.
Qed.

Lemma BytesForBits_div n : 0 <= n < 2 ^ 63 - 7 -> BytesForBits n = (n + 7) / 8.
Proof.
  intros. unfold BytesForBits, i64. rewrite Z.mod_small by lia. rewrite shiftr_div by lia.
  change (2 ^ 3) with 8. f_equal. lia.
Qed.

Lemma countSetBitsWithOffset_ok buf offset n :
  bitmapOk buf -> 0 < offset -> 0 <= n -> offset + n <= 8 * len buf -> 8 * len buf < 2 ^ 63 - 7 ->
  countSetBitsWithOffset buf offset n = Some (cnt (leval buf) offset (Z.to_nat n)).
Proof.
  intros Hok Ho Hn Hle Hlen. unfold countSetBitsWithOffset, roundUp.
  rewrite Z.quot_div_nonneg by lia. set (up := (offset + (64 - 1)) / 64 * 64).
  assert (Hup : offset <= up < offset + 64 /\ up mod 8 = 0) by (subst up; zdiv).
  set (init := Z.min n (up - offset)). assert (Hinit : 0 <= init <= n) by lia.
  rewrite countLoop_ok by (auto; lia). cbn [opt_bind].
  rewrite BytesForBits_div by lia. set (bu := (offset + init + 7) / 8).
  assert (Hbu : 0 <= bu <= len buf) by (subst bu; zdiv).
  rewrite slice_ok by lia. cbn [opt_bind].
  rewrite firstn_all2 by (rewrite length_skipn; lia).
  set (rest := skipn (Z.to_nat bu) buf). destruct Hok as [Hb Hl].
  assert (Hrest : bitmapOk rest) by (split; subst rest; auto with gobytes; rewrite length_skipn; lia).
  assert (Hcase : init = n \/ init < n /\ offset + init = 8 * bu) by (subst init bu; zdiv).
  rewrite countSetBitsAligned_ok; [|assumption|subst rest; rewrite length_skipn; lia].
  cbn [opt_bind]. f_equal. replace (Z.to_nat n) with (Z.to_nat init + Z.to_nat (n - init))%nat by lia.
  rewrite cnt_add. replace (offset + init - offset) with init by lia.
  rewrite Z.add_0_l. f_equal. destruct Hcase as [->|[_ He]].
  - rewrite Z.sub_diag. reflexivity.
  - apply cnt_ext; intros k Hk. subst rest. rewrite leval_skipn, Z.div_pow2_bits by (auto; lia).
    f_equal. lia.
Qed.

(** ** Ranges *)

(** The bits at which [sel] holds are [v] in [buf'], the others are as in [buf]. *)
Definition bitsSet (buf : list Z) (sel : Z -> bool) (v : bool) (buf' : list Z) : Prop :=
  List.length buf' = List.length buf /\ bytes buf' /\
  forall j, 0 <= j -> Z.testbit (leval buf') j = if sel j then v else Z.testbit (leval buf) j.

Definition fillOf (v : bool) : Z := if v then 255 else 0.

Lemma fill_bit v j : 0 <= j < 8 -> Z.testbit (fillOf v) j = v.
Proof.
  intros Hj. destruct v; cbn [fillOf]; [|apply Z.bits_0].
  change 255 with (Z.ones 8). apply Z.ones_spec_low. lia.
Qed.

Lemma fill_byte v : is_byte (fillOf v).
Proof. destruct v; red; cbn; lia. Qed.

Lemma maskByte_ok buf i mask v :
  bytes buf -> 0 <= i < len buf -> is_byte mask ->
  exists buf', maskByte buf i mask (fillOf v) = Some buf' /\
    bitsSet buf (fun j => (j / 8 =? i) && negb (Z.testbit mask (j mod 8))) v buf'.
Proof.
  intros Hb Hi Hm. unfold maskByte. rewrite (index_ok buf i 0) by assumption. cbn [opt_bind].
  rewrite store_ok by assumption. cbn [opt_bind].
  rewrite (index_ok _ i 0) by (rewrite length_upd; assumption). cbn [opt_bind].
  rewrite store_ok by (rewrite length_upd; assumption).
  rewrite nth_upd_eq by lia. pose proof (fill_byte v).
  eexists; split; [reflexivity|]. split; [now rewrite !length_upd|]. split; [auto 6 with gobytes|].
  intros j Hj. rewrite testbit_upd by (rewrite ?length_upd; auto 6 with gobytes; lia).
  rewrite testbit_upd by (auto with gobytes; lia). rewrite Z2Nat.id by lia.
  pose proof (Z.mod_pos_bound j 8 eq_refl).
  destruct (Z.eqb_spec (j / 8) i) as [<-|]; cbn [andb]; [|reflexivity].
  rewrite Z.lor_spec, Z.land_spec, Z.ldiff_spec, fill_bit, testbit_leval by (auto; lia).
  destruct (Z.testbit mask _), v, (Z.testbit _ _); reflexivity.
Qed.

Lemma memSet_ok buf lo hi v :
  bytes buf -> 0 <= lo <= hi -> hi <= len buf ->
  exists buf', memSet buf lo hi (fillOf v) = Some buf' /\
    bitsSet buf (fun j => (lo <=? j / 8) && (j / 8 <? hi)) v buf'.
Proof.
  intros Hb Hlo Hhi. unfold memSet. rewrite slice_ok by assumption. cbn [opt_bind].
  rewrite length_firstn, length_skipn, Nat.min_l by lia. pose proof (fill_byte v).
  assert (Hr : bytes (repeat (fillOf v) (Z.to_nat (hi - lo)))).
  { apply Forall_forall; intros x Hx; apply repeat_spec in Hx; now subst. }
  eexists; split; [reflexivity|]. split; [apply length_splice; lia|]. split; [auto with gobytes|].
  intros j Hj. rewrite testbit_splice by (rewrite ?repeat_length; auto; lia).
  rewrite repeat_length, Z2Nat.id by lia. rewrite Z2Nat.id by lia.
  replace (lo + (hi - lo)) with hi by lia.
  destruct (Z.leb_spec lo (j / 8)), (Z.ltb_spec (j / 8) hi); cbn [andb]; try reflexivity.
  rewrite nth_repeat_lt by lia. apply fill_bit, Z.mod_pos_bound; lia.
Qed.

Lemma bitsSet_trans buf sel1 buf1 sel2 buf2 v :
  bitsSet buf sel1 v buf1 -> bitsSet buf1 sel2 v buf2 ->
  bitsSet buf (fun j => sel1 j || sel2 j) v buf2.
Proof.
  intros (L1 & _ & H1) (L2 & B2 & H2). split; [congruence|]. split; [assumption|].
  intros j Hj. rewrite H2, H1 by assumption. destruct (sel1 j), (sel2 j); reflexivity.
Qed.

Lemma bitsSet_ext buf sel1 sel2 v buf' :
  bitsSet buf sel1 v buf' -> (forall j, 0 <= j -> sel1 j = sel2 j) -> bitsSet buf sel2 v buf'.
Proof. intros (L & B & H) He. repeat split; auto. intros j Hj. rewrite <- He by assumption. auto. Qed.

Lemma bitsSet_bytes buf sel v buf' : bitsSet buf sel v buf' -> bytes buf' /\ len buf' = len buf.
Proof. intros (L & B & _). split; [assumption|congruence]. Qed.

(** Reduces a goal about the bits of a byte range to arithmetic on positions. *)
Ltac range_bits :=
  intros j Hj; pose proof (Z.mod_pos_bound j 8 eq_refl);
  rewrite ?Z.lor_spec, ?PrecedingBitmask_bit, ?TrailingBitmask_bit by zdiv;
  apply eq_true_iff_eq;
  rewrite ?orb_true_iff, ?andb_true_iff, ?negb_true_iff, ?orb_false_iff, ?Z.eqb_eq, ?Z.leb_le,
    ?Z.ltb_lt, ?Z.ltb_ge, ?Z.leb_gt; zdiv.

Lemma SetBitsTo_ok buf start length v :
  bytes buf -> 0 <= start -> 0 <= length -> start + length <= 8 * len buf ->
  exists buf', SetBitsTo buf start length v = Some buf' /\
    bitsSet buf (fun j => (start <=? j) && (j <? start + length)) v buf'.
Proof.
  intros Hb Hs Hl Hle. unfold SetBitsTo. destruct (Z.eqb_spec length 0) as [->|Hne].
  { exists buf. split; [reflexivity|]. repeat split; auto. intros j Hj.
    replace ((start <=? j) && (j <? start + 0)) with false; [reflexivity|].
    symmetry; apply andb_false_iff. rewrite Z.leb_gt, Z.ltb_ge. lia. }
  rewrite !Z.quot_div_nonneg, !Z.rem_mod_nonneg by lia. change (if v then 255 else 0) with (fillOf v).
  set (fin := start + length) in *.
  assert (0 <= start mod 8 < 8 /\ 0 <= fin mod 8 < 8) as [Hk1 Hk2] by (split; apply Z.mod_pos_bound; lia).
  assert (0 <= start / 8 < len buf /\ fin / 8 <= len buf) as [Hq1 Hq2] by (subst fin; zdiv).
  rewrite (index_ok PrecedingBitmask _ 0), (index_ok TrailingBitmask _ 0) by (cbn; lia). cbn [opt_bind].
  destruct (masks_byte (Z.to_nat (start mod 8))) as (_ & _ & HP & _).
  destruct (masks_byte (Z.to_nat (fin mod 8))) as (_ & _ & _ & HT).
  destruct (Z.eqb_spec (fin / 8 + 1) (start / 8 + 1)) as [Hone|Hmany].
  - assert (Hfin : fin mod 8 <> 0) by (subst fin; zdiv). bool_lia (fin mod 8 =? 0). cbn [negb].
    destruct (maskByte_ok buf (start / 8) (Z.lor (nth (Z.to_nat (start mod 8)) PrecedingBitmask 0)
      (nth (Z.to_nat (fin mod 8)) TrailingBitmask 0)) v) as (buf' & -> & HB); [auto with gobytes..|].
    exists buf'; split; [reflexivity|]. eapply bitsSet_ext; [exact HB|]. cbv beta. subst fin. range_bits.
  - destruct (maskByte_ok buf (start / 8) (nth (Z.to_nat (start mod 8)) PrecedingBitmask 0) v)
      as (b1 & -> & HB1); [auto with gobytes..|]. cbn [opt_bind].
    destruct (bitsSet_bytes _ _ _ _ HB1) as [Hb1 HL1].
    assert (HB2 : exists b2, (if 2 <? fin / 8 + 1 - start / 8
        then memSet b1 (start / 8 + 1) (fin / 8 + 1 - 1) (fillOf v) else Some b1) = Some b2 /\
        bitsSet buf (fun j => (start <=? j) && (j <? fin / 8 * 8)) v b2).
    { destruct (Z.ltb_spec 2 (fin / 8 + 1 - start / 8)).
      - destruct (memSet_ok b1 (start / 8 + 1) (fin / 8 + 1 - 1) v) as (b2 & -> & HB2); [auto; lia..|].
        exists b2; split; [reflexivity|]. eapply bitsSet_ext; [exact (bitsSet_trans _ _ _ _ _ _ HB1 HB2)|].
        cbv beta. subst fin. range_bits.
      - exists b1; split; [reflexivity|]. eapply bitsSet_ext; [exact HB1|]. cbv beta. subst fin. range_bits. }
    destruct HB2 as (b2 & -> & HB2). cbn [opt_bind]. destruct (bitsSet_bytes _ _ _ _ HB2) as [Hb2 HL2].
    destruct (Z.eqb_spec (fin mod 8) 0) as [He|Hm].
    + exists b2; split; [reflexivity|]. eapply bitsSet_ext; [exact HB2|]. cbv beta. subst fin. range_bits.
    + assert (Hlast : 0 <= fin / 8 < len buf) by (subst fin; zdiv).
      destruct (maskByte_ok b2 (fin / 8 + 1 - 1) (nth (Z.to_nat (fin mod 8)) TrailingBitmask 0) v)
        as (b3 & -> & HB3); [auto with gobytes; lia..|].
      exists b3; split; [reflexivity|]. eapply bitsSet_ext; [exact (bitsSet_trans _ _ _ _ _ _ HB2 HB3)|].
      cbv beta. subst fin. range_bits.
Qed.

(** ** Claims *)

(** Every path of [CountSetBits] counts the same bits. *)
Lemma CountSetBits_ok buf offset n :
  bitmapOk buf -> 0 <= offset -> 0 <= n -> offset + n <= 8 * len buf -> 8 * len buf < 2 ^ 63 - 7 ->
  CountSetBits buf offset n = Some (cnt (leval buf) offset (Z.to_nat n)).
Proof.
  intros Hok Ho Hn Hle Hlen. unfold CountSetBits. destruct (Z.ltb_spec 0 offset).
  - now apply countSetBitsWithOffset_ok.
  - assert (offset = 0) by lia. subst. apply countSetBitsAligned_ok; auto; lia.
Qed.

(** [CountSetBits(buf, offset, n)] counts the set bits of the range [offset, offset+n) and
    nothing else, whichever of its word, byte and bit loops it takes, and reads inside the
    slice only. *)
Theorem count_set_bits_correct buf offset n :
  bitmapOk buf -> 0 <= offset -> 0 <= n -> offset + n <= 8 * len buf -> 8 * len buf < 2 ^ 63 - 7 ->
  CountSetBits buf offset n = Some (cnt (leval buf) offset (Z.to_nat n)).
Proof.
  apply CountSetBits_ok.
Qed.

(** [SetBitsTo(bits, start, length, v)] makes exactly the bits of the range [v], leaves
    every other bit and the length of the slice alone, and does not panic on a range inside
    the slice. *)
Theorem set_bits_to_correct buf start length v :
  bytes buf -> 0 <= start -> 0 <= length -> start + length <= 8 * len buf ->
  exists buf', SetBitsTo buf start length v = Some buf' /\
    List.length buf' = List.length buf /\ bytes buf' /\
    forall j, 0 <= j -> Z.testbit (leval buf') j =
      if (start <=? j) && (j <? start + length) then v else Z.testbit (leval buf) j.
Proof.
  intros Hb Hs Hl Hle. destruct (SetBitsTo_ok buf start length v Hb Hs Hl Hle) as (buf' & HE & HL & HB & HT).
  exists buf'. auto.
Qed.

(** The single-bit operations: [SetBitTo], [SetBitSwap] and [ClearBitSwap] change the named
    bit alone, the swaps report its old value, and [BitIsSet] reads it. *)
Theorem bit_ops_correct buf i v :
  bitmapOk buf -> 0 <= i < 8 * len buf ->
  BitIsSet buf i = Some (Z.testbit (leval buf) i) /\
  (exists buf', SetBitTo buf i v = Some buf' /\ onlyBit buf i v buf') /\
  (exists buf', SetBitSwap buf i = Some (buf', Z.testbit (leval buf) i) /\ onlyBit buf i true buf') /\
  (exists buf', ClearBitSwap buf i = Some (buf', Z.testbit (leval buf) i) /\ onlyBit buf i false buf').
Proof.
  intros Hok Hi. splits.
  - now apply BitIsSet_ok.
  - now apply SetBitTo_ok.
  - now apply SetBitSwap_ok.
  - now apply ClearBitSwap_ok.
Qed.
