(* ===== verification/BitRuns.v ===== *)
(** * Runs of set bits (internal/bitutils/bit_set_run_reader.go)

    [SBR] is [baseSetBitRunReader], which finds the runs of set bits of a bitmap word by word,
    forwards or backwards.  Both directions are verified by one proof: [rbit] numbers the bits
    of a word in reading order, and [order] those of the bitmap. *)

From Stdlib Require Import ZArith List Lia Bool String.
From S2P Require Import Prelude BitUtil.
Import ListNotations.
#[local] Open Scope Z_scope.
#[local] Open Scope go_scope.

(** ** 64-bit words *)

(** [^x] and [x << n] of [uint64] *)
Definition not64 (x : Z) : Z := Z.ldiff (2 ^ 64 - 1) x.
Definition shl64 (x n : Z) : Z := u64 (Z.shiftl x n).

(** The zeros of [x] from bit [i] on, in steps of [step]. *)
Fixpoint countZeros (fuel : nat) (x i step : Z) : Z :=
  match fuel with
  | O => 0
  | S fuel' => if Z.testbit x i then 0 else 1 + countZeros fuel' x (i + step) step
  end.

(** [bits.TrailingZeros64] and [bits.LeadingZeros64] *)
Definition TrailingZeros64 (x : Z) : Z := countZeros 64 x 0 1.
Definition LeadingZeros64 (x : Z) : Z := countZeros 64 x 63 (-1).

Definition LeastSignificantBitMask (idx : Z) : Z := u64 (shl64 1 idx - 1).

(** ** The reader *)

Record SetBitRun : Type := mkRun { Pos : Z; Length : Z }.

Definition AtEnd (s : SetBitRun) : bool := Length s =? 0.
Definition RunEqual (s rhs : SetBitRun) : bool := (Pos s =? Pos rhs) && (Length s =? Length rhs).

Record baseSetBitRunReader : Type := mkSBR {
  sb_bitmap : list Z;
  sb_pos : Z;
  sb_length : Z;
  sb_remaining : Z;
  sb_curWord : Z;
  sb_curNumBits : Z;
  sb_reversed : bool;
  sb_firstBit : Z
}.

Module SBR.
Implicit Types br : baseSetBitRunReader.

Definition setPos br (pos : Z) : baseSetBitRunReader :=
  mkSBR (sb_bitmap br) pos (sb_length br) (sb_remaining br) (sb_curWord br) (sb_curNumBits br) (sb_reversed br) (sb_firstBit br).
Definition setWord br (remaining curWord curNumBits : Z) : baseSetBitRunReader :=
  mkSBR (sb_bitmap br) (sb_pos br) (sb_length br) remaining curWord curNumBits (sb_reversed br) (sb_firstBit br).

Definition consumeBits br (word nbits : Z) : Z :=
  if sb_reversed br then shl64 word nbits else word >> nbits.

Definition countFirstZeros br (word : Z) : Z :=
  if sb_reversed br then LeadingZeros64 word else TrailingZeros64 word.

Definition loadPartial br (bitOffset numBits : Z) : option (baseSetBitRunReader * Z) :=
  let nbytes := BytesForBits numBits in
  if sb_reversed br then
    let br := setPos br (sb_pos br - nbytes) in
    src <- slice (sb_bitmap br) (sb_pos br) (sb_pos br + nbytes) ;;
    let word := leval (splice (repeat 0 8) (Z.to_nat (8 - nbytes)) src) in
    Some (br, Z.ldiff (shl64 word bitOffset) (LeastSignificantBitMask (64 - numBits)))
  else
    src <- slice (sb_bitmap br) (sb_pos br) (sb_pos br + nbytes) ;;
    let word := leval (splice (repeat 0 8) 0 src) in
    Some (setPos br (sb_pos br + nbytes), (word >> bitOffset) & LeastSignificantBitMask numBits).

Definition Reset br (bitmap : list Z) (startOffset length : Z) : option baseSetBitRunReader :=
  if negb (sb_reversed br) then
    let bitOffset := Z.rem startOffset 8 in
    let br1 := mkSBR bitmap (Z.quot startOffset 8) length length 0 0 (sb_reversed br) 1 in
    if (0 <? length) && negb (bitOffset =? 0) then
      let n := Z.min length (8 - bitOffset) in
      r <- loadPartial br1 bitOffset n ;; let '(br2, w) := r in Some (setWord br2 length w n)
    else Some br1
  else
    let pos := Z.quot (startOffset + length) 8 in
    let endBitOffset := Z.rem (startOffset + length) 8 in
    let br1 := mkSBR bitmap pos length length 0 0 (sb_reversed br) 9223372036854775808 in
    if (0 <? length) && negb (endBitOffset =? 0) then
      let n := Z.min length endBitOffset in
      r <- loadPartial (setPos br1 (pos + 1)) (8 - endBitOffset) n ;; let '(br2, w) := r in Some (setWord br2 length w n)
    else Some br1.

Definition newBaseSetBitRunReader (bitmap : list Z) (startOffset length : Z) (reverse : bool) : option baseSetBitRunReader :=
  Reset (mkSBR [] 0 0 0 0 0 reverse 0) bitmap startOffset length.

Definition position br : Z := if sb_reversed br then sb_remaining br else sb_length br - sb_remaining br.

Definition adjustRun br (run : SetBitRun) : SetBitRun :=
  if sb_reversed br then mkRun (Pos run - Length run) (Length run) else run.

Definition findCurrentRun br : baseSetBitRunReader * SetBitRun :=
  let nzeros := countFirstZeros br (sb_curWord br) in
  if sb_curNumBits br <=? nzeros then (setWord br (sb_remaining br - sb_curNumBits br) 0 0, mkRun 0 0)
  else
    let br := setWord br (sb_remaining br - nzeros) (consumeBits br (sb_curWord br) nzeros) (sb_curNumBits br - nzeros) in
    let pos := position br in
    let numOnes := countFirstZeros br (not64 (sb_curWord br)) in
    (setWord br (sb_remaining br - numOnes) (consumeBits br (sb_curWord br) numOnes) (sb_curNumBits br - numOnes), mkRun pos numOnes).

Definition loadFull br : option (baseSetBitRunReader * Z) :=
  let br := if sb_reversed br then setPos br (sb_pos br - 8) else br in
  src <- slice (sb_bitmap br) (sb_pos br) (sb_pos br + 8) ;;
  let br := if negb (sb_reversed br) then setPos br (sb_pos br + 8) else br in
  Some (br, leval src).

(** The loop of [skipNextZeros]; the flag tells whether it returned. *)
Fixpoint skipWords (fuel : nat) br : option (baseSetBitRunReader * bool) :=
  if 64 <=? sb_remaining br then
    match fuel with
    | O => None
    | S fuel' =>
        r <- loadFull br ;;
        let '(br, w) := r in
        let nzeros := countFirstZeros br w in
        if nzeros <? 64 then Some (setWord br (sb_remaining br - nzeros) (consumeBits br w nzeros) (64 - nzeros), true)
        else skipWords fuel' (setWord br (sb_remaining br - 64) w (sb_curNumBits br))
    end
  else Some (br, false).

Definition wordFuel br : nat := Z.to_nat (sb_remaining br / 64).

Definition skipNextZeros br : option baseSetBitRunReader :=
  r <- skipWords (wordFuel br) br ;;
  let '(br, returned) := r in
  if returned : bool then Some br
  else if 0 <? sb_remaining br then
    r <- loadPartial br 0 (sb_remaining br) ;;
    let '(br, w) := r in
    let nzeros := Z.min (sb_remaining br) (countFirstZeros br w) in
    Some (setWord br (sb_remaining br - nzeros) (consumeBits br w nzeros) (sb_remaining br - nzeros))
  else Some br.

(** The loop of [countNextOnes]. *)
Fixpoint onesWords (fuel : nat) br (length : Z) : option (baseSetBitRunReader * Z * bool) :=
  if 64 <=? sb_remaining br then
    match fuel with
    | O => None
    | S fuel' =>
        r <- loadFull br ;;
        let '(br, w) := r in
        let numOnes := countFirstZeros br (not64 w) in
        if numOnes <? 64 then Some (setWord br (sb_remaining br - numOnes) (consumeBits br w numOnes) (64 - numOnes), length + numOnes, true)
        else onesWords fuel' (setWord br (sb_remaining br - numOnes) w (sb_curNumBits br)) (length + numOnes)
    end
  else Some (br, length, false).

Definition onesTail br (length : Z) : option (baseSetBitRunReader * Z) :=
  r <- onesWords (wordFuel br) br length ;;
  let '(br, length, returned) := r in
  if returned : bool then Some (br, length)
  else if 0 <? sb_remaining br then
    r <- loadPartial br 0 (sb_remaining br) ;;
    let '(br, w) := r in
    let numOnes := countFirstZeros br (not64 w) in
    Some (setWord br (sb_remaining br - numOnes) (consumeBits br w numOnes) (sb_remaining br - numOnes), length + numOnes)
  else Some (br, length).

Definition countNextOnes br : option (baseSetBitRunReader * Z) :=
  if negb (not64 (sb_curWord br) =? 0) then
    let numOnes := countFirstZeros br (not64 (sb_curWord br)) in
    let br := setWord br (sb_remaining br - numOnes) (consumeBits br (sb_curWord br) numOnes) (sb_curNumBits br - numOnes) in
    if negb (sb_curNumBits br =? 0) then Some (br, numOnes) else onesTail br numOnes
  else onesTail (setWord br (sb_remaining br - 64) (sb_curWord br) 0) 64.

(** The end of [NextRun]: [length += br.countNextOnes()]. *)
Definition extendRun br (pos length : Z) : option (baseSetBitRunReader * SetBitRun) :=
  r <- countNextOnes br ;;
  let '(br, n) := r in Some (br, adjustRun br (mkRun pos (length + n))).

Definition NextRun br : option (baseSetBitRunReader * SetBitRun) :=
  let '(br, run) := if negb (sb_curNumBits br =? 0) then findCurrentRun br else (br, mkRun 0 0) in
  if negb (Length run =? 0) && negb (sb_curNumBits br =? 0) then Some (br, adjustRun br run)
  else if Length run =? 0 then
    br <- skipNextZeros br ;;
    if sb_remaining br =? 0 then Some (br, mkRun 0 0) else extendRun br (position br) 0
  else
    let check br := if (sb_curWord br & sb_firstBit br) =? 0 then Some (br, adjustRun br run) else extendRun br (Pos run) (Length run) in
    if 64 <=? sb_remaining br then
      r <- loadFull br ;; let '(br, w) := r in check (setWord br (sb_remaining br) w 64)
    else if 0 <? sb_remaining br then
      r <- loadPartial br 0 (sb_remaining br) ;; let '(br, w) := r in check (setWord br (sb_remaining br) w (sb_remaining br))
    else Some (br, adjustRun br run).

(** [VisitSetBitRuns(visitFn)]; [visitFn] passes on what it has captured. *)
Fixpoint visitLoop {S} (fuel : nat) br (visitFn : Z -> Z -> S -> option (S * option goerr)) (s : S) : option (baseSetBitRunReader * S * option goerr) :=
  match fuel with
  | O => None
  | Datatypes.S fuel' =>
      r <- NextRun br ;;
      let '(br, run) := r in
      if Length run =? 0 then Some (br, s, None)
      else
        r <- visitFn (Pos run) (Length run) s ;;
        match r with
        | (s, Some e) => Some (br, s, Some e)
        | (s, None) => visitLoop fuel' br visitFn s
        end
  end.

Definition VisitRuns {S} br (visitFn : Z -> Z -> S -> option (S * option goerr)) (s : S) : option (baseSetBitRunReader * S * option goerr) :=
  visitLoop (Datatypes.S (Z.to_nat (sb_remaining br))) br visitFn s.

End SBR.

(** The functions [VisitSetBitRuns] and [VisitSetBitRunsNoErr]; [None] is the nil bitmap. *)
Definition VisitSetBitRuns {S} (bitmap : option (list Z)) (bitmapOffset length : Z) (visitFn : Z -> Z -> S -> option (S * option goerr)) (s : S) : option (S * option goerr) :=
  match bitmap with
  | None => visitFn 0 length s
  | Some bm =>
      rdr <- SBR.newBaseSetBitRunReader bm bitmapOffset length false ;;
      r <- SBR.VisitRuns rdr visitFn s ;;
      let '(_, s, err) := r in Some (s, err)
  end.

Definition VisitSetBitRunsNoErr {S} (bitmap : option (list Z)) (bitmapOffset length : Z) (visitFn : Z -> Z -> S -> option S) (s : S) : option S :=
  r <- VisitSetBitRuns bitmap bitmapOffset length (fun pos n s => s' <- visitFn pos n s ;; Some (s', None)) s ;; Some (fst r).

(** ** Words in reading order *)

(** Bit [i] in reading order. *)
Definition rbit (rev : bool) (w i : Z) : bool := Z.testbit w (if rev then 63 - i else i).

(** The first [n] bits of [w] are those of [g], the others 0. *)
Definition wordIs (rev : bool) (w : Z) (g : Z -> bool) (n : Z) : Prop :=
  forall i, 0 <= i < 64 -> rbit rev w i = (i <? n) && g i.

Lemma countZeros_spec fuel x i step :
  let z := countZeros fuel x i step in
  0 <= z <= Z.of_nat fuel /\ (forall j, 0 <= j < z -> Z.testbit x (i + j * step) = false) /\
  (z < Z.of_nat fuel -> Z.testbit x (i + z * step) = true).
Proof.
  revert i. induction fuel as [|fuel IH]; intros i; cbn [countZeros]; [splits; intros; lia|]. destruct (Z.testbit x i) eqn:E.
  { splits; [lia|lia|intros; lia|]. intros _. now rewrite Z.add_0_r. }
  destruct (IH (i + step)) as (Hr & Hz & Ho). set (z := countZeros fuel x (i + step) step) in *. splits; [lia|lia| |].
  - intros j Hj. destruct (Z.eq_dec j 0) as [->|]; [now rewrite Z.add_0_r|]. rewrite <- (Hz (j - 1)) by lia. f_equal. lia.
  - intros Hlt. rewrite <- Ho by lia. f_equal. lia.
Qed.

Lemma countFirstZeros_spec br w :
  let z := SBR.countFirstZeros br w in
  0 <= z <= 64 /\ (forall j, 0 <= j < z -> rbit (sb_reversed br) w j = false) /\ (z < 64 -> rbit (sb_reversed br) w z = true).
Proof.
  cbv zeta. unfold SBR.countFirstZeros, LeadingZeros64, TrailingZeros64, rbit. destruct (sb_reversed br).
  - destruct (countZeros_spec 64 w 63 (-1)) as (Hr & Hz & Ho). splits; try apply Hr.
    + intros j Hj. rewrite <- (Hz j Hj). f_equal. lia.
    + intros Hlt. rewrite <- (Ho Hlt). f_equal. lia.
  - destruct (countZeros_spec 64 w 0 1) as (Hr & Hz & Ho). splits; try apply Hr.
    + intros j Hj. rewrite <- (Hz j Hj). f_equal. lia.
    + intros Hlt. rewrite <- (Ho Hlt). f_equal. lia.
Qed.

Lemma rbit_not64 rev w i : 0 <= i < 64 -> rbit rev (not64 w) i = negb (rbit rev w i).
Proof.
  intros Hi. unfold rbit, not64. rewrite Z.ldiff_spec. change (2 ^ 64 - 1) with (Z.ones 64). rewrite Z.ones_spec_low by (destruct rev; lia). reflexivity.
Qed.

(** The zeros and the ones a word starts with. *)
Lemma zeros_spec br w g n :
  wordIs (sb_reversed br) w g n -> n <= 64 ->
  let z := SBR.countFirstZeros br w in
  0 <= z <= 64 /\ (forall i, 0 <= i < Z.min z n -> g i = false) /\ (z < n -> g z = true) /\ (n <= z -> z = 64).
Proof.
  intros HW Hn z. destruct (countFirstZeros_spec br w) as (Hr & Hz & Ho). fold z in Hr, Hz, Ho. splits; try apply Hr.
  - intros i Hi. specialize (Hz i ltac:(lia)). rewrite HW, (proj2 (Z.ltb_lt i n)) in Hz by lia. exact Hz.
  - intros Hlt. specialize (Ho ltac:(lia)). rewrite HW, (proj2 (Z.ltb_lt z n)) in Ho by lia. exact Ho.
  - intros Hle. destruct (Z.eq_dec z 64) as [|Hne]; [assumption|]. specialize (Ho ltac:(lia)). rewrite HW in Ho by lia.
    rewrite (proj2 (Z.ltb_ge z n)) in Ho by lia. discriminate.
Qed.

Lemma ones_spec br w g n :
  wordIs (sb_reversed br) w g n -> 0 <= n <= 64 ->
  let o := SBR.countFirstZeros br (not64 w) in
  0 <= o <= n /\ (forall i, 0 <= i < o -> g i = true) /\ (o < n -> g o = false).
Proof.
  intros HW Hn o. destruct (countFirstZeros_spec br (not64 w)) as (Hr & Hz & Ho). fold o in Hr, Hz, Ho.
  assert (Hall : forall i, 0 <= i < o -> (i <? n) && g i = true).
  { intros i Hi. specialize (Hz i Hi). rewrite rbit_not64, HW in Hz by lia. now apply negb_false_iff. }
  assert (Hon : o <= n).
  { destruct (Z.le_gt_cases o n) as [|Hgt]; [assumption|]. specialize (Hall n ltac:(lia)). rewrite Z.ltb_irrefl in Hall. discriminate. }
  splits; [lia|assumption| |].
  - intros i Hi. specialize (Hall i Hi). now apply andb_true_iff in Hall.
  - intros Hlt. specialize (Ho ltac:(lia)). rewrite rbit_not64, HW, (proj2 (Z.ltb_lt o n)) in Ho by lia. now apply negb_true_iff in Ho.
Qed.

Lemma consume_spec br w g n k :
  wordIs (sb_reversed br) w g n -> 0 <= w < 2 ^ 64 -> 0 <= k <= n -> n <= 64 ->
  wordIs (sb_reversed br) (SBR.consumeBits br w k) (fun i => g (k + i)) (n - k) /\ 0 <= SBR.consumeBits br w k < 2 ^ 64.
Proof.
  intros HW Hw Hk Hn. unfold SBR.consumeBits, wordIs, rbit in *. destruct (sb_reversed br).
  - unfold shl64, u64. split; [|apply Z.mod_pos_bound; lia]. intros i Hi. rewrite Z.mod_pow2_bits_low, Z.shiftl_spec by lia.
    destruct (Z.ltb_spec (k + i) 64) as [Hlt|Hge].
    + replace (63 - i - k) with (63 - (k + i)) by lia. rewrite HW by lia. f_equal. case_cmp; lia.
    + rewrite Z.testbit_neg_r by lia. bool_lia (i <? n - k). reflexivity.
  - rewrite shiftr_div by lia. split; [|split; [apply Z.div_pos; auto with goarith; lia|apply Z.le_lt_trans with w; [apply Z.div_le_upper_bound; [auto with goarith; lia|]; pose proof (pow2_pos k); nia|lia]]].
    intros i Hi. rewrite Z.div_pow2_bits by lia. destruct (Z.ltb_spec (k + i) 64) as [Hlt|Hge].
    + rewrite (Z.add_comm i k), HW by lia. f_equal. case_cmp; lia.
    + rewrite <- (Z.mod_small w (2 ^ 64)) by lia. rewrite Z.mod_pow2_bits_high by lia. bool_lia (i <? n - k). reflexivity.
Qed.

(** ** Loading words *)

Lemma BytesForBits_8 n : 0 <= n -> n < 2 ^ 62 -> n <= 8 * BytesForBits n /\ 8 * BytesForBits n < n + 8.
Proof.
  intros H0 H1. unfold BytesForBits, i64. rewrite Z.mod_small by lia. replace (n + 7 + 2 ^ 63 - 2 ^ 63) with (n + 7) by lia. rewrite shiftr_div by lia. change (2 ^ 3) with 8. zdiv.
Qed.

Lemma LSM_bit n i : 0 <= n <= 64 -> 0 <= i < 64 -> Z.testbit (LeastSignificantBitMask n) i = (i <? n).
Proof.
  intros Hn Hi. unfold LeastSignificantBitMask, shl64, u64. rewrite Z.shiftl_1_l. destruct (Z.eq_dec n 64) as [->|Hne].
  - change ((2 ^ 64 mod 2 ^ 64 - 1) mod 2 ^ 64) with (Z.ones 64). rewrite Z.ones_spec_low by lia. symmetry. apply Z.ltb_lt. lia.
  - pose proof (pow2_pos n ltac:(lia)). assert (2 ^ n <= 2 ^ 63) by (apply pow2_le; lia). rewrite (Z.mod_small (2 ^ n)), Z.mod_small by lia.
    rewrite Z.sub_1_r, <- Z.ones_equiv. destruct (Z.ltb_spec i n); [apply Z.ones_spec_low; lia|apply Z.ones_spec_high; lia].
Qed.

Lemma word_bound n x : 0 <= n -> 0 <= x -> (forall j, n <= j -> Z.testbit x j = false) -> x < 2 ^ n.
Proof.
  intros Hn Hx Hj. replace x with (x mod 2 ^ n); [apply Z.mod_pos_bound; auto with goarith|]. apply Z.bits_inj'; intros i Hi.
  destruct (Z.ltb_spec i n); [now rewrite Z.mod_pow2_bits_low by lia|]. rewrite Z.mod_pow2_bits_high by lia. symmetry. now apply Hj.
Qed.

Lemma high_bits n x j : 0 <= x < 2 ^ n -> 0 <= n <= j -> Z.testbit x j = false.
Proof. intros Hx Hj. rewrite <- (Z.mod_small x (2 ^ n)) by lia. apply Z.mod_pow2_bits_high. lia. Qed.

Lemma splice_word_bit (src : list Z) k i :
  bytes src -> (k + List.length src <= 8)%nat -> 0 <= i ->
  Z.testbit (leval (splice (repeat 0 8) k src)) i =
    (8 * Z.of_nat k <=? i) && (i <? 8 * (Z.of_nat k + len src)) && Z.testbit (leval src) (i - 8 * Z.of_nat k).
Proof.
  intros Hs HL Hi. rewrite testbit_splice by (try assumption; try apply (bytes_repeat0 8); cbn [repeat List.length]; lia).
  replace (Z.of_nat k <=? i / 8) with (8 * Z.of_nat k <=? i) by (case_cmp; zdiv).
  replace (i / 8 <? Z.of_nat k + len src) with (i <? 8 * (Z.of_nat k + len src)) by (case_cmp; zdiv).
  destruct (Z.leb_spec (8 * Z.of_nat k) i) as [Hk|Hk]; cbn [andb]; [|rewrite leval_repeat0; apply Z.bits_0].
  destruct (Z.ltb_spec i (8 * (Z.of_nat k + len src))); cbn [andb]; [|rewrite leval_repeat0; apply Z.bits_0].
  rewrite testbit_leval by (auto; lia). f_equal; [f_equal|]; zdiv.
Qed.

(** The bit of the bitmap read [i]-th from byte [pos], after [off] bits. *)
Definition bitAt (bitmap : list Z) (rev : bool) (pos off i : Z) : bool :=
  Z.testbit (leval bitmap) (if rev then 8 * pos - 1 - off - i else 8 * pos + off + i).

(** There are [k] bytes to read at [pos]. *)
Definition readable (bitmap : list Z) (rev : bool) (pos k : Z) : Prop :=
  0 <= k <= 8 /\ if rev then k <= pos <= len bitmap else 0 <= pos /\ pos + k <= len bitmap.

Definition moved (br br' : baseSetBitRunReader) (k : Z) : Prop :=
  br' = SBR.setPos br (if sb_reversed br then sb_pos br - k else sb_pos br + k).

Lemma testbit_slice bitmap (lo : Z) k i :
  bytes bitmap -> 0 <= lo -> 0 <= k -> 0 <= i ->
  Z.testbit (leval (firstn (Z.to_nat k) (skipn (Z.to_nat lo) bitmap))) i = (i <? 8 * k) && Z.testbit (leval bitmap) (8 * lo + i).
Proof.
  intros Hb Hlo Hk Hi. rewrite leval_slice, testbit_field, !Z2Nat.id by (auto; lia). bool_lia (0 <=? i). now rewrite andb_true_r.
Qed.

Lemma loadPartial_ok br off n :
  bytes (sb_bitmap br) -> 0 <= off < 8 -> 1 <= n <= 64 -> off + n <= 8 * BytesForBits n ->
  readable (sb_bitmap br) (sb_reversed br) (sb_pos br) (BytesForBits n) ->
  exists br' w, SBR.loadPartial br off n = Some (br', w) /\ moved br br' (BytesForBits n) /\ 0 <= w < 2 ^ 64 /\
    wordIs (sb_reversed br) w (bitAt (sb_bitmap br) (sb_reversed br) (sb_pos br) off) n.
Proof.
  intros Hb Ho Hn Hcov [Hk Hrd]. unfold SBR.loadPartial, moved, wordIs, rbit, bitAt. set (k := BytesForBits n) in *. destruct (sb_reversed br) eqn:Er.
  - cbn [SBR.setPos sb_bitmap sb_pos]. rewrite slice_ok by lia. cbn [opt_bind]. eexists _, _. split; [reflexivity|]. split; [reflexivity|].
    set (src := firstn _ _). assert (HL : List.length src = Z.to_nat k) by (subst src; rewrite length_firstn, length_skipn; lia).
    set (W := shl64 _ _). assert (HW : 0 <= W < 2 ^ 64) by (apply Z.mod_pos_bound; lia).
    split; [split; [apply Z.ldiff_nonneg; lia|]|].
    { apply word_bound; [lia|apply Z.ldiff_nonneg; lia|]. intros j Hj. rewrite Z.ldiff_spec, (high_bits 64) by lia. reflexivity. }
    intros i Hi. rewrite Z.ldiff_spec, LSM_bit by lia. replace (63 - i <? 64 - n) with (negb (i <? n)) by (case_cmp; cbn; try reflexivity; lia). rewrite negb_involutive, andb_comm.
    destruct (Z.ltb_spec i n); cbn [andb]; [|reflexivity]. unfold W, shl64, u64. rewrite Z.mod_pow2_bits_low, Z.shiftl_spec by lia.
    rewrite splice_word_bit by (try lia; subst src; auto with gobytes). rewrite HL, !Z2Nat.id by lia. bool_lia (8 * (8 - k) <=? 63 - i - off). bool_lia (63 - i - off <? 8 * (8 - k + k)). cbn [andb].
    subst src. replace (sb_pos br - k + k - (sb_pos br - k)) with k by lia. rewrite testbit_slice by (auto; lia). bool_lia (63 - i - off - 8 * (8 - k) <? 8 * k). cbn [andb]. f_equal. lia.
  - rewrite slice_ok by lia. cbn [opt_bind]. eexists _, _. split; [reflexivity|]. split; [reflexivity|].
    set (src := firstn _ _). assert (HL : List.length src = Z.to_nat k) by (subst src; rewrite length_firstn, length_skipn; lia).
    set (M := LeastSignificantBitMask n). assert (HM : 0 <= M < 2 ^ 64) by (apply Z.mod_pos_bound; lia).
    split; [split; [apply Z.land_nonneg; lia|]|].
    { apply word_bound; [lia|apply Z.land_nonneg; lia|]. intros j Hj. rewrite Z.land_spec, (high_bits 64 M) by lia. apply andb_false_r. }
    intros i Hi. rewrite Z.land_spec. subst M. rewrite LSM_bit, andb_comm by lia. destruct (Z.ltb_spec i n); cbn [andb]; [|reflexivity].
    rewrite Z.shiftr_spec by lia. rewrite splice_word_bit by (try lia; subst src; auto with gobytes). rewrite HL, !Z2Nat.id by lia.
    bool_lia (8 * Z.of_nat 0 <=? i + off). bool_lia (i + off <? 8 * (Z.of_nat 0 + k)). cbn [andb].
    subst src. replace (sb_pos br + k - sb_pos br) with k by lia. rewrite testbit_slice by (auto; lia). bool_lia (i + off - 8 * Z.of_nat 0 <? 8 * k). cbn [andb]. f_equal. lia.
Qed.

Lemma loadFull_ok br :
  bytes (sb_bitmap br) -> readable (sb_bitmap br) (sb_reversed br) (sb_pos br) 8 ->
  exists br' w, SBR.loadFull br = Some (br', w) /\ moved br br' 8 /\ 0 <= w < 2 ^ 64 /\
    wordIs (sb_reversed br) w (bitAt (sb_bitmap br) (sb_reversed br) (sb_pos br) 0) 64.
Proof.
  intros Hb [Hk Hrd]. unfold SBR.loadFull, moved, wordIs, rbit, bitAt.
  assert (Hword : forall lo, 0 <= lo -> lo + 8 <= len (sb_bitmap br) -> 0 <= leval (firstn 8 (skipn (Z.to_nat lo) (sb_bitmap br))) < 2 ^ 64).
  { intros lo H0 H1. pose proof (leval_bound (firstn 8 (skipn (Z.to_nat lo) (sb_bitmap br))) ltac:(auto with gobytes)) as HB.
    rewrite length_firstn, length_skipn in HB. replace (Nat.min 8 _) with 8%nat in HB by lia. exact HB. }
  destruct (sb_reversed br) eqn:Er; cbn [SBR.setPos sb_bitmap sb_pos sb_reversed negb]; rewrite ?Er; cbn [negb]; rewrite slice_ok by lia; cbn [opt_bind];
    (eexists _, _; split; [reflexivity|]; split; [reflexivity|]).
  - replace (Z.to_nat (sb_pos br - 8 + 8 - (sb_pos br - 8))) with (Z.to_nat 8) by lia. split; [apply Hword; lia|].
    intros i Hi. rewrite testbit_slice by (auto; lia). bool_lia (63 - i <? 8 * 8). bool_lia (i <? 64). cbn [andb]. f_equal. lia.
  - replace (Z.to_nat (sb_pos br + 8 - sb_pos br)) with (Z.to_nat 8) by lia. split; [apply Hword; lia|].
    intros i Hi. rewrite testbit_slice by (auto; lia). bool_lia (i <? 8 * 8). bool_lia (i <? 64). cbn [andb]. f_equal. lia.
Qed.

(** ** The reader's state *)

Section Reader.
Variables (bitmap : list Z) (start length : Z) (rev : bool).
Hypotheses (Hb : bytes bitmap) (Hs : 0 <= start) (Hl : 0 <= length) (Hfit : start + length <= 8 * len bitmap).
Implicit Types br : baseSetBitRunReader.

(** The bits of the range in reading order. *)
Definition order (k : Z) : bool := Z.testbit (leval bitmap) (if rev then start + length - 1 - k else start + k).

(** [c] bits have been passed, the next [n] are in the current word, and the following ones
    start at byte [pos]. *)
Record readerAt br (c n : Z) : Prop := mkReaderAt {
  ra_bitmap : sb_bitmap br = bitmap;
  ra_length : sb_length br = length;
  ra_rev : sb_reversed br = rev;
  ra_first : sb_firstBit br = if rev then 2 ^ 63 else 1;
  ra_remaining : sb_remaining br = length - c;
  ra_num : sb_curNumBits br = n;
  ra_c : 0 <= c;
  ra_n : 0 <= n <= 64 /\ c + n <= length;
  ra_pos : c + n < length -> 8 * sb_pos br = if rev then start + length - c - n else start + c + n
}.

(** The current word holds them. *)
Definition wordAt (w c n : Z) : Prop := 0 <= w < 2 ^ 64 /\ wordIs rev w (fun i => order (c + i)) n.

Definition inv br (c : Z) : Prop := exists n, readerAt br c n /\ (n = 0 \/ wordAt (sb_curWord br) c n).

Lemma readable_at br c k n :
  readerAt br c 0 -> c + n <= length -> 0 < n -> 0 <= k <= 8 -> 8 * k < n + 8 -> readable (sb_bitmap br) (sb_reversed br) (sb_pos br) k.
Proof.
  intros [-> _ -> _ _ _ Hc _ Hpos] Hn H0 Hk Hkn. specialize (Hpos ltac:(lia)). split; [assumption|]. destruct rev; lia.
Qed.

Lemma load_at br br' c k n w :
  readerAt br c 0 -> 0 < n <= 64 -> c + n <= length -> moved br br' k -> (c + n < length -> 8 * k = n) ->
  0 <= w < 2 ^ 64 -> wordIs (sb_reversed br) w (bitAt (sb_bitmap br) (sb_reversed br) (sb_pos br) 0) n ->
  wordAt w c n /\ (forall w', readerAt (SBR.setWord br' (length - c) w' n) c n) /\ sb_remaining br' = length - c /\ sb_curNumBits br' = 0 /\ sb_reversed br' = rev.
Proof.
  intros [Hbm HL Hr Hf Hrem Hnum Hc Hn0 Hpos] Hn Hcn Hm Hk Hw HW. unfold moved in Hm. subst br'. rewrite Hbm, Hr in *. specialize (Hpos ltac:(lia)). splits; auto.
  - split; [assumption|]. intros i Hi. rewrite HW by assumption. f_equal. unfold bitAt, order. f_equal. destruct rev; lia.
  - intros w'. constructor; cbn [SBR.setWord SBR.setPos sb_bitmap sb_length sb_reversed sb_firstBit sb_remaining sb_curNumBits sb_pos]; auto; try lia.
    intros Hlt. specialize (Hk Hlt). destruct rev; lia.
Qed.

Lemma loadFull_at br c :
  readerAt br c 0 -> c + 64 <= length ->
  exists br' w, SBR.loadFull br = Some (br', w) /\ wordAt w c 64 /\ (forall w', readerAt (SBR.setWord br' (length - c) w' 64) c 64) /\
    sb_remaining br' = length - c /\ sb_curNumBits br' = 0 /\ sb_reversed br' = rev.
Proof.
  intros HR Hc. destruct (loadFull_ok br) as (br' & w & HE & Hm & Hw & HW).
  - now rewrite (ra_bitmap _ _ _ HR).
  - apply (readable_at br c 8 64); auto; lia.
  - exists br', w. split; [exact HE|]. apply (load_at br br' c 8 64 w); auto; lia.
Qed.

Lemma loadPartial_at br c n :
  readerAt br c 0 -> c + n = length -> 0 < n < 64 ->
  exists br' w, SBR.loadPartial br 0 n = Some (br', w) /\ wordAt w c n /\ (forall w', readerAt (SBR.setWord br' (length - c) w' n) c n) /\
    sb_remaining br' = length - c /\ sb_curNumBits br' = 0 /\ sb_reversed br' = rev.
Proof.
  intros HR Hc Hn. destruct (BytesForBits_8 n) as [Hk1 Hk2]; [lia|lia|]. destruct (loadPartial_ok br 0 n) as (br' & w & HE & Hm & Hw & HW); try lia.
  - now rewrite (ra_bitmap _ _ _ HR).
  - apply (readable_at br c _ n); auto; lia.
  - exists br', w. split; [exact HE|]. apply (load_at br br' c (BytesForBits n) n w); auto; lia.
Qed.

(** Passing bits of the current word. *)
Lemma advance br c n k w :
  readerAt br c n -> 0 <= k <= n -> readerAt (SBR.setWord br (sb_remaining br - k) w (sb_curNumBits br - k)) (c + k) (n - k).
Proof.
  intros [Hbm HL Hr Hf Hrem Hnum Hc Hn0 Hpos] Hk. constructor; cbn [SBR.setWord sb_bitmap sb_length sb_reversed sb_firstBit sb_remaining sb_curNumBits sb_pos]; auto; try lia.
  intros Hlt. rewrite Hpos by lia. destruct rev; lia.
Qed.

Lemma wordAt_consume br w c n k : sb_reversed br = rev -> wordAt w c n -> 0 <= k <= n -> n <= 64 -> wordAt (SBR.consumeBits br w k) (c + k) (n - k).
Proof.
  intros Hr [Hw HW] Hk Hn. rewrite <- Hr in HW. destruct (consume_spec br w _ n k HW Hw Hk Hn) as [HW' Hw']. rewrite Hr in HW'. split; [assumption|].
  intros i Hi. rewrite HW' by assumption. do 2 f_equal. lia.
Qed.

Definition zerosOn (a b : Z) : Prop := forall i, a <= i < b -> order i = false.
Definition onesOn (a b : Z) : Prop := forall i, a <= i < b -> order i = true.

Lemma zerosOn_app a b c : zerosOn a b -> zerosOn b c -> zerosOn a c.
Proof. intros H1 H2 i Hi. destruct (Z.lt_ge_cases i b); [apply H1|apply H2]; lia. Qed.

Lemma onesOn_app a b c : onesOn a b -> onesOn b c -> onesOn a c.
Proof. intros H1 H2 i Hi. destruct (Z.lt_ge_cases i b); [apply H1|apply H2]; lia. Qed.

(** The zeros and the ones the current word starts with. *)
Lemma zeros_at br w c n :
  sb_reversed br = rev -> wordAt w c n -> 0 <= n <= 64 ->
  let z := SBR.countFirstZeros br w in
  0 <= z <= 64 /\ zerosOn c (c + Z.min z n) /\ (z < n -> order (c + z) = true) /\ (n <= z -> z = 64).
Proof.
  intros Hr [_ HW] Hn z. rewrite <- Hr in HW. destruct (zeros_spec br w _ n HW ltac:(lia)) as (Hz & Hf & Ht & H64). splits; try apply Hz; auto.
  intros i Hi. rewrite <- (Hf (i - c)) by (fold z; lia). f_equal. lia.
Qed.

Lemma ones_at br w c n :
  sb_reversed br = rev -> wordAt w c n -> 0 <= n <= 64 ->
  let o := SBR.countFirstZeros br (not64 w) in
  0 <= o <= n /\ onesOn c (c + o) /\ (o < n -> order (c + o) = false).
Proof.
  intros Hr [_ HW] Hn o. rewrite <- Hr in HW. destruct (ones_spec br w _ n HW Hn) as (Ho & Ht & Hf). splits; try apply Ho; auto.
  intros i Hi. rewrite <- (Ht (i - c)) by (fold o; lia). f_equal. lia.
Qed.

Lemma position_at br c n : readerAt br c n -> SBR.position br = if rev then length - c else c.
Proof. intros [_ HL Hr _ Hrem _ _ _ _]. unfold SBR.position. rewrite Hr, HL, Hrem. destruct rev; lia. Qed.

(** The run is the ones from [p] to [e]. *)
Definition runAt (p e : Z) : SetBitRun := mkRun (if rev then length - p else p) (e - p).

Lemma findCurrentRun_ok br c n :
  readerAt br c n -> wordAt (sb_curWord br) c n ->
  exists br' run, SBR.findCurrentRun br = (br', run) /\
    ((zerosOn c (c + n) /\ readerAt br' (c + n) 0 /\ Length run = 0) \/
     exists p e, c <= p < e /\ e <= c + n /\ zerosOn c p /\ onesOn p e /\ (e < c + n -> order e = false) /\
       run = runAt p e /\ readerAt br' e (c + n - e) /\ wordAt (sb_curWord br') e (c + n - e)).
Proof.
  intros HR HW. pose proof (ra_rev _ _ _ HR) as Hr. pose proof (ra_n _ _ _ HR) as Hn. unfold SBR.findCurrentRun. rewrite (ra_num _ _ _ HR).
  destruct (zeros_at br _ c n Hr HW ltac:(lia)) as (Hz & Hzs & Hone & _). set (z := SBR.countFirstZeros br (sb_curWord br)) in *.
  destruct (Z.leb_spec n z) as [Hle|Hlt].
  { eexists _, _. split; [reflexivity|]. left. rewrite Z.min_r in Hzs by lia. split; [exact Hzs|]. split; [|reflexivity].
    pose proof (advance br c n n 0 HR ltac:(lia)) as HA. rewrite (ra_num _ _ _ HR), Z.sub_diag in HA. exact HA. }
  pose proof (advance br c n z (SBR.consumeBits br (sb_curWord br) z) HR ltac:(lia)) as HR1. rewrite (ra_num _ _ _ HR) in HR1.
  pose proof (wordAt_consume br _ c n z Hr HW ltac:(lia) ltac:(lia)) as HW1. set (br1 := SBR.setWord br _ _ _) in *.
  pose proof (ra_rev _ _ _ HR1) as Hr1. change (SBR.consumeBits br (sb_curWord br) z) with (sb_curWord br1) in HW1.
  destruct (ones_at br1 _ _ _ Hr1 HW1 ltac:(lia)) as (Ho & Hos & Hzero). set (o := SBR.countFirstZeros br1 (not64 (sb_curWord br1))) in *.
  eexists _, _. split; [reflexivity|]. right. exists (c + z), (c + z + o). rewrite Z.min_l in Hzs by lia.
  assert (Ho1 : 0 < o) by (destruct (Z.eq_dec o 0) as [E|]; [|lia]; specialize (Hzero ltac:(lia)); specialize (Hone Hlt); rewrite E, Z.add_0_r in Hzero; congruence).
  splits; auto; try lia.
  - intros Hlt'. apply Hzero. lia.
  - rewrite (position_at br1 _ _ HR1). unfold runAt. f_equal. lia.
  - replace (c + n - (c + z + o)) with (n - z - o) by lia. apply (advance br1 (c + z) (n - z) o); [exact HR1|lia].
  - replace (c + n - (c + z + o)) with (n - z - o) by lia. cbn [SBR.setWord sb_curWord]. apply (wordAt_consume br1); auto; lia.
Qed.

(** The reader stands on a one, [n] bits of it in the current word. *)
Definition onOne br (c : Z) : Prop := exists n, c < length /\ order c = true /\ 0 < n /\ readerAt br c n /\ wordAt (sb_curWord br) c n.

Lemma passed_at br c n m w' k :
  (forall w', readerAt (SBR.setWord br (length - c) w' n) c n) -> sb_remaining br = length - c -> 0 <= k <= n -> m = n - k ->
  readerAt (SBR.setWord br (sb_remaining br - k) w' m) (c + k) (n - k).
Proof. intros HR Hrem Hk ->. pose proof (advance _ c n k w' (HR w') Hk) as HA. cbn [SBR.setWord sb_remaining sb_curNumBits] in HA. rewrite Hrem. exact HA. Qed.

Lemma skipWords_ok fuel br c :
  readerAt br c 0 -> (length - c) / 64 <= Z.of_nat fuel ->
  exists br' returned c', SBR.skipWords fuel br = Some (br', returned) /\ c <= c' /\ zerosOn c c' /\
    if returned : bool then onOne br' c' else readerAt br' c' 0 /\ length - c' < 64.
Proof.
  revert br c. induction fuel as [|fuel IH]; intros br c HR Hf; cbn [SBR.skipWords]; rewrite (ra_remaining _ _ _ HR); pose proof (ra_c _ _ _ HR) as Hc.
  { rewrite (proj2 (Z.leb_gt 64 (length - c))) by zdiv. exists br, false, c. splits; auto; [lia|intros i Hi; lia|zdiv]. }
  destruct (Z.leb_spec 64 (length - c)) as [Hge|Hlt]; [|exists br, false, c; splits; auto; [lia|intros i Hi; lia]].
  destruct (loadFull_at br c HR ltac:(lia)) as (br1 & w & -> & HW & HR1 & Hrem1 & Hnum1 & Hr1). cbn [opt_bind].
  destruct (zeros_at br1 w c 64 Hr1 HW ltac:(lia)) as (Hz & Hzs & Hone & H64). set (z := SBR.countFirstZeros br1 w) in *.
  destruct (Z.ltb_spec z 64) as [Hzl|Hzg].
  - eexists _, true, (c + z). split; [reflexivity|]. rewrite Z.min_l in Hzs by lia. splits; auto; [lia|]. exists (64 - z). splits; auto; try lia.
    + apply (passed_at br1 c 64); auto; lia.
    + cbn [SBR.setWord sb_curWord]. apply wordAt_consume; auto; lia.
  - assert (z = 64) by lia. pose proof (passed_at br1 c 64 0 w 64 HR1 Hrem1 ltac:(lia) ltac:(lia)) as HR2. change (64 - 64) with 0 in HR2.
    rewrite Hnum1. destruct (IH _ _ HR2) as (br' & ret & c' & -> & Hc' & Hzs' & Hres); [zdiv|].
    exists br', ret, c'. splits; auto; [lia|]. rewrite Z.min_r in Hzs by lia. eapply zerosOn_app; eassumption.
Qed.

Lemma wordFuel_ok br c n : readerAt br c n -> (length - c) / 64 <= Z.of_nat (SBR.wordFuel br).
Proof. intros HR. unfold SBR.wordFuel. rewrite (ra_remaining _ _ _ HR). pose proof (ra_n _ _ _ HR). rewrite Z2Nat.id by zdiv. lia. Qed.

Lemma skipNextZeros_ok br c :
  readerAt br c 0 ->
  exists br' c', SBR.skipNextZeros br = Some br' /\ c <= c' /\ zerosOn c c' /\ (c' = length /\ readerAt br' c' 0 \/ onOne br' c').
Proof.
  intros HR. unfold SBR.skipNextZeros. destruct (skipWords_ok _ br c HR (wordFuel_ok br c 0 HR)) as (br1 & ret & c1 & -> & Hc1 & Hzs & Hres). cbn [opt_bind].
  destruct ret; [exists br1, c1; auto|]. destruct Hres as [HR1 Hlt]. rewrite (ra_remaining _ _ _ HR1). pose proof (ra_n _ _ _ HR1) as Hn.
  destruct (Z.ltb_spec 0 (length - c1)) as [Hgt|Hle]; [|exists br1, c1; splits; auto; left; split; [lia|assumption]].
  destruct (loadPartial_at br1 c1 (length - c1) HR1 ltac:(lia) ltac:(lia)) as (br2 & w & -> & HW & HR2 & Hrem2 & Hnum2 & Hr2). cbn [opt_bind]. rewrite Hrem2.
  destruct (zeros_at br2 w c1 _ Hr2 HW ltac:(lia)) as (Hz & Hzs2 & Hone & H64). set (z := SBR.countFirstZeros br2 w) in *. rewrite Z.min_comm in Hzs2. set (k := Z.min (length - c1) z) in *.
  eexists _, (c1 + k). split; [reflexivity|]. split; [lia|]. split; [eapply zerosOn_app; eassumption|].
  pose proof (passed_at br2 c1 (length - c1) (length - c1 - k) (SBR.consumeBits br2 w k) k HR2 Hrem2 ltac:(lia) eq_refl) as HR3. rewrite Hrem2 in HR3.
  destruct (Z.eq_dec k (length - c1)) as [Hk|Hk].
  - left. split; [lia|]. replace (length - c1 - k) with 0 in * by lia. exact HR3.
  - right. exists (length - c1 - k). splits; auto; try lia; [replace (c1 + k) with (c1 + z) by lia; apply Hone; lia|]. cbn [SBR.setWord sb_curWord]. apply wordAt_consume; auto; lia.
Qed.

(** The ones go on to [e], where they end. *)
Definition onesTo (c e : Z) : Prop := c <= e <= length /\ onesOn c e /\ (e < length -> order e = false).

Lemma onesTo_app a b c : onesOn a b -> a <= b -> onesTo b c -> onesTo a c.
Proof. intros H1 Hab (Hr & H2 & H3). split; [lia|]. split; [eapply onesOn_app; eassumption|assumption]. Qed.

Lemma onesWords_ok fuel br c len0 :
  readerAt br c 0 -> (length - c) / 64 <= Z.of_nat fuel ->
  exists br' returned c', SBR.onesWords fuel br len0 = Some (br', len0 + (c' - c), returned) /\ c <= c' /\ onesOn c c' /\
    if returned : bool then c' < length /\ order c' = false /\ inv br' c' else readerAt br' c' 0 /\ length - c' < 64.
Proof.
  revert br c len0. induction fuel as [|fuel IH]; intros br c len0 HR Hf; cbn [SBR.onesWords]; rewrite (ra_remaining _ _ _ HR); pose proof (ra_c _ _ _ HR) as Hc.
  { rewrite (proj2 (Z.leb_gt 64 (length - c))) by zdiv. exists br, false, c. rewrite Z.sub_diag, Z.add_0_r. splits; auto; [lia|intros i Hi; lia|zdiv]. }
  destruct (Z.leb_spec 64 (length - c)) as [Hge|Hlt]; [|exists br, false, c; rewrite Z.sub_diag, Z.add_0_r; splits; auto; [lia|intros i Hi; lia]].
  destruct (loadFull_at br c HR ltac:(lia)) as (br1 & w & -> & HW & HR1 & Hrem1 & Hnum1 & Hr1). cbn [opt_bind].
  destruct (ones_at br1 w c 64 Hr1 HW ltac:(lia)) as (Ho & Hos & Hzero). set (o := SBR.countFirstZeros br1 (not64 w)) in *.
  destruct (Z.ltb_spec o 64) as [Hol|Hog].
  - eexists _, true, (c + o). replace (len0 + (c + o - c)) with (len0 + o) by lia. split; [reflexivity|]. splits; auto; try lia. exists (64 - o). split.
    + apply (passed_at br1 c 64); auto; lia.
    + right. cbn [SBR.setWord sb_curWord]. apply wordAt_consume; auto; lia.
  - assert (o = 64) by lia. pose proof (passed_at br1 c 64 0 w 64 HR1 Hrem1 ltac:(lia) ltac:(lia)) as HR2. change (64 - 64) with 0 in HR2.
    rewrite Hnum1. replace o with 64 in * by lia. destruct (IH _ _ (len0 + 64) HR2) as (br' & ret & c' & -> & Hc' & Hos' & Hres); [zdiv|].
    exists br', ret, c'. replace (len0 + (c' - c)) with (len0 + 64 + (c' - (c + 64))) by lia. splits; auto; [lia|]. eapply onesOn_app; eassumption.
Qed.

Lemma onesTail_ok br c len0 :
  readerAt br c 0 -> exists br' e, SBR.onesTail br len0 = Some (br', len0 + (e - c)) /\ onesTo c e /\ inv br' e.
Proof.
  intros HR. unfold SBR.onesTail. destruct (onesWords_ok _ br c len0 HR (wordFuel_ok br c 0 HR)) as (br1 & ret & c1 & -> & Hc1 & Hos & Hres). cbn [opt_bind].
  destruct ret; [destruct Hres as (Hlt & Hz & HI); exists br1, c1; split; [reflexivity|]; split; [split; [lia|auto]|assumption]|].
  destruct Hres as [HR1 Hlt]. rewrite (ra_remaining _ _ _ HR1). pose proof (ra_n _ _ _ HR1) as Hn.
  destruct (Z.ltb_spec 0 (length - c1)) as [Hgt|Hle].
  2:{ exists br1, c1. split; [reflexivity|]. split; [split; [lia|split; [assumption|lia]]|]. exists 0. auto. }
  destruct (loadPartial_at br1 c1 (length - c1) HR1 ltac:(lia) ltac:(lia)) as (br2 & w & -> & HW & HR2 & Hrem2 & Hnum2 & Hr2). cbn [opt_bind].
  destruct (ones_at br2 w c1 _ Hr2 HW ltac:(lia)) as (Ho & Hos2 & Hzero). set (o := SBR.countFirstZeros br2 (not64 w)) in *.
  pose proof (passed_at br2 c1 (length - c1) (length - c1 - o) (SBR.consumeBits br2 w o) o HR2 Hrem2 ltac:(lia) eq_refl) as HR3. rewrite Hrem2 in HR3 |- *.
  eexists _, (c1 + o). replace (len0 + (c1 + o - c)) with (len0 + (c1 - c) + o) by lia. split; [reflexivity|]. split.
  - split; [lia|]. split; [eapply onesOn_app; eassumption|]. intros He. apply Hzero. lia.
  - exists (length - c1 - o). split; [exact HR3|]. right. cbn [SBR.setWord sb_curWord]. apply wordAt_consume; auto; lia.
Qed.

Lemma all_ones w c n : wordAt w c n -> 0 <= n <= 64 -> not64 w = 0 -> n = 64 /\ onesOn c (c + 64).
Proof.
  intros [_ HW] Hn H0. assert (Hall : forall i, 0 <= i < 64 -> (i <? n) && order (c + i) = true).
  { intros i Hi. rewrite <- HW by assumption. apply negb_false_iff. rewrite <- rbit_not64, H0 by assumption. apply Z.bits_0. }
  split.
  - destruct (Z.eq_dec n 64) as [|Hne]; [assumption|]. specialize (Hall n ltac:(lia)). rewrite Z.ltb_irrefl in Hall. discriminate.
  - intros i Hi. specialize (Hall (i - c) ltac:(lia)). apply andb_true_iff in Hall as [_ Hi']. rewrite <- Hi'. f_equal. lia.
Qed.

Lemma countNextOnes_ok br c n :
  readerAt br c n -> wordAt (sb_curWord br) c n -> 0 < n ->
  exists br' e, SBR.countNextOnes br = Some (br', e - c) /\ onesTo c e /\ inv br' e.
Proof.
  intros HR HW Hn0. pose proof (ra_rev _ _ _ HR) as Hr. pose proof (ra_n _ _ _ HR) as Hn. pose proof (ra_c _ _ _ HR) as Hc. unfold SBR.countNextOnes.
  destruct (Z.eqb_spec (not64 (sb_curWord br)) 0) as [Hall|Hsome]; cbn [negb].
  - destruct (all_ones _ c n HW ltac:(lia) Hall) as [-> Hos]. pose proof (advance br c 64 64 (sb_curWord br) HR ltac:(lia)) as HR1.
    rewrite (ra_num _ _ _ HR) in HR1. change (64 - 64) with 0 in HR1.
    destruct (onesTail_ok _ _ 64 HR1) as (br' & e & -> & He & HI). exists br', e. replace (64 + (e - (c + 64))) with (e - c) by lia. splits; auto. eapply onesTo_app; [exact Hos|lia|assumption].
  - destruct (ones_at br _ c n Hr HW ltac:(lia)) as (Ho & Hos & Hzero). set (o := SBR.countFirstZeros br (not64 (sb_curWord br))) in *.
    pose proof (advance br c n o (SBR.consumeBits br (sb_curWord br) o) HR ltac:(lia)) as HR1. set (br1 := SBR.setWord br _ _ _) in *. rewrite (ra_num _ _ _ HR1).
    destruct (Z.eqb_spec (n - o) 0) as [He|He]; cbn [negb].
    + rewrite He in HR1. destruct (onesTail_ok _ _ o HR1) as (br' & e & -> & He' & HI). exists br', e. replace (o + (e - (c + o))) with (e - c) by lia. splits; auto. eapply onesTo_app; [exact Hos|lia|assumption].
    + exists br1, (c + o). replace (c + o - c) with o by lia. split; [reflexivity|]. split; [split; [lia|split; [assumption|intros _; apply Hzero; lia]]|].
      exists (n - o). split; [assumption|]. right. cbn [br1 SBR.setWord sb_curWord]. apply wordAt_consume; auto; lia.
Qed.

Lemma adjustRun_ok br c p e : inv br c -> SBR.adjustRun br (runAt p e) = mkRun (if rev then length - e else p) (e - p).
Proof. intros (n & HR & _). unfold SBR.adjustRun, runAt. rewrite (ra_rev _ _ _ HR). cbn [Pos Length]. destruct rev; f_equal; lia. Qed.

Lemma firstBit_ok br c n : readerAt br c n -> wordAt (sb_curWord br) c n -> 0 < n -> (sb_curWord br & sb_firstBit br =? 0) = negb (order c).
Proof.
  intros HR [_ HW] Hn. specialize (HW 0 ltac:(lia)). unfold rbit in HW. rewrite Z.add_0_r, (proj2 (Z.ltb_lt 0 n)) in HW by lia. cbn [andb] in HW. rewrite (ra_first _ _ _ HR), <- HW.
  destruct rev; [apply (land_pow2 _ 63)|apply (land_pow2 _ 0)]; lia.
Qed.

Lemma extendSetRun_ok br c n p :
  readerAt br c n -> wordAt (sb_curWord br) c n -> 0 < n -> p <= c -> onesOn p c ->
  exists br' e, SBR.extendRun br (Pos (runAt p c)) (c - p) = Some (br', mkRun (if rev then length - e else p) (e - p)) /\ c <= e /\ onesTo p e /\ inv br' e.
Proof.
  intros HR HW Hn Hp Hos. unfold SBR.extendRun. destruct (countNextOnes_ok br c n HR HW Hn) as (br' & e & -> & He & HI). cbn [opt_bind].
  exists br', e. replace (mkRun (Pos (runAt p c)) (c - p + (e - c))) with (runAt p e) by (unfold runAt; cbn [Pos]; f_equal; lia).
  rewrite (adjustRun_ok br' e) by assumption. destruct He as (Hce & Hrest). splits; auto; [lia|]. eapply onesTo_app; [exact Hos|assumption|]. split; assumption.
Qed.

(** [NextRun] from bit [c]: the next maximal run of ones, or none. *)
Definition nextIs br' (run : SetBitRun) (c : Z) : Prop :=
  zerosOn c length /\ run = mkRun 0 0 /\ inv br' length \/
  exists p e, c <= p < e /\ zerosOn c p /\ onesTo p e /\ run = mkRun (if rev then length - e else p) (e - p) /\ inv br' e.

Lemma skipPath_ok br c :
  readerAt br c 0 ->
  exists br' run, (br <- SBR.skipNextZeros br ;; if sb_remaining br =? 0 then Some (br, mkRun 0 0) else SBR.extendRun br (SBR.position br) 0) = Some (br', run) /\ nextIs br' run c.
Proof.
  intros HR. destruct (skipNextZeros_ok br c HR) as (br1 & c1 & -> & Hc1 & Hzs & [[-> HR1]|(n & Hlt & Hone & Hn & HR1 & HW1)]); cbn [opt_bind]; rewrite (ra_remaining _ _ _ HR1).
  - rewrite Z.sub_diag. eexists _, _. split; [reflexivity|]. left. splits; auto. exists 0. auto.
  - bool_lia (length - c1 =? 0). rewrite (position_at br1 c1 n HR1).
    destruct (extendSetRun_ok br1 c1 n c1 HR1 HW1 Hn ltac:(lia) ltac:(intros i Hi; lia)) as (br' & e & HE & Hce & He & HI). rewrite Z.sub_diag in HE. unfold runAt in HE. cbn [Pos] in HE.
    rewrite HE. eexists _, _. split; [reflexivity|]. right. exists c1, e. splits; auto. destruct (Z.eq_dec e c1) as [->|]; [|lia].
    destruct He as (_ & _ & Hz). specialize (Hz Hlt). congruence.
Qed.

(** After a run that ends with the current word: the next word decides. *)
Lemma nextWord_ok br br1 w c p e n :
  wordAt w e n -> (forall w', readerAt (SBR.setWord br1 (length - e) w' n) e n) -> 0 < n -> e < length ->
  c <= p < e -> zerosOn c p -> onesOn p e -> br = SBR.setWord br1 (length - e) w n ->
  exists br' run, (if (sb_curWord br & sb_firstBit br) =? 0 then Some (br, SBR.adjustRun br (runAt p e)) else SBR.extendRun br (Pos (runAt p e)) (e - p)) = Some (br', run) /\ nextIs br' run c.
Proof.
  intros HW HR Hn Hlt Hp Hzs Hos ->. specialize (HR w). set (br := SBR.setWord br1 _ w n) in *. rewrite (firstBit_ok br e n HR HW Hn).
  assert (HI : inv br e) by (exists n; auto). destruct (order e) eqn:E; cbn [negb].
  - destruct (extendSetRun_ok br e n p HR HW Hn ltac:(lia) Hos) as (br' & e' & -> & Hee & He & HI'). eexists _, _. split; [reflexivity|]. right. exists p, e'. splits; auto; lia.
  - rewrite (adjustRun_ok br e) by assumption. eexists _, _. split; [reflexivity|]. right. exists p, e. splits; auto; try lia. split; [lia|auto].
Qed.

Lemma NextRun_ok br c : inv br c -> exists br' run, SBR.NextRun br = Some (br', run) /\ nextIs br' run c.
Proof.
  intros (n & HR & HW). unfold SBR.NextRun. rewrite (ra_num _ _ _ HR). destruct (Z.eqb_spec n 0) as [->|Hn0]; cbn [negb].
  { cbn [Length Z.eqb negb andb]. now apply skipPath_ok. }
  destruct HW as [|HW]; [contradiction|].
  destruct (findCurrentRun_ok br c n HR HW) as (br1 & run & -> & [(Hzs & HR1 & ->)|(p & e & Hp & He & Hzs & Hos & Hend & -> & HR1 & HW1)]).
  { cbn [Z.eqb negb andb]. destruct (skipPath_ok br1 (c + n) HR1) as (br' & run' & HE & HN). exists br', run'. split; [exact HE|]. pose proof (ra_n _ _ _ HR).
    destruct HN as [(Hz & Hrest)|(p & e & Hp & Hz & Hrest)]; [left|right; exists p, e; split; [lia|]]; (split; [eapply zerosOn_app; eassumption|assumption]). }
  change (Length (runAt p e)) with (e - p). bool_lia (e - p =? 0). cbn [negb andb]. rewrite (ra_num _ _ _ HR1). pose proof (ra_n _ _ _ HR1) as Hn1.
  destruct (Z.eqb_spec (c + n - e) 0) as [Hz|Hnz]; cbn [negb].
  2:{ rewrite (adjustRun_ok br1 e) by (exists (c + n - e); auto). eexists _, _. split; [reflexivity|]. right. exists p, e. splits; auto; try lia; [|exists (c + n - e); auto].
      split; [lia|]. split; [assumption|]. intros _. apply Hend. lia. }
  rewrite Hz in HR1. rewrite (ra_remaining _ _ _ HR1). destruct (Z.leb_spec 64 (length - e)) as [Hge|Hlt].
  { destruct (loadFull_at br1 e HR1 ltac:(lia)) as (br2 & w & -> & HW2 & HR2 & Hrem2 & _). cbn [opt_bind]. rewrite Hrem2. eapply nextWord_ok; eauto; lia. }
  destruct (Z.ltb_spec 0 (length - e)) as [Hgt|Hle].
  { destruct (loadPartial_at br1 e (length - e) HR1 ltac:(lia) ltac:(lia)) as (br2 & w & -> & HW2 & HR2 & Hrem2 & _). cbn [opt_bind]. rewrite Hrem2. eapply nextWord_ok; eauto; lia. }
  rewrite (adjustRun_ok br1 e) by (exists 0; auto). eexists _, _. split; [reflexivity|]. right. exists p, e. splits; auto; try lia; [|exists 0; auto].
  split; [lia|]. split; [assumption|]. intros. lia.
Qed.

Lemma Reset_inv br : sb_reversed br = rev -> exists br', SBR.Reset br bitmap start length = Some br' /\ inv br' 0.
Proof.
  intros Hr. unfold SBR.Reset. rewrite Hr, !Z.rem_mod_nonneg, !Z.quot_div_nonneg by lia.
  assert (H1 : forall n, 1 <= n <= 8 -> BytesForBits n = 1) by (intros n Hn; destruct (BytesForBits_8 n); lia).
  destruct rev eqn:Erev; cbn [negb].
  - set (x := (start + length) mod 8). set (q := (start + length) / 8). assert (Hq : start + length = 8 * q + x /\ 0 <= x < 8) by (subst q x; zdiv).
    destruct (Z.ltb_spec 0 length) as [Hp|Hp]; cbn [andb]; [|eexists; split; [reflexivity|]; exists 0; split; [constructor; cbn [SBR.setWord SBR.setPos sb_bitmap sb_length sb_reversed sb_firstBit sb_remaining sb_curNumBits sb_pos]; rewrite ?Erev; auto; lia|now left]].
    destruct (Z.eqb_spec x 0) as [Hx|Hx]; cbn [negb]; [eexists; split; [reflexivity|]; exists 0; split; [constructor; cbn [SBR.setWord SBR.setPos sb_bitmap sb_length sb_reversed sb_firstBit sb_remaining sb_curNumBits sb_pos]; rewrite ?Erev; auto; lia|now left]|].
    destruct (loadPartial_ok (SBR.setPos (mkSBR bitmap q length length 0 0 true 9223372036854775808) (q + 1)) (8 - x) (Z.min length x)) as (br' & w & -> & Hm & Hw & HW);
      try (rewrite H1 by lia); cbn [SBR.setPos sb_bitmap sb_reversed sb_pos]; auto; try lia; [split; lia|]. cbn [opt_bind]. eexists. split; [reflexivity|]. unfold moved in Hm. subst br'. exists (Z.min length x).
    rewrite H1 by lia. split; [constructor; cbn [SBR.setWord SBR.setPos sb_bitmap sb_length sb_reversed sb_firstBit sb_remaining sb_curNumBits sb_pos]; rewrite ?Erev; auto; lia|]. right. cbn [SBR.setWord sb_curWord]. split; [assumption|]. rewrite Erev. intros i Hi. rewrite HW by assumption. f_equal.
    unfold bitAt, order. cbn [SBR.setPos sb_pos sb_bitmap sb_reversed]. rewrite Erev. f_equal. lia.
  - set (x := start mod 8). set (q := start / 8). assert (Hq : start = 8 * q + x /\ 0 <= x < 8) by (subst q x; zdiv).
    destruct (Z.ltb_spec 0 length) as [Hp|Hp]; cbn [andb]; [|eexists; split; [reflexivity|]; exists 0; split; [constructor; cbn [SBR.setWord SBR.setPos sb_bitmap sb_length sb_reversed sb_firstBit sb_remaining sb_curNumBits sb_pos]; rewrite ?Erev; auto; lia|now left]].
    destruct (Z.eqb_spec x 0) as [Hx|Hx]; cbn [negb]; [eexists; split; [reflexivity|]; exists 0; split; [constructor; cbn [SBR.setWord SBR.setPos sb_bitmap sb_length sb_reversed sb_firstBit sb_remaining sb_curNumBits sb_pos]; rewrite ?Erev; auto; lia|now left]|].
    destruct (loadPartial_ok (mkSBR bitmap q length length 0 0 false 1) x (Z.min length (8 - x))) as (br' & w & -> & Hm & Hw & HW);
      try (rewrite H1 by lia); cbn [SBR.setPos sb_bitmap sb_reversed sb_pos]; auto; try lia; [split; lia|]. cbn [opt_bind]. eexists. split; [reflexivity|]. unfold moved in Hm. subst br'. exists (Z.min length (8 - x)).
    rewrite H1 by lia. split; [constructor; cbn [SBR.setWord SBR.setPos sb_bitmap sb_length sb_reversed sb_firstBit sb_remaining sb_curNumBits sb_pos]; rewrite ?Erev; auto; lia|]. right. cbn [SBR.setWord sb_curWord]. split; [assumption|]. rewrite Erev. intros i Hi. rewrite HW by assumption. f_equal.
    unfold bitAt, order. cbn [SBR.setPos sb_pos sb_bitmap sb_reversed]. rewrite Erev. f_equal. lia.
Qed.

(** ** All runs *)

(** The maximal runs of ones of [g] between [c] and [b]. *)
Inductive maxRuns (g : Z -> bool) (b : Z) : Z -> list (Z * Z) -> Prop :=
| maxRuns_nil c : (forall i, c <= i < b -> g i = false) -> maxRuns g b c []
| maxRuns_cons c p e rs :
    c <= p < e -> e <= b -> (forall i, c <= i < p -> g i = false) -> (forall i, p <= i < e -> g i = true) ->
    (e < b -> g e = false) -> maxRuns g b e rs -> maxRuns g b c ((p, e - p) :: rs).

(** A visitor over a list of runs, up to its first error. *)
Fixpoint visitAll {S} (visitFn : Z -> Z -> S -> option (S * option goerr)) (rs : list (Z * Z)) (s : S) : option (S * option goerr) :=
  match rs with
  | [] => Some (s, None)
  | (pos, n) :: rs' =>
      r <- visitFn pos n s ;;
      match r with
      | (s', Some e) => Some (s', Some e)
      | (s', None) => visitAll visitFn rs' s'
      end
  end.

(** A run of the reading order as a run of the bitmap. *)
Definition place (r : Z * Z) : Z * Z := if rev then (length - (fst r + snd r), snd r) else r.

(** A loop over the runs does what the visitor of the list does, and the reader can be used again. *)
Definition visits {S} (res : option (baseSetBitRunReader * S * option goerr)) (spec : option (S * option goerr)) : Prop :=
  match res with
  | Some (br, s, e) => spec = Some (s, e) /\ sb_reversed br = rev
  | None => spec = None
  end.

(** The runs a reader returns one after the other, before an empty one. *)
Fixpoint yields (rs : list (Z * Z)) br : Prop :=
  sb_reversed br = rev /\
  match rs with
  | [] => exists br', SBR.NextRun br = Some (br', mkRun 0 0) /\ sb_reversed br' = rev
  | (p, n) :: rs' => exists br', SBR.NextRun br = Some (br', mkRun p n) /\ 0 < n /\ yields rs' br'
  end.

Lemma inv_yields k br c :
  inv br c -> length - c <= Z.of_nat k -> exists rs, maxRuns order length c rs /\ yields (map place rs) br /\ (List.length rs <= k)%nat.
Proof.
  revert br c. induction k as [|k IH]; intros br c HI Hk.
  - pose proof HI as (n & HR & _). destruct (NextRun_ok br c HI) as (br' & run & HE & [(Hz & -> & HI')|(p & e & Hp & Hz & (He & _) & _)]); [|lia].
    exists []. split; [now constructor|]. split; [|apply Nat.le_refl]. split; [apply HR|]. exists br'. split; [exact HE|]. destruct HI' as (m & HR' & _). apply HR'.
  - pose proof HI as (n & HR & _). destruct (NextRun_ok br c HI) as (br' & run & HE & [(Hz & -> & HI')|(p & e & Hp & Hz & (He & Hos & Hend) & -> & HI')]).
    + exists []. split; [now constructor|]. split; [|cbn; lia]. split; [apply HR|]. exists br'. split; [exact HE|]. destruct HI' as (m & HR' & _). apply HR'.
    + destruct (IH br' e HI' ltac:(lia)) as (rs & Hrs & Hy & HL). exists ((p, e - p) :: rs). split; [constructor; auto; lia|]. split; [|cbn; lia]. cbn [map yields].
      split; [apply HR|]. replace (place (p, e - p)) with (if rev then length - e else p, e - p) by (unfold place; cbn [fst snd]; destruct rev; f_equal; lia).
      exists br'. split; [exact HE|]. split; [lia|exact Hy].
Qed.

Lemma visitLoop_ok {S} (visitFn : Z -> Z -> S -> option (S * option goerr)) fuel rs br s :
  yields rs br -> (List.length rs < fuel)%nat -> visits (SBR.visitLoop fuel br visitFn s) (visitAll visitFn rs s).
Proof.
  clear Hb Hs Hl Hfit. revert br rs s. induction fuel as [|fuel IH]; intros br rs s Hy Hf; [lia|]. cbn [SBR.visitLoop]. destruct rs as [|[p n] rs]; cbn [yields visitAll List.length] in *.
  - destruct Hy as (_ & br' & -> & Hr'). cbn [opt_bind Length Z.eqb]. split; [reflexivity|assumption].
  - destruct Hy as (_ & br' & -> & Hn & Hy). cbn [opt_bind Length Pos]. bool_lia (n =? 0).
    destruct (visitFn p n s) as [[s' [err|]]|]; cbn [opt_bind]; [|apply IH; [assumption|lia]|reflexivity]. split; [reflexivity|]. destruct rs as [|[? ?] ?]; apply Hy.
Qed.

Lemma Reset_yields br0 :
  sb_reversed br0 = rev ->
  exists br rs, SBR.Reset br0 bitmap start length = Some br /\ maxRuns order length 0 rs /\ yields (map place rs) br /\
    sb_remaining br = length /\ Z.of_nat (List.length rs) <= length.
Proof.
  intros Hr. destruct (Reset_inv br0 Hr) as (br & -> & HI). destruct (inv_yields (Z.to_nat length) br 0 HI ltac:(lia)) as (rs & Hrs & Hy & HL).
  exists br, rs. splits; auto; [|lia]. destruct HI as (n & HR & _). rewrite (ra_remaining _ _ _ HR). lia.
Qed.
End Reader.

(** The runs of a range, bit by bit: [cur] ones end at [i]. *)
Fixpoint runsFrom (g : Z -> bool) (k : nat) (i cur : Z) : list (Z * Z) :=
  let close := if cur =? 0 then [] else [(i - cur, cur)] in
  match k with
  | O => close
  | S k' => if g i then runsFrom g k' (i + 1) (cur + 1) else close ++ runsFrom g k' (i + 1) 0
  end.

(** The reference: the runs of ones of the bits [start] to [start + length]. *)
Definition setBitRuns (bitmap : list Z) (start length : Z) : list (Z * Z) :=
  runsFrom (fun i => Z.testbit (leval bitmap) (start + i)) (Z.to_nat length) 0 0.

Lemma runsFrom_zeros g n k i : (forall j, i <= j < i + Z.of_nat n -> g j = false) -> runsFrom g (n + k) i 0 = runsFrom g k (i + Z.of_nat n) 0.
Proof.
  revert i. induction n as [|n IH]; intros i Hz; [now rewrite Z.add_0_r|]. cbn [Nat.add runsFrom]. rewrite Hz by lia. cbn [Z.eqb app]. rewrite IH by (intros; apply Hz; lia). f_equal. lia.
Qed.

Lemma runsFrom_ones g n k i cur : (forall j, i <= j < i + Z.of_nat n -> g j = true) -> runsFrom g (n + k) i cur = runsFrom g k (i + Z.of_nat n) (cur + Z.of_nat n).
Proof.
  revert i cur. induction n as [|n IH]; intros i cur Ho; [now rewrite !Z.add_0_r|]. cbn [Nat.add runsFrom]. rewrite Ho by lia. rewrite IH by (intros; apply Ho; lia). f_equal; lia.
Qed.

Lemma maxRuns_runsFrom g b c rs : maxRuns g b c rs -> c <= b -> rs = runsFrom g (Z.to_nat (b - c)) c 0.
Proof.
  induction 1 as [c Hz|c p e rs Hp He Hz Ho Hend HM IH]; intros Hcb.
  - rewrite <- (Nat.add_0_r (Z.to_nat (b - c))), runsFrom_zeros; [reflexivity|]. intros j Hj. apply Hz. lia.
  - replace (Z.to_nat (b - c)) with (Z.to_nat (p - c) + (Z.to_nat (e - p) + Z.to_nat (b - e)))%nat by lia.
    rewrite runsFrom_zeros, runsFrom_ones by (intros j Hj; first [apply Hz|apply Ho]; lia). rewrite !Z2Nat.id by lia.
    replace (c + (p - c) + (e - p)) with e by lia. replace (0 + (e - p)) with (e - p) by lia. rewrite IH by lia.
    destruct (Z.to_nat (b - e)) as [|k] eqn:Ek; cbn [runsFrom].
    + bool_lia (e - p =? 0). cbn [Z.eqb]. f_equal. f_equal. lia.
    + rewrite Hend by lia. bool_lia (e - p =? 0). cbn [app Z.eqb]. f_equal. f_equal. lia.
Qed.

(** Read backwards, the runs come in the opposite order. *)
Lemma maxRuns_snoc g b b' e c rs :
  maxRuns g b c rs -> c <= b -> (c < b -> g (b - 1) = false) -> b < e -> e <= b' -> (forall i, b <= i < e -> g i = true) ->
  (forall i, e <= i < b' -> g i = false) -> maxRuns g b' c (rs ++ [(b, e - b)]).
Proof.
  induction 1 as [c Hz|c p q rs Hp Hq Hz Ho Hend HM IH]; intros Hcb Hlast Hbe Heb Hones Hzeros; cbn [app].
  - apply maxRuns_cons; auto; [intros; apply Hzeros; lia|]. constructor. assumption.
  - assert (Hqb : q < b). { destruct (Z.eq_dec q b) as [->|]; [|lia]. specialize (Ho (b - 1) ltac:(lia)). specialize (Hlast ltac:(lia)). congruence. }
    apply maxRuns_cons; auto; [lia|]. apply IH; auto; try lia. intros _. apply Hlast. lia.
Qed.

Lemma maxRuns_mirror g len0 c rs :
  maxRuns (fun k => g (len0 - 1 - k)) len0 c rs -> 0 <= c <= len0 ->
  maxRuns g (len0 - c) 0 (rev (map (fun r => (len0 - (fst r + snd r), snd r)) rs)).
Proof.
  induction 1 as [c Hz|c p e rs Hp He Hz Ho Hend HM IH]; intros Hc; cbn [map rev].
  - constructor. intros i Hi. rewrite <- (Hz (len0 - 1 - i)) by lia. f_equal. lia.
  - cbn [fst snd]. replace (len0 - (p + (e - p)), e - p) with (len0 - e, (len0 - p) - (len0 - e)) by (f_equal; lia).
    apply maxRuns_snoc; try lia; [apply IH; lia| | |].
    + intros Hlt. rewrite <- (Hend ltac:(lia)). f_equal. lia.
    + intros i Hi. rewrite <- (Ho (len0 - 1 - i)) by lia. f_equal. lia.
    + intros i Hi. rewrite <- (Hz (len0 - 1 - i)) by lia. f_equal. lia.
Qed.

Lemma maxRuns_setBitRuns bitmap start length rs :
  maxRuns (fun i => Z.testbit (leval bitmap) (start + i)) length 0 rs -> 0 <= length -> rs = setBitRuns bitmap start length.
Proof. intros HM Hl. rewrite (maxRuns_runsFrom _ _ _ _ HM Hl), Z.sub_0_r. reflexivity. Qed.

Lemma maxRuns_ext g g' b c rs : (forall i, g i = g' i) -> maxRuns g b c rs -> maxRuns g' b c rs.
Proof. intros He. induction 1; constructor; auto; intros; rewrite <- He; auto. Qed.

(** A reader set on a range returns its runs, in order or in the opposite order. *)
Definition rangeRuns (bitmap : list Z) (start length : Z) (reverse : bool) : list (Z * Z) :=
  (if reverse then @rev _ else fun l => l) (setBitRuns bitmap start length).

Lemma Range_yields bitmap start length reverse br0 :
  bytes bitmap -> 0 <= start -> 0 <= length -> start + length <= 8 * len bitmap -> sb_reversed br0 = reverse ->
  exists br, SBR.Reset br0 bitmap start length = Some br /\ yields reverse (rangeRuns bitmap start length reverse) br /\
    sb_remaining br = length /\ len (rangeRuns bitmap start length reverse) <= length.
Proof.
  intros Hb Hs Hl Hfit Hr. destruct (Reset_yields bitmap start length reverse Hb Hs Hl Hfit br0 Hr) as (br & rs & HE & HM & Hy & Hrem & HL). exists br. split; [exact HE|].
  replace (rangeRuns bitmap start length reverse) with (map (place length reverse) rs); [rewrite length_map; auto|]. unfold place, rangeRuns. destruct reverse.
  - apply (maxRuns_ext _ (fun k => Z.testbit (leval bitmap) (start + (length - 1 - k)))) in HM; [|intros i; unfold order; f_equal; lia].
    apply (maxRuns_mirror (fun i => Z.testbit (leval bitmap) (start + i)) length) in HM; [|lia]. rewrite Z.sub_0_r in HM.
    rewrite <- (maxRuns_setBitRuns _ _ _ _ HM Hl), rev_involutive. reflexivity.
  - rewrite map_id. now apply maxRuns_setBitRuns.
Qed.

Lemma VisitRange_ok {S} bitmap start length (reverse : bool) (visitFn : Z -> Z -> S -> option (S * option goerr)) br0 :
  bytes bitmap -> 0 <= start -> 0 <= length -> start + length <= 8 * len bitmap -> sb_reversed br0 = reverse ->
  exists br, SBR.Reset br0 bitmap start length = Some br /\
    forall s, visits reverse (SBR.VisitRuns br visitFn s) (visitAll visitFn (rangeRuns bitmap start length reverse) s).
Proof.
  intros Hb Hs Hl Hfit Hr. destruct (Range_yields bitmap start length reverse br0 Hb Hs Hl Hfit Hr) as (br & HE & Hy & Hrem & HL). exists br. split; [exact HE|]. intros s.
  apply visitLoop_ok; [exact Hy|]. rewrite Hrem. lia.
Qed.

Lemma visits_drop {S} reverse (res : option (baseSetBitRunReader * S * option goerr)) spec :
  visits reverse res spec -> option_map (fun r => (snd (fst r), snd r)) res = spec.
Proof. destruct res as [[[br s] e]|]; cbn; [intros [-> _]; reflexivity|auto]. Qed.

(** A visitor of the runs of a bitmap is a visitor of the list. *)
Lemma VisitSetBitRuns_ok {S} bitmap start length (visitFn : Z -> Z -> S -> option (S * option goerr)) s :
  bytes bitmap -> 0 <= start -> 0 <= length -> start + length <= 8 * len bitmap ->
  VisitSetBitRuns (Some bitmap) start length visitFn s = visitAll visitFn (setBitRuns bitmap start length) s.
Proof.
  intros Hb Hs Hl Hfit. unfold VisitSetBitRuns, SBR.newBaseSetBitRunReader. destruct (VisitRange_ok bitmap start length false visitFn (mkSBR [] 0 0 0 0 0 false 0) Hb Hs Hl Hfit eq_refl) as (br & -> & Hv).
  cbn [opt_bind]. change (setBitRuns bitmap start length) with (rangeRuns bitmap start length false). rewrite <- (visits_drop false _ _ (Hv s)). destruct (SBR.VisitRuns br visitFn s) as [[[br' s'] e]|]; reflexivity.
Qed.

(** ** Claims *)

(** C16: the set-bit run readers visit exactly the maximal runs of set bits of the range, in
    order, each with its position and length, up to the first error of the visitor; the reverse
    reader visits the same runs in the opposite order.  They read inside the bitmap only. *)
Theorem set_bit_runs_correct {S} bitmap start length (visitFn : Z -> Z -> S -> option (S * option goerr)) s :
  bytes bitmap -> 0 <= start -> 0 <= length -> start + length <= 8 * len bitmap ->
  VisitSetBitRuns (Some bitmap) start length visitFn s = visitAll visitFn (setBitRuns bitmap start length) s /\
  exists br, SBR.newBaseSetBitRunReader bitmap start length true = Some br /\
    option_map (fun r => (snd (fst r), snd r)) (SBR.VisitRuns br visitFn s) = visitAll visitFn (rev (setBitRuns bitmap start length)) s.
Proof.
  intros Hb Hs Hl Hfit. split; [now apply VisitSetBitRuns_ok|]. unfold SBR.newBaseSetBitRunReader.
  destruct (VisitRange_ok bitmap start length true visitFn (mkSBR [] 0 0 0 0 0 true 0) Hb Hs Hl Hfit eq_refl) as (br & -> & Hv). exists br. split; [reflexivity|].
  exact (visits_drop true _ _ (Hv s)).
Qed.

Lemma set_bit_runs_witness :
  let visit := fun p n (s : list (Z * Z)) => Some (s ++ [(p, n)], if p =? 118 then Some (ErrMsg "stop") else None) in
  let bitmap := [255; 0; 15; 240] ++ repeat 255 10 ++ [1; 2; 240] in
  VisitSetBitRuns (Some bitmap) 3 133 visit [] = Some ([(0, 5); (13, 4); (25, 85); (118, 1)], Some (ErrMsg "stop")).
Proof.
  intros visit bitmap. rewrite (proj1 (set_bit_runs_correct bitmap 3 133 visit [] ltac:(repeat constructor; cbn; lia) ltac:(lia) ltac:(lia) ltac:(vm_compute; congruence))).
  vm_compute. reflexivity.
Defined.
