(* ===== verification/BitBlocks.v ===== *)
(** * Blocks of bits (internal/bitutils/bit_block_counter.go)

    The block counters split a bitmap into blocks of at most 64 or 256 bits with the number of
    their set bits, from words shifted to the offset of the bitmap or, near its end, bit by bit.
    [VisitBitBlocks] and its variants visit every position through them. *)

From Stdlib Require Import ZArith List Lia Bool String.
From S2P Require Import Prelude BitUtil BitRuns.
Import ListNotations.
#[local] Open Scope Z_scope.
#[local] Open Scope go_scope.

(** The eight bytes from [byt[0]] on, read through a pointer; [None] when the slice has fewer. *)
Definition loadWord (byt : list Z) : option Z := if len byt <? 8 then None else Some (leval (firstn 8 byt)).

Definition shiftWord (current next shift : Z) : Z :=
  if shift =? 0 then current else Z.lor (current >> shift) (shl64 next (64 - shift)).

Record BitBlockCount : Type := mkBlock { Len : Z; Popcnt : Z }.

Definition NoneSet (b : BitBlockCount) : bool := Popcnt b =? 0.
Definition AllSet (b : BitBlockCount) : bool := Len b =? Popcnt b.

Definition wordBits : Z := 64.
Definition fourWordsBits : Z := wordBits * 4.

(** [s[lo:]] *)
Definition dropBytes (l : list Z) (lo : Z) : option (list Z) := slice l lo (len l).

(** ** One bitmap *)

Record BitBlockCounter : Type := mkBBC { bb_bitmap : list Z; bb_bitsRemaining : Z; bb_bitOffset : Z }.

Module BBC.
Implicit Types b : BitBlockCounter.

Definition NewBitBlockCounter (bitmap : list Z) (startOffset nbits : Z) : option BitBlockCounter :=
  bm <- dropBytes bitmap (Z.quot startOffset 8) ;; Some (mkBBC bm nbits (Z.rem startOffset 8)).

Definition getBlockSlow b (blockSize : Z) : option (BitBlockCounter * BitBlockCount) :=
  let runlen := i16 (Z.min (bb_bitsRemaining b) blockSize) in
  popcnt <- CountSetBits (bb_bitmap b) (bb_bitOffset b) runlen ;;
  bm <- dropBytes (bb_bitmap b) (Z.quot runlen 8) ;;
  Some (mkBBC bm (bb_bitsRemaining b - runlen) (bb_bitOffset b), mkBlock runlen (i16 popcnt)).

(** [loadWord(b.bitmap[k:])] *)
Definition loadAt (bitmap : list Z) (k : Z) : option Z := t <- dropBytes bitmap k ;; loadWord t.

Definition NextFourWords b : option (BitBlockCounter * BitBlockCount) :=
  if bb_bitsRemaining b =? 0 then Some (b, mkBlock 0 0)
  else
    let finish totalPopcnt :=
      bm <- dropBytes (bb_bitmap b) (BytesForBits fourWordsBits) ;;
      Some (mkBBC bm (bb_bitsRemaining b - fourWordsBits) (bb_bitOffset b), mkBlock 256 (i16 totalPopcnt)) in
    if bb_bitOffset b =? 0 then
      if bb_bitsRemaining b <? fourWordsBits then getBlockSlow b fourWordsBits
      else
        w0 <- loadWord (bb_bitmap b) ;; w1 <- loadAt (bb_bitmap b) 8 ;; w2 <- loadAt (bb_bitmap b) 16 ;; w3 <- loadAt (bb_bitmap b) 24 ;;
        finish (OnesCount64 w0 + OnesCount64 w1 + OnesCount64 w2 + OnesCount64 w3)
    else
      if bb_bitsRemaining b <? 5 * fourWordsBits - bb_bitOffset b then getBlockSlow b fourWordsBits
      else
        w0 <- loadWord (bb_bitmap b) ;; w1 <- loadAt (bb_bitmap b) 8 ;; w2 <- loadAt (bb_bitmap b) 16 ;; w3 <- loadAt (bb_bitmap b) 24 ;; w4 <- loadAt (bb_bitmap b) 32 ;;
        let sh := bb_bitOffset b in
        finish (OnesCount64 (shiftWord w0 w1 sh) + OnesCount64 (shiftWord w1 w2 sh) + OnesCount64 (shiftWord w2 w3 sh) + OnesCount64 (shiftWord w3 w4 sh)).

Definition NextWord b : option (BitBlockCounter * BitBlockCount) :=
  if bb_bitsRemaining b =? 0 then Some (b, mkBlock 0 0)
  else
    let finish popcnt :=
      bm <- dropBytes (bb_bitmap b) (Z.quot wordBits 8) ;;
      Some (mkBBC bm (bb_bitsRemaining b - wordBits) (bb_bitOffset b), mkBlock 64 (i16 popcnt)) in
    if bb_bitOffset b =? 0 then
      if bb_bitsRemaining b <? wordBits then getBlockSlow b wordBits
      else w <- loadWord (bb_bitmap b) ;; finish (OnesCount64 w)
    else
      if bb_bitsRemaining b <? 2 * wordBits - bb_bitOffset b then getBlockSlow b wordBits
      else
        w0 <- loadWord (bb_bitmap b) ;; w1 <- loadAt (bb_bitmap b) 8 ;;
        finish (OnesCount64 (shiftWord w0 w1 (bb_bitOffset b))).

End BBC.

(** ** A bitmap that may be absent *)

Record OptionalBitBlockCounter : Type := mkOBC { ob_pos : Z; ob_len : Z; ob_counter : option BitBlockCounter }.

Module OBC.
Implicit Types o : OptionalBitBlockCounter.

Definition NewOptionalBitBlockCounter (bitmap : option (list Z)) (offset length : Z) : option OptionalBitBlockCounter :=
  match bitmap with
  | None => Some (mkOBC 0 length None)
  | Some bm => c <- BBC.NewBitBlockCounter bm offset length ;; Some (mkOBC 0 length (Some c))
  end.

(** [NextBlock] and [NextWord] differ in the size of a block without bitmap. *)
Definition nextUpTo (maxSize : Z) o : option (OptionalBitBlockCounter * BitBlockCount) :=
  match ob_counter o with
  | Some c =>
      r <- BBC.NextWord c ;;
      let '(c', block) := r in Some (mkOBC (ob_pos o + Len block) (ob_len o) (Some c'), block)
  | None =>
      let blockSize := i16 (Z.min maxSize (ob_len o - ob_pos o)) in
      Some (mkOBC (ob_pos o + blockSize) (ob_len o) None, mkBlock blockSize blockSize)
  end.

Definition NextBlock o := nextUpTo 32767 o.
Definition NextWord o := nextUpTo 64 o.

End OBC.

(** [for i := 0; i < n; i, pos = i+1, pos+1 { if err := body(pos); err != nil { return err } }] *)
Fixpoint forErr {S} (n : nat) (pos : Z) (body : Z -> S -> option (S * option goerr)) (s : S) : option (S * option goerr) :=
  match n with
  | O => Some (s, None)
  | Datatypes.S n' =>
      r <- body pos s ;;
      match r with
      | (s', Some e) => Some (s', Some e)
      | (s', None) => forErr n' (pos + 1) body s'
      end
  end.

Section Visit.
Context {S : Type}.
Variables (visitValid : Z -> S -> option (S * option goerr)) (visitInvalid : S -> option (S * option goerr)).

(** The positions of a block; [isSet] reads one bit. *)
Definition visitBlock (block : BitBlockCount) (isSet : Z -> option bool) (pos : Z) (s : S) : option (S * option goerr) :=
  forErr (Z.to_nat (Len block)) pos
    (fun pos s =>
       if AllSet block then visitValid pos s
       else if NoneSet block then visitInvalid s
       else b <- isSet pos ;; if (b : bool) then visitValid pos s else visitInvalid s) s.

(** The loop over blocks, [next] giving them. *)
Fixpoint blockLoop {C} (fuel : nat) (next : C -> option (C * BitBlockCount)) (isSet : Z -> option bool) (length : Z) (c : C) (pos : Z) (s : S) : option (S * option goerr) :=
  if pos <? length then
    match fuel with
    | O => None
    | Datatypes.S fuel' =>
        r <- next c ;;
        let '(c', block) := r in
        v <- visitBlock block isSet pos s ;;
        match v with
        | (s', Some e) => Some (s', Some e)
        | (s', None) => blockLoop fuel' next isSet length c' (pos + Len block) s'
        end
    end
  else Some (s, None).

Definition VisitBitBlocksShort (bitmap : option (list Z)) (offset length : Z) (s : S) : option (S * option goerr) :=
  counter <- OBC.NewOptionalBitBlockCounter bitmap offset length ;;
  blockLoop (Z.to_nat length) OBC.NextBlock
    (fun pos => match bitmap with Some bm => BitIsSet bm (offset + pos) | None => None end) length counter 0 s.

End Visit.

(** [VisitBitBlocks] is the same loop with visitors that do not fail. *)
Definition noErr {S} (r : option S) : option (S * option goerr) := s <- r ;; Some (s, None).

Definition VisitBitBlocks {S} (bitmap : option (list Z)) (offset length : Z) (visitValid : Z -> S -> option S) (visitInvalid : S -> option S) (s : S) : option S :=
  r <- VisitBitBlocksShort (fun pos s => noErr (visitValid pos s)) (fun s => noErr (visitInvalid s)) bitmap offset length s ;; Some (fst r).

(** ** Two bitmaps *)

Record bitOp : Type := mkOp { op_bit : bool -> bool -> bool; op_word : Z -> Z -> Z }.

Definition bitBlockAnd : bitOp := mkOp andb Z.land.
Definition bitBlockAndNot : bitOp := mkOp (fun a b => a && negb b) Z.ldiff.
Definition bitBlockOr : bitOp := mkOp orb Z.lor.
Definition bitBlockOrNot : bitOp := mkOp (fun a b => a || negb b) (fun a b => Z.lor a (not64 b)).

Record BinaryBitBlockCounter : Type := mkBin {
  bi_left : list Z;
  bi_right : list Z;
  bi_bitsRemaining : Z;
  bi_leftOffset : Z;
  bi_rightOffset : Z;
  bi_bitsRequiredForWords : Z
}.

Module BIN.
Implicit Types b : BinaryBitBlockCounter.

Definition NewBinaryBitBlockCounter (left right : list Z) (leftOffset rightOffset length : Z) : option BinaryBitBlockCounter :=
  l <- dropBytes left (Z.quot leftOffset 8) ;;
  r <- dropBytes right (Z.quot rightOffset 8) ;;
  let lo := Z.rem leftOffset 8 in
  let ro := Z.rem rightOffset 8 in
  let leftBitsReq := if negb (lo =? 0) then 64 + (64 - lo) else 64 in
  let rightBitsReq := if negb (ro =? 0) then 64 + (64 - ro) else 64 in
  Some (mkBin l r length lo ro (if rightBitsReq <? leftBitsReq then leftBitsReq else rightBitsReq)).

Definition nextWord (op : bitOp) b : option (BinaryBitBlockCounter * BitBlockCount) :=
  if bi_bitsRemaining b =? 0 then Some (b, mkBlock 0 0)
  else if bi_bitsRemaining b <? bi_bitsRequiredForWords b then
    let runLength := let r := i16 (bi_bitsRemaining b) in if i16 wordBits <? r then i16 wordBits else r in
    popcount <- for_up (Z.to_nat runLength) 0
      (fun i popcount =>
         l <- BitIsSet (bi_left b) (bi_leftOffset b + i) ;;
         r <- BitIsSet (bi_right b) (bi_rightOffset b + i) ;;
         Some (if op_bit op l r then popcount + 1 else popcount)) 0 ;;
    left <- dropBytes (bi_left b) (Z.quot runLength 8) ;;
    right <- dropBytes (bi_right b) (Z.quot runLength 8) ;;
    Some (mkBin left right (bi_bitsRemaining b - runLength) (bi_leftOffset b) (bi_rightOffset b) (bi_bitsRequiredForWords b), mkBlock runLength popcount)
  else
    popcount <-
      (if (bi_leftOffset b =? 0) && (bi_rightOffset b =? 0) then
         l <- loadWord (bi_left b) ;; r <- loadWord (bi_right b) ;; Some (OnesCount64 (op_word op l r))
       else
         l0 <- loadWord (bi_left b) ;; l1 <- BBC.loadAt (bi_left b) 8 ;;
         r0 <- loadWord (bi_right b) ;; r1 <- BBC.loadAt (bi_right b) 8 ;;
         Some (OnesCount64 (op_word op (shiftWord l0 l1 (bi_leftOffset b)) (shiftWord r0 r1 (bi_rightOffset b))))) ;;
    left <- dropBytes (bi_left b) (Z.quot wordBits 8) ;;
    right <- dropBytes (bi_right b) (Z.quot wordBits 8) ;;
    Some (mkBin left right (bi_bitsRemaining b - wordBits) (bi_leftOffset b) (bi_rightOffset b) (bi_bitsRequiredForWords b), mkBlock (i16 wordBits) (i16 popcount)).

Definition NextAndWord b := nextWord bitBlockAnd b.
Definition NextAndNotWord b := nextWord bitBlockAndNot b.
Definition NextOrWord b := nextWord bitBlockOr b.
Definition NextOrNotWord b := nextWord bitBlockOrNot b.

End BIN.

Definition VisitTwoBitBlocks {S} (leftBitmap rightBitmap : option (list Z)) (leftOffset rightOffset length : Z) (visitValid : Z -> S -> option S) (visitNull : S -> option S) (s : S) : option S :=
  match leftBitmap, rightBitmap with
  | None, _ => VisitBitBlocks rightBitmap rightOffset length visitValid visitNull s
  | _, None => VisitBitBlocks leftBitmap leftOffset length visitValid visitNull s
  | Some lbm, Some rbm =>
      counter <- BIN.NewBinaryBitBlockCounter lbm rbm leftOffset rightOffset length ;;
      r <- blockLoop (fun pos s => noErr (visitValid pos s)) (fun s => noErr (visitNull s)) (Z.to_nat length) BIN.NextAndWord
             (fun pos => l <- BitIsSet lbm (leftOffset + pos) ;; if (l : bool) then BitIsSet rbm (rightOffset + pos) else Some false)
             length counter 0 s ;;
      Some (fst r)
  end.

(** ** Counting *)

(** How many of [g 0], ..., [g (n-1)] hold. *)
Definition countIf (g : Z -> bool) (n : nat) : Z := len (filter (fun k => g (Z.of_nat k)) (seq 0 n)).

Lemma countIf_ext g g' n : (forall i, 0 <= i < Z.of_nat n -> g i = g' i) -> countIf g n = countIf g' n.
Proof. intros He. unfold countIf. do 2 f_equal. apply filter_ext_in. intros k Hk. apply in_seq in Hk. apply He. lia. Qed.

Lemma countIf_S g n : countIf g (S n) = (if g 0 then 1 else 0) + countIf (fun i => g (1 + i)) n.
Proof.
  unfold countIf. cbn [seq filter]. rewrite <- seq_shift, filter_map_swap. change (Z.of_nat 0) with 0.
  rewrite (filter_ext (fun a => g (Z.of_nat (S a))) (fun k => g (1 + Z.of_nat k))) by (intros k; f_equal; lia).
  destruct (g 0); cbn [List.length]; rewrite length_map; lia.
Qed.

Lemma countIf_app g a b : countIf g (a + b) = countIf g a + countIf (fun i => g (Z.of_nat a + i)) b.
Proof.
  revert g. induction a as [|a IH]; intros g; [reflexivity|]. cbn [Nat.add]. rewrite !countIf_S, IH.
  rewrite (countIf_ext (fun i => g (1 + (Z.of_nat a + i))) (fun i => g (Z.of_nat (S a) + i))) by (intros; f_equal; lia). lia.
Qed.

Lemma countIf_bound g n : 0 <= countIf g n <= Z.of_nat n.
Proof. unfold countIf. pose proof (filter_length_le (fun k => g (Z.of_nat k)) (seq 0 n)) as H. rewrite length_seq in H. lia. Qed.

Lemma countIf_full g n : countIf g n = Z.of_nat n -> forall i, 0 <= i < Z.of_nat n -> g i = true.
Proof.
  revert g. induction n as [|n IH]; intros g HC i Hi; [lia|]. rewrite countIf_S in HC. pose proof (countIf_bound (fun i => g (1 + i)) n) as HB.
  destruct (g 0) eqn:E; [|lia]. destruct (Z.eq_dec i 0) as [->|]; [assumption|]. rewrite <- (IH (fun i => g (1 + i)) ltac:(lia) (i - 1) ltac:(lia)). f_equal. lia.
Qed.

Lemma countIf_all g n : (forall i, g i = true) -> countIf g n = Z.of_nat n.
Proof. revert g. induction n as [|n IH]; intros g Hg; [reflexivity|]. rewrite countIf_S, Hg, IH by auto. lia. Qed.

Lemma countIf_none g n : countIf g n = 0 -> forall i, 0 <= i < Z.of_nat n -> g i = false.
Proof.
  revert g. induction n as [|n IH]; intros g HC i Hi; [lia|]. rewrite countIf_S in HC. pose proof (countIf_bound (fun i => g (1 + i)) n) as HB.
  destruct (g 0) eqn:E; [lia|]. destruct (Z.eq_dec i 0) as [->|]; [assumption|]. rewrite <- (IH (fun i => g (1 + i)) ltac:(lia) (i - 1) ltac:(lia)). f_equal. lia.
Qed.

Lemma cnt_countIf x p n : cnt x p n = countIf (fun i => Z.testbit x (p + i)) n.
Proof. reflexivity. Qed.

Lemma OnesCount64_countIf w g : (forall i, 0 <= i < 64 -> Z.testbit w i = g i) -> OnesCount64 w = countIf g 64.
Proof. intros Hg. unfold OnesCount64. rewrite ones_cnt, cnt_countIf. apply countIf_ext. intros i Hi. now rewrite Z.add_0_l, Hg. Qed.

(** ** Words of a bitmap *)

Lemma dropBytes_ok bm k : 0 <= k <= len bm -> dropBytes bm k = Some (skipn (Z.to_nat k) bm).
Proof. intros Hk. unfold dropBytes. rewrite slice_ok by lia. rewrite firstn_all2 by (rewrite length_skipn; lia). reflexivity. Qed.

Lemma loadAt_ok bm k : bytes bm -> 0 <= k -> k + 8 <= len bm ->
  exists w, BBC.loadAt bm k = Some w /\ 0 <= w < 2 ^ 64 /\ forall i, 0 <= i < 64 -> Z.testbit w i = Z.testbit (leval bm) (8 * k + i).
Proof.
  intros Hb Hk HL. unfold BBC.loadAt. rewrite dropBytes_ok by lia. cbn [opt_bind]. unfold loadWord. rewrite length_skipn. bool_lia (Z.of_nat (List.length bm - Z.to_nat k) <? 8).
  eexists. split; [reflexivity|]. pose proof (leval_bound (firstn 8 (skipn (Z.to_nat k) bm)) ltac:(auto with gobytes)) as HB. rewrite length_firstn, length_skipn, Nat.min_l in HB by lia.
  split; [exact HB|]. intros i Hi. change 8%nat with (Z.to_nat 8). rewrite testbit_slice by (auto; lia). now bool_lia (i <? 8 * 8).
Qed.

Lemma loadWord_at bm : loadWord bm = BBC.loadAt bm 0.
Proof. unfold BBC.loadAt. rewrite dropBytes_ok by lia. reflexivity. Qed.

Lemma shiftWord_bit w0 w1 sh i :
  0 <= w0 < 2 ^ 64 -> 0 <= w1 < 2 ^ 64 -> 0 <= sh < 8 -> 0 <= i < 64 ->
  Z.testbit (shiftWord w0 w1 sh) i = if i + sh <? 64 then Z.testbit w0 (i + sh) else Z.testbit w1 (i + sh - 64).
Proof.
  intros H0 H1 Hs Hi. unfold shiftWord. destruct (Z.eqb_spec sh 0) as [->|Hne].
  { rewrite Z.add_0_r. bool_lia (i <? 64). reflexivity. }
  rewrite Z.lor_spec, Z.shiftr_spec by lia. unfold shl64, u64. rewrite Z.mod_pow2_bits_low, Z.shiftl_spec by lia.
  destruct (Z.ltb_spec (i + sh) 64).
  - rewrite (Z.testbit_neg_r w1) by lia. apply orb_false_r.
  - rewrite (high_bits 64 w0) by lia. cbn [orb]. f_equal. lia.
Qed.

(** The word [shift] bits after byte [k]. *)
Lemma shifted_ok bm k sh w0 w1 i :
  0 <= w0 < 2 ^ 64 -> 0 <= w1 < 2 ^ 64 -> 0 <= sh < 8 -> 0 <= i < 64 ->
  (forall i, 0 <= i < 64 -> Z.testbit w0 i = Z.testbit (leval bm) (8 * k + i)) ->
  (forall i, 0 <= i < 64 -> Z.testbit w1 i = Z.testbit (leval bm) (8 * (k + 8) + i)) ->
  Z.testbit (shiftWord w0 w1 sh) i = Z.testbit (leval bm) (8 * k + sh + i).
Proof.
  intros H0 H1 Hs Hi Hb0 Hb1. rewrite shiftWord_bit by assumption. destruct (Z.ltb_spec (i + sh) 64); [rewrite Hb0 by lia|rewrite Hb1 by lia]; f_equal; lia.
Qed.

(** ** The counters *)

(** [r] bits are left in [bm] from bit [off] on, and they are those of [g]. *)
Definition bitsLeft (bm : list Z) (off r : Z) (g : Z -> bool) : Prop :=
  bytes bm /\ 8 * len bm < 2 ^ 63 - 7 /\ 0 <= off < 8 /\ 0 <= r /\ (r = 0 \/ off + r <= 8 * len bm) /\
  forall i, 0 <= i < r -> Z.testbit (leval bm) (off + i) = g i.

Lemma bitsLeft_drop bm off r g l :
  bitsLeft bm off r g -> 0 <= l <= r -> (l = r \/ l mod 8 = 0) -> 0 < r ->
  exists bm', dropBytes bm (Z.quot l 8) = Some bm' /\ bitsLeft bm' off (r - l) (fun i => g (l + i)).
Proof.
  intros (Hb & Hsz & Ho & Hr & Hfit & Hg) Hl Hm H0. destruct Hfit as [|Hfit]; [lia|]. rewrite Z.quot_div_nonneg by lia. assert (Hq : 0 <= l / 8 /\ 8 * (l / 8) <= l) by zdiv.
  rewrite dropBytes_ok by lia. eexists. split; [reflexivity|]. split; [auto with gobytes|]. rewrite length_skipn. splits; try lia.
  intros i Hi. rewrite leval_skipn, Z.div_pow2_bits by (auto; lia). rewrite <- Hg by lia. f_equal. destruct Hm as [->|Hm]; [lia|]. zdiv.
Qed.

Lemma bitsLeft_start bm start r :
  bytes bm -> 8 * len bm < 2 ^ 63 - 7 -> 0 <= start -> 0 <= r -> start + r <= 8 * len bm ->
  exists bm', dropBytes bm (Z.quot start 8) = Some bm' /\ bitsLeft bm' (Z.rem start 8) r (fun i => Z.testbit (leval bm) (start + i)).
Proof.
  intros Hb Hsz Hs Hr Hfit. rewrite Z.quot_div_nonneg, Z.rem_mod_nonneg by lia. assert (Hq : start = 8 * (start / 8) + start mod 8 /\ 0 <= start mod 8 < 8 /\ 0 <= start / 8) by zdiv.
  rewrite dropBytes_ok by lia. eexists. split; [reflexivity|]. split; [auto with gobytes|]. rewrite length_skipn. splits; try lia.
  intros i Hi. rewrite leval_skipn, Z.div_pow2_bits by (auto; lia). f_equal. lia.
Qed.

(** A block of [l] bits. *)
Definition blockIs (block : BitBlockCount) (l : Z) (g : Z -> bool) : Prop := block = mkBlock l (countIf g (Z.to_nat l)).

Definition counterOk (b : BitBlockCounter) (r : Z) (g : Z -> bool) : Prop :=
  bb_bitsRemaining b = r /\ bitsLeft (bb_bitmap b) (bb_bitOffset b) r g.

Lemma i16_small x : 0 <= x < 2 ^ 15 -> i16 x = x.
Proof. intros. unfold i16. rewrite Z.mod_small; lia. Qed.

(** The block of the next [l] bits. *)
Definition nextBlock (res : option (BitBlockCounter * BitBlockCount)) (l r : Z) (g : Z -> bool) : Prop :=
  exists b' block, res = Some (b', block) /\ blockIs block l g /\ counterOk b' (r - l) (fun i => g (l + i)).

Lemma getBlockSlow_ok b r g size :
  counterOk b r g -> 0 < r -> 0 < size < 2 ^ 15 -> size mod 8 = 0 -> nextBlock (BBC.getBlockSlow b size) (Z.min r size) r g.
Proof.
  intros (Hrem & HB) H0 Hs Hm. unfold BBC.getBlockSlow. rewrite Hrem. set (l := Z.min r size). rewrite i16_small by lia.
  pose proof HB as (Hb & Hsz & Ho & Hr & Hfit & Hg). destruct Hfit as [|Hfit]; [lia|].
  rewrite CountSetBits_ok by (first [lia|split; [assumption|lia]]). cbn [opt_bind].
  destruct (bitsLeft_drop _ _ r g l HB) as (bm' & -> & HB'); [lia| |lia|]; [destruct (Z.le_gt_cases r size); [left; lia|right; subst l; rewrite Z.min_r by lia; assumption]|].
  cbn [opt_bind]. eexists _, _. split; [reflexivity|]. split; [|split; [reflexivity|exact HB']]. red. f_equal. rewrite cnt_countIf.
  rewrite (countIf_ext _ g) by (intros i Hi; apply Hg; lia). apply i16_small. pose proof (countIf_bound g (Z.to_nat l)). lia.
Qed.

(** The end of the fast paths. *)
Lemma fastBlock_ok b r g l n popcnt :
  counterOk b r g -> l = 8 * Z.of_nat n -> 0 < l <= r -> l < 2 ^ 15 -> popcnt = countIf g (8 * n) ->
  nextBlock (bm <- dropBytes (bb_bitmap b) (Z.quot l 8) ;; Some (mkBBC bm (r - l) (bb_bitOffset b), mkBlock l (i16 popcnt))) l r g.
Proof.
  intros (Hrem & HB) -> Hl Hmax ->. destruct (bitsLeft_drop _ _ r g (8 * Z.of_nat n) HB) as (bm' & -> & HB'); [lia|right; zdiv|lia|]. cbn [opt_bind].
  eexists _, _. split; [reflexivity|]. split; [|split; [reflexivity|exact HB']]. red. replace (Z.to_nat (8 * Z.of_nat n)) with (8 * n)%nat by lia.
  f_equal. apply i16_small. pose proof (countIf_bound g (8 * n)). lia.
Qed.

(** The words from the offset of [b] on. *)
Lemma word_ok b r g k :
  counterOk b r g -> 0 <= k -> bb_bitOffset b = 0 -> 8 * k + 64 <= r ->
  exists w, BBC.loadAt (bb_bitmap b) k = Some w /\ OnesCount64 w = countIf (fun i => g (8 * k + i)) 64.
Proof.
  intros (_ & Hb & _ & Ho & _ & Hfit & Hg) Hk H0 HL. destruct Hfit as [|Hfit]; [lia|]. destruct (loadAt_ok (bb_bitmap b) k Hb Hk ltac:(lia)) as (w & -> & _ & Hw).
  exists w. split; [reflexivity|]. apply OnesCount64_countIf. intros i Hi. rewrite Hw, <- Hg by lia. f_equal. lia.
Qed.

Lemma shifted_word_ok b r g k :
  counterOk b r g -> 0 <= k -> 8 * k + 128 <= bb_bitOffset b + r ->
  exists w0 w1, BBC.loadAt (bb_bitmap b) k = Some w0 /\ BBC.loadAt (bb_bitmap b) (k + 8) = Some w1 /\
    OnesCount64 (shiftWord w0 w1 (bb_bitOffset b)) = countIf (fun i => g (8 * k + i)) 64.
Proof.
  intros (_ & Hb & _ & Ho & Hr & Hfit & Hg) Hk HL. destruct Hfit as [|Hfit]; [lia|].
  destruct (loadAt_ok (bb_bitmap b) k Hb Hk ltac:(lia)) as (w0 & -> & Hr0 & Hw0). destruct (loadAt_ok (bb_bitmap b) (k + 8) Hb ltac:(lia) ltac:(lia)) as (w1 & -> & Hr1 & Hw1).
  exists w0, w1. split; [reflexivity|]. split; [reflexivity|]. apply OnesCount64_countIf. intros i Hi.
  rewrite (shifted_ok (bb_bitmap b) k) by assumption. rewrite <- Hg by lia. f_equal. lia.
Qed.

Lemma NextWord_ok b r g : counterOk b r g -> nextBlock (BBC.NextWord b) (Z.min r 64) r g.
Proof.
  intros HC. pose proof HC as (Hrem & HB). pose proof HB as (Hb & Hsz & Ho & Hr & Hfit & Hg). unfold BBC.NextWord. rewrite Hrem.
  destruct (Z.eqb_spec r 0) as [->|H0].
  { eexists _, _. split; [reflexivity|]. split; [reflexivity|]. split; [assumption|]. split; [assumption|]. splits; auto; lia. }
  unfold wordBits. destruct (Z.eqb_spec (bb_bitOffset b) 0) as [Hz|Hnz].
  - destruct (Z.ltb_spec r 64); [apply getBlockSlow_ok; auto; lia|]. rewrite loadWord_at. destruct (word_ok b r g 0 HC ltac:(lia) Hz ltac:(lia)) as (w & -> & HP). cbn [opt_bind].
    rewrite Z.min_r by lia. apply (fastBlock_ok b r g 64 8); auto; lia.
  - destruct (Z.ltb_spec r (2 * 64 - bb_bitOffset b)); [apply getBlockSlow_ok; auto; lia|]. rewrite loadWord_at.
    destruct (shifted_word_ok b r g 0 HC ltac:(lia) ltac:(lia)) as (w0 & w1 & -> & HE1 & HP). rewrite Z.add_0_l in HE1. rewrite HE1. cbn [opt_bind].
    rewrite Z.min_r by lia. apply (fastBlock_ok b r g 64 8); auto; lia.
Qed.

(** Four words in a row. *)
Lemma countIf_four g : countIf (fun i => g (8 * 0 + i)) 64 + countIf (fun i => g (8 * 8 + i)) 64 + countIf (fun i => g (8 * 16 + i)) 64 + countIf (fun i => g (8 * 24 + i)) 64 = countIf g (8 * 32).
Proof.
  replace (8 * 32)%nat with (64 + (64 + (64 + 64)))%nat by lia. rewrite !countIf_app. change (Z.of_nat 64) with 64.
  rewrite (countIf_ext (fun i => g (8 * 0 + i)) g), (countIf_ext (fun i => g (8 * 8 + i)) (fun i => g (64 + i))), (countIf_ext (fun i => g (8 * 16 + i)) (fun i => g (64 + (64 + i)))),
    (countIf_ext (fun i => g (8 * 24 + i)) (fun i => g (64 + (64 + (64 + i))))) by (intros; f_equal; lia). lia.
Qed.

Lemma NextFourWords_ok b r g : counterOk b r g -> nextBlock (BBC.NextFourWords b) (Z.min r 256) r g.
Proof.
  intros HC. pose proof HC as (Hrem & HB). pose proof HB as (Hb & Hsz & Ho & Hr & Hfit & Hg). unfold BBC.NextFourWords. rewrite Hrem.
  destruct (Z.eqb_spec r 0) as [->|H0].
  { eexists _, _. split; [reflexivity|]. split; [reflexivity|]. split; [assumption|]. split; [assumption|]. splits; auto; lia. }
  change (BytesForBits fourWordsBits) with (Z.quot 256 8). unfold fourWordsBits, wordBits. change (64 * 4) with 256.
  destruct (Z.eqb_spec (bb_bitOffset b) 0) as [Hz|Hnz].
  - destruct (Z.ltb_spec r 256); [apply getBlockSlow_ok; auto; lia|]. rewrite loadWord_at.
    destruct (word_ok b r g 0 HC ltac:(lia) Hz ltac:(lia)) as (w0 & -> & HP0). destruct (word_ok b r g 8 HC ltac:(lia) Hz ltac:(lia)) as (w1 & -> & HP1).
    destruct (word_ok b r g 16 HC ltac:(lia) Hz ltac:(lia)) as (w2 & -> & HP2). destruct (word_ok b r g 24 HC ltac:(lia) Hz ltac:(lia)) as (w3 & -> & HP3). cbn [opt_bind].
    rewrite Z.min_r by lia. apply (fastBlock_ok b r g 256 32); auto; try lia. rewrite HP0, HP1, HP2, HP3. apply countIf_four.
  - destruct (Z.ltb_spec r (5 * 256 - bb_bitOffset b)); [apply getBlockSlow_ok; auto; lia|]. rewrite loadWord_at.
    destruct (shifted_word_ok b r g 0 HC ltac:(lia) ltac:(lia)) as (w0 & w1 & -> & HE1 & HP0). destruct (shifted_word_ok b r g 8 HC ltac:(lia) ltac:(lia)) as (w1' & w2 & HE1' & HE2 & HP1).
    destruct (shifted_word_ok b r g 16 HC ltac:(lia) ltac:(lia)) as (w2' & w3 & HE2' & HE3 & HP2). destruct (shifted_word_ok b r g 24 HC ltac:(lia) ltac:(lia)) as (w3' & w4 & HE3' & HE4 & HP3).
    cbn [Z.add Pos.add Pos.succ] in HE1, HE2, HE3, HE4. rewrite HE1' in HE1. injection HE1 as <-. rewrite HE2' in HE2. injection HE2 as <-. rewrite HE3' in HE3. injection HE3 as <-.
    rewrite HE1', HE2', HE3', HE4. cbn [opt_bind]. rewrite Z.min_r by lia. apply (fastBlock_ok b r g 256 32); auto; try lia. rewrite HP0, HP1, HP2, HP3. apply countIf_four.
Qed.

(** ** Visiting through blocks *)

Lemma forErr_ext {S} n pos (f f' : Z -> S -> option (S * option goerr)) s :
  (forall i s, pos <= i < pos + Z.of_nat n -> f i s = f' i s) -> forErr n pos f s = forErr n pos f' s.
Proof.
  revert pos s. induction n as [|n IH]; intros pos s He; cbn [forErr]; [reflexivity|]. rewrite He by lia. destruct (f' pos s) as [[s' [e|]]|]; cbn [opt_bind]; auto.
  apply IH. intros. apply He. lia.
Qed.

Lemma forErr_app {S} a b pos (f : Z -> S -> option (S * option goerr)) s :
  forErr (a + b) pos f s =
    v <- forErr a pos f s ;; match v with (s', Some e) => Some (s', Some e) | (s', None) => forErr b (pos + Z.of_nat a) f s' end.
Proof.
  revert pos s. induction a as [|a IH]; intros pos s; cbn [Nat.add forErr opt_bind]; [now rewrite Z.add_0_r|].
  destruct (f pos s) as [[s' [e|]]|]; cbn [opt_bind]; auto. rewrite IH. replace (pos + 1 + Z.of_nat a) with (pos + Z.of_nat (Datatypes.S a)) by lia. reflexivity.
Qed.

Section VisitOk.
Context {S C : Type}.
Variables (visitValid : Z -> S -> option (S * option goerr)) (visitInvalid : S -> option (S * option goerr)).
Variables (next : C -> option (C * BitBlockCount)) (isSet : Z -> option bool) (length : Z) (g : Z -> bool) (At : C -> Z -> Prop).

(** Each block is a non-empty part of what is left, with the number of its set bits. *)
Hypothesis next_ok : forall c pos, At c pos -> 0 <= pos < length ->
  exists c' l, next c = Some (c', mkBlock l (countIf (fun i => g (pos + i)) (Z.to_nat l))) /\ 0 < l /\ pos + l <= length /\ At c' (pos + l).
Hypothesis isSet_ok : (forall pos, 0 <= pos < length -> isSet pos = Some (g pos)) \/ (forall pos, g pos = true).

Definition visitBit (pos : Z) (s : S) : option (S * option goerr) := if g pos then visitValid pos s else visitInvalid s.

Lemma visitBlock_ok l pos s :
  0 < l -> 0 <= pos -> pos + l <= length ->
  visitBlock visitValid visitInvalid (mkBlock l (countIf (fun i => g (pos + i)) (Z.to_nat l))) isSet pos s = forErr (Z.to_nat l) pos visitBit s.
Proof.
  intros Hl Hp HL. unfold visitBlock. cbn [Len]. apply forErr_ext. intros i s' Hi. unfold visitBit, AllSet, NoneSet. cbn [Len Popcnt].
  destruct (Z.eqb_spec l (countIf (fun i => g (pos + i)) (Z.to_nat l))) as [Hall|Hsome].
  { assert (Hg : g i = true); [|now rewrite Hg]. rewrite <- (countIf_full (fun i => g (pos + i)) (Z.to_nat l) ltac:(lia) (i - pos) ltac:(lia)). f_equal. lia. }
  destruct (Z.eqb_spec (countIf (fun i => g (pos + i)) (Z.to_nat l)) 0) as [Hnone|_].
  { assert (Hg : g i = false); [|now rewrite Hg]. rewrite <- (countIf_none (fun i => g (pos + i)) (Z.to_nat l) Hnone (i - pos) ltac:(lia)). f_equal. lia. }
  destruct isSet_ok as [Hs|Ht]; [now rewrite Hs by lia|]. exfalso. apply Hsome. clear - Ht Hl.
  rewrite countIf_all by auto. lia.
Qed.

Lemma blockLoop_ok fuel c pos s :
  At c pos -> 0 <= pos -> length - pos <= Z.of_nat fuel ->
  blockLoop visitValid visitInvalid fuel next isSet length c pos s = forErr (Z.to_nat (length - pos)) pos visitBit s.
Proof.
  revert c pos s. induction fuel as [|fuel IH]; intros c pos s HA Hp Hf; cbn [blockLoop].
  { bool_lia (pos <? length). replace (Z.to_nat (length - pos)) with O by lia. reflexivity. }
  destruct (Z.ltb_spec pos length) as [Hlt|Hge]; [|replace (Z.to_nat (length - pos)) with O by lia; reflexivity].
  destruct (next_ok c pos HA ltac:(lia)) as (c' & l & -> & Hl & HL & HA'). cbn [opt_bind]. rewrite visitBlock_ok by lia.
  replace (Z.to_nat (length - pos)) with (Z.to_nat l + Z.to_nat (length - (pos + l)))%nat by lia. rewrite forErr_app, Z2Nat.id by lia.
  destruct (forErr (Z.to_nat l) pos visitBit s) as [[s' [e|]]|]; cbn [opt_bind]; auto. apply IH; auto; lia.
Qed.
End VisitOk.

(** A range of a bitmap; an absent bitmap has every bit set. *)
Definition bitOf (bitmap : option (list Z)) (offset pos : Z) : bool :=
  match bitmap with Some bm => Z.testbit (leval bm) (offset + pos) | None => true end.

Definition rangeOk (bitmap : option (list Z)) (offset length : Z) : Prop :=
  match bitmap with
  | Some bm => bytes bm /\ 8 * len bm < 2 ^ 63 - 7 /\ 0 <= offset /\ offset + length <= 8 * len bm
  | None => True
  end.

Definition optionalAt (bitmap : option (list Z)) (offset length : Z) (o : OptionalBitBlockCounter) (pos : Z) : Prop :=
  ob_pos o = pos /\ ob_len o = length /\
  match bitmap, ob_counter o with
  | Some _, Some c => counterOk c (length - pos) (fun i => bitOf bitmap offset (pos + i))
  | None, None => True
  | _, _ => False
  end.

Lemma counterOk_ext b r g g' : (forall i, g i = g' i) -> counterOk b r g -> counterOk b r g'.
Proof. intros He (H1 & H2 & H3 & H4 & H5 & H6 & H7). repeat (split; [assumption|]). intros i Hi. now rewrite <- He, H7. Qed.

Lemma nextUpTo_ok bitmap offset length maxSize o pos :
  0 < maxSize < 2 ^ 15 -> optionalAt bitmap offset length o pos -> 0 <= pos < length ->
  exists o' l, OBC.nextUpTo maxSize o = Some (o', mkBlock l (countIf (fun i => bitOf bitmap offset (pos + i)) (Z.to_nat l))) /\ 0 < l /\ pos + l <= length /\
    optionalAt bitmap offset length o' (pos + l).
Proof.
  intros Hm (Hp & HL & HC) Hpos. unfold OBC.nextUpTo. rewrite Hp, HL. destruct bitmap as [bm|], (ob_counter o) as [c|]; try contradiction.
  - destruct (NextWord_ok c _ _ HC) as (c' & block & -> & -> & HC'). cbn [opt_bind Len]. eexists _, _. split; [reflexivity|]. split; [lia|]. split; [lia|].
    split; [reflexivity|]. split; [reflexivity|]. cbn [ob_counter]. eapply counterOk_ext; [|replace (length - (pos + Z.min (length - pos) 64)) with (length - pos - Z.min (length - pos) 64) by lia; exact HC'].
    intros i. cbv beta. f_equal. lia.
  - rewrite i16_small by lia. eexists _, _. split; [do 3 f_equal; symmetry; rewrite (countIf_all _ _ ltac:(reflexivity)); lia|]. split; [lia|]. split; [lia|]. split; [reflexivity|]. split; [reflexivity|exact I].
Qed.

Lemma NewOptional_ok bitmap offset length :
  rangeOk bitmap offset length -> 0 <= length -> exists o, OBC.NewOptionalBitBlockCounter bitmap offset length = Some o /\ optionalAt bitmap offset length o 0.
Proof.
  intros HR Hl. unfold OBC.NewOptionalBitBlockCounter, BBC.NewBitBlockCounter. destruct bitmap as [bm|].
  - destruct HR as (Hb & Hsz & Ho & Hfit). destruct (bitsLeft_start bm offset length Hb Hsz Ho Hl Hfit) as (bm' & -> & HB). cbn [opt_bind]. eexists. split; [reflexivity|].
    split; [reflexivity|]. split; [reflexivity|]. rewrite Z.sub_0_r. split; [reflexivity|exact HB].
  - eexists. split; [reflexivity|]. split; [reflexivity|]. split; [reflexivity|exact I].
Qed.

Lemma VisitBitBlocksShort_ok {S} bitmap offset length (visitValid : Z -> S -> option (S * option goerr)) visitInvalid s :
  rangeOk bitmap offset length -> 0 <= length ->
  VisitBitBlocksShort visitValid visitInvalid bitmap offset length s = forErr (Z.to_nat length) 0 (visitBit visitValid visitInvalid (bitOf bitmap offset)) s.
Proof.
  intros HR Hl. unfold VisitBitBlocksShort. destruct (NewOptional_ok bitmap offset length HR Hl) as (o & -> & HA). cbn [opt_bind].
  rewrite (blockLoop_ok _ _ _ _ _ (bitOf bitmap offset) (optionalAt bitmap offset length)); [now rewrite Z.sub_0_r| | |exact HA|lia|lia].
  - intros c pos HA' Hpos. apply (nextUpTo_ok bitmap offset length 32767); auto; lia.
  - destruct bitmap as [bm|]; [left|now right]. intros pos Hpos. destruct HR as (Hb & Hsz & Ho & Hfit). apply BitIsSet_ok; [split; [assumption|lia]|lia].
Qed.

(** The loop without errors. *)
Definition visitFrom {S} (visitValid : Z -> S -> option S) (visitInvalid : S -> option S) (g : Z -> bool) (n : nat) (s : S) : option S :=
  for_up n 0 (fun pos s => if g pos then visitValid pos s else visitInvalid s) s.

Lemma forErr_noErr {S} n pos (f : Z -> S -> option S) s : forErr n pos (fun pos s => noErr (f pos s)) s = noErr (for_up n pos f s).
Proof.
  revert pos s. induction n as [|n IH]; intros pos s; cbn [forErr for_up]; [reflexivity|]. unfold noErr at 1. destruct (f pos s) as [s'|]; cbn [opt_bind]; [apply IH|reflexivity].
Qed.

Lemma visitBit_noErr {S} (visitValid : Z -> S -> option S) (visitInvalid : S -> option S) g n s :
  forErr n 0 (visitBit (fun pos s => noErr (visitValid pos s)) (fun s => noErr (visitInvalid s)) g) s = noErr (visitFrom visitValid visitInvalid g n s).
Proof. unfold visitFrom. rewrite <- forErr_noErr. apply forErr_ext. intros i s' _. unfold visitBit. now destruct (g i). Qed.

Lemma noErr_fst {S} (r : option S) : (x <- noErr r ;; Some (fst x)) = r.
Proof. destruct r; reflexivity. Qed.

Lemma VisitBitBlocks_ok {S} bitmap offset length (visitValid : Z -> S -> option S) visitInvalid s :
  rangeOk bitmap offset length -> 0 <= length ->
  VisitBitBlocks bitmap offset length visitValid visitInvalid s = visitFrom visitValid visitInvalid (bitOf bitmap offset) (Z.to_nat length) s.
Proof. intros HR Hl. unfold VisitBitBlocks. rewrite VisitBitBlocksShort_ok, visitBit_noErr by assumption. apply noErr_fst. Qed.

(** ** Two bitmaps *)

Definition opOk (op : bitOp) : Prop :=
  forall a b i, 0 <= i < 64 -> Z.testbit (op_word op a b) i = op_bit op (Z.testbit a i) (Z.testbit b i).

Lemma ops_ok : opOk bitBlockAnd /\ opOk bitBlockAndNot /\ opOk bitBlockOr /\ opOk bitBlockOrNot.
Proof.
  splits; intros a b i Hi; cbn [op_word op_bit bitBlockAnd bitBlockAndNot bitBlockOr bitBlockOrNot];
    [apply Z.land_spec|apply Z.ldiff_spec|apply Z.lor_spec|]. rewrite Z.lor_spec. f_equal. exact (rbit_not64 false b i Hi).
Qed.

Definition wordReq (off : Z) : Z := if negb (off =? 0) then 64 + (64 - off) else 64.

Definition binaryOk (b : BinaryBitBlockCounter) (r : Z) (gl gr : Z -> bool) : Prop :=
  bi_bitsRemaining b = r /\ bitsLeft (bi_left b) (bi_leftOffset b) r gl /\ bitsLeft (bi_right b) (bi_rightOffset b) r gr /\
  bi_bitsRequiredForWords b = Z.max (wordReq (bi_leftOffset b)) (wordReq (bi_rightOffset b)).

Lemma NewBinary_ok left right lo ro length :
  rangeOk (Some left) lo length -> rangeOk (Some right) ro length -> 0 <= length ->
  exists b, BIN.NewBinaryBitBlockCounter left right lo ro length = Some b /\
    binaryOk b length (fun i => Z.testbit (leval left) (lo + i)) (fun i => Z.testbit (leval right) (ro + i)).
Proof.
  intros (Hb1 & Hsz1 & Ho1 & Hf1) (Hb2 & Hsz2 & Ho2 & Hf2) Hl. unfold BIN.NewBinaryBitBlockCounter.
  destruct (bitsLeft_start left lo length Hb1 Hsz1 Ho1 Hl Hf1) as (l' & -> & HB1). destruct (bitsLeft_start right ro length Hb2 Hsz2 Ho2 Hl Hf2) as (r' & -> & HB2). cbn [opt_bind].
  eexists. split; [reflexivity|]. split; [reflexivity|]. split; [exact HB1|]. split; [exact HB2|]. cbn [bi_bitsRequiredForWords bi_leftOffset bi_rightOffset]. unfold wordReq.
  destruct (Z.ltb_spec (if negb (Z.rem ro 8 =? 0) then 64 + (64 - Z.rem ro 8) else 64) (if negb (Z.rem lo 8 =? 0) then 64 + (64 - Z.rem lo 8) else 64)); lia.
Qed.

Lemma popLoop_ok (f : Z -> option bool) (g : Z -> bool) n pos c :
  (forall i, pos <= i < pos + Z.of_nat n -> f i = Some (g i)) ->
  for_up n pos (fun i p => b <- f i ;; Some (if (b : bool) then p + 1 else p)) c = Some (c + countIf (fun i => g (pos + i)) n).
Proof.
  revert pos c. induction n as [|n IH]; intros pos c Hf; cbn [for_up]; [f_equal; cbn; lia|]. rewrite Hf by lia. cbn [opt_bind]. rewrite IH by (intros; apply Hf; lia).
  rewrite countIf_S, Z.add_0_r, (countIf_ext (fun i => g (pos + 1 + i)) (fun i => g (pos + (1 + i)))) by (intros; f_equal; lia). f_equal. destruct (g pos); lia.
Qed.

Lemma for_up_ext {S} n i (f f' : Z -> S -> option S) s : (forall j s, i <= j < i + Z.of_nat n -> f j s = f' j s) -> for_up n i f s = for_up n i f' s.
Proof.
  revert i s. induction n as [|n IH]; intros i s He; cbn [for_up]; [reflexivity|]. rewrite He by lia. destruct (f' i s); cbn [opt_bind]; auto. apply IH. intros; apply He; lia.
Qed.

(** The words of one side. *)
Lemma side_word bm off r g :
  bitsLeft bm off r g -> 64 <= r -> wordReq off <= r -> 0 <= off ->
  exists w0, loadWord bm = Some w0 /\ (off = 0 -> forall i, 0 <= i < 64 -> Z.testbit w0 i = g i).
Proof.
  intros (Hb & _ & Ho & _ & Hfit & Hg) Hr Hq H0. destruct Hfit as [|Hfit]; [lia|]. rewrite loadWord_at. destruct (loadAt_ok bm 0 Hb ltac:(lia) ltac:(lia)) as (w & -> & _ & Hw).
  exists w. split; [reflexivity|]. intros -> i Hi. rewrite Hw, <- Hg by lia. f_equal.
Qed.

Lemma side_shifted bm off r g :
  bitsLeft bm off r g -> 121 <= r -> wordReq off <= r ->
  exists w0 w1, loadWord bm = Some w0 /\ BBC.loadAt bm 8 = Some w1 /\ forall i, 0 <= i < 64 -> Z.testbit (shiftWord w0 w1 off) i = g i.
Proof.
  intros (Hb & _ & Ho & _ & Hfit & Hg) Hr Hq. destruct Hfit as [|Hfit]; [lia|]. rewrite loadWord_at. assert (HL : 16 <= len bm) by (unfold wordReq in Hq; destruct (Z.eqb_spec off 0); cbn [negb] in Hq; lia).
  destruct (loadAt_ok bm 0 Hb ltac:(lia) ltac:(lia)) as (w0 & -> & Hr0 & Hw0). destruct (loadAt_ok bm 8 Hb ltac:(lia) ltac:(lia)) as (w1 & -> & Hr1 & Hw1).
  exists w0, w1. split; [reflexivity|]. split; [reflexivity|]. intros i Hi. rewrite (shifted_ok bm 0) by assumption. rewrite <- Hg by lia. f_equal.
Qed.

Lemma nextPair_ok op b r gl gr :
  opOk op -> binaryOk b r gl gr -> 0 < r ->
  exists b', let l := Z.min r 64 in BIN.nextWord op b = Some (b', mkBlock l (countIf (fun i => op_bit op (gl i) (gr i)) (Z.to_nat l))) /\
    binaryOk b' (r - l) (fun i => gl (l + i)) (fun i => gr (l + i)).
Proof.
  intros Hop (Hrem & HL & HR & Hreq) H0. unfold BIN.nextWord. rewrite Hrem, Hreq. bool_lia (r =? 0). unfold wordBits. change (i16 64) with 64.
  pose proof HL as (Hb1 & Hsz1 & Ho1 & _ & Hf1 & Hg1). pose proof HR as (Hb2 & Hsz2 & Ho2 & _ & Hf2 & Hg2). destruct Hf1 as [|Hf1]; [lia|]. destruct Hf2 as [|Hf2]; [lia|].
  assert (Hw1 : 64 <= wordReq (bi_leftOffset b) <= 127 /\ (bi_leftOffset b <> 0 -> 121 <= wordReq (bi_leftOffset b))) by (unfold wordReq; destruct (Z.eqb_spec (bi_leftOffset b) 0); cbn [negb]; lia).
  assert (Hw2 : 64 <= wordReq (bi_rightOffset b) <= 127 /\ (bi_rightOffset b <> 0 -> 121 <= wordReq (bi_rightOffset b))) by (unfold wordReq; destruct (Z.eqb_spec (bi_rightOffset b) 0); cbn [negb]; lia).
  destruct (Z.ltb_spec r (Z.max (wordReq (bi_leftOffset b)) (wordReq (bi_rightOffset b)))) as [Hslow|Hfast].
  - rewrite (i16_small r) by lia. replace (if 64 <? r then 64 else r) with (Z.min r 64) by (destruct (Z.ltb_spec 64 r); lia). set (l := Z.min r 64).
    rewrite (for_up_ext _ _ _ (fun i p => b <- Some (op_bit op (gl i) (gr i)) ;; Some (if (b : bool) then p + 1 else p))).
    2:{ intros i p Hi. rewrite !BitIsSet_ok by (first [lia|split; [assumption|lia]]). cbn [opt_bind]. rewrite Hg1, Hg2 by lia. reflexivity. }
    rewrite (popLoop_ok _ (fun i => op_bit op (gl i) (gr i))) by reflexivity. cbn [opt_bind].
    destruct (bitsLeft_drop _ _ _ _ l HL) as (bm1 & -> & HB1); [lia| |lia|]; [destruct (Z.le_gt_cases r 64); [left; lia|right; subst l; rewrite Z.min_r by lia; reflexivity]|].
    destruct (bitsLeft_drop _ _ _ _ l HR) as (bm2 & -> & HB2); [lia| |lia|]; [destruct (Z.le_gt_cases r 64); [left; lia|right; subst l; rewrite Z.min_r by lia; reflexivity]|].
    cbn [opt_bind]. eexists. split; [reflexivity|]. split; [reflexivity|]. split; [exact HB1|]. split; [exact HB2|reflexivity].
  - assert (Hpop : exists w, (if (bi_leftOffset b =? 0) && (bi_rightOffset b =? 0)
        then l <- loadWord (bi_left b) ;; r <- loadWord (bi_right b) ;; Some (OnesCount64 (op_word op l r))
        else l0 <- loadWord (bi_left b) ;; l1 <- BBC.loadAt (bi_left b) 8 ;; r0 <- loadWord (bi_right b) ;; r1 <- BBC.loadAt (bi_right b) 8 ;;
          Some (OnesCount64 (op_word op (shiftWord l0 l1 (bi_leftOffset b)) (shiftWord r0 r1 (bi_rightOffset b))))) = Some (OnesCount64 w) /\
        forall i, 0 <= i < 64 -> Z.testbit w i = op_bit op (gl i) (gr i)).
    { destruct ((bi_leftOffset b =? 0) && (bi_rightOffset b =? 0)) eqn:Ez.
      - apply andb_true_iff in Ez as [E1 E2]. apply Z.eqb_eq in E1, E2.
        destruct (side_word _ _ _ _ HL ltac:(lia) ltac:(lia) ltac:(lia)) as (w1 & -> & HW1). destruct (side_word _ _ _ _ HR ltac:(lia) ltac:(lia) ltac:(lia)) as (w2 & -> & HW2).
        eexists. split; [reflexivity|]. intros i Hi. now rewrite Hop, HW1, HW2.
      - apply andb_false_iff in Ez. rewrite !Z.eqb_neq in Ez.
        destruct (side_shifted _ _ _ _ HL ltac:(lia) ltac:(lia)) as (w0 & w1 & -> & -> & HW1). destruct (side_shifted _ _ _ _ HR ltac:(lia) ltac:(lia)) as (w2 & w3 & -> & -> & HW2).
        eexists. split; [reflexivity|]. intros i Hi. now rewrite Hop, HW1, HW2. }
    destruct Hpop as (w & -> & Hw). cbn [opt_bind]. rewrite (OnesCount64_countIf _ _ Hw).
    destruct (bitsLeft_drop _ _ _ _ 64 HL) as (bm1 & -> & HB1); [lia|right; reflexivity|lia|]. destruct (bitsLeft_drop _ _ _ _ 64 HR) as (bm2 & -> & HB2); [lia|right; reflexivity|lia|].
    cbn [opt_bind]. rewrite Z.min_r by lia. pose proof (countIf_bound (fun i => op_bit op (gl i) (gr i)) 64). rewrite i16_small by lia.
    eexists. split; [reflexivity|]. split; [reflexivity|]. split; [exact HB1|]. split; [exact HB2|reflexivity].
Qed.

Definition pairAt (left right : list Z) (lo ro length : Z) (b : BinaryBitBlockCounter) (pos : Z) : Prop :=
  binaryOk b (length - pos) (fun i => Z.testbit (leval left) (lo + (pos + i))) (fun i => Z.testbit (leval right) (ro + (pos + i))).

Lemma bitsLeft_ext bm off r g g' : (forall i, g i = g' i) -> bitsLeft bm off r g -> bitsLeft bm off r g'.
Proof. intros He (H2 & H3 & H4 & H5 & H6 & H7). repeat (split; [assumption|]). intros i Hi. now rewrite <- He, H7. Qed.

Lemma pairAt_next op left right lo ro length b pos :
  opOk op -> pairAt left right lo ro length b pos -> 0 <= pos < length ->
  exists b', let l := Z.min (length - pos) 64 in
    BIN.nextWord op b = Some (b', mkBlock l (countIf (fun i => op_bit op (Z.testbit (leval left) (lo + (pos + i))) (Z.testbit (leval right) (ro + (pos + i)))) (Z.to_nat l))) /\
    pairAt left right lo ro length b' (pos + l).
Proof.
  intros Hop HA Hpos. destruct (nextPair_ok op b _ _ _ Hop HA ltac:(lia)) as (b' & HE & Hrem & HL & HR & Hreq). exists b'. cbv zeta in *. split; [exact HE|].
  set (l := Z.min (length - pos) 64) in *. unfold pairAt, binaryOk. replace (length - (pos + l)) with (length - pos - l) by lia. split; [lia|].
  split; [|split; [|assumption]]; (eapply bitsLeft_ext; [|first [exact HL|exact HR]]; intros i; cbv beta; f_equal; lia).
Qed.

Lemma VisitTwoBitBlocks_ok {S} left right lo ro length (visitValid : Z -> S -> option S) visitNull s :
  rangeOk left lo length -> rangeOk right ro length -> 0 <= length ->
  VisitTwoBitBlocks left right lo ro length visitValid visitNull s =
    visitFrom visitValid visitNull (fun pos => bitOf left lo pos && bitOf right ro pos) (Z.to_nat length) s.
Proof.
  intros HL HR Hl. unfold VisitTwoBitBlocks. destruct left as [left|]; [|now rewrite VisitBitBlocks_ok].
  destruct right as [right|]; [|rewrite VisitBitBlocks_ok by assumption; apply for_up_ext; intros; cbn [bitOf]; now rewrite andb_true_r].
  destruct (NewBinary_ok left right lo ro length HL HR Hl) as (b & -> & HB). cbn [opt_bind].
  rewrite (blockLoop_ok _ _ _ _ _ (fun pos => bitOf (Some left) lo pos && bitOf (Some right) ro pos) (pairAt left right lo ro length)).
  - rewrite Z.sub_0_r, visitBit_noErr. apply noErr_fst.
  - intros c pos HA Hpos. destruct (pairAt_next bitBlockAnd left right lo ro length c pos (proj1 ops_ok) HA Hpos) as (b' & HE & HA').
    exists b', (Z.min (length - pos) 64). split; [exact HE|]. splits; auto; lia.
  - left. intros pos Hpos. destruct HL as (Hb1 & Hsz1 & Ho1 & Hf1), HR as (Hb2 & Hsz2 & Ho2 & Hf2). rewrite !BitIsSet_ok by (first [lia|split; [assumption|lia]]). cbn [opt_bind bitOf].
    now destruct (Z.testbit (leval left) (lo + pos)).
  - unfold pairAt. rewrite Z.sub_0_r. exact HB.
  - lia.
  - lia.
Qed.

(** Calls of a counter, of one word or of four, and the blocks they return. *)
Fixpoint takeBlocks (b : BitBlockCounter) (four : list bool) : option (list BitBlockCount) :=
  match four with
  | [] => Some []
  | f :: four' =>
      r <- (if f : bool then BBC.NextFourWords b else BBC.NextWord b) ;;
      let '(b', block) := r in rest <- takeBlocks b' four' ;; Some (block :: rest)
  end.

(** The blocks of the bits from [pos] to [length], the last one shorter, then empty ones. *)
Fixpoint blocksFrom (g : Z -> bool) (length pos : Z) (four : list bool) : list BitBlockCount :=
  match four with
  | [] => []
  | f :: four' =>
      let l := Z.min (length - pos) (if f : bool then 256 else 64) in
      mkBlock l (countIf (fun i => g (pos + i)) (Z.to_nat l)) :: blocksFrom g length (pos + l) four'
  end.

Lemma takeBlocks_ok four b g length pos :
  counterOk b (length - pos) (fun i => g (pos + i)) -> takeBlocks b four = Some (blocksFrom g length pos four).
Proof.
  revert b pos. induction four as [|f four IH]; intros b pos HC; cbn [takeBlocks blocksFrom]; [reflexivity|].
  assert (HN : nextBlock (if f then BBC.NextFourWords b else BBC.NextWord b) (Z.min (length - pos) (if f then 256 else 64)) (length - pos) (fun i => g (pos + i)))
    by (destruct f; [now apply NextFourWords_ok|now apply NextWord_ok]).
  destruct HN as (b' & block & -> & -> & HC'). cbn [opt_bind]. set (l := Z.min _ _) in *. rewrite (IH b' (pos + l)); [reflexivity|].
  replace (length - (pos + l)) with (length - pos - l) by lia. eapply counterOk_ext; [|exact HC']. intros i. cbv beta. f_equal. lia.
Qed.

(** Calls of a binary counter with operations [ops]. *)
Fixpoint takePairs (b : BinaryBitBlockCounter) (ops : list bitOp) : option (list BitBlockCount) :=
  match ops with
  | [] => Some []
  | op :: ops' => r <- BIN.nextWord op b ;; let '(b', block) := r in rest <- takePairs b' ops' ;; Some (block :: rest)
  end.

Fixpoint pairsFrom (gl gr : Z -> bool) (length pos : Z) (ops : list bitOp) : list BitBlockCount :=
  match ops with
  | [] => []
  | op :: ops' =>
      let l := Z.min (length - pos) 64 in
      mkBlock l (countIf (fun i => op_bit op (gl (pos + i)) (gr (pos + i))) (Z.to_nat l)) :: pairsFrom gl gr length (pos + l) ops'
  end.

Definition isBlockOp (op : bitOp) : Prop := op = bitBlockAnd \/ op = bitBlockAndNot \/ op = bitBlockOr \/ op = bitBlockOrNot.

Lemma isBlockOp_ok op : isBlockOp op -> opOk op.
Proof. destruct ops_ok as (H1 & H2 & H3 & H4). intros [-> |[-> |[-> | ->]]]; assumption. Qed.

Lemma takePairs_ok ops left right lo ro length b pos :
  Forall isBlockOp ops -> pairAt left right lo ro length b pos -> 0 <= pos <= length ->
  takePairs b ops = Some (pairsFrom (fun i => Z.testbit (leval left) (lo + i)) (fun i => Z.testbit (leval right) (ro + i)) length pos ops).
Proof.
  intros HF. revert b pos. induction HF as [|op ops Hop _ IH]; intros b pos HA Hpos; cbn [takePairs pairsFrom]; [reflexivity|].
  destruct (Z.eq_dec pos length) as [->|Hne].
  - pose proof HA as (Hrem & _). unfold BIN.nextWord at 1. rewrite Hrem, Z.sub_diag. cbn [Z.eqb opt_bind Z.min Z.compare]. rewrite (IH b length HA Hpos), Z.add_0_r. reflexivity.
  - destruct (pairAt_next op left right lo ro length b pos (isBlockOp_ok op Hop) HA ltac:(lia)) as (b' & -> & HA'). cbn [opt_bind]. rewrite (IH b' _ HA' ltac:(lia)). reflexivity.
Qed.

(** ** Claims *)

(** The visitors of bit blocks visit every position of the range in order, the set ones as
    valid and the others as invalid, and stop at the first error: the same as reading bit by
    bit.  With two bitmaps a position is valid when both bits are set; an absent bitmap has all
    bits set. *)
Theorem visit_bit_blocks_correct {S} left right lo ro length (valid : Z -> S -> option S) (invalid : S -> option S) validE invalidE s :
  rangeOk left lo length -> rangeOk right ro length -> 0 <= length ->
  VisitBitBlocks left lo length valid invalid s = visitFrom valid invalid (bitOf left lo) (Z.to_nat length) s /\
  VisitTwoBitBlocks left right lo ro length valid invalid s = visitFrom valid invalid (fun pos => bitOf left lo pos && bitOf right ro pos) (Z.to_nat length) s /\
  VisitBitBlocksShort validE invalidE left lo length s =
    forErr (Z.to_nat length) 0 (fun pos s => if bitOf left lo pos then validE pos s else invalidE s) s.
Proof.
  intros HL HR Hl. split; [now apply VisitBitBlocks_ok|]. split; [now apply VisitTwoBitBlocks_ok|]. now apply VisitBitBlocksShort_ok.
Qed.

(** Whatever the order of the calls, [NextWord] and [NextFourWords] return consecutive
    blocks of at most 64 and 256 bits with the number of their set bits, shifted bitmaps
    included, and empty blocks at the end; [NextAndWord] and its variants return the counts of
    the combined bits. *)
Theorem block_counters_correct left right lo ro length four ops :
  rangeOk (Some left) lo length -> rangeOk (Some right) ro length -> 0 <= length -> Forall isBlockOp ops ->
  (exists c, BBC.NewBitBlockCounter left lo length = Some c /\ takeBlocks c four = Some (blocksFrom (fun i => Z.testbit (leval left) (lo + i)) length 0 four)) /\
  exists b, BIN.NewBinaryBitBlockCounter left right lo ro length = Some b /\
    takePairs b ops = Some (pairsFrom (fun i => Z.testbit (leval left) (lo + i)) (fun i => Z.testbit (leval right) (ro + i)) length 0 ops).
Proof.
  intros HL HR Hl Hops. split.
  - destruct HL as (Hb & Hsz & Ho & Hfit). unfold BBC.NewBitBlockCounter. destruct (bitsLeft_start left lo length Hb Hsz Ho Hl Hfit) as (bm & -> & HB). cbn [opt_bind].
    eexists. split; [reflexivity|]. apply takeBlocks_ok. rewrite Z.sub_0_r. split; [reflexivity|exact HB].
  - destruct (NewBinary_ok left right lo ro length HL HR Hl) as (b & -> & HB). exists b. split; [reflexivity|]. apply takePairs_ok; [assumption| |lia]. unfold pairAt. rewrite Z.sub_0_r. exact HB.
Qed.

