(* ===== verification/BitRunReader.v ===== *)
(** * Runs of equal bits (internal/bitutils/bit_run_reader.go)

    [BRR] is [bitRunReader]: the alternating runs of set and unset bits of a range.  The word
    it keeps is inverted so that the next change is its first set bit, and a bit put after the
    last one makes the last run end. *)

From Stdlib Require Import ZArith List Lia Bool.
From S2P Require Import Prelude BitUtil BitRuns BitBlocks.
Import ListNotations.
#[local] Open Scope Z_scope.
#[local] Open Scope go_scope.

Record BitRun : Type := mkBitRun { RunLen : Z; RunSet : bool }.

Record bitRunReader : Type := mkBRR {
  rr_bitmap : list Z;
  rr_pos : Z;
  rr_length : Z;
  rr_word : Z;
  rr_curRunBitSet : bool
}.

Module BRR.
Implicit Types b : bitRunReader.

(** [loadWord(bitsRemaining)]: the word afterwards. *)
Definition loadWord (bitmap : list Z) (cur : bool) (bitsRemaining : Z) : option Z :=
  word <-
    (if 64 <=? bitsRemaining then BitBlocks.loadWord bitmap
     else
       src <- slice bitmap 0 (BytesForBits bitsRemaining) ;;
       let wordptr := splice (repeat 0 8) 0 src in
       v <- BitIsNotSet wordptr (bitsRemaining - 1) ;;
       wordptr' <- SetBitTo wordptr bitsRemaining v ;;
       Some (leval wordptr')) ;;
  Some (if cur then not64 word else word).

Definition NewBitRunReader (bitmap : list Z) (offset length : Z) : option bitRunReader :=
  bm <- dropBytes bitmap (Z.quot offset 8) ;;
  let pos := Z.rem offset 8 in
  if length =? 0 then Some (mkBRR bm pos (pos + length) 0 false)
  else
    cur <- BitIsNotSet bitmap offset ;;
    word <- loadWord bm cur (length + pos) ;;
    Some (mkBRR bm pos (pos + length) (Z.ldiff word (LeastSignificantBitMask pos)) cur).

(** [advanceUntilChange()] *)
Fixpoint advanceUntilChange (fuel : nat) b : option bitRunReader :=
  match fuel with
  | O => None
  | S fuel' =>
      bm <- dropBytes (rr_bitmap b) 8 ;;
      word <- loadWord bm (rr_curRunBitSet b) (rr_length b - rr_pos b) ;;
      let newbits := TrailingZeros64 word in
      let b' := mkBRR bm (rr_pos b + newbits) (rr_length b) word (rr_curRunBitSet b) in
      if negb (IsMultipleOf64 (rr_pos b')) || (rr_length b <=? rr_pos b') || (newbits <=? 0) then Some b' else advanceUntilChange fuel' b'
  end.

Definition NextRun b : option (bitRunReader * BitRun) :=
  if rr_length b <=? rr_pos b then Some (b, mkBitRun 0 false)
  else
    let cur := negb (rr_curRunBitSet b) in
    let start := rr_pos b in
    let startOffset := start & 63 in
    let word := Z.ldiff (not64 (rr_word b)) (LeastSignificantBitMask startOffset) in
    let newbits := TrailingZeros64 word - startOffset in
    let b1 := mkBRR (rr_bitmap b) (start + newbits) (rr_length b) word cur in
    b2 <- (if IsMultipleOf64 (rr_pos b1) && (rr_pos b1 <? rr_length b1) then advanceUntilChange (Z.to_nat (rr_length b1)) b1 else Some b1) ;;
    Some (b2, mkBitRun (rr_pos b2 - start) cur).

End BRR.

(** All runs, up to the first empty one. *)
Fixpoint readBitRuns (fuel : nat) (b : bitRunReader) : option (list (Z * bool)) :=
  match fuel with
  | O => None
  | S fuel' =>
      r <- BRR.NextRun b ;;
      let '(b', run) := r in
      if RunLen run =? 0 then Some []
      else rest <- readBitRuns fuel' b' ;; Some ((RunLen run, RunSet run) :: rest)
  end.

(** ** Words *)

(** The [n] bits of [bm] from bit 0 on, inverted by [cur], and a bit after them that ends the
    last run. *)
Definition wordOf (w : Z) (g : Z -> bool) (n : Z) (cur : bool) : Prop :=
  0 <= w < 2 ^ 64 /\ (forall i, 0 <= i < Z.min n 64 -> Z.testbit w i = xorb (g i) cur) /\
  (n < 64 -> Z.testbit w n = xorb (negb (g (n - 1))) cur).

Lemma not64_range w : 0 <= w < 2 ^ 64 -> 0 <= not64 w < 2 ^ 64.
Proof.
  intros Hw. unfold not64. split; [apply Z.ldiff_nonneg; lia|]. apply word_bound; [lia|apply Z.ldiff_nonneg; lia|]. intros j Hj.
  rewrite Z.ldiff_spec, (high_bits 64) by lia. reflexivity.
Qed.

Lemma not64_bit w i : 0 <= i < 64 -> Z.testbit (not64 w) i = negb (Z.testbit w i).
Proof. exact (rbit_not64 false w i). Qed.

Lemma wordOf_invert w g n (cur : bool) : wordOf w g n false -> 0 <= n -> wordOf (if cur then not64 w else w) g n cur.
Proof.
  intros (Hw & Hb & He) Hn. destruct cur; [|now split].
  split; [now apply not64_range|]. split; [intros i Hi; rewrite not64_bit, Hb by lia; now destruct (g i)|].
  intros Hlt. rewrite not64_bit, He by lia. now destruct (g (n - 1)).
Qed.

Lemma loadRunWord_ok bm n cur :
  bytes bm -> 8 * len bm < 2 ^ 63 - 7 -> 0 < n <= 8 * len bm ->
  exists w, BRR.loadWord bm cur n = Some w /\ wordOf w (Z.testbit (leval bm)) n cur.
Proof.
  intros Hb Hsz Hn. unfold BRR.loadWord. destruct (Z.leb_spec 64 n) as [Hge|Hlt].
  - rewrite loadWord_at. destruct (loadAt_ok bm 0 Hb ltac:(lia) ltac:(lia)) as (w & -> & Hr & Hw). cbn [opt_bind]. eexists. split; [reflexivity|]. apply wordOf_invert; [|lia].
    split; [assumption|]. split; [|lia]. intros i Hi. rewrite Hw, xorb_false_r by lia. f_equal.
  - destruct (BytesForBits_8 n) as [Hk1 Hk2]; [lia|lia|]. rewrite slice_ok by lia. cbn [opt_bind]. rewrite Z.sub_0_r. cbn [Z.to_nat skipn]. set (src := firstn _ bm).
    assert (HLs : List.length src = Z.to_nat (BytesForBits n)) by (subst src; rewrite length_firstn; lia). set (W := splice _ _ src).
    assert (HW : bytes W /\ List.length W = 8%nat) by (subst W; split; [apply bytes_splice; [apply (bytes_repeat0 8)|subst src; auto with gobytes]|apply length_splice; cbn; lia]).
    destruct HW as [HWb HWl]. assert (HWo : bitmapOk W) by (split; [assumption|rewrite HWl; cbn; lia]).
    assert (Hbit : forall i, 0 <= i < n -> Z.testbit (leval W) i = Z.testbit (leval bm) i).
    { intros i Hi. subst W. rewrite splice_word_bit by (try lia; subst src; auto with gobytes). rewrite HLs. bool_lia (8 * Z.of_nat 0 <=? i). bool_lia (i <? 8 * (Z.of_nat 0 + Z.of_nat (Z.to_nat (BytesForBits n)))). cbn [andb].
      replace (i - 8 * Z.of_nat 0) with i by lia. subst src. pose proof (testbit_slice bm 0 (BytesForBits n) i Hb ltac:(lia) ltac:(lia) ltac:(lia)) as HT. cbn [Z.to_nat skipn] in HT. rewrite HT.
      bool_lia (i <? 8 * BytesForBits n). reflexivity. }
    rewrite BitIsNotSet_ok by (try assumption; rewrite HWl; lia). cbn [opt_bind]. rewrite Hbit by lia.
    destruct (SetBitTo_ok W n ltac:(assumption) ltac:(rewrite HWl; lia) (negb (Z.testbit (leval bm) (n - 1)))) as (W' & -> & HL' & HB' & HT'). cbn [opt_bind].
    eexists. split; [reflexivity|]. apply wordOf_invert; [|lia]. pose proof (leval_bound W' HB') as Hr. rewrite HL', HWl in Hr. split; [exact Hr|]. split.
    + intros i Hi. rewrite HT' by lia. bool_lia (i =? n). now rewrite Hbit, xorb_false_r by lia.
    + intros _. rewrite HT', Z.eqb_refl by lia. now rewrite xorb_false_r.
Qed.

(** The run goes on to the first set bit of the word. *)
Lemma trailing_ok w g n cur so :
  0 <= so < Z.min n 64 -> (forall i, 0 <= i < so -> Z.testbit w i = false) ->
  (forall i, so <= i < Z.min n 64 -> Z.testbit w i = xorb (g i) cur) -> (n < 64 -> Z.testbit w n = xorb (negb (g (n - 1))) cur) ->
  let z := TrailingZeros64 w in
  so <= z <= Z.min n 64 /\ (forall i, so <= i < z -> g i = cur) /\ (z < Z.min n 64 -> g z = negb cur).
Proof.
  intros Hso Hlow Hb He z. destruct (countZeros_spec 64 w 0 1) as (Hr & Hz & Ho). fold (TrailingZeros64 w) in Hr, Hz, Ho. fold z in Hr, Hz, Ho.
  assert (Hz' : forall j, 0 <= j < z -> Z.testbit w j = false) by (intros j Hj; rewrite <- (Hz j Hj); f_equal; lia).
  assert (Ho' : z < 64 -> Z.testbit w z = true) by (intros Hlt; rewrite <- (Ho Hlt); f_equal; lia).
  assert (Hcur : forall i, so <= i < Z.min z (Z.min n 64) -> g i = cur).
  { intros i Hi. specialize (Hz' i ltac:(lia)). rewrite Hb in Hz' by lia. now apply xorb_eq in Hz'. }
  assert (Hsz : so <= z) by (destruct (Z.le_gt_cases so z); [assumption|]; specialize (Ho' ltac:(lia)); rewrite Hlow in Ho' by lia; discriminate).
  assert (Hzn : z <= Z.min n 64).
  { destruct (Z.le_gt_cases z n) as [|Hgt]; [lia|]. specialize (He ltac:(lia)). rewrite (Hz' n) in He by lia. rewrite (Hcur (n - 1)) in He by lia. destruct cur; discriminate. }
  split; [lia|]. split; [intros i Hi; apply Hcur; lia|]. intros Hlt. specialize (Ho' ltac:(lia)). rewrite Hb in Ho' by lia. destruct (g z), cur; auto; discriminate.
Qed.

(** ** The reader's state *)

Section Reader.
Variables (bm : list Z) (length : Z).
Hypotheses (Hb : bytes bm) (Hsz : 8 * len bm < 2 ^ 63 - 7) (Hlen : length <= 8 * len bm).
Implicit Types b : bitRunReader.

Definition g (i : Z) : bool := Z.testbit (leval bm) i.

(** The reader is at bit [p] of the word at bit [base], and there the bits change from the
    last run. *)
Definition runReaderAt b (p : Z) : Prop :=
  rr_pos b = p /\ rr_length b = length /\ 0 <= p < length /\ g p = negb (rr_curRunBitSet b) /\
  exists base, 0 <= base /\ base mod 64 = 0 /\ base <= p < base + 64 /\ rr_bitmap b = skipn (Z.to_nat (base / 8)) bm /\ 0 <= rr_word b < 2 ^ 64 /\
    (forall i, p - base <= i < Z.min (length - base) 64 -> Z.testbit (rr_word b) i = xorb (g (base + i)) (rr_curRunBitSet b)) /\
    (length - base < 64 -> Z.testbit (rr_word b) (length - base) = xorb (negb (g (length - 1))) (rr_curRunBitSet b)).

Definition runReaderDone b : Prop := rr_length b <= rr_pos b.

Lemma word_at base cur :
  0 <= base -> base mod 64 = 0 -> base < length ->
  exists w, BRR.loadWord (skipn (Z.to_nat (base / 8)) bm) cur (length - base) = Some w /\ wordOf w (fun i => g (base + i)) (length - base) cur.
Proof.
  intros H0 Hm Hlt. assert (Hq : base = 8 * (base / 8)) by zdiv.
  destruct (loadRunWord_ok (skipn (Z.to_nat (base / 8)) bm) (length - base) cur) as (w & HE & Hr & Hw & He); [auto with gobytes|rewrite length_skipn; lia|rewrite length_skipn; lia|].
  exists w. split; [exact HE|].
  assert (Hg : forall i, 0 <= i -> Z.testbit (leval (skipn (Z.to_nat (base / 8)) bm)) i = g (base + i)).
  { intros i Hi. unfold g. rewrite leval_skipn, Z.div_pow2_bits by (auto; lia). f_equal. lia. }
  split; [assumption|]. split.
  - intros i Hi. rewrite Hw, Hg by lia. reflexivity.
  - intros Hn. rewrite He, Hg by lia. reflexivity.
Qed.

Lemma advance_runs fuel b base :
  0 <= base -> base mod 64 = 0 -> base + 64 < length -> rr_bitmap b = skipn (Z.to_nat (base / 8)) bm -> rr_pos b = base + 64 -> rr_length b = length ->
  length - base - 64 <= Z.of_nat fuel ->
  exists b' e, BRR.advanceUntilChange fuel b = Some b' /\ rr_pos b' = e /\ rr_length b' = length /\ base + 64 <= e <= length /\
    rr_curRunBitSet b' = rr_curRunBitSet b /\ (forall i, base + 64 <= i < e -> g i = rr_curRunBitSet b) /\ (e < length -> runReaderAt b' e).
Proof.
  revert b base. induction fuel as [|fuel IH]; intros b base H0 Hm Hlt Hbm Hpos HL Hf; [lia|]. cbn [BRR.advanceUntilChange].
  assert (Hm' : (base + 64) mod 64 = 0 /\ (base + 64) / 8 = base / 8 + 8) by (split; zdiv). destruct Hm' as [Hm' Hq'].
  assert (Hdrop : dropBytes (rr_bitmap b) 8 = Some (skipn (Z.to_nat ((base + 64) / 8)) bm)).
  { assert (0 <= base / 8) by zdiv. assert (base = 8 * (base / 8)) by zdiv. rewrite Hbm, dropBytes_ok by (rewrite length_skipn; lia). rewrite skipn_skipn. do 2 f_equal. rewrite Hq'. lia. }
  rewrite Hdrop, HL, Hpos. cbn [opt_bind]. destruct (word_at (base + 64) (rr_curRunBitSet b) ltac:(lia) Hm' Hlt) as (w & -> & Hr & Hw & He). cbn [opt_bind rr_pos rr_length].
  destruct (trailing_ok w (fun i => g (base + 64 + i)) (length - (base + 64)) (rr_curRunBitSet b) 0) as (Hz & Hrun & Hend); [lia|intros; lia|intros; apply Hw; lia|exact He|].
  set (z := TrailingZeros64 w) in *. set (b1 := mkBRR _ _ _ _ _). assert (Hmul : IsMultipleOf64 (base + 64 + z) = (z =? 0) || (z =? 64)).
  { unfold IsMultipleOf64. change 63 with (Z.ones 6). rewrite Z.land_ones by lia. change (2 ^ 6) with 64. destruct (Z.eqb_spec z 0), (Z.eqb_spec z 64); cbn [orb]; first [apply Z.eqb_eq; zdiv|apply Z.eqb_neq; zdiv]. }
  destruct (negb _ || _ || _) eqn:Estop.
  - exists b1, (base + 64 + z). split; [reflexivity|]. split; [reflexivity|]. split; [reflexivity|]. split; [lia|]. split; [reflexivity|].
    split; [intros i Hi; rewrite <- (Hrun (i - (base + 64))) by lia; f_equal; lia|]. intros Hlt'.
    assert (Hz64 : z < 64). { destruct (Z.lt_ge_cases z 64); [assumption|]. replace z with 64 in * by lia. rewrite Hmul, (proj2 (Z.leb_gt length _)) in Estop by lia. discriminate. }
    split; [reflexivity|]. split; [reflexivity|]. split; [lia|]. split; [apply Hend; lia|]. exists (base + 64). cbn [b1 rr_bitmap rr_word rr_curRunBitSet].
    split; [lia|]. split; [exact Hm'|]. split; [lia|]. split; [reflexivity|]. split; [exact Hr|]. split; [intros i Hi; apply Hw; lia|].
    intros Hs. rewrite He by lia. do 3 f_equal. lia.
  - rewrite !orb_false_iff, negb_false_iff, Z.leb_gt, Z.leb_gt, Hmul in Estop. destruct Estop as [[Hmz Hlt'] Hzp]. assert (z = 64) by (apply orb_true_iff in Hmz; rewrite !Z.eqb_eq in Hmz; lia).
    destruct (IH b1 (base + 64)) as (b' & e & HE & He1 & He2 & He3 & He4 & He5 & He6); try reflexivity; try lia; [cbn [b1 rr_pos]; lia|].
    exists b', e. split; [exact HE|]. split; [exact He1|]. split; [exact He2|]. split; [lia|]. split; [exact He4|]. split; [|exact He6]. intros i Hi. destruct (Z.lt_ge_cases i (base + 64 + 64)); [|apply He5; lia].
    rewrite <- (Hrun (i - (base + 64))) by lia. f_equal. lia.
Qed.

Lemma NextRun_done b : runReaderDone b -> BRR.NextRun b = Some (b, mkBitRun 0 false).
Proof. clear Hb Hsz Hlen. intros Hd. unfold runReaderDone in Hd. unfold BRR.NextRun. now bool_lia (rr_length b <=? rr_pos b). Qed.

Lemma NextBitRun_ok b p :
  runReaderAt b p ->
  exists b' e, BRR.NextRun b = Some (b', mkBitRun (e - p) (g p)) /\ p < e <= length /\ (forall i, p <= i < e -> g i = g p) /\
    (e < length -> g e = negb (g p) /\ runReaderAt b' e) /\ (e = length -> runReaderDone b').
Proof.
  intros (Hpos & HL & Hp & Hg & base & H0 & Hm & Hbase & Hbm & Hr & Hw & He). unfold BRR.NextRun. rewrite Hpos, HL. bool_lia (length <=? p).
  assert (Hso : p & 63 = p - base) by (change 63 with (Z.ones 6); rewrite Z.land_ones by lia; change (2 ^ 6) with 64; zdiv). rewrite Hso.
  set (W := Z.ldiff _ _). set (cur := negb (rr_curRunBitSet b)) in *.
  assert (HWb : forall i, 0 <= i < 64 -> Z.testbit W i = negb (i <? p - base) && negb (Z.testbit (rr_word b) i)).
  { intros i Hi. subst W. rewrite Z.ldiff_spec, not64_bit, LSM_bit by lia. apply andb_comm. }
  destruct (trailing_ok W (fun i => g (base + i)) (length - base) cur (p - base)) as (Hz & Hrun & Hend); [lia| | | |].
  { intros i Hi. rewrite HWb by lia. now bool_lia (i <? p - base). }
  { intros i Hi. rewrite HWb by lia. bool_lia (i <? p - base). cbn [negb andb]. rewrite Hw by lia. subst cur. now destruct (g (base + i)), (rr_curRunBitSet b). }
  { intros Hn. rewrite HWb by lia. bool_lia (length - base <? p - base). cbn [negb andb]. rewrite He by lia. replace (base + (length - base - 1)) with (length - 1) by lia. subst cur. now destruct (g (length - 1)), (rr_curRunBitSet b). }
  set (z := TrailingZeros64 W) in *.
  assert (Hzp : p - base < z). { destruct (Z.le_gt_cases z (p - base)) as [Hle|]; [|assumption]. replace z with (p - base) in * by lia. specialize (Hend ltac:(lia)). cbv beta in Hend. replace (base + (p - base)) with p in Hend by lia. rewrite Hg in Hend. destruct cur; discriminate. }
  assert (Hrun' : forall i, p <= i < base + z -> g i = g p) by (intros i Hi; rewrite Hg, <- (Hrun (i - base)) by lia; f_equal; lia).
  assert (Hmul : IsMultipleOf64 (base + z) = (z =? 64)).
  { unfold IsMultipleOf64. change 63 with (Z.ones 6). rewrite Z.land_ones by lia. change (2 ^ 6) with 64. destruct (Z.eqb_spec z 64); [apply Z.eqb_eq|apply Z.eqb_neq]; zdiv. }
  cbn [rr_pos rr_length]. replace (p + (z - (p - base))) with (base + z) by lia. rewrite Hmul. rewrite Hg. set (b1 := mkBRR _ _ _ _ _).
  destruct ((z =? 64) && (base + z <? length)) eqn:Eadv.
  - apply andb_true_iff in Eadv as [E1 E2]. apply Z.eqb_eq in E1. apply Z.ltb_lt in E2.
    destruct (advance_runs (Z.to_nat length) b1 base) as (b' & e & -> & He1 & He2 & He3 & He4 & He5 & He6); try reflexivity; auto; try lia; [cbn [b1 rr_pos]; lia|]. cbn [opt_bind].
    exists b', e. rewrite He1. split; [reflexivity|]. split; [lia|]. split.
    + intros i Hi. destruct (Z.lt_ge_cases i (base + z)); [rewrite <- Hg; apply Hrun'; lia|apply He5; lia].
    + split; [intros Hlt; specialize (He6 Hlt); split; [|exact He6]|intros ->; red; lia]. destruct He6 as (_ & _ & _ & Hge & _). rewrite Hge, He4. reflexivity.
  - cbn [opt_bind]. exists b1, (base + z). split; [reflexivity|]. split; [lia|]. split; [intros i Hi; rewrite <- Hg; apply Hrun'; lia|].
    split; [|intros He'; red; cbn [b1 rr_pos rr_length]; lia]. intros Hlt. assert (Hz64 : z < 64). { destruct (Z.eqb_spec z 64); [|lia]. rewrite (proj2 (Z.ltb_lt _ _) Hlt) in Eadv. discriminate. }
    assert (Hge : g (base + z) = negb cur) by (apply Hend; lia). split; [exact Hge|]. split; [reflexivity|]. split; [reflexivity|]. split; [lia|]. split; [exact Hge|].
    exists base. cbn [b1 rr_bitmap rr_word rr_curRunBitSet]. split; [lia|]. split; [exact Hm|]. split; [lia|]. split; [exact Hbm|].
    split; [split; [apply Z.ldiff_nonneg; left; apply not64_range; exact Hr|apply word_bound; [lia|apply Z.ldiff_nonneg; left; apply not64_range; exact Hr|]; intros j Hj; subst W; rewrite Z.ldiff_spec, (high_bits 64) by (try apply not64_range; lia); reflexivity]|].
    split.
    + intros i Hi. rewrite HWb by lia. bool_lia (i <? p - base). cbn [negb andb]. rewrite Hw by lia. subst cur. now destruct (g (base + i)), (rr_curRunBitSet b).
    + intros Hn. rewrite HWb by lia. bool_lia (length - base <? p - base). cbn [negb andb]. rewrite He by lia. subst cur. now destruct (g (length - 1)), (rr_curRunBitSet b).
Qed.
End Reader.

Lemma NewBitRunReader_ok bitmap offset length :
  bytes bitmap -> 8 * len bitmap < 2 ^ 63 - 7 -> 0 <= offset -> 0 < length -> offset + length <= 8 * len bitmap ->
  exists b, BRR.NewBitRunReader bitmap offset length = Some b /\
    runReaderAt (skipn (Z.to_nat (offset / 8)) bitmap) (offset mod 8 + length) b (offset mod 8).
Proof.
  intros Hb Hsz Ho Hl Hfit. unfold BRR.NewBitRunReader. rewrite Z.quot_div_nonneg, Z.rem_mod_nonneg by lia. assert (Hq : offset = 8 * (offset / 8) + offset mod 8 /\ 0 <= offset mod 8 < 8 /\ 0 <= offset / 8) by zdiv.
  rewrite dropBytes_ok by lia. cbn [opt_bind]. bool_lia (length =? 0). rewrite BitIsNotSet_ok by (first [lia|split; [assumption|lia]]). cbn [opt_bind].
  set (bm := skipn _ _). set (cur := negb _). assert (Hbm : bytes bm) by (subst bm; auto with gobytes). assert (HLb : len bm = len bitmap - offset / 8) by (subst bm; rewrite length_skipn; lia).
  assert (Hg0 : g bm (offset mod 8) = negb cur).
  { subst cur. rewrite negb_involutive. unfold g, bm. rewrite leval_skipn, Z.div_pow2_bits by (auto; lia). f_equal. lia. }
  destruct (loadRunWord_ok bm (length + offset mod 8) cur Hbm ltac:(lia) ltac:(lia)) as (w & -> & Hr & Hw & He). cbn [opt_bind]. eexists. split; [reflexivity|].
  assert (Hbits : forall i, 0 <= i < 64 -> Z.testbit (Z.ldiff w (LeastSignificantBitMask (offset mod 8))) i = Z.testbit w i && negb (i <? offset mod 8)) by (intros i Hi; rewrite Z.ldiff_spec, LSM_bit by lia; reflexivity).
  split; [reflexivity|]. split; [reflexivity|]. split; [lia|]. split; [exact Hg0|]. exists 0. cbn [rr_bitmap rr_word rr_curRunBitSet]. rewrite !Z.sub_0_r.
  split; [lia|]. split; [reflexivity|]. split; [lia|]. split; [reflexivity|].
  split; [split; [apply Z.ldiff_nonneg; lia|apply word_bound; [lia|apply Z.ldiff_nonneg; lia|]; intros j Hj; rewrite Z.ldiff_spec, (high_bits 64) by lia; reflexivity]|]. split.
  - intros i Hi. rewrite Hbits by lia. bool_lia (i <? offset mod 8). cbn [negb]. rewrite andb_true_r, Hw by lia. reflexivity.
  - intros Hn. rewrite Hbits by lia. bool_lia (offset mod 8 + length <? offset mod 8). cbn [negb]. rewrite andb_true_r. rewrite (Z.add_comm (offset mod 8) length). rewrite He by lia. reflexivity.
Qed.

(** ** Runs by bit of the bitmap *)

(** The reader of a range that ends at bit [hi] of the bitmap is at bit [lo]. *)
Definition runsAt (bitmap : list Z) (lo hi : Z) (b : bitRunReader) : Prop :=
  (lo < hi /\ exists q, 0 <= q /\ runReaderAt (skipn (Z.to_nat q) bitmap) (hi - 8 * q) b (lo - 8 * q)) \/ (lo = hi /\ runReaderDone b).

Lemma g_skipn bitmap q i : bytes bitmap -> 0 <= q -> 0 <= i -> g (skipn (Z.to_nat q) bitmap) i = Z.testbit (leval bitmap) (8 * q + i).
Proof. intros Hb Hq Hi. unfold g. rewrite leval_skipn, Z.div_pow2_bits by (auto; lia). f_equal. lia. Qed.

Lemma runsAt_new bitmap offset n :
  bytes bitmap -> 8 * len bitmap < 2 ^ 63 - 7 -> 0 <= offset -> 0 <= n -> offset + n <= 8 * len bitmap ->
  exists b, BRR.NewBitRunReader bitmap offset n = Some b /\ runsAt bitmap offset (offset + n) b.
Proof.
  intros Hb Hsz Ho Hl Hfit. destruct (Z.eq_dec n 0) as [->|Hne].
  - unfold BRR.NewBitRunReader. rewrite Z.quot_div_nonneg by lia. assert (0 <= offset / 8 <= len bitmap) by zdiv. rewrite dropBytes_ok by lia. cbn [opt_bind Z.eqb]. eexists. split; [reflexivity|].
    right. split; [lia|red; cbn [rr_pos rr_length]; lia].
  - destruct (NewBitRunReader_ok bitmap offset n Hb Hsz Ho ltac:(lia) Hfit) as (b & HE & HR). exists b. split; [exact HE|]. left. split; [lia|]. exists (offset / 8). split; [zdiv|].
    replace (offset + n - 8 * (offset / 8)) with (offset mod 8 + n) by zdiv. replace (offset - 8 * (offset / 8)) with (offset mod 8) by zdiv. exact HR.
Qed.

Lemma runsAt_next bitmap lo hi b :
  bytes bitmap -> 8 * len bitmap < 2 ^ 63 - 7 -> hi <= 8 * len bitmap -> runsAt bitmap lo hi b -> lo < hi ->
  exists b' e, BRR.NextRun b = Some (b', mkBitRun (e - lo) (Z.testbit (leval bitmap) lo)) /\ lo < e <= hi /\
    (forall i, lo <= i < e -> Z.testbit (leval bitmap) i = Z.testbit (leval bitmap) lo) /\
    (e < hi -> Z.testbit (leval bitmap) e = negb (Z.testbit (leval bitmap) lo)) /\ runsAt bitmap e hi b'.
Proof.
  intros Hb Hsz Hhi [[_ (q & Hq & HR)]|[? _]] Hlt; [|lia]. pose proof HR as (_ & _ & Hp & _). set (bm := skipn (Z.to_nat q) bitmap) in *.
  assert (Hbits : forall i, 8 * q <= i -> g bm (i - 8 * q) = Z.testbit (leval bitmap) i) by (intros i Hi; subst bm; rewrite g_skipn by (auto; lia); f_equal; lia).
  destruct (NextBitRun_ok bm (hi - 8 * q)) with (b := b) (p := lo - 8 * q) as (b' & e & HE & He & Hrun & Hmore & Hdone); [subst bm; auto with gobytes|subst bm; rewrite length_skipn; lia|subst bm; rewrite length_skipn; lia|exact HR|].
  rewrite Hbits in HE by lia. exists b', (e + 8 * q). split; [rewrite HE; do 3 f_equal; lia|]. split; [lia|]. split.
  { intros i Hi. rewrite <- !Hbits by lia. apply Hrun. lia. } split.
  { intros Hlt'. destruct (Hmore ltac:(lia)) as [Hge _]. rewrite <- !Hbits by lia. rewrite <- Hge. f_equal. lia. }
  destruct (Z.eq_dec e (hi - 8 * q)) as [He'|Hne]; [right; split; [lia|now apply Hdone]|]. left. split; [lia|]. exists q. split; [exact Hq|]. destruct (Hmore ltac:(lia)) as [_ HR']. replace (e + 8 * q - 8 * q) with e by lia. exact HR'.
Qed.

Lemma runsAt_done bitmap hi b : runsAt bitmap hi hi b -> BRR.NextRun b = Some (b, mkBitRun 0 false).
Proof. intros [[? _]|[_ Hd]]; [lia|]. now apply NextRun_done. Qed.

(** ** All runs *)

(** The runs of a sequence of bits: the reference. *)
Fixpoint groupRuns (l : list bool) : list (Z * bool) :=
  match l with
  | [] => []
  | v :: l' =>
      match groupRuns l' with
      | (n, v') :: rs => if Bool.eqb v v' then (n + 1, v) :: rs else (1, v) :: (n, v') :: rs
      | [] => [(1, v)]
      end
  end.

Lemma groupRuns_run v n l : (0 < n)%nat -> (forall v' l', l = v' :: l' -> v' = negb v) -> groupRuns (repeat v n ++ l) = (Z.of_nat n, v) :: groupRuns l.
Proof.
  intros Hn Hl. induction n as [|n IH]; [lia|]. cbn [repeat app groupRuns]. destruct n as [|n].
  - cbn [repeat app]. destruct l as [|v' l']; [reflexivity|]. rewrite (Hl v' l' eq_refl). cbn [groupRuns].
    destruct (groupRuns l') as [|[m u] rs]; cbn [groupRuns]; [now destruct v|]. destruct u, v; cbn; reflexivity.
  - rewrite IH by lia. rewrite eqb_reflx. f_equal. f_equal. lia.
Qed.

(** The bits from [p] on. *)
Definition bitsFrom (f : Z -> bool) (p : Z) (n : nat) : list bool := map (fun k => f (p + Z.of_nat k)) (seq 0 n).

Lemma bitsFrom_app f p a b : bitsFrom f p (a + b) = bitsFrom f p a ++ bitsFrom f (p + Z.of_nat a) b.
Proof.
  unfold bitsFrom. rewrite seq_app, map_app. f_equal. rewrite Nat.add_0_l. replace (seq a b) with (map (fun k => (a + k)%nat) (seq 0 b)).
  - rewrite map_map. apply map_ext. intros k. f_equal. lia.
  - clear. revert a. induction b as [|b IH]; intros a; [reflexivity|]. cbn [seq map]. rewrite Nat.add_0_r. f_equal. rewrite <- seq_shift, map_map, <- (IH (S a)). apply map_ext. intros. lia.
Qed.

Lemma bitsFrom_run f p n v : (forall i, p <= i < p + Z.of_nat n -> f i = v) -> bitsFrom f p n = repeat v n.
Proof.
  intros Hf. unfold bitsFrom. rewrite <- (length_seq n 0) at 2. assert (HF : forall k, In k (seq 0 n) -> f (p + Z.of_nat k) = v) by (intros k Hk; apply in_seq in Hk; apply Hf; lia).
  revert HF. generalize (seq 0 n). intros l. induction l as [|k l IH]; intros HF; [reflexivity|]. cbn [map List.length repeat]. rewrite HF by (now left). f_equal. apply IH. intros; apply HF. now right.
Qed.

Lemma readBitRuns_ok bm length fuel b p :
  bytes bm -> 8 * len bm < 2 ^ 63 - 7 -> length <= 8 * len bm -> runReaderAt bm length b p -> length - p < Z.of_nat fuel ->
  readBitRuns fuel b = Some (groupRuns (bitsFrom (g bm) p (Z.to_nat (length - p)))).
Proof.
  intros Hb Hsz Hlen. revert b p. induction fuel as [|fuel IH]; intros b p HR Hf; [destruct HR as (_ & _ & Hp & _); lia|]. cbn [readBitRuns].
  destruct (NextBitRun_ok bm length Hb Hsz Hlen b p HR) as (b' & e & -> & He & Hrun & Hmore & Hdone). cbn [opt_bind RunLen RunSet]. bool_lia (e - p =? 0).
  replace (Z.to_nat (length - p)) with (Z.to_nat (e - p) + Z.to_nat (length - e))%nat by lia. rewrite bitsFrom_app, Z2Nat.id by lia. replace (p + (e - p)) with e by lia.
  rewrite (bitsFrom_run _ p (Z.to_nat (e - p)) (g bm p)) by (intros; apply Hrun; lia). rewrite groupRuns_run; [rewrite Z2Nat.id by lia|lia|].
  - destruct (Z.eq_dec e length) as [->|Hne].
    + rewrite Z.sub_diag. destruct fuel as [|fuel]; [lia|]. cbn [readBitRuns]. rewrite NextRun_done by (apply Hdone; reflexivity). cbn [opt_bind RunLen Z.eqb]. reflexivity.
    + destruct (Hmore ltac:(lia)) as [_ HR']. rewrite (IH b' e HR' ltac:(lia)). reflexivity.
  - intros v' l' HE. destruct (Z.to_nat (length - e)) as [|k] eqn:Ek; [discriminate|]. unfold bitsFrom in HE. cbn [seq map] in HE. rewrite Z.add_0_r in HE.
    destruct (Hmore ltac:(lia)) as [Hge _]. congruence.
Qed.

(** ** Claims *)

(** The bit run reader returns the maximal runs of equal bits of the range, alternating and
    with their lengths, then empty runs; it reads inside the bitmap only. *)
Theorem bit_run_reader_correct bitmap offset length fuel :
  bytes bitmap -> 8 * len bitmap < 2 ^ 63 - 7 -> 0 <= offset -> 0 <= length -> offset + length <= 8 * len bitmap -> length < Z.of_nat fuel ->
  exists b, BRR.NewBitRunReader bitmap offset length = Some b /\
    readBitRuns fuel b = Some (groupRuns (bitsFrom (Z.testbit (leval bitmap)) offset (Z.to_nat length))).
Proof.
  intros Hb Hsz Ho Hl Hfit Hf. destruct (Z.eq_dec length 0) as [->|Hne].
  - unfold BRR.NewBitRunReader. rewrite Z.quot_div_nonneg by lia. assert (0 <= offset / 8 <= len bitmap) by zdiv. rewrite dropBytes_ok by lia. cbn [opt_bind Z.eqb]. eexists. split; [reflexivity|].
    destruct fuel as [|fuel]; [lia|]. cbn [readBitRuns]. rewrite NextRun_done by (red; cbn [rr_pos rr_length]; lia). reflexivity.
  - destruct (NewBitRunReader_ok bitmap offset length Hb Hsz Ho ltac:(lia) Hfit) as (b & HE & HR). exists b. split; [exact HE|]. assert (Hq : offset = 8 * (offset / 8) + offset mod 8 /\ 0 <= offset / 8) by zdiv.
    rewrite (readBitRuns_ok (skipn (Z.to_nat (offset / 8)) bitmap) (offset mod 8 + length) fuel b _ ltac:(auto with gobytes) ltac:(rewrite length_skipn; lia) ltac:(rewrite length_skipn; lia) HR) by lia. do 2 f_equal.
    replace (offset mod 8 + length - offset mod 8) with length by lia. apply map_ext. intros k. unfold g. rewrite leval_skipn, Z.div_pow2_bits by (auto; zdiv). f_equal. lia.
Qed.

