(* ===== verification/BitWriter.v ===== *)
(** * Writing bit-packed values (parquet/internal/utils/bit_writer.go)

    - [WriterAt]: the interface [WriterAtWithLen] a [BitWriter] writes through, as a
      class of operations, with its contract [WriterAtOk]: a write that has room stores
      its bytes and leaves the others alone;
    - [WriterAtBuffer]: the fixed-size implementation in the same file;
    - [BitWriter]: values are collected in a 64-bit buffer and written eight bytes at a
      time.

    [holds w cells] describes the memory behind a writer cell by cell ([None]: reserved,
    not yet written); [bwAt b pre v n] says that, after the cells [pre], the writer has
    taken [n] bits whose little-endian value is [v], whether they are still in its buffer
    or not.  Every operation of [BitWriter] is specified with it. *)

From Stdlib Require Import ZArith List Lia Bool String.
From S2P Require Import Prelude GoStd BitUtil.
Import ListNotations.
#[local] Open Scope Z_scope.
#[local] Open Scope go_scope.

(** ** The interface [WriterAtWithLen] *)

(** [wbuf] is the memory that has been allocated, from offset 0. *)
Class WriterAt (W : Type) : Type := {
  wbuf : W -> list Z;
  WriteAt : W -> list Z -> Z -> W * Z * option goerr;
  Len : W -> Z;
  Reserve : W -> Z -> W
}.

(** [cells] is the start of the memory [m]; of some bytes only that they are there is known. *)
Definition cellsOf (m : list Z) (cells : list (option Z)) : Prop :=
  (forall i b, nth_error cells i = Some (Some b) -> nth_error m i = Some b) /\
  (List.length cells <= List.length m)%nat.

Definition holds {W} `{WriterAt W} (w : W) (cells : list (option Z)) : Prop := cellsOf (wbuf w) cells.

(** [p] written over [cells] at [off]. *)
Definition overlay (cells : list (option Z)) (off : nat) (p : list Z) : list (option Z) :=
  firstn off cells ++ map Some p ++ skipn (off + List.length p) cells.

(** What a client may rely on: [wok] is the writer's invariant, [room w n] says that the
    first [n] bytes can be written. *)
Class WriterAtOk (W : Type) `{WriterAt W} : Type := {
  wok : W -> Prop;
  room : W -> Z -> Prop;
  room_le : forall w n m, room w n -> m <= n -> room w m;
  WriteAt_ok : forall w p off, wok w -> bytes p -> 0 <= off -> room w (off + len p) ->
    exists w', WriteAt w p off = (w', len p, None) /\ wok w' /\
      (forall n, room w n -> room w' n) /\
      (forall cells, holds w cells -> off <= len cells -> holds w' (overlay cells (Z.to_nat off) p));
  Reserve_ok : forall w n, wok w -> wok (Reserve w n) /\
      (forall m, room w m -> room (Reserve w n) m) /\
      (forall cells k, holds w cells -> n = len cells + Z.of_nat k -> room w n ->
         holds (Reserve w n) (cells ++ repeat None k))
}.

(** ** WriterAtBuffer: a fixed slice *)
Module WriterAtBuffer.

Record t := mk { buf : list Z }.

Definition new (b : list Z) : t := mk b.

Definition LenOf (w : t) : Z := len (buf w).

(** [n = copy(w.buf[off:], p)]; a short copy is an error. *)
Definition writeAt (w : t) (p : list Z) (off : Z) : t * Z * option goerr :=
  if len (buf w) <? off then (w, 0, Some ErrUnexpectedEOF)
  else
    let n := Z.min (len p) (len (buf w) - off) in
    (mk (splice (buf w) (Z.to_nat off) p), n,
     if n <? len p then Some ErrUnexpectedEOF else None).

(** [Reserve] is a no-op. *)
Definition reserve (w : t) (nbytes : Z) : t := w.

#[export] Instance WriterAt_WriterAtBuffer : WriterAt t :=
  { wbuf := buf; WriteAt := writeAt; Len := LenOf; Reserve := reserve }.

End WriterAtBuffer.
Export (hints) WriterAtBuffer.

(** ** BitWriter *)

(** The scratch arrays [raw] and [buf] of the struct are overwritten before every use
    and are not part of the state. *)
Record BitWriter (W : Type) : Type := mkBW {
  bw_wr : W;
  bw_buffer : Z;
  bw_byteoffset : Z;
  bw_bitoffset : Z
}.
Arguments mkBW {W}.
Arguments bw_wr {W}.
Arguments bw_buffer {W}.
Arguments bw_byteoffset {W}.
Arguments bw_bitoffset {W}.

(** [x >> n] with an unsigned shift count. *)
Definition shr64 (x n : Z) : Z := if u64 n <? 64 then x >> u64 n else 0.

Module BW.
Section Ops.
Context {W : Type} `{WriterAt W}.
Implicit Types b : BitWriter W.

Definition NewBitWriter (w : W) : BitWriter W := mkBW w 0 0 0.

(** [Flush(align)]: the bytes of the buffer that hold bits are written; their error is
    not looked at. The theorems are about writers whose bit offset is below 64 ([at_bits]); a
    failed write can leave it beyond 64, where Go's [b.raw[:nbytes]] panics, which is not modelled. *)
Definition Flush (align : bool) b : BitWriter W :=
  let nbytes := if 0 <? bw_bitoffset b then BytesForBits (bw_bitoffset b) else 0 in
  let wr :=
    if 0 <? bw_bitoffset b
    then fst (fst (WriteAt (bw_wr b) (firstn (Z.to_nat nbytes) (lebytes 8 (bw_buffer b))) (bw_byteoffset b)))
    else bw_wr b in
  if align then mkBW wr 0 (bw_byteoffset b + nbytes) 0
  else mkBW wr (bw_buffer b) (bw_byteoffset b) (bw_bitoffset b).

(** [SkipBytes(nbytes)]: the offset of the reserved bytes. *)
Definition SkipBytes b (nbytes : Z) : BitWriter W * Z :=
  let b1 := Flush true b in
  let ret := bw_byteoffset b1 in
  let off := ret + nbytes in
  (mkBW (Reserve (bw_wr b1) off) (bw_buffer b1) off (bw_bitoffset b1), ret).

(** [WriteAt(val, off)] on the underlying writer. *)
Definition WriteAtBW b (val : list Z) (off : Z) : BitWriter W * Z * option goerr :=
  let '(wr, n, e) := WriteAt (bw_wr b) val off in
  (mkBW wr (bw_buffer b) (bw_byteoffset b) (bw_bitoffset b), n, e).

Definition Written b : Z := bw_byteoffset b + BytesForBits (bw_bitoffset b).

(** [WriteValue(v, nbits)] *)
Definition WriteValue b (v nbits : Z) : BitWriter W * option goerr :=
  let buffer := Z.lor (bw_buffer b) (u64 (Z.shiftl v (bw_bitoffset b))) in
  let bitoffset := bw_bitoffset b + nbits in
  if 64 <=? bitoffset then
    let '(wr, _, e) := WriteAt (bw_wr b) (lebytes 8 buffer) (bw_byteoffset b) in
    match e with
    | Some e => (mkBW wr buffer (bw_byteoffset b) bitoffset, Some e)
    | None =>
        let bitoffset' := bitoffset - 64 in
        (mkBW wr (shr64 v (nbits - bitoffset')) (bw_byteoffset b + 8) bitoffset', None)
    end
  else (mkBW (bw_wr b) buffer (bw_byteoffset b) bitoffset, None).

(** [WriteValues(values, nbits)]: the same loop body on local copies of the fields,
    stored back at the end and on an error. *)
Fixpoint WriteValues b (values : list Z) (nbits : Z) : BitWriter W * option goerr :=
  match values with
  | [] => (b, None)
  | v :: values' =>
      let buffer := Z.lor (bw_buffer b) (u64 (Z.shiftl v (bw_bitoffset b))) in
      let bitoffset := bw_bitoffset b + nbits in
      if 64 <=? bitoffset then
        let '(wr, _, e) := WriteAt (bw_wr b) (lebytes 8 buffer) (bw_byteoffset b) in
        match e with
        | Some e => (mkBW wr buffer (bw_byteoffset b) bitoffset, Some e)
        | None =>
            let bitoffset' := bitoffset - 64 in
            WriteValues
              (mkBW wr (shr64 v (nbits - bitoffset')) (bw_byteoffset b + 8) bitoffset') values' nbits
        end
      else WriteValues (mkBW (bw_wr b) buffer (bw_byteoffset b) bitoffset) values' nbits
  end.

(** [WriteAligned(val, nbytes)]: true when the write succeeded. *)
Definition WriteAligned b (val nbytes : Z) : BitWriter W * bool :=
  let b1 := Flush true b in
  let '(wr, _, e) := WriteAt (bw_wr b1) (firstn (Z.to_nat nbytes) (lebytes 8 val)) (bw_byteoffset b1) in
  match e with
  | Some _ => (mkBW wr (bw_buffer b1) (bw_byteoffset b1) (bw_bitoffset b1), false)
  | None => (mkBW wr (bw_buffer b1) (bw_byteoffset b1 + nbytes) (bw_bitoffset b1), true)
  end.

(** [WriteVlqInt(v)] *)
Definition WriteVlqInt b (v : Z) : BitWriter W * bool :=
  let b1 := Flush true b in
  let p := Binary.PutUvarint v in
  let '(wr, _, e) := WriteAt (bw_wr b1) p (bw_byteoffset b1) in
  match e with
  | Some _ => (mkBW wr (bw_buffer b1) (bw_byteoffset b1) (bw_bitoffset b1), false)
  | None => (mkBW wr (bw_buffer b1) (bw_byteoffset b1 + len p) (bw_bitoffset b1), true)
  end.

(** [WriteZigZagVlqInt(v)]: [uint64((v << 1) ^ (v >> 63))]. *)
Definition zigzag (v : Z) : Z := u64 (Z.lxor (i64 (Z.shiftl v 1)) (v >> 63)).

Definition WriteZigZagVlqInt b (v : Z) : BitWriter W * bool := WriteVlqInt b (zigzag v).

Definition Clear b : BitWriter W := mkBW (bw_wr b) 0 0 0.

End Ops.
End BW.

(** ** Memory cells *)

Section Cells.
Context {W : Type} `{WriterAt W}.

Lemma holds_app_l (w : W) c1 c2 : holds w (c1 ++ c2) -> holds w c1.
Proof.
  intros [Hh HL]. rewrite length_app in HL. split; [|lia]. intros i b Hi. apply Hh. rewrite nth_error_app1; [assumption|].
  apply nth_error_Some. now rewrite Hi.
Qed.

(** Fully written cells are the memory's prefix. *)
Lemma holds_firstn (w : W) bs : holds w (map Some bs) -> firstn (List.length bs) (wbuf w) = bs.
Proof.
  intros [Hh HL]. rewrite length_map in HL. apply (nth_ext_eq _ _ 0); rewrite length_firstn, Nat.min_l by lia; [reflexivity|].
  intros i Hi. rewrite nth_firstn. replace (i <? List.length bs)%nat with true by (symmetry; now apply Nat.ltb_lt).
  apply nth_error_nth. apply Hh. rewrite nth_error_map. now rewrite (nth_error_nth' bs 0 Hi).
Qed.

Lemma overlay_end cells p : overlay cells (List.length cells) p = cells ++ map Some p.
Proof.
  unfold overlay. rewrite firstn_all, skipn_all2, app_nil_r by lia. reflexivity.
Qed.

Lemma overlay_at pre p old post :
  List.length old = List.length p ->
  overlay (pre ++ old ++ post) (List.length pre) p = pre ++ map Some p ++ post.
Proof.
  intros HL. unfold overlay. rewrite firstn_app, firstn_all, Nat.sub_diag, firstn_O, app_nil_r.
  do 2 f_equal. rewrite app_assoc, skipn_app, skipn_all2 by (rewrite length_app; lia).
  rewrite length_app. replace (_ - _)%nat with O by lia. reflexivity.
Qed.
End Cells.

(** A copy into the memory, on the cells. *)
Lemma splice_cells (m p : list Z) (cells : list (option Z)) off :
  (off + List.length p <= List.length m)%nat -> (off <= List.length cells)%nat ->
  cellsOf m cells -> cellsOf (splice m off p) (overlay cells off p).
Proof.
  intros HL Hc [Hh Hlen]. split.
  2:{ unfold overlay. rewrite length_splice, !length_app, length_firstn, length_map, length_skipn by lia. lia. }
  intros i b Hi. rewrite splice_in by lia. unfold overlay in Hi.
  destruct (Nat.lt_ge_cases i off) as [Hlt|Hge].
  - rewrite nth_error_app1 in Hi by (rewrite length_firstn; lia).
    rewrite nth_error_app1 by (rewrite length_firstn; lia). rewrite nth_error_firstn in *.
    destruct (i <? off)%nat; [now apply Hh|discriminate].
  - rewrite nth_error_app2 in Hi by (rewrite length_firstn; lia).
    rewrite nth_error_app2 by (rewrite length_firstn; lia).
    rewrite length_firstn, Nat.min_l in Hi by lia. rewrite length_firstn, Nat.min_l by lia.
    destruct (Nat.lt_ge_cases (i - off) (List.length p)).
    + rewrite nth_error_app1 in Hi by (rewrite length_map; lia). rewrite nth_error_app1 by lia.
      rewrite nth_error_map in Hi. destruct (nth_error p _); cbn in Hi; congruence.
    + rewrite nth_error_app2 in Hi by (rewrite length_map; lia). rewrite nth_error_app2 by lia.
      rewrite length_map, nth_error_skipn in Hi. rewrite nth_error_skipn. apply Hh.
      replace (off + List.length p + (i - off - List.length p))%nat with i in * by lia. exact Hi.
Qed.

(** Memory that is there and not known. *)
Lemma cellsOf_none m t cells k :
  cellsOf m cells -> (List.length cells + k <= List.length (m ++ t))%nat -> cellsOf (m ++ t) (cells ++ repeat None k).
Proof.
  intros [Hh HL] Hk. split; [|rewrite length_app, repeat_length; lia].
  intros i b Hi. destruct (Nat.lt_ge_cases i (List.length cells)).
  - rewrite nth_error_app1 in Hi by assumption. specialize (Hh i b Hi). rewrite nth_error_app1; [assumption|].
    apply nth_error_Some. rewrite Hh. discriminate.
  - rewrite nth_error_app2 in Hi by assumption. apply nth_error_In, repeat_spec in Hi. discriminate.
Qed.

(** The fixed slice keeps the contract. *)
#[export] Instance WriterAtBuffer_ok : WriterAtOk WriterAtBuffer.t.
Proof.
  refine {| wok := fun w => bytes (WriterAtBuffer.buf w);
            room := fun w n => n <= len (WriterAtBuffer.buf w) |}.
  - intros; lia.
  - intros [buf] p off Hb Hp Hoff Hroom. cbn in Hb, Hroom |- *.
    unfold WriterAtBuffer.writeAt. cbn [WriterAtBuffer.buf].
    rewrite Z.min_l by lia. cmp_lia. eexists; split; [reflexivity|]. cbn [WriterAtBuffer.buf].
    split; [auto with gobytes|]. rewrite length_splice by lia. split; [auto|].
    intros cells Hh Hc. apply splice_cells; [lia|lia|exact Hh].
  - intros [buf] n Hw. cbn. splits; auto. intros cells k Hh -> Hroom. red in Hh. cbn in Hh |- *.
    red. cbn. rewrite <- (app_nil_r buf). apply cellsOf_none; [exact Hh|]. rewrite app_nil_r. lia.
Defined.

(** ** What the writer has taken *)

Section Spec.
Context {W : Type} `{WOk : WriterAtOk W}.
Implicit Types (b : BitWriter W) (pre : list (option Z)).

(** After the cells [pre] the writer has taken [n] bits of value [v]; the first [R] bytes
    of its memory can be written. *)
Record bwAt (R : Z) b pre (v n : Z) : Prop := mkBwAt {
  at_wok : wok (bw_wr b);
  at_room : room (bw_wr b) R;
  at_bits : 0 <= bw_bitoffset b < 64;
  at_buf : fits (bw_bitoffset b) (bw_buffer b);
  at_bytes : exists bs, bytes bs /\ bw_byteoffset b = len pre + len bs /\
    holds (bw_wr b) (pre ++ map Some bs) /\
    v = leval bs + 2 ^ (8 * len bs) * bw_buffer b /\
    n = 8 * len bs + bw_bitoffset b
}.

(** Nothing is buffered and the memory holds [cells]. *)
Record bwAligned (R : Z) b (cells : list (option Z)) : Prop := mkAligned {
  al_wok : wok (bw_wr b);
  al_room : room (bw_wr b) R;
  al_buf : bw_buffer b = 0;
  al_bit : bw_bitoffset b = 0;
  al_off : bw_byteoffset b = len cells;
  al_holds : holds (bw_wr b) cells
}.

Lemma bwAligned_at R b cells : bwAligned R b cells -> bwAt R b cells 0 0.
Proof.
  intros []. constructor; auto; rewrite ?al_bit0, ?al_buf0; [lia|red; cbn; lia|].
  exists []. cbn [map leval List.length]. rewrite app_nil_r, Z.mul_0_r. splits; auto; [constructor|lia].
Qed.

Lemma NewBitWriter_aligned R (w : W) : wok w -> room w R -> bwAligned R (BW.NewBitWriter w) [].
Proof. intros. constructor; auto. split; [|cbn; lia]. intros i c Hi. destruct i; discriminate. Qed.

Lemma Clear_aligned R b : wok (bw_wr b) -> room (bw_wr b) R -> bwAligned R (BW.Clear b) [].
Proof. intros. constructor; auto. split; [|cbn; lia]. intros i c Hi. destruct i; discriminate. Qed.

(** A write of whole bytes right after [cells]. *)
Lemma write_end (w : W) R cells p :
  wok w -> room w R -> bytes p -> holds w cells -> len cells + len p <= R ->
  exists w', WriteAt w p (len cells) = (w', len p, None) /\ wok w' /\ room w' R /\
    holds w' (cells ++ map Some p).
Proof.
  intros Hw Hr Hp Hh HR.
  destruct (WriteAt_ok w p (len cells)) as (w' & HE & Hw' & Hroom & Hcells);
    [assumption|assumption|lia|eapply room_le; eauto|].
  exists w'. splits; auto. rewrite <- overlay_end, <- (Nat2Z.id (List.length cells)).
  apply Hcells; [assumption|lia].
Qed.

Lemma value_push x v n m :
  0 <= n < 64 -> fits n x -> 0 <= m <= 64 -> fits m v -> n + m < 64 ->
  Z.lor x (u64 (Z.shiftl v n)) = x + 2 ^ n * v /\ fits (n + m) (x + 2 ^ n * v).
Proof.
  unfold fits, u64. intros Hn Hx Hm Hv Hlt. rewrite shiftl_mul by lia.
  pose proof (pow2_pos n). pose proof (pow2_pos m). pose proof (pow2_le (n + m) 64).
  rewrite (Z.pow_add_r 2 n m) in * by lia.
  rewrite Z.mod_small by nia. rewrite lor_disjoint by lia. nia.
Qed.

Lemma value_spill x v n m :
  0 <= n < 64 -> fits n x -> 0 <= m <= 64 -> fits m v -> 64 <= n + m ->
  Z.lor x (u64 (Z.shiftl v n)) = (x + 2 ^ n * v) mod 2 ^ 64 /\
  shr64 v (m - (n + m - 64)) = (x + 2 ^ n * v) / 2 ^ 64 /\
  fits (n + m - 64) ((x + 2 ^ n * v) / 2 ^ 64).
Proof.
  unfold fits. intros Hn Hx Hm Hv Hge. pose proof (pow2_pos n). pose proof (pow2_pos (64 - n)).
  assert (H64 : 2 ^ 64 = 2 ^ n * 2 ^ (64 - n)) by (apply pow2_sub; lia).
  assert (Hdiv : (x + 2 ^ n * v) / 2 ^ 64 = v / 2 ^ (64 - n)).
  { rewrite H64, <- Z.div_div by lia. rewrite (Z.mul_comm (2 ^ n) v), Z.div_add by lia. rewrite (Z.div_small x) by lia.
    f_equal; lia. }
  split; [|split].
  - rewrite shiftl_mul by lia. unfold u64. rewrite (Z.mul_comm v).
    replace ((2 ^ n * v) mod 2 ^ 64) with ((v mod 2 ^ (64 - n)) * 2 ^ n)
      by (rewrite H64, Z.mul_mod_distr_l by lia; lia).
    rewrite lor_disjoint by lia. rewrite H64, Z.rem_mul_r by lia.
    rewrite (Z.mul_comm (2 ^ n) v), Z.div_add, Z.mod_add by lia.
    rewrite Z.div_small, (Z.mod_small x) by lia. rewrite Z.add_0_l. lia.
  - rewrite Hdiv. unfold shr64, u64. replace (m - (n + m - 64)) with (64 - n) by lia.
    rewrite Z.mod_small by lia. destruct (Z.ltb_spec (64 - n) 64); [apply shiftr_div; lia|].
    assert (n = 0) by lia. subst n. symmetry; apply Z.div_small.
    pose proof (pow2_le m 64). lia.
  - rewrite Hdiv. split; [apply Z.div_pos; lia|]. apply Z.div_lt_upper_bound; [lia|].
    rewrite <- Z.pow_add_r by lia. replace (64 - n + (n + m - 64)) with m by lia. lia.
Qed.

(** One step shared by [WriteValue] and [WriteValues]. *)
Lemma WriteValue_ok R b pre v n x m :
  bwAt R b pre v n -> 0 <= m <= 64 -> fits m x -> len pre + (n + m + 7) / 8 <= R ->
  exists b', BW.WriteValue b x m = (b', None) /\ bwAt R b' pre (v + 2 ^ n * x) (n + m).
Proof.
  intros [Hw Hr Hbit Hbuf (bs & Hbs & Hoff & Hh & -> & ->)] Hm Hx HR. unfold BW.WriteValue.
  destruct (Z.leb_spec 64 (bw_bitoffset b + m)) as [Hge|Hlt].
  - destruct (value_spill _ _ _ _ Hbit Hbuf Hm Hx Hge) as (-> & -> & Hfit).
    set (T := bw_buffer b + 2 ^ bw_bitoffset b * x) in *.
    set (word := lebytes 8 (T mod 2 ^ 64)).
    assert (Hlen : len (pre ++ map Some bs) = bw_byteoffset b) by (rewrite length_app, length_map; lia).
    assert (Hword : len word = 8) by (subst word; now rewrite length_lebytes).
    destruct (write_end (bw_wr b) R (pre ++ map Some bs) word) as (w' & HE & Hw' & Hr' & Hh');
      [assumption|assumption|subst word; auto with gobytes|assumption| |].
    { rewrite Hlen, Hword, Hoff. assert (len bs + 8 <= (8 * len bs + bw_bitoffset b + m + 7) / 8) by zdiv. lia. }
    rewrite Hlen in HE. rewrite HE. eexists; split; [reflexivity|].
    constructor; cbn [bw_wr bw_bitoffset bw_buffer bw_byteoffset]; auto; [lia|].
    exists (bs ++ word). rewrite map_app, app_assoc, length_app. splits; auto.
    + apply bytes_app; split; [assumption|subst word; auto with gobytes].
    + lia.
    + rewrite leval_app. assert (HWv : leval word = T mod 2 ^ 64).
      { subst word. rewrite leval_lebytes. change (8 * Z.of_nat 8) with 64. apply Z.mod_mod; lia. }
      rewrite HWv. replace (8 * Z.of_nat (List.length bs + List.length word)) with (8 * len bs + 64) by lia.
      rewrite (Z.pow_add_r 2 (8 * len bs) 64), (Z.pow_add_r 2 (8 * len bs) (bw_bitoffset b)) by lia.
      pose proof (Z.div_mod T (2 ^ 64)). subst T. lia.
    + lia.
  - destruct (value_push _ _ _ _ Hbit Hbuf Hm Hx Hlt) as (-> & Hfit).
    eexists; split; [reflexivity|]. constructor; cbn [bw_wr bw_bitoffset bw_buffer bw_byteoffset]; auto; [lia|].
    exists bs. splits; auto; [|lia].
    rewrite (Z.pow_add_r 2 (8 * len bs) (bw_bitoffset b)) by lia. lia.
Qed.

Lemma WriteValues_step b x xs m :
  BW.WriteValues b (x :: xs) m =
    match BW.WriteValue b x m with
    | (b', None) => BW.WriteValues b' xs m
    | (b', Some e) => (b', Some e)
    end.
Proof.
  cbn [BW.WriteValues]. unfold BW.WriteValue. destruct (64 <=? _); [|reflexivity].
  destruct (WriteAt _ _ _) as [[wr n] [e|]]; reflexivity.
Qed.

Lemma WriteValues_ok R b pre v n xs m :
  bwAt R b pre v n -> 0 <= m <= 64 -> Forall (fits m) xs -> 0 <= n ->
  len pre + (n + len xs * m + 7) / 8 <= R ->
  exists b', BW.WriteValues b xs m = (b', None) /\
    bwAt R b' pre (v + 2 ^ n * packed m xs) (n + len xs * m).
Proof.
  intros HA Hm HF Hn HR. revert b v n HA Hn HR. induction HF as [|x xs Hx _ IH]; intros b v n HA Hn HR.
  - exists b. cbn [BW.WriteValues packed List.length]. split; [reflexivity|].
    rewrite Z.mul_0_r, Z.mul_0_l, !Z.add_0_r. exact HA.
  - rewrite WriteValues_step. cbn [List.length] in *. rewrite Nat2Z.inj_succ, Z.mul_succ_l in HR.
    destruct (WriteValue_ok R b pre v n x m) as (b1 & -> & HA1); auto.
    { assert ((n + m + 7) / 8 <= (n + (len xs * m + m) + 7) / 8) by (apply Z.div_le_mono; nia). lia. }
    destruct (IH b1 _ _ HA1) as (b' & HE & HA'); [lia|replace (n + m + len xs * m) with (n + (len xs * m + m)) by lia; exact HR|].
    exists b'. split; [exact HE|]. cbn [packed].
    replace (v + 2 ^ n * (x + 2 ^ m * packed m xs)) with (v + 2 ^ n * x + 2 ^ (n + m) * packed m xs)
      by (rewrite Z.pow_add_r by lia; ring).
    replace (n + Z.of_nat (S (List.length xs)) * m) with (n + m + len xs * m) by lia. exact HA'.
Qed.

Lemma bwAt_bound R b pre v n : bwAt R b pre v n -> 0 <= n /\ 0 <= v < 2 ^ n.
Proof.
  intros [_ _ Hbit Hbuf (bs & Hbs & _ & _ & -> & ->)]. red in Hbuf. pose proof (leval_bound bs Hbs).
  pose proof (pow2_pos (8 * len bs)). rewrite Z.pow_add_r by lia. nia.
Qed.

(** The bytes a flush completes. *)
Definition flushed pre (v n : Z) : list (option Z) :=
  pre ++ map Some (lebytes (Z.to_nat ((n + 7) / 8)) v).

Lemma len_flushed pre v n : 0 <= n -> len (flushed pre v n) = len pre + (n + 7) / 8.
Proof.
  intros. unfold flushed. rewrite length_app, length_map, length_lebytes.
  assert (0 <= (n + 7) / 8) by zdiv. lia.
Qed.

Lemma Written_at R b pre v n : bwAt R b pre v n -> BW.Written b = len pre + (n + 7) / 8.
Proof.
  intros [_ _ Hbit _ (bs & _ & Hoff & _ & _ & ->)]. unfold BW.Written.
  rewrite BytesForBits_div by lia. rewrite Hoff. zdiv.
Qed.

(** What [Flush] writes, whether it aligns or not. *)
Lemma Flush_ok R b pre v n align :
  bwAt R b pre v n -> len pre + (n + 7) / 8 <= R ->
  holds (bw_wr (BW.Flush align b)) (flushed pre v n) /\
  (align = true -> bwAligned R (BW.Flush align b) (flushed pre v n)) /\
  (align = false -> bwAt R (BW.Flush align b) pre v n).
Proof.
  intros HA HR. pose proof HA as [Hw Hr Hbit Hbuf (bs & Hbs & Hoff & Hh & Hv & Hn)].
  pose proof (len_flushed pre v n ltac:(lia)) as HLF.
  unfold BW.Flush. destruct (Z.ltb_spec 0 (bw_bitoffset b)) as [Hpos|Hzero].
  - rewrite BytesForBits_div by lia. set (nb := (bw_bitoffset b + 7) / 8).
    assert (Hnb : 0 <= nb <= 8 /\ bw_bitoffset b <= 8 * nb /\ (n + 7) / 8 = len bs + nb)
      by (subst nb n; zdiv).
    rewrite firstn_lebytes by lia.
    assert (Hfl : flushed pre v n = (pre ++ map Some bs) ++ map Some (lebytes (Z.to_nat nb) (bw_buffer b))).
    { unfold flushed. rewrite <- app_assoc, <- map_app. do 2 f_equal. rewrite Hv.
      replace (Z.to_nat ((n + 7) / 8)) with (List.length bs + Z.to_nat nb)%nat by lia.
      apply lebytes_app; [assumption|]. red in Hbuf.
      pose proof (pow2_le (bw_bitoffset b) (8 * Z.of_nat (Z.to_nat nb))). lia. }
    assert (Hlen : len (pre ++ map Some bs) = bw_byteoffset b) by (rewrite length_app, length_map; lia).
    destruct (write_end (bw_wr b) R (pre ++ map Some bs) (lebytes (Z.to_nat nb) (bw_buffer b)))
      as (w' & HE & Hw' & Hr' & Hh'); [assumption|assumption|auto with gobytes|assumption| |].
    { rewrite Hlen, length_lebytes. lia. }
    rewrite Hlen in HE. rewrite HE. cbn [fst]. rewrite <- Hfl in Hh'.
    destruct align; cbn [bw_wr]; (split; [exact Hh'|split; intros E; [|]]); try discriminate.
    + constructor; cbn; auto. lia.
    + constructor; cbn; auto. exists bs. splits; auto.
      rewrite Hfl in Hh'. eapply holds_app_l; exact Hh'.
  - assert (Hz : bw_bitoffset b = 0) by lia. red in Hbuf. rewrite Hz in *. cbn in Hbuf.
    assert (Hb0 : bw_buffer b = 0) by lia.
    assert (Hfl : flushed pre v n = pre ++ map Some bs).
    { unfold flushed. do 2 f_equal. rewrite Hv, Hb0, Z.mul_0_r, Z.add_0_r.
      replace (Z.to_nat ((n + 7) / 8)) with (List.length bs) by (subst n; zdiv). now apply lebytes_leval. }
    destruct align; cbn [bw_wr]; (split; [now rewrite Hfl|split; intros E; [|]]); try discriminate.
    + constructor; cbn; auto; [|now rewrite Hfl]. rewrite HLF. subst n. rewrite Hoff. zdiv.
    + rewrite <- Hz. destruct b. exact HA.
Qed.

Lemma Flush_aligned R b pre v n :
  bwAt R b pre v n -> len pre + (n + 7) / 8 <= R -> bwAligned R (BW.Flush true b) (flushed pre v n).
Proof. intros HA HR. now apply (Flush_ok R b pre v n true HA HR). Qed.

Lemma SkipBytes_ok R b pre v n k :
  bwAt R b pre v n -> 0 <= k -> len pre + (n + 7) / 8 + k <= R ->
  exists b', BW.SkipBytes b k = (b', len (flushed pre v n)) /\
    bwAligned R b' (flushed pre v n ++ repeat None (Z.to_nat k)).
Proof.
  intros HA Hk HR. destruct (Flush_aligned R b pre v n HA ltac:(lia)) as [Hw Hr Hb0 Hz Hoff Hh].
  pose proof (bwAt_bound _ _ _ _ _ HA) as [Hn _]. pose proof (len_flushed pre v n Hn) as HLF.
  unfold BW.SkipBytes. rewrite Hoff. eexists; split; [reflexivity|].
  destruct (Reserve_ok (bw_wr (BW.Flush true b)) (len (flushed pre v n) + k) Hw) as (Hw' & Hroom & Hcells).
  constructor; cbn; auto.
  - rewrite length_app, repeat_length. lia.
  - apply Hcells; [assumption|lia|]. eapply room_le; [exact Hr|lia].
Qed.

(** A write of whole bytes after a flush. *)
Lemma write_after_flush R b pre v n p :
  bwAt R b pre v n -> bytes p -> len (flushed pre v n) + len p <= R ->
  exists w', WriteAt (bw_wr (BW.Flush true b)) p (bw_byteoffset (BW.Flush true b)) = (w', len p, None) /\
    bwAligned R (mkBW w' (bw_buffer (BW.Flush true b)) (bw_byteoffset (BW.Flush true b) + len p)
                         (bw_bitoffset (BW.Flush true b)))
      (flushed pre v n ++ map Some p).
Proof.
  intros HA Hp HR. pose proof (bwAt_bound _ _ _ _ _ HA) as [Hn _].
  pose proof (len_flushed pre v n Hn). pose proof (Nat2Z.is_nonneg (List.length p)).
  destruct (Flush_aligned R b pre v n HA ltac:(lia)) as [Hw Hr Hb0 Hz Hoff Hh].
  destruct (write_end _ R _ p Hw Hr Hp Hh HR) as (w' & HE & Hw' & Hr' & Hh').
  exists w'. rewrite Hoff. split; [exact HE|]. constructor; cbn; auto.
  rewrite length_app, length_map. lia.
Qed.

Lemma WriteAligned_ok R b pre v n x k :
  bwAt R b pre v n -> 0 <= k <= 8 -> len (flushed pre v n) + k <= R ->
  exists b', BW.WriteAligned b x k = (b', true) /\
    bwAligned R b' (flushed pre v n ++ map Some (lebytes (Z.to_nat k) x)).
Proof.
  intros HA Hk HR. unfold BW.WriteAligned. rewrite firstn_lebytes by lia.
  assert (HL : len (lebytes (Z.to_nat k) x) = k) by (rewrite length_lebytes; lia).
  destruct (write_after_flush R b pre v n (lebytes (Z.to_nat k) x) HA) as (w' & -> & HAl);
    [auto with gobytes|lia|]. rewrite HL in HAl. eauto.
Qed.

Lemma WriteVlqInt_ok R b pre v n x :
  bwAt R b pre v n -> 0 <= x -> len (flushed pre v n) + len (Binary.PutUvarint x) <= R ->
  exists b', BW.WriteVlqInt b x = (b', true) /\
    bwAligned R b' (flushed pre v n ++ map Some (Binary.PutUvarint x)).
Proof.
  intros HA Hx HR. unfold BW.WriteVlqInt.
  destruct (write_after_flush R b pre v n (Binary.PutUvarint x) HA) as (w' & -> & HAl);
    [now apply Binary.PutUvarint_bytes|assumption|]. eauto.
Qed.

(** Filling in one reserved byte. *)
Lemma WriteAt_hole R b pre post x v n :
  bwAt R b (pre ++ [None] ++ post) v n -> is_byte x -> len pre + 1 <= R ->
  exists b', BW.WriteAtBW b [x] (len pre) = (b', 1, None) /\
    bwAt R b' (pre ++ [Some x] ++ post) v n.
Proof.
  intros [Hw Hr Hbit Hbuf (bs & Hbs & Hoff & Hh & Hv & Hn)] Hx HR. unfold BW.WriteAtBW.
  destruct (WriteAt_ok (bw_wr b) [x] (len pre)) as (w' & HE & Hw' & Hroom & Hcells);
    [assumption|constructor; auto|lia|cbn [List.length]; eapply room_le; eauto|].
  rewrite HE. eexists; split; [reflexivity|].
  constructor; cbn [bw_wr bw_bitoffset bw_buffer bw_byteoffset]; auto.
  exists bs. splits; auto; [rewrite Hoff, !length_app; reflexivity|].
  specialize (Hcells _ Hh). rewrite Nat2Z.id, <- !app_assoc in Hcells.
  rewrite (overlay_at pre [x] [None]) in Hcells by reflexivity.
  rewrite <- !app_assoc. apply Hcells. rewrite !length_app; lia.
Qed.

End Spec.

(** ** From an empty writer *)

Section Whole.
Context {W : Type} `{WOk : WriterAtOk W}.

Lemma write_values_ok (wr : W) vs nbits align :
  wok wr -> 0 <= nbits <= 64 -> Forall (fits nbits) vs -> room wr ((len vs * nbits + 7) / 8) ->
  exists b, BW.WriteValues (BW.NewBitWriter wr) vs nbits = (b, None) /\
    BW.Written b = (len vs * nbits + 7) / 8 /\
    firstn (Z.to_nat (BW.Written b)) (wbuf (bw_wr (BW.Flush align b)))
      = lebytes (Z.to_nat ((len vs * nbits + 7) / 8)) (packed nbits vs).
Proof.
  intros Hok Hn HF Hroom. set (L := (len vs * nbits + 7) / 8) in *.
  destruct (WriteValues_ok L (BW.NewBitWriter wr) [] 0 0 vs nbits) as (b & HE & HA); auto; try lia.
  { now apply bwAligned_at, NewBitWriter_aligned. }
  { cbn [List.length Z.of_nat]. rewrite !Z.add_0_l. lia. }
  rewrite Z.pow_0_r, Z.mul_1_l, !Z.add_0_l in HA.
  exists b. split; [exact HE|]. pose proof (Written_at _ _ _ _ _ HA) as HW. cbn [List.length Z.of_nat] in HW.
  rewrite Z.add_0_l in HW. fold L in HW. split; [exact HW|]. rewrite HW.
  destruct (Flush_ok L b [] (packed nbits vs) (len vs * nbits) align HA) as (Hh & _); [cbn [List.length Z.of_nat]; lia|].
  unfold flushed in Hh. cbn [app] in Hh. fold L in Hh. apply holds_firstn in Hh. now rewrite length_lebytes in Hh.
Qed.

Lemma write_vlq_ok (wr : W) x :
  wok wr -> 0 <= x -> room wr (len (Binary.PutUvarint x)) ->
  exists b, BW.WriteVlqInt (BW.NewBitWriter wr) x = (b, true) /\ BW.Written b = len (Binary.PutUvarint x) /\
    firstn (Z.to_nat (BW.Written b)) (wbuf (bw_wr b)) = Binary.PutUvarint x.
Proof.
  intros Hok Hx Hroom.
  destruct (WriteVlqInt_ok (len (Binary.PutUvarint x)) (BW.NewBitWriter wr) [] 0 0 x) as (b & HE & HA);
    [now apply bwAligned_at, NewBitWriter_aligned|assumption|cbn; lia|].
  exists b. split; [exact HE|]. change (flushed [] 0 0) with (@nil (option Z)) in HA. cbn [app] in HA.
  rewrite (Written_at _ _ _ _ _ (bwAligned_at _ _ _ HA)), length_map. change ((0 + 7) / 8) with 0. rewrite Z.add_0_r.
  split; [reflexivity|]. destruct HA as [_ _ _ _ _ Hh]. apply holds_firstn in Hh. now rewrite Nat2Z.id.
Qed.
End Whole.

(** ** Claims *)

Section Claims.
Context {W : Type} `{WOk : WriterAtOk W}.

(** [WriteValues] followed by [Flush], over any writer that keeps its contract and has the
    room: no error, [Written] is the number of bytes the values take, and the writer's memory
    starts with the values bit-packed back to back, least significant bit first. *)
Theorem write_values_correct (wr : W) vs nbits align :
  wok wr -> 0 <= nbits <= 64 -> Forall (fits nbits) vs -> room wr ((len vs * nbits + 7) / 8) ->
  exists b, BW.WriteValues (BW.NewBitWriter wr) vs nbits = (b, None) /\
    BW.Written b = (len vs * nbits + 7) / 8 /\
    firstn (Z.to_nat (BW.Written b)) (wbuf (bw_wr (BW.Flush align b)))
      = lebytes (Z.to_nat ((len vs * nbits + 7) / 8)) (packed nbits vs).
Proof. apply write_values_ok. Qed.

End Claims.

