(* ===== verification/BitReader.v ===== *)
(** * Reading bit-packed values (parquet/internal/utils/bit_reader.go)

    A [BitReader] buffers 64 bits of its [bytes.Reader].  [brOk] is its invariant: the
    buffer agrees with the data at the current offset whenever bits of it are in use.
    The operations are specified against the data as one little-endian number: reading
    [k] values of [w] bits at bit position [p] returns [fields (leval data) p w k]. *)

From Stdlib Require Import ZArith List Lia Bool String.
From S2P Require Import Prelude GoStd BitUtil BitPacking.
Import ListNotations.
#[local] Open Scope Z_scope.
#[local] Open Scope go_scope.

(** [buflen], the size of [unpackBuf] *)
Definition buflen : Z := 1024.

(** [trailingMask[i] = math.MaxUint64 >> (64 - i)] *)
Definition trailingMask (i : Z) : Z := (2 ^ 64 - 1) >> (64 - i).

Definition trailingBits (v bits : Z) : Z :=
  if 64 <=? bits then v else v & trailingMask bits.

(** The struct, without the scratch array [unpackBuf]: of it only the entries an
    [unpack32] call has just written are read. *)
Record BitReader : Type := mkBR {
  br_reader : BytesReader.t;
  br_buffer : Z;
  br_byteoffset : Z;
  br_bitoffset : Z;
  br_validBits : Z;
  br_raw : list Z
}.

Module BR.

Definition NewBitReader (r : BytesReader.t) : BitReader := mkBR r 0 0 0 0 (repeat 0 8).

Definition CurOffset (b : BitReader) : Z := br_byteoffset b + BytesForBits (br_bitoffset b).

(** [Reset(r)] keeps the scratch array [raw]. *)
Definition Reset (b : BitReader) (r : BytesReader.t) : BitReader := mkBR r 0 0 0 0 (br_raw b).

(** [fillbuffer]: up to eight bytes at the byte offset, zero padded. *)
Definition fillbuffer (b : BitReader) : BitReader * option goerr :=
  let '(bs, err) := BytesReader.ReadAt (br_reader b) 8 (br_byteoffset b) in
  match err with
  | None | Some EOF =>
      let raw := bs ++ repeat 0 (8 - List.length bs) in
      (mkBR (br_reader b) (leval raw) (br_byteoffset b) (br_bitoffset b) (len bs * 8) raw, None)
  | Some e => (b, Some e)
  end.

(** The common start of the [getAligned] functions: move to the next byte boundary and
    read [nbytes] into [raw]; [None] when they return false there. *)
Definition alignedRead (b : BitReader) (nbytes : Z) : BitReader * bool :=
  let off := br_byteoffset b + BytesForBits (br_bitoffset b) in
  let '(bs, err) := BytesReader.ReadAt (br_reader b) nbytes off in
  let b1 := mkBR (br_reader b) (br_buffer b) off (br_bitoffset b) (br_validBits b)
                 (splice (br_raw b) 0 bs) in
  match err with
  | None | Some EOF => (b1, len bs =? nbytes)
  | Some _ => (b1, false)
  end.

(** Their common end: skip the bytes read and refill. *)
Definition alignedDone (b : BitReader) (nbytes : Z) : BitReader * bool :=
  let '(b1, err) :=
    fillbuffer (mkBR (br_reader b) (br_buffer b) (br_byteoffset b + nbytes) 0 (br_validBits b) (br_raw b)) in
  (b1, match err with None => true | Some _ => false end).

(** [memory.Set(b.raw[n:m], 0)] *)
Definition padRaw (b : BitReader) (n m : Z) : BitReader :=
  mkBR (br_reader b) (br_buffer b) (br_byteoffset b) (br_bitoffset b) (br_validBits b)
       (splice (br_raw b) (Z.to_nat n) (repeat 0 (Z.to_nat (m - n)))).

(** The [getAligned] functions return the value only when they return true. *)
Definition getAlignedUint8 (b : BitReader) (nbytes : Z) : BitReader * option Z :=
  if 1 <? nbytes then (b, None)
  else match alignedRead b nbytes with
       | (b1, false) => (b1, None)
       | (b1, true) =>
           let v := nth 0 (br_raw b1) 0 in
           let '(b2, ok) := alignedDone b1 nbytes in (b2, if ok : bool then Some v else None)
       end.

Definition getAlignedUint16 (b : BitReader) (nbytes : Z) : BitReader * option Z :=
  if 2 <? nbytes then (b, None)
  else match alignedRead b nbytes with
       | (b1, false) => (b1, None)
       | (b1, true) =>
           let b1 := padRaw b1 nbytes 2 in
           let v := leval (firstn 2 (br_raw b1)) in
           let '(b2, ok) := alignedDone b1 nbytes in (b2, if ok : bool then Some v else None)
       end.

Definition getAlignedUint32 (b : BitReader) (nbytes : Z) : BitReader * option Z :=
  if 4 <? nbytes then (b, None)
  else match alignedRead b nbytes with
       | (b1, false) => (b1, None)
       | (b1, true) =>
           let b1 := padRaw b1 nbytes 4 in
           let v := leval (firstn 4 (br_raw b1)) in
           let '(b2, ok) := alignedDone b1 nbytes in (b2, if ok : bool then Some v else None)
       end.

Definition getAlignedUint64 (b : BitReader) (nbytes : Z) : BitReader * option Z :=
  if 8 <? nbytes then (b, None)
  else match alignedRead b nbytes with
       | (b1, false) => (b1, None)
       | (b1, true) =>
           let b1 := padRaw b1 nbytes 8 in
           let v := leval (firstn 8 (br_raw b1)) in
           let '(b2, ok) := alignedDone b1 nbytes in (b2, if ok : bool then Some v else None)
       end.

(** [ReadByte]: a [BitReader] is an [io.ByteReader]. *)
#[export] Instance ReadByte : Binary.ByteReader BitReader := fun b =>
  match getAlignedUint8 b 1 with
  | (b1, Some v) => (b1, inl v)
  | (b1, None) => (b1, inr (ErrMsg "failed to read byte"))
  end.

Definition GetVlqInt (b : BitReader) : BitReader * option Z :=
  match Binary.ReadUvarint b with
  | (b1, inl v) => (b1, Some v)
  | (b1, inr _) => (b1, None)
  end.

(** [int64(u>>1) ^ -int64(u&1)] *)
Definition unzigzag (u : Z) : Z := Z.lxor (i64 (u >> 1)) (- (u & 1)).

Definition GetZigZagVlqInt (b : BitReader) : BitReader * option Z :=
  match GetVlqInt b with
  | (b1, Some u) => (b1, Some (unzigzag u))
  | (b1, None) => (b1, None)
  end.

(** Move to the next eight bytes. *)
Definition advance (b : BitReader) : BitReader * option goerr :=
  fillbuffer (mkBR (br_reader b) (br_buffer b) (br_byteoffset b + 8) 0 (br_validBits b) (br_raw b)).

Definition setBit (b : BitReader) (off : Z) : BitReader :=
  mkBR (br_reader b) (br_buffer b) (br_byteoffset b) off (br_validBits b) (br_raw b).

(** The part of [next] after the check for an exhausted buffer. *)
Definition nextIn (b : BitReader) (bits : Z) : BitReader * (Z + goerr) :=
  let fin := br_bitoffset b + bits in
  if fin <=? 64 then
    if br_validBits b <? fin then (b, inr ErrUnexpectedEOF)
    else (setBit b fin, inl (trailingBits (br_buffer b) fin >> br_bitoffset b))
  else if br_validBits b <? 64 then (b, inr ErrUnexpectedEOF)
  else
    let firstBits := 64 - br_bitoffset b in
    let v := br_buffer b >> br_bitoffset b in
    match advance b with
    | (b1, Some e) => (b1, inr e)
    | (b1, None) =>
        let remaining := bits - firstBits in
        if br_validBits b1 <? remaining then (b1, inr ErrUnexpectedEOF)
        else (setBit b1 remaining,
              inl (Z.lor v (u64 (Z.shiftl (trailingBits (br_buffer b1) remaining) firstBits))))
    end.

Definition next (b : BitReader) (bits : Z) : BitReader * (Z + goerr) :=
  if bits =? 0 then (b, inl 0)
  else if br_bitoffset b =? 64 then
    match advance b with
    | (b1, Some e) => (b1, inr e)
    | (b1, None) => nextIn b1 bits
    end
  else nextIn b bits.

(** The loops of [GetBatch] that call [next] for one value after the other; with
    [untilAligned] the loop also ends when the bit offset is zero.  The slice afterwards,
    the number of values, the error; on an error [next] returned 0 for the value. *)
Fixpoint scalarLoop (untilAligned : bool) (b : BitReader) (bits : Z) (out : list Z)
    : BitReader * list Z * Z * option goerr :=
  match out with
  | [] => (b, [], 0, None)
  | o :: rest =>
      if untilAligned && (br_bitoffset b =? 0) then (b, out, 0, None)
      else match next b bits with
           | (b1, inr e) => (b1, 0 :: rest, 0, Some e)
           | (b1, inl v) =>
               let '(b2, rest', n, e) := scalarLoop untilAligned b1 bits rest in
               (b2, v :: rest', 1 + n, e)
           end
  end.

(** The loop of [GetBatch] over [unpack32]; every iteration but the last unpacks at least
    32 values, so the length of the slice is enough fuel. *)
Fixpoint unpackChunks (fuel : nat) (b : BitReader) (bits : Z) (out : list Z)
    : BitReader * list Z * Z * option goerr :=
  match fuel with
  | O => (b, out, 0, None)
  | S fuel' =>
      if len out =? 0 then (b, out, 0, None)
      else
        let unpackSize := Z.min buflen (len out) in
        let '(r, buf, numUnpacked, err) :=
          unpack32Default (br_reader b) (repeat 0 (Z.to_nat unpackSize)) bits in
        let vals := firstn (Z.to_nat numUnpacked) buf in
        let rest := skipn (Z.to_nat numUnpacked) out in
        let b1 := mkBR r (br_buffer b) (br_byteoffset b + Z.quot (numUnpacked * bits) 8)
                       (br_bitoffset b) (br_validBits b) (br_raw b) in
        match err with
        | Some e => (b1, vals ++ rest, numUnpacked, Some e)
        | None =>
            if numUnpacked =? 0 then (b1, vals ++ rest, numUnpacked, None)
            else
              let '(b2, rest', n, e) := unpackChunks fuel' b1 bits rest in
              (b2, vals ++ rest', numUnpacked + n, e)
        end
  end.

Definition seekTo (b : BitReader) : BitReader :=
  mkBR (BytesReader.Seek (br_reader b) (br_byteoffset b)) (br_buffer b) (br_byteoffset b)
       (br_bitoffset b) (br_validBits b) (br_raw b).

(** [GetBatch(bits, out)]: the slice afterwards, the number of values, the error. *)
Definition GetBatch (b : BitReader) (bits : Z) (out : list Z)
    : BitReader * list Z * Z * option goerr :=
  if 64 <? bits then (b, out, 0, Some (ErrMsg "must be 64 bits or less per read"))
  else
    let '(b1, out1, i1, e1) := scalarLoop true b bits out in
    match e1 with
    | Some e => (b1, out1, i1, Some e)
    | None =>
        let done1 := firstn (Z.to_nat i1) out1 in
        let left1 := skipn (Z.to_nat i1) out1 in
        let '(b2, left2, i2, e2) :=
          if bits <=? 32 then unpackChunks (S (List.length left1)) (seekTo b1) bits left1
          else (b1, left1, 0, None) in
        match e2 with
        | Some e => (b2, done1 ++ left2, i1 + i2, Some e)
        | None =>
            match fillbuffer b2 with
            | (b3, Some e) => (b3, done1 ++ left2, i1 + i2, Some e)
            | (b3, None) =>
                let '(b4, left4, i4, e4) := scalarLoop false b3 bits (skipn (Z.to_nat i2) left2) in
                (b4, done1 ++ firstn (Z.to_nat i2) left2 ++ left4, i1 + i2 + i4, e4)
            end
        end
    end.

(** [GetValue(width)]: the value, and whether it was read. *)
Definition GetValue (b : BitReader) (width : Z) : BitReader * Z * bool :=
  let '(b1, out, n, _) := GetBatch b width [0] in (b1, nth 0 out 0, n =? 1).

(** [Discard(bits, n)]: the number of values skipped and the error. *)
Fixpoint discardLoop (untilAligned : bool) (b : BitReader) (bits : Z) (n : nat)
    : BitReader * Z * option goerr :=
  match n with
  | O => (b, 0, None)
  | S n' =>
      if untilAligned && (br_bitoffset b =? 0) then (b, 0, None)
      else match next b bits with
           | (b1, inr e) => (b1, 0, Some e)
           | (b1, inl _) =>
               let '(b2, i, e) := discardLoop untilAligned b1 bits n' in (b2, 1 + i, e)
           end
  end.

(** The skip of whole groups of 32 values in [Discard]: nothing, an error, or the reader
    moved and the number skipped. *)
Definition discardGroups (b : BitReader) (bits remaining : Z) : BitReader * Z * option goerr :=
  if 32 <? remaining then
    let toSkip := Z.quot remaining 32 * 32 in
    let bytesToSkip := BytesForBits (toSkip * bits) in
    let '(bs, err) :=
      if 0 <? bytesToSkip
      then BytesReader.ReadAt (br_reader b) 1 (br_byteoffset b + bytesToSkip - 1) else ([0], None) in
    if len bs =? 1 then
      (mkBR (br_reader b) (br_buffer b) (br_byteoffset b + bytesToSkip) (br_bitoffset b)
            (br_validBits b) (br_raw b), toSkip, None)
    else (b, 0, Some (match err with None => ErrUnexpectedEOF | Some e => e end))
  else (b, 0, None).

Definition Discard (b : BitReader) (bits n : Z) : BitReader * Z * option goerr :=
  if 64 <? bits then (b, 0, Some (ErrMsg "must be 64 bits or less per read"))
  else
    let '(b1, i1, e1) := discardLoop true b bits (Z.to_nat n) in
    match e1 with
    | Some e => (b1, i1, Some e)
    | None =>
        match discardGroups b1 bits (n - i1) with
        | (b2, _, Some e) => (b2, i1, Some e)
        | (b2, i2, None) =>
            match fillbuffer b2 with
            | (b3, Some e) => (b3, i1 + i2, Some e)
            | (b3, None) =>
                let '(b4, i4, e4) := discardLoop false b3 bits (Z.to_nat (n - i1 - i2)) in
                (b4, match e4 with Some _ => i1 + i2 + i4 | None => n end, e4)
            end
        end
    end.

End BR.
Export (hints) BR.

(** ** The invariant *)

Definition br_data (b : BitReader) : list Z := BytesReader.data (br_reader b).

(** The data as one number, and the position in bits. *)
Definition br_val (b : BitReader) : Z := leval (br_data b).
Definition br_pos (b : BitReader) : Z := 8 * br_byteoffset b + br_bitoffset b.

(** The buffer holds the 64 bits at the byte offset. *)
Definition filled (b : BitReader) : Prop :=
  br_buffer b = field (br_val b) (8 * br_byteoffset b) 64 /\
  br_validBits b = 8 * Z.max 0 (Z.min 8 (len (br_data b) - br_byteoffset b)).

Record brOk (b : BitReader) : Prop := mkBrOk {
  ok_bytes : bytes (br_data b);
  ok_off : 0 <= br_byteoffset b;
  ok_bit : 0 <= br_bitoffset b <= 64;
  ok_raw : bytes (br_raw b) /\ List.length (br_raw b) = 8%nat;
  ok_filled : br_bitoffset b <> 0 -> filled b
}.

(** [b'] reads the same data. *)
Definition sameData (b b' : BitReader) : Prop := br_data b' = br_data b.

Lemma NewBitReader_ok d : bytes d -> brOk (BR.NewBitReader (BytesReader.new d)).
Proof. intros. constructor; cbn; auto; [lia|lia|split; [apply (bytes_repeat0 8)|reflexivity]|congruence]. Qed.

Lemma Reset_ok b d : brOk b -> bytes d -> brOk (BR.Reset b (BytesReader.new d)).
Proof. intros [] Hd. constructor; cbn; auto; [lia|lia|congruence]. Qed.

Lemma fillbuffer_ok b :
  bytes (br_data b) -> 0 <= br_byteoffset b -> 0 <= br_bitoffset b <= 64 ->
  exists b', BR.fillbuffer b = (b', None) /\ brOk b' /\ filled b' /\ sameData b b' /\
    br_byteoffset b' = br_byteoffset b /\ br_bitoffset b' = br_bitoffset b /\
    br_reader b' = br_reader b.
Proof.
  intros Hb Hoff Hbit. unfold BR.fillbuffer.
  destruct (BytesReader.ReadAt (br_reader b) 8 (br_byteoffset b)) as [bs err] eqn:E.
  pose proof (BytesReader.ReadAt_bytes (br_reader b) 8 (br_byteoffset b)) as Hbs. rewrite E in Hbs. cbn [fst] in Hbs.
  pose proof (BytesReader.ReadAt_err (br_reader b) 8 (br_byteoffset b) Hoff) as Herr. rewrite E in Herr. cbn [snd] in Herr.
  specialize (Hbs Hoff ltac:(lia)). fold (br_data b) in Hbs.
  assert (HL : List.length bs = Nat.min 8 (List.length (br_data b) - Z.to_nat (br_byteoffset b)))
    by (rewrite Hbs, length_firstn, length_skipn; reflexivity).
  assert (HB : bytes bs) by (rewrite Hbs; auto with gobytes).
  set (raw := bs ++ repeat 0 (8 - List.length bs)).
  assert (Hf : filled (mkBR (br_reader b) (leval raw) (br_byteoffset b) (br_bitoffset b) (len bs * 8) raw)).
  { split; cbn [br_buffer br_byteoffset br_validBits].
    - subst raw. rewrite leval_pad, Hbs, leval_slice by assumption. rewrite Z2Nat.id by lia. reflexivity.
    - unfold br_data in *. cbn [br_reader]. lia. }
  eexists. split; [destruct Herr as [-> | ->]; reflexivity|].
  split; [|repeat split; apply Hf]. constructor; cbn; auto.
  split; [apply bytes_app; split; auto with gobytes|]. subst raw. rewrite length_app, repeat_length. lia.
Qed.

(** ** Single values *)

Lemma trailingMask_ones i : 0 <= i <= 64 -> trailingMask i = Z.ones i.
Proof.
  intros. unfold trailingMask. change (2 ^ 64 - 1) with (Z.ones 64).
  rewrite shiftr_div, Z.ones_div_pow2 by lia. f_equal. lia.
Qed.

Lemma trailingBits_field x n : 0 <= n <= 64 -> 0 <= x < 2 ^ 64 -> trailingBits x n = field x 0 n.
Proof.
  intros Hn Hx. unfold trailingBits. destruct (Z.leb_spec 64 n).
  - assert (n = 64) by lia. subst. now rewrite field_full.
  - rewrite trailingMask_ones, Z.land_ones by lia. unfold field. now rewrite Z.pow_0_r, Z.div_1_r.
Qed.

(** Shifting the low [p + n] bits down by [p]. *)
Lemma field_shiftr x p n : 0 <= p -> 0 <= n -> field x 0 (p + n) >> p = field x p n.
Proof.
  intros. rewrite shiftr_div by lia. unfold field. rewrite Z.pow_0_r, Z.div_1_r. now apply div_mod_pow2.
Qed.

(** The state after moving to bit position [p], and the state after reading up to it. *)
Definition movedTo (b b' : BitReader) (p : Z) : Prop :=
  brOk b' /\ sameData b b' /\ br_pos b' = p.

Definition readTo (b b' : BitReader) (p : Z) : Prop := movedTo b b' p /\ filled b'.

Lemma movedTo_refl b : brOk b -> movedTo b b (br_pos b).
Proof. intros. split; [assumption|split; reflexivity]. Qed.

Lemma movedTo_trans b b1 b' p p' : movedTo b b1 p -> movedTo b1 b' p' -> movedTo b b' p'.
Proof. unfold movedTo, sameData. intros (? & H & ?) (? & H' & ?). rewrite H', H. auto. Qed.

Lemma readTo_trans b b1 b' p p' : movedTo b b1 p -> readTo b1 b' p' -> readTo b b' p'.
Proof. intros H1 [H2 H3]. split; eauto using movedTo_trans. Qed.

Lemma movedTo_val b b' p : movedTo b b' p -> br_val b' = br_val b /\ br_data b' = br_data b /\ br_pos b' = p.
Proof. intros (_ & H & ?). red in H. unfold br_val. now rewrite H. Qed.

Lemma setBit_readTo b n :
  brOk b -> filled b -> 0 <= n <= 64 -> readTo b (BR.setBit b n) (8 * br_byteoffset b + n).
Proof.
  intros [H1 H2 H3 H4 H5] HF Hn. split; [|exact HF]. split; [|split; reflexivity]. constructor; auto.
Qed.

(** Moving on to the next eight bytes. *)
Lemma advance_ok b :
  brOk b -> exists b', BR.advance b = (b', None) /\ readTo b b' (8 * (br_byteoffset b + 8)) /\
    br_byteoffset b' = br_byteoffset b + 8 /\ br_bitoffset b' = 0.
Proof.
  intros [Hb Hoff Hbit Hraw _]. unfold BR.advance.
  destruct (fillbuffer_ok (mkBR (br_reader b) (br_buffer b) (br_byteoffset b + 8) 0 (br_validBits b) (br_raw b)))
    as (b1 & -> & HO1 & HF1 & HD1 & Hoff1 & Hbit1 & _); [exact Hb|cbn; lia|cbn; lia|].
  cbn [br_byteoffset br_bitoffset] in Hoff1, Hbit1.
  exists b1. split; [reflexivity|]. split; [|now split].
  split; [|exact HF1]. split; [exact HO1|]. split; [exact HD1|]. unfold br_pos. lia.
Qed.

(** Reading within the buffered word and the following one: the value, or an error when
    the data ends before it does. *)
Lemma nextIn_ok b bits :
  brOk b -> filled b -> br_bitoffset b < 64 -> 0 < bits <= 64 -> br_pos b + bits <= 8 * len (br_data b) ->
  exists b', BR.nextIn b bits = (b', inl (field (br_val b) (br_pos b) bits)) /\ readTo b b' (br_pos b + bits).
Proof.
  intros HO HF Hlt Hbits Hle. pose proof HO as [Hb Hoff Hbit Hraw _]. pose proof HF as [Hbuf Hvalid].
  unfold br_pos in *. unfold BR.nextIn.
  assert (Hbb : 0 <= br_buffer b < 2 ^ 64) by (rewrite Hbuf; apply field_bound; lia).
  destruct (Z.leb_spec (br_bitoffset b + bits) 64) as [Hin|Hout].
  - bool_lia (br_validBits b <? br_bitoffset b + bits).
    eexists. split.
    + rewrite trailingBits_field, field_shiftr by lia. rewrite Hbuf at 1.
      rewrite field_field by lia. reflexivity.
    + rewrite <- Z.add_assoc. apply setBit_readTo; auto. lia.
  - bool_lia (br_validBits b <? 64).
    destruct (advance_ok b HO) as (b1 & -> & HR1 & Hoff1 & Hbit1).
    pose proof HR1 as [HM1 HF1]. destruct (movedTo_val _ _ _ HM1) as (HV1 & HD1 & _).
    pose proof HF1 as [Hbuf1 Hvalid1]. rewrite HV1, Hoff1 in Hbuf1. rewrite HD1, Hoff1 in Hvalid1.
    set (rem := bits - (64 - br_bitoffset b)).
    bool_lia (br_validBits b1 <? rem).
    eexists. split; [do 2 f_equal|].
    + assert (Hb1 : 0 <= br_buffer b1 < 2 ^ 64) by (rewrite Hbuf1; apply field_bound; lia).
      rewrite trailingBits_field by lia. rewrite Hbuf1, field_field, Z.add_0_r by lia.
      rewrite Hbuf. rewrite <- (field_full (field (br_val b) (8 * br_byteoffset b) 64) 64) by (apply field_bound; lia).
      replace 64 with (br_bitoffset b + (64 - br_bitoffset b)) at 2 by lia.
      rewrite field_shiftr, field_field by lia. rewrite shiftl_mul by lia.
      replace bits with (64 - br_bitoffset b + rem) at 1 by lia.
      rewrite field_split by lia.
      replace (8 * br_byteoffset b + br_bitoffset b + (64 - br_bitoffset b)) with (8 * (br_byteoffset b + 8)) by lia.
      pose proof (field_bound (br_val b) (8 * (br_byteoffset b + 8)) rem ltac:(lia)) as HB2.
      pose proof (field_bound (br_val b) (8 * br_byteoffset b + br_bitoffset b) (64 - br_bitoffset b) ltac:(lia)).
      pose proof (pow2_pos (64 - br_bitoffset b)). pose proof (pow2_pos rem).
      assert (2 ^ (64 - br_bitoffset b) * 2 ^ rem <= 2 ^ 64) by (rewrite <- Z.pow_add_r by lia; apply pow2_le; lia).
      unfold u64. rewrite Z.mod_small by nia. rewrite lor_disjoint by lia. lia.
    + replace (8 * br_byteoffset b + br_bitoffset b + bits) with (8 * br_byteoffset b1 + rem) by lia.
      eapply readTo_trans; [exact HM1|]. apply setBit_readTo; auto; [apply HM1|lia].
Qed.

Lemma nextIn_short b bits :
  brOk b -> filled b -> br_bitoffset b < 64 -> 0 < bits <= 64 -> 8 * len (br_data b) < br_pos b + bits ->
  exists b', BR.nextIn b bits = (b', inr ErrUnexpectedEOF).
Proof.
  intros HO HF Hlt Hbits Hle. pose proof HF as [Hbuf Hvalid]. pose proof HO as [_ Hoff Hbit _ _].
  unfold br_pos in *. unfold BR.nextIn.
  destruct (Z.leb_spec (br_bitoffset b + bits) 64) as [Hin|Hout].
  - bool_lia (br_validBits b <? br_bitoffset b + bits). eauto.
  - destruct (Z.ltb_spec (br_validBits b) 64); [eauto|].
    destruct (advance_ok b HO) as (b1 & -> & HR1 & Hoff1 & Hbit1).
    pose proof HR1 as [HM1 HF1]. destruct (movedTo_val _ _ _ HM1) as (HV1 & HD1 & _).
    pose proof HF1 as [_ Hvalid1]. rewrite HD1, Hoff1 in Hvalid1.
    bool_lia (br_validBits b1 <? bits - (64 - br_bitoffset b)). eauto.
Qed.

(** A state in which [nextIn] is called. *)
Lemma next_nextIn b bits :
  brOk b -> filled b -> 0 < bits ->
  exists b1, BR.next b bits = BR.nextIn b1 bits /\ readTo b b1 (br_pos b) /\ br_bitoffset b1 < 64.
Proof.
  intros HO HF Hbits. unfold BR.next. bool_lia (bits =? 0). pose proof (ok_bit _ HO) as Hbit.
  destruct (Z.eqb_spec (br_bitoffset b) 64) as [H64|Hlt].
  - destruct (advance_ok b HO) as (b1 & -> & HR1 & Hoff1 & Hbit1). exists b1.
    split; [reflexivity|]. split; [|lia].
    replace (br_pos b) with (8 * (br_byteoffset b + 8)) by (unfold br_pos; lia). assumption.
  - exists b. split; [reflexivity|]. split; [|lia]. split; auto using movedTo_refl.
Qed.

Lemma next_ok b bits :
  brOk b -> filled b -> 0 <= bits <= 64 -> br_pos b + bits <= 8 * len (br_data b) ->
  exists b', BR.next b bits = (b', inl (field (br_val b) (br_pos b) bits)) /\ readTo b b' (br_pos b + bits).
Proof.
  intros HO HF Hbits Hle. destruct (Z.eq_dec bits 0) as [->|Hne].
  - exists b. rewrite field_0_r, Z.add_0_r. split; [reflexivity|]. split; auto using movedTo_refl.
  - destruct (next_nextIn b bits HO HF ltac:(lia)) as (b1 & -> & [HM HF1] & Hlt).
    destruct (movedTo_val _ _ _ HM) as (HV & HD & HP).
    destruct (nextIn_ok b1 bits) as (b' & HE & HR); [apply HM|auto|auto|lia|rewrite HP, HD; lia|].
    rewrite HV, HP in HE. rewrite HP in HR. exists b'. split; [exact HE|]. eauto using readTo_trans.
Qed.

Lemma next_short b bits :
  brOk b -> filled b -> 0 < bits <= 64 -> 8 * len (br_data b) < br_pos b + bits ->
  exists b', BR.next b bits = (b', inr ErrUnexpectedEOF).
Proof.
  intros HO HF Hbits Hle. destruct (next_nextIn b bits HO HF ltac:(lia)) as (b1 & -> & [HM HF1] & Hlt).
  destruct (movedTo_val _ _ _ HM) as (HV & HD & HP).
  apply nextIn_short; auto; [apply HM|rewrite HD, HP; lia].
Qed.

(** ** Batches *)

(** The slice after [k] values of it have been read, with the entry [next] left behind
    when it failed. *)
Definition readOut (b : BitReader) (bits : Z) (k : nat) (out : list Z) (e : option goerr) : list Z :=
  fields (br_val b) (br_pos b) bits k ++
  match e with None => skipn k out | Some _ => 0 :: skipn (S k) out end.

(** Either every read succeeded, or the data ends within the next value. *)
Definition readRes (b b' : BitReader) (bits : Z) (k n : nat) (e : option goerr) : Prop :=
  (k <= n)%nat /\ br_pos b + Z.of_nat k * bits <= 8 * len (br_data b) /\
  (e = None /\ movedTo b b' (br_pos b + Z.of_nat k * bits) \/
   e = Some ErrUnexpectedEOF /\ (k < n)%nat /\
   8 * len (br_data b) < br_pos b + (Z.of_nat k + 1) * bits).

Lemma readRes_0 b bits n : brOk b -> br_pos b <= 8 * len (br_data b) -> readRes b b bits 0 n None.
Proof.
  intros. split; [lia|]. split; [lia|]. left. split; [reflexivity|]. cbn [Z.of_nat]. rewrite Z.mul_0_l, Z.add_0_r.
  now apply movedTo_refl.
Qed.

Lemma scalarLoop_ok u b bits out :
  brOk b -> (u = false \/ br_bitoffset b <> 0 -> filled b) -> 0 <= bits <= 64 ->
  br_pos b <= 8 * len (br_data b) ->
  exists b' k e, BR.scalarLoop u b bits out = (b', readOut b bits k out e, Z.of_nat k, e) /\
    readRes b b' bits k (List.length out) e /\
    (e = None -> k = List.length out \/ u = true /\ br_bitoffset b' = 0).
Proof.
  intros HO HF Hbits. revert b HO HF. induction out as [|o out IH]; intros b HO HF Hpos; cbn [BR.scalarLoop].
  - exists b, O, None. auto using readRes_0.
  - destruct (u && (br_bitoffset b =? 0)) eqn:Eu.
    + apply andb_true_iff in Eu as [-> Eb]. apply Z.eqb_eq in Eb.
      exists b, O, None. auto using readRes_0.
    + assert (HFb : filled b).
      { apply HF. destruct u; [right|now left]. cbn [andb] in Eu. now apply Z.eqb_neq. }
      destruct (Z.le_gt_cases (br_pos b + bits) (8 * len (br_data b))) as [Hle|Hgt].
      * destruct (next_ok b bits HO HFb Hbits Hle) as (b1 & -> & [HM HF1]).
        destruct (movedTo_val _ _ _ HM) as (HV & HD & HP).
        destruct (IH b1) as (b' & k & e & -> & HR & Hend); [apply HM|auto|rewrite HP, HD; lia|].
        exists b', (S k), e. split; [|split].
        -- replace (1 + Z.of_nat k) with (Z.of_nat (S k)) by lia.
           unfold readOut. rewrite HV, HP, fields_S. destruct e; reflexivity.
        -- destruct HR as (Hk & Hb & [[-> HM']|(-> & Hlt & Hsh)]); rewrite HP, HD in Hb;
             (split; [cbn; lia|split; [lia|]]); [left|right].
           ++ split; [reflexivity|]. rewrite HP in HM'.
              replace (br_pos b + Z.of_nat (S k) * bits) with (br_pos b + bits + Z.of_nat k * bits) by lia.
              eauto using movedTo_trans.
           ++ rewrite HP, HD in Hsh. split; [reflexivity|cbn [List.length]; split; lia].
        -- intros He. destruct (Hend He) as [->|]; auto.
      * destruct (next_short b bits HO HFb ltac:(lia) ltac:(lia)) as (b1 & ->).
        exists b1, O, (Some ErrUnexpectedEOF). split; [reflexivity|]. split; [|discriminate].
        split; [cbn; lia|]. split; [lia|]. right. cbn [List.length]. splits; auto; lia.
Qed.

(** The loop over [unpack32]: the values it unpacks, and why it stopped. *)
Lemma unpackChunks_ok fuel b bits out :
  (List.length out < fuel)%nat -> brOk b -> br_bitoffset b = 0 ->
  BytesReader.pos (br_reader b) = br_byteoffset b -> 0 <= bits <= 32 ->
  exists b' k e, BR.unpackChunks fuel b bits out
      = (b', fields (br_val b) (br_pos b) bits k ++ skipn k out, Z.of_nat k, e) /\
    (k <= List.length out)%nat /\
    movedTo b b' (br_pos b + Z.of_nat k * bits) /\ br_bitoffset b' = 0 /\
    br_pos b + Z.of_nat k * bits <= Z.max (br_pos b) (8 * len (br_data b)) /\
    (e = None \/ (e = Some EOF \/ e = Some ErrUnexpectedEOF) /\ (k < List.length out)%nat /\
      8 * len (br_data b) < br_pos b + len out * bits).
Proof.
  revert b out. induction fuel as [|fuel IH]; intros b out Hfuel HO H0 Hrd Hbits; [lia|].
  assert (Hstop : movedTo b b (br_pos b + Z.of_nat 0 * bits))
    by (cbn [Z.of_nat]; rewrite Z.mul_0_l, Z.add_0_r; now apply movedTo_refl).
  cbn [BR.unpackChunks]. destruct (Z.eqb_spec (len out) 0) as [Hz|Hz].
  { exists b, O, None. destruct out; [|cbn in Hz; lia]. splits; auto; lia. }
  set (n := Z.min buflen (len out)). assert (Hn : 0 < n <= len out) by (subst n; unfold buflen; lia).
  destruct (unpack32Default_ok (br_reader b) (repeat 0 (Z.to_nat n)) bits)
    as (g & r' & e & -> & Hd & Hp' & Hg & Hmax & Hcase); [lia|apply HO|rewrite Hrd; apply HO|].
  rewrite repeat_length in Hg, Hcase. rewrite Hrd in *. fold (br_data b) in *.
  assert (Hpos : 8 * br_byteoffset b = br_pos b) by (unfold br_pos; lia).
  replace (Z.quot (32 * Z.of_nat g * bits) 8) with (4 * bits * Z.of_nat g)
    by (rewrite (Z.mul_comm (32 * _)); replace (bits * (32 * Z.of_nat g)) with (4 * bits * Z.of_nat g * 8) by lia;
        now rewrite Z.quot_mul).
  set (b1 := mkBR r' _ _ _ _ _). unfold groupsOut. rewrite Hpos. fold (br_val b).
  replace (Z.to_nat (32 * Z.of_nat g)) with (32 * g)%nat by lia.
  rewrite firstn_app, length_fields, Nat.sub_diag, firstn_O, app_nil_r, firstn_all2 by (rewrite length_fields; lia).
  replace (32 * Z.of_nat g) with (Z.of_nat (32 * g)) by lia.
  assert (HD1 : br_data b1 = br_data b) by exact Hd.
  assert (HP1 : br_pos b1 = br_pos b + Z.of_nat (32 * g) * bits)
    by (unfold br_pos; cbn [b1 br_byteoffset br_bitoffset]; lia).
  assert (HM : movedTo b b1 (br_pos b + Z.of_nat (32 * g) * bits)).
  { split; [|split; [exact HD1|exact HP1]]. destruct HO as [A1 A2 A3 A4 A5].
    assert (0 <= 4 * bits * Z.of_nat g) by (apply Z.mul_nonneg_nonneg; lia).
    constructor; [now rewrite HD1|cbn [b1 br_byteoffset]; lia|exact A3|exact A4|]. cbn [b1 br_bitoffset]. congruence. }
  destruct Hcase as [(-> & Hgn & Hrp)|(He & Hgn & Hsh)].
  - destruct (Z.eqb_spec (Z.of_nat (32 * g)) 0) as [Hg0|Hg0].
    + exists b1, (32 * g)%nat, None. splits; auto; lia.
    + assert (HV1 : br_val b1 = br_val b) by (unfold br_val; now rewrite HD1).
      destruct (IH b1 (skipn (32 * g) out)) as (b' & k & e & -> & Hk & HM' & Hb' & Hmax' & Hc);
        [rewrite length_skipn; lia|apply HM|exact H0|cbn [b1 br_reader br_byteoffset]; lia|lia|].
      rewrite length_skipn in Hk, Hc. rewrite HD1, HP1 in *. exists b', (32 * g + k)%nat, e.
      split; [|split; [lia|split; [|split; [exact Hb'|split; [lia|]]]]].
      * rewrite fields_app, HV1, skipn_skipn, <- app_assoc, (Nat.add_comm k), (Nat2Z.inj_add (32 * g) k). reflexivity.
      * rewrite Nat2Z.inj_add, Z.mul_add_distr_r, Z.add_assoc. eauto using movedTo_trans.
      * destruct Hc as [->|(He & Hlt & Hsh)]; [now left|right]. splits; auto; lia.
  - exists b1, (32 * g)%nat, e. split; [destruct He as [-> | ->]; reflexivity|].
    splits; auto; try lia. right. splits; auto; nia.
Qed.

(** The middle part of [GetBatch]. *)
Lemma unpackStage_ok b bits out :
  brOk b -> out = [] \/ br_bitoffset b = 0 -> 0 <= bits <= 64 ->
  exists b' k e,
    (if bits <=? 32 then BR.unpackChunks (S (List.length out)) (BR.seekTo b) bits out else (b, out, 0, None))
      = (b', fields (br_val b) (br_pos b) bits k ++ skipn k out, Z.of_nat k, e) /\
    (k <= List.length out)%nat /\ movedTo b b' (br_pos b + Z.of_nat k * bits) /\
    br_pos b + Z.of_nat k * bits <= Z.max (br_pos b) (8 * len (br_data b)) /\
    (e = None \/ (e = Some EOF \/ e = Some ErrUnexpectedEOF) /\ (k < List.length out)%nat /\
      8 * len (br_data b) < br_pos b + len out * bits).
Proof.
  intros HO Hal Hbits.
  assert (HS : movedTo b (BR.seekTo b) (br_pos b)) by (split; [now destruct HO|split; reflexivity]).
  assert (Hz : forall b', movedTo b b' (br_pos b) -> movedTo b b' (br_pos b + Z.of_nat 0 * bits))
    by (intros; cbn [Z.of_nat]; now rewrite Z.mul_0_l, Z.add_0_r).
  destruct (Z.leb_spec bits 32).
  - destruct Hal as [->|Hal].
    + exists (BR.seekTo b), O, None. splits; auto; lia.
    + destruct (unpackChunks_ok (S (List.length out)) (BR.seekTo b) bits out)
        as (b' & k & e & HE & Hk & HM & _ & Hmax & Hc); [lia|apply HS|exact Hal|reflexivity|lia|].
      exists b', k, e. splits; auto.
  - exists b, O, None. splits; auto using movedTo_refl; lia.
Qed.

Lemma length_readOut b bits k out e :
  (e = None /\ k <= List.length out \/ k < List.length out)%nat ->
  List.length (readOut b bits k out e) = List.length out.
Proof.
  intros Hk. unfold readOut. rewrite length_app, length_fields.
  destruct Hk as [[-> Hk]|Hk]; [rewrite length_skipn; lia|].
  destruct e; cbn [List.length]; rewrite length_skipn; lia.
Qed.

Lemma firstn_fields_app x p w k t : firstn k (fields x p w k ++ t) = fields x p w k.
Proof.
  rewrite firstn_app, length_fields, Nat.sub_diag, firstn_O, app_nil_r.
  apply firstn_all2. rewrite length_fields. lia.
Qed.

Lemma skipn_fields_app x p w k t : skipn k (fields x p w k ++ t) = t.
Proof. rewrite skipn_app, length_fields, Nat.sub_diag, skipn_all2, skipn_O by (rewrite length_fields; lia). reflexivity. Qed.

(** [GetBatch] on any data.  It fills the slice and moves past the values when the data
    has them all; otherwise it fails, with the values before the failure in place. *)
Lemma GetBatch_full b bits out :
  brOk b -> 0 <= bits <= 64 -> br_pos b <= 8 * len (br_data b) ->
  exists b' out' k e, BR.GetBatch b bits out = (b', out', Z.of_nat k, e) /\
    List.length out' = List.length out /\ (k <= List.length out)%nat /\
    firstn k out' = fields (br_val b) (br_pos b) bits k /\
    (e = None /\ k = List.length out /\ br_pos b + len out * bits <= 8 * len (br_data b) /\
       movedTo b b' (br_pos b + len out * bits) \/
     (e = Some EOF \/ e = Some ErrUnexpectedEOF) /\ (k < List.length out)%nat /\
     8 * len (br_data b) < br_pos b + len out * bits).
Proof.
  intros HO Hbits Hpos. unfold BR.GetBatch. bool_lia (64 <? bits).
  destruct (scalarLoop_ok true b bits out HO) as (b1 & k1 & e1 & -> & HR1 & Hend);
    [intros [?|?]; [discriminate|now apply HO]|lia|lia|].
  destruct HR1 as (Hk1 & Hb1 & [[-> HM1]|(-> & Hlt & Hsh)]).
  2:{ exists b1, (readOut b bits k1 out (Some ErrUnexpectedEOF)), k1, (Some ErrUnexpectedEOF).
      splits; auto; [apply length_readOut; auto|apply firstn_fields_app|]. right. splits; auto; nia. }
  destruct (movedTo_val _ _ _ HM1) as (HV1 & HD1 & HP1).
  rewrite Nat2Z.id. unfold readOut at 1 2 3 4. rewrite firstn_fields_app, skipn_fields_app.
  set (left1 := skipn k1 out). assert (HL : List.length left1 = (List.length out - k1)%nat) by apply length_skipn.
  destruct (unpackStage_ok b1 bits left1) as (b2 & k2 & e2 & -> & Hk2 & HM2 & Hmax & Hc); [apply HM1| |lia|].
  { destruct (Hend eq_refl) as [->|[_ ?]]; [left; apply skipn_all|now right]. }
  rewrite HV1, HP1, HD1 in *.
  assert (Happ : forall t, fields (br_val b) (br_pos b) bits k1 ++
      fields (br_val b) (br_pos b + Z.of_nat k1 * bits) bits k2 ++ t
    = fields (br_val b) (br_pos b) bits (k1 + k2) ++ t) by (intros; now rewrite fields_app, <- app_assoc).
  destruct Hc as [->|(He2 & Hlt & Hsh)].
  2:{ eexists b2, _, (k1 + k2)%nat, e2. rewrite Happ, <- Nat2Z.inj_add.
      split; [destruct He2 as [-> | ->]; reflexivity|].
      rewrite length_app, length_fields, length_skipn, firstn_fields_app. splits; auto; try lia.
      right. splits; auto; lia. }
  destruct (movedTo_val _ _ _ HM2) as (HV2 & HD2 & HP2). pose proof (proj1 HM2) as HO2.
  destruct (fillbuffer_ok b2) as (b3 & -> & HO3 & HF3 & HD3 & Hoff3 & Hbit3 & _); [apply HO2..|].
  assert (HM3 : movedTo b b3 (br_pos b + Z.of_nat (k1 + k2) * bits)).
  { split; [assumption|]. unfold sameData in *. split; [congruence|]. unfold br_pos in *. lia. }
  destruct (movedTo_val _ _ _ HM3) as (HV3 & HD3' & HP3).
  rewrite Nat2Z.id, skipn_fields_app, firstn_fields_app.
  destruct (scalarLoop_ok false b3 bits (skipn k2 left1)) as (b4 & k4 & e4 & -> & HR4 & Hend4);
    [assumption|auto|lia|rewrite HP3, HD3'; lia|].
  unfold readOut at 1. rewrite firstn_fields_app, Happ.
  eexists b4, _, (k1 + k2 + k4)%nat, e4. rewrite <- !Nat2Z.inj_add. split; [reflexivity|].
  destruct HR4 as (Hk4 & Hb4 & Hc4). rewrite HP3, HD3' in *.
  assert (HL4 : List.length (skipn k2 left1) = (List.length out - k1 - k2)%nat) by (rewrite length_skipn; lia).
  rewrite length_app, length_fields, length_readOut, HL4 by (destruct Hc4 as [[-> _]|(_ & ? & _)]; auto).
  unfold readOut. rewrite HV3, HP3, app_assoc, <- fields_app, firstn_fields_app. splits; auto; try lia.
  destruct Hc4 as [[-> HM4]|(-> & ? & ?)]; [left|right]; splits; auto; try lia.
  - destruct (Hend4 eq_refl) as [|[? _]]; [lia|discriminate].
  - destruct (Hend4 eq_refl) as [|[? _]]; [nia|discriminate].
  - destruct (Hend4 eq_refl) as [|[? _]]; [|discriminate].
    replace (br_pos b + len out * bits) with (br_pos b + Z.of_nat (k1 + k2) * bits + Z.of_nat k4 * bits) by nia.
    eauto using movedTo_trans.
  - nia.
Qed.

(** Enough data: the slice is filled with the fields of the data. *)
Lemma GetBatch_ok b bits out :
  brOk b -> 0 <= bits <= 64 -> br_pos b + len out * bits <= 8 * len (br_data b) ->
  exists b', BR.GetBatch b bits out
      = (b', fields (br_val b) (br_pos b) bits (List.length out), len out, None) /\
    movedTo b b' (br_pos b + len out * bits).
Proof.
  intros HO Hbits Hle.
  destruct (GetBatch_full b bits out HO Hbits) as (b' & out' & k & e & HE & HL & Hk & Hout & Hc); [nia|].
  destruct Hc as [(-> & -> & _ & HM)|(_ & _ & ?)]; [|lia].
  exists b'. split; [|exact HM]. rewrite HE, <- Hout, firstn_all2 by lia. reflexivity.
Qed.

(** ** Byte-aligned reads *)

(** The state after a byte-aligned read up to byte [o]. *)
Definition alignedTo (b b' : BitReader) (o : Z) : Prop :=
  movedTo b b' (8 * o) /\ br_bitoffset b' = 0.

Lemma alignedTo_off b b' o : alignedTo b b' o -> BR.CurOffset b' = o.
Proof. intros [(_ & _ & HP) H0]. unfold BR.CurOffset, br_pos in *. rewrite H0 in *. change (BytesForBits 0) with 0. lia. Qed.

Lemma CurOffset_nonneg b : brOk b -> 0 <= BR.CurOffset b.
Proof. intros []. unfold BR.CurOffset. rewrite BytesForBits_div by lia. zdiv. Qed.

(** A reader at a byte boundary is at its current offset. *)
Lemma CurOffset_aligned b o : brOk b -> br_pos b = 8 * o -> BR.CurOffset b = o.
Proof. intros [] H. unfold BR.CurOffset, br_pos in *. rewrite BytesForBits_div by lia. zdiv. Qed.

Lemma alignedDone_ok b o nbytes :
  bytes (br_data b) -> bytes (br_raw b) /\ List.length (br_raw b) = 8%nat ->
  0 <= o -> br_byteoffset b = o -> 0 <= nbytes ->
  exists b', BR.alignedDone b nbytes = (b', true) /\ alignedTo b b' (o + nbytes).
Proof.
  intros Hb Hraw Ho <- Hn. unfold BR.alignedDone.
  destruct (fillbuffer_ok (mkBR (br_reader b) (br_buffer b) (br_byteoffset b + nbytes) 0 (br_validBits b) (br_raw b)))
    as (b1 & -> & HO1 & HF1 & HD1 & Hoff1 & Hbit1 & _); [exact Hb|cbn [br_byteoffset]; lia|cbn; lia|].
  cbn [br_byteoffset br_bitoffset] in Hoff1, Hbit1.
  exists b1. split; [reflexivity|]. split; [|exact Hbit1]. split; [exact HO1|]. split; [exact HD1|].
  unfold br_pos. lia.
Qed.

(** The bytes at the current offset, as the first part of an aligned read leaves them. *)
Lemma alignedRead_ok b nbytes :
  brOk b -> 0 <= nbytes <= 8 -> BR.CurOffset b + nbytes <= len (br_data b) ->
  exists b1, BR.alignedRead b nbytes = (b1, true) /\
    sameData b b1 /\ br_byteoffset b1 = BR.CurOffset b /\
    br_raw b1 = firstn (Z.to_nat nbytes) (skipn (Z.to_nat (BR.CurOffset b)) (br_data b))
                ++ skipn (Z.to_nat nbytes) (br_raw b).
Proof.
  intros HO Hn Hle. pose proof (CurOffset_nonneg b HO) as Hoff. unfold BR.alignedRead. fold (BR.CurOffset b).
  destruct (BytesReader.ReadAt (br_reader b) nbytes (BR.CurOffset b)) as [bs err] eqn:E.
  pose proof (BytesReader.ReadAt_bytes (br_reader b) nbytes (BR.CurOffset b)) as Hbs. rewrite E in Hbs. cbn [fst] in Hbs.
  pose proof (BytesReader.ReadAt_err (br_reader b) nbytes (BR.CurOffset b) Hoff) as Herr. rewrite E in Herr. cbn [snd] in Herr.
  specialize (Hbs Hoff ltac:(lia)). fold (br_data b) in Hbs.
  assert (HL : List.length bs = Z.to_nat nbytes) by (rewrite Hbs, length_firstn, length_skipn; lia).
  eexists. split; [|split; [|split]].
  - bool_lia (len bs =? nbytes). destruct Herr as [-> | ->]; reflexivity.
  - reflexivity.
  - reflexivity.
  - cbn [br_raw]. rewrite <- Hbs. rewrite splice_in by (destruct HO as [_ _ _ [_ ->] _]; lia).
    cbn [firstn app Nat.add]. now rewrite HL.
Qed.

Lemma alignedRead_eof b nbytes :
  brOk b -> 0 < nbytes -> len (br_data b) <= BR.CurOffset b -> snd (BR.alignedRead b nbytes) = false.
Proof.
  intros HO Hn Hle. pose proof (CurOffset_nonneg b HO) as Hoff. unfold BR.alignedRead. fold (BR.CurOffset b).
  unfold BytesReader.ReadAt. fold (br_data b). cmp_lia. cbn [List.length snd].
  now bool_lia (Z.of_nat 0 =? nbytes).
Qed.

(** What the aligned reads return: the next [nbytes] bytes as a number. *)
Definition alignedVal (b : BitReader) (nbytes : Z) : Z :=
  leval (firstn (Z.to_nat nbytes) (skipn (Z.to_nat (BR.CurOffset b)) (br_data b))).

Definition alignedGet (get : BitReader -> Z -> BitReader * option Z) (lo hi : Z) : Prop :=
  forall b nbytes, brOk b -> lo <= nbytes <= hi -> BR.CurOffset b + nbytes <= len (br_data b) ->
  exists b', get b nbytes = (b', Some (alignedVal b nbytes)) /\ alignedTo b b' (BR.CurOffset b + nbytes).

Lemma raw_ok b n (bs : list Z) :
  brOk b -> 0 <= n <= 8 -> bytes bs -> List.length bs = Z.to_nat n ->
  bytes (bs ++ skipn (Z.to_nat n) (br_raw b)) /\
  List.length (bs ++ skipn (Z.to_nat n) (br_raw b)) = 8%nat.
Proof.
  intros [_ _ _ [Hr HL] _] Hn Hb HB. split.
  - apply bytes_app; auto with gobytes.
  - rewrite length_app, length_skipn. lia.
Qed.

(** The scratch array after the zero padding. *)
Lemma padRaw_leval (bs t : list Z) n m :
  List.length bs = Z.to_nat n -> 0 <= n <= m -> m <= len (bs ++ t) ->
  leval (firstn (Z.to_nat m) (splice (bs ++ t) (Z.to_nat n) (repeat 0 (Z.to_nat (m - n))))) = leval bs.
Proof.
  intros HB Hn Hm. rewrite splice_in by (rewrite repeat_length; lia).
  rewrite (firstn_app (Z.to_nat n) bs), HB, Nat.sub_diag, firstn_O, app_nil_r, (firstn_all2 bs) by lia.
  rewrite app_assoc, firstn_app.
  replace (Z.to_nat m - _)%nat with O by (rewrite length_app, repeat_length; lia).
  rewrite firstn_O, app_nil_r, firstn_all2 by (rewrite length_app, repeat_length; lia).
  apply leval_pad.
Qed.

(** The wider reads share one body. *)
Lemma alignedWide_ok m (get : BitReader -> Z -> BitReader * option Z) :
  0 < m <= 8 ->
  (forall b nbytes, get b nbytes =
    if m <? nbytes then (b, None)
    else match BR.alignedRead b nbytes with
         | (b1, false) => (b1, None)
         | (b1, true) =>
             let b1 := BR.padRaw b1 nbytes m in
             let v := leval (firstn (Z.to_nat m) (br_raw b1)) in
             let '(b2, ok) := BR.alignedDone b1 nbytes in (b2, if ok : bool then Some v else None)
         end) ->
  alignedGet get 0 m.
Proof.
  intros Hm Hget b nbytes HO Hn Hle. rewrite Hget. bool_lia (m <? nbytes).
  destruct (alignedRead_ok b nbytes HO ltac:(lia) Hle) as (b1 & -> & HD & Hoff & Hraw).
  set (bs := firstn _ _) in Hraw.
  assert (HL : List.length bs = Z.to_nat nbytes)
    by (subst bs; rewrite length_firstn, length_skipn; pose proof (CurOffset_nonneg b HO); lia).
  assert (Hbs : bytes bs) by (subst bs; destruct HO; auto with gobytes).
  destruct (raw_ok b nbytes bs HO ltac:(lia) Hbs HL) as [Hr1 Hr2].
  cbv zeta. destruct (alignedDone_ok (BR.padRaw b1 nbytes m) (BR.CurOffset b) nbytes) as (b2 & -> & HA).
  - change (br_data (BR.padRaw b1 nbytes m)) with (br_data b1). rewrite HD. apply HO.
  - cbn [BR.padRaw br_raw]. rewrite Hraw, length_splice by lia. auto with gobytes.
  - apply CurOffset_nonneg, HO.
  - exact Hoff.
  - lia.
  - exists b2. split.
    + cbn [BR.padRaw br_raw]. rewrite Hraw, padRaw_leval by lia. reflexivity.
    + destruct HA as [(H1 & H2 & H3) H0]. split; [|exact H0]. split; [exact H1|]. split; [|exact H3].
      unfold sameData in *. rewrite H2. exact HD.
Qed.

Lemma getAlignedUint16_ok : alignedGet BR.getAlignedUint16 0 2.
Proof. apply alignedWide_ok; [lia|reflexivity]. Qed.

Lemma getAlignedUint32_ok : alignedGet BR.getAlignedUint32 0 4.
Proof. apply alignedWide_ok; [lia|reflexivity]. Qed.

Lemma getAlignedUint64_ok : alignedGet BR.getAlignedUint64 0 8.
Proof. apply alignedWide_ok; [lia|reflexivity]. Qed.

Lemma getAlignedUint8_ok : alignedGet BR.getAlignedUint8 1 1.
Proof.
  intros b n HO Hn Hle. assert (n = 1) by lia. subst n. unfold BR.getAlignedUint8. cbn [Z.ltb Z.compare Pos.compare Pos.compare_cont].
  destruct (alignedRead_ok b 1 HO ltac:(lia) Hle) as (b1 & -> & HD & Hoff & Hraw).
  set (bs := firstn _ _) in Hraw. pose proof (CurOffset_nonneg b HO) as H0.
  assert (HL : List.length bs = 1%nat) by (subst bs; rewrite length_firstn, length_skipn; lia).
  assert (Hbs : bytes bs) by (subst bs; destruct HO; auto with gobytes).
  destruct (raw_ok b 1 bs HO ltac:(lia) Hbs HL) as [Hr1 Hr2].
  destruct (alignedDone_ok b1 (BR.CurOffset b) 1) as (b2 & -> & HA);
    [rewrite HD; apply HO|rewrite Hraw; auto|auto|exact Hoff|lia|].
  exists b2. split.
  - cbv zeta beta iota. rewrite Hraw. unfold alignedVal. fold bs.
    destruct bs as [|x [|]]; cbn in HL; try lia. cbn [app nth leval]. do 2 f_equal. lia.
  - destruct HA as [(H1 & H2 & H3) H4]. split; [|exact H4]. split; [exact H1|]. split; [|exact H3].
    unfold sameData in *. rewrite H2. exact HD.
Qed.

(** ** Varints *)

Lemma ReadByte_ok b :
  brOk b -> BR.CurOffset b < len (br_data b) ->
  exists b', Binary.ReadByte b = (b', inl (nth (Z.to_nat (BR.CurOffset b)) (br_data b) 0)) /\
    alignedTo b b' (BR.CurOffset b + 1).
Proof.
  intros HO Hlt. destruct (getAlignedUint8_ok b 1 HO ltac:(lia) ltac:(lia)) as (b' & HE & HA).
  exists b'. split; [|exact HA]. unfold Binary.ReadByte, BR.ReadByte. rewrite HE. do 2 f_equal.
  unfold alignedVal. pose proof (CurOffset_nonneg b HO).
  rewrite leval_slice by apply HO. rewrite nth_leval by apply HO. reflexivity.
Qed.

Lemma ReadByte_eof b :
  brOk b -> len (br_data b) <= BR.CurOffset b ->
  exists b', Binary.ReadByte b = (b', inr (ErrMsg "failed to read byte")).
Proof.
  intros HO Hle. unfold Binary.ReadByte, BR.ReadByte, BR.getAlignedUint8.
  cbn [Z.ltb Z.compare Pos.compare Pos.compare_cont].
  pose proof (alignedRead_eof b 1 HO ltac:(lia) Hle) as He.
  destruct (BR.alignedRead b 1) as [b1 ok]. cbn [snd] in He. subst ok. eauto.
Qed.

(** A non-empty run of bytes at the current offset is delivered one by one. *)
Lemma delivers_ok bs b :
  brOk b -> bs <> [] ->
  firstn (List.length bs) (skipn (Z.to_nat (BR.CurOffset b)) (br_data b)) = bs ->
  exists b', Binary.delivers b bs b' /\ alignedTo b b' (BR.CurOffset b + len bs).
Proof.
  revert b. induction bs as [|x bs IH]; intros b HO Hne Hbs; [congruence|].
  assert (Hlt : BR.CurOffset b < len (br_data b)).
  { apply (f_equal (@List.length Z)) in Hbs. rewrite length_firstn, length_skipn in Hbs. cbn [List.length] in Hbs.
    pose proof (CurOffset_nonneg b HO). lia. }
  destruct (ReadByte_ok b HO Hlt) as (b1 & HR & HA). pose proof (CurOffset_nonneg b HO) as H0.
  rewrite (skipn_cons _ (Z.to_nat (BR.CurOffset b)) 0) in Hbs by lia. cbn [List.length firstn] in Hbs.
  injection Hbs as Hx Hbs. rewrite Hx in HR. pose proof (alignedTo_off _ _ _ HA) as Hoff1.
  destruct bs as [|y bs].
  - exists b1. split; [|exact HA]. econstructor; [exact HR|constructor].
  - destruct (IH b1) as (b' & Hd & HA'); [apply HA|discriminate| |].
    + rewrite Hoff1. destruct HA as [(_ & HD & _) _]. red in HD. rewrite HD.
      replace (Z.to_nat (BR.CurOffset b + 1)) with (S (Z.to_nat (BR.CurOffset b))) by lia. exact Hbs.
    + exists b'. split; [econstructor; eauto|]. rewrite Hoff1 in HA'.
      replace (BR.CurOffset b + len (x :: y :: bs)) with (BR.CurOffset b + 1 + len (y :: bs)) by (cbn [List.length]; lia).
      destruct HA as [HM _], HA' as [HM' ?]. split; [|assumption]. eauto using movedTo_trans.
Qed.

(** A varint at the current offset is read, in as many bytes as it has. *)
Lemma GetVlqInt_ok b x :
  brOk b -> 0 <= x < 2 ^ 64 ->
  firstn (List.length (Binary.PutUvarint x)) (skipn (Z.to_nat (BR.CurOffset b)) (br_data b)) = Binary.PutUvarint x ->
  exists b', BR.GetVlqInt b = (b', Some x) /\ alignedTo b b' (BR.CurOffset b + len (Binary.PutUvarint x)).
Proof.
  intros HO Hx Hbs. destruct (delivers_ok (Binary.PutUvarint x) b HO) as (b' & Hd & HA); [|exact Hbs|].
  - pose proof (Binary.putUvarint_length Binary.MaxVarintLen64 x ltac:(unfold Binary.MaxVarintLen64; lia)) as HL.
    unfold Binary.PutUvarint. intros E. rewrite E in HL. cbn in HL. lia.
  - exists b'. split; [|exact HA]. unfold BR.GetVlqInt. rewrite (Binary.ReadUvarint_put x b b') by assumption. reflexivity.
Qed.

Lemma GetVlqInt_eof b :
  brOk b -> len (br_data b) <= BR.CurOffset b -> exists b', BR.GetVlqInt b = (b', None).
Proof.
  intros HO Hle. destruct (ReadByte_eof b HO Hle) as (b' & HE). exists b'.
  unfold BR.GetVlqInt, Binary.ReadUvarint, Binary.MaxVarintLen64. cbn [Binary.readUvarint]. now rewrite HE.
Qed.

(** ** Discard *)

(** The loops of [Discard] are those of [GetBatch] without the stores. *)
Lemma discardLoop_scalarLoop u b bits out :
  BR.discardLoop u b bits (List.length out) =
    let '(b', _, i, e) := BR.scalarLoop u b bits out in (b', i, e).
Proof.
  revert b. induction out as [|o out IH]; intros b; cbn [BR.discardLoop BR.scalarLoop List.length]; [reflexivity|].
  destruct (u && (br_bitoffset b =? 0)); [reflexivity|].
  destruct (BR.next b bits) as [b1 [v|e]]; [|reflexivity].
  rewrite IH. now destruct (BR.scalarLoop u b1 bits out) as [[[b2 rest] n] e].
Qed.

Lemma discardLoop_ok u b bits n :
  brOk b -> (u = false \/ br_bitoffset b <> 0 -> filled b) -> 0 <= bits <= 64 ->
  br_pos b <= 8 * len (br_data b) ->
  exists b' k e, BR.discardLoop u b bits n = (b', Z.of_nat k, e) /\ readRes b b' bits k n e /\
    (e = None -> k = n \/ u = true /\ br_bitoffset b' = 0).
Proof.
  intros HO HF Hbits Hpos.
  destruct (scalarLoop_ok u b bits (repeat 0 n) HO HF Hbits Hpos) as (b' & k & e & HE & HR & Hend).
  rewrite repeat_length in HR, Hend. exists b', k, e. split; [|auto].
  rewrite <- (repeat_length 0 n) at 1. rewrite discardLoop_scalarLoop, HE. reflexivity.
Qed.

(** The skip of whole groups. *)
Lemma discardGroups_ok b bits n :
  brOk b -> n = 0 \/ br_bitoffset b = 0 -> 0 <= bits <= 64 -> 0 <= n ->
  br_pos b + n * bits <= 8 * len (br_data b) -> 8 * len (br_data b) < 2 ^ 63 - 7 ->
  exists b' k, BR.discardGroups b bits n = (b', k, None) /\ 0 <= k <= n /\
    movedTo b b' (br_pos b + k * bits).
Proof.
  intros HO Hal Hbits Hn Hle Hmax. unfold BR.discardGroups.
  assert (Hstop : movedTo b b (br_pos b + 0 * bits)) by (rewrite Z.mul_0_l, Z.add_0_r; now apply movedTo_refl).
  destruct (Z.ltb_spec 32 n) as [Hbig|Hsmall]; [|exists b, 0; splits; auto; lia].
  destruct Hal as [->|Hal]; [lia|]. rewrite Z.quot_div_nonneg by lia.
  set (g := n / 32). assert (Hg : 0 <= g * 32 <= n) by (subst g; zdiv).
  pose proof HO as [Hb Hoff Hbit Hraw _].
  assert (Hpos : br_pos b = 8 * br_byteoffset b) by (unfold br_pos; lia).
  assert (Hgb : g * 32 * bits <= n * bits) by nia.
  rewrite BytesForBits_div by nia. replace ((g * 32 * bits + 7) / 8) with (4 * g * bits) by zdiv.
  set (r := if 0 <? 4 * g * bits then _ else _).
  assert (Hr : List.length (fst r) = 1%nat).
  { subst r. destruct (Z.ltb_spec 0 (4 * g * bits)); [|reflexivity].
    rewrite BytesReader.ReadAt_bytes by lia. fold (br_data b).
    rewrite length_firstn, length_skipn. lia. }
  destruct r as [bs err]. cbn [fst] in Hr. rewrite Hr. cbn [Z.of_nat Pos.of_succ_nat Z.eqb Pos.eqb].
  eexists _, _. split; [reflexivity|]. split; [lia|].
  split; [|split; [reflexivity|]].
  - constructor; auto; cbn [br_byteoffset br_bitoffset]; [nia|congruence].
  - unfold br_pos. cbn [br_byteoffset br_bitoffset]. lia.
Qed.

Lemma Discard_ok b bits n :
  brOk b -> 0 <= bits <= 64 -> 0 <= n ->
  br_pos b + n * bits <= 8 * len (br_data b) -> 8 * len (br_data b) < 2 ^ 63 - 7 ->
  exists b', BR.Discard b bits n = (b', n, None) /\ movedTo b b' (br_pos b + n * bits).
Proof.
  intros HO Hbits Hn Hle Hmax. unfold BR.Discard. bool_lia (64 <? bits).
  destruct (discardLoop_ok true b bits (Z.to_nat n) HO) as (b1 & k1 & e1 & -> & HR1 & Hend);
    [intros [?|?]; [discriminate|now apply HO]|lia|nia|].
  destruct HR1 as (Hk1 & Hb1 & [[-> HM1]|(-> & Hlt & Hsh)]); [|nia].
  destruct (movedTo_val _ _ _ HM1) as (HV1 & HD1 & HP1).
  destruct (discardGroups_ok b1 bits (n - Z.of_nat k1)) as (b2 & k2 & -> & Hk2 & HM2);
    [apply HM1|destruct (Hend eq_refl) as [->|[_ ?]]; [left; lia|now right]|lia|lia|rewrite HP1, HD1; nia|rewrite HD1; lia|].
  pose proof (proj1 HM2) as HO2. rewrite HP1 in HM2.
  destruct (movedTo_val _ _ _ (movedTo_trans _ _ _ _ _ HM1 HM2)) as (HV2 & HD2 & HP2).
  destruct (fillbuffer_ok b2) as (b3 & -> & HO3 & HF3 & HD3 & Hoff3 & Hbit3 & _); [apply HO2..|].
  assert (HM3 : movedTo b b3 (br_pos b + (Z.of_nat k1 + k2) * bits)).
  { split; [assumption|]. unfold sameData in *. split; [congruence|]. unfold br_pos in *. lia. }
  destruct (movedTo_val _ _ _ HM3) as (HV3 & HD3' & HP3).
  destruct (discardLoop_ok false b3 bits (Z.to_nat (n - Z.of_nat k1 - k2))) as (b4 & k4 & e4 & -> & HR4 & Hend4);
    [assumption|auto|lia|rewrite HP3, HD3'; nia|].
  destruct HR4 as (Hk4 & Hb4 & [[-> HM4]|(-> & ? & ?)]); rewrite HP3, HD3' in *; [|nia].
  exists b4. split; [reflexivity|]. destruct (Hend4 eq_refl) as [->|[? _]]; [|discriminate].
  replace (br_pos b + n * bits) with (br_pos b + (Z.of_nat k1 + k2) * bits + Z.of_nat (Z.to_nat (n - Z.of_nat k1 - k2)) * bits) by nia.
  eauto using movedTo_trans.
Qed.

(** ** Claims *)

(** [GetBatch(bits, out)] from any reachable reader state, at any bit position: the values
    are the consecutive [bits]-wide fields of the data.  When the data holds them all the
    slice is filled, no error is returned and the reader is right after them; otherwise an
    end-of-data error is returned with the number of values read before it. *)
Theorem get_batch_correct b bits out :
  brOk b -> 0 <= bits <= 64 -> br_pos b <= 8 * len (br_data b) ->
  exists b' out' k e, BR.GetBatch b bits out = (b', out', Z.of_nat k, e) /\
    List.length out' = List.length out /\ (k <= List.length out)%nat /\
    firstn k out' = fields (br_val b) (br_pos b) bits k /\
    (e = None /\ k = List.length out /\ br_pos b + len out * bits <= 8 * len (br_data b) /\
       movedTo b b' (br_pos b + len out * bits) \/
     (e = Some EOF \/ e = Some ErrUnexpectedEOF) /\ (k < List.length out)%nat /\
     8 * len (br_data b) < br_pos b + len out * bits).
Proof. apply GetBatch_full. Qed.

(** [Discard(bits, n)] moves the reader past [n] values, as reading them would: a batch
    read after it starts with the value after the skipped ones. *)
Theorem discard_correct b bits n out :
  brOk b -> 0 <= bits <= 64 -> 0 <= n -> br_pos b + (n + len out) * bits <= 8 * len (br_data b) ->
  8 * len (br_data b) < 2 ^ 63 - 7 ->
  exists b1 b2, BR.Discard b bits n = (b1, n, None) /\
    BR.GetBatch b1 bits out
      = (b2, fields (br_val b) (br_pos b + n * bits) bits (List.length out), len out, None).
Proof.
  intros HO Hbits Hn Hle Hmax. destruct (Discard_ok b bits n HO Hbits Hn ltac:(nia) Hmax) as (b1 & HE & HM).
  destruct (movedTo_val _ _ _ HM) as (HV & HD & HP).
  destruct (GetBatch_ok b1 bits out) as (b2 & HB & _); [apply HM|lia|rewrite HP, HD; lia|].
  exists b1, b2. split; [exact HE|]. now rewrite HB, HV, HP.
Qed.

