(* ===== verification/BitReaderBatch.v ===== *)
(** * The specialised batch reads of the bit reader (parquet/internal/utils/bit_reader.go)

    [GetBatchLevels] reads levels and counts the maximal ones, with loops and checks of its
    own; it is shown to deliver what [GetBatch] does. *)

From Stdlib Require Import ZArith List Lia Bool String.
From S2P Require Import Prelude GoStd BitUtil BitPacking BitReader.
Import ListNotations.
#[local] Open Scope Z_scope.
#[local] Open Scope go_scope.

Module BRL.

(** The scalar loops of [GetBatchLevels]: the slice afterwards, the number of levels, the
    number of them equal to [maxLevel], the error. *)
Fixpoint levelsLoop (untilAligned : bool) (b : BitReader) (bits : Z) (out : list Z) (maxLevel : Z)
    : BitReader * list Z * Z * Z * option goerr :=
  match out with
  | [] => (b, [], 0, 0, None)
  | o :: rest =>
      if untilAligned && (br_bitoffset b =? 0) then (b, out, 0, 0, None)
      else match BR.next b bits with
           | (b1, inr e) => (b1, out, 0, 0, Some e)
           | (b1, inl val) =>
               let level := i16 val in
               let '(b2, rest', n, c, e) := levelsLoop untilAligned b1 bits rest maxLevel in
               (b2, level :: rest', 1 + n, (if level =? maxLevel then 1 else 0) + c, e)
           end
  end.

Definition countMax (maxLevel : Z) (levels : list Z) : Z :=
  fold_left (fun c level => if level =? maxLevel then c + 1 else c) levels 0.

(** The loop over [unpack32]. *)
Fixpoint levelsChunks (fuel : nat) (b : BitReader) (bits : Z) (out : list Z) (maxLevel : Z)
    : BitReader * list Z * Z * Z * option goerr :=
  match fuel with
  | O => (b, out, 0, 0, None)
  | S fuel' =>
      if len out =? 0 then (b, out, 0, 0, None)
      else
        let unpackSize := Z.min buflen (len out) in
        let '(r, buf, numUnpacked, err) :=
          unpack32Default (br_reader b) (repeat 0 (Z.to_nat unpackSize)) bits in
        let levels := map i16 (firstn (Z.to_nat numUnpacked) buf) in
        let rest := skipn (Z.to_nat numUnpacked) out in
        let b1 := mkBR r (br_buffer b) (br_byteoffset b + Z.quot (numUnpacked * bits) 8)
                       (br_bitoffset b) (br_validBits b) (br_raw b) in
        match err with
        | Some e => (b1, levels ++ rest, numUnpacked, countMax maxLevel levels, Some e)
        | None =>
            if numUnpacked =? 0 then (b1, levels ++ rest, numUnpacked, countMax maxLevel levels, None)
            else
              let '(b2, rest', n, c, e) := levelsChunks fuel' b1 bits rest maxLevel in
              (b2, levels ++ rest', numUnpacked + n, countMax maxLevel levels + c, e)
        end
  end.

(** [GetBatchLevels(bits, out, maxLevel)] *)
Definition GetBatchLevels (b : BitReader) (bits : Z) (out : list Z) (maxLevel : Z)
    : BitReader * list Z * Z * Z * option goerr :=
  if 16 <? bits then (b, out, 0, 0, Some (ErrMsg "must be 16 bits or less per read"))
  else
    let '(b1, out1, i1, c1, e1) := levelsLoop true b bits out maxLevel in
    match e1 with
    | Some e => (b1, out1, i1, c1, Some e)
    | None =>
        let done1 := firstn (Z.to_nat i1) out1 in
        let left1 := skipn (Z.to_nat i1) out1 in
        let '(b2, left2, i2, c2, e2) := levelsChunks (S (List.length left1)) (BR.seekTo b1) bits left1 maxLevel in
        match e2 with
        | Some e => (b2, done1 ++ left2, i1 + i2, c1 + c2, Some e)
        | None =>
            match BR.fillbuffer b2 with
            | (b3, Some e) => (b3, done1 ++ left2, i1 + i2, c1 + c2, Some e)
            | (b3, None) =>
                let '(b4, left4, i4, c4, e4) := levelsLoop false b3 bits (skipn (Z.to_nat i2) left2) maxLevel in
                (b4, done1 ++ firstn (Z.to_nat i2) left2 ++ left4, i1 + i2 + i4, c1 + c2 + c4, e4)
            end
        end
    end.

End BRL.

(** ** Levels *)

Definition asLevels (maxLevel : Z) (out : list Z) (res : BitReader * list Z * Z * option goerr)
    : BitReader * list Z * Z * Z * option goerr :=
  let '(b', o, k, e) := res in
  let levels := map i16 (firstn (Z.to_nat k) o) in
  (b', levels ++ skipn (Z.to_nat k) out, k, BRL.countMax maxLevel levels, e).

Lemma countMax_acc mx l c : fold_left (fun c level => if level =? mx then c + 1 else c) l c = c + BRL.countMax mx l.
Proof.
  unfold BRL.countMax. revert c. induction l as [|x l IH]; intros c; cbn [fold_left]; [lia|].
  rewrite IH, (IH (if x =? mx then 0 + 1 else 0)). destruct (x =? mx); lia.
Qed.

Lemma countMax_app mx l1 l2 : BRL.countMax mx (l1 ++ l2) = BRL.countMax mx l1 + BRL.countMax mx l2.
Proof. unfold BRL.countMax at 1. rewrite fold_left_app. apply countMax_acc. Qed.

Lemma countMax_cons mx x l : BRL.countMax mx (x :: l) = (if x =? mx then 1 else 0) + BRL.countMax mx l.
Proof. apply (countMax_app mx [x] l). Qed.

Lemma scalarLoop_nonneg u b bits out b' o k e : BR.scalarLoop u b bits out = (b', o, k, e) -> 0 <= k.
Proof.
  revert b b' o k e. induction out as [|x out IH]; intros b b' o k e HE; cbn [BR.scalarLoop] in HE.
  { inversion HE; subst. lia. }
  destruct (u && _); [inversion HE; subst; lia|]. destruct (BR.next b bits) as [b1 [v|e1]]; [|inversion HE; subst; lia].
  destruct (BR.scalarLoop u b1 bits out) as [[[b2 r] n] e2] eqn:E. assert (k = 1 + n) by congruence. apply IH in E. lia.
Qed.

Lemma scalarLoop_length u b bits out b' o k e :
  BR.scalarLoop u b bits out = (b', o, k, e) -> List.length o = List.length out /\ k <= len out.
Proof.
  revert b b' o k e. induction out as [|x out IH]; intros b b' o k e HE; cbn [BR.scalarLoop] in HE.
  { inversion HE; subst. cbn. lia. }
  destruct (u && _); [inversion HE; subst; cbn [List.length]; lia|].
  destruct (BR.next b bits) as [b1 [v|e1]]; [|inversion HE; subst; cbn [List.length]; lia].
  destruct (BR.scalarLoop u b1 bits out) as [[[b2 r] n] e2] eqn:E. assert (k = 1 + n /\ o = v :: r) as [-> ->] by (split; congruence).
  apply IH in E. cbn [List.length]. lia.
Qed.

Lemma levelsLoop_scalarLoop u b bits out mx :
  BRL.levelsLoop u b bits out mx = asLevels mx out (BR.scalarLoop u b bits out).
Proof.
  revert b. induction out as [|x out IH]; intros b; cbn [BRL.levelsLoop BR.scalarLoop]; [reflexivity|].
  destruct (u && _); [reflexivity|]. destruct (BR.next b bits) as [b1 [v|e1]]; [|reflexivity]. rewrite IH.
  destruct (BR.scalarLoop u b1 bits out) as [[[b2 r] n] e2] eqn:E. apply scalarLoop_nonneg in E. cbn [asLevels].
  replace (Z.to_nat (1 + n)) with (S (Z.to_nat n)) by lia. cbn [firstn skipn map app]. now rewrite countMax_cons.
Qed.

Lemma levelsChunks_unpackChunks fuel b bits out mx :
  (List.length out < fuel)%nat -> brOk b -> br_bitoffset b = 0 ->
  BytesReader.pos (br_reader b) = br_byteoffset b -> 0 <= bits <= 32 ->
  BRL.levelsChunks fuel b bits out mx = asLevels mx out (BR.unpackChunks fuel b bits out).
Proof.
  revert b out. induction fuel as [|fuel IH]; intros b out Hfuel HO H0 Hrd Hbits; [lia|].
  cbn [BRL.levelsChunks BR.unpackChunks]. destruct (Z.eqb_spec (len out) 0) as [Hz|Hz]; [reflexivity|].
  set (n := Z.min buflen (len out)). assert (Hn : 0 < n <= len out) by (subst n; unfold buflen; lia).
  destruct (unpack32Default_ok (br_reader b) (repeat 0 (Z.to_nat n)) bits)
    as (g & r' & e & -> & Hd & Hp' & Hg & Hmax & Hcase); [lia|apply HO|rewrite Hrd; apply HO|].
  rewrite repeat_length in Hg, Hcase. set (buf := groupsOut _ _ _ _ _).
  assert (HLb : List.length (firstn (Z.to_nat (32 * Z.of_nat g)) buf) = Z.to_nat (32 * Z.of_nat g)).
  { subst buf. unfold groupsOut. rewrite length_firstn, length_app, length_fields. lia. }
  set (vals := firstn _ buf) in *. set (k := 32 * Z.of_nat g) in *. set (b1 := mkBR r' _ _ _ _ _).
  assert (Hone : forall e, (b1, map i16 vals ++ skipn (Z.to_nat k) out, k, BRL.countMax mx (map i16 vals), e)
      = asLevels mx out (b1, vals ++ skipn (Z.to_nat k) out, k, e)).
  { intros e'. cbn [asLevels]. now rewrite firstn_app, HLb, Nat.sub_diag, firstn_O, app_nil_r, firstn_all2 by lia. }
  destruct Hcase as [(-> & Hgn & Hrp)|(He & Hgn & Hsh)]; [|destruct He as [-> | ->]; apply Hone].
  destruct (Z.eqb_spec k 0) as [Hg0|Hg0]; [apply Hone|].
  assert (HO1 : brOk b1).
  { destruct HO as [A1 A2 A3 A4 A5]. constructor; [unfold br_data; cbn [b1 br_reader]; rewrite Hd; exact A1| |exact A3|exact A4|cbn [b1 br_bitoffset]; congruence].
    cbn [b1 br_byteoffset]. assert (0 <= k * bits) by nia. pose proof (Z.quot_pos (k * bits) 8). lia. }
  assert (Hrd1 : BytesReader.pos (br_reader b1) = br_byteoffset b1).
  { cbn [b1 br_reader br_byteoffset]. rewrite Hrp, Hrd. f_equal. subst k.
    replace (32 * Z.of_nat g * bits) with (4 * bits * Z.of_nat g * 8) by lia. now rewrite Z.quot_mul. }
  rewrite IH; auto; [|rewrite length_skipn; lia].
  destruct (unpackChunks_ok fuel b1 bits (skipn (Z.to_nat k) out)) as (b' & j & e & -> & Hj & _); auto; [rewrite length_skipn; lia|].
  cbn [asLevels]. rewrite Nat2Z.id. replace (Z.to_nat (k + Z.of_nat j)) with (Z.to_nat k + j)%nat by lia.
  rewrite (firstn_app _ vals), HLb. replace (Z.to_nat k + j - Z.to_nat k)%nat with j by lia.
  rewrite (firstn_all2 vals) by lia. rewrite map_app, countMax_app, skipn_skipn, (Nat.add_comm j), <- app_assoc. reflexivity.
Qed.

(** The parts of a slice with [k] entries filled in. *)
Lemma filled_parts (F out : list Z) k : List.length F = k -> firstn k (F ++ skipn k out) = F /\ skipn k (F ++ skipn k out) = skipn k out.
Proof.
  intros HL. split; [rewrite firstn_app, HL, Nat.sub_diag, firstn_O, app_nil_r, firstn_all2 by lia; reflexivity|].
  rewrite skipn_app, skipn_all2, HL, Nat.sub_diag, skipn_O by lia. reflexivity.
Qed.

Lemma GetBatchLevels_GetBatch b bits out mx :
  brOk b -> 0 <= bits <= 16 -> br_pos b <= 8 * len (br_data b) ->
  BRL.GetBatchLevels b bits out mx = asLevels mx out (BR.GetBatch b bits out).
Proof.
  intros HO Hbits Hpos. unfold BRL.GetBatchLevels, BR.GetBatch. bool_lia (16 <? bits). bool_lia (64 <? bits).
  rewrite levelsLoop_scalarLoop.
  destruct (scalarLoop_ok true b bits out HO) as (b1 & k1 & e1 & -> & HR1 & Hend);
    [intros [?|?]; [discriminate|now apply HO]|lia|lia|].
  destruct HR1 as (Hk1 & Hb1 & [[-> HM1]|(-> & Hlt & Hsh)]); [|reflexivity].
  unfold readOut. cbn [asLevels]. set (F1 := fields _ _ _ k1). assert (HL1 : List.length F1 = k1) by apply length_fields.
  rewrite Nat2Z.id. destruct (filled_parts F1 out k1 HL1) as [-> ->].
  destruct (filled_parts (map i16 F1) out k1 ltac:(now rewrite length_map)) as [-> ->].
  set (left1 := skipn k1 out).
  assert (Hal : left1 = [] \/ br_bitoffset (BR.seekTo b1) = 0).
  { destruct (Hend eq_refl) as [->|[_ ?]]; [left; apply skipn_all|now right]. }
  bool_lia (bits <=? 32).
  assert (Hch : BRL.levelsChunks (S (List.length left1)) (BR.seekTo b1) bits left1 mx
      = asLevels mx left1 (BR.unpackChunks (S (List.length left1)) (BR.seekTo b1) bits left1)).
  { destruct Hal as [->|Hal]; [reflexivity|]. apply levelsChunks_unpackChunks; auto; [|lia]. now destruct HM1 as [[] _]. }
  rewrite Hch. pose proof (unpackStage_ok b1 bits left1 (proj1 HM1) Hal ltac:(lia)) as Hst.
  rewrite (proj2 (Z.leb_le bits 32)) in Hst by lia. destruct Hst as (b2 & k2 & e2 & -> & Hk2 & HM2 & _).
  set (F2 := fields _ _ _ k2). assert (HL2 : List.length F2 = k2) by apply length_fields. cbn [asLevels]. rewrite Nat2Z.id.
  destruct (filled_parts F2 left1 k2 HL2) as [-> ->].
  destruct (filled_parts (map i16 F2) left1 k2 ltac:(now rewrite length_map)) as [-> ->].
  assert (Hres : forall b' e k3 F3 t, List.length F3 = k3 ->
    (b', map i16 F1 ++ map i16 F2 ++ map i16 F3 ++ skipn k3 (skipn k2 left1), Z.of_nat k1 + Z.of_nat k2 + Z.of_nat k3,
      BRL.countMax mx (map i16 F1) + BRL.countMax mx (map i16 F2) + BRL.countMax mx (map i16 F3), e)
    = asLevels mx out (b', F1 ++ F2 ++ F3 ++ t, Z.of_nat k1 + Z.of_nat k2 + Z.of_nat k3, e)).
  { intros b' e k3 F3 t HL3. cbn [asLevels]. rewrite <- !Nat2Z.inj_add, Nat2Z.id, !app_assoc, firstn_app.
    rewrite !length_app, HL1, HL2, HL3, Nat.sub_diag, firstn_O, app_nil_r, firstn_all2 by (rewrite !length_app; lia).
    rewrite !map_app, !countMax_app. subst left1. rewrite !skipn_skipn. now replace (k3 + k2 + k1)%nat with (k1 + k2 + k3)%nat by lia. }
  destruct e2 as [e2|].
  { specialize (Hres b2 (Some e2) O [] (skipn k2 left1) eq_refl). cbn [map app Z.of_nat skipn] in Hres.
    rewrite !Z.add_0_r in Hres. exact Hres. }
  destruct (BR.fillbuffer b2) as [b3 [e3|]].
  { specialize (Hres b3 (Some e3) O [] (skipn k2 left1) eq_refl). cbn [map app Z.of_nat skipn] in Hres.
    rewrite !Z.add_0_r in Hres. exact Hres. }
  rewrite levelsLoop_scalarLoop. destruct (BR.scalarLoop false b3 bits (skipn k2 left1)) as [[[b4 o4] i4] e4] eqn:E4.
  cbn [asLevels]. pose proof (scalarLoop_nonneg _ _ _ _ _ _ _ _ E4).
  specialize (Hres b4 e4 (Z.to_nat i4) (firstn (Z.to_nat i4) o4) (skipn (Z.to_nat i4) o4)). rewrite Z2Nat.id, firstn_skipn in Hres by assumption.
  apply Hres. apply scalarLoop_length in E4. rewrite length_firstn. lia.
Qed.

(** ** Claims *)

(** [GetBatchLevels], with loops of its own, reads what [GetBatch] reads: from any reader
    state and on input of any length it leaves the same reader, delivers as many values with
    the same error, and the values are those of [GetBatch] as int16; the count is the number
    of delivered values equal to the maximal level.  Entries of the slice beyond the delivered
    ones are untouched. *)
Theorem get_batch_levels_equiv b bits out maxLevel :
  brOk b -> 0 <= bits <= 16 -> br_pos b <= 8 * len (br_data b) ->
  forall b' vals k e, BR.GetBatch b bits out = (b', vals, k, e) ->
  let levels := map i16 (firstn (Z.to_nat k) vals) in
  BRL.GetBatchLevels b bits out maxLevel = (b', levels ++ skipn (Z.to_nat k) out, k, BRL.countMax maxLevel levels, e).
Proof. intros HO Hb Hp b' vals k e HE. now rewrite GetBatchLevels_GetBatch, HE by assumption. Qed.

