(* ===== verification/BitReaderIndex.v ===== *)
(** * Dictionary indices from the bit reader (parquet/internal/utils/bit_reader.go)

    [GetBatchIndex] reads int32 indices: whole values of the buffered word without further
    checks, groups of 32 straight into the slice, the rest from the buffer again. *)

From Stdlib Require Import ZArith List Lia Bool String.
From S2P Require Import Prelude GoStd BitUtil BitPacking BitReader.
Import ListNotations.
#[local] Open Scope Z_scope.
#[local] Open Scope go_scope.

Module BRI.

(** [for range available]: values that are complete in the buffered word. *)
Fixpoint buffered (b : BitReader) (bits : Z) (available : nat) : BitReader * list Z :=
  match available with
  | O => (b, [])
  | S available' =>
      let fin := br_bitoffset b + bits in
      let v := i32 (trailingBits (br_buffer b) fin >> br_bitoffset b) in
      let '(b1, vs) := buffered (BR.setBit b fin) bits available' in (b1, v :: vs)
  end.

(** [getBatchIndexScalar(bits, out, stopAtBufferBoundary)]: the slice afterwards, the number
    of indices, the error.  Every iteration delivers an index, so the length of the slice is
    enough fuel. *)
Fixpoint getBatchIndexScalar (fuel : nat) (b : BitReader) (bits : Z) (out : list Z) (stopAtBufferBoundary : bool)
    : BitReader * list Z * Z * option goerr :=
  match out, fuel with
  | [], _ | _, O => (b, out, 0, None)
  | _ :: out1, S fuel' =>
      if stopAtBufferBoundary && ((br_bitoffset b =? 0) || (br_bitoffset b =? 64)) then
        (if br_bitoffset b =? 64
         then mkBR (br_reader b) (br_buffer b) (br_byteoffset b + 8) 0 (br_validBits b) (br_raw b) else b, out, 0, None)
      else
        let available :=
          if br_bitoffset b <? br_validBits b then Z.min ((br_validBits b - br_bitoffset b) / bits) (len out) else 0 in
        if 0 <? available then
          let '(b1, vs) := buffered b bits (Z.to_nat available) in
          let '(b2, rest, n, e) := getBatchIndexScalar fuel' b1 bits (skipn (Z.to_nat available) out) stopAtBufferBoundary in
          (b2, vs ++ rest, available + n, e)
        else
          match BR.next b bits with
          | (b1, inr e) => (b1, out, 0, Some e)
          | (b1, inl val) =>
              let '(b2, rest, n, e) := getBatchIndexScalar fuel' b1 bits out1 stopAtBufferBoundary in
              (b2, i32 val :: rest, 1 + n, e)
          end
  end.

(** The unpacking in the middle of [GetBatchIndex]: the slice is seen as uint32 values. *)
Definition unpackIndices (b : BitReader) (bits : Z) (out : list Z) : BitReader * list Z * Z * option goerr :=
  if len out =? 0 then (b, out, 0, None)
  else
    let '(r, o, numUnpacked, err) := unpack32Default (br_reader b) (map u32 out) bits in
    (mkBR r (br_buffer b) (br_byteoffset b + Z.quot (numUnpacked * bits) 8) (br_bitoffset b) (br_validBits b) (br_raw b),
     map i32 o, numUnpacked, err).

(** [GetBatchIndex(bits, out)] *)
Definition GetBatchIndex (b : BitReader) (bits : Z) (out : list Z) : BitReader * list Z * Z * option goerr :=
  if 32 <? bits then (b, out, 0, Some (ErrMsg "must be 32 bits or less per read"))
  else if bits =? 0 then (b, repeat 0 (List.length out), len out, None)
  else
    let partial := negb (br_bitoffset b =? 0) in
    let '(b1, out1, i1, e1) :=
      if partial then getBatchIndexScalar (List.length out) b bits out true else (b, out, 0, None) in
    match e1 with
    | Some e => (b1, out1, i1, Some e)
    | None =>
        if partial && (i1 =? len out) then (b1, out1, i1, None)
        else
          let done1 := firstn (Z.to_nat i1) out1 in
          let left1 := skipn (Z.to_nat i1) out1 in
          let '(b2, left2, i2, e2) := unpackIndices (BR.seekTo b1) bits left1 in
          match e2 with
          | Some e => (b2, done1 ++ left2, i1 + i2, Some e)
          | None =>
              match BR.fillbuffer b2 with
              | (b3, Some e) => (b3, done1 ++ left2, i1 + i2, Some e)
              | (b3, None) =>
                  let left3 := skipn (Z.to_nat i2) left2 in
                  let '(b4, left4, i4, e4) := getBatchIndexScalar (List.length left3) b3 bits left3 false in
                  (b4, done1 ++ firstn (Z.to_nat i2) left2 ++ left4, i1 + i2 + i4, e4)
              end
          end
    end.

End BRI.

(** ** The scalar loop *)

(** A value that is complete in the buffer. *)
Lemma inBuffer_ok b bits :
  brOk b -> filled b -> 0 < bits -> br_bitoffset b + bits <= br_validBits b ->
  trailingBits (br_buffer b) (br_bitoffset b + bits) >> br_bitoffset b = field (br_val b) (br_pos b) bits /\
  readTo b (BR.setBit b (br_bitoffset b + bits)) (br_pos b + bits).
Proof.
  intros HO HF Hb Hv. pose proof HF as [_ HV]. pose proof HO as [_ Hoff Hbit _ _].
  destruct (nextIn_ok b bits HO HF) as (b' & HE & HR); [lia|lia|unfold br_pos; lia|].
  unfold BR.nextIn in HE. rewrite (proj2 (Z.leb_le _ 64)), (proj2 (Z.ltb_ge _ _)) in HE by lia.
  assert (b' = BR.setBit b (br_bitoffset b + bits)) by congruence. subst b'. split; [congruence|exact HR].
Qed.

Lemma buffered_ok b bits n :
  brOk b -> filled b -> 0 < bits -> br_bitoffset b + Z.of_nat n * bits <= br_validBits b \/ n = O ->
  exists b', BRI.buffered b bits n = (b', map i32 (fields (br_val b) (br_pos b) bits n)) /\
    readTo b b' (br_pos b + Z.of_nat n * bits).
Proof.
  revert b. induction n as [|n IH]; intros b HO HF Hb Hn.
  { exists b. cbn [Z.of_nat]. rewrite Z.mul_0_l, Z.add_0_r. split; [reflexivity|]. split; [now apply movedTo_refl|assumption]. }
  destruct Hn as [Hn|]; [|discriminate]. rewrite Nat2Z.inj_succ, Z.mul_succ_l in *.
  destruct (inBuffer_ok b bits HO HF Hb ltac:(nia)) as [HE [HM HF1]]. destruct (movedTo_val _ _ _ HM) as (HV & HD & HP).
  destruct (IH (BR.setBit b (br_bitoffset b + bits))) as (b' & HB & HR); [apply HM|assumption|assumption| |].
  { left. cbn [BR.setBit br_bitoffset br_validBits]. lia. }
  cbn [BRI.buffered]. rewrite HB, HE, HV, HP in *. exists b'. rewrite fields_S. split; [reflexivity|].
  replace (br_pos b + (Z.of_nat n * bits + bits)) with (br_pos b + bits + Z.of_nat n * bits) by lia. eauto using readTo_trans.
Qed.

(** Reading on after [j] values. *)
Lemma readRes_after b b1 b' bits j k n e :
  movedTo b b1 (br_pos b + Z.of_nat j * bits) -> readRes b1 b' bits k n e -> readRes b b' bits (j + k) (j + n) e.
Proof.
  intros HM (Hk & Hb & Hc). destruct (movedTo_val _ _ _ HM) as (HV & HD & HP). rewrite HP, HD in *.
  split; [lia|]. split; [lia|]. destruct Hc as [[-> HM']|(-> & Hlt & Hsh)]; [left|right].
  - split; [reflexivity|].
    replace (br_pos b + Z.of_nat (j + k) * bits) with (br_pos b + Z.of_nat j * bits + Z.of_nat k * bits) by lia. eauto using movedTo_trans.
  - splits; auto; lia.
Qed.

Lemma indexScalar_ok fuel b bits out stop :
  (List.length out <= fuel)%nat -> brOk b -> (stop = false \/ br_bitoffset b <> 0 -> filled b) -> 0 < bits <= 32 ->
  br_pos b <= 8 * len (br_data b) ->
  exists b' k e, BRI.getBatchIndexScalar fuel b bits out stop
      = (b', map i32 (fields (br_val b) (br_pos b) bits k) ++ skipn k out, Z.of_nat k, e) /\
    readRes b b' bits k (List.length out) e /\
    (e = None -> k = List.length out \/ stop = true /\ br_bitoffset b' = 0).
Proof.
  revert b out. induction fuel as [|fuel IH]; intros b out Hfuel HO HF Hbits Hpos.
  { destruct out; [|cbn in Hfuel; lia]. exists b, O, None. auto using readRes_0. }
  destruct out as [|x out]; [exists b, O, None; auto using readRes_0|].
  cbn [BRI.getBatchIndexScalar]. set (l := x :: out) in *.
  destruct (stop && _) eqn:Es.
  { apply andb_true_iff in Es as [-> Es]. exists (if br_bitoffset b =? 64 then mkBR (br_reader b) (br_buffer b) (br_byteoffset b + 8) 0 (br_validBits b) (br_raw b) else b), O, None.
    split; [reflexivity|]. split; [|intros _; right; split; [reflexivity|]].
    - split; [lia|]. split; [lia|]. left. split; [reflexivity|]. cbn [Z.of_nat]. rewrite Z.mul_0_l, Z.add_0_r.
      destruct (Z.eqb_spec (br_bitoffset b) 64) as [H64|]; [|now apply movedTo_refl].
      split; [|split; [reflexivity|unfold br_pos; cbn [br_byteoffset br_bitoffset]; lia]]. destruct HO. constructor; cbn; auto; lia.
    - destruct (Z.eqb_spec (br_bitoffset b) 64); [reflexivity|]. destruct (Z.eqb_spec (br_bitoffset b) 0); [assumption|discriminate]. }
  assert (HFb : filled b).
  { apply HF. destruct stop; [right|now left]. cbn [andb] in Es. apply orb_false_iff in Es as [Es _]. now apply Z.eqb_neq. }
  set (av := if _ <? _ then _ else 0).
  assert (Hav : 0 <= av <= len l /\ br_bitoffset b + av * bits <= Z.max (br_bitoffset b) (br_validBits b)).
  { subst av. destruct (Z.ltb_spec (br_bitoffset b) (br_validBits b)); [|subst l; cbn [List.length]; lia].
    pose proof (Z.mul_div_le (br_validBits b - br_bitoffset b) bits ltac:(lia)).
    assert (0 <= (br_validBits b - br_bitoffset b) / bits) by (apply Z.div_pos; lia). split; [lia|]. nia. }
  destruct (Z.ltb_spec 0 av) as [Hav0|Hav0].
  - destruct (buffered_ok b bits (Z.to_nat av) HO HFb ltac:(lia)) as (b1 & -> & [HM HF1]); [left; nia|].
    destruct (movedTo_val _ _ _ HM) as (HV & HD & HP). pose proof HFb as [_ Hvb]. pose proof (ok_bit _ HO).
    destruct (IH b1 (skipn (Z.to_nat av) l)) as (b' & k & e & -> & HR & Hend);
      [rewrite length_skipn; lia|apply HM|auto|lia|rewrite HP, HD; unfold br_pos; lia|].
    exists b', (Z.to_nat av + k)%nat, e. rewrite HV, HP in *. rewrite length_skipn in *. splits.
    + rewrite fields_app, map_app, <- app_assoc, skipn_skipn, (Nat.add_comm k), Nat2Z.inj_add, (Z2Nat.id av) by lia. reflexivity.
    + replace (List.length l) with (Z.to_nat av + (List.length l - Z.to_nat av))%nat by lia. eapply readRes_after; eauto.
    + intros He. destruct (Hend He) as [->|]; [left; lia|now right].
  - destruct (Z.le_gt_cases (br_pos b + bits) (8 * len (br_data b))) as [Hle|Hgt].
    + destruct (next_ok b bits HO HFb ltac:(lia) Hle) as (b1 & -> & [HM HF1]). destruct (movedTo_val _ _ _ HM) as (HV & HD & HP).
      destruct (IH b1 out) as (b' & k & e & -> & HR & Hend); [cbn in Hfuel; lia|apply HM|auto|lia|rewrite HP, HD; lia|].
      exists b', (S k), e. rewrite HV, HP. splits.
      * rewrite fields_S, Nat2Z.inj_succ. cbn [map app skipn l]. do 2 f_equal. lia.
      * apply (readRes_after b b1 b' bits 1 k (List.length out) e); [|exact HR]. cbn [Z.of_nat Pos.of_succ_nat]. rewrite Z.mul_1_l. exact HM.
      * intros He. destruct (Hend He) as [->|]; auto.
    + destruct (next_short b bits HO HFb ltac:(lia) ltac:(lia)) as (b1 & ->).
      exists b1, O, (Some ErrUnexpectedEOF). split; [reflexivity|]. split; [|discriminate].
      split; [lia|]. split; [lia|]. right. cbn [List.length l]. splits; auto; lia.
Qed.

(** ** The whole operation *)

Lemma unpackIndices_ok b bits out :
  brOk b -> br_bitoffset b = 0 -> 0 < bits <= 32 ->
  exists b' k e o', BRI.unpackIndices (BR.seekTo b) bits out
      = (b', map i32 (fields (br_val b) (br_pos b) bits k) ++ o', Z.of_nat k, e) /\
    List.length o' = (List.length out - k)%nat /\ (k <= List.length out)%nat /\ movedTo b b' (br_pos b + Z.of_nat k * bits) /\
    br_pos b + Z.of_nat k * bits <= Z.max (br_pos b) (8 * len (br_data b)) /\
    (e = None \/ (e = Some EOF \/ e = Some ErrUnexpectedEOF) /\ (k < List.length out)%nat /\
      8 * len (br_data b) < br_pos b + len out * bits).
Proof.
  intros HO H0 Hbits. unfold BRI.unpackIndices.
  assert (HS : movedTo b (BR.seekTo b) (br_pos b)) by (split; [now destruct HO|split; reflexivity]).
  destruct (Z.eqb_spec (len out) 0) as [Hz|Hz].
  { destruct out; [|cbn in Hz; lia]. exists (BR.seekTo b), O, None, []. cbn [Z.of_nat]. rewrite Z.mul_0_l, Z.add_0_r. splits; auto; lia. }
  destruct (unpack32Default_ok (br_reader (BR.seekTo b)) (map u32 out) bits)
    as (g & r' & e & -> & Hd & Hp' & Hg & Hmax & Hcase); [lia|apply HO|apply HO|].
  rewrite length_map in Hg, Hcase. change (BytesReader.pos (br_reader (BR.seekTo b))) with (br_byteoffset b) in *.
  change (BytesReader.data (br_reader (BR.seekTo b))) with (br_data b) in *.
  assert (Hpos : 8 * br_byteoffset b = br_pos b) by (unfold br_pos; lia).
  replace (Z.quot (32 * Z.of_nat g * bits) 8) with (4 * bits * Z.of_nat g)
    by (rewrite (Z.mul_comm (32 * _)); replace (bits * (32 * Z.of_nat g)) with (4 * bits * Z.of_nat g * 8) by lia; now rewrite Z.quot_mul).
  unfold groupsOut. rewrite Hpos. fold (br_val b). rewrite map_app. replace (32 * Z.of_nat g) with (Z.of_nat (32 * g)) by lia.
  eexists _, (32 * g)%nat, e, _. split; [reflexivity|]. rewrite length_map, length_skipn, length_map.
  split; [lia|]. split; [lia|]. split.
  - split; [|split; [exact Hd|unfold br_pos; cbn [br_byteoffset br_bitoffset BR.seekTo]; lia]]. destruct HO as [A1 A2 A3 A4 A5].
    assert (0 <= 4 * bits * Z.of_nat g) by (apply Z.mul_nonneg_nonneg; lia).
    constructor; cbn [BR.seekTo br_reader br_byteoffset br_bitoffset br_raw]; auto; try lia. unfold br_data in *. cbn [br_reader]. now rewrite Hd.
  - split; [lia|]. destruct Hcase as [(-> & _)|(He & Hgn & Hsh)]; [now left|right]. splits; auto; nia.
Qed.

Lemma fields_width0 x p k : fields x p 0 k = repeat 0 k.
Proof. revert p. induction k as [|k IH]; intros p; [reflexivity|]. now rewrite fields_S, field_0_r, IH. Qed.

(** The indices before the first buffer boundary. *)
Lemma indexStart_ok b bits out :
  brOk b -> 0 < bits <= 32 -> br_pos b <= 8 * len (br_data b) ->
  exists b1 k1 e1,
    (if negb (br_bitoffset b =? 0) then BRI.getBatchIndexScalar (List.length out) b bits out true else (b, out, 0, None))
      = (b1, map i32 (fields (br_val b) (br_pos b) bits k1) ++ skipn k1 out, Z.of_nat k1, e1) /\
    readRes b b1 bits k1 (List.length out) e1 /\ (e1 = None -> k1 = List.length out /\ br_bitoffset b <> 0 \/ br_bitoffset b1 = 0).
Proof.
  intros HO Hbits Hpos. destruct (Z.eqb_spec (br_bitoffset b) 0) as [Hz|Hz]; cbn [negb].
  - exists b, O, None. auto using readRes_0.
  - destruct (indexScalar_ok (List.length out) b bits out true) as (b1 & k1 & e1 & -> & HR & Hend);
      [lia|assumption|intros _; now apply HO|lia|lia|].
    exists b1, k1, e1. splits; auto. intros He. destruct (Hend He) as [->|[_ ?]]; auto.
Qed.

(** [GetBatchIndex] on any data, as [GetBatch_full]: the indices are the fields as int32. *)
Lemma GetBatchIndex_full b bits out :
  brOk b -> 0 <= bits <= 32 -> br_pos b <= 8 * len (br_data b) ->
  exists b' out' k e, BRI.GetBatchIndex b bits out = (b', out', Z.of_nat k, e) /\
    List.length out' = List.length out /\ (k <= List.length out)%nat /\
    firstn k out' = map i32 (fields (br_val b) (br_pos b) bits k) /\
    (e = None /\ k = List.length out /\ br_pos b + len out * bits <= 8 * len (br_data b) /\
       movedTo b b' (br_pos b + len out * bits) \/
     (e = Some EOF \/ e = Some ErrUnexpectedEOF) /\ (k < List.length out)%nat /\
     8 * len (br_data b) < br_pos b + len out * bits).
Proof.
  intros HO Hbits Hpos. unfold BRI.GetBatchIndex. bool_lia (32 <? bits). destruct (Z.eqb_spec bits 0) as [->|Hb0].
  { eexists b, _, (List.length out), None. split; [reflexivity|]. rewrite repeat_length, fields_width0, map_repeat, Z.mul_0_r, Z.add_0_r.
    rewrite firstn_all2 by (rewrite repeat_length; lia). splits; auto. left. splits; auto using movedTo_refl. }
  destruct (indexStart_ok b bits out HO ltac:(lia) Hpos) as (b1 & k1 & e1 & -> & (Hk1 & Hb1 & Hc1) & Hend). set (F1 := map i32 _).
  assert (HL1 : List.length F1 = k1) by (subst F1; now rewrite length_map, length_fields).
  pose proof (firstn_app_exact F1 (skipn k1 out) k1 HL1) as Hp1. pose proof (skipn_app_exact F1 (skipn k1 out) k1 HL1) as Hp2. destruct Hc1 as [[-> HM1]|(-> & Hlt & Hsh)].
  2:{ eexists b1, _, k1, (Some ErrUnexpectedEOF). split; [reflexivity|]. rewrite length_app, length_skipn, HL1, Hp1.
      splits; auto; [lia|]. right. splits; auto; nia. }
  destruct (movedTo_val _ _ _ HM1) as (HV1 & HD1 & HP1).
  destruct (negb (br_bitoffset b =? 0) && (Z.of_nat k1 =? len out)) eqn:Efull.
  { apply andb_true_iff in Efull as [_ Ek]. apply Z.eqb_eq in Ek. assert (Hk : k1 = List.length out) by lia.
    eexists b1, _, k1, None. split; [reflexivity|]. rewrite length_app, length_skipn, HL1, Hp1. splits; auto; [lia|].
    left. rewrite <- Ek. splits; auto. }
  assert (Hal : br_bitoffset b1 = 0).
  { destruct (Hend eq_refl) as [[-> Hne]|]; [|assumption]. rewrite Z.eqb_refl, (proj2 (Z.eqb_neq _ 0)) in Efull by assumption. discriminate. }
  rewrite Nat2Z.id, Hp1, Hp2. set (left1 := skipn k1 out).
  assert (HL : List.length left1 = (List.length out - k1)%nat) by apply length_skipn.
  destruct (unpackIndices_ok b1 bits left1) as (b2 & k2 & e2 & o2 & -> & HLo & Hk2 & HM2 & Hmax & Hc); [apply HM1|assumption|lia|].
  rewrite HV1, HP1, HD1 in *. set (F2 := map i32 _). assert (HL2 : List.length F2 = k2) by (subst F2; now rewrite length_map, length_fields).
  assert (HF12 : F1 ++ F2 = map i32 (fields (br_val b) (br_pos b) bits (k1 + k2))) by (unfold F1, F2; now rewrite fields_app, map_app).
  assert (Hmid : forall t, firstn (k1 + k2) (F1 ++ F2 ++ t) = map i32 (fields (br_val b) (br_pos b) bits (k1 + k2))).
  { intros t. rewrite app_assoc, HF12. apply firstn_app_exact. now rewrite length_map, length_fields. }
  destruct Hc as [->|(He2 & Hlt & Hsh)].
  2:{ eexists b2, _, (k1 + k2)%nat, e2. rewrite <- Nat2Z.inj_add. split; [destruct He2 as [-> | ->]; reflexivity|].
      rewrite !length_app, HL1, HL2, Hmid. splits; auto; try lia. right. splits; auto; lia. }
  destruct (movedTo_val _ _ _ HM2) as (HV2 & HD2 & HP2). pose proof (proj1 HM2) as HO2.
  destruct (fillbuffer_ok b2) as (b3 & -> & HO3 & HF3 & HD3 & Hoff3 & Hbit3 & _); [apply HO2..|].
  assert (HM3 : movedTo b b3 (br_pos b + Z.of_nat (k1 + k2) * bits)).
  { split; [assumption|]. unfold sameData in *. split; [congruence|]. unfold br_pos in *. lia. }
  destruct (movedTo_val _ _ _ HM3) as (HV3 & HD3' & HP3).
  rewrite Nat2Z.id, (firstn_app_exact F2), (skipn_app_exact F2) by assumption.
  destruct (indexScalar_ok (List.length o2) b3 bits o2 false) as (b4 & k4 & e4 & -> & HR4 & Hend4);
    [lia|assumption|auto|lia|rewrite HP3, HD3'; lia|].
  rewrite HV3, HP3 in *. destruct HR4 as (Hk4 & Hb4 & Hc4). rewrite HP3, HD3' in *.
  eexists b4, _, (k1 + k2 + k4)%nat, e4. rewrite <- !Nat2Z.inj_add. split; [reflexivity|].
  rewrite !length_app, length_skipn, length_map, length_fields, HL1, HL2. splits; [lia|lia| |].
  - rewrite !app_assoc, HF12, <- map_app, <- fields_app. apply firstn_app_exact. now rewrite length_map, length_fields.
  - destruct Hc4 as [[-> HM4]|(-> & ? & ?)]; [left|right; splits; auto; nia].
    destruct (Hend4 eq_refl) as [->|[? _]]; [|discriminate]. splits; auto; [lia|nia|].
    replace (br_pos b + len out * bits) with (br_pos b + Z.of_nat (k1 + k2) * bits + len o2 * bits) by nia. eauto using movedTo_trans.
Qed.

Lemma GetBatchIndex_ok b bits out :
  brOk b -> 0 <= bits <= 32 -> br_pos b + len out * bits <= 8 * len (br_data b) ->
  exists b', BRI.GetBatchIndex b bits out
      = (b', map i32 (fields (br_val b) (br_pos b) bits (List.length out)), len out, None) /\
    movedTo b b' (br_pos b + len out * bits).
Proof.
  intros HO Hbits Hle. destruct (GetBatchIndex_full b bits out HO Hbits) as (b' & out' & k & e & HE & HL & Hk & Hout & Hc); [nia|].
  destruct Hc as [(-> & -> & _ & HM)|(_ & _ & ?)]; [|lia]. exists b'. split; [|exact HM]. rewrite HE, <- Hout, firstn_all2 by lia. reflexivity.
Qed.

(** ** Lengths

    Whatever the reader, the slice keeps its length. *)

Lemma length_runStmts p inp out : List.length (runStmts p inp out) = List.length out.
Proof.
  unfold runStmts. enough (forall u, List.length (u_out (fold_left (fun u c => execStmt c u) p u)) = List.length (u_out u)) by auto.
  induction p as [|c p IH]; intros u; [reflexivity|]. cbn [fold_left]. rewrite IH. destruct u as [i v o], c; cbn [execStmt];
    try destruct (binaryRead _ _); cbn [u_out]; rewrite ?length_upd; reflexivity.
Qed.

Lemma length_splices js (o : list Z) :
  Forall (fun i => (i <= List.length o)%nat) js -> List.length (fold_left (fun o i => splice o i (firstn i o)) js o) = List.length o.
Proof.
  revert o. induction js as [|i js IH]; intros o HF; [reflexivity|]. inversion HF as [|? ? Hi HF']; subst. cbn [fold_left].
  rewrite IH, length_splice; auto. now rewrite length_splice.
Qed.

Lemma unpackFunc_cases nbits f : unpackFunc nbits = Some f -> f = nullunpack32 \/ exists p, f = runStmts p.
Proof.
  unfold unpackFunc. intros Hf.
  repeat (match type of Hf with context [match ?x with _ => _ end] => destruct x end); try discriminate;
    injection Hf as <-; [now left|..]; right; eexists; reflexivity.
Qed.

Lemma length_unpackFunc nbits f inp out :
  unpackFunc nbits = Some f -> (32 <= List.length out)%nat -> List.length (f inp out) = List.length out.
Proof.
  intros Hf HL. destruct (unpackFunc_cases nbits f Hf) as [->|[p ->]]; [|apply length_runStmts].
  unfold nullunpack32. rewrite length_splices, length_upd; [reflexivity|]. rewrite length_upd. repeat constructor; lia.
Qed.

Lemma length_unpackLoop nbits f k n r out r' o c e :
  unpackFunc nbits = Some f -> (32 * n <= List.length out)%nat -> unpackLoop f k n r out = (r', o, c, e) -> List.length o = List.length out.
Proof.
  intros Hf. revert r out r' o c e. induction n as [|n IH]; intros r out r' o c e HL HE; cbn [unpackLoop] in HE; [congruence|].
  destruct (BytesReader.ReadFull r k) as [[r1 bs] [e1|]]; [congruence|].
  pose proof (length_unpackFunc nbits f bs out Hf ltac:(lia)) as HLf.
  destruct (unpackLoop f k n r1 (skipn 32 (f bs out))) as [[[r2 rest] cnt] e2] eqn:E.
  apply IH in E; [|rewrite length_skipn; lia]. assert (o = firstn 32 (f bs out) ++ rest) as -> by congruence.
  rewrite length_app, length_firstn, E, length_skipn. lia.
Qed.

Lemma length_buffered b bits n : List.length (snd (BRI.buffered b bits n)) = n.
Proof.
  revert b. induction n as [|n IH]; intros b; [reflexivity|]. cbn [BRI.buffered]. specialize (IH (BR.setBit b (br_bitoffset b + bits))).
  destruct (BRI.buffered _ bits n). cbn [snd List.length] in *. lia.
Qed.

Lemma length_indexScalar fuel b bits out stop b' o n e :
  BRI.getBatchIndexScalar fuel b bits out stop = (b', o, n, e) -> List.length o = List.length out.
Proof.
  revert b out b' o n e. induction fuel as [|fuel IH]; intros b out b' o n e HE; destruct out as [|x out]; cbn [BRI.getBatchIndexScalar] in HE;
    try congruence. destruct (stop && _); [congruence|].
  set (av := if _ <? _ then _ else 0) in HE. destruct (Z.ltb_spec 0 av).
  - pose proof (length_buffered b bits (Z.to_nat av)) as Hb. destruct (BRI.buffered b bits (Z.to_nat av)) as [b1 vs]. cbn [snd] in Hb.
    destruct (BRI.getBatchIndexScalar fuel b1 bits _ stop) as [[[b2 rest] n'] e'] eqn:E. apply IH in E.
    assert (o = vs ++ rest) as -> by congruence. rewrite length_app, E, length_skipn, Hb.
    assert (av <= len (x :: out)) by (subst av; destruct (_ <? _); cbn [List.length] in *; lia). lia.
  - destruct (BR.next b bits) as [b1 [v|e1]]; [|congruence].
    destruct (BRI.getBatchIndexScalar fuel b1 bits out stop) as [[[b2 rest] n'] e'] eqn:E. apply IH in E.
    assert (o = i32 v :: rest) as -> by congruence. cbn [List.length]. lia.
Qed.

Lemma length_unpackIndices b bits out b' o n e : BRI.unpackIndices b bits out = (b', o, n, e) -> List.length o = List.length out.
Proof.
  unfold BRI.unpackIndices, unpack32Default. destruct (len out =? 0); [congruence|].
  destruct (unpackFunc bits) as [f|] eqn:Ef; [|intros HE; assert (o = map i32 (map u32 out)) as -> by congruence; now rewrite !length_map].
  destruct (unpackLoop _ _ _ _ _) as [[[r o1] c] e1] eqn:E. apply (length_unpackLoop bits) in E; [|assumption|rewrite length_map; pose proof (Nat.div_mod_eq (List.length out) 32); lia].
  intros HE. assert (o = map i32 o1) as -> by congruence. now rewrite length_map, E, length_map.
Qed.

Lemma GetBatchIndex_length b bits out b' o n e : BRI.GetBatchIndex b bits out = (b', o, n, e) -> List.length o = List.length out.
Proof.
  unfold BRI.GetBatchIndex. destruct (32 <? bits); [congruence|]. destruct (bits =? 0); [intros HE; assert (o = repeat 0 (List.length out)) as -> by congruence; apply repeat_length|].
  destruct (if negb _ then _ else _) as [[[b1 out1] i1] e1] eqn:E1.
  assert (HL1 : List.length out1 = List.length out) by (destruct (negb _); [now apply length_indexScalar in E1|congruence]).
  destruct e1; [congruence|]. destruct (_ && _); [congruence|].
  destruct (BRI.unpackIndices _ bits _) as [[[b2 left2] i2] e2] eqn:E2. apply length_unpackIndices in E2. rewrite length_skipn in E2.
  assert (HL2 : List.length (firstn (Z.to_nat i1) out1 ++ left2) = List.length out) by (rewrite length_app, length_firstn; lia).
  destruct e2; [congruence|]. destruct (BR.fillbuffer b2) as [b3 [e3|]]; [congruence|].
  destruct (BRI.getBatchIndexScalar _ b3 bits _ false) as [[[b4 left4] i4] e4] eqn:E4. apply length_indexScalar in E4. rewrite length_skipn in E4.
  intros HE. assert (o = firstn (Z.to_nat i1) out1 ++ firstn (Z.to_nat i2) left2 ++ left4) as -> by congruence.
  rewrite !length_app, !length_firstn in *. lia.
Qed.

(** ** Claims *)

(** [GetBatchIndex] from any position and on data of any length, for widths up to 32: when the
    data has all the values the slice is filled with them, as int32, and the reader is right
    behind them; otherwise the operation fails, with the values before the failure in place. *)
Theorem get_batch_index_correct b bits out :
  brOk b -> 0 <= bits <= 32 -> br_pos b <= 8 * len (br_data b) ->
  exists b' out' k e, BRI.GetBatchIndex b bits out = (b', out', Z.of_nat k, e) /\
    firstn k out' = map i32 (fields (br_val b) (br_pos b) bits k) /\
    (br_pos b + len out * bits <= 8 * len (br_data b) /\ e = None /\ k = List.length out /\
       movedTo b b' (br_pos b + len out * bits) \/
     8 * len (br_data b) < br_pos b + len out * bits /\ (e = Some EOF \/ e = Some ErrUnexpectedEOF) /\ (k < List.length out)%nat).
Proof.
  intros HO Hb Hp. destruct (GetBatchIndex_full b bits out HO Hb Hp) as (b' & out' & k & e & HE & _ & _ & HF & Hc).
  exists b', out', k, e. splits; auto. destruct Hc as [(? & ? & ? & ?)|(? & ? & ?)]; [left|right]; auto.
Qed.

