(* ===== verification/RleFormat.v ===== *)
(** * The RLE / bit-packed hybrid format (the grammar in parquet/internal/utils/rle.go)

    The abstract side of the encoder and the decoder: a stream is a sequence of runs,
    [encodes] is the byte sequence the format prescribes for it and [expand] the values it
    stands for.  The encoder is proved to write [encodes runs] for runs that expand to what
    was put, the decoder to read [expand runs] from [encodes runs], each without reference to
    the other. *)

From Stdlib Require Import ZArith List Lia Bool.
From S2P Require Import Prelude GoStd BitUtil.
Import ListNotations.
#[local] Open Scope Z_scope.
#[local] Open Scope go_scope.

Definition MaxValuesPerLiteralRun : Z := 2 ^ 6 * 8.

Definition MinRLEBufferSize (bitWidth : Z) : Z :=
  let maxLiteralRunSize := 1 + BytesForBits (MaxValuesPerLiteralRun * bitWidth) in
  let maxRepeatedRunSize := Binary.MaxVarintLen32 + BytesForBits bitWidth in
  Z.max maxLiteralRunSize maxRepeatedRunSize.

Definition MaxRLEBufferSize (width numValues : Z) : Z :=
  let bytesPerRun := width in
  let numRuns := BytesForBits numValues in
  let literalMaxSize := numRuns + numRuns * bytesPerRun in
  let minRepeatedRunSize := 1 + BytesForBits width in
  let repeatedMaxSize := BytesForBits numValues * minRepeatedRunSize in
  Z.max literalMaxSize repeatedMaxSize.

(** A repeated run: a count and a value.  A literal run: its values, in groups of eight. *)
Inductive run : Type :=
| Rep (count : Z) (v : Z)
| Lit (vs : list Z).

Definition expandRun (r : run) : list Z :=
  match r with
  | Rep c v => repeat v (Z.to_nat c)
  | Lit vs => vs
  end.

Definition expand (rs : list run) : list Z := flat_map expandRun rs.

(** The number of groups of eight values of a literal run. *)
Definition groups (vs : list Z) : nat := (List.length vs / 8)%nat.

Section Width.
Variable w : Z.

(** Bytes of one value, padded to a byte boundary. *)
Definition valueBytes : nat := Z.to_nat ((w + 7) / 8).

Definition encodeRun (r : run) : list Z :=
  match r with
  | Rep c v => Binary.PutUvarint (2 * c) ++ lebytes valueBytes v
  | Lit vs => Binary.PutUvarint (2 * Z.of_nat (groups vs) + 1) ++ lebytes (groups vs * Z.to_nat w) (packed w vs)
  end.

Definition encodes (rs : list run) : list Z := flat_map encodeRun rs.

(** The runs a decoder accepts. *)
Definition runOk (r : run) : Prop :=
  match r with
  | Rep c v => 1 <= c <= MaxInt32 /\ fits w v
  | Lit vs => Z.of_nat (groups vs) <= MaxInt32 / 8 /\ vs <> [] /\
              List.length vs = (8 * groups vs)%nat /\ Forall (fits w) vs
  end.

Definition runsOk (rs : list run) : Prop := Forall runOk rs.

End Width.

Lemma expand_app rs1 rs2 : expand (rs1 ++ rs2) = expand rs1 ++ expand rs2.
Proof. apply flat_map_app. Qed.

Lemma encodes_app w rs1 rs2 : encodes w (rs1 ++ rs2) = encodes w rs1 ++ encodes w rs2.
Proof. apply flat_map_app. Qed.

Lemma groups_mul vs g : List.length vs = (8 * g)%nat -> groups vs = g.
Proof. intros H. unfold groups. rewrite H, Nat.mul_comm. apply Nat.div_mul. lia. Qed.

Lemma encodeRun_bytes w r : 0 <= w -> runOk w r -> bytes (encodeRun w r).
Proof.
  destruct r as [c v|vs]; cbn [encodeRun runOk]; intros Hw Hr; apply bytes_app; split; auto with gobytes;
    apply Binary.PutUvarint_bytes; lia.
Qed.

Lemma encodes_bytes w rs : 0 <= w -> runsOk w rs -> bytes (encodes w rs).
Proof.
  intros Hw. induction 1; cbn [encodes flat_map]; [constructor|]. apply bytes_app. auto using encodeRun_bytes.
Qed.

(** A run has at least one value. *)
Lemma expandRun_nonempty w r : runOk w r -> expandRun r <> [].
Proof.
  destruct r as [c v|vs]; cbn; intros H; [|tauto]. destruct (Z.to_nat c) eqn:E; [lia|discriminate].
Qed.

Lemma varint_short x : 0 <= x < 128 -> Binary.PutUvarint x = [x].
Proof.
  intros. unfold Binary.PutUvarint, Binary.MaxVarintLen64. cbn [Binary.putUvarint].
  bool_lia (128 <=? x). unfold u8. rewrite Z.mod_small by (cbn; lia). reflexivity.
Qed.

(** ** Sizes

    Every run that is written before the end of the stream has at least eight values; the
    space it takes is at most [1 + w] bytes for every eight of them. *)

Definition runGroups (r : run) : Z := len (expandRun r) / 8.

Definition fullRun (r : run) : Prop :=
  match r with Rep c v => 8 <= c | Lit vs => Z.of_nat (groups vs) < 64 end.

(** Fewer bytes than groups of seven bits, rounded up. *)
Lemma putUvarint_short n m x :
  (0 < m)%nat -> 0 <= x < 2 ^ (7 * Z.of_nat m) -> (List.length (Binary.putUvarint n x) <= m)%nat.
Proof.
  revert m x. induction n as [|n IH]; intros m x Hm Hx; cbn [Binary.putUvarint]; [cbn; lia|].
  destruct (Z.leb_spec 128 x); cbn [List.length]; [|lia].
  destruct m as [|m]; [lia|]. destruct m as [|m]; [change (2 ^ _) with 128 in Hx; lia|].
  apply le_n_S, IH; [lia|]. rewrite shiftr_div by lia. split; [apply Z.div_pos; lia|].
  apply Z.div_lt_upper_bound; [lia|].
  replace (7 * Z.of_nat (S (S m))) with (7 + 7 * Z.of_nat (S m)) in Hx by lia.
  rewrite Z.pow_add_r in Hx by lia. lia.
Qed.

Lemma encodeRun_size w r :
  1 <= w <= 64 -> runOk w r -> fullRun r -> len (encodeRun w r) <= (1 + w) * runGroups r.
Proof.
  intros Hw. destruct r as [c v|vs]; unfold runGroups; cbn [encodeRun expandRun runOk fullRun].
  - intros [Hc _] H8. rewrite length_app, length_lebytes, repeat_length.
    unfold valueBytes. assert (Hv : (w + 7) / 8 <= w) by zdiv. assert (0 <= (w + 7) / 8) by zdiv.
    rewrite Z2Nat.id by lia. unfold Binary.PutUvarint, Binary.MaxVarintLen64.
    destruct (Z.lt_ge_cases c 64).
    + pose proof (putUvarint_short 10 1 (2 * c) ltac:(lia)) as HL. change (2 ^ (7 * Z.of_nat 1)) with 128 in HL.
      assert (1 <= c / 8) by zdiv. specialize (HL ltac:(lia)). nia.
    + pose proof (putUvarint_short 10 5 (2 * c) ltac:(lia)) as HL. change (2 ^ (7 * Z.of_nat 5)) with 34359738368 in HL.
      unfold MaxInt32 in Hc. assert (8 <= c / 8) by zdiv. specialize (HL ltac:(lia)). nia.
  - intros (_ & Hne & HL & _) H64. rewrite length_app, length_lebytes.
    rewrite varint_short by lia. cbn [List.length]. rewrite HL.
    replace (Z.of_nat (8 * groups vs)) with (Z.of_nat (groups vs) * 8) by lia. rewrite Z.div_mul by lia.
    assert (1 <= Z.of_nat (groups vs)) by (destruct vs; [congruence|cbn [List.length] in HL; lia]). nia.
Qed.

Lemma encodes_size w rs :
  1 <= w <= 64 -> runsOk w rs -> Forall fullRun rs ->
  len (encodes w rs) <= (1 + w) * (len (expand rs) / 8).
Proof.
  intros Hw Hok Hf. induction Hok as [|r rs Hr Hok IH]; cbn [encodes expand flat_map]; [cbn; lia|].
  inversion Hf; subst. fold (encodes w rs) (expand rs). rewrite !length_app, !Nat2Z.inj_add.
  pose proof (encodeRun_size w r Hw Hr ltac:(assumption)) as HS. specialize (IH ltac:(assumption)).
  unfold runGroups in HS.
  assert (len (expandRun r) / 8 + len (expand rs) / 8 <= (len (expandRun r) + len (expand rs)) / 8) by zdiv. nia.
Qed.
