(* ===== verification/RleDecoder.v ===== *)
(** * The RLE decoder (parquet/internal/utils/rle.go, [RleDecoder])

    [Next] reads a run's indicator (and the value of a repeated run).  [GetBatch], [Discard]
    and the other readers share one loop: take from the current repeated run, else from the
    current literal run, else start the next run.  They differ in where the values go, so
    the loop is written once over a [RunSink]; [SinkOk] states what a sink promises, the
    loop is proved correct against it and the sinks of [GetBatch] and [Discard] discharge it.

    [decRel d vs] relates a decoder state to the values it has yet to deliver. *)

From Stdlib Require Import ZArith List Lia Bool String.
From S2P Require Import Prelude GoStd BitUtil BitPacking BitReader RleFormat.
Import ListNotations.
#[local] Open Scope Z_scope.
#[local] Open Scope go_scope.

Record RleDecoder : Type := mkRD {
  rd_r : BitReader;
  rd_bitWidth : Z;
  rd_curVal : Z;
  rd_repCount : Z;
  rd_litCount : Z
}.

Module RD.

Definition NewRleDecoder (data : BytesReader.t) (width : Z) : RleDecoder :=
  mkRD (BR.NewBitReader data) width 0 0 0.

Definition Reset (r : RleDecoder) (data : BytesReader.t) (width : Z) : RleDecoder :=
  mkRD (BR.Reset (rd_r r) data) width 0 0 0.

(** The value of a repeated run: the read that fits its number of bytes. *)
Definition readValue (b : BitReader) (nbytes : Z) : BitReader * option Z :=
  if 4 <? nbytes then BR.getAlignedUint64 b nbytes
  else if 2 <? nbytes then BR.getAlignedUint32 b nbytes
  else if 1 <? nbytes then BR.getAlignedUint16 b nbytes
  else BR.getAlignedUint8 b nbytes.

Definition Next (r : RleDecoder) : RleDecoder * bool :=
  match BR.GetVlqInt (rd_r r) with
  | (b, None) => (mkRD b (rd_bitWidth r) (rd_curVal r) (rd_repCount r) (rd_litCount r), false)
  | (b, Some indicator) =>
      let literal := negb ((indicator & 1) =? 0) in
      let count := u32 (indicator >> 1) in
      if literal then
        if (count =? 0) || (u32 (MaxInt32 / 8) <? count)
        then (mkRD b (rd_bitWidth r) (rd_curVal r) (rd_repCount r) (rd_litCount r), false)
        else (mkRD b (rd_bitWidth r) (rd_curVal r) (rd_repCount r) (i32 (i32 count * 8)), true)
      else
        if (count =? 0) || (u32 MaxInt32 <? count)
        then (mkRD b (rd_bitWidth r) (rd_curVal r) (rd_repCount r) (rd_litCount r), false)
        else
          let nbytes := BytesForBits (rd_bitWidth r) in
          match readValue b nbytes with
          | (b1, None) => (mkRD b1 (rd_bitWidth r) (rd_curVal r) (i32 count) (rd_litCount r), false)
          | (b1, Some v) => (mkRD b1 (rd_bitWidth r) v (i32 count) (rd_litCount r), true)
          end
  end.

(** Where decoded values go: [sk_rep s v n] takes [n] copies of [v], [sk_lit b width s n]
    reads [n] bit-packed values and says how many of them count, with an error. *)
Record RunSink (S : Type) : Type := mkSink {
  sk_rep : S -> Z -> Z -> S;
  sk_lit : BitReader -> Z -> S -> Z -> BitReader * S * Z * option goerr
}.
Arguments mkSink {S}.
Arguments sk_rep {S}.
Arguments sk_lit {S}.

(** The loop [for read < size]; [None] is running out of fuel. *)
Fixpoint rleLoop {S} (sk : RunSink S) (fuel : nat) (r : RleDecoder) (s : S) (read size : Z)
    : option (RleDecoder * S * Z * option goerr) :=
  if read <? size then
    match fuel with
    | O => None
    | Datatypes.S fuel' =>
        let remain := size - read in
        if 0 <? rd_repCount r then
          let repbatch := Z.min remain (rd_repCount r) in
          rleLoop sk fuel'
            (mkRD (rd_r r) (rd_bitWidth r) (rd_curVal r) (rd_repCount r - repbatch) (rd_litCount r))
            (sk_rep sk s (rd_curVal r) repbatch) (read + repbatch) size
        else if 0 <? rd_litCount r then
          let litbatch := Z.min remain (rd_litCount r) in
          let '(b, s', n, err) := sk_lit sk (rd_r r) (rd_bitWidth r) s litbatch in
          let r' := mkRD b (rd_bitWidth r) (rd_curVal r) (rd_repCount r) (rd_litCount r - n) in
          match err with
          | Some e => Some (r', s', read + n, Some e)
          | None => if n =? litbatch then rleLoop sk fuel' r' s' (read + n) size
                    else Some (r', s', read + n, None)
          end
        else
          match Next r with
          | (r', false) => Some (r', s, read, None)
          | (r', true) => rleLoop sk fuel' r' s read size
          end
    end
  else Some (r, s, read, None).

(** Every value takes at most one iteration, and so does every run. *)
Definition loopFuel (size : Z) : nat := S (2 * Z.to_nat size).

(** [GetBatch]'s sink: the part of the slice that is filled, and the rest [out]. *)
Definition batchSink : RunSink (list Z * list Z) :=
  mkSink
    (fun s v n => let '(filled, out) := s in
       (filled ++ repeat v (Z.to_nat n), skipn (Z.to_nat n) out))
    (fun b width s litbatch =>
       let '(filled, out) := s in
       let '(b', o, n, err) := BR.GetBatch b width (firstn (Z.to_nat litbatch) out) in
       (b', (filled ++ firstn (Z.to_nat n) o, skipn (Z.to_nat n) o ++ skipn (Z.to_nat litbatch) out), n, err)).

(** [GetBatch(values)]: the decoder, the slice afterwards, the number read, the error. *)
Definition GetBatch (r : RleDecoder) (values : list Z) : option (RleDecoder * list Z * Z * option goerr) :=
  match rleLoop batchSink (loopFuel (len values)) r ([], values) 0 (len values) with
  | Some (r', (filled, out), n, e) => Some (r', filled ++ out, n, e)
  | None => None
  end.

Definition GetValue (r : RleDecoder) : option (RleDecoder * Z * bool) :=
  match GetBatch r [0] with
  | Some (r', vals, n, _) => Some (r', nth 0 vals 0, n =? 1)
  | None => None
  end.

(** [Discard]'s sink keeps nothing; values of a literal run count only if all were there. *)
Definition discardSink : RunSink unit :=
  mkSink
    (fun s _ _ => s)
    (fun b width s litbatch =>
       let '(b', n, _) := BR.Discard b width litbatch in
       (b', s, if n =? litbatch then n else 0, None)).

Definition Discard (r : RleDecoder) (n : Z) : option (RleDecoder * Z) :=
  match rleLoop discardSink (loopFuel n) r tt 0 n with
  | Some (r', _, read, _) => Some (r', read)
  | None => None
  end.

End RD.

(** ** Termination

    On any input, well formed or not, the loop ends within its fuel. *)

Definition idle (r : RleDecoder) : bool := negb (0 <? rd_repCount r) && negb (0 <? rd_litCount r).

Lemma Next_width r : rd_bitWidth (fst (RD.Next r)) = rd_bitWidth r.
Proof.
  unfold RD.Next. destruct (BR.GetVlqInt (rd_r r)) as [b [ind|]]; [|reflexivity].
  destruct (negb _); destruct (_ || _); try reflexivity. now destruct (RD.readValue b _) as [b1 [v|]].
Qed.

Lemma Next_busy r r' : RD.Next r = (r', true) -> idle r' = false.
Proof.
  unfold RD.Next, idle. destruct (BR.GetVlqInt (rd_r r)) as [b [ind|]]; [|discriminate].
  assert (Hc : 0 <= u32 (ind >> 1) < 2 ^ 32) by (apply Z.mod_pos_bound; lia).
  set (count := u32 (ind >> 1)) in *. destruct (negb _).
  - destruct ((count =? 0) || (u32 (MaxInt32 / 8) <? count)) eqn:E; [discriminate|].
    apply orb_false_iff in E as [E1 E2]. apply Z.eqb_neq in E1. apply Z.ltb_ge in E2.
    change (u32 (MaxInt32 / 8)) with 268435455 in E2.
    intros H. apply pair_inj in H as [<- _]. cbn [rd_litCount].
    assert (Hi : i32 (i32 count * 8) = count * 8) by (unfold i32; rewrite !Z.mod_small; rewrite ?Z.mod_small; lia).
    rewrite Hi. bool_lia (0 <? count * 8). apply andb_false_r.
  - destruct ((count =? 0) || (u32 MaxInt32 <? count)) eqn:E; [discriminate|].
    apply orb_false_iff in E as [E1 E2]. apply Z.eqb_neq in E1. apply Z.ltb_ge in E2.
    change (u32 MaxInt32) with 2147483647 in E2.
    destruct (RD.readValue _ _) as [b1 [v|]]; [|discriminate].
    intros H. apply pair_inj in H as [<- _]. cbn [rd_repCount].
    assert (Hi : i32 count = count) by (unfold i32; rewrite Z.mod_small; lia).
    rewrite Hi. bool_lia (0 <? count). reflexivity.
Qed.

Lemma rleLoop_total {S} (sk : RD.RunSink S) fuel r s read size :
  2 * (size - read) + (if idle r then 1 else 0) <= Z.of_nat fuel ->
  exists res, RD.rleLoop sk fuel r s read size = Some res.
Proof.
  revert r s read. induction fuel as [|fuel IH]; intros r s read Hm; cbn [RD.rleLoop].
  - destruct (Z.ltb_spec read size); [destruct (idle r); lia|eauto].
  - destruct (Z.ltb_spec read size); [|eauto]. unfold idle in Hm.
    destruct (Z.ltb_spec 0 (rd_repCount r)); cbn [negb andb] in Hm.
    { apply IH. destruct (idle _); lia. }
    destruct (Z.ltb_spec 0 (rd_litCount r)); cbn [negb] in Hm.
    + destruct (RD.sk_lit sk _ _ _ _) as [[[b s'] n] [e|]]; [eauto|].
      destruct (Z.eqb_spec n (Z.min (size - read) (rd_litCount r))); [|eauto]. apply IH. destruct (idle _); lia.
    + destruct (RD.Next r) as [r' [|]] eqn:E; [|eauto]. apply IH. rewrite (Next_busy _ _ E). lia.
Qed.

Lemma loopFuel_enough size r : 2 * (size - 0) + (if idle r then 1 else 0) <= Z.of_nat (RD.loopFuel size).
Proof. unfold RD.loopFuel. destruct (idle r); lia. Qed.

Lemma GetBatch_total_ok r values : exists res, RD.GetBatch r values = Some res.
Proof.
  unfold RD.GetBatch. destruct (rleLoop_total RD.batchSink _ r ([], values) 0 _ (loopFuel_enough (len values) r))
    as [[[[r' [filled out]] n] e] ->]. eauto.
Qed.

(** ** What a decoder state stands for *)

(** The bit count of any data there is room for. *)
Definition dataFits (d : list Z) : Prop := 8 * len d < 2 ^ 63 - 7.

(** [d] has the values [vs] left: those of the current run, then those of the runs encoded
    from byte [o] on. *)
Record decRelAt (d : RleDecoder) (vs : list Z) (runs : list run) (o : Z) : Prop := mkDecRel {
  dr_ok : brOk (rd_r d);
  dr_width : 1 <= rd_bitWidth d <= 64;
  dr_fits : dataFits (br_data (rd_r d));
  dr_rep : 0 <= rd_repCount d <= MaxInt32;
  dr_lit : 0 <= rd_litCount d <= MaxInt32;
  dr_one : rd_repCount d = 0 \/ rd_litCount d = 0;
  dr_pos : br_pos (rd_r d) + rd_litCount d * rd_bitWidth d = 8 * o;
  dr_off : 0 <= o <= len (br_data (rd_r d));
  dr_data : skipn (Z.to_nat o) (br_data (rd_r d)) = encodes (rd_bitWidth d) runs;
  dr_runs : runsOk (rd_bitWidth d) runs;
  dr_vals : vs = repeat (rd_curVal d) (Z.to_nat (rd_repCount d)) ++
                 fields (br_val (rd_r d)) (br_pos (rd_r d)) (rd_bitWidth d) (Z.to_nat (rd_litCount d)) ++
                 expand runs
}.

Definition decRel (d : RleDecoder) (vs : list Z) : Prop := exists runs o, decRelAt d vs runs o.

(** A fresh decoder over an encoded sequence of runs has all their values left. *)
Lemma NewRleDecoder_rel w runs :
  1 <= w <= 64 -> runsOk w runs -> dataFits (encodes w runs) ->
  decRel (RD.NewRleDecoder (BytesReader.new (encodes w runs)) w) (expand runs).
Proof.
  intros Hw Hok Hf. exists runs, 0. constructor; cbn [RD.NewRleDecoder rd_r rd_bitWidth rd_repCount rd_litCount rd_curVal];
    auto; try (unfold MaxInt32; lia).
  - apply NewBitReader_ok, encodes_bytes; [lia|assumption].
Qed.

(** A prefix of what follows byte [o]. *)
Lemma skipn_split (d a rest : list Z) o :
  0 <= o <= len d -> skipn (Z.to_nat o) d = a ++ rest ->
  firstn (List.length a) (skipn (Z.to_nat o) d) = a /\
  skipn (Z.to_nat (o + len a)) d = rest /\ o + len a <= len d.
Proof.
  intros Ho H. split; [|split].
  - now rewrite H, firstn_app, firstn_all, Nat.sub_diag, firstn_O, app_nil_r.
  - replace (Z.to_nat (o + len a)) with (List.length a + Z.to_nat o)%nat by lia.
    now rewrite <- skipn_skipn, H, skipn_app, skipn_all, Nat.sub_diag.
  - apply (f_equal (@List.length Z)) in H. rewrite length_skipn, length_app in H. lia.
Qed.

Lemma valueBytes_range w : 1 <= w <= 64 -> 1 <= Z.of_nat (valueBytes w) <= 8 /\ w <= 8 * Z.of_nat (valueBytes w).
Proof. intros. unfold valueBytes. assert (1 <= (w + 7) / 8 <= 8 /\ w <= 8 * ((w + 7) / 8)) by zdiv. lia. Qed.

(** The read [Next] chooses returns the next [nbytes] bytes. *)
Lemma readValue_ok : alignedGet RD.readValue 1 8.
Proof.
  intros b n HO Hn Hle. unfold RD.readValue.
  destruct (Z.ltb_spec 4 n); [apply getAlignedUint64_ok; auto; lia|].
  destruct (Z.ltb_spec 2 n); [apply getAlignedUint32_ok; auto; lia|].
  destruct (Z.ltb_spec 1 n); [apply getAlignedUint16_ok; auto; lia|apply getAlignedUint8_ok; auto; lia].
Qed.

Lemma even_indicator c : 0 <= c -> (2 * c) & 1 = 0 /\ (2 * c) >> 1 = c.
Proof.
  intros. change 1 with (Z.ones 1) at 1. rewrite Z.land_ones, shiftr_div by lia. change (2 ^ 1) with 2.
  rewrite (Z.mul_comm 2 c), Z.mod_mul, Z.div_mul by lia. auto.
Qed.

Lemma odd_indicator c : 0 <= c -> (2 * c + 1) & 1 = 1 /\ (2 * c + 1) >> 1 = c.
Proof.
  intros. change 1 with (Z.ones 1) at 2. rewrite Z.land_ones, shiftr_div by lia. change (2 ^ 1) with 2. split; zdiv.
Qed.

(** The start of a literal run. *)
Lemma Next_lit d vs runs o ls :
  decRelAt d vs (Lit ls :: runs) o -> rd_repCount d = 0 -> rd_litCount d = 0 ->
  exists d' o', RD.Next d = (d', true) /\ decRelAt d' vs runs o'.
Proof.
  intros [HO Hw Hf Hrep Hlit _ Hpos Hoff Hdata Hok Hvals] Hr0 Hl0. inversion Hok as [|? ? Hrun Hruns]; subst.
  destruct Hrun as (Hg & Hne & HL & HF). set (g := groups ls) in *.
  assert (Hg1 : (1 <= g)%nat) by (destruct ls; [congruence|cbn [List.length] in HL; lia]).
  change (MaxInt32 / 8) with 268435455 in Hg.
  cbn [encodes flat_map encodeRun] in Hdata. fold (encodes (rd_bitWidth d) runs) in Hdata. fold g in Hdata.
  rewrite Hl0, Z.mul_0_l, Z.add_0_r in Hpos. pose proof (CurOffset_aligned _ _ HO Hpos) as Hcur.
  rewrite <- app_assoc in Hdata.
  destruct (skipn_split _ _ _ _ Hoff Hdata) as (Hpre & Hdata1 & Hoff1).
  destruct (GetVlqInt_ok (rd_r d) (2 * Z.of_nat g + 1)) as (b1 & HE & HM1 & Hbit1);
    [assumption|lia|rewrite Hcur; assumption|].
  rewrite Hcur in HM1. set (o1 := o + len _) in *.
  assert (Ho1 : 0 <= o1 <= len (br_data (rd_r d))) by lia.
  destruct (skipn_split _ _ _ o1 Ho1 Hdata1) as (Hpre2 & Hdata2 & Hoff2).
  rewrite length_lebytes in *. destruct (movedTo_val _ _ _ HM1) as (HV1 & HD1 & HP1).
  destruct (odd_indicator (Z.of_nat g) ltac:(lia)) as [Hodd Hsh].
  assert (Hi : i32 (i32 (Z.of_nat g) * 8) = 8 * Z.of_nat g)
    by (unfold i32; rewrite !Z.mod_small; rewrite ?Z.mod_small; lia).
  eexists _, (o1 + Z.of_nat (g * Z.to_nat (rd_bitWidth d))). split.
  - unfold RD.Next. rewrite HE, Hodd, Hsh. cbn [Z.eqb negb].
    replace (u32 (Z.of_nat g)) with (Z.of_nat g) by (unfold u32; rewrite Z.mod_small; lia).
    change (u32 (MaxInt32 / 8)) with 268435455.
    bool_lia (Z.of_nat g =? 0). bool_lia (268435455 <? Z.of_nat g). cbn [orb]. rewrite Hi. reflexivity.
  - constructor; cbn [rd_r rd_bitWidth rd_curVal rd_repCount rd_litCount]; rewrite ?HD1, ?HP1, ?HV1; auto;
      try (unfold MaxInt32; lia); [apply HM1|].
    rewrite Hr0, Hl0. cbn [Z.to_nat repeat app expand flat_map expandRun]. fold (expand runs).
    unfold fields at 1. cbn [seq map app]. f_equal.
    replace (Z.to_nat (8 * Z.of_nat g)) with (List.length ls) by lia.
    unfold br_val. rewrite <- (fields_slice _ o1 (g * Z.to_nat (rd_bitWidth d))) by (destruct HO; auto; lia).
    rewrite Hpre2, leval_lebytes, Z.mod_small, fields_packed; auto; [lia|].
    pose proof (packed_bound (rd_bitWidth d) ls ltac:(lia) HF) as Hb.
    replace (8 * Z.of_nat (g * Z.to_nat (rd_bitWidth d))) with (len ls * rd_bitWidth d) by lia. exact Hb.
Qed.

(** The start of a repeated run. *)
Lemma Next_rep d vs runs o c v :
  decRelAt d vs (Rep c v :: runs) o -> rd_repCount d = 0 -> rd_litCount d = 0 ->
  exists d' o', RD.Next d = (d', true) /\ decRelAt d' vs runs o'.
Proof.
  intros [HO Hw Hf Hrep Hlit _ Hpos Hoff Hdata Hok Hvals] Hr0 Hl0. inversion Hok as [|? ? Hrun Hruns]; subst.
  destruct Hrun as (Hc & Hv). unfold MaxInt32 in Hc.
  cbn [encodes flat_map encodeRun] in Hdata. fold (encodes (rd_bitWidth d) runs) in Hdata.
  rewrite Hl0, Z.mul_0_l, Z.add_0_r in Hpos. pose proof (CurOffset_aligned _ _ HO Hpos) as Hcur.
  rewrite <- app_assoc in Hdata. set (nb := valueBytes (rd_bitWidth d)) in *.
  destruct (valueBytes_range _ Hw) as [Hnb Hnbw]. fold nb in Hnb, Hnbw.
  destruct (skipn_split _ _ _ _ Hoff Hdata) as (Hpre & Hdata1 & Hoff1).
  destruct (GetVlqInt_ok (rd_r d) (2 * c)) as (b1 & HE & HA1);
    [assumption|lia|rewrite Hcur; assumption|].
  rewrite Hcur in HA1. set (o1 := o + len _) in *. assert (Ho1 : 0 <= o1 <= len (br_data (rd_r d))) by lia.
  destruct (skipn_split _ _ _ o1 Ho1 Hdata1) as (Hpre2 & Hdata2 & Hoff2).
  rewrite length_lebytes in *. pose proof (alignedTo_off _ _ _ HA1) as Hcur1.
  destruct HA1 as [HM1 Hbit1]. destruct (movedTo_val _ _ _ HM1) as (HV1 & HD1 & HP1).
  destruct (readValue_ok b1 (Z.of_nat nb)) as (b2 & HE2 & HM2 & Hbit2);
    [apply HM1|lia|rewrite Hcur1, HD1; lia|].
  rewrite Hcur1 in HM2. pose proof (movedTo_trans _ _ _ _ _ HM1 HM2) as HM2'.
  destruct (movedTo_val _ _ _ HM2') as (HV2 & HD2 & HP2).
  assert (Hval : alignedVal b1 (Z.of_nat nb) = v).
  { unfold alignedVal. rewrite Hcur1, HD1, Nat2Z.id, Hpre2, leval_lebytes.
    red in Hv. pose proof (pow2_le _ _ Hnbw). apply Z.mod_small. lia. }
  destruct (even_indicator c ltac:(lia)) as [Heven Hsh].
  assert (Hi : i32 c = c) by (unfold i32; rewrite Z.mod_small; lia).
  eexists _, (o1 + Z.of_nat nb). split.
  - unfold RD.Next. rewrite HE, Heven, Hsh. cbn [Z.eqb negb].
    replace (u32 c) with c by (unfold u32; rewrite Z.mod_small; lia).
    change (u32 MaxInt32) with 2147483647. bool_lia (c =? 0). bool_lia (2147483647 <? c). cbn [orb].
    replace (BytesForBits (rd_bitWidth d)) with (Z.of_nat nb)
      by (rewrite BytesForBits_div by lia; subst nb; unfold valueBytes; rewrite Z2Nat.id by zdiv; reflexivity).
    rewrite HE2, Hval, Hi. reflexivity.
  - constructor; cbn [rd_r rd_bitWidth rd_curVal rd_repCount rd_litCount]; rewrite ?HD2, ?HP2, ?HV2, ?Hl0; auto;
      try (unfold MaxInt32; lia); [apply HM2'|].
    rewrite Hr0. reflexivity.
Qed.

(** At the end of the data there is no next run. *)
Lemma Next_end d vs o :
  decRelAt d vs [] o -> rd_repCount d = 0 -> rd_litCount d = 0 -> exists d', RD.Next d = (d', false).
Proof.
  intros [HO Hw Hf Hrep Hlit _ Hpos Hoff Hdata Hok Hvals] Hr0 Hl0.
  rewrite Hl0, Z.mul_0_l, Z.add_0_r in Hpos. pose proof (CurOffset_aligned _ _ HO Hpos) as Hcur.
  apply (f_equal (@List.length Z)) in Hdata. rewrite length_skipn in Hdata. cbn [encodes flat_map List.length] in Hdata.
  destruct (GetVlqInt_eof (rd_r d) HO ltac:(lia)) as (b' & HE). unfold RD.Next. rewrite HE. eauto.
Qed.

(** ** The loop over a sink *)

(** What a sink promises: [sk_rel s vs room] says that [s] has taken the values [vs] and
    can take [room] more; values are up to [sk_max] bits wide. *)
Class SinkOk {S} (sk : RD.RunSink S) : Type := {
  sk_max : Z;
  sk_rel : S -> list Z -> Z -> Prop;
  rep_ok : forall s vs room v n, sk_rel s vs room -> 0 <= n <= room ->
    sk_rel (RD.sk_rep sk s v n) (vs ++ repeat v (Z.to_nat n)) (room - n);
  lit_ok : forall b w s vs room n, brOk b -> 1 <= w <= sk_max -> dataFits (br_data b) ->
    sk_rel s vs room -> 0 <= n <= room -> br_pos b + n * w <= 8 * len (br_data b) ->
    exists b' s', RD.sk_lit sk b w s n = (b', s', n, None) /\ movedTo b b' (br_pos b + n * w) /\
      sk_rel s' (vs ++ fields (br_val b) (br_pos b) w (Z.to_nat n)) (room - n)
}.

Section Loop.
Context {S : Type} (sk : RD.RunSink S) `{!SinkOk sk}.

(** Taking [n] values of the current repeated run. *)
Lemma decRel_rep d vs runs o n :
  decRelAt d vs runs o -> 0 <= n <= rd_repCount d ->
  decRelAt (mkRD (rd_r d) (rd_bitWidth d) (rd_curVal d) (rd_repCount d - n) (rd_litCount d))
           (skipn (Z.to_nat n) vs) runs o /\
  firstn (Z.to_nat n) vs = repeat (rd_curVal d) (Z.to_nat n).
Proof.
  intros [HO Hw Hf Hrep Hlit Hone Hpos Hoff Hdata Hok Hvals] Hn.
  replace (Z.to_nat (rd_repCount d)) with (Z.to_nat n + Z.to_nat (rd_repCount d - n))%nat in Hvals by lia.
  rewrite repeat_app, <- app_assoc in Hvals. subst vs. split.
  - constructor; cbn [rd_r rd_bitWidth rd_curVal rd_repCount rd_litCount]; auto; [lia|lia|].
    rewrite skipn_app, skipn_all2, repeat_length, Nat.sub_diag by (rewrite repeat_length; lia). reflexivity.
  - rewrite firstn_app, firstn_all2, repeat_length, Nat.sub_diag, firstn_O, app_nil_r by (rewrite repeat_length; lia).
    reflexivity.
Qed.

(** Taking [n] values of the current literal run. *)
Lemma decRel_lit d vs runs o n b' :
  decRelAt d vs runs o -> rd_repCount d = 0 -> 0 <= n <= rd_litCount d ->
  movedTo (rd_r d) b' (br_pos (rd_r d) + n * rd_bitWidth d) ->
  decRelAt (mkRD b' (rd_bitWidth d) (rd_curVal d) (rd_repCount d) (rd_litCount d - n))
           (skipn (Z.to_nat n) vs) runs o /\
  firstn (Z.to_nat n) vs = fields (br_val (rd_r d)) (br_pos (rd_r d)) (rd_bitWidth d) (Z.to_nat n).
Proof.
  intros [HO Hw Hf Hrep Hlit Hone Hpos Hoff Hdata Hok Hvals] Hr0 Hn HM.
  destruct (movedTo_val _ _ _ HM) as (HV & HD & HP).
  rewrite Hr0 in Hvals. cbn [Z.to_nat repeat app] in Hvals.
  replace (Z.to_nat (rd_litCount d)) with (Z.to_nat n + Z.to_nat (rd_litCount d - n))%nat in Hvals by lia.
  rewrite fields_app, <- app_assoc, Z2Nat.id in Hvals by lia. subst vs. split; [|apply firstn_fields_app].
  constructor; cbn [rd_r rd_bitWidth rd_curVal rd_repCount rd_litCount]; rewrite ?HD, ?HP, ?HV; auto;
    [apply HM|lia|lia|].
  rewrite skipn_fields_app, Hr0. reflexivity.
Qed.

(** The outcome of the loop when [vs] are left. *)
Definition loopRes (res : option (RleDecoder * S * Z * option goerr)) (vs del : list Z) (read size : Z) : Prop :=
  let k := Z.min (size - read) (len vs) in
  exists d' s', res = Some (d', s', read + k, None) /\
    sk_rel s' (del ++ firstn (Z.to_nat k) vs) (size - read - k) /\
    (size - read <= len vs -> decRel d' (skipn (Z.to_nat k) vs)).

(** After [n] values have been taken, the loop goes on with the rest. *)
Lemma loopRes_take res vs del read size n :
  0 <= n <= size - read -> n <= len vs ->
  loopRes res (skipn (Z.to_nat n) vs) (del ++ firstn (Z.to_nat n) vs) (read + n) size ->
  loopRes res vs del read size.
Proof.
  unfold loopRes. intros Hn Hlen (d' & s' & HE & HR & HD). rewrite length_skipn in *.
  set (k := Z.min (size - read) (len vs)).
  replace (Z.min _ _) with (k - n) in * by lia.
  exists d', s'. split; [rewrite HE; do 3 f_equal; lia|].
  rewrite <- app_assoc, firstn_skipn_comm in HR. split.
  - replace (Z.to_nat n + Z.to_nat (k - n))%nat with (Z.to_nat k) in HR by lia.
    replace (size - read - k) with (size - (read + n) - (k - n)) by lia.
    assert (Hf : firstn (Z.to_nat n) vs ++ skipn (Z.to_nat n) (firstn (Z.to_nat k) vs) = firstn (Z.to_nat k) vs).
    { rewrite <- (firstn_skipn (Z.to_nat n) (firstn (Z.to_nat k) vs)) at 2. rewrite firstn_firstn, Nat.min_l by lia.
      reflexivity. }
    now rewrite Hf in HR.
  - intros Hle. specialize (HD ltac:(lia)). rewrite skipn_skipn in HD.
    now replace (Z.to_nat (k - n) + Z.to_nat n)%nat with (Z.to_nat k) in HD by lia.
Qed.

Lemma loopRes_stop d vs s del read size :
  decRel d vs -> sk_rel s del (size - read) -> size = read -> loopRes (Some (d, s, read, None)) vs del read size.
Proof.
  intros HD HR ->. exists d, s. rewrite Z.sub_diag, Z.min_l by lia. cbn [Z.to_nat firstn skipn].
  rewrite app_nil_r, Z.add_0_r. rewrite Z.sub_diag in HR. auto.
Qed.

(** Starting the next run changes neither the values left nor the ones taken. *)
Lemma Next_ok d vs runs o :
  decRelAt d vs runs o -> rd_repCount d = 0 -> rd_litCount d = 0 ->
  (exists d', RD.Next d = (d', true) /\ decRel d' vs) \/ (exists d', RD.Next d = (d', false)) /\ vs = [].
Proof.
  intros HD Hr0 Hl0. destruct runs as [|[c v|ls] runs].
  - right. split; [eapply Next_end; eauto|]. destruct HD as [_ _ _ _ _ _ _ _ _ _ ->]. now rewrite Hr0, Hl0.
  - left. destruct (Next_rep _ _ _ _ _ _ HD Hr0 Hl0) as (d' & o' & ? & ?). exists d'. split; [assumption|].
    now exists runs, o'.
  - left. destruct (Next_lit _ _ _ _ _ HD Hr0 Hl0) as (d' & o' & ? & ?). exists d'. split; [assumption|].
    now exists runs, o'.
Qed.

Lemma rleLoop_ok fuel d vs s del read size :
  decRel d vs -> rd_bitWidth d <= sk_max -> 0 <= read <= size -> sk_rel s del (size - read) ->
  2 * (size - read) + (if idle d then 1 else 0) <= Z.of_nat fuel ->
  loopRes (RD.rleLoop sk fuel d s read size) vs del read size.
Proof.
  revert d vs s del read. induction fuel as [|fuel IH]; intros d vs s del read HD Hmax Hread Hrel Hm;
    cbn [RD.rleLoop]; destruct (Z.ltb_spec read size) as [Hlt|Hge]; try (apply loopRes_stop; auto; lia);
    [destruct (idle d); lia|].
  destruct HD as (runs & o & HD). pose proof HD as [HO Hw Hf Hrep Hlit Hone Hpos Hoff Hdata Hok Hvals].
  assert (Hlen : len vs = rd_repCount d + rd_litCount d + len (expand runs))
    by (rewrite Hvals, !length_app, repeat_length, length_fields; lia).
  unfold idle in Hm.
  destruct (Z.ltb_spec 0 (rd_repCount d)) as [Hr|Hr]; cbn [negb andb] in Hm.
  - set (n := Z.min (size - read) (rd_repCount d)).
    destruct (decRel_rep _ _ _ _ n HD ltac:(lia)) as [HD1 Hfirst].
    apply (loopRes_take _ _ _ _ _ n); [lia|lia|]. apply IH; [now exists runs, o|exact Hmax|lia| |destruct (idle _); lia].
    rewrite Hfirst. replace (size - (read + n)) with (size - read - n) by lia. apply rep_ok; [assumption|lia].
  - destruct (Z.ltb_spec 0 (rd_litCount d)) as [Hl|Hl]; cbn [negb] in Hm.
    + set (n := Z.min (size - read) (rd_litCount d)).
      destruct (lit_ok (rd_r d) (rd_bitWidth d) s del (size - read) n) as (b' & s' & -> & HM & HR1);
        [assumption|lia|assumption|assumption|lia|nia|].
      destruct (decRel_lit _ _ _ _ n b' HD ltac:(lia) ltac:(lia) HM) as [HD1 Hfirst].
      rewrite Z.eqb_refl. apply (loopRes_take _ _ _ _ _ n); [lia|lia|].
      apply IH; [now exists runs, o|exact Hmax|lia| |destruct (idle _); lia].
      rewrite Hfirst. replace (size - (read + n)) with (size - read - n) by lia. exact HR1.
    + destruct (Next_ok _ _ _ _ HD ltac:(lia) ltac:(lia)) as [(d' & HE & HD')|[(d' & HE) ->]]; rewrite HE.
      * apply IH; auto; [|rewrite (Next_busy _ _ HE); lia].
        pose proof (Next_width d) as HW. rewrite HE in HW. cbn [fst] in HW. lia.
      * exists d', s. cbn [List.length]. rewrite Z.min_r by lia. cbn [Z.of_nat Z.to_nat firstn].
        rewrite app_nil_r, Z.add_0_r, Z.sub_0_r. splits; auto. lia.
Qed.

End Loop.

(** ** The readers *)

Lemma decRel_width d vs : decRel d vs -> 0 <= rd_bitWidth d <= 64.
Proof. intros (runs & o & []). lia. Qed.


(** The slice [values] is filled from the front. *)
Definition batchSink_ok (values : list Z) : SinkOk RD.batchSink.
Proof.
  refine {| sk_max := 64; sk_rel := fun (s : list Z * list Z) vs room =>
              fst s = vs /\ snd s = skipn (List.length vs) values /\ len (snd s) = room |}.
  - intros [filled out] vs room v n (<- & Hout & <-) Hn. cbn [RD.sk_rep RD.batchSink fst snd] in *.
    splits; [reflexivity| |rewrite length_skipn; lia].
    rewrite Hout, skipn_skipn, length_app, repeat_length. f_equal. lia.
  - intros b w [filled out] vs room n HO Hw _ (<- & Hout & <-) Hn Hle. cbn [RD.sk_lit RD.batchSink fst snd] in *.
    assert (HL : List.length (firstn (Z.to_nat n) out) = Z.to_nat n) by (rewrite length_firstn; lia).
    destruct (GetBatch_ok b w (firstn (Z.to_nat n) out) HO ltac:(lia)) as (b' & -> & HM); [rewrite HL; lia|].
    rewrite HL, Z2Nat.id in * by lia. eexists _, _. split; [reflexivity|]. split; [exact HM|]. cbn [fst snd].
    rewrite firstn_all2 by (rewrite length_fields; lia).
    rewrite skipn_all2 by (rewrite length_fields; lia). cbn [app].
    splits; [reflexivity| |rewrite length_skipn; lia].
    rewrite Hout, skipn_skipn, length_app, length_fields. f_equal. lia.
Defined.

#[export] Instance discardSink_ok : SinkOk RD.discardSink.
Proof.
  refine {| sk_max := 64; sk_rel := fun (_ : unit) _ _ => True |}; [auto|].
  intros b w s vs room n HO Hw Hf _ Hn Hle. cbn [RD.sk_lit RD.discardSink].
  destruct (Discard_ok b w n HO ltac:(lia) ltac:(lia) Hle Hf) as (b' & -> & HM).
  rewrite Z.eqb_refl. eauto.
Defined.

(** [GetBatch] delivers the values left, as many as the slice holds. *)
Lemma GetBatch_rel d vs values :
  decRel d vs ->
  let k := Z.min (len values) (len vs) in
  exists d', RD.GetBatch d values
      = Some (d', firstn (Z.to_nat k) vs ++ skipn (Z.to_nat k) values, k, None) /\
    (len values <= len vs -> decRel d' (skipn (Z.to_nat k) vs)).
Proof.
  intros HD k. unfold RD.GetBatch.
  destruct (@rleLoop_ok _ _ (batchSink_ok values) (RD.loopFuel (len values)) d vs ([], values) [] 0 (len values))
    as (d' & [filled out] & -> & HR & HD'); auto; [now apply decRel_width in HD|lia| |apply loopFuel_enough|].
  - cbn. splits; auto. lia.
  - rewrite Z.sub_0_r in *. fold k in HR, HD' |- *. cbn [sk_rel batchSink_ok fst snd app] in HR.
    destruct HR as (-> & -> & _). exists d'. split; [|exact HD'].
    rewrite length_firstn, Nat.min_l by lia. reflexivity.
Qed.

(** [Discard] skips the values left, as many as asked for. *)
Lemma Discard_rel d vs n :
  decRel d vs -> 0 <= n ->
  let k := Z.min n (len vs) in
  exists d', RD.Discard d n = Some (d', k) /\ (n <= len vs -> decRel d' (skipn (Z.to_nat k) vs)).
Proof.
  intros HD Hn k. unfold RD.Discard.
  destruct (rleLoop_ok RD.discardSink (RD.loopFuel n) d vs tt [] 0 n)
    as (d' & s' & -> & HR & HD'); auto; [now apply decRel_width in HD|lia|exact I|apply loopFuel_enough|].
  rewrite Z.sub_0_r in *. fold k in HD' |- *. exists d'. auto.
Qed.

(** ** Claims *)

(** Reads batches of the given sizes one after the other: the values read and the number
    each call reports. *)
Fixpoint readBatches (d : RleDecoder) (sizes : list nat) : option (list Z * list Z) :=
  match sizes with
  | [] => Some ([], [])
  | n :: sizes' =>
      match RD.GetBatch d (repeat 0 n) with
      | Some (d', vals, k, None) =>
          match readBatches d' sizes' with
          | Some (vs, ks) => Some (firstn (Z.to_nat k) vals ++ vs, k :: ks)
          | None => None
          end
      | _ => None
      end
  end.

Lemma readBatches_rel d vs sizes :
  decRel d vs -> (list_sum sizes <= List.length vs)%nat ->
  readBatches d sizes = Some (firstn (list_sum sizes) vs, map Z.of_nat sizes).
Proof.
  revert d vs. induction sizes as [|n sizes IH]; intros d vs HD Hle; [reflexivity|].
  cbn [list_sum fold_right readBatches map] in *. fold (list_sum sizes) in *.
  destruct (GetBatch_rel d vs (repeat 0 n) HD) as (d' & HE & HD'). rewrite repeat_length in *.
  rewrite Z.min_l, Nat2Z.id in * by lia. rewrite HE, (IH d' (skipn n vs)); [|apply HD'; lia|rewrite length_skipn; lia].
  rewrite skipn_all2, app_nil_r, Nat2Z.id, firstn_firstn, Nat.min_id by (rewrite repeat_length; lia).
  rewrite firstn_skipn_comm. do 2 f_equal.
  rewrite <- (firstn_skipn n (firstn (n + list_sum sizes) vs)) at 2. rewrite firstn_firstn, Nat.min_l by lia. reflexivity.
Qed.

(** C28: the decoder reads the format, not just what this encoder writes: for every width from 1
    to 64 (width 0 is read wrongly), every sequence of runs of that width that the format allows
    (counts up to 2^31-1, literal runs up to (2^31-1)/8 groups) and every way of splitting the read
    into batches, the batches put together are the values the runs stand for, and every call
    reports a full batch. *)
Theorem rle_decode_conforming w runs sizes :
  1 <= w <= 64 -> runsOk w runs -> dataFits (encodes w runs) -> (list_sum sizes <= List.length (expand runs))%nat ->
  readBatches (RD.NewRleDecoder (BytesReader.new (encodes w runs)) w) sizes
    = Some (firstn (list_sum sizes) (expand runs), map Z.of_nat sizes).
Proof. intros Hw Hok Hf Hle. apply readBatches_rel; [now apply NewRleDecoder_rel|assumption]. Qed.

Lemma rle_decode_conforming_witness :
  let runs := [Rep 10 3; Lit [1; 2; 3; 4; 5; 6; 7; 0]; Rep 1 2] in
  readBatches (RD.NewRleDecoder (BytesReader.new (encodes 3 runs)) 3) [4; 9; 6]%nat
    = Some (firstn 19 (expand runs), map Z.of_nat [4; 9; 6]%nat).
Proof.
  apply (rle_decode_conforming 3 [Rep 10 3; Lit [1; 2; 3; 4; 5; 6; 7; 0]; Rep 1 2] [4; 9; 6]%nat);
    [lia| |vm_compute; reflexivity|vm_compute; lia].
  repeat constructor; unfold MaxInt32; cbn; try lia; discriminate.
Defined.

(** A slice longer than the stream gets every value of the stream, keeps its other entries,
    and the call reports how many values there were, without an error. *)
Theorem rle_decode_exhausted w runs values :
  1 <= w <= 64 -> runsOk w runs -> dataFits (encodes w runs) -> (List.length (expand runs) <= List.length values)%nat ->
  exists d, RD.GetBatch (RD.NewRleDecoder (BytesReader.new (encodes w runs)) w) values
    = Some (d, expand runs ++ skipn (List.length (expand runs)) values, len (expand runs), None).
Proof.
  intros Hw Hok Hf Hle. destruct (GetBatch_rel _ _ values (NewRleDecoder_rel w runs Hw Hok Hf)) as (d & HE & _).
  rewrite Z.min_r, Nat2Z.id, firstn_all in HE by lia. eauto.
Qed.

(** [Discard(n)] followed by [GetBatch] delivers what [GetBatch] delivers after the first
    [n] values, across runs of both kinds. *)
Theorem rle_discard_correct w runs n values :
  1 <= w <= 64 -> runsOk w runs -> dataFits (encodes w runs) -> 0 <= n -> n + len values <= len (expand runs) ->
  exists d1 d2, RD.Discard (RD.NewRleDecoder (BytesReader.new (encodes w runs)) w) n = Some (d1, n) /\
    RD.GetBatch d1 values
      = Some (d2, firstn (List.length values) (skipn (Z.to_nat n) (expand runs)), len values, None).
Proof.
  intros Hw Hok Hf Hn Hle.
  destruct (Discard_rel _ _ n (NewRleDecoder_rel w runs Hw Hok Hf) Hn) as (d1 & HE1 & HD1).
  rewrite Z.min_l in * by lia. specialize (HD1 ltac:(lia)).
  destruct (GetBatch_rel _ _ values HD1) as (d2 & HE2 & _). rewrite length_skipn, Z.min_l, Nat2Z.id in HE2 by lia.
  rewrite skipn_all, app_nil_r in HE2. eauto.
Qed.

(** C30: [GetBatch] and [Discard] terminate on every input: whatever the bytes, the width and the
    state of the decoder, the loop ends within [2 * n + 1] iterations for [n] values, because
    [Next] never starts an empty run. *)
Theorem rle_decode_terminates d values n :
  (exists res, RD.GetBatch d values = Some res) /\ (exists res, RD.Discard d n = Some res).
Proof.
  split; [apply GetBatch_total_ok|]. unfold RD.Discard.
  destruct (rleLoop_total RD.discardSink _ d tt 0 n (loopFuel_enough n d)) as [[[[r' s'] k] e] ->]. eauto.
Qed.

(** ** Width 0 *)

(** The scratch bytes start with the byte at the reader's offset, 0 at the end of the data. *)
Definition rawFresh (b : BitReader) : Prop := nth 0 (br_raw b) 0 = nth (Z.to_nat (br_byteoffset b)) (br_data b) 0.

Lemma fillbuffer_raw b b' : BR.fillbuffer b = (b', None) -> rawFresh b'.
Proof.
  unfold BR.fillbuffer, BytesReader.ReadAt, rawFresh, br_data. destruct (Z.ltb_spec (br_byteoffset b) 0) as [|Ho]; [discriminate|].
  set (data := BytesReader.data (br_reader b)). destruct (Z.leb_spec (len data) (br_byteoffset b)) as [He|He].
  - intros H; injection H as <-. cbn. fold data. rewrite nth_overflow by lia. reflexivity.
  - rewrite (skipn_cons data _ 0) by lia. cbn [Z.to_nat Pos.to_nat Pos.iter_op Nat.add firstn]. destruct (_ <? _); intros H; injection H as <-; reflexivity.
Qed.

Lemma ReadByte_raw b b' x : Binary.ReadByte b = (b', inl x) -> rawFresh b'.
Proof.
  unfold Binary.ReadByte, BR.ReadByte, BR.getAlignedUint8, BR.alignedDone. destruct (1 <? 1); [discriminate|]. destruct (BR.alignedRead b 1) as [b1 [|]]; [|discriminate].
  destruct (BR.fillbuffer _) as [b2 [e|]] eqn:E; [discriminate|]. intros H; injection H as <- _. exact (fillbuffer_raw _ _ E).
Qed.

Lemma readUvarint_raw n : forall x s (b b' : BitReader) v, Binary.readUvarint n x s b = (b', inl v) -> rawFresh b'.
Proof.
  induction n as [|n IH]; intros x s b b' v; cbn [Binary.readUvarint]; [discriminate|]. destruct (Binary.ReadByte b) as [b1 [y|e]] eqn:E; [|discriminate].
  destruct (y <? 128); [|apply IH]. destruct (_ && _); [discriminate|]. intros H; injection H as <- _. exact (ReadByte_raw _ _ _ E).
Qed.

Lemma GetVlqInt_raw b b' v : BR.GetVlqInt b = (b', Some v) -> rawFresh b'.
Proof.
  unfold BR.GetVlqInt, Binary.ReadUvarint. destruct (Binary.readUvarint _ _ _ b) as [b1 [x|e]] eqn:E; [|discriminate]. intros H; injection H as <- _. exact (readUvarint_raw _ _ _ _ _ _ E).
Qed.

(** Reading a value of no bytes: the byte that follows, which is not consumed. *)
Lemma readValue_0 b : brOk b -> br_bitoffset b = 0 -> rawFresh b ->
  exists b', RD.readValue b 0 = (b', Some (nth (Z.to_nat (br_byteoffset b)) (br_data b) 0)).
Proof.
  intros HO H0 HR. unfold RD.readValue. cbn [Z.ltb Z.compare]. unfold BR.getAlignedUint8. cbn [Z.ltb Z.compare]. unfold BR.alignedRead. rewrite H0. change (BytesForBits 0) with 0. rewrite Z.add_0_r.
  unfold BytesReader.ReadAt. destruct HO as [Hb Ho _ Hraw _]. bool_lia (br_byteoffset b <? 0). set (b1 := mkBR (br_reader b) (br_buffer b) (br_byteoffset b) (br_bitoffset b) (br_validBits b) (splice (br_raw b) 0 [])).
  assert (Hsp : splice (br_raw b) 0 [] = br_raw b) by (unfold splice; now rewrite firstn_nil, firstn_O).
  assert (Hgo : exists b', (let '(b2, ok) := BR.alignedDone b1 0 in (b2, if ok : bool then Some (nth 0 (br_raw b1) 0) else None)) = (b', Some (nth (Z.to_nat (br_byteoffset b)) (br_data b) 0))).
  { destruct (alignedDone_ok b1 (br_byteoffset b) 0) as (b2 & -> & _); [exact Hb|subst b1; cbn [br_raw]; rewrite Hsp; exact Hraw|exact Ho|reflexivity|lia|]. exists b2. subst b1. cbn [br_raw]. rewrite Hsp, HR. reflexivity. }
  fold (br_data b). destruct (len (br_data b) <=? br_byteoffset b); [exact Hgo|]. cbn [Z.to_nat firstn List.length]. exact Hgo.
Qed.

(** The first byte of a run is that of its indicator, which is not 0. *)
Lemma first_byte_pos x : 0 < x -> 0 < nth 0 (Binary.PutUvarint x) 0.
Proof.
  intros Hx. unfold Binary.PutUvarint, Binary.MaxVarintLen64. cbn [Binary.putUvarint]. destruct (Z.leb_spec 128 x); cbn [nth].
  - assert (Hn : 0 <= Z.lor (u8 x) 128) by (apply Z.lor_nonneg; split; [unfold u8; apply Z.mod_pos_bound; lia|lia]). assert (Hz : Z.lor (u8 x) 128 <> 0) by (rewrite Z.lor_eq_0_iff; lia). lia.
  - unfold u8. rewrite Z.mod_small; lia.
Qed.

Lemma encodes0_first runs : runsOk 0 runs -> runs <> [] -> 0 < nth 0 (encodes 0 runs) 0.
Proof.
  intros HR Hne. destruct runs as [|r runs]; [congruence|]. inversion HR as [|? ? Hr _]; subst. cbn [encodes flat_map]. unfold MaxInt32 in Hr.
  assert (HL : forall x, (0 < List.length (Binary.PutUvarint x))%nat) by (intros x; apply Binary.putUvarint_length; unfold Binary.MaxVarintLen64; lia).
  destruct r as [c v|vs]; cbn [encodeRun runOk] in *; rewrite <- !app_assoc, app_nth1 by apply HL; apply first_byte_pos; lia.
Qed.

(** The first run of a stream of width 0. *)
Lemma Next_width0 n runs : 1 <= n <= MaxInt32 -> runsOk 0 runs ->
  exists b, RD.Next (RD.NewRleDecoder (BytesReader.new (encodes 0 (Rep n 0 :: runs))) 0) = (mkRD b 0 (nth 0 (encodes 0 runs) 0) n 0, true).
Proof.
  intros Hn HR. unfold MaxInt32 in Hn. change (encodes 0 (Rep n 0 :: runs)) with ((Binary.PutUvarint (2 * n) ++ []) ++ encodes 0 runs). rewrite app_nil_r. set (pre := Binary.PutUvarint (2 * n)). set (data := pre ++ encodes 0 runs).
  assert (Hb : bytes data) by (apply bytes_app; split; [apply Binary.PutUvarint_bytes; lia|now apply encodes_bytes]). pose proof (NewBitReader_ok data Hb) as HO. set (b0 := BR.NewBitReader (BytesReader.new data)) in *.
  destruct (GetVlqInt_ok b0 (2 * n) HO ltac:(lia)) as (b1 & HE & HM & Hbit); [change (firstn (List.length pre) data = pre); unfold data; now rewrite firstn_app, firstn_all, Nat.sub_diag, firstn_O, app_nil_r|].
  change (BR.CurOffset b0) with 0 in HM. rewrite Z.add_0_l in HM. fold pre in HM. pose proof (GetVlqInt_raw _ _ _ HE) as Hraw. destruct HM as (HO1 & HD & HP). destruct (readValue_0 b1 HO1 Hbit Hraw) as (b2 & HV).
  exists b2. unfold RD.Next, RD.NewRleDecoder. cbn [rd_r rd_bitWidth rd_curVal rd_repCount rd_litCount]. fold b0. rewrite HE. destruct (even_indicator n ltac:(lia)) as [-> ->]. cbn [Z.eqb negb].
  replace (u32 n) with n by (unfold u32; rewrite Z.mod_small; lia). change (u32 MaxInt32) with 2147483647. bool_lia (n =? 0). bool_lia (2147483647 <? n). cbn [orb]. change (BytesForBits 0) with 0. rewrite HV.
  replace (i32 n) with n by (unfold i32; rewrite Z.mod_small; lia). unfold br_pos in HP. red in HD. replace (br_byteoffset b1) with (len pre) by lia. rewrite HD. change (br_data b0) with data. unfold data. rewrite Nat2Z.id, app_nth2, Nat.sub_diag by lia. reflexivity.
Qed.

(** C40: a repeated run of width 0 has no value bytes and stands for zeros; the decoder takes the byte
    that follows its indicator for its value.  For every such run at the start of a stream and any
    runs after it, a batch of up to its count is filled with the first byte of the next run, which
    is not 0; only at the end of the stream the zeros come out. *)
Theorem rle_width0_reads_next_byte n runs values :
  1 <= n <= MaxInt32 -> runsOk 0 runs -> len values <= n ->
  let b := nth 0 (encodes 0 runs) 0 in
  (exists d, RD.GetBatch (RD.NewRleDecoder (BytesReader.new (encodes 0 (Rep n 0 :: runs))) 0) values = Some (d, repeat b (List.length values), len values, None)) /\
  (runs <> [] -> 0 < b) /\ (runs = [] -> b = 0) /\ firstn (List.length values) (expand (Rep n 0 :: runs)) = repeat 0 (List.length values).
Proof.
  intros Hn HR HL b. split; [|split; [now apply encodes0_first|split; [now intros ->|]]].
  - destruct (Next_width0 n runs Hn HR) as (r & HN). fold b in HN. unfold RD.GetBatch, RD.loopFuel. destruct values as [|x values]; [eexists; reflexivity|]. set (vals := x :: values) in *. assert (Hpos : 0 < len vals) by (cbn [vals List.length]; lia).
    replace (S (2 * Z.to_nat (len vals))) with (S (S (S (2 * Z.to_nat (len vals) - 2)))) by lia. cbn [RD.rleLoop]. bool_lia (0 <? len vals). cbn [RD.NewRleDecoder rd_repCount rd_litCount Z.ltb Z.compare]. fold (RD.NewRleDecoder (BytesReader.new (encodes 0 (Rep n 0 :: runs))) 0). rewrite HN.
    cbn [rd_repCount rd_curVal rd_litCount rd_r rd_bitWidth]. unfold MaxInt32 in Hn. bool_lia (0 <? n). rewrite Z.sub_0_r, Z.min_l by lia. rewrite Z.add_0_l, Z.ltb_irrefl. cbn [RD.batchSink RD.sk_rep app]. rewrite Nat2Z.id, skipn_all, app_nil_r. eexists. reflexivity.
  - cbn [expand flat_map expandRun]. rewrite firstn_app, repeat_length. replace (List.length values - Z.to_nat n)%nat with O by lia. rewrite firstn_O, app_nil_r. rewrite firstn_repeat. f_equal. lia.
Qed.

(** Three values of a run of eight, followed by a run of five. *)
Lemma rle_width0_witness :
  (exists d, RD.GetBatch (RD.NewRleDecoder (BytesReader.new [16; 10]) 0) [7; 7; 7] = Some (d, [10; 10; 10], 3, None)) /\ firstn 3 (expand [Rep 8 0; Rep 5 0]) = [0; 0; 0].
Proof.
  destruct (rle_width0_reads_next_byte 8 [Rep 5 0] [7; 7; 7]) as (H & _ & _ & H0); [unfold MaxInt32; lia|repeat constructor; unfold MaxInt32; cbn; lia|cbn; lia|]. split; [exact H|exact H0].
Defined.

(** When the value of a repeated run is cut off, [Next] fails but the run's count stays: the
    first [GetBatch] reports no values, and the next one reports values the stream does not
    have. *)
Theorem rle_truncated_run_delivers :
  let d := RD.NewRleDecoder (BytesReader.new [16]) 8 in
  exists d1 d2, RD.GetBatch d [7; 7; 7] = Some (d1, [7; 7; 7], 0, None) /\
    RD.GetBatch d1 [7; 7; 7] = Some (d2, [0; 0; 0], 3, None).
Proof. eexists _, _. split; reflexivity. Qed.
