(* ===== verification/RleLevels.v ===== *)
(** * Levels from the RLE decoder (parquet/internal/utils/rle.go, [GetBatchLevels])

    The loop is the one of [RleDecoder]; the sink takes the values as int16 levels and counts
    those equal to the maximal level. *)

From Stdlib Require Import ZArith List Lia Bool String.
From S2P Require Import Prelude GoStd BitUtil BitPacking BitReader BitReaderBatch RleFormat RleDecoder.
Import ListNotations.
#[local] Open Scope Z_scope.
#[local] Open Scope go_scope.

Module RDL.

(** The part of the slice that is filled, the rest, and the count. *)
Definition levelsSink (maxLevel : Z) : RD.RunSink (list Z * list Z * Z) :=
  RD.mkSink
    (fun s v n =>
       let '(filled, out, maxCount) := s in
       let level := i16 v in
       (filled ++ repeat level (Z.to_nat n), skipn (Z.to_nat n) out,
        if level =? maxLevel then maxCount + n else maxCount))
    (fun b width s litbatch =>
       let '(filled, out, maxCount) := s in
       let '(b', o, n, count, err) := BRL.GetBatchLevels b width (firstn (Z.to_nat litbatch) out) maxLevel in
       (b', (filled ++ firstn (Z.to_nat n) o, skipn (Z.to_nat n) o ++ skipn (Z.to_nat litbatch) out, maxCount + count), n, err)).

(** [GetBatchLevels(values, maxLevel)]: the decoder, the slice afterwards, the number read,
    the number of them equal to [maxLevel], the error. *)
Definition GetBatchLevels (r : RleDecoder) (values : list Z) (maxLevel : Z)
    : option (RleDecoder * list Z * Z * Z * option goerr) :=
  match RD.rleLoop (levelsSink maxLevel) (RD.loopFuel (len values)) r ([], values, 0) 0 (len values) with
  | Some (r', (filled, out, maxCount), n, e) => Some (r', filled ++ out, n, maxCount, e)
  | None => None
  end.

End RDL.

Lemma countMax_repeat mx v n : BRL.countMax mx (repeat v n) = if v =? mx then Z.of_nat n else 0.
Proof. induction n as [|n IH]; cbn [repeat]; [now destruct (v =? mx)|]. rewrite countMax_cons, IH. destruct (v =? mx); lia. Qed.

(** Levels of a reader with enough data. *)
Lemma GetBatchLevels_ok b bits out mx :
  brOk b -> 0 <= bits <= 16 -> br_pos b + len out * bits <= 8 * len (br_data b) ->
  let levels := map i16 (fields (br_val b) (br_pos b) bits (List.length out)) in
  exists b', BRL.GetBatchLevels b bits out mx = (b', levels, len out, BRL.countMax mx levels, None) /\
    movedTo b b' (br_pos b + len out * bits).
Proof.
  intros HO Hb HL levels. rewrite GetBatchLevels_GetBatch by (auto; nia).
  destruct (GetBatch_ok b bits out HO ltac:(lia) HL) as (b' & -> & HM). exists b'. split; [|exact HM].
  cbn [asLevels]. rewrite Nat2Z.id, firstn_all2, skipn_all, app_nil_r by (rewrite length_fields; lia). reflexivity.
Qed.

Definition levelsSink_ok (mx : Z) (values : list Z) : SinkOk (RDL.levelsSink mx).
Proof.
  refine {| sk_max := 16; sk_rel := fun (s : list Z * list Z * Z) vs room =>
              let '(filled, out, c) := s in
              filled = map i16 vs /\ out = skipn (List.length vs) values /\ len out = room /\ c = BRL.countMax mx (map i16 vs) |}.
  - intros [[filled out] c] vs room v n (-> & -> & <- & ->) Hn. cbn [RD.sk_rep RDL.levelsSink]. rewrite map_app, map_repeat.
    splits; [reflexivity| |rewrite length_skipn; lia|].
    + rewrite skipn_skipn, length_app, repeat_length. f_equal. lia.
    + rewrite countMax_app, countMax_repeat, Z2Nat.id by lia. destruct (i16 v =? mx); lia.
  - intros b w [[filled out] c] vs room n HO Hw _ (-> & Hout & <- & ->) Hn Hle. cbn [RD.sk_lit RDL.levelsSink].
    assert (HL : List.length (firstn (Z.to_nat n) out) = Z.to_nat n) by (rewrite length_firstn; lia).
    destruct (GetBatchLevels_ok b w (firstn (Z.to_nat n) out) mx HO ltac:(lia)) as (b' & -> & HM); [rewrite HL; lia|].
    rewrite HL, Z2Nat.id in * by lia. eexists _, _. split; [reflexivity|]. split; [exact HM|].
    set (F := fields _ _ _ _). assert (HLF : List.length (map i16 F) = Z.to_nat n) by (subst F; now rewrite length_map, length_fields).
    rewrite firstn_all2, skipn_all2 by lia. cbn [app]. rewrite map_app, countMax_app. splits; auto.
    + rewrite Hout, skipn_skipn, length_app. subst F. rewrite length_fields. f_equal. lia.
    + rewrite length_skipn. lia.
Defined.

(** [GetBatchLevels] delivers the values left as levels, as many as the slice holds. *)
Lemma GetBatchLevels_rel d vs values mx :
  decRel d vs -> rd_bitWidth d <= 16 ->
  let k := Z.min (len values) (len vs) in
  let levels := map i16 (firstn (Z.to_nat k) vs) in
  exists d', RDL.GetBatchLevels d values mx
      = Some (d', levels ++ skipn (Z.to_nat k) values, k, BRL.countMax mx levels, None) /\
    (len values <= len vs -> decRel d' (skipn (Z.to_nat k) vs)).
Proof.
  intros HD Hw k levels. unfold RDL.GetBatchLevels.
  destruct (@rleLoop_ok _ _ (levelsSink_ok mx values) (RD.loopFuel (len values)) d vs ([], values, 0) [] 0 (len values))
    as (d' & [[filled out] c] & -> & HR & HD'); auto; [lia| |apply loopFuel_enough|].
  - cbn. splits; auto. lia.
  - rewrite Z.sub_0_r in *. fold k in HR, HD' |- *. cbn [sk_rel levelsSink_ok app] in HR.
    destruct HR as (-> & -> & _ & ->). exists d'. split; [|exact HD'].
    rewrite length_firstn, Nat.min_l by lia. reflexivity.
Qed.
