(* ===== verification/RleEncoder.v ===== *)
(** * The RLE encoder (parquet/internal/utils/rle.go, [RleEncoder])

    Values are buffered in groups of eight.  A group of equal values starts or continues a
    repeated run; any other group goes to a literal run, whose one-byte indicator is
    reserved when the run is opened and patched when it is closed.  The writer is any
    [WriterAt]; the theorems need its contract [WriterAtOk].

    [encRel R e vs] relates an encoder state to the values put so far. *)

From Stdlib Require Import ZArith List Lia Bool String.
From S2P Require Import Prelude GoStd BitUtil BitWriter RleFormat.
Import ListNotations.
#[local] Open Scope Z_scope.
#[local] Open Scope go_scope.

Record RleEncoder (W : Type) : Type := mkRE {
  re_w : BitWriter W;
  re_buffer : list Z;
  re_bitWidth : Z;
  re_curVal : Z;
  re_repCount : Z;
  re_litCount : Z;
  re_litOff : Z
}.
Arguments mkRE {W}.
Arguments re_w {W}.
Arguments re_buffer {W}.
Arguments re_bitWidth {W}.
Arguments re_curVal {W}.
Arguments re_repCount {W}.
Arguments re_litCount {W}.
Arguments re_litOff {W}.

Module RE.
Section Ops.
Context {W : Type} `{WriterAt W}.
Implicit Types r : RleEncoder W.

Definition NewRleEncoder (w : W) (width : Z) : RleEncoder W :=
  mkRE (BW.NewBitWriter w) [] width 0 0 0 (-1).

Definition setBuffer r (buffer : list Z) : RleEncoder W :=
  mkRE (re_w r) buffer (re_bitWidth r) (re_curVal r) (re_repCount r) (re_litCount r) (re_litOff r).

Definition setRep r (repCount : Z) : RleEncoder W :=
  mkRE (re_w r) (re_buffer r) (re_bitWidth r) (re_curVal r) repCount (re_litCount r) (re_litOff r).

Definition setLit r (litCount : Z) : RleEncoder W :=
  mkRE (re_w r) (re_buffer r) (re_bitWidth r) (re_curVal r) (re_repCount r) litCount (re_litOff r).

Definition setCur r (curVal : Z) : RleEncoder W :=
  mkRE (re_w r) (re_buffer r) (re_bitWidth r) curVal (re_repCount r) (re_litCount r) (re_litOff r).

(** [flushLiteral(updateIndicator)] *)
Definition flushLiteral r (updateIndicator : bool) : RleEncoder W * option goerr :=
  let '(w1, off) :=
    if re_litOff r =? -1 then BW.SkipBytes (re_w r) 1 else (re_w r, re_litOff r) in
  match BW.WriteValues w1 (re_buffer r) (re_bitWidth r) with
  | (w2, Some e) =>
      (mkRE w2 (re_buffer r) (re_bitWidth r) (re_curVal r) (re_repCount r) (re_litCount r) off, Some e)
  | (w2, None) =>
      if updateIndicator then
        let ngroups := Z.quot (re_litCount r) 8 in
        let indicator := u8 (Z.lor (i32 (Z.shiftl ngroups 1)) 1) in
        let '(w3, _, err) := BW.WriteAtBW w2 [indicator] off in
        (mkRE w3 [] (re_bitWidth r) (re_curVal r) (re_repCount r) 0 (-1), err)
      else
        (mkRE w2 [] (re_bitWidth r) (re_curVal r) (re_repCount r) (re_litCount r) off, None)
  end.

(** [flushBuffered(done)] *)
Definition flushBuffered r (done : bool) : RleEncoder W * option goerr :=
  if 8 <=? re_repCount r then
    let r := setBuffer r [] in
    if negb (re_litCount r =? 0) then flushLiteral r true else (r, None)
  else
    let r := setLit r (i32 (re_litCount r + len (re_buffer r))) in
    let ngroups := Z.quot (re_litCount r) 8 in
    let '(r, err) :=
      if 2 ^ 6 <=? ngroups + 1 then flushLiteral r true else flushLiteral r done in
    (setRep r 0, err).

(** [flushRepeated()] *)
Definition flushRepeated r : RleEncoder W * bool :=
  let indicator := u64 (Z.shiftl (u64 (re_repCount r)) 1) in
  let '(w1, ok1) := BW.WriteVlqInt (re_w r) indicator in
  let '(w2, ok2) :=
    if ok1 : bool then BW.WriteAligned w1 (re_curVal r) (BytesForBits (re_bitWidth r)) else (w1, false) in
  (mkRE w2 [] (re_bitWidth r) (re_curVal r) 0 (re_litCount r) (re_litOff r), ok2).

(** The end of [Put]: buffer the value, flush a full group. *)
Definition putBuffer r (value : Z) : RleEncoder W * option goerr :=
  let r := setBuffer r (re_buffer r ++ [value]) in
  if len (re_buffer r) =? 8 then flushBuffered r false else (r, None).

Definition Put r (value : Z) : RleEncoder W * option goerr :=
  if re_curVal r =? value then
    let r := setRep r (i32 (re_repCount r + 1)) in
    if 8 <? re_repCount r then (r, None) else putBuffer r value
  else if 8 <=? re_repCount r then
    match flushRepeated r with
    | (r, false) => (r, Some (ErrMsg "failed to flush repeated value"))
    | (r, true) => putBuffer (setCur (setRep r 1) value) value
    end
  else putBuffer (setCur (setRep r 1) value) value.

(** [Flush()]: the encoder and the number of bytes written. *)
Definition Flush r : RleEncoder W * Z :=
  let r1 :=
    if (0 <? re_litCount r) || (0 <? re_repCount r) || (0 <? len (re_buffer r)) then
      let allRep := (re_litCount r =? 0) &&
                    ((re_repCount r =? i32 (len (re_buffer r))) || (len (re_buffer r) =? 0)) in
      if (0 <? re_repCount r) && allRep then fst (flushRepeated r)
      else
        let pad := if negb (len (re_buffer r) =? 0) && (len (re_buffer r) <? 8)
                   then repeat 0 (8 - List.length (re_buffer r)) else [] in
        let r := setBuffer r (re_buffer r ++ pad) in
        let r := setLit r (i32 (re_litCount r + len (re_buffer r))) in
        setRep (fst (flushLiteral r true)) 0
    else r in
  let w := BW.Flush false (re_w r1) in
  (mkRE w (re_buffer r1) (re_bitWidth r1) (re_curVal r1) (re_repCount r1) (re_litCount r1) (re_litOff r1),
   BW.Written w).

Definition Clear r : RleEncoder W :=
  mkRE (BW.Clear (re_w r)) [] (re_bitWidth r) 0 0 0 (-1).

(** Puts one value after the other, stopping at an error. *)
Fixpoint puts r (values : list Z) : RleEncoder W * option goerr :=
  match values with
  | [] => (r, None)
  | v :: values' =>
      match Put r v with
      | (r', None) => puts r' values'
      | (r', Some e) => (r', Some e)
      end
  end.

(** The loop of [PutBatchLevels] and [PutBatchIndices] around [Put]: at most [n] values;
    the encoder, the number put, the error. *)
Fixpoint putSome r (values : list Z) (n : nat) : RleEncoder W * Z * option goerr :=
  match n, values with
  | Datatypes.S n', v :: values' =>
      match Put r v with
      | (r', Some e) => (r', 0, Some e)
      | (r', None) => let '(r2, k, e) := putSome r' values' n' in (r2, 1 + k, e)
      end
  | _, _ => (r, 0, None)
  end.

(** [runEnd - encoded]: how many of [values] are equal to the first one. *)
Fixpoint runLen (value : Z) (values : list Z) : Z :=
  match values with
  | v :: values' => if v =? value then 1 + runLen value values' else 0
  | [] => 0
  end.

(** Continuing a repeated run, the first case of the batch loops: the encoder and the
    number of values taken, or the failure to flush a run that has reached its bound. *)
Definition extendRun r (value : Z) (values : list Z) : RleEncoder W * Z * bool :=
  let runLength := Z.min (runLen value values) (MaxInt32 - re_repCount r) in
  let r := setRep r (re_repCount r + runLength) in
  let rest := skipn (Z.to_nat runLength) values in
  if (re_repCount r =? MaxInt32) && match rest with v :: _ => v =? value | [] => false end then
    let '(r', ok) := flushRepeated r in (r', runLength, ok)
  else (r, runLength, true).

(** Starting a repeated run, the second case: taken when the encoder is between groups and
    at least eight equal values follow. *)
Definition startRun r (value : Z) (values : list Z) : RleEncoder W * Z * option goerr :=
  let r := setCur r (u64 value) in
  let '(r, skipped, err) :=
    if negb (re_litCount r =? 0) then
      let '(r', e) := flushLiteral (setRep r 8) true in
      (r', match e with None => 8 | Some _ => 0 end, e)
    else (r, 0, None) in
  match err with
  | Some e => (r, 0, Some e)
  | None =>
      let runLength := Z.min (runLen value values - skipped) (MaxInt32 - re_repCount r) in
      (setRep r (re_repCount r + runLength), skipped + runLength, None)
  end.

Definition betweenGroups r : bool := (re_repCount r =? 0) && (len (re_buffer r) =? 0).

(** [len(values)-encoded >= 8 && values[encoded+7] == value], and then at least eight equal. *)
Definition runAhead (value : Z) (values : list Z) : bool :=
  (8 <=? len values) && (nth 7 values 0 =? value) && (8 <=? runLen value values).

(** [PutBatchLevels(values)]; [values] is what is left of the slice. *)
Fixpoint putBatchLevels (fuel : nat) r (values : list Z) : option (RleEncoder W * Z * option goerr) :=
  match values with
  | [] => Some (r, 0, None)
  | value :: _ =>
      match fuel with
      | O => None
      | Datatypes.S fuel' =>
          if (8 <=? re_repCount r) && (re_curVal r =? u64 value) then
            match extendRun r value values with
            | (r', k, false) => Some (r', k, Some (ErrMsg "failed to flush repeated value"))
            | (r', k, true) =>
                match putBatchLevels fuel' r' (skipn (Z.to_nat k) values) with
                | Some (r2, n, e) => Some (r2, k + n, e)
                | None => None
                end
            end
          else if betweenGroups r && runAhead value values then
            match startRun r value values with
            | (r', k, Some e) => Some (r', k, Some e)
            | (r', k, None) =>
                match putBatchLevels fuel' r' (skipn (Z.to_nat k) values) with
                | Some (r2, n, e) => Some (r2, k + n, e)
                | None => None
                end
            end
          else
            let batch := Nat.min (List.length values) (8 - List.length (re_buffer r)) in
            match putSome r (map u64 values) batch with
            | (r', k, Some e) => Some (r', k, Some e)
            | (r', k, None) =>
                match putBatchLevels fuel' r' (skipn (Z.to_nat k) values) with
                | Some (r2, n, e) => Some (r2, k + n, e)
                | None => None
                end
            end
      end
  end.

(** An iteration may take no value only when it flushes a run that has reached its bound. *)
Definition PutBatchLevels r (values : list Z) : option (RleEncoder W * Z * option goerr) :=
  putBatchLevels (Datatypes.S (2 * List.length values)) r values.

(** [putBatchIndicesLiteral(values)]: the first eight values are a literal group. *)
Definition putBatchIndicesLiteral r (values : list Z) : RleEncoder W * option goerr :=
  let buffer := firstn 8 values in
  flushBuffered (setCur (setBuffer r buffer) (nth 7 buffer 0)) false.

(** The rest of an iteration of [PutBatchIndices], outside a repeated run. *)
Definition putIndicesStep r (value : Z) (values : list Z) : RleEncoder W * Z * option goerr :=
  if betweenGroups r && runAhead value values then startRun r value values
  else if betweenGroups r && (8 <=? len values) then
    match putBatchIndicesLiteral r (map u64 values) with
    | (r', Some e) => (r', 7, Some e)
    | (r', None) => (r', 8, None)
    end
  else putSome r (map u64 values) (Nat.min (List.length values) (8 - List.length (re_buffer r))).

Fixpoint putBatchIndices (fuel : nat) r (values : list Z) : option (RleEncoder W * Z * option goerr) :=
  match values with
  | [] => Some (r, 0, None)
  | value :: _ =>
      match fuel with
      | O => None
      | Datatypes.S fuel' =>
          let '(r', k, err) :=
            if 8 <=? re_repCount r then
              if negb (re_curVal r =? u64 value) then
                match flushRepeated r with
                | (r', false) => (r', 0, Some (ErrMsg "failed to flush repeated value"))
                | (r', true) => putIndicesStep r' value values
                end
              else
                match extendRun r value values with
                | (r', k, false) => (r', k, Some (ErrMsg "failed to flush repeated value"))
                | (r', k, true) => (r', k, None)
                end
            else putIndicesStep r value values in
          match err with
          | Some e => Some (r', k, Some e)
          | None =>
              match putBatchIndices fuel' r' (skipn (Z.to_nat k) values) with
              | Some (r2, n, e) => Some (r2, k + n, e)
              | None => None
              end
          end
      end
  end.

Definition PutBatchIndices r (values : list Z) : option (RleEncoder W * Z * option goerr) :=
  putBatchIndices (Datatypes.S (2 * List.length values)) r values.

End Ops.
End RE.

(** ** The writer between and inside runs *)

Section Enc.
Context {W : Type} `{WOk : WriterAtOk W}.
Implicit Types r : RleEncoder W.

(** [runs] are written; with [Some lits] a literal run is open after them, its indicator
    byte not yet known. *)
Definition wst (R w : Z) (b : BitWriter W) (runs : list run) (ol : option (list Z)) : Prop :=
  match ol with
  | None => exists pre v n, bwAt R b pre v n /\ flushed pre v n = map Some (encodes w runs)
  | Some lits => bwAt R b (map Some (encodes w runs) ++ [None]) (packed w lits) (len lits * w)
  end.

Definition lits (ol : option (list Z)) : list Z := match ol with None => [] | Some l => l end.

Lemma flushed_0 pre : flushed pre 0 0 = pre.
Proof. unfold flushed. apply app_nil_r. Qed.

Lemma len_encodes_flushed R w b pre v n runs :
  bwAt R b pre v n -> flushed pre v n = map Some (encodes w runs) ->
  len pre + (n + 7) / 8 = len (encodes w runs).
Proof.
  intros HA HF. rewrite <- (len_flushed pre v n) by (apply bwAt_bound in HA; lia). rewrite HF. now rewrite length_map.
Qed.

(** Opening a literal run reserves its indicator byte. *)
Lemma wst_open R w b runs :
  wst R w b runs None -> len (encodes w runs) + 1 <= R ->
  exists b', BW.SkipBytes b 1 = (b', len (encodes w runs)) /\ wst R w b' runs (Some []).
Proof.
  intros (pre & v & n & HA & HF) HR. pose proof (len_encodes_flushed _ _ _ _ _ _ _ HA HF) as HL.
  destruct (SkipBytes_ok R b pre v n 1 HA ltac:(lia) ltac:(lia)) as (b' & HE & HAl).
  rewrite HF, length_map in *. exists b'. split; [exact HE|].
  cbn [wst packed List.length Z.of_nat]. rewrite Z.mul_0_l. now apply bwAligned_at.
Qed.

Lemma wst_write R w b runs ls vs :
  1 <= w <= 64 -> wst R w b runs (Some ls) -> Forall (fits w) vs ->
  len (encodes w runs) + 1 + (len (ls ++ vs) * w + 7) / 8 <= R ->
  exists b', BW.WriteValues b vs w = (b', None) /\ wst R w b' runs (Some (ls ++ vs)).
Proof.
  intros Hw HA HF HR. cbn [wst] in *. rewrite length_app, Nat2Z.inj_add, Z.mul_add_distr_r in *.
  rewrite packed_app by lia. apply WriteValues_ok; auto; try lia.
  rewrite length_app, length_map. cbn [List.length]. lia.
Qed.

(** Closing it writes the indicator over the reserved byte. *)
Lemma wst_close R w b runs ls g :
  1 <= w <= 64 -> wst R w b runs (Some ls) -> List.length ls = (8 * g)%nat -> (g < 64)%nat ->
  len (encodes w runs) + 1 <= R ->
  exists b', BW.WriteAtBW b [2 * Z.of_nat g + 1] (len (encodes w runs)) = (b', 1, None) /\
    wst R w b' (runs ++ [Lit ls]) None.
Proof.
  intros Hw HA HL Hg HR. cbn [wst] in *. rewrite <- (app_nil_r [None]) in HA.
  destruct (WriteAt_hole R b _ _ (2 * Z.of_nat g + 1) _ _ HA) as (b' & HE & HA'); [red; lia|now rewrite length_map|].
  rewrite length_map in HE. exists b'. split; [exact HE|]. do 3 eexists. split; [exact HA'|].
  unfold flushed. rewrite encodes_app. cbn [encodes flat_map encodeRun]. rewrite (groups_mul ls g HL).
  rewrite varint_short by lia. rewrite !app_nil_r, !map_app, <- !app_assoc. cbn [map app].
  do 4 f_equal. rewrite HL. replace (Z.of_nat (8 * g) * w) with (Z.of_nat g * w * 8) by lia.
  rewrite Z.div_add_l by lia. change (7 / 8) with 0. rewrite Z.add_0_r. lia.
Qed.

(** A repeated run. *)
Lemma wst_rep R w b runs c v :
  1 <= w <= 64 -> wst R w b runs None -> 0 <= c ->
  len (encodes w (runs ++ [Rep c v])) <= R ->
  exists b1 b2, BW.WriteVlqInt b (2 * c) = (b1, true) /\
    BW.WriteAligned b1 v (Z.of_nat (valueBytes w)) = (b2, true) /\ wst R w b2 (runs ++ [Rep c v]) None.
Proof.
  intros Hw (pre & x & n & HA & HF) Hc HR. rewrite encodes_app in *. cbn [encodes flat_map encodeRun] in *.
  rewrite app_nil_r, !length_app, length_lebytes in HR.
  assert (Hnb : Z.of_nat (valueBytes w) <= 8) by (unfold valueBytes; zdiv).
  destruct (WriteVlqInt_ok R b pre x n (2 * c) HA ltac:(lia)) as (b1 & HE1 & HAl1); [rewrite HF, length_map; lia|].
  destruct (WriteAligned_ok R b1 _ 0 0 v (Z.of_nat (valueBytes w)) (bwAligned_at _ _ _ HAl1) ltac:(lia))
    as (b2 & HE2 & HAl2); [rewrite flushed_0, length_app, HF, !length_map; lia|].
  exists b1, b2. splits; auto. do 3 eexists. split; [exact (bwAligned_at _ _ _ HAl2)|].
  rewrite !flushed_0, HF, Nat2Z.id, encodes_app. cbn [encodes flat_map encodeRun].
  rewrite app_nil_r, !map_app, <- app_assoc. reflexivity.
Qed.

(** ** The encoder's invariant *)

(** What the encoder has written: [runs], and the literal run [ol] that is still open; its
    indicator has room for another group. *)
Record encBase (R w : Z) r (runs : list run) (ol : option (list Z)) : Prop := mkBase {
  eb_w : re_bitWidth r = w;
  eb_range : 1 <= w <= 64;
  eb_st : wst R w (re_w r) runs ol;
  eb_off : re_litOff r = match ol with None => -1 | Some _ => len (encodes w runs) end;
  eb_cnt : re_litCount r = len (lits ol);
  eb_lits : match ol with
            | None => True
            | Some l => exists g, List.length l = (8 * g)%nat /\ (1 <= g < 63)%nat /\ Forall (fits w) l
            end;
  eb_runs : runsOk w runs;
  eb_full : Forall fullRun runs
}.

Lemma encBase_ext R w r r' runs ol :
  encBase R w r runs ol -> re_w r' = re_w r -> re_bitWidth r' = re_bitWidth r ->
  re_litOff r' = re_litOff r -> re_litCount r' = re_litCount r -> encBase R w r' runs ol.
Proof. intros [] H1 H2 H3 H4. constructor; congruence || (rewrite ?H1; assumption). Qed.

(** The values not yet written: a group that may become a repeated run, or a run. *)
Definition pending w r (ol : option (list Z)) (ps : list Z) : Prop :=
  fits w (re_curVal r) /\
  (0 <= re_repCount r < 8 /\ ps = re_buffer r /\ (List.length ps < 8)%nat /\ Forall (fits w) ps /\
   (exists ps0, ps = ps0 ++ repeat (re_curVal r) (Z.to_nat (re_repCount r))) \/
   8 <= re_repCount r <= MaxInt32 /\ re_buffer r = [] /\ ol = None /\
   ps = repeat (re_curVal r) (Z.to_nat (re_repCount r))).

Definition encRelAt R w r runs ol (vs : list Z) : Prop :=
  encBase R w r runs ol /\ exists ps, pending w r ol ps /\ vs = expand runs ++ lits ol ++ ps.

Definition encRel R w r (vs : list Z) : Prop := exists runs ol, encRelAt R w r runs ol vs.

(** The space [n] values need. *)
Definition sizeFor (w n : Z) : Z := (1 + w) * ((n + 7) / 8).

(** Runs and [g] more groups fit the space of their values, the last group complete or not. *)
Lemma base_room_up w runs g n :
  1 <= w <= 64 -> runsOk w runs -> Forall fullRun runs ->
  len (expand runs) / 8 + g <= (n + 7) / 8 ->
  len (encodes w runs) + (1 + w) * g <= sizeFor w n.
Proof. intros Hw Hok Hf Hg. pose proof (encodes_size w runs Hw Hok Hf). unfold sizeFor. nia. Qed.

Lemma base_room w runs g n :
  1 <= w <= 64 -> runsOk w runs -> Forall fullRun runs -> 0 <= g ->
  len (expand runs) + 8 * g <= n ->
  len (encodes w runs) + (1 + w) * g <= sizeFor w n.
Proof. intros Hw Hok Hf Hg Hn. apply base_room_up; auto. zdiv. Qed.

Lemma indicator_byte g : 0 <= g < 64 -> u8 (Z.lor (i32 (Z.shiftl g 1)) 1) = 2 * g + 1.
Proof.
  intros. rewrite shiftl_mul by lia. change (2 ^ 1) with 2. unfold i32. rewrite Z.mod_small by lia.
  replace (g * 2 + 2 ^ 31 - 2 ^ 31) with (g * 2 ^ 1) by lia.
  rewrite Z.lor_comm, lor_disjoint by lia. unfold u8. rewrite Z.mod_small; lia.
Qed.

(** [flushLiteral]: the buffer joins the literal run, which is opened if need be and
    closed if asked for. *)
Lemma flushLiteral_ok R w r0 r runs ol g upd :
  encBase R w r0 runs ol -> re_w r = re_w r0 -> re_bitWidth r = re_bitWidth r0 -> re_litOff r = re_litOff r0 ->
  Forall (fits w) (re_buffer r) -> re_litCount r = len (lits ol ++ re_buffer r) ->
  List.length (lits ol ++ re_buffer r) = (8 * g)%nat -> (1 <= g)%nat -> (g < if upd : bool then 64 else 63)%nat ->
  len (encodes w runs) + (1 + w) * Z.of_nat g <= R ->
  exists r', RE.flushLiteral r upd = (r', None) /\
    re_buffer r' = [] /\ re_curVal r' = re_curVal r /\ re_repCount r' = re_repCount r /\
    encBase R w r' (if upd then runs ++ [Lit (lits ol ++ re_buffer r)] else runs)
                   (if upd then None else Some (lits ol ++ re_buffer r)).
Proof.
  intros [Hbw Hw Hst Hoff Hcnt Hlits Hruns Hfull] E1 E2 E3 HB Hlc HL Hg1 Hg HR.
  rewrite <- E1 in Hst. rewrite <- E3 in Hoff.
  assert (HF : Forall (fits w) (lits ol ++ re_buffer r)).
  { apply Forall_app. split; [|assumption]. destruct ol; [destruct Hlits as (? & _ & _ & ?); assumption|constructor]. }
  assert (Hopen : exists w1, (if re_litOff r =? -1 then BW.SkipBytes (re_w r) 1 else (re_w r, re_litOff r))
                  = (w1, len (encodes w runs)) /\ wst R w w1 runs (Some (lits ol))).
  { rewrite Hoff. destruct ol as [l|].
    - bool_lia (len (encodes w runs) =? -1). eauto.
    - cbn [Z.eqb Pos.eqb]. apply wst_open; [assumption|nia]. }
  destruct Hopen as (w1 & Eo & Hst1).
  destruct (wst_write R w w1 runs (lits ol) (re_buffer r) Hw Hst1 HB) as (w2 & Ew & Hst2).
  { rewrite HL. replace ((Z.of_nat (8 * g) * w + 7) / 8) with (Z.of_nat g * w) by zdiv. nia. }
  unfold RE.flushLiteral. rewrite Eo, E2, Hbw, Ew. destruct upd.
  - destruct (wst_close R w w2 runs _ g Hw Hst2 HL Hg ltac:(nia)) as (w3 & Ec & Hst3).
    rewrite Hlc, HL. replace (Z.quot (Z.of_nat (8 * g)) 8) with (Z.of_nat g) by (rewrite Z.quot_div_nonneg by lia; zdiv).
    rewrite indicator_byte, Ec by lia. eexists. split; [reflexivity|]. splits; try reflexivity.
    constructor; cbn [re_bitWidth re_w re_litOff re_litCount lits List.length]; auto.
    + apply Forall_app. split; [assumption|]. constructor; [|constructor]. cbn [runOk]. rewrite (groups_mul _ _ HL).
      splits; auto; [unfold MaxInt32; zdiv|]. intros E. rewrite E in HL. cbn in HL. lia.
    + apply Forall_app. split; [assumption|]. constructor; [|constructor]. cbn [fullRun]. rewrite (groups_mul _ _ HL). lia.
  - eexists. split; [reflexivity|]. splits; try reflexivity.
    constructor; cbn [re_bitWidth re_w re_litOff re_litCount lits]; auto. exists g. splits; auto; lia.
Qed.

(** [flushRepeated] writes the run. *)
Lemma flushRepeated_ok R w r runs c :
  encBase R w r runs None -> fits w (re_curVal r) -> re_repCount r = c -> 1 <= c <= MaxInt32 ->
  len (encodes w (runs ++ [Rep c (re_curVal r)])) <= R ->
  exists r', RE.flushRepeated r = (r', true) /\
    re_buffer r' = [] /\ re_curVal r' = re_curVal r /\ re_repCount r' = 0 /\ re_bitWidth r' = w /\
    re_litOff r' = -1 /\ re_litCount r' = 0 /\ wst R w (re_w r') (runs ++ [Rep c (re_curVal r)]) None.
Proof.
  intros [Hbw Hw Hst Hoff Hcnt _ _ _] Hv Hc Hc1 HR. unfold MaxInt32 in Hc1.
  destruct (wst_rep R w (re_w r) runs c (re_curVal r) Hw Hst ltac:(lia) HR) as (b1 & b2 & E1 & E2 & Hst2).
  unfold RE.flushRepeated. rewrite Hc.
  replace (u64 (Z.shiftl (u64 c) 1)) with (2 * c)
    by (unfold u64; rewrite shiftl_mul, !Z.mod_small; rewrite ?Z.mod_small; lia).
  rewrite E1, Hbw. replace (BytesForBits w) with (Z.of_nat (valueBytes w))
    by (rewrite BytesForBits_div by lia; unfold valueBytes; rewrite Z2Nat.id by zdiv; reflexivity).
  rewrite E2. eexists. split; [reflexivity|]. splits; auto.
Qed.

(** A repeated run of at least eight values keeps the invariant. *)
Lemma flushRepeated_base R w r runs n :
  encBase R w r runs None -> fits w (re_curVal r) -> 8 <= re_repCount r <= MaxInt32 ->
  len (expand runs) + re_repCount r <= n -> sizeFor w n <= R ->
  exists r', RE.flushRepeated r = (r', true) /\ re_buffer r' = [] /\ re_repCount r' = 0 /\
    re_curVal r' = re_curVal r /\ encBase R w r' (runs ++ [Rep (re_repCount r) (re_curVal r)]) None.
Proof.
  intros HB Hv Hc Hn HR. pose proof HB as [Hbw Hw Hst Hoff Hcnt _ Hruns Hfull].
  assert (Hok : runsOk w (runs ++ [Rep (re_repCount r) (re_curVal r)])).
  { apply Forall_app. split; [assumption|]. constructor; [|constructor]. split; [lia|assumption]. }
  assert (Hfl : Forall fullRun (runs ++ [Rep (re_repCount r) (re_curVal r)])).
  { apply Forall_app. split; [assumption|]. constructor; [|constructor]. cbn [fullRun]. lia. }
  destruct (flushRepeated_ok R w r runs (re_repCount r) HB Hv eq_refl ltac:(lia)) as (r' & E & ? & ? & ? & ? & ? & ? & ?).
  { pose proof (base_room w _ 0 n Hw Hok Hfl ltac:(lia)) as Hroom.
    rewrite expand_app, length_app in Hroom. cbn [expand flat_map expandRun] in Hroom.
    rewrite app_nil_r, repeat_length in Hroom. lia. }
  exists r'. splits; auto. constructor; auto.
Qed.

(** [flushBuffered(false)] on a full group, [ps], whose last [repCount] values are equal. *)
Lemma flushBuffered_ok R w r runs ol ps n :
  encBase R w r runs ol -> re_buffer r = ps -> List.length ps = 8%nat -> Forall (fits w) ps ->
  fits w (re_curVal r) -> 0 <= re_repCount r <= 8 ->
  (exists ps0, ps = ps0 ++ repeat (re_curVal r) (Z.to_nat (re_repCount r))) ->
  len (expand runs ++ lits ol ++ ps) <= n -> sizeFor w n <= R ->
  exists r', RE.flushBuffered r false = (r', None) /\ encRel R w r' (expand runs ++ lits ol ++ ps) /\
    re_curVal r' = re_curVal r.
Proof.
  intros HB Hbuf HL HF Hv Hrep [ps0 Hps] Hn HR. pose proof HB as [Hbw Hw Hst Hoff Hcnt Hlits Hruns Hfull].
  rewrite !length_app in Hn. unfold RE.flushBuffered.
  destruct (Z.leb_spec 8 (re_repCount r)) as [H8|H8].
  - assert (Hr8 : re_repCount r = 8) by lia. rewrite Hr8 in Hps.
    assert (ps0 = []) by (rewrite Hps, length_app, repeat_length in HL; destruct ps0; [reflexivity|cbn in HL; lia]).
    subst ps0. cbn [app] in Hps.
    cbn [RE.setBuffer re_litCount]. rewrite Hcnt. destruct ol as [l|]; cbn [lits] in *.
    + destruct Hlits as (g & HLl & Hg & HFl). bool_lia (len l =? 0). cbn [negb].
      destruct (flushLiteral_ok R w r (RE.setBuffer r []) runs (Some l) g true) as (r' & E & Eb & Ec & Er & HB'); auto;
        cbn [RE.setBuffer re_buffer re_litCount lits]; rewrite ?app_nil_r; auto; try lia.
      { etransitivity; [|exact HR]. apply base_room; auto; lia. }
      cbn [RE.setBuffer re_buffer re_litCount re_curVal re_repCount lits] in *. rewrite app_nil_r in HB'.
      exists r'. splits; auto. exists (runs ++ [Lit l]), None. split; [assumption|].
      exists ps. split; [|rewrite expand_app; cbn [expand flat_map expandRun lits]; now rewrite app_nil_r, <- app_assoc].
      split; [congruence|]. right. rewrite Er, Ec, Hr8. splits; auto; unfold MaxInt32; lia.
    + cbn [List.length Z.of_nat Z.eqb negb]. eexists. split; [reflexivity|]. split; [|reflexivity].
      exists runs, None. split; [now apply (encBase_ext _ _ r)|]. exists ps. split; [|reflexivity].
      split; [assumption|]. right. cbn [RE.setBuffer re_repCount re_buffer re_curVal]. rewrite Hr8.
      splits; auto; unfold MaxInt32; lia.
  - cbn [RE.setLit re_litCount re_buffer]. rewrite Hbuf, Hcnt, HL.
    set (gl := match ol with None => O | Some l => groups l end).
    assert (Hgl : List.length (lits ol) = (8 * gl)%nat /\ (gl < 63)%nat).
    { subst gl. destruct ol as [l|]; cbn [lits List.length]; [|lia]. destruct Hlits as (g & HLl & Hg & _).
      rewrite (groups_mul l g HLl). lia. }
    destruct Hgl as [HLg Hgl].
    replace (i32 (len (lits ol) + Z.of_nat 8)) with (8 * Z.of_nat (gl + 1))
      by (unfold i32; rewrite HLg, Z.mod_small; lia).
    replace (Z.quot (8 * Z.of_nat (gl + 1)) 8) with (Z.of_nat (gl + 1))
      by (rewrite Z.mul_comm, Z.quot_mul; lia).
    change (2 ^ 6) with 64.
    set (upd := 64 <=? Z.of_nat (gl + 1) + 1).
    set (r1 := RE.setLit r _).
    destruct (flushLiteral_ok R w r r1 runs ol (gl + 1) upd) as (r' & E & Eb & Ec & Er & HB'); auto;
      cbn [r1 RE.setLit re_buffer re_litCount]; rewrite ?Hbuf, ?length_app; auto; try lia.
    { subst upd. destruct (Z.leb_spec 64 (Z.of_nat (gl + 1) + 1)); lia. }
    { etransitivity; [|exact HR]. apply base_room; auto; lia. }
    replace (if upd then RE.flushLiteral r1 true else RE.flushLiteral r1 false) with (RE.flushLiteral r1 upd)
      by (destruct upd; reflexivity).
    rewrite E. eexists. split; [reflexivity|]. split; [|exact Ec]. eexists _, _.
    split; [apply (encBase_ext _ _ r'); [exact HB'|reflexivity..]|].
    exists []. split.
    + split; [change (fits w (re_curVal r')); rewrite Ec; exact Hv|]. left. cbn [RE.setRep re_repCount re_buffer].
      rewrite Eb. splits; auto; try lia; [cbn; lia|]. now exists [].
    + cbn [r1 RE.setLit re_buffer]. rewrite Hbuf. destruct upd; cbn [lits]; rewrite ?app_nil_r; [|reflexivity].
      rewrite expand_app. cbn [expand flat_map expandRun app]. now rewrite !app_nil_r.
Qed.

(** The end of [Put]. *)
Lemma putBuffer_ok R w r runs ol ps v n :
  encBase R w r runs ol -> re_buffer r = ps -> (List.length ps < 8)%nat -> Forall (fits w) ps ->
  re_curVal r = v -> fits w v -> 1 <= re_repCount r <= 8 ->
  (exists ps0, ps ++ [v] = ps0 ++ repeat v (Z.to_nat (re_repCount r))) ->
  len (expand runs ++ lits ol ++ ps) + 1 <= n -> sizeFor w n <= R ->
  exists r', RE.putBuffer r v = (r', None) /\ encRel R w r' ((expand runs ++ lits ol ++ ps) ++ [v]).
Proof.
  intros HB Hbuf HL HF Hcur Hv Hrep Htail Hn HR. unfold RE.putBuffer. rewrite Hbuf.
  set (r1 := RE.setBuffer r (ps ++ [v])). change (re_buffer r1) with (ps ++ [v]).
  assert (HB1 : encBase R w r1 runs ol) by (apply (encBase_ext _ _ r); auto).
  assert (HF1 : Forall (fits w) (ps ++ [v])) by (apply Forall_app; auto).
  rewrite <- !app_assoc. destruct (Z.eqb_spec (len (ps ++ [v])) 8) as [H8|H8].
  - destruct (flushBuffered_ok R w r1 runs ol (ps ++ [v]) n) as (r' & HE & HR' & _);
      auto; try lia; try (change (re_curVal r1) with (re_curVal r); rewrite Hcur; assumption).
    + change (re_repCount r1) with (re_repCount r). lia.
    + rewrite !length_app in *. cbn [List.length] in *. lia.
    + exists r'. split; [exact HE|exact HR'].
  - eexists. split; [reflexivity|]. exists runs, ol. split; [exact HB1|]. exists (ps ++ [v]). split; [|reflexivity].
    destruct Htail as [ps0 Hps].
    assert (Hle : (Z.to_nat (re_repCount r) <= List.length (ps ++ [v]))%nat) by (rewrite Hps, length_app, repeat_length; lia).
    rewrite length_app in H8, Hle. cbn [List.length] in H8, Hle.
    split; [cbn [r1 RE.setBuffer re_curVal]; congruence|]. left.
    cbn [r1 RE.setBuffer re_repCount re_buffer re_curVal]. rewrite Hcur.
    splits; auto; try lia; [rewrite length_app; cbn [List.length]; lia|eauto].
Qed.

(** One more value. *)
Lemma Put_ok R w r vs v :
  encRel R w r vs -> fits w v -> len vs < MaxInt32 -> sizeFor w (len vs + 1) <= R ->
  exists r', RE.Put r v = (r', None) /\ encRel R w r' (vs ++ [v]).
Proof.
  intros (runs & ol & HB & ps & [Hcv Hp] & ->) Hv Hmax HR. unfold RE.Put.
  pose proof HB as [Hbw Hw Hst Hoff Hcnt Hlits Hruns Hfull].
  rewrite !length_app in Hmax.
  destruct Hp as [(Hrep & -> & HL & HF & ps0 & Hps)|(Hrep & Hbuf & -> & ->)].
  - assert (HBx : forall r', re_w r' = re_w r -> re_bitWidth r' = re_bitWidth r -> re_litOff r' = re_litOff r ->
        re_litCount r' = re_litCount r -> encBase R w r' runs ol) by (intros; now apply (encBase_ext _ _ r)).
    destruct (Z.eqb_spec (re_curVal r) v) as [Heq|Hne].
    + assert (Hi : i32 (re_repCount r + 1) = re_repCount r + 1) by (unfold i32; rewrite Z.mod_small; lia).
      cbn [RE.setRep re_repCount]. rewrite Hi. bool_lia (8 <? re_repCount r + 1).
      apply (putBuffer_ok R w _ runs ol (re_buffer r) v (len (expand runs ++ lits ol ++ re_buffer r) + 1)); auto;
        cbn [RE.setRep re_repCount re_curVal]; auto; try lia.
      exists ps0. rewrite Hps, <- Heq, <- app_assoc. f_equal.
      replace (Z.to_nat (re_repCount r + 1)) with (Z.to_nat (re_repCount r) + 1)%nat by lia.
      now rewrite repeat_app.
    + bool_lia (8 <=? re_repCount r).
      apply (putBuffer_ok R w _ runs ol (re_buffer r) v (len (expand runs ++ lits ol ++ re_buffer r) + 1)); auto;
        cbn [RE.setCur RE.setRep re_repCount re_curVal]; auto; try lia.
      exists (re_buffer r). reflexivity.
  - cbn [lits app] in *. rewrite repeat_length in Hmax. cbn [List.length] in Hmax. destruct (Z.eqb_spec (re_curVal r) v) as [Heq|Hne].
    + assert (Hi : i32 (re_repCount r + 1) = re_repCount r + 1) by (unfold i32, MaxInt32 in *; rewrite Z.mod_small; lia).
      cbn [RE.setRep re_repCount]. rewrite Hi. bool_lia (8 <? re_repCount r + 1).
      eexists. split; [reflexivity|]. exists runs, None. split; [now apply (encBase_ext _ _ r)|].
      exists (repeat v (Z.to_nat (re_repCount r + 1))). split.
      * split; [assumption|]. right. cbn [RE.setRep re_repCount re_buffer re_curVal]. rewrite Heq.
        splits; auto; lia.
      * cbn [lits app]. rewrite <- app_assoc. f_equal. rewrite Heq.
        replace (Z.to_nat (re_repCount r + 1)) with (Z.to_nat (re_repCount r) + 1)%nat by lia.
        now rewrite repeat_app.
    + bool_lia (8 <=? re_repCount r). rewrite length_app, repeat_length in HR.
      destruct (flushRepeated_base R w r runs (len (expand runs) + re_repCount r + 1)) as (r' & -> & Hb' & Hr' & Hc' & HB'); auto;
        [lia|etransitivity; [|exact HR]; apply Z.eq_le_incl; f_equal; lia|].
      assert (Hexp : expand (runs ++ [Rep (re_repCount r) (re_curVal r)])
                     = expand runs ++ repeat (re_curVal r) (Z.to_nat (re_repCount r)))
        by (rewrite expand_app; cbn [expand flat_map expandRun]; now rewrite app_nil_r).
      destruct (putBuffer_ok R w (RE.setCur (RE.setRep r' 1) v) (runs ++ [Rep (re_repCount r) (re_curVal r)]) None [] v
                 (len (expand runs) + re_repCount r + 1)) as (r2 & HE & HR2); auto;
        cbn [RE.setCur RE.setRep re_repCount re_curVal List.length]; auto; try lia.
      * now apply (encBase_ext _ _ r').
      * now exists [].
      * rewrite Hexp. cbn [lits]. rewrite !app_nil_r, length_app, repeat_length. lia.
      * etransitivity; [|exact HR]. apply Z.eq_le_incl. f_equal. lia.
      * rewrite Hexp in HR2. cbn [lits] in HR2. rewrite !app_nil_r in HR2. eauto.
Qed.

Lemma puts_ok R w r vs xs :
  encRel R w r vs -> Forall (fits w) xs -> len vs + len xs <= MaxInt32 -> sizeFor w (len vs + len xs) <= R ->
  exists r', RE.puts r xs = (r', None) /\ encRel R w r' (vs ++ xs).
Proof.
  intros HE HF. revert r vs HE. induction HF as [|x xs Hx HF IH]; intros r vs HE Hmax HR; cbn [RE.puts].
  - exists r. now rewrite app_nil_r.
  - cbn [List.length] in *. assert (Hw : 1 <= w <= 64) by (destruct HE as (? & ? & [] & _); assumption).
    destruct (Put_ok R w r vs x HE Hx ltac:(lia)) as (r' & -> & HE').
    { etransitivity; [|exact HR]. unfold sizeFor. assert ((len vs + 1 + 7) / 8 <= (len vs + Z.of_nat (S (List.length xs)) + 7) / 8) by zdiv. nia. }
    destruct (IH r' (vs ++ [x])) as (r2 & -> & HE2); auto.
    + rewrite length_app. cbn [List.length]. lia.
    + rewrite length_app. cbn [List.length]. replace (Z.of_nat (List.length vs + 1) + len xs) with (len vs + Z.of_nat (S (List.length xs))) by lia. assumption.
    + exists r2. rewrite <- app_assoc in HE2. auto.
Qed.

(** ** New encoders and the end of the stream *)

Lemma NewRleEncoder_rel R w (wr : W) :
  1 <= w <= 64 -> wok wr -> room wr R -> encRel R w (RE.NewRleEncoder wr w) [].
Proof.
  intros Hw Hok Hroom. exists [], None. split.
  - constructor; auto; try constructor.
    exists [], 0, 0. split; [apply bwAligned_at, NewBitWriter_aligned; auto|reflexivity].
  - exists []. split; [|reflexivity]. split; [red; cbn; pose proof (pow2_pos w); lia|]. left. cbn. splits; auto; try lia. now exists [].
Qed.

(** [Clear] makes an encoder new over the same writer, whatever it has buffered or written. *)
Lemma Clear_new r : RE.Clear r = RE.NewRleEncoder (bw_wr (re_w r)) (re_bitWidth r).
Proof. reflexivity. Qed.

Lemma wst_flush R w b runs :
  wst R w b runs None -> len (encodes w runs) <= R ->
  firstn (List.length (encodes w runs)) (wbuf (bw_wr (BW.Flush false b))) = encodes w runs /\
  BW.Written (BW.Flush false b) = len (encodes w runs).
Proof.
  intros (pre & v & n & HA & HF) HR. pose proof (len_encodes_flushed _ _ _ _ _ _ _ HA HF) as HL.
  destruct (Flush_ok R b pre v n false HA ltac:(lia)) as (Hh & _ & HA').
  rewrite HF in Hh. split; [now apply holds_firstn|]. rewrite (Written_at _ _ _ _ _ (HA' eq_refl)). exact HL.
Qed.

(** A repeated run of any length. *)
Lemma rep_size w c v :
  1 <= w <= 64 -> 1 <= c <= MaxInt32 -> fits w v -> len (encodeRun w (Rep c v)) <= (1 + w) * ((c + 7) / 8).
Proof.
  intros Hw Hc Hv. destruct (Z.lt_ge_cases c 8).
  - cbn [encodeRun]. rewrite varint_short, length_app, length_lebytes by lia. cbn [List.length].
    assert (Hvb : Z.of_nat (valueBytes w) <= w) by (unfold valueBytes; zdiv).
    assert ((c + 7) / 8 = 1) by zdiv. nia.
  - pose proof (encodeRun_size w (Rep c v) Hw ltac:(now split) ltac:(cbn; lia)) as HS.
    unfold runGroups in HS. cbn [expandRun] in HS. rewrite repeat_length in HS.
    assert (Z.of_nat (Z.to_nat c) / 8 <= (c + 7) / 8) by zdiv. nia.
Qed.

(** The runs [Flush] ends with: they expand to what was put and at most seven zeros. *)
Definition flushedAs R w (vs : list Z) r : Prop :=
  exists runs k, wst R w (re_w r) runs None /\ runsOk w runs /\ (k < 8)%nat /\
    expand runs = vs ++ repeat 0 k /\ len (encodes w runs) <= sizeFor w (len vs).

Lemma flush_rep R w r runs c :
  encBase R w r runs None -> fits w (re_curVal r) -> re_repCount r = c -> 1 <= c <= MaxInt32 ->
  sizeFor w (len (expand runs) + c) <= R ->
  flushedAs R w (expand runs ++ repeat (re_curVal r) (Z.to_nat c)) (fst (RE.flushRepeated r)).
Proof.
  intros HB Hv Hr Hc HR. pose proof HB as [_ Hw _ _ _ _ Hruns Hfull].
  assert (Hsz : len (encodes w (runs ++ [Rep c (re_curVal r)])) <= sizeFor w (len (expand runs) + c)).
  { rewrite encodes_app, length_app. cbn [encodes flat_map]. rewrite app_nil_r.
    pose proof (rep_size w c (re_curVal r) Hw Hc Hv).
    pose proof (base_room_up w runs ((c + 7) / 8) (len (expand runs) + c) Hw Hruns Hfull ltac:(zdiv)). lia. }
  destruct (flushRepeated_ok R w r runs c HB Hv Hr Hc ltac:(lia)) as (r' & -> & _ & _ & _ & _ & _ & _ & Hst).
  exists (runs ++ [Rep c (re_curVal r)]), O. cbn [fst]. splits; auto; [|lia| |].
  - apply Forall_app. split; [assumption|]. constructor; [now split|constructor].
  - rewrite expand_app. cbn [expand flat_map expandRun repeat]. now rewrite !app_nil_r.
  - etransitivity; [exact Hsz|]. apply Z.eq_le_incl. f_equal. rewrite length_app, repeat_length. lia.
Qed.

(** The literal end: the group in the buffer, if any, is padded with zeros. *)
Lemma flush_lit R w r runs ol ps :
  encBase R w r runs ol -> ps = re_buffer r -> (List.length ps < 8)%nat -> Forall (fits w) ps ->
  lits ol ++ ps <> [] -> sizeFor w (len (expand runs ++ lits ol ++ ps)) <= R ->
  let pad := if negb (len ps =? 0) && (len ps <? 8) then repeat 0 (8 - List.length ps) else [] in
  let r1 := RE.setBuffer r (ps ++ pad) in
  let r2 := RE.setLit r1 (i32 (re_litCount r1 + len (re_buffer r1))) in
  flushedAs R w (expand runs ++ lits ol ++ ps) (RE.setRep (fst (RE.flushLiteral r2 true)) 0).
Proof.
  intros HB Hps HL HF Hne HR pad r1 r2. pose proof HB as [_ Hw _ _ Hcnt Hlits Hruns Hfull].
  set (gl := match ol with None => O | Some l => groups l end).
  assert (Hgl : List.length (lits ol) = (8 * gl)%nat /\ (gl < 63)%nat).
  { subst gl. destruct ol as [l|]; cbn [lits List.length]; [|lia]. destruct Hlits as (g & HLl & Hg & _).
    rewrite (groups_mul l g HLl). lia. }
  destruct Hgl as [HLg Hgl].
  set (k := match ps with [] => O | _ => (8 - List.length ps)%nat end).
  assert (Hpad : pad = repeat 0 k).
  { subst pad k. destruct ps as [|p ps']; [reflexivity|]. cbn [List.length] in *.
    bool_lia (Z.of_nat (S (List.length ps')) =? 0). now bool_lia (Z.of_nat (S (List.length ps')) <? 8). }
  set (gp := match ps with [] => O | _ => 1%nat end).
  assert (Hk : List.length (ps ++ pad) = (8 * gp)%nat /\ (k < 8)%nat)
    by (rewrite Hpad, length_app, repeat_length; subst k gp; destruct ps; cbn [List.length] in *; lia).
  destruct Hk as [HLp Hk8].
  assert (Hg1 : (1 <= gl + gp)%nat).
  { subst gp. destruct ps; [|lia]. destruct (lits ol); [cbn in Hne; congruence|cbn [List.length] in HLg; lia]. }
  rewrite !length_app in HR.
  assert (Hsz : len (encodes w runs) + (1 + w) * Z.of_nat (gl + gp) <= sizeFor w (len (expand runs ++ lits ol ++ ps))).
  { apply base_room_up; auto. rewrite !length_app. subst gp. destruct ps; cbn [List.length]; zdiv. }
  assert (Happ : List.length (lits ol ++ ps ++ pad) = (8 * (gl + gp))%nat) by (rewrite length_app; lia).
  assert (HB2 : re_buffer r2 = ps ++ pad) by reflexivity.
  destruct (flushLiteral_ok R w r r2 runs ol (gl + gp) true) as (r' & -> & _ & _ & _ & HB'); auto; rewrite ?HB2; auto.
  - apply Forall_app. split; [assumption|]. rewrite Hpad. apply Forall_forall. intros x Hx.
    apply repeat_spec in Hx. subst. red. pose proof (pow2_pos w). lia.
  - cbn [r2 RE.setLit re_litCount]. cbn [r1 RE.setBuffer re_litCount re_buffer]. rewrite Hcnt, Happ, HLp, HLg.
    unfold i32. rewrite Z.mod_small; subst gp; destruct ps; lia.
  - subst gp. destruct ps; lia.
  - rewrite length_app, length_app in Hsz. rewrite !Nat2Z.inj_add in *. lia.
  - cbn [fst]. exists (runs ++ [Lit (lits ol ++ ps ++ pad)]), k. destruct HB' as [_ _ Hst' _ _ _ Hok' _].
    splits; auto.
    + rewrite expand_app. cbn [expand flat_map expandRun]. rewrite app_nil_r, Hpad, <- !app_assoc. reflexivity.
    + rewrite encodes_app, length_app. cbn [encodes flat_map encodeRun]. rewrite (groups_mul _ _ Happ).
      rewrite app_nil_r, length_app, length_lebytes, varint_short by (subst gp; destruct ps; lia).
      cbn [List.length]. nia.
Qed.

(** [Flush] *)
Lemma Flush_rel R w r vs :
  encRel R w r vs -> len vs <= MaxInt32 -> sizeFor w (len vs) <= R ->
  exists r' runs k, RE.Flush r = (r', len (encodes w runs)) /\
    runsOk w runs /\ (k < 8)%nat /\ expand runs = vs ++ repeat 0 k /\
    len (encodes w runs) <= sizeFor w (len vs) /\
    firstn (List.length (encodes w runs)) (wbuf (bw_wr (re_w r'))) = encodes w runs.
Proof.
  intros (runs & ol & HB & ps & [Hcv Hp] & Hvs) Hmax HR. pose proof HB as [_ Hw Hst _ Hcnt Hlits Hruns Hfull].
  assert (Hfin : forall r1, flushedAs R w vs r1 -> exists r' runs k,
      (mkRE (BW.Flush false (re_w r1)) (re_buffer r1) (re_bitWidth r1) (re_curVal r1) (re_repCount r1) (re_litCount r1)
         (re_litOff r1), BW.Written (BW.Flush false (re_w r1))) = (r', len (encodes w runs)) /\
      runsOk w runs /\ (k < 8)%nat /\ expand runs = vs ++ repeat 0 k /\ len (encodes w runs) <= sizeFor w (len vs) /\
      firstn (List.length (encodes w runs)) (wbuf (bw_wr (re_w r'))) = encodes w runs).
  { intros r1 (rs & k & Hst' & Hok & Hk & Hexp & Hsz).
    destruct (wst_flush R w (re_w r1) rs Hst' ltac:(lia)) as [Hbuf ->].
    eexists _, rs, k. split; [reflexivity|]. cbn [re_w]. splits; auto. }
  unfold RE.Flush. apply Hfin. clear Hfin. subst vs.
  assert (Hnone : re_litCount r = 0 -> ol = None).
  { intros H0. destruct ol as [l|]; [|reflexivity]. destruct Hlits as (g & HLl & Hg & _). cbn [lits] in Hcnt. lia. }
  destruct Hp as [(Hrep & Hps & HL & HF & ps0 & Htail)|(Hrep & Hbuf & -> & ->)].
  - rewrite <- Hps. assert (HLt : (Z.to_nat (re_repCount r) <= List.length ps)%nat)
      by (rewrite Htail, length_app, repeat_length; lia).
    destruct ((0 <? re_litCount r) || (0 <? re_repCount r) || (0 <? len ps)) eqn:Eany.
    + destruct ((0 <? re_repCount r) && ((re_litCount r =? 0) && ((re_repCount r =? i32 (len ps)) || (len ps =? 0)))) eqn:Eall.
      * apply andb_true_iff in Eall as [E1 Eall]. apply andb_true_iff in Eall as [E2 E3].
        apply Z.ltb_lt in E1. apply Z.eqb_eq in E2. rewrite (Hnone E2) in *. cbn [lits app].
        replace (i32 (len ps)) with (len ps) in E3 by (unfold i32; rewrite Z.mod_small; lia).
        assert (Hall : re_repCount r = len ps) by (apply orb_true_iff in E3 as [E3|E3]; apply Z.eqb_eq in E3; lia).
        assert (Hp0 : ps0 = []).
        { apply (f_equal (@List.length Z)) in Htail. rewrite length_app, repeat_length in Htail.
          destruct ps0; [reflexivity|cbn [List.length] in Htail; lia]. }
        rewrite Hp0 in Htail. cbn [app] in Htail. cbn [lits app] in HR, Hmax. rewrite length_app in HR, Hmax.
        rewrite Htail. apply (flush_rep R w r runs); auto; [unfold MaxInt32; lia|].
        etransitivity; [|exact HR]. apply Z.eq_le_incl. f_equal. lia.
      * apply flush_lit; auto. intros E. apply app_eq_nil in E as [El Ep]. rewrite Ep in *. rewrite El in Hcnt.
        cbn [List.length] in *. rewrite Hcnt in Eany. cbn [Z.of_nat Z.ltb Z.compare orb] in Eany.
        rewrite orb_false_r in Eany. apply Z.ltb_lt in Eany. lia.
    + apply orb_false_iff in Eany as [Eany E3]. apply orb_false_iff in Eany as [E1 E2].
      apply Z.ltb_ge in E1, E2, E3. assert (Ep : ps = []) by (destruct ps; [reflexivity|cbn [List.length] in E3; lia]).
      rewrite Ep in *. assert (Eol : ol = None) by (apply Hnone; lia). rewrite Eol in *. cbn [lits app]. rewrite app_nil_r.
      exists runs, O. cbn [repeat]. rewrite app_nil_r. splits; auto; try lia.
      pose proof (base_room_up w runs 0 (len (expand runs)) Hw Hruns Hfull ltac:(zdiv)). lia.
  - cbn [lits List.length Z.of_nat] in Hcnt. rewrite Hbuf, Hcnt. cbn [List.length Z.of_nat Z.eqb].
    bool_lia (0 <? re_repCount r). cbn [Z.ltb Z.compare orb andb]. rewrite orb_true_r.
    cbn [lits app] in *. rewrite length_app, repeat_length in HR, Hmax.
    apply (flush_rep R w r runs); auto; [lia|]. etransitivity; [|exact HR]. apply Z.eq_le_incl. f_equal. lia.
Qed.
End Enc.
