(* ===== verification/RleBatch.v ===== *)
(** * The batch routines of the RLE encoder ([PutBatchLevels], [PutBatchIndices])

    Both take shortcuts past [Put]: they extend a repeated run by a whole run of equal
    values, start one when eight equal values follow, and (for indices) write a full literal
    group at once.  Here each shortcut is shown to lead to the state [Put] leads to, so that a
    batch is the sequence of its [Put]s. *)

From Stdlib Require Import ZArith List Lia Bool String.
From S2P Require Import Prelude GoStd BitUtil BitWriter RleFormat RleEncoder.
Import ListNotations.
#[local] Open Scope Z_scope.
#[local] Open Scope go_scope.

Section Batch.
Context {W : Type} `{WOk : WriterAtOk W}.
Implicit Types r : RleEncoder W.

Lemma puts_app r xs ys :
  RE.puts r (xs ++ ys) = match RE.puts r xs with (r', None) => RE.puts r' ys | res => res end.
Proof.
  revert r. induction xs as [|x xs IH]; intros r; cbn [app RE.puts]; [reflexivity|].
  destruct (RE.Put r x) as [r' [e|]]; [reflexivity|apply IH].
Qed.

(** ** Runs of equal values *)

Lemma runLen_range v vs : 0 <= RE.runLen v vs <= len vs.
Proof. induction vs as [|x vs IH]; cbn [RE.runLen List.length]; [lia|]. destruct (x =? v); lia. Qed.

Lemma runLen_repeat v vs : firstn (Z.to_nat (RE.runLen v vs)) vs = repeat v (Z.to_nat (RE.runLen v vs)).
Proof.
  induction vs as [|x vs IH]; cbn [RE.runLen]; [now rewrite firstn_nil|].
  pose proof (runLen_range v vs). destruct (Z.eqb_spec x v) as [->|]; [|reflexivity].
  replace (Z.to_nat (1 + RE.runLen v vs)) with (S (Z.to_nat (RE.runLen v vs))) by lia.
  cbn [firstn repeat]. now rewrite IH.
Qed.

Lemma runLen_stop v vs :
  match skipn (Z.to_nat (RE.runLen v vs)) vs with x :: _ => x =? v | [] => false end = false.
Proof.
  induction vs as [|x vs IH]; cbn [RE.runLen]; [reflexivity|].
  pose proof (runLen_range v vs). destruct (Z.eqb_spec x v) as [->|Hne].
  - replace (Z.to_nat (1 + RE.runLen v vs)) with (S (Z.to_nat (RE.runLen v vs))) by lia. exact IH.
  - cbn [Z.to_nat skipn]. now apply Z.eqb_neq.
Qed.

Lemma runLen_all v vs : RE.runLen v vs = len vs <-> vs = repeat v (List.length vs).
Proof.
  split.
  - intros Hall. pose proof (runLen_repeat v vs) as HR. rewrite Hall, Nat2Z.id, firstn_all in HR. exact HR.
  - intros ->. rewrite repeat_length. induction (List.length vs) as [|n IH]; [reflexivity|].
    cbn [repeat RE.runLen]. rewrite Z.eqb_refl, IH. lia.
Qed.

(** A long run is extended by counting. *)
Lemma puts_extend r v k :
  8 <= re_repCount r -> re_curVal r = v -> re_repCount r + Z.of_nat k <= MaxInt32 ->
  RE.puts r (repeat v k) = (RE.setRep r (re_repCount r + Z.of_nat k), None).
Proof.
  revert r. induction k as [|k IH]; intros r Hr Hv Hmax; cbn [repeat RE.puts].
  - rewrite Z.add_0_r. destruct r; reflexivity.
  - unfold RE.Put. rewrite Hv, Z.eqb_refl. unfold MaxInt32 in Hmax.
    replace (i32 (re_repCount r + 1)) with (re_repCount r + 1) by (unfold i32; rewrite Z.mod_small; lia).
    cbn [RE.setRep re_repCount]. bool_lia (8 <? re_repCount r + 1).
    fold (RE.setRep r (re_repCount r + 1)). rewrite IH; cbn [RE.setRep re_repCount re_curVal]; unfold MaxInt32; try lia; auto.
    unfold RE.setRep. cbn [re_w re_buffer re_bitWidth re_curVal re_repCount re_litCount re_litOff]. do 2 f_equal. lia.
Qed.

Lemma extendRun_ok r v vs :
  8 <= re_repCount r -> re_curVal r = v -> re_repCount r + len vs <= MaxInt32 ->
  let k := RE.runLen v vs in
  RE.extendRun r v vs = (RE.setRep r (re_repCount r + k), k, true) /\
  RE.puts r (firstn (Z.to_nat k) vs) = (RE.setRep r (re_repCount r + k), None).
Proof.
  intros Hr Hv Hmax k. pose proof (runLen_range v vs) as Hk. fold k in Hk. split.
  - unfold RE.extendRun. subst k. rewrite Z.min_l by lia. rewrite runLen_stop, andb_false_r. reflexivity.
  - unfold k at 1. rewrite runLen_repeat. fold k. rewrite puts_extend by lia. do 2 f_equal. lia.
Qed.

(** ** A group of eight from an empty buffer *)

(** Values that do not fill the buffer only change it, the current value and its count. *)
Lemma puts_buffer (w : BitWriter W) buf bw cv rc lc lo xs :
  0 <= rc < 8 -> (List.length buf + List.length xs < 8)%nat ->
  (exists b0, buf = b0 ++ repeat cv (Z.to_nat rc)) ->
  exists cv' rc', RE.puts (mkRE w buf bw cv rc lc lo) xs = (mkRE w (buf ++ xs) bw cv' rc' lc lo, None) /\
    0 <= rc' < 8 /\ (exists b0, buf ++ xs = b0 ++ repeat cv' (Z.to_nat rc')).
Proof.
  revert buf cv rc. induction xs as [|x xs IH]; intros buf cv rc Hrc HL [b0 Hb0]; cbn [RE.puts].
  - exists cv, rc. rewrite app_nil_r. eauto.
  - cbn [List.length] in HL.
    assert (HLr : (Z.to_nat rc <= List.length buf)%nat) by (rewrite Hb0, length_app, repeat_length; lia).
    assert (Hput : exists cv1 rc1, RE.Put (mkRE w buf bw cv rc lc lo) x = (mkRE w (buf ++ [x]) bw cv1 rc1 lc lo, None) /\
              0 <= rc1 < 8 /\ exists b1, buf ++ [x] = b1 ++ repeat cv1 (Z.to_nat rc1)).
    { unfold RE.Put, RE.putBuffer. cbn [re_curVal re_repCount RE.setRep RE.setCur RE.setBuffer re_buffer re_w re_bitWidth re_litCount re_litOff].
      assert (HLen : len (buf ++ [x]) <> 8) by (rewrite length_app; cbn [List.length]; lia).
      destruct (Z.eqb_spec cv x) as [->|Hne].
      - replace (i32 (rc + 1)) with (rc + 1) by (unfold i32; rewrite Z.mod_small; lia).
        bool_lia (8 <? rc + 1). bool_lia (len (buf ++ [x]) =? 8). exists x, (rc + 1). split; [reflexivity|]. split; [lia|].
        exists b0. rewrite Hb0, <- app_assoc. f_equal. replace (Z.to_nat (rc + 1)) with (Z.to_nat rc + 1)%nat by lia.
        now rewrite repeat_app.
      - bool_lia (8 <=? rc). bool_lia (len (buf ++ [x]) =? 8). exists x, 1. split; [reflexivity|]. split; [lia|]. now exists buf. }
    destruct Hput as (cv1 & rc1 & -> & Hrc1 & Htail1).
    destruct (IH (buf ++ [x]) cv1 rc1 Hrc1) as (cv' & rc' & HE & Hrc' & Htail'); auto.
    + rewrite length_app. cbn [List.length]. lia.
    + rewrite <- app_assoc in HE, Htail'. eauto.
Qed.

(** The eighth value flushes the group. *)
Lemma puts_group r xs :
  re_repCount r = 0 -> re_buffer r = [] -> List.length xs = 8%nat ->
  exists rc, RE.puts r xs =
    match RE.flushBuffered (mkRE (re_w r) xs (re_bitWidth r) (nth 7 xs 0) rc (re_litCount r) (re_litOff r)) false with
    | (r', None) => (r', None)
    | (r', Some e) => (r', Some e)
    end /\ 0 <= rc <= 8 /\ (rc = 8 -> RE.runLen (nth 0 xs 0) xs = 8).
Proof.
  intros Hr Hb HL. destruct r as [w buf bw cv rc lc lo]. cbn [re_repCount re_buffer re_w re_bitWidth re_litCount re_litOff] in *. subst.
  set (x7 := nth 7 xs 0). set (ys := firstn 7 xs). assert (HLy : List.length ys = 7%nat) by (subst ys; rewrite length_firstn; lia).
  assert (Hxs : xs = ys ++ [x7]).
  { rewrite <- (firstn_skipn 7 xs) at 1. rewrite (skipn_cons xs 7 0), (skipn_all2 xs) by lia. reflexivity. }
  assert (HP : RE.puts (mkRE w [] bw cv 0 lc lo) xs = RE.puts (mkRE w [] bw cv 0 lc lo) (ys ++ [x7]))
    by (rewrite <- Hxs; reflexivity).
  rewrite HP. clear HP.
  destruct (puts_buffer w [] bw cv 0 lc lo ys) as (cv' & rc' & HE & Hrc' & b0 & Hb0); [lia|cbn [List.length]; lia|now exists []|].
  rewrite puts_app, HE. cbn [app] in *. cbn [RE.puts].
  assert (HLb : (List.length b0 + Z.to_nat rc' = 7)%nat) by (rewrite <- HLy, Hb0, length_app, repeat_length; reflexivity).
  unfold RE.Put, RE.putBuffer. cbn [re_curVal re_repCount RE.setRep RE.setCur RE.setBuffer re_buffer re_w re_bitWidth re_litCount re_litOff].
  rewrite <- Hxs, HL. cbn [Z.of_nat Pos.of_succ_nat Pos.succ Z.eqb Pos.eqb].
  destruct (Z.eqb_spec cv' x7) as [Heq|Hne].
  - replace (i32 (rc' + 1)) with (rc' + 1) by (unfold i32; rewrite Z.mod_small; lia).
    bool_lia (8 <? rc' + 1). exists (rc' + 1). rewrite Heq. split; [now destruct (RE.flushBuffered _ _) as [? [?|]]|].
    split; [lia|]. intros H8. assert (rc' = 7) by lia. subst rc'. destruct b0; [|cbn in HLb; lia].
    change 8 with (Z.of_nat 8). rewrite <- HL. apply runLen_all. rewrite HL, Hxs, Hb0, Heq. reflexivity.
  - bool_lia (8 <=? rc'). exists 1. split; [now destruct (RE.flushBuffered _ _) as [? [?|]]|]. split; lia.
Qed.

(** Eight equal values. *)
Lemma puts_equal (w : BitWriter W) bw v lc lo i j :
  (i + j < 8)%nat ->
  RE.puts (mkRE w (repeat v i) bw v (Z.of_nat i) lc lo) (repeat v j)
    = (mkRE w (repeat v (i + j)) bw v (Z.of_nat (i + j)) lc lo, None).
Proof.
  revert i. induction j as [|j IH]; intros i Hij; cbn [repeat RE.puts]; [now rewrite Nat.add_0_r|].
  unfold RE.Put, RE.putBuffer. cbn [re_curVal re_repCount RE.setRep RE.setCur RE.setBuffer re_buffer re_w re_bitWidth re_litCount re_litOff].
  rewrite Z.eqb_refl. replace (i32 (Z.of_nat i + 1)) with (Z.of_nat (S i)) by (unfold i32; rewrite Z.mod_small; lia).
  bool_lia (8 <? Z.of_nat (S i)). change [v] with (repeat v 1). rewrite <- repeat_app, repeat_length.
  bool_lia (Z.of_nat (i + 1) =? 8). replace (i + 1)%nat with (S i) by lia.
  unfold RE.setBuffer, RE.setRep. cbn [re_w re_bitWidth re_curVal re_repCount re_litCount re_litOff].
  rewrite IH by lia. now replace (S i + j)%nat with (i + S j)%nat by lia.
Qed.

Lemma puts_run8 r v :
  re_repCount r = 0 -> re_buffer r = [] ->
  RE.puts r (repeat v 8) =
    RE.flushBuffered (mkRE (re_w r) (repeat v 8) (re_bitWidth r) v 8 (re_litCount r) (re_litOff r)) false.
Proof.
  intros Hr Hb. destruct r as [w buf bw cv rc lc lo]. cbn [re_repCount re_buffer re_w re_bitWidth re_litCount re_litOff] in *. subst.
  change (repeat v 8) with (v :: repeat v 6 ++ [v]) at 1. cbn [RE.puts].
  assert (H1 : RE.Put (mkRE w [] bw cv 0 lc lo) v = (mkRE w (repeat v 1) bw v (Z.of_nat 1) lc lo, None)).
  { unfold RE.Put, RE.putBuffer. cbn [re_curVal re_repCount RE.setRep RE.setCur RE.setBuffer re_buffer re_w re_bitWidth re_litCount re_litOff].
    destruct (Z.eqb_spec cv v) as [->|]; reflexivity. }
  rewrite H1, puts_app, puts_equal by lia. cbn [RE.puts Nat.add].
  unfold RE.Put, RE.putBuffer. cbn [re_curVal re_repCount RE.setRep RE.setCur RE.setBuffer re_buffer re_w re_bitWidth re_litCount re_litOff].
  rewrite Z.eqb_refl. change (i32 (Z.of_nat 7 + 1)) with 8. change (8 <? 8) with false.
  change (repeat v 7 ++ [v]) with (repeat v 8). rewrite repeat_length. change (Z.of_nat 8 =? 8) with true. cbv iota.
  now destruct (RE.flushBuffered _ _) as [? [?|]].
Qed.

(** ** The steps of the batch loops *)

Lemma u64_fits w v : 0 <= w <= 64 -> fits w v -> u64 v = v.
Proof. intros Hw Hv. unfold u64. red in Hv. pose proof (pow2_le w 64). apply Z.mod_small. lia. Qed.

(** A step of a batch: it takes [k] values and leaves the encoder as their [Put]s do. *)
Definition stepOk r (values : list Z) (r' : RleEncoder W) (k : Z) : Prop :=
  1 <= k <= len values /\ RE.puts r (firstn (Z.to_nat k) values) = (r', None).

Lemma encRel_rep R w r vs : encRel R w r vs -> 0 <= re_repCount r <= len vs /\ 1 <= w <= 64.
Proof.
  intros (runs & ol & [_ Hw _ _ _ _ _ _] & ps & [_ Hp] & ->). split; [|exact Hw]. rewrite !length_app.
  destruct Hp as [(Hr & -> & HL & _ & ps0 & Hps)|(Hr & _ & _ & ->)].
  - apply (f_equal (@List.length Z)) in Hps. rewrite length_app, repeat_length in Hps. lia.
  - rewrite repeat_length. lia.
Qed.

Lemma startRun_ok R w r vs v values :
  encRel R w r vs -> RE.betweenGroups r = true -> RE.runAhead v values = true -> fits w v ->
  Forall (fits w) values -> len vs + len values <= MaxInt32 -> sizeFor w (len vs + len values) <= R ->
  exists r' k, RE.startRun r v values = (r', k, None) /\ stepOk r values r' k.
Proof.
  intros HE Hbt Hra Hv HF Hmax HR. destruct (encRel_rep _ _ _ _ HE) as [_ Hw].
  apply andb_true_iff in Hbt as [Hr0 Hb0]. apply Z.eqb_eq in Hr0, Hb0.
  assert (Hbuf : re_buffer r = []) by (destruct (re_buffer r); [reflexivity|cbn in Hb0; lia]).
  apply andb_true_iff in Hra as [_ Hrun]. apply Z.leb_le in Hrun.
  pose proof (runLen_range v values) as Hk. set (k := RE.runLen v values) in *.
  assert (Hfirst : firstn (Z.to_nat k) values = repeat v 8 ++ repeat v (Z.to_nat (k - 8))).
  { subst k. rewrite runLen_repeat, <- repeat_app. f_equal. lia. }
  assert (HF8 : Forall (fits w) (repeat v 8)) by (apply Forall_forall; intros x Hx; apply repeat_spec in Hx; now subst).
  destruct (puts_ok R w r vs (repeat v 8) HE HF8) as (r8 & H8 & HE8).
  { rewrite repeat_length. lia. }
  { etransitivity; [|exact HR]. rewrite repeat_length. unfold sizeFor.
    assert ((len vs + Z.of_nat 8 + 7) / 8 <= (len vs + len values + 7) / 8) by zdiv. nia. }
  assert (Hmax8 : 8 + len values <= MaxInt32 + 8) by lia.
  pose proof H8 as H8'. rewrite puts_run8 in H8' by assumption.
  unfold RE.flushBuffered in H8'. cbn [re_repCount Z.leb Z.compare Pos.compare Pos.compare_cont RE.setBuffer re_litCount re_w re_bitWidth re_curVal re_litOff] in H8'.
  assert (Hrep8 : re_repCount r8 = 8 /\ re_curVal r8 = v).
  { destruct (negb (re_litCount r =? 0)).
    - unfold RE.flushLiteral in H8'. cbn [re_repCount re_litCount re_w re_bitWidth re_curVal re_litOff re_buffer RE.setBuffer] in H8'.
      destruct (if re_litOff r =? -1 then _ else _) as [w1 off]. cbn [BW.WriteValues] in H8'.
      destruct (BW.WriteAtBW _ _ _) as [[w3 n3] e3]. apply pair_inj in H8' as [<- _]. auto.
    - apply pair_inj in H8' as [<- _]. auto. }
  destruct Hrep8 as [Hrep8 Hcur8].
  assert (Hsplit : RE.puts r (firstn (Z.to_nat k) values) = (RE.setRep r8 k, None)).
  { rewrite Hfirst, puts_app, H8, puts_extend by (auto; lia). rewrite Hrep8. do 2 f_equal. lia. }
  exists (RE.setRep r8 k), k. split; [|split; [lia|exact Hsplit]].
  unfold RE.startRun. fold k. rewrite (u64_fits w v) by (auto; lia).
  cbn [RE.setCur re_litCount]. destruct (negb (re_litCount r =? 0)).
  - assert (Es : RE.setRep (RE.setCur r v) 8
                 = RE.setBuffer (mkRE (re_w r) (repeat v 8) (re_bitWidth r) v 8 (re_litCount r) (re_litOff r)) [])
      by (unfold RE.setRep, RE.setCur, RE.setBuffer; cbn [re_w re_buffer re_bitWidth re_curVal re_litCount re_litOff];
          now rewrite Hbuf).
    rewrite Es, H8', Hrep8, Z.min_l by lia. unfold RE.setRep. do 2 f_equal; [f_equal; lia|lia].
  - apply pair_inj in H8' as [<- _]. unfold RE.setRep, RE.setCur, RE.setBuffer.
    cbn [re_w re_bitWidth re_curVal re_repCount re_litOff re_buffer re_litCount].
    rewrite Hr0, Hbuf, Z.sub_0_r, Z.min_l by lia. do 3 f_equal; lia.
Qed.

Lemma putSome_puts r vs n :
  RE.putSome r vs n =
    match RE.puts r (firstn n vs) with
    | (r', None) => (r', len (firstn n vs), None)
    | (r', Some e) => let '(_, k, _) := RE.putSome r vs n in (r', k, Some e)
    end.
Proof.
  revert r n. induction vs as [|v vs IH]; intros r [|n]; cbn [RE.putSome firstn RE.puts List.length]; try reflexivity.
  destruct (RE.Put r v) as [r1 [e|]]; [reflexivity|]. rewrite (IH r1 n).
  destruct (RE.puts r1 (firstn n vs)) as [r2 [e|]].
  - destruct (RE.putSome r1 vs n) as [[r3 k] e3]. reflexivity.
  - do 2 f_equal. lia.
Qed.

Lemma runLen_firstn v n vs : RE.runLen v (firstn n vs) <= RE.runLen v vs.
Proof.
  revert n. induction vs as [|x vs IH]; intros [|n]; cbn [firstn RE.runLen]; try lia.
  - destruct (x =? v); [|lia]. pose proof (runLen_range v vs). lia.
  - specialize (IH n). destruct (x =? v); lia.
Qed.

(** The count of a group that is not a run plays no role in flushing it. *)
Lemma flushLiteral_rc r u rc :
  RE.flushLiteral (RE.setRep r rc) u = let '(r', e) := RE.flushLiteral r u in (RE.setRep r' rc, e).
Proof.
  unfold RE.flushLiteral. cbn [RE.setRep re_w re_buffer re_bitWidth re_curVal re_repCount re_litCount re_litOff].
  destruct (if re_litOff r =? -1 then _ else _) as [w1 off].
  destruct (BW.WriteValues w1 (re_buffer r) (re_bitWidth r)) as [w2 [e|]]; [reflexivity|].
  destruct u; [|reflexivity]. destruct (BW.WriteAtBW _ _ _) as [[w3 n3] e3]. reflexivity.
Qed.

Lemma flushBuffered_rc r d :
  re_repCount r < 8 -> RE.flushBuffered r d = RE.flushBuffered (RE.setRep r 0) d.
Proof.
  intros Hr. unfold RE.flushBuffered. change (8 <=? re_repCount (RE.setRep r 0)) with false.
  bool_lia (8 <=? re_repCount r). cbn [RE.setLit RE.setRep re_litCount re_buffer].
  set (lc := i32 _). change (RE.setLit (RE.setRep r 0) lc) with (RE.setRep (RE.setLit r lc) 0).
  rewrite !flushLiteral_rc.
  destruct (RE.flushLiteral (RE.setLit r lc) true) as [ra ea], (RE.flushLiteral (RE.setLit r lc) d) as [rb eb].
  destruct (_ <=? _); reflexivity.
Qed.

Section Steps.
Variables (R w : Z) (r : RleEncoder W) (vs values : list Z).
Hypothesis HE : encRel R w r vs.
Hypothesis HF : Forall (fits w) values.
Hypothesis Hmax : len vs + len values <= MaxInt32.
Hypothesis HR : sizeFor w (len vs + len values) <= R.

Lemma step_width : 1 <= w <= 64.
Proof. apply (encRel_rep _ _ _ _ HE). Qed.

Lemma step_u64 : map u64 values = values.
Proof.
  rewrite <- (map_id values) at 2. apply map_ext_in. intros x Hx.
  apply (u64_fits w); [pose proof step_width; lia|]. revert x Hx. now apply Forall_forall.
Qed.

(** The first [n] values can be put. *)
Lemma step_puts n : exists r', RE.puts r (firstn n values) = (r', None) /\ encRel R w r' (vs ++ firstn n values).
Proof.
  apply puts_ok; auto.
  - now apply Forall_firstn.
  - rewrite length_firstn. lia.
  - etransitivity; [|exact HR]. unfold sizeFor. pose proof step_width. rewrite length_firstn.
    assert ((len vs + Z.of_nat (Nat.min n (List.length values)) + 7) / 8 <= (len vs + len values + 7) / 8) by zdiv. nia.
Qed.

Lemma putSome_step n :
  (1 <= n <= List.length values)%nat ->
  exists r', RE.putSome r (map u64 values) n = (r', Z.of_nat n, None) /\ stepOk r values r' (Z.of_nat n).
Proof.
  intros Hn. destruct (step_puts n) as (r' & Hp & _). exists r'. rewrite step_u64, putSome_puts, Hp.
  rewrite length_firstn, Nat.min_l by lia. split; [reflexivity|]. split; [lia|]. now rewrite Nat2Z.id.
Qed.

(** A full literal group is what eight [Put]s of values that are not all equal write. *)
Lemma literal_step :
  RE.betweenGroups r = true -> RE.runAhead (nth 0 values 0) values = false -> 8 <= len values ->
  exists r', RE.putBatchIndicesLiteral r (map u64 values) = (r', None) /\ stepOk r values r' 8.
Proof.
  intros Hbt Hra H8. apply andb_true_iff in Hbt as [Hr0 Hb0]. apply Z.eqb_eq in Hr0, Hb0.
  assert (Hbuf : re_buffer r = []) by (destruct (re_buffer r); [reflexivity|cbn in Hb0; lia]).
  destruct (step_puts 8) as (r' & Hp & _). exists r'. rewrite step_u64.
  assert (HL : List.length (firstn 8 values) = 8%nat) by (rewrite length_firstn; lia).
  destruct (puts_group r (firstn 8 values) Hr0 Hbuf HL) as (rc & HG & Hrc & H8rc).
  split; [|split; [lia|exact Hp]].
  assert (Hlt : rc < 8).
  { destruct (Z.eq_dec rc 8) as [E8|]; [exfalso|lia]. specialize (H8rc E8). rewrite nth_firstn in H8rc. cbn [Nat.ltb Nat.leb] in H8rc.
    set (v := nth 0 values 0) in *. pose proof (runLen_firstn v 8 values) as Hle.
    assert (Hall : firstn 8 values = repeat v 8)
      by (pose proof (proj1 (runLen_all v (firstn 8 values))) as Ha; rewrite HL in Ha; exact (Ha H8rc)).
    assert (H7 : nth 7 values 0 = v).
    { transitivity (nth 7 (firstn 8 values) 0); [now rewrite nth_firstn|]. rewrite Hall. reflexivity. }
    unfold RE.runAhead in Hra. rewrite H7, Z.eqb_refl in Hra.
    revert Hra. bool_lia (8 <=? len values). bool_lia (8 <=? RE.runLen v values). discriminate. }
  unfold RE.putBatchIndicesLiteral. rewrite Hp in HG.
  set (r1 := mkRE _ _ _ _ _ _ _) in HG.
  replace (RE.setCur _ _) with (RE.setRep r1 0)
    by (unfold RE.setRep, RE.setCur, RE.setBuffer; cbn [r1 re_w re_buffer re_bitWidth re_curVal re_repCount re_litCount re_litOff];
        now rewrite Hr0).
  rewrite <- (flushBuffered_rc r1 false) by exact Hlt.
  destruct (RE.flushBuffered r1 false) as [r2 [e|]]; [discriminate|congruence].
Qed.

(** What is left after a step. *)
Lemma step_rest r1 k :
  stepOk r values r1 k ->
  encRel R w r1 (vs ++ firstn (Z.to_nat k) values) /\ Forall (fits w) (skipn (Z.to_nat k) values) /\
  len (vs ++ firstn (Z.to_nat k) values) + len (skipn (Z.to_nat k) values) = len vs + len values /\
  RE.puts r values = RE.puts r1 (skipn (Z.to_nat k) values).
Proof.
  intros [Hk Hp]. destruct (step_puts (Z.to_nat k)) as (r1' & Hp' & HE1).
  assert (r1' = r1) by congruence. subst r1'. splits; auto.
  - now apply Forall_skipn.
  - rewrite length_app, length_firstn, length_skipn. lia.
  - rewrite <- (firstn_skipn (Z.to_nat k) values) at 1. rewrite puts_app, Hp. reflexivity.
Qed.

Lemma step_buffer : (List.length (re_buffer r) < 8)%nat.
Proof.
  destruct HE as (runs & ol & _ & ps & [_ Hp] & _).
  destruct Hp as [(_ & -> & HL & _)|(_ & -> & _)]; [assumption|cbn; lia].
Qed.

Lemma putRest_step :
  values <> [] ->
  let n := Nat.min (List.length values) (8 - List.length (re_buffer r)) in
  exists r', RE.putSome r (map u64 values) n = (r', Z.of_nat n, None) /\ stepOk r values r' (Z.of_nat n).
Proof.
  intros Hne n. apply putSome_step. pose proof step_buffer. subst n. destruct values; [congruence|cbn [List.length]; lia].
Qed.

Lemma extend_step v rest :
  values = v :: rest -> 8 <= re_repCount r -> re_curVal r = v ->
  exists r' k, RE.extendRun r v values = (r', k, true) /\ stepOk r values r' k.
Proof.
  intros Hv Hr Hc. pose proof (encRel_rep _ _ _ _ HE) as [Hrep _].
  destruct (extendRun_ok r v values Hr Hc ltac:(lia)) as [HX HP]. eexists _, _. split; [exact HX|]. split; [|exact HP].
  pose proof (runLen_range v values). split; [|lia]. rewrite Hv. cbn [RE.runLen]. rewrite Z.eqb_refl.
  pose proof (runLen_range v rest). lia.
Qed.

(** An iteration of [PutBatchIndices] outside a repeated run. *)
Lemma indices_step v rest :
  values = v :: rest ->
  exists r' k, RE.putIndicesStep r v values = (r', k, None) /\ stepOk r values r' k.
Proof.
  intros Hv. assert (Hfv : fits w v) by (revert HF; rewrite Hv; intros HF'; now inversion HF').
  unfold RE.putIndicesStep. destruct (RE.betweenGroups r) eqn:Hbt; cbn [andb].
  - destruct (RE.runAhead v values) eqn:Hra; [eapply startRun_ok; eauto|].
    destruct (Z.leb_spec 8 (len values)) as [H8|H8].
    + destruct literal_step as (r' & -> & HS); auto; [rewrite Hv in Hra |- *; exact Hra|]. eauto.
    + destruct putRest_step as (r' & HP & HS); [now rewrite Hv|]. eauto.
  - destruct putRest_step as (r' & HP & HS); [now rewrite Hv|]. eauto.
Qed.
End Steps.

(** A run that ends before a different value. *)
Lemma flushRepeated_step R w r vs v :
  encRel R w r vs -> 8 <= re_repCount r -> re_curVal r <> v -> len vs <= MaxInt32 -> sizeFor w (len vs) <= R ->
  exists r1, RE.flushRepeated r = (r1, true) /\ encRel R w r1 vs /\
    (forall rest, RE.puts r (v :: rest) = RE.puts r1 (v :: rest)).
Proof.
  intros (runs & ol & HB & ps & [Hcv Hp] & ->) Hr Hne Hmax HR.
  destruct Hp as [(? & _)|(Hrep & Hbuf & -> & ->)]; [lia|]. cbn [lits app] in *.
  rewrite length_app, repeat_length in HR.
  destruct (flushRepeated_base R w r runs (len (expand runs) + re_repCount r)) as (r1 & HX & Hb1 & Hr1 & Hc1 & HB1); auto;
    [lia|etransitivity; [|exact HR]; apply Z.eq_le_incl; f_equal; lia|].
  exists r1. split; [exact HX|]. split.
  - exists (runs ++ [Rep (re_repCount r) (re_curVal r)]), None. split; [exact HB1|]. exists []. split.
    + split; [now rewrite Hc1|]. left. rewrite Hr1, Hb1. splits; auto; try lia; [cbn; lia|]. now exists [].
    + rewrite expand_app. cbn [expand flat_map expandRun lits]. now rewrite !app_nil_r.
  - intros rest. cbn [RE.puts]. unfold RE.Put. rewrite HX, Hc1, Hr1.
    destruct (Z.eqb_spec (re_curVal r) v); [congruence|]. bool_lia (8 <=? re_repCount r). reflexivity.
Qed.

(** ** The loops *)

Section Loops.
Variables (R w : Z).

(** A batch is its [Put]s. *)
Definition batchOk (res : option (RleEncoder W * Z * option goerr)) r (values : list Z) : Prop :=
  exists r', res = Some (r', len values, None) /\ RE.puts r values = (r', None).

Lemma batch_go r r1 k vs values res :
  encRel R w r vs -> Forall (fits w) values -> len vs + len values <= MaxInt32 ->
  sizeFor w (len vs + len values) <= R -> stepOk r values r1 k ->
  batchOk res r1 (skipn (Z.to_nat k) values) ->
  batchOk (match res with Some (r2, n, e) => Some (r2, k + n, e) | None => None end) r values.
Proof.
  intros HE HF Hmax HR HS (r' & -> & Hp). destruct (step_rest R w r vs values HE HF Hmax HR r1 k HS) as (_ & _ & HL & Hq).
  exists r'. split; [|rewrite Hq; exact Hp]. destruct HS as [Hk _]. rewrite length_skipn. do 3 f_equal. lia.
Qed.

Lemma putBatchLevels_loop fuel r vs values :
  (List.length values <= fuel)%nat -> encRel R w r vs -> Forall (fits w) values ->
  len vs + len values <= MaxInt32 -> sizeFor w (len vs + len values) <= R ->
  batchOk (RE.putBatchLevels fuel r values) r values.
Proof.
  revert r vs values. induction fuel as [|fuel IH]; intros r vs values Hfuel HE HF Hmax HR;
    (destruct values as [|v rest]; [now exists r|]); [cbn in Hfuel; lia|].
  set (values := v :: rest) in *.
  assert (Hgo : forall r1 k, stepOk r values r1 k ->
    batchOk (match RE.putBatchLevels fuel r1 (skipn (Z.to_nat k) values) with
             | Some (r2, n, e) => Some (r2, k + n, e) | None => None end) r values).
  { intros r1 k HS. destruct (step_rest R w r vs values HE HF Hmax HR r1 k HS) as (HE1 & HF1 & HL & _).
    eapply batch_go; eauto. eapply IH; eauto; rewrite ?HL; auto. destruct HS as [Hk _]. rewrite length_skipn. lia. }
  assert (Hfv : fits w v) by now inversion HF.
  pose proof (encRel_rep _ _ _ _ HE) as [_ Hw].
  unfold values at 1. cbn [RE.putBatchLevels]. fold values. rewrite (u64_fits w v) by (auto; lia).
  destruct ((8 <=? re_repCount r) && (re_curVal r =? v)) eqn:E1.
  { apply andb_true_iff in E1 as [E1 E2]. apply Z.leb_le in E1. apply Z.eqb_eq in E2.
    destruct (extend_step R w r vs values HE Hmax v rest eq_refl E1 E2) as (r1 & k & -> & HS). auto. }
  destruct (RE.betweenGroups r && RE.runAhead v values) eqn:E2.
  { apply andb_true_iff in E2 as [Hbt Hra].
    destruct (startRun_ok R w r vs v values) as (r1 & k & -> & HS); auto. }
  destruct (putRest_step R w r vs values HE HF Hmax HR) as (r1 & -> & HS); [discriminate|]. auto.
Qed.

Lemma putBatchIndices_loop fuel r vs values :
  (List.length values <= fuel)%nat -> encRel R w r vs -> Forall (fits w) values ->
  len vs + len values <= MaxInt32 -> sizeFor w (len vs + len values) <= R ->
  batchOk (RE.putBatchIndices fuel r values) r values.
Proof.
  revert r vs values. induction fuel as [|fuel IH]; intros r vs values Hfuel HE HF Hmax HR;
    (destruct values as [|v rest]; [now exists r|]); [cbn in Hfuel; lia|].
  set (values := v :: rest) in *.
  assert (Hgo : forall r1 k, stepOk r values r1 k ->
    batchOk (match RE.putBatchIndices fuel r1 (skipn (Z.to_nat k) values) with
             | Some (r2, n, e) => Some (r2, k + n, e) | None => None end) r values).
  { intros r1 k HS. destruct (step_rest R w r vs values HE HF Hmax HR r1 k HS) as (HE1 & HF1 & HL & _).
    eapply batch_go; eauto. eapply IH; eauto; rewrite ?HL; auto. destruct HS as [Hk _]. rewrite length_skipn. lia. }
  assert (Hfv : fits w v) by now inversion HF.
  pose proof (encRel_rep _ _ _ _ HE) as [_ Hw].
  unfold values at 1. cbn [RE.putBatchIndices]. fold values. rewrite (u64_fits w v) by (auto; lia).
  destruct (Z.leb_spec 8 (re_repCount r)) as [H8|H8].
  - destruct (Z.eqb_spec (re_curVal r) v) as [Heq|Hne]; cbn [negb].
    + destruct (extend_step R w r vs values HE Hmax v rest eq_refl H8 Heq) as (r1 & k & -> & HS). auto.
    + destruct (flushRepeated_step R w r vs v HE H8 Hne ltac:(lia)) as (r0 & -> & HE0 & Hp0).
      { etransitivity; [|exact HR]. unfold sizeFor. assert ((len vs + 7) / 8 <= (len vs + len values + 7) / 8) by zdiv. nia. }
      destruct (indices_step R w r0 vs values HE0 HF Hmax HR v rest eq_refl) as (r1 & k & -> & Hk & HP).
      apply Hgo. split; [exact Hk|]. rewrite <- HP.
      destruct (Z.to_nat k) as [|k'] eqn:Ek; [lia|]. apply Hp0.
  - destruct (indices_step R w r vs values HE HF Hmax HR v rest eq_refl) as (r1 & k & -> & HS). auto.
Qed.
End Loops.

Lemma PutBatchLevels_puts R w r vs values :
  encRel R w r vs -> Forall (fits w) values -> len vs + len values <= MaxInt32 ->
  sizeFor w (len vs + len values) <= R -> batchOk (RE.PutBatchLevels r values) r values.
Proof. intros. unfold RE.PutBatchLevels. eapply putBatchLevels_loop; eauto. lia. Qed.

Lemma PutBatchIndices_puts R w r vs values :
  encRel R w r vs -> Forall (fits w) values -> len vs + len values <= MaxInt32 ->
  sizeFor w (len vs + len values) <= R -> batchOk (RE.PutBatchIndices r values) r values.
Proof. intros. unfold RE.PutBatchIndices. eapply putBatchIndices_loop; eauto. lia. Qed.
End Batch.
