(* ===== verification/Codec.v ===== *)
(** * Round trips between the writers and the readers

    What is written with a [BitWriter] is read back by a [BitReader], what is put into an
    [RleEncoder] is delivered by an [RleDecoder].  The two sides meet only in the formats:
    packed values, varints, and the runs of [RleFormat]. *)

From Stdlib Require Import ZArith List Lia Bool String.
From S2P Require Import Prelude GoStd BitUtil BitPacking BitWriter BitReader RleFormat RleDecoder RleEncoder RleBatch.
Import ListNotations.
#[local] Open Scope Z_scope.
#[local] Open Scope go_scope.

(** ** Zigzag *)

Definition isInt64 (v : Z) : Prop := MinInt64 <= v <= MaxInt64.

Ltac pow_consts :=
  change (2 ^ 63) with 9223372036854775808 in *; change (2 ^ 64) with 18446744073709551616 in *.

Lemma zigzag_value v : isInt64 v -> BW.zigzag v = if v <? 0 then -2 * v - 1 else 2 * v.
Proof.
  unfold isInt64, MinInt64, MaxInt64, BW.zigzag. intros Hv. rewrite shiftl_mul, shiftr_div by lia. change (2 ^ 1) with 2.
  destruct (Z.ltb_spec v 0).
  - replace (v / 2 ^ 63) with (-1) by (pow_consts; zdiv).
    rewrite Z.lxor_m1_r. unfold Z.lnot, u64, i64. pow_consts. zdiv.
  - replace (v / 2 ^ 63) with 0 by (pow_consts; zdiv). rewrite Z.lxor_0_r. unfold u64, i64. pow_consts. zdiv.
Qed.

Lemma zigzag_bound v : isInt64 v -> 0 <= BW.zigzag v < 2 ^ 64.
Proof. intros Hv. rewrite zigzag_value by assumption. unfold isInt64, MinInt64, MaxInt64 in Hv. destruct (Z.ltb_spec v 0); lia. Qed.

Lemma land_1 u : u & 1 = u mod 2.
Proof. change 1 with (Z.ones 1). now rewrite Z.land_ones. Qed.

Lemma unzigzag_zigzag v : isInt64 v -> BR.unzigzag (BW.zigzag v) = v.
Proof.
  intros Hv. rewrite zigzag_value by assumption. unfold isInt64, MinInt64, MaxInt64 in Hv. unfold BR.unzigzag.
  rewrite land_1, shiftr_div by lia. change (2 ^ 1) with 2.
  destruct (Z.ltb_spec v 0).
  - replace ((-2 * v - 1) mod 2) with 1 by zdiv. replace ((-2 * v - 1) / 2) with (- v - 1) by zdiv.
    change (- (1)) with (-1). rewrite Z.lxor_m1_r. unfold Z.lnot, i64. rewrite Z.mod_small; lia.
  - replace ((2 * v) mod 2) with 0 by zdiv. replace (2 * v / 2) with v by zdiv.
    change (- 0) with 0. rewrite Z.lxor_0_r. unfold i64. rewrite Z.mod_small; lia.
Qed.

(** ** Packed values and varints *)

Section Streams.
Context {W : Type} `{WOk : WriterAtOk W}.

Lemma bits_roundtrip_ok (wr : W) vs nbits align :
  wok wr -> 0 <= nbits <= 64 -> Forall (fits nbits) vs -> room wr ((len vs * nbits + 7) / 8) ->
  exists b b', BW.WriteValues (BW.NewBitWriter wr) vs nbits = (b, None) /\
    BR.GetBatch
      (BR.NewBitReader (BytesReader.new (firstn (Z.to_nat (BW.Written b)) (wbuf (bw_wr (BW.Flush align b))))))
      nbits (repeat 0 (List.length vs)) = (b', vs, len vs, None).
Proof.
  intros Hok Hn HF Hroom. destruct (write_values_ok wr vs nbits align Hok Hn HF Hroom) as (b & HE & _ & Hbuf).
  set (L := (len vs * nbits + 7) / 8). assert (HL : 0 <= L /\ len vs * nbits <= 8 * L) by (subst L; zdiv).
  fold L in Hbuf. set (data := lebytes (Z.to_nat L) (packed nbits vs)) in *.
  assert (Hv : leval data = packed nbits vs).
  { subst data. rewrite leval_lebytes. apply Z.mod_small. pose proof (packed_bound nbits vs ltac:(lia) HF).
    pose proof (pow2_le (len vs * nbits) (8 * Z.of_nat (Z.to_nat L))). lia. }
  destruct (GetBatch_ok (BR.NewBitReader (BytesReader.new data)) nbits (repeat 0 (List.length vs))) as (b' & HG & _); auto.
  - apply NewBitReader_ok. subst data. auto with gobytes.
  - rewrite repeat_length. unfold br_pos, br_data. cbn [BR.NewBitReader BytesReader.new br_reader BytesReader.data br_byteoffset br_bitoffset].
    subst data. rewrite length_lebytes. lia.
  - exists b, b'. split; [exact HE|]. rewrite Hbuf, HG, repeat_length.
    change (br_val (BR.NewBitReader (BytesReader.new data))) with (leval data).
    change (br_pos (BR.NewBitReader (BytesReader.new data))) with 0. rewrite Hv, fields_packed by (auto; lia). reflexivity.
Qed.

Lemma vlq_roundtrip_ok (wr : W) x :
  wok wr -> 0 <= x < 2 ^ 64 -> room wr (len (Binary.PutUvarint x)) ->
  exists b b', BW.WriteVlqInt (BW.NewBitWriter wr) x = (b, true) /\
    BR.GetVlqInt (BR.NewBitReader (BytesReader.new (firstn (Z.to_nat (BW.Written b)) (wbuf (bw_wr b))))) = (b', Some x).
Proof.
  intros Hok Hx Hroom. destruct (write_vlq_ok wr x Hok ltac:(lia) Hroom) as (b & HE & _ & Hbuf).
  destruct (GetVlqInt_ok (BR.NewBitReader (BytesReader.new (Binary.PutUvarint x))) x) as (b' & HG & _);
    [|assumption| |exists b, b'; rewrite Hbuf; auto].
  - apply NewBitReader_ok, Binary.PutUvarint_bytes. lia.
  - change (BR.CurOffset _) with 0. unfold br_data. cbn [BR.NewBitReader BytesReader.new br_reader BytesReader.data].
    cbn [Z.to_nat skipn]. apply firstn_all.
Qed.

(** Bit-packed values survive the trip: what [WriteValues] and [Flush] write is read back
    by [GetBatch], for every width from 0 to 64. *)
Theorem bits_roundtrip (wr : W) vs nbits align :
  wok wr -> 0 <= nbits <= 64 -> Forall (fits nbits) vs -> room wr ((len vs * nbits + 7) / 8) ->
  exists b b', BW.WriteValues (BW.NewBitWriter wr) vs nbits = (b, None) /\
    BR.GetBatch
      (BR.NewBitReader (BytesReader.new (firstn (Z.to_nat (BW.Written b)) (wbuf (bw_wr (BW.Flush align b))))))
      nbits (repeat 0 (List.length vs)) = (b', vs, len vs, None).
Proof. apply bits_roundtrip_ok. Qed.

(** A signed integer written with [WriteZigZagVlqInt] is what [GetZigZagVlqInt] reads, for
    every 64-bit value. *)
Theorem zigzag_vlq_roundtrip (wr : W) v :
  wok wr -> MinInt64 <= v <= MaxInt64 -> room wr 10 ->
  exists b b', BW.WriteZigZagVlqInt (BW.NewBitWriter wr) v = (b, true) /\
    BR.GetZigZagVlqInt (BR.NewBitReader (BytesReader.new (firstn (Z.to_nat (BW.Written b)) (wbuf (bw_wr b)))))
      = (b', Some v).
Proof.
  intros Hok Hv Hroom. destruct (vlq_roundtrip_ok wr (BW.zigzag v) Hok) as (b & b' & HE & HG).
  - now apply zigzag_bound.
  - eapply room_le; [exact Hroom|]. pose proof (Binary.putUvarint_length 10 (BW.zigzag v) ltac:(lia)).
    unfold Binary.PutUvarint, Binary.MaxVarintLen64. lia.
  - exists b, b'. split; [exact HE|]. unfold BR.GetZigZagVlqInt. rewrite HG, unzigzag_zigzag by assumption. reflexivity.
Qed.
End Streams.

(** ** The RLE hybrid *)

(** The space [Put]s are proved to need is what [MaxRLEBufferSize] computes. *)
Lemma MaxRLEBufferSize_sizeFor w n : 1 <= w <= 64 -> 0 <= n <= MaxInt32 -> MaxRLEBufferSize w n = sizeFor w n.
Proof.
  unfold MaxInt32. intros Hw Hn. unfold MaxRLEBufferSize, sizeFor. rewrite !BytesForBits_div by lia.
  assert (0 <= (n + 7) / 8) by zdiv. assert ((w + 7) / 8 <= w) by zdiv. nia.
Qed.

Lemma size_dataFits w n (d : list Z) : 1 <= w <= 64 -> 0 <= n <= MaxInt32 -> len d <= sizeFor w n -> dataFits d.
Proof.
  unfold MaxInt32, dataFits, sizeFor. intros Hw Hn Hd. assert ((n + 7) / 8 <= 268435456) by zdiv. nia.
Qed.

(** A decoder over an encoding of [vs] and some padding delivers [vs]. *)
Lemma decode_prefix w runs vs k :
  1 <= w <= 64 -> runsOk w runs -> dataFits (encodes w runs) -> expand runs = vs ++ repeat 0 k ->
  exists d, RD.GetBatch (RD.NewRleDecoder (BytesReader.new (encodes w runs)) w) (repeat 0 (List.length vs))
    = Some (d, vs, len vs, None).
Proof.
  intros Hw Hok Hf Hexp. pose proof (NewRleDecoder_rel w runs Hw Hok Hf) as HD.
  destruct (GetBatch_rel _ _ (repeat 0 (List.length vs)) HD) as (d & HE & _).
  rewrite Hexp, repeat_length, length_app, Z.min_l, Nat2Z.id in HE by lia. exists d. rewrite HE.
  rewrite firstn_app, firstn_all, Nat.sub_diag, firstn_O, app_nil_r, skipn_all2, app_nil_r by (rewrite repeat_length; lia).
  reflexivity.
Qed.

Section Rle.
Context {W : Type} `{WOk : WriterAtOk W}.

(** From a state the encoder reaches after [vs], [Flush] and decode. *)
Lemma flush_decode R w (e : RleEncoder W) vs :
  encRel R w e vs -> len vs <= MaxInt32 -> sizeFor w (len vs) <= R ->
  exists e' n d, RE.Flush e = (e', n) /\ 0 <= n <= MaxRLEBufferSize w (len vs) /\
    RD.GetBatch (RD.NewRleDecoder (BytesReader.new (firstn (Z.to_nat n) (wbuf (bw_wr (re_w e'))))) w)
      (repeat 0 (List.length vs)) = Some (d, vs, len vs, None).
Proof.
  intros HE Hmax HR. destruct (encRel_rep _ _ _ _ HE) as [_ Hw].
  destruct (Flush_rel R w e vs HE Hmax HR) as (e' & runs & k & HF & Hok & _ & Hexp & Hsz & Hbuf).
  assert (Hfit : dataFits (encodes w runs)) by (eapply (size_dataFits w (len vs)); eauto; lia).
  destruct (decode_prefix w runs vs k Hw Hok Hfit Hexp) as (d & HG).
  exists e', (len (encodes w runs)), d. rewrite MaxRLEBufferSize_sizeFor by lia.
  rewrite Nat2Z.id, Hbuf. splits; auto; lia.
Qed.

(** Put into a new encoder, flush and decode. *)
Lemma put_flush_decode (wr : W) w vs :
  wok wr -> 1 <= w <= 64 -> Forall (fits w) vs -> len vs <= MaxInt32 -> room wr (MaxRLEBufferSize w (len vs)) ->
  exists e1 e2 n d, RE.puts (RE.NewRleEncoder wr w) vs = (e1, None) /\ RE.Flush e1 = (e2, n) /\
    0 <= n <= MaxRLEBufferSize w (len vs) /\
    RD.GetBatch (RD.NewRleDecoder (BytesReader.new (firstn (Z.to_nat n) (wbuf (bw_wr (re_w e2))))) w)
      (repeat 0 (List.length vs)) = Some (d, vs, len vs, None).
Proof.
  intros Hok Hw HF Hmax Hroom. rewrite MaxRLEBufferSize_sizeFor in Hroom by lia.
  destruct (puts_ok (sizeFor w (len vs)) w (RE.NewRleEncoder wr w) [] vs) as (e1 & HP & HE1); auto;
    [now apply NewRleEncoder_rel|reflexivity|].
  destruct (flush_decode (sizeFor w (len vs)) w e1 vs HE1 Hmax (Z.le_refl _)) as (e2 & n & d & HF2 & Hn & HG).
  exists e1, e2, n, d. auto.
Qed.

(** C1: the RLE round trip.  Into a writer with [MaxRLEBufferSize] bytes of room, [Put] never
    fails, [Flush] reports at most that many bytes, and a decoder over exactly the reported
    bytes delivers the values that were put; for every width from 1 to 64 and every sequence
    of up to 2^31-1 values of that width. *)
Theorem rle_roundtrip (wr : W) w vs :
  wok wr -> 1 <= w <= 64 -> Forall (fits w) vs -> len vs <= MaxInt32 -> room wr (MaxRLEBufferSize w (len vs)) ->
  exists e1 e2 n d, RE.puts (RE.NewRleEncoder wr w) vs = (e1, None) /\ RE.Flush e1 = (e2, n) /\
    0 <= n <= MaxRLEBufferSize w (len vs) /\
    RD.GetBatch (RD.NewRleDecoder (BytesReader.new (firstn (Z.to_nat n) (wbuf (bw_wr (re_w e2))))) w)
      (repeat 0 (List.length vs)) = Some (d, vs, len vs, None).
Proof. intros. now apply put_flush_decode. Qed.

(** C29: [PutBatchLevels] is its [Put]s: from any state the encoder can be in, a batch of levels
    takes the encoder to the state that putting them one by one takes it to, and reports them
    all as encoded. *)
Theorem put_batch_levels_equiv R w (e : RleEncoder W) vs values :
  encRel R w e vs -> Forall (fits w) values -> len vs + len values <= MaxInt32 ->
  sizeFor w (len vs + len values) <= R ->
  exists e', RE.PutBatchLevels e values = Some (e', len values, None) /\ RE.puts e values = (e', None).
Proof. intros. now apply (PutBatchLevels_puts R w e vs). Qed.

(** [PutBatchIndices], with its direct path for literal groups, is its [Put]s too. *)
Theorem put_batch_indices_equiv R w (e : RleEncoder W) vs values :
  encRel R w e vs -> Forall (fits w) values -> len vs + len values <= MaxInt32 ->
  sizeFor w (len vs + len values) <= R ->
  exists e', RE.PutBatchIndices e values = Some (e', len values, None) /\ RE.puts e values = (e', None).
Proof. intros. now apply (PutBatchIndices_puts R w e vs). Qed.

(** C31: an encoder that is cleared is as good as new, whatever state it is in: with values put
    and not flushed, flushed, or after a failed write.  The values put after [Clear] are what a
    decoder delivers from the bytes [Flush] reports; all that is needed is that the writer is in
    order and has room for them. *)
Theorem rle_clear_reuse w (e : RleEncoder W) vs :
  re_bitWidth e = w -> 1 <= w <= 64 -> wok (bw_wr (re_w e)) -> Forall (fits w) vs -> len vs <= MaxInt32 -> room (bw_wr (re_w e)) (MaxRLEBufferSize w (len vs)) ->
  exists e1 e2 n d, RE.puts (RE.Clear e) vs = (e1, None) /\ RE.Flush e1 = (e2, n) /\ 0 <= n <= MaxRLEBufferSize w (len vs) /\
    RD.GetBatch (RD.NewRleDecoder (BytesReader.new (firstn (Z.to_nat n) (wbuf (bw_wr (re_w e2))))) w)
      (repeat 0 (List.length vs)) = Some (d, vs, len vs, None).
Proof. intros <- Hw Hok HF Hmax Hroom. rewrite Clear_new. now apply put_flush_decode. Qed.
End Rle.

Lemma rle_roundtrip_witness :
  let vs := [3; 1] ++ repeat 5 20 ++ [7; 0; 2] in
  let wr := WriterAtBuffer.new (repeat 0 24) in
  exists e1 e2 n d, RE.puts (RE.NewRleEncoder wr 3) vs = (e1, None) /\ RE.Flush e1 = (e2, n) /\
    0 <= n <= MaxRLEBufferSize 3 (len vs) /\
    RD.GetBatch (RD.NewRleDecoder (BytesReader.new (firstn (Z.to_nat n) (wbuf (bw_wr (re_w e2))))) 3)
      (repeat 0 (List.length vs)) = Some (d, vs, len vs, None).
Proof.
  apply (rle_roundtrip (WriterAtBuffer.new (repeat 0 24)) 3 ([3; 1] ++ repeat 5 20 ++ [7; 0; 2]));
    [apply (bytes_repeat0 24)|lia|repeat constructor; cbn; lia|unfold MaxInt32; cbn; lia|vm_compute; discriminate].
Defined.

(** An encoder that has just been made, over 200 bytes. *)
Lemma new_encoder_rel : encRel 200 3 (RE.NewRleEncoder (WriterAtBuffer.new (repeat 0 200)) 3) [].
Proof. apply NewRleEncoder_rel; [lia|apply (bytes_repeat0 200)|cbn; lia]. Qed.

Lemma put_batch_levels_witness :
  let e := RE.NewRleEncoder (WriterAtBuffer.new (repeat 0 200)) 3 in
  let vs := [1; 2] ++ repeat 4 30 ++ [0] in
  exists e', RE.PutBatchLevels e vs = Some (e', len vs, None) /\ RE.puts e vs = (e', None).
Proof.
  apply (put_batch_levels_equiv 200 3 _ [] ([1; 2] ++ repeat 4 30 ++ [0]) new_encoder_rel);
    [repeat constructor; cbn; lia|unfold MaxInt32; cbn; lia|vm_compute; discriminate].
Defined.

(** An encoder that has been used: ten values are put and flushed, so that the last run is short,
    and three more are put. *)
Definition usedEncoder : RleEncoder WriterAtBuffer.t :=
  fst (RE.puts (fst (RE.Flush (fst (RE.puts (RE.NewRleEncoder (WriterAtBuffer.new (repeat 0 40)) 3) [1; 2; 3; 4; 5; 6; 7; 0; 1; 2])))) [5; 6; 5]).

Lemma rle_clear_witness :
  let vs := repeat 4 30 ++ [0; 1] in
  re_buffer usedEncoder <> [] /\ bw_byteoffset (re_w usedEncoder) <> 0 /\
  exists e1 e2 n d, RE.puts (RE.Clear usedEncoder) vs = (e1, None) /\ RE.Flush e1 = (e2, n) /\ 0 <= n <= MaxRLEBufferSize 3 (len vs) /\
    RD.GetBatch (RD.NewRleDecoder (BytesReader.new (firstn (Z.to_nat n) (wbuf (bw_wr (re_w e2))))) 3)
      (repeat 0 (List.length vs)) = Some (d, vs, len vs, None).
Proof.
  split; [vm_compute; discriminate|]. split; [vm_compute; discriminate|].
  apply (rle_clear_reuse 3 usedEncoder (repeat 4 30 ++ [0; 1]));
    [reflexivity|lia|vm_compute; repeat constructor; discriminate|repeat constructor; cbn; lia|unfold MaxInt32; cbn; lia|vm_compute; discriminate].
Defined.
