(* ===== verification/MathUtil.v ===== *)
(** * Checked integer arithmetic (internal/utils/math.go)

    [Add] for a signed type of any width, [Mul] for [int] on a 64-bit platform and [Mul64]:
    the wrapped result, and whether it is the exact one. *)

From Stdlib Require Import ZArith List Lia Bool.
From S2P Require Import Prelude.
Import ListNotations.
#[local] Open Scope Z_scope.
#[local] Open Scope go_scope.

(** Conversion to a signed integer of [w] bits. *)
Definition wrapS (w x : Z) : Z := (x + 2 ^ (w - 1)) mod 2 ^ w - 2 ^ (w - 1).

(** A value of the type. *)
Definition inS (w x : Z) : Prop := - 2 ^ (w - 1) <= x < 2 ^ (w - 1).

Definition Add (w a b : Z) : Z * bool :=
  let result := wrapS w (a + b) in
  (result, Bool.eqb (a <? result) (0 <? b)).

Definition sqrtMaxInt : Z := Z.shiftl 1 31 - 1.
Definition sqrtMinInt : Z := Z.shiftl (-1) 31.

(** Division truncates; the quotient of the least integer by -1 wraps. *)
Definition Mul (a b : Z) : Z * bool :=
  if (a =? 0) || (b =? 0) then (0, true)
  else
    let result := i64 (a * b) in
    if Bool.eqb (0 <? result) (negb (Bool.eqb (a <? 0) (b <? 0))) then (result, false)
    else if ((sqrtMinInt <=? a) && (a <=? sqrtMaxInt) && (sqrtMinInt <=? b) && (b <=? sqrtMaxInt)) || (a =? 1) || (b =? 1)
    then (result, true)
    else (result, i64 (Z.quot result a) =? b).

Definition sqrtMaxInt64 : Z := MaxInt32.
Definition sqrtMinInt64 : Z := MinInt32.

Definition Mul64 (a b : Z) : Z * bool :=
  if (a =? 0) || (b =? 0) then (0, true)
  else
    let result := i64 (a * b) in
    if Bool.eqb (0 <? result) (negb (Bool.eqb (a <? 0) (b <? 0))) then (result, false)
    else if ((sqrtMinInt64 <=? a) && (a <=? sqrtMaxInt64) && (sqrtMinInt64 <=? b) && (b <=? sqrtMaxInt64)) || (a =? 1) || (b =? 1)
    then (result, true)
    else (result, i64 (Z.quot result a) =? b).

Lemma Mul64_Mul a b : Mul64 a b = Mul a b.
Proof. reflexivity. Qed.

(** ** Wrapping *)

(** A wrapped value differs by a multiple of the modulus. *)
Lemma wrapS_spec w x : 1 <= w -> inS w (wrapS w x) /\ exists k, wrapS w x = x + k * 2 ^ w.
Proof.
  intros Hw. unfold wrapS, inS. pose proof (pow2_pos (w - 1)). assert (H2 : 2 ^ w = 2 * 2 ^ (w - 1)) by (rewrite <- Z.pow_succ_r by lia; f_equal; lia).
  pose proof (Z.mod_pos_bound (x + 2 ^ (w - 1)) (2 ^ w) ltac:(lia)). split; [lia|].
  exists (- ((x + 2 ^ (w - 1)) / 2 ^ w)). pose proof (Z.div_mod (x + 2 ^ (w - 1)) (2 ^ w) ltac:(lia)). lia.
Qed.

Lemma wrapS_id w x : 1 <= w -> inS w x -> wrapS w x = x.
Proof.
  intros Hw Hx. unfold wrapS, inS in *. assert (H2 : 2 ^ w = 2 * 2 ^ (w - 1)) by (rewrite <- Z.pow_succ_r by lia; f_equal; lia).
  rewrite Z.mod_small; lia.
Qed.

Lemma i64_small x : - 2 ^ 63 <= x < 2 ^ 63 -> i64 x = x.
Proof. intros Hx. unfold i64. rewrite Z.mod_small; lia. Qed.

Lemma i64_wrapS x : i64 x = wrapS 64 x.
Proof. reflexivity. Qed.

(** ** Mul *)

(** The three ways [Mul] decides. *)
Lemma Mul_sign a b :
  a <> 0 -> b <> 0 -> inS 64 (a * b) -> Bool.eqb (0 <? i64 (a * b)) (negb (Bool.eqb (a <? 0) (b <? 0))) = false.
Proof.
  intros Ha Hb Hf. rewrite i64_wrapS, wrapS_id by (auto; lia).
  destruct (Z.ltb_spec a 0), (Z.ltb_spec b 0), (Z.ltb_spec 0 (a * b)); cbn; try reflexivity; nia.
Qed.

Lemma Mul_small a b :
  sqrtMinInt <= a <= sqrtMaxInt /\ sqrtMinInt <= b <= sqrtMaxInt \/ a = 1 \/ b = 1 -> inS 64 a -> inS 64 b -> inS 64 (a * b).
Proof.
  unfold sqrtMinInt, sqrtMaxInt, inS. change (Z.shiftl 1 31) with 2147483648. change (Z.shiftl (-1) 31) with (-2147483648).
  change (2 ^ (64 - 1)) with 9223372036854775808. intros [[H1 H2]|[-> | ->]] Ha Hb; [|lia|lia]. nia.
Qed.

Lemma Mul_quot a b :
  a <> 0 -> a <> -1 -> inS 64 a -> inS 64 b -> i64 (Z.quot (i64 (a * b)) a) = b <-> inS 64 (a * b).
Proof.
  intros Ha Hn1 HaT HbT.
  destruct (wrapS_spec 64 (a * b) ltac:(lia)) as [Hr [k Hk]]. change (i64 (a * b)) with (wrapS 64 (a * b)). set (r := wrapS 64 (a * b)) in *.
  pose proof (Z.quot_rem' r a) as Hq. pose proof (Z.rem_bound_abs r a Ha) as Hrem. set (q := Z.quot r a) in *. set (m := Z.rem r a) in *.
  unfold inS in *. change (2 ^ (64 - 1)) with 9223372036854775808 in *. change (2 ^ 64) with 18446744073709551616 in *.
  assert (Hqr : - 9223372036854775808 <= q < 9223372036854775808).
  { pose proof (Z.quot_abs r a Ha) as Habs. fold q in Habs. assert (1 <= Z.abs a) by lia.
    pose proof (Z.quot_le_upper_bound (Z.abs r) (Z.abs a) (Z.abs r) ltac:(lia) ltac:(nia)).
    destruct (Z.eq_dec (Z.abs q) 9223372036854775808) as [He|He]; [|lia].
    assert (Z.abs r = 9223372036854775808) by lia. assert (Hr' : r = -9223372036854775808) by lia.
    assert (Hle2 : Z.abs a = 1).
    { destruct (Z.eq_dec (Z.abs a) 1); [assumption|].
      pose proof (Z.quot_le_upper_bound (Z.abs r) (Z.abs a) 4611686018427387904 ltac:(lia) ltac:(nia)). lia. }
    assert (a = 1) by lia. subst a. subst q. rewrite Z.quot_1_r. lia. }
  assert (Hi : i64 q = q) by (rewrite i64_wrapS; apply wrapS_id; [lia|unfold inS; change (2 ^ (64 - 1)) with 9223372036854775808; lia]).
  rewrite Hi. split.
  - intros Hqb. assert (m = k * 18446744073709551616) by (rewrite <- Hqb in Hk; nia). assert (k = 0) by nia. subst k. lia.
  - intros Hin. assert (Hrab : r = a * b) by (subst r; apply wrapS_id; [lia|exact Hin]).
    subst q. rewrite Hrab, Z.mul_comm. now apply Z.quot_mul.
Qed.

Lemma Mul_ok a b : inS 64 a -> inS 64 b -> Mul a b = (i64 (a * b), if (- 2 ^ 63 <=? a * b) && (a * b <? 2 ^ 63) then true else false).
Proof.
  intros Ha Hb.
  assert (Hin : forall c, c = true <-> inS 64 (a * b) -> c = if (- 2 ^ 63 <=? a * b) && (a * b <? 2 ^ 63) then true else false).
  { intros c Hc. unfold inS in Hc. change (2 ^ (64 - 1)) with (2 ^ 63) in Hc.
    destruct (Z.leb_spec (- 2 ^ 63) (a * b)), (Z.ltb_spec (a * b) (2 ^ 63)); cbn [andb]; destruct c; auto; try (now apply Hc; lia);
      assert (true = true) as Ht by reflexivity; apply Hc in Ht; lia. }
  unfold Mul. destruct (Z.eqb_spec a 0) as [->|Ha0]; [cbn; reflexivity|]. destruct (Z.eqb_spec b 0) as [->|Hb0]; [rewrite Z.mul_0_r; reflexivity|].
  cbn [orb]. destruct (Bool.eqb (0 <? i64 (a * b)) _) eqn:Es.
  { f_equal. apply Hin. split; [discriminate|]. intros Hf. rewrite Mul_sign in Es by assumption. discriminate. }
  destruct (_ || (a =? 1) || (b =? 1)) eqn:Esm.
  { f_equal. apply Hin. split; [|reflexivity]. intros _. apply Mul_small; auto. rewrite !orb_true_iff, !andb_true_iff, !Z.leb_le, !Z.eqb_eq in Esm. tauto. }
  f_equal. apply Hin. rewrite Z.eqb_eq. destruct (Z.eq_dec a (-1)) as [->|Hn1]; [|now apply Mul_quot].
  assert (Hbm : b <> - 2 ^ 63) by (intros ->; discriminate Es).
  assert (Hf : inS 64 (-1 * b)) by (unfold inS in *; change (2 ^ (64 - 1)) with (2 ^ 63) in *; lia). split; [auto|]. intros _.
  change (i64 (-1 * b)) with (wrapS 64 (-1 * b)). rewrite wrapS_id by (auto; lia). rewrite (Z.mul_comm (-1)), Z.quot_mul by lia.
  change (i64 b) with (wrapS 64 b). apply wrapS_id; [lia|assumption].
Qed.

(** ** Claims *)

(** [Add] on a signed type of any width returns the wrapped sum and is ok exactly when the
    sum is a value of the type; [Mul] and [Mul64] likewise for products, on every branch of
    their overflow test. *)
Theorem checked_arith_correct w a b x y :
  1 <= w -> inS w a -> inS w b -> inS 64 x -> inS 64 y ->
  (fst (Add w a b) = wrapS w (a + b) /\ (snd (Add w a b) = true <-> inS w (a + b))) /\
  (fst (Mul x y) = i64 (x * y) /\ (snd (Mul x y) = true <-> inS 64 (x * y))) /\ Mul64 x y = Mul x y.
Proof.
  intros Hw Ha Hb Hx Hy. split; [|split; [|apply Mul64_Mul]].
  - split; [reflexivity|]. cbn [Add snd]. destruct (wrapS_spec w (a + b) Hw) as [Hr [k Hk]]. set (r := wrapS w (a + b)) in *.
    rewrite eqb_true_iff. unfold inS in *. pose proof (pow2_pos (w - 1)).
    assert (H2 : 2 ^ w = 2 * 2 ^ (w - 1)) by (rewrite <- Z.pow_succ_r by lia; f_equal; lia).
    assert (Hkr : k = 0 \/ k = 1 \/ k = -1) by nia. split.
    + intros He. destruct (Z.ltb_spec a r), (Z.ltb_spec 0 b); try discriminate; destruct Hkr as [-> |[-> | ->]]; nia.
    + intros Hin. assert (k = 0) by nia. destruct (Z.ltb_spec a r), (Z.ltb_spec 0 b); auto; nia.
  - rewrite Mul_ok by assumption. split; [reflexivity|]. cbn [snd]. unfold inS. change (2 ^ (64 - 1)) with (2 ^ 63).
    destruct (Z.leb_spec (- 2 ^ 63) (x * y)), (Z.ltb_spec (x * y) (2 ^ 63)); cbn [andb]; split; intros; try discriminate; auto; lia.
Qed.

(** ** Minimum and maximum (internal/utils/min_max.go)

    The pure Go routines, which the assembly variants replace. *)

Fixpoint minMaxLoop (mn mx : Z) (values : list Z) : Z * Z :=
  match values with
  | [] => (mn, mx)
  | v :: values' => minMaxLoop (if v <? mn then v else mn) (if mx <? v then v else mx) values'
  end.

Definition int8MinMax (values : list Z) : Z * Z := minMaxLoop 127 (-128) values.
Definition uint8MinMax (values : list Z) : Z * Z := minMaxLoop 255 0 values.
Definition int16MinMax (values : list Z) : Z * Z := minMaxLoop 32767 (-32768) values.
Definition uint16MinMax (values : list Z) : Z * Z := minMaxLoop 65535 0 values.
Definition int32MinMax (values : list Z) : Z * Z := minMaxLoop MaxInt32 MinInt32 values.
Definition uint32MinMax (values : list Z) : Z * Z := minMaxLoop (2 ^ 32 - 1) 0 values.
Definition int64MinMax (values : list Z) : Z * Z := minMaxLoop (2 ^ 63 - 1) (- 2 ^ 63) values.
Definition uint64MinMax (values : list Z) : Z * Z := minMaxLoop (2 ^ 64 - 1) 0 values.

(** The bounds are tight: each is a value or where the loop started. *)
Lemma minMaxLoop_ok mn mx values :
  let '(a, b) := minMaxLoop mn mx values in
  Forall (fun v => a <= v <= b) values /\ a <= mn /\ mx <= b /\ (a = mn \/ In a values) /\ (b = mx \/ In b values).
Proof.
  revert mn mx. induction values as [|v values IH]; intros mn mx; cbn [minMaxLoop In]; [splits; auto; lia|].
  specialize (IH (if v <? mn then v else mn) (if mx <? v then v else mx)).
  destruct (minMaxLoop _ _ values) as [a b]. destruct IH as (HF & Ha & Hb & Ha' & Hb').
  destruct (Z.ltb_spec v mn), (Z.ltb_spec mx v); splits; try lia; try (constructor; [lia|assumption]);
    try (destruct Ha'; auto; subst; auto); try (destruct Hb'; auto; subst; auto).
Qed.

(** On values of the type, the result is their minimum and maximum. *)
Lemma minMaxLoop_attained lo hi values :
  values <> [] -> Forall (fun v => lo <= v <= hi) values ->
  let '(a, b) := minMaxLoop hi lo values in In a values /\ In b values /\ Forall (fun v => a <= v <= b) values.
Proof.
  intros Hne HF. pose proof (minMaxLoop_ok hi lo values) as Hm. destruct (minMaxLoop hi lo values) as [a b].
  destruct Hm as (HA & Ha & Hb & Ha' & Hb'). destruct values as [|v values]; [congruence|].
  inversion HF as [|? ? Hv HF']; subst. inversion HA as [|? ? Hv' HA']; subst. cbn [In].
  splits; auto; [destruct Ha' as [->|]|destruct Hb' as [->|]]; auto; left; lia.
Qed.
