(* ===== verification/Levels.v ===== *)
(** * Definition and repetition levels (parquet/internal/encoding/levels.go)

    [LE] is [LevelEncoder], over any writer; [LD] is [LevelDecoder].  Both switch between the
    RLE hybrid and the deprecated bit-packed encoding.  A panic is [None]. *)

From Stdlib Require Import ZArith List Lia Bool String.
From S2P Require Import Prelude GoStd BitUtil BitPacking BitWriter BitReader BitReaderBatch RleFormat RleDecoder RleLevels RleEncoder RleBatch Codec MathUtil.
Import ListNotations.
#[local] Open Scope Z_scope.
#[local] Open Scope go_scope.

Inductive Encoding : Type := RLE | BIT_PACKED | OtherEncoding.

Definition levelWidth (maxLvl : Z) : Z := Bits.Len64 (u64 maxLvl).

Definition LevelEncodingMaxBufferSize (encoding : Encoding) (maxLvl nbuffered : Z) : option Z :=
  let bitWidth := levelWidth maxLvl in
  match encoding with
  | RLE => Some (MaxRLEBufferSize bitWidth nbuffered + MinRLEBufferSize bitWidth)
  | BIT_PACKED => Some (BytesForBits (i64 (nbuffered * bitWidth)))
  | OtherEncoding => None
  end.

Record LevelEncoder (W : Type) : Type := mkLE {
  le_bitWidth : Z;
  le_rleLen : Z;
  le_encoding : Encoding;
  le_rle : option (RleEncoder W);
  le_bit : option (BitWriter W)
}.
Arguments mkLE {W}.
Arguments le_bitWidth {W}.
Arguments le_rleLen {W}.
Arguments le_encoding {W}.
Arguments le_rle {W}.
Arguments le_bit {W}.

Module LE.
Section Ops.
Context {W : Type} `{WriterAt W}.
Implicit Types l : LevelEncoder W.

Definition Init l (encoding : Encoding) (maxLvl : Z) (w : W) : option (LevelEncoder W) :=
  let bitWidth := levelWidth maxLvl in
  match encoding with
  | RLE => Some (mkLE bitWidth (le_rleLen l) encoding (Some (RE.NewRleEncoder w bitWidth)) (le_bit l))
  | BIT_PACKED => Some (mkLE bitWidth (le_rleLen l) encoding (le_rle l) (Some (BW.NewBitWriter w)))
  | OtherEncoding => None
  end.

Definition Reset l (maxLvl : Z) : option (LevelEncoder W) :=
  let bitWidth := levelWidth maxLvl in
  match le_encoding l with
  | RLE =>
      r <- le_rle l ;;
      let r := RE.Clear r in
      let r := mkRE (re_w r) (re_buffer r) bitWidth (re_curVal r) (re_repCount r) (re_litCount r) (re_litOff r) in
      Some (mkLE bitWidth (le_rleLen l) (le_encoding l) (Some r) (le_bit l))
  | BIT_PACKED =>
      b <- le_bit l ;;
      Some (mkLE bitWidth (le_rleLen l) (le_encoding l) (le_rle l) (Some (BW.Clear b)))
  | OtherEncoding => None
  end.

(** The loop over [WriteValue]: the number of levels before an error. *)
Fixpoint writeLevels (b : BitWriter W) (lvls : list Z) (bitWidth : Z) : BitWriter W * Z * option goerr :=
  match lvls with
  | [] => (b, 0, None)
  | level :: lvls' =>
      match BW.WriteValue b (u64 level) bitWidth with
      | (b1, Some e) => (b1, 0, Some e)
      | (b1, None) => let '(b2, n, e) := writeLevels b1 lvls' bitWidth in (b2, 1 + n, e)
      end
  end.

Definition EncodeNoFlush l (lvls : list Z) : option (LevelEncoder W * Z * option goerr) :=
  match le_encoding l with
  | RLE =>
      r <- le_rle l ;;
      res <- RE.PutBatchLevels r lvls ;;
      let '(r', n, e) := res in
      Some (mkLE (le_bitWidth l) (le_rleLen l) (le_encoding l) (Some r') (le_bit l), n, e)
  | _ =>
      match le_bit l, le_rle l, lvls with
      | Some b, _, _ =>
          let '(b', n, e) := writeLevels b lvls (le_bitWidth l) in
          Some (mkLE (le_bitWidth l) (le_rleLen l) (le_encoding l) (le_rle l) (Some b'), n, e)
      | None, Some _, [] => Some (l, 0, None)
      | _, _, _ => None
      end
  end.

Definition Flush l : option (LevelEncoder W) :=
  match le_encoding l with
  | RLE =>
      r <- le_rle l ;;
      let '(r', n) := RE.Flush r in
      Some (mkLE (le_bitWidth l) n (le_encoding l) (Some r') (le_bit l))
  | _ =>
      b <- le_bit l ;;
      Some (mkLE (le_bitWidth l) (le_rleLen l) (le_encoding l) (le_rle l) (Some (BW.Flush false b)))
  end.

(** [Encode] is [EncodeNoFlush] with a deferred [Flush]. *)
Definition Encode l (lvls : list Z) : option (LevelEncoder W * Z * option goerr) :=
  res <- EncodeNoFlush l lvls ;;
  let '(l1, n, e) := res in
  l2 <- Flush l1 ;;
  Some (l2, n, e).

Definition Len l : option Z := match le_encoding l with RLE => Some (le_rleLen l) | _ => None end.

End Ops.
End LE.

Record LevelDecoder : Type := mkLD {
  ld_bitWidth : Z;
  ld_remaining : Z;
  ld_maxLvl : Z;
  ld_encoding : Encoding;
  ld_rle : option RleDecoder;
  ld_bit : option BitReader
}.

Module LD.

Definition newDecoder : LevelDecoder := mkLD 0 0 0 OtherEncoding None None.

(** A decoder is made or reset over [buf]. *)
Definition resetRle (rle : option RleDecoder) (buf : list Z) (bitWidth : Z) : RleDecoder :=
  match rle with
  | None => RD.NewRleDecoder (BytesReader.new buf) bitWidth
  | Some r => RD.Reset r (BytesReader.new buf) bitWidth
  end.

(** [SetData]: the number of bytes of the levels, or the error. *)
Definition SetData (l : LevelDecoder) (encoding : Encoding) (maxLvl nbuffered : Z) (data : list Z) : LevelDecoder * (Z + goerr) :=
  let bitWidth := levelWidth maxLvl in
  let l1 := mkLD bitWidth nbuffered maxLvl encoding (ld_rle l) (ld_bit l) in
  match encoding with
  | RLE =>
      if len data <? 4 then (l1, inr (ErrMsg "parquet: received invalid levels (corrupt data page?)"))
      else
        let nbytes := i32 (leval (firstn 4 data)) in
        if (nbytes <? 0) || (len data - 4 <? nbytes)
        then (l1, inr (ErrMsg "parquet: received invalid number of bytes (corrupt data page?)"))
        else
          let buf := firstn (Z.to_nat nbytes) (skipn 4 data) in
          (mkLD bitWidth nbuffered maxLvl encoding (Some (resetRle (ld_rle l) buf bitWidth)) (ld_bit l), inl (nbytes + 4))
  | BIT_PACKED =>
      let '(nbits, ok) := Mul nbuffered bitWidth in
      if negb ok then (l1, inr (ErrMsg "parquet: number of buffered values too large (corrupt data page?)"))
      else
        let nbytes := BytesForBits nbits in
        if (nbytes <? 0) || (len data <? nbytes)
        then (l1, inr (ErrMsg "parquet: received invalid number of bytes (corrupt data page?)"))
        else
          let r := match ld_bit l with
                   | None => BR.NewBitReader (BytesReader.new data)
                   | Some b => BR.Reset b (BytesReader.new data)
                   end in
          (mkLD bitWidth nbuffered maxLvl encoding (ld_rle l) (Some r), inl nbytes)
  | OtherEncoding => (l1, inr (ErrMsg "parquet: unknown encoding type for levels"))
  end.

Definition SetDataV2 (l : LevelDecoder) (nbytes maxLvl nbuffered : Z) (data : list Z) : LevelDecoder * option goerr :=
  if (nbytes <? 0) || (len data <? nbytes) then (l, Some (ErrMsg "parquet: invalid page header (corrupt data page?)"))
  else
    let bitWidth := levelWidth maxLvl in
    (mkLD bitWidth nbuffered maxLvl RLE (Some (resetRle (ld_rle l) (firstn (Z.to_nat nbytes) data) bitWidth)) (ld_bit l), None).

(** One batch from whichever decoder is set; for an unknown encoding the variables of the
    loop keep their values, here of an iteration that decodes nothing. *)
Definition getBatch (l : LevelDecoder) (levels : list Z) : option (LevelDecoder * list Z * Z * Z * option goerr) :=
  match ld_encoding l with
  | RLE =>
      r <- ld_rle l ;;
      res <- RDL.GetBatchLevels r levels (ld_maxLvl l) ;;
      let '(r', out, n, c, e) := res in
      Some (mkLD (ld_bitWidth l) (ld_remaining l) (ld_maxLvl l) (ld_encoding l) (Some r') (ld_bit l), out, n, c, e)
  | BIT_PACKED =>
      b <- ld_bit l ;;
      let '(b', out, n, c, e) := BRL.GetBatchLevels b (ld_bitWidth l) levels (ld_maxLvl l) in
      Some (mkLD (ld_bitWidth l) (ld_remaining l) (ld_maxLvl l) (ld_encoding l) (ld_rle l) (Some b'), out, n, c, e)
  | OtherEncoding => Some (l, levels, 0, 0, None)
  end.

(** The loop of [Decode]: the slice afterwards, the number of levels, the number of those equal
    to the maximal level, the error.  Every iteration that goes on decodes a level, so one
    unit of fuel per level is enough. *)
Fixpoint decodeLoop (fuel : nat) (l : LevelDecoder) (levels : list Z) (n : Z) : option (LevelDecoder * list Z * Z * Z * option goerr) :=
  if 0 <? n then
    match fuel with
    | O => None
    | S fuel' =>
        let batch := Z.min 1024 n in
        res <- getBatch l (firstn (Z.to_nat batch) levels) ;;
        let '(l1, out, decoded, maxCount, err) := res in
        let l2 := mkLD (ld_bitWidth l1) (ld_remaining l1 - decoded) (ld_maxLvl l1) (ld_encoding l1) (ld_rle l1) (ld_bit l1) in
        let levels' := out ++ skipn (Z.to_nat batch) levels in
        match err with
        | Some e => Some (l2, levels', decoded, maxCount, Some e)
        | None =>
            if negb (decoded =? batch) then Some (l2, levels', decoded, maxCount, Some ErrUnexpectedEOF)
            else
              rest <- decodeLoop fuel' l2 (skipn (Z.to_nat decoded) levels') (n - decoded) ;;
              let '(l3, tail, m, c, e) := rest in
              Some (l3, firstn (Z.to_nat decoded) levels' ++ tail, decoded + m, maxCount + c, e)
        end
    end
  else Some (l, levels, 0, 0, None).

Definition Decode (l : LevelDecoder) (levels : list Z) : option (LevelDecoder * list Z * Z * Z * option goerr) :=
  let n := Z.min (ld_remaining l) (len levels) in
  decodeLoop (Z.to_nat n) l levels n.

End LD.

(** ** Levels and their width *)

(** Levels of a column whose maximal level is [maxLvl]. *)
Definition levelsOk (maxLvl : Z) (ls : list Z) : Prop := Forall (fun x => 0 <= x <= maxLvl) ls.

Definition maxLvlOk (maxLvl : Z) : Prop := 1 <= maxLvl < 2 ^ 15.

Lemma levelWidth_ok maxLvl : maxLvlOk maxLvl -> 1 <= levelWidth maxLvl <= 15 /\ maxLvl < 2 ^ levelWidth maxLvl.
Proof.
  unfold maxLvlOk. intros Hm. unfold levelWidth, u64. rewrite Z.mod_small by lia.
  destruct (Bits.Len64_fits maxLvl ltac:(lia)) as [H0 Hf]. red in Hf. pose proof (Bits.Len64_le maxLvl 15 ltac:(lia) ltac:(lia)).
  split; [|lia]. split; [|assumption]. destruct (Z.eq_dec (Bits.Len64 maxLvl) 0) as [He|]; [|lia]. rewrite He in Hf. cbn in Hf. lia.
Qed.

Lemma levels_fit maxLvl ls : maxLvlOk maxLvl -> levelsOk maxLvl ls -> Forall (fits (levelWidth maxLvl)) ls.
Proof.
  intros Hm. destruct (levelWidth_ok maxLvl Hm) as [_ Hw]. apply Forall_impl. intros x Hx. red. lia.
Qed.

Lemma levels_i16 maxLvl ls : maxLvlOk maxLvl -> levelsOk maxLvl ls -> map i16 ls = ls.
Proof.
  unfold maxLvlOk. intros Hm Hl. rewrite <- (map_id ls) at 2. apply map_ext_in. intros x Hx.
  unfold levelsOk in Hl. rewrite Forall_forall in Hl. specialize (Hl x Hx). unfold i16. rewrite Z.mod_small; lia.
Qed.

Lemma levelsOk_app m l1 l2 : levelsOk m (l1 ++ l2) <-> levelsOk m l1 /\ levelsOk m l2.
Proof. apply Forall_app. Qed.

(** ** The decoder *)

Lemma rleLoop_width {S} (sk : RD.RunSink S) fuel d s read size d' s' n e :
  RD.rleLoop sk fuel d s read size = Some (d', s', n, e) -> rd_bitWidth d' = rd_bitWidth d.
Proof.
  revert d s read. induction fuel as [|fuel IH]; intros d s read HE; cbn [RD.rleLoop] in HE;
    (destruct (read <? size); [|injection HE as <- _ _ _; reflexivity]); [discriminate|].
  destruct (0 <? rd_repCount d); [apply IH in HE; exact HE|]. destruct (0 <? rd_litCount d).
  - destruct (RD.sk_lit sk _ _ _ _) as [[[b s1] m] err]. destruct err; [injection HE as <- _ _ _; reflexivity|].
    destruct (_ =? _); [apply IH in HE; exact HE|injection HE as <- _ _ _; reflexivity].
  - pose proof (Next_width d) as HW. destruct (RD.Next d) as [d1 [|]]; cbn [fst] in HW; [apply IH in HE; congruence|injection HE as <- _ _ _; exact HW].
Qed.

(** What the decoder has left: the levels [ls], padding apart. *)
Definition srcRel (maxLvl : Z) (l : LevelDecoder) (ls : list Z) : Prop :=
  ld_bitWidth l = levelWidth maxLvl /\ ld_maxLvl l = maxLvl /\ ld_remaining l = len ls /\ levelsOk maxLvl ls /\
  (ld_encoding l = RLE /\ (exists d pad, ld_rle l = Some d /\ rd_bitWidth d = levelWidth maxLvl /\ decRel d (ls ++ pad)) \/
   ld_encoding l = BIT_PACKED /\ (exists b, ld_bit l = Some b /\ brOk b /\
     br_pos b + len ls * levelWidth maxLvl <= 8 * len (br_data b) /\
     fields (br_val b) (br_pos b) (levelWidth maxLvl) (List.length ls) = ls)).

Definition setRemaining (l : LevelDecoder) (n : Z) : LevelDecoder :=
  mkLD (ld_bitWidth l) n (ld_maxLvl l) (ld_encoding l) (ld_rle l) (ld_bit l).

Lemma getBatch_ok maxLvl l ls out :
  maxLvlOk maxLvl -> srcRel maxLvl l ls -> (List.length out <= List.length ls)%nat ->
  let k := List.length out in
  exists l', LD.getBatch l out = Some (l', firstn k ls, Z.of_nat k, BRL.countMax maxLvl (firstn k ls), None) /\
    srcRel maxLvl (setRemaining l' (ld_remaining l' - Z.of_nat k)) (skipn k ls).
Proof.
  intros Hm (Hw & Hmx & Hrem & Hls & Hsrc) HL k. destruct (levelWidth_ok maxLvl Hm) as [Hwid _].
  rewrite <- (firstn_skipn k ls) in Hls. apply levelsOk_app in Hls as [Hl1 Hl2]. pose proof (levels_i16 maxLvl _ Hm Hl1) as Hi1.
  unfold LD.getBatch. destruct Hsrc as [[He (d & pad & Hd & Hdw & HD)]|[He (b & Hb & HO & Hpos & Hf)]]; rewrite He, ?Hd, ?Hb, Hmx; cbn [opt_bind].
  - destruct (GetBatchLevels_rel d _ out maxLvl HD ltac:(lia)) as (d' & HE & HD').
    rewrite length_app, Z.min_l, Nat2Z.id in HE, HD' by lia. specialize (HD' ltac:(lia)). fold k in HE, HD'.
    rewrite firstn_app, skipn_app in *. replace (k - List.length ls)%nat with O in * by lia. rewrite firstn_O, app_nil_r in HE. rewrite skipn_O in HD'.
    rewrite Hi1 in HE. unfold RDL.GetBatchLevels in *.
    destruct (RD.rleLoop _ _ _ _ _ _) as [[[[d1 [[fl o] c]] n] e]|] eqn:EL; [|discriminate]. apply rleLoop_width in EL.
    apply Some_inj in HE. rewrite HE. cbn [opt_bind]. rewrite (skipn_all2 out) by lia. rewrite app_nil_r.
    assert (d1 = d') by congruence. subst d1. eexists. split; [reflexivity|].
    split; [exact Hw|]. split; [reflexivity|]. split; [cbn [setRemaining ld_remaining]; rewrite length_skipn, Hrem; lia|]. split; [exact Hl2|].
    left. split; [reflexivity|]. exists d', pad. splits; auto. congruence.
  - rewrite Hw. destruct (GetBatchLevels_ok b (levelWidth maxLvl) out maxLvl HO ltac:(lia)) as (b' & HE & HM); [nia|].
    fold k in HE, HM. rewrite <- Hf in Hi1 at 1.
    replace (List.length ls) with (k + (List.length ls - k))%nat in Hf, Hi1 by lia. rewrite fields_app in Hf, Hi1.
    assert (HLk : List.length (fields (br_val b) (br_pos b) (levelWidth maxLvl) k) = k) by apply length_fields.
    rewrite firstn_app, HLk, Nat.sub_diag, firstn_O, app_nil_r, firstn_all2 in Hi1 by lia.
    rewrite Hi1 in HE. rewrite HE. eexists. split; [reflexivity|].
    split; [reflexivity|]. split; [reflexivity|]. split; [cbn [setRemaining ld_remaining]; rewrite length_skipn, Hrem; lia|]. split; [exact Hl2|].
    right. split; [reflexivity|]. destruct (movedTo_val _ _ _ HM) as (HV & HD & HP). exists b'. rewrite HV, HD, HP, length_skipn. splits; auto.
    + apply HM.
    + nia.
    + rewrite <- Hf at 2. rewrite skipn_app, HLk, Nat.sub_diag, skipn_O, skipn_all2 by lia. reflexivity.
Qed.

Lemma decodeLoop_levels maxLvl fuel l ls levels n :
  maxLvlOk maxLvl -> srcRel maxLvl l ls -> (n <= List.length ls)%nat -> (n <= List.length levels)%nat -> (n <= fuel)%nat ->
  exists l', LD.decodeLoop fuel l levels (Z.of_nat n)
      = Some (l', firstn n ls ++ skipn n levels, Z.of_nat n, BRL.countMax maxLvl (firstn n ls), None) /\
    srcRel maxLvl l' (skipn n ls).
Proof.
  intros Hm. revert l ls levels n. induction fuel as [|fuel IH]; intros l ls levels n Hs Hn HL Hf.
  { assert (n = O) by lia. subst n. exists l. auto. }
  destruct n as [|n']; [exists l; auto|]. set (n := S n') in *. cbn [LD.decodeLoop]. bool_lia (0 <? Z.of_nat n).
  set (k := Nat.min 1024 n). replace (Z.min 1024 (Z.of_nat n)) with (Z.of_nat k) by lia. rewrite Nat2Z.id.
  assert (HLk : List.length (firstn k levels) = k) by (rewrite length_firstn; lia).
  destruct (getBatch_ok maxLvl l ls (firstn k levels) Hm Hs ltac:(lia)) as (l1 & -> & Hs1). rewrite HLk in *. cbn [opt_bind].
  rewrite Z.eqb_refl. cbn [negb]. rewrite Nat2Z.id. fold (setRemaining l1 (ld_remaining l1 - Z.of_nat k)).
  assert (HLs : List.length (firstn k ls) = k) by (rewrite length_firstn; lia).
  destruct (filled_parts (firstn k ls) levels k HLs) as [-> ->].
  replace (Z.of_nat n - Z.of_nat k) with (Z.of_nat (n - k)) by lia.
  destruct (IH _ _ (skipn k levels) (n - k)%nat Hs1) as (l' & -> & Hs'); try (rewrite length_skipn; lia); [lia|]. cbn [opt_bind].
  rewrite !skipn_skipn in *. replace (n - k + k)%nat with n in * by lia. exists l'. split; [|exact Hs'].
  assert (Hfn : firstn k ls ++ firstn (n - k) (skipn k ls) = firstn n ls).
  { rewrite <- (firstn_skipn k (firstn n ls)), firstn_firstn, Nat.min_l, firstn_skipn_comm by lia. do 3 f_equal. lia. }
  rewrite app_assoc, <- countMax_app, Hfn. do 4 f_equal. lia.
Qed.

(** [Decode] delivers the next levels, as many as the slice holds. *)
Lemma levelDecode_ok maxLvl l ls levels :
  maxLvlOk maxLvl -> srcRel maxLvl l ls ->
  let k := Nat.min (List.length levels) (List.length ls) in
  exists l', LD.Decode l levels
      = Some (l', firstn k ls ++ skipn k levels, Z.of_nat k, BRL.countMax maxLvl (firstn k ls), None) /\
    srcRel maxLvl l' (skipn k ls).
Proof.
  intros Hm Hs k. pose proof Hs as (_ & _ & Hrem & _). unfold LD.Decode. rewrite Hrem.
  replace (Z.min (len ls) (len levels)) with (Z.of_nat k) by lia. rewrite Nat2Z.id. apply decodeLoop_levels; auto; lia.
Qed.

(** The scratch array of a reader that is reused. *)
Definition rawOk (b : BitReader) : Prop := bytes (br_raw b) /\ List.length (br_raw b) = 8%nat.

Definition ldOk (l : LevelDecoder) : Prop :=
  (forall r, ld_rle l = Some r -> rawOk (rd_r r)) /\ (forall b, ld_bit l = Some b -> rawOk b).

Lemma Reset_raw b d : rawOk b -> bytes d -> brOk (BR.Reset b (BytesReader.new d)).
Proof. intros Hr Hd. constructor; cbn; auto; lia. Qed.

Lemma resetRle_rel rle w runs :
  (forall r, rle = Some r -> rawOk (rd_r r)) -> 1 <= w <= 64 -> runsOk w runs -> dataFits (encodes w runs) ->
  decRel (LD.resetRle rle (encodes w runs) w) (expand runs) /\ rd_bitWidth (LD.resetRle rle (encodes w runs) w) = w.
Proof.
  intros Hr Hw Hok Hf. destruct rle as [r|]; cbn [LD.resetRle]; [|split; [now apply NewRleDecoder_rel|reflexivity]].
  split; [|reflexivity]. exists runs, 0. constructor; cbn [RD.Reset rd_r rd_bitWidth rd_repCount rd_litCount rd_curVal];
    auto; try (unfold MaxInt32; lia). apply Reset_raw; [now apply Hr|]. apply encodes_bytes; [lia|assumption].
Qed.

(** ** The encoder *)

Section Encoder.
Context {W : Type} `{WOk : WriterAtOk W}.
Implicit Types l : LevelEncoder W.

(** Batches one after the other; [None] is a panic or an error. *)
Fixpoint encodeAll l (batches : list (list Z)) : option (LevelEncoder W * Z) :=
  match batches with
  | [] => Some (l, 0)
  | b :: batches' =>
      match LE.EncodeNoFlush l b with
      | Some (l1, n, None) => r <- encodeAll l1 batches' ;; let '(l2, m) := r in Some (l2, n + m)
      | _ => None
      end
  end.

Lemma sizeFor_mono w n m : 1 <= w -> n <= m -> sizeFor w n <= sizeFor w m.
Proof. intros Hw Hn. unfold sizeFor. assert ((n + 7) / 8 <= (m + 7) / 8) by (apply Z.div_le_mono; lia). nia. Qed.

Lemma encodeAll_rle R w batches l e vs :
  le_encoding l = RLE -> le_rle l = Some e -> encRel R w e vs -> Forall (fits w) (List.concat batches) ->
  len vs + len (List.concat batches) <= MaxInt32 -> sizeFor w (len vs + len (List.concat batches)) <= R ->
  exists l' e', encodeAll l batches = Some (l', len (List.concat batches)) /\
    le_encoding l' = RLE /\ le_rle l' = Some e' /\ encRel R w e' (vs ++ List.concat batches).
Proof.
  revert l e vs. induction batches as [|b batches IH]; intros l e vs Hl He HE HF Hmax HR; cbn [encodeAll List.concat] in *.
  { exists l, e. rewrite app_nil_r. auto. }
  destruct (encRel_rep _ _ _ _ HE) as [_ Hw]. apply Forall_app in HF as [HF1 HF2]. rewrite length_app, Nat2Z.inj_add in *.
  assert (Hsz : sizeFor w (len vs + len b) <= R) by (etransitivity; [apply (sizeFor_mono w _ (len vs + (len b + len (List.concat batches)))); lia|exact HR]).
  destruct (PutBatchLevels_puts R w e vs b HE HF1 ltac:(lia) Hsz) as (e1 & HP & Hputs).
  destruct (puts_ok R w e vs b HE HF1 ltac:(lia) Hsz) as (e1' & Hputs' & HE1). assert (e1' = e1) by congruence. subst e1'.
  unfold LE.EncodeNoFlush. rewrite Hl, He. cbn [opt_bind]. rewrite HP. cbn [opt_bind].
  set (l1 := mkLE _ _ _ _ _).
  destruct (IH l1 e1 (vs ++ b) eq_refl eq_refl HE1 HF2) as (l' & e' & -> & H1 & H2 & H3);
    [rewrite length_app; lia|rewrite length_app, Nat2Z.inj_add, <- Z.add_assoc; exact HR|].
  cbn [opt_bind]. exists l', e'. rewrite app_assoc. splits; auto.
Qed.

(** Bit-packed. *)
Lemma writeLevels_ok R b pre v n w ls :
  bwAt R b pre v n -> 0 <= w <= 64 -> Forall (fits w) ls -> 0 <= n -> len pre + (n + len ls * w + 7) / 8 <= R ->
  exists b', LE.writeLevels b ls w = (b', len ls, None) /\ bwAt R b' pre (v + 2 ^ n * packed w ls) (n + len ls * w).
Proof.
  intros HA Hw HF Hn HR. revert b v n HA Hn HR. induction HF as [|x ls Hx _ IH]; intros b v n HA Hn HR.
  { exists b. cbn [LE.writeLevels packed List.length]. rewrite Z.mul_0_r, Z.mul_0_l, !Z.add_0_r. auto. }
  cbn [List.length] in *. rewrite Nat2Z.inj_succ, Z.mul_succ_l in HR. cbn [LE.writeLevels].
  assert (Hu : u64 x = x) by (unfold u64; apply Z.mod_small; red in Hx; pose proof (pow2_le w 64); lia). rewrite Hu.
  destruct (WriteValue_ok R b pre v n x w) as (b1 & -> & HA1); auto.
  { assert ((n + w + 7) / 8 <= (n + (len ls * w + w) + 7) / 8) by (apply Z.div_le_mono; nia). lia. }
  destruct (IH b1 _ _ HA1) as (b' & -> & HA'); [lia|replace (n + w + len ls * w) with (n + (len ls * w + w)) by lia; exact HR|].
  exists b'. split; [rewrite Nat2Z.inj_succ; do 2 f_equal; lia|]. cbn [packed].
  replace (v + 2 ^ n * (x + 2 ^ w * packed w ls)) with (v + 2 ^ n * x + 2 ^ (n + w) * packed w ls)
    by (rewrite Z.pow_add_r by lia; ring).
  replace (n + Z.of_nat (S (List.length ls)) * w) with (n + w + len ls * w) by lia. exact HA'.
Qed.

Lemma encodeAll_bits R w batches l b vs :
  le_encoding l = BIT_PACKED -> le_bit l = Some b -> le_bitWidth l = w -> 0 <= w <= 64 ->
  bwAt R b [] (packed w vs) (len vs * w) -> Forall (fits w) (List.concat batches) ->
  ((len vs + len (List.concat batches)) * w + 7) / 8 <= R ->
  exists l' b', encodeAll l batches = Some (l', len (List.concat batches)) /\
    le_encoding l' = BIT_PACKED /\ le_bit l' = Some b' /\
    bwAt R b' [] (packed w (vs ++ List.concat batches)) (len (vs ++ List.concat batches) * w).
Proof.
  revert l b vs. induction batches as [|ls batches IH]; intros l b vs Hl Hb Hlw Hw HA HF HR; cbn [encodeAll List.concat] in *.
  { exists l, b. rewrite app_nil_r. auto. }
  apply Forall_app in HF as [HF1 HF2]. rewrite length_app, Nat2Z.inj_add in HR.
  unfold LE.EncodeNoFlush. rewrite Hl, Hb, Hlw. cbn [opt_bind].
  destruct (writeLevels_ok R b [] _ _ w ls HA Hw HF1) as (b1 & -> & HA1); [lia| |].
  { cbn [List.length Z.of_nat]. etransitivity; [|exact HR]. assert (0 <= len (List.concat batches) * w) by nia.
    etransitivity; [|apply Z.div_le_mono; [lia|]]; [rewrite Z.add_0_l; reflexivity|nia]. }
  rewrite <- packed_app, <- Z.mul_add_distr_r, <- Nat2Z.inj_add, <- length_app in HA1 by lia. cbv iota beta.
  destruct (IH (mkLE w (le_rleLen l) BIT_PACKED (le_rle l) (Some b1)) b1 (vs ++ ls) eq_refl eq_refl eq_refl Hw HA1 HF2)
    as (l' & b' & -> & H1 & H2 & H3); [rewrite length_app, Nat2Z.inj_add, <- Z.add_assoc; exact HR|].
  cbn [opt_bind]. exists l', b'. rewrite app_assoc. splits; auto. now rewrite length_app, Nat2Z.inj_add.
Qed.
End Encoder.

(** ** Claims *)

(** Decoding into one slice after another: the levels delivered and the number of maximal
    ones; [None] is a panic or an error. *)
Fixpoint decodeLevels (l : LevelDecoder) (outs : list (list Z)) : option (list Z * Z) :=
  match outs with
  | [] => Some ([], 0)
  | out :: outs' =>
      match LD.Decode l out with
      | Some (l1, out', n, c, None) =>
          r <- decodeLevels l1 outs' ;; let '(ls, m) := r in Some (firstn (Z.to_nat n) out' ++ ls, c + m)
      | _ => None
      end
  end.

Lemma decodeLevels_ok maxLvl outs l ls :
  maxLvlOk maxLvl -> srcRel maxLvl l ls -> List.length (List.concat outs) = List.length ls ->
  decodeLevels l outs = Some (ls, BRL.countMax maxLvl ls).
Proof.
  intros Hm. revert l ls. induction outs as [|out outs IH]; intros l ls Hs HL; cbn [decodeLevels List.concat] in *.
  { destruct ls; [reflexivity|discriminate]. }
  rewrite length_app in HL. destruct (levelDecode_ok maxLvl l ls out Hm Hs) as (l1 & -> & Hs1).
  rewrite Nat.min_l in * by lia. rewrite Nat2Z.id, (skipn_all out), app_nil_r in *.
  rewrite (IH l1 _ Hs1) by (rewrite length_skipn; lia). cbn [opt_bind].
  rewrite (firstn_all2 (firstn _ ls)) by (rewrite length_firstn; lia). now rewrite <- countMax_app, firstn_skipn.
Qed.

(** The decoder over an RLE stream of the levels, with the length before it or in the header. *)
Lemma setData_rle maxLvl ld ls runs k tail :
  maxLvlOk maxLvl -> ldOk ld -> levelsOk maxLvl ls -> runsOk (levelWidth maxLvl) runs -> expand runs = ls ++ repeat 0 k ->
  len (encodes (levelWidth maxLvl) runs) <= MaxInt32 ->
  let data := encodes (levelWidth maxLvl) runs in
  (exists ld1, LD.SetData ld RLE maxLvl (len ls) (lebytes 4 (len data) ++ data ++ tail) = (ld1, inl (len data + 4)) /\ srcRel maxLvl ld1 ls) /\
  (exists ld2, LD.SetDataV2 ld (len data) maxLvl (len ls) (data ++ tail) = (ld2, None) /\ srcRel maxLvl ld2 ls).
Proof.
  intros Hm [Hraw _] Hls Hok Hexp HL data. destruct (levelWidth_ok maxLvl Hm) as [Hw _]. fold data in HL. unfold MaxInt32 in HL.
  destruct (resetRle_rel (ld_rle ld) (levelWidth maxLvl) runs Hraw ltac:(lia) Hok) as [HD HW]; [unfold dataFits; fold data; lia|].
  fold data in HD, HW.
  assert (Hsrc : srcRel maxLvl (mkLD (levelWidth maxLvl) (len ls) maxLvl RLE (Some (LD.resetRle (ld_rle ld) data (levelWidth maxLvl))) (ld_bit ld)) ls).
  { split; [reflexivity|]. split; [reflexivity|]. split; [reflexivity|]. split; [assumption|]. left. split; [reflexivity|].
    eexists _, (repeat 0 k). splits; [reflexivity|exact HW|now rewrite <- Hexp]. }
  split.
  - unfold LD.SetData. rewrite !length_app, length_lebytes. bool_lia (Z.of_nat (4 + (List.length data + List.length tail)) <? 4).
    assert (H4 : firstn 4 (lebytes 4 (len data) ++ data ++ tail) = lebytes 4 (len data) /\ skipn 4 (lebytes 4 (len data) ++ data ++ tail) = data ++ tail)
      by (split; reflexivity).
    destruct H4 as [-> ->]. rewrite leval_lebytes. change (2 ^ (8 * Z.of_nat 4)) with (2 ^ 32).
    assert (Hi : i32 (len data mod 2 ^ 32) = len data) by (rewrite (Z.mod_small (len data)) by lia; unfold i32; rewrite Z.mod_small; lia).
    rewrite Hi. bool_lia (len data <? 0). bool_lia (Z.of_nat (4 + (List.length data + List.length tail)) - 4 <? len data). cbn [orb].
    rewrite Nat2Z.id, firstn_app, firstn_all, Nat.sub_diag, firstn_O, app_nil_r. eauto.
  - unfold LD.SetDataV2. rewrite length_app. bool_lia (len data <? 0). bool_lia (Z.of_nat (List.length data + List.length tail) <? len data). cbn [orb].
    rewrite Nat2Z.id, firstn_app, firstn_all, Nat.sub_diag, firstn_O, app_nil_r. eauto.
Qed.

(** The decoder over a bit-packed page. *)
Lemma setData_bits maxLvl ld ls tail :
  maxLvlOk maxLvl -> ldOk ld -> levelsOk maxLvl ls -> len ls <= 2147483647 -> bytes tail ->
  let w := levelWidth maxLvl in
  let n := (len ls * w + 7) / 8 in
  exists d, LD.SetData ld BIT_PACKED maxLvl (len ls) (lebytes (Z.to_nat n) (packed w ls) ++ tail) = (d, inl n) /\ srcRel maxLvl d ls.
Proof.
  intros Hm [_ Hraw] Hls HL Htl w n. destruct (levelWidth_ok maxLvl Hm) as [Hw _]. fold w in Hw.
  assert (Hn : 0 <= n) by (apply Z.div_pos; nia). assert (Hn8 : len ls * w <= 8 * n) by (subst n; zdiv).
  assert (Hrng : 0 <= len ls * w <= 15 * 2147483647) by nia.
  unfold LD.SetData. fold w. rewrite Mul_ok by (unfold inS; change (2 ^ (64 - 1)) with 9223372036854775808; lia).
  rewrite i64_small by lia. bool_lia (- 2 ^ 63 <=? len ls * w). bool_lia (len ls * w <? 2 ^ 63). cbn [andb negb]. rewrite BytesForBits_div by nia. fold n.
  set (D := lebytes (Z.to_nat n) (packed w ls)). assert (HLD : len D = n) by (subst D; rewrite length_lebytes; lia).
  rewrite length_app. bool_lia (n <? 0). bool_lia (Z.of_nat (List.length D + List.length tail) <? n). cbn [orb].
  set (r := match ld_bit ld with None => _ | Some _ => _ end).
  assert (Hb : bytes (D ++ tail)) by (apply bytes_app; split; [subst D; auto with gobytes|assumption]).
  assert (Hr : brOk r /\ br_data r = D ++ tail /\ br_pos r = 0).
  { subst r. destruct (ld_bit ld) as [b|]; (split; [|split; reflexivity]); [now apply Reset_raw, Hb; apply Hraw|now apply NewBitReader_ok]. }
  destruct Hr as (HO & HD & HP). eexists. split; [reflexivity|]. split; [reflexivity|]. split; [reflexivity|]. split; [reflexivity|]. split; [assumption|].
  right. split; [reflexivity|]. exists r. unfold br_val. rewrite HD, HP. splits; auto.
  - rewrite length_app. fold w. lia.
  - fold w. transitivity (fields (packed w ls) 0 w (List.length ls)); [|apply fields_packed; [lia|now apply levels_fit]].
    apply fields_ext. intros j Hj. rewrite field_leval_app by (rewrite ?HLD; nia). subst D. rewrite leval_lebytes, field_mod by nia. reflexivity.
Qed.

Section Claims.
Context {W : Type} `{WOk : WriterAtOk W}.

(** C12: levels in any batches through the RLE level encoder, into a writer with as much room as
    [LevelEncodingMaxBufferSize] says, and through the level decoder, into slices of any
    sizes: no error, the same levels, and the number of maximal ones.  This holds for data
    page v1, where the length precedes the levels, and v2, where it is in the page header;
    what follows the levels in the page does not matter. *)
Theorem levels_rle_roundtrip (l0 : LevelEncoder W) (wr : W) maxLvl batches sz :
  wok wr -> maxLvlOk maxLvl -> levelsOk maxLvl (List.concat batches) -> len (List.concat batches) <= MaxInt32 ->
  LevelEncodingMaxBufferSize RLE maxLvl (len (List.concat batches)) = Some sz -> sz <= MaxInt32 -> room wr sz ->
  exists l1 l2 l3 e n, LE.Init l0 RLE maxLvl wr = Some l1 /\ encodeAll l1 batches = Some (l2, len (List.concat batches)) /\
    LE.Flush l2 = Some l3 /\ le_rle l3 = Some e /\ LE.Len l3 = Some n /\ 0 <= n <= sz /\
    forall ld tail outs, ldOk ld -> List.length (List.concat outs) = List.length (List.concat batches) ->
      let data := firstn (Z.to_nat n) (wbuf (bw_wr (re_w e))) in
      let res := Some (List.concat batches, BRL.countMax maxLvl (List.concat batches)) in
      (exists d1, LD.SetData ld RLE maxLvl (len (List.concat batches)) (lebytes 4 n ++ data ++ tail) = (d1, inl (n + 4)) /\
        decodeLevels d1 outs = res) /\
      (exists d2, LD.SetDataV2 ld n maxLvl (len (List.concat batches)) (data ++ tail) = (d2, None) /\ decodeLevels d2 outs = res).
Proof.
  intros Hok Hm Hls Hn Hsz Hmax Hroom. set (ls := List.concat batches) in *. destruct (levelWidth_ok maxLvl Hm) as [Hw _].
  set (w := levelWidth maxLvl) in *. cbn [LevelEncodingMaxBufferSize] in Hsz. apply Some_inj in Hsz. fold w in Hsz.
  assert (Hmin : 0 <= MinRLEBufferSize w).
  { unfold MinRLEBufferSize. rewrite !BytesForBits_div by (unfold MaxValuesPerLiteralRun; lia). unfold MaxValuesPerLiteralRun. zdiv. }
  rewrite MaxRLEBufferSize_sizeFor in Hsz by lia.
  assert (HR : room wr (sizeFor w (len ls))) by (eapply room_le; [exact Hroom|lia]).
  destruct (encodeAll_rle (sizeFor w (len ls)) w batches (mkLE w (le_rleLen l0) RLE (Some (RE.NewRleEncoder wr w)) (le_bit l0)) _ []
              eq_refl eq_refl (NewRleEncoder_rel _ w wr ltac:(lia) Hok HR) (levels_fit maxLvl ls Hm Hls) Hn (Z.le_refl _))
    as (l2 & e2 & HE & Hl2 & He2 & Hrel). cbn [app] in Hrel. fold ls in Hrel, HE.
  destruct (Flush_rel _ w e2 ls Hrel Hn (Z.le_refl _)) as (e3 & runs & k & HF & Hro & _ & Hexp & Hlen & Hbuf).
  eexists _, l2, _, e3, (len (encodes w runs)). split; [reflexivity|]. split; [exact HE|].
  split; [unfold LE.Flush; rewrite Hl2, He2; cbn [opt_bind]; rewrite HF; reflexivity|]. split; [reflexivity|]. split; [reflexivity|].
  split; [lia|]. intros ld tail outs Hld Ho. rewrite Nat2Z.id, Hbuf.
  destruct (setData_rle maxLvl ld ls runs k tail Hm Hld Hls Hro Hexp ltac:(fold w; lia)) as [(d1 & H1 & Hs1) (d2 & H2 & Hs2)].
  split; [exists d1|exists d2]; (split; [assumption|now apply decodeLevels_ok]).
Qed.

(** The same for the bit-packed encoding: the encoder fills exactly the bytes
    [LevelEncodingMaxBufferSize] says, the decoder takes that many. *)
Theorem levels_bitpacked_roundtrip (l0 : LevelEncoder W) (wr : W) maxLvl batches sz :
  wok wr -> maxLvlOk maxLvl -> levelsOk maxLvl (List.concat batches) -> len (List.concat batches) <= MaxInt32 ->
  LevelEncodingMaxBufferSize BIT_PACKED maxLvl (len (List.concat batches)) = Some sz -> room wr sz ->
  exists l1 l2 l3 b, LE.Init l0 BIT_PACKED maxLvl wr = Some l1 /\ encodeAll l1 batches = Some (l2, len (List.concat batches)) /\
    LE.Flush l2 = Some l3 /\ le_bit l3 = Some b /\ BW.Written b = sz /\
    forall ld tail outs, ldOk ld -> bytes tail -> List.length (List.concat outs) = List.length (List.concat batches) ->
      exists d, LD.SetData ld BIT_PACKED maxLvl (len (List.concat batches)) (firstn (Z.to_nat sz) (wbuf (bw_wr b)) ++ tail) = (d, inl sz) /\
        decodeLevels d outs = Some (List.concat batches, BRL.countMax maxLvl (List.concat batches)).
Proof.
  intros Hok Hm Hls Hn Hsz Hroom. set (ls := List.concat batches) in *. destruct (levelWidth_ok maxLvl Hm) as [Hw _].
  set (w := levelWidth maxLvl) in *. unfold MaxInt32 in Hn. cbn [LevelEncodingMaxBufferSize] in Hsz. apply Some_inj in Hsz. fold w in Hsz.
  assert (Hrng : 0 <= len ls * w <= 15 * 2147483647) by nia. rewrite i64_small, BytesForBits_div in Hsz by lia. pose proof (levels_fit maxLvl ls Hm Hls) as HF. fold w in HF.
  destruct (encodeAll_bits sz w batches (mkLE w (le_rleLen l0) BIT_PACKED (le_rle l0) (Some (BW.NewBitWriter wr))) _ []
              eq_refl eq_refl eq_refl ltac:(lia) (bwAligned_at _ _ _ (NewBitWriter_aligned sz wr Hok Hroom)) HF)
    as (l2 & b2 & HE & Hl2 & Hb2 & HA); [cbn [List.length Z.of_nat]; fold ls; rewrite Z.add_0_l; lia|]. cbn [app] in HA. fold ls in HA, HE.
  destruct (Flush_ok sz b2 [] _ _ false HA ltac:(cbn [List.length Z.of_nat]; lia)) as (Hh & _ & HA'). specialize (HA' eq_refl).
  pose proof (Written_at _ _ _ _ _ HA') as HW. cbn [List.length Z.of_nat] in HW. rewrite Z.add_0_l in HW.
  eexists _, l2, _, (BW.Flush false b2). split; [reflexivity|]. split; [exact HE|].
  split; [unfold LE.Flush; rewrite Hl2, Hb2; reflexivity|]. split; [reflexivity|]. split; [rewrite HW; exact Hsz|].
  intros ld tail outs Hld Htl Ho. unfold flushed in Hh. cbn [app] in Hh. apply holds_firstn in Hh. rewrite length_lebytes, Hsz in Hh. rewrite Hh.
  set (D := lebytes (Z.to_nat sz) (packed w ls)). assert (Hszn : 0 <= sz) by (rewrite <- Hsz; apply Z.div_pos; nia).
  assert (HLD : len D = sz) by (subst D; rewrite length_lebytes; lia).
  destruct (setData_bits maxLvl ld ls tail Hm Hld Hls Hn Htl) as (d & HS & Hsrc). fold w in HS. rewrite Hsz in HS. exists d.
  split; [exact HS|]. now apply decodeLevels_ok.
Qed.

End Claims.

Definition lvlBatches : list (list Z) := [[0; 3; 1]; []; repeat 3 20; [2; 0; 2; 1; 3]].

Lemma newDecoder_ok : ldOk LD.newDecoder.
Proof. split; intros ? H; discriminate. Qed.

Lemma levels_rle_witness :
  let wr := WriterAtBuffer.new (repeat 0 200) in
  let l0 := mkLE 0 0 OtherEncoding None None in
  exists l1 l2 l3 e n, LE.Init l0 RLE 3 wr = Some l1 /\ encodeAll l1 lvlBatches = Some (l2, len (List.concat lvlBatches)) /\
    LE.Flush l2 = Some l3 /\ le_rle l3 = Some e /\ LE.Len l3 = Some n /\ 0 <= n <= 141 /\
    forall ld tail outs, ldOk ld -> List.length (List.concat outs) = List.length (List.concat lvlBatches) ->
      let data := firstn (Z.to_nat n) (wbuf (bw_wr (re_w e))) in
      let res := Some (List.concat lvlBatches, BRL.countMax 3 (List.concat lvlBatches)) in
      (exists d1, LD.SetData ld RLE 3 (len (List.concat lvlBatches)) (lebytes 4 n ++ data ++ tail) = (d1, inl (n + 4)) /\
        decodeLevels d1 outs = res) /\
      (exists d2, LD.SetDataV2 ld n 3 (len (List.concat lvlBatches)) (data ++ tail) = (d2, None) /\ decodeLevels d2 outs = res).
Proof.
  apply (levels_rle_roundtrip (mkLE 0 0 OtherEncoding None None) (WriterAtBuffer.new (repeat 0 200)) 3 lvlBatches 141);
    [apply (bytes_repeat0 200)|red; lia|repeat constructor; lia|vm_compute; discriminate|vm_compute; reflexivity|vm_compute; discriminate|cbn; lia].
Defined.

