(* ===== verification/Memory.v ===== *)
(** * Growable memory (arrow/memory/buffer.go, parquet/internal/encoding/types.go)

    [Buffer] is a resizable [memory.Buffer] over the Go allocator; reference counts are not
    modelled.  [PooledBufferWriter] is the sink of the parquet encoders: a buffer that grows as
    it is written to.  It is shown to keep the contract [WriterAtOk], so everything proved of
    [BitWriter] and [RleEncoder] over an abstract writer holds over it.  Sizes are below 2^62:
    beyond that [NextPowerOf2] overflows. *)

From Stdlib Require Import ZArith List Lia Bool.
From S2P Require Import Prelude GoStd BitUtil BitWriter.
Import ListNotations.
#[local] Open Scope Z_scope.
#[local] Open Scope go_scope.

Definition roundToPowerOf2 (v round : Z) : Z :=
  let forceCarry := round - 1 in (v + forceCarry) & Z.lnot forceCarry.

Definition roundUpToMultipleOf64 (v : Z) : Z := roundToPowerOf2 v 64.

Module Buffer.

(** [buf] is the slice, [spare] the bytes between its length and its capacity. *)
Record t : Type := mk { buf : list Z; spare : list Z; length : Z }.

(** [GoAllocator.Allocate(size)]: fresh memory is zero. *)
Definition Allocate (size : Z) : list Z * list Z := (repeat 0 (Z.to_nat size), []).

(** [GoAllocator.Reallocate(size, b)]: within the capacity the slice is moved, otherwise
    its bytes are copied to fresh memory. *)
Definition Reallocate (size : Z) (b sp : list Z) : list Z * list Z :=
  if size <=? len b + len sp
  then (firstn (Z.to_nat size) (b ++ sp), skipn (Z.to_nat size) (b ++ sp))
  else (splice (fst (Allocate size)) 0 b, []).

Definition NewResizableBuffer : t := mk [] [] 0.

Definition Buf (b : t) : list Z := buf b.
Definition Bytes (b : t) : list Z := firstn (Z.to_nat (length b)) (buf b).
Definition Len (b : t) : Z := length b.
Definition Cap (b : t) : Z := len (buf b).

Definition Reserve (b : t) (capacity : Z) : t :=
  if len (buf b) <? capacity then
    let newCap := roundUpToMultipleOf64 capacity in
    let '(nb, sp) := if len (buf b) =? 0 then Allocate newCap else Reallocate newCap (buf b) (spare b) in
    mk nb sp (length b)
  else b.

Definition resize (b : t) (newSize : Z) (shrink : bool) : t :=
  let b1 :=
    if negb shrink || (length b <? newSize) then Reserve b newSize
    else
      let newCap := roundUpToMultipleOf64 newSize in
      if negb (len (buf b) =? newCap) then
        if newSize =? 0 then mk [] [] (length b)
        else let '(nb, sp) := Reallocate newCap (buf b) (spare b) in mk nb sp (length b)
      else b in
  mk (buf b1) (spare b1) newSize.

Definition Resize (b : t) (newSize : Z) : t := resize b newSize true.
Definition ResizeNoShrink (b : t) (newSize : Z) : t := resize b newSize false.

End Buffer.

Module PooledBufferWriter.

(** [fresh], an argument below, is the buffer [bufferPool.Get()] returns. *)
Record t : Type := mk { buf : Buffer.t; pos : Z; offset : Z }.

(** The loop [for newCap < b.pos+nbytes]; [None] when the fuel is used up. *)
Fixpoint growLoop (fuel : nat) (newCap need : Z) : option Z :=
  match fuel with
  | O => None
  | S fuel => if newCap <? need then growLoop fuel (NextPowerOf2 need) need else Some newCap
  end.

(** The body of the loop runs at most once for sizes below 2^62 ([growLoop_once]), so it is a
    conditional here; above, [NextPowerOf2] overflows and Go's loop does not end. *)
Definition Reserve (b : t) (nbytes : Z) : t :=
  let newCap0 := Z.max (Buffer.Cap (buf b)) 256 in
  let newCap := if newCap0 <? pos b + nbytes then NextPowerOf2 (pos b + nbytes) else newCap0 in
  mk (Buffer.Reserve (buf b) newCap) (pos b) (offset b).

Definition NewPooledBufferWriter (fresh : Buffer.t) (initial : Z) : t := Reserve (mk fresh 0 0) initial.

Definition SetOffset (b : t) (off : Z) : t := mk (buf b) (pos b - offset b + off) off.

(** The old buffer goes back to the pool. *)
Definition Reset (fresh : Buffer.t) (b : t) (initial : Z) : t := Reserve (mk fresh 0 0) initial.

Definition Finish (fresh : Buffer.t) (b : t) : t * Buffer.t :=
  let buf1 := if Buffer.Len (buf b) <? pos b then Buffer.ResizeNoShrink (buf b) (pos b) else buf b in
  (Reset fresh (mk buf1 (pos b) (offset b)) 0, buf1).

Definition writeAt (b : t) (p : list Z) (off : Z) : t * Z * option goerr :=
  if len p =? 0 then (b, 0, None)
  else
    let off := off + offset b in
    let need := off + len p in
    let b1 := if Buffer.Cap (buf b) <=? need then Reserve b (need - pos b) else b in
    let n := Z.min (len p) (Buffer.Cap (buf b1) - off) in
    let buf1 := Buffer.mk (splice (Buffer.buf (buf b1)) (Z.to_nat off) p) (Buffer.spare (buf b1)) (Buffer.length (buf b1)) in
    let buf2 := if Buffer.Len buf1 <? need then Buffer.ResizeNoShrink buf1 need else buf1 in
    (mk buf2 (pos b1) (offset b1), n, None).

Definition UnsafeWrite (b : t) (p : list Z) : t * Z :=
  let n := Z.min (len p) (Buffer.Cap (buf b) - pos b) in
  (mk (Buffer.mk (splice (Buffer.buf (buf b)) (Z.to_nat (pos b)) p) (Buffer.spare (buf b)) (Buffer.length (buf b)))
      (pos b + n) (offset b), n).

Definition Write (b : t) (p : list Z) : t * Z :=
  if len p =? 0 then (b, 0) else UnsafeWrite (Reserve b (len p)) p.

Definition Tell (b : t) : Z := pos b.

Definition sync (b : t) : t :=
  if Buffer.Len (buf b) <? pos b then mk (Buffer.ResizeNoShrink (buf b) (pos b)) (pos b) (offset b) else b.

Definition Bytes (b : t) : list Z := skipn (Z.to_nat (offset b)) (Buffer.Bytes (buf (sync b))).
Definition LenOf (b : t) : Z := Buffer.Len (buf (sync b)) - offset b.

#[export] Instance WriterAt_PooledBufferWriter : WriterAt t :=
  { wbuf := fun b => skipn (Z.to_nat (offset b)) (Buffer.buf (buf b));
    WriteAt := writeAt; Len := LenOf; BitWriter.Reserve := Reserve }.

End PooledBufferWriter.
Export (hints) PooledBufferWriter.

(** ** Growing keeps what is there *)

Lemma roundUp64 v : 0 <= v -> v <= roundUpToMultipleOf64 v.
Proof.
  intros. unfold roundUpToMultipleOf64, roundToPowerOf2. change (64 - 1) with (Z.ones 6).
  rewrite <- Z.ldiff_land, Z.ldiff_ones_r, shiftl_mul, shiftr_div by lia. change (Z.ones 6) with 63. change (2 ^ 6) with 64. zdiv.
Qed.

(** [b'] has the bytes of [b] and more after them. *)
Definition extends (b b' : Buffer.t) : Prop :=
  exists t, Buffer.buf b' = Buffer.buf b ++ t /\ (bytes (Buffer.buf b) -> bytes (Buffer.spare b) -> bytes t /\ bytes (Buffer.spare b')).

Lemma Buffer_Reserve_ok b c :
  0 <= c -> extends b (Buffer.Reserve b c) /\ c <= len (Buffer.buf (Buffer.Reserve b c)) /\
  Buffer.length (Buffer.Reserve b c) = Buffer.length b.
Proof.
  intros Hc. unfold Buffer.Reserve. pose proof (roundUp64 c Hc) as Hr.
  destruct (Z.ltb_spec (len (Buffer.buf b)) c) as [Hlt|Hge].
  2:{ splits; auto. exists []. rewrite app_nil_r. split; [reflexivity|]. intros. split; [constructor|assumption]. }
  set (n := roundUpToMultipleOf64 c) in *. destruct (Z.eqb_spec (len (Buffer.buf b)) 0) as [H0|H0].
  - cbn [Buffer.Allocate Buffer.buf Buffer.spare Buffer.length]. rewrite repeat_length. splits; auto; [|lia].
    destruct (Buffer.buf b) as [|] eqn:E; [|cbn in H0; lia]. exists (repeat 0 (Z.to_nat n)). cbn [Buffer.buf Buffer.spare].
    rewrite E. split; [reflexivity|]. intros. split; [auto with gobytes|constructor].
  - unfold Buffer.Reallocate. destruct (Z.leb_spec n (len (Buffer.buf b) + len (Buffer.spare b))).
    + cbn [Buffer.buf Buffer.spare Buffer.length]. rewrite length_firstn, length_app. splits; auto; [|lia].
      exists (firstn (Z.to_nat n - List.length (Buffer.buf b)) (Buffer.spare b)). cbn [Buffer.buf Buffer.spare].
      rewrite firstn_app, firstn_all2 by lia. split; [reflexivity|]. intros Hb Hs. split; [auto with gobytes|].
      apply bytes_skipn, bytes_app. auto.
    + cbn [Buffer.Allocate fst Buffer.buf Buffer.spare Buffer.length].
      rewrite length_splice, repeat_length by lia. splits; auto; [|lia].
      exists (repeat 0 (Z.to_nat n - List.length (Buffer.buf b))). cbn [Buffer.buf Buffer.spare].
      rewrite splice_in by (rewrite repeat_length; lia). cbn [firstn app Nat.add]. split.
      * f_equal. rewrite <- (Nat.sub_add (List.length (Buffer.buf b)) (Z.to_nat n)) at 1 by lia.
        rewrite Nat.add_comm, repeat_app, skipn_app, skipn_all2, repeat_length, Nat.sub_diag by (rewrite repeat_length; lia).
        reflexivity.
      * intros. split; [auto with gobytes|constructor].
Qed.

Lemma extends_refl b : extends b b.
Proof. exists []. rewrite app_nil_r. split; [reflexivity|]. intros. split; [constructor|assumption]. Qed.

Lemma Buffer_Reserve_extends b c : extends b (Buffer.Reserve b c).
Proof.
  destruct (Z.le_gt_cases 0 c) as [Hc|Hc]; [now apply Buffer_Reserve_ok|].
  unfold Buffer.Reserve. bool_lia (len (Buffer.buf b) <? c). apply extends_refl.
Qed.

Lemma ResizeNoShrink_extends b n : extends b (Buffer.ResizeNoShrink b n).
Proof. destruct (Buffer_Reserve_extends b n) as (t & H1 & H2). exists t. auto. Qed.

Lemma NextPowerOf2_gt x : 0 <= x < 2 ^ 62 -> x < NextPowerOf2 x.
Proof.
  intros Hx. unfold NextPowerOf2, bitsLen, u64. rewrite Z.mod_small by lia. rewrite Z.shiftl_1_l.
  destruct (Z.eqb_spec x 0) as [->|Hne]; [reflexivity|].
  pose proof (Z.log2_spec x ltac:(lia)) as Hs. pose proof (Z.log2_nonneg x) as Hn.
  assert (Hl : Z.log2 x < 62) by (apply Z.log2_lt_pow2; lia).
  pose proof (pow2_le (Z.log2 x + 1) 62 ltac:(lia)) as Hle. rewrite <- Z.add_1_r in Hs.
  unfold i64. rewrite Z.mod_small; lia.
Qed.

(** Two tests of the condition are enough for the loop of [Reserve], which then gives what the
    conditional gives. *)
Lemma growLoop_once fuel newCap need : 0 <= newCap -> need < 2 ^ 62 ->
  PooledBufferWriter.growLoop (S (S fuel)) newCap need = Some (if newCap <? need then NextPowerOf2 need else newCap).
Proof.
  intros Hc Hn. cbn [PooledBufferWriter.growLoop]. destruct (Z.ltb_spec newCap need); [|reflexivity]. pose proof (NextPowerOf2_gt need ltac:(lia)).
  destruct (Z.ltb_spec (NextPowerOf2 need) need); [lia|reflexivity].
Qed.

Lemma skipn_splice (l p : list Z) a b :
  (a + b <= List.length l)%nat -> skipn a (splice l (a + b) p) = splice (skipn a l) b p.
Proof.
  intros H. unfold splice. rewrite skipn_app, length_firstn, Nat.min_l by lia.
  replace (a - (a + b))%nat with O by lia. rewrite skipn_O, skipn_firstn_comm, length_skipn.
  replace (a + b - a)%nat with b by lia. rewrite skipn_skipn.
  replace (List.length l - a - b)%nat with (List.length l - (a + b))%nat by lia.
  do 2 f_equal. f_equal. lia.
Qed.

(** ** The pooled writer keeps the contract *)

Section Pooled.
Import PooledBufferWriter.

Definition pooledOk (b : t) : Prop :=
  bytes (Buffer.buf (buf b)) /\ bytes (Buffer.spare (buf b)) /\ 0 <= offset b <= pos b.

(** The states a writer grows through. *)
Lemma grow_ok (b b' : t) :
  extends (buf b) (buf b') -> pos b' = pos b -> offset b' = offset b -> pooledOk b ->
  pooledOk b' /\ forall cells k, holds b cells ->
    (List.length cells + k <= List.length (wbuf b'))%nat -> holds b' (cells ++ repeat None k).
Proof.
  intros (u & Hu & HB) Hp Ho (H1 & H2 & H3). destruct (HB H1 H2) as [Hbu Hbs]. split.
  - red. rewrite Hu, Hp, Ho. splits; auto; try lia. apply bytes_app. auto.
  - intros cells k Hh HL. unfold holds in *. cbn [wbuf WriterAt_PooledBufferWriter] in *. rewrite Hu, Ho in *.
    rewrite skipn_app in *. now apply cellsOf_none.
Qed.

(** Growing alone. *)
Lemma grow_holds (b b' : t) cells :
  extends (buf b) (buf b') -> pos b' = pos b -> offset b' = offset b -> pooledOk b -> holds b cells -> holds b' cells.
Proof.
  intros He Hp Ho Hb Hh. destruct (grow_ok b b' He Hp Ho Hb) as [_ Hg]. rewrite <- (app_nil_r cells).
  apply (Hg cells O Hh). destruct He as (u & Hu & _). destruct Hh as [_ HL].
  cbn [wbuf WriterAt_PooledBufferWriter] in *. rewrite Hu, Ho, length_skipn, length_app in *. lia.
Qed.

Lemma Reserve_extends b n : extends (buf b) (buf (Reserve b n)).
Proof. apply Buffer_Reserve_extends. Qed.

Lemma Reserve_cap b n : 0 <= pos b + n < 2 ^ 62 -> pos b + n <= Buffer.Cap (buf (Reserve b n)).
Proof.
  intros Hn. unfold Reserve. cbn [buf]. set (c0 := Z.max (Buffer.Cap (buf b)) 256).
  set (c := if c0 <? pos b + n then _ else _). assert (Hc : pos b + n <= c).
  { subst c. destruct (Z.ltb_spec c0 (pos b + n)); [|lia]. pose proof (NextPowerOf2_gt (pos b + n) Hn). lia. }
  destruct (Buffer_Reserve_ok (buf b) c ltac:(lia)) as (_ & H & _). unfold Buffer.Cap. lia.
Qed.

(** The growth at the start of [writeAt] makes room for the write. *)
Lemma writeAt_grow b need :
  pooledOk b -> 0 <= need < 2 ^ 62 ->
  let b1 := if Buffer.Cap (buf b) <=? need then Reserve b (need - pos b) else b in
  pooledOk b1 /\ (forall cells, holds b cells -> holds b1 cells) /\ need <= Buffer.Cap (buf b1) /\
  pos b1 = pos b /\ offset b1 = offset b.
Proof.
  intros Hb Hn b1. subst b1. destruct (Z.leb_spec (Buffer.Cap (buf b)) need).
  - destruct (grow_ok b (Reserve b (need - pos b)) (Reserve_extends _ _) eq_refl eq_refl Hb) as [? _].
    splits; auto. { intros. eapply grow_holds; eauto using Reserve_extends. }
    pose proof (Reserve_cap b (need - pos b)). lia.
  - splits; auto. lia.
Qed.

(** The copy. *)
Lemma writeAt_copy (b1 : t) p off :
  pooledOk b1 -> bytes p -> 0 <= off -> off + offset b1 + len p <= Buffer.Cap (buf b1) ->
  let b2 := mk (Buffer.mk (splice (Buffer.buf (buf b1)) (Z.to_nat (off + offset b1)) p)
                          (Buffer.spare (buf b1)) (Buffer.length (buf b1))) (pos b1) (offset b1) in
  pooledOk b2 /\ forall cells, holds b1 cells -> off <= len cells -> holds b2 (overlay cells (Z.to_nat off) p).
Proof.
  intros (A1 & A2 & A3) Hp Hoff Hcap b2. unfold Buffer.Cap in Hcap. split.
  - red. cbn [b2 buf pos offset Buffer.buf Buffer.spare]. splits; auto with gobytes; lia.
  - intros cells Hh Hc. unfold holds in *. cbn [wbuf WriterAt_PooledBufferWriter b2 buf offset Buffer.buf] in *.
    replace (Z.to_nat (off + offset b1)) with (Z.to_nat (offset b1) + Z.to_nat off)%nat by lia.
    rewrite skipn_splice by lia. apply splice_cells; [rewrite length_skipn; lia|lia|exact Hh].
Qed.

Lemma writeAt_ok b p off :
  pooledOk b -> bytes p -> 0 <= off -> pos b + (off + len p) < 2 ^ 62 ->
  exists b', writeAt b p off = (b', len p, None) /\ pooledOk b' /\ pos b' = pos b /\ offset b' = offset b /\
    forall cells, holds b cells -> off <= len cells -> holds b' (overlay cells (Z.to_nat off) p).
Proof.
  intros Hb Hp Hoff Hroom. unfold writeAt. destruct (Z.eqb_spec (len p) 0) as [H0|H0].
  { exists b. destruct p; [|cbn in H0; lia]. splits; auto. intros cells Hh Hc. unfold overlay. cbn [map app List.length].
    now rewrite Nat.add_0_r, firstn_skipn. }
  destruct (writeAt_grow b (off + offset b + len p) Hb) as (Hb1 & Hh1 & Hcap & Hp1 & Ho1).
  { destruct Hb as (_ & _ & ?). lia. }
  set (b1 := if _ <=? _ then _ else b) in *.
  destruct (writeAt_copy b1 p off Hb1 Hp Hoff) as [Hb2 Hh2]; [rewrite Ho1; lia|]. rewrite Ho1 in *.
  rewrite Z.min_l by (unfold Buffer.Cap in *; lia). eexists. split; [reflexivity|].
  set (b2 := mk _ _ _) in *. set (b3 := mk (if _ <? _ then _ else _) _ _).
  assert (He : extends (buf b2) (buf b3)).
  { subst b3. cbn [buf b2]. destruct (_ <? _); [apply ResizeNoShrink_extends|apply extends_refl]. }
  destruct (grow_ok b2 b3 He eq_refl eq_refl Hb2) as [Hb3 _]. splits; auto.
  intros cells Hh Hc. apply (grow_holds b2 b3); auto.
Qed.

(** The contract, of a writer whose offset is [o]. *)
Definition PooledBufferWriter_ok (o : Z) : WriterAtOk t.
Proof.
  refine {| wok := fun b => pooledOk b /\ offset b = o; room := fun b n => pos b + n < 2 ^ 62 |}.
  - intros; lia.
  - intros b p off [Hb Ho] Hp Hoff Hroom. destruct (writeAt_ok b p off Hb Hp Hoff Hroom) as (b' & H1 & H2 & H3 & H4 & H5).
    exists b'. rewrite H3, H4. splits; auto.
  - intros b n [Hb Ho]. destruct (grow_ok b (Reserve b n) (Reserve_extends _ _) eq_refl eq_refl Hb) as [? Hg].
    splits; auto. intros cells k Hh Hn Hroom. apply Hg; [exact Hh|].
    pose proof Hb as (_ & _ & Hpos). pose proof (Reserve_cap b n ltac:(lia)) as Hcap. unfold Buffer.Cap in Hcap.
    cbn [wbuf WriterAt_PooledBufferWriter BitWriter.Reserve]. rewrite length_skipn. change (offset (Reserve b n)) with (offset b). lia.
Defined.
End Pooled.

(** ** Resizing *)

(** A buffer the pool hands out: its memory may hold any bytes; its length is zero. *)
Definition freshOk (b : Buffer.t) : Prop := bytes (Buffer.buf b) /\ bytes (Buffer.spare b).
Definition poolOk (f : Buffer.t) : Prop := freshOk f /\ Buffer.length f = 0.

(** A writer at the start of a page. *)
Definition sinkReady (s : PooledBufferWriter.t) : Prop := pooledOk s /\ PooledBufferWriter.pos s = 0.

Lemma Reset_ready f s : freshOk f -> sinkReady (PooledBufferWriter.Reset f s 0).
Proof.
  intros [H1 H2]. unfold PooledBufferWriter.Reset. set (s0 := PooledBufferWriter.mk f 0 0).
  assert (H0 : pooledOk s0) by (red; cbn; splits; auto; lia).
  split; [|reflexivity]. now destruct (grow_ok s0 (PooledBufferWriter.Reserve s0 0) (Reserve_extends _ _) eq_refl eq_refl H0).
Qed.

(** The length is within the memory. *)
Definition bufferOk (b : Buffer.t) : Prop := 0 <= Buffer.length b <= len (Buffer.buf b).

Lemma Reallocate_ok size b sp :
  0 <= size ->
  let nb := fst (Buffer.Reallocate size b sp) in
  len nb = size /\ forall k, (k <= List.length b)%nat -> Z.of_nat k <= size -> firstn k nb = firstn k b.
Proof.
  intros Hs. unfold Buffer.Reallocate. destruct (Z.leb_spec size (len b + len sp)); cbn [fst Buffer.Allocate].
  - rewrite length_firstn, length_app. split; [lia|]. intros k Hk Hks. rewrite firstn_firstn, Nat.min_l by lia.
    rewrite firstn_app. replace (k - List.length b)%nat with O by lia. now rewrite firstn_O, app_nil_r.
  - rewrite length_splice, repeat_length by lia. split; [lia|]. intros k Hk _.
    rewrite splice_in by (rewrite repeat_length; lia). cbn [firstn app]. rewrite firstn_app.
    replace (k - List.length b)%nat with O by lia. now rewrite firstn_O, app_nil_r.
Qed.

Lemma resize_ok b newSize shrink :
  bufferOk b -> 0 <= newSize ->
  bufferOk (Buffer.resize b newSize shrink) /\ Buffer.length (Buffer.resize b newSize shrink) = newSize /\
  forall k, Z.of_nat k <= Z.min newSize (Buffer.length b) ->
    firstn k (Buffer.buf (Buffer.resize b newSize shrink)) = firstn k (Buffer.buf b).
Proof.
  intros [H0 H1] Hn. unfold Buffer.resize. pose proof (roundUp64 newSize Hn) as Hr.
  set (b1 := if _ || _ then _ else _).
  assert (Hb1 : newSize <= len (Buffer.buf b1) /\ forall k, Z.of_nat k <= Z.min newSize (Buffer.length b) ->
    firstn k (Buffer.buf b1) = firstn k (Buffer.buf b)).
  { subst b1. destruct (negb shrink || (Buffer.length b <? newSize)).
    - destruct (Buffer_Reserve_ok b newSize Hn) as ((t & -> & _) & Hc & _). split; [exact Hc|]. intros k Hk.
      rewrite firstn_app. replace (k - _)%nat with O by lia. now rewrite firstn_O, app_nil_r.
    - destruct (Z.eqb_spec (len (Buffer.buf b)) (roundUpToMultipleOf64 newSize)); cbn [negb]; [split; [lia|auto]|].
      destruct (Z.eqb_spec newSize 0) as [->|Hne].
      { cbn [Buffer.buf]. split; [cbn; lia|]. intros k Hk. replace k with O by lia. reflexivity. }
      destruct (Reallocate_ok (roundUpToMultipleOf64 newSize) (Buffer.buf b) (Buffer.spare b) ltac:(lia)) as [HL Hp].
      destruct (Buffer.Reallocate _ _ _) as [nb sp]. cbn [fst Buffer.buf] in *. split; [lia|]. intros k Hk. apply Hp; lia. }
  destruct Hb1 as [Hc Hp]. splits; auto. split; cbn [Buffer.length Buffer.buf]; lia.
Qed.

(** ** Writing a stream *)

Section Stream.
Import PooledBufferWriter.

(** A writer that has been written to with [Write] only, and what it holds. *)
Definition streamed (b : t) (data : list Z) : Prop :=
  pooledOk b /\ offset b = 0 /\ pos b = len data /\ Buffer.length (buf b) <= pos b /\
  firstn (List.length data) (Buffer.buf (buf b)) = data.

Lemma extends_firstn b b' data :
  extends b b' -> firstn (List.length data) (Buffer.buf b) = data -> firstn (List.length data) (Buffer.buf b') = data.
Proof.
  intros (u & -> & _) H. rewrite firstn_app. apply (f_equal (@List.length Z)) in H as HL. rewrite length_firstn in HL.
  replace (_ - _)%nat with O by lia. now rewrite firstn_O, app_nil_r.
Qed.

Lemma Reserve_length b n : Buffer.length (buf (Reserve b n)) = Buffer.length (buf b).
Proof.
  unfold Reserve, Buffer.Reserve. cbn [buf]. destruct (_ <? _); [|reflexivity].
  destruct (if _ =? 0 then _ else _) as [nb sp]. reflexivity.
Qed.

Lemma Reserve_streamed b data n : streamed b data -> streamed (Reserve b n) data.
Proof.
  intros (H1 & H2 & H3 & H4 & H5). destruct (grow_ok b (Reserve b n) (Reserve_extends _ _) eq_refl eq_refl H1) as [H1' _].
  red. rewrite Reserve_length. splits; auto. apply (extends_firstn (buf b)); [apply Reserve_extends|assumption].
Qed.

Lemma UnsafeWrite_streamed b data p :
  streamed b data -> bytes p -> len data + len p <= Buffer.Cap (buf b) ->
  exists b', UnsafeWrite b p = (b', len p) /\ streamed b' (data ++ p).
Proof.
  intros ((A1 & A2 & A3) & H2 & H3 & H4 & H5) Hp Hcap. unfold UnsafeWrite. rewrite Z.min_l by lia. eexists. split; [reflexivity|].
  unfold Buffer.Cap in Hcap. rewrite H3, Nat2Z.id. set (m := Buffer.buf (buf b)) in *.
  split; [red; cbn [buf pos offset Buffer.buf Buffer.spare]; splits; auto with gobytes; lia|].
  cbn [buf pos offset Buffer.buf Buffer.length]. rewrite length_app, Nat2Z.inj_add. splits; auto; [lia|].
  rewrite splice_in by lia. rewrite H5, app_assoc, <- length_app. rewrite firstn_app, Nat.sub_diag, firstn_O, app_nil_r. apply firstn_all.
Qed.

Lemma Write_streamed b data p :
  streamed b data -> bytes p -> len data + len p < 2 ^ 62 ->
  exists b', Write b p = (b', len p) /\ streamed b' (data ++ p).
Proof.
  intros Hs Hp HL. unfold Write. destruct (Z.eqb_spec (len p) 0) as [H0|H0].
  { destruct p; [|cbn in H0; lia]. rewrite app_nil_r. eauto. }
  apply UnsafeWrite_streamed; [now apply Reserve_streamed|assumption|].
  pose proof Hs as (_ & _ & Hpos & _). rewrite <- Hpos. apply Reserve_cap. lia.
Qed.

Lemma sync_streamed b data :
  streamed b data -> Bytes b = data /\
  Buffer.Bytes (if Buffer.Len (buf b) <? pos b then Buffer.ResizeNoShrink (buf b) (pos b) else buf b) = data.
Proof.
  intros (H1 & H2 & H3 & H4 & H5). unfold Bytes, sync, Buffer.Len.
  assert (HB : Buffer.Bytes (if Buffer.length (buf b) <? pos b then Buffer.ResizeNoShrink (buf b) (pos b) else buf b) = data).
  { destruct (Z.ltb_spec (Buffer.length (buf b)) (pos b)) as [Hlt|Hge].
    - unfold Buffer.Bytes. change (Buffer.length (Buffer.ResizeNoShrink (buf b) (pos b))) with (pos b). rewrite H3, Nat2Z.id.
      apply (extends_firstn (buf b)); [apply ResizeNoShrink_extends|assumption].
    - unfold Buffer.Bytes. replace (Buffer.length (buf b)) with (len data) by lia. now rewrite Nat2Z.id. }
  split; [|exact HB]. destruct (Buffer.length (buf b) <? pos b); cbn [buf offset]; rewrite H2; exact HB.
Qed.

Lemma new_streamed f initial : poolOk f -> streamed (NewPooledBufferWriter f initial) [].
Proof. intros [[H1 H2] H3]. apply Reserve_streamed. split; [red; cbn; splits; auto; lia|]. cbn. splits; auto. lia. Qed.

(** What [Finish] hands out; the writer is as new. *)
Lemma Finish_streamed f b data : streamed b data -> exists m, Finish f b = (NewPooledBufferWriter f 0, m) /\ Buffer.Bytes m = data.
Proof. intros Hs. eexists. split; [reflexivity|]. apply (sync_streamed b data Hs). Qed.

Lemma LenOf_streamed b data : streamed b data -> LenOf b = len data.
Proof.
  intros (_ & H2 & H3 & H4 & _). unfold LenOf, sync, Buffer.Len. rewrite H2. destruct (Z.ltb_spec (Buffer.length (buf b)) (pos b)); cbn [buf].
  - change (Buffer.length (Buffer.ResizeNoShrink (buf b) (pos b))) with (pos b). lia.
  - lia.
Qed.

Fixpoint writes (b : t) (chunks : list (list Z)) : t :=
  match chunks with [] => b | p :: chunks' => writes (fst (Write b p)) chunks' end.

Lemma writes_streamed chunks b data :
  streamed b data -> Forall bytes chunks -> len data + len (List.concat chunks) < 2 ^ 62 ->
  streamed (writes b chunks) (data ++ List.concat chunks).
Proof.
  intros Hs HF. revert b data Hs. induction HF as [|p chunks Hp _ IH]; intros b data Hs HL; cbn [writes List.concat] in *.
  { now rewrite app_nil_r. }
  rewrite length_app in HL. destruct (Write_streamed b data p Hs Hp ltac:(lia)) as (b' & -> & Hs'). rewrite app_assoc.
  apply IH; [exact Hs'|]. rewrite length_app. lia.
Qed.

(** ** Claims *)

(** A pooled writer that is written to chunk by chunk holds the chunks one after the other,
    through every reallocation: [Tell] is their length, [Bytes] their bytes, and so is the
    buffer that [Finish] hands out, after which the writer is as new. *)
Theorem pooled_write_stream fresh fresh' initial chunks :
  bytes (Buffer.buf fresh) -> bytes (Buffer.spare fresh) -> Buffer.length fresh = 0 ->
  Forall bytes chunks -> len (List.concat chunks) < 2 ^ 62 ->
  let b := writes (NewPooledBufferWriter fresh initial) chunks in
  Tell b = len (List.concat chunks) /\ Bytes b = List.concat chunks /\
  exists m, Finish fresh' b = (NewPooledBufferWriter fresh' 0, m) /\ Buffer.Bytes m = List.concat chunks.
Proof.
  intros H1 H2 H3 HF HL b.
  assert (Hs : streamed b (List.concat chunks)).
  { apply (writes_streamed chunks _ []); [|assumption|exact HL]. apply Reserve_streamed.
    split; [red; cbn; splits; auto; lia|]. cbn. splits; auto. lia. }
  pose proof Hs as (_ & _ & Hp & _). splits; [exact Hp|apply (sync_streamed b _ Hs)|now apply Finish_streamed].
Qed.
End Stream.

(** [Resize] and [ResizeNoShrink], growing, shrinking or to zero: the buffer has the new
    length, within its memory, and the bytes that both lengths have in common are kept. *)
Theorem buffer_resize_keeps b newSize shrink :
  bufferOk b -> 0 <= newSize ->
  let b' := Buffer.resize b newSize shrink in
  bufferOk b' /\ Buffer.Len b' = newSize /\
  firstn (Z.to_nat (Z.min newSize (Buffer.Len b))) (Buffer.Bytes b')
    = firstn (Z.to_nat (Z.min newSize (Buffer.Len b))) (Buffer.Bytes b).
Proof.
  intros Hb Hn b'. destruct (resize_ok b newSize shrink Hb Hn) as (H1 & H2 & H3). fold b' in H1, H2, H3. splits; auto.
  unfold Buffer.Bytes, Buffer.Len. rewrite H2. destruct Hb as [H0 _]. rewrite !firstn_firstn.
  rewrite !Nat.min_l by lia. apply H3. lia.
Qed.
