(* ===== verification/HashTable.v ===== *)
(** * The open-addressing hash table (internal/hashing/xxh3_memo_table_types.go)

    [HashTable[T]] keeps entries with their 64-bit hash in a slice whose length is a power of
    two; an empty slot has the hash 0 ([sentinel]).  Probing follows a sequence derived from
    the hash; there is no deletion.  The invariant [htOk] is that of open addressing: every
    entry is reached by its probe sequence through occupied slots only, and less than half of
    the slots are occupied, so that every probe ends.  What a table contains is [live], the
    entries in slot order, up to permutation. *)

From Stdlib Require Import ZArith List Lia Bool Permutation.
From S2P Require Import Prelude BitUtil.
Import ListNotations.
#[local] Open Scope Z_scope.
#[local] Open Scope go_scope.

Definition sentinel : Z := 0.
Definition loadFactor : Z := 2.
Definition perturbShift : Z := 5.

(** [entry[T]] with its payload. *)
Record entry (T : Type) : Type := mkEntry { e_h : Z; e_val : T; e_memoIdx : Z }.
Arguments mkEntry {T}.
Arguments e_h {T}.
Arguments e_val {T}.
Arguments e_memoIdx {T}.

Record HashTable (T : Type) : Type := mkHT {
  ht_cap : Z;
  ht_capMask : Z;
  ht_size : Z;
  ht_entries : list (entry T)
}.
Arguments mkHT {T}.
Arguments ht_cap {T}.
Arguments ht_capMask {T}.
Arguments ht_size {T}.
Arguments ht_entries {T}.

Module HT.
Section Ops.
Context {T : Type} (zero : T).
Implicit Types (h : HashTable T) (e : entry T) (entries : list (entry T)).

(** What [make] fills a slice of entries with. *)
Definition emptyEntry : entry T := mkEntry 0 zero 0.

Definition Valid e : bool := negb (e_h e =? sentinel).

Definition NewHashTable (cap : Z) : HashTable T :=
  let initCap := u64 (NextPowerOf2 (i64 (Z.max cap 32))) in
  mkHT initCap (u64 (initCap - 1)) 0 (repeat emptyEntry (Z.to_nat initCap)).

Definition Reset h (cap : Z) : HashTable T :=
  let cap := u64 (NextPowerOf2 (i64 (Z.max cap 32))) in
  mkHT cap (u64 (cap - 1)) 0 (repeat emptyEntry (Z.to_nat cap)).

Definition fixHash (v : Z) : Z := if v =? sentinel then 42 else v.

(** The probe loop, with fuel. *)
Fixpoint probeLoop (fuel : nat) entries (v szMask : Z) (cmp : T -> bool) (idx perturb : Z) : option (Z * bool) :=
  match fuel with
  | O => None
  | S fuel' =>
      e <- index entries idx ;;
      if (e_h e =? v) && cmp (e_val e) then Some (idx, true)
      else if e_h e =? sentinel then Some (idx, false)
      else probeLoop fuel' entries v szMask cmp (u64 (idx + perturb) & szMask) ((perturb >> perturbShift) + 1)
  end.

(** After 13 steps the perturbation is 1 and the probes go through all slots in turn. *)
Definition probeFuel entries : nat := (14 + List.length entries)%nat.

Definition lookup entries (v szMask : Z) (cmp : T -> bool) : option (Z * bool) :=
  let v := fixHash v in
  probeLoop (probeFuel entries) entries v szMask cmp (v & szMask) ((v >> perturbShift) + 1).

(** [Lookup] returns a pointer to a slot, here its index. *)
Definition Lookup h (v : Z) (cmp : T -> bool) : option (Z * bool) := lookup (ht_entries h) v (ht_capMask h) cmp.

(** The loop of [upsize] over the old entries. *)
Fixpoint rehash (old entries : list (entry T)) (newMask : Z) : option (list (entry T)) :=
  match old with
  | [] => Some entries
  | e :: old' =>
      if Valid e then
        r <- lookup entries (e_h e) newMask (fun _ => false) ;;
        entries' <- store entries (fst r) e ;;
        rehash old' entries' newMask
      else rehash old' entries newMask
  end.

Definition upsize h (newcap : Z) : option (HashTable T) :=
  let newMask := u64 (newcap - 1) in
  entries <- rehash (ht_entries h) (repeat emptyEntry (Z.to_nat newcap)) newMask ;;
  Some (mkHT newcap newMask (ht_size h) entries).

Definition needUpsize h : bool := ht_cap h <=? u64 (ht_size h * loadFactor).

(** [Insert(e, v, val, memoIdx)], [e] the slot [idx]. *)
Definition Insert h (idx v : Z) (val : T) (memoIdx : Z) : option (HashTable T) :=
  entries <- store (ht_entries h) idx (mkEntry (fixHash v) val memoIdx) ;;
  let h := mkHT (ht_cap h) (ht_capMask h) (u64 (ht_size h + 1)) entries in
  if needUpsize h then upsize h (u64 (ht_cap h * loadFactor * 2)) else Some h.

(** [VisitEntries(visit)], the closure passing on what it has captured. *)
Fixpoint visit {S} (entries : list (entry T)) (f : entry T -> S -> option S) (s : S) : option S :=
  match entries with
  | [] => Some s
  | e :: entries' => if Valid e then s' <- f e s ;; visit entries' f s' else visit entries' f s
  end.

Definition VisitEntries {S} h (f : entry T -> S -> option S) (s : S) : option S := visit (ht_entries h) f s.

Definition Truncate h (size : Z) : option (HashTable T) :=
  VisitEntries h
    (fun e truncated =>
       if size <=? u64 (e_memoIdx e) then Some truncated
       else
         r <- Lookup truncated (e_h e) (fun _ => false) ;;
         Insert truncated (fst r) (e_h e) (e_val e) (e_memoIdx e))
    (NewHashTable size).

Definition copyEntry (start : Z) e (out : list T) : option (list T) :=
  let idx := i32 (e_memoIdx e - i32 start) in
  if 0 <=? idx then store out idx (e_val e) else Some out.

Definition CopyValuesSubset h (start : Z) (out : list T) : option (list T) := VisitEntries h (copyEntry start) out.

Definition CopyValues h (out : list T) : option (list T) := CopyValuesSubset h 0 out.

End Ops.
End HT.

(** ** Contents *)

Section Proofs.
Context {T : Type} (zero : T).
Implicit Types (h : HashTable T) (e : entry T) (es : list (entry T)).
#[local] Abbreviation slot es p := (nth (Z.to_nat p) es (HT.emptyEntry zero)).

Definition live es : list (entry T) := filter HT.Valid es.

Lemma live_repeat n : live (repeat (HT.emptyEntry zero) n) = [].
Proof. induction n; auto. Qed.

Lemma visit_live {S} es (f : entry T -> S -> option S) s :
  HT.visit es f s = fold_left (fun o e => opt_bind o (f e)) (live es) (Some s).
Proof.
  revert s. induction es as [|e es IH]; intros s; cbn [HT.visit live filter]; [reflexivity|].
  destruct (HT.Valid e); [|apply IH]. cbn [fold_left opt_bind]. destruct (f e s) as [s'|]; cbn [opt_bind]; [apply IH|].
  induction (filter HT.Valid es); auto.
Qed.

Lemma live_in es e : In e (live es) <-> exists p, 0 <= p < len es /\ slot es p = e /\ HT.Valid e = true.
Proof.
  unfold live. rewrite filter_In. split.
  - intros [Hin Hv]. apply (In_nth _ _ (HT.emptyEntry zero)) in Hin as (n & Hn & He). exists (Z.of_nat n).
    rewrite Nat2Z.id. splits; auto; lia.
  - intros (p & Hp & <- & Hv). split; [apply nth_In; lia|assumption].
Qed.

Lemma live_upd es n e :
  (n < List.length es)%nat -> HT.Valid (nth n es (HT.emptyEntry zero)) = false -> HT.Valid e = true ->
  Permutation (live (upd es n e)) (e :: live es).
Proof.
  revert n. induction es as [|x es IH]; intros n Hn Hx He; [cbn in Hn; lia|]. destruct n as [|n]; cbn in Hx |- *.
  - now rewrite Hx, He.
  - cbn in Hn. specialize (IH n ltac:(lia) Hx He). destruct (HT.Valid x); [|exact IH].
    etransitivity; [apply perm_skip, IH|apply perm_swap].
Qed.

(** A table that is not full has a free slot. *)
Lemma free_slot es : (List.length (live es) < List.length es)%nat -> exists p, 0 <= p < len es /\ HT.Valid (slot es p) = false.
Proof.
  induction es as [|e es IH]; cbn [live filter List.length]; [lia|]. destruct (HT.Valid e) eqn:Ev; cbn [List.length]; intros HL.
  - destruct IH as (p & Hp & Hv); [unfold live; lia|]. exists (p + 1). split; [lia|].
    replace (Z.to_nat (p + 1)) with (S (Z.to_nat p)) by lia. exact Hv.
  - exists 0. split; [lia|exact Ev].
Qed.

(** ** The probe sequence *)

Fixpoint pstate (v szMask : Z) (n : nat) : Z * Z :=
  match n with
  | O => (v & szMask, (v >> perturbShift) + 1)
  | S n' => let '(idx, perturb) := pstate v szMask n' in (u64 (idx + perturb) & szMask, (perturb >> perturbShift) + 1)
  end.

Definition pidx (v szMask : Z) (n : nat) : Z := fst (pstate v szMask n).

Lemma land_szMask x k : 0 <= k -> Z.land x (2 ^ k - 1) = x mod 2 ^ k.
Proof. intros. replace (2 ^ k - 1) with (Z.ones k) by (rewrite Z.ones_equiv; lia). now apply Z.land_ones. Qed.

Lemma pidx_range v k n : 0 <= k -> 0 <= pidx v (2 ^ k - 1) n < 2 ^ k.
Proof.
  intros Hk. unfold pidx. destruct n as [|n]; cbn [pstate]; [|destruct (pstate v (2 ^ k - 1) n)]; cbn [fst];
    rewrite land_szMask by lia; apply Z.mod_pos_bound; auto with goarith.
Qed.

Lemma pstate_S v m n : pstate v m (S n) = (u64 (fst (pstate v m n) + snd (pstate v m n)) & m, (snd (pstate v m n) >> perturbShift) + 1).
Proof. cbn [pstate]. now destruct (pstate v m n). Qed.

Lemma perturb_bound v m n :
  0 <= v < 2 ^ 64 -> (n <= 12)%nat -> 1 <= snd (pstate v m n) <= 2 ^ (5 * (12 - Z.of_nat n)) + 1.
Proof.
  intros Hv. induction n as [|n IH]; intros Hn.
  - cbn [pstate snd Z.of_nat]. unfold perturbShift. rewrite shiftr_div by lia. rewrite Z.sub_0_r. zdiv.
  - specialize (IH ltac:(lia)). cbn [pstate]. destruct (pstate v m n) as [idx perturb]. cbn [snd] in *.
    unfold perturbShift. rewrite shiftr_div by lia.
    assert (H5 : 2 ^ (5 * (12 - Z.of_nat n)) = 32 * 2 ^ (5 * (12 - Z.of_nat (S n)))).
    { change 32 with (2 ^ 5). rewrite <- Z.pow_add_r by lia. f_equal. lia. }
    pose proof (pow2_pos (5 * (12 - Z.of_nat (S n))) ltac:(lia)). zdiv.
Qed.

Lemma perturb_one v m n : 0 <= v < 2 ^ 64 -> snd (pstate v m (13 + n)) = 1.
Proof.
  intros Hv. induction n as [|n IH].
  - pose proof (perturb_bound v m 12 Hv (le_n _)) as Hb. change (13 + 0)%nat with (S 12). rewrite pstate_S.
    cbn [snd]. change (2 ^ (5 * (12 - Z.of_nat 12)) + 1) with 2 in Hb.
    unfold perturbShift. rewrite shiftr_div by lia. rewrite Z.div_small by lia. reflexivity.
  - replace (13 + S n)%nat with (S (13 + n)) by lia. rewrite pstate_S. cbn [snd]. now rewrite IH.
Qed.

(** From the thirteenth probe on the slots are taken in turn, so every slot is probed. *)
Lemma pidx_linear v k c n :
  (forall i, snd (pstate v (2 ^ k - 1) (c + i)) = 1) -> 0 <= k <= 62 ->
  pidx v (2 ^ k - 1) (c + n) = (pidx v (2 ^ k - 1) c + Z.of_nat n) mod 2 ^ k.
Proof.
  intros H1 Hk. induction n as [|n IH].
  - rewrite Nat.add_0_r, Z.add_0_r. symmetry. apply Z.mod_small, pidx_range. lia.
  - pose proof (pidx_range v k (c + n) ltac:(lia)) as Hr. rewrite Nat.add_succ_r. unfold pidx at 1. rewrite pstate_S, H1. cbn [fst].
    fold (pidx v (2 ^ k - 1) (c + n)). pose proof (pow2_le k 62 ltac:(lia)). unfold u64. rewrite Z.mod_small, land_szMask, IH by lia.
    rewrite Zplus_mod_idemp_l. f_equal. lia.
Qed.

Lemma pidx_reaches v k q :
  0 <= v < 2 ^ 64 -> 0 <= k <= 62 -> 0 <= q < 2 ^ k ->
  exists n, pidx v (2 ^ k - 1) n = q /\ (n < 13 + Z.to_nat (2 ^ k))%nat.
Proof.
  intros Hv Hk Hq. set (j := (q - pidx v (2 ^ k - 1) 13) mod 2 ^ k).
  assert (Hj : 0 <= j < 2 ^ k) by (apply Z.mod_pos_bound; lia). exists (13 + Z.to_nat j)%nat. split; [|lia].
  rewrite pidx_linear, Z2Nat.id by (lia || (intros; now apply perturb_one)). subst j. rewrite Zplus_mod_idemp_r.
  replace (_ + (q - _)) with q by lia. now apply Z.mod_small.
Qed.

(** ** Probing *)

(** The slot where a probe for [v] ends: a match, or the first free slot of the sequence with
    no match before it. *)
Definition probeEnd es (v szMask : Z) (cmp : T -> bool) (idx : Z) (ok : bool) : Prop :=
  exists n, pidx v szMask n = idx /\
    (forall m, (m < n)%nat -> HT.Valid (slot es (pidx v szMask m)) = true /\
                              ((e_h (slot es (pidx v szMask m)) =? v) && cmp (e_val (slot es (pidx v szMask m)))) = false) /\
    if ok then e_h (slot es idx) = v /\ cmp (e_val (slot es idx)) = true else HT.Valid (slot es idx) = false.

Lemma probeLoop_ok es v k cmp fuel n N :
  0 <= k -> len es = 2 ^ k -> (n <= N < n + fuel)%nat -> HT.Valid (slot es (pidx v (2 ^ k - 1) N)) = false ->
  (forall m, (m < n)%nat -> HT.Valid (slot es (pidx v (2 ^ k - 1) m)) = true /\
                            ((e_h (slot es (pidx v (2 ^ k - 1) m)) =? v) && cmp (e_val (slot es (pidx v (2 ^ k - 1) m)))) = false) ->
  exists idx ok, HT.probeLoop fuel es v (2 ^ k - 1) cmp (fst (pstate v (2 ^ k - 1) n)) (snd (pstate v (2 ^ k - 1) n)) = Some (idx, ok) /\
    probeEnd es v (2 ^ k - 1) cmp idx ok.
Proof.
  intros Hk HL. revert n. induction fuel as [|fuel IH]; intros n HN Hfree Hpre; [lia|]. cbn [HT.probeLoop].
  pose proof (pidx_range v k n Hk) as Hr. change (fst (pstate v (2 ^ k - 1) n)) with (pidx v (2 ^ k - 1) n).
  rewrite (index_ok _ _ (HT.emptyEntry zero)) by lia. cbn [opt_bind].
  set (e := slot es (pidx v (2 ^ k - 1) n)). destruct ((e_h e =? v) && cmp (e_val e)) eqn:Em.
  - apply andb_true_iff in Em as [Eh Ec]. apply Z.eqb_eq in Eh. exists (pidx v (2 ^ k - 1) n), true. split; [reflexivity|]. exists n. auto.
  - destruct (e_h e =? sentinel) eqn:Es.
    + exists (pidx v (2 ^ k - 1) n), false. split; [reflexivity|]. exists n. splits; auto. unfold HT.Valid. fold e. now rewrite Es.
    + assert (HNn : N <> n).
      { intros ->. unfold HT.Valid in Hfree. fold e in Hfree. rewrite Es in Hfree. discriminate. }
      specialize (IH (S n) ltac:(lia) Hfree). rewrite pstate_S in IH. cbn [fst snd] in IH.
      apply IH. intros m Hm. destruct (Nat.eq_dec m n) as [->|]; [|apply Hpre; lia].
      fold e. split; [|exact Em]. unfold HT.Valid. now rewrite Es.
Qed.

Lemma fixHash_range v : 0 <= v < 2 ^ 64 -> 0 < HT.fixHash v < 2 ^ 64.
Proof. intros. unfold HT.fixHash, sentinel. destruct (Z.eqb_spec v 0); lia. Qed.

Lemma fixHash_idem v : HT.fixHash (HT.fixHash v) = HT.fixHash v.
Proof. unfold HT.fixHash, sentinel. destruct (Z.eqb_spec v 0) as [->|]; [reflexivity|]. now rewrite (proj2 (Z.eqb_neq v 0)). Qed.

Lemma lookup_ok es v k cmp :
  0 <= k <= 62 -> len es = 2 ^ k -> (List.length (live es) < List.length es)%nat -> 0 <= v < 2 ^ 64 ->
  exists idx ok, HT.lookup es v (2 ^ k - 1) cmp = Some (idx, ok) /\ probeEnd es (HT.fixHash v) (2 ^ k - 1) cmp idx ok.
Proof.
  intros Hk HL Hfree Hv. pose proof (fixHash_range v Hv). destruct (free_slot es Hfree) as (q & Hq & Hqv).
  destruct (pidx_reaches (HT.fixHash v) k q) as (N & HN & HNb); [lia|lia|lia|].
  apply (probeLoop_ok es (HT.fixHash v) k cmp (HT.probeFuel es) 0 N); [lia|assumption|unfold HT.probeFuel; lia|now rewrite HN|intros m Hm; lia].
Qed.

(** ** The invariant *)

(** Every entry is reached through occupied slots. *)
Definition placed es (szMask : Z) : Prop :=
  forall p, 0 <= p < len es -> HT.Valid (slot es p) = true ->
  exists n, pidx (e_h (slot es p)) szMask n = p /\
    forall m, (m < n)%nat -> HT.Valid (slot es (pidx (e_h (slot es p)) szMask m)) = true.

Definition hashesOk es : Prop := forall e, In e (live es) -> 0 < e_h e < 2 ^ 64.

(** A slice of entries of a table with [2 ^ k] slots. *)
Record slotsOk es (k : Z) : Prop := mkSlots {
  so_k : 0 <= k <= 62;
  so_len : len es = 2 ^ k;
  so_placed : placed es (2 ^ k - 1);
  so_hashes : hashesOk es
}.

Record htOk (h : HashTable T) : Prop := mkHtOk {
  ho_slots : exists k, 5 <= k <= 40 /\ ht_cap h = 2 ^ k /\ ht_capMask h = 2 ^ k - 1 /\ slotsOk (ht_entries h) k;
  ho_size : ht_size h = len (live (ht_entries h));
  ho_load : ht_size h * 2 < ht_cap h
}.

Lemma slot_upd es p q e :
  0 <= p < len es -> 0 <= q -> slot (upd es (Z.to_nat p) e) q = if q =? p then e else slot es q.
Proof.
  intros Hp Hq. destruct (Z.eqb_spec q p) as [->|Hne]; [apply nth_upd_eq; lia|apply nth_upd_ne; lia].
Qed.

(** Storing an entry where its probe ends. *)
Lemma slotsOk_store es k cmp p e :
  slotsOk es k -> HT.Valid e = true -> 0 < e_h e < 2 ^ 64 -> probeEnd es (e_h e) (2 ^ k - 1) cmp p false ->
  exists es', store es p e = Some es' /\ slotsOk es' k /\ Permutation (live es') (e :: live es).
Proof.
  intros [Hk HL Hpl Hh] He Her (n & Hn & Hpre & Hfree). pose proof (pidx_range (e_h e) k n ltac:(lia)) as Hp. rewrite Hn in Hp.
  eexists. split; [apply store_ok; lia|].
  assert (HP : Permutation (live (upd es (Z.to_nat p) e)) (e :: live es)) by (apply live_upd; [lia|assumption|assumption]).
  split; [|exact HP]. constructor; [assumption|now rewrite length_upd| |].
  - assert (Hkeep : forall q, 0 <= q -> HT.Valid (slot es q) = true -> HT.Valid (slot (upd es (Z.to_nat p) e) q) = true)
      by (intros q Hq Hv; rewrite slot_upd by lia; destruct (q =? p); assumption).
    intros q Hq Hv. rewrite length_upd in Hq. rewrite slot_upd in Hv |- * by lia. destruct (Z.eqb_spec q p) as [->|Hne].
    + exists n. split; [assumption|]. intros m Hm. apply Hkeep; [apply pidx_range; lia|now apply Hpre].
    + destruct (Hpl q Hq Hv) as (m & Hm & Hall). exists m. split; [assumption|]. intros j Hj. apply Hkeep; [apply pidx_range; lia|now apply Hall].
  - intros x Hx. eapply Permutation_in in Hx; [|exact HP]. destruct Hx as [<-|Hx]; auto.
Qed.

(** A probe that ends at a free slot has no match in the table. *)
Lemma probe_absent es k v cmp p e :
  slotsOk es k -> probeEnd es v (2 ^ k - 1) cmp p false -> In e (live es) -> e_h e = v -> cmp (e_val e) = false.
Proof.
  intros [Hk HL Hpl Hh] (n & Hn & Hpre & Hfree) Hin Heq. apply live_in in Hin as (q & Hq & Hslot & Hv).
  subst e. destruct (Hpl q Hq Hv) as (m & Hm & Hall). rewrite Heq in *.
  destruct (Nat.lt_trichotomy m n) as [Hlt|[->|Hgt]].
  - destruct (Hpre m Hlt) as [_ Hno]. rewrite Hm, Heq, Z.eqb_refl in Hno. exact Hno.
  - rewrite Hn in Hm. subst q. congruence.
  - specialize (Hall n Hgt). rewrite Hn in Hall. congruence.
Qed.

Lemma probe_found es k v cmp p :
  slotsOk es k -> v <> 0 -> probeEnd es v (2 ^ k - 1) cmp p true ->
  In (slot es p) (live es) /\ e_h (slot es p) = v /\ cmp (e_val (slot es p)) = true /\ 0 <= p < len es.
Proof.
  intros [Hk HL Hpl Hh] Hv (n & Hn & _ & Hm & Hc). pose proof (pidx_range v k n ltac:(lia)) as Hp. rewrite Hn in Hp.
  split; [|splits; auto; lia]. apply live_in. exists p. split; [lia|]. split; [reflexivity|]. unfold HT.Valid, sentinel. rewrite Hm. now rewrite (proj2 (Z.eqb_neq v 0)).
Qed.

(** [Lookup] in a table: a matching entry, or a slot to insert at when there is none. *)
Definition foundAt h (v : Z) (cmp : T -> bool) (p : Z) (ok : bool) : Prop :=
  if ok then In (slot (ht_entries h) p) (live (ht_entries h)) /\ e_h (slot (ht_entries h) p) = HT.fixHash v /\
             cmp (e_val (slot (ht_entries h) p)) = true /\ 0 <= p < len (ht_entries h)
  else (forall e, In e (live (ht_entries h)) -> e_h e = HT.fixHash v -> cmp (e_val e) = false) /\
       forall k, ht_capMask h = 2 ^ k - 1 -> slotsOk (ht_entries h) k -> probeEnd (ht_entries h) (HT.fixHash v) (2 ^ k - 1) cmp p false.

Lemma Lookup_ok h v cmp :
  htOk h -> 0 <= v < 2 ^ 64 -> exists p ok, HT.Lookup h v cmp = Some (p, ok) /\ foundAt h v cmp p ok.
Proof.
  intros [(k & Hk & Hcap & Hmask & HS) Hsize Hload] Hv. pose proof HS as [_ HL _ _]. pose proof (fixHash_range v Hv).
  destruct (lookup_ok (ht_entries h) v k cmp) as (p & ok & HE & HP); [lia|assumption|lia|assumption|].
  exists p, ok. unfold HT.Lookup. rewrite Hmask. split; [exact HE|]. destruct ok.
  - apply (probe_found _ k); [assumption|lia|assumption].
  - split; [intros e; now apply (probe_absent _ k _ _ p)|]. intros k' Hk' _.
    replace (2 ^ k' - 1) with (2 ^ k - 1) by lia. exact HP.
Qed.

(** ** Growing *)

Lemma slotsOk_empty k : 0 <= k <= 62 -> slotsOk (repeat (HT.emptyEntry zero) (Z.to_nat (2 ^ k))) k.
Proof.
  intros Hk. pose proof (pow2_pos k). constructor; [assumption|rewrite repeat_length; lia| |intros e; rewrite live_repeat; intros []].
  intros p Hp Hv. rewrite nth_repeat in Hv. discriminate.
Qed.

Lemma rehash_ok old es k :
  slotsOk es k -> (List.length (live es) + List.length old < List.length es)%nat -> hashesOk old ->
  exists es', HT.rehash old es (2 ^ k - 1) = Some es' /\ slotsOk es' k /\ Permutation (live es') (live old ++ live es).
Proof.
  revert es. induction old as [|e old IH]; intros es HS HL Hh; cbn [HT.rehash].
  { exists es. auto. }
  cbn [List.length] in HL. destruct (HT.Valid e) eqn:Ev.
  - assert (Hhe : 0 < e_h e < 2 ^ 64) by (apply Hh; unfold live; apply filter_In; split; [now left|assumption]).
    destruct (lookup_ok es (e_h e) k (fun _ => false)) as (p & ok & -> & HP); [apply HS|apply HS|lia|lia|]. cbn [opt_bind fst].
    assert (Hfix : HT.fixHash (e_h e) = e_h e) by (unfold HT.fixHash, sentinel; now rewrite (proj2 (Z.eqb_neq _ 0)) by lia).
    rewrite Hfix in HP. destruct ok; [destruct HP as (n & _ & _ & _ & ?); discriminate|].
    destruct (slotsOk_store es k _ p e HS Ev Hhe HP) as (es1 & -> & HS1 & HP1). cbn [opt_bind].
    assert (HL1 : List.length es1 = List.length es) by (destruct HS, HS1; lia).
    destruct (IH es1 HS1) as (es' & HE & HS' & HP'); [rewrite (Permutation_length HP1), HL1; cbn [List.length]; lia| |].
    { intros x Hx. apply Hh. unfold live in *. apply filter_In in Hx as [? ?]. apply filter_In. split; [now right|assumption]. }
    exists es'. split; [exact HE|]. split; [exact HS'|]. unfold live at 2. cbn [filter]. rewrite Ev. cbn [app]. fold (live old).
    etransitivity; [exact HP'|]. etransitivity; [apply Permutation_app_head, HP1|]. symmetry. apply Permutation_middle.
  - destruct (IH es HS) as (es' & HE & HS' & HP'); [lia| |].
    { intros x Hx. apply Hh. unfold live in *. apply filter_In in Hx as [? ?]. apply filter_In. split; [now right|assumption]. }
    exists es'. unfold live at 2. cbn [filter]. rewrite Ev. auto.
Qed.

Lemma upsize_ok h k newcap :
  slotsOk (ht_entries h) k -> 5 <= k <= 38 -> newcap = 2 ^ (k + 2) -> ht_size h = len (live (ht_entries h)) -> ht_size h * 2 <= 2 ^ (k + 1) ->
  exists h', HT.upsize zero h newcap = Some h' /\ htOk h' /\ Permutation (live (ht_entries h')) (live (ht_entries h)).
Proof.
  intros HS Hk -> Hsize Hload. unfold HT.upsize. pose proof (pow2_pos k ltac:(lia)).
  assert (Hpow : 2 ^ (k + 2) = 4 * 2 ^ k /\ 2 ^ (k + 1) = 2 * 2 ^ k) by (rewrite !Z.pow_add_r by lia; lia). destruct Hpow as [Hp2 Hp1].
  assert (Hmask : u64 (2 ^ (k + 2) - 1) = 2 ^ (k + 2) - 1) by (unfold u64; apply Z.mod_small; pose proof (pow2_le (k + 2) 40 ltac:(lia)); lia).
  rewrite Hmask. destruct (rehash_ok (ht_entries h) (repeat (HT.emptyEntry zero) (Z.to_nat (2 ^ (k + 2)))) (k + 2)) as (es' & -> & HS' & HP').
  - apply slotsOk_empty. lia.
  - rewrite live_repeat, repeat_length. cbn [List.length]. destruct HS. lia.
  - apply HS.
  - rewrite live_repeat, app_nil_r in HP'. cbn [opt_bind]. eexists. split; [reflexivity|]. split; [|exact HP'].
    constructor; cbn [ht_entries ht_cap ht_capMask ht_size]; [|now rewrite (Permutation_length HP')|lia].
    exists (k + 2). splits; auto; lia.
Qed.

(** [Insert] at the slot [Lookup] returned adds the entry, growing the table when half full. *)
Lemma Insert_ok h v val memoIdx cmp p :
  htOk h -> 0 <= v < 2 ^ 64 -> foundAt h v cmp p false -> ht_size h < 2 ^ 31 ->
  exists h', HT.Insert zero h p v val memoIdx = Some h' /\ htOk h' /\
    Permutation (live (ht_entries h')) (mkEntry (HT.fixHash v) val memoIdx :: live (ht_entries h)).
Proof.
  intros [(k & Hk & Hcap & Hmask & HS) Hsize Hload] Hv [_ Hend] Hmax. specialize (Hend k Hmask HS).
  set (e := mkEntry (HT.fixHash v) val memoIdx). pose proof (fixHash_range v Hv) as Hr.
  assert (He : HT.Valid e = true) by (unfold HT.Valid, sentinel; cbn [e e_h]; now rewrite (proj2 (Z.eqb_neq _ 0)) by lia).
  destruct (slotsOk_store (ht_entries h) k cmp p e HS He Hr Hend) as (es1 & HE1 & HS1 & HP1).
  unfold HT.Insert. fold e. rewrite HE1. cbn [opt_bind ht_size ht_cap ht_capMask].
  assert (Hs1 : u64 (ht_size h + 1) = len (live es1)).
  { rewrite (Permutation_length HP1). cbn [List.length]. unfold u64. rewrite Z.mod_small; lia. }
  assert (Heven : 2 ^ k = 2 * 2 ^ (k - 1)) by (rewrite <- Z.pow_succ_r by lia; f_equal; lia).
  pose proof (Permutation_length HP1) as HL1. cbn [List.length] in HL1.
  unfold HT.needUpsize, loadFactor. cbn [ht_size ht_cap]. rewrite Hs1.
  assert (Hd : u64 (len (live es1) * 2) = len (live es1) * 2) by (unfold u64; apply Z.mod_small; lia). rewrite Hd.
  destruct (Z.leb_spec (ht_cap h) (len (live es1) * 2)) as [Hup|Hno].
  - assert (Hk32 : k <= 32) by (destruct (Z.le_gt_cases k 32); [assumption|]; pose proof (pow2_le 33 k ltac:(lia)); lia).
    destruct (upsize_ok (mkHT (ht_cap h) (ht_capMask h) (len (live es1)) es1) k (u64 (ht_cap h * 2 * 2))) as (h' & -> & HO & HP);
      cbn [ht_entries ht_size]; [assumption|lia| |reflexivity|rewrite Z.pow_add_r by lia; lia|].
    + rewrite Hcap, Z.pow_add_r by lia. pose proof (pow2_le k 32 Hk32). unfold u64. rewrite Z.mod_small; lia.
    + exists h'. split; [reflexivity|]. split; [exact HO|]. etransitivity; [exact HP|exact HP1].
  - eexists. split; [reflexivity|]. split; [|exact HP1]. constructor; cbn [ht_entries ht_size ht_cap ht_capMask]; [|reflexivity|lia].
    exists k. auto.
Qed.

Lemma NextPowerOf2_range x : 32 <= x < 2 ^ 39 -> exists k, 5 <= k <= 40 /\ u64 (NextPowerOf2 (i64 x)) = 2 ^ k /\ x <= 2 ^ k.
Proof.
  intros Hx. assert (Hi : i64 x = x) by (unfold i64; rewrite Z.mod_small; lia). rewrite Hi.
  unfold NextPowerOf2, bitsLen. assert (Hu : u64 x = x) by (unfold u64; apply Z.mod_small; lia). rewrite Hu.
  rewrite (proj2 (Z.eqb_neq x 0)) by lia. pose proof (Z.log2_spec x ltac:(lia)) as Hl. rewrite <- Z.add_1_r in Hl.
  assert (5 <= Z.log2 x <= 38).
  { split; [change 5 with (Z.log2 32); apply Z.log2_le_mono; lia|]. enough (Z.log2 x < 39) by lia. apply Z.log2_lt_pow2; lia. }
  exists (Z.log2 x + 1). rewrite shiftl_mul, Z.mul_1_l by lia. pose proof (pow2_pos (Z.log2 x + 1)). pose proof (pow2_le (Z.log2 x + 1) 39 ltac:(lia)).
  split; [lia|]. split; [|lia]. unfold u64, i64. rewrite (Z.mod_small (_ + 9223372036854775808)) by lia. rewrite Z.mod_small; lia.
Qed.

Lemma NewHashTable_ok cap : 0 <= cap < 2 ^ 39 -> htOk (HT.NewHashTable zero cap) /\ live (ht_entries (HT.NewHashTable zero cap)) = [].
Proof.
  intros Hc. destruct (NextPowerOf2_range (Z.max cap 32) ltac:(lia)) as (k & Hk & Hpow & _). unfold HT.NewHashTable. rewrite Hpow.
  assert (Hmask : u64 (2 ^ k - 1) = 2 ^ k - 1) by (unfold u64; apply Z.mod_small; pose proof (pow2_le k 40 ltac:(lia)); pose proof (pow2_pos k); lia).
  rewrite Hmask. cbn [ht_entries]. split; [|apply live_repeat].
  constructor; cbn [ht_entries ht_size ht_cap ht_capMask]; [|now rewrite live_repeat|pose proof (pow2_pos k); lia].
  exists k. splits; auto; try lia. apply slotsOk_empty. lia.
Qed.

(** Adding entries known to be absent, as [Truncate] does. *)
Lemma truncate_fold size xs h :
  htOk h -> (forall e, In e xs -> 0 < e_h e < 2 ^ 64) -> ht_size h + len xs < 2 ^ 31 ->
  exists h', fold_left (fun o e => opt_bind o (fun truncated =>
       if size <=? u64 (e_memoIdx e) then Some truncated
       else
         r <- HT.Lookup truncated (e_h e) (fun _ => false) ;;
         HT.Insert zero truncated (fst r) (e_h e) (e_val e) (e_memoIdx e))) xs (Some h) = Some h' /\ htOk h' /\
    Permutation (live (ht_entries h')) (filter (fun e => negb (size <=? u64 (e_memoIdx e))) xs ++ live (ht_entries h)).
Proof.
  revert h. induction xs as [|e xs IH]; intros h HO Hh HL; cbn [fold_left filter opt_bind app].
  { exists h. auto. }
  cbn [List.length] in HL. destruct (size <=? u64 (e_memoIdx e)); cbn [negb].
  { destruct (IH h) as (h' & -> & HO' & HP); auto; [intros; apply Hh; now right|lia|]. exists h'. auto. }
  assert (Hhe : 0 < e_h e < 2 ^ 64) by (apply Hh; now left).
  destruct (Lookup_ok h (e_h e) (fun _ => false) HO ltac:(lia)) as (p & ok & -> & HF). cbn [opt_bind fst].
  destruct ok; [destruct HF as (_ & _ & ? & _); discriminate|].
  destruct (Insert_ok h (e_h e) (e_val e) (e_memoIdx e) _ p HO ltac:(lia) HF ltac:(lia)) as (h1 & -> & HO1 & HP1).
  assert (Hs1 : ht_size h1 = ht_size h + 1) by (destruct HO1 as [_ -> _]; rewrite (Permutation_length HP1); cbn [List.length]; destruct HO as [_ -> _]; lia).
  destruct (IH h1 HO1) as (h' & -> & HO' & HP); [intros; apply Hh; now right|lia|]. exists h'. split; [reflexivity|]. split; [exact HO'|].
  assert (He : mkEntry (HT.fixHash (e_h e)) (e_val e) (e_memoIdx e) = e).
  { unfold HT.fixHash, sentinel. rewrite (proj2 (Z.eqb_neq _ 0)) by lia. now destruct e. }
  rewrite He in HP1. etransitivity; [exact HP|]. etransitivity; [apply Permutation_app_head, HP1|]. symmetry. apply Permutation_middle.
Qed.

Lemma Truncate_ok h size :
  htOk h -> 0 <= size < 2 ^ 39 -> ht_size h < 2 ^ 31 ->
  exists h', HT.Truncate zero h size = Some h' /\ htOk h' /\
    Permutation (live (ht_entries h')) (filter (fun e => negb (size <=? u64 (e_memoIdx e))) (live (ht_entries h))).
Proof.
  intros HO Hsz Hmax. pose proof HO as [(k & _ & _ & _ & HS) Hsize _]. destruct (NewHashTable_ok size Hsz) as [HN HNl].
  unfold HT.Truncate, HT.VisitEntries. rewrite visit_live.
  destruct (truncate_fold size (live (ht_entries h)) _ HN) as (h' & -> & HO' & HP); [apply HS| |].
  - destruct HN as [_ -> _]. rewrite HNl. cbn [List.length]. lia.
  - exists h'. rewrite HNl, app_nil_r in HP. auto.
Qed.

(** ** Copying out *)

Lemma copy_fold start xs out d :
  (forall e, In e xs -> 0 <= e_memoIdx e < 2 ^ 31 /\ e_memoIdx e < start + len out) -> 0 <= start < 2 ^ 31 -> NoDup (map e_memoIdx xs) ->
  exists out', fold_left (fun o e => opt_bind o (HT.copyEntry start e)) xs (Some out) = Some out' /\
    List.length out' = List.length out /\
    (forall e, In e xs -> start <= e_memoIdx e -> nth (Z.to_nat (e_memoIdx e - start)) out' d = e_val e) /\
    (forall i, (forall e, In e xs -> e_memoIdx e - start <> Z.of_nat i) -> nth i out' d = nth i out d).
Proof.
  intros Hin Hs. revert out Hin. induction xs as [|e xs IH]; intros out Hin Hnd; cbn [fold_left opt_bind].
  { exists out. splits; auto. intros e []. }
  inversion Hnd as [|? ? Hni Hnd']; subst. destruct (Hin e (or_introl eq_refl)) as [He1 He2].
  assert (Hi : i32 (e_memoIdx e - i32 start) = e_memoIdx e - start).
  { unfold i32. rewrite (Z.mod_small (start + _)) by lia. rewrite Z.mod_small; lia. }
  unfold HT.copyEntry at 2. cbv zeta. rewrite Hi. destruct (Z.leb_spec 0 (e_memoIdx e - start)) as [Hge|Hlt].
  - rewrite store_ok by lia. destruct (IH (upd out (Z.to_nat (e_memoIdx e - start)) (e_val e))) as (out' & -> & HL & Hval & Hkeep); auto.
    { intros x Hx. rewrite length_upd. apply Hin. now right. }
    rewrite length_upd in HL. exists out'. splits; auto.
    + intros x [->|Hx] Hsx; [|now apply Hval]. rewrite Hkeep; [apply nth_upd_eq; lia|]. intros y Hy Heq. apply Hni.
      apply in_map_iff. exists y. split; [lia|assumption].
    + intros i Hi'. rewrite Hkeep by (intros y Hy; apply Hi'; now right). apply nth_upd_ne. specialize (Hi' e (or_introl eq_refl)). lia.
  - destruct (IH out) as (out' & -> & HL & Hval & Hkeep); auto; [intros x Hx; apply Hin; now right|].
    exists out'. splits; auto.
    + intros x [->|Hx] Hsx; [lia|now apply Hval].
    + intros i Hi'. apply Hkeep. intros y Hy. apply Hi'. now right.
Qed.

End Proofs.
