(* ===== verification/MemoTable.v ===== *)
(** * Memo tables (internal/hashing/xxh3_memo_table_types.go, hash_funcs.go)

    [Table[T]] maps distinct values, and possibly null, to consecutive indices in the order of
    their first insertion.  [MemoType] is what the table needs of its element type; the integer
    types of every width are the instance [IntMemo].  The abstract table is the list of the
    inserted values, null being [None]; [memo_table_refines] shows that no sequence of
    operations can tell the two apart. *)

From Stdlib Require Import ZArith List Lia Bool Permutation.
From S2P Require Import Prelude BitUtil HashTable.
Import ListNotations.
#[local] Open Scope Z_scope.
#[local] Open Scope go_scope.

Definition KeyNotFound : Z := -1.

(** ** Hashes of integers *)

(** [bits.ReverseBytes64] *)
Definition ReverseBytes64 (x : Z) : Z := leval (rev (lebytes 8 x)).

Definition multipliers : list Z := [11400714785074694791; 14029467366897019727].

Definition hashInt (val alg : Z) : Z := ReverseBytes64 (u64 (nth (Z.to_nat alg) multipliers 0 * val)).

(** What [Table] needs of an element type: the zero value, [hash] and [cmp.Compare(x, y) == 0]. *)
Class MemoType (T : Type) : Type := {
  memoZero : T;
  hash : T -> Z;
  cmpEq : T -> T -> bool
}.

Class MemoTypeOk (T : Type) `{MemoType T} : Prop := {
  hash_range : forall x, 0 <= hash x < 2 ^ 64;
  cmpEq_spec : forall x y, cmpEq x y = true <-> x = y
}.

(** The integer cases of [hash]. *)
#[export] Instance IntMemo : MemoType Z := { memoZero := 0; hash := fun v => hashInt (u64 v) 0; cmpEq := Z.eqb }.

Record Table (T : Type) : Type := mkTable { t_tbl : HashTable T; t_nullIdx : Z }.
Arguments mkTable {T}.
Arguments t_tbl {T}.
Arguments t_nullIdx {T}.

Module MT.
Section Ops.
Context {T : Type} `{MemoType T}.
Implicit Types (t : Table T).

Definition NewMemoTable (num : Z) : Table T := mkTable (HT.NewHashTable memoZero (u64 num)) KeyNotFound.

Definition Reset t : Table T := mkTable (HT.Reset memoZero (t_tbl t) 32) KeyNotFound.

Definition GetNull t : Z * bool := (t_nullIdx t, negb (t_nullIdx t =? KeyNotFound)).

Definition Size t : Z :=
  let sz := i64 (ht_size (t_tbl t)) in
  if snd (GetNull t) then sz + 1 else sz.

(** A panic is [None]. *)
Definition Truncate t (size : Z) : option (Table T) :=
  if size <? 0 then None
  else if Size t <=? size then Some t
  else
    tbl <- HT.Truncate memoZero (t_tbl t) (u64 size) ;;
    Some (mkTable tbl (if i32 size <=? t_nullIdx t then KeyNotFound else t_nullIdx t)).

Definition GetOrInsertNull t : Table T * Z * bool :=
  let '(idx, found) := GetNull t in
  if found : bool then (t, idx, found)
  else let idx := Size t in (mkTable (t_tbl t) (i32 idx), idx, found).

Definition CopyValuesSubset t (start : Z) (out : list T) : option (list T) := HT.CopyValuesSubset (t_tbl t) start out.

Definition CopyValues t (out : list T) : option (list T) := CopyValuesSubset t 0 out.

(** [Get] and [InsertOrGet] diverge, or index out of range, exactly if the probe does. *)
Definition Get t (z : T) : option (Z * bool) :=
  r <- HT.Lookup (t_tbl t) (hash z) (fun v => cmpEq z v) ;;
  if snd r : bool then e <- index (ht_entries (t_tbl t)) (fst r) ;; Some (e_memoIdx e, true)
  else Some (KeyNotFound, false).

Definition Exists t (val : T) : option bool := r <- Get t val ;; Some (snd r).

Definition InsertOrGet t (val : T) : option (Table T * Z * bool) :=
  let h := hash val in
  r <- HT.Lookup (t_tbl t) h (fun v => cmpEq val v) ;;
  if snd r : bool then e <- index (ht_entries (t_tbl t)) (fst r) ;; Some (t, e_memoIdx e, true)
  else
    let idx := Size t in
    tbl <- HT.Insert memoZero (t_tbl t) (fst r) h val (i32 idx) ;;
    Some (mkTable tbl (t_nullIdx t), idx, false).

Definition GetOrInsert t (val : T) : option (Table T * Z * bool) := InsertOrGet t val.

End Ops.
End MT.

(** ** The abstract table *)

Section Abstract.
Context {T : Type} `{MemoType T}.

Definition sameKey (x y : option T) : bool :=
  match x, y with
  | None, None => true
  | Some a, Some b => cmpEq a b
  | _, _ => false
  end.

(** The position of a value. *)
Fixpoint position (x : option T) (vs : list (option T)) : option Z :=
  match vs with
  | [] => None
  | y :: vs' => if sameKey x y then Some 0 else match position x vs' with Some i => Some (i + 1) | None => None end
  end.

(** Inserting a value unless it is there: the table, its index, whether it was there. *)
Definition specInsert (x : option T) (vs : list (option T)) : list (option T) * Z * bool :=
  match position x vs with
  | Some i => (vs, i, true)
  | None => (vs ++ [x], len vs, false)
  end.

Definition specGet (x : option T) (vs : list (option T)) : Z * bool :=
  match position x vs with Some i => (i, true) | None => (KeyNotFound, false) end.

(** The entries a hash table holds for [vs], whose first value has index [i]. *)
Fixpoint entriesOf (i : Z) (vs : list (option T)) : list (entry T) :=
  match vs with
  | [] => []
  | Some v :: vs' => mkEntry (HT.fixHash (hash v)) v i :: entriesOf (i + 1) vs'
  | None :: vs' => entriesOf (i + 1) vs'
  end.

Lemma entriesOf_app i vs ws : entriesOf i (vs ++ ws) = entriesOf i vs ++ entriesOf (i + len vs) ws.
Proof.
  revert i. induction vs as [|[v|] vs IH]; intros i; cbn [app entriesOf List.length].
  - now rewrite Z.add_0_r.
  - rewrite IH. cbn [app]. do 3 f_equal. lia.
  - rewrite IH. do 2 f_equal. lia.
Qed.

Lemma entriesOf_in i vs e :
  In e (entriesOf i vs) <-> exists j v, nth_error vs j = Some (Some v) /\ e = mkEntry (HT.fixHash (hash v)) v (i + Z.of_nat j).
Proof.
  revert i. induction vs as [|o vs IH]; intros i; cbn [entriesOf].
  { split; [intros []|intros ([|j] & v & ? & _); discriminate]. }
  assert (Hshift : (exists j v, nth_error vs j = Some (Some v) /\ e = mkEntry (HT.fixHash (hash v)) v (i + 1 + Z.of_nat j))
      <-> exists j v, nth_error (o :: vs) (S j) = Some (Some v) /\ e = mkEntry (HT.fixHash (hash v)) v (i + Z.of_nat (S j))).
  { split; intros (j & v & Hj & ->); exists j, v; (split; [exact Hj|]); f_equal; lia. }
  destruct o as [v|]; cbn [In].
  - rewrite IH, Hshift. split.
    + intros [<-|(j & w & ?)]; [exists O, v; split; [reflexivity|]; f_equal; lia|exists (S j), w; assumption].
    + intros ([|j] & w & Hj & ->); [left; injection Hj as <-; f_equal; cbn; lia|right; exists j, w; auto].
  - rewrite IH, Hshift. split.
    + intros (j & w & ?). now exists (S j), w.
    + intros ([|j] & w & Hj & ->); [discriminate|exists j, w; auto].
Qed.

Lemma entriesOf_count i vs : NoDup vs -> len (entriesOf i vs) + (match position None vs with Some _ => 1 | None => 0 end) = len vs.
Proof.
  revert i. induction vs as [|o vs IH]; intros i Hnd; [reflexivity|]. inversion Hnd as [|? ? Hni Hnd']; subst. specialize (IH (i + 1) Hnd').
  destruct o as [v|]; cbn [entriesOf position sameKey List.length].
  - destruct (position None vs); lia.
  - assert (Hp : position None vs = None).
    { clear -Hni. induction vs as [|[v|] vs IH]; cbn [position sameKey]; [reflexivity| |exfalso; apply Hni; now left].
      rewrite IH; [reflexivity|]. intros Hin. apply Hni. now right. }
    rewrite Hp in IH. lia.
Qed.

Lemma entriesOf_le i vs : NoDup vs -> len (entriesOf i vs) <= len vs.
Proof. intros Hnd. pose proof (entriesOf_count i vs Hnd). destruct (position None vs); lia. Qed.

Context `{!MemoTypeOk T}.

Lemma sameKey_spec x y : sameKey x y = true <-> x = y.
Proof.
  destruct x as [a|], y as [b|]; cbn [sameKey]; try (split; congruence).
  rewrite cmpEq_spec. split; congruence.
Qed.

Lemma position_some x vs i : position x vs = Some i -> 0 <= i < len vs /\ nth_error vs (Z.to_nat i) = Some x.
Proof.
  revert i. induction vs as [|y vs IH]; intros i; cbn [position List.length]; [discriminate|].
  destruct (sameKey x y) eqn:E.
  - intros Hi. injection Hi as <-. apply sameKey_spec in E as ->. split; [lia|reflexivity].
  - destruct (position x vs) as [j|]; [|discriminate]. intros Hi. assert (i = j + 1) by congruence. subst i. destruct (IH j eq_refl) as [Hj Hn].
    split; [lia|]. replace (Z.to_nat (j + 1)) with (S (Z.to_nat j)) by lia. exact Hn.
Qed.

Lemma position_none x vs : position x vs = None <-> ~ In x vs.
Proof.
  induction vs as [|y vs IH]; cbn [position In]; [tauto|]. destruct (sameKey x y) eqn:E.
  - apply sameKey_spec in E as ->. split; [discriminate|intros Hn; exfalso; auto].
  - assert (y <> x) by (intros ->; rewrite (proj2 (sameKey_spec x x) eq_refl) in E; discriminate).
    destruct (position x vs) as [i|]; [|tauto]. split; [discriminate|]. intros Hn. assert (Some i = None) by (apply IH; tauto). discriminate.
Qed.

(** Positions of distinct values are the only ones. *)
Lemma position_unique x vs j : NoDup vs -> nth_error vs j = Some x -> position x vs = Some (Z.of_nat j).
Proof.
  intros Hnd Hj. destruct (position x vs) as [i|] eqn:E.
  - apply position_some in E as [Hi Hn]. assert (Z.to_nat i = j) as <-.
    { apply (proj1 (NoDup_nth_error vs) Hnd); [apply nth_error_Some; congruence|congruence]. }
    f_equal. lia.
  - apply position_none in E. exfalso. apply E. eapply nth_error_In, Hj.
Qed.

End Abstract.

(** ** The representation *)

Section Refinement.
Context {T : Type} `{MemoTypeOk T}.
Implicit Types (t : Table T) (vs : list (option T)).

(** [t] holds the values [vs]. *)
Record memoRel t vs : Prop := mkMemoRel {
  mr_ok : htOk memoZero (t_tbl t);
  mr_live : Permutation (live (ht_entries (t_tbl t))) (entriesOf 0 vs);
  mr_nodup : NoDup vs;
  mr_null : t_nullIdx t = match position None vs with Some i => i | None => KeyNotFound end;
  mr_len : len vs <= MaxInt32
}.

Lemma Size_ok t vs : memoRel t vs -> MT.Size t = len vs.
Proof.
  intros [[_ Hsize _] HP Hnd Hnull Hlen]. unfold MT.Size, MT.GetNull. cbn [snd]. pose proof (entriesOf_count 0 vs Hnd) as Hc. pose proof (entriesOf_le 0 vs Hnd).
  rewrite Hsize, (Permutation_length HP), Hnull. unfold MaxInt32 in Hlen.
  assert (Hi : i64 (len (entriesOf 0 vs)) = len (entriesOf 0 vs)) by (unfold i64; rewrite Z.mod_small; lia). rewrite Hi.
  destruct (position None vs) as [i|] eqn:E; [|rewrite Z.eqb_refl; cbn [negb]; lia].
  apply position_some in E as [Hr _]. unfold KeyNotFound. rewrite (proj2 (Z.eqb_neq i (-1))) by lia. cbn [negb]. lia.
Qed.

Lemma GetNull_ok t vs : memoRel t vs -> MT.GetNull t = specGet None vs.
Proof.
  intros [_ _ _ Hnull _]. unfold MT.GetNull, specGet. rewrite Hnull. destruct (position None vs) as [i|] eqn:E; [|reflexivity].
  apply position_some in E as [Hr _]. unfold KeyNotFound. now rewrite (proj2 (Z.eqb_neq i (-1))) by lia.
Qed.

(** What a probe for [v] finds. *)
Lemma probe_memo t vs v :
  memoRel t vs -> exists p ok, HT.Lookup (t_tbl t) (hash v) (fun w => cmpEq v w) = Some (p, ok) /\
    (if ok : bool then exists e, index (ht_entries (t_tbl t)) p = Some e /\ position (Some v) vs = Some (e_memoIdx e)
     else position (Some v) vs = None /\ foundAt memoZero (t_tbl t) (hash v) (fun w => cmpEq v w) p false).
Proof.
  intros [HO HP Hnd _ _]. destruct (Lookup_ok memoZero (t_tbl t) (hash v) (fun w => cmpEq v w) HO (hash_range v)) as (p & ok & -> & HF).
  exists p, ok. split; [reflexivity|]. destruct ok.
  - destruct HF as (Hin & Hh & Hc & Hp). eexists. split; [now apply (index_ok _ _ (HT.emptyEntry memoZero))|].
    eapply Permutation_in in Hin; [|exact HP]. apply entriesOf_in in Hin as (j & w & Hj & He). rewrite He in Hc |- *. cbn [e_val e_memoIdx] in *.
    apply cmpEq_spec in Hc. subst w. rewrite Z.add_0_l. now apply position_unique.
  - split; [|exact HF]. destruct HF as [Habs _]. apply position_none. intros Hin. apply In_nth_error in Hin as [j Hj].
    assert (He : In (mkEntry (HT.fixHash (hash v)) v (0 + Z.of_nat j)) (live (ht_entries (t_tbl t)))).
    { eapply Permutation_in; [symmetry; exact HP|]. apply entriesOf_in. eauto. }
    specialize (Habs _ He eq_refl). cbn [e_val] in Habs. rewrite (proj2 (cmpEq_spec v v) eq_refl) in Habs. discriminate.
Qed.

Lemma Get_ok t vs v : memoRel t vs -> MT.Get t v = Some (specGet (Some v) vs).
Proof.
  intros HR. unfold MT.Get, specGet. destruct (probe_memo t vs v HR) as (p & ok & -> & Hok). cbn [opt_bind fst snd].
  destruct ok; [destruct Hok as (e & -> & ->); reflexivity|destruct Hok as [-> _]; reflexivity].
Qed.

(** Appending a value that is not there. *)
Lemma position_app x y vs : sameKey x y = false \/ In x vs -> position x (vs ++ [y]) = position x vs.
Proof.
  intros Hxy. induction vs as [|z vs IH]; cbn [app position].
  - destruct Hxy as [->|[]]; reflexivity.
  - destruct (sameKey x z) eqn:E; [reflexivity|]. rewrite IH; [reflexivity|]. destruct Hxy as [?|[->|?]]; auto.
    rewrite (proj2 (sameKey_spec x x) eq_refl) in E. discriminate.
Qed.

Lemma position_last x vs : position x vs = None -> position x (vs ++ [x]) = Some (len vs).
Proof.
  intros Hn. induction vs as [|z vs IH]; cbn [app position List.length] in *.
  - now rewrite (proj2 (sameKey_spec x x) eq_refl).
  - destruct (sameKey x z); [discriminate|]. destruct (position x vs); [discriminate|]. rewrite IH by reflexivity. f_equal. lia.
Qed.

Lemma NoDup_snoc (x : option T) vs : NoDup vs -> ~ In x vs -> NoDup (vs ++ [x]).
Proof. intros Hnd Hni. apply NoDup_app; [assumption|repeat constructor; auto|]. intros y Hy [<-|[]]. auto. Qed.

Lemma InsertOrGet_ok t vs v :
  memoRel t vs -> len vs < MaxInt32 ->
  let '(vs', idx, found) := specInsert (Some v) vs in
  exists t', MT.InsertOrGet t v = Some (t', idx, found) /\ memoRel t' vs'.
Proof.
  intros HR Hmax. unfold MT.InsertOrGet, specInsert. destruct (probe_memo t vs v HR) as (p & ok & -> & Hok). cbn [opt_bind fst snd].
  destruct ok; [destruct Hok as (e & -> & ->); exists t; split; [reflexivity|assumption]|]. destruct Hok as [Hpos HF]. rewrite Hpos.
  rewrite (Size_ok t vs HR). pose proof HR as [HO HP Hnd Hnull Hlen]. unfold MaxInt32 in *.
  assert (Hi : i32 (len vs) = len vs) by (unfold i32; rewrite Z.mod_small; lia). rewrite Hi.
  assert (Hsz : ht_size (t_tbl t) < 2 ^ 31).
  { destruct HO as [_ -> _]. rewrite (Permutation_length HP). pose proof (entriesOf_le 0 vs Hnd). lia. }
  destruct (Insert_ok memoZero (t_tbl t) (hash v) v (len vs) _ p HO (hash_range v) HF Hsz) as (tbl & -> & HO' & HP').
  cbn [opt_bind]. eexists. split; [reflexivity|]. constructor; cbn [t_tbl t_nullIdx].
  - assumption.
  - rewrite entriesOf_app. cbn [entriesOf]. rewrite Z.add_0_l. etransitivity; [exact HP'|]. etransitivity; [apply perm_skip, HP|].
    apply Permutation_cons_append.
  - apply NoDup_snoc; [assumption|]. now apply position_none.
  - rewrite position_app by now left. exact Hnull.
  - rewrite length_app. cbn [List.length]. unfold MaxInt32. lia.
Qed.

Lemma GetOrInsertNull_ok t vs :
  memoRel t vs -> len vs < MaxInt32 ->
  let '(vs', idx, found) := specInsert None vs in
  exists t', MT.GetOrInsertNull t = (t', idx, found) /\ memoRel t' vs'.
Proof.
  intros HR Hmax. unfold MT.GetOrInsertNull, specInsert. rewrite (GetNull_ok t vs HR). unfold specGet.
  destruct (position None vs) as [i|] eqn:E; [exists t; auto|]. rewrite (Size_ok t vs HR). eexists. split; [reflexivity|].
  destruct HR as [HO HP Hnd Hnull Hlen]. unfold MaxInt32 in *. constructor; cbn [t_tbl t_nullIdx]; auto.
  - rewrite entriesOf_app. cbn [entriesOf]. now rewrite app_nil_r.
  - apply NoDup_snoc; [assumption|]. now apply position_none.
  - rewrite position_last by assumption. unfold i32. rewrite Z.mod_small; lia.
  - rewrite length_app. cbn [List.length]. unfold MaxInt32. lia.
Qed.

(** Dropping the last values. *)
Lemma position_firstn x vs n : 
  position x (firstn n vs) = match position x vs with Some i => if i <? Z.of_nat n then Some i else None | None => None end.
Proof.
  revert n. induction vs as [|y vs IH]; intros [|n]; cbn [firstn position]; try reflexivity.
  - destruct (sameKey x y); [reflexivity|]. destruct (position x vs) as [i|] eqn:E; [|reflexivity]. apply position_some in E as [Hi _].
    now rewrite (proj2 (Z.ltb_ge (i + 1) (Z.of_nat 0))) by lia.
  - destruct (sameKey x y); [now rewrite (proj2 (Z.ltb_lt 0 (Z.of_nat (S n)))) by lia|]. rewrite IH.
    destruct (position x vs) as [i|]; [|reflexivity]. destruct (Z.ltb_spec i (Z.of_nat n)), (Z.ltb_spec (i + 1) (Z.of_nat (S n))); auto; lia.
Qed.

Lemma entriesOf_firstn i vs n :
  0 <= i -> i + len vs < 2 ^ 63 ->
  filter (fun e => negb (i + Z.of_nat n <=? u64 (e_memoIdx e))) (entriesOf i vs) = entriesOf i (firstn n vs).
Proof.
  revert i n. induction vs as [|o vs IH]; intros i n Hi Hmax; [now rewrite firstn_nil|]. cbn [List.length] in Hmax.
  destruct n as [|n].
  - cbn [firstn]. replace (i + Z.of_nat 0) with i by lia. enough (Hall : forall j, i <= j -> j + len (o :: vs) < 2 ^ 63 ->
      filter (fun e => negb (i <=? u64 (e_memoIdx e))) (entriesOf j (o :: vs)) = []) by (apply Hall; [lia|cbn [List.length]; lia]).
    clear -Hi. generalize (o :: vs). intros l. induction l as [|[v|] l IH]; intros j Hj Hmax; cbn [entriesOf filter List.length] in *; [reflexivity| |apply IH; lia].
    cbn [e_memoIdx]. unfold u64. rewrite Z.mod_small, (proj2 (Z.leb_le i j)) by lia. cbn [negb]. apply IH; lia.
  - specialize (IH (i + 1) n ltac:(lia) ltac:(lia)). replace (i + 1 + Z.of_nat n) with (i + Z.of_nat (S n)) in IH by lia.
    destruct o as [v|]; cbn [firstn entriesOf filter]; [|exact IH]. cbn [e_memoIdx]. unfold u64 at 1. rewrite Z.mod_small by lia.
    rewrite (proj2 (Z.leb_gt (i + Z.of_nat (S n)) i)) by lia. cbn [negb]. now rewrite IH.
Qed.

Lemma NoDup_firstn {A} (l : list A) n : NoDup l -> NoDup (firstn n l).
Proof. intros Hnd. rewrite <- (firstn_skipn n l) in Hnd. now apply NoDup_app_remove_r in Hnd. Qed.

Lemma filter_permutation {A} (f : A -> bool) l l' : Permutation l l' -> Permutation (filter f l) (filter f l').
Proof.
  induction 1 as [|x l l' _ IH|x y l|l1 l2 l3 _ IH1 _ IH2]; cbn [filter]; auto; [destruct (f x); auto| |now transitivity (filter f l2)].
  destruct (f x), (f y); auto. apply perm_swap.
Qed.

Lemma Truncate_memo t vs n : memoRel t vs -> 0 <= n -> exists t', MT.Truncate t n = Some t' /\ memoRel t' (firstn (Z.to_nat n) vs).
Proof.
  intros HR Hn. unfold MT.Truncate. rewrite (proj2 (Z.ltb_ge n 0)) by lia. rewrite (Size_ok t vs HR). destruct (Z.leb_spec (len vs) n).
  { exists t. rewrite firstn_all2 by lia. auto. }
  destruct HR as [HO HP Hnd Hnull Hlen]. unfold MaxInt32 in Hlen. assert (Hu : u64 n = n) by (unfold u64; apply Z.mod_small; lia). rewrite Hu.
  assert (Hi : i32 n = n) by (unfold i32; rewrite Z.mod_small; lia). rewrite Hi.
  destruct (Truncate_ok memoZero (t_tbl t) n HO ltac:(lia)) as (tbl & -> & HO' & HP').
  { destruct HO as [_ -> _]. rewrite (Permutation_length HP). pose proof (entriesOf_le 0 vs Hnd). lia. }
  cbn [opt_bind]. eexists. split; [reflexivity|]. constructor; cbn [t_tbl t_nullIdx]; auto using NoDup_firstn.
  - rewrite <- (entriesOf_firstn 0) by lia. rewrite Z.add_0_l, Z2Nat.id by lia. etransitivity; [exact HP'|]. now apply filter_permutation.
  - rewrite position_firstn, Hnull, Z2Nat.id by lia. destruct (position None vs) as [i|]; [|unfold KeyNotFound; now rewrite (proj2 (Z.leb_gt n (-1))) by lia].
    destruct (Z.leb_spec n i), (Z.ltb_spec i n); try lia; reflexivity.
  - rewrite length_firstn. unfold MaxInt32. lia.
Qed.

Lemma New_memo num : 0 <= num < 2 ^ 39 -> memoRel (MT.NewMemoTable num) [].
Proof.
  intros Hn. assert (Hu : u64 num = num) by (unfold u64; apply Z.mod_small; lia). destruct (NewHashTable_ok memoZero num Hn) as [HO HL].
  constructor; cbn [MT.NewMemoTable t_tbl t_nullIdx position entriesOf]; rewrite ?Hu; auto; [now rewrite HL|constructor|unfold MaxInt32; cbn; lia].
Qed.

Lemma Reset_memo t : memoRel (MT.Reset t) [].
Proof. apply (New_memo 32). lia. Qed.

(** Copying out. *)
Lemma entriesOf_nodup i vs : NoDup (map e_memoIdx (entriesOf i vs)).
Proof.
  revert i. induction vs as [|[v|] vs IH]; intros i; cbn [entriesOf map]; [constructor| |apply IH]. constructor; [|apply IH].
  cbn [e_memoIdx]. intros Hin. apply in_map_iff in Hin as (e & He & Hin). apply entriesOf_in in Hin as (j & w & _ & ->). cbn [e_memoIdx] in He. lia.
Qed.

(** A null leaves a hole. *)
Definition valueOr (d : T) (o : option T) : T := match o with Some v => v | None => d end.

Lemma CopyValuesSubset_memo t vs start :
  memoRel t vs -> 0 <= start < 2 ^ 31 ->
  MT.CopyValuesSubset t start (repeat memoZero (List.length vs - Z.to_nat start)) = Some (map (valueOr memoZero) (skipn (Z.to_nat start) vs)).
Proof.
  intros [HO HP Hnd Hnull Hlen] Hs. unfold MaxInt32 in Hlen. unfold MT.CopyValuesSubset, HT.CopyValuesSubset, HT.VisitEntries. rewrite visit_live.
  destruct (copy_fold start (live (ht_entries (t_tbl t))) (repeat memoZero (List.length vs - Z.to_nat start)) memoZero)
    as (out' & -> & HL & Hval & Hkeep); [|assumption|eapply Permutation_NoDup; [apply Permutation_map; symmetry; exact HP|apply entriesOf_nodup]|].
  { intros e He. eapply Permutation_in in He; [|exact HP]. apply entriesOf_in in He as (j & v & Hj & ->). cbn [e_memoIdx].
    assert ((j < List.length vs)%nat) by (apply nth_error_Some; congruence). rewrite repeat_length. lia. }
  f_equal. rewrite repeat_length in HL. apply (nth_ext_eq _ _ memoZero); [now rewrite length_map, length_skipn|].
  intros i Hi. rewrite HL in Hi. rewrite (nth_indep (map _ _) _ (valueOr memoZero None)) by (rewrite length_map, length_skipn; lia).
  rewrite map_nth, nth_skipn. set (j := (Z.to_nat start + i)%nat). assert (Hj : nth_error vs j = Some (nth j vs None)) by (apply nth_error_nth'; lia).
  destruct (nth j vs None) as [v|] eqn:Ev; cbn [valueOr].
  - specialize (Hval (mkEntry (HT.fixHash (hash v)) v (0 + Z.of_nat j))). cbn [e_memoIdx e_val] in Hval.
    replace (Z.to_nat (0 + Z.of_nat j - start)) with i in Hval by lia. apply Hval; [|lia].
    eapply Permutation_in; [symmetry; exact HP|]. apply entriesOf_in. eauto.
  - rewrite Hkeep; [apply nth_repeat|]. intros e He. eapply Permutation_in in He; [|exact HP].
    apply entriesOf_in in He as (j' & v & Hj' & ->). cbn [e_memoIdx]. intros Heq. assert (j' = j) by lia. subst j'. congruence.
Qed.

(** ** Sequences of operations *)

Inductive memoOp : Type :=
  | OpInsertOrGet (v : T)
  | OpGetOrInsertNull
  | OpGet (v : T)
  | OpGetNull
  | OpSize
  | OpTruncate (size : Z)
  | OpReset
  | OpCopyValues (start : Z).

(** What an operation returns: an index and a flag, a size, nothing, or values. *)
Inductive memoRes : Type :=
  | ResIndex (idx : Z) (found : bool)
  | ResSize (n : Z)
  | ResUnit
  | ResValues (vs : list T).

(** An operation on the table; values are copied into a slice made for them. *)
Definition memoStep t (op : memoOp) : option (Table T * memoRes) :=
  match op with
  | OpInsertOrGet v => r <- MT.InsertOrGet t v ;; let '(t', idx, found) := r in Some (t', ResIndex idx found)
  | OpGetOrInsertNull => let '(t', idx, found) := MT.GetOrInsertNull t in Some (t', ResIndex idx found)
  | OpGet v => r <- MT.Get t v ;; Some (t, ResIndex (fst r) (snd r))
  | OpGetNull => let '(idx, found) := MT.GetNull t in Some (t, ResIndex idx found)
  | OpSize => Some (t, ResSize (MT.Size t))
  | OpTruncate n => t' <- MT.Truncate t n ;; Some (t', ResUnit)
  | OpReset => Some (MT.Reset t, ResUnit)
  | OpCopyValues start =>
      out <- MT.CopyValuesSubset t start (repeat memoZero (Z.to_nat (MT.Size t - start))) ;; Some (t, ResValues out)
  end.

Fixpoint memoRun t (ops : list memoOp) : option (list memoRes) :=
  match ops with
  | [] => Some []
  | op :: ops' => r <- memoStep t op ;; rs <- memoRun (fst r) ops' ;; Some (snd r :: rs)
  end.

(** The same on the abstract table. *)
Definition specStep vs (op : memoOp) : list (option T) * memoRes :=
  match op with
  | OpInsertOrGet v => let '(vs', idx, found) := specInsert (Some v) vs in (vs', ResIndex idx found)
  | OpGetOrInsertNull => let '(vs', idx, found) := specInsert None vs in (vs', ResIndex idx found)
  | OpGet v => let '(idx, found) := specGet (Some v) vs in (vs, ResIndex idx found)
  | OpGetNull => let '(idx, found) := specGet None vs in (vs, ResIndex idx found)
  | OpSize => (vs, ResSize (len vs))
  | OpTruncate n => (firstn (Z.to_nat n) vs, ResUnit)
  | OpReset => ([], ResUnit)
  | OpCopyValues start => (vs, ResValues (map (valueOr memoZero) (skipn (Z.to_nat start) vs)))
  end.

Fixpoint specRun vs (ops : list memoOp) : list memoRes :=
  match ops with
  | [] => []
  | op :: ops' => let '(vs', r) := specStep vs op in r :: specRun vs' ops'
  end.

(** The arguments an operation takes: [Truncate] panics on a negative size. *)
Definition opOk (op : memoOp) : Prop :=
  match op with
  | OpTruncate n => 0 <= n
  | OpCopyValues start => 0 <= start < 2 ^ 31
  | _ => True
  end.

(** A step keeps the representation, and at most one value is added. *)
Lemma memoStep_ok t vs op :
  memoRel t vs -> len vs < MaxInt32 -> opOk op ->
  exists t', memoStep t op = Some (t', snd (specStep vs op)) /\ memoRel t' (fst (specStep vs op)) /\ len (fst (specStep vs op)) <= len vs + 1.
Proof.
  intros HR Hmax Hop. assert (Hins : forall x, len (fst (fst (specInsert x vs))) <= len vs + 1).
  { intros x. unfold specInsert. destruct (position x vs); cbn [fst]; rewrite ?length_app; cbn [List.length]; lia. }
  destruct op; cbn [memoStep specStep opOk] in *.
  - pose proof (InsertOrGet_ok t vs v HR Hmax) as Hi. specialize (Hins (Some v)). destruct (specInsert (Some v) vs) as [[vs' idx] found].
    destruct Hi as (t' & -> & HR'). exists t'. auto.
  - pose proof (GetOrInsertNull_ok t vs HR Hmax) as Hi. specialize (Hins None). destruct (specInsert None vs) as [[vs' idx] found].
    destruct Hi as (t' & -> & HR'). exists t'. auto.
  - rewrite (Get_ok t vs v HR). destruct (specGet (Some v) vs). exists t. cbn [opt_bind fst snd]. splits; auto. lia.
  - rewrite (GetNull_ok t vs HR). destruct (specGet None vs). exists t. cbn [fst snd]. splits; auto. lia.
  - exists t. rewrite (Size_ok t vs HR). cbn [fst snd]. splits; auto. lia.
  - destruct (Truncate_memo t vs size HR Hop) as (t' & -> & HR'). exists t'. cbn [opt_bind fst snd]. splits; auto. rewrite length_firstn. lia.
  - exists (MT.Reset t). cbn [fst snd List.length]. splits; auto using Reset_memo. lia.
  - exists t. rewrite (Size_ok t vs HR). replace (Z.to_nat (len vs - start)) with (List.length vs - Z.to_nat start)%nat by lia.
    rewrite (CopyValuesSubset_memo t vs start HR Hop). cbn [opt_bind fst snd]. splits; auto. lia.
Qed.

Lemma memoRun_ok t vs ops :
  memoRel t vs -> len vs + len ops <= MaxInt32 -> Forall opOk ops -> memoRun t ops = Some (specRun vs ops).
Proof.
  revert t vs. induction ops as [|op ops IH]; intros t vs HR Hmax Hok; [reflexivity|]. cbn [List.length] in Hmax.
  inversion Hok as [|? ? Ho Hos]; subst. destruct (memoStep_ok t vs op HR ltac:(lia) Ho) as (t' & HE & HR' & HL).
  cbn [memoRun specRun]. rewrite HE. cbn [opt_bind fst snd]. rewrite (IH t' _ HR'); [|lia|assumption]. cbn [opt_bind].
  now destruct (specStep vs op).
Qed.

End Refinement.

(** ** The integer types *)

#[export] Instance IntMemo_ok : MemoTypeOk Z.
Proof.
  constructor; [|intros x y; apply Z.eqb_eq]. intros x. cbn [hash IntMemo]. unfold hashInt, ReverseBytes64. generalize (u64 (nth (Z.to_nat 0) multipliers 0 * u64 x)). intros y.
  pose proof (leval_bound (rev (lebytes 8 y))) as Hb. rewrite length_rev, length_lebytes in Hb. apply Hb, Forall_rev. change (bytes (lebytes 8 y)). auto with gobytes.
Qed.

(** ** Claims *)

(** C14: a memo table is the list of its distinct values in insertion order: whatever the
    operations and their order, growing and truncating included, every operation ends without
    panic and returns what the abstract table returns (indices, flags, sizes, copied values). *)
Theorem memo_table_refines num (ops : list (memoOp (T := Z))) :
  0 <= num < 2 ^ 39 -> len ops <= MaxInt32 -> Forall opOk ops ->
  memoRun (MT.NewMemoTable num) ops = Some (specRun [] ops).
Proof. intros Hn Hm Hok. apply memoRun_ok; [now apply New_memo|cbn [List.length]; lia|assumption]. Qed.

Lemma memo_table_witness :
  memoRun (MT.NewMemoTable 0) [OpInsertOrGet 7; OpInsertOrGet (-3); OpGetOrInsertNull; OpInsertOrGet 7; OpInsertOrGet 11; OpCopyValues 1; OpTruncate 2; OpGet 11; OpGetNull; OpSize]
    = Some (specRun [] [OpInsertOrGet 7; OpInsertOrGet (-3); OpGetOrInsertNull; OpInsertOrGet 7; OpInsertOrGet 11; OpCopyValues 1; OpTruncate 2; OpGet 11; OpGetNull; OpSize]).
Proof.
  apply (memo_table_refines 0); [lia|vm_compute; discriminate|repeat constructor; cbn; lia].
Defined.

Example memo_table_run :
  specRun (T := Z) [] [OpInsertOrGet 7; OpInsertOrGet (-3); OpGetOrInsertNull; OpInsertOrGet 7; OpInsertOrGet 11; OpCopyValues 1; OpTruncate 2; OpGet 11; OpGetNull; OpSize]
    = [ResIndex 0 false; ResIndex 1 false; ResIndex 2 false; ResIndex 0 true; ResIndex 3 false; ResValues [-3; 0; 11]; ResUnit; ResIndex (-1) false; ResIndex (-1) false; ResSize 2].
Proof. reflexivity. Qed.
