(* ===== verification/DictDecode.v ===== *)
(** * Plain and dictionary decoding (parquet/internal/encoding and parquet/internal/utils)

    [PD] is [PlainDecoder] for the integer types, [DC] the [dictConverter], which decodes the
    dictionary lazily, [TRD] the dictionary batches of [TypedRleDecoder], [DictD] the
    dictionary decoder of a column.  The RLE loop is written against the interface
    [DictionaryConverter]; [ConverterOk] is what the loop may rely on, and the converter over a
    dictionary discharges it. *)

From Stdlib Require Import ZArith List Lia Bool String.
From S2P Require Import Prelude GoStd BitUtil BitPacking BitReader BitReaderIndex RleFormat RleDecoder MathUtil.
Import ListNotations.
#[local] Open Scope Z_scope.
#[local] Open Scope go_scope.

(** ** Plain decoding *)

(** A value of [w] bytes, as a signed integer, and [k] of them ([fromBytes]). *)
Definition fixedValue (w : nat) (bs : list Z) : Z := wrapS (8 * Z.of_nat w) (leval (firstn w bs)).

Fixpoint fromBytes (w k : nat) (src : list Z) : list Z :=
  match k with
  | O => []
  | S k' => fixedValue w src :: fromBytes w k' (skipn w src)
  end.

(** [getBytes] of a slice of such values. *)
Fixpoint getBytes (w : nat) (vs : list Z) : list Z :=
  match vs with
  | [] => []
  | v :: vs' => lebytes w v ++ getBytes w vs'
  end.

Lemma nth_getBytes w vs e s : (s < w)%nat -> (e < List.length vs)%nat -> nth (w * e + s) (getBytes w vs) 0 = nth s (lebytes w (nth e vs 0)) 0.
Proof.
  intros Hs. revert e. induction vs as [|v vs IH]; intros e He; cbn [List.length] in He; [lia|]. cbn [getBytes]. destruct e as [|e].
  - rewrite Nat.mul_0_r, app_nth1 by (rewrite length_lebytes; lia). reflexivity.
  - rewrite app_nth2 by (rewrite length_lebytes; lia). rewrite length_lebytes. cbn [nth]. rewrite <- IH by lia. f_equal. lia.
Qed.

(** What a decoder of dictionary values offers ([Decoder[T]]); a panic is [None]. *)
Class ValueDecoder (V T : Type) : Type := {
  vdDecode : V -> list T -> option (V * list T * Z * option goerr);
  vdValuesLeft : V -> Z
}.

Record PlainDecoder : Type := mkPD { pd_nvals : Z; pd_data : list Z }.

Module PD.
Section Width.
(** The size of the type in bytes. *)
Variable w : nat.

Definition SetData (d : PlainDecoder) (nvals : Z) (data : list Z) : PlainDecoder := mkPD nvals data.

Definition ValuesLeft (d : PlainDecoder) : Z := pd_nvals d.

Definition requiredBytes (n : Z) : Z := Z.of_nat w * n.

Definition Decode (d : PlainDecoder) (out : list Z) : option (PlainDecoder * list Z * Z * option goerr) :=
  let max := Z.min (len out) (pd_nvals d) in
  let nbytes := requiredBytes max in
  if (len (pd_data d) <? nbytes) || (MaxInt32 <? nbytes)
  then Some (d, out, 0, Some (ErrMsg "parquet: eof exception decode plain"))
  else
    src <- slice (pd_data d) 0 nbytes ;;
    rest <- slice (pd_data d) nbytes (len (pd_data d)) ;;
    Some (mkPD (pd_nvals d - max) rest, fromBytes w (Z.to_nat max) src ++ skipn (Z.to_nat max) out, max, None).

Definition Discard (d : PlainDecoder) (n : Z) : option (PlainDecoder * Z * option goerr) :=
  let n := Z.min n (pd_nvals d) in
  let nbytes := requiredBytes n in
  if (len (pd_data d) <? nbytes) || (MaxInt32 <? nbytes)
  then Some (d, 0, Some (ErrMsg "parquet: eof exception discard plain"))
  else
    rest <- slice (pd_data d) nbytes (len (pd_data d)) ;;
    Some (mkPD (pd_nvals d - n) rest, n, None).

(** The plain decoder decodes dictionary pages. *)
Definition PlainDecoder_values : ValueDecoder PlainDecoder Z := {| vdDecode := Decode; vdValuesLeft := ValuesLeft |}.

End Width.
End PD.

(** ** The converter *)

(** [utils.DictionaryConverter[T]]; a panic is [None]. *)
Class DictionaryConverter (D T : Type) : Type := {
  dcCopy : D -> list T -> list Z -> option (D * list T * option goerr);
  dcFill : D -> list T -> Z -> option (D * list T * option goerr);
  dcFillZero : D -> list T -> option (list T);
  dcIsValid : D -> list Z -> option (D * bool);
  dcIsValidSingle : D -> Z -> option (D * bool)
}.

(** [o[0] = v; for i := 1; i < len(o); i *= 2 { copy(o[i:], o[:i]) }] *)
Fixpoint doubling {T} (fuel : nat) (o : list T) (i : Z) : list T :=
  match fuel with
  | O => o
  | S fuel' =>
      if i <? len o then doubling fuel' (splice o (Z.to_nat i) (firstn (Z.to_nat i) o)) (i * 2) else o
  end.

Definition fillDoubling {T} (o : list T) (v : T) : option (list T) :=
  o' <- store o 0 v ;; Some (doubling (List.length o) o' 1).

Record dictConverter (V T : Type) : Type := mkDC {
  dc_valueDecoder : V;
  dc_dictLen : Z;
  dc_dict : list T;
  dc_zeroVal : T
}.
Arguments mkDC {V T}.
Arguments dc_valueDecoder {V T}.
Arguments dc_dictLen {V T}.
Arguments dc_dict {V T}.
Arguments dc_zeroVal {V T}.

Module DC.
Section Ops.
Context {V T : Type} `{ValueDecoder V T}.
Implicit Types dc : dictConverter V T.

Definition NewDictConverter (zeroVal : T) (dict : V) : dictConverter V T := mkDC dict (vdValuesLeft dict) [] zeroVal.

Definition ensure dc (idx : Z) : option (dictConverter V T * option goerr) :=
  if (idx <? 0) || (dc_dictLen dc <=? idx) then Some (dc, Some (ErrMsg "parquet: dictionary index is out of range"))
  else if len (dc_dict dc) <=? idx then
    let val := repeat (dc_zeroVal dc) (Z.to_nat (idx + 1 - len (dc_dict dc))) in
    res <- vdDecode (dc_valueDecoder dc) val ;;
    let '(vd, val', n, err) := res in
    let dc1 := mkDC vd (dc_dictLen dc) (dc_dict dc) (dc_zeroVal dc) in
    match err with
    | Some e => Some (dc1, Some e)
    | None =>
        if negb (n =? len val) then Some (dc1, Some (ErrMsg "parquet: dictionary contains fewer values than declared"))
        else Some (mkDC vd (dc_dictLen dc) (dc_dict dc ++ firstn (Z.to_nat n) val') (dc_zeroVal dc), None)
    end
  else Some (dc, None).

(** The error of [ensure] is dropped by both. *)
Definition IsValid dc (idxes : list Z) : option (dictConverter V T * bool) :=
  let '(mn, mx) := int32MinMax idxes in
  res <- ensure dc mx ;;
  let dc := fst res in
  Some (dc, (0 <=? mn) && (mn <? len (dc_dict dc)) && (0 <=? mx) && (mx <? len (dc_dict dc))).

Definition IsValidSingle dc (idx : Z) : option (dictConverter V T * bool) :=
  res <- ensure dc idx ;;
  let dc := fst res in Some (dc, (0 <=? idx) && (idx <? len (dc_dict dc))).

Definition Fill dc (o : list T) (val : Z) : option (dictConverter V T * list T * option goerr) :=
  res <- ensure dc val ;;
  match res with
  | (dc, Some e) => Some (dc, o, Some e)
  | (dc, None) => v <- index (dc_dict dc) val ;; o' <- fillDoubling o v ;; Some (dc, o', None)
  end.

Definition FillZero dc (o : list T) : option (list T) := fillDoubling o (dc_zeroVal dc).

(** The loop of [Copy]; the build without assembly, in which [utils.CopyDictionary] declines. *)
Fixpoint copyLoop (dict : list T) (o : list T) (i : Z) (vals : list Z) : option (list T) :=
  match vals with
  | [] => Some o
  | val :: vals' => v <- index dict val ;; o' <- store o i v ;; copyLoop dict o' (i + 1) vals'
  end.

Definition Copy dc (o : list T) (vals : list Z) : option (dictConverter V T * list T * option goerr) :=
  o' <- copyLoop (dc_dict dc) o 0 vals ;; Some (dc, o', None).

#[export] Instance dictConverter_ops : DictionaryConverter (dictConverter V T) T := {
  dcCopy := Copy;
  dcFill := Fill;
  dcFillZero := FillZero;
  dcIsValid := IsValid;
  dcIsValidSingle := IsValidSingle
}.

End Ops.
End DC.
Export (hints) DC.

(** ** Batches through the dictionary *)

Module TRD.
Section Ops.
Context {D T : Type} `{DictionaryConverter D T}.

(** The loop of [GetBatchWithDict] over what is left of the slice: the decoder, the converter,
    the slice afterwards, the number of values, the error. *)
Fixpoint dictLoop (fuel : nat) (r : RleDecoder) (dc : D) (vals : list T)
    : option (RleDecoder * D * list T * Z * option goerr) :=
  if len vals =? 0 then Some (r, dc, vals, 0, None)
  else
    match fuel with
    | O => None
    | S fuel' =>
        let remain := len vals in
        if 0 <? rd_repCount r then
          let idx := i32 (rd_curVal r) in
          v <- dcIsValidSingle dc idx ;;
          match v with
          | (dc1, false) => Some (r, dc1, vals, 0, None)
          | (dc1, true) =>
              let batch := Z.min remain (rd_repCount r) in
              f <- dcFill dc1 (firstn (Z.to_nat batch) vals) idx ;;
              let '(dc2, o, err) := f in
              match err with
              | Some e => Some (r, dc2, o ++ skipn (Z.to_nat batch) vals, 0, Some e)
              | None =>
                  let r1 := mkRD (rd_r r) (rd_bitWidth r) (rd_curVal r) (rd_repCount r - batch) (rd_litCount r) in
                  rest <- dictLoop fuel' r1 dc2 (skipn (Z.to_nat batch) vals) ;;
                  let '(r2, dc3, o', n, e) := rest in Some (r2, dc3, o ++ o', batch + n, e)
              end
          end
        else if 0 <? rd_litCount r then
          let litbatch := Z.min (Z.min remain (rd_litCount r)) 1024 in
          let '(b, buf, n, err) := BRI.GetBatchIndex (rd_r r) (rd_bitWidth r) (repeat 0 (Z.to_nat litbatch)) in
          let r1 := mkRD b (rd_bitWidth r) (rd_curVal r) (rd_repCount r) (rd_litCount r) in
          match err with
          | Some e => Some (r1, dc, vals, 0, Some e)
          | None =>
              if negb (n =? litbatch) then Some (r1, dc, vals, 0, None)
              else
                v <- dcIsValid dc buf ;;
                match v with
                | (dc1, false) => Some (r1, dc1, vals, 0, None)
                | (dc1, true) =>
                    c <- dcCopy dc1 vals buf ;;
                    let '(dc2, o, err) := c in
                    match err with
                    | Some _ => Some (r1, dc2, o, 0, None)
                    | None =>
                        let r2 := mkRD b (rd_bitWidth r) (rd_curVal r) (rd_repCount r) (rd_litCount r - litbatch) in
                        rest <- dictLoop fuel' r2 dc2 (skipn (Z.to_nat litbatch) o) ;;
                        let '(r3, dc3, o', n, e) := rest in Some (r3, dc3, firstn (Z.to_nat litbatch) o ++ o', litbatch + n, e)
                    end
                end
          end
        else
          match RD.Next r with
          | (r1, false) => Some (r1, dc, vals, 0, None)
          | (r1, true) => dictLoop fuel' r1 dc vals
          end
    end.

Definition GetBatchWithDict (r : RleDecoder) (dc : D) (vals : list T) : option (RleDecoder * D * list T * Z * option goerr) :=
  dictLoop (RD.loopFuel (len vals)) r dc vals.

End Ops.
End TRD.

(** ** The column's decoder *)

Record dictDecoder (D : Type) : Type := mkDD {
  dd_nvals : Z;
  dd_dictValueDecoder : D;
  dd_idxDecoder : option RleDecoder
}.
Arguments mkDD {D}.
Arguments dd_nvals {D}.
Arguments dd_dictValueDecoder {D}.
Arguments dd_idxDecoder {D}.

Module DictD.
Section Ops.
Context {D T : Type} `{DictionaryConverter D T}.
Implicit Types d : dictDecoder D.

Definition resetIndexDecoder d (data : list Z) (width : Z) : dictDecoder D :=
  mkDD (dd_nvals d) (dd_dictValueDecoder d)
       (Some (match dd_idxDecoder d with
              | None => RD.NewRleDecoder (BytesReader.new data) width
              | Some r => RD.Reset r (BytesReader.new data) width
              end)).

Definition SetData d (nvals : Z) (data : list Z) : dictDecoder D * option goerr :=
  let d := mkDD nvals (dd_dictValueDecoder d) (dd_idxDecoder d) in
  match data with
  | [] => (resetIndexDecoder d data 0, None)
  | width :: rest =>
      if 64 <=? width then (d, Some (ErrMsg "parquet: invalid or corrupted bit width"))
      else (resetIndexDecoder d rest width, None)
  end.

Definition discard d (n : Z) : option (dictDecoder D * Z) :=
  r <- dd_idxDecoder d ;;
  res <- RD.Discard r n ;;
  let '(r', n) := res in Some (mkDD (dd_nvals d - n) (dd_dictValueDecoder d) (Some r'), n).

Definition decode d (out : list T) : option (dictDecoder D * list T * Z * option goerr) :=
  r <- dd_idxDecoder d ;;
  res <- TRD.GetBatchWithDict r (dd_dictValueDecoder d) out ;;
  let '(r', dc, o, n, err) := res in Some (mkDD (dd_nvals d - n) dc (Some r'), o, n, err).

(** [typedDictDecoder.Discard] and [Decode] *)
Definition Discard d (n : Z) : option (dictDecoder D * Z * option goerr) :=
  let n := Z.min n (dd_nvals d) in
  res <- discard d n ;;
  let '(d', discarded) := res in
  if negb (n =? discarded) then Some (d', discarded, Some (ErrMsg "parquet: dict eof exception")) else Some (d', n, None).

Definition Decode d (out : list T) : option (dictDecoder D * list T * Z * option goerr) :=
  let vals := Z.min (len out) (dd_nvals d) in
  o <- slice out 0 vals ;;
  res <- decode d o ;;
  let '(d', o', decoded, err) := res in
  let out' := o' ++ skipn (Z.to_nat vals) out in
  match err with
  | Some e => Some (d', out', decoded, Some e)
  | None =>
      if negb (vals =? decoded) then Some (d', out', decoded, Some (ErrMsg "parquet: dict eof exception"))
      else Some (d', out', vals, None)
  end.

End Ops.

(** [SetDict(dict)] of a dictionary of the column's type; another type panics.  [zero] is the
    zero value of the type. *)
Definition SetDict {V T} `{ValueDecoder V T} (zero : T) (d : dictDecoder (dictConverter V T)) (dict : V) : dictDecoder (dictConverter V T) :=
  mkDD (dd_nvals d) (DC.NewDictConverter zero dict) (dd_idxDecoder d).

End DictD.

(** ** Filling *)

Lemma splice_firstn {T} (v : T) i o :
  (i <= List.length o)%nat -> firstn i o = repeat v i ->
  exists rest, splice o i (firstn i o) = repeat v (Nat.min (2 * i) (List.length o)) ++ rest.
Proof.
  intros Hi HF. unfold splice. rewrite !HF, firstn_repeat.
  exists (skipn (i + List.length (repeat v i)) o). rewrite app_assoc, <- repeat_app. do 2 f_equal. lia.
Qed.

Lemma doubling_fill {T} (v : T) fuel o i :
  1 <= i -> (List.length o - Z.to_nat i <= fuel)%nat -> firstn (Z.to_nat i) o = repeat v (Nat.min (Z.to_nat i) (List.length o)) ->
  doubling fuel o i = repeat v (List.length o).
Proof.
  revert o i. induction fuel as [|fuel IH]; intros o i Hi Hf HF; cbn [doubling].
  { rewrite firstn_all2, Nat.min_r in HF by lia. exact HF. }
  destruct (Z.ltb_spec i (len o)) as [Hlt|Hge]; [|rewrite firstn_all2, Nat.min_r in HF by lia; exact HF].
  rewrite Nat.min_l in HF by lia. destruct (splice_firstn v (Z.to_nat i) o ltac:(lia) HF) as [rest HS].
  assert (HL : List.length (splice o (Z.to_nat i) (firstn (Z.to_nat i) o)) = List.length o) by (apply length_splice; lia).
  rewrite IH, HL; [reflexivity|lia|rewrite HL; lia|]. rewrite HL. replace (Z.to_nat (i * 2)) with (2 * Z.to_nat i)%nat by lia.
  rewrite HS in HL |- *. rewrite length_app, repeat_length in HL. destruct (Nat.le_gt_cases (2 * Z.to_nat i) (List.length o)).
  - rewrite Nat.min_l in * by lia. apply firstn_app_exact. apply repeat_length.
  - rewrite Nat.min_r in * by lia. assert (rest = []) by (destruct rest; [reflexivity|cbn in HL; lia]). subst rest.
    rewrite app_nil_r. apply firstn_all2. rewrite repeat_length. lia.
Qed.

Lemma fillDoubling_ok {T} (o : list T) v : o <> [] -> fillDoubling o v = Some (repeat v (List.length o)).
Proof.
  intros Hne. unfold fillDoubling. destruct o as [|x o]; [congruence|]. rewrite store_ok by (cbn; lia). cbn [opt_bind Z.to_nat upd].
  rewrite (doubling_fill v); [reflexivity|lia|cbn [List.length]; lia|]. cbn [Z.to_nat Pos.to_nat Pos.iter_op firstn List.length]. reflexivity.
Qed.

(** ** What the loop relies on *)

Definition inDict {T} (dict : list T) (i : Z) : bool := (0 <=? i) && (i <? len dict).

Definition lookups {T} (z : T) (dict : list T) (idxes : list Z) : list T := map (fun i => nth (Z.to_nat i) dict z) idxes.

(** A converter never panics: whatever its state, its checks return, and what they let pass
    can be filled in and copied. *)
Class ConverterSafe (D T : Type) `{DictionaryConverter D T} : Type := {
  dcInv : D -> Prop;
  safe_single : forall dc idx, dcInv dc -> exists dc' b, dcIsValidSingle dc idx = Some (dc', b) /\ dcInv dc' /\
    (b = true -> forall o, o <> [] -> exists dc2 o' e, dcFill dc' o idx = Some (dc2, o', e) /\ dcInv dc2 /\ List.length o' = List.length o);
  safe_valid : forall dc idxes, dcInv dc -> exists dc' b, dcIsValid dc idxes = Some (dc', b) /\ dcInv dc' /\
    (b = true -> forall o, (List.length idxes <= List.length o)%nat -> exists dc2 o' e,
      dcCopy dc' o idxes = Some (dc2, o', e) /\ dcInv dc2 /\ List.length o' = List.length o)
}.

(** A converter that stands for the dictionary [dict]: indices in range are looked up. *)
Class ConverterOk (D T : Type) `{DictionaryConverter D T} (z : T) (dict : list T) : Type := {
  dcRel : D -> Prop;
  ok_single : forall dc idx, dcRel dc -> inDict dict idx = true ->
    exists dc', dcIsValidSingle dc idx = Some (dc', true) /\ dcRel dc' /\
      forall o, o <> [] -> exists dc2, dcFill dc' o idx = Some (dc2, repeat (nth (Z.to_nat idx) dict z) (List.length o), None) /\ dcRel dc2;
  ok_valid : forall dc idxes, dcRel dc -> idxes <> [] -> forallb (inDict dict) idxes = true ->
    exists dc', dcIsValid dc idxes = Some (dc', true) /\ dcRel dc' /\
      forall o, (List.length idxes <= List.length o)%nat -> exists dc2,
        dcCopy dc' o idxes = Some (dc2, lookups z dict idxes ++ skipn (List.length idxes) o, None) /\ dcRel dc2
}.

(** ** The loop never panics and ends *)

Lemma dictLoop_total {D T} `{ConverterSafe D T} fuel r dc (vals : list T) :
  dcInv dc -> 2 * len vals + (if idle r then 1 else 0) <= Z.of_nat fuel ->
  exists r' dc' vals' n e, TRD.dictLoop fuel r dc vals = Some (r', dc', vals', n, e) /\ dcInv dc' /\
    List.length vals' = List.length vals /\ 0 <= n <= len vals.
Proof.
  revert r dc vals. induction fuel as [|fuel IH]; intros r dc vals Hdc Hm; cbn [TRD.dictLoop];
    (destruct (Z.eqb_spec (len vals) 0) as [Hz|Hz]; [exists r, dc, vals, 0, None; splits; auto; lia|]); [destruct (idle r); lia|].
  unfold idle in Hm. destruct (Z.ltb_spec 0 (rd_repCount r)) as [Hr|Hr]; cbn [negb andb] in Hm.
  - destruct (safe_single dc (i32 (rd_curVal r)) Hdc) as (dc1 & b & -> & Hdc1 & Hfill). cbn [opt_bind].
    destruct b; [|eexists _, _, _, _, _; splits; eauto; lia]. set (k := Z.min (len vals) (rd_repCount r)).
    assert (HLk : List.length (firstn (Z.to_nat k) vals) = Z.to_nat k) by (rewrite length_firstn; lia).
    destruct (Hfill eq_refl (firstn (Z.to_nat k) vals)) as (dc2 & o & e & -> & Hdc2 & HLo); [intros E; rewrite E in HLk; cbn in HLk; lia|]. cbn [opt_bind].
    destruct e as [e|]; [eexists _, _, _, _, _; splits; eauto; [rewrite length_app, length_skipn; lia|lia..]|].
    destruct (IH (mkRD (rd_r r) (rd_bitWidth r) (rd_curVal r) (rd_repCount r - k) (rd_litCount r)) dc2 (skipn (Z.to_nat k) vals) Hdc2)
      as (r' & dc' & o' & n & e & -> & Hdc' & HL' & Hn); [rewrite length_skipn; destruct (idle _); lia|]. cbn [opt_bind].
    rewrite length_skipn in *. eexists _, _, _, _, _. splits; eauto; [rewrite length_app; lia|lia..].
  - destruct (Z.ltb_spec 0 (rd_litCount r)) as [Hl|Hl]; cbn [negb] in Hm.
    + set (k := Z.min (Z.min (len vals) (rd_litCount r)) 1024).
      destruct (BRI.GetBatchIndex (rd_r r) (rd_bitWidth r) (repeat 0 (Z.to_nat k))) as [[[b buf] n] err] eqn:E. apply GetBatchIndex_length in E. rewrite repeat_length in E.
      destruct err; [eexists _, _, _, _, _; splits; eauto; lia|]. destruct (negb (n =? k)); [eexists _, _, _, _, _; splits; eauto; lia|].
      destruct (safe_valid dc buf Hdc) as (dc1 & v & -> & Hdc1 & Hcopy). cbn [opt_bind]. destruct v; [|eexists _, _, _, _, _; splits; eauto; lia].
      destruct (Hcopy eq_refl vals ltac:(lia)) as (dc2 & o & e & -> & Hdc2 & HLo). cbn [opt_bind].
      destruct e as [e|]; [eexists _, _, _, _, _; splits; eauto; lia|].
      destruct (IH (mkRD b (rd_bitWidth r) (rd_curVal r) (rd_repCount r) (rd_litCount r - k)) dc2 (skipn (Z.to_nat k) o) Hdc2)
        as (r' & dc' & o' & n' & e & -> & Hdc' & HL' & Hn); [rewrite length_skipn; destruct (idle _); lia|]. cbn [opt_bind].
      rewrite length_skipn in *. eexists _, _, _, _, _. splits; eauto; [rewrite length_app, length_firstn; lia|lia..].
    + destruct (RD.Next r) as [r1 [|]] eqn:E; [|eexists _, _, _, _, _; splits; eauto; lia].
      apply (IH r1 dc vals Hdc). rewrite (Next_busy _ _ E). lia.
Qed.

(** ** What the loop delivers *)

Lemma i32_inDict {T} (dict : list T) v : len dict <= MaxInt32 -> inDict dict v = true -> i32 v = v.
Proof.
  unfold inDict, MaxInt32. intros HL Hv. apply andb_true_iff in Hv as [H1 H2]. apply Z.leb_le in H1. apply Z.ltb_lt in H2.
  unfold i32. rewrite Z.mod_small; lia.
Qed.

Lemma map_i32_inDict {T} (dict : list T) vs : len dict <= MaxInt32 -> forallb (inDict dict) vs = true -> map i32 vs = vs.
Proof.
  intros HL Hv. rewrite <- (map_id vs) at 2. apply map_ext_in. intros x Hx. rewrite forallb_forall in Hv. eapply i32_inDict; eauto.
Qed.

Lemma lookups_app {T} (z : T) dict a b : lookups z dict (a ++ b) = lookups z dict a ++ lookups z dict b.
Proof. apply map_app. Qed.

Section DictLoop.
Context {D T : Type} `{!DictionaryConverter D T} (z : T) (dict : list T) `{!ConverterOk D T z dict}.

(** The outcome when the indices [vs] are left. *)
Definition dictRes (res : option (RleDecoder * D * list T * Z * option goerr)) (vs : list Z) (vals : list T) : Prop :=
  let k := Nat.min (List.length vals) (List.length vs) in
  exists r' dc', res = Some (r', dc', lookups z dict (firstn k vs) ++ skipn k vals, Z.of_nat k, None) /\ dcRel dc' /\
    ((List.length vals <= List.length vs)%nat -> decRel r' (skipn k vs)).

(** After [n] values the loop goes on with the rest. *)
Lemma dictRes_take (rec : option (RleDecoder * D * list T * Z * option goerr)) vs vals n (o : list T) :
  0 <= n <= len vals -> n <= len vs -> o = lookups z dict (firstn (Z.to_nat n) vs) ->
  dictRes rec (skipn (Z.to_nat n) vs) (skipn (Z.to_nat n) vals) ->
  dictRes (rest <- rec ;; let '(r2, dc3, o', m, e) := rest in Some (r2, dc3, o ++ o', n + m, e)) vs vals.
Proof.
  unfold dictRes. intros Hn1 Hn2 -> (r' & dc' & -> & HR & HD). rewrite !length_skipn in *.
  set (k := Nat.min (List.length vals) (List.length vs)). replace (Nat.min _ _) with (k - Z.to_nat n)%nat in * by lia.
  exists r', dc'. cbn [opt_bind]. split; [|split; [assumption|]].
  - rewrite (firstn_split vs (Z.to_nat n) k) by lia. rewrite lookups_app, <- app_assoc, skipn_skipn. repeat f_equal; lia.
  - intros Hle. specialize (HD ltac:(lia)). rewrite skipn_skipn in HD. now replace (k - Z.to_nat n + Z.to_nat n)%nat with k in HD by lia.
Qed.

Lemma dictLoop_ok fuel r dc vs (vals : list T) :
  decRel r vs -> rd_bitWidth r <= 32 -> len dict <= MaxInt32 -> dcRel dc ->
  forallb (inDict dict) (firstn (List.length vals) vs) = true -> 2 * len vals + (if idle r then 1 else 0) <= Z.of_nat fuel ->
  dictRes (TRD.dictLoop fuel r dc vals) vs vals.
Proof.
  intros HD Hw Hdl. revert r dc vs vals HD Hw. induction fuel as [|fuel IH]; intros r dc vs vals HD Hw Hdc Hidx Hm; cbn [TRD.dictLoop];
    (destruct (Z.eqb_spec (len vals) 0) as [Hz|Hz];
      [destruct vals; [|cbn in Hz; lia]; exists r, dc; cbn [List.length Nat.min firstn skipn lookups map app Z.of_nat]; auto|]); [destruct (idle r); lia|].
  destruct HD as (runs & o & HD). pose proof HD as [HO Hwr Hf Hrep Hlit Hone Hpos Hoff Hdata Hok Hvals].
  assert (Hlen : len vs = rd_repCount r + rd_litCount r + len (expand runs)) by (rewrite Hvals, !length_app, repeat_length, length_fields; lia).
  assert (Htake : forall n, (n <= List.length vals)%nat -> forallb (inDict dict) (firstn n vs) = true /\
      forallb (inDict dict) (firstn (List.length vals - n) (skipn n vs)) = true).
  { intros n Hn. rewrite (firstn_split vs n (List.length vals)) in Hidx by lia. now rewrite forallb_app, andb_true_iff in Hidx. }
  unfold idle in Hm. destruct (Z.ltb_spec 0 (rd_repCount r)) as [Hr|Hr]; cbn [negb andb] in Hm.
  - set (n := Z.min (len vals) (rd_repCount r)). destruct (decRel_rep _ _ _ _ n HD ltac:(lia)) as [HD1 Hfirst].
    destruct (Htake (Z.to_nat n) ltac:(lia)) as [Hin Hin']. rewrite Hfirst in Hin.
    assert (Hcur : inDict dict (rd_curVal r) = true) by (destruct (Z.to_nat n) eqn:En; [lia|cbn [repeat forallb] in Hin; now apply andb_true_iff in Hin]).
    rewrite (i32_inDict dict _ Hdl Hcur). destruct (ok_single dc _ Hdc Hcur) as (dc1 & -> & Hdc1 & Hfill). cbn [opt_bind].
    assert (HLk : List.length (firstn (Z.to_nat n) vals) = Z.to_nat n) by (rewrite length_firstn; lia).
    destruct (Hfill (firstn (Z.to_nat n) vals)) as (dc2 & -> & Hdc2); [intros E; rewrite E in HLk; cbn in HLk; lia|]. cbn [opt_bind]. rewrite HLk.
    apply dictRes_take; [lia|lia|rewrite Hfirst; unfold lookups; now rewrite map_repeat|].
    apply IH; auto; [now exists runs, o|rewrite length_skipn; exact Hin'|rewrite length_skipn; destruct (idle _); lia].
  - destruct (Z.ltb_spec 0 (rd_litCount r)) as [Hl|Hl]; cbn [negb] in Hm.
    + set (n := Z.min (Z.min (len vals) (rd_litCount r)) 1024).
      destruct (GetBatchIndex_ok (rd_r r) (rd_bitWidth r) (repeat 0 (Z.to_nat n)) HO ltac:(lia)) as (b & -> & HM); [rewrite repeat_length; nia|].
      rewrite repeat_length, Z2Nat.id in * by lia. rewrite Z.eqb_refl. cbn [negb].
      destruct (decRel_lit _ _ _ _ n b HD ltac:(lia) ltac:(lia) HM) as [HD1 Hfirst]. destruct (Htake (Z.to_nat n) ltac:(lia)) as [Hin Hin'].
      rewrite <- Hfirst, (map_i32_inDict dict _ Hdl Hin). assert (HLn : List.length (firstn (Z.to_nat n) vs) = Z.to_nat n) by (rewrite length_firstn; lia).
      destruct (ok_valid dc (firstn (Z.to_nat n) vs) Hdc) as (dc1 & -> & Hdc1 & Hcopy); [intros E; rewrite E in HLn; cbn in HLn; lia|assumption|].
      cbn [opt_bind]. destruct (Hcopy vals ltac:(lia)) as (dc2 & -> & Hdc2). cbn [opt_bind]. rewrite HLn.
      assert (HLl : List.length (lookups z dict (firstn (Z.to_nat n) vs)) = Z.to_nat n) by (unfold lookups; now rewrite length_map).
      rewrite firstn_app_exact, skipn_app_exact by assumption.
      apply dictRes_take; [lia|lia|reflexivity|].
      apply IH; auto; [now exists runs, o|rewrite length_skipn; exact Hin'|rewrite length_skipn; destruct (idle _); lia].
    + destruct (Next_ok _ _ _ _ HD ltac:(lia) ltac:(lia)) as [(d' & HE & HD')|[(d' & HE) ->]]; rewrite HE.
      * apply IH; auto; [|rewrite (Next_busy _ _ HE); lia]. pose proof (Next_width r) as HW. rewrite HE in HW. cbn [fst] in HW. lia.
      * exists d', dc. cbn [List.length]. rewrite Nat.min_0_r. cbn [firstn skipn lookups map app Z.of_nat]. splits; auto. cbn [List.length]. lia.
Qed.
End DictLoop.

(** ** The converter over a decoder of dictionary values *)

Class ValueDecoderSafe (V T : Type) `{ValueDecoder V T} : Type := {
  vdInv : V -> Prop;
  vd_safe : forall v out, vdInv v -> exists v' out' n e, vdDecode v out = Some (v', out', n, e) /\ vdInv v'
}.

Class ValueDecoderOk (V T : Type) `{ValueDecoder V T} : Type := {
  vdRel : V -> list T -> Prop;
  vd_left : forall v vs, vdRel v vs -> vdValuesLeft v = len vs;
  vd_ok : forall v vs out, vdRel v vs -> (List.length out <= List.length vs)%nat ->
    exists v', vdDecode v out = Some (v', firstn (List.length out) vs, len out, None) /\ vdRel v' (skipn (List.length out) vs)
}.

Section Converter.
Context {V T : Type} `{!ValueDecoder V T}.
Implicit Types dc : dictConverter V T.

(** Copying what is in the dictionary. *)
Lemma copyLoop_ok (z : T) dict (vals : list Z) (a b : list T) :
  Forall (fun i => 0 <= i < len dict) vals -> (List.length vals <= List.length b)%nat ->
  DC.copyLoop dict (a ++ b) (len a) vals = Some (a ++ lookups z dict vals ++ skipn (List.length vals) b).
Proof.
  intros HF. revert a b. induction HF as [|i vals Hi _ IH]; intros a b HL; cbn [DC.copyLoop lookups map List.length] in *; [reflexivity|].
  destruct b as [|x b]; [cbn in HL; lia|]. rewrite (index_ok _ _ z) by assumption. cbn [opt_bind].
  rewrite store_ok by (rewrite length_app; cbn [List.length]; lia). cbn [opt_bind]. rewrite Nat2Z.id.
  assert (Hu : forall y, upd (a ++ x :: b) (List.length a) y = (a ++ [y]) ++ b).
  { intros y. rewrite <- app_assoc. cbn [app]. induction a as [|c a IHa]; cbn; [reflexivity|]. now rewrite IHa. }
  rewrite Hu. replace (len a + 1) with (len (a ++ [nth (Z.to_nat i) dict z])) by (rewrite length_app; cbn [List.length]; lia).
  cbn [List.length] in HL. rewrite IH by lia. cbn [skipn app]. now rewrite <- app_assoc.
Qed.

Lemma copyLoop_start (z : T) dict (vals : list Z) (o : list T) :
  Forall (fun i => 0 <= i < len dict) vals -> (List.length vals <= List.length o)%nat ->
  DC.copyLoop dict o 0 vals = Some (lookups z dict vals ++ skipn (List.length vals) o).
Proof. exact (copyLoop_ok z dict vals [] o). Qed.

Lemma inDict_range (dict : list T) i : inDict dict i = true <-> 0 <= i < len dict.
Proof. unfold inDict. rewrite andb_true_iff, Z.leb_le, Z.ltb_lt. lia. Qed.

(** The checks of [IsValid] cover every index. *)
Lemma minMax_inDict (dict : list T) idxes mn mx :
  int32MinMax idxes = (mn, mx) -> 0 <= mn -> mx < len dict -> Forall (fun i => 0 <= i < len dict) idxes.
Proof.
  intros HE Hmn Hmx. pose proof (minMaxLoop_ok MaxInt32 MinInt32 idxes) as Hm. unfold int32MinMax in HE. rewrite HE in Hm.
  destruct Hm as (HF & _). eapply Forall_impl; [|exact HF]. cbn. intros; lia.
Qed.

Lemma Fill_known dc o idx : 0 <= idx < len (dc_dict dc) -> o <> [] ->
  exists o' e, DC.Fill dc o idx = Some (dc, o', e) /\ List.length o' = List.length o.
Proof.
  intros Hi Ho. unfold DC.Fill, DC.ensure. rewrite (proj2 (Z.ltb_ge idx 0)) by lia. cbn [orb].
  destruct (dc_dictLen dc <=? idx); [cbn [opt_bind]; eauto|]. rewrite (proj2 (Z.leb_gt (len (dc_dict dc)) idx)) by lia. cbn [opt_bind].
  rewrite (index_ok _ _ (dc_zeroVal dc)) by lia. cbn [opt_bind]. rewrite fillDoubling_ok by assumption. cbn [opt_bind].
  eexists _, _. split; [reflexivity|]. apply repeat_length.
Qed.

Section Safe.
Context `{!ValueDecoderSafe V T}.

Lemma ensure_safe dc idx :
  vdInv (dc_valueDecoder dc) -> exists dc' e, DC.ensure dc idx = Some (dc', e) /\ vdInv (dc_valueDecoder dc').
Proof.
  intros HI. unfold DC.ensure. destruct ((idx <? 0) || (dc_dictLen dc <=? idx)); [eauto|]. destruct (len (dc_dict dc) <=? idx); [|eauto].
  destruct (vd_safe _ (repeat (dc_zeroVal dc) (Z.to_nat (idx + 1 - len (dc_dict dc)))) HI) as (v' & out' & n & e & -> & HI'). cbn [opt_bind].
  destruct e; [eauto|]. destruct (negb _); eauto.
Qed.

#[export] Instance dictConverter_safe : ConverterSafe (dictConverter V T) T.
Proof.
  refine {| dcInv := fun dc => vdInv (dc_valueDecoder dc) |}; cbn [dcIsValidSingle dcIsValid dcFill dcCopy DC.dictConverter_ops].
  - intros dc idx HI. unfold DC.IsValidSingle. destruct (ensure_safe dc idx HI) as (dc' & e & -> & HI'). cbn [opt_bind fst].
    eexists dc', _. splits; [reflexivity|assumption|]. intros Hb o Ho. apply inDict_range in Hb.
    destruct (Fill_known dc' o idx Hb Ho) as (o' & e' & -> & HL). eauto 6.
  - intros dc idxes HI. unfold DC.IsValid. destruct (int32MinMax idxes) as [mn mx] eqn:Em.
    destruct (ensure_safe dc mx HI) as (dc' & e & -> & HI'). cbn [opt_bind fst]. eexists dc', _. splits; [reflexivity|assumption|].
    intros Hb o Ho. rewrite !andb_true_iff, !Z.leb_le, !Z.ltb_lt in Hb.
    unfold DC.Copy. rewrite (copyLoop_start (dc_zeroVal dc') (dc_dict dc') idxes o); [|eapply minMax_inDict; [exact Em|lia|lia]|assumption].
    cbn [opt_bind]. eexists dc', _, None. splits; [reflexivity|assumption|]. unfold lookups. rewrite length_app, length_map, length_skipn. lia.
Defined.
End Safe.

Section Ok.
Context `{!ValueDecoderOk V T} (z : T) (dict : list T).

(** The first [k] values of the dictionary have been decoded. *)
Definition convRel dc : Prop :=
  dc_dictLen dc = len dict /\
  exists k, (k <= List.length dict)%nat /\ dc_dict dc = firstn k dict /\ vdRel (dc_valueDecoder dc) (skipn k dict).

Lemma ensure_ok dc idx :
  convRel dc -> inDict dict idx = true -> exists dc', DC.ensure dc idx = Some (dc', None) /\ convRel dc' /\ idx < len (dc_dict dc').
Proof.
  intros (HL & k & Hk & Hd & HV) Hi. apply inDict_range in Hi. unfold DC.ensure. rewrite (proj2 (Z.ltb_ge idx 0)), HL, (proj2 (Z.leb_gt _ idx)) by lia. cbn [orb].
  assert (HLd : len (dc_dict dc) = Z.of_nat k) by (rewrite Hd, length_firstn; lia). rewrite HLd.
  destruct (Z.leb_spec (Z.of_nat k) idx) as [Hle|Hgt]; [|exists dc; splits; [reflexivity|split; [assumption|exists k; auto]|lia]].
  set (n := Z.to_nat (idx + 1 - Z.of_nat k)). destruct (vd_ok _ _ (repeat (dc_zeroVal dc) n) HV) as (v' & -> & HV'); [rewrite repeat_length, length_skipn; lia|].
  rewrite repeat_length in *. cbn [opt_bind]. rewrite Z.eqb_refl. cbn [negb]. rewrite Nat2Z.id, firstn_firstn, Nat.min_id.
  eexists. split; [reflexivity|]. rewrite skipn_skipn in HV'.
  assert (Hd' : dc_dict dc ++ firstn n (skipn k dict) = firstn (n + k) dict).
  { rewrite Hd, (firstn_split dict k (n + k)) by lia. do 2 f_equal. lia. }
  split; [|cbn [dc_dict]; rewrite Hd', length_firstn; lia]. split; [reflexivity|]. exists (n + k)%nat. cbn [dc_dict dc_valueDecoder]. splits; auto. lia.
Qed.

Lemma convRel_nth dc idx : convRel dc -> 0 <= idx < len (dc_dict dc) -> nth (Z.to_nat idx) (dc_dict dc) z = nth (Z.to_nat idx) dict z.
Proof. intros (_ & k & Hk & -> & _) Hi. rewrite length_firstn in Hi. rewrite nth_firstn, (proj2 (Nat.ltb_lt _ k)) by lia. reflexivity. Qed.

Lemma convRel_lookups dc idxes : convRel dc -> Forall (fun i => 0 <= i < len (dc_dict dc)) idxes -> lookups z (dc_dict dc) idxes = lookups z dict idxes.
Proof. intros HR HF. apply map_ext_in. intros i Hi. rewrite Forall_forall in HF. now apply convRel_nth, HF. Qed.

#[export] Instance dictConverter_ok : ConverterOk (dictConverter V T) T z dict.
Proof.
  refine {| dcRel := convRel |}; cbn [dcIsValidSingle dcIsValid dcFill dcCopy DC.dictConverter_ops].
  - intros dc idx HR Hi. unfold DC.IsValidSingle. destruct (ensure_ok dc idx HR Hi) as (dc' & -> & HR' & Hlt). cbn [opt_bind fst].
    exists dc'. pose proof (proj1 (inDict_range dict idx) Hi) as Hr. rewrite (proj2 (Z.leb_le 0 idx)), (proj2 (Z.ltb_lt idx _)) by lia. cbn [andb].
    splits; auto. intros o Ho. unfold DC.Fill. destruct (ensure_ok dc' idx HR' Hi) as (dc2 & -> & HR2 & Hlt2). cbn [opt_bind].
    rewrite (index_ok _ _ z) by lia. cbn [opt_bind]. rewrite fillDoubling_ok by assumption. cbn [opt_bind].
    exists dc2. rewrite (convRel_nth dc2) by (auto; lia). auto.
  - intros dc idxes HR Hne Hall. unfold DC.IsValid. rewrite forallb_forall in Hall.
    pose proof (minMaxLoop_ok MaxInt32 MinInt32 idxes) as Hm. unfold int32MinMax. destruct (minMaxLoop MaxInt32 MinInt32 idxes) as [mn mx] eqn:Em.
    destruct Hm as (HF & Hmn & Hmx & Hmn' & Hmx'). rewrite Forall_forall in HF.
    assert (Hinmx : In mx idxes).
    { destruct Hmx' as [->|]; [|assumption]. destruct idxes as [|i l]; [congruence|]. pose proof (HF i (or_introl eq_refl)).
      pose proof (proj1 (inDict_range dict i) (Hall i (or_introl eq_refl))). unfold MinInt32 in *. lia. }
    assert (H0mn : 0 <= mn).
    { destruct Hmn' as [->|Hin]; [unfold MaxInt32; lia|]. pose proof (proj1 (inDict_range dict mn) (Hall mn Hin)). lia. }
    pose proof (HF mx Hinmx) as Hmm. destruct (ensure_ok dc mx HR (Hall mx Hinmx)) as (dc' & -> & HR' & Hlt). cbn [opt_bind fst]. exists dc'.
    rewrite (proj2 (Z.leb_le 0 mn)), (proj2 (Z.ltb_lt mn _)), (proj2 (Z.leb_le 0 mx)), (proj2 (Z.ltb_lt mx _)) by lia. cbn [andb].
    assert (Hin : Forall (fun i => 0 <= i < len (dc_dict dc')) idxes) by (apply Forall_forall; intros i Hi; specialize (HF i Hi); lia).
    splits; auto. intros o Ho. unfold DC.Copy. rewrite (copyLoop_start z (dc_dict dc') idxes o Hin Ho). cbn [opt_bind].
    exists dc'. rewrite (convRel_lookups dc') by assumption. auto.
Defined.

Lemma NewDictConverter_rel (v : V) : vdRel v dict -> convRel (DC.NewDictConverter z v).
Proof. intros HV. split; [apply (vd_left v dict HV)|]. exists O. splits; auto. lia. Qed.
End Ok.
End Converter.

(** ** Plain values as a dictionary *)

Section Plain.
Variable w : nat.
Hypothesis Hw : (1 <= w)%nat.

Lemma length_getBytes vs : List.length (getBytes w vs) = (w * List.length vs)%nat.
Proof. induction vs as [|v vs IH]; cbn [getBytes List.length]; [lia|]. rewrite length_app, length_lebytes. lia. Qed.

Lemma getBytes_app a b : getBytes w (a ++ b) = getBytes w a ++ getBytes w b.
Proof. induction a as [|v a IH]; cbn [getBytes app]; [reflexivity|]. now rewrite IH, app_assoc. Qed.

Lemma fixedValue_lebytes v t : inS (8 * Z.of_nat w) v -> fixedValue w (lebytes w v ++ t) = v.
Proof.
  intros Hv. unfold fixedValue. rewrite firstn_app_exact by apply length_lebytes. rewrite leval_lebytes.
  rewrite <- (wrapS_id (8 * Z.of_nat w) v) at 2 by (auto; lia). unfold wrapS. rewrite Zplus_mod_idemp_l. reflexivity.
Qed.

Lemma fromBytes_getBytes vs t : Forall (inS (8 * Z.of_nat w)) vs -> fromBytes w (List.length vs) (getBytes w vs ++ t) = vs.
Proof.
  induction 1 as [|v vs Hv _ IH]; [reflexivity|]. cbn [List.length fromBytes getBytes]. rewrite <- app_assoc.
  rewrite fixedValue_lebytes, skipn_app_exact, IH by (auto; apply length_lebytes). reflexivity.
Qed.

(** The decoder holds [vs]; other bytes may follow. *)
Definition plainRel (d : PlainDecoder) (vs : list Z) : Prop :=
  pd_nvals d = len vs /\ Forall (inS (8 * Z.of_nat w)) vs /\ Z.of_nat w * len vs <= MaxInt32 /\ exists t, pd_data d = getBytes w vs ++ t.

Lemma plainDecode_ok d vs (out : list Z) :
  plainRel d vs -> (List.length out <= List.length vs)%nat ->
  exists d', PD.Decode w d out = Some (d', firstn (List.length out) vs, len out, None) /\ plainRel d' (skipn (List.length out) vs).
Proof.
  intros (Hn & HF & Hmax & t & Hd) HL. set (k := List.length out) in *. unfold PD.Decode, PD.requiredBytes. fold k. rewrite Hn, Z.min_l by lia.
  rewrite <- (firstn_skipn k vs) in Hd, HF. rewrite getBytes_app, <- app_assoc in Hd. apply Forall_app in HF as [HF1 HF2].
  assert (HLk : List.length (firstn k vs) = k) by (rewrite length_firstn; lia).
  assert (HG : List.length (getBytes w (firstn k vs)) = (w * k)%nat) by (rewrite length_getBytes; lia).
  rewrite Hd, length_app, HG. rewrite (proj2 (Z.ltb_ge _ (Z.of_nat w * Z.of_nat k))), (proj2 (Z.ltb_ge MaxInt32 _)) by nia. cbn [orb].
  rewrite !slice_ok by (rewrite ?length_app, ?HG; nia). cbn [opt_bind]. rewrite Z.sub_0_r, Nat2Z.id.
  replace (Z.to_nat (Z.of_nat w * Z.of_nat k)) with (w * k)%nat by nia. cbn [Z.to_nat skipn].
  rewrite (firstn_app_exact _ _ (w * k)), (skipn_app_exact _ _ (w * k)) by assumption.
  pose proof (fromBytes_getBytes (firstn k vs) [] HF1) as Hrt. rewrite HLk, app_nil_r in Hrt. rewrite Hrt, (skipn_all2 out), app_nil_r by lia.
  rewrite (firstn_all2 (n := Z.to_nat _)) by (rewrite length_app; nia).
  eexists. split; [reflexivity|]. split; [cbn [pd_nvals]; rewrite length_skipn; lia|]. splits; auto; [rewrite length_skipn; nia|eexists; reflexivity].
Qed.

Definition plain_ok : @ValueDecoderOk PlainDecoder Z (PD.PlainDecoder_values w).
Proof.
  refine (@Build_ValueDecoderOk _ _ (PD.PlainDecoder_values w) plainRel _ _).
  - intros d vs (Hn & _). exact Hn.
  - exact plainDecode_ok.
Defined.

Definition plain_safe : @ValueDecoderSafe PlainDecoder Z (PD.PlainDecoder_values w).
Proof.
  refine (@Build_ValueDecoderSafe _ _ (PD.PlainDecoder_values w) (fun d => 0 <= pd_nvals d) _).
  intros d out Hn. cbn [vdDecode PD.PlainDecoder_values]. unfold PD.Decode, PD.requiredBytes.
  destruct (_ || _) eqn:E; [eauto 6|]. apply orb_false_iff in E as [E _]. apply Z.ltb_ge in E.
  rewrite !slice_ok by nia. cbn [opt_bind]. eexists _, _, _, _. split; [reflexivity|]. cbn [pd_nvals]. lia.
Defined.
End Plain.

(** ** The dictionary decoder *)

(** Reading into one slice after another up to the first error: the decoder, the values and
    that error; [None] is a panic or no end. *)
Fixpoint dictReads {D T} `{DictionaryConverter D T} (d : dictDecoder D) (outs : list (list T)) : option (dictDecoder D * list T * option goerr) :=
  match outs with
  | [] => Some (d, [], None)
  | out :: outs' =>
      res <- DictD.Decode d out ;;
      let '(d', out', n, err) := res in
      let got := firstn (Z.to_nat n) out' in
      match err with
      | Some e => Some (d', got, Some e)
      | None => rest <- dictReads d' outs' ;; let '(d2, vs, e) := rest in Some (d2, got ++ vs, e)
      end
  end.

Section Column.
Context {D T : Type} `{!DictionaryConverter D T}.

Lemma dictDecode_total `{!ConverterSafe D T} (d : dictDecoder D) out :
  dcInv (dd_dictValueDecoder d) -> dd_idxDecoder d <> None -> 0 <= dd_nvals d ->
  exists d' out' n e, DictD.Decode d out = Some (d', out', n, e) /\ dcInv (dd_dictValueDecoder d') /\ dd_idxDecoder d' <> None /\
    0 <= n <= len out /\ dd_nvals d' = dd_nvals d - n /\ 0 <= dd_nvals d'.
Proof.
  intros HI Hr Hn. unfold DictD.Decode, DictD.decode. set (k := Z.min (len out) (dd_nvals d)). rewrite slice_ok by lia. cbn [opt_bind].
  rewrite Z.sub_0_r. cbn [Z.to_nat skipn]. destruct (dd_idxDecoder d) as [r|] eqn:Er; [|congruence]. cbn [opt_bind]. unfold TRD.GetBatchWithDict.
  pose proof (loopFuel_enough (len (firstn (Z.to_nat k) out)) r) as Hf. rewrite Z.sub_0_r in Hf.
  destruct (dictLoop_total _ r (dd_dictValueDecoder d) (firstn (Z.to_nat k) out) HI Hf) as (r' & dc' & o & n & e & -> & HI' & HL & Hn'). cbn [opt_bind].
  rewrite length_firstn in Hn'.
  destruct e as [e|]; [eexists _, _, _, _; split; [reflexivity|]; cbn [dd_dictValueDecoder dd_idxDecoder dd_nvals]; splits; auto; try lia; discriminate|].
  destruct (Z.eqb_spec k n) as [Hk|Hk]; cbn [negb]; eexists _, _, _, _; (split; [reflexivity|]); cbn [dd_dictValueDecoder dd_idxDecoder dd_nvals]; splits; auto; try lia; try discriminate.
Qed.

Lemma dictReads_total `{!ConverterSafe D T} (d : dictDecoder D) outs :
  dcInv (dd_dictValueDecoder d) -> dd_idxDecoder d <> None -> 0 <= dd_nvals d ->
  exists d' vs e, dictReads d outs = Some (d', vs, e) /\ len vs <= dd_nvals d.
Proof.
  revert d. induction outs as [|out outs IH]; intros d HI Hr Hn; cbn [dictReads]; [exists d, [], None; split; [reflexivity|cbn; lia]|].
  destruct (dictDecode_total d out HI Hr Hn) as (d' & out' & n & e & -> & HI' & Hr' & Hrange & Hnv & Hn'). cbn [opt_bind].
  assert (HLg : len (firstn (Z.to_nat n) out') <= n) by (rewrite length_firstn; lia).
  destruct e as [e|]; [eexists _, _, _; split; [reflexivity|]; lia|]. destruct (IH d' HI' Hr' Hn') as (d2 & vs & e & -> & HL). cbn [opt_bind].
  eexists _, _, _. split; [reflexivity|]. rewrite length_app. lia.
Qed.

Context (z : T) (dict : list T) `{!ConverterOk D T z dict}.

(** The indices [ixs] are left. *)
Definition columnRel (d : dictDecoder D) (ixs : list Z) : Prop :=
  dd_nvals d = len ixs /\ forallb (inDict dict) ixs = true /\ dcRel (dd_dictValueDecoder d) /\
  exists r pad, dd_idxDecoder d = Some r /\ rd_bitWidth r <= 32 /\ decRel r (ixs ++ pad).

Lemma dictLoop_width fuel (r : RleDecoder) (dc : D) (vals : list T) r' dc' o n e :
  TRD.dictLoop fuel r dc vals = Some (r', dc', o, n, e) -> rd_bitWidth r' = rd_bitWidth r.
Proof.
  revert r dc vals r' dc' o n e. induction fuel as [|fuel IH]; intros r dc vals r' dc' o n e; cbn [TRD.dictLoop]; (destruct (_ =? 0); [congruence|]); [discriminate|].
  destruct (0 <? rd_repCount r).
  { destruct (dcIsValidSingle _ _) as [[dc1 [|]]|]; cbn [opt_bind]; [|congruence..]. destruct (dcFill _ _ _) as [[[dc2 o2] [e2|]]|]; cbn [opt_bind]; [congruence| |discriminate].
    destruct (TRD.dictLoop fuel _ dc2 _) as [[[[[r2 dc3] o3] m] e3]|] eqn:E; cbn [opt_bind]; [|discriminate]. intros HE. apply IH in E. cbn [rd_bitWidth] in E. congruence. }
  destruct (0 <? rd_litCount r).
  { destruct (BRI.GetBatchIndex _ _ _) as [[[b buf] k] [e1|]]; [intros HE; injection HE as <- _ _ _ _; reflexivity|].
    destruct (negb _); [intros HE; injection HE as <- _ _ _ _; reflexivity|].
    destruct (dcIsValid _ _) as [[dc1 [|]]|]; cbn [opt_bind]; [|intros HE; injection HE as <- _ _ _ _; reflexivity|discriminate].
    destruct (dcCopy _ _ _) as [[[dc2 o2] [e2|]]|]; cbn [opt_bind]; [intros HE; injection HE as <- _ _ _ _; reflexivity| |discriminate].
    destruct (TRD.dictLoop fuel _ dc2 _) as [[[[[r2 dc3] o3] m] e3]|] eqn:E; cbn [opt_bind]; [|discriminate]. intros HE. apply IH in E. cbn [rd_bitWidth] in E. congruence. }
  pose proof (Next_width r) as HW. destruct (RD.Next r) as [r1 [|]]; cbn [fst] in HW; [|congruence]. intros HE. apply IH in HE. congruence.
Qed.

Lemma dictDecode_ok (d : dictDecoder D) ixs out :
  columnRel d ixs -> len dict <= MaxInt32 ->
  let k := Nat.min (List.length out) (List.length ixs) in
  exists d', DictD.Decode d out = Some (d', lookups z dict (firstn k ixs) ++ skipn k out, Z.of_nat k, None) /\ columnRel d' (skipn k ixs).
Proof.
  intros (Hn & Hall & HC & r & pad & Hr & Hwd & HD) Hdl k. unfold DictD.Decode, DictD.decode. rewrite Hn.
  replace (Z.min (len out) (len ixs)) with (Z.of_nat k) by lia. rewrite slice_ok by lia. cbn [opt_bind]. rewrite Z.sub_0_r, Nat2Z.id. cbn [Z.to_nat skipn].
  rewrite Hr. cbn [opt_bind]. unfold TRD.GetBatchWithDict. assert (HLk : List.length (firstn k out) = k) by (rewrite length_firstn; lia).
  pose proof (loopFuel_enough (Z.of_nat k) r) as Hf. rewrite Z.sub_0_r in Hf. rewrite HLk.
  assert (HFk : firstn k (ixs ++ pad) = firstn k ixs) by (rewrite firstn_app; replace (k - List.length ixs)%nat with O by lia; now rewrite firstn_O, app_nil_r).
  rewrite <- (firstn_skipn k ixs), forallb_app, andb_true_iff in Hall. destruct Hall as [Hall1 Hall2].
  destruct (dictLoop_ok z dict (RD.loopFuel (Z.of_nat k)) r (dd_dictValueDecoder d) (ixs ++ pad) (firstn k out) HD Hwd Hdl HC) as (r' & dc' & HE & HC' & HD');
    [rewrite HLk, HFk; exact Hall1|rewrite HLk; exact Hf|].
  rewrite length_app, HLk, Nat.min_l in HE, HD' by lia. specialize (HD' ltac:(lia)).
  rewrite HFk, (skipn_all2 (firstn k out)), app_nil_r in HE by lia. rewrite HE. cbn [opt_bind]. rewrite Z.eqb_refl. cbn [negb].
  eexists. split; [reflexivity|]. split; [cbn [dd_nvals]; rewrite length_skipn; lia|]. splits; auto. exists r', pad. cbn [dd_idxDecoder].
  rewrite skipn_app in HD'. replace (k - List.length ixs)%nat with O in HD' by lia. splits; auto. apply dictLoop_width in HE. lia.
Qed.

Lemma dictReads_ok (d : dictDecoder D) ixs outs :
  columnRel d ixs -> len dict <= MaxInt32 -> List.length (List.concat outs) = List.length ixs ->
  exists d', dictReads d outs = Some (d', lookups z dict ixs, None) /\ columnRel d' [].
Proof.
  revert d ixs. induction outs as [|out outs IH]; intros d ixs HR Hdl HL; cbn [dictReads List.concat] in *.
  { destruct ixs; [exists d; auto|discriminate]. }
  rewrite length_app in HL. destruct (dictDecode_ok d ixs out HR Hdl) as (d' & -> & HR'). cbn [opt_bind]. rewrite Nat.min_l in * by lia.
  rewrite (skipn_all out), app_nil_r in *. destruct (IH d' _ HR' Hdl) as (d2 & -> & HR2); [rewrite length_skipn; lia|]. cbn [opt_bind]. rewrite Nat2Z.id. exists d2. split; [|exact HR2].
  rewrite firstn_all2 by (unfold lookups; rewrite length_map, length_firstn; lia). rewrite <- lookups_app, firstn_skipn. reflexivity.
Qed.
End Column.
