(* ===== verification/Spaced.v ===== *)
(** * Values with nulls (parquet/internal/encoding: plain_encoding_types.go, encoder.go, decoder.go)

    A slice with a slot per value and null, and a validity bitmap: the spaced operations of the
    plain encoder and decoder, and the helpers that close up and spread out the slots, all driven
    by the run readers of [BitRuns]. *)

From Stdlib Require Import ZArith List Lia Bool String Permutation FinFun.
From S2P Require Import Prelude BitUtil MathUtil Memory BitRuns BitBlocks BitReaderIndex DictDecode.
Import ListNotations.
#[local] Open Scope Z_scope.
#[local] Open Scope go_scope.

(** [for { run := rdr.NextRun(); if run.Length == 0 { break }; body }] is [SBR.VisitRuns]; a body
    that returns from the function ends it with this mark. *)
Definition returned : goerr := ErrMsg "return".

(** [copy(dst[at:], src)]: the slice afterwards. *)
Definition copyTo {T} (dst : list T) (at_ : Z) (src : list T) : option (list T) :=
  _ <- slice dst at_ (len dst) ;; Some (splice dst (Z.to_nat at_) src).

Section Slots.
Context {T : Type}.

Definition compressStep (src : list T) (pos n : Z) (st : list T * Z) : option (list T * Z * option goerr) :=
  let '(o, nvalid) := st in
  part <- slice src pos (pos + n) ;;
  o' <- copyTo o nvalid part ;;
  Some ((o', nvalid + n), None).

Definition spacedCompress (src out : list T) (validBits : list Z) (validBitsOffset : Z) : option (list T * Z) :=
  reader <- SBR.newBaseSetBitRunReader validBits validBitsOffset (len src) false ;;
  r <- SBR.VisitRuns reader (compressStep src) (out, 0) ;;
  Some (snd (fst r)).

(** A run of [spacedExpand] and [spacedExpandSwap], which differ in how they move its values. *)
Definition expandStep (move : Z -> Z -> Z -> list T -> option (list T)) (pos n : Z) (st : list T * Z) : option (list T * Z * option goerr) :=
  let '(buffer, idxDecode) := st in
  let idxDecode := idxDecode - n in
  if idxDecode =? pos then Some ((buffer, idxDecode), Some returned)
  else buffer' <- move pos n idxDecode buffer ;; Some ((buffer', idxDecode), None).

(** [copy(buffer[pos:], buffer[idx:idx+n])] *)
Definition copyRun (pos n idx : Z) (buffer : list T) : option (list T) :=
  src <- slice buffer idx (idx + n) ;; copyTo buffer pos src.

(** The buffer afterwards and the number of slots. *)
Definition spacedExpand (buffer : list T) (nullCount : Z) (validBits : list Z) (validBitsOffset : Z) : option (list T * Z) :=
  let numValues := len buffer in
  if numValues - nullCount =? 0 then Some (buffer, numValues)
  else
    rdr <- SBR.newBaseSetBitRunReader validBits validBitsOffset numValues true ;;
    r <- SBR.VisitRuns rdr (expandStep copyRun) (buffer, numValues - nullCount) ;;
    Some (fst (snd (fst r)), numValues).

(** [for k := n - 1; k >= 0; k-- { buffer[pos+k], buffer[idx+k] = buffer[idx+k], buffer[pos+k] }] *)
Fixpoint swapDown (n : nat) (pos idx : Z) (buffer : list T) : option (list T) :=
  match n with
  | O => Some buffer
  | S k =>
      let dst := pos + Z.of_nat k in
      let src := idx + Z.of_nat k in
      x <- index buffer src ;; y <- index buffer dst ;;
      b1 <- store buffer dst x ;; b2 <- store b1 src y ;;
      swapDown k pos idx b2
  end.

Definition spacedExpandSwap (buffer : list T) (nullCount : Z) (validBits : list Z) (validBitsOffset : Z) : option (list T * Z) :=
  let numValues := len buffer in
  if numValues - nullCount =? 0 then Some (buffer, numValues)
  else
    rdr <- SBR.newBaseSetBitRunReader validBits validBitsOffset numValues true ;;
    r <- SBR.VisitRuns rdr (expandStep (fun pos n => swapDown (Z.to_nat n) pos)) (buffer, numValues - nullCount) ;;
    Some (fst (snd (fst r)), numValues).

End Slots.

(** ** The plain encoder *)

Record PlainEncoder : Type := mkPE { pe_sink : PooledBufferWriter.t; pe_bitSetReader : option baseSetBitRunReader }.

(** [if r == nil { r = New...(bits, off, n) } else { r.Reset(bits, off, n) }] *)
Definition setReader (r : option baseSetBitRunReader) (reverse : bool) (validBits : list Z) (validBitsOffset n : Z) : option baseSetBitRunReader :=
  match r with
  | None => SBR.newBaseSetBitRunReader validBits validBitsOffset n reverse
  | Some br => SBR.Reset br validBits validBitsOffset n
  end.

Module PE.
Section Width.
(** The size of the type in bytes. *)
Variable w : nat.
Implicit Types enc : PlainEncoder.

(** [fresh] is the buffer of the pool. *)
Definition newPlainEncoder (fresh : Buffer.t) : PlainEncoder := mkPE (PooledBufferWriter.NewPooledBufferWriter fresh 1024) None.

Definition Put enc (vals : list Z) : PlainEncoder := mkPE (fst (PooledBufferWriter.Write (pe_sink enc) (getBytes w vals))) (pe_bitSetReader enc).

Definition putRun (vals : list Z) (pos n : Z) enc : option (PlainEncoder * option goerr) :=
  part <- slice vals pos (pos + n) ;; Some (Put enc part, None).

Definition PutSpaced enc (vals : list Z) (validBits : list Z) (validBitsOffset : Z) : option PlainEncoder :=
  let enc := mkPE (PooledBufferWriter.Reserve (pe_sink enc) (PD.requiredBytes w (len vals))) (pe_bitSetReader enc) in
  rdr <- setReader (pe_bitSetReader enc) false validBits validBitsOffset (len vals) ;;
  r <- SBR.VisitRuns rdr (putRun vals) enc ;;
  let '(rdr', enc', _) := r in Some (mkPE (pe_sink enc') (Some rdr')).

Definition EstimatedDataEncodedSize enc : Z := PooledBufferWriter.LenOf (pe_sink enc).

Definition FlushValues enc (fresh : Buffer.t) : PlainEncoder * Buffer.t :=
  let '(sink, buf) := PooledBufferWriter.Finish fresh (pe_sink enc) in (mkPE sink (pe_bitSetReader enc), buf).

End Width.
End PE.

(** ** The plain decoder with nulls *)

Record SpacedDecoder : Type := mkSD { sd_dec : PlainDecoder; sd_bitSetReader : option baseSetBitRunReader }.

Module SD.
Section Width.
Variable w : nat.
Implicit Types d : SpacedDecoder.

Definition mismatch : goerr := ErrMsg "parquet: number of values / definition levels read did not match".

(** [Decode(out[lo:hi])]: the decoder, the slice [out] afterwards, the count and the error. *)
Definition decodePart (dec : PlainDecoder) (out : list Z) (lo hi : Z) : option (PlainDecoder * list Z * Z * option goerr) :=
  part <- slice out lo hi ;;
  r <- PD.Decode w dec part ;;
  let '(dec', part', n, err) := r in Some (dec', splice out (Z.to_nat lo) part', n, err).

Definition decodeDense (dec : PlainDecoder) (out : list Z) (toread : Z) : option (PlainDecoder * list Z * option goerr) :=
  r <- decodePart dec out 0 toread ;;
  let '(dec', out', values, err) := r in
  match err with
  | Some e => Some (dec', out', Some e)
  | None => Some (dec', out', if negb (values =? toread) then Some mismatch else None)
  end.

Definition spreadStep (pos n : Z) (st : list Z * Z) : option (list Z * Z * option goerr) :=
  let '(out, idxDecode) := st in
  let idxDecode := idxDecode - n in
  out' <- copyRun pos n idxDecode out ;; Some ((out', idxDecode), None).

(** The decoder, the slice, the number of slots or 0, the error. *)
Definition decodeSpacedDense d (out : list Z) (nullCount : Z) (validBits : list Z) (validBitsOffset : Z) : option (SpacedDecoder * list Z * Z * option goerr) :=
  let toread := len out - nullCount in
  r <- decodeDense (sd_dec d) out toread ;;
  let '(dec, out, err) := r in
  match err with
  | Some e => Some (mkSD dec (sd_bitSetReader d), out, 0, Some e)
  | None =>
      let nvalues := len out in
      if nullCount =? 0 then Some (mkSD dec (sd_bitSetReader d), out, nvalues, None)
      else
        rdr <- setReader (sd_bitSetReader d) true validBits validBitsOffset nvalues ;;
        r <- SBR.VisitRuns rdr spreadStep (out, nvalues - nullCount) ;;
        let '(rdr', (out, _), _) := r in Some (mkSD dec (Some rdr'), out, nvalues, None)
  end.

Definition maxDirectDecodeRuns : Z := 8.

(** The loop that collects the runs, the last one first: the runs, their total length, whether
    they have to be spread; [None] when there are too many. *)
Fixpoint collectRuns (fuel : nat) (rdr : baseSetBitRunReader) (toread : Z) (runs : list SetBitRun) (decodedPos : Z) (needsExpansion : bool)
  : option (baseSetBitRunReader * option (list SetBitRun * Z * bool)) :=
  match fuel with
  | O => None
  | S fuel' =>
      r <- SBR.NextRun rdr ;;
      let '(rdr, run) := r in
      if Length run =? 0 then Some (rdr, Some (runs, decodedPos, needsExpansion))
      else if len runs =? maxDirectDecodeRuns then Some (rdr, None)
      else
        let runs := runs ++ [run] in
        let densePos := toread - decodedPos - Length run in
        let needsExpansion := if negb (Pos run =? densePos) then true else needsExpansion in
        let decodedPos := decodedPos + Length run in
        if toread <=? decodedPos then Some (rdr, Some (runs, decodedPos, needsExpansion)) else collectRuns fuel' rdr toread runs decodedPos needsExpansion
  end.

(** [for i := runCount - 1; i >= 0; i--]: the runs as collected, the last one decoded first. *)
Fixpoint decodeRuns (dec : PlainDecoder) (out : list Z) (runs : list SetBitRun) : option (PlainDecoder * list Z * option goerr) :=
  match runs with
  | [] => Some (dec, out, None)
  | run :: runs' =>
      r <- decodePart dec out (Pos run) (Pos run + Length run) ;;
      let '(dec', out', values, err) := r in
      match err with
      | Some e => Some (dec', out', Some e)
      | None => if negb (values =? Length run) then Some (dec', out', Some mismatch) else decodeRuns dec' out' runs'
      end
  end.

(** [return 0, err] or [return len(out), nil] after a dense or a direct read. *)
Definition finish (rdr : option baseSetBitRunReader) (r : PlainDecoder * list Z * option goerr) : SpacedDecoder * list Z * Z * option goerr :=
  let '(dec, out, err) := r in
  match err with
  | Some e => (mkSD dec rdr, out, 0, Some e)
  | None => (mkSD dec rdr, out, len out, None)
  end.

Definition DecodeSpaced d (out : list Z) (nullCount : Z) (validBits : list Z) (validBitsOffset : Z) : option (SpacedDecoder * list Z * Z * option goerr) :=
  if nullCount =? 0 then r <- decodeDense (sd_dec d) out (len out) ;; Some (finish (sd_bitSetReader d) r)
  else
    let toread := len out - nullCount in
    if toread =? 0 then Some (d, out, len out, None)
    else
      rdr <- setReader (sd_bitSetReader d) true validBits validBitsOffset (len out) ;;
      c <- collectRuns (S (Z.to_nat maxDirectDecodeRuns)) rdr toread [] 0 false ;;
      let '(rdr, collected) := c in
      let d := mkSD (sd_dec d) (Some rdr) in
      match collected with
      | None => decodeSpacedDense d out nullCount validBits validBitsOffset
      | Some (runs, decodedPos, needsExpansion) =>
          if negb (decodedPos =? toread) then decodeSpacedDense d out nullCount validBits validBitsOffset
          else if negb needsExpansion then r <- decodeDense (sd_dec d) out toread ;; Some (finish (sd_bitSetReader d) r)
          else r <- decodeRuns (sd_dec d) out (rev runs) ;; Some (finish (sd_bitSetReader d) r)
      end.

End Width.
End SD.

(** ** Slots and runs *)

Section Runs.
Context {T : Type}.
Implicit Types (l out : list T) (rs : list (Z * Z)).

Definition runSlice l (r : Z * Z) : list T := firstn (Z.to_nat (snd r)) (skipn (Z.to_nat (fst r)) l).

(** The slots of all runs. *)
Definition slots l rs : list T := List.concat (map (runSlice l) rs).

(** The values at the valid positions, the first one at position [c]. *)
Fixpoint compress (g : Z -> bool) (c : Z) l : list T :=
  match l with
  | [] => []
  | x :: l' => if g c then x :: compress g (c + 1) l' else compress g (c + 1) l'
  end.

(** Runs in increasing order between [c] and [b]. *)
Fixpoint asc (c b : Z) rs : Prop :=
  match rs with
  | [] => c <= b
  | (p, n) :: rs' => c <= p /\ 0 < n /\ p + n <= b /\ asc (p + n) b rs'
  end.

Fixpoint total rs : Z := match rs with [] => 0 | (_, n) :: rs' => n + total rs' end.

Lemma compress_app g c l1 l2 : compress g c (l1 ++ l2) = compress g c l1 ++ compress g (c + len l1) l2.
Proof.
  revert c. induction l1 as [|x l1 IH]; intros c; cbn [app compress List.length]; [now rewrite Z.add_0_r|].
  rewrite IH. replace (c + 1 + len l1) with (c + Z.of_nat (S (List.length l1))) by lia. destruct (g c); reflexivity.
Qed.

Lemma compress_none g c l : (forall i, c <= i < c + len l -> g i = false) -> compress g c l = [].
Proof.
  revert c. induction l as [|x l IH]; intros c Hg; cbn [compress List.length] in *; [reflexivity|]. rewrite Hg by lia. apply IH. intros. apply Hg. lia.
Qed.

Lemma compress_all g c l : (forall i, c <= i < c + len l -> g i = true) -> compress g c l = l.
Proof.
  revert c. induction l as [|x l IH]; intros c Hg; cbn [compress List.length] in *; [reflexivity|]. rewrite Hg by lia. f_equal. apply IH. intros. apply Hg. lia.
Qed.

Lemma compress_gap g l c p :
  0 <= c <= p -> p <= len l -> (forall i, c <= i < p -> g i = false) -> compress g c (skipn (Z.to_nat c) l) = compress g p (skipn (Z.to_nat p) l).
Proof.
  intros Hc HL Hz. rewrite <- (firstn_skipn (Z.to_nat (p - c)) (skipn (Z.to_nat c) l)), compress_app, skipn_skipn, length_firstn, length_skipn.
  rewrite compress_none by (rewrite length_firstn, length_skipn; intros; apply Hz; lia). cbn [app]. f_equal; [lia|]. f_equal. lia.
Qed.

Lemma compress_run g l p e :
  0 <= p <= e -> e <= len l -> (forall i, p <= i < e -> g i = true) ->
  compress g p (skipn (Z.to_nat p) l) = firstn (Z.to_nat (e - p)) (skipn (Z.to_nat p) l) ++ compress g e (skipn (Z.to_nat e) l).
Proof.
  intros Hp HL Ho. rewrite <- (firstn_skipn (Z.to_nat (e - p)) (skipn (Z.to_nat p) l)) at 1. rewrite compress_app, skipn_skipn, length_firstn, length_skipn.
  rewrite compress_all by (rewrite length_firstn, length_skipn; intros; apply Ho; lia). f_equal. f_equal; [lia|]. f_equal. lia.
Qed.

(** The slots of the runs are the values at the valid positions. *)
Lemma slots_compress g b c l rs :
  maxRuns g b c rs -> 0 <= c <= b -> len l = b -> slots l rs = compress g c (skipn (Z.to_nat c) l).
Proof.
  induction 1 as [c Hz|c p e rs Hp He Hz Ho Hend HM IH]; intros Hc HL.
  - symmetry. apply compress_none. rewrite length_skipn. intros. apply Hz. lia.
  - change (slots l ((p, e - p) :: rs)) with (runSlice l (p, e - p) ++ slots l rs). rewrite IH by lia.
    rewrite (compress_gap g l c p), (compress_run g l p e) by (auto; lia). reflexivity.
Qed.

Lemma maxRuns_asc g b c rs : maxRuns g b c rs -> c <= b -> asc c b rs.
Proof. induction 1 as [c Hz|c p e rs Hp He Hz Ho Hend HM IH]; intros Hc; cbn [asc]; [assumption|]. replace (p + (e - p)) with e by lia. splits; try lia. now apply IH. Qed.

Lemma maxRuns_exists g k c : exists rs, maxRuns g (c + Z.of_nat k) c rs.
Proof.
  revert c. induction k as [|k IH]; intros c; [exists []; constructor; intros; lia|]. destruct (IH (c + 1)) as (rs & HM). replace (c + 1 + Z.of_nat k) with (c + Z.of_nat (S k)) in HM by lia.
  destruct (g c) eqn:E.
  - inversion HM as [c0 Hz|c0 p e rs' Hp He Hz Ho Hend HM']; subst.
    + exists [(c, c + 1 - c)]. apply maxRuns_cons; [lia|lia|intros; lia|intros i Hi; replace i with c by lia; assumption|intros; apply Hz; lia|now constructor].
    + destruct (Z.eq_dec p (c + 1)) as [->|Hne].
      * exists ((c, e - c) :: rs'). apply maxRuns_cons; [lia|lia|intros; lia| |exact Hend|exact HM']. intros i Hi. destruct (Z.eq_dec i c) as [->|]; [assumption|apply Ho; lia].
      * exists ((c, c + 1 - c) :: (p, e - p) :: rs'). apply maxRuns_cons; [lia|lia|intros; lia|intros i Hi; replace i with c by lia; assumption|intros; apply Hz; lia|exact HM].
  - assert (Hext : forall q, (forall i, c + 1 <= i < q -> g i = false) -> forall i, c <= i < q -> g i = false) by (intros q Hq i Hi; destruct (Z.eq_dec i c) as [->|]; [assumption|apply Hq; lia]).
    exists rs. inversion HM as [c0 Hz|c0 p e rs' Hp He Hz Ho Hend HM']; subst; [apply maxRuns_nil; exact (Hext _ Hz)|apply maxRuns_cons; [lia|lia|exact (Hext _ Hz)|exact Ho|exact Hend|exact HM']].
Qed.

Lemma setBitRuns_max bitmap start length :
  0 <= length -> maxRuns (fun i => Z.testbit (leval bitmap) (start + i)) length 0 (setBitRuns bitmap start length).
Proof.
  intros Hl. destruct (maxRuns_exists (fun i => Z.testbit (leval bitmap) (start + i)) (Z.to_nat length) 0) as (rs & HM). rewrite Z2Nat.id, Z.add_0_l in HM by lia.
  now rewrite <- (maxRuns_setBitRuns _ _ _ _ HM Hl).
Qed.

Lemma asc_total c b rs : asc c b rs -> 0 <= total rs <= b - c.
Proof. revert c. induction rs as [|[p n] rs IH]; intros c; cbn [asc total]; [lia|]. intros (H1 & H2 & H3 & H4). specialize (IH _ H4). lia. Qed.

Lemma asc_snoc c b rs p n : asc c b (rs ++ [(p, n)]) <-> asc c p rs /\ 0 < n /\ p + n <= b.
Proof. revert c. induction rs as [|[q m] rs IH]; intros c; cbn [app asc]; [intuition lia|]. rewrite IH. split; [intros (H1 & H2 & H3 & H4 & H5 & H6)|intros ((H1 & H2 & H3 & H4) & H5 & H6)]; pose proof (asc_total _ _ _ H4); splits; auto; lia. Qed.

Lemma total_app rs1 rs2 : total (rs1 ++ rs2) = total rs1 + total rs2.
Proof. induction rs1 as [|[p n] rs1 IH]; cbn [app total]; [reflexivity|]. rewrite IH. lia. Qed.

Lemma slots_app l rs1 rs2 : slots l (rs1 ++ rs2) = slots l rs1 ++ slots l rs2.
Proof. unfold slots. now rewrite map_app, concat_app. Qed.

Lemma slots_length l c b rs : asc c b rs -> 0 <= c -> b <= len l -> len (slots l rs) = total rs.
Proof.
  revert c. induction rs as [|[p n] rs IH]; intros c HA Hc Hb; [reflexivity|]. cbn [asc] in HA. destruct HA as (H1 & H2 & H3 & H4). change (slots l ((p, n) :: rs)) with (runSlice l (p, n) ++ slots l rs).
  rewrite length_app, Nat2Z.inj_add, (IH _ H4) by lia. cbn [total]. unfold runSlice. cbn [fst snd]. rewrite length_firstn, length_skipn. lia.
Qed.

(** Runs without gaps. *)
Lemma slots_tile l c b rs : asc c b rs -> 0 <= c -> total rs = b - c -> slots l rs = firstn (Z.to_nat (b - c)) (skipn (Z.to_nat c) l).
Proof.
  revert c. induction rs as [|[p n] rs IH]; intros c HA Hc HT.
  - cbn [total] in HT. rewrite <- HT. reflexivity.
  - cbn [asc total] in *. destruct HA as (H1 & H2 & H3 & H4). pose proof (asc_total _ _ _ H4). assert (p = c) by lia. subst p. change (slots l ((c, n) :: rs)) with (runSlice l (c, n) ++ slots l rs).
    rewrite (IH _ H4) by lia. unfold runSlice. cbn [fst snd]. rewrite (firstn_split (skipn (Z.to_nat c) l) (Z.to_nat n) (Z.to_nat (b - c))) by lia. f_equal.
    rewrite skipn_skipn. f_equal; [lia|]. f_equal. lia.
Qed.

(** Slots outside of a write. *)
Lemma skipn_ext_slots l l' c b rs : asc c b rs -> 0 <= c -> skipn (Z.to_nat c) l = skipn (Z.to_nat c) l' -> slots l rs = slots l' rs.
Proof.
  intros HA Hc HE. assert (HS : forall p, c <= p -> skipn (Z.to_nat p) l = skipn (Z.to_nat p) l').
  { intros p Hp. replace (Z.to_nat p) with (Z.to_nat (p - c) + Z.to_nat c)%nat by lia. rewrite <- !skipn_skipn. now rewrite HE. }
  clear HE. revert c HA Hc HS. induction rs as [|[p n] rs IH]; intros c HA Hc HS; [reflexivity|]. cbn [asc] in HA. destruct HA as (H1 & H2 & H3 & H4).
  change (runSlice l (p, n) ++ slots l rs = runSlice l' (p, n) ++ slots l' rs). unfold runSlice at 1 2. cbn [fst snd]. rewrite HS by lia. f_equal. apply (IH _ H4); [lia|]. intros; apply HS; lia.
Qed.

Lemma firstn_ext_slots l l' c b rs : asc c b rs -> 0 <= c -> firstn (Z.to_nat b) l = firstn (Z.to_nat b) l' -> slots l rs = slots l' rs.
Proof.
  revert c. induction rs as [|[p n] rs IH]; intros c HA Hc HE; [reflexivity|]. cbn [asc] in HA. destruct HA as (H1 & H2 & H3 & H4).
  change (runSlice l (p, n) ++ slots l rs = runSlice l' (p, n) ++ slots l' rs). rewrite (IH _ H4) by (auto; lia). f_equal. unfold runSlice. cbn [fst snd].
  assert (HS : forall l, firstn (Z.to_nat n) (skipn (Z.to_nat p) l) = skipn (Z.to_nat p) (firstn (Z.to_nat (p + n)) (firstn (Z.to_nat b) l))).
  { intros l0. rewrite firstn_firstn, Nat.min_l, firstn_skipn_comm by lia. do 2 f_equal. lia. }
  now rewrite !HS, HE.
Qed.
End Runs.

(** ** Spreading out the slots *)

Section Expand.
Context {T : Type}.
Implicit Types (l out : list T).

Lemma firstn_splice_before l p (src : list T) k : (k <= p)%nat -> (p <= List.length l)%nat -> firstn k (splice l p src) = firstn k l.
Proof. intros Hk Hp. unfold splice. rewrite firstn_app, firstn_firstn, Nat.min_l, length_firstn by lia. replace (k - Nat.min p (List.length l))%nat with O by lia. now rewrite firstn_O, app_nil_r. Qed.

Lemma skipn_splice_after l p (src : list T) k : (p + List.length src <= k)%nat -> (p + List.length src <= List.length l)%nat -> skipn k (splice l p src) = skipn k l.
Proof.
  intros Hk HL. rewrite splice_in by assumption. rewrite app_assoc, skipn_app, skipn_all2 by (rewrite length_app, length_firstn; lia). cbn [app].
  rewrite skipn_skipn, length_app, length_firstn. f_equal. lia.
Qed.

Lemma runSlice_splice l p (src : list T) : 0 <= p -> p + len src <= len l -> runSlice (splice l (Z.to_nat p) src) (p, len src) = src.
Proof.
  intros Hp HL. unfold runSlice. cbn [fst snd]. rewrite splice_in by lia. rewrite skipn_app, skipn_all2, length_firstn by (rewrite length_firstn; lia). cbn [app].
  replace (Z.to_nat p - Nat.min (Z.to_nat p) (List.length l))%nat with O by lia. rewrite skipn_O, Nat2Z.id. apply firstn_app_exact. reflexivity.
Qed.

(** One run has been moved to its place. *)
Definition movedRun out out' (p n idx : Z) : Prop :=
  List.length out' = List.length out /\ runSlice out' (p, n) = runSlice out (idx, n) /\
  skipn (Z.to_nat (p + n)) out' = skipn (Z.to_nat (p + n)) out /\ firstn (Z.to_nat idx) out' = firstn (Z.to_nat idx) out.

Lemma copy_moved out p n idx :
  0 <= idx <= p -> 0 < n -> p + n <= len out ->
  exists src out', slice out idx (idx + n) = Some src /\ copyTo out p src = Some out' /\ movedRun out out' p n idx.
Proof.
  intros Hi Hn HL. rewrite slice_ok by lia. replace (idx + n - idx) with n by lia. set (src := firstn _ _). assert (HLs : List.length src = Z.to_nat n) by (subst src; rewrite length_firstn, length_skipn; lia).
  exists src. unfold copyTo. rewrite slice_ok by lia. cbn [opt_bind]. eexists. split; [reflexivity|]. split; [reflexivity|]. split; [apply length_splice; lia|].
  split; [pose proof (runSlice_splice out p src ltac:(lia) ltac:(lia)) as HR; rewrite HLs, Z2Nat.id in HR by lia; exact HR|]. split; [apply skipn_splice_after; lia|apply firstn_splice_before; lia].
Qed.

Variable step : Z -> Z -> list T * Z -> option (list T * Z * option goerr).
Hypothesis step_ok : forall out idx p n, 0 < n -> 0 <= idx - n <= p -> p + n <= len out ->
  (exists out', step p n (out, idx) = Some ((out', idx - n), None) /\ movedRun out out' p n (idx - n)) \/
  (idx - n = p /\ step p n (out, idx) = Some ((out, idx - n), Some returned)).

(** From the last run to the first one, the values at the front end up in the slots of the runs. *)
Lemma expand_ok rs b out :
  asc 0 b rs -> b <= len out ->
  exists out' i e, visitAll step (rev rs) (out, total rs) = Some ((out', i), e) /\ List.length out' = List.length out /\
    slots out' rs = firstn (Z.to_nat (total rs)) out /\ skipn (Z.to_nat b) out' = skipn (Z.to_nat b) out.
Proof.
  revert b out. induction rs as [|[p n] rs IH] using rev_ind; intros b out HA Hb; [exists out, 0, None; auto|].
  apply asc_snoc in HA as (HA & Hn & Hpb). pose proof (asc_total _ _ _ HA) as Ht. rewrite rev_app_distr, total_app. cbn [rev app total visitAll]. rewrite Z.add_0_r.
  assert (Hp0 : 0 <= p) by lia.
  destruct (step_ok out (total rs + n) p n Hn ltac:(lia) ltac:(lia)) as [(out1 & -> & HL1 & Hs1 & Ha1 & Hf1)|(He & ->)]; replace (total rs + n - n) with (total rs) in * by lia; cbn [opt_bind].
  - destruct (IH p out1 HA ltac:(lia)) as (out' & i & e & -> & HL' & Hs' & Ha'). exists out', i, e. split; [reflexivity|]. split; [lia|].
    assert (HS : forall q, p <= q -> skipn (Z.to_nat q) out' = skipn (Z.to_nat q) out1).
    { intros q Hq. replace (Z.to_nat q) with (Z.to_nat (q - p) + Z.to_nat p)%nat by lia. rewrite <- !skipn_skipn. now rewrite Ha'. }
    split.
    + rewrite slots_app, Hs', Hf1. unfold slots. cbn [map List.concat]. rewrite app_nil_r. replace (runSlice out' (p, n)) with (runSlice out1 (p, n)) by (unfold runSlice; cbn [fst]; now rewrite Ha').
      rewrite Hs1. unfold runSlice. cbn [fst snd]. rewrite (firstn_split out (Z.to_nat (total rs)) (Z.to_nat (total rs + n))) by lia. do 2 f_equal. lia.
    + replace (Z.to_nat b) with (Z.to_nat (b - (p + n)) + Z.to_nat (p + n))%nat by lia. rewrite <- !skipn_skipn. now rewrite HS, Ha1 by lia.
  - exists out, (total rs), (Some returned). split; [reflexivity|]. split; [reflexivity|]. split; [|reflexivity].
    rewrite slots_app, (slots_tile out 0 p rs HA) by lia. unfold slots. cbn [map List.concat Z.to_nat skipn]. rewrite app_nil_r, Z.sub_0_r. unfold runSlice. cbn [fst snd].
    rewrite (firstn_split out (Z.to_nat p) (Z.to_nat (total rs + n))) by lia. do 2 f_equal. lia.
Qed.
End Expand.

Section Swap.
Context {T : Type}.
Implicit Types (l out : list T).

Lemma nth_error_upd l i x j : nth_error (upd l i x) j = if (Nat.eqb i j && Nat.ltb i (List.length l))%bool then Some x else nth_error l j.
Proof.
  revert i j. induction l as [|y l IH]; intros [|i] [|j]; cbn [upd nth_error List.length]; try reflexivity.
  - now rewrite andb_false_r.
  - rewrite IH. reflexivity.
Qed.

Lemma swap_perm l i j x y :
  (i < List.length l)%nat -> (j < List.length l)%nat -> nth_error l i = Some x -> nth_error l j = Some y -> Permutation l (upd (upd l j x) i y).
Proof.
  intros Hi Hj Hx Hy. apply Permutation_nth_error_bis. exists (fun n => if Nat.eqb n i then j else if Nat.eqb n j then i else n). splits.
  - intros a b. destruct (Nat.eqb_spec a i), (Nat.eqb_spec a j), (Nat.eqb_spec b i), (Nat.eqb_spec b j); intros; congruence.
  - intros a Ha. destruct (Nat.eqb_spec a i); [assumption|]. destruct (Nat.eqb_spec a j); assumption.
  - intros n. rewrite !nth_error_upd, length_upd. destruct (Nat.eqb_spec n i) as [->|Hni].
    + rewrite Nat.eqb_refl, (proj2 (Nat.ltb_lt _ _) Hi). cbn [andb]. congruence.
    + rewrite (proj2 (Nat.eqb_neq i n)) by congruence. cbn [andb]. destruct (Nat.eqb_spec n j) as [->|Hnj].
      * rewrite Nat.eqb_refl, (proj2 (Nat.ltb_lt _ _) Hj). cbn [andb]. congruence.
      * rewrite (proj2 (Nat.eqb_neq j n)) by congruence. reflexivity.
Qed.

Lemma runSlice_snoc l p k x : 0 <= p -> nth_error l (Z.to_nat (p + Z.of_nat k)) = Some x -> runSlice l (p, Z.of_nat (S k)) = runSlice l (p, Z.of_nat k) ++ [x].
Proof.
  intros Hp Hx. unfold runSlice. cbn [fst snd]. rewrite !Nat2Z.id. rewrite (firstn_split (skipn (Z.to_nat p) l) k (S k)) by lia. f_equal. replace (S k - k)%nat with 1%nat by lia.
  rewrite skipn_skipn. replace (k + Z.to_nat p)%nat with (Z.to_nat (p + Z.of_nat k)) by lia. set (i := Z.to_nat (p + Z.of_nat k)) in *. clearbody i. clear - Hx.
  revert i Hx. induction l as [|y l IH]; intros [|i] Hx; cbn in *; try discriminate; [congruence|auto].
Qed.

Lemma upd_firstn l i x k : (k <= i)%nat -> firstn k (upd l i x) = firstn k l.
Proof. revert i k. induction l as [|y l IH]; intros [|i] [|k] Hk; cbn [upd firstn]; try reflexivity; try lia. f_equal. apply IH. lia. Qed.

Lemma swapDown_ok n p idx out :
  0 <= idx < p -> p + Z.of_nat n <= len out ->
  exists out', swapDown n p idx out = Some out' /\ movedRun out out' p (Z.of_nat n) idx /\ Permutation out out'.
Proof.
  revert out. induction n as [|k IH]; intros out Hi HL; cbn [swapDown].
  { exists out. split; [reflexivity|]. split; [|apply Permutation_refl]. split; [reflexivity|]. split; [reflexivity|]. split; reflexivity. }
  assert (Hex : forall i, 0 <= i < len out -> exists x, index out i = Some x /\ nth_error out (Z.to_nat i) = Some x).
  { intros i Hr. unfold index. bool_lia (0 <=? i). bool_lia (i <? len out). cbn [andb]. destruct (nth_error out (Z.to_nat i)) as [x|] eqn:E; [eauto|]. apply nth_error_None in E. lia. }
  destruct (Hex (idx + Z.of_nat k) ltac:(lia)) as (x & -> & Hx). destruct (Hex (p + Z.of_nat k) ltac:(lia)) as (y & -> & Hy). cbn [opt_bind].
  rewrite store_ok by lia. cbn [opt_bind]. rewrite store_ok by (rewrite length_upd; lia). cbn [opt_bind]. set (b2 := upd (upd out _ x) _ y).
  assert (HLb : List.length b2 = List.length out) by (subst b2; now rewrite !length_upd).
  destruct (IH b2 Hi ltac:(lia)) as (out' & -> & (HL' & Hs & Ha & Hf) & HP). exists out'. split; [reflexivity|].
  assert (Hlow : firstn (Z.to_nat (idx + Z.of_nat k)) b2 = firstn (Z.to_nat (idx + Z.of_nat k)) out) by (subst b2; rewrite !upd_firstn by lia; reflexivity).
  assert (Hhigh : skipn (Z.to_nat (p + Z.of_nat (S k))) b2 = skipn (Z.to_nat (p + Z.of_nat (S k))) out) by (subst b2; rewrite !skipn_upd by lia; reflexivity).
  assert (Hpk : nth_error b2 (Z.to_nat (p + Z.of_nat k)) = Some x).
  { subst b2. rewrite !nth_error_upd, length_upd. rewrite (proj2 (Nat.eqb_neq _ _)) by lia. cbn [andb]. rewrite Nat.eqb_refl, (proj2 (Nat.ltb_lt _ _)) by lia. reflexivity. }
  assert (Hpk' : nth_error out' (Z.to_nat (p + Z.of_nat k)) = Some x).
  { rewrite <- Hpk. set (q := Z.to_nat (p + Z.of_nat k)) in *. rewrite <- (Nat.add_0_r q), <- !nth_error_skipn. now rewrite Ha. }
  split; [|eapply Permutation_trans; [|exact HP]; apply swap_perm; auto; lia]. split; [congruence|]. split; [|split].
  - rewrite (runSlice_snoc out' p k x), (runSlice_snoc out idx k x), Hs by (auto; lia). f_equal.
    assert (HE : forall l, runSlice l (idx, Z.of_nat k) = skipn (Z.to_nat idx) (firstn (Z.to_nat (idx + Z.of_nat k)) l)) by (intros l; unfold runSlice; cbn [fst snd]; rewrite Nat2Z.id, firstn_skipn_comm; do 2 f_equal; lia).
    now rewrite !HE, Hlow.
  - rewrite <- Hhigh. replace (Z.to_nat (p + Z.of_nat (S k))) with (1 + Z.to_nat (p + Z.of_nat k))%nat by lia. rewrite <- !skipn_skipn. now rewrite Ha.
  - rewrite Hf. transitivity (firstn (Z.to_nat idx) (firstn (Z.to_nat (idx + Z.of_nat k)) b2)); [rewrite firstn_firstn; f_equal; lia|]. rewrite Hlow, firstn_firstn. f_equal. lia.
Qed.
End Swap.

(** ** The helpers *)

Section Helpers.
Context {T : Type}.
Implicit Types (src out buffer : list T).

Lemma compress_count g c (l : list T) : len (compress g c l) = countIf (fun i => g (c + i)) (List.length l).
Proof.
  revert c. induction l as [|x l IH]; intros c; cbn [compress List.length]; [reflexivity|]. rewrite countIf_S, Z.add_0_r.
  rewrite (countIf_ext (fun i => g (c + (1 + i))) (fun i => g (c + 1 + i))) by (intros; f_equal; lia). rewrite <- IH. destruct (g c); cbn [List.length]; lia.
Qed.

(** Slots of the same values hold the same values. *)
Lemma compress_inj g c (l l' : list T) i :
  List.length l = List.length l' -> compress g c l = compress g c l' -> g (c + Z.of_nat i) = true -> nth_error l i = nth_error l' i.
Proof.
  revert c l' i. induction l as [|x l IH]; intros c [|x' l'] i HL HE Hi; cbn [List.length compress] in *; try discriminate; [reflexivity|]. destruct i as [|i].
  - rewrite Z.add_0_r in Hi. rewrite Hi in HE. injection HE as -> _. reflexivity.
  - cbn [nth_error]. apply (IH (c + 1)); [lia| |replace (c + 1 + Z.of_nat i) with (c + Z.of_nat (S i)) by lia; assumption]. destruct (g c); [now injection HE|assumption].
Qed.

Lemma visitAll_app_compress src rs pre tail c b :
  asc c b rs -> 0 <= c -> b <= len src -> total rs <= len tail ->
  visitAll (compressStep src) rs (pre ++ tail, len pre) =
    Some ((pre ++ slots src rs ++ skipn (Z.to_nat (total rs)) tail, len pre + total rs), None).
Proof.
  revert c pre tail. induction rs as [|[p n] rs IH]; intros c pre tail HA Hc Hb HT; cbn [visitAll].
  { cbn [total Z.to_nat skipn slots map List.concat app]. now rewrite Z.add_0_r. }
  cbn [asc total] in *. destruct HA as (H1 & H2 & H3 & H4). pose proof (asc_total _ _ _ H4). unfold compressStep at 1. rewrite slice_ok by lia. cbn [opt_bind]. replace (p + n - p) with n by lia.
  change (firstn (Z.to_nat n) (skipn (Z.to_nat p) src)) with (runSlice src (p, n)). set (part := runSlice src (p, n)).
  assert (HLp : List.length part = Z.to_nat n) by (subst part; unfold runSlice; cbn [fst snd]; rewrite length_firstn, length_skipn; lia).
  unfold copyTo. rewrite length_app. rewrite slice_ok by (rewrite ?length_app; lia). cbn [opt_bind]. rewrite Nat2Z.id.
  assert (Hsp : splice (pre ++ tail) (List.length pre) part = (pre ++ part) ++ skipn (Z.to_nat n) tail).
  { rewrite splice_in by (rewrite length_app; lia). rewrite firstn_app_exact, HLp by reflexivity. rewrite <- app_assoc. do 2 f_equal. rewrite skipn_app, skipn_all2 by lia. cbn [app]. f_equal. lia. }
  rewrite Hsp. replace (len pre + n) with (len (pre ++ part)) by (rewrite length_app; lia). rewrite (IH (p + n) (pre ++ part)) by (auto; rewrite ?length_skipn; lia).
  change (slots src ((p, n) :: rs)) with (part ++ slots src rs). rewrite skipn_skipn, <- !app_assoc, length_app. do 3 f_equal; [|lia].
  do 4 f_equal. lia.
Qed.

(** The range of a validity bitmap. *)
Definition validAt (validBits : list Z) (off i : Z) : bool := Z.testbit (leval validBits) (off + i).

Definition bitsOk (validBits : list Z) (off n : Z) : Prop := bytes validBits /\ 0 <= off /\ off + n <= 8 * len validBits.

Lemma range_slots validBits off (l : list T) :
  let rs := setBitRuns validBits off (len l) in
  asc 0 (len l) rs /\ slots l rs = compress (validAt validBits off) 0 l /\ total rs = countIf (validAt validBits off) (List.length l).
Proof.
  cbv zeta. pose proof (setBitRuns_max validBits off (len l) ltac:(lia)) as HM. pose proof (maxRuns_asc _ _ _ _ HM ltac:(lia)) as HA.
  pose proof (slots_compress _ _ 0 l _ HM ltac:(lia) eq_refl) as HS. cbn [Z.to_nat skipn] in HS. split; [exact HA|]. split; [exact HS|].
  rewrite <- (slots_length l 0 (len l) _ HA), HS, compress_count by lia. apply countIf_ext. intros. now rewrite Z.add_0_l.
Qed.

Lemma spacedCompress_ok src out validBits off :
  bitsOk validBits off (len src) -> countIf (validAt validBits off) (List.length src) <= len out ->
  let k := countIf (validAt validBits off) (List.length src) in
  spacedCompress src out validBits off = Some (compress (validAt validBits off) 0 src ++ skipn (Z.to_nat k) out, k).
Proof.
  intros (Hb & Ho & Hfit) HL k. destruct (range_slots validBits off src) as (HA & HS & HT). unfold spacedCompress, SBR.newBaseSetBitRunReader.
  destruct (VisitRange_ok validBits off (len src) false (compressStep src) (mkSBR [] 0 0 0 0 0 false 0) Hb Ho ltac:(lia) Hfit eq_refl) as (br & -> & Hv). cbn [opt_bind]. specialize (Hv (out, 0)). unfold rangeRuns in Hv.
  rewrite (visitAll_app_compress src _ [] out 0 (len src)) in Hv by (first [exact HA|lia]). unfold visits in Hv.
  destruct (SBR.VisitRuns br _ (out, 0)) as [[[br' st] e]|]; [|discriminate]. destruct Hv as [Hv _]. cbn [opt_bind fst snd app] in *. rewrite HS, HT in Hv. injection Hv as <- _. reflexivity.
Qed.

Lemma expandStep_ok (f : Z -> Z -> Z -> list T -> option (list T)) :
  (forall out idx p n, 0 < n -> 0 <= idx < p -> p + n <= len out -> exists out', f p n idx out = Some out' /\ movedRun out out' p n idx) ->
  forall buffer validBits off,
  bitsOk validBits off (len buffer) ->
  let k := countIf (validAt validBits off) (List.length buffer) in
  exists br buffer' i e, SBR.newBaseSetBitRunReader validBits off (len buffer) true = Some br /\
    visits true (SBR.VisitRuns br (expandStep f) (buffer, k)) (Some ((buffer', i), e)) /\
    List.length buffer' = List.length buffer /\ compress (validAt validBits off) 0 buffer' = firstn (Z.to_nat k) buffer.
Proof.
  intros Hf buffer validBits off (Hb & Ho & Hfit) k. destruct (range_slots validBits off buffer) as (HA & _ & HT). fold k in HT. unfold SBR.newBaseSetBitRunReader.
  destruct (VisitRange_ok validBits off (len buffer) true (expandStep f) (mkSBR [] 0 0 0 0 0 true 0) Hb Ho ltac:(lia) Hfit eq_refl) as (br & -> & Hv).
  destruct (expand_ok (expandStep f)) with (rs := setBitRuns validBits off (len buffer)) (b := len buffer) (out := buffer) as (buffer' & i & e & HE & HL & HS & _); [|exact HA|lia|].
  { intros out idx p n Hn Hi Hp. unfold expandStep. destruct (Z.eqb_spec (idx - n) p) as [He|Hne]; [right; auto|left].
    destruct (Hf out (idx - n) p n Hn ltac:(lia) Hp) as (out' & -> & HM). eexists. split; [reflexivity|exact HM]. }
  exists br, buffer', i, e. split; [reflexivity|]. rewrite HT in HE. specialize (Hv (buffer, k)). unfold rangeRuns in Hv. rewrite HE in Hv. split; [exact Hv|]. split; [exact HL|].
  destruct (range_slots validBits off buffer') as (_ & HS' & _). rewrite HL in HS'. rewrite <- HS', HS, HT. reflexivity.
Qed.
End Helpers.

Section HelpersOk.
Context {T : Type}.
Implicit Types (src out buffer : list T).

Lemma nothing_valid g (l : list T) : countIf g (List.length l) = 0 -> compress g 0 l = [].
Proof. intros H0. apply compress_none. intros i Hi. apply (countIf_none g (List.length l) H0). lia. Qed.

(** The validity bits say how many values there are. *)
Definition expanded buffer buffer' validBits off : Prop :=
  let k := countIf (validAt validBits off) (List.length buffer) in
  List.length buffer' = List.length buffer /\ compress (validAt validBits off) 0 buffer' = firstn (Z.to_nat k) buffer.

Lemma spacedExpand_ok buffer validBits off :
  bitsOk validBits off (len buffer) ->
  exists buffer', spacedExpand buffer (len buffer - countIf (validAt validBits off) (List.length buffer)) validBits off = Some (buffer', len buffer) /\
    expanded buffer buffer' validBits off.
Proof.
  intros HB. unfold spacedExpand. set (k := countIf _ _). replace (len buffer - (len buffer - k)) with k by lia. destruct (Z.eqb_spec k 0) as [H0|H0].
  { exists buffer. split; [reflexivity|]. split; [reflexivity|]. fold k. rewrite H0. now apply nothing_valid. }
  destruct (@expandStep_ok T copyRun) with (buffer := buffer) (validBits := validBits) (off := off) as (br & buffer' & i & e & -> & Hv & HE); [|exact HB|].
  { intros out idx p n Hn Hi Hp. destruct (copy_moved out p n idx ltac:(lia) Hn Hp) as (src & out' & Hs & Hc & HM). exists out'. unfold copyRun. rewrite Hs. auto. }
  fold k in Hv. cbn [opt_bind]. unfold visits in Hv. destruct (SBR.VisitRuns br _ _) as [[[br' st] e']|]; [|discriminate]. destruct Hv as [Hv _]. injection Hv as <- <-. cbn [opt_bind fst snd].
  exists buffer'. split; [reflexivity|exact HE].
Qed.

Lemma swapDown_perm n p idx buffer buffer' : swapDown n p idx buffer = Some buffer' -> Permutation buffer buffer'.
Proof.
  revert buffer. induction n as [|k IH]; intros buffer; cbn [swapDown]; [intros HE; injection HE as <-; apply Permutation_refl|].
  destruct (index buffer (idx + Z.of_nat k)) as [x|] eqn:Ex; [|discriminate]. destruct (index buffer (p + Z.of_nat k)) as [y|] eqn:Ey; [|discriminate]. cbn [opt_bind].
  unfold index in Ex, Ey. destruct (_ && _) eqn:Bx in Ex; [|discriminate]. destruct (_ && _) eqn:By in Ey; [|discriminate]. rewrite !andb_true_iff, Z.leb_le, Z.ltb_lt in Bx, By.
  rewrite store_ok by lia. cbn [opt_bind]. rewrite store_ok by (rewrite length_upd; lia). cbn [opt_bind]. intros HE. eapply Permutation_trans; [|exact (IH _ HE)]. apply swap_perm; auto; lia.
Qed.

Lemma visitAll_inv {S} (R : S -> Prop) (f : Z -> Z -> S -> option (S * option goerr)) rs s s' e :
  (forall p n s s' e, R s -> f p n s = Some (s', e) -> R s') -> R s -> visitAll f rs s = Some (s', e) -> R s'.
Proof.
  intros Hf. revert s. induction rs as [|[p n] rs IH]; intros s HR; cbn [visitAll]; [congruence|].
  destruct (f p n s) as [[s1 [err|]]|] eqn:E; cbn [opt_bind]; [intros HE; injection HE as <- _; eauto|eauto|discriminate].
Qed.

Lemma spacedExpandSwap_ok buffer validBits off :
  bitsOk validBits off (len buffer) ->
  exists buffer', spacedExpandSwap buffer (len buffer - countIf (validAt validBits off) (List.length buffer)) validBits off = Some (buffer', len buffer) /\
    expanded buffer buffer' validBits off /\ Permutation buffer buffer'.
Proof.
  intros HB. unfold spacedExpandSwap. set (k := countIf _ _). replace (len buffer - (len buffer - k)) with k by lia. destruct (Z.eqb_spec k 0) as [H0|H0].
  { exists buffer. split; [reflexivity|]. split; [|apply Permutation_refl]. split; [reflexivity|]. fold k. rewrite H0. now apply nothing_valid. }
  pose proof HB as (Hb & Ho & Hfit). set (step := fun pos n => swapDown (Z.to_nat n) pos).
  destruct (@expandStep_ok T step) with (buffer := buffer) (validBits := validBits) (off := off) as (br & buffer' & i & e & HE & Hv & HX); [|exact HB|].
  { intros out idx p n Hn Hi Hp. destruct (swapDown_ok (Z.to_nat n) p idx out ltac:(lia) ltac:(lia)) as (out' & Hs & HM & _). rewrite Z2Nat.id in HM by lia. eauto. }
  fold k in Hv. rewrite HE. cbn [opt_bind].
  assert (HP : Permutation buffer buffer').
  { destruct (VisitRange_ok validBits off (len buffer) true (expandStep step) (mkSBR [] 0 0 0 0 0 true 0) Hb Ho ltac:(lia) Hfit eq_refl) as (br2 & HE2 & Hv2).
    unfold SBR.newBaseSetBitRunReader in HE. rewrite HE in HE2. injection HE2 as <-. specialize (Hv2 (buffer, k)). unfold visits in Hv, Hv2.
    destruct (SBR.VisitRuns br _ _) as [[[br' st] e']|]; [|discriminate]. destruct Hv as [Hv _], Hv2 as [Hv2 _]. rewrite <- Hv in Hv2.
    apply (visitAll_inv (fun st => Permutation buffer (fst st))) in Hv2; [exact Hv2| |apply Permutation_refl].
    intros p n [b1 i1] [b2 i2] e2 HP. cbn [expandStep fst] in *. destruct (_ =? _); [intros H2; injection H2 as <- _ _; exact HP|]. destruct (step p n _ b1) as [b3|] eqn:E; cbn [opt_bind]; [|discriminate].
    intros H2. injection H2 as <- _ _. eapply Permutation_trans; [exact HP|]. eapply swapDown_perm. exact E. }
  unfold visits in Hv. destruct (SBR.VisitRuns br _ _) as [[[br' st] e']|]; [|discriminate]. destruct Hv as [Hv _]. injection Hv as <- <-. cbn [opt_bind fst snd].
  exists buffer'. split; [reflexivity|]. split; assumption.
Qed.
End HelpersOk.

(** ** Claims *)

(** Closing up the slots and spreading them out again. [spacedCompress] moves the valid
    values to the front, as many as the bitmap has set bits in the range, and both
    [spacedExpand] and [spacedExpandSwap] bring every one of them back to its slot, whatever
    the offset of the bitmap and the shape of its runs; the variant that swaps only permutes
    its buffer, so that no value of it is lost or duplicated. *)
Theorem spaced_roundtrip {T} (src dst : list T) validBits off :
  bitsOk validBits off (len src) -> List.length dst = List.length src ->
  exists packed k b1 b2,
    spacedCompress src dst validBits off = Some (packed, k) /\
    k = cnt (leval validBits) off (List.length src) /\
    spacedExpand packed (len src - k) validBits off = Some (b1, len src) /\
    spacedExpandSwap packed (len src - k) validBits off = Some (b2, len src) /\
    List.length b1 = List.length src /\ Permutation packed b2 /\
    forall i, validAt validBits off (Z.of_nat i) = true -> nth_error b1 i = nth_error src i /\ nth_error b2 i = nth_error src i.
Proof.
  intros HB HLd. pose proof (countIf_bound (validAt validBits off) (List.length src)) as Hk. rewrite cnt_countIf. fold (validAt validBits off).
  set (k := countIf _ _) in *. set (g := validAt validBits off) in *. set (packed := compress g 0 src ++ skipn (Z.to_nat k) dst).
  assert (HLc : len (compress g 0 src) = k) by (rewrite compress_count; apply countIf_ext; intros; now rewrite Z.add_0_l).
  assert (HLp : List.length packed = List.length src) by (subst packed; rewrite length_app, length_skipn; lia).
  assert (HF : firstn (Z.to_nat k) packed = compress g 0 src) by (apply firstn_app_exact; lia).
  assert (HB' : bitsOk validBits off (len packed)) by now rewrite HLp.
  destruct (spacedExpand_ok packed validBits off HB') as (b1 & HE1 & HL1 & HC1). destruct (spacedExpandSwap_ok packed validBits off HB') as (b2 & HE2 & (HL2 & HC2) & HP).
  rewrite HLp in *. fold g k in HE1, HE2, HC1, HC2. rewrite HF in HC1, HC2.
  exists packed, k, b1, b2. split; [apply spacedCompress_ok; [exact HB|fold g; fold k; lia]|]. split; [reflexivity|]. do 4 (split; [assumption|]). intros i Hi. split; apply (compress_inj g 0); auto.
Qed.

