(* ===== verification/PlainSpaced.v ===== *)
(** * Plain pages with nulls (parquet/internal/encoding/plain_encoding_types.go)

    The theorems of the plain encoder and decoder of [Spaced]: what [PutSpaced] writes and
    [DecodeSpaced] reads on each of its paths, and the round trip of a page of values with nulls. *)

From Stdlib Require Import ZArith List Lia Bool.
From S2P Require Import Prelude BitUtil MathUtil Memory BitRuns BitBlocks BitReaderIndex DictDecode Spaced.
Import ListNotations.
#[local] Open Scope Z_scope.
#[local] Open Scope go_scope.

(** A reader that is kept between calls keeps its direction. *)
Definition readerOk (reverse : bool) (r : option baseSetBitRunReader) : Prop :=
  match r with None => True | Some br => sb_reversed br = reverse end.

Lemma setReader_reset reverse r :
  readerOk reverse r -> exists br0, sb_reversed br0 = reverse /\ forall validBits off n, setReader r reverse validBits off n = SBR.Reset br0 validBits off n.
Proof. destruct r as [br|]; intros H; [exists br; auto|exists (mkSBR [] 0 0 0 0 0 reverse 0); auto]. Qed.

Lemma setReader_visits {S} reverse r (visitFn : Z -> Z -> S -> option (S * option goerr)) validBits off n :
  readerOk reverse r -> bitsOk validBits off n -> 0 <= n ->
  exists br, setReader r reverse validBits off n = Some br /\ forall s, visits reverse (SBR.VisitRuns br visitFn s) (visitAll visitFn (rangeRuns validBits off n reverse) s).
Proof. intros Hr (Hb & Ho & Hfit) Hn. destruct (setReader_reset reverse r Hr) as (br0 & Hr0 & HE). rewrite HE. now apply VisitRange_ok. Qed.

Section Width.
Variable w : nat.
Hypothesis Hw : (1 <= w)%nat.

Section Encoder.
Definition peOk (enc : PlainEncoder) (data : list Z) : Prop := streamed (pe_sink enc) data /\ readerOk false (pe_bitSetReader enc).

Lemma getBytes_bytes vs : bytes (getBytes w vs).
Proof. induction vs as [|v vs IH]; cbn [getBytes]; [constructor|]. apply bytes_app. auto with gobytes. Qed.

Lemma putRuns_ok vals rs c b enc data :
  asc c b rs -> 0 <= c -> b <= len vals -> streamed (pe_sink enc) data -> len data + Z.of_nat w * total rs < 2 ^ 62 ->
  exists enc', visitAll (PE.putRun w vals) rs enc = Some (enc', None) /\ streamed (pe_sink enc') (data ++ getBytes w (slots vals rs)).
Proof.
  revert c enc data. induction rs as [|[p n] rs IH]; intros c enc data HA Hc Hb Hs HT; cbn [visitAll].
  { exists enc. split; [reflexivity|]. cbn [slots map List.concat getBytes]. now rewrite app_nil_r. }
  cbn [asc total] in *. destruct HA as (H1 & H2 & H3 & H4). pose proof (asc_total _ _ _ H4). unfold PE.putRun at 1. rewrite slice_ok by lia. cbn [opt_bind].
  replace (p + n - p) with n by lia. change (firstn (Z.to_nat n) (skipn (Z.to_nat p) vals)) with (runSlice vals (p, n)).
  assert (HLp : List.length (runSlice vals (p, n)) = Z.to_nat n) by (unfold runSlice; cbn [fst snd]; rewrite length_firstn, length_skipn; lia).
  assert (HG : List.length (getBytes w (runSlice vals (p, n))) = (w * Z.to_nat n)%nat) by (rewrite length_getBytes; lia).
  destruct (Write_streamed (pe_sink enc) data (getBytes w (runSlice vals (p, n))) Hs (getBytes_bytes _) ltac:(nia)) as (sink & HW & Hs').
  destruct (IH (p + n) (PE.Put w enc (runSlice vals (p, n))) (data ++ getBytes w (runSlice vals (p, n))) H4 ltac:(lia) Hb) as (enc' & HE & Hs2).
  { unfold PE.Put. rewrite HW. exact Hs'. } { rewrite length_app. nia. }
  exists enc'. split; [exact HE|]. change (slots vals ((p, n) :: rs)) with (runSlice vals (p, n) ++ slots vals rs). now rewrite getBytes_app, app_assoc.
Qed.

(** [PutSpaced] writes the values at the valid positions. *)
Lemma PutSpaced_ok enc data vals validBits off :
  peOk enc data -> bitsOk validBits off (len vals) -> len data + Z.of_nat w * len (compress (validAt validBits off) 0 vals) < 2 ^ 62 ->
  exists enc', PE.PutSpaced w enc vals validBits off = Some enc' /\ peOk enc' (data ++ getBytes w (compress (validAt validBits off) 0 vals)).
Proof.
  intros [Hs Hr] HB HT. destruct (range_slots validBits off vals) as (HA & HS & _). unfold PE.PutSpaced. cbn [pe_sink pe_bitSetReader].
  destruct (setReader_visits false _ (PE.putRun w vals) validBits off (len vals) Hr HB ltac:(lia)) as (br & -> & Hv). cbn [opt_bind].
  set (enc1 := mkPE _ _). specialize (Hv enc1). change (rangeRuns validBits off (len vals) false) with (setBitRuns validBits off (len vals)) in Hv.
  rewrite <- HS in *. rewrite (slots_length vals 0 (len vals) _ HA) in HT by lia.
  destruct (putRuns_ok vals _ 0 (len vals) enc1 data HA ltac:(lia) ltac:(lia) ltac:(now apply Reserve_streamed) HT) as (enc' & HE & Hs'). rewrite HE in Hv. unfold visits in Hv.
  destruct (SBR.VisitRuns br _ enc1) as [[[br' s] e]|]; [|discriminate]. destruct Hv as [Hv Hr']. injection Hv as <- <-. cbn [opt_bind].
  eexists. split; [reflexivity|]. split; assumption.
Qed.

Lemma newPlainEncoder_ok fresh : bytes (Buffer.buf fresh) -> bytes (Buffer.spare fresh) -> Buffer.length fresh = 0 -> peOk (PE.newPlainEncoder fresh) [].
Proof.
  clear w Hw. intros H1 H2 H3. split; [|exact I]. cbn [PE.newPlainEncoder pe_sink]. apply Reserve_streamed.
  split; [red; cbn; splits; auto; lia|]. cbn. splits; auto. lia.
Qed.

Lemma plainFlush_ok enc data fresh : peOk enc data -> exists enc' page, PE.FlushValues enc fresh = (enc', page) /\ Buffer.Bytes page = data.
Proof. intros [Hs _]. destruct (Finish_streamed fresh _ _ Hs) as (m & HE & HB). unfold PE.FlushValues. rewrite HE. eauto. Qed.
End Encoder.

Section Decoder.
Implicit Types (dec : PlainDecoder) (vs out : list Z) (rs : list (Z * Z)).

Lemma decodePart_ok dec vs out lo n :
  plainRel w dec vs -> 0 <= lo -> 0 <= n -> lo + n <= len out -> n <= len vs ->
  exists dec', SD.decodePart w dec out lo (lo + n) = Some (dec', splice out (Z.to_nat lo) (firstn (Z.to_nat n) vs), n, None) /\ plainRel w dec' (skipn (Z.to_nat n) vs).
Proof.
  intros HR Hlo Hn Ho Hv. unfold SD.decodePart. rewrite slice_ok by lia. cbn [opt_bind]. replace (lo + n - lo) with n by lia. set (part := firstn _ _).
  assert (HL : List.length part = Z.to_nat n) by (subst part; rewrite length_firstn, length_skipn; lia).
  destruct (plainDecode_ok w Hw dec vs part HR ltac:(lia)) as (dec' & -> & HR'). cbn [opt_bind]. rewrite HL in *. rewrite Z2Nat.id by lia. eauto.
Qed.

Lemma decodeDense_ok dec vs out k :
  plainRel w dec vs -> 0 <= k <= len out -> k <= len vs ->
  exists dec' out', SD.decodeDense w dec out k = Some (dec', out', None) /\ plainRel w dec' (skipn (Z.to_nat k) vs) /\
    List.length out' = List.length out /\ firstn (Z.to_nat k) out' = firstn (Z.to_nat k) vs.
Proof.
  intros HR Hk Hv. destruct (decodePart_ok dec vs out 0 k HR ltac:(lia) ltac:(lia) ltac:(lia) Hv) as (dec' & HE & HR'). rewrite Z.add_0_l in HE. unfold SD.decodeDense. rewrite HE. cbn [opt_bind].
  rewrite Z.eqb_refl. cbn [negb]. eexists _, _. split; [reflexivity|]. split; [exact HR'|]. cbn [Z.to_nat]. split; [apply length_splice; lia|].
  rewrite splice_in by (rewrite length_firstn; lia). cbn [firstn app]. apply firstn_app_exact. rewrite length_firstn. lia.
Qed.

(** The slots of runs that fill the front of the slice. *)
Lemma slots_front out b rs p n : asc 0 b (rs ++ [(p, n)]) -> p + n = total (rs ++ [(p, n)]) -> slots out (rs ++ [(p, n)]) = firstn (Z.to_nat (p + n)) out.
Proof.
  intros HA HT. apply asc_snoc in HA as (HA & Hn & _). rewrite (slots_tile out 0 (p + n)); [now rewrite Z.sub_0_r| |lia|lia]. apply asc_snoc. split; [exact HA|lia].
Qed.

Lemma spread_ok out idx p n : 0 < n -> 0 <= idx - n <= p -> p + n <= len out -> exists out', SD.spreadStep p n (out, idx) = Some ((out', idx - n), None) /\ movedRun out out' p n (idx - n).
Proof.
  intros Hn Hi Hp. destruct (copy_moved out p n (idx - n) Hi Hn Hp) as (src & out' & Hs & Hc & HM). exists out'. unfold SD.spreadStep, copyRun. rewrite Hs. cbn [opt_bind]. rewrite Hc. auto.
Qed.

(** What a read of [k] values into the slots of [out] leaves. *)
Definition spacedRead (d' : SpacedDecoder) out out' vs validBits off : Prop :=
  let k := countIf (validAt validBits off) (List.length out) in
  List.length out' = List.length out /\ compress (validAt validBits off) 0 out' = firstn (Z.to_nat k) vs /\
  plainRel w (sd_dec d') (skipn (Z.to_nat k) vs) /\ readerOk true (sd_bitSetReader d').

Variables (validBits : list Z) (off : Z).

Lemma slots_read d' out out' vs :
  List.length out' = List.length out -> slots out' (setBitRuns validBits off (len out)) = firstn (Z.to_nat (total (setBitRuns validBits off (len out)))) vs ->
  plainRel w (sd_dec d') (skipn (Z.to_nat (total (setBitRuns validBits off (len out)))) vs) -> readerOk true (sd_bitSetReader d') -> spacedRead d' out out' vs validBits off.
Proof.
  intros HL HS HP Hr. destruct (range_slots validBits off out') as (_ & HS' & HT). rewrite HL in HS', HT. rewrite HS', HT in HS. rewrite HT in HP. red. auto.
Qed.

Lemma decodeSpacedDense_ok d vs out :
  bitsOk validBits off (len out) -> plainRel w (sd_dec d) vs -> readerOk true (sd_bitSetReader d) ->
  let k := countIf (validAt validBits off) (List.length out) in
  k <= len vs -> exists d' out', SD.decodeSpacedDense w d out (len out - k) validBits off = Some (d', out', len out, None) /\ spacedRead d' out out' vs validBits off.
Proof.
  intros HB HR Hrd k Hk. pose proof (countIf_bound (validAt validBits off) (List.length out)) as Hbd. fold k in Hbd. destruct (range_slots validBits off out) as (HA & _ & HT). fold k in HT.
  unfold SD.decodeSpacedDense. replace (len out - (len out - k)) with k by lia. destruct (decodeDense_ok (sd_dec d) vs out k HR Hbd Hk) as (dec' & out1 & -> & HR' & HL1 & HF1). cbn [opt_bind].
  rewrite HL1. destruct (Z.eqb_spec (len out - k) 0) as [H0|H0].
  - exists (mkSD dec' (sd_bitSetReader d)), out1. split; [reflexivity|]. apply slots_read; [exact HL1| |now rewrite HT|exact Hrd].
    rewrite (slots_tile out1 0 (len out) _ HA) by lia. rewrite Z.sub_0_r, HT. replace (len out) with k by lia. exact HF1.
  - destruct (setReader_visits true _ SD.spreadStep validBits off (len out) Hrd HB ltac:(lia)) as (br & -> & Hv). cbn [opt_bind]. replace (len out - (len out - k)) with k by lia. specialize (Hv (out1, k)).
    destruct (expand_ok SD.spreadStep) with (rs := setBitRuns validBits off (len out)) (b := len out) (out := out1) as (out' & i & e & HE & HL & HS & _); [intros; left; now apply spread_ok|exact HA|lia|].
    unfold rangeRuns in Hv. rewrite HT in HE. rewrite HE in Hv. unfold visits in Hv. destruct (SBR.VisitRuns br _ _) as [[[br' st] e']|]; [|discriminate]. destruct Hv as [Hv Hr']. injection Hv as <- <-. cbn [opt_bind].
    exists (mkSD dec' (Some br')), out'. split; [reflexivity|]. apply slots_read; [congruence|rewrite HS, HT; exact HF1|now rewrite HT|exact Hr'].
Qed.

(** Run by run, the first one first. *)
Lemma decodeRuns_ok rs c b dec vs out :
  asc c b rs -> 0 <= c -> b <= len out -> plainRel w dec vs -> total rs <= len vs ->
  exists dec' out', SD.decodeRuns w dec out (map (fun r => mkRun (fst r) (snd r)) rs) = Some (dec', out', None) /\ List.length out' = List.length out /\
    slots out' rs = firstn (Z.to_nat (total rs)) vs /\ firstn (Z.to_nat c) out' = firstn (Z.to_nat c) out /\ plainRel w dec' (skipn (Z.to_nat (total rs)) vs).
Proof.
  revert c dec vs out. induction rs as [|[p n] rs IH]; intros c dec vs out HA Hc Hb HR HT; cbn [map SD.decodeRuns]; [exists dec, out; auto|].
  cbn [asc total fst snd Pos Length] in *. destruct HA as (H1 & H2 & H3 & H4). pose proof (asc_total _ _ _ H4) as Ht.
  destruct (decodePart_ok dec vs out p n HR ltac:(lia) ltac:(lia) ltac:(lia) ltac:(lia)) as (dec1 & -> & HR1). cbn [opt_bind]. rewrite Z.eqb_refl. cbn [negb].
  set (part := firstn (Z.to_nat n) vs) in *. assert (HLp : len part = n) by (subst part; rewrite length_firstn; lia). set (out1 := splice _ _ _) in *.
  assert (HL1 : List.length out1 = List.length out) by (apply length_splice; lia).
  destruct (IH (p + n) dec1 (skipn (Z.to_nat n) vs) out1 H4 ltac:(lia) ltac:(lia) HR1 ltac:(rewrite length_skipn; lia)) as (dec' & out' & -> & HL' & HS' & HF' & HR').
  exists dec', out'. split; [reflexivity|]. split; [congruence|]. rewrite skipn_skipn in HR'. replace (Z.to_nat (total rs) + Z.to_nat n)%nat with (Z.to_nat (n + total rs)) in HR' by lia.
  split; [|split; [|exact HR']].
  - change (slots out' ((p, n) :: rs)) with (runSlice out' (p, n) ++ slots out' rs). rewrite HS', (firstn_split vs (Z.to_nat n)) by lia. f_equal; [|f_equal; lia].
    transitivity (runSlice out1 (p, n)); [|pose proof (runSlice_splice out p part ltac:(lia) ltac:(lia)) as Hsp; rewrite HLp in Hsp; exact Hsp].
    assert (HS : forall l : list Z, runSlice l (p, n) = skipn (Z.to_nat p) (firstn (Z.to_nat (p + n)) l)) by (intros l; unfold runSlice; cbn [fst snd]; rewrite firstn_skipn_comm; do 2 f_equal; lia).
    now rewrite !HS, HF'.
  - transitivity (firstn (Z.to_nat c) (firstn (Z.to_nat (p + n)) out')); [rewrite firstn_firstn; f_equal; lia|]. rewrite HF', firstn_firstn, Nat.min_l by lia. apply firstn_splice_before; lia.
Qed.

Lemma yields_total rs br : yields true rs br -> 0 <= total rs.
Proof. revert br. induction rs as [|[p n] rs IH]; intros br; cbn [yields total]; [lia|]. intros (_ & br' & _ & Hn & Hy). specialize (IH _ Hy). lia. Qed.

(** The loop that collects the runs: all of them, when there are not too many; that none has to
    be moved says at least that the first one of them ends where the values end. *)
Lemma collectRuns_ok rs br toread runs decodedPos ne fuel :
  yields true rs br -> rs <> [] -> toread = decodedPos + total rs -> len runs <= 8 -> 8 - len runs < Z.of_nat fuel ->
  exists br', sb_reversed br' = true /\
    ((len runs + len rs <= 8 /\ exists ne', SD.collectRuns fuel br toread runs decodedPos ne = Some (br', Some (runs ++ map (fun r => mkRun (fst r) (snd r)) rs, toread, ne')) /\
      (ne' = false -> ne = false /\ match rs with (p, n) :: _ => p + n = toread - decodedPos | [] => True end)) \/
     (8 < len runs + len rs /\ SD.collectRuns fuel br toread runs decodedPos ne = Some (br', None))).
Proof.
  revert br runs decodedPos ne fuel. induction rs as [|[p n] rs IH]; intros br runs decodedPos ne fuel Hy Hne HT HL Hf; [congruence|]. clear Hne. destruct fuel as [|fuel]; [lia|].
  cbn [yields] in Hy. destruct Hy as (_ & br1 & HN & Hn & Hy). assert (Hr1 : sb_reversed br1 = true) by (destruct rs as [|[? ?] ?]; apply Hy).
  cbn [SD.collectRuns total List.length] in *. rewrite HN. cbn [opt_bind Length Pos]. bool_lia (n =? 0). unfold SD.maxDirectDecodeRuns. destruct (Z.eqb_spec (len runs) 8) as [H8|H8].
  { exists br1. split; [exact Hr1|]. right. split; [lia|reflexivity]. }
  set (ne1 := if negb _ then true else ne). assert (Hne1 : ne1 = false -> ne = false /\ p + n = toread - decodedPos).
  { subst ne1. destruct (Z.eqb_spec p (toread - decodedPos - n)) as [->|]; cbn [negb]; [intros ->; split; [reflexivity|lia]|discriminate]. }
  destruct rs as [|r rs].
  - cbn [total List.length map] in *. bool_lia (toread <=? decodedPos + n). exists br1. split; [exact Hr1|]. left. split; [lia|]. exists ne1. replace (decodedPos + n) with toread by lia. auto.
  - assert (Htr : 0 < total (r :: rs)).
    { destruct r as [q m]. cbn [yields] in Hy. destruct Hy as (_ & br2 & _ & Hm & Hy). pose proof (yields_total _ _ Hy). cbn [total]. lia. }
    rewrite (proj2 (Z.leb_gt toread (decodedPos + n))) by lia.
    destruct (IH br1 (runs ++ [mkRun p n]) (decodedPos + n) ne1 fuel Hy ltac:(discriminate) ltac:(lia) ltac:(rewrite length_app; cbn [List.length]; lia) ltac:(rewrite length_app; cbn [List.length]; lia)) as (br' & Hr' & HC).
    rewrite length_app in HC. cbn [List.length] in HC. exists br'. split; [exact Hr'|]. destruct HC as [(HL' & ne' & HE & HN')|(HL' & HE)]; [left|right]; (split; [cbn [List.length]; lia|]); [|exact HE].
    exists ne'. rewrite HE, <- app_assoc. split; [reflexivity|]. intros H. apply HN' in H as [H _]. auto.
Qed.

Lemma setReader_yields r n :
  readerOk true r -> bitsOk validBits off n -> 0 <= n ->
  exists br, setReader r true validBits off n = Some br /\ yields true (rev (setBitRuns validBits off n)) br.
Proof.
  intros Hr (Hb & Ho & Hfit) Hn. destruct (setReader_reset true r Hr) as (br0 & Hr0 & HE). rewrite HE.
  destruct (Range_yields validBits off n true br0 Hb Ho Hn Hfit Hr0) as (br & HR & Hy & _). eauto.
Qed.

Lemma total_rev rs : total (rev rs) = total rs.
Proof. induction rs as [|[p n] rs IH]; cbn [rev total]; [reflexivity|]. rewrite total_app, IH. cbn [total]. lia. Qed.

(** Whatever path it takes, [DecodeSpaced] fills the valid slots with the next values. *)
Lemma DecodeSpaced_ok d vs out :
  bitsOk validBits off (len out) -> plainRel w (sd_dec d) vs -> readerOk true (sd_bitSetReader d) ->
  let k := countIf (validAt validBits off) (List.length out) in
  k <= len vs -> exists d' out', SD.DecodeSpaced w d out (len out - k) validBits off = Some (d', out', len out, None) /\ spacedRead d' out out' vs validBits off.
Proof.
  intros HB HR Hrd k Hk. pose proof (countIf_bound (validAt validBits off) (List.length out)) as Hbd. fold k in Hbd. destruct (range_slots validBits off out) as (HA & _ & HT). fold k in HT.
  unfold SD.DecodeSpaced. destruct (Z.eqb_spec (len out - k) 0) as [H0|H0].
  { destruct (decodeDense_ok (sd_dec d) vs out (len out) HR ltac:(lia) ltac:(lia)) as (dec' & out' & -> & HR' & HL & HF). cbn [opt_bind SD.finish]. rewrite HL.
    exists (mkSD dec' (sd_bitSetReader d)), out'. split; [reflexivity|]. apply slots_read; [exact HL| | |exact Hrd]; rewrite HT; replace k with (len out) by lia; [|exact HR'].
    rewrite (slots_tile out' 0 (len out) _ HA), Z.sub_0_r by lia. exact HF. }
  replace (len out - (len out - k)) with k by lia. destruct (Z.eqb_spec k 0) as [Hk0|Hk0].
  { exists d, out. split; [reflexivity|]. red. fold k. rewrite Hk0. splits; auto. now apply nothing_valid. }
  destruct (setReader_yields (sd_bitSetReader d) (len out) Hrd HB ltac:(lia)) as (br & -> & Hy). cbn [opt_bind].
  set (rs := setBitRuns validBits off (len out)) in *.
  assert (Hne : rev rs <> []) by (intros HE; apply (f_equal total) in HE; rewrite total_rev in HE; cbn [total] in HE; lia).
  destruct (collectRuns_ok (rev rs) br k [] 0 false (S (Z.to_nat SD.maxDirectDecodeRuns)) Hy Hne ltac:(rewrite total_rev; lia) ltac:(cbn; lia) ltac:(cbn; lia)) as (br' & Hr' & [(HL8 & ne & -> & HN)|(_ & ->)]);
    cbn [opt_bind]; [|now apply decodeSpacedDense_ok]. rewrite Z.eqb_refl. cbn [negb app sd_dec sd_bitSetReader]. destruct ne; cbn [negb].
  - rewrite map_rev, rev_involutive. destruct (decodeRuns_ok rs 0 (len out) (sd_dec d) vs out HA ltac:(lia) ltac:(lia) HR ltac:(lia)) as (dec' & out' & -> & HL & HS & _ & HR'). cbn [opt_bind SD.finish]. rewrite HL.
    exists (mkSD dec' (Some br')), out'. split; [reflexivity|]. now apply slots_read.
  - destruct (decodeDense_ok (sd_dec d) vs out k HR Hbd Hk) as (dec' & out' & -> & HR' & HL & HF). cbn [opt_bind SD.finish]. rewrite HL.
    exists (mkSD dec' (Some br')), out'. split; [reflexivity|]. apply slots_read; [exact HL| |fold rs; now rewrite HT|exact Hr']. fold rs. rewrite HT, <- HF.
    destruct (HN eq_refl) as [_ Hend]. rewrite <- (rev_involutive rs) in HA, HT |- *. destruct (rev rs) as [|[p n] rs']; [congruence|]. cbn [rev] in *. rewrite (slots_front out' (len out)) by (auto; lia). do 2 f_equal. lia.
Qed.
End Decoder.
End Width.

(** ** A page of values with nulls *)

(** A slice with a slot per value or null, its validity bitmap and the offset in it. *)
Definition batch : Type := list Z * list Z * Z.

Definition batchOk '((vals, validBits, off) : batch) : Prop := bitsOk validBits off (len vals).

Definition validValues '((vals, validBits, off) : batch) : list Z := compress (validAt validBits off) 0 vals.

Definition pageValues (bs : list batch) : list Z := List.concat (map validValues bs).

Fixpoint spacedPuts (w : nat) (enc : PlainEncoder) (bs : list batch) : option PlainEncoder :=
  match bs with
  | [] => Some enc
  | (vals, validBits, off) :: bs' => enc' <- PE.PutSpaced w enc vals validBits off ;; spacedPuts w enc' bs'
  end.

(** Reads of the page, batch by batch, up to the first error: the batches as filled in, and the
    sum of the counts returned. *)
Fixpoint spacedReads (w : nat) (d : SpacedDecoder) (bs : list batch) : option (SpacedDecoder * list batch * Z * option goerr) :=
  match bs with
  | [] => Some (d, [], 0, None)
  | (out, validBits, off) :: bs' =>
      r <- SD.DecodeSpaced w d out (len out - cnt (leval validBits) off (List.length out)) validBits off ;;
      let '(d', out', n, err) := r in
      match err with
      | Some e => Some (d', [], n, Some e)
      | None => r <- spacedReads w d' bs' ;; let '(d2, rest, m, e) := r in Some (d2, (out', validBits, off) :: rest, n + m, e)
      end
  end.

Definition slotCount (bs : list batch) : Z := fold_right (fun '((l, _, _) : batch) n => len l + n) 0 bs.

(** Slices of the same shape. *)
Definition sameShape '((l, validBits, off) : batch) '((l', validBits', off') : batch) : Prop := List.length l = List.length l' /\ validBits = validBits' /\ off = off'.

Section Page.
Variable w : nat.
Hypothesis Hw : (1 <= w)%nat.

Lemma spacedPuts_ok bs enc data :
  peOk enc data -> Forall batchOk bs -> len data + Z.of_nat w * len (pageValues bs) < 2 ^ 62 ->
  exists enc', spacedPuts w enc bs = Some enc' /\ peOk enc' (data ++ getBytes w (pageValues bs)).
Proof.
  intros HP HF. revert enc data HP. induction HF as [|[[vals validBits] off] bs HB _ IH]; intros enc data HP HL; cbn [spacedPuts]; [exists enc; split; [reflexivity|now rewrite app_nil_r]|].
  change (pageValues ((vals, validBits, off) :: bs)) with (validValues (vals, validBits, off) ++ pageValues bs) in *. rewrite length_app in HL. cbn [validValues batchOk] in *.
  destruct (PutSpaced_ok w Hw enc data vals validBits off HP HB ltac:(nia)) as (enc' & -> & HP'). cbn [opt_bind]. rewrite getBytes_app, app_assoc by exact Hw. apply IH; [exact HP'|].
  rewrite length_app, length_getBytes by exact Hw. nia.
Qed.

Lemma validValues_len vals validBits off : len (validValues (vals, validBits, off)) = cnt (leval validBits) off (List.length vals).
Proof. cbn [validValues]. rewrite compress_count, cnt_countIf. apply countIf_ext. intros i Hi. now rewrite Z.add_0_l. Qed.

Lemma spacedReads_ok bs d vs :
  plainRel w (sd_dec d) vs -> readerOk true (sd_bitSetReader d) -> Forall batchOk bs -> len (pageValues bs) <= len vs ->
  exists d' outs, spacedReads w d bs = Some (d', outs, slotCount bs, None) /\ Forall2 sameShape outs bs /\ pageValues outs = firstn (List.length (pageValues bs)) vs /\
    plainRel w (sd_dec d') (skipn (List.length (pageValues bs)) vs).
Proof.
  intros HR Hr HF. revert d vs HR Hr. induction HF as [|[[out validBits] off] bs HB _ IH]; intros d vs HR Hr HL; cbn [spacedReads]; [exists d, []; auto|].
  change (pageValues ((out, validBits, off) :: bs)) with (validValues (out, validBits, off) ++ pageValues bs) in *. rewrite length_app in *. pose proof (validValues_len out validBits off) as HV.
  set (m := List.length (validValues (out, validBits, off))) in *. rewrite <- HV. assert (HK : countIf (validAt validBits off) (List.length out) = Z.of_nat m) by (rewrite HV, cnt_countIf; reflexivity).
  destruct (DecodeSpaced_ok w Hw validBits off d vs out HB HR Hr) as (d1 & out1 & HE & HL1 & HC1 & HR1 & Hr1); [lia|]. rewrite HK in HE, HC1, HR1. rewrite Nat2Z.id in HC1, HR1.
  rewrite HE. cbn [opt_bind].
  destruct (IH d1 (skipn m vs) HR1 Hr1 ltac:(rewrite length_skipn; lia)) as (d' & outs & -> & HS & HP & HR'). cbn [opt_bind].
  exists d', ((out1, validBits, off) :: outs). split; [reflexivity|]. split; [constructor; [cbn; auto|exact HS]|]. split.
  - change (pageValues ((out1, validBits, off) :: outs)) with (validValues (out1, validBits, off) ++ pageValues outs). rewrite HP, (firstn_split vs m) by lia. cbn [validValues]. f_equal; [exact HC1|f_equal; lia].
  - rewrite skipn_skipn in HR'. now rewrite (Nat.add_comm m).
Qed.
End Page.

(** ** Claims *)

(** C15: a page of values with nulls. [PutSpaced] is called with any batches of slots, each with a
    validity bitmap at any bit offset; the page that [FlushValues] hands out is set on a plain
    decoder, and read with [DecodeSpaced] in any batches with bitmaps of their own, into slices
    with any contents. Every read succeeds and reports its number of slots, and the valid slots
    hold, batch after batch, the valid values in the order they were put, whichever of its
    paths (no null, few runs, runs at the front, many runs) a read takes. *)
Theorem plain_spaced_roundtrip w fresh fresh' bs reads :
  (1 <= w)%nat -> bytes (Buffer.buf fresh) -> bytes (Buffer.spare fresh) -> Buffer.length fresh = 0 ->
  Forall batchOk bs -> Forall (inS (8 * Z.of_nat w)) (pageValues bs) -> Z.of_nat w * len (pageValues bs) <= MaxInt32 ->
  Forall batchOk reads -> len (pageValues reads) <= len (pageValues bs) ->
  exists enc enc' page d outs,
    spacedPuts w (PE.newPlainEncoder fresh) bs = Some enc /\ PE.FlushValues enc fresh' = (enc', page) /\
    PE.EstimatedDataEncodedSize enc = Z.of_nat w * len (pageValues bs) /\
    spacedReads w (mkSD (PD.SetData (mkPD 0 []) (len (pageValues bs)) (Buffer.Bytes page)) None) reads = Some (d, outs, slotCount reads, None) /\
    Forall2 sameShape outs reads /\ pageValues outs = firstn (List.length (pageValues reads)) (pageValues bs).
Proof.
  intros Hw H1 H2 H3 HF HV Hmax HFr Hr. assert (HM : MaxInt32 < 2 ^ 62) by reflexivity.
  destruct (spacedPuts_ok w Hw bs _ [] (newPlainEncoder_ok fresh H1 H2 H3) HF ltac:(cbn [List.length]; lia)) as (enc & HE & HP). cbn [app] in HP.
  destruct (plainFlush_ok enc _ fresh' HP) as (enc' & page & HFl & HB).
  destruct (spacedReads_ok w Hw reads (mkSD (PD.SetData (mkPD 0 []) (len (pageValues bs)) (Buffer.Bytes page)) None) (pageValues bs)) as (d & outs & HR & HS & HO & _); auto; [|exact I|].
  { split; [reflexivity|]. split; [exact HV|]. split; [exact Hmax|]. exists []. cbn [PD.SetData sd_dec pd_data]. now rewrite app_nil_r. }
  exists enc, enc', page, d, outs. splits; auto. destruct HP as [Hs _]. unfold PE.EstimatedDataEncodedSize. rewrite (LenOf_streamed _ _ Hs), length_getBytes by exact Hw. lia.
Qed.

Lemma plain_spaced_witness :
  let validBits := [173; 90; 1] in
  let bs := [(map Z.of_nat (seq 1 17), validBits, 1); ([-7; 2147483647; -2147483648], [255], 4); (repeat 5 40, repeat 85 6, 2)] in
  let reads := [(repeat 0 30, repeat 60 6, 3); (repeat 9 10, [24; 0], 5)] in
  exists enc enc' page d outs,
    spacedPuts 4 (PE.newPlainEncoder Buffer.NewResizableBuffer) bs = Some enc /\ PE.FlushValues enc Buffer.NewResizableBuffer = (enc', page) /\
    PE.EstimatedDataEncodedSize enc = 4 * len (pageValues bs) /\
    spacedReads 4 (mkSD (PD.SetData (mkPD 0 []) (len (pageValues bs)) (Buffer.Bytes page)) None) reads = Some (d, outs, slotCount reads, None) /\
    Forall2 sameShape outs reads /\ pageValues outs = firstn (List.length (pageValues reads)) (pageValues bs).
Proof.
  assert (HB : forall b, In b [1; 24; 60; 85; 90; 173; 255; 0] -> 0 <= b < 256) by (cbn; intros b Hb; lia).
  assert (Hbytes : forall l, Forall (fun b => In b [1; 24; 60; 85; 90; 173; 255; 0]) l -> bytes l) by (intros l Hl; apply (Forall_impl _ HB Hl)).
  apply (plain_spaced_roundtrip 4 Buffer.NewResizableBuffer Buffer.NewResizableBuffer); [lia|constructor|constructor|reflexivity| | |vm_compute; discriminate| |vm_compute; discriminate].
  - repeat constructor; try (apply Hbytes; repeat constructor; cbn; tauto); vm_compute; discriminate.
  - cbn -[inS]. repeat constructor; vm_compute; congruence.
  - repeat constructor; try (apply Hbytes; repeat constructor; cbn; tauto); vm_compute; discriminate.
Defined.
