(* ===== verification/PageOps.v ===== *)
(** * Whole pages (parquet/internal/encoding/types.go, [TypedEncoder] and [TypedDecoder])

    What the encoders and decoders of a page have in common: [PageEncoder] and [PageDecoder] are
    the operations on values of the typed interfaces, [PageEncoderOk] and [PageDecoderOk] what an
    encoding promises of them.  Any sequence of calls is treated here, once. *)

From Stdlib Require Import ZArith List Lia Bool.
From S2P Require Import Prelude BitUtil BitBlocks Spaced.
Import ListNotations.
#[local] Open Scope Z_scope.
#[local] Open Scope go_scope.

(** ** Putting *)

Section Putting.
Context {A : Type}.

(** A batch of values, perhaps with a validity bitmap and an offset in it. *)
Definition putBatch : Type := list A * option (list Z * Z).

Definition putOk '((vals, valid) : putBatch) : Prop := match valid with Some (bits, off) => bitsOk bits off (len vals) | None => True end.

Definition putValues '((vals, valid) : putBatch) : list A := match valid with Some (bits, off) => compress (validAt bits off) 0 vals | None => vals end.

Definition allValues (puts : list putBatch) : list A := List.concat (map putValues puts).

(** Closing up a batch into a scratch slice. *)
Lemma compressed_ok (z : A) vals bits off :
  bitsOk bits off (len vals) ->
  exists scratch nvalid, spacedCompress vals (repeat z (List.length vals)) bits off = Some (scratch, nvalid) /\ slice scratch 0 nvalid = Some (compress (validAt bits off) 0 vals).
Proof.
  intros HB. pose proof (countIf_bound (validAt bits off) (List.length vals)) as Hk. rewrite spacedCompress_ok by (auto; rewrite repeat_length; lia). eexists _, _. split; [reflexivity|].
  assert (HLc : len (compress (validAt bits off) 0 vals) = countIf (validAt bits off) (List.length vals)) by (rewrite compress_count; apply countIf_ext; intros; now rewrite Z.add_0_l).
  rewrite slice_ok by (rewrite ?length_app; lia). cbn [Z.to_nat skipn]. rewrite Z.sub_0_r, firstn_app_exact by lia. reflexivity.
Qed.
End Putting.
Arguments putBatch : clear implicits.

(** [Put], and [PutSpaced] for a batch with a bitmap; a panic is [None]. *)
Class PageEncoder (E A : Type) : Type := { encPut : E -> putBatch A -> option E }.

(** [hasPut]: the values since the last page; [mayPut]: what a page can take. *)
Class PageEncoderOk (E A : Type) `{PageEncoder E A} : Type := {
  hasPut : E -> list A -> Prop;
  mayPut : list A -> Prop;
  mayPut_prefix : forall vs ws, mayPut (vs ++ ws) -> mayPut vs;
  encPut_ok : forall e done b, hasPut e done -> putOk b -> mayPut (done ++ putValues b) -> exists e', encPut e b = Some e' /\ hasPut e' (done ++ putValues b)
}.

Fixpoint pagePuts {E A} `{PageEncoder E A} (e : E) (puts : list (putBatch A)) : option E :=
  match puts with
  | [] => Some e
  | b :: puts' => e' <- encPut e b ;; pagePuts e' puts'
  end.

Lemma pagePuts_ok {E A} `{PageEncoderOk E A} puts e done :
  hasPut e done -> Forall putOk puts -> mayPut (done ++ allValues puts) -> exists e', pagePuts e puts = Some e' /\ hasPut e' (done ++ allValues puts).
Proof.
  intros HO HF. revert e done HO. induction HF as [|b puts HP _ IH]; intros e done HO Hm; cbn [pagePuts]; [exists e; unfold allValues; cbn; now rewrite app_nil_r|].
  change (allValues (b :: puts)) with (putValues b ++ allValues puts) in *. rewrite app_assoc in *.
  destruct (encPut_ok e done b HO HP (mayPut_prefix _ _ Hm)) as (e1 & -> & HO1). cbn [opt_bind]. now apply IH.
Qed.

(** ** Reading *)

Section Reading.
Context {A : Type}.

Inductive pageRead : Type :=
| ReadDecode (out : list A)
| ReadDiscard (n : nat)
| ReadSpaced (out : list A) (bits : list Z) (off : Z).

(** The number of nulls among the slots of [out]. *)
Definition nullsOf (out : list A) (bits : list Z) (off : Z) : Z := len out - cnt (leval bits) off (List.length out).

(** The values of a read, its count and its error. *)
Definition readResult (V : Type) : Type := list V * Z * option goerr.

(** How many values a read takes when [m] are left. *)
Definition takes (m : nat) (op : pageRead) : nat :=
  match op with
  | ReadDecode out => Nat.min (List.length out) m
  | ReadDiscard k => Nat.min k m
  | ReadSpaced out bits off => Z.to_nat (cnt (leval bits) off (List.length out))
  end.

(** What the reads of a page of [vals] are to give. *)
Fixpoint readSpec {V} (vals : list V) (ops : list pageRead) : list (readResult V) :=
  match ops with
  | [] => []
  | op :: ops' =>
      let n := takes (List.length vals) op in
      match op with
      | ReadDecode _ => (firstn n vals, Z.of_nat n, None)
      | ReadDiscard _ => ([], Z.of_nat n, None)
      | ReadSpaced out _ _ => (firstn n vals, len out, None)
      end :: readSpec (skipn n vals) ops'
  end.

(** Bitmaps cover their slots, there are values for the valid ones, and a read comes to a number
    of values the decoder can deliver. *)
Fixpoint readsFit (may : nat -> Prop) (m : nat) (ops : list pageRead) : Prop :=
  match ops with
  | [] => True
  | op :: ops' =>
      let n := takes m op in
      match op with
      | ReadDecode _ => may n
      | ReadDiscard _ => True
      | ReadSpaced out bits off => may n /\ bitsOk bits off (len out) /\ (n <= m)%nat
      end /\ readsFit may (m - n) ops'
  end.

Definition anyCount (n : nat) : Prop := True.

Definition shapeOk (op : pageRead) : Prop := match op with ReadSpaced out bits off => bitsOk bits off (len out) | _ => True end.
End Reading.
Arguments pageRead : clear implicits.

Class PageDecoder (D A : Type) : Type := {
  decDecode : D -> list A -> option (D * list A * Z * option goerr);
  decDiscard : D -> Z -> option (D * Z * option goerr);
  decDecodeSpaced : D -> list A -> Z -> list Z -> Z -> option (D * list A * Z * option goerr)
}.

Definition pageStep {D A} `{PageDecoder D A} (d : D) (op : pageRead A) : option (D * readResult A) :=
  match op with
  | ReadDecode out => r <- decDecode d out ;; let '(d', out', n, e) := r in Some (d', (firstn (Z.to_nat n) out', n, e))
  | ReadDiscard n => r <- decDiscard d (Z.of_nat n) ;; let '(d', k, e) := r in Some (d', ([], k, e))
  | ReadSpaced out bits off =>
      r <- decDecodeSpaced d out (nullsOf out bits off) bits off ;; let '(d', out', n, e) := r in Some (d', (compress (validAt bits off) 0 out', n, e))
  end.

(** The reads one after the other, errors or not. *)
Fixpoint pageReads {D A} `{PageDecoder D A} (d : D) (ops : list (pageRead A)) : option (D * list (readResult A)) :=
  match ops with
  | [] => Some (d, [])
  | op :: ops' =>
      r <- pageStep d op ;;
      let '(d', res) := r in
      r <- pageReads d' ops' ;; let '(d2, rest) := r in Some (d2, res :: rest)
  end.

(** [holdsValues]: the values that are left; [shows]: what is delivered for a value; [mayTake]:
    the numbers of values a read may come to. *)
Class PageDecoderOk (D A V : Type) `{PageDecoder D A} : Type := {
  holdsValues : D -> list V -> Prop;
  shows : A -> V -> Prop;
  mayTake : nat -> Prop;
  decDecode_ok : forall d vs out, let n := Nat.min (List.length out) (List.length vs) in
    holdsValues d vs -> mayTake n ->
    exists d' outs, decDecode d out = Some (d', outs ++ skipn n out, Z.of_nat n, None) /\ Forall2 shows outs (firstn n vs) /\ holdsValues d' (skipn n vs);
  decDiscard_ok : forall d vs k, let n := Nat.min k (List.length vs) in
    holdsValues d vs -> exists d', decDiscard d (Z.of_nat k) = Some (d', Z.of_nat n, None) /\ holdsValues d' (skipn n vs);
  decDecodeSpaced_ok : forall d vs out bits off, let n := Z.to_nat (cnt (leval bits) off (List.length out)) in
    holdsValues d vs -> mayTake n -> bitsOk bits off (len out) -> (n <= List.length vs)%nat ->
    exists d' out', decDecodeSpaced d out (nullsOf out bits off) bits off = Some (d', out', len out, None) /\
      Forall2 shows (compress (validAt bits off) 0 out') (firstn n vs) /\ holdsValues d' (skipn n vs)
}.

Section Reads.
Context {D A V : Type} `{PageDecoderOk D A V}.
Implicit Types (d : D) (vs : list V) (out : list A).

Definition showsResult (r : readResult A) (s : readResult V) : Prop := Forall2 shows (fst (fst r)) (fst (fst s)) /\ snd (fst r) = snd (fst s) /\ snd r = snd s.

Lemma Forall2_len {X Y} (R : X -> Y -> Prop) l l' : Forall2 R l l' -> List.length l = List.length l'.
Proof. induction 1; cbn; congruence. Qed.

Lemma pageReads_ok ops d vs :
  holdsValues d vs -> readsFit mayTake (List.length vs) ops -> exists d' res, pageReads d ops = Some (d', res) /\ Forall2 showsResult res (readSpec vs ops).
Proof.
  revert d vs. induction ops as [|op ops IH]; intros d vs HD HR; cbn [pageReads]; [exists d, []; auto|]. destruct op as [out|k|out bits off]; cbn [readsFit readSpec takes pageStep] in *; rewrite <- length_skipn in HR.
  - destruct HR as [HT HR]. destruct (decDecode_ok d vs out HD HT) as (d1 & outs & -> & HF & HD1). cbn [opt_bind]. destruct (IH d1 _ HD1 HR) as (d' & res & -> & HS). cbn [opt_bind].
    pose proof (Forall2_len _ _ _ HF) as HL. rewrite length_firstn in HL. rewrite Nat2Z.id, firstn_app_exact by lia. eexists _, _. split; [reflexivity|]. constructor; [|exact HS]. repeat split. exact HF.
  - destruct HR as [_ HR]. destruct (decDiscard_ok d vs k HD) as (d1 & -> & HD1). cbn [opt_bind]. destruct (IH d1 _ HD1 HR) as (d' & res & -> & HS). cbn [opt_bind].
    eexists _, _. split; [reflexivity|]. constructor; [|exact HS]. repeat split. constructor.
  - destruct HR as [(HT & HB & HL) HR]. destruct (decDecodeSpaced_ok d vs out bits off HD HT HB HL) as (d1 & out' & -> & HF & HD1). cbn [opt_bind]. destruct (IH d1 _ HD1 HR) as (d' & res & -> & HS). cbn [opt_bind].
    eexists _, _. split; [reflexivity|]. constructor; [|exact HS]. repeat split. exact HF.
Qed.
End Reads.

(** Where values are delivered as they are. *)
Lemma Forall2_eq {X} (l l' : list X) : Forall2 eq l l' -> l = l'.
Proof. induction 1; congruence. Qed.

Lemma eqResults {V} (res spec : list (readResult V)) :
  Forall2 (fun r s => Forall2 eq (fst (fst r)) (fst (fst s)) /\ snd (fst r) = snd (fst s) /\ snd r = snd s) res spec -> res = spec.
Proof.
  intros HF. apply Forall2_eq. induction HF as [|[[l n] e] [[l' n'] e'] rs ss (H1 & H2 & H3) _ IH]; constructor; [|exact IH].
  cbn [fst snd] in *. apply Forall2_eq in H1. congruence.
Qed.

(** ** Reading into the front, then spreading out *)

(** Spreading out [outs], the values decoded to the front of [out]. *)
Lemma spread_decoded {A} (out outs : list A) bits off :
  bitsOk bits off (len out) -> len outs = cnt (leval bits) off (List.length out) ->
  exists out', spacedExpand (splice out 0 outs) (nullsOf out bits off) bits off = Some (out', len out) /\ compress (validAt bits off) 0 out' = outs.
Proof.
  intros HB HL. rewrite cnt_countIf in HL. pose proof (countIf_bound (fun i => Z.testbit (leval bits) (off + i)) (List.length out)) as Hk.
  assert (HLs : List.length (splice out 0 outs) = List.length out) by (apply length_splice; lia).
  destruct (spacedExpand_ok (splice out 0 outs) bits off) as (out' & HE & _ & HC); [now rewrite HLs|]. unfold nullsOf. rewrite cnt_countIf. rewrite HLs in *. exists out'. split; [exact HE|]. rewrite HC.
  unfold validAt. rewrite <- HL, Nat2Z.id, splice_in by lia. cbn [firstn app Nat.add]. now apply firstn_app_exact.
Qed.

(** The [DecodeSpaced] of most encodings, given their [Decode]. *)
Definition decodeSpacedBy {D A} (decode : D -> list A -> option (D * list A * Z * option goerr)) (mismatch : goerr) (d : D) (out : list A) (nullCount : Z) (validBits : list Z)
    (validBitsOffset : Z) : option (D * list A * Z * option goerr) :=
  let toRead := len out - nullCount in
  part <- slice out 0 toRead ;;
  r <- decode d part ;;
  let '(d', part', values, err) := r in
  let out := splice out 0 part' in
  match err with
  | Some e => Some (d', out, values, Some e)
  | None =>
      if negb (values =? toRead) then Some (d', out, values, Some mismatch)
      else r <- spacedExpand out nullCount validBits validBitsOffset ;; let '(out', n) := r in Some (d', out', n, None)
  end.

Lemma decodeSpacedBy_ok {D A V} (decode : D -> list A -> option (D * list A * Z * option goerr)) (holdsV : D -> list V -> Prop) (showsV : A -> V -> Prop) mismatch d vs out bits off :
  let n := Z.to_nat (cnt (leval bits) off (List.length out)) in
  (forall part, List.length part = n -> exists d' outs, decode d part = Some (d', outs, Z.of_nat n, None) /\ Forall2 showsV outs (firstn n vs) /\ holdsV d' (skipn n vs)) ->
  bitsOk bits off (len out) -> (n <= List.length vs)%nat ->
  exists d' out', decodeSpacedBy decode mismatch d out (nullsOf out bits off) bits off = Some (d', out', len out, None) /\
    Forall2 showsV (compress (validAt bits off) 0 out') (firstn n vs) /\ holdsV d' (skipn n vs).
Proof.
  intros n HD HB HL. pose proof (countIf_bound (fun i => Z.testbit (leval bits) (off + i)) (List.length out)) as Hk. rewrite <- cnt_countIf in Hk.
  assert (Hnk : Z.of_nat n = cnt (leval bits) off (List.length out)) by lia. unfold decodeSpacedBy. replace (len out - nullsOf out bits off) with (Z.of_nat n) by (unfold nullsOf; lia).
  rewrite slice_ok by lia. cbn [opt_bind Z.to_nat skipn]. rewrite Z.sub_0_r, Nat2Z.id. destruct (HD (firstn n out)) as (d' & outs & -> & HF & HD'); [rewrite length_firstn; lia|].
  cbn [opt_bind]. rewrite Z.eqb_refl. cbn [negb]. pose proof (Forall2_len _ _ _ HF) as HLo. rewrite length_firstn in HLo.
  destruct (spread_decoded out outs bits off HB ltac:(lia)) as (out' & -> & HC). cbn [opt_bind]. exists d', out'. rewrite HC. auto.
Qed.
