(* ===== verification/DictEncode.v ===== *)
(** * Dictionary encoding (parquet/internal/encoding: encoder.go, typed_encoder.go)

    [DictE] is [typedDictEncoder] with its base [dictEncoder], for the integer types: a memo
    table assigns indices to the values, the data page is the RLE-encoded indices after a byte
    with their width, the dictionary page the distinct values.  [dict_roundtrip] puts it
    together with the decoder of [DictDecode]. *)

From Stdlib Require Import ZArith List Lia Bool String Permutation.
From S2P Require Import Prelude GoStd BitUtil BitPacking BitWriter BitReader RleFormat RleDecoder RleEncoder RleBatch Codec MathUtil Memory HashTable MemoTable BitReaderIndex Levels DictDecode.
Import ListNotations.
#[local] Open Scope Z_scope.
#[local] Open Scope go_scope.

(** The struct, without the buffer behind [idxValues]. *)
Record dictEncoder : Type := mkDictE {
  en_memo : Table Z;
  en_idxValues : list Z;
  en_dictEncodedSize : Z;
  en_rawDataSize : Z;
  en_trackReferences : bool;
  en_referencedBitmap : list Z;
  en_referencedIndices : list Z
}.

(** [HashTable.WriteOutSubset] for values of [w] bytes; an index beyond the slice panics. *)
Definition writeEntry (w : nat) (start : Z) (e : entry Z) (out : list Z) : option (list Z) :=
  let idx := i32 (e_memoIdx e - i32 start) in
  if 0 <=? idx then
    if idx <? len out / Z.of_nat w then Some (splice out (Z.to_nat (idx * Z.of_nat w)) (lebytes w (e_val e))) else None
  else Some out.

Definition WriteOutSubset (w : nat) (h : HashTable Z) (start : Z) (out : list Z) : option (list Z) :=
  HT.VisitEntries h (writeEntry w start) out.

Module DictE.
Section Ops.
(** The size of the type in bytes. *)
Variable w : nat.
Implicit Types d : dictEncoder.

Definition newDictEncoder : dictEncoder := mkDictE (MT.NewMemoTable 0) [] 0 0 false [] [].

Definition EnableDictionaryReferenceTracking d : dictEncoder :=
  mkDictE (en_memo d) (en_idxValues d) (en_dictEncodedSize d) (en_rawDataSize d) true (en_referencedBitmap d) (en_referencedIndices d).

Definition DictionaryIndexReferenced d (idx : Z) : option bool :=
  if (idx <? 0) || (len (en_referencedBitmap d) <=? idx >> 3) then Some false
  else b <- index (en_referencedBitmap d) (idx >> 3) ;; Some (negb ((b & u8 (Z.shiftl 1 (idx & 7))) =? 0)).

Definition recordDictionaryReference d (idx : Z) : option dictEncoder :=
  if negb (en_trackReferences d) || (idx <? 0) then Some d
  else
    let byteIndex := idx >> 3 in
    let bitmap :=
      if len (en_referencedBitmap d) <=? byteIndex
      then en_referencedBitmap d ++ repeat 0 (Z.to_nat (byteIndex - len (en_referencedBitmap d) + 1)) else en_referencedBitmap d in
    let mask := u8 (Z.shiftl 1 (idx & 7)) in
    b <- index bitmap byteIndex ;;
    if (b & mask) =? 0 then
      bitmap' <- store bitmap byteIndex (Z.lor b mask) ;;
      Some (mkDictE (en_memo d) (en_idxValues d) (en_dictEncodedSize d) (en_rawDataSize d) (en_trackReferences d) bitmap' (en_referencedIndices d ++ [idx]))
    else Some (mkDictE (en_memo d) (en_idxValues d) (en_dictEncodedSize d) (en_rawDataSize d) (en_trackReferences d) bitmap (en_referencedIndices d)).

Definition AddRawSize d (n : Z) : dictEncoder :=
  mkDictE (en_memo d) (en_idxValues d) (en_dictEncodedSize d) (en_rawDataSize d + n) (en_trackReferences d) (en_referencedBitmap d) (en_referencedIndices d).

(** One iteration of [Put]. *)
Definition putOne d (val : Z) : option dictEncoder :=
  r <- MT.InsertOrGet (en_memo d) val ;;
  let '(memo, memoIdx, found) := r in
  let size := if found : bool then en_dictEncodedSize d else en_dictEncodedSize d + Z.of_nat w in
  recordDictionaryReference
    (mkDictE memo (en_idxValues d ++ [i32 memoIdx]) size (en_rawDataSize d) (en_trackReferences d) (en_referencedBitmap d) (en_referencedIndices d))
    (i32 memoIdx).

Fixpoint putAll d (vals : list Z) : option dictEncoder :=
  match vals with
  | [] => Some d
  | val :: vals' => d' <- putOne d val ;; putAll d' vals'
  end.

Definition Put d (vals : list Z) : option dictEncoder :=
  if len vals =? 0 then Some d
  else d' <- putAll d vals ;; Some (AddRawSize d' (len vals * Z.of_nat w)).

Definition NumEntries d : Z := MT.Size (en_memo d).

Definition DictEncodedSize d : Z := en_dictEncodedSize d.

Definition ObservedRawSize d : Z := en_rawDataSize d.

Definition BitWidth d : Z :=
  if NumEntries d =? 0 then 0
  else if NumEntries d =? 1 then 1
  else Bits.Len64 (u32 (NumEntries d - 1)).

Definition EstimatedDataEncodedSize d : Z :=
  1 + (MaxRLEBufferSize (BitWidth d) (len (en_idxValues d)) + MinRLEBufferSize (BitWidth d)).

(** [WriteIndices(out)]: the slice afterwards, the number of bytes or -1, the error. *)
Definition WriteIndices d (out : list Z) : option (dictEncoder * list Z * Z * option goerr) :=
  out1 <- store out 0 (u8 (BitWidth d)) ;;
  let enc := RE.NewRleEncoder (WriterAtBuffer.new (skipn 1 out1)) (BitWidth d) in
  r <- RE.PutBatchIndices enc (en_idxValues d) ;;
  let '(enc1, _, err) := r in
  match err with
  | Some e => Some (d, firstn 1 out1 ++ wbuf (bw_wr (re_w enc1)), -1, Some e)
  | None =>
      let '(enc2, nbytes) := RE.Flush enc1 in
      Some (mkDictE (en_memo d) [] (en_dictEncodedSize d) 0 (en_trackReferences d) (en_referencedBitmap d) (en_referencedIndices d),
            firstn 1 out1 ++ wbuf (bw_wr (re_w enc2)), nbytes + 1, None)
  end.

(** [FlushValues()]; [fresh] is the buffer [bufferPool.Get()] returns. *)
Definition FlushValues d (fresh : Buffer.t) : option (dictEncoder * (Buffer.t + goerr)) :=
  let buf := Buffer.Reserve fresh (EstimatedDataEncodedSize d) in
  r <- WriteIndices d (Buffer.Buf buf) ;;
  let '(d', out, size, err) := r in
  match err with
  | Some e => Some (d', inr e)
  | None => Some (d', inl (Buffer.ResizeNoShrink (Buffer.mk out (Buffer.spare buf) (Buffer.length buf)) size))
  end.

(** [WriteDict(out)], little-endian *)
Definition WriteDict d (out : list Z) : option (list Z) := WriteOutSubset w (t_tbl (en_memo d)) 0 out.

Definition Reset d : dictEncoder :=
  mkDictE (MT.Reset (en_memo d)) [] 0 0 (en_trackReferences d) (map (fun _ => 0) (en_referencedBitmap d)) [].

End Ops.
End DictE.

(** ** Writing the dictionary *)

Section WriteOut.
Variable w : nat.
Hypothesis Hw : (1 <= w)%nat.

Lemma splice_getBytes vs i v :
  (i < List.length vs)%nat -> splice (getBytes w vs) (i * w) (lebytes w v) = getBytes w (upd vs i v).
Proof.
  intros Hi. rewrite splice_in by (rewrite length_getBytes, length_lebytes; nia). rewrite length_lebytes.
  revert i Hi. induction vs as [|x vs IH]; intros i Hi; [cbn in Hi; lia|]. cbn [getBytes]. destruct i as [|i]; cbn [upd getBytes].
  - cbn [Nat.mul firstn app Nat.add]. f_equal. apply skipn_app_exact, length_lebytes.
  - cbn in Hi. replace (S i * w)%nat with (w + i * w)%nat by lia. rewrite firstn_app, length_lebytes, firstn_all2 by (rewrite length_lebytes; lia).
    replace (w + i * w - w)%nat with (i * w)%nat by lia. rewrite <- app_assoc. f_equal.
    rewrite skipn_app, skipn_all2, length_lebytes by (rewrite length_lebytes; lia). replace (w + i * w + w - w)%nat with (i * w + w)%nat by lia.
    apply IH. lia.
Qed.

(** Any bytes are the bytes of some values. *)
Lemma getBytes_surj n out : bytes out -> List.length out = (w * n)%nat -> exists vs, List.length vs = n /\ getBytes w vs = out.
Proof.
  revert out. induction n as [|n IH]; intros out Hb HL.
  { exists []. destruct out; [auto|]. rewrite Nat.mul_0_r in HL. discriminate. }
  destruct (IH (skipn w out)) as (vs & HLv & HG); [auto with gobytes|rewrite length_skipn; lia|].
  exists (leval (firstn w out) :: vs). cbn [List.length getBytes]. split; [lia|]. rewrite HG.
  assert (HLf : List.length (firstn w out) = w) by (rewrite length_firstn; nia).
  rewrite <- HLf at 1. rewrite lebytes_leval by auto with gobytes. apply firstn_skipn.
Qed.

(** Writing entries as bytes is storing their values. *)
Lemma writeEntry_getBytes start xs vs out' :
  fold_left (fun o e => opt_bind o (HT.copyEntry start e)) xs (Some vs) = Some out' ->
  fold_left (fun o e => opt_bind o (writeEntry w start e)) xs (Some (getBytes w vs)) = Some (getBytes w out').
Proof.
  revert vs. induction xs as [|e xs IH]; intros vs; cbn [fold_left opt_bind]; [congruence|].
  assert (Hnone : forall (f : entry Z -> list Z -> option (list Z)) l, fold_left (fun o e => opt_bind o (f e)) l None = None)
    by (intros f l; induction l; auto).
  unfold HT.copyEntry at 2, writeEntry at 2. cbv zeta. destruct (0 <=? _) eqn:E; [|apply IH].
  unfold store. rewrite E. cbn [andb]. apply Z.leb_le in E.
  rewrite length_getBytes by assumption. replace (Z.of_nat (w * List.length vs)) with (len vs * Z.of_nat w) by lia. rewrite Z.div_mul by lia.
  destruct (Z.ltb_spec (i32 (e_memoIdx e - i32 start)) (len vs)) as [Hlt|]; [|now rewrite Hnone].
  intros HE. apply IH in HE. replace (Z.to_nat (i32 (e_memoIdx e - i32 start) * Z.of_nat w)) with (Z.to_nat (i32 (e_memoIdx e - i32 start)) * w)%nat by nia.
  rewrite splice_getBytes by lia. exact HE.
Qed.

(** A table without null writes its values in order. *)
Lemma WriteOut_ok t ds out :
  memoRel t (map Some ds) -> bytes out -> List.length out = (w * List.length ds)%nat ->
  WriteOutSubset w (t_tbl t) 0 out = Some (getBytes w ds).
Proof.
  intros HR Hb HL. destruct (getBytes_surj (List.length ds) out Hb HL) as (vs0 & HLv & <-).
  destruct HR as [HO HP Hnd Hnull Hlen]. rewrite length_map in Hlen. unfold MaxInt32 in Hlen. unfold WriteOutSubset, HT.VisitEntries. rewrite visit_live.
  destruct (copy_fold 0 (live (ht_entries (t_tbl t))) vs0 0) as (out' & HE & HL' & Hval & _);
    [|lia|eapply Permutation_NoDup; [apply Permutation_map; symmetry; exact HP|apply entriesOf_nodup]|].
  { intros e He. eapply Permutation_in in He; [|exact HP]. apply entriesOf_in in He as (j & v & Hj & ->). cbn [e_memoIdx].
    assert ((j < List.length (map (@Some Z) ds))%nat) by (apply nth_error_Some; congruence). rewrite length_map in *. lia. }
  apply writeEntry_getBytes in HE. rewrite HE. do 2 f_equal. apply (nth_ext_eq _ _ 0); [lia|]. intros i Hi.
  specialize (Hval (mkEntry (HT.fixHash (hash (nth i ds 0))) (nth i ds 0) (0 + Z.of_nat i))). cbn [e_memoIdx e_val] in Hval.
  replace (Z.to_nat (0 + Z.of_nat i - 0)) with i in Hval by lia. apply Hval; [|lia].
  eapply Permutation_in; [symmetry; exact HP|]. apply entriesOf_in. exists i, (nth i ds 0). split; [|reflexivity].
  rewrite nth_error_map, (nth_error_nth' ds 0) by lia. reflexivity.
Qed.
End WriteOut.

(** ** The encoder's state *)

Section Encoder.
Variable w : nat.
Hypothesis Hw : (1 <= w)%nat.
Implicit Types d : dictEncoder.

(** The distinct values so far are [dict], the ones not yet in a page [vals]. *)
Record encInv d (dict vals : list Z) : Prop := mkEncInv {
  ei_memo : memoRel (en_memo d) (map Some dict);
  ei_in : forallb (inDict dict) (en_idxValues d) = true;
  ei_vals : lookups 0 dict (en_idxValues d) = vals;
  ei_size : en_dictEncodedSize d = Z.of_nat w * len dict
}.

Lemma recordReference_ok d idx :
  exists d', DictE.recordDictionaryReference d idx = Some d' /\ en_memo d' = en_memo d /\ en_idxValues d' = en_idxValues d /\
    en_dictEncodedSize d' = en_dictEncodedSize d.
Proof.
  unfold DictE.recordDictionaryReference. destruct (negb _ || _) eqn:E; [eauto|]. apply orb_false_iff in E as [_ E]. apply Z.ltb_ge in E.
  assert (Hb : 0 <= idx >> 3) by (rewrite shiftr_div by lia; apply Z.div_pos; lia). set (bitmap := if _ <=? _ then _ else _).
  assert (HL : idx >> 3 < len bitmap) by (subst bitmap; destruct (Z.leb_spec (len (en_referencedBitmap d)) (idx >> 3)); [rewrite length_app, repeat_length|]; lia).
  rewrite (index_ok _ _ 0) by lia. cbn [opt_bind]. destruct (_ =? 0); [|eauto]. rewrite store_ok by lia. cbn [opt_bind]. eauto.
Qed.

(** A longer dictionary. *)
Lemma inDict_app (dict more : list Z) ixs : forallb (inDict dict) ixs = true -> forallb (inDict (dict ++ more)) ixs = true.
Proof.
  rewrite !forallb_forall. intros HF i Hi. specialize (HF i Hi). apply inDict_range in HF. apply inDict_range. rewrite length_app. lia.
Qed.

Lemma lookups_extend (dict more : list Z) ixs : forallb (inDict dict) ixs = true -> lookups 0 (dict ++ more) ixs = lookups 0 dict ixs.
Proof.
  rewrite forallb_forall. intros HF. apply map_ext_in. intros i Hi. specialize (HF i Hi). apply inDict_range in HF. apply app_nth1. lia.
Qed.

Lemma position_map_some v dict i : position (Some v) (map Some dict) = Some i -> 0 <= i < len dict /\ nth (Z.to_nat i) dict 0 = v.
Proof.
  intros Hp. apply position_some in Hp as [Hr Hn]. rewrite length_map in Hr. split; [exact Hr|]. rewrite nth_error_map in Hn.
  rewrite (nth_error_nth' dict 0) in Hn by lia. cbn in Hn. congruence.
Qed.

(** Each value takes its index, a new one at the end of the dictionary. *)
Lemma putIndex_ok d dict vals v :
  encInv d dict vals -> len dict < MaxInt32 ->
  exists d' more, DictE.putOne w d v = Some d' /\ encInv d' (dict ++ more) (vals ++ [v]) /\ (more = [] \/ more = [v]).
Proof.
  intros [HM Hin Hvals Hsz] Hmax. unfold MaxInt32 in Hmax. unfold DictE.putOne. pose proof (InsertOrGet_ok (en_memo d) (map Some dict) v HM) as Hi. rewrite length_map in Hi.
  specialize (Hi Hmax). unfold specInsert in Hi.
  assert (Hone : forall dict' i, 0 <= i < len dict' -> nth (Z.to_nat i) dict' 0 = v -> (exists more, dict' = dict ++ more) ->
      forallb (inDict dict') (en_idxValues d ++ [i]) = true /\ lookups 0 dict' (en_idxValues d ++ [i]) = vals ++ [v]).
  { intros dict' i Hr Hn [more ->]. rewrite forallb_app, lookups_app, inDict_app, lookups_extend, Hvals by assumption. cbn [forallb lookups map andb].
    rewrite Hn, (proj2 (inDict_range _ i) Hr). auto. }
  destruct (position (Some v) (map Some dict)) as [i|] eqn:E; destruct Hi as (memo & -> & HM'); cbn [opt_bind].
  - apply position_map_some in E as [Hr Hn]. assert (Hi32 : i32 i = i) by (unfold i32; rewrite Z.mod_small; lia). rewrite Hi32.
    destruct (recordReference_ok (mkDictE memo (en_idxValues d ++ [i]) (en_dictEncodedSize d) (en_rawDataSize d) (en_trackReferences d) (en_referencedBitmap d) (en_referencedIndices d)) i)
      as (d' & -> & Hm & Hx & Hs). exists d', []. rewrite app_nil_r. split; [reflexivity|]. split; [|now left].
    destruct (Hone dict i Hr Hn ltac:(exists []; now rewrite app_nil_r)) as [H1 H2]. constructor; rewrite ?Hm, ?Hx, ?Hs; assumption.
  - rewrite length_map in *. assert (Hi32 : i32 (len dict) = len dict) by (unfold i32; rewrite Z.mod_small; lia). rewrite Hi32.
    destruct (recordReference_ok (mkDictE memo (en_idxValues d ++ [len dict]) (en_dictEncodedSize d + Z.of_nat w) (en_rawDataSize d) (en_trackReferences d) (en_referencedBitmap d) (en_referencedIndices d)) (len dict))
      as (d' & -> & Hm & Hx & Hs). exists d', [v]. split; [reflexivity|]. split; [|now right].
    destruct (Hone (dict ++ [v]) (len dict)) as [H1 H2]; [rewrite length_app; cbn; lia|rewrite Nat2Z.id, app_nth2, Nat.sub_diag by lia; reflexivity|eauto|].
    constructor; rewrite ?Hm, ?Hx, ?Hs; auto; [now rewrite map_app|]. cbn [en_dictEncodedSize]. rewrite Hsz, length_app. cbn [List.length]. lia.
Qed.

(** [dict'] is [dict] with values of [vals] after it. *)
Definition grows (dict dict' vals : list Z) : Prop := exists more, dict' = dict ++ more /\ incl more vals /\ len more <= len vals.

Lemma grows_refl dict vals : grows dict dict vals.
Proof. exists []. rewrite app_nil_r. splits; auto; [intros x []|cbn; lia]. Qed.

Lemma grows_trans a b c v1 v2 : grows a b v1 -> grows b c v2 -> grows a c (v1 ++ v2).
Proof.
  intros (m1 & -> & Hi1 & HL1) (m2 & -> & Hi2 & HL2). exists (m1 ++ m2). rewrite app_assoc, !length_app. splits; auto; [|lia].
  apply incl_app; [now apply incl_appl|now apply incl_appr].
Qed.

Lemma putAll_ok xs d dict vals :
  encInv d dict vals -> len dict + len xs <= MaxInt32 ->
  exists d' dict', DictE.putAll w d xs = Some d' /\ encInv d' dict' (vals ++ xs) /\ grows dict dict' xs.
Proof.
  revert d dict vals. induction xs as [|x xs IH]; intros d dict vals HI Hmax; cbn [DictE.putAll List.length] in *.
  { exists d, dict. rewrite app_nil_r. splits; auto using grows_refl. }
  destruct (putIndex_ok d dict vals x HI ltac:(lia)) as (d1 & more & -> & HI1 & Hm). cbn [opt_bind].
  destruct (IH d1 (dict ++ more) (vals ++ [x]) HI1) as (d' & dict' & -> & HI' & HG); [destruct Hm as [-> | ->]; rewrite ?app_nil_r, ?length_app; cbn [List.length]; lia|].
  exists d', dict'. rewrite <- app_assoc in HI'. splits; auto. apply (grows_trans dict (dict ++ more) dict' [x] xs); [|exact HG].
  exists more. splits; auto; destruct Hm as [-> | ->]; [intros y []|apply incl_refl|cbn; lia..].
Qed.

(** The batches of a page. *)
Fixpoint putBatches d (batches : list (list Z)) : option dictEncoder :=
  match batches with
  | [] => Some d
  | b :: batches' => d' <- DictE.Put w d b ;; putBatches d' batches'
  end.

Lemma putBatches_ok batches d dict vals :
  encInv d dict vals -> len dict + len (List.concat batches) <= MaxInt32 ->
  exists d' dict', putBatches d batches = Some d' /\ encInv d' dict' (vals ++ List.concat batches) /\ grows dict dict' (List.concat batches).
Proof.
  revert d dict vals. induction batches as [|b batches IH]; intros d dict vals HI Hmax; cbn [putBatches List.concat] in *.
  { exists d, dict. rewrite app_nil_r. splits; auto using grows_refl. }
  rewrite length_app, Nat2Z.inj_add in Hmax. unfold DictE.Put.
  assert (Hb : exists d1 dict1, (if len b =? 0 then Some d else d' <- DictE.putAll w d b ;; Some (DictE.AddRawSize d' (len b * Z.of_nat w))) = Some d1 /\
      encInv d1 dict1 (vals ++ b) /\ grows dict dict1 b).
  { destruct (Z.eqb_spec (len b) 0) as [H0|H0].
    - destruct b; [|cbn in H0; lia]. exists d, dict. rewrite app_nil_r. splits; auto using grows_refl.
    - destruct (putAll_ok b d dict vals HI ltac:(lia)) as (d1 & dict1 & -> & [] & HG1). cbn [opt_bind]. eexists _, dict1. splits; [reflexivity|now constructor|assumption]. }
  destruct Hb as (d1 & dict1 & -> & HI1 & HG1). cbn [opt_bind].
  destruct (IH d1 dict1 _ HI1) as (d' & dict' & -> & HI' & HG'); [destruct HG1 as (more & -> & _ & HL); rewrite length_app; lia|].
  exists d', dict'. rewrite <- app_assoc in HI'. splits; auto. eapply grows_trans; eauto.
Qed.

(** ** A page *)

(** [page] holds indices into [dict] that stand for [vals]. *)
Definition pageOk (dict vals page : list Z) : Prop :=
  vals = [] /\ page = [0] \/
  exists bw runs ixs k, 1 <= bw <= 31 /\ page = bw :: encodes bw runs /\ runsOk bw runs /\ dataFits (encodes bw runs) /\
    expand runs = ixs ++ repeat 0 k /\ forallb (inDict dict) ixs = true /\ lookups 0 dict ixs = vals.

Lemma pageOk_app dict more vals page : pageOk dict vals page -> pageOk (dict ++ more) vals page.
Proof.
  intros [|(bw & runs & ixs & k & Hbw & Hp & Hok & Hf & He & Hin & Hl)]; [now left|right].
  exists bw, runs, ixs, k. do 5 (split; [assumption|]). split; [now apply inDict_app|now rewrite lookups_extend].
Qed.

Lemma NumEntries_ok d dict vals : encInv d dict vals -> DictE.NumEntries d = len dict.
Proof. intros [HM _ _ _]. unfold DictE.NumEntries. now rewrite (Size_ok _ _ HM), length_map. Qed.

Lemma BitWidth_ok d dict vals :
  encInv d dict vals -> dict <> [] -> len dict <= MaxInt32 -> 1 <= DictE.BitWidth d <= 31 /\ len dict <= 2 ^ DictE.BitWidth d.
Proof.
  intros HI Hne Hmax. unfold DictE.BitWidth, MaxInt32 in *. rewrite (NumEntries_ok d dict vals HI).
  assert (0 < len dict) by (destruct dict; [congruence|cbn; lia]). rewrite (proj2 (Z.eqb_neq _ 0)) by lia.
  destruct (Z.eqb_spec (len dict) 1) as [->|H1]; [cbn; lia|]. assert (Hu : u32 (len dict - 1) = len dict - 1) by (unfold u32; apply Z.mod_small; lia). rewrite Hu.
  destruct (Bits.Len64_fits (len dict - 1) ltac:(lia)) as [H0 Hf]. red in Hf. pose proof (Bits.Len64_le (len dict - 1) 31 ltac:(lia) ltac:(lia)).
  split; [|lia]. split; [|assumption]. destruct (Z.eq_dec (Bits.Len64 (len dict - 1)) 0) as [He|]; [|lia]. rewrite He in Hf. cbn in Hf. lia.
Qed.

Lemma WriteIndices_ok d dict vals out :
  encInv d dict vals -> dict <> [] -> len dict <= MaxInt32 -> len vals <= MaxInt32 -> bytes out -> DictE.EstimatedDataEncodedSize d <= len out ->
  exists d' out' page, DictE.WriteIndices d out = Some (d', out', len page, None) /\ firstn (List.length page) out' = page /\
    encInv d' dict [] /\ pageOk dict vals page.
Proof.
  intros HI Hne Hdm Hvm Hb HL. destruct (BitWidth_ok d dict vals HI Hne Hdm) as [Hbw Hfit]. pose proof HI as [HM Hin Hvals Hsz].
  unfold DictE.EstimatedDataEncodedSize in HL. set (bw := DictE.BitWidth d) in *. set (ixs := en_idxValues d) in *.
  assert (HLi : len ixs = len vals) by (rewrite <- Hvals; unfold lookups; now rewrite length_map).
  assert (Hmin : 0 <= MinRLEBufferSize bw).
  { unfold MinRLEBufferSize. rewrite !BytesForBits_div by (unfold MaxValuesPerLiteralRun; lia). unfold MaxValuesPerLiteralRun. zdiv. }
  rewrite MaxRLEBufferSize_sizeFor in HL by lia. unfold DictE.WriteIndices. fold bw ixs.
  assert (Hs0 : 0 <= sizeFor bw (len ixs)) by (unfold sizeFor; apply Z.mul_nonneg_nonneg; [lia|zdiv]).
  destruct out as [|x out]; [cbn [List.length] in HL; lia|]. cbn [List.length] in HL.
  rewrite store_ok by (cbn; lia). cbn [opt_bind Z.to_nat upd skipn firstn]. assert (Hu : u8 bw = bw) by (unfold u8; apply Z.mod_small; lia). rewrite Hu.
  assert (HF : Forall (fits bw) ixs) by (apply Forall_forall; intros i Hi; rewrite forallb_forall in Hin; specialize (Hin i Hi); apply inDict_range in Hin; red; lia).
  inversion Hb as [|? ? _ Hbo]; subst. set (R := sizeFor bw (len ixs)) in *.
  pose proof (NewRleEncoder_rel R bw (WriterAtBuffer.new out) ltac:(lia) Hbo ltac:(cbn; lia)) as HE.
  destruct (PutBatchIndices_puts R bw _ [] ixs HE HF) as (e1 & HP & Hputs); [cbn; lia|cbn [List.length Z.of_nat]; rewrite Z.add_0_l; reflexivity|].
  destruct (puts_ok R bw _ [] ixs HE HF) as (e1' & Hputs' & HE1); [cbn; lia|cbn [List.length Z.of_nat]; rewrite Z.add_0_l; reflexivity|].
  assert (e1' = e1) by congruence. subst e1'. rewrite HP. cbn [opt_bind]. cbn [app] in HE1.
  destruct (Flush_rel R bw e1 ixs HE1 ltac:(lia) (Z.le_refl _)) as (e2 & runs & k & -> & Hro & _ & Hexp & Hlen & Hbuf).
  eexists _, _, (bw :: encodes bw runs). split; [cbn [List.length]; rewrite Nat2Z.inj_succ; reflexivity|].
  split; [cbn [List.length app firstn]; now rewrite Hbuf|]. split; [now constructor|]. right. exists bw, runs, ixs, k. splits; auto; try lia.
  (eapply (size_dataFits bw (len ixs)); eauto; lia).
Qed.

(** Before the first value the page is the width 0. *)
Lemma WriteIndices_empty d vals out :
  encInv d [] vals -> bytes out -> DictE.EstimatedDataEncodedSize d <= len out ->
  vals = [] /\ exists d' out', DictE.WriteIndices d out = Some (d', out', 1, None) /\ firstn 1 out' = [0] /\ encInv d' [] [].
Proof.
  intros HI Hb HL. assert (HW : DictE.BitWidth d = 0) by (unfold DictE.BitWidth; now rewrite (NumEntries_ok _ _ _ HI)).
  pose proof HI as [HM Hin Hvals Hsz]. assert (Hix : en_idxValues d = []).
  { destruct (en_idxValues d) as [|i l]; [reflexivity|]. cbn [forallb] in Hin. apply andb_true_iff in Hin as [Hi _]. apply inDict_range in Hi. cbn in Hi. lia. }
  unfold DictE.EstimatedDataEncodedSize in HL. rewrite HW, Hix in HL. rewrite Hix in Hvals. split; [now rewrite <- Hvals|].
  unfold DictE.WriteIndices. rewrite HW, Hix. destruct out as [|x out]; [vm_compute in HL; congruence|].
  rewrite store_ok by (cbn; lia). cbn [opt_bind Z.to_nat upd skipn firstn]. eexists _, _. split; [reflexivity|]. split; [reflexivity|].
  constructor; auto.
Qed.

Lemma WriteIndices_page d dict vals out :
  encInv d dict vals -> len dict <= MaxInt32 -> len vals <= MaxInt32 -> bytes out -> DictE.EstimatedDataEncodedSize d <= len out ->
  exists d' out' page, DictE.WriteIndices d out = Some (d', out', len page, None) /\ firstn (List.length page) out' = page /\
    encInv d' dict [] /\ pageOk dict vals page.
Proof.
  intros HI Hdm Hvm Hb HL. destruct dict as [|x dict]; [|now apply WriteIndices_ok].
  destruct (WriteIndices_empty d vals out HI Hb HL) as (-> & d' & out' & HE & Ho & HI'). exists d', out', [0]. splits; auto. now left.
Qed.

Lemma EstimatedSize_nonneg d dict vals : encInv d dict vals -> len dict <= MaxInt32 -> len vals <= MaxInt32 -> 0 <= DictE.EstimatedDataEncodedSize d.
Proof.
  intros HI Hdm Hvm. unfold DictE.EstimatedDataEncodedSize. pose proof HI as [HM Hin Hvals Hsz].
  assert (HLi : len (en_idxValues d) = len vals) by (rewrite <- Hvals; unfold lookups; now rewrite length_map).
  assert (HW : 0 <= DictE.BitWidth d <= 31).
  { destruct dict as [|x dict']; [unfold DictE.BitWidth; rewrite (NumEntries_ok _ _ _ HI); cbn; lia|]. pose proof (BitWidth_ok d _ _ HI ltac:(discriminate) Hdm). lia. }
  unfold MaxInt32 in *. unfold MaxRLEBufferSize, MinRLEBufferSize, MaxValuesPerLiteralRun, Binary.MaxVarintLen32. rewrite !BytesForBits_div by lia.
  assert (0 <= (DictE.BitWidth d + 7) / 8) by zdiv. assert (0 <= (len (en_idxValues d) + 7) / 8) by zdiv. nia.
Qed.

Lemma FlushValues_ok d dict vals fresh :
  encInv d dict vals -> len dict <= MaxInt32 -> len vals <= MaxInt32 -> freshOk fresh ->
  exists d' buf, DictE.FlushValues d fresh = Some (d', inl buf) /\ encInv d' dict [] /\ pageOk dict vals (Buffer.Bytes buf).
Proof.
  intros HI Hdm Hvm [Hb Hs]. unfold DictE.FlushValues. cbv zeta.
  destruct (Buffer_Reserve_ok fresh _ (EstimatedSize_nonneg d dict vals HI Hdm Hvm)) as ((t & He & Ht) & HC & _).
  destruct (Ht Hb Hs) as [Hbt _]. unfold Buffer.Buf. set (B := Buffer.Reserve fresh _) in *.
  assert (HbB : bytes (Buffer.buf B)) by (rewrite He; now apply bytes_app).
  destruct (WriteIndices_page d dict vals _ HI Hdm Hvm HbB HC) as (d' & out' & page & -> & Ho & HI' & HP). cbn [opt_bind].
  eexists _, _. split; [reflexivity|]. split; [exact HI'|]. set (B' := Buffer.mk out' _ _).
  destruct (ResizeNoShrink_extends B' (len page)) as (t' & He' & _). unfold Buffer.Bytes. cbn [Buffer.ResizeNoShrink Buffer.resize] in *.
  replace (Buffer.length (Buffer.ResizeNoShrink B' (len page))) with (len page) by reflexivity. rewrite He', Nat2Z.id. subst B'. cbn [Buffer.buf].
  rewrite firstn_app, Ho. replace (List.length page - List.length out')%nat with O; [now rewrite firstn_O, app_nil_r|].
  apply (f_equal (@List.length Z)) in Ho. rewrite length_firstn in Ho. lia.
Qed.

(** ** Pages *)

(** The batches of each page and a buffer for it: the encoder and the pages. *)
Fixpoint encodePages d (pages : list (list (list Z) * Buffer.t)) : option (dictEncoder * list (list Z)) :=
  match pages with
  | [] => Some (d, [])
  | (batches, fresh) :: pages' =>
      d1 <- putBatches d batches ;;
      r <- DictE.FlushValues d1 fresh ;;
      match r with
      | (d2, inl buf) => r2 <- encodePages d2 pages' ;; let '(d3, bufs) := r2 in Some (d3, Buffer.Bytes buf :: bufs)
      | (_, inr _) => None
      end
  end.

Definition pageVals (p : list (list Z) * Buffer.t) : list Z := List.concat (fst p).

Lemma encodePages_ok pages d dict :
  encInv d dict [] -> len dict + len (List.concat (map pageVals pages)) <= MaxInt32 -> Forall (fun p => freshOk (snd p)) pages ->
  exists d' dict' bufs, encodePages d pages = Some (d', bufs) /\ encInv d' dict' [] /\
    grows dict dict' (List.concat (map pageVals pages)) /\ Forall2 (fun p buf => pageOk dict' (pageVals p) buf) pages bufs.
Proof.
  revert d dict. induction pages as [|[batches fresh] pages IH]; intros d dict HI Hmax HF; cbn [encodePages map List.concat] in *.
  { exists d, dict, []. splits; auto using grows_refl. }
  unfold pageVals at 1 in Hmax. cbn [fst] in Hmax. rewrite length_app, Nat2Z.inj_add in Hmax. inversion HF as [|? ? Hfr HF']; subst. cbn [snd] in Hfr.
  destruct (putBatches_ok batches d dict [] HI ltac:(lia)) as (d1 & dict1 & -> & HI1 & HG1). cbn [opt_bind app] in *.
  assert (HL1 : len dict1 <= len dict + len (List.concat batches)) by (destruct HG1 as (m & -> & _ & ?); rewrite length_app; lia).
  destruct (FlushValues_ok d1 dict1 _ fresh HI1 ltac:(lia) ltac:(lia) Hfr) as (d2 & buf & -> & HI2 & HP). cbn [opt_bind].
  destruct (IH d2 dict1 HI2 ltac:(lia) HF') as (d' & dict' & bufs & -> & HI' & HG' & HP'). cbn [opt_bind].
  exists d', dict', (Buffer.Bytes buf :: bufs). split; [reflexivity|]. split; [exact HI'|]. split; [eapply grows_trans; eassumption|].
  constructor; [|exact HP']. destruct HG' as (m & -> & _). now apply pageOk_app.
Qed.

End Encoder.

(** ** Reading the pages back *)

(** Pages with their number of values and the slices to read them into, by one decoder. *)
Fixpoint decodePages {D T} `{DictionaryConverter D T} (d : dictDecoder D) (pages : list (Z * list Z * list (list T))) : option (dictDecoder D * list (list T)) :=
  match pages with
  | [] => Some (d, [])
  | (nvals, page, outs) :: pages' =>
      match DictD.SetData d nvals page with
      | (d1, None) =>
          r <- dictReads d1 outs ;;
          match r with
          | (d2, vs, None) => r2 <- decodePages d2 pages' ;; let '(d3, vss) := r2 in Some (d3, vs :: vss)
          | (_, _, Some _) => None
          end
      | (_, Some _) => None
      end
  end.

Section DecodePages.
Context {D : Type} `{!DictionaryConverter D Z} (dict : list Z) `{!ConverterOk D Z 0 dict}.
Implicit Types d : dictDecoder D.

(** The reader a page is set on. *)
Definition idxRaw d : Prop := forall r, dd_idxDecoder d = Some r -> rawOk (rd_r r).

(** Reading nothing changes nothing. *)
Lemma dictReads_nothing d (outs : list (list Z)) :
  dd_nvals d = 0 -> dd_idxDecoder d <> None -> List.concat outs = [] -> dictReads d outs = Some (d, [], None).
Proof.
  intros Hn Hr. induction outs as [|out outs IH]; cbn [dictReads List.concat]; intros HC; [reflexivity|]. apply app_eq_nil in HC as [-> HC].
  unfold DictD.Decode, DictD.decode. rewrite Hn. destruct d as [n dc [r|]]; cbn [dd_nvals dd_idxDecoder dd_dictValueDecoder] in *; [|congruence]. subst n.
  cbn -[dictReads DictD.Decode]. rewrite (IH HC). reflexivity.
Qed.

(** A page of an encoder reads back. *)
Lemma readPage_ok d vals page (outs : list (list Z)) :
  idxRaw d -> dcRel (dd_dictValueDecoder d) -> len dict <= MaxInt32 -> pageOk dict vals page -> List.length (List.concat outs) = List.length vals ->
  exists d1 d2, DictD.SetData d (len vals) page = (d1, None) /\ dictReads d1 outs = Some (d2, vals, None) /\
    idxRaw d2 /\ dcRel (dd_dictValueDecoder d2).
Proof.
  intros Hraw HC Hdl [[-> ->]|(bw & runs & ixs & k & Hbw & -> & Hok & Hf & He & Hin & Hl)] HL; unfold DictD.SetData.
  { cbn [Z.leb Z.compare]. eexists _, _. split; [reflexivity|]. split; [apply dictReads_nothing; [reflexivity|discriminate|]|].
    - now destruct (List.concat outs).
    - split; [|exact HC]. unfold idxRaw. cbn [DictD.resetIndexDecoder dd_idxDecoder]. intros r Hr. injection Hr as <-.
      unfold idxRaw in Hraw. destruct (dd_idxDecoder d) as [r0|]; [exact (Hraw r0 eq_refl)|]. split; [apply (bytes_repeat0 8)|reflexivity]. }
  bool_lia (64 <=? bw). eexists _. assert (HLi : List.length ixs = List.length vals) by (rewrite <- Hl; unfold lookups; now rewrite length_map).
  destruct (resetRle_rel (dd_idxDecoder d) bw runs Hraw ltac:(lia) Hok Hf) as [HD HWd]. rewrite He in HD.
  set (d1 := DictD.resetIndexDecoder _ _ _). assert (HR : columnRel 0 dict d1 ixs).
  { split; [cbn [d1 DictD.resetIndexDecoder dd_nvals]; lia|]. splits; auto. eexists _, (repeat 0 k). split; [reflexivity|].
    unfold LD.resetRle in HD, HWd. cbn [dd_idxDecoder]. split; [lia|exact HD]. }
  destruct (dictReads_ok 0 dict d1 ixs outs HR Hdl ltac:(lia)) as (d2 & HE & _ & _ & HC2 & r & pad & Hr & _ & rs & o & HDr).
  exists d2. split; [reflexivity|]. rewrite <- Hl at 2. split; [exact HE|]. split; [|exact HC2].
  intros r' Hr'. assert (r' = r) by congruence. subst r'. pose proof (dr_ok _ _ _ _ HDr) as HB. split; apply HB.
Qed.

Lemma decodePages_ok valss pages d (outss : list (list (list Z))) :
  idxRaw d -> dcRel (dd_dictValueDecoder d) -> len dict <= MaxInt32 -> Forall2 (pageOk dict) valss pages ->
  Forall2 (fun vals outs => List.length (List.concat outs) = List.length vals) valss outss ->
  exists d', decodePages d (combine (combine (map (fun v => len v) valss) pages) outss) = Some (d', valss).
Proof.
  intros Hraw HC Hdl HP. revert d outss Hraw HC. induction HP as [|vals page valss pages HP HPs IH]; intros d outss Hraw HC HO; inversion HO as [|? outs ? outss' HL HO']; subst;
    cbn [map combine decodePages]; [eauto|].
  destruct (readPage_ok d vals page outs Hraw HC Hdl HP HL) as (d1 & d2 & -> & -> & Hraw2 & HC2). cbn [opt_bind].
  destruct (IH d2 outss' Hraw2 HC2 HO') as (d' & ->). cbn [opt_bind]. eauto.
Qed.
End DecodePages.

(** ** Claims *)

Lemma newDictEncoder_inv w : encInv w DictE.newDictEncoder [] [].
Proof. constructor; cbn [DictE.newDictEncoder en_memo en_idxValues en_dictEncodedSize]; auto; [apply New_memo; lia|cbn; lia]. Qed.

Lemma grows_Forall (P : Z -> Prop) dict vals : grows [] dict vals -> Forall P vals -> Forall P dict.
Proof. intros (more & -> & Hi & _) HF. apply Forall_forall. intros x Hx. rewrite Forall_forall in HF. apply HF, Hi, Hx. Qed.

(** C5: a dictionary-encoded column reads back.  The encoder takes the batches of each page with
    [Put] and ends it with [FlushValues]; its dictionary, written by [WriteDict] into
    [DictEncodedSize] bytes, is read by a plain decoder behind a converter that decodes entries
    on demand; one decoder is set on the pages in turn and reads each into slices of any sizes.
    It returns the values of every page, although the dictionary grew while they were written. *)
Theorem dict_roundtrip (w : nat) (pages : list (list (list Z) * Buffer.t)) (outss : list (list (list Z))) (dc0 : dictConverter PlainDecoder Z) :
  (w = 4 \/ w = 8)%nat -> Forall (inS (8 * Z.of_nat w)) (List.concat (map pageVals pages)) ->
  Z.of_nat w * len (List.concat (map pageVals pages)) <= MaxInt32 -> Forall (fun p => freshOk (snd p)) pages ->
  Forall2 (fun vals outs => List.length (List.concat outs) = List.length vals) (map pageVals pages) outss ->
  exists d bufs, encodePages w DictE.newDictEncoder pages = Some (d, bufs) /\
    forall out, bytes out -> len out = DictE.DictEncodedSize d ->
    exists dictPage, DictE.WriteDict w d out = Some dictPage /\
      let values := PD.SetData (mkPD 0 []) (DictE.NumEntries d) dictPage in
      let dec := @DictD.SetDict _ _ (PD.PlainDecoder_values w) 0 (mkDD 0 dc0 None) values in
      exists dec', @decodePages _ _ (@DC.dictConverter_ops _ _ (PD.PlainDecoder_values w)) dec (combine (combine (map (fun v => len v) (map pageVals pages)) bufs) outss) =
        Some (dec', map pageVals pages).
Proof.
  intros Hw HS Hmax HF HO. assert (Hw1 : (1 <= w)%nat) by lia.
  destruct (encodePages_ok w Hw1 pages _ [] (newDictEncoder_inv w) ltac:(cbn [List.length]; nia) HF) as (d & dict & bufs & HE & HI & HG & HP).
  exists d, bufs. split; [exact HE|]. intros out Hb HL. pose proof HI as [HM _ _ Hsz]. unfold DictE.DictEncodedSize in HL.
  assert (HLd : len dict <= len (List.concat (map pageVals pages))) by (destruct HG as (m & -> & _ & ?); cbn [app]; lia).
  exists (getBytes w dict). split; [apply WriteOut_ok; [assumption|exact HM|assumption|lia]|]. intros values dec.

  apply (@decodePages_ok _ _ dict (@dictConverter_ok _ _ (PD.PlainDecoder_values w) (plain_ok w Hw1) 0 dict)); auto.
  - intros r Hr. discriminate.
  - apply (@NewDictConverter_rel _ _ (PD.PlainDecoder_values w) (plain_ok w Hw1) 0 dict). unfold values, PD.SetData. rewrite (NumEntries_ok w d dict [] HI).
    split; [reflexivity|]. split; [eapply grows_Forall; eassumption|]. split; [nia|]. exists []. symmetry. apply app_nil_r.
  - nia.
  - clear - HP. induction HP; constructor; auto.
Qed.

Definition dictPages : list (list (list Z) * Buffer.t) :=
  [([[7; -3; 7]; []; [7; 7; 7; 7; 7; 7; 7; 7]], Buffer.NewResizableBuffer); ([], Buffer.NewResizableBuffer); ([[5; -3; 9]; [1000; 7]], Buffer.NewResizableBuffer)].

Lemma dict_roundtrip_witness : exists d bufs, encodePages 4 DictE.newDictEncoder dictPages = Some (d, bufs) /\ DictE.DictEncodedSize d = 20 /\ bufs <> [].
Proof.
  destruct (dict_roundtrip 4 dictPages [[repeat 0 11]; []; [repeat 0 2; repeat 0 3]] (mkDC (mkPD 0 []) 0 [] 0)) as (d & bufs & HE & _).
  - now left.
  - repeat constructor; vm_compute; congruence.
  - vm_compute. congruence.
  - repeat constructor.
  - repeat constructor.
  - exists d, bufs. split; [exact HE|]. revert HE. vm_compute. intros HE. injection HE as <- <-. split; [reflexivity|discriminate].
Defined.

(** C13: reading a dictionary-encoded page returns whatever its bytes and those of the dictionary
    are: [SetData] succeeds or reports a bit width it refuses, and after it any sequence of reads
    ends, without a panic and with at most the announced number of values; an index outside the
    dictionary and a dictionary with too few bytes are errors. *)
Theorem dict_decode_safe (w : nat) (nvals entries : Z) (page dictBytes : list Z) (outs : list (list Z)) (dc0 : dictConverter PlainDecoder Z) :
  (w = 4 \/ w = 8)%nat -> 0 <= nvals -> 0 <= entries ->
  let dec := @DictD.SetDict _ _ (PD.PlainDecoder_values w) 0 (mkDD 0 dc0 None) (PD.SetData (mkPD 0 []) entries dictBytes) in
  (exists d e, DictD.SetData dec nvals page = (d, Some e) /\ exists width rest, page = width :: rest /\ 64 <= width) \/
  exists d d' vs err, DictD.SetData dec nvals page = (d, None) /\
    @dictReads _ _ (@DC.dictConverter_ops _ _ (PD.PlainDecoder_values w)) d outs = Some (d', vs, err) /\ len vs <= nvals.
Proof.
  intros Hw Hn He dec. pose (safe := @dictConverter_safe _ _ (PD.PlainDecoder_values w) (plain_safe w ltac:(lia))).
  assert (Hreads : forall d : dictDecoder (dictConverter PlainDecoder Z), dd_dictValueDecoder d = dd_dictValueDecoder dec -> dd_idxDecoder d <> None -> dd_nvals d = nvals ->
    exists d' vs err, @dictReads _ _ (@DC.dictConverter_ops _ _ (PD.PlainDecoder_values w)) d outs = Some (d', vs, err) /\ len vs <= nvals).
  { intros d Hd Hi Hnv. rewrite <- Hnv. apply (@dictReads_total _ _ _ safe); [rewrite Hd; exact He|assumption|lia]. }
  unfold DictD.SetData. destruct page as [|width rest].
  { right. destruct (Hreads (DictD.resetIndexDecoder (mkDD nvals (dd_dictValueDecoder dec) (dd_idxDecoder dec)) [] 0) eq_refl ltac:(discriminate) eq_refl) as (d' & vs & err & HE & HL). eauto 8. }
  destruct (Z.leb_spec 64 width) as [Hge|Hlt]; [left; eauto 8|]. right.
  destruct (Hreads (DictD.resetIndexDecoder (mkDD nvals (dd_dictValueDecoder dec) (dd_idxDecoder dec)) rest width) eq_refl ltac:(discriminate) eq_refl) as (d' & vs & err & HE & HL). eauto 8.
Qed.

Lemma dict_decode_safe_witness :
  let dec := @DictD.SetDict _ _ (PD.PlainDecoder_values 4) 0 (mkDD 0 (mkDC (mkPD 0 []) 0 [] 0) None) (PD.SetData (mkPD 0 []) 3 [1; 0; 0; 0; 2; 0]) in
  exists d d' vs err, DictD.SetData dec 9 [2; 16; 2; 3; 228; 255] = (d, None) /\
    @dictReads _ _ (@DC.dictConverter_ops _ _ (PD.PlainDecoder_values 4)) d [repeat 0 5; repeat 0 4] = Some (d', vs, err) /\ len vs <= 9.
Proof.
  intros dec. destruct (dict_decode_safe 4 9 3 [2; 16; 2; 3; 228; 255] [1; 0; 0; 0; 2; 0] [repeat 0 5; repeat 0 4] (mkDC (mkPD 0 []) 0 [] 0)) as [(d & e & HE & wd & rest & Hp & Hw)|H]; [now left|lia|lia| |exact H].
  injection Hp as <- _. lia.
Defined.
