(* ===== verification/DeltaBitPack.v ===== *)
(** * Delta binary packing (parquet/internal/encoding/delta_bit_packing.go)

    [DE] is [deltaBitPackEncoder[T]], [DD] is [deltaBitPackDecoder[T]], both for [T] = int32
    and int64: [is32] says which, and [wrapT] is the conversion to [T].

    The encoder's bit writer points to the encoder's sink, so there is one sink object: it is
    the writer inside [de_bw] once that is set, and [de_sink] before.  The buffer the sink's
    pool hands out when a page is finished is an argument ([fresh]). *)

From Stdlib Require Import ZArith List Lia Bool String.
From S2P Require Import Prelude GoStd BitUtil BitPacking BitWriter BitReader Memory.
Import ListNotations.
#[local] Open Scope Z_scope.
#[local] Open Scope go_scope.

Definition wrapT (is32 : bool) (x : Z) : Z := if is32 then i32 x else i64 x.

Definition defaultBlockSize : Z := 128.
Definition defaultNumMiniBlocks : Z := 4.
Definition defaultNumValuesPerMini : Z := 32.
Definition maxHeaderWriterSize : Z := 32.

Record DeltaEncoder : Type := mkDE {
  de_is32 : bool;
  de_sink : PooledBufferWriter.t;
  de_bw : option (BitWriter PooledBufferWriter.t);
  de_totalVals : Z;
  de_firstVal : Z;
  de_currentVal : Z;
  de_blockSize : Z;
  de_miniBlockSize : Z;
  de_numMiniBlocks : Z;
  de_deltas : list Z
}.

Module DE.

(** A new encoder over [sink]. *)
Definition New (is32 : bool) (sink : PooledBufferWriter.t) : DeltaEncoder :=
  mkDE is32 sink None 0 0 0 0 0 0 [].

(** The sink, wherever it is referred to from. *)
Definition sinkOf (enc : DeltaEncoder) : PooledBufferWriter.t :=
  match de_bw enc with Some b => bw_wr b | None => de_sink enc end.

Section Flush.
Context {W : Type} `{WriterAt W}.

(** Writes values one by one; errors are not looked at. *)
Fixpoint writeAll (b : BitWriter W) (values : list Z) (width : Z) : BitWriter W :=
  match values with
  | [] => b
  | v :: values' => writeAll (fst (BW.WriteValue b v width)) values' width
  end.

(** [bits.Len64(uint64(maxDelta - minDelta))] over the deltas of a mini block *)
Definition miniWidth (minDelta : Z) (mini : list Z) : Z :=
  let maxDelta := fold_left Z.max mini MinInt64 in
  Bits.Len64 (u64 (i64 (maxDelta - minDelta))).

(** The loop of [flushBlock] over the mini blocks: [n] of them left, [i] the index of the
    next, [deltas] what is left to write. *)
Fixpoint flushMinis (b : BitWriter W) (n : nat) (i offset miniBlockSize minDelta : Z) (deltas : list Z) : BitWriter W :=
  match n with
  | O => b
  | S n' =>
      let k := Z.min miniBlockSize (len deltas) in
      if k =? 0 then b
      else
        let mini := firstn (Z.to_nat k) deltas in
        let width := miniWidth minDelta mini in
        let '(b1, _, _) := BW.WriteAtBW b [u8 width] (offset + i) in
        let b2 := writeAll b1 (map (fun val => u64 (i64 (val - minDelta))) mini) width in
        let b3 := writeAll b2 (repeat 0 (Z.to_nat (miniBlockSize - k))) width in
        flushMinis b3 n' (i + 1) offset miniBlockSize minDelta (skipn (Z.to_nat k) deltas)
  end.

(** [flushBlock] on the bit writer *)
Definition flushBlockBW (b : BitWriter W) (numMiniBlocks miniBlockSize : Z) (deltas : list Z) : BitWriter W :=
  if len deltas =? 0 then b
  else
    let minDelta := fold_left (fun m delta => if delta <? m then delta else m) deltas MaxInt64 in
    let b1 := fst (BW.WriteZigZagVlqInt b minDelta) in
    let '(b2, offset) := BW.SkipBytes b1 numMiniBlocks in
    flushMinis b2 (Z.to_nat numMiniBlocks) 0 offset miniBlockSize minDelta deltas.

End Flush.

Definition flushBlock (enc : DeltaEncoder) : DeltaEncoder :=
  match de_bw enc with
  | None => enc
  | Some b =>
      mkDE (de_is32 enc) (de_sink enc)
           (Some (flushBlockBW b (de_numMiniBlocks enc) (de_miniBlockSize enc) (de_deltas enc)))
           (de_totalVals enc) (de_firstVal enc) (de_currentVal enc) (de_blockSize enc) (de_miniBlockSize enc)
           (de_numMiniBlocks enc) []
  end.

(** One iteration of the loop of [Put]. *)
Definition putOne (enc : DeltaEncoder) (v : Z) : DeltaEncoder :=
  let delta := wrapT (de_is32 enc) (v - wrapT (de_is32 enc) (de_currentVal enc)) in
  let enc1 :=
    mkDE (de_is32 enc) (de_sink enc) (de_bw enc) (de_totalVals enc) (de_firstVal enc) v (de_blockSize enc)
         (de_miniBlockSize enc) (de_numMiniBlocks enc) (de_deltas enc ++ [delta]) in
  if len (de_deltas enc1) =? de_blockSize enc1 then flushBlock enc1 else enc1.

Definition Put (enc : DeltaEncoder) (vs : list Z) : DeltaEncoder :=
  match vs with
  | [] => enc
  | v :: rest =>
      let '(enc1, todo) :=
        if de_totalVals enc =? 0 then
          (mkDE (de_is32 enc) (de_sink enc) (Some (BW.NewBitWriter (sinkOf enc))) (de_totalVals enc) v v
                defaultBlockSize defaultNumValuesPerMini defaultNumMiniBlocks (de_deltas enc), rest)
        else (enc, vs) in
      let enc2 :=
        mkDE (de_is32 enc1) (de_sink enc1) (de_bw enc1) (u64 (de_totalVals enc1 + len vs)) (de_firstVal enc1)
             (de_currentVal enc1) (de_blockSize enc1) (de_miniBlockSize enc1) (de_numMiniBlocks enc1) (de_deltas enc1) in
      fold_left putOne todo enc2
  end.

(** The header, written into 32 bytes. *)
Definition header (enc : DeltaEncoder) : list Z :=
  let w0 := BW.NewBitWriter (WriterAtBuffer.new (repeat 0 (Z.to_nat maxHeaderWriterSize))) in
  let w1 := fst (BW.WriteVlqInt w0 (de_blockSize enc)) in
  let w2 := fst (BW.WriteVlqInt w1 (de_numMiniBlocks enc)) in
  let w3 := fst (BW.WriteVlqInt w2 (de_totalVals enc)) in
  let w4 := fst (BW.WriteZigZagVlqInt w3 (de_firstVal enc)) in
  let w5 := BW.Flush false w4 in
  firstn (Z.to_nat (BW.Written w5)) (WriterAtBuffer.buf (bw_wr w5)).

(** [FlushValues()]: the encoder and the finished bytes; [None] is a panic of the slice
    expression [flushed.Buf()[:enc.bitWriter.Written()]], which may reach to the capacity. *)
Definition FlushValues (fresh : Buffer.t) (enc : DeltaEncoder) : option (DeltaEncoder * list Z) :=
  match de_bw enc with
  | None =>
      let enc1 :=
        mkDE (de_is32 enc) (de_sink enc) None (de_totalVals enc) (de_firstVal enc) (de_currentVal enc)
             defaultBlockSize defaultNumValuesPerMini defaultNumMiniBlocks (de_deltas enc) in
      Some (mkDE (de_is32 enc1) (de_sink enc1) None 0 (de_firstVal enc1) (de_currentVal enc1) (de_blockSize enc1)
                 (de_miniBlockSize enc1) (de_numMiniBlocks enc1) (de_deltas enc1), header enc1)
  | Some _ =>
      let enc1 := flushBlock enc in
      match de_bw enc1 with
      | None => None
      | Some b =>
          let b1 := BW.Flush true b in
          let '(sink', flushed) := PooledBufferWriter.Finish fresh (bw_wr b1) in
          let b2 := mkBW sink' (bw_buffer b1) (bw_byteoffset b1) (bw_bitoffset b1) in
          body <- slice (Buffer.Buf flushed ++ Buffer.spare flushed) 0 (BW.Written b1) ;;
          Some (mkDE (de_is32 enc1) (de_sink enc1) (Some b2) 0 (de_firstVal enc1) (de_currentVal enc1)
                     (de_blockSize enc1) (de_miniBlockSize enc1) (de_numMiniBlocks enc1) (de_deltas enc1),
                header enc1 ++ body)
      end
  end.

Definition EstimatedDataEncodedSize (enc : DeltaEncoder) : Z :=
  match de_bw enc with None => 0 | Some b => BW.Written b end.

End DE.

(** ** The decoder *)

Record DeltaDecoder : Type := mkDD {
  dd_is32 : bool;
  dd_nvals : Z;
  dd_usedFirst : bool;
  dd_r : BitReader;
  dd_blockSize : Z;
  dd_currentBlockVals : Z;
  dd_miniBlocksPerBlock : Z;
  dd_valsPerMini : Z;
  dd_currentMiniBlockVals : Z;
  dd_minDelta : Z;
  dd_miniBlockIdx : Z;
  dd_widths : list Z;
  dd_totalValues : Z;
  dd_lastVal : Z;
  dd_miniBlockValues : list Z
}.

Module DD.

Definition eofErr : goerr := ErrMsg "parquet: eof exception".

(** [SetData(nvalues, data)]: the decoder for the page, or the error.  The buffers a
    decoder keeps from the page before are overwritten before they are read. *)
Definition SetData (is32 : bool) (nvalues : Z) (data : list Z) : DeltaDecoder + goerr :=
  let r0 := BR.NewBitReader (BytesReader.new data) in
  match BR.GetVlqInt r0 with
  | (_, None) => inr eofErr
  | (r1, Some blockSize) =>
      if blockSize =? 0 then inr (ErrMsg "parquet: cannot have zero values per block")
      else if (MaxUint32 <? blockSize) || negb (blockSize mod 128 =? 0)
      then inr (ErrMsg "parquet: values per block must be a multiple of 128")
      else match BR.GetVlqInt r1 with
      | (_, None) => inr eofErr
      | (r2, Some miniBlocksPerBlock) =>
          if miniBlocksPerBlock =? 0 then inr (ErrMsg "parquet: cannot have zero miniblock per block")
          else if MaxUint32 <? miniBlocksPerBlock then inr (ErrMsg "parquet: too many miniblocks per block")
          else if negb (blockSize mod miniBlocksPerBlock =? 0)
          then inr (ErrMsg "parquet: miniblocks per block must divide the block size")
          else
            let valuesPerMini := blockSize / miniBlocksPerBlock in
            if (valuesPerMini =? 0) || negb (valuesPerMini mod 32 =? 0)
            then inr (ErrMsg "parquet: values per miniblock must be a nonzero multiple of 32")
            else match BR.GetVlqInt r2 with
            | (_, None) => inr eofErr
            | (r3, Some totalValues) =>
                if (MaxUint32 <? totalValues) || (nvalues <? 0) || (nvalues <? totalValues)
                then inr (ErrMsg "parquet: invalid delta value count")
                else match BR.GetZigZagVlqInt r3 with
                | (_, None) => inr eofErr
                | (r4, Some lastVal) =>
                    if is32 && ((lastVal <? MinInt32) || (MaxInt32 <? lastVal))
                    then inr (ErrMsg "parquet: initial delta value exceeds INT32 range")
                    else inl (mkDD is32 totalValues false r4 blockSize 0 miniBlocksPerBlock (u32 valuesPerMini) 0
                                   0 0 [] totalValues lastVal [])
                end
            end
      end
  end.

(** The number of bytes read so far. *)
Definition bytesRead (d : DeltaDecoder) : Z := BR.CurOffset (dd_r d).

(** Reads the widths of the mini blocks of a block. *)
Fixpoint readWidths (r : BitReader) (n : nat) : BitReader * (list Z + goerr) :=
  match n with
  | O => (r, inl [])
  | S n' =>
      match Binary.ReadByte r with
      | (r1, inr e) => (r1, inr e)
      | (r1, inl x) =>
          match readWidths r1 n' with
          | (r2, inl xs) => (r2, inl (x :: xs))
          | (r2, inr e) => (r2, inr e)
          end
      end
  end.

(** The reader and the minimum delta after an attempt to start a block. *)
Definition setBlock (d : DeltaDecoder) (r : BitReader) (minDelta : Z) : DeltaDecoder :=
  mkDD (dd_is32 d) (dd_nvals d) (dd_usedFirst d) r (dd_blockSize d) (dd_currentBlockVals d) (dd_miniBlocksPerBlock d)
       (dd_valsPerMini d) (dd_currentMiniBlockVals d) minDelta (dd_miniBlockIdx d) (dd_widths d)
       (dd_totalValues d) (dd_lastVal d) (dd_miniBlockValues d).

(** [initBlock()].  When it fails the block stays to be started, so the widths it may have
    overwritten are never used. *)
Definition initBlock (d : DeltaDecoder) : DeltaDecoder * option goerr :=
  match BR.GetZigZagVlqInt (dd_r d) with
  | (r1, None) => (setBlock d r1 0, Some eofErr)
  | (r1, Some minDelta) =>
      if dd_is32 d && ((minDelta <? MinInt32) || (MaxInt32 <? minDelta))
      then (setBlock d r1 minDelta, Some (ErrMsg "parquet: minimum delta exceeds INT32 range"))
      else match readWidths r1 (Z.to_nat (dd_miniBlocksPerBlock d)) with
           | (r2, inr e) => (setBlock d r2 minDelta, Some e)
           | (r2, inl ws) =>
               (mkDD (dd_is32 d) (dd_nvals d) (dd_usedFirst d) r2 (dd_blockSize d) (u32 (dd_blockSize d))
                     (dd_miniBlocksPerBlock d) (dd_valsPerMini d) (dd_currentMiniBlockVals d) minDelta 0 ws
                     (dd_totalValues d) (dd_lastVal d) (dd_miniBlockValues d), None)
           end
  end.

(** [d.lastVal += delta + minDelta; append(T(d.lastVal))] for each delta. *)
Fixpoint addDeltas (is32 : bool) (lastVal minDelta : Z) (deltas : list Z) : Z * list Z :=
  match deltas with
  | [] => (lastVal, [])
  | delta :: deltas' =>
      let v := i64 (lastVal + i64 (i64 delta + minDelta)) in
      let '(lastVal', vs) := addDeltas is32 v minDelta deltas' in (lastVal', wrapT is32 v :: vs)
  end.

Definition deltaBitPackScratchSize : Z := 1024.

(** The loop over scratch-sized batches: at most [n] of them. *)
Fixpoint unpackBatches (fuel : nat) (is32 : bool) (r : BitReader) (width remaining lastVal minDelta : Z)
    : BitReader * Z * list Z * option goerr :=
  match fuel with
  | O => (r, lastVal, [], None)
  | S fuel' =>
      if 0 <? remaining then
        let batchSize := Z.min remaining deltaBitPackScratchSize in
        let '(r1, buf, nread, err) := BR.GetBatch r width (repeat 0 (Z.to_nat batchSize)) in
        if negb (nread =? batchSize) then
          (r1, lastVal, [],
           match err with None | Some EOF | Some ErrUnexpectedEOF => Some ErrUnexpectedEOF | e => e end)
        else match err with
             | Some e => (r1, lastVal, [], Some e)
             | None =>
                 let '(lastVal1, vs1) := addDeltas is32 lastVal minDelta (firstn (Z.to_nat nread) buf) in
                 let '(r2, lastVal2, vs2, e) :=
                   unpackBatches fuel' is32 r1 width (remaining - batchSize) lastVal1 minDelta in
                 (r2, lastVal2, vs1 ++ vs2, e)
             end
      else (r, lastVal, [], None)
  end.

(** [unpackNextMini()]: decodes the next mini block; indexing the widths may panic, which
    [index] models. *)
Definition unpackNextMini (d : DeltaDecoder) : option (DeltaDecoder * option goerr) :=
  width <- index (dd_widths d) (dd_miniBlockIdx d) ;;
  let maxBitWidth := if dd_is32 d then 32 else 64 in
  Some
  (if maxBitWidth <? width then
     (mkDD (dd_is32 d) (dd_nvals d) (dd_usedFirst d) (dd_r d) (dd_blockSize d) (dd_currentBlockVals d) (dd_miniBlocksPerBlock d)
           (dd_valsPerMini d) (dd_currentMiniBlockVals d) (dd_minDelta d) (dd_miniBlockIdx d) (dd_widths d)
           (dd_totalValues d) (dd_lastVal d) [],
      Some (ErrMsg "parquet: delta bit width exceeds decoder width"))
   else
     let n := dd_valsPerMini d in
     let '(r1, lastVal, vs, err) :=
       if width =? 0 then
         let '(lastVal, vs) := addDeltas (dd_is32 d) (dd_lastVal d) (dd_minDelta d) (repeat 0 (Z.to_nat n)) in
         (dd_r d, lastVal, vs, None)
       else unpackBatches (Z.to_nat n) (dd_is32 d) (dd_r d) width n (dd_lastVal d) (dd_minDelta d) in
     (mkDD (dd_is32 d) (dd_nvals d) (dd_usedFirst d) r1 (dd_blockSize d) (dd_currentBlockVals d) (dd_miniBlocksPerBlock d)
           (dd_valsPerMini d) n (dd_minDelta d) (match err with None => dd_miniBlockIdx d + 1 | Some _ => dd_miniBlockIdx d end)
           (dd_widths d) (dd_totalValues d) lastVal vs,
      err)).

(** What an iteration of the loops of [Decode] and [Discard] starts with: the next block and
    the next mini block are read when the current ones are used up. *)
Definition advance (d : DeltaDecoder) : option (DeltaDecoder * option goerr) :=
  match (if dd_currentBlockVals d =? 0 then initBlock d else (d, None)) with
  | (d1, Some e) => Some (d1, Some e)
  | (d1, None) => if dd_currentMiniBlockVals d1 =? 0 then unpackNextMini d1 else Some (d1, None)
  end.

(** [d.miniBlockValues[d.valsPerMini - d.currentMiniBlockVals:]] *)
Definition available (d : DeltaDecoder) : option (list Z) :=
  slice (dd_miniBlockValues d) (u32 (dd_valsPerMini d - dd_currentMiniBlockVals d)) (len (dd_miniBlockValues d)).

(** [n] values of the mini block are used. *)
Definition consume (d : DeltaDecoder) (n : Z) : DeltaDecoder :=
  mkDD (dd_is32 d) (dd_nvals d) (dd_usedFirst d) (dd_r d) (dd_blockSize d)
       (u32 (dd_currentBlockVals d - n)) (dd_miniBlocksPerBlock d) (dd_valsPerMini d)
       (u32 (dd_currentMiniBlockVals d - n)) (dd_minDelta d) (dd_miniBlockIdx d) (dd_widths d)
       (dd_totalValues d) (dd_lastVal d) (dd_miniBlockValues d).

Definition setUsed (d : DeltaDecoder) (nvals : Z) : DeltaDecoder :=
  mkDD (dd_is32 d) nvals true (dd_r d) (dd_blockSize d) (dd_currentBlockVals d) (dd_miniBlocksPerBlock d)
       (dd_valsPerMini d) (dd_currentMiniBlockVals d) (dd_minDelta d) (dd_miniBlockIdx d) (dd_widths d)
       (dd_totalValues d) (dd_lastVal d) (dd_miniBlockValues d).

(** The loop of [Decode]; [out] is what is left of the slice.  [None] is a panic or running out
    of fuel. *)
Fixpoint decodeLoop (fuel : nat) (d : DeltaDecoder) (out : list Z) : option (DeltaDecoder * list Z * option goerr) :=
  match out with
  | [] => Some (d, [], None)
  | _ =>
      match fuel with
      | O => None
      | S fuel' =>
          r <- advance d ;;
          match r with
          | (d1, Some e) => Some (d1, out, Some e)
          | (d1, None) =>
              avail <- available d1 ;;
              let numCopied := Z.min (len out) (len avail) in
              rest <- decodeLoop fuel' (consume d1 numCopied) (skipn (Z.to_nat numCopied) out) ;;
              let '(d2, filled, e) := rest in
              Some (d2, firstn (Z.to_nat numCopied) avail ++ filled, e)
          end
      end
  end.

(** [Decode(out)]: the decoder, the slice afterwards, the number decoded, the error.  An
    iteration of the loop fills at least one entry, unless an earlier call has failed. *)
Definition Decode (d : DeltaDecoder) (out : list Z) : option (DeltaDecoder * list Z * Z * option goerr) :=
  let max := Z.min (len out) (dd_nvals d) in
  if max =? 0 then Some (d, out, 0, None)
  else
    let out1 := firstn (Z.to_nat max) out in
    let '(head, todo) :=
      if dd_usedFirst d then ([], out1) else ([wrapT (dd_is32 d) (dd_lastVal d)], skipn 1 out1) in
    r <- decodeLoop (List.length todo) (setUsed d (dd_nvals d)) todo ;;
    let '(d1, filled, err) := r in
    let out' := head ++ filled ++ skipn (Z.to_nat max) out in
    match err with
    | Some e => Some (d1, out', 0, Some e)
    | None => Some (setUsed d1 (dd_nvals d1 - max), out', max, None)
    end.

(** The loop of [Discard]: the number of values that are left to discard, and the error. *)
Fixpoint discardLoop (fuel : nat) (d : DeltaDecoder) (remaining : Z) : option (DeltaDecoder * Z * option goerr) :=
  if 0 <? remaining then
    match fuel with
    | O => None
    | S fuel' =>
        r <- advance d ;;
        match r with
        | (d1, Some e) => Some (d1, remaining, Some e)
        | (d1, None) =>
            avail <- available d1 ;;
            let numToDiscard := if remaining <? len avail then remaining else len avail in
            discardLoop fuel' (consume d1 numToDiscard) (remaining - numToDiscard)
        end
    end
  else Some (d, remaining, None).

Definition Discard (d : DeltaDecoder) (n : Z) : option (DeltaDecoder * Z * option goerr) :=
  let n := Z.min n (dd_nvals d) in
  if n =? 0 then Some (d, 0, None)
  else
    let remaining := if dd_usedFirst d then n else n - 1 in
    r <- discardLoop (Z.to_nat remaining) (setUsed d (dd_nvals d)) remaining ;;
    let '(d1, rest, err) := r in
    match err with
    | Some e => Some (d1, n - rest, Some e)
    | None => Some (setUsed d1 (dd_nvals d1 - n), n, None)
    end.

End DD.
