(* ===== verification/DeltaFormat.v ===== *)
(** * The delta binary packed format (the grammar above [deltaBitPackEncoder])

    The abstract side of the delta encoder and decoder.  A page is a header and blocks; a block
    has a minimum delta and mini blocks, each a bit width and packed numbers.  How many mini blocks
    there are in a block and numbers in a mini block is up to the page ([geometry]); the encoder
    writes four of 32 ([stdGeo]).  [blockCells] is the memory the format prescribes for a block, where the widths of absent
    mini blocks may be anything; [blockDeltas] are the differences it stands for, and [run]
    the values they add up to. *)

From Stdlib Require Import ZArith List Lia Bool.
From S2P Require Import Prelude GoStd BitUtil BitWriter BitReader Codec DeltaBitPack.
Import ListNotations.
#[local] Open Scope Z_scope.
#[local] Open Scope go_scope.

(** The sizes in the header: the values of a mini block and the mini blocks of a block. *)
Class geometry : Type := mkGeo { gVals : nat; gMinis : nat }.

(** What the format allows: mini blocks of a multiple of 32 values, blocks of a multiple of 128,
    and the bound that the reader has on the latter. *)
Definition geoOk (g : geometry) : Prop :=
  (0 < gVals)%nat /\ (0 < gMinis)%nat /\ Z.of_nat gVals mod 32 = 0 /\ Z.of_nat (gVals * gMinis) mod 128 = 0 /\ Z.of_nat (gVals * gMinis) <= MaxUint32.

Record mini : Type := mkMini { mw : Z; mvals : list Z }.
Record block : Type := mkBlock { bmin : Z; bminis : list mini }.

(** The values of the column's type. *)
Definition isT (is32 : bool) (x : Z) : Prop := if is32 then MinInt32 <= x <= MaxInt32 else isInt64 x.

Definition miniBody (m : mini) : list Z := lebytes (Z.to_nat (len (mvals m) / 8 * mw m)) (packed (mw m) (mvals m)).

Definition bodies (ms : list mini) : list Z := flat_map miniBody ms.

Definition blockCells {g : geometry} (b : block) : list (option Z) :=
  map Some (Binary.PutUvarint (BW.zigzag (bmin b)) ++ map mw (bminis b)) ++
  repeat None (gMinis - List.length (bminis b)) ++ map Some (bodies (bminis b)).

Definition cellsOfBlocks {g : geometry} (bs : list block) : list (option Z) := flat_map blockCells bs.

(** The difference a packed number stands for. *)
Definition effDelta (minDelta raw : Z) : Z := i64 (i64 raw + minDelta).

Definition minisDeltas (minDelta : Z) (ms : list mini) : list Z :=
  flat_map (fun m => map (effDelta minDelta) (mvals m)) ms.

Definition blockDeltas (b : block) : list Z := minisDeltas (bmin b) (bminis b).

Definition deltasOfBlocks (bs : list block) : list Z := flat_map blockDeltas bs.

(** Adding up: the running total is 64 bits wide, the values are of the column's type. *)
Fixpoint run (is32 : bool) (last : Z) (deltas : list Z) : list Z :=
  match deltas with
  | [] => []
  | d :: deltas' => wrapT is32 (i64 (last + d)) :: run is32 (i64 (last + d)) deltas'
  end.

Definition total (last : Z) (deltas : list Z) : Z := fold_left (fun l d => i64 (l + d)) deltas last.

Section Type_.
Context {g : geometry}.
Variable is32 : bool.

Definition maxWidth : Z := if is32 then 32 else 64.

Definition miniOk (m : mini) : Prop :=
  0 <= mw m <= maxWidth /\ List.length (mvals m) = gVals /\ Forall (fits (mw m)) (mvals m).

Definition blockOk (b : block) : Prop :=
  isT is32 (bmin b) /\ (1 <= List.length (bminis b) <= gMinis)%nat /\ Forall miniOk (bminis b).

(** Only the last block may have fewer mini blocks. *)
Fixpoint blocksOk (bs : list block) : Prop :=
  match bs with
  | [] => True
  | b :: bs' => blockOk b /\ (bs' <> [] -> List.length (bminis b) = gMinis) /\ blocksOk bs'
  end.

End Type_.

(** The header of a page. *)
Definition headerBytes {g : geometry} (count first : Z) : list Z :=
  Binary.PutUvarint (Z.of_nat (gVals * gMinis)) ++ Binary.PutUvarint (Z.of_nat gMinis) ++
  Binary.PutUvarint count ++ Binary.PutUvarint (BW.zigzag first).

(** ** Adding up *)

Lemma length_run is32 last ds : List.length (run is32 last ds) = List.length ds.
Proof. revert last; induction ds as [|d ds IH]; intros; cbn [run List.length]; auto. Qed.

Lemma run_app is32 last ds1 ds2 :
  run is32 last (ds1 ++ ds2) = run is32 last ds1 ++ run is32 (total last ds1) ds2.
Proof. revert last; induction ds1 as [|d ds1 IH]; intros; cbn [app run total fold_left]; [reflexivity|]. f_equal. apply IH. Qed.

(** The decoder's loop adds up. *)
Lemma addDeltas_run is32 last md raws :
  DD.addDeltas is32 last md raws = (total last (map (effDelta md) raws), run is32 last (map (effDelta md) raws)).
Proof.
  revert last; induction raws as [|r raws IH]; intros; cbn [DD.addDeltas map run total fold_left]; [reflexivity|].
  fold (effDelta md r). rewrite IH. reflexivity.
Qed.

Lemma length_minisDeltas {g : geometry} is32 md ms : Forall (miniOk is32) ms -> List.length (minisDeltas md ms) = (gVals * List.length ms)%nat.
Proof.
  induction 1 as [|m ms (_ & HL & _) _ IH]; [cbn; lia|]. unfold minisDeltas in *. cbn [flat_map List.length].
  rewrite length_app, length_map, HL, IH. lia.
Qed.

Lemma isT_int64 is32 x : isT is32 x -> isInt64 x.
Proof. destruct is32; [|auto]. unfold isT, isInt64, MinInt32, MaxInt32, MinInt64, MaxInt64. lia. Qed.

Lemma i64_id x : isInt64 x -> i64 x = x.
Proof. unfold isInt64, MinInt64, MaxInt64, i64. intros. rewrite Z.mod_small; lia. Qed.

(** ** Words modulo a power of two *)

Lemma mod_shift_eq x y c m : 0 < m -> x mod m = y mod m -> (x + c) mod m - c = (y + c) mod m - c.
Proof. intros Hm H. now rewrite <- (Z.add_mod_idemp_l x), <- (Z.add_mod_idemp_l y), H by lia. Qed.

Lemma i64_cong x y : x mod 2 ^ 64 = y mod 2 ^ 64 -> i64 x = i64 y.
Proof. apply mod_shift_eq. reflexivity. Qed.

Lemma wrap_mod x c m : 0 < m -> ((x + c) mod m - c) mod m = x mod m.
Proof. intros. rewrite Zminus_mod_idemp_l. f_equal. lia. Qed.

Lemma i64_mod x : (i64 x) mod 2 ^ 64 = x mod 2 ^ 64.
Proof. apply wrap_mod. reflexivity. Qed.

Lemma i64_add_l x y : i64 (i64 x + y) = i64 (x + y).
Proof. apply i64_cong. rewrite <- Z.add_mod_idemp_l, i64_mod, Z.add_mod_idemp_l by lia. reflexivity. Qed.

Lemma u64_i64 x : i64 (u64 x) = i64 x.
Proof. apply i64_cong. unfold u64. apply Z.mod_mod. lia. Qed.

(** What the encoder packs stands for the delta it was computed from. *)
Lemma effDelta_enc md d : isInt64 d -> effDelta md (u64 (i64 (d - md))) = d.
Proof.
  intros Hd. unfold effDelta. rewrite u64_i64, i64_add_l, i64_add_l. replace (d - md + md) with d by lia. now apply i64_id.
Qed.

Lemma effDelta_0 md : isInt64 md -> effDelta md 0 = md.
Proof. intros. unfold effDelta. rewrite i64_add_l. rewrite Z.add_0_l. now apply i64_id. Qed.

Lemma wrapT_id is32 x : isT is32 x -> wrapT is32 x = x.
Proof.
  destruct is32; [|apply i64_id]. unfold isT, MinInt32, MaxInt32. cbn [wrapT]. unfold i32. intros. rewrite Z.mod_small; lia.
Qed.

Lemma wrapT_isT is32 x : isT is32 (wrapT is32 x).
Proof.
  destruct is32; unfold isT, wrapT, isInt64, i32, i64, MinInt32, MaxInt32, MinInt64, MaxInt64.
  - pose proof (Z.mod_pos_bound (x + 2 ^ 31) (2 ^ 32)). lia.
  - pose proof (Z.mod_pos_bound (x + 2 ^ 63) (2 ^ 64)). lia.
Qed.

(** The conversion to the column's type sees a number modulo 2^32 or 2^64. *)
Definition widthT (is32 : bool) : Z := if is32 then 32 else 64.

Lemma wrapT_cong is32 x y : x mod 2 ^ widthT is32 = y mod 2 ^ widthT is32 -> wrapT is32 x = wrapT is32 y.
Proof. destruct is32; apply mod_shift_eq; reflexivity. Qed.

Lemma wrapT_mod is32 x : (wrapT is32 x) mod 2 ^ widthT is32 = x mod 2 ^ widthT is32.
Proof. destruct is32; apply wrap_mod; reflexivity. Qed.

Lemma i64_modT is32 x : (i64 x) mod 2 ^ widthT is32 = x mod 2 ^ widthT is32.
Proof.
  rewrite <- (mod_mod_pow2 (i64 x) 64), <- (mod_mod_pow2 x 64), i64_mod by (destruct is32; cbn; lia). reflexivity.
Qed.

(** The deltas of a sequence of values, as the encoder computes them. *)
Fixpoint deltasOf (is32 : bool) (v : Z) (vs : list Z) : list Z :=
  match vs with
  | [] => []
  | x :: vs' => wrapT is32 (x - wrapT is32 v) :: deltasOf is32 x vs'
  end.

(** Adding up the deltas gives the values back, although the decoder's total runs on at 64
    bits where the encoder wrapped at the column's width. *)
Lemma run_deltasOf is32 last v vs :
  wrapT is32 last = wrapT is32 v -> Forall (isT is32) vs -> run is32 last (deltasOf is32 v vs) = vs.
Proof.
  intros Hl HF. revert last v Hl. induction HF as [|x vs Hx _ IH]; intros last v Hl; cbn [deltasOf run]; [reflexivity|].
  assert (Hv : wrapT is32 (i64 (last + wrapT is32 (x - wrapT is32 v))) = x).
  { rewrite <- (wrapT_id is32 x) at 2 by assumption. apply wrapT_cong.
    assert (HM : 2 ^ widthT is32 <> 0) by (destruct is32; cbn; lia).
    rewrite i64_modT, <- Z.add_mod_idemp_r, wrapT_mod, Z.add_mod_idemp_r, <- Hl, Z.add_sub_assoc by assumption.
    rewrite <- Zminus_mod_idemp_r, wrapT_mod, Zminus_mod_idemp_r. f_equal. lia. }
  rewrite Hv. f_equal. apply IH. rewrite Hv. symmetry. now apply wrapT_id.
Qed.

Lemma deltasOf_isT is32 v vs : Forall (isT is32) (deltasOf is32 v vs).
Proof. revert v; induction vs; intros; cbn [deltasOf]; constructor; auto using wrapT_isT. Qed.

Lemma length_deltasOf is32 v vs : List.length (deltasOf is32 v vs) = List.length vs.
Proof. revert v; induction vs; intros; cbn [deltasOf List.length]; auto. Qed.

Lemma last_default {A} (x d d' : A) l : last (x :: l) d = last (x :: l) d'.
Proof. revert x; induction l as [|y l IH]; intros x; [reflexivity|]. exact (IH y). Qed.

Lemma deltasOf_snoc is32 v vs x :
  deltasOf is32 v (vs ++ [x]) = deltasOf is32 v vs ++ [wrapT is32 (x - wrapT is32 (last vs v))].
Proof.
  revert v; induction vs as [|y vs IH]; intros; [reflexivity|]. cbn [app deltasOf]. rewrite IH. do 6 f_equal.
  destruct vs; [reflexivity|]. apply (last_default z).
Qed.
