(* ===== verification/DeltaEncode.v ===== *)
(** * The delta encoder writes the format

    [putsRel] relates an encoder to the values put so far: the blocks that are complete are in
    the sink, the remaining deltas are pending.  [flush_ok] says what [FlushValues] returns. *)

From Stdlib Require Import ZArith List Lia Bool.
From S2P Require Import Prelude GoStd BitUtil BitWriter BitReader Memory Codec DeltaBitPack DeltaFormat.
Import ListNotations.
#[local] Open Scope Z_scope.
#[local] Open Scope go_scope.

(** What the encoder writes: four mini blocks of 32 values. *)
#[export] Instance stdGeo : geometry := mkGeo 32 4.

(** Its sizes as numbers. *)
Ltac std_geo := cbn [gVals gMinis stdGeo] in *.

Lemma stdGeo_ok : geoOk stdGeo.
Proof. unfold geoOk, stdGeo, MaxUint32. cbn. splits; lia. Qed.

(** ** The blocks of a sequence of deltas *)

Definition encDelta (md d : Z) : Z := u64 (i64 (d - md)).

Definition encMini (md : Z) (ds : list Z) : mini :=
  mkMini (DE.miniWidth md ds) (map (encDelta md) ds ++ repeat 0 (32 - List.length ds)).

Fixpoint encMinis (n : nat) (md : Z) (ds : list Z) : list mini :=
  match n with
  | O => []
  | S n' => match ds with [] => [] | _ => encMini md (firstn 32 ds) :: encMinis n' md (skipn 32 ds) end
  end.

Definition minDelta (ds : list Z) : Z := fold_left (fun m d => if d <? m then d else m) ds MaxInt64.

Definition encBlock (ds : list Z) : block := mkBlock (minDelta ds) (encMinis 4 (minDelta ds) ds).

Lemma fold_min_le ds m d : In d ds -> fold_left (fun m d => if d <? m then d else m) ds m <= d.
Proof.
  assert (Hm : forall ds m, fold_left (fun m d => if d <? m then d else m) ds m <= m).
  { clear. induction ds as [|x ds IH]; intros m; cbn [fold_left]; [lia|].
    specialize (IH (if x <? m then x else m)). destruct (Z.ltb_spec x m); lia. }
  revert m; induction ds as [|x ds IH]; intros m; cbn [fold_left]; [intros []|]. intros [->|Hd]; [|now apply IH].
  specialize (Hm ds (if d <? m then d else m)). destruct (Z.ltb_spec d m); lia.
Qed.

Lemma fold_min_in ds m : In (fold_left (fun m d => if d <? m then d else m) ds m) (m :: ds).
Proof.
  revert m; induction ds as [|x ds IH]; intros m; cbn [fold_left]; [left; reflexivity|].
  destruct (x <? m); [right; apply IH|]. destruct (IH m) as [H|H]; [left; exact H|right; right; exact H].
Qed.

Lemma fold_max_spec ds m d : In d ds -> d <= fold_left Z.max ds m.
Proof.
  assert (Hm : forall ds m, m <= fold_left Z.max ds m).
  { clear. induction ds as [|x ds IH]; intros m; cbn [fold_left]; [lia|]. specialize (IH (Z.max m x)). lia. }
  revert m; induction ds as [|x ds IH]; intros m; cbn [fold_left]; [intros []|]. intros [->|Hd]; [|now apply IH].
  specialize (Hm ds (Z.max m d)). lia.
Qed.

Lemma fold_max_in ds m : In (fold_left Z.max ds m) (m :: ds).
Proof.
  revert m; induction ds as [|x ds IH]; intros m; cbn [fold_left]; [left; reflexivity|].
  destruct (IH (Z.max m x)) as [H|H]; [|right; right; exact H]. rewrite <- H.
  destruct (Z.max_spec m x) as [[_ ->]|[_ ->]]; [right; left|left]; reflexivity.
Qed.

Section T.
Variable is32 : bool.

Lemma minDelta_ok ds : ds <> [] -> Forall (isT is32) ds -> isT is32 (minDelta ds) /\ forall d, In d ds -> minDelta ds <= d.
Proof.
  intros Hne HF. assert (Hle : forall d, In d ds -> minDelta ds <= d) by (intros; apply fold_min_le; auto).
  split; [|exact Hle]. destruct ds as [|x ds]; [congruence|]. rewrite Forall_forall in HF.
  destruct (fold_min_in (x :: ds) MaxInt64) as [H|H]; [|now apply HF].
  pose proof (Hle x ltac:(left; reflexivity)) as Hx. unfold minDelta in *. rewrite <- H in *.
  pose proof (HF x ltac:(left; reflexivity)) as HT. pose proof (isT_int64 _ _ HT) as H64. red in H64.
  replace MaxInt64 with x by lia. exact HT.
Qed.

(** The width of a mini block holds its numbers. *)
Lemma miniWidth_ok md ds :
  ds <> [] -> Forall (isT is32) ds -> isT is32 md -> (forall d, In d ds -> md <= d) ->
  0 <= DE.miniWidth md ds <= maxWidth is32 /\ Forall (fits (DE.miniWidth md ds)) (map (encDelta md) ds).
Proof.
  intros Hne HF Hmd Hle. unfold DE.miniWidth. set (mx := fold_left Z.max ds MinInt64).
  rewrite Forall_forall in HF.
  assert (Hmx : isT is32 mx /\ forall d, In d ds -> d <= mx).
  { split; [|intros; now apply fold_max_spec]. destruct ds as [|x ds]; [congruence|].
    destruct (fold_max_in (x :: ds) MinInt64) as [H|H]; [|now apply HF].
    pose proof (fold_max_spec (x :: ds) MinInt64 x ltac:(left; reflexivity)) as Hx. fold mx in H, Hx.
    pose proof (HF x ltac:(left; reflexivity)) as HT. pose proof (isT_int64 _ _ HT) as H64. red in H64.
    rewrite <- H in *. replace MinInt64 with x by lia. exact HT. }
  destruct Hmx as [HmxT Hmx].
  assert (Hsmall : forall d, isT is32 d -> md <= d -> u64 (i64 (d - md)) = d - md /\ 0 <= d - md < 2 ^ maxWidth is32).
  { intros d Hd Hl. assert (0 <= d - md < 2 ^ maxWidth is32).
    { revert Hd Hmd. unfold isT, maxWidth, isInt64, MinInt32, MaxInt32, MinInt64, MaxInt64. destruct is32; lia. }
    split; [|assumption]. unfold u64. rewrite i64_mod. apply Z.mod_small. pose proof (pow2_le (maxWidth is32) 64).
    unfold maxWidth in *. destruct is32; lia. }
  assert (Hmdmx : md <= mx).
  { destruct ds as [|x ds]; [congruence|]. specialize (Hle x ltac:(left; reflexivity)). specialize (Hmx x ltac:(left; reflexivity)). lia. }
  destruct (Hsmall mx HmxT Hmdmx) as [-> Hb].
  destruct (Bits.Len64_fits (mx - md) ltac:(lia)) as [Hlen Hw]. red in Hw.
  split; [split; [lia|]|].
  - apply Bits.Len64_le; [unfold maxWidth; destruct is32; lia|lia].
  - apply Forall_map, Forall_forall. intros d Hd. unfold encDelta. destruct (Hsmall d) as [-> ?]; auto.
    red. specialize (Hmx d Hd). lia.
Qed.

Lemma encMini_ok md ds :
  (1 <= List.length ds <= 32)%nat -> Forall (isT is32) ds -> isT is32 md -> (forall d, In d ds -> md <= d) ->
  miniOk is32 (encMini md ds) /\
  map (effDelta md) (mvals (encMini md ds)) = ds ++ repeat md (32 - List.length ds).
Proof.
  intros HL HF Hmd Hle. destruct (miniWidth_ok md ds) as [Hw Hfit]; auto; [destruct ds; [cbn in HL; lia|discriminate]|].
  split; [split; [exact Hw|]|]; cbn [encMini mw mvals].
  - split; [std_geo; rewrite length_app, length_map, repeat_length; lia|]. apply Forall_app. split; [exact Hfit|].
    apply Forall_forall. intros x ->%repeat_spec. red. pose proof (pow2_pos (DE.miniWidth md ds)). lia.
  - rewrite map_app, map_map, map_repeat, effDelta_0 by now apply (isT_int64 is32). f_equal.
    rewrite <- (map_id ds) at 2. apply map_ext_in. intros d Hd. apply effDelta_enc. apply (isT_int64 is32).
    rewrite Forall_forall in HF. auto.
Qed.

(** The padding of the last mini block stands for further copies of the minimum. *)
Lemma encMinis_ok n md ds :
  (List.length ds <= 32 * n)%nat -> Forall (isT is32) ds -> isT is32 md -> (forall d, In d ds -> md <= d) ->
  Forall (miniOk is32) (encMinis n md ds) /\
  (List.length (encMinis n md ds) = (List.length ds + 31) / 32)%nat /\
  minisDeltas md (encMinis n md ds) = ds ++ repeat md (32 * ((List.length ds + 31) / 32) - List.length ds).
Proof.
  intros HL HF Hmd Hle. revert ds HL HF Hle. induction n as [|n IH]; intros ds HL HF Hle.
  { assert (ds = []) by (destruct ds; [reflexivity|cbn in HL; lia]). subst. cbn. auto. }
  cbn [encMinis]. destruct ds as [|x ds']; [cbn; auto|]. set (ds := x :: ds') in *.
  assert (H1 : (1 <= List.length ds)%nat) by (cbn; lia).
  destruct (encMini_ok md (firstn 32 ds)) as [Hm Hd].
  { rewrite length_firstn. lia. } { now apply Forall_firstn. } { assumption. }
  { intros d Hin. apply Hle. rewrite <- (firstn_skipn 32 ds). apply in_or_app; auto. }
  destruct (IH (skipn 32 ds)) as (IH1 & IH2 & IH3).
  { rewrite length_skipn. lia. } { now apply Forall_skipn. }
  { intros d Hin. apply Hle. rewrite <- (firstn_skipn 32 ds). apply in_or_app; auto. }
  rewrite length_skipn in IH2, IH3. rewrite length_firstn in Hd.
  set (q := ((List.length ds - 32 + 31) / 32)%nat) in *.
  assert (Hq : ((List.length ds + 31) / 32 = S q)%nat).
  { subst q. destruct (Nat.le_gt_cases (List.length ds) 32) as [Hs|Hs].
    - replace (List.length ds - 32)%nat with O by lia. change ((0 + 31) / 32)%nat with O.
      symmetry. apply (Nat.div_unique _ _ _ (List.length ds - 1)); lia.
    - replace (List.length ds + 31)%nat with (List.length ds - 32 + 31 + 1 * 32)%nat by lia.
      rewrite Nat.div_add by lia. lia. }
  rewrite Hq. cbn [List.length]. split; [constructor; assumption|]. split; [now rewrite IH2|].
  unfold minisDeltas in *. cbn [flat_map]. rewrite Hd, IH3.
  destruct (Nat.le_gt_cases (List.length ds) 32) as [Hs|Hs].
  - assert (q = O) by (subst q; replace (List.length ds - 32)%nat with O by lia; reflexivity).
    rewrite firstn_all2, skipn_all2 by lia. rewrite H, Nat.min_r by lia. cbn [app Nat.mul Nat.sub repeat].
    rewrite app_nil_r. f_equal.
  - rewrite Nat.min_l, Nat.sub_diag by lia. cbn [repeat]. rewrite app_nil_r, app_assoc, firstn_skipn. do 2 f_equal. lia.
Qed.
End T.

(** ** Writing a block *)

Section Writer.
Context {W : Type} `{WOk : WriterAtOk W}.
Implicit Types (b : BitWriter W) (pre : list (option Z)).

Lemma writeAll_app b xs ys w : DE.writeAll b (xs ++ ys) w = DE.writeAll (DE.writeAll b xs w) ys w.
Proof. revert b; induction xs as [|x xs IH]; intros; cbn [app DE.writeAll]; auto. Qed.

Lemma writeAll_WriteValues b xs w b' : BW.WriteValues b xs w = (b', None) -> DE.writeAll b xs w = b'.
Proof.
  revert b; induction xs as [|x xs IH]; intros b; [cbn; congruence|]. rewrite WriteValues_step. cbn [DE.writeAll].
  destruct (BW.WriteValue b x w) as [b1 [e|]]; [discriminate|]. apply IH.
Qed.

(** After the cells [pre] the writer has taken the whole bytes [body]. *)
Definition bodyAt (R : Z) b pre (body : list Z) : Prop :=
  bytes body /\ bwAt R b pre (leval body) (8 * len body).

Lemma bodyAt_flushed R b pre body :
  bodyAt R b pre body -> flushed pre (leval body) (8 * len body) = pre ++ map Some body.
Proof.
  intros [Hb _]. unfold flushed. do 2 f_equal.
  replace (Z.to_nat _) with (List.length body) by zdiv. now apply lebytes_leval.
Qed.

Lemma bwAligned_body R b cells : bwAligned R b cells -> bodyAt R b cells [].
Proof. intros Hal. split; [constructor|]. now apply bwAligned_at. Qed.

(** A mini block of 32 numbers. *)
Lemma length_miniBody is32 m : miniOk is32 m -> len (miniBody m) = 4 * mw m.
Proof. intros (Hm & HL & _). unfold miniBody. rewrite length_lebytes, HL. change (Z.of_nat gVals / 8) with 4. lia. Qed.

Lemma maxWidth_le is32 : maxWidth is32 <= 64.
Proof. destruct is32; cbn; lia. Qed.

Lemma leval_miniBody is32 m : miniOk is32 m -> leval (miniBody m) = packed (mw m) (mvals m).
Proof.
  intros (Hw & HL & HF). unfold miniBody. rewrite leval_lebytes. apply Z.mod_small.
  pose proof (packed_bound (mw m) (mvals m) ltac:(lia) HF) as Hp. rewrite HL in Hp.
  rewrite HL. change (Z.of_nat gVals / 8) with 4. change (Z.of_nat gVals) with 32 in Hp. replace (8 * Z.of_nat (Z.to_nat (4 * mw m))) with (32 * mw m) by lia. exact Hp.
Qed.

Lemma writeMini_ok is32 R b pre body m :
  bodyAt R b pre body -> miniOk is32 m -> len pre + len (body ++ miniBody m) <= R ->
  bodyAt R (DE.writeAll b (mvals m) (mw m)) pre (body ++ miniBody m).
Proof.
  intros [Hb HA] Hm HR. pose proof Hm as (Hw & HL & HF). std_geo. pose proof (maxWidth_le is32).
  rewrite length_app, Nat2Z.inj_add, (length_miniBody is32 m Hm) in HR.
  destruct (WriteValues_ok R b pre _ _ (mvals m) (mw m) HA) as (b' & HE & HA'); auto; [lia|lia|rewrite HL; zdiv|].
  rewrite (writeAll_WriteValues _ _ _ _ HE). split.
  - apply bytes_app. split; [assumption|]. unfold miniBody. auto with gobytes.
  - rewrite leval_app, (leval_miniBody is32 m Hm), length_app, Nat2Z.inj_add, (length_miniBody is32 m Hm).
    rewrite HL in HA'. replace (8 * (len body + 4 * mw m)) with (8 * len body + Z.of_nat 32 * mw m) by lia. exact HA'.
Qed.

Lemma encMinis_cons n md ds :
  ds <> [] -> encMinis (S n) md ds = encMini md (firstn 32 ds) :: encMinis n md (skipn 32 ds).
Proof. destruct ds; [congruence|reflexivity]. Qed.

(** The chunk of an iteration. *)
Lemma chunk_min (ds : list Z) :
  firstn (Z.to_nat (Z.min 32 (len ds))) ds = firstn 32 ds /\ skipn (Z.to_nat (Z.min 32 (len ds))) ds = skipn 32 ds /\
  Z.to_nat (32 - Z.min 32 (len ds)) = (32 - List.length (firstn 32 ds))%nat.
Proof.
  rewrite length_firstn. destruct (Z.min_spec 32 (len ds)) as [[? ->]|[? ->]]; [splits; auto; lia|].
  rewrite Nat2Z.id, !firstn_all2, !skipn_all2 by lia. splits; auto. lia.
Qed.

(** One mini block: its width goes into the next reserved byte, its numbers to the end. *)
Lemma flushMini_step is32 R P md n b don ds body m :
  m = encMini md (firstn 32 ds) -> miniOk is32 m -> ds <> [] ->
  bodyAt R b (P ++ map Some don ++ repeat None (S n)) body ->
  len P + len don + Z.of_nat (S n) + len body + len (miniBody m) <= R ->
  exists b', DE.flushMinis b (S n) (len don) (len P) 32 md ds
      = DE.flushMinis b' n (len (don ++ [mw m])) (len P) 32 md (skipn 32 ds) /\
    bodyAt R b' (P ++ map Some (don ++ [mw m]) ++ repeat None n) (body ++ miniBody m).
Proof.
  intros Em Hm Hne [Hb HA] HR. cbn [DE.flushMinis].
  assert (1 <= len ds) by (destruct ds; [congruence|cbn [List.length]; lia]). bool_lia (Z.min 32 (len ds) =? 0).
  destruct (chunk_min ds) as (-> & -> & ->). change (DE.miniWidth md (firstn 32 ds)) with (mw (encMini md (firstn 32 ds))).
  rewrite <- Em. pose proof Hm as (Hw & _). pose proof (maxWidth_le is32).
  assert (Hu8 : u8 (mw m) = mw m) by (unfold u8; rewrite Z.mod_small; lia). rewrite Hu8.
  replace (P ++ map Some don ++ repeat None (S n)) with ((P ++ map Some don) ++ [None] ++ repeat None n) in HA
    by now rewrite <- !app_assoc.
  destruct (WriteAt_hole R b (P ++ map Some don) (repeat None n) (mw m) _ _ HA) as (b1 & HE1 & HA1);
    [red; lia|rewrite length_app, length_map; lia|].
  rewrite length_app, length_map, Nat2Z.inj_add in HE1. rewrite HE1, <- writeAll_app.
  change (map _ (firstn 32 ds) ++ _) with (mvals (encMini md (firstn 32 ds))). rewrite <- Em.
  exists (DE.writeAll b1 (mvals m) (mw m)). split.
  - rewrite length_app, Nat2Z.inj_add. reflexivity.
  - apply (writeMini_ok is32); [|assumption|].
    + split; [assumption|]. rewrite map_app, <- app_assoc, app_assoc. exact HA1.
    + rewrite !length_app, length_map, length_app, repeat_length. cbn [List.length]. lia.
Qed.

Lemma flushMinis_ok is32 R P md n :
  isT is32 md -> forall b don ds body,
  bodyAt R b (P ++ map Some don ++ repeat None n) body ->
  (List.length ds <= 32 * n)%nat -> Forall (isT is32) ds -> (forall d, In d ds -> md <= d) ->
  len P + len don + Z.of_nat n + len body + len (bodies (encMinis n md ds)) <= R ->
  bodyAt R (DE.flushMinis b n (len don) (len P) 32 md ds)
    (P ++ map Some (don ++ map mw (encMinis n md ds)) ++ repeat None (n - List.length (encMinis n md ds)))
    (body ++ bodies (encMinis n md ds)).
Proof.
  intros Hmd. induction n as [|n IH]; intros b don ds body HB HL HF Hle HR.
  { cbn. now rewrite !app_nil_r in *. }
  destruct (list_eq_dec Z.eq_dec ds []) as [->|Hne].
  { cbn [DE.flushMinis encMinis map bodies flat_map List.length Nat.sub]. now rewrite !app_nil_r. }
  rewrite encMinis_cons in * by assumption.
  set (m := encMini md (firstn 32 ds)) in *. set (ms := encMinis n md (skipn 32 ds)) in *.
  assert (Hin : forall d, In d (firstn 32 ds) \/ In d (skipn 32 ds) -> md <= d).
  { intros d Hd. apply Hle. rewrite <- (firstn_skipn 32 ds). apply in_or_app. exact Hd. }
  assert (Hm : miniOk is32 m).
  { apply encMini_ok; auto using Forall_firstn. rewrite length_firstn. destruct ds; [congruence|cbn [List.length]; lia]. }
  unfold bodies in HR |- *. cbn [flat_map] in HR |- *. fold (bodies ms) in HR |- *. rewrite length_app in HR.
  destruct (flushMini_step is32 R P md n b don ds body m eq_refl Hm Hne HB ltac:(lia)) as (b' & -> & HB').
  cbn [map List.length Nat.sub]. change (mw m :: map mw ms) with ([mw m] ++ map mw ms).
  rewrite (app_assoc don), (app_assoc body). apply IH; auto using Forall_skipn.
  - rewrite length_skipn. lia.
  - fold ms. rewrite !length_app. cbn [List.length]. lia.
Qed.

(** A whole block. *)
Lemma flushBlock_ok is32 R b pre body ds :
  bodyAt R b pre body -> (1 <= List.length ds <= 128)%nat -> Forall (isT is32) ds ->
  len pre + len body + len (blockCells (encBlock ds)) <= R ->
  exists pre' body', bodyAt R (DE.flushBlockBW b 4 32 ds) pre' body' /\
    pre' ++ map Some body' = (pre ++ map Some body) ++ blockCells (encBlock ds).
Proof.
  intros HB HL HF HR. unfold DE.flushBlockBW. bool_lia (len ds =? 0). fold (minDelta ds).
  destruct (minDelta_ok is32 ds) as [Hmd Hle]; [destruct ds; [cbn in HL; lia|discriminate]|assumption|].
  set (md := minDelta ds) in *. pose proof (zigzag_bound md (isT_int64 _ _ Hmd)) as Hz.
  unfold blockCells in *. std_geo. cbn [encBlock bmin bminis] in *. fold md in HR |- *.
  set (ms := encMinis 4 md ds) in *. set (vl := Binary.PutUvarint (BW.zigzag md)) in *.
  rewrite !length_app, !length_map, length_app, length_map, repeat_length in HR.
  pose proof (bodyAt_flushed R b pre body HB) as HFl. pose proof HB as [Hb HA].
  destruct (encMinis_ok is32 4 md ds ltac:(lia) HF Hmd Hle) as (_ & Hcount & _). fold ms in Hcount.
  assert (Hms : (List.length ms <= 4)%nat).
  { rewrite Hcount. apply (Nat.Div0.div_le_mono _ (4 * 32 + 31) 32). lia. }
  destruct (WriteVlqInt_ok R b pre _ _ (BW.zigzag md) HA) as (b1 & HE1 & HA1);
    [lia|rewrite HFl, length_app, length_map; fold vl; lia|].
  fold vl in HA1. rewrite HFl in HA1. unfold BW.WriteZigZagVlqInt. rewrite HE1. cbn [fst].
  destruct (SkipBytes_ok R b1 _ _ _ 4 (bwAligned_at _ _ _ HA1) ltac:(lia)) as (b2 & HE2 & HA2).
  { rewrite !length_app, !length_map. change ((0 + 7) / 8) with 0. lia. }
  set (P := (pre ++ map Some body) ++ map Some vl) in *.
  assert (HP : flushed P 0 0 = P) by (unfold flushed; cbn; apply app_nil_r). rewrite HP in *. rewrite HE2.
  apply bwAligned_body in HA2.
  exists (P ++ map Some ([] ++ map mw ms) ++ repeat None (4 - List.length ms)), ([] ++ bodies ms). split.
  - apply (flushMinis_ok is32 R P md 4 Hmd b2 [] ds []); auto; [lia|]. subst P. fold ms. rewrite !length_app, !length_map. cbn [List.length]. lia.
  - subst P. cbn [app]. now rewrite map_app, <- !app_assoc.
Qed.
End Writer.

(** ** Sizes *)

Lemma length_bodies is32 ms : Forall (miniOk is32) ms -> len (bodies ms) <= 256 * len ms.
Proof.
  induction 1 as [|m ms Hm _ IH]; [cbn; lia|]. unfold bodies in *. cbn [flat_map List.length].
  rewrite length_app, Nat2Z.inj_add, (length_miniBody is32 m Hm). destruct Hm as (Hw & _). pose proof (maxWidth_le is32). lia.
Qed.

Lemma length_PutUvarint x : 1 <= len (Binary.PutUvarint x) <= 10.
Proof. pose proof (Binary.putUvarint_length Binary.MaxVarintLen64 x) as H. unfold Binary.PutUvarint, Binary.MaxVarintLen64 in *. lia. Qed.

(** The most a block takes. *)
Definition maxBlock : Z := 1038.

Lemma length_blockCells is32 b : blockOk is32 b -> len (blockCells b) <= maxBlock.
Proof.
  intros (_ & HL & HF). unfold blockCells, maxBlock. std_geo. pose proof (length_bodies is32 _ HF).
  pose proof (length_PutUvarint (BW.zigzag (bmin b))).
  rewrite !length_app, !length_map, length_app, length_map, repeat_length. lia.
Qed.

Lemma encBlock_ok is32 ds :
  (1 <= List.length ds <= 128)%nat -> Forall (isT is32) ds ->
  blockOk is32 (encBlock ds) /\ List.length (bminis (encBlock ds)) = ((List.length ds + 31) / 32)%nat /\
  exists k, blockDeltas (encBlock ds) = ds ++ repeat (minDelta ds) k /\ (List.length ds = 128%nat -> k = O) /\ (k < 32)%nat.
Proof.
  intros HL HF. destruct (minDelta_ok is32 ds) as [Hmd Hle]; [destruct ds; [cbn in HL; lia|discriminate]|assumption|].
  destruct (encMinis_ok is32 4 (minDelta ds) ds ltac:(lia) HF Hmd Hle) as (H1 & H2 & H3).
  assert (Hq : (1 <= (List.length ds + 31) / 32 <= 4)%nat).
  { split; [apply (Nat.Div0.div_le_mono 32 _ 32)|apply (Nat.Div0.div_le_mono _ (4 * 32 + 31) 32)]; lia. }
  splits.
  - red. std_geo. cbn [encBlock bmin bminis]. splits; auto; lia.
  - exact H2.
  - eexists. split; [exact H3|]. split; [intros ->; reflexivity|]. pose proof (Nat.div_mod (List.length ds + 31) 32 ltac:(lia)). pose proof (Nat.mod_upper_bound (List.length ds + 31) 32 ltac:(lia)). lia.
Qed.

Lemma length_cellsOfBlocks is32 bs : Forall (blockOk is32) bs -> len (cellsOfBlocks bs) <= maxBlock * len bs.
Proof.
  induction 1 as [|b bs Hb _ IH]; [cbn; lia|]. unfold cellsOfBlocks in *. cbn [flat_map List.length].
  pose proof (length_blockCells is32 b Hb). rewrite length_app. lia.
Qed.

Lemma cellsOfBlocks_app bs1 bs2 : cellsOfBlocks (bs1 ++ bs2) = cellsOfBlocks bs1 ++ cellsOfBlocks bs2.
Proof. apply flat_map_app. Qed.

(** ** The encoder *)

#[local] Instance sinkOk : WriterAtOk PooledBufferWriter.t := PooledBufferWriter_ok 0.

(** The bytes of the sink that are relied on. *)
Definition R : Z := 2 ^ 61.

Lemma sinkReady_ok s : sinkReady s -> wok s /\ room s R.
Proof. intros [Hs Hp]. pose proof Hs as (_ & _ & ?). cbn. rewrite Hp. unfold R. splits; auto; lia. Qed.

Definition fullChunks (full : list (list Z)) : Prop := Forall (fun c => List.length c = 128%nat) full.

(** The blocks in the sink and the pending deltas are the deltas of the values. *)
Record encAt (is32 : bool) (enc : DeltaEncoder) (v0 : Z) (rest : list Z) : Prop := mkEncAt {
  ea_is32 : de_is32 enc = is32;
  ea_first : de_firstVal enc = v0;
  ea_cur : de_currentVal enc = last rest v0;
  ea_params : de_blockSize enc = 128 /\ de_miniBlockSize enc = 32 /\ de_numMiniBlocks enc = 4;
  ea_pending : (List.length (de_deltas enc) < 128)%nat;
  ea_blocks : exists b pre body full, de_bw enc = Some b /\ bodyAt R b pre body /\ fullChunks full /\
    deltasOf is32 v0 rest = List.concat full ++ de_deltas enc /\
    pre ++ map Some body = cellsOfBlocks (map encBlock full)
}.

(** Ready for a page. *)
Definition ready (is32 : bool) (enc : DeltaEncoder) : Prop :=
  de_is32 enc = is32 /\ de_totalVals enc = 0 /\ de_deltas enc = [] /\ sinkReady (DE.sinkOf enc).

Definition putsRel (is32 : bool) (enc : DeltaEncoder) (vs : list Z) : Prop :=
  match vs with
  | [] => ready is32 enc
  | v0 :: rest => encAt is32 enc v0 rest /\ de_totalVals enc = len vs
  end.

Lemma length_concat_full (full : list (list Z)) : fullChunks full -> List.length (List.concat full) = (128 * List.length full)%nat.
Proof. induction 1 as [|c full Hc _ IH]; [reflexivity|]. cbn [List.concat List.length]. rewrite length_app, IH, Hc. lia. Qed.

Lemma Forall_concat_in {A} (P : A -> Prop) (ls : list (list A)) : Forall P (List.concat ls) -> Forall (Forall P) ls.
Proof. induction ls as [|l ls IH]; cbn [List.concat]; constructor; apply Forall_app in H; intuition. Qed.

(** Complete blocks are in order and take little room. *)
Lemma full_ok is32 full ds :
  fullChunks full -> Forall (isT is32) (List.concat full ++ ds) -> len (List.concat full ++ ds) < 2 ^ 32 ->
  Forall (blockOk is32) (map encBlock full) /\ len (cellsOfBlocks (map encBlock full)) <= 2 ^ 37.
Proof.
  intros Hfull HT HL. apply Forall_app in HT as [HT _]. apply Forall_concat_in in HT.
  assert (Hok : Forall (blockOk is32) (map encBlock full)).
  { apply Forall_map. unfold fullChunks in Hfull. rewrite Forall_forall in *. intros c Hc.
    apply encBlock_ok; [rewrite (Hfull c Hc); lia|auto]. }
  split; [exact Hok|]. pose proof (length_cellsOfBlocks is32 _ Hok) as Hc. rewrite length_map in Hc.
  rewrite length_app, length_concat_full in HL by assumption. unfold maxBlock in Hc.
  change (2 ^ 32) with 4294967296 in HL. change (2 ^ 37) with 137438953472. lia.
Qed.

Lemma len_snoc {A} (l : list A) x : List.length (l ++ [x]) = S (List.length l).
Proof. rewrite length_app. cbn. lia. Qed.

Lemma putOne_ok is32 enc v0 rest v :
  encAt is32 enc v0 rest -> len rest + 1 < 2 ^ 32 -> encAt is32 (DE.putOne enc v) v0 (rest ++ [v]).
Proof.
  intros [Hi Hf Hc (Hb & Hm & Hn) Hp (b & pre & body & full & Hbw & HB & Hfull & Hds & Hcells)] HL.
  pose proof (deltasOf_isT is32 v0 (rest ++ [v])) as HT. pose proof (length_deltasOf is32 v0 (rest ++ [v])) as HLd.
  rewrite len_snoc in HLd.
  assert (Hds' : deltasOf is32 v0 (rest ++ [v]) = List.concat full ++ (de_deltas enc ++ [wrapT is32 (v - wrapT is32 (last rest v0))])).
  { now rewrite deltasOf_snoc, Hds, app_assoc. }
  rewrite Hds' in HT, HLd.
  unfold DE.putOne. rewrite Hi, Hc, Hb. set (p := de_deltas enc ++ _) in *.
  assert (HLp : List.length p = S (List.length (de_deltas enc))) by apply len_snoc.
  cbn [de_is32 de_sink de_bw de_deltas de_blockSize].
  destruct (Z.eqb_spec (len p) 128) as [He|He].
  - unfold DE.flushBlock. cbn [de_bw]. rewrite Hbw.
    destruct (full_ok is32 full p Hfull HT ltac:(lia)) as [_ Hsz].
    destruct (encBlock_ok is32 p ltac:(lia)) as (Hbo & _); [now apply Forall_app in HT|].
    pose proof (length_blockCells is32 _ Hbo) as Hsz1.
    rewrite <- Hcells, length_app, length_map in Hsz.
    constructor; cbn [de_is32 de_firstVal de_currentVal de_blockSize de_miniBlockSize de_numMiniBlocks de_deltas de_bw]; auto.
    + now rewrite last_last.
    + cbn; lia.
    + rewrite Hm, Hn.
      destruct (flushBlock_ok is32 R b pre body p HB ltac:(lia)) as (pre' & body' & HB' & Hc');
        [now apply Forall_app in HT|unfold R, maxBlock in *; lia|].
      exists (DE.flushBlockBW b 4 32 p), pre', body', (full ++ [p]). splits; auto.
      * apply Forall_app. split; [assumption|]. constructor; [lia|constructor].
      * rewrite concat_app. cbn [List.concat]. rewrite !app_nil_r. exact Hds'.
      * rewrite Hc', Hcells, map_app, cellsOfBlocks_app. cbn [map cellsOfBlocks flat_map]. now rewrite app_nil_r.
  - constructor; cbn [de_is32 de_firstVal de_currentVal de_blockSize de_miniBlockSize de_numMiniBlocks de_deltas de_bw]; auto.
    + now rewrite last_last.
    + lia.
    + exists b, pre, body, full. splits; auto.
Qed.

Lemma putOnes_ok is32 vs enc v0 rest :
  encAt is32 enc v0 rest -> len (rest ++ vs) < 2 ^ 32 -> encAt is32 (fold_left DE.putOne vs enc) v0 (rest ++ vs).
Proof.
  revert enc rest. induction vs as [|v vs IH]; intros enc rest HE HL; cbn [fold_left]; [now rewrite app_nil_r|].
  replace (rest ++ v :: vs) with ((rest ++ [v]) ++ vs) in * by now rewrite <- app_assoc.
  apply IH; [|exact HL]. apply putOne_ok; [assumption|]. rewrite !length_app in HL. cbn [List.length] in HL. lia.
Qed.

Lemma putOnes_totalVals vs enc : de_totalVals (fold_left DE.putOne vs enc) = de_totalVals enc.
Proof.
  revert enc. induction vs as [|v vs IH]; intros enc; cbn [fold_left]; [reflexivity|]. rewrite IH. unfold DE.putOne.
  destruct (_ =? _); [|reflexivity]. unfold DE.flushBlock. now destruct (de_bw _).
Qed.

Lemma putsRel_Put is32 enc vs ws :
  putsRel is32 enc vs -> len (vs ++ ws) < 2 ^ 32 -> putsRel is32 (DE.Put enc ws) (vs ++ ws).
Proof.
  intros HR HL. destruct ws as [|w ws]; [now rewrite app_nil_r|]. unfold DE.Put. destruct vs as [|v0 rest].
  - destruct HR as (Hi & Ht & Hd & Hs). rewrite Ht. cbn [Z.eqb app]. split.
    + apply (putOnes_ok is32 ws _ w []).
      * constructor; cbn [de_is32 de_firstVal de_currentVal de_blockSize de_miniBlockSize de_numMiniBlocks de_deltas de_bw last];
          rewrite ?Hd; cbn [List.length]; auto; [lia|].
        destruct (sinkReady_ok _ Hs) as [Hok Hroom].
        exists (BW.NewBitWriter (DE.sinkOf enc)), [], [], []. splits; auto; [|constructor].
        apply bwAligned_body. now apply NewBitWriter_aligned.
      * cbn [app List.length] in HL |- *. lia.
    + rewrite putOnes_totalVals. cbn [de_totalVals]. unfold u64. cbn [app] in HL. rewrite Z.mod_small; lia.
  - destruct HR as [HE Ht]. pose proof HL as HL'. cbn [app List.length] in HL'. rewrite length_app in HL'. cbn [List.length] in HL', Ht. rewrite Ht.
    bool_lia (Z.of_nat (S (List.length rest)) =? 0). cbn [app]. split.
    + apply (putOnes_ok is32 (w :: ws) _ v0 rest).
      * destruct HE as [Hi Hf Hc Hp Hl Hb]. constructor; auto.
      * rewrite length_app. cbn [List.length]. lia.
    + rewrite putOnes_totalVals. cbn [de_totalVals]. rewrite Ht. unfold u64. cbn [List.length]. rewrite length_app. cbn [List.length].
      rewrite Z.mod_small; lia.
Qed.

(** ** The finished page *)

(** A further varint into the header. *)
Lemma header_vlq b cells x :
  bwAligned 32 (W := WriterAtBuffer.t) b cells -> 0 <= x -> len cells + len (Binary.PutUvarint x) <= 32 ->
  bwAligned 32 (fst (BW.WriteVlqInt b x)) (cells ++ map Some (Binary.PutUvarint x)).
Proof.
  intros HA Hx HL. assert (HF : flushed cells 0 0 = cells) by (unfold flushed; cbn; apply app_nil_r).
  destruct (WriteVlqInt_ok 32 b cells 0 0 x (bwAligned_at _ _ _ HA) Hx) as (b' & -> & HA'); [rewrite HF; exact HL|].
  now rewrite HF in HA'.
Qed.

Lemma header_ok enc :
  de_blockSize enc = 128 -> de_numMiniBlocks enc = 4 -> 0 <= de_totalVals enc -> isInt64 (de_firstVal enc) ->
  DE.header enc = headerBytes (de_totalVals enc) (de_firstVal enc).
Proof.
  intros Hb Hn Ht Hf. unfold DE.header. rewrite Hb, Hn. pose proof (zigzag_bound _ Hf) as Hz. unfold BW.WriteZigZagVlqInt.
  pose proof (length_PutUvarint (de_totalVals enc)). pose proof (length_PutUvarint (BW.zigzag (de_firstVal enc))).
  set (w0 := BW.NewBitWriter _).
  assert (HW : bwAligned 32 w0 []) by (apply NewBitWriter_aligned; [apply (bytes_repeat0 32)|cbn; rewrite repeat_length; lia]).
  assert (H128 : len (Binary.PutUvarint 128) = 2) by reflexivity. assert (H4 : len (Binary.PutUvarint 4) = 1) by reflexivity.
  apply (header_vlq _ _ 128) in HW; [|lia|cbn [List.length]; lia].
  apply (header_vlq _ _ 4) in HW; [|lia|rewrite !length_app, !length_map; cbn [List.length]; lia].
  apply (header_vlq _ _ (de_totalVals enc)) in HW; [|lia|rewrite !length_app, !length_map; cbn [List.length]; lia].
  apply (header_vlq _ _ (BW.zigzag (de_firstVal enc))) in HW; [|lia|rewrite !length_app, !length_map; cbn [List.length]; lia].
  cbn [app] in HW. rewrite <- !app_assoc, <- !map_app in HW.
  change (Binary.PutUvarint 128 ++ Binary.PutUvarint 4 ++ Binary.PutUvarint (de_totalVals enc) ++ Binary.PutUvarint (BW.zigzag (de_firstVal enc)))
    with (headerBytes (de_totalVals enc) (de_firstVal enc)) in HW.
  set (hb := headerBytes _ _) in *. set (w4 := fst (BW.WriteVlqInt _ (BW.zigzag _))) in *.
  destruct HW as [_ _ _ Hz0 Hoff Hh]. unfold BW.Flush, BW.Written. rewrite Hz0. cbn [Z.ltb Z.compare bw_wr bw_byteoffset bw_bitoffset].
  rewrite Hoff, length_map, BytesForBits_div by lia. change ((0 + 7) / 8) with 0. rewrite Z.add_0_r, Nat2Z.id.
  now apply holds_firstn in Hh.
Qed.

(** The deltas in blocks: the complete ones and a last, shorter one. *)
Definition chunksOf (full : list (list Z)) (p : list Z) : list (list Z) := full ++ match p with [] => [] | _ => [p] end.

(** The memory [Finish] hands out has what was written. *)
Lemma Finish_cells f s cells :
  pooledOk s -> PooledBufferWriter.offset s = 0 -> holds s cells ->
  exists s' m, PooledBufferWriter.Finish f s = (s', m) /\ s' = PooledBufferWriter.Reset f s' 0 /\
    bytes (Buffer.buf m) /\ cellsOf (Buffer.buf m) cells.
Proof.
  intros Hs Ho Hh. unfold PooledBufferWriter.Finish. set (m := if _ <? _ then _ else _).
  assert (He : extends (PooledBufferWriter.buf s) m).
  { subst m. destruct (_ <? _); [apply ResizeNoShrink_extends|apply extends_refl]. }
  set (s1 := PooledBufferWriter.mk m (PooledBufferWriter.pos s) (PooledBufferWriter.offset s)).
  exists (PooledBufferWriter.Reset f s1 0), m. splits; auto.
  - destruct (grow_ok s s1 He eq_refl eq_refl Hs) as [Hs1 _]. apply Hs1.
  - pose proof (grow_holds s s1 cells He eq_refl eq_refl Hs Hh) as H1. red in H1. cbn in H1. now rewrite Ho in H1.
Qed.

Lemma flushTail_ok is32 b pre body full p :
  bodyAt R b pre body -> fullChunks full -> (List.length p < 128)%nat ->
  Forall (isT is32) (List.concat full ++ p) -> len (List.concat full ++ p) < 2 ^ 32 ->
  pre ++ map Some body = cellsOfBlocks (map encBlock full) ->
  exists pre' body', bodyAt R (DE.flushBlockBW b 4 32 p) pre' body' /\
    pre' ++ map Some body' = cellsOfBlocks (map encBlock (chunksOf full p)) /\ len pre' + len body' <= R.
Proof.
  intros HB Hfull Hp HT HL Hc. destruct (full_ok is32 full p Hfull HT HL) as [_ Hsz].
  rewrite <- Hc, length_app, length_map in Hsz. destruct p as [|x p'].
  - exists pre, body. unfold chunksOf. rewrite app_nil_r. splits; auto. unfold R. lia.
  - set (p := x :: p') in *. assert (1 <= List.length p)%nat by (cbn; lia). apply Forall_app in HT as [_ HTp].
    destruct (encBlock_ok is32 p ltac:(lia) HTp) as (Hbo & _). pose proof (length_blockCells is32 _ Hbo) as Hsz1.
    unfold maxBlock in Hsz1.
    destruct (flushBlock_ok is32 R b pre body p HB ltac:(lia) HTp) as (pre' & body' & HB' & Hc'); [unfold R; lia|].
    exists pre', body'. splits; auto.
    + rewrite Hc', Hc. unfold chunksOf. subst p. rewrite map_app, cellsOfBlocks_app. cbn [map]. unfold cellsOfBlocks at 3. cbn [flat_map]. now rewrite app_nil_r.
    + apply (f_equal (@List.length _)) in Hc'. rewrite !length_app, !length_map in Hc'. unfold R. lia.
Qed.

Lemma cellsOf_firstn m t cells :
  bytes m -> cellsOf m cells ->
  bytes (firstn (List.length cells) (m ++ t)) /\ cellsOf (firstn (List.length cells) (m ++ t)) cells.
Proof.
  intros Hm [Hc HL]. rewrite firstn_app. replace (_ - _)%nat with O by lia. rewrite firstn_O, app_nil_r.
  split; [auto with gobytes|]. split; [|rewrite length_firstn; lia]. intros i x Hi. rewrite nth_error_firstn.
  assert (i < List.length cells)%nat by (apply nth_error_Some; congruence).
  destruct (Nat.ltb_spec i (List.length cells)); [now apply Hc|lia].
Qed.

Lemma flush_ok is32 fresh enc v0 rest :
  putsRel is32 enc (v0 :: rest) -> isInt64 v0 -> len (v0 :: rest) < 2 ^ 32 -> freshOk fresh ->
  exists enc' body full p,
    DE.FlushValues fresh enc = Some (enc', headerBytes (len (v0 :: rest)) v0 ++ body) /\ ready is32 enc' /\
    deltasOf is32 v0 rest = List.concat full ++ p /\ fullChunks full /\ (List.length p < 128)%nat /\
    bytes body /\ cellsOf body (cellsOfBlocks (map encBlock (chunksOf full p))) /\
    List.length body = List.length (cellsOfBlocks (map encBlock (chunksOf full p))).
Proof.
  intros [[Hi Hf Hc (Hb & Hm & Hn) Hp (b & pre & body & full & Hbw & HB & Hfull & Hds & Hcells)] Ht] Hv0 HL Hfr.
  pose proof (deltasOf_isT is32 v0 rest) as HT. pose proof (length_deltasOf is32 v0 rest) as HLd. cbn [List.length] in HL.
  rewrite Hds in HT, HLd.
  destruct (flushTail_ok is32 b pre body full (de_deltas enc) HB Hfull Hp HT ltac:(lia) Hcells) as (pre' & body' & HB' & Hc' & HR).
  unfold DE.FlushValues, DE.flushBlock. rewrite Hbw, Hm, Hn. cbn [de_bw].
  set (b1 := DE.flushBlockBW b 4 32 (de_deltas enc)) in *. set (enc1 := mkDE _ _ _ _ _ _ _ _ _ _).
  pose proof (bodyAt_flushed R b1 pre' body' HB') as HFl. destruct HB' as [Hb' HA].
  assert (Hal : bwAligned R (BW.Flush true b1) (pre' ++ map Some body')).
  { rewrite <- HFl. apply Flush_aligned; [assumption|]. zdiv. }
  pose proof (Written_at _ _ _ _ _ (bwAligned_at _ _ _ Hal)) as HW. change ((0 + 7) / 8) with 0 in HW. rewrite Z.add_0_r in HW.
  destruct Hal as [[Hw Ho] _ _ _ _ Hh]. rewrite Hc' in Hh, HW. set (cells := cellsOfBlocks (map encBlock (chunksOf full (de_deltas enc)))) in *.
  destruct (Finish_cells fresh _ cells Hw Ho Hh) as (s' & m & -> & Hs' & Hmb & Hmc).
  rewrite HW. unfold Buffer.Buf. rewrite slice_ok by (pose proof Hmc as [_ ?]; rewrite ?length_app; lia).
  cbn [opt_bind]. rewrite skipn_O, Z.sub_0_r, Nat2Z.id.
  destruct (cellsOf_firstn (Buffer.buf m) (Buffer.spare m) cells Hmb Hmc) as [H1 H2].
  rewrite (header_ok enc1) by (cbn; rewrite ?Ht, ?Hf; auto; cbn [List.length]; lia).
  assert (He : de_totalVals enc1 = len (v0 :: rest) /\ de_firstVal enc1 = v0) by (cbn; auto). destruct He as [-> ->].
  eexists _, _, full, (de_deltas enc). split; [reflexivity|]. splits; auto.
  - split; [exact Hi|]. split; [reflexivity|]. split; [reflexivity|]. cbn. rewrite Hs'. now apply Reset_ready.
  - rewrite length_firstn, length_app. pose proof Hmc as [_ ?]. fold cells. lia.
Qed.
