(* ===== verification/DeltaDecode.v ===== *)
(** * The delta decoder reads the format

    [strm] relates a decoder to what is left of the page: the values of the current mini block
    that are not delivered yet, the mini blocks of the current block and the blocks after it.
    [pageAt d vs] says that the decoder will deliver exactly [vs]. *)

From Stdlib Require Import ZArith List Lia Bool String.
From S2P Require Import Prelude GoStd BitUtil BitWriter BitReader Memory Codec DeltaBitPack DeltaFormat DeltaEncode.
Import ListNotations.
#[local] Open Scope Z_scope.
#[local] Open Scope go_scope.

(** ** Reading cells *)

Lemma cellsOf_app m c1 c2 : cellsOf m (c1 ++ c2) -> cellsOf m c1 /\ cellsOf (skipn (List.length c1) m) c2.
Proof.
  intros [Hc HL]. rewrite length_app in HL. split; (split; [|rewrite ?length_skipn; lia]); intros i x Hi.
  - apply Hc. rewrite nth_error_app1; [assumption|]. apply nth_error_Some. congruence.
  - rewrite nth_error_skipn. apply Hc. rewrite nth_error_app2 by lia. now replace (_ + i - _)%nat with i by lia.
Qed.

Lemma cellsOf_known m bs : cellsOf m (map Some bs) -> firstn (List.length bs) m = bs.
Proof. intros Hc. exact (holds_firstn (WriterAtBuffer.new m) bs Hc). Qed.

(** At a byte boundary the data goes on with [cells], which end at byte [e]. *)
Definition readerAt (e : Z) (r : BitReader) (cells : list (option Z)) : Prop :=
  brOk r /\ exists o, br_pos r = 8 * o /\ 0 <= o /\ cellsOf (skipn (Z.to_nat o) (br_data r)) cells /\ o + len cells = e.

(** Moving over the bytes [c]. *)
Lemma readerAt_moved r r' o c cells p e :
  cellsOf (skipn (Z.to_nat o) (br_data r)) (c ++ cells) -> 0 <= o -> p = 8 * (o + len c) -> o + len (c ++ cells) = e ->
  movedTo r r' p -> readerAt e r' cells.
Proof.
  intros Hc Ho Hp He (HO & HD & HP). rewrite length_app in He. split; [assumption|]. exists (o + len c). splits; [congruence|lia| |lia].
  apply cellsOf_app in Hc as [_ Hc]. rewrite skipn_skipn in Hc. rewrite HD.
  replace (Z.to_nat (o + len c)) with (List.length c + Z.to_nat o)%nat by lia. exact Hc.
Qed.

Lemma readVlq_ok {e} r x cells :
  readerAt e r (map Some (Binary.PutUvarint x) ++ cells) -> 0 <= x < 2 ^ 64 ->
  exists r', BR.GetVlqInt r = (r', Some x) /\ readerAt e r' cells.
Proof.
  intros (HO & o & Hp & Ho & Hc & He) Hx. pose proof (CurOffset_aligned r o HO Hp) as HC.
  pose proof (cellsOf_app _ _ _ Hc) as [Hk _]. apply cellsOf_known in Hk.
  destruct (GetVlqInt_ok r x HO Hx) as (r' & HE & [HM _]); [rewrite HC; exact Hk|].
  exists r'. split; [exact HE|]. refine (readerAt_moved r r' o _ _ _ _ Hc Ho _ He HM). rewrite HC, length_map. reflexivity.
Qed.

Lemma readZigZag_ok {e} r x cells :
  readerAt e r (map Some (Binary.PutUvarint (BW.zigzag x)) ++ cells) -> isInt64 x ->
  exists r', BR.GetZigZagVlqInt r = (r', Some x) /\ readerAt e r' cells.
Proof.
  intros HR Hx. destruct (readVlq_ok r _ _ HR (zigzag_bound x Hx)) as (r' & HE & HR').
  exists r'. unfold BR.GetZigZagVlqInt. rewrite HE, unzigzag_zigzag by assumption. auto.
Qed.

(** [n] bytes, whatever they are. *)
Lemma readWidths_ok n r o :
  brOk r -> br_pos r = 8 * o -> 0 <= o -> o + Z.of_nat n <= len (br_data r) ->
  exists r', DD.readWidths r n = (r', inl (firstn n (skipn (Z.to_nat o) (br_data r)))) /\ movedTo r r' (8 * (o + Z.of_nat n)).
Proof.
  revert r o. induction n as [|n IH]; intros r o HO Hp Ho HL.
  { exists r. split; [reflexivity|]. rewrite Z.add_0_r, <- Hp. now apply movedTo_refl. }
  cbn [DD.readWidths]. pose proof (CurOffset_aligned r o HO Hp) as HC.
  destruct (ReadByte_ok r HO) as (r1 & -> & [HM1 _]); [rewrite HC; lia|]. rewrite HC in *.
  pose proof HM1 as (HO1 & HD1 & HP1). red in HD1.
  destruct (IH r1 (o + 1) HO1 HP1) as (r' & -> & HM'); [lia|rewrite HD1; lia|]. rewrite HD1.
  exists r'. split.
  - rewrite (skipn_cons (br_data r) (Z.to_nat o) 0) by lia. cbn [firstn].
    replace (Z.to_nat (o + 1)) with (S (Z.to_nat o)) by lia. reflexivity.
  - replace (o + Z.of_nat (S n)) with (o + 1 + Z.of_nat n) by lia. now apply (movedTo_trans _ _ _ _ _ HM1).
Qed.

Lemma deltas_total_app last a b : total last (a ++ b) = total (total last a) b.
Proof. apply fold_left_app. Qed.

(** A mini block of any size, read in batches of at most 1024 numbers and added up. *)
Lemma unpackBatches_ok is32 w md fuel : forall r n last,
  brOk r -> 0 <= w <= 64 -> br_pos r + Z.of_nat n * w <= 8 * len (br_data r) -> (n <= fuel)%nat ->
  let ds := map (effDelta md) (fields (br_val r) (br_pos r) w n) in
  exists r', DD.unpackBatches fuel is32 r w (Z.of_nat n) last md = (r', total last ds, run is32 last ds, None) /\ movedTo r r' (br_pos r + Z.of_nat n * w).
Proof.
  induction fuel as [|fuel IH]; intros r n last HO Hw Hle Hf; cbv zeta.
  { assert (n = O) as -> by lia. exists r. rewrite Z.mul_0_l, Z.add_0_r. split; [reflexivity|now apply movedTo_refl]. }
  cbn [DD.unpackBatches]. destruct (Z.ltb_spec 0 (Z.of_nat n)) as [Hpos|Hz].
  2:{ assert (n = O) as -> by lia. exists r. rewrite Z.mul_0_l, Z.add_0_r. split; [reflexivity|now apply movedTo_refl]. }
  set (k := Nat.min n 1024). assert (Hk : (0 < k <= n)%nat) by lia. replace (Z.min (Z.of_nat n) DD.deltaBitPackScratchSize) with (Z.of_nat k) by (unfold DD.deltaBitPackScratchSize; lia). rewrite Nat2Z.id.
  destruct (GetBatch_ok r w (repeat 0 k) HO Hw) as (r1 & HE & HM); [rewrite repeat_length; nia|]. rewrite repeat_length in HE, HM. rewrite HE, Z.eqb_refl. cbn [negb]. rewrite Nat2Z.id, firstn_all2, addDeltas_run by (rewrite length_fields; lia).
  destruct (movedTo_val _ _ _ HM) as (HV1 & HD1 & HP1). replace (Z.of_nat n - Z.of_nat k) with (Z.of_nat (n - k)) by lia.
  destruct (IH r1 (n - k)%nat (total last (map (effDelta md) (fields (br_val r) (br_pos r) w k))) (proj1 HM) Hw) as (r2 & -> & HM2); [rewrite HP1, HD1; nia|lia|].
  exists r2. rewrite HV1, HP1 in *. split; [|eapply movedTo_trans; [exact HM|]; replace (br_pos r + Z.of_nat n * w) with (br_pos r + Z.of_nat k * w + Z.of_nat (n - k) * w) by nia; exact HM2].
  replace n with (k + (n - k))%nat at 3 4 by lia. rewrite fields_app, map_app, run_app, deltas_total_app. reflexivity.
Qed.

Section Body.
Context {g : geometry}.
Hypothesis Hg : geoOk g.

Lemma gVals_8 : Z.of_nat gVals = 8 * (Z.of_nat gVals / 8).
Proof. destruct Hg as (_ & _ & H & _). zdiv. Qed.

Lemma geo_bounds : 0 < Z.of_nat gVals <= Z.of_nat (gVals * gMinis) /\ Z.of_nat (gVals * gMinis) < 2 ^ 32.
Proof. destruct Hg as (H1 & H2 & _ & _ & H3). unfold MaxUint32 in H3. nia. Qed.

Lemma miniBody_bits is32 m : miniOk is32 m -> 8 * len (miniBody m) = Z.of_nat gVals * mw m.
Proof. intros (Hm & HL & _). unfold miniBody. rewrite length_lebytes, HL. pose proof gVals_8. assert (0 <= Z.of_nat gVals / 8) by zdiv. nia. Qed.

Lemma miniBody_val is32 m : miniOk is32 m -> leval (miniBody m) = packed (mw m) (mvals m).
Proof.
  intros Hm. pose proof (miniBody_bits is32 m Hm) as HB. destruct Hm as (Hw & HL & HF). unfold miniBody in *. rewrite length_lebytes in HB. rewrite leval_lebytes. apply Z.mod_small.
  pose proof (packed_bound (mw m) (mvals m) ltac:(lia) HF) as Hp. rewrite HL in Hp, HB |- *. now rewrite HB.
Qed.

(** The numbers of a mini block at the reader. *)
Lemma readMini_ok is32 {e} r m cells :
  readerAt e r (map Some (miniBody m) ++ cells) -> miniOk is32 m -> 0 < mw m ->
  br_pos r + Z.of_nat gVals * mw m <= 8 * len (br_data r) /\ fields (br_val r) (br_pos r) (mw m) gVals = mvals m /\
  forall r', movedTo r r' (br_pos r + Z.of_nat gVals * mw m) -> readerAt e r' cells.
Proof.
  intros (HO & o & Hp & Ho & Hc & He) Hm Hpos. pose proof Hm as (Hw & HL & HF). pose proof (maxWidth_le is32). pose proof (proj1 Hg).
  pose proof (miniBody_bits is32 m Hm) as HLm. pose proof (cellsOf_app _ _ _ Hc) as [Hk _].
  pose proof (proj2 Hk) as HLk. rewrite length_map, length_skipn in HLk. apply cellsOf_known in Hk. split; [|split].
  - nia.
  - rewrite <- (fields_packed (mw m) (mvals m)) by (auto; lia). rewrite HL, Hp. apply fields_ext. intros j Hj. rewrite <- (miniBody_val is32 m Hm), <- Hk, leval_slice by apply HO.
    rewrite field_field by nia. unfold br_val. f_equal. lia.
  - intros r' HM. refine (readerAt_moved r r' o _ _ _ _ Hc Ho _ He HM). rewrite Hp, length_map. lia.
Qed.
End Body.

(** ** What is left of the page *)

Section Stream.
Context {g : geometry}.
Hypothesis Hg : geoOk g.
Variable is32 : bool.
(** Where the page ends. *)
Variable e : Z.

(** [avail] are the values of the mini block not delivered yet, [ms] the mini blocks of the
    block not read yet, [ab] the number of those that are absent, [bs] the blocks after it. *)
Record strm (d : DeltaDecoder) (avail : list Z) (ms : list mini) (ab : nat) (bs : list block) : Prop := mkStrm {
  st_is32 : dd_is32 d = is32;
  st_params : dd_blockSize d = Z.of_nat (gVals * gMinis) /\ dd_miniBlocksPerBlock d = Z.of_nat gMinis /\ dd_valsPerMini d = Z.of_nat gVals;
  st_reader : readerAt e (dd_r d) (map Some (bodies ms) ++ cellsOfBlocks bs);
  st_blocks : blocksOk is32 bs;
  st_minis : Forall (miniOk is32) ms;
  st_absent : (0 < ab)%nat -> bs = [];
  st_mini : dd_currentMiniBlockVals d = len avail;
  st_block : dd_currentBlockVals d = len avail + Z.of_nat gVals * Z.of_nat (List.length ms + ab) /\ dd_currentBlockVals d <= Z.of_nat (gVals * gMinis);
  st_avail : (List.length avail <= gVals)%nat /\
    (avail <> [] -> List.length (dd_miniBlockValues d) = gVals /\
                    skipn (gVals - List.length avail) (dd_miniBlockValues d) = avail);
  st_widths : exists i, dd_miniBlockIdx d = Z.of_nat i /\ firstn (List.length ms) (skipn i (dd_widths d)) = map mw ms
}.

(** The values that are still to come. *)
Definition coming (d : DeltaDecoder) (avail : list Z) (ms : list mini) (bs : list block) : list Z :=
  avail ++ run is32 (dd_lastVal d) (minisDeltas (dd_minDelta d) ms ++ deltasOfBlocks bs).

(** What the loops leave alone. *)
Definition frame (d d' : DeltaDecoder) : Prop :=
  dd_nvals d' = dd_nvals d /\ dd_usedFirst d' = dd_usedFirst d.

Lemma blockCells_app b cells :
  blockCells b ++ cells =
  map Some (Binary.PutUvarint (BW.zigzag (bmin b))) ++ (map Some (map mw (bminis b)) ++ repeat None (gMinis - List.length (bminis b))) ++
  map Some (bodies (bminis b)) ++ cells.
Proof. unfold blockCells. now rewrite map_app, <- !app_assoc. Qed.

Lemma int32_checks x : isT is32 x -> is32 && ((x <? MinInt32) || (MaxInt32 <? x)) = false.
Proof. destruct is32; [|reflexivity]. unfold isT. intros. cbn [andb]. now cmp_lia. Qed.

Lemma initBlock_ok d b bs :
  strm d [] [] 0 (b :: bs) ->
  exists d', DD.initBlock d = (d', None) /\ strm d' [] (bminis b) (gMinis - List.length (bminis b)) bs /\
    frame d d' /\ dd_lastVal d' = dd_lastVal d /\ dd_minDelta d' = bmin b.
Proof.
  intros [Hi (Hb & Hm & Hv) Hr (Hbo & Hlast & Hbs) _ _ Hc Hcb Ha _]. pose proof Hbo as (Hmin & HL & HF).
  unfold cellsOfBlocks in Hr. cbn [bodies flat_map map app] in Hr. fold (cellsOfBlocks bs) in Hr. rewrite blockCells_app in Hr.
  unfold DD.initBlock. destruct (readZigZag_ok _ _ _ Hr (isT_int64 _ _ Hmin)) as (r1 & -> & HR1).
  rewrite Hi, int32_checks, Hm by assumption. rewrite Nat2Z.id.
  destruct HR1 as (HO1 & o & Hp & Ho & Hcells & He). pose proof (cellsOf_app _ _ _ Hcells) as [Hk _]. pose proof (proj2 Hk) as HLk.
  rewrite length_app, !length_map, repeat_length, length_skipn in HLk.
  apply cellsOf_app in Hk as [Hk _]. apply cellsOf_known in Hk. rewrite length_map in Hk.
  destruct (readWidths_ok (@gMinis g) r1 o HO1 Hp Ho ltac:(lia)) as (r2 & -> & HM).
  eexists. split; [reflexivity|]. split; [|splits; reflexivity || split; reflexivity].
  constructor; cbn [dd_is32 dd_blockSize dd_miniBlocksPerBlock dd_valsPerMini dd_r dd_currentMiniBlockVals dd_currentBlockVals dd_miniBlockValues dd_miniBlockIdx dd_widths]; auto.
  - refine (readerAt_moved r1 r2 o _ _ _ _ Hcells Ho _ He HM). rewrite length_app, !length_map, repeat_length. lia.
  - intros Hab. destruct bs; [reflexivity|]. rewrite Hlast in Hab by discriminate. lia.
  - rewrite Hb. cbn [List.length]. destruct Hg as (_ & _ & _ & _ & Hmax). unfold MaxUint32 in Hmax. unfold u32. rewrite Z.mod_small by lia. nia.
  - exists O. split; [reflexivity|]. rewrite skipn_O, firstn_firstn, Nat.min_l by lia. exact Hk.
Qed.

(** The numbers of one mini block, read and added up. *)
Lemma unpackMini_ok r m cells last md :
  readerAt e r (map Some (miniBody m) ++ cells) -> miniOk is32 m ->
  let ds := map (effDelta md) (mvals m) in
  exists r1,
    (if mw m =? 0
     then let '(lastVal, vs) := DD.addDeltas is32 last md (repeat 0 (Z.to_nat (Z.of_nat gVals))) in (r, lastVal, vs, None)
     else DD.unpackBatches (Z.to_nat (Z.of_nat gVals)) is32 r (mw m) (Z.of_nat gVals) last md)
    = (r1, total last ds, run is32 last ds, None) /\ readerAt e r1 cells.
Proof.
  intros Hr Hm ds. pose proof Hm as (Hmw & HLm & HFm). rewrite Nat2Z.id.
  destruct (Z.eqb_spec (mw m) 0) as [H0|H0].
  - exists r. rewrite addDeltas_run. replace (repeat 0 gVals) with (mvals m).
    + split; [reflexivity|]. unfold miniBody in Hr. rewrite H0, Z.mul_0_r in Hr. exact Hr.
    + rewrite <- HLm. apply Forall_eq_repeat. rewrite Forall_forall in *. intros x Hx. specialize (HFm x Hx).
      red in HFm. rewrite H0 in HFm. cbn in HFm. lia.
  - pose proof (maxWidth_le is32). destruct (readMini_ok Hg is32 r m _ Hr Hm ltac:(lia)) as (Hle & HF & Hmv). destruct (unpackBatches_ok is32 (mw m) md gVals r gVals last (proj1 Hr) ltac:(lia) Hle ltac:(lia)) as (r1 & HE & HM).
    rewrite HF in HE. exists r1. split; [exact HE|exact (Hmv r1 HM)].
Qed.

(** One mini block. *)
Lemma unpackNextMini_ok d m ms ab bs :
  strm d [] (m :: ms) ab bs ->
  exists d', DD.unpackNextMini d = Some (d', None) /\
    strm d' (run is32 (dd_lastVal d) (map (effDelta (dd_minDelta d)) (mvals m))) ms ab bs /\
    frame d d' /\ dd_lastVal d' = total (dd_lastVal d) (map (effDelta (dd_minDelta d)) (mvals m)) /\ dd_minDelta d' = dd_minDelta d.
Proof.
  intros [Hi (Hb & Hmp & Hv) Hr Hbs HF Hab Hc [Hcb Hcb'] Ha (i & Hidx & Hws)]. inversion HF as [|? ? Hm HF']; subst x l.
  cbn [List.length map] in Hws, Hcb, Hc. unfold DD.unpackNextMini. rewrite Hidx, Hi.
  assert (Hwi : (i < List.length (dd_widths d))%nat).
  { apply (f_equal (@List.length Z)) in Hws. rewrite length_firstn, length_skipn in Hws. cbn [List.length] in Hws. lia. }
  rewrite (skipn_cons _ _ 0 Hwi) in Hws. cbn [firstn] in Hws. injection Hws as Hw Hws.
  rewrite (index_ok _ _ 0) by lia. cbn [opt_bind]. rewrite Nat2Z.id, Hw. pose proof Hm as (Hmw & HLm & _).
  unfold maxWidth in Hmw. bool_lia ((if is32 then 32 else 64) <? mw m). rewrite Hv.
  unfold bodies in Hr. cbn [flat_map] in Hr. fold (bodies ms) in Hr. rewrite map_app, <- app_assoc in Hr.
  destruct (unpackMini_ok (dd_r d) m _ (dd_lastVal d) (dd_minDelta d) Hr Hm) as (r1 & -> & Hr1).
  set (ds := map (effDelta (dd_minDelta d)) (mvals m)).
  eexists. split; [reflexivity|]. split; [|splits; reflexivity || split; reflexivity].
  assert (HLr : List.length (run is32 (dd_lastVal d) ds) = gVals) by (subst ds; now rewrite length_run, length_map).
  constructor; cbn [dd_is32 dd_blockSize dd_miniBlocksPerBlock dd_valsPerMini dd_r dd_currentMiniBlockVals dd_currentBlockVals dd_miniBlockValues dd_miniBlockIdx dd_widths]; auto.
  - rewrite HLr. nia.
  - rewrite HLr. split; [lia|]. intros _. split; [reflexivity|]. now rewrite Nat.sub_diag.
  - exists (S i). split; [lia|]. exact Hws.
Qed.

(** Starting an iteration makes values available. *)
Lemma deltaAdvance_ok d avail ms ab bs vs :
  strm d avail ms ab bs -> coming d avail ms bs = vs -> vs <> [] ->
  exists d' avail' ms' ab' bs', DD.advance d = Some (d', None) /\ strm d' avail' ms' ab' bs' /\ avail' <> [] /\
    coming d' avail' ms' bs' = vs /\ frame d d'.
Proof.
  intros Hs HS Hne. pose proof (proj1 Hg) as Hgv. pose proof Hs as [_ _ _ _ _ Hab Hc [Hcb _] _ _]. unfold DD.advance.
  assert (Hmini : forall d m ms ab bs, strm d [] (m :: ms) ab bs ->
    exists d' avail' ms' ab' bs', (if dd_currentMiniBlockVals d =? 0 then DD.unpackNextMini d else Some (d, None)) = Some (d', None) /\
      strm d' avail' ms' ab' bs' /\ avail' <> [] /\ coming d' avail' ms' bs' = coming d [] (m :: ms) bs /\ frame d d').
  { clear - Hg Hgv. intros d m ms ab bs Hs. rewrite (st_mini _ _ _ _ _ Hs). change (len [] =? 0) with true. cbv iota.
    destruct (unpackNextMini_ok d m ms ab bs Hs) as (d' & HE & Hs' & Hf & Hl & Hm).
    eexists d', _, ms, ab, bs. split; [exact HE|]. split; [exact Hs'|]. splits; [| |exact Hf].
    - pose proof (st_minis _ _ _ _ _ Hs) as HF. inversion HF as [|? ? (_ & HL & _) _]; subst. destruct (mvals m); [cbn [List.length] in HL; lia|]. cbn. discriminate.
    - unfold coming, minisDeltas. cbn [flat_map app]. rewrite Hl, Hm, <- app_assoc, <- run_app. reflexivity. }
  destruct (Z.eqb_spec (dd_currentBlockVals d) 0) as [H0|H0].
  - assert (avail = [] /\ ms = [] /\ ab = O) as (-> & -> & ->).
    { destruct avail; [|cbn [List.length] in Hcb; nia]. destruct ms; [|cbn [List.length] in Hcb; nia]. splits; auto. cbn [List.length] in Hcb. nia. }
    destruct bs as [|b bs]; [now subst vs|].
    destruct (initBlock_ok d b bs Hs) as (d1 & -> & Hs1 & [Hf1 Hf2] & Hl & Hm).
    pose proof (st_blocks _ _ _ _ _ Hs) as ((_ & HL & _) & _). destruct (bminis b) as [|m ms] eqn:Eb; [cbn in HL; lia|].
    destruct (Hmini _ _ _ _ _ Hs1) as (d' & a' & ms' & ab' & bs' & HE & Hs' & Hne' & Hc' & [Hf3 Hf4]).
    exists d', a', ms', ab', bs'. splits; auto; [|split; congruence].
    rewrite Hc', <- HS. unfold coming. rewrite Hl, Hm, <- Eb. unfold deltasOfBlocks. cbn [flat_map]. reflexivity.
  - destruct avail as [|a avail].
    + destruct ms as [|m ms].
      { assert (0 < ab)%nat by (cbn [List.length] in Hcb; nia). rewrite Hab in HS by assumption. now subst vs. }
      destruct (Hmini _ _ _ _ _ Hs) as (d' & a' & ms' & ab' & bs' & HE & Hs' & Hne' & Hc' & Hf).
      exists d', a', ms', ab', bs'. splits; auto. congruence.
    + rewrite Hc. change (len (a :: avail)) with (Z.of_nat (S (List.length avail))). bool_lia (Z.of_nat (S (List.length avail)) =? 0). exists d, (a :: avail), ms, ab, bs. splits; auto; [discriminate|split; reflexivity].
Qed.

Lemma available_ok d avail ms ab bs : strm d avail ms ab bs -> avail <> [] -> DD.available d = Some avail.
Proof.
  intros [_ (_ & _ & Hv) _ _ _ _ Hc _ [HL Ha] _] Hne. destruct (Ha Hne) as [HLv Hsk]. pose proof (geo_bounds Hg) as [Hb1 Hb2]. unfold DD.available.
  rewrite Hv, Hc, HLv. unfold u32. rewrite Z.mod_small by lia. rewrite slice_ok by (rewrite ?HLv; lia).
  replace (Z.to_nat (Z.of_nat gVals - len avail)) with (gVals - List.length avail)%nat by lia. rewrite Hsk. f_equal. apply firstn_all2. lia.
Qed.

Lemma consume_ok d avail ms ab bs k :
  strm d avail ms ab bs -> (k <= List.length avail)%nat ->
  strm (DD.consume d (Z.of_nat k)) (skipn k avail) ms ab bs /\
  coming (DD.consume d (Z.of_nat k)) (skipn k avail) ms bs = skipn k (coming d avail ms bs) /\
  frame d (DD.consume d (Z.of_nat k)).
Proof.
  intros [Hi Hpar Hr Hbs HF Hab Hc [Hcb Hcb'] [HL Ha] Hw] Hk. pose proof (geo_bounds Hg) as [Hb1 Hb2]. splits; [|unfold coming|split; reflexivity].
  - constructor; cbn [DD.consume dd_is32 dd_blockSize dd_miniBlocksPerBlock dd_valsPerMini dd_r dd_currentMiniBlockVals
      dd_currentBlockVals dd_miniBlockValues dd_miniBlockIdx dd_widths]; auto; rewrite ?length_skipn; unfold u32.
    + rewrite Hc, Z.mod_small; lia.
    + rewrite Z.mod_small; lia.
    + split; [lia|]. intros Hne. assert (Hlt : (k < List.length avail)%nat).
      { destruct (Nat.lt_ge_cases k (List.length avail)); [assumption|]. rewrite skipn_all2 in Hne by lia. congruence. }
      destruct Ha as [HLv Hsk]; [destruct avail; [cbn in Hlt; lia|discriminate]|]. split; [assumption|].
      rewrite <- Hsk at 2. rewrite skipn_skipn. f_equal. lia.
  - rewrite skipn_app. replace (k - _)%nat with O by lia. reflexivity.
Qed.

Lemma firstn_add {A} (l : list A) n m : firstn (n + m) l = firstn n l ++ firstn m (skipn n l).
Proof. revert l; induction n as [|n IH]; intros [|x l]; cbn; rewrite ?firstn_nil; auto. now rewrite IH. Qed.

(** The decoder has the values [vs] to come, the padding of the last mini block included. *)
Definition streamAt (d : DeltaDecoder) (vs : list Z) : Prop :=
  exists avail ms ab bs, strm d avail ms ab bs /\ coming d avail ms bs = vs.

Lemma frame_trans d1 d2 d3 : frame d1 d2 -> frame d2 d3 -> frame d1 d3.
Proof. intros [? ?] [? ?]. split; congruence. Qed.

(** What one iteration does. *)
Lemma iteration_ok d vs :
  streamAt d vs -> vs <> [] ->
  exists d1 avail rest, DD.advance d = Some (d1, None) /\ DD.available d1 = Some avail /\ vs = avail ++ rest /\ avail <> [] /\
    forall k, (k <= List.length avail)%nat -> streamAt (DD.consume d1 (Z.of_nat k)) (skipn k vs) /\ frame d (DD.consume d1 (Z.of_nat k)).
Proof.
  intros (avail0 & ms0 & ab0 & bs0 & Hs0 & Hc0) Hne.
  destruct (deltaAdvance_ok d _ _ _ _ vs Hs0 Hc0 Hne) as (d1 & avail & ms & ab & bs & HE & Hs & Hne' & Hc & Hf).
  eexists d1, avail, _. splits; [exact HE|eapply available_ok; eauto|symmetry; exact Hc|assumption|].
  intros k Hk. destruct (consume_ok d1 avail ms ab bs k Hs Hk) as (Hs' & Hc' & Hf').
  split; [|eapply frame_trans; eauto]. exists (skipn k avail), ms, ab, bs. split; [exact Hs'|]. now rewrite Hc', Hc.
Qed.

Lemma decodeLoop_ok fuel d vs out :
  streamAt d vs -> (List.length out <= List.length vs)%nat -> (List.length out <= fuel)%nat ->
  exists d', DD.decodeLoop fuel d out = Some (d', firstn (List.length out) vs, None) /\
    streamAt d' (skipn (List.length out) vs) /\ frame d d'.
Proof.
  revert d vs out. induction fuel as [|fuel IH]; intros d vs out Hs HL Hf.
  { destruct out; [|cbn in Hf; lia]. exists d. cbn. splits; auto. split; reflexivity. }
  destruct out as [|x out']; [exists d; cbn; splits; auto; split; reflexivity|]. set (out := x :: out') in *.
  assert (Hout : (1 <= List.length out)%nat) by (cbn; lia).
  destruct (iteration_ok d vs Hs) as (d1 & avail & rest & HE & Ha & Hvs & Hne & Hk); [destruct vs; [cbn in HL; lia|discriminate]|].
  cbn [DD.decodeLoop]. unfold out at 1. rewrite HE. cbn [opt_bind]. rewrite Ha. cbn [opt_bind].
  set (k := Nat.min (List.length out) (List.length avail)).
  replace (Z.min (len out) (len avail)) with (Z.of_nat k) by lia. rewrite Nat2Z.id.
  assert (1 <= List.length avail)%nat by (destruct avail; [congruence|cbn; lia]).
  destruct (Hk k ltac:(lia)) as [Hs1 Hf1].
  destruct (IH _ _ (skipn k out) Hs1) as (d' & HE' & Hs' & Hf'); [rewrite !length_skipn; lia|rewrite length_skipn; lia|].
  rewrite HE'. cbn [opt_bind]. rewrite length_skipn in *. exists d'. rewrite skipn_skipn in Hs'.
  replace (List.length out - k + k)%nat with (List.length out) in Hs' by lia.
  splits; [|assumption|eapply frame_trans; eauto]. do 3 f_equal.
  replace (List.length out) with (k + (List.length out - k))%nat at 2 by lia. rewrite firstn_add. f_equal.
  rewrite Hvs, firstn_app. replace (k - List.length avail)%nat with O by lia. now rewrite firstn_O, app_nil_r.
Qed.

(** [Discard] goes through the same states as [Decode]. *)
Lemma discardLoop_decodeLoop fuel d out d' filled :
  DD.decodeLoop fuel d out = Some (d', filled, None) -> DD.discardLoop fuel d (len out) = Some (d', 0, None).
Proof.
  revert d out filled. induction fuel as [|fuel IH]; intros d [|x out'] filled HE; cbn [DD.decodeLoop DD.discardLoop] in *;
    try (injection HE as <- _; reflexivity); try discriminate.
  set (out := x :: out') in *. assert (Hpos : 0 < len out) by (cbn [out List.length]; lia). bool_lia (0 <? len out).
  destruct (DD.advance d) as [[d1 [err|]]|]; try discriminate. cbn [opt_bind] in *.
  destruct (DD.available d1) as [avail|]; try discriminate. cbn [opt_bind] in *.
  destruct (DD.decodeLoop _ _ _) as [[[d2 f2] e2]|] eqn:E2; try discriminate. cbn [opt_bind] in HE. injection HE as -> _ ->.
  apply IH in E2. rewrite length_skipn in E2.
  replace (if len out <? len avail then len out else len avail) with (Z.min (len out) (len avail)) by (case_cmp; lia).
  rewrite <- E2. f_equal. lia.
Qed.

(** ** The page *)

(** The decoder will deliver exactly [vs]; [pad] fills up the last mini block. *)
Variable pad : list Z.

Definition pageAt (d : DeltaDecoder) (vs : list Z) : Prop :=
  dd_is32 d = is32 /\ dd_nvals d = len vs /\
  if dd_usedFirst d then streamAt d (vs ++ pad)
  else exists v rest, vs = v :: rest /\ wrapT is32 (dd_lastVal d) = v /\ streamAt d (rest ++ pad).

Lemma setUsed_stream d n vs : streamAt d vs -> streamAt (DD.setUsed d n) vs.
Proof. intros (avail & ms & ab & bs & [] & HS). exists avail, ms, ab, bs. split; [constructor; auto|exact HS]. Qed.

(** The loop, for [n] values. *)
Lemma page_loop d vs n todo :
  pageAt d vs -> (1 <= n <= List.length vs)%nat -> List.length todo = (if dd_usedFirst d then n else n - 1)%nat ->
  exists d1 filled, DD.decodeLoop (List.length todo) (DD.setUsed d (dd_nvals d)) todo = Some (d1, filled, None) /\
    (if dd_usedFirst d then [] else [wrapT is32 (dd_lastVal d)]) ++ filled = firstn n vs /\
    pageAt (DD.setUsed d1 (dd_nvals d1 - Z.of_nat n)) (skipn n vs).
Proof.
  intros (Hi & Hnv & Hp) Hn HL.
  assert (Hpre : exists ws, streamAt d (ws ++ pad) /\ (List.length todo <= List.length ws)%nat /\
    (if dd_usedFirst d then [] else [wrapT is32 (dd_lastVal d)]) ++ firstn (List.length todo) ws = firstn n vs /\
    skipn (List.length todo) ws = skipn n vs).
  { destruct (dd_usedFirst d); [exists vs; rewrite HL; splits; auto; lia|]. destruct Hp as (v & rest & -> & -> & Hst).
    exists rest. cbn [List.length] in Hn. destruct n as [|n']; [lia|]. rewrite HL. cbn [Nat.sub]. rewrite Nat.sub_0_r. splits; auto. lia. }
  destruct Hpre as (ws & Hst & HLw & Hhd & Htl). apply (setUsed_stream d (dd_nvals d)) in Hst.
  destruct (decodeLoop_ok (List.length todo) _ _ todo Hst) as (d1 & HE & Hst1 & [Hf1 _]); [rewrite length_app; lia|lia|].
  eexists d1, _. split; [exact HE|]. rewrite firstn_app in *. replace (List.length todo - List.length ws)%nat with O by lia.
  rewrite firstn_O, app_nil_r. split; [exact Hhd|]. cbn [DD.setUsed dd_nvals] in Hf1.
  assert (Hi1 : dd_is32 d1 = is32) by (destruct Hst1 as (? & ? & ? & ? & [Hi1] & _); exact Hi1).
  split; [exact Hi1|]. split; [cbn [DD.setUsed dd_nvals]; rewrite length_skipn; lia|].
  cbn [DD.setUsed dd_usedFirst]. apply setUsed_stream.
  rewrite skipn_app in Hst1. replace (List.length todo - List.length ws)%nat with O in Hst1 by lia. now rewrite Htl in Hst1.
Qed.

(** [Decode] fills the slice with the next values, as many as there are. *)
Lemma Decode_ok d vs out :
  pageAt d vs -> let n := Nat.min (List.length out) (List.length vs) in
  exists d', DD.Decode d out = Some (d', firstn n vs ++ skipn n out, Z.of_nat n, None) /\ pageAt d' (skipn n vs).
Proof.
  intros Hp n. pose proof Hp as (Hi & Hnv & _). unfold DD.Decode. rewrite Hnv.
  replace (Z.min (len out) (len vs)) with (Z.of_nat n) by lia. rewrite Nat2Z.id.
  destruct (Z.eqb_spec (Z.of_nat n) 0) as [H0|H0].
  { replace n with O by lia. exists d. cbn. auto. }
  set (todo := if dd_usedFirst d then firstn n out else skipn 1 (firstn n out)).
  destruct (page_loop d vs n todo Hp ltac:(lia)) as (d1 & filled & HE & Hhd & Hp1).
  { subst todo. destruct (dd_usedFirst d); rewrite ?length_skipn, length_firstn; lia. }
  exists (DD.setUsed d1 (dd_nvals d1 - Z.of_nat n)). split; [|exact Hp1].
  subst todo. destruct (dd_usedFirst d); cbv beta iota zeta in *; rewrite <- Hnv, ?Hi, HE; cbn [opt_bind]; now rewrite <- Hhd, app_assoc.
Qed.

(** [Discard] skips the next values. *)
Lemma deltaDiscard_ok d vs k :
  pageAt d vs -> let n := Nat.min k (List.length vs) in
  exists d', DD.Discard d (Z.of_nat k) = Some (d', Z.of_nat n, None) /\ pageAt d' (skipn n vs).
Proof.
  intros Hp n. pose proof Hp as (Hi & Hnv & _). unfold DD.Discard. rewrite Hnv.
  replace (Z.min (Z.of_nat k) (len vs)) with (Z.of_nat n) by lia.
  destruct (Z.eqb_spec (Z.of_nat n) 0) as [H0|H0].
  { replace n with O by lia. exists d. cbn. auto. }
  set (m := if dd_usedFirst d then n else (n - 1)%nat).
  destruct (page_loop d vs n (repeat 0 m) Hp ltac:(lia) (repeat_length 0 m)) as (d1 & filled & HE & Hhd & Hp1).
  exists (DD.setUsed d1 (dd_nvals d1 - Z.of_nat n)). split; [|exact Hp1].
  replace (if dd_usedFirst d then Z.of_nat n else Z.of_nat n - 1) with (Z.of_nat m) by (subst m; destruct (dd_usedFirst d); lia).
  apply discardLoop_decodeLoop in HE. rewrite repeat_length in HE. now rewrite Nat2Z.id, <- Hnv, HE.
Qed.

(** ** A page as the encoder writes it *)

Lemma SetData_ok count first body bs nvalues :
  readerAt e (BR.NewBitReader (BytesReader.new (headerBytes count first ++ body)))
    (map Some (headerBytes count first) ++ cellsOfBlocks bs) ->
  isT is32 first -> 0 <= count < 2 ^ 32 -> count <= nvalues -> blocksOk is32 bs ->
  exists d, DD.SetData is32 nvalues (headerBytes count first ++ body) = inl d /\
    dd_is32 d = is32 /\ dd_nvals d = count /\ dd_totalValues d = count /\ dd_usedFirst d = false /\ dd_lastVal d = first /\
    streamAt d (run is32 first (deltasOfBlocks bs)).
Proof.
  intros HR Hf Hc Hnv Hbs. unfold DD.SetData. set (r0 := BR.NewBitReader _) in *. unfold headerBytes in HR.
  rewrite !map_app, <- !app_assoc in HR. unfold MaxUint32.
  pose proof (geo_bounds Hg) as [Hb1 Hb2]. destruct Hg as (Hv0 & Hm0 & Hv32 & Hb128 & Hmax). unfold MaxUint32 in Hmax. set (bsz := Z.of_nat (gVals * gMinis)) in *. set (k := Z.of_nat gMinis) in *.
  assert (Hbk : bsz = Z.of_nat gVals * k) by (subst bsz k; lia). assert (Hk : 0 < k <= bsz) by nia.
  destruct (readVlq_ok r0 _ _ HR ltac:(lia)) as (r1 & -> & H1). rewrite Hb128. bool_lia (bsz =? 0). bool_lia (4294967295 <? bsz). cbn [orb negb Z.eqb].
  destruct (readVlq_ok r1 _ _ H1 ltac:(lia)) as (r2 & -> & H2). bool_lia (k =? 0). bool_lia (4294967295 <? k).
  assert (Hmod : bsz mod k = 0) by (rewrite Hbk; apply Z.mod_mul; lia). assert (Hdiv : bsz / k = Z.of_nat gVals) by (rewrite Hbk; apply Z.div_mul; lia). rewrite Hmod, Hdiv, Hv32. bool_lia (Z.of_nat gVals =? 0). cbn [orb negb Z.eqb].
  destruct (readVlq_ok r2 count _ H2 ltac:(lia)) as (r3 & -> & H3). cmp_lia. cbn [orb].
  destruct (readZigZag_ok r3 first _ H3 (isT_int64 _ _ Hf)) as (r4 & -> & H4). rewrite int32_checks by assumption.
  eexists. split; [reflexivity|]. splits; try reflexivity.
  exists [], [], O, bs. split; [|reflexivity]. constructor; cbn [dd_is32 dd_blockSize dd_miniBlocksPerBlock dd_valsPerMini dd_r dd_currentMiniBlockVals dd_currentBlockVals dd_miniBlockValues dd_miniBlockIdx dd_widths bodies flat_map map app List.length Nat.add]; auto; try lia.
  - splits; auto. unfold u32. apply Z.mod_small. lia.
  - split; [lia|]. intros []. reflexivity.
  - exists O. auto.
Qed.
End Stream.

(** ** Pages *)

(** [data] is a page of the format for the values [vs], as defined by the format alone, with the
    block sizes [g]. *)
Definition conforms (g : geometry) (is32 : bool) (data vs : list Z) : Prop :=
  exists first rest bs body pad, vs = first :: rest /\ isT is32 first /\ data = headerBytes (len vs) first ++ body /\
    bytes body /\ cellsOf body (cellsOfBlocks bs) /\ blocksOk is32 bs /\ run is32 first (deltasOfBlocks bs) = rest ++ pad.

Lemma cellsOf_prefix bs m cells : cellsOf m cells -> cellsOf (bs ++ m) (map Some bs ++ cells).
Proof.
  intros [Hc HL]. split; [|rewrite !length_app, length_map; lia]. intros i x Hi.
  destruct (Nat.lt_ge_cases i (List.length bs)).
  - rewrite nth_error_app1 in * by (rewrite ?length_map; lia). rewrite nth_error_map in Hi. destruct (nth_error bs i); cbn in Hi; congruence.
  - rewrite nth_error_app2 in * by (rewrite ?length_map; lia). rewrite length_map in Hi. now apply Hc.
Qed.

Lemma headerBytes_bytes {g : geometry} count first : 0 <= count -> isInt64 first -> bytes (headerBytes count first).
Proof.
  intros Hc Hf. pose proof (zigzag_bound first Hf). unfold headerBytes. rewrite !bytes_app.
  splits; apply Binary.PutUvarint_bytes; lia.
Qed.

(** A page that ends where its last mini block does. *)
Definition pageOf (is32 : bool) (page vs : list Z) : Prop :=
  exists first rest bs body pad, vs = first :: rest /\ isT is32 first /\ page = headerBytes (len vs) first ++ body /\
    bytes body /\ cellsOf body (cellsOfBlocks bs) /\ blocksOk is32 bs /\ run is32 first (deltasOfBlocks bs) = rest ++ pad /\
    List.length body = List.length (cellsOfBlocks bs) /\ (List.length pad < 32)%nat.

Lemma blocks_decode {g : geometry} is32 first rest bs body pad nvalues :
  let vs := first :: rest in
  geoOk g ->
  isT is32 first -> bytes body -> cellsOf body (cellsOfBlocks bs) -> blocksOk is32 bs -> run is32 first (deltasOfBlocks bs) = rest ++ pad ->
  len vs < 2 ^ 32 -> len vs <= nvalues ->
  exists d, DD.SetData is32 nvalues (headerBytes (len vs) first ++ body) = inl d /\ dd_totalValues d = len vs /\
    pageAt is32 (len (headerBytes (len vs) first) + len (cellsOfBlocks bs)) pad d vs.
Proof.
  intros vs Hg Hf Hb Hc Hbs Hrun HL Hnv. set (e := _ + _).
  assert (Hr : readerAt e (BR.NewBitReader (BytesReader.new (headerBytes (len vs) first ++ body)))
                 (map Some (headerBytes (len vs) first) ++ cellsOfBlocks bs)).
  { split; [apply NewBitReader_ok, bytes_app; split; [apply headerBytes_bytes; [lia|now apply (isT_int64 is32)]|assumption]|].
    exists 0. splits; [reflexivity|lia| |rewrite length_app, length_map; lia]. cbn [Z.to_nat skipn]. now apply cellsOf_prefix. }
  destruct (SetData_ok Hg is32 e (len vs) first body bs nvalues Hr Hf ltac:(lia) Hnv Hbs) as (d & HE & Hi & Hn & Ht & Hu & Hl & Hs).
  exists d. split; [exact HE|]. split; [exact Ht|]. split; [exact Hi|]. split; [exact Hn|]. rewrite Hu. exists first, rest.
  splits; [reflexivity|rewrite Hl; now apply wrapT_id|now rewrite <- Hrun].
Qed.

Lemma conforms_decode {g : geometry} is32 data vs nvalues :
  geoOk g -> conforms g is32 data vs -> len vs < 2 ^ 32 -> len vs <= nvalues ->
  exists d e pad, DD.SetData is32 nvalues data = inl d /\ pageAt is32 e pad d vs.
Proof.
  intros Hg (first & rest & bs & body & pad & -> & Hf & -> & Hb & Hc & Hbs & Hrun) HL Hnv.
  destruct (blocks_decode is32 first rest bs body pad nvalues Hg Hf Hb Hc Hbs Hrun HL Hnv) as (d & HE & _ & HP). eauto.
Qed.

Lemma pageOf_conforms is32 page vs : pageOf is32 page vs -> conforms stdGeo is32 page vs.
Proof. intros (first & rest & bs & body & pad & H1 & H2 & H3 & H4 & H5 & H6 & H7 & _). exists first, rest, bs, body, pad. auto 10. Qed.

(** Whatever follows the page. *)
Lemma pageOf_decode is32 page t vs nvalues :
  pageOf is32 page vs -> bytes t -> len vs < 2 ^ 32 -> len vs <= nvalues ->
  exists d pad, DD.SetData is32 nvalues (page ++ t) = inl d /\ dd_totalValues d = len vs /\ pageAt is32 (len page) pad d vs /\ (List.length pad < 32)%nat.
Proof.
  intros (first & rest & bs & body & pad & -> & Hf & -> & Hb & Hc & Hbs & Hrun & HLb & Hpad) Ht HL Hnv.
  assert (Hc' : cellsOf (body ++ t) (cellsOfBlocks bs)).
  { destruct Hc as [Hc HLc]. split; [|rewrite length_app; lia]. intros i x Hi. rewrite nth_error_app1; [now apply Hc|]. rewrite HLb. apply nth_error_Some. congruence. }
  destruct (blocks_decode is32 first rest bs (body ++ t) pad nvalues stdGeo_ok Hf (proj2 (bytes_app _ _) (conj Hb Ht)) Hc' Hbs Hrun HL Hnv) as (d & HE & Htot & HP).
  exists d, pad. rewrite <- app_assoc, length_app, Nat2Z.inj_add, HLb. auto.
Qed.

(** After the last value the decoder has read the page and nothing more. *)
Lemma page_end is32 e pad d : pageAt is32 e pad d [] -> (List.length pad < 32)%nat -> DD.bytesRead d = e.
Proof.
  intros (_ & _ & Hs) Hpad. destruct (dd_usedFirst d); [|destruct Hs as (v & rest & HE & _); discriminate].
  cbn [app] in Hs. destruct Hs as (avail & ms & ab & bs & [_ _ Hr Hbs HF _ _ _ _ _] & HC). apply (f_equal (@List.length Z)) in HC. unfold coming in HC.
  rewrite length_app, length_run, length_app, (length_minisDeltas is32) in HC by assumption. std_geo.
  destruct ms as [|m ms]; [|cbn [List.length] in HC; lia].
  assert (bs = []) as ->.
  { destruct bs as [|b bs]; [reflexivity|]. destruct Hbs as ((_ & HLb & HFb) & _). unfold deltasOfBlocks, blockDeltas in HC. cbn [flat_map] in HC.
    rewrite length_app, (length_minisDeltas is32) in HC by assumption. std_geo. lia. }
  destruct Hr as (HO & o & Hp & Ho & _ & He). cbn in He. unfold DD.bytesRead. rewrite (CurOffset_aligned _ o HO Hp). lia.
Qed.

(** The blocks of the encoder are in order and stand for the deltas. *)
Lemma encBlocks_ok is32 full p :
  fullChunks full -> (List.length p < 128)%nat -> Forall (isT is32) (List.concat full ++ p) ->
  blocksOk is32 (map encBlock (chunksOf full p)) /\
  exists pad, deltasOfBlocks (map encBlock (chunksOf full p)) = (List.concat full ++ p) ++ pad /\ (List.length pad < 32)%nat.
Proof.
  intros Hfull Hp HT. induction Hfull as [|c full Hc Hfull IH]; cbn [List.concat app] in *.
  - unfold chunksOf. destruct p as [|x p']; [cbn; split; [exact I|]; exists []; cbn; split; [reflexivity|lia]|]. set (p := x :: p') in *.
    destruct (encBlock_ok is32 p ltac:(cbn [p List.length] in *; lia) HT) as (Hok & _ & k & Hk & _ & Hk32).
    cbn [app map blocksOk]. split; [splits; auto; congruence|]. eexists. unfold deltasOfBlocks. cbn [flat_map]. rewrite app_nil_r. split; [exact Hk|]. now rewrite repeat_length.
  - rewrite <- app_assoc in HT. apply Forall_app in HT as [HTc HT]. destruct (IH HT) as (Hok & pad & Hpad & Hp32).
    destruct (encBlock_ok is32 c ltac:(lia) HTc) as (Hokc & Hn & k & Hk & Hk0 & _). rewrite Hc in Hn. rewrite (Hk0 Hc) in Hk.
    cbn [repeat] in Hk. rewrite app_nil_r in Hk. unfold chunksOf in *. cbn [app map blocksOk]. split.
    + splits; auto.
    + exists pad. split; [|exact Hp32]. unfold deltasOfBlocks in *. cbn [flat_map]. rewrite Hk, Hpad. now rewrite !app_assoc.
Qed.

Lemma putsRel_Puts is32 batches enc vs :
  putsRel is32 enc vs -> len (vs ++ List.concat batches) < 2 ^ 32 ->
  putsRel is32 (fold_left DE.Put batches enc) (vs ++ List.concat batches).
Proof.
  revert enc vs. induction batches as [|b batches IH]; intros enc vs HR HL; cbn [List.concat fold_left] in *.
  { now rewrite app_nil_r. }
  rewrite app_assoc in *. apply IH; [|exact HL]. apply putsRel_Put; [assumption|]. rewrite length_app in HL. lia.
Qed.

(** What a page of the values put so far is. *)
Lemma flush_page is32 enc fresh vs :
  putsRel is32 enc vs -> freshOk fresh -> vs <> [] -> Forall (isT is32) vs -> len vs < 2 ^ 32 ->
  exists enc' data, DE.FlushValues fresh enc = Some (enc', data) /\ ready is32 enc' /\ pageOf is32 data vs.
Proof.
  intros HP Hfr Hne HT HL. destruct vs as [|v0 rest]; [congruence|]. inversion HT as [|? ? Hv0 HT']; subst x l.
  destruct (flush_ok is32 fresh _ v0 rest HP (isT_int64 _ _ Hv0) HL Hfr)
    as (enc' & body & full & p & HE & Hr' & Hds & Hfull & Hp & Hb & Hc & HLb).
  exists enc', (headerBytes (len (v0 :: rest)) v0 ++ body). splits; auto.
  destruct (encBlocks_ok is32 full p Hfull Hp) as (Hok & pad & Hpad & Hp32); [rewrite <- Hds; apply deltasOf_isT|].
  assert (Hrun : run is32 v0 (deltasOfBlocks (map encBlock (chunksOf full p))) = rest ++ run is32 (total v0 (deltasOf is32 v0 rest)) pad)
    by (rewrite Hpad, <- Hds, run_app; f_equal; now apply run_deltasOf).
  eexists v0, rest, _, body, _. splits; try eassumption; [reflexivity|reflexivity|]. now rewrite length_run.
Qed.

Lemma encode_conforms is32 enc fresh batches vs :
  ready is32 enc -> freshOk fresh -> vs = List.concat batches -> vs <> [] -> Forall (isT is32) vs -> len vs < 2 ^ 32 ->
  exists enc' data, DE.FlushValues fresh (fold_left DE.Put batches enc) = Some (enc', data) /\
    ready is32 enc' /\ conforms stdGeo is32 data vs.
Proof.
  intros H1 H2 -> H4 H5 H6. destruct (flush_page is32 (fold_left DE.Put batches enc) fresh (List.concat batches) (putsRel_Puts is32 batches enc [] H1 H6) H2 H4 H5 H6) as (enc' & data & HE & HR & HP).
  exists enc', data. splits; auto. now apply pageOf_conforms.
Qed.

(** Decoding into one slice after another; the values each call reports are collected. *)
Fixpoint decodeAll (d : DeltaDecoder) (outs : list (list Z)) : option (list Z) :=
  match outs with
  | [] => Some []
  | out :: outs' =>
      match DD.Decode d out with
      | Some (d1, out', n, None) => option_map (app (firstn (Z.to_nat n) out')) (decodeAll d1 outs')
      | _ => None
      end
  end.

Lemma decodeAll_ok {g : geometry} (Hg : geoOk g) is32 e pad outs d vs :
  pageAt is32 e pad d vs -> decodeAll d outs = Some (firstn (List.length (List.concat outs)) vs).
Proof.
  revert d vs. induction outs as [|out outs IH]; intros d vs Hp; cbn [decodeAll List.concat]; [reflexivity|].
  destruct (Decode_ok Hg is32 e pad d vs out Hp) as (d1 & -> & Hp1). set (n := Nat.min _ _) in *. rewrite (IH _ _ Hp1). cbn [option_map].
  f_equal. rewrite Nat2Z.id, firstn_app, length_firstn, length_app, firstn_firstn.
  replace (n - Nat.min n (List.length vs))%nat with O by lia. rewrite firstn_O, app_nil_r, Nat.min_id.
  destruct (Nat.le_gt_cases (List.length out) (List.length vs)).
  - replace n with (List.length out) by lia. now rewrite <- firstn_add.
  - replace n with (List.length vs) by lia. rewrite skipn_all2, firstn_nil, app_nil_r, !firstn_all2 by lia. reflexivity.
Qed.

(** ** Claims *)

(** A new encoder over a new sink is ready. *)
Lemma New_ready is32 f initial : freshOk f -> ready is32 (DE.New is32 (PooledBufferWriter.NewPooledBufferWriter f initial)).
Proof.
  intros [H1 H2]. split; [reflexivity|]. split; [reflexivity|]. split; [reflexivity|].
  cbn [DE.sinkOf DE.New de_bw de_sink]. unfold PooledBufferWriter.NewPooledBufferWriter. set (s0 := PooledBufferWriter.mk f 0 0).
  assert (H0 : pooledOk s0) by (red; cbn; splits; auto; lia).
  split; [|reflexivity]. now destruct (grow_ok s0 (PooledBufferWriter.Reserve s0 initial) (Reserve_extends _ _) eq_refl eq_refl H0).
Qed.

(** [Put] of any batches followed by [FlushValues], for a page of at least one value: the
    bytes returned are a page of the format for exactly the values put, and the encoder is
    ready for the next page. *)
Theorem delta_encode_conforms is32 enc fresh batches :
  ready is32 enc -> freshOk fresh -> List.concat batches <> [] -> Forall (isT is32) (List.concat batches) ->
  len (List.concat batches) < 2 ^ 32 ->
  exists enc' data, DE.FlushValues fresh (fold_left DE.Put batches enc) = Some (enc', data) /\
    ready is32 enc' /\ conforms stdGeo is32 data (List.concat batches).
Proof. intros. now apply encode_conforms. Qed.

(** C10: from any page of the format, whatever wrote it and whatever sizes of blocks and mini
    blocks its header announces (mini blocks of a multiple of 32 values, blocks of a multiple of
    128, less than 2^32), [SetData] and any sequence of [Decode] calls, each into a slice of any
    length, deliver the page's values in order; once they are used up further calls deliver
    nothing. *)
Theorem delta_decode_conforming g is32 data vs nvalues outs :
  geoOk g -> conforms g is32 data vs -> len vs < 2 ^ 32 -> len vs <= nvalues ->
  exists d, DD.SetData is32 nvalues data = inl d /\
    decodeAll d outs = Some (firstn (List.length (List.concat outs)) vs).
Proof.
  intros Hg Hc HL Hnv. destruct (conforms_decode is32 data vs nvalues Hg Hc HL Hnv) as (d & e & pad & HE & Hp).
  exists d. split; [exact HE|]. now apply (decodeAll_ok Hg is32 e pad).
Qed.

(** C3: int32 and int64 values put into the delta encoder, in any batches, come back from the
    decoder, with differences that overflow the type included; and the encoder can be used
    for the next page. *)
Theorem delta_roundtrip is32 enc fresh batches nvalues outs :
  ready is32 enc -> freshOk fresh -> List.concat batches <> [] -> Forall (isT is32) (List.concat batches) ->
  len (List.concat batches) < 2 ^ 32 -> len (List.concat batches) <= nvalues ->
  List.length (List.concat outs) = List.length (List.concat batches) ->
  exists enc' data d, DE.FlushValues fresh (fold_left DE.Put batches enc) = Some (enc', data) /\ ready is32 enc' /\
    DD.SetData is32 nvalues data = inl d /\ decodeAll d outs = Some (List.concat batches).
Proof.
  intros Hr Hf Hne HT HL Hnv Ho.
  destruct (encode_conforms is32 enc fresh batches _ Hr Hf eq_refl Hne HT HL) as (enc' & data & HE & Hr' & Hc).
  destruct (conforms_decode is32 data _ nvalues stdGeo_ok Hc HL Hnv) as (d & e & pad & HS & Hp).
  exists enc', data, d. splits; auto. rewrite (decodeAll_ok stdGeo_ok is32 e pad outs d _ Hp), firstn_all2 by lia. reflexivity.
Qed.

(** [Discard(k)] on a page of the format skips [k] values, or all that are left, and a
    [Decode] after it starts with the value after them. *)
Theorem delta_discard_correct g is32 data vs nvalues k out :
  geoOk g -> conforms g is32 data vs -> len vs < 2 ^ 32 -> len vs <= nvalues -> (k + List.length out <= List.length vs)%nat ->
  exists d d1 d2, DD.SetData is32 nvalues data = inl d /\ DD.Discard d (Z.of_nat k) = Some (d1, Z.of_nat k, None) /\
    DD.Decode d1 out = Some (d2, firstn (List.length out) (skipn k vs), len out, None).
Proof.
  intros Hg Hc HL Hnv Hk. destruct (conforms_decode is32 data vs nvalues Hg Hc HL Hnv) as (d & e & pad & HE & Hp).
  destruct (deltaDiscard_ok Hg is32 e pad d vs k Hp) as (d1 & HD & Hp1). rewrite Nat.min_l in HD, Hp1 by lia.
  destruct (Decode_ok Hg is32 e pad d1 _ out Hp1) as (d2 & HDe & _). rewrite length_skipn, Nat.min_l in HDe by lia.
  exists d, d1, d2. splits; auto. rewrite HDe, skipn_all, app_nil_r. reflexivity.
Qed.

(** An encoder and values for the witnesses: deltas that overflow 32 bits and 161 values, so
    a complete block and a part of one. *)
Definition exEnc : DeltaEncoder := DE.New true (PooledBufferWriter.NewPooledBufferWriter Buffer.NewResizableBuffer 1024).
Definition exBatches : list (list Z) :=
  [[MinInt32; MaxInt32; -1]; []; map (fun i => Z.of_nat i * 7919 - 3) (seq 0 158)].

Lemma exBatches_ok : Forall (isT true) (List.concat exBatches).
Proof.
  apply Forall_forall. intros x Hx.
  assert (Hb : forallb (fun x => (MinInt32 <=? x) && (x <=? MaxInt32)) (List.concat exBatches) = true) by (vm_compute; reflexivity).
  rewrite forallb_forall in Hb. specialize (Hb x Hx). apply andb_prop in Hb as [H1 H2]. apply Z.leb_le in H1, H2. split; assumption.
Qed.

Lemma freshOk_new : freshOk Buffer.NewResizableBuffer.
Proof. split; constructor. Qed.

Lemma delta_roundtrip_witness :
  exists enc' data d, DE.FlushValues Buffer.NewResizableBuffer (fold_left DE.Put exBatches exEnc) = Some (enc', data) /\
    ready true enc' /\ DD.SetData true 200 data = inl d /\
    decodeAll d [repeat 0 100; repeat 0 61] = Some (List.concat exBatches).
Proof.
  apply (delta_roundtrip true exEnc Buffer.NewResizableBuffer exBatches 200 [repeat 0 100; repeat 0 61]);
    [apply New_ready, freshOk_new|apply freshOk_new|discriminate|apply exBatches_ok|reflexivity|vm_compute; discriminate|reflexivity].
Defined.

(** A page with four mini blocks of 64 values to a block, of one block with one mini block of
    width 3. *)
Definition exGeo : geometry := mkGeo 64 4.
Definition exMini : mini := mkMini 3 (repeat 5 64).
Definition exBlock : block := mkBlock 2 [exMini].
Definition exBody : list Z := Binary.PutUvarint (BW.zigzag 2) ++ [3; 9; 9; 9] ++ miniBody exMini.
Definition exPage : list Z := @headerBytes exGeo 50 100 ++ exBody.
Definition exVals : list Z := 100 :: firstn 49 (run true 100 (blockDeltas exBlock)).

Lemma exGeo_ok : geoOk exGeo.
Proof. unfold geoOk, exGeo, MaxUint32. cbn. splits; lia. Qed.

Lemma exPage_conforms : conforms exGeo true exPage exVals.
Proof.
  exists 100, (firstn 49 (run true 100 (blockDeltas exBlock))), [exBlock], exBody, (skipn 49 (run true 100 (blockDeltas exBlock))).
  splits; [reflexivity|vm_compute; intuition discriminate|reflexivity| | | |].
  - vm_compute. repeat constructor; discriminate || reflexivity.
  - split; [|vm_compute; lia]. intros i x. change (nth_error (@cellsOfBlocks exGeo [exBlock]) i = Some (Some x) ->
      nth_error ((4 :: 3 :: [9; 9; 9]) ++ miniBody exMini) i = Some x).
    change (@cellsOfBlocks exGeo [exBlock]) with ([Some 4; Some 3; None; None; None] ++ map Some (miniBody exMini)).
    do 5 (destruct i as [|i]; [cbn; congruence|]). cbn [app nth_error]. rewrite nth_error_map.
    destruct (nth_error (miniBody exMini) i); cbn; congruence.
  - cbn [blocksOk]. splits; auto; [|congruence]. split; [vm_compute; intuition discriminate|]. split; [cbn; lia|].
    repeat constructor; try (vm_compute; intuition discriminate).
  - unfold deltasOfBlocks. cbn [flat_map]. now rewrite app_nil_r, firstn_skipn.
Qed.

Lemma delta_decode_witness :
  exists d, DD.SetData true 50 exPage = inl d /\
    decodeAll d [repeat 0 7; []; repeat 0 90] = Some (firstn (List.length (List.concat [repeat 0 7; []; repeat 0 90])) exVals).
Proof.
  apply (delta_decode_conforming exGeo true exPage exVals 50 [repeat 0 7; []; repeat 0 90]);
    [exact exGeo_ok|apply exPage_conforms|reflexivity|vm_compute; discriminate].
Defined.
