(* ===== verification/DeltaSafety.v ===== *)
(** * The delta decoder on arbitrary input

    A page may come from anywhere.  Whatever the bytes, a decoder that [SetData] has accepted
    neither panics nor runs on: [safeAt] is its invariant, kept by every call that does not
    return an error. *)

From Stdlib Require Import ZArith List Lia Bool String Relation_Operators.
From S2P Require Import Prelude GoStd BitUtil BitWriter BitReader Memory Codec DeltaBitPack DeltaFormat DeltaEncode DeltaDecode.
Import ListNotations.
#[local] Open Scope Z_scope.
#[local] Open Scope go_scope.

(** ** The reader *)

Definition rdOk (r : BitReader) : Prop := brOk r /\ br_pos r <= 8 * len (br_data r).

Lemma rdOk_CurOffset r : rdOk r -> BR.CurOffset r <= len (br_data r).
Proof.
  intros [HO Hp]. unfold BR.CurOffset, br_pos in *. pose proof (ok_bit _ HO). rewrite BytesForBits_div by lia. zdiv.
Qed.

Lemma ReadByte_rd r r' x : rdOk r -> Binary.ReadByte r = (r', inl x) -> rdOk r' /\ is_byte x.
Proof.
  intros Hr HE. pose proof Hr as [HO Hp]. destruct (Z.lt_ge_cases (BR.CurOffset r) (len (br_data r))) as [Hlt|Hge].
  - destruct (ReadByte_ok r HO Hlt) as (r1 & HE1 & [(HO1 & HD1 & HP1) _]). rewrite HE1 in HE. injection HE as <- <-.
    split; [split; [assumption|rewrite HD1, HP1; lia]|].
    pose proof (ok_bytes _ HO) as Hb. unfold bytes in Hb. rewrite Forall_forall in Hb. apply Hb, nth_In. pose proof (CurOffset_nonneg r HO). lia.
  - destruct (ReadByte_eof r HO ltac:(lia)) as (r1 & HE1). congruence.
Qed.

Lemma readUvarint_rd n x s r r' v :
  rdOk r -> 0 <= x -> Binary.readUvarint n x s r = (r', inl v) -> rdOk r' /\ 0 <= v.
Proof.
  revert x s r. induction n as [|n IH]; intros x s r Hr Hx HE; cbn [Binary.readUvarint] in HE; [discriminate|].
  destruct (Binary.ReadByte r) as [r1 [b|e]] eqn:E1; [|discriminate]. destruct (ReadByte_rd _ _ _ Hr E1) as [Hr1 _].
  assert (Hlor : forall y, 0 <= Z.lor x (u64 y)) by (intros; apply Z.lor_nonneg; split; [assumption|apply Z.mod_pos_bound; lia]).
  destruct (b <? 128).
  - destruct ((n =? 0)%nat && (1 <? b)); [discriminate|]. injection HE as <- <-. auto.
  - apply IH in HE; auto.
Qed.

Lemma GetVlqInt_rd r r' v : rdOk r -> BR.GetVlqInt r = (r', Some v) -> rdOk r' /\ 0 <= v.
Proof.
  intros Hr HE. unfold BR.GetVlqInt, Binary.ReadUvarint in HE.
  destruct (Binary.readUvarint Binary.MaxVarintLen64 0 0 r) as [r1 [x|e]] eqn:E; [|discriminate]. injection HE as <- <-.
  now apply (readUvarint_rd _ _ _ _ _ _ Hr) in E.
Qed.

Lemma GetZigZag_rd r r' v : rdOk r -> BR.GetZigZagVlqInt r = (r', Some v) -> rdOk r'.
Proof.
  intros Hr HE. unfold BR.GetZigZagVlqInt in HE. destruct (BR.GetVlqInt r) as [r1 [x|]] eqn:E; [|discriminate].
  injection HE as <- <-. now apply (GetVlqInt_rd _ _ _ Hr) in E.
Qed.

Lemma readWidths_rd n r r' ws :
  rdOk r -> DD.readWidths r n = (r', inl ws) -> rdOk r' /\ bytes ws /\ List.length ws = n.
Proof.
  revert r ws. induction n as [|n IH]; intros r ws Hr HE; cbn [DD.readWidths] in HE.
  { injection HE as <- <-. splits; auto. constructor. }
  destruct (Binary.ReadByte r) as [r1 [x|e]] eqn:E1; [|discriminate]. destruct (ReadByte_rd _ _ _ Hr E1) as [Hr1 Hx].
  destruct (DD.readWidths r1 n) as [r2 [xs|e]] eqn:E2; [|discriminate]. injection HE as <- <-.
  destruct (IH _ _ Hr1 E2) as (H1 & H2 & H3). splits; auto; [constructor; auto|cbn; lia].
Qed.

(** A mini block of any size, read in batches. *)
Lemma unpackBatches_rd is32 w md fuel r n last :
  rdOk r -> 0 <= w <= 64 -> 0 <= n -> (Z.to_nat n <= fuel)%nat ->
  exists r' last' vs e, DD.unpackBatches fuel is32 r w n last md = (r', last', vs, e) /\
    (e = None -> rdOk r' /\ len vs = n).
Proof.
  revert r n last. induction fuel as [|fuel IH]; intros r n last Hr Hw Hn Hf; cbn [DD.unpackBatches].
  { eexists _, _, _, _. split; [reflexivity|]. intros _. cbn. split; [assumption|lia]. }
  destruct (Z.ltb_spec 0 n) as [Hpos|Hz].
  2:{ eexists _, _, _, _. split; [reflexivity|]. intros _. cbn. split; [assumption|lia]. }
  set (bs := Z.min n DD.deltaBitPackScratchSize). assert (Hbs : 0 < bs <= n) by (subst bs; unfold DD.deltaBitPackScratchSize; lia).
  destruct Hr as [HO Hp].
  destruct (GetBatch_full r w (repeat 0 (Z.to_nat bs)) HO Hw Hp) as (r1 & out & k & e & -> & HL & Hk & _ & Hc).
  rewrite repeat_length in *. destruct Hc as [(-> & -> & Hle & HM)|(He & Hlt & _)].
  - bool_lia (Z.of_nat (Z.to_nat bs) =? bs). cbn [negb].
    assert (Hr1 : rdOk r1) by (destruct HM as (? & HD & HP); split; [assumption|now rewrite HD, HP]).
    rewrite Nat2Z.id, firstn_all2 by lia. rewrite addDeltas_run.
    destruct (IH r1 (n - bs) (total last (map (effDelta md) out)) Hr1 Hw) as (r2 & last2 & vs & e & -> & Hres); [lia|lia|].
    eexists _, _, _, _. split; [reflexivity|]. intros He. destruct (Hres He) as [Hr2 HL2]. split; [assumption|].
    rewrite length_app, length_run, length_map, HL. lia.
  - bool_lia (Z.of_nat k =? bs). cbn [negb]. eexists _, _, _, _. split; [reflexivity|]. destruct He as [-> | ->]; discriminate.
Qed.

(** ** The decoder *)

Record safeAt (d : DeltaDecoder) : Prop := mkSafe {
  sf_reader : rdOk (dd_r d);
  sf_nvals : 0 <= dd_nvals d;
  sf_params : 0 < dd_valsPerMini d /\ 0 < dd_miniBlocksPerBlock d /\ dd_blockSize d < 2 ^ 32 /\
    dd_blockSize d = dd_valsPerMini d * dd_miniBlocksPerBlock d;
  sf_mini : 0 <= dd_currentMiniBlockVals d <= dd_valsPerMini d;
  sf_values : 0 < dd_currentMiniBlockVals d -> len (dd_miniBlockValues d) = dd_valsPerMini d;
  sf_block : dd_currentBlockVals d = 0 /\ dd_currentMiniBlockVals d = 0 \/
    bytes (dd_widths d) /\ len (dd_widths d) = dd_miniBlocksPerBlock d /\
    0 <= dd_miniBlockIdx d <= dd_miniBlocksPerBlock d /\ 0 < dd_currentBlockVals d <= dd_blockSize d /\
    dd_currentBlockVals d = dd_currentMiniBlockVals d + dd_valsPerMini d * (dd_miniBlocksPerBlock d - dd_miniBlockIdx d)
}.

Lemma initBlock_safe d :
  safeAt d -> dd_currentBlockVals d = 0 ->
  exists d' e, DD.initBlock d = (d', e) /\
    (e = None -> safeAt d' /\ frame d d' /\ 0 < dd_currentBlockVals d' /\ dd_currentMiniBlockVals d' = 0).
Proof.
  intros [Hr Hnv Hp Hm Hv Hb] H0. unfold DD.initBlock.
  destruct (BR.GetZigZagVlqInt (dd_r d)) as [r1 [md|]] eqn:E1; [|eexists _, _; split; [reflexivity|discriminate]].
  apply (GetZigZag_rd _ _ _ Hr) in E1. destruct (_ && _); [eexists _, _; split; [reflexivity|discriminate]|].
  destruct (DD.readWidths r1 _) as [r2 [ws|e]] eqn:E2; [|eexists _, _; split; [reflexivity|discriminate]].
  apply (readWidths_rd _ _ _ _ E1) in E2 as (Hr2 & Hws & HLw). eexists _, _. split; [reflexivity|]. intros _.
  destruct Hp as (H1 & H2 & H3 & H4). assert (Hc0 : dd_currentMiniBlockVals d = 0) by lia.
  assert (Hbs : u32 (dd_blockSize d) = dd_blockSize d) by (unfold u32; rewrite Z.mod_small; nia).
  splits; cbn [dd_currentBlockVals dd_currentMiniBlockVals]; [|split; reflexivity|rewrite Hbs; nia|assumption].
  constructor; cbn [dd_r dd_nvals dd_valsPerMini dd_miniBlocksPerBlock dd_blockSize dd_currentMiniBlockVals dd_miniBlockValues dd_currentBlockVals dd_widths dd_miniBlockIdx]; auto.
  right. rewrite Hbs, HLw, Hc0. splits; auto; try lia; nia.
Qed.

Lemma unpackNextMini_safe d :
  safeAt d -> 0 < dd_currentBlockVals d -> dd_currentMiniBlockVals d = 0 ->
  exists d' e, DD.unpackNextMini d = Some (d', e) /\
    (e = None -> safeAt d' /\ frame d d' /\ 0 < dd_currentMiniBlockVals d').
Proof.
  intros [Hr Hnv Hp Hm Hv Hb] HB H0. destruct Hb as [[? _]|(Hws & HLw & Hi & _ & Heq)]; [lia|].
  pose proof Hp as (Hp1 & Hp2 & Hp3 & Hp4). unfold DD.unpackNextMini. rewrite (index_ok _ _ 0) by nia. cbn [opt_bind].
  set (w := nth _ _ 0).
  assert (Hw : 0 <= w < 256).
  { unfold bytes in Hws. rewrite Forall_forall in Hws. apply Hws, nth_In. nia. }
  destruct (Z.ltb_spec (if dd_is32 d then 32 else 64) w) as [Hbig|Hok]; [eexists _, _; split; [reflexivity|discriminate]|].
  assert (Hstep : exists r1 last1 vs e, (if w =? 0
      then let '(lastVal, vs) := DD.addDeltas (dd_is32 d) (dd_lastVal d) (dd_minDelta d) (repeat 0 (Z.to_nat (dd_valsPerMini d))) in (dd_r d, lastVal, vs, None)
      else DD.unpackBatches (Z.to_nat (dd_valsPerMini d)) (dd_is32 d) (dd_r d) w (dd_valsPerMini d) (dd_lastVal d) (dd_minDelta d))
      = (r1, last1, vs, e) /\ (e = None -> rdOk r1 /\ len vs = dd_valsPerMini d)).
  { destruct (w =? 0).
    - rewrite addDeltas_run. eexists _, _, _, _. split; [reflexivity|]. intros _. split; [assumption|].
      rewrite length_run, length_map, repeat_length. lia.
    - apply unpackBatches_rd; auto; destruct (dd_is32 d); lia. }
  destruct Hstep as (r1 & last1 & vs & e & -> & Hres). eexists _, e. split; [reflexivity|]. intros ->.
  destruct (Hres eq_refl) as [Hr1 HL]. splits; [|split; reflexivity|exact Hp1].
  constructor; cbn [dd_r dd_nvals dd_valsPerMini dd_miniBlocksPerBlock dd_blockSize dd_currentMiniBlockVals dd_miniBlockValues dd_currentBlockVals dd_widths dd_miniBlockIdx]; auto; [lia|].
  right. splits; auto; try nia.
Qed.

Lemma advance_safe d :
  safeAt d -> exists d' e, DD.advance d = Some (d', e) /\ (e = None -> safeAt d' /\ frame d d' /\ 0 < dd_currentMiniBlockVals d').
Proof.
  intros Hs. unfold DD.advance.
  assert (Hgo : forall d, safeAt d -> 0 < dd_currentBlockVals d ->
    exists d' e, (if dd_currentMiniBlockVals d =? 0 then DD.unpackNextMini d else Some (d, None)) = Some (d', e) /\
      (e = None -> safeAt d' /\ frame d d' /\ 0 < dd_currentMiniBlockVals d')).
  { clear. intros d Hs HB. destruct (Z.eqb_spec (dd_currentMiniBlockVals d) 0); [now apply unpackNextMini_safe|].
    eexists _, _. split; [reflexivity|]. intros _. pose proof (sf_mini _ Hs). splits; auto; [split; reflexivity|lia]. }
  destruct (Z.eqb_spec (dd_currentBlockVals d) 0) as [H0|H0].
  - destruct (initBlock_safe d Hs H0) as (d1 & [e|] & -> & H1); [eexists _, _; split; [reflexivity|discriminate]|].
    destruct (H1 eq_refl) as (Hs1 & Hf1 & HB1 & _). destruct (Hgo d1 Hs1 HB1) as (d' & e & -> & H2). exists d', e. split; [reflexivity|].
    intros He. destruct (H2 He) as (Hs' & Hf' & Hc'). splits; auto. eapply frame_trans; eauto.
  - apply Hgo; [assumption|]. destruct (sf_block _ Hs) as [[? _]|(_ & _ & _ & ? & _)]; lia.
Qed.

Lemma available_safe d :
  safeAt d -> 0 < dd_currentMiniBlockVals d -> exists avail, DD.available d = Some avail /\ len avail = dd_currentMiniBlockVals d.
Proof.
  intros [_ _ (H1 & H2 & H3 & H4) Hm Hv _] Hc. unfold DD.available. pose proof (Hv Hc) as HL.
  assert (dd_valsPerMini d <= dd_blockSize d) by nia. unfold u32. rewrite Z.mod_small by lia.
  rewrite slice_ok by lia. eexists. split; [reflexivity|]. rewrite length_firstn, length_skipn. lia.
Qed.

Lemma consume_safe d k :
  safeAt d -> 0 < dd_currentMiniBlockVals d -> 0 <= k <= dd_currentMiniBlockVals d -> safeAt (DD.consume d k) /\ frame d (DD.consume d k).
Proof.
  intros [Hr Hnv (H1 & H2 & H3 & H4) Hm Hv Hb] Hc Hk. destruct Hb as [[_ ?]|(Hws & HLw & Hi & HB & Heq)]; [lia|].
  split; [|split; reflexivity]. assert (dd_valsPerMini d <= dd_blockSize d) by nia.
  assert (HuB : u32 (dd_currentBlockVals d - k) = dd_currentBlockVals d - k) by (unfold u32; rewrite Z.mod_small; [reflexivity|nia]).
  assert (HuC : u32 (dd_currentMiniBlockVals d - k) = dd_currentMiniBlockVals d - k) by (unfold u32; rewrite Z.mod_small; lia).
  constructor; cbn [DD.consume dd_r dd_nvals dd_valsPerMini dd_miniBlocksPerBlock dd_blockSize dd_currentMiniBlockVals dd_miniBlockValues dd_currentBlockVals dd_widths dd_miniBlockIdx]; auto; rewrite ?HuB, ?HuC; [lia|].
  destruct (Z.eq_dec (dd_currentBlockVals d - k) 0); [left; nia|right; splits; auto; nia].
Qed.

Lemma decodeLoop_safe fuel d out :
  safeAt d -> (List.length out <= fuel)%nat ->
  exists d' filled e, DD.decodeLoop fuel d out = Some (d', filled, e) /\ List.length filled = List.length out /\
    (e = None -> safeAt d' /\ frame d d').
Proof.
  revert d out. induction fuel as [|fuel IH]; intros d out Hs HL.
  { destruct out; [|cbn in HL; lia]. eexists _, _, _. split; [reflexivity|]. splits; auto. intros _. split; [assumption|split; reflexivity]. }
  destruct out as [|x out']; [eexists _, _, _; split; [reflexivity|]; splits; auto; intros _; split; [assumption|split; reflexivity]|].
  set (out := x :: out') in *. assert (Hout : (1 <= List.length out)%nat) by (cbn; lia).
  cbn [DD.decodeLoop]. unfold out at 1. destruct (advance_safe d Hs) as (d1 & e1 & -> & H1). cbn [opt_bind].
  destruct e1 as [e|]; [eexists _, _, _; split; [reflexivity|]; split; [reflexivity|discriminate]|].
  destruct (H1 eq_refl) as (Hs1 & Hf1 & Hc1). destruct (available_safe d1 Hs1 Hc1) as (avail & -> & HLa). cbn [opt_bind].
  set (k := Z.min (len out) (len avail)). destruct (consume_safe d1 k Hs1 Hc1 ltac:(lia)) as [Hs2 Hf2].
  destruct (IH _ (skipn (Z.to_nat k) out) Hs2) as (d' & filled & e & -> & HLf & H2); [rewrite length_skipn; lia|]. cbn [opt_bind].
  eexists _, _, _. split; [reflexivity|]. split.
  - rewrite length_app, length_firstn, HLf, length_skipn. lia.
  - intros He. destruct (H2 He) as [Hs' Hf']. split; [assumption|]. exact (frame_trans _ _ _ Hf1 (frame_trans _ _ _ Hf2 Hf')).
Qed.

Lemma setUsed_safe d n : safeAt d -> 0 <= n -> safeAt (DD.setUsed d n).
Proof. intros [] Hn. constructor; auto. Qed.

Lemma Decode_safe d out :
  safeAt d ->
  exists d' out' n e, DD.Decode d out = Some (d', out', n, e) /\ List.length out' = List.length out /\
    (e = None -> safeAt d' /\ n = Z.min (len out) (dd_nvals d) /\ dd_nvals d' = dd_nvals d - n) /\ (e <> None -> n = 0).
Proof.
  intros Hs. pose proof (sf_nvals _ Hs) as Hnv. unfold DD.Decode. set (m := Z.min (len out) (dd_nvals d)).
  destruct (Z.eqb_spec m 0) as [H0|H0].
  { eexists _, _, _, _. split; [reflexivity|]. rewrite H0, Z.sub_0_r. splits; auto. }
  set (head := if dd_usedFirst d then [] else [wrapT (dd_is32 d) (dd_lastVal d)]).
  set (todo := if dd_usedFirst d then firstn (Z.to_nat m) out else skipn 1 (firstn (Z.to_nat m) out)).
  replace (if dd_usedFirst d then ([], firstn (Z.to_nat m) out) else ([wrapT (dd_is32 d) (dd_lastVal d)], skipn 1 (firstn (Z.to_nat m) out)))
    with (head, todo) by (subst head todo; now destruct (dd_usedFirst d)).
  assert (HLt : (List.length head + List.length todo = Z.to_nat m)%nat).
  { subst head todo. destruct (dd_usedFirst d); rewrite ?length_skipn, length_firstn; cbn [List.length]; lia. }
  destruct (decodeLoop_safe (List.length todo) (DD.setUsed d (dd_nvals d)) todo (setUsed_safe _ _ Hs Hnv) ltac:(lia))
    as (d1 & filled & e & -> & HLf & Hres). cbn [opt_bind].
  assert (HLo : List.length (head ++ filled ++ skipn (Z.to_nat m) out) = List.length out) by (rewrite !length_app, length_skipn; lia).
  destruct e as [e|]; eexists _, _, _, _; (split; [reflexivity|]); (split; [exact HLo|]).
  - split; [discriminate|auto].
  - split; [|congruence]. intros _. destruct (Hres eq_refl) as [Hs1 [Hf1 _]]. cbn in Hf1. rewrite Hf1.
    splits; auto. apply setUsed_safe; [assumption|lia].
Qed.

Lemma SetData_safe is32 nvalues data d :
  bytes data -> DD.SetData is32 nvalues data = inl d -> safeAt d /\ dd_nvals d <= nvalues.
Proof.
  intros Hb HE. unfold DD.SetData in HE. set (r0 := BR.NewBitReader _) in HE.
  assert (Hr0 : rdOk r0) by (split; [now apply NewBitReader_ok|change (0 <= 8 * len data); lia]).
  destruct (BR.GetVlqInt r0) as [r1 [bs|]] eqn:E1; [|discriminate]. apply (GetVlqInt_rd _ _ _ Hr0) in E1 as [Hr1 Hbs].
  destruct (Z.eqb_spec bs 0); [discriminate|]. destruct (Z.ltb_spec MaxUint32 bs); [discriminate|]. cbn [orb] in HE.
  destruct (bs mod 128 =? 0); [|discriminate]. cbn [negb] in HE.
  destruct (BR.GetVlqInt r1) as [r2 [mpb|]] eqn:E2; [|discriminate]. apply (GetVlqInt_rd _ _ _ Hr1) in E2 as [Hr2 Hmpb].
  destruct (Z.eqb_spec mpb 0); [discriminate|]. destruct (MaxUint32 <? mpb); [discriminate|].
  destruct (Z.eqb_spec (bs mod mpb) 0) as [Hdiv|]; [|discriminate]. cbn [negb] in HE.
  destruct (Z.eqb_spec (bs / mpb) 0) as [|Hvpm]; [discriminate|]. cbn [orb] in HE.
  destruct ((bs / mpb) mod 32 =? 0); [|discriminate]. cbn [negb] in HE.
  destruct (BR.GetVlqInt r2) as [r3 [tot|]] eqn:E3; [|discriminate]. apply (GetVlqInt_rd _ _ _ Hr2) in E3 as [Hr3 Htot].
  destruct (MaxUint32 <? tot); [discriminate|]. cbn [orb] in HE. destruct (nvalues <? 0); [discriminate|]. cbn [orb] in HE.
  destruct (Z.ltb_spec nvalues tot); [discriminate|].
  destruct (BR.GetZigZagVlqInt r3) as [r4 [lv|]] eqn:E4; [|discriminate]. apply (GetZigZag_rd _ _ _ Hr3) in E4.
  destruct (is32 && _); [discriminate|]. injection HE as <-. split; [|exact H0].
  assert (Hq : bs = (bs / mpb) * mpb) by (pose proof (Z.div_mod bs mpb); lia).
  assert (0 <= bs / mpb) by (apply Z.div_pos; lia). unfold MaxUint32 in *.
  assert (Hu : u32 (bs / mpb) = bs / mpb) by (unfold u32; rewrite Z.mod_small; nia).
  constructor; cbn [dd_r dd_nvals dd_valsPerMini dd_miniBlocksPerBlock dd_blockSize dd_currentMiniBlockVals dd_miniBlockValues dd_currentBlockVals dd_widths dd_miniBlockIdx]; rewrite ?Hu; auto; try lia.
Qed.

(** ** Claims *)

(** Any number of [Decode] calls; the first error ends it. *)
Fixpoint decodeUntil (d : DeltaDecoder) (outs : list (list Z)) : option (Z * option goerr) :=
  match outs with
  | [] => Some (0, None)
  | out :: outs' =>
      r <- DD.Decode d out ;;
      let '(d1, _, n, e) := r in
      match e with
      | Some e => Some (n, Some e)
      | None => r <- decodeUntil d1 outs' ;; let '(m, e) := r in Some (n + m, e)
      end
  end.

Lemma decodeUntil_safe outs d :
  safeAt d -> exists n e, decodeUntil d outs = Some (n, e) /\ 0 <= n <= dd_nvals d.
Proof.
  revert d. induction outs as [|out outs IH]; intros d Hs; cbn [decodeUntil].
  { pose proof (sf_nvals _ Hs). eexists _, _. split; [reflexivity|lia]. }
  pose proof (sf_nvals _ Hs). destruct (Decode_safe d out Hs) as (d1 & out' & n & [e|] & -> & _ & Hok & Herr); cbn [opt_bind].
  - rewrite Herr by discriminate. eexists _, _. split; [reflexivity|lia].
  - destruct (Hok eq_refl) as (Hs1 & Hn & Hnv). destruct (IH d1 Hs1) as (m & e & -> & Hm). cbn [opt_bind].
    eexists _, _. split; [reflexivity|]. lia.
Qed.

(** C11: whatever the bytes and the announced number of values, [SetData] returns an error or a
    decoder with which any sequence of [Decode] calls, up to the first error, neither panics
    nor fails to return, and delivers no more values than were announced. *)
Theorem delta_decode_safe is32 nvalues data outs :
  bytes data ->
  match DD.SetData is32 nvalues data with
  | inr _ => True
  | inl d => exists n e, decodeUntil d outs = Some (n, e) /\ 0 <= n <= nvalues
  end.
Proof.
  intros Hb. destruct (DD.SetData is32 nvalues data) as [d|e] eqn:E; [|exact I].
  destruct (SetData_safe is32 nvalues data d Hb E) as [Hs Hnv].
  destruct (decodeUntil_safe outs d Hs) as (n & e & HE & Hn). exists n, e. split; [exact HE|lia].
Qed.

(** A page that ends within its first mini block. *)
Definition truncated : list Z := headerBytes 20 100 ++ [0; 8; 0; 0; 0] ++ [1; 2; 3].

Lemma delta_decode_safe_witness :
  match DD.SetData true 20 truncated with
  | inr _ => True
  | inl d => exists n e, decodeUntil d [repeat 0 5; repeat 0 40] = Some (n, e) /\ 0 <= n <= 20
  end.
Proof. apply (delta_decode_safe true 20 truncated [repeat 0 5; repeat 0 40]). vm_compute. repeat constructor; discriminate || reflexivity. Defined.

(** ** Going on after a truncated mini block *)

(** One iteration of the loop of [Decode]: the decoder and what is left of the slice, or the error
    that ends the loop; [None] is a panic. *)
Definition iteration (d : DeltaDecoder) (out : list Z) : option (DeltaDecoder * list Z + goerr) :=
  r <- DD.advance d ;;
  match r with
  | (_, Some e) => Some (inr e)
  | (d1, None) => avail <- DD.available d1 ;; let n := Z.min (len out) (len avail) in Some (inl (DD.consume d1 n, skipn (Z.to_nat n) out))
  end.

(** The loop as a transition relation: it goes on as long as there is something to fill. *)
Inductive loopStep : DeltaDecoder * list Z -> DeltaDecoder * list Z -> Prop :=
| loop_step d out s : out <> [] -> iteration d out = Some (inl s) -> loopStep (d, out) s.

(** From every state that can be reached the loop goes on, so it neither ends nor panics. *)
Definition endless (s : DeltaDecoder * list Z) : Prop := forall s', clos_refl_trans_1n _ loopStep s s' -> exists s'', loopStep s' s''.

Lemma loop_cycle d out : out <> [] -> iteration d out = Some (inl (d, out)) -> endless (d, out).
Proof.
  intros Hne HI. assert (Hs : loopStep (d, out) (d, out)) by now constructor. intros s' Hr. exists (d, out). enough (s' = (d, out)) as -> by exact Hs.
  remember (d, out) as s eqn:E. induction Hr as [|s1 s2 s3 H1 _ IH]; [reflexivity|]. subst s1. inversion H1 as [d0 out0 s0 _ H2]; subst. rewrite HI in H2. injection H2 as <-. auto.
Qed.

(** The mini block is marked as full and has no values. *)
Definition emptied (d : DeltaDecoder) : Prop :=
  0 < dd_currentBlockVals d < 2 ^ 32 /\ 0 < dd_valsPerMini d < 2 ^ 32 /\ dd_currentMiniBlockVals d = dd_valsPerMini d /\ dd_miniBlockValues d = [].

Lemma emptied_loops d out : emptied d -> out <> [] -> endless (d, out).
Proof.
  intros (HB & HV & HM & HE) Hne. apply loop_cycle; [exact Hne|]. unfold iteration, DD.advance, DD.available. bool_lia (dd_currentBlockVals d =? 0). bool_lia (dd_currentMiniBlockVals d =? 0). cbn [opt_bind]. rewrite HE, HM, Z.sub_diag. change (u32 0) with 0. cbn [slice List.length opt_bind].
  rewrite slice_ok by (cbn; lia). cbn [opt_bind Z.to_nat skipn firstn List.length]. rewrite firstn_nil. cbn [List.length]. rewrite Z.min_r by lia. change (Z.of_nat 0) with 0. change (Z.to_nat 0) with O. rewrite skipn_O. do 3 f_equal.
  unfold DD.consume, u32. rewrite !Z.sub_0_r, !Z.mod_small by lia. now destruct d.
Qed.

Lemma readWidths_err n : forall r r' e, DD.readWidths r n = (r', inr e) -> e <> ErrUnexpectedEOF.
Proof.
  induction n as [|n IH]; intros r r' e; cbn [DD.readWidths]; [discriminate|]. destruct (Binary.ReadByte r) as [r1 [x|e1]] eqn:E1.
  - destruct (DD.readWidths r1 n) as [r2 [xs|e2]] eqn:E2; [discriminate|]. intros H; injection H as _ <-. exact (IH _ _ _ E2).
  - intros H; injection H as _ <-. unfold Binary.ReadByte, BR.ReadByte in E1. destruct (BR.getAlignedUint8 r 1) as [b [v|]]; [discriminate|]. injection E1 as _ <-. discriminate.
Qed.

Lemma initBlock_err d d' e : DD.initBlock d = (d', Some e) -> e <> ErrUnexpectedEOF.
Proof.
  unfold DD.initBlock. destruct (BR.GetZigZagVlqInt (dd_r d)) as [r1 [md|]]; [|intros H; injection H as _ <-; discriminate]. destruct (_ && _); [intros H; injection H as _ <-; discriminate|].
  destruct (DD.readWidths r1 _) as [r2 [ws|e2]] eqn:E; [discriminate|]. intros H; injection H as _ <-. exact (readWidths_err _ _ _ _ E).
Qed.

Lemma initBlock_vals d d' e : DD.initBlock d = (d', e) -> dd_valsPerMini d' = dd_valsPerMini d.
Proof. unfold DD.initBlock. destruct (BR.GetZigZagVlqInt (dd_r d)) as [r1 [md|]]; [|now intros [= <- _]]. destruct (_ && _); [now intros [= <- _]|]. destruct (DD.readWidths r1 _) as [r2 [ws|e2]]; now intros [= <- _]. Qed.

(** A mini block that is read in one batch has no values when the batch fails. *)
Lemma unpackBatches_fail fuel is32 r w n last md r' last' vs e : n <= DD.deltaBitPackScratchSize -> DD.unpackBatches fuel is32 r w n last md = (r', last', vs, Some e) -> vs = [].
Proof.
  intros Hn. destruct fuel as [|fuel]; cbn [DD.unpackBatches]; [discriminate|]. destruct (0 <? n); [|discriminate]. rewrite Z.min_l by lia. destruct (BR.GetBatch r w _) as [[[r1 buf] nread] err]. destruct (negb _); [intros H; injection H as _ _ <- _; reflexivity|].
  destruct err as [e1|]; [intros H; injection H as _ _ <- _; reflexivity|]. destruct (DD.addDeltas _ _ _ _) as [l1 vs1]. rewrite Z.sub_diag. destruct fuel; cbn [DD.unpackBatches Z.ltb Z.compare]; discriminate.
Qed.

Lemma unpackNextMini_vals d d' e : DD.unpackNextMini d = Some (d', e) -> dd_valsPerMini d' = dd_valsPerMini d.
Proof.
  unfold DD.unpackNextMini. destruct (index (dd_widths d) _) as [w|]; cbn [opt_bind]; [|discriminate]. destruct (_ <? _); [now intros [= <- _]|].
  set (x := if w =? 0 then _ else _). destruct x as [[[r1 l] vs] err]. now intros [= <- _].
Qed.

Lemma unpackNextMini_eof d d' : safeAt d -> dd_valsPerMini d <= DD.deltaBitPackScratchSize -> 0 < dd_currentBlockVals d -> DD.unpackNextMini d = Some (d', Some ErrUnexpectedEOF) -> emptied d' /\ frame d d'.
Proof.
  intros Hs Hn HB HE. pose proof Hs as [_ _ (Hv & Hm & Hb & Heq) _ _ Hblk]. unfold DD.unpackNextMini in HE. destruct (index (dd_widths d) _) as [w|]; cbn [opt_bind] in HE; [|discriminate]. destruct (_ <? w); [discriminate|].
  set (x := if w =? 0 then _ else _) in HE. assert (Hx : match x with (_, _, vs, e) => e <> None -> vs = [] end).
  { subst x. destruct (w =? 0); [destruct (DD.addDeltas _ _ _ _) as [l vs]; congruence|]. destruct (DD.unpackBatches _ _ _ _ _ _ _) as [[[r1 l] vs] [e|]] eqn:E; [|congruence]. intros _. exact (unpackBatches_fail _ _ _ _ _ _ _ _ _ _ _ Hn E). }
  destruct x as [[[r1 l] vs] err]. injection HE as <- ->. rewrite Hx by discriminate. split; [|split; reflexivity]. unfold emptied. cbn [dd_currentBlockVals dd_valsPerMini dd_currentMiniBlockVals dd_miniBlockValues]. destruct Hblk as [[? _]|(_ & _ & _ & ? & _)]; [lia|]. splits; auto; nia.
Qed.

Lemma advance_vals d d' e : DD.advance d = Some (d', e) -> dd_valsPerMini d' = dd_valsPerMini d.
Proof.
  unfold DD.advance. destruct (dd_currentBlockVals d =? 0).
  - destruct (DD.initBlock d) as [d1 [e1|]] eqn:E1; apply initBlock_vals in E1; [now intros [= <- _]|]. destruct (_ =? 0); [intros H; apply unpackNextMini_vals in H; congruence|now intros [= <- _]].
  - destruct (_ =? 0); [apply unpackNextMini_vals|now intros [= <- _]].
Qed.

Lemma advance_eof d d' : safeAt d -> dd_valsPerMini d <= DD.deltaBitPackScratchSize -> DD.advance d = Some (d', Some ErrUnexpectedEOF) -> emptied d' /\ frame d d'.
Proof.
  intros Hs Hn. unfold DD.advance. destruct (Z.eqb_spec (dd_currentBlockVals d) 0) as [H0|H0].
  - destruct (initBlock_safe d Hs H0) as (d1 & e & HE & Hok). rewrite HE. destruct e as [e|]; [intros H; injection H as _ ->; now apply initBlock_err in HE|]. destruct (Hok eq_refl) as (Hs1 & Hf1 & HB1 & HM1). rewrite HM1. cbn [Z.eqb]. apply initBlock_vals in HE.
    intros HU. destruct (unpackNextMini_eof d1 d' Hs1 ltac:(lia) HB1 HU) as [HEm Hf]. split; [exact HEm|exact (frame_trans _ _ _ Hf1 Hf)].
  - destruct (_ =? 0); [|discriminate]. intros HU. apply unpackNextMini_eof; auto. destruct (sf_block _ Hs) as [[? _]|(_ & _ & _ & ? & _)]; lia.
Qed.

Lemma decodeLoop_eof fuel : forall d out d' filled, safeAt d -> dd_valsPerMini d <= DD.deltaBitPackScratchSize -> DD.decodeLoop fuel d out = Some (d', filled, Some ErrUnexpectedEOF) -> emptied d' /\ frame d d'.
Proof.
  induction fuel as [|fuel IH]; intros d out d' filled Hs Hn; destruct out as [|x out]; cbn [DD.decodeLoop]; try discriminate. set (o := x :: out).
  destruct (advance_safe d Hs) as (d1 & e1 & HE & H1). rewrite HE. cbn [opt_bind]. destruct e1 as [e|]; [intros H; injection H as -> _ ->; now apply advance_eof|].
  destruct (H1 eq_refl) as (Hs1 & Hf1 & Hc1). destruct (available_safe d1 Hs1 Hc1) as (avail & -> & HLa). cbn [opt_bind]. set (k := Z.min (len o) (len avail)). destruct (consume_safe d1 k Hs1 Hc1 ltac:(lia)) as [Hs2 Hf2].
  destruct (DD.decodeLoop fuel _ _) as [[[d2 f2] e2]|] eqn:E2; cbn [opt_bind]; [|discriminate]. intros H; injection H as -> _ ->. apply advance_vals in HE. destruct (IH _ _ _ _ Hs2 ltac:(cbn [DD.consume dd_valsPerMini]; lia) E2) as [HEm Hf]. split; [exact HEm|exact (frame_trans _ _ _ Hf1 (frame_trans _ _ _ Hf2 Hf))].
Qed.

(** A sequence of calls without an error. *)
Fixpoint decodes (d : DeltaDecoder) (outs : list (list Z)) : option DeltaDecoder :=
  match outs with
  | [] => Some d
  | out :: outs' => match DD.Decode d out with Some (d1, _, _, None) => decodes d1 outs' | _ => None end
  end.

Lemma decodes_safe outs : forall d d', safeAt d -> decodes d outs = Some d' -> safeAt d'.
Proof.
  induction outs as [|out outs IH]; intros d d' Hs; cbn [decodes]; [now intros [= <-]|]. destruct (Decode_safe d out Hs) as (d1 & out' & n & [e|] & -> & _ & Hok & _); [discriminate|]. apply IH, Hok. reflexivity.
Qed.

(** What [Decode] does from a state after the first value, with the loop left to do. *)
Definition loopStart (d : DeltaDecoder) (out : list Z) : DeltaDecoder * list Z := (DD.setUsed d (dd_nvals d), firstn (Z.to_nat (Z.min (len out) (dd_nvals d))) out).

(** The calls that enter the loop with the state [loopStart]. *)
Lemma Decode_loop d out : dd_usedFirst d = true -> 0 < Z.min (len out) (dd_nvals d) ->
  DD.Decode d out =
    (r <- DD.decodeLoop (List.length (snd (loopStart d out))) (fst (loopStart d out)) (snd (loopStart d out)) ;;
     let '(d1, filled, err) := r in
     let m := Z.min (len out) (dd_nvals d) in
     match err with
     | Some e => Some (d1, filled ++ skipn (Z.to_nat m) out, 0, Some e)
     | None => Some (DD.setUsed d1 (dd_nvals d1 - m), filled ++ skipn (Z.to_nat m) out, m, None)
     end).
Proof. intros HU Hm. unfold DD.Decode, loopStart. cbn [fst snd]. bool_lia (Z.min (len out) (dd_nvals d) =? 0). rewrite HU. reflexivity. Qed.

(** C39: on any bytes, after any calls without an error: when a call of [Decode] finds that a mini
    block of at most 1024 values is cut off, it returns an error and leaves the mini block marked
    as full with no values in it.  A further call of [Decode], into any slice that is not empty,
    enters its loop, which then goes on for ever: each iteration fills nothing and changes
    nothing, without a panic and without an error. *)
Theorem delta_retry_diverges is32 nvalues data d0 outs d out d1 out1 n out2 :
  bytes data -> DD.SetData is32 nvalues data = inl d0 -> decodes d0 outs = Some d -> dd_valsPerMini d <= DD.deltaBitPackScratchSize ->
  DD.Decode d out = Some (d1, out1, n, Some ErrUnexpectedEOF) -> out2 <> [] ->
  dd_usedFirst d1 = true /\ 0 < Z.min (len out2) (dd_nvals d1) /\ endless (loopStart d1 out2).
Proof.
  intros Hb HS HD Hv HE Hne. destruct (SetData_safe is32 nvalues data d0 Hb HS) as [Hs0 _]. pose proof (decodes_safe _ _ _ Hs0 HD) as Hs. clear HS HD Hs0. pose proof (sf_nvals _ Hs) as Hnv. unfold DD.Decode in HE.
  destruct (Z.eqb_spec (Z.min (len out) (dd_nvals d)) 0) as [H0|H0]; [discriminate|]. destruct (if dd_usedFirst d then _ else _) as [head todo]. destruct (DD.decodeLoop _ _ todo) as [[[d2 filled] err]|] eqn:EL; cbn [opt_bind] in HE; [|discriminate]. destruct err as [e|]; [|discriminate]. injection HE as -> _ _ ->.
  destruct (decodeLoop_eof _ _ _ _ _ (setUsed_safe d (dd_nvals d) Hs Hnv) Hv EL) as [HEm [Hf1 Hf2]]. cbn [DD.setUsed dd_nvals dd_usedFirst] in Hf1, Hf2. assert (HL : 0 < len out2) by (destruct out2; [congruence|cbn [List.length]; lia]).
  split; [exact Hf2|]. split; [lia|]. unfold loopStart. apply emptied_loops; [exact HEm|]. intros H. apply (f_equal (@List.length Z)) in H. rewrite length_firstn in H. cbn [List.length] in H. lia.
Qed.

(** A state from which the loop never ends: the model runs out of whatever fuel it is given. *)
Lemma endless_no_result fuel : forall d out, endless (d, out) -> DD.decodeLoop fuel d out = None.
Proof.
  induction fuel as [|fuel IH]; intros d out He; destruct (He _ (rt1n_refl _ _ _)) as (s & Hs); inversion Hs as [d0 out0 s0 Hne HI]; subst; (destruct out as [|x out]; [congruence|]); cbn [DD.decodeLoop]; [reflexivity|]. set (o := x :: out) in *.
  unfold iteration in HI. destruct (DD.advance d) as [[d1 [e|]]|]; cbn [opt_bind] in *; try discriminate. destruct (DD.available d1) as [avail|]; cbn [opt_bind] in *; [|discriminate]. injection HI as <-. rewrite IH; [reflexivity|].
  intros s' Hr. apply He. econstructor; [exact Hs|exact Hr].
Qed.

(** The truncated page: one value is read, the next call fails, and another one does not end. *)
Lemma delta_retry_witness : exists d0 d d1 out1,
  DD.SetData true 20 truncated = inl d0 /\ decodes d0 [[0]] = Some d /\ DD.Decode d (repeat 0 7) = Some (d1, out1, 0, Some ErrUnexpectedEOF) /\
  dd_usedFirst d1 = true /\ 0 < Z.min 3 (dd_nvals d1) /\ endless (loopStart d1 [0; 0; 0]).
Proof.
  destruct (DD.SetData true 20 truncated) as [d0|e] eqn:E; [|vm_compute in E; discriminate]. destruct (decodes d0 [[0]]) as [d|] eqn:ED; [|vm_compute in E; injection E as <-; vm_compute in ED; discriminate].
  destruct (DD.Decode d (repeat 0 7)) as [[[[d1 out1] n] e]|] eqn:EF; [|vm_compute in E; injection E as <-; vm_compute in ED; injection ED as <-; vm_compute in EF; discriminate].
  assert (n = 0 /\ e = Some ErrUnexpectedEOF /\ dd_valsPerMini d <= DD.deltaBitPackScratchSize) as (-> & -> & Hv) by (vm_compute in E; injection E as <-; vm_compute in ED; injection ED as <-; vm_compute in EF; injection EF as _ _ <- <-; vm_compute; splits; reflexivity || discriminate).
  exists d0, d, d1, out1. split; [reflexivity|]. split; [exact ED|]. split; [exact EF|].
  apply (delta_retry_diverges true 20 truncated d0 [[0]] d (repeat 0 7) d1 out1 0 [0; 0; 0]); [vm_compute; repeat constructor; discriminate || reflexivity|exact E|exact ED|exact Hv|exact EF|discriminate].
Defined.

(** [FlushValues] keeps the bit writer it has flushed.  A second call with no [Put] in
    between, as for a page of nulls only after a full page, slices the new buffer of the sink up
    to the length of the page before: beyond its capacity, which panics. *)
Theorem delta_flush_twice_panics :
  exists enc data, DE.FlushValues Buffer.NewResizableBuffer (fold_left DE.Put exBatches exEnc) = Some (enc, data) /\
    DE.FlushValues Buffer.NewResizableBuffer enc = None /\ 256 < DE.EstimatedDataEncodedSize enc.
Proof.
  destruct (DE.FlushValues Buffer.NewResizableBuffer (fold_left DE.Put exBatches exEnc)) as [[enc data]|] eqn:E; vm_compute in E; [|discriminate].
  exists enc, data. injection E as <- <-. splits; vm_compute; reflexivity.
Qed.
