(* ===== verification/DeltaBytes.v ===== *)
(** * Delta encodings of byte arrays (parquet/internal/encoding: delta_length_byte_array.go, delta_byte_array.go)

    Byte arrays as their lengths, delta packed, and their bytes one after the other ([DLE],
    [DLD]); and front coding, where a value is the length of the prefix it shares with the value
    before it and a suffix ([DBE], [DBD]).

    A byte array is the list of its bytes.  The values the front-coding decoder hands out are
    slices of the page, of a new arena, or of each other; the decoder also keeps a scratch buffer
    that [Discard] writes to again and again.  [ba_scratch] says that a slice starts at the
    beginning of that buffer, which is what [Decode] compares addresses for.  Only [lastVal] may
    be such a slice, and it is replaced whenever the buffer is written to or reallocated. *)

From Stdlib Require Import ZArith List Lia Bool String.
From S2P Require Import Prelude GoStd BitUtil BitReader Memory DeltaBitPack Spaced.
Import ListNotations.
#[local] Open Scope Z_scope.
#[local] Open Scope go_scope.

Definition deltaByteArrayBatchSize : nat := 256.

(** [for i := 0; i < len(in); i += n { ... in[i:min(i+n, len(in))] ... }] *)
Fixpoint batchesOf {A} (fuel n : nat) (l : list A) : list (list A) :=
  match fuel with
  | O => []
  | S fuel' => match l with [] => [] | _ => firstn n l :: batchesOf fuel' n (skipn n l) end
  end.

Definition byteBatches {A} (l : list A) : list (list A) := batchesOf (List.length l) deltaByteArrayBatchSize l.

(** [output.ResizeNoShrink(a.Len() + b.Len()); copy(output, a); copy(output[a.Len():], b)] on a
    buffer of the pool. *)
Definition concatInto (fresh : Buffer.t) (a b : list Z) : option (list Z) :=
  let output := Buffer.Bytes (Buffer.ResizeNoShrink fresh (len a + len b)) in
  copyTo (splice output 0 a) (len a) b.

(** ** Lengths and bytes *)

Record DeltaLengthEncoder : Type := mkDLE { dl_sink : PooledBufferWriter.t; dl_lengthEncoder : DeltaEncoder }.

Module DLE.
Implicit Types enc : DeltaLengthEncoder.

Definition New (sink lengthSink : PooledBufferWriter.t) : DeltaLengthEncoder := mkDLE sink (DE.New true lengthSink).

Definition Put enc (vals : list (list Z)) : DeltaLengthEncoder :=
  let lengths := fold_left (fun le batch => DE.Put le (map (fun val => i32 (len val)) batch)) (byteBatches vals) (dl_lengthEncoder enc) in
  let totalLen := fold_right (fun val n => len val + n) 0 vals in
  let sink := PooledBufferWriter.Reserve (dl_sink enc) totalLen in
  mkDLE (fold_left (fun s val => fst (PooledBufferWriter.UnsafeWrite s val)) vals sink) lengths.

(** [None] for the bitmap is [nil]. *)
Definition PutSpaced enc (vals : list (list Z)) (validBits : option (list Z)) (validBitsOffset : Z) : option DeltaLengthEncoder :=
  match validBits with
  | None => Some (Put enc vals)
  | Some bits =>
      r <- spacedCompress vals (repeat [] (List.length vals)) bits validBitsOffset ;;
      let '(scratch, nvalid) := r in
      part <- slice scratch 0 nvalid ;; Some (Put enc part)
  end.

Definition EstimatedDataEncodedSize enc : Z := PooledBufferWriter.LenOf (dl_sink enc).

(** [f1], [f2] and [f3] are the buffers of the pool: for the lengths, the sink and the output. *)
Definition FlushValues (f1 f2 f3 : Buffer.t) enc : option (DeltaLengthEncoder * list Z) :=
  r <- DE.FlushValues f1 (dl_lengthEncoder enc) ;;
  let '(le, ret) := r in
  let '(sink, data) := PooledBufferWriter.Finish f2 (dl_sink enc) in
  output <- concatInto f3 ret (Buffer.Bytes data) ;;
  Some (mkDLE sink le, output).

End DLE.

Record DeltaLengthDecoder : Type := mkDLD { ld_nvals : Z; ld_data : list Z; ld_lengths : list Z }.

Module DLD.
Implicit Types d : DeltaLengthDecoder.

(** The loop over the lengths: the error. *)
Fixpoint checkLengths (payload totalLength : Z) (lengths : list Z) : option goerr :=
  match lengths with
  | [] => None
  | n :: lengths' =>
      if n <? 0 then Some (ErrMsg "parquet: negative delta byte array length")
      else if payload - totalLength <? n then Some (ErrMsg "parquet: delta byte array lengths exceed payload size")
      else checkLengths payload (totalLength + n) lengths'
  end.

(** The decoder for the page, or the error; [None] is a panic.  The lengths of the page before
    are overwritten. *)
Definition SetData (nvalues : Z) (data : list Z) : option (DeltaLengthDecoder + goerr) :=
  match DD.SetData true nvalues data with
  | inr e => Some (inr e)
  | inl dec =>
      if u64 nvalues <? dd_totalValues dec then Some (inr (ErrMsg "parquet: delta length count exceeds value count"))
      else
        r <- DD.Decode dec (repeat 0 (Z.to_nat (dd_totalValues dec))) ;;
        let '(dec, lengths, decoded, err) := r in
        match err with
        | Some e => Some (inr e)
        | None =>
            if negb (decoded =? len lengths) then Some (inr (ErrMsg "parquet: not enough delta lengths"))
            else
              let offset := DD.bytesRead dec in
              if (offset <? 0) || (len data <? offset) then Some (inr (ErrMsg "parquet: invalid delta length payload offset"))
              else
                payload <- slice data offset (len data) ;;
                match checkLengths (len payload) 0 lengths with
                | Some e => Some (inr e)
                | None => Some (inl (mkDLD (len lengths) payload lengths))
                end
        end
  end.

Definition decodeOne d : option (DeltaLengthDecoder * list Z) :=
  n <- index (ld_lengths d) 0 ;;
  value <- slice (ld_data d) 0 n ;;
  rest <- slice (ld_data d) n (len (ld_data d)) ;;
  Some (mkDLD (ld_nvals d - 1) rest (skipn 1 (ld_lengths d)), value).

(** [for i := 0; i < n; i++ { d.data = d.data[d.lengths[i]:] }] *)
Fixpoint discardLoop (n : nat) (data lengths : list Z) : option (list Z) :=
  match n with
  | O => Some data
  | S n' =>
      k <- index lengths 0 ;;
      rest <- slice data k (len data) ;; discardLoop n' rest (skipn 1 lengths)
  end.

Definition Discard d (n : Z) : option (DeltaLengthDecoder * Z) :=
  let n := Z.min n (ld_nvals d) in
  data <- discardLoop (Z.to_nat n) (ld_data d) (ld_lengths d) ;;
  lengths <- slice (ld_lengths d) n (len (ld_lengths d)) ;;
  Some (mkDLD (ld_nvals d - n) data lengths, n).

Fixpoint decodeLoop (n : nat) d : option (DeltaLengthDecoder * list (list Z)) :=
  match n with
  | O => Some (d, [])
  | S n' =>
      r <- decodeOne d ;;
      let '(d1, value) := r in
      r <- decodeLoop n' d1 ;; let '(d2, values) := r in Some (d2, value :: values)
  end.

(** The decoder, the slice afterwards, the number of values. *)
Definition Decode d (out : list (list Z)) : option (DeltaLengthDecoder * list (list Z) * Z) :=
  let max := Z.min (len out) (ld_nvals d) in
  r <- decodeLoop (Z.to_nat max) d ;;
  let '(d', values) := r in Some (d', values ++ skipn (Z.to_nat max) out, max).

Definition DecodeSpaced d (out : list (list Z)) (nullCount : Z) (validBits : list Z) (validBitsOffset : Z)
  : option (DeltaLengthDecoder * list (list Z) * Z * option goerr) :=
  let toread := len out - nullCount in
  part <- slice out 0 toread ;;
  r <- Decode d part ;;
  let '(d', part', values) := r in
  let out := splice out 0 part' in
  if negb (values =? toread) then Some (d', out, values, Some SD.mismatch)
  else r <- spacedExpand out nullCount validBits validBitsOffset ;; let '(out', n) := r in Some (d', out', n, None).

End DLD.

(** ** Front coding *)

(** The encoders are made with the first value. *)
Record DeltaByteArrayEncoder : Type := mkDBE { db_encoders : option (DeltaEncoder * DeltaLengthEncoder); db_lastVal : list Z }.

Fixpoint commonPrefixLength (left_ right_ : list Z) : nat :=
  match left_, right_ with
  | x :: l, y :: r => if x =? y then S (commonPrefixLength l r) else O
  | _, _ => O
  end.

Module DBE.
Implicit Types enc : DeltaByteArrayEncoder.

Definition New : DeltaByteArrayEncoder := mkDBE None [].

(** [f1], [f2] and [f3] are the buffers of the pool for the three sinks. *)
Definition initEncoders (f1 f2 f3 : Buffer.t) : DeltaEncoder * DeltaLengthEncoder :=
  (DE.New true (PooledBufferWriter.NewPooledBufferWriter f1 1024),
   DLE.New (PooledBufferWriter.NewPooledBufferWriter f2 1024) (PooledBufferWriter.NewPooledBufferWriter f3 1024)).

Definition getEncoders (f1 f2 f3 : Buffer.t) enc : DeltaEncoder * DeltaLengthEncoder :=
  match db_encoders enc with Some es => es | None => initEncoders f1 f2 f3 end.

(** The inner loop: the prefix lengths and suffixes of a batch, and the last value. *)
Fixpoint split (lastVal : list Z) (vals : list (list Z)) : list Z * list (list Z) * list Z :=
  match vals with
  | [] => ([], [], lastVal)
  | val :: vals' =>
      let prefixLength := commonPrefixLength lastVal val in
      let '(ps, ss, last) := split val vals' in
      (i32 (Z.of_nat prefixLength) :: ps, skipn prefixLength val :: ss, last)
  end.

Definition putBatch (st : DeltaEncoder * DeltaLengthEncoder * list Z) (batch : list (list Z)) : DeltaEncoder * DeltaLengthEncoder * list Z :=
  let '(prefixEncoder, suffixEncoder, lastVal) := st in
  let '(prefixLengths, suffixes, lastVal) := split lastVal batch in
  (DE.Put prefixEncoder prefixLengths, DLE.Put suffixEncoder suffixes, lastVal).

Definition Put (f1 f2 f3 : Buffer.t) enc (vals : list (list Z)) : DeltaByteArrayEncoder :=
  if len vals =? 0 then enc
  else
    let '(prefixEncoder, suffixEncoder) := getEncoders f1 f2 f3 enc in
    let '(prefixEncoder, suffixEncoder, lastVal) := fold_left putBatch (byteBatches vals) (prefixEncoder, suffixEncoder, db_lastVal enc) in
    mkDBE (Some (prefixEncoder, suffixEncoder)) lastVal.

Definition PutSpaced (f1 f2 f3 : Buffer.t) enc (vals : list (list Z)) (validBits : option (list Z)) (validBitsOffset : Z) : option DeltaByteArrayEncoder :=
  match validBits with
  | None => Some (Put f1 f2 f3 enc vals)
  | Some bits =>
      r <- spacedCompress vals (repeat [] (List.length vals)) bits validBitsOffset ;;
      let '(scratch, nvalid) := r in
      part <- slice scratch 0 nvalid ;; Some (Put f1 f2 f3 enc part)
  end.

Definition EstimatedDataEncodedSize enc : Z :=
  match db_encoders enc with
  | None => 0
  | Some (prefixEncoder, suffixEncoder) => DE.EstimatedDataEncodedSize prefixEncoder + DLE.EstimatedDataEncodedSize suffixEncoder
  end.

(** [g1] to [g4] are the pool's buffers for the pages of the prefixes, of the suffixes' lengths
    and bytes, and for the suffixes' output; [g5] for the result. *)
Definition FlushValues (f1 f2 f3 g1 g2 g3 g4 g5 : Buffer.t) enc : option (DeltaByteArrayEncoder * list Z) :=
  let '(prefixEncoder, suffixEncoder) := getEncoders f1 f2 f3 enc in
  r <- DE.FlushValues g1 prefixEncoder ;;
  let '(prefixEncoder, prefixBuf) := r in
  r <- DLE.FlushValues g2 g3 g4 suffixEncoder ;;
  let '(suffixEncoder, suffixBuf) := r in
  ret <- concatInto g5 prefixBuf suffixBuf ;;
  Some (mkDBE (Some (prefixEncoder, suffixEncoder)) [], ret).

End DBE.

Record ByteArray : Type := mkBA { ba : list Z; ba_scratch : bool }.

Record DeltaByteArrayDecoder : Type := mkDBD {
  bd_dec : DeltaLengthDecoder;
  bd_prefixLengths : list Z;
  bd_lastVal : option ByteArray;
  bd_discardScratch : Z  (** its length *)
}.

Module DBD.
Implicit Types d : DeltaByteArrayDecoder.

Definition badPrefix : goerr := ErrMsg "parquet: invalid delta byte array prefix length".
Definition firstPrefix : goerr := ErrMsg "parquet: first delta byte array prefix length must be zero".
Definition fewPrefixes : goerr := ErrMsg "parquet: not enough delta byte array prefix lengths".
Definition fewSuffixes : goerr := ErrMsg "parquet: not enough delta byte array suffix lengths".
Definition negativeLength : goerr := ErrMsg "parquet: negative delta byte array length".

(** [scratch] is the length of the scratch buffer the decoder has kept. *)
Definition SetData (scratch nvalues : Z) (data : list Z) : option (DeltaByteArrayDecoder + goerr) :=
  match DD.SetData true nvalues data with
  | inr e => Some (inr e)
  | inl prefixLenDec =>
      if (nvalues <? 0) || (u64 nvalues <? dd_totalValues prefixLenDec) then Some (inr (ErrMsg "parquet: delta prefix count exceeds value count"))
      else
        r <- DD.Decode prefixLenDec (repeat 0 (Z.to_nat (dd_nvals prefixLenDec))) ;;
        let '(prefixLenDec, prefixLengths, decoded, err) := r in
        match err with
        | Some e => Some (inr e)
        | None =>
            if negb (decoded =? len prefixLengths) then Some (inr fewPrefixes)
            else
              let offset := DD.bytesRead prefixLenDec in
              if (offset <? 0) || (len data <? offset) then Some (inr (ErrMsg "parquet: invalid delta byte array suffix offset"))
              else
                rest <- slice data offset (len data) ;;
                r <- DLD.SetData nvalues rest ;;
                match r with
                | inr e => Some (inr e)
                | inl dec =>
                    if negb (len prefixLengths =? ld_nvals dec) then Some (inr (ErrMsg "parquet: delta prefix and suffix length counts do not match"))
                    else Some (inl (mkDBD dec prefixLengths None scratch))
                end
        end
  end.

(** The value is written to the scratch buffer, which [prefix] may be a part of. *)
Definition setDiscardLastValue d (prefix suffix : list Z) : DeltaByteArrayDecoder :=
  mkDBD (bd_dec d) (bd_prefixLengths d) (Some (mkBA (prefix ++ suffix) true)) (len prefix + len suffix).

(** The loop of [Discard]: the number left, and the error. *)
Fixpoint discardLoop (remaining : nat) d : option (DeltaByteArrayDecoder * Z * option goerr) :=
  match remaining with
  | O => Some (d, 0, None)
  | S remaining' =>
      match bd_prefixLengths d with
      | [] => Some (d, Z.of_nat remaining, Some fewPrefixes)
      | prefixLen :: prefixLengths =>
          let d := mkDBD (bd_dec d) prefixLengths (bd_lastVal d) (bd_discardScratch d) in
          let lastVal := match bd_lastVal d with Some v => v | None => mkBA [] false end in
          if (prefixLen <? 0) || (len (ba lastVal) <? prefixLen) then Some (d, Z.of_nat remaining, Some badPrefix)
          else
            prefix <- slice (ba lastVal) 0 prefixLen ;;
            r <- DLD.decodeOne (bd_dec d) ;;
            let '(dec, suffix) := r in
            let d := mkDBD dec prefixLengths (bd_lastVal d) (bd_discardScratch d) in
            discardLoop remaining'
              (if len suffix =? 0 then mkDBD dec prefixLengths (Some (mkBA prefix (ba_scratch lastVal))) (bd_discardScratch d)
               else setDiscardLastValue d prefix suffix)
      end
  end.

Definition Discard d (n : Z) : option (DeltaByteArrayDecoder * Z * option goerr) :=
  let n := Z.min n (ld_nvals (bd_dec d)) in
  if n =? 0 then Some (d, 0, None)
  else
    let loop d remaining :=
      r <- discardLoop (Z.to_nat remaining) d ;;
      let '(d', left_, err) := r in Some (d', n - left_, err) in
    match bd_lastVal d with
    | None =>
        match bd_prefixLengths d with
        | [] => Some (d, 0, Some firstPrefix)
        | p :: prefixLengths =>
            if negb (p =? 0) then Some (d, 0, Some firstPrefix)
            else
              r <- DLD.decodeOne (bd_dec d) ;;
              let '(dec, suffix) := r in
              let d := setDiscardLastValue (mkDBD dec (bd_prefixLengths d) (bd_lastVal d) (bd_discardScratch d)) [] suffix in
              loop (mkDBD (bd_dec d) prefixLengths (bd_lastVal d) (bd_discardScratch d)) (n - 1)
        end
    | Some _ => loop d n
    end.

(** The loop of [decodedArenaSize]. *)
Fixpoint arenaLoop (max : nat) (prefixLengths suffixLengths : list Z) (previousLen total : Z) : Z + goerr :=
  match max with
  | O => inl total
  | S max' =>
      match prefixLengths, suffixLengths with
      | [], _ => inr fewPrefixes
      | _, [] => inr fewSuffixes
      | prefixLen :: ps, suffixLen :: ss =>
          if (prefixLen <? 0) || (previousLen <? prefixLen) then inr badPrefix
          else if suffixLen <? 0 then inr negativeLength
          else if MaxInt64 - prefixLen <? suffixLen then inr (ErrMsg "parquet: delta byte array value length overflows int")
          else
            let valueLen := prefixLen + suffixLen in
            if negb (suffixLen =? 0) then
              if MaxInt64 - total <? valueLen then inr (ErrMsg "parquet: decoded delta byte array size overflows int")
              else arenaLoop max' ps ss valueLen (total + valueLen)
            else arenaLoop max' ps ss valueLen total
      end
  end.

Definition decodedArenaSize d (max : Z) : Z + goerr :=
  let prefixLengths := bd_prefixLengths d in
  let suffixLengths := ld_lengths (bd_dec d) in
  match bd_lastVal d with
  | Some lastVal => arenaLoop (Z.to_nat max) prefixLengths suffixLengths (len (ba lastVal)) 0
  | None =>
      match prefixLengths with
      | [] => inr firstPrefix
      | p :: ps =>
          if negb (p =? 0) then inr firstPrefix
          else match suffixLengths with
               | [] => inr fewSuffixes
               | suffixLen :: ss => if suffixLen <? 0 then inr negativeLength else arenaLoop (Z.to_nat (max - 1)) ps ss suffixLen suffixLen
               end
      end
  end.

(** [arena[arenaOffset:arenaOffset+n]], the slice expression alone. *)
Definition inArena (arena arenaOffset n : Z) : option unit :=
  if (0 <=? n) && (arenaOffset + n <=? arena) then Some tt else None.

(** A prefix in the scratch buffer, whose length is [scratch], is cloned. *)
Definition unalias (scratch : Z) (prefix : ByteArray) : ByteArray :=
  if (0 <? len (ba prefix)) && (0 <? scratch) && ba_scratch prefix then mkBA (ba prefix) false else prefix.

(** The loop of [Decode] over the suffixes: the decoder, the values, the error. *)
Fixpoint decodeLoop (arena arenaOffset : Z) d (suffixes : list (list Z)) : option (DeltaByteArrayDecoder * list ByteArray * option goerr) :=
  match suffixes with
  | [] => Some (d, [], None)
  | suffix :: suffixes' =>
      match bd_prefixLengths d with
      | [] => Some (d, map (fun s => mkBA s false) suffixes, Some fewPrefixes)
      | prefixLen :: prefixLengths =>
          let lastVal := match bd_lastVal d with Some v => v | None => mkBA [] false end in
          prefix <- slice (ba lastVal) 0 prefixLen ;;
          let prefix := mkBA prefix (ba_scratch lastVal) in
          if len suffix =? 0 then
            let prefix := unalias (bd_discardScratch d) prefix in
            r <- decodeLoop arena arenaOffset (mkDBD (bd_dec d) prefixLengths (Some prefix) (bd_discardScratch d)) suffixes' ;;
            let '(d', out, err) := r in Some (d', prefix :: out, err)
          else
            let valueLen := prefixLen + len suffix in
            _ <- inArena arena arenaOffset valueLen ;;
            let value := mkBA (firstn (Z.to_nat valueLen) (ba prefix ++ suffix)) false in
            r <- decodeLoop arena (arenaOffset + valueLen) (mkDBD (bd_dec d) prefixLengths (Some value) (bd_discardScratch d)) suffixes' ;;
            let '(d', out, err) := r in Some (d', value :: out, err)
      end
  end.

(** The decoder, the values in the slice, the number, the error. *)
Definition Decode d (out : list ByteArray) : option (DeltaByteArrayDecoder * list ByteArray * Z * option goerr) :=
  let max := Z.min (len out) (ld_nvals (bd_dec d)) in
  if max =? 0 then Some (d, out, 0, None)
  else
    match decodedArenaSize d max with
    | inr e => Some (d, out, 0, Some e)
    | inl arena =>
        r <- DLD.Decode (bd_dec d) (repeat [] (Z.to_nat max)) ;;
        let '(dec, suffixes, decoded) := r in
        let d := mkDBD dec (bd_prefixLengths d) (bd_lastVal d) (bd_discardScratch d) in
        let back vs := vs ++ skipn (Z.to_nat max) out in
        if negb (decoded =? max) then Some (d, back (map (fun s => mkBA s false) suffixes), 0, Some (ErrMsg "parquet: not enough delta byte array suffix values"))
        else
          let finish pre r :=
            let '(d', vs, err) := r in
            Some (d', back (pre ++ vs), match err with None => max | Some _ => 0 end, err) in
          match bd_lastVal d with
          | None =>
              suffix <- index suffixes 0 ;;
              _ <- inArena arena 0 (len suffix) ;;
              let value := mkBA suffix false in
              prefixLengths <- slice (bd_prefixLengths d) 1 (len (bd_prefixLengths d)) ;;
              r <- decodeLoop arena (len suffix) (mkDBD dec prefixLengths (Some value) (bd_discardScratch d)) (skipn 1 suffixes) ;;
              finish [value] r
          | Some _ => r <- decodeLoop arena 0 d suffixes ;; finish [] r
          end
    end.

Definition DecodeSpaced d (out : list ByteArray) (nullCount : Z) (validBits : list Z) (validBitsOffset : Z)
  : option (DeltaByteArrayDecoder * list ByteArray * Z * option goerr) :=
  let toread := len out - nullCount in
  part <- slice out 0 toread ;;
  r <- Decode d part ;;
  let '(d', part', values, err) := r in
  let out := splice out 0 part' in
  match err with
  | Some e => Some (d', out, values, Some e)
  | None =>
      if negb (values =? toread) then Some (d', out, values, Some SD.mismatch)
      else r <- spacedExpand out nullCount validBits validBitsOffset ;; let '(out', n) := r in Some (d', out', n, None)
  end.

End DBD.
