(* ===== verification/DeltaBytesOk.v ===== *)
(** * Delta encodings of byte arrays: theorems *)

From Stdlib Require Import ZArith List Lia Bool.
From S2P Require Import Prelude GoStd BitUtil BitReader Memory BitBlocks DeltaBitPack DeltaFormat DeltaEncode DeltaDecode DeltaSafety Spaced DeltaBytes.
Import ListNotations.
#[local] Open Scope Z_scope.
#[local] Open Scope go_scope.

Implicit Types (vals suffixes : list (list Z)).

Lemma batchesOf_concat {A} n fuel (l : list A) : (0 < n)%nat -> (List.length l <= fuel)%nat -> List.concat (batchesOf fuel n l) = l.
Proof.
  intros Hn. revert l. induction fuel as [|fuel IH]; intros [|x l] HL; cbn [batchesOf List.length] in *; try reflexivity; [lia|].
  cbn [List.concat]. rewrite IH; [apply firstn_skipn|]. rewrite length_skipn. cbn [List.length]. lia.
Qed.

Lemma byteBatches_concat {A} (l : list A) : List.concat (byteBatches l) = l.
Proof. apply batchesOf_concat; unfold deltaByteArrayBatchSize; lia. Qed.

Lemma fold_left_map {A B C} (f : A -> B -> A) (g : C -> B) l a : fold_left f (map g l) a = fold_left (fun x y => f x (g y)) l a.
Proof. revert a. induction l as [|y l IH]; intros a; cbn [map fold_left]; auto. Qed.

(** Buffers of the pool are empty. *)
Lemma concatInto_ok fresh a b : poolOk fresh -> concatInto fresh a b = Some (a ++ b).
Proof.
  intros [_ H0]. unfold concatInto, Buffer.ResizeNoShrink.
  destruct (resize_ok fresh (len a + len b) false) as ((_ & HL) & HN & _); [split; lia|lia|]. set (m := Buffer.resize _ _ _) in *.
  assert (HB : List.length (Buffer.Bytes m) = (List.length a + List.length b)%nat) by (unfold Buffer.Bytes; rewrite length_firstn; lia).
  unfold copyTo. rewrite slice_ok by (rewrite length_splice; lia). cbn [opt_bind]. f_equal. rewrite (splice_in _ _ b) by (rewrite length_splice; lia).
  rewrite (splice_in _ _ a) by lia. cbn [firstn app Nat.add]. rewrite Nat2Z.id, firstn_app_exact by reflexivity.
  rewrite skipn_all2 by (rewrite length_app, length_skipn; lia). now rewrite app_nil_r.
Qed.

(** ** The encoder of lengths and bytes *)

Section Stream.
Import PooledBufferWriter.

Lemma streamed_cap b data : streamed b data -> len data <= Buffer.Cap (buf b).
Proof. intros (_ & _ & _ & _ & H). apply (f_equal (@List.length Z)) in H. rewrite length_firstn in H. unfold Buffer.Cap. lia. Qed.

Lemma unsafeWrites_streamed vals b data :
  streamed b data -> Forall bytes vals -> len data + len (List.concat vals) <= Buffer.Cap (buf b) ->
  streamed (fold_left (fun s val => fst (UnsafeWrite s val)) vals b) (data ++ List.concat vals).
Proof.
  intros Hs HF. revert b data Hs. induction HF as [|v vals Hv _ IH]; intros b data Hs HL; cbn [fold_left List.concat] in *; [now rewrite app_nil_r|].
  rewrite length_app in HL. destruct (UnsafeWrite_streamed b data v Hs Hv ltac:(lia)) as (b' & HE & Hs'). rewrite HE. cbn [fst]. rewrite app_assoc. apply IH; [exact Hs'|].
  pose proof (streamed_cap b data Hs) as Hc. assert (Buffer.Cap (buf b') = Buffer.Cap (buf b)) as ->; [|rewrite length_app; lia].
  unfold UnsafeWrite in HE. injection HE as <- _. unfold Buffer.Cap in *. cbn [buf Buffer.buf]. rewrite length_splice; [reflexivity|].
  destruct Hs as (_ & _ & -> & _). lia.
Qed.

End Stream.

Definition byteLens vals : list Z := map (fun v => len v) vals.

(** Values of a size the encodings allow. *)
Definition sized vals : Prop := Forall (fun v => bytes v /\ len v <= MaxInt32) vals.

Lemma sized_bytes vals : sized vals -> Forall bytes vals.
Proof. apply Forall_impl. now intros v [? _]. Qed.

Lemma sized_lens vals : sized vals -> map (fun val => i32 (len val)) vals = byteLens vals.
Proof. intros HF. apply map_ext_in. intros v Hv. unfold sized in HF. rewrite Forall_forall in HF. destruct (HF v Hv) as [_ HL]. unfold i32, MaxInt32 in *. rewrite Z.mod_small; lia. Qed.

Lemma byteLens_isT vals : sized vals -> Forall (isT true) (byteLens vals).
Proof. intros HF. apply Forall_map. revert HF. apply Forall_impl. intros v [_ HL]. unfold isT, MinInt32. lia. Qed.

Lemma sized_app a b : sized (a ++ b) <-> sized a /\ sized b.
Proof. apply Forall_app. Qed.

Lemma totalLen_concat vals : fold_right (fun val n => len val + n) 0 vals = len (List.concat vals).
Proof. induction vals as [|v vals IH]; cbn [fold_right List.concat]; [reflexivity|]. rewrite length_app, IH. lia. Qed.

(** What the encoder has taken. *)
Definition dlOk (enc : DeltaLengthEncoder) vals : Prop :=
  putsRel true (dl_lengthEncoder enc) (byteLens vals) /\ streamed (dl_sink enc) (List.concat vals).

Definition small vals : Prop := len vals < 2 ^ 32 /\ len (List.concat vals) < 2 ^ 62.

Lemma dlPut_ok enc done vals : dlOk enc done -> sized vals -> small (done ++ vals) -> dlOk (DLE.Put enc vals) (done ++ vals).
Proof.
  intros [HL HS] Hv [Hn Hb]. split.
  - set (f := fun val : list Z => i32 (len val)). cbn [DLE.Put dl_lengthEncoder]. fold f.
    assert (HE : byteLens (done ++ vals) = byteLens done ++ List.concat (map (map f) (byteBatches vals))).
    { unfold byteLens at 1. rewrite map_app. f_equal. rewrite <- concat_map, byteBatches_concat. symmetry. now apply sized_lens. }
    rewrite HE. replace (fold_left _ _ _) with (fold_left DE.Put (map (map f) (byteBatches vals)) (dl_lengthEncoder enc)) by apply fold_left_map.
    apply putsRel_Puts; [exact HL|]. rewrite <- HE. unfold byteLens. now rewrite length_map.
  - cbn [DLE.Put dl_sink]. rewrite concat_app in *. rewrite length_app in Hb. rewrite totalLen_concat. apply unsafeWrites_streamed; [now apply Reserve_streamed|now apply sized_bytes|].
    pose proof HS as (_ & _ & Hpos & _). rewrite <- Hpos. apply Reserve_cap. lia.
Qed.

Lemma dlFlush_ok enc vals f1 f2 f3 :
  dlOk enc vals -> vals <> [] -> sized vals -> small vals -> poolOk f1 -> poolOk f2 -> poolOk f3 ->
  exists enc' page, DLE.FlushValues f1 f2 f3 enc = Some (enc', page ++ List.concat vals) /\ dlOk enc' [] /\ pageOf true page (byteLens vals).
Proof.
  intros [HL HS] Hne Hv [Hn _] H1 H2 H3. unfold DLE.FlushValues.
  destruct (flush_page true _ f1 (byteLens vals) HL (proj1 H1)) as (le & page & -> & Hr & Hp); [destruct vals; [congruence|discriminate]|apply byteLens_isT, Hv|unfold byteLens; rewrite length_map; exact Hn|].
  cbn [opt_bind]. destruct (Finish_streamed f2 _ _ HS) as (m & -> & ->). rewrite concatInto_ok by assumption. cbn [opt_bind].
  eexists _, page. split; [reflexivity|]. split; [|exact Hp]. split; [exact Hr|]. cbn [dl_sink List.concat]. now apply (new_streamed f2 0).
Qed.

(** ** The decoder of lengths and bytes *)

(** The decoder holds [vals]; other bytes may follow. *)
Definition dldOk (d : DeltaLengthDecoder) vals : Prop :=
  ld_nvals d = len vals /\ ld_lengths d = byteLens vals /\ exists t, ld_data d = List.concat vals ++ t.

Lemma decodeOne_ok d v vals : dldOk d (v :: vals) -> exists d', DLD.decodeOne d = Some (d', v) /\ dldOk d' vals.
Proof.
  intros (Hn & HL & t & HD). unfold DLD.decodeOne. rewrite HL, HD. cbn [byteLens map List.concat]. fold (byteLens vals). cbn [index nth_error Z.leb Z.compare andb]. unfold index. cbn [List.length Z.to_nat nth_error].
  bool_lia (0 <=? 0). bool_lia (0 <? Z.of_nat (S (List.length (byteLens vals)))). cbn [andb opt_bind]. rewrite <- app_assoc, !slice_ok by (rewrite ?length_app; lia). cbn [opt_bind Z.to_nat skipn].
  rewrite Z.sub_0_r, Nat2Z.id, firstn_app_exact, skipn_app_exact by reflexivity. rewrite firstn_all2 by (rewrite !length_app; lia).
  eexists. split; [reflexivity|]. split; [cbn [ld_nvals]; rewrite Hn; cbn [List.length]; lia|]. split; [reflexivity|]. exists t. reflexivity.
Qed.

Lemma dldLoop_ok n d vals :
  dldOk d vals -> (n <= List.length vals)%nat -> exists d', DLD.decodeLoop n d = Some (d', firstn n vals) /\ dldOk d' (skipn n vals).
Proof.
  revert d vals. induction n as [|n IH]; intros d vals Hd Hn; cbn [DLD.decodeLoop]; [exists d; auto|]. destruct vals as [|v vals]; [cbn in Hn; lia|].
  destruct (decodeOne_ok d v vals Hd) as (d1 & -> & Hd1). cbn [opt_bind]. destruct (IH d1 vals Hd1 ltac:(cbn [List.length] in Hn; lia)) as (d' & -> & Hd'). cbn [opt_bind firstn skipn]. eauto.
Qed.

Lemma dldDecode_ok d vals out :
  dldOk d vals -> let n := Nat.min (List.length out) (List.length vals) in
  exists d', DLD.Decode d out = Some (d', firstn n vals ++ skipn n out, Z.of_nat n) /\ dldOk d' (skipn n vals).
Proof.
  intros Hd n. pose proof Hd as (Hn & _). unfold DLD.Decode. rewrite Hn. replace (Z.min (len out) (len vals)) with (Z.of_nat n) by lia. rewrite Nat2Z.id.
  destruct (dldLoop_ok n d vals Hd ltac:(lia)) as (d' & -> & Hd'). cbn [opt_bind]. eauto.
Qed.

Lemma dldDiscardLoop_ok n vals t : (n <= List.length vals)%nat -> DLD.discardLoop n (List.concat vals ++ t) (byteLens vals) = Some (List.concat (skipn n vals) ++ t).
Proof.
  revert vals. induction n as [|n IH]; intros vals Hn; cbn [DLD.discardLoop]; [reflexivity|]. destruct vals as [|v vals]; [cbn in Hn; lia|]. cbn [byteLens map List.concat]. fold (byteLens vals).
  unfold index. cbn [List.length Z.to_nat nth_error]. bool_lia (0 <=? 0). bool_lia (0 <? Z.of_nat (S (List.length (byteLens vals)))). cbn [andb opt_bind]. rewrite <- app_assoc, slice_ok by (rewrite ?length_app; lia).
  cbn [opt_bind skipn]. rewrite Nat2Z.id, skipn_app_exact, firstn_all2 by (rewrite ?length_app; lia). apply IH. cbn [List.length] in Hn. lia.
Qed.

Lemma dldDiscard_ok d vals k :
  dldOk d vals -> let n := Nat.min k (List.length vals) in
  exists d', DLD.Discard d (Z.of_nat k) = Some (d', Z.of_nat n) /\ dldOk d' (skipn n vals).
Proof.
  intros (Hn & HL & t & HD) n. unfold DLD.Discard. rewrite Hn. replace (Z.min (Z.of_nat k) (len vals)) with (Z.of_nat n) by lia. rewrite Nat2Z.id, HL, HD, dldDiscardLoop_ok by lia. cbn [opt_bind].
  rewrite slice_ok by (unfold byteLens; rewrite length_map; lia). cbn [opt_bind]. rewrite Nat2Z.id, firstn_all2 by (rewrite length_skipn; lia). eexists. split; [reflexivity|].
  split; [cbn [ld_nvals]; rewrite length_skipn; lia|]. split; [cbn [ld_lengths]; unfold byteLens; now rewrite skipn_map|]. now exists t.
Qed.

Lemma checkLengths_ok vals payload totalLength :
  0 <= totalLength -> totalLength + len (List.concat vals) <= payload -> DLD.checkLengths payload totalLength (byteLens vals) = None.
Proof.
  revert totalLength. induction vals as [|v vals IH]; intros n Hn HL; cbn [byteLens map DLD.checkLengths List.concat] in *; [reflexivity|]. fold (byteLens vals). rewrite length_app in HL.
  bool_lia (len v <? 0). bool_lia (payload - n <? len v). apply IH; lia.
Qed.

(** Reading all numbers of a delta page that is followed by other bytes. *)
Lemma delta_all page t vs nvalues :
  pageOf true page vs -> bytes t -> len vs < 2 ^ 32 -> len vs <= nvalues ->
  exists d d', DD.SetData true nvalues (page ++ t) = inl d /\ dd_totalValues d = len vs /\ dd_nvals d = len vs /\
    DD.Decode d (repeat 0 (List.length vs)) = Some (d', vs, len vs, None) /\ DD.bytesRead d' = len page.
Proof.
  intros HP Ht HL Hn. destruct (pageOf_decode true page t vs nvalues HP Ht HL Hn) as (d & pad & HE & Htot & Hpg & Hpad).
  destruct (Decode_ok stdGeo_ok true _ pad d vs (repeat 0 (List.length vs)) Hpg) as (d' & HD & Hpg'). rewrite repeat_length, Nat.min_id in HD, Hpg'. rewrite firstn_all in HD.
  rewrite (skipn_all2 (repeat 0 _)) in HD by (rewrite repeat_length; lia). rewrite app_nil_r in HD. rewrite skipn_all in Hpg'.
  exists d, d'. split; [exact HE|]. split; [exact Htot|]. split; [apply Hpg|]. split; [exact HD|]. exact (page_end true _ pad d' Hpg' Hpad).
Qed.

Lemma pageOf_bytes page vs : pageOf true page vs -> bytes page.
Proof.
  intros (first & rest & bs & body & pad & -> & Hf & -> & Hb & _). apply bytes_app. split; [|exact Hb]. apply headerBytes_bytes; [lia|now apply (isT_int64 true)].
Qed.

Lemma u64_id n : 0 <= n < 2 ^ 64 -> u64 n = n.
Proof. intros. unfold u64. now rewrite Z.mod_small. Qed.

Lemma dldSetData_ok page vals t nvalues :
  pageOf true page (byteLens vals) -> sized vals -> bytes t -> len vals < 2 ^ 32 -> len vals <= nvalues < 2 ^ 63 ->
  exists d, DLD.SetData nvalues (page ++ List.concat vals ++ t) = Some (inl d) /\ dldOk d vals.
Proof.
  intros HP Hs Ht HL Hn. assert (HLv : List.length (byteLens vals) = List.length vals) by apply length_map.
  assert (Hb : bytes (List.concat vals ++ t)) by (apply bytes_app; split; [apply Forall_concat, sized_bytes, Hs|exact Ht]).
  destruct (delta_all page (List.concat vals ++ t) (byteLens vals) nvalues HP Hb ltac:(lia) ltac:(lia)) as (dec & dec' & HE & Htot & _ & HD & HB).
  unfold DLD.SetData. rewrite HE, Htot, u64_id, Nat2Z.id by lia. rewrite (proj2 (Z.ltb_ge _ _)) by lia. rewrite HD. cbn [opt_bind]. rewrite Z.eqb_refl. cbn [negb]. rewrite HB.
  rewrite length_app, (proj2 (Z.ltb_ge (len page) 0)), (proj2 (Z.ltb_ge _ (len page))) by lia. cbn [orb]. rewrite slice_ok by (rewrite ?length_app; lia). cbn [opt_bind].
  rewrite Nat2Z.id, skipn_app_exact by reflexivity. rewrite firstn_all2 by lia. rewrite checkLengths_ok by (rewrite ?length_app; lia).
  eexists. split; [reflexivity|]. split; [cbn [ld_nvals]; lia|]. split; [reflexivity|]. now exists t.
Qed.

(** ** Front coding *)

(** The values that prefix lengths and suffixes stand for, after [lastVal]. *)
Fixpoint fronts (lastVal : list Z) (ps : list Z) (ss vals : list (list Z)) : Prop :=
  match ps, ss, vals with
  | [], [], [] => True
  | p :: ps', s :: ss', v :: vals' => 0 <= p <= len lastVal /\ v = firstn (Z.to_nat p) lastVal ++ s /\ fronts v ps' ss' vals'
  | _, _, _ => False
  end.

Lemma commonPrefix_ok a b : let k := commonPrefixLength a b in (k <= List.length a)%nat /\ (k <= List.length b)%nat /\ firstn k a = firstn k b.
Proof.
  cbv zeta. revert b. induction a as [|x a IH]; intros [|y b]; cbn [commonPrefixLength]; try (cbn; splits; auto; lia).
  destruct (Z.eqb_spec x y) as [->|]; [|cbn; splits; auto; lia]. destruct (IH b) as (H1 & H2 & H3). cbn [List.length firstn]. splits; [lia|lia|now f_equal].
Qed.

Lemma split_ok lastVal vals ps ss last :
  DBE.split lastVal vals = (ps, ss, last) -> sized vals ->
  fronts lastVal ps ss vals /\ last = List.last vals lastVal /\ Forall2 (fun s v => len s <= len v) ss vals /\ sized ss /\ Forall (isT true) ps /\ List.length ps = List.length vals.
Proof.
  revert lastVal ps ss last. induction vals as [|v vals IH]; intros lastVal ps ss last HE Hs; cbn [DBE.split] in HE.
  { injection HE as <- <- <-. cbn. splits; auto; constructor. }
  destruct (DBE.split v vals) as [[ps1 ss1] last1] eqn:E. injection HE as <- <- <-. inversion Hs as [|? ? [Hvb Hvl] Hs']; subst x l.
  destruct (IH _ _ _ _ E Hs') as (HF & HLa & H2 & Hsz & HT & HL). destruct (commonPrefix_ok lastVal v) as (Hk1 & Hk2 & Hk3). set (k := commonPrefixLength lastVal v) in *.
  assert (Hi : i32 (Z.of_nat k) = Z.of_nat k) by (unfold i32, MaxInt32 in *; rewrite Z.mod_small; lia).
  splits.
  - cbn [fronts]. rewrite Hi, Nat2Z.id. splits; [lia|lia| |exact HF]. rewrite Hk3. symmetry. apply firstn_skipn.
  - rewrite HLa. destruct vals as [|w vals]; [reflexivity|]. cbn [List.last]. clear. revert w. induction vals as [|y vals IH]; intros w; [reflexivity|]. apply (IH y).
  - constructor; [rewrite length_skipn; lia|exact H2].
  - constructor; [split; [now apply bytes_skipn|rewrite length_skipn; lia]|exact Hsz].
  - constructor; [|exact HT]. rewrite Hi. unfold isT, MinInt32. lia.
  - cbn [List.length]. now rewrite HL.
Qed.

Lemma split_app lastVal a b :
  DBE.split lastVal (a ++ b) =
  let '(ps1, ss1, l1) := DBE.split lastVal a in let '(ps2, ss2, l2) := DBE.split l1 b in (ps1 ++ ps2, ss1 ++ ss2, l2).
Proof.
  revert lastVal. induction a as [|v a IH]; intros lastVal; cbn [app DBE.split]; [now destruct (DBE.split lastVal b) as [[? ?] ?]|].
  rewrite IH. destruct (DBE.split v a) as [[ps1 ss1] l1]. destruct (DBE.split l1 b) as [[ps2 ss2] l2]. reflexivity.
Qed.

Lemma Forall2_sizes ss vals : Forall2 (fun s v : list Z => len s <= len v) ss vals -> len ss = len vals /\ len (List.concat ss) <= len (List.concat vals).
Proof. induction 1 as [|s v ss vals Hs _ IH]; cbn [List.length List.concat]; [lia|]. rewrite !length_app. lia. Qed.

(** What the encoder has taken. *)
Definition encodersOk (pe : DeltaEncoder) (se : DeltaLengthEncoder) (last : list Z) vals : Prop :=
  let '(ps, ss, l) := DBE.split [] vals in putsRel true pe ps /\ dlOk se ss /\ last = l.

Definition dbOk (enc : DeltaByteArrayEncoder) vals : Prop :=
  match db_encoders enc with
  | Some (pe, se) => encodersOk pe se (db_lastVal enc) vals
  | None => vals = [] /\ db_lastVal enc = []
  end.

Lemma small_split vals ps ss l : DBE.split [] vals = (ps, ss, l) -> sized vals -> small vals -> small ss /\ len ps < 2 ^ 32.
Proof.
  intros HE Hs [H1 H2]. destruct (split_ok _ _ _ _ _ HE Hs) as (_ & _ & HF & _ & _ & HL). apply Forall2_sizes in HF as [HF1 HF2]. unfold small. rewrite HF1, HL. lia.
Qed.

Lemma putBatch_ok pe se last done batch pe' se' last' :
  encodersOk pe se last done -> sized (done ++ batch) -> small (done ++ batch) -> DBE.putBatch (pe, se, last) batch = (pe', se', last') ->
  encodersOk pe' se' last' (done ++ batch).
Proof.
  unfold encodersOk. rewrite split_app. destruct (DBE.split [] done) as [[ps ss] l] eqn:E. intros (HP & HD & ->) Hs Hm HE. cbn [DBE.putBatch] in HE.
  destruct (DBE.split l batch) as [[ps2 ss2] l2] eqn:E2. injection HE as <- <- <-.
  assert (EA : DBE.split [] (done ++ batch) = (ps ++ ps2, ss ++ ss2, l2)) by now rewrite split_app, E, E2.
  destruct (split_ok _ _ _ _ _ EA Hs) as (_ & _ & _ & Hsz & _ & _). apply sized_app in Hsz as [_ Hsz]. destruct (small_split _ _ _ _ EA Hs Hm) as [Hm1 Hm2].
  splits; [now apply putsRel_Put|now apply dlPut_ok|reflexivity].
Qed.

Lemma frontBatches_ok bs pe se last done pe' se' last' :
  encodersOk pe se last done -> sized (done ++ List.concat bs) -> small (done ++ List.concat bs) ->
  fold_left DBE.putBatch bs (pe, se, last) = (pe', se', last') -> encodersOk pe' se' last' (done ++ List.concat bs).
Proof.
  revert pe se last done. induction bs as [|b bs IH]; intros pe se last done HO Hs Hm HE; cbn [fold_left List.concat] in *.
  { injection HE as <- <- <-. now rewrite app_nil_r. }
  destruct (DBE.putBatch (pe, se, last) b) as [[pe1 se1] last1] eqn:E. rewrite app_assoc in *. refine (IH _ _ _ _ _ Hs Hm HE). refine (putBatch_ok _ _ _ _ _ _ _ _ HO _ _ E).
  - now apply sized_app in Hs as [? _].
  - unfold small in *. rewrite concat_app, !length_app in Hm. rewrite !length_app. lia.
Qed.

Lemma newEncoders_ok f1 f2 f3 pe se : poolOk f1 -> poolOk f2 -> poolOk f3 -> DBE.initEncoders f1 f2 f3 = (pe, se) -> encodersOk pe se [] [].
Proof.
  intros H1 H2 H3 HE. injection HE as <- <-. unfold encodersOk. cbn [DBE.split]. splits; [apply New_ready, H1| |reflexivity].
  split; [apply New_ready, H3|]. cbn [DLE.New dl_sink List.concat]. now apply new_streamed.
Qed.

Lemma getEncoders_ok f1 f2 f3 enc vals pe se :
  poolOk f1 -> poolOk f2 -> poolOk f3 -> dbOk enc vals -> DBE.getEncoders f1 f2 f3 enc = (pe, se) -> encodersOk pe se (db_lastVal enc) vals.
Proof.
  intros H1 H2 H3 HO HE. unfold dbOk, DBE.getEncoders in *. destruct (db_encoders enc) as [[pe0 se0]|]; [now injection HE as <- <-|]. destruct HO as [-> ->]. now apply (newEncoders_ok f1 f2 f3).
Qed.

Lemma dbPut_ok f1 f2 f3 enc done vals :
  poolOk f1 -> poolOk f2 -> poolOk f3 -> dbOk enc done -> sized (done ++ vals) -> small (done ++ vals) -> dbOk (DBE.Put f1 f2 f3 enc vals) (done ++ vals).
Proof.
  intros H1 H2 H3 HO Hs Hm. unfold DBE.Put. destruct (Z.eqb_spec (len vals) 0) as [H0|H0]; [destruct vals; [now rewrite app_nil_r|cbn in H0; lia]|].
  destruct (DBE.getEncoders f1 f2 f3 enc) as [pe se] eqn:E. pose proof (getEncoders_ok f1 f2 f3 enc done pe se H1 H2 H3 HO E) as HO'.
  destruct (fold_left DBE.putBatch _ _) as [[pe' se'] last'] eqn:E2. cbn [dbOk db_encoders db_lastVal]. rewrite <- (byteBatches_concat vals) in Hs, Hm |- * at 1. exact (frontBatches_ok _ _ _ _ _ _ _ _ HO' Hs Hm E2).
Qed.

(** The page: prefix lengths, suffix lengths and suffixes. *)
Definition frontPage vals (page : list Z) : Prop :=
  exists p1 p2 ps ss l, DBE.split [] vals = (ps, ss, l) /\ page = p1 ++ p2 ++ List.concat ss /\ pageOf true p1 ps /\ pageOf true p2 (byteLens ss).

Lemma split_nonempty vals ps ss l : DBE.split [] vals = (ps, ss, l) -> sized vals -> vals <> [] -> ps <> [] /\ ss <> [].
Proof.
  intros E Hs Hne. destruct (split_ok _ _ _ _ _ E Hs) as (_ & _ & HF & _ & _ & HL). apply Forall2_sizes in HF as [HF _].
  destruct vals as [|v vals]; [congruence|]. cbn [List.length] in *. split; intros ->; cbn in *; lia.
Qed.

Lemma dbFlush_ok f1 f2 f3 g1 g2 g3 g4 g5 enc vals :
  Forall poolOk [f1; f2; f3; g1; g2; g3; g4; g5] -> dbOk enc vals -> vals <> [] -> sized vals -> small vals ->
  exists enc' page, DBE.FlushValues f1 f2 f3 g1 g2 g3 g4 g5 enc = Some (enc', page) /\ dbOk enc' [] /\ frontPage vals page.
Proof.
  intros HF HO Hne Hs Hm. rewrite !Forall_cons_iff in HF. destruct HF as (Hf1 & Hf2 & Hf3 & Hg1 & Hg2 & Hg3 & Hg4 & Hg5 & _).
  unfold DBE.FlushValues. destruct (DBE.getEncoders f1 f2 f3 enc) as [pe se] eqn:E. apply (getEncoders_ok f1 f2 f3 enc vals pe se Hf1 Hf2 Hf3 HO) in E. unfold encodersOk in E.
  destruct (DBE.split [] vals) as [[ps ss] l] eqn:ES. destruct E as (HP & HD & _). destruct (split_nonempty _ _ _ _ ES Hs Hne) as [Hps Hss]. destruct (small_split _ _ _ _ ES Hs Hm) as [Hm1 Hm2].
  destruct (split_ok _ _ _ _ _ ES Hs) as (_ & _ & _ & Hsz & HT & _).
  destruct (flush_page true pe g1 ps HP (proj1 Hg1) Hps HT Hm2) as (pe' & p1 & -> & Hr & Hp1). cbn [opt_bind].
  destruct (dlFlush_ok se ss g2 g3 g4 HD Hss Hsz Hm1 Hg2 Hg3 Hg4) as (se' & p2 & -> & Hd & Hp2). cbn [opt_bind]. rewrite concatInto_ok by assumption. cbn [opt_bind].
  eexists _, _. split; [reflexivity|]. split; [|exists p1, p2, ps, ss, l; auto]. cbn [dbOk db_encoders db_lastVal]. unfold encodersOk. cbn [DBE.split]. auto.
Qed.

(** ** The front-coding decoder *)

Definition lastBytes (d : DeltaByteArrayDecoder) : list Z := match bd_lastVal d with Some v => ba v | None => [] end.

(** A last value in the scratch buffer is within it. *)
Definition scratchInv (d : DeltaByteArrayDecoder) : Prop :=
  match bd_lastVal d with Some v => ba_scratch v = true -> len (ba v) <= bd_discardScratch d | None => True end.

(** No byte of the value can be overwritten by a later [Discard]. *)
Definition detached (v : ByteArray) : Prop := ba_scratch v = true -> ba v = [].

Lemma unalias_ok scratch v :
  (ba_scratch v = true -> len (ba v) <= scratch) ->
  ba (DBD.unalias scratch v) = ba v /\ detached (DBD.unalias scratch v) /\ (ba_scratch (DBD.unalias scratch v) = true -> len (ba (DBD.unalias scratch v)) <= scratch).
Proof.
  intros Hs. unfold DBD.unalias, detached. destruct v as [pre [|]]; cbn [ba ba_scratch] in *; [|rewrite andb_false_r; splits; auto; discriminate]. specialize (Hs eq_refl).
  destruct (Z.ltb_spec 0 (len pre)); [bool_lia (0 <? scratch); splits; auto; discriminate|]. cbn [andb ba ba_scratch]. splits; auto. intros _. destruct pre; [reflexivity|cbn in *; lia].
Qed.

(** The decoder will deliver [vals]. *)
Definition dbdOk (d : DeltaByteArrayDecoder) vals : Prop :=
  exists ss, dldOk (bd_dec d) ss /\ fronts (lastBytes d) (bd_prefixLengths d) ss vals /\ scratchInv d /\ len (List.concat vals) <= MaxInt64.

(** The part of the arena that [n] values take. *)
Fixpoint need (n : nat) (ss vals : list (list Z)) : Z :=
  match n, ss, vals with
  | S n', s :: ss', v :: vals' => (if len s =? 0 then 0 else len v) + need n' ss' vals'
  | _, _, _ => 0
  end.

Lemma need_nonneg n ss vals : 0 <= need n ss vals.
Proof. revert ss vals. induction n as [|n IH]; intros [|s ss] [|v vals]; cbn [need]; try lia. specialize (IH ss vals). destruct (len s =? 0); lia. Qed.

Lemma fronts_len last ps ss vals : fronts last ps ss vals -> List.length ps = List.length vals /\ List.length ss = List.length vals.
Proof. revert last ss vals. induction ps as [|p ps IH]; intros last [|s ss] [|v vals]; cbn [fronts List.length]; try tauto. intros (_ & _ & HF). apply IH in HF. lia. Qed.

Lemma arenaLoop_ok n last ps ss vals tot :
  fronts last ps ss vals -> (n <= List.length vals)%nat -> 0 <= tot -> tot + len (List.concat vals) <= MaxInt64 ->
  DBD.arenaLoop n ps (byteLens ss) (len last) tot = inl (tot + need n ss vals).
Proof.
  revert last ps ss vals tot. induction n as [|n IH]; intros last ps ss vals tot HF Hn Ht HM; cbn [DBD.arenaLoop need]; [f_equal; lia|].
  destruct ps as [|p ps], ss as [|s ss], vals as [|v vals]; cbn [fronts List.length List.concat byteLens map] in *; try tauto; try lia. fold (byteLens ss). destruct HF as (Hp & Hv & HF).
  assert (HLv : len v = p + len s) by (rewrite Hv, length_app, length_firstn; lia). rewrite length_app in HM. unfold MaxInt64 in *.
  bool_lia (p <? 0). bool_lia (len last <? p). cbn [orb]. bool_lia (len s <? 0). rewrite (proj2 (Z.ltb_ge (9223372036854775807 - p) (len s))) by lia.
  destruct (Z.eqb_spec (len s) 0) as [H0|H0]; cbn [negb].
  - replace (p + len s) with (len v) by lia. rewrite (IH v ps ss vals tot) by (auto; lia). f_equal; lia.
  - rewrite (proj2 (Z.ltb_ge (9223372036854775807 - tot) (p + len s))) by lia. replace (p + len s) with (len v) by lia. rewrite (IH v ps ss vals) by (auto; lia). f_equal; lia.
Qed.

Lemma dbdLoop_ok n arena off d ss vals :
  fronts (lastBytes d) (bd_prefixLengths d) ss vals -> (n <= List.length vals)%nat -> bd_lastVal d <> None -> scratchInv d -> off + need n ss vals <= arena ->
  exists d' outs, DBD.decodeLoop arena off d (firstn n ss) = Some (d', outs, None) /\ map ba outs = firstn n vals /\ Forall detached outs /\
    bd_dec d' = bd_dec d /\ bd_lastVal d' <> None /\ scratchInv d' /\ fronts (lastBytes d') (bd_prefixLengths d') (skipn n ss) (skipn n vals).
Proof.
  revert off d ss vals. induction n as [|n IH]; intros off d ss vals HF Hn Hl Hsc Ha; [exists d, []; splits; auto|].
  destruct d as [dec prefixes [lv|] scratch]; [|cbn in Hl; congruence]. unfold scratchInv, lastBytes in HF, Hsc. cbn [bd_lastVal bd_prefixLengths bd_discardScratch] in *.
  destruct prefixes as [|p ps], ss as [|s ss], vals as [|v vals]; cbn [fronts List.length] in *; try tauto; try lia. destruct HF as (Hp & Hv & HF).
  cbn [firstn skipn DBD.decodeLoop bd_prefixLengths bd_lastVal need] in *. rewrite slice_ok by lia. cbn [opt_bind Z.to_nat skipn]. rewrite Z.sub_0_r. set (pre := firstn (Z.to_nat p) (ba lv)) in *.
  assert (HLp : len pre = p) by (subst pre; rewrite length_firstn; lia). cbn [ba ba_scratch bd_discardScratch bd_dec]. pose proof (need_nonneg n ss vals) as Hnn.
  destruct (Z.eqb_spec (len s) 0) as [H0|H0].
  - assert (s = []) as -> by (destruct s; [reflexivity|cbn in H0; lia]). rewrite app_nil_r in Hv. subst v.
    set (pv := DBD.unalias scratch (mkBA pre (ba_scratch lv))). destruct (unalias_ok scratch (mkBA pre (ba_scratch lv))) as (Hpv & Hdet & Hsp); [cbn [ba ba_scratch]; intros Hf; specialize (Hsc Hf); lia|]. fold pv in Hpv, Hdet, Hsp. cbn [ba] in Hpv.
    destruct (IH off (mkDBD dec ps (Some pv) scratch) ss vals) as (d' & outs & -> & Hm & HFd & HD & HN & Hsc' & HF'); cbn [bd_lastVal bd_prefixLengths lastBytes scratchInv]; [now rewrite Hpv|lia|discriminate|exact Hsp|lia|].
    cbn [opt_bind]. exists d', (pv :: outs). splits; auto. cbn [map]. now rewrite Hpv, Hm.
  - assert (HLv : len v = p + len s) by (rewrite Hv, length_app; lia). unfold DBD.inArena. rewrite (proj2 (Z.leb_le 0 _)), (proj2 (Z.leb_le (off + _) _)) by lia. cbn [andb opt_bind].
    rewrite <- Hv, firstn_all2 by lia.
    destruct (IH (off + (p + len s)) (mkDBD dec ps (Some (mkBA v false)) scratch) ss vals) as (d' & outs & -> & Hm & HFd & HD & HN & Hsc' & HF'); cbn [bd_lastVal bd_prefixLengths lastBytes scratchInv ba]; auto; [lia|discriminate|discriminate|lia|].
    cbn [opt_bind]. exists d', (mkBA v false :: outs). splits; auto. { cbn [map ba]. now rewrite Hm. } constructor; [discriminate|exact HFd].
Qed.

Lemma concat_skipn_le n vals : len (List.concat (skipn n vals)) <= len (List.concat vals).
Proof. rewrite <- (firstn_skipn n vals) at 2. rewrite concat_app, length_app. lia. Qed.

Lemma dbdDecode_ok d vals out :
  dbdOk d vals -> let n := Nat.min (List.length out) (List.length vals) in
  exists d' outs, DBD.Decode d out = Some (d', outs ++ skipn n out, Z.of_nat n, None) /\ map ba outs = firstn n vals /\ Forall detached outs /\ dbdOk d' (skipn n vals).
Proof.
  intros (ss & HD & HF & Hsc & HM) n. assert (Hn1 : (n <= List.length vals)%nat) by lia. pose proof (fronts_len _ _ _ _ HF) as [HLp HLs]. pose proof HD as (Hnv & HLd & _). unfold DBD.Decode. rewrite Hnv, HLs.
  replace (Z.min (len out) (len vals)) with (Z.of_nat n) by lia. rewrite Nat2Z.id. destruct (Z.eqb_spec (Z.of_nat n) 0) as [H0|H0].
  { replace n with O by lia. exists d, []. splits; auto. now exists ss. }
  destruct (dldDecode_ok (bd_dec d) ss (repeat [] n) HD) as (dec & HE & HD'). rewrite repeat_length, HLs in HE, HD'. replace (Nat.min n (List.length vals)) with n in HE, HD' by lia.
  rewrite (skipn_all2 (repeat [] n)), app_nil_r in HE by (rewrite repeat_length; lia). unfold DBD.decodedArenaSize. rewrite HLd. destruct (bd_lastVal d) as [lv|] eqn:El.
  - assert (Hlb : lastBytes d = ba lv) by (unfold lastBytes; now rewrite El). rewrite Nat2Z.id, <- Hlb, (arenaLoop_ok n (lastBytes d) _ ss vals 0 HF) by lia.
    rewrite HE. cbn [opt_bind bd_lastVal]. rewrite Z.eqb_refl. cbn [negb bd_lastVal].
    destruct (dbdLoop_ok n (0 + need n ss vals) 0 (mkDBD dec (bd_prefixLengths d) (Some lv) (bd_discardScratch d)) ss vals) as (d' & outs & -> & Hm & HFd & Hdec & _ & Hsc' & HF'); try lia; auto.
    { unfold lastBytes in *. cbn [bd_lastVal bd_prefixLengths]. now rewrite El in HF. } { discriminate. } { unfold scratchInv in *. cbn [bd_lastVal bd_discardScratch]. now rewrite El in Hsc. }
    cbn [opt_bind app]. exists d', outs. splits; auto. exists (skipn n ss). rewrite Hdec. splits; auto. pose proof (concat_skipn_le n vals). lia.
  - unfold lastBytes in HF. rewrite El in HF. destruct (bd_prefixLengths d) as [|p ps] eqn:Ep, ss as [|s ss], vals as [|v vals]; cbn [fronts List.length] in *; try tauto; try lia.
    destruct HF as (Hp & Hv & HF). assert (p = 0) as -> by lia. cbn [Z.eqb negb byteLens map firstn Z.to_nat app] in *. fold (byteLens ss). subst v. cbn [List.concat] in HM. rewrite length_app in HM.
    destruct n as [|n']; [lia|]. rewrite (proj2 (Z.ltb_ge (len s) 0)) by lia. replace (Z.to_nat (Z.of_nat (S n') - 1)) with n' by lia. rewrite (arenaLoop_ok n' s ps ss vals) by (auto; lia).
    rewrite HE. cbn [opt_bind bd_lastVal bd_prefixLengths bd_discardScratch]. rewrite Z.eqb_refl. cbn [negb]. unfold index. cbn [firstn List.length Z.to_nat nth_error].
    bool_lia (0 <=? 0). bool_lia (0 <? Z.of_nat (S (List.length (firstn n' ss)))). cbn [andb opt_bind]. pose proof (need_nonneg n' ss vals). unfold DBD.inArena. rewrite (proj2 (Z.leb_le 0 _)), (proj2 (Z.leb_le (0 + _) _)) by lia. cbn [andb opt_bind].
    rewrite slice_ok by (cbn [List.length]; lia). cbn [opt_bind Z.to_nat]. change (Z.to_nat 1) with 1%nat. cbn [skipn List.length]. rewrite (firstn_all2 ps) by lia.
    destruct (dbdLoop_ok n' (len s + need n' ss vals) (len s) (mkDBD dec ps (Some (mkBA s false)) (bd_discardScratch d)) ss vals) as (d' & outs & -> & Hm & HFd & Hdec & _ & Hsc' & HF'); try lia; auto; try discriminate.
    cbn [opt_bind app]. exists d', (mkBA s false :: outs). splits; auto; [cbn [map ba firstn]; now rewrite Hm|constructor; [discriminate|exact HFd]|].
    exists (skipn n' ss). rewrite Hdec. splits; auto. cbn [skipn]. pose proof (concat_skipn_le n' vals). lia.
Qed.

Lemma dbdDiscardLoop_ok n d ss vals :
  dldOk (bd_dec d) ss -> fronts (lastBytes d) (bd_prefixLengths d) ss vals -> (n <= List.length vals)%nat -> bd_lastVal d <> None -> scratchInv d ->
  exists d', DBD.discardLoop n d = Some (d', 0, None) /\ dldOk (bd_dec d') (skipn n ss) /\
    fronts (lastBytes d') (bd_prefixLengths d') (skipn n ss) (skipn n vals) /\ scratchInv d'.
Proof.
  revert d ss vals. induction n as [|n IH]; intros d ss vals HD HF Hn Hl Hsc; [exists d; auto|].
  destruct d as [dec prefixes [lv|] scratch]; [|cbn in Hl; congruence]. unfold scratchInv, lastBytes in HF, Hsc. cbn [bd_lastVal bd_prefixLengths bd_discardScratch bd_dec] in *.
  destruct prefixes as [|p ps], ss as [|s ss], vals as [|v vals]; cbn [fronts List.length] in *; try tauto; try lia. destruct HF as (Hp & Hv & HF).
  cbn [DBD.discardLoop bd_prefixLengths bd_lastVal bd_dec bd_discardScratch skipn]. bool_lia (p <? 0). bool_lia (len (ba lv) <? p). cbn [orb]. rewrite slice_ok by lia. cbn [opt_bind Z.to_nat skipn]. rewrite Z.sub_0_r.
  destruct (decodeOne_ok dec s ss HD) as (dec' & -> & HD'). cbn [opt_bind]. set (pre := firstn (Z.to_nat p) (ba lv)) in *. assert (HLp : len pre = p) by (subst pre; rewrite length_firstn; lia).
  apply IH; try lia.
  - destruct (len s =? 0); exact HD'.
  - destruct (Z.eqb_spec (len s) 0) as [H0|H0]; unfold lastBytes; cbn [bd_lastVal bd_prefixLengths DBD.setDiscardLastValue ba]; [|now rewrite <- Hv].
    assert (s = []) as -> by (destruct s; [reflexivity|cbn in H0; lia]). rewrite app_nil_r in Hv. now rewrite <- Hv.
  - destruct (len s =? 0); discriminate.
  - destruct (len s =? 0); unfold scratchInv; cbn [bd_lastVal ba ba_scratch bd_discardScratch DBD.setDiscardLastValue]; intros Hf; [specialize (Hsc Hf); lia|rewrite length_app; lia].
Qed.

Lemma dbdDiscard_ok d vals k :
  dbdOk d vals -> let n := Nat.min k (List.length vals) in
  exists d', DBD.Discard d (Z.of_nat k) = Some (d', Z.of_nat n, None) /\ dbdOk d' (skipn n vals).
Proof.
  intros (ss & HD & HF & Hsc & HM) n. assert (Hn1 : (n <= List.length vals)%nat) by lia. pose proof (fronts_len _ _ _ _ HF) as [HLp HLs]. pose proof HD as (Hnv & HLd & _).
  pose proof (concat_skipn_le n vals) as HMn. unfold DBD.Discard. rewrite Hnv, HLs. replace (Z.min (Z.of_nat k) (len vals)) with (Z.of_nat n) by lia. clearbody n. destruct (Z.eqb_spec (Z.of_nat n) 0) as [H0|H0].
  { replace n with O by lia. exists d. split; [reflexivity|]. exists ss. auto. }
  destruct (bd_lastVal d) as [lv|] eqn:El.
  - rewrite Nat2Z.id. destruct (dbdDiscardLoop_ok n d ss vals HD HF Hn1 ltac:(congruence) Hsc) as (d' & -> & HD' & HF' & Hsc'). cbn [opt_bind]. rewrite Z.sub_0_r. exists d'. split; [reflexivity|]. exists (skipn n ss). splits; auto. lia.
  - unfold lastBytes in HF. rewrite El in HF. destruct (bd_prefixLengths d) as [|p ps] eqn:Ep, ss as [|s ss], vals as [|v vals]; cbn [fronts List.length] in *; try tauto; try lia.
    destruct HF as (Hp & Hv & HF). assert (p = 0) as -> by lia. cbn [Z.eqb negb firstn Z.to_nat app] in *. subst v. destruct n as [|n]; [lia|].
    destruct (decodeOne_ok (bd_dec d) s ss HD) as (dec' & -> & HD'). cbn [opt_bind DBD.setDiscardLastValue bd_dec bd_lastVal bd_discardScratch app]. replace (Z.to_nat (Z.of_nat (S n) - 1)) with n by lia.
    destruct (dbdDiscardLoop_ok n (mkDBD dec' ps (Some (mkBA s true)) (len (@nil Z) + len s)) ss vals HD' HF ltac:(lia) ltac:(discriminate)) as (d' & -> & HD2 & HF2 & Hsc2); [intros _; cbn; lia|].
    cbn [opt_bind skipn]. rewrite Z.sub_0_r. exists d'. split; [reflexivity|]. exists (skipn n ss). cbn [skipn] in HMn. splits; auto. lia.
Qed.

Lemma dbdSetData_ok scratch vals page t nvalues :
  frontPage vals page -> sized vals -> small vals -> bytes t -> len vals <= nvalues < 2 ^ 63 ->
  exists d, DBD.SetData scratch nvalues (page ++ t) = Some (inl d) /\ dbdOk d vals.
Proof.
  intros (p1 & p2 & ps & ss & l & ES & -> & H1 & H2) Hs Hm Ht Hn. destruct (split_ok _ _ _ _ _ ES Hs) as (HF & _ & HF2 & Hsz & HT & HLp). destruct (small_split _ _ _ _ ES Hs Hm) as [[Hm1 Hm2] Hm3].
  apply Forall2_sizes in HF2 as [HLs _]. rewrite <- !app_assoc. set (rest := p2 ++ List.concat ss ++ t).
  assert (Hb : bytes rest) by (apply bytes_app; split; [apply (pageOf_bytes _ _ H2)|apply bytes_app; split; [apply Forall_concat, sized_bytes, Hsz|exact Ht]]).
  destruct (delta_all p1 rest ps nvalues H1 Hb Hm3 ltac:(lia)) as (dec & dec' & HE & Htot & Hnv & HD & HB).
  destruct (dldSetData_ok p2 ss t nvalues H2 Hsz Ht Hm1 ltac:(lia)) as (d & HSD & Hd). fold rest in HSD.
  unfold DBD.SetData. rewrite HE, Htot, Hnv, u64_id, Nat2Z.id by lia. rewrite (proj2 (Z.ltb_ge nvalues 0)), (proj2 (Z.ltb_ge nvalues _)) by lia. cbn [orb]. rewrite HD. cbn [opt_bind]. rewrite Z.eqb_refl. cbn [negb]. rewrite HB.
  rewrite length_app, (proj2 (Z.ltb_ge (len p1) 0)), (proj2 (Z.ltb_ge _ (len p1))) by lia. cbn [orb]. rewrite slice_ok by (rewrite ?length_app; lia). cbn [opt_bind].
  rewrite Nat2Z.id, skipn_app_exact by reflexivity. rewrite firstn_all2 by lia. rewrite HSD. cbn [opt_bind]. pose proof Hd as (Hdn & _). rewrite Hdn. rewrite (proj2 (Z.eqb_eq (len ps) (len ss))) by lia. cbn [negb].
  eexists. split; [reflexivity|]. exists ss. splits; auto; [exact I|]. destruct Hm as [_ Hm]. unfold MaxInt64. lia.
Qed.
