(* ===== verification/DeltaBytesClaims.v ===== *)
(** * Delta encodings of byte arrays: pages

    Sequences of reads on a decoder, the round trips of whole pages, and what holds on any data. *)

From Stdlib Require Import ZArith List Lia Bool.
From S2P Require Import Prelude GoStd BitUtil BitReader Memory BitBlocks DeltaBitPack DeltaFormat DeltaEncode DeltaDecode DeltaSafety Spaced PageOps DeltaBytes DeltaBytesOk.
Import ListNotations.
#[local] Open Scope Z_scope.
#[local] Open Scope go_scope.

Implicit Types vals : list (list Z).

(** ** The encoders and decoders as pages *)

Lemma small_prefix a b : small (a ++ b) -> small a.
Proof. unfold small. rewrite concat_app, !length_app. lia. Qed.

Definition bitsArg (valid : option (list Z * Z)) : option (list Z) := option_map fst valid.
Definition offArg (valid : option (list Z * Z)) : Z := match valid with Some (_, off) => off | None => 0 end.

#[export] Instance lengthEncoder_page : PageEncoder DeltaLengthEncoder (list Z) := { encPut := fun e '(vals, valid) => DLE.PutSpaced e vals (bitsArg valid) (offArg valid) }.

(** [f1] to [f3] are buffers of the pool. *)
Definition frontEncoder_page (f1 f2 f3 : Buffer.t) : PageEncoder DeltaByteArrayEncoder (list Z) :=
  {| encPut := fun e '(vals, valid) => DBE.PutSpaced f1 f2 f3 e vals (bitsArg valid) (offArg valid) |}.

#[export] Instance lengthDecoder_page : PageDecoder DeltaLengthDecoder (list Z) := {
  decDecode := fun d out => r <- DLD.Decode d out ;; let '(d', out', n) := r in Some (d', out', n, None);
  decDiscard := fun d n => r <- DLD.Discard d n ;; let '(d', k) := r in Some (d', k, None);
  decDecodeSpaced := DLD.DecodeSpaced
}.

#[export] Instance frontDecoder_page : PageDecoder DeltaByteArrayDecoder ByteArray := { decDecode := DBD.Decode; decDiscard := DBD.Discard; decDecodeSpaced := DBD.DecodeSpaced }.

Definition fitting vals : Prop := sized vals /\ small vals.

Lemma fitting_prefix a b : fitting (a ++ b) -> fitting a.
Proof. intros [Hs Hm]. apply sized_app in Hs as [Hs _]. apply small_prefix in Hm. split; assumption. Qed.

Definition lengthEncoder_ok : PageEncoderOk DeltaLengthEncoder (list Z).
Proof.
  refine {| hasPut := dlOk; mayPut := fitting; mayPut_prefix := fitting_prefix |}. intros enc done [vals valid] HO HP [Hs Hm].
  assert (Hput : dlOk (DLE.Put enc (putValues (vals, valid))) (done ++ putValues (vals, valid))) by (apply dlPut_ok; auto; now apply sized_app in Hs as [_ ?]).
  destruct valid as [[bits off]|]; cbn [encPut lengthEncoder_page DLE.PutSpaced bitsArg offArg option_map fst putValues putOk] in *; [|eexists; split; [reflexivity|exact Hput]].
  destruct (compressed_ok [] vals bits off HP) as (scratch & nv & -> & Hsl). cbn [opt_bind]. rewrite Hsl. eexists. split; [reflexivity|exact Hput].
Defined.

Definition frontEncoder_ok f1 f2 f3 (H1 : poolOk f1) (H2 : poolOk f2) (H3 : poolOk f3) : @PageEncoderOk DeltaByteArrayEncoder (list Z) (frontEncoder_page f1 f2 f3).
Proof.
  refine (@Build_PageEncoderOk _ _ (frontEncoder_page f1 f2 f3) dbOk fitting fitting_prefix _). intros enc done [vals valid] HO HP [Hs Hm].
  assert (Hput : dbOk (DBE.Put f1 f2 f3 enc (putValues (vals, valid))) (done ++ putValues (vals, valid))) by (apply dbPut_ok; auto).
  destruct valid as [[bits off]|]; cbn [encPut frontEncoder_page DBE.PutSpaced bitsArg offArg option_map fst putValues putOk] in *; [|eexists; split; [reflexivity|exact Hput]].
  destruct (compressed_ok [] vals bits off HP) as (scratch & nv & -> & Hsl). cbn [opt_bind]. rewrite Hsl. eexists. split; [reflexivity|exact Hput].
Defined.

Lemma Forall2_refl {X} (l : list X) : Forall2 eq l l.
Proof. induction l; constructor; auto. Qed.

Definition lengthDecoder_ok : PageDecoderOk DeltaLengthDecoder (list Z) (list Z).
Proof.
  assert (HDec : forall d vals out, let n := Nat.min (List.length out) (List.length vals) in dldOk d vals ->
    exists d' outs, decDecode d out = Some (d', outs ++ skipn n out, Z.of_nat n, None) /\ Forall2 eq outs (firstn n vals) /\ dldOk d' (skipn n vals)).
  { intros d vals out n HD. cbn [decDecode lengthDecoder_page]. destruct (dldDecode_ok d vals out HD) as (d' & -> & HD'). exists d', (firstn n vals). split; [reflexivity|]. split; [apply Forall2_refl|exact HD']. }
  refine {| holdsValues := dldOk; shows := eq; mayTake := anyCount |}; [intros d vals out n HD _; exact (HDec d vals out HD)| |].
  - intros d vals k n HD. cbn [decDiscard lengthDecoder_page]. destruct (dldDiscard_ok d vals k HD) as (d' & -> & HD'). exists d'. split; [reflexivity|exact HD'].
  - intros d vals out bits off n HD _ HB HL. destruct (decodeSpacedBy_ok decDecode dldOk eq SD.mismatch d vals out bits off) as (d' & out' & HE & H'); [|exact HB|exact HL|].
    + intros part HLp. fold n in HLp |- *. destruct (HDec d vals part HD) as (d' & outs & HE & HF & HD'). rewrite HLp in *. replace (Nat.min n (List.length vals)) with n in * by lia.
      rewrite skipn_all2, app_nil_r in HE by lia. eauto.
    + exists d', out'. split; [|exact H']. rewrite <- HE. unfold decodeSpacedBy. cbn [decDecode lengthDecoder_page decDecodeSpaced]. unfold DLD.DecodeSpaced.
      destruct (slice _ _ _) as [part|]; [|reflexivity]. cbn [opt_bind]. destruct (DLD.Decode d part) as [[[? ?] ?]|]; reflexivity.
Defined.

(** A value of the front-coding decoder: the bytes, in memory of their own. *)
Definition showsBytes (a : ByteArray) (v : list Z) : Prop := ba a = v /\ detached a.

Lemma shown outs vals : Forall2 showsBytes outs vals <-> map ba outs = vals /\ Forall detached outs.
Proof.
  split.
  - induction 1 as [|a v outs vals [Ha Hd] _ [Hm HF]]; [split; constructor|]. cbn [map]. split; [congruence|constructor; assumption].
  - intros [<- HF]. induction HF; cbn [map]; constructor; [split; auto|assumption].
Qed.

Definition frontDecoder_ok : PageDecoderOk DeltaByteArrayDecoder ByteArray (list Z).
Proof.
  assert (HDec : forall d vals out, let n := Nat.min (List.length out) (List.length vals) in dbdOk d vals ->
    exists d' outs, DBD.Decode d out = Some (d', outs ++ skipn n out, Z.of_nat n, None) /\ Forall2 showsBytes outs (firstn n vals) /\ dbdOk d' (skipn n vals)).
  { intros d vals out n HD. destruct (dbdDecode_ok d vals out HD) as (d' & outs & HE & Hm & HF & HD'). exists d', outs. rewrite shown. auto. }
  refine {| holdsValues := dbdOk; shows := showsBytes; mayTake := anyCount |}; [intros d vals out n HD _; exact (HDec d vals out HD)| |].
  - intros d vals k n HD. destruct (dbdDiscard_ok d vals k HD) as (d' & HE & HD'). eauto.
  - intros d vals out bits off n HD _ HB HL. apply (decodeSpacedBy_ok DBD.Decode dbdOk showsBytes SD.mismatch d vals out bits off); [|exact HB|exact HL].
    intros part HLp. fold n in HLp |- *. destruct (HDec d vals part HD) as (d' & outs & HE & HF & HD'). rewrite HLp in *. replace (Nat.min n (List.length vals)) with n in * by lia.
    rewrite skipn_all2, app_nil_r in HE by lia. eauto.
Defined.

(** The result of a read, without the addresses. *)
Definition plainResult (r : readResult ByteArray) : readResult (list Z) := let '(vs, n, e) := r in (map ba vs, n, e).

Lemma shownResults res spec : Forall2 (@showsResult _ _ _ _ frontDecoder_ok) res spec -> map plainResult res = spec /\ Forall (fun r => Forall detached (fst (fst r))) res.
Proof.
  induction 1 as [|[[l n] e] [[l' n'] e'] res spec (H1 & H2 & H3) _ [IH1 IH2]]; [split; constructor|]. apply shown in H1 as [H1 HF]. cbn [fst snd map plainResult] in *. split; [congruence|constructor; assumption].
Qed.

(** ** Any data *)

(** The lengths fit the data. *)
Definition dldSafe (d : DeltaLengthDecoder) : Prop :=
  ld_nvals d = len (ld_lengths d) /\ Forall (fun n => 0 <= n) (ld_lengths d) /\ fold_right Z.add 0 (ld_lengths d) <= len (ld_data d).

Lemma sum_nonneg l : Forall (fun n => 0 <= n) l -> 0 <= fold_right Z.add 0 l.
Proof. induction 1; cbn [fold_right]; lia. Qed.

Lemma decodeOne_safe d : dldSafe d -> 0 < ld_nvals d -> exists d' v, DLD.decodeOne d = Some (d', v) /\ dldSafe d' /\ ld_nvals d' = ld_nvals d - 1 /\ ld_lengths d = len v :: ld_lengths d'.
Proof.
  intros (Hn & HF & HS) H0. unfold DLD.decodeOne. destruct (ld_lengths d) as [|n ls]; [cbn in Hn; lia|]. cbn [fold_right] in HS. inversion_clear HF as [|? ? Hn0 HF']. pose proof (sum_nonneg ls HF') as Hs.
  unfold index. cbn [List.length Z.to_nat nth_error]. bool_lia (0 <=? 0). bool_lia (0 <? Z.of_nat (S (List.length ls))). cbn [andb opt_bind]. rewrite !slice_ok by lia. cbn [opt_bind skipn Z.to_nat].
  eexists _, _. split; [reflexivity|]. rewrite Z.sub_0_r, length_firstn. splits; [|reflexivity|cbn [ld_lengths]; f_equal; lia]. split; [|split].
  - cbn [ld_nvals ld_lengths List.length] in *. lia.
  - exact HF'.
  - cbn [ld_lengths ld_data]. rewrite length_firstn, length_skipn. lia.
Qed.

Lemma dldLoop_safe n d :
  dldSafe d -> Z.of_nat n <= ld_nvals d ->
  exists d' vs, DLD.decodeLoop n d = Some (d', vs) /\ dldSafe d' /\ ld_nvals d' = ld_nvals d - Z.of_nat n /\ List.length vs = n /\ ld_lengths d = byteLens vs ++ ld_lengths d'.
Proof.
  revert d. induction n as [|n IH]; intros d Hd Hn; cbn [DLD.decodeLoop]; [exists d, []; splits; auto; lia|].
  destruct (decodeOne_safe d Hd ltac:(lia)) as (d1 & v & -> & Hd1 & Hn1 & HL1). cbn [opt_bind]. destruct (IH d1 Hd1 ltac:(lia)) as (d' & vs & -> & Hd' & Hn' & HLv & HL'). cbn [opt_bind].
  eexists _, _. split; [reflexivity|]. splits; [exact Hd'|lia|cbn [List.length]; lia|]. rewrite HL1, HL'. reflexivity.
Qed.

Lemma checkLengths_safe payload tot lengths :
  DLD.checkLengths payload tot lengths = None -> Forall (fun n => 0 <= n) lengths /\ tot + fold_right Z.add 0 lengths <= Z.max payload tot.
Proof.
  revert tot. induction lengths as [|n ls IH]; intros tot; cbn [DLD.checkLengths fold_right]; [intros _; split; [constructor|lia]|].
  destruct (Z.ltb_spec n 0); [discriminate|]. destruct (Z.ltb_spec (payload - tot) n); [discriminate|]. intros HE. apply IH in HE as [HF HS]. split; [now constructor|lia].
Qed.

Lemma SetData_total is32 nvalues data d : DD.SetData is32 nvalues data = inl d -> dd_totalValues d = dd_nvals d.
Proof.
  unfold DD.SetData. repeat match goal with |- context [match ?x with _ => _ end] => destruct x; try discriminate end. now intros [= <-].
Qed.

(** All numbers of a delta page, on any data. *)
Lemma delta_all_safe nvalues data dec :
  bytes data -> DD.SetData true nvalues data = inl dec ->
  0 <= dd_nvals dec <= nvalues /\ exists dec' ls n e, DD.Decode dec (repeat 0 (Z.to_nat (dd_nvals dec))) = Some (dec', ls, n, e) /\ len ls = dd_nvals dec.
Proof.
  intros Hb HE. destruct (SetData_safe true nvalues data dec Hb HE) as [Hs Hn]. pose proof (sf_nvals _ Hs). split; [lia|].
  destruct (Decode_safe dec (repeat 0 (Z.to_nat (dd_nvals dec))) Hs) as (dec' & ls & n & e & -> & HL & _). rewrite repeat_length in HL. exists dec', ls, n, e. split; [reflexivity|lia].
Qed.

(** The page is refused. *)
Ltac error_result := eexists; split; [reflexivity|exact I].

Lemma dldSetData_safe nvalues data :
  bytes data -> exists r, DLD.SetData nvalues data = Some r /\ match r with inl d => dldSafe d /\ 0 <= ld_nvals d <= nvalues | inr _ => True end.
Proof.
  intros Hb. unfold DLD.SetData. destruct (DD.SetData true nvalues data) as [dec|e] eqn:E; [|error_result]. rewrite (SetData_total _ _ _ _ E).
  destruct (delta_all_safe nvalues data dec Hb E) as (Hn & dec' & ls & n & e & HD & HL). destruct (u64 nvalues <? dd_nvals dec); [error_result|]. rewrite HD. cbn [opt_bind].
  destruct e as [e|]; [error_result|]. destruct (negb _); [error_result|].
  destruct (Z.ltb_spec (DD.bytesRead dec') 0), (Z.ltb_spec (len data) (DD.bytesRead dec')); cbn [orb]; try error_result. rewrite slice_ok by lia. cbn [opt_bind].
  set (payload := firstn _ _). destruct (DLD.checkLengths _ _ _) as [e|] eqn:EC; [error_result|]. apply checkLengths_safe in EC as [HF HS]. eexists. split; [reflexivity|]. split; [|cbn [ld_nvals]; lia].
  split; [reflexivity|]. split; [exact HF|]. cbn [ld_lengths ld_data]. lia.
Qed.

Definition dbdSafe (d : DeltaByteArrayDecoder) : Prop := dldSafe (bd_dec d) /\ scratchInv d.

Lemma arenaLoop_mono n ps ls prev tot tot' : 0 <= tot -> DBD.arenaLoop n ps ls prev tot = inl tot' -> tot <= tot'.
Proof.
  revert ps ls prev tot. induction n as [|n IH]; intros ps ls prev tot H0; cbn [DBD.arenaLoop]; [intros [= <-]; lia|]. destruct ps as [|p ps], ls as [|l ls]; try discriminate.
  destruct (Z.ltb_spec p 0), (Z.ltb_spec prev p); cbn [orb]; try discriminate. destruct (Z.ltb_spec l 0); [discriminate|]. destruct (_ <? l); [discriminate|].
  destruct (Z.eqb_spec l 0); cbn [negb]; [intros HE; apply IH in HE; lia|]. destruct (_ <? p + l); [discriminate|]. intros HE. apply IH in HE; lia.
Qed.

(** The arena that has been computed is large enough, and the prefixes are within the values. *)
Lemma dbdLoop_safe suffixes rest arena off d tot tot' :
  DBD.arenaLoop (List.length suffixes) (bd_prefixLengths d) (byteLens suffixes ++ rest) (len (lastBytes d)) tot = inl tot' ->
  bd_lastVal d <> None -> scratchInv d -> 0 <= tot -> off + (tot' - tot) <= arena ->
  exists d' outs, DBD.decodeLoop arena off d suffixes = Some (d', outs, None) /\ List.length outs = List.length suffixes /\ Forall detached outs /\ bd_dec d' = bd_dec d /\ scratchInv d'.
Proof.
  revert off d tot. induction suffixes as [|s suffixes IH]; intros off d tot HA Hl Hsc Ht Hoff; [exists d, []; splits; auto|].
  destruct d as [dec prefixes [lv|] scratch]; [|cbn in Hl; congruence]. unfold scratchInv, lastBytes in HA, Hsc. cbn [bd_lastVal bd_prefixLengths bd_discardScratch DBD.arenaLoop DBD.decodeLoop List.length byteLens map app] in *.
  fold (byteLens suffixes) in HA. destruct prefixes as [|p ps]; [discriminate|]. destruct (Z.ltb_spec p 0), (Z.ltb_spec (len (ba lv)) p); cbn [orb] in HA; try discriminate.
  destruct (Z.ltb_spec (len s) 0); [lia|]. destruct (_ <? len s); [discriminate|]. rewrite slice_ok by lia. cbn [opt_bind Z.to_nat skipn ba ba_scratch bd_dec]. rewrite Z.sub_0_r. set (pre := firstn (Z.to_nat p) (ba lv)) in *.
  assert (HLp : len pre = p) by (subst pre; rewrite length_firstn; lia). destruct (Z.eqb_spec (len s) 0) as [Hz|Hz]; cbn [negb] in HA.
  - set (pv := DBD.unalias scratch (mkBA pre (ba_scratch lv))). destruct (unalias_ok scratch (mkBA pre (ba_scratch lv))) as (Hpv & Hdet & Hsp); [cbn [ba ba_scratch]; intros Hf; specialize (Hsc Hf); lia|]. fold pv in Hpv, Hdet, Hsp. cbn [ba] in Hpv.
    destruct (IH off (mkDBD dec ps (Some pv) scratch) tot) as (d' & outs & -> & HLo & HFd & HD & Hsc'); cbn [bd_lastVal bd_prefixLengths lastBytes scratchInv]; [|discriminate|exact Hsp|assumption|assumption|].
    { rewrite Hpv. replace (len pre) with (p + len s) by lia. exact HA. }
    cbn [opt_bind]. eexists _, _. split; [reflexivity|]. cbn [List.length]. splits; auto.
  - destruct (_ <? p + len s); [discriminate|]. pose proof HA as Hmono. apply arenaLoop_mono in Hmono; [|lia]. unfold DBD.inArena. rewrite (proj2 (Z.leb_le 0 _)), (proj2 (Z.leb_le (off + _) _)) by lia. cbn [andb opt_bind].
    rewrite firstn_all2 by (rewrite length_app; lia).
    destruct (IH (off + (p + len s)) (mkDBD dec ps (Some (mkBA (pre ++ s) false)) scratch) (tot + (p + len s))) as (d' & outs & -> & HLo & HFd & HD & Hsc'); cbn [bd_lastVal bd_prefixLengths lastBytes scratchInv ba]; try discriminate; try lia; auto.
    { rewrite length_app, Nat2Z.inj_add, HLp. exact HA. }
    cbn [opt_bind]. eexists _, _. split; [reflexivity|]. cbn [List.length]. splits; auto. constructor; [discriminate|exact HFd].
Qed.

Lemma byteLens_len vs : List.length (byteLens vs) = List.length vs.
Proof. apply length_map. Qed.

Lemma dbdDecode_safe d out :
  dbdSafe d -> exists d' out' n e, DBD.Decode d out = Some (d', out', n, e) /\ dbdSafe d' /\ List.length out' = List.length out /\
    match e with
    | None => 0 <= n <= len out /\ ld_nvals (bd_dec d') = ld_nvals (bd_dec d) - n /\ Forall detached (firstn (Z.to_nat n) out')
    | Some _ => n = 0 /\ ld_nvals (bd_dec d') <= ld_nvals (bd_dec d)
    end.
Proof.
  intros [HD Hsc]. pose proof HD as (Hnv & _). unfold DBD.Decode. set (max := Z.min (len out) (ld_nvals (bd_dec d))). destruct (Z.eqb_spec max 0) as [H0|H0].
  { exists d, out, 0, None. split; [reflexivity|]. split; [now split|]. split; [reflexivity|]. splits; try lia. constructor. }
  destruct (DBD.decodedArenaSize d max) as [arena|e] eqn:EA; [|exists d, out, 0, (Some e); split; [reflexivity|]; split; [now split|]; split; [reflexivity|]; split; [reflexivity|lia]].
  destruct (dldLoop_safe (Z.to_nat max) (bd_dec d) HD ltac:(lia)) as (dec & ss & HE & HD' & Hn' & HLs & HL'). unfold DLD.Decode. rewrite repeat_length. replace (Z.min (Z.of_nat (Z.to_nat max)) (ld_nvals (bd_dec d))) with max by lia.
  rewrite HE. cbn [opt_bind]. rewrite Z.eqb_refl. cbn [negb]. rewrite (skipn_all2 (repeat [] (Z.to_nat max))), app_nil_r by (rewrite repeat_length; lia). rewrite Z2Nat.id in Hn' by lia.
  unfold DBD.decodedArenaSize in EA. rewrite HL' in EA. cbn [bd_lastVal bd_prefixLengths bd_discardScratch]. destruct (bd_lastVal d) as [lv|] eqn:El.
  - destruct (dbdLoop_safe ss (ld_lengths dec) arena 0 (mkDBD dec (bd_prefixLengths d) (Some lv) (bd_discardScratch d)) 0 arena) as (d' & outs & -> & HLo & HFd & Hdec & Hsc'); try lia; try discriminate.
    { rewrite HLs. exact EA. } { unfold scratchInv in *. cbn [bd_lastVal bd_discardScratch]. now rewrite El in Hsc. }
    cbn [opt_bind]. eexists d', _, max, None. split; [reflexivity|]. split; [split; [now rewrite Hdec|exact Hsc']|]. split; [cbn [app]; rewrite length_app, length_skipn; lia|]. splits; try lia; [rewrite Hdec; exact Hn'|].
    cbn [app]. rewrite firstn_app_exact by lia. exact HFd.
  - destruct (bd_prefixLengths d) as [|p ps] eqn:Ep; [discriminate|]. destruct (negb (p =? 0)); [discriminate|]. destruct ss as [|s ss]; [cbn in HLs; lia|]. cbn [byteLens map app] in EA. fold (byteLens ss) in EA.
    destruct (Z.ltb_spec (len s) 0); [lia|]. pose proof EA as Hmono. apply arenaLoop_mono in Hmono; [|lia]. unfold index. cbn [List.length Z.to_nat nth_error] in *. bool_lia (0 <=? 0). bool_lia (0 <? Z.of_nat (S (List.length ss))). cbn [andb opt_bind].
    unfold DBD.inArena. rewrite (proj2 (Z.leb_le 0 _)), (proj2 (Z.leb_le (0 + _) _)) by lia. cbn [andb opt_bind]. rewrite slice_ok by (cbn [List.length]; lia). cbn [opt_bind]. change (Z.to_nat 1) with 1%nat. cbn [skipn]. rewrite (firstn_all2 ps) by (cbn [List.length]; lia).
    destruct (dbdLoop_safe ss (ld_lengths dec) arena (len s) (mkDBD dec ps (Some (mkBA s false)) (bd_discardScratch d)) (len s) arena) as (d' & outs & -> & HLo & HFd & Hdec & Hsc'); try lia; try discriminate.
    { replace (List.length ss) with (Z.to_nat (max - 1)) by lia. exact EA. }
    cbn [opt_bind app]. eexists d', _, max, None. split; [reflexivity|]. split; [split; [now rewrite Hdec|exact Hsc']|]. split; [cbn [List.length]; rewrite length_app, length_skipn; lia|]. splits; try lia; [rewrite Hdec; exact Hn'|].
    replace (Z.to_nat max) with (List.length (mkBA s false :: outs)) by (cbn [List.length]; lia). rewrite app_comm_cons, firstn_app_exact by reflexivity. constructor; [discriminate|exact HFd].
Qed.

Lemma dbdDiscardLoop_safe n d :
  dbdSafe d -> Z.of_nat n <= ld_nvals (bd_dec d) ->
  exists d' k e, DBD.discardLoop n d = Some (d', k, e) /\ dbdSafe d' /\ ld_nvals (bd_dec d') <= ld_nvals (bd_dec d).
Proof.
  revert d. induction n as [|n IH]; intros d Hd Hn; cbn [DBD.discardLoop]; [exists d, 0, None; splits; auto; lia|]. destruct Hd as [HD Hsc].
  destruct (bd_prefixLengths d) as [|p ps] eqn:Ep; [exists d, (Z.of_nat (S n)), (Some DBD.fewPrefixes); splits; auto; [now split|lia]|]. cbn [bd_lastVal bd_dec bd_discardScratch].
  set (lv := match bd_lastVal d with Some v => v | None => mkBA [] false end). assert (Hlv : ba_scratch lv = true -> len (ba lv) <= bd_discardScratch d) by (subst lv; unfold scratchInv in Hsc; destruct (bd_lastVal d); [exact Hsc|discriminate]).
  destruct (Z.ltb_spec p 0); cbn [orb]; [eexists _, _, _; split; [reflexivity|]; split; [split; [exact HD|exact Hsc]|cbn [bd_dec]; lia]|].
  destruct (Z.ltb_spec (len (ba lv)) p); [eexists _, _, _; split; [reflexivity|]; split; [split; [exact HD|exact Hsc]|cbn [bd_dec]; lia]|]. rewrite slice_ok by lia. cbn [opt_bind Z.to_nat skipn]. rewrite Z.sub_0_r.
  destruct (decodeOne_safe (bd_dec d) HD ltac:(lia)) as (dec & s & -> & HD' & Hn' & _). cbn [opt_bind].
  edestruct IH as (d' & k & e & -> & Hs' & Hle); [| |exists d', k, e; split; [reflexivity|]; split; [exact Hs'|]].
  - destruct (len s =? 0); (split; [exact HD'|]); unfold scratchInv; cbn [bd_lastVal ba ba_scratch bd_discardScratch DBD.setDiscardLastValue]; [rewrite length_firstn; intros Hf; specialize (Hlv Hf); lia|intros _; rewrite length_app; lia].
  - destruct (len s =? 0); cbn [bd_dec DBD.setDiscardLastValue]; lia.
  - destruct (len s =? 0); cbn [bd_dec DBD.setDiscardLastValue] in Hle; lia.
Qed.

Lemma dbdDiscard_safe d k :
  dbdSafe d -> 0 <= k -> exists d' n e, DBD.Discard d k = Some (d', n, e) /\ dbdSafe d' /\ ld_nvals (bd_dec d') <= ld_nvals (bd_dec d).
Proof.
  intros Hd Hk. pose proof Hd as [HD Hsc]. unfold DBD.Discard. set (n := Z.min k (ld_nvals (bd_dec d))). assert (Hnn : 0 <= ld_nvals (bd_dec d)) by (destruct HD as (-> & _); lia). destruct (Z.eqb_spec n 0) as [H0|H0]; [exists d, 0, None; splits; auto; lia|].
  destruct (bd_lastVal d) as [lv|] eqn:El.
  - destruct (dbdDiscardLoop_safe (Z.to_nat n) d Hd ltac:(lia)) as (d' & k' & e & -> & Hs' & Hle). cbn [opt_bind]. eauto 8.
  - destruct (bd_prefixLengths d) as [|p ps] eqn:Ep; [eexists _, _, _; split; [reflexivity|]; split; [exact Hd|lia]|]. destruct (negb (p =? 0)); [eexists _, _, _; split; [reflexivity|]; split; [exact Hd|lia]|].
    destruct (decodeOne_safe (bd_dec d) HD ltac:(lia)) as (dec & s & -> & HD' & Hn' & _). cbn [opt_bind DBD.setDiscardLastValue bd_dec bd_lastVal bd_discardScratch app].
    destruct (dbdDiscardLoop_safe (Z.to_nat (n - 1)) (mkDBD dec ps (Some (mkBA s true)) (len (@nil Z) + len s))) as (d' & k' & e & -> & Hs' & Hle); [split; [exact HD'|intros _; cbn; lia]|cbn [bd_dec]; lia|].
    cbn [opt_bind]. eexists _, _, _. split; [reflexivity|]. split; [exact Hs'|cbn [bd_dec] in Hle; lia].
Qed.

Lemma dbdSpaced_safe d out bits off :
  dbdSafe d -> bitsOk bits off (len out) ->
  exists d' out' n e, DBD.DecodeSpaced d out (nullsOf out bits off) bits off = Some (d', out', n, e) /\ dbdSafe d' /\
    match e with
    | None => let vs := compress (validAt bits off) 0 out' in ld_nvals (bd_dec d') = ld_nvals (bd_dec d) - len vs /\ Forall detached vs
    | Some _ => ld_nvals (bd_dec d') <= ld_nvals (bd_dec d)
    end.
Proof.
  intros Hd HB. pose proof (countIf_bound (fun i => Z.testbit (leval bits) (off + i)) (List.length out)) as Hk. rewrite <- cnt_countIf in Hk. set (k := cnt (leval bits) off (List.length out)) in *.
  unfold DBD.DecodeSpaced. replace (len out - nullsOf out bits off) with k by (unfold nullsOf; fold k; lia). rewrite slice_ok by lia. cbn [opt_bind Z.to_nat skipn]. rewrite Z.sub_0_r. set (part := firstn (Z.to_nat k) out).
  assert (HLp : len part = k) by (subst part; rewrite length_firstn; lia). destruct (dbdDecode_safe d part Hd) as (d' & part' & n & [e|] & -> & Hs' & HL' & Hres); cbn [opt_bind].
  { eexists _, _, _, _. split; [reflexivity|]. split; [exact Hs'|]. lia. }
  destruct Hres as (Hn & Hnv & HF). destruct (Z.eqb_spec n k) as [->|Hne]; cbn [negb]; [|eexists _, _, _, _; split; [reflexivity|]; split; [exact Hs'|lia]].
  destruct (spread_decoded out part' bits off HB ltac:(fold k; lia)) as (out' & -> & HC). cbn [opt_bind]. eexists _, _, _, _. split; [reflexivity|]. split; [exact Hs'|]. rewrite HC. split; [lia|]. rewrite firstn_all2 in HF by lia. exact HF.
Qed.

(** The number of values that reads without error have given. *)
Definition delivered (res : list (list ByteArray * Z * option goerr)) : Z :=
  fold_right (fun r n => (match snd r with None => len (fst (fst r)) | Some _ => 0 end) + n) 0 res.

Lemma frontReads_safe ops d :
  dbdSafe d -> Forall shapeOk ops ->
  exists d' res, pageReads d ops = Some (d', res) /\ delivered res <= ld_nvals (bd_dec d) /\ Forall (fun r => snd r = None -> Forall detached (fst (fst r))) res.
Proof.
  intros Hd HF. revert d Hd. induction HF as [|op ops Hop _ IH]; intros d Hd; cbn [pageReads pageStep]; [exists d, []; splits; auto; destruct Hd as [(-> & _) _]; cbn; lia|].
  destruct op as [out|k|out bits off]; cbn [shapeOk pageStep decDecode decDiscard decDecodeSpaced frontDecoder_page] in *.
  - destruct (dbdDecode_safe d out Hd) as (d1 & out' & n & e & -> & Hd1 & HL & Hres). cbn [opt_bind]. destruct (IH d1 Hd1) as (d' & res & -> & Hdel & HA). cbn [opt_bind]. eexists _, _. split; [reflexivity|].
    cbn [delivered fold_right fst snd]. fold (delivered res). destruct e as [e|]; [destruct Hres as [-> Hle]|destruct Hres as (Hn & Hnv & HF2)]; (split; [rewrite ?length_firstn; lia|constructor; [cbn [fst snd]|exact HA]]); [discriminate|auto].
  - destruct (dbdDiscard_safe d (Z.of_nat k) Hd ltac:(lia)) as (d1 & n & e & -> & Hd1 & Hle). cbn [opt_bind]. destruct (IH d1 Hd1) as (d' & res & -> & Hdel & HA). cbn [opt_bind]. eexists _, _. split; [reflexivity|].
    cbn [delivered fold_right fst snd List.length]. fold (delivered res). split; [destruct e; lia|constructor; [constructor|exact HA]].
  - destruct (dbdSpaced_safe d out bits off Hd Hop) as (d1 & out' & n & e & -> & Hd1 & Hres). cbn [opt_bind]. destruct (IH d1 Hd1) as (d' & res & -> & Hdel & HA). cbn [opt_bind]. eexists _, _. split; [reflexivity|].
    cbn [delivered fold_right fst snd]. fold (delivered res). destruct e as [e|]; [|destruct Hres as [Hnv HF2]]; (split; [lia|constructor; [cbn [fst snd]|exact HA]]); [discriminate|auto].
Qed.

(** ** Claims *)

(** C17: a page of front-coded byte arrays. Any batches are put, with or without nulls, into an
    encoder that is new or has finished a page: fewer than 2^32 values, each below 2^31 bytes, and
    at least one (for a page of nulls only, the length encoders of an encoder used before are
    flushed a second time, which goes wrong: [DeltaSafety.delta_flush_twice_panics]). The page is
    read by a decoder, with other bytes behind it, by any sequence of reads, discards and reads
    with nulls. Every read reports the number it should, without an error, and the values are
    those that were put, in order, less those discarded; none of them can be overwritten by a
    later call. The encoder is ready for the next page. *)
Theorem delta_byte_array_roundtrip f1 f2 f3 g1 g2 g3 g4 g5 enc puts scratch nvalues t ops :
  let vals := allValues puts in
  Forall poolOk [f1; f2; f3; g1; g2; g3; g4; g5] -> dbOk enc [] -> Forall putOk puts -> vals <> [] -> sized vals -> small vals ->
  bytes t -> len vals <= nvalues < 2 ^ 63 -> readsFit anyCount (List.length vals) ops ->
  exists enc1 enc' page d d' res,
    @pagePuts _ _ (frontEncoder_page f1 f2 f3) enc puts = Some enc1 /\ DBE.FlushValues f1 f2 f3 g1 g2 g3 g4 g5 enc1 = Some (enc', page) /\ dbOk enc' [] /\
    DBD.SetData scratch nvalues (page ++ t) = Some (inl d) /\ pageReads d ops = Some (d', res) /\
    map plainResult res = readSpec vals ops /\ Forall (fun r => Forall detached (fst (fst r))) res.
Proof.
  intros vals HF HO HP Hne Hs Hm Ht Hn HR. pose proof HF as HF'. rewrite !Forall_cons_iff in HF'. destruct HF' as (Hf1 & Hf2 & Hf3 & _).
  destruct (@pagePuts_ok _ _ _ (frontEncoder_ok f1 f2 f3 Hf1 Hf2 Hf3) puts enc [] HO HP (conj Hs Hm)) as (enc1 & HE & HO1). cbn [app] in HO1. fold vals in HO1.
  destruct (dbFlush_ok f1 f2 f3 g1 g2 g3 g4 g5 enc1 vals HF HO1 Hne Hs Hm) as (enc' & page & HFl & HO' & Hpg).
  destruct (dbdSetData_ok scratch vals page t nvalues Hpg Hs Hm Ht Hn) as (d & HSD & Hd). destruct (@pageReads_ok _ _ _ _ frontDecoder_ok ops d vals Hd HR) as (d' & res & HB & HS). apply shownResults in HS as [HS HA].
  exists enc1, enc', page, d, d', res. splits; assumption.
Qed.

(** A page of byte arrays as delta-packed lengths and bytes, put in any batches, with or
    without nulls, and read by any sequence of reads, discards and reads with nulls. *)
Theorem delta_length_roundtrip f1 f2 f3 enc puts nvalues t ops :
  let vals := allValues puts in
  poolOk f1 -> poolOk f2 -> poolOk f3 -> dlOk enc [] -> Forall putOk puts -> vals <> [] -> sized vals -> small vals ->
  bytes t -> len vals <= nvalues < 2 ^ 63 -> readsFit anyCount (List.length vals) ops ->
  exists enc1 enc' page d d',
    pagePuts enc puts = Some enc1 /\ DLE.FlushValues f1 f2 f3 enc1 = Some (enc', page) /\ dlOk enc' [] /\
    DLD.SetData nvalues (page ++ t) = Some (inl d) /\ pageReads d ops = Some (d', readSpec vals ops).
Proof.
  intros vals H1 H2 H3 HO HP Hne Hs Hm Ht Hn HR. destruct (@pagePuts_ok _ _ _ lengthEncoder_ok puts enc [] HO HP (conj Hs Hm)) as (enc1 & HE & HO1). cbn [app] in HO1. fold vals in HO1.
  destruct (dlFlush_ok enc1 vals f1 f2 f3 HO1 Hne Hs Hm H1 H2 H3) as (enc' & page & HFl & HO' & Hpg). destruct Hm as [Hm1 Hm2].
  destruct (dldSetData_ok page vals t nvalues Hpg Hs Ht Hm1 Hn) as (d & HSD & Hd). destruct (@pageReads_ok _ _ _ _ lengthDecoder_ok ops d vals Hd HR) as (d' & res & HB & HS). apply eqResults in HS. subst res.
  exists enc1, enc', (page ++ List.concat vals), d, d'. rewrite <- app_assoc. splits; assumption.
Qed.

(** C18: on any bytes the front-coding decoder refuses the page, or every sequence of reads,
    discards and reads with nulls ends without a panic, even after errors, gives no more values
    in all than announced, and gives none that a later [Discard] could overwrite. *)
Theorem delta_bytes_safe scratch nvalues data ops :
  bytes data -> Forall shapeOk ops ->
  exists r, DBD.SetData scratch nvalues data = Some r /\
    match r with
    | inr _ => True
    | inl d => exists d' res, pageReads d ops = Some (d', res) /\ delivered res <= nvalues /\ Forall (fun r => snd r = None -> Forall detached (fst (fst r))) res
    end.
Proof.
  intros Hb Hops. unfold DBD.SetData. destruct (DD.SetData true nvalues data) as [dec|e] eqn:E; [|error_result].
  destruct (delta_all_safe nvalues data dec Hb E) as (Hn & dec' & ls & n & e & HD & HL). destruct (_ || _); [error_result|]. rewrite HD. cbn [opt_bind]. destruct e as [e|]; [error_result|]. destruct (negb _); [error_result|].
  destruct (Z.ltb_spec (DD.bytesRead dec') 0), (Z.ltb_spec (len data) (DD.bytesRead dec')); cbn [orb]; try error_result. rewrite slice_ok by lia. cbn [opt_bind].
  destruct (dldSetData_safe nvalues (firstn (Z.to_nat (len data - DD.bytesRead dec')) (skipn (Z.to_nat (DD.bytesRead dec')) data))) as ([d|e] & -> & Hd); [auto with gobytes| |cbn [opt_bind]; error_result]. cbn [opt_bind].
  destruct (negb _); [error_result|]. eexists. split; [reflexivity|]. destruct Hd as [Hd Hnv].
  destruct (frontReads_safe ops (mkDBD d ls None scratch)) as (d' & res & -> & Hdel & HA); [split; [exact Hd|exact I]|exact Hops|]. cbn [bd_dec] in Hdel. exists d', res. splits; auto. lia.
Qed.

Definition exPool : Buffer.t := Buffer.NewResizableBuffer.
Definition exPuts : list (putBatch (list Z)) := [([[1; 2; 3]; [1; 2; 4; 5]; [7]; [1; 2]; []], Some ([22], 1)); ([[9]; [9; 9]; [9]], None)].
Definition exReads {A} (x : A) : list (pageRead A) := [ReadDecode (repeat x 2); ReadDiscard 1; ReadSpaced (repeat x 6) [36; 0] 1; ReadDecode (repeat x 4)].

Lemma exPool_ok : poolOk exPool.
Proof. split; [split; constructor|reflexivity]. Qed.

Lemma exPuts_ok : Forall putOk exPuts /\ sized (allValues exPuts) /\ small (allValues exPuts).
Proof.
  split; [repeat constructor; discriminate || reflexivity|]. split; [|split; reflexivity].
  change (allValues exPuts) with [[1; 2; 3]; [1; 2; 4; 5]; [1; 2]; [9]; [9; 9]; [9]]. repeat constructor; vm_compute; discriminate || reflexivity.
Qed.

Lemma exReads_ok {A} (x : A) : readsFit anyCount (List.length (allValues exPuts)) (exReads x).
Proof. change (List.length (allValues exPuts)) with 6%nat. cbn. repeat split; repeat constructor; vm_compute; discriminate || reflexivity. Qed.

Lemma delta_byte_array_witness :
  let p := exPool in
  exists enc1 enc' page d d' res,
    @pagePuts _ _ (frontEncoder_page p p p) DBE.New exPuts = Some enc1 /\ DBE.FlushValues p p p p p p p p enc1 = Some (enc', page) /\ dbOk enc' [] /\
    DBD.SetData 0 8 (page ++ [0; 255]) = Some (inl d) /\ pageReads d (exReads (mkBA [7] false)) = Some (d', res) /\
    map plainResult res = readSpec (allValues exPuts) (exReads (mkBA [7] false)) /\ Forall (fun r => Forall detached (fst (fst r))) res.
Proof.
  pose proof exPool_ok as HP. destruct exPuts_ok as (H1 & H2 & H3).
  apply (delta_byte_array_roundtrip exPool exPool exPool exPool exPool exPool exPool exPool DBE.New exPuts 0 8 [0; 255] (exReads (mkBA [7] false)));
    [repeat constructor; apply HP|split; reflexivity|exact H1|discriminate|exact H2|exact H3|repeat constructor; discriminate || reflexivity|vm_compute; split; discriminate || reflexivity|apply exReads_ok].
Defined.

(** A page whose second prefix is longer than the value before it. *)
Definition badPage : list Z := headerBytes 2 0 ++ [6; 0; 0; 0; 0] ++ headerBytes 2 1 ++ [0; 0; 0; 0; 0] ++ [5; 6].

Lemma delta_bytes_safe_witness :
  (exists d, DBD.SetData 0 2 badPage = Some (inl d)) /\
  exists r, DBD.SetData 0 2 badPage = Some r /\
    match r with
    | inr _ => True
    | inl d => exists d' res, pageReads d (exReads (mkBA [] false)) = Some (d', res) /\ delivered res <= 2 /\ Forall (fun r => snd r = None -> Forall detached (fst (fst r))) res
    end.
Proof.
  split; [eexists; vm_compute; reflexivity|]. apply (delta_bytes_safe 0 2 badPage (exReads (mkBA [] false))); [vm_compute; repeat constructor; discriminate|].
  repeat constructor; vm_compute; discriminate || reflexivity.
Defined.
