(* ===== verification/ByteSplit.v ===== *)
(** * Byte stream split (parquet/internal/encoding: byte_stream_split.go, byte_stream_split_little_endian.go, byte_stream_split_decode.go)

    The bytes of the values, all first bytes, then all second bytes, and so on: the generic and
    the unrolled encoders, the batch decoders of the portable code, and the encoder and decoder
    of int32 ([w] = 4) and int64 ([w] = 8). *)

From Stdlib Require Import ZArith List Lia Bool String.
From S2P Require Import Prelude BitUtil MathUtil Memory BitBlocks DictDecode Spaced.
Import ListNotations.
#[local] Open Scope Z_scope.
#[local] Open Scope go_scope.

(** [for i := 0; i < n; i++] *)
Definition forRange {S} (n : Z) (body : Z -> S -> option S) (s : S) : option S := for_up (Z.to_nat n) 0 body s.

(** [data[encLoc] = in[decLoc]] *)
Definition moveByte (inb : list Z) (encLoc decLoc : Z) (data : list Z) : option (list Z) :=
  x <- index inb decLoc ;; store data encLoc x.

Definition encodeByteStreamSplit (data inb : list Z) (width : Z) : option (list Z) :=
  let numElements := len inb / width in
  forRange width (fun stream => forRange numElements (fun element =>
    let encLoc := numElements * stream + element in
    let decLoc := width * element + stream in
    moveByte inb encLoc decLoc)) data.

Definition encodeByteStreamSplitWidth2 (data inb : list Z) : option (list Z) :=
  let width := 2 in
  let numElements := len inb / width in
  forRange numElements (fun element data =>
    let decLoc := width * element in
    d0 <- moveByte inb element decLoc data ;;
    moveByte inb (numElements + element) (decLoc + 1) d0) data.

Definition encodeByteStreamSplitWidth4 (data inb : list Z) : option (list Z) :=
  let width := 4 in
  let numElements := len inb / width in
  forRange numElements (fun element data =>
    let decLoc := width * element in
    d0 <- moveByte inb element decLoc data ;;
    d1 <- moveByte inb (numElements + element) (decLoc + 1) d0 ;;
    d2 <- moveByte inb (numElements * 2 + element) (decLoc + 2) d1 ;;
    moveByte inb (numElements * 3 + element) (decLoc + 3) d2) data.

Definition encodeByteStreamSplitWidth8 (data inb : list Z) : option (list Z) :=
  let width := 8 in
  let numElements := len inb / width in
  forRange numElements (fun element data =>
    let decLoc := width * element in
    d0 <- moveByte inb element decLoc data ;;
    d1 <- moveByte inb (numElements + element) (decLoc + 1) d0 ;;
    d2 <- moveByte inb (numElements * 2 + element) (decLoc + 2) d1 ;;
    d3 <- moveByte inb (numElements * 3 + element) (decLoc + 3) d2 ;;
    d4 <- moveByte inb (numElements * 4 + element) (decLoc + 4) d3 ;;
    d5 <- moveByte inb (numElements * 5 + element) (decLoc + 5) d4 ;;
    d6 <- moveByte inb (numElements * 6 + element) (decLoc + 6) d5 ;;
    moveByte inb (numElements * 7 + element) (decLoc + 7) d6) data.

(** ** Batches *)

(** [s0 := data[:nValues]], [s1 := data[stride:stride+nValues]], ...: [width] of them, from [k]. *)
Fixpoint streams (width : nat) (k : Z) (data : list Z) (nValues stride : Z) : option (list (list Z)) :=
  match width with
  | O => Some []
  | S width' =>
      s <- slice data (k * stride) (k * stride + nValues) ;;
      ss <- streams width' (k + 1) data nValues stride ;; Some (s :: ss)
  end.

(** [uint32(s0[i]) | uint32(s1[i])<<8 | ...] *)
Fixpoint gather (ss : list (list Z)) (i shift : Z) : option Z :=
  match ss with
  | [] => Some 0
  | s :: ss' => x <- index s i ;; rest <- gather ss' i (shift + 8) ;; Some (Z.lor (Z.shiftl x shift) rest)
  end.

Fixpoint gatherAll (k : nat) (i : Z) (ss : list (list Z)) : option (list Z) :=
  match k with
  | O => Some []
  | S k' => x <- gather ss i 0 ;; rest <- gatherAll k' (i + 1) ss ;; Some (x :: rest)
  end.

(** The portable [decodeByteStreamSplitBatchWidth4InByteOrderDefault] and
    [...Width8InByteOrderDefault]: the words; [out] is the slice of the values, of which
    [&out[0]] is taken after cutting it to [nValues]. *)
Definition decodeBatchDefault (w : nat) (data : list Z) (nValues stride : Z) (out : list Z) : option (list Z) :=
  ss <- streams w 0 data nValues stride ;;
  cut <- slice out 0 nValues ;;
  _ <- index cut 0 ;;
  gatherAll (Z.to_nat nValues) 0 ss.

Definition validateByteStreamSplitPageData (typeLen nvals : Z) (data : list Z) : Z + goerr :=
  let encodedNvals := len data / typeLen in
  let remainder := len data mod typeLen in
  if (nvals <? encodedNvals) || ((encodedNvals =? nvals) && negb (remainder =? 0))
  then inr (ErrMsg "data size is too small for the number of values in in BYTE_STREAM_SPLIT")
  else if negb (remainder =? 0) then inr (ErrMsg "ByteStreamSplit data size not aligned with byte_width")
  else inl encodedNvals.

(** ** The encoder *)

Record ByteSplitEncoder : Type := mkBSE { be_plain : PlainEncoder; be_flushBuffer : option PooledBufferWriter.t }.

Module BSE.
Section Width.
Variable w : nat.

Definition New (fresh : Buffer.t) : ByteSplitEncoder := mkBSE (PE.newPlainEncoder fresh) None.

Definition Put (enc : ByteSplitEncoder) (vals : list Z) : ByteSplitEncoder := mkBSE (PE.Put w (be_plain enc) vals) (be_flushBuffer enc).

Definition PutSpaced (enc : ByteSplitEncoder) (vals validBits : list Z) (off : Z) : option ByteSplitEncoder :=
  p <- PE.PutSpaced w (be_plain enc) vals validBits off ;; Some (mkBSE p (be_flushBuffer enc)).

Definition encodeImpl (data inb : list Z) : option (list Z) :=
  if Nat.eqb w 4 then encodeByteStreamSplitWidth4 data inb else encodeByteStreamSplitWidth8 data inb.

(** [f1] to [f3] are the buffers of the pool: for the plain encoder's sink, for the flush buffer
    when it is made, and for it after the page. *)
Definition FlushValues (f1 f2 f3 : Buffer.t) (enc : ByteSplitEncoder) : option (ByteSplitEncoder * Buffer.t) :=
  let '(plain, inb) := PE.FlushValues (be_plain enc) f1 in
  let fb := match be_flushBuffer enc with Some fb => fb | None => PooledBufferWriter.NewPooledBufferWriter f2 (Buffer.Len inb) end in
  let resized := Buffer.Resize (PooledBufferWriter.buf fb) (Buffer.Len inb) in
  let fb := PooledBufferWriter.sync (PooledBufferWriter.mk resized (PooledBufferWriter.pos fb) (PooledBufferWriter.offset fb)) in
  data <- encodeImpl (PooledBufferWriter.Bytes fb) (Buffer.Bytes inb) ;;
  let b := PooledBufferWriter.buf fb in
  let b := Buffer.mk (splice (Buffer.buf b) (Z.to_nat (PooledBufferWriter.offset fb)) data) (Buffer.spare b) (Buffer.length b) in
  let '(fb', flushed) := PooledBufferWriter.Finish f3 (PooledBufferWriter.mk b (PooledBufferWriter.pos fb) (PooledBufferWriter.offset fb)) in
  Some (mkBSE plain (Some fb'), flushed).

End Width.
End BSE.

(** ** The decoder *)

Record ByteSplitDecoder : Type := mkBSD { bs_nvals : Z; bs_data : list Z; bs_stride : Z }.

Module BSD.
Section Width.
Variable w : nat.
Implicit Types d : ByteSplitDecoder.

Definition SetData (nvals : Z) (data : list Z) : ByteSplitDecoder + goerr :=
  match validateByteStreamSplitPageData (Z.of_nat w) nvals data with
  | inr e => inr e
  | inl n => inl (mkBSD n data n)
  end.

Definition Discard d (n : Z) : option (ByteSplitDecoder * Z) :=
  let n := Z.min n (bs_nvals d) in
  data <- slice (bs_data d) n (len (bs_data d)) ;; Some (mkBSD (bs_nvals d - n) data (bs_stride d), n).

Definition Decode d (out : list Z) : option (ByteSplitDecoder * list Z * Z * option goerr) :=
  let toRead := Z.min (len out) (bs_nvals d) in
  let numBytesNeeded := toRead * Z.of_nat w in
  if (len (bs_data d) <? numBytesNeeded) || (MaxInt32 <? numBytesNeeded) then Some (d, out, 0, Some (ErrMsg "parquet: eof exception"))
  else
    words <- decodeBatchDefault w (bs_data d) toRead (bs_stride d) out ;;
    data <- slice (bs_data d) toRead (len (bs_data d)) ;;
    Some (mkBSD (bs_nvals d - toRead) data (bs_stride d), map (wrapS (8 * Z.of_nat w)) words ++ skipn (Z.to_nat toRead) out, toRead, None).

Definition DecodeSpaced d (out : list Z) (nullCount : Z) (validBits : list Z) (validBitsOffset : Z) : option (ByteSplitDecoder * list Z * Z * option goerr) :=
  let toRead := len out - nullCount in
  part <- slice out 0 toRead ;;
  r <- Decode d part ;;
  let '(d', part', valuesRead, err) := r in
  let out := splice out 0 part' in
  match err with
  | Some e => Some (d', out, valuesRead, Some e)
  | None =>
      if negb (valuesRead =? toRead) then Some (d', out, valuesRead, Some (ErrMsg "parquet: number of values / definitions levels read did not match"))
      else r <- spacedExpand out nullCount validBits validBitsOffset ;; let '(out', n) := r in Some (d', out', n, None)
  end.

End Width.
End BSD.
