(* ===== verification/ByteSplitOk.v ===== *)
(** * Byte stream split: proofs

    The encoders move the bytes [(stream, element)] in different orders, to the same effect; the
    pages hold the streams one after the other; the batch decoders read a window of each. *)

From Stdlib Require Import ZArith List Lia Bool String.
From S2P Require Import Prelude BitUtil MathUtil Memory BitBlocks DictDecode Spaced PlainSpaced PageOps ByteSplit.
Import ListNotations.
#[local] Open Scope Z_scope.
#[local] Open Scope go_scope.

(** ** Moving bytes *)

Section Moves.
Variables (inb : list Z) (width n : Z).
Implicit Types (data : list Z) (pts : list (Z * Z)).

(** The byte [stream] of the value [element]. *)
Definition moveAt (pt : Z * Z) (data : list Z) : option (list Z) := let '(stream, element) := pt in moveByte inb (n * stream + element) (width * element + stream) data.

Fixpoint moves pts data : option (list Z) :=
  match pts with
  | [] => Some data
  | pt :: pts' => data' <- moveAt pt data ;; moves pts' data'
  end.

Lemma moves_app pts pts' data : moves (pts ++ pts') data = (data' <- moves pts data ;; moves pts' data').
Proof. revert data. induction pts as [|pt pts IH]; intros data; cbn [app moves]; [reflexivity|]. destruct (moveAt pt data); cbn [opt_bind]; auto. Qed.

(** A loop of moves. *)
Lemma loop_moves (f : Z -> list (Z * Z)) body :
  (forall i data, body i data = moves (f i) data) -> forall k i data, for_up k i body data = moves (flat_map f (zseq i k)) data.
Proof.
  intros Hb k. induction k as [|k IH]; intros i data; [reflexivity|]. rewrite zseq_S. cbn [for_up flat_map]. rewrite moves_app, Hb. destruct (moves (f i) data); cbn [opt_bind]; auto.
Qed.

Definition inGrid (pt : Z * Z) : Prop := 0 <= fst pt < width /\ 0 <= snd pt < n.

Definition posOf (pt : Z * Z) : nat := Z.to_nat (n * fst pt + snd pt).

Lemma posOf_inj p q : inGrid p -> inGrid q -> posOf p = posOf q -> p = q.
Proof.
  destruct p as [s e], q as [s' e']. unfold inGrid, posOf. cbn [fst snd]. intros Hp Hq H.
  assert (HE : n * s + e = n * s' + e') by nia. destruct (Z.div_mod_unique n s s' e e') as [-> ->]; [lia|lia|exact HE|reflexivity].
Qed.

Lemma in_pos pts p : {In p (map posOf pts)} + {~ In p (map posOf pts)}.
Proof. apply in_dec, Nat.eq_dec. Qed.

Lemma moveAt_ok pt data :
  inGrid pt -> width * n <= len inb -> width * n <= len data -> moveAt pt data = Some (upd data (posOf pt) (nth (Z.to_nat (width * snd pt + fst pt)) inb 0)).
Proof.
  destruct pt as [s e]. intros [Hs He] Hi Hd. unfold moveAt, moveByte, posOf. cbn [fst snd] in *. rewrite (index_ok _ _ 0) by nia. cbn [opt_bind]. apply store_ok. nia.
Qed.

(** Whatever the order, each place gets its byte. *)
Lemma moves_ok pts data :
  Forall inGrid pts -> width * n <= len inb -> width * n <= len data ->
  exists data', moves pts data = Some data' /\ List.length data' = List.length data /\
    (forall pt, In pt pts -> nth (posOf pt) data' 0 = nth (Z.to_nat (width * snd pt + fst pt)) inb 0) /\
    (forall p, ~ In p (map posOf pts) -> nth p data' 0 = nth p data 0).
Proof.
  intros HF Hi. revert data. induction HF as [|pt pts HG HF IH]; intros data Hd; cbn [moves]; [exists data; splits; auto; intros pt []|].
  rewrite moveAt_ok by assumption. cbn [opt_bind]. set (data1 := upd _ _ _). assert (HL1 : List.length data1 = List.length data) by apply length_upd.
  destruct (IH data1 ltac:(lia)) as (data' & -> & HL & Hin & Hout). exists data'. splits; [reflexivity|congruence| |].
  - intros q [<-|Hq]; [|auto]. destruct (in_pos pts (posOf pt)) as [Hp|Hp].
    + apply in_map_iff in Hp as (q & Hpq & Hq). rewrite Forall_forall in HF. apply posOf_inj in Hpq; [subst q|auto|auto]. auto.
    + rewrite Hout by exact Hp. subst data1. apply nth_upd_eq. destruct pt as [s e], HG. unfold posOf. cbn [fst snd] in *. nia.
  - intros p Hp. cbn [map In] in Hp. rewrite Hout by tauto. apply nth_upd_ne. tauto.
Qed.

(** Two orders of the same moves. *)
Lemma moves_perm pts pts' data :
  Forall inGrid pts -> (forall pt, In pt pts <-> In pt pts') -> width * n <= len inb -> width * n <= len data -> moves pts data = moves pts' data.
Proof.
  intros HF HI Hi Hd. assert (HF' : Forall inGrid pts') by (apply Forall_forall; intros pt H; rewrite Forall_forall in HF; apply HF, HI, H).
  destruct (moves_ok pts data HF Hi Hd) as (d1 & -> & L1 & I1 & O1). destruct (moves_ok pts' data HF' Hi Hd) as (d2 & -> & L2 & I2 & O2). f_equal.
  apply (nth_ext_eq _ _ 0); [congruence|]. intros p _. destruct (in_pos pts p) as [Hp|Hp].
  - apply in_map_iff in Hp as (pt & <- & Hpt). rewrite I1, I2; [reflexivity|now apply HI|exact Hpt].
  - rewrite O1, O2; [reflexivity| |exact Hp]. intros Hp'. apply Hp. apply in_map_iff in Hp' as (pt & <- & Hpt). apply in_map, HI, Hpt.
Qed.

(** By stream, then by element, and the other way. *)
Definition byStream : list (Z * Z) := flat_map (fun s => flat_map (fun e => [(s, e)]) (zseq 0 (Z.to_nat n))) (zseq 0 (Z.to_nat width)).
Definition byElement : list (Z * Z) := flat_map (fun e => map (fun s => (s, e)) (zseq 0 (Z.to_nat width))) (zseq 0 (Z.to_nat n)).

Lemma in_byStream pt : 0 <= n -> 0 <= width -> In pt byStream <-> inGrid pt.
Proof.
  intros Hn Hw. unfold byStream, inGrid. rewrite in_flat_map. split.
  - intros (s & Hs & H). apply in_flat_map in H as (e & He & [<-|[]]). apply in_zseq in Hs, He. cbn [fst snd]. lia.
  - intros [Hs He]. exists (fst pt). split; [apply in_zseq; lia|]. apply in_flat_map. exists (snd pt). split; [apply in_zseq; lia|]. left. now destruct pt.
Qed.

Lemma in_byElement pt : 0 <= n -> 0 <= width -> In pt byElement <-> inGrid pt.
Proof.
  intros Hn Hw. unfold byElement, inGrid. rewrite in_flat_map. split.
  - intros (e & He & H). apply in_map_iff in H as (s & <- & Hs). apply in_zseq in Hs, He. cbn [fst snd]. lia.
  - intros [Hs He]. exists (snd pt). split; [apply in_zseq; lia|]. apply in_map_iff. exists (fst pt). split; [now destruct pt|apply in_zseq; lia].
Qed.

Lemma byStream_byElement data : 0 <= n -> 0 <= width -> width * n <= len inb -> width * n <= len data -> moves byStream data = moves byElement data.
Proof.
  intros Hn Hw Hi Hd. apply moves_perm; auto; [apply Forall_forall; intros pt H; now apply in_byStream|]. intros pt. now rewrite in_byStream, in_byElement.
Qed.

Lemma bind_ret {A} (o : option A) : opt_bind o Some = o.
Proof. now destruct o. Qed.
End Moves.

Lemma generic_moves data inb width : 0 <= len inb / width -> encodeByteStreamSplit data inb width = moves inb width (len inb / width) (byStream width (len inb / width)) data.
Proof.
  intros Hn. unfold encodeByteStreamSplit, forRange, byStream. apply loop_moves. intros s d. apply loop_moves. intros e d'. cbn [moves moveAt]. now rewrite bind_ret.
Qed.

(** One iteration of an unrolled encoder. *)
Ltac unrolled_moves :=
  unfold forRange, byElement; apply loop_moves; intros e d;
  match goal with |- context [zseq ?a ?b] => let l := eval vm_compute in (zseq a b) in change (zseq a b) with l end;
  cbn [map moves moveAt];
  repeat match goal with
  | |- opt_bind ?x _ = opt_bind ?y _ => replace y with x by (f_equal; lia); destruct x; cbn [opt_bind]; [|reflexivity]
  | |- moveByte _ _ _ _ = opt_bind _ _ => rewrite bind_ret
  | |- moveByte _ _ _ _ = moveByte _ _ _ _ => f_equal; lia
  end.

Lemma width2_moves data inb : encodeByteStreamSplitWidth2 data inb = moves inb 2 (len inb / 2) (byElement 2 (len inb / 2)) data.
Proof. unfold encodeByteStreamSplitWidth2. unrolled_moves. Qed.

Lemma width4_moves data inb : encodeByteStreamSplitWidth4 data inb = moves inb 4 (len inb / 4) (byElement 4 (len inb / 4)) data.
Proof. unfold encodeByteStreamSplitWidth4. unrolled_moves. Qed.

Lemma width8_moves data inb : encodeByteStreamSplitWidth8 data inb = moves inb 8 (len inb / 8) (byElement 8 (len inb / 8)) data.
Proof. unfold encodeByteStreamSplitWidth8. unrolled_moves. Qed.

(** ** The page *)

(** The streams of the values: all first bytes, all second bytes, and so on. *)
Definition streamOf (w : nat) (vs : list Z) (s : nat) : list Z := map (fun v => nth s (lebytes w v) 0) vs.

Definition splitOf (w : nat) (vs : list Z) : list Z := flat_map (streamOf w vs) (seq 0 w).

Lemma length_flat {A} (f : A -> list Z) n l : (forall x, List.length (f x) = n) -> List.length (flat_map f l) = (List.length l * n)%nat.
Proof. intros Hf. induction l as [|x l IH]; cbn [flat_map List.length]; [reflexivity|]. rewrite length_app, Hf, IH. lia. Qed.

Lemma length_streamOf w vs s : List.length (streamOf w vs s) = List.length vs.
Proof. apply length_map. Qed.

Lemma length_splitOf w vs : List.length (splitOf w vs) = (w * List.length vs)%nat.
Proof. unfold splitOf. rewrite (length_flat _ (List.length vs)), length_seq by (intros; apply length_streamOf). reflexivity. Qed.

(** The rows of [flat_map]. *)
Lemma skipn_rows {A} (f : A -> list Z) n l k : (forall x, List.length (f x) = n) -> skipn (k * n) (flat_map f l) = flat_map f (skipn k l).
Proof.
  intros Hf. revert k. induction l as [|x l IH]; intros [|k]; cbn [flat_map skipn Nat.mul]; rewrite ?skipn_nil; [reflexivity..|].
  rewrite skipn_app, Hf, skipn_all2 by (rewrite Hf; lia). cbn [app]. replace (n + k * n - n)%nat with (k * n)%nat by lia. apply IH.
Qed.

Lemma stream_at w vs s : (s < w)%nat -> exists rest, skipn (s * List.length vs) (splitOf w vs) = streamOf w vs s ++ rest.
Proof.
  intros Hs. unfold splitOf. rewrite (skipn_rows _ (List.length vs)) by (intros; apply length_streamOf). rewrite (skipn_cons _ s O), seq_nth by (rewrite ?length_seq; lia).
  cbn [flat_map Nat.add]. eauto.
Qed.

(** What the encoder leaves in a slice of the right size. *)
Lemma encode_page w vs data :
  (w = 4 \/ w = 8)%nat -> List.length data = (w * List.length vs)%nat -> BSE.encodeImpl w data (getBytes w vs) = Some (splitOf w vs).
Proof.
  intros Hw HL. set (n := len vs). assert (HG : len (getBytes w vs) = Z.of_nat w * n) by (rewrite length_getBytes; lia).
  assert (HN : len (getBytes w vs) / Z.of_nat w = n) by (rewrite HG, Z.mul_comm; apply Z.div_mul; lia).
  assert (HE : BSE.encodeImpl w data (getBytes w vs) = moves (getBytes w vs) (Z.of_nat w) n (byElement (Z.of_nat w) n) data).
  { unfold BSE.encodeImpl. rewrite <- HN. destruct Hw as [->| ->]; cbn [Nat.eqb]; [apply width4_moves|apply width8_moves]. }
  rewrite HE. destruct (moves_ok (getBytes w vs) (Z.of_nat w) n (byElement (Z.of_nat w) n) data) as (data' & -> & HL' & HI & _); [|lia|lia|].
  { apply Forall_forall. intros pt. apply in_byElement; lia. }
  f_equal. apply (nth_ext_eq _ _ 0); [rewrite length_splitOf; lia|]. intros p Hp. assert (Hn : (0 < List.length vs)%nat) by nia.
  set (s := (p / List.length vs)%nat). set (e := (p mod List.length vs)%nat). assert (Hpe : p = (s * List.length vs + e)%nat) by (subst s e; rewrite (Nat.div_mod_eq p (List.length vs)) at 1; lia).
  assert (He : (e < List.length vs)%nat) by (apply Nat.mod_upper_bound; lia). assert (Hs : (s < w)%nat) by nia.
  assert (HP : p = posOf n (Z.of_nat s, Z.of_nat e)) by (unfold posOf; cbn [fst snd]; subst n; nia).
  rewrite HP at 1. rewrite HI by (apply in_byElement; [lia|lia|unfold inGrid; cbn [fst snd]; lia]). cbn [fst snd]. replace (Z.to_nat _) with (w * e + s)%nat by nia.
  rewrite nth_getBytes by assumption. destruct (stream_at w vs s Hs) as [rest HR]. rewrite Hpe, <- nth_skipn, HR, app_nth1 by (rewrite length_streamOf; exact He).
  rewrite (nth_indep (streamOf w vs s) 0 (nth s (lebytes w 0) 0)) by (rewrite length_streamOf; exact He). unfold streamOf. now rewrite (map_nth (fun v => nth s (lebytes w v) 0)).
Qed.

(** ** Gathering *)

Lemma gather_ok ss i shift :
  0 <= shift -> 0 <= i -> Forall (fun s => i < len s /\ bytes s) ss -> gather ss i shift = Some (2 ^ shift * leval (map (fun s => nth (Z.to_nat i) s 0) ss)).
Proof.
  intros Hs Hi HF. revert shift Hs. induction HF as [|s ss [HL HB] HF IH]; intros shift Hs; cbn [gather map leval]; [f_equal; lia|].
  rewrite (index_ok _ _ 0) by lia. cbn [opt_bind]. rewrite IH by lia. cbn [opt_bind]. f_equal. rewrite shiftl_mul, pow2_split by lia. change (2 ^ 8) with 256.
  pose proof (bytes_nth s (Z.to_nat i) HB) as Hx. set (x := nth _ s 0) in *. set (r := leval _). replace (2 ^ shift * 256 * r) with (r * 2 ^ (shift + 8)) by (rewrite pow2_split by lia; lia).
  rewrite lor_disjoint by (try lia; rewrite pow2_split by lia; change (2 ^ 8) with 256; red in Hx; pose proof (pow2_pos shift Hs); nia). rewrite pow2_split by lia. change (2 ^ 8) with 256. lia.
Qed.

Lemma nth_all l : map (fun s => nth s l 0) (seq 0 (List.length l)) = l.
Proof.
  apply (nth_ext_eq _ _ (nth 0 l 0)); [now rewrite length_map, length_seq|]. intros i Hi. rewrite length_map, length_seq in Hi.
  rewrite (map_nth (fun s => nth s l 0)), seq_nth by lia. cbn [Nat.add]. now apply nth_indep.
Qed.

Section Window.
Variable w : nat.
Implicit Types vs : list Z.

Lemma streamOf_bytes vs s : bytes (streamOf w vs s).
Proof. unfold streamOf. apply Forall_map, Forall_forall. intros v _. apply bytes_nth, lebytes_bytes. Qed.

(** The windows of the streams are the streams of a window of values. *)
Definition windows vs : list (list Z) := map (streamOf w vs) (seq 0 w).

Lemma gather_windows vs i : (i < List.length vs)%nat -> gather (windows vs) (Z.of_nat i) 0 = Some (nth i vs 0 mod 2 ^ (8 * Z.of_nat w)).
Proof.
  intros Hi. rewrite gather_ok; [|lia|lia|apply Forall_map, Forall_forall; intros s _; rewrite length_streamOf; split; [lia|apply streamOf_bytes]].
  rewrite Nat2Z.id. f_equal. unfold windows. rewrite map_map, Z.pow_0_r, Z.mul_1_l, <- leval_lebytes. f_equal.
  rewrite <- (nth_all (lebytes w (nth i vs 0))), length_lebytes. apply map_ext. intros s.
  rewrite (nth_indep _ 0 (nth s (lebytes w 0) 0)) by (rewrite length_streamOf; exact Hi). unfold streamOf. now rewrite (map_nth (fun v => nth s (lebytes w v) 0)).
Qed.

Lemma gatherAll_ok vs k i :
  (i + k <= List.length vs)%nat -> gatherAll k (Z.of_nat i) (windows vs) = Some (map (fun v => v mod 2 ^ (8 * Z.of_nat w)) (firstn k (skipn i vs))).
Proof.
  revert i. induction k as [|k IH]; intros i Hi; cbn [gatherAll]; [reflexivity|]. rewrite gather_windows by lia. cbn [opt_bind]. replace (Z.of_nat i + 1) with (Z.of_nat (S i)) by lia. rewrite IH by lia. cbn [opt_bind].
  rewrite (skipn_cons vs i 0) by lia. reflexivity.
Qed.

Lemma streams_ok all j k m s :
  (j + k <= List.length all)%nat -> (s + m = w)%nat ->
  streams m (Z.of_nat s) (skipn j (splitOf w all)) (Z.of_nat k) (len all) = Some (map (streamOf w (firstn k (skipn j all))) (seq s m)).
Proof.
  intros Hk. revert s. induction m as [|m IH]; intros s Hs; cbn [streams seq map]; [reflexivity|].
  rewrite slice_ok by (rewrite ?length_skipn, ?length_splitOf; nia). cbn [opt_bind]. replace (Z.of_nat s + 1) with (Z.of_nat (S s)) by lia. rewrite IH by lia. cbn [opt_bind]. do 2 f_equal.
  destruct (stream_at w all s ltac:(lia)) as [rest HR]. rewrite skipn_skipn. replace (Z.to_nat (Z.of_nat s * len all) + j)%nat with (j + s * List.length all)%nat by nia.
  rewrite <- skipn_skipn, HR, skipn_app, length_streamOf. replace (j - List.length all)%nat with O by lia. cbn [skipn].
  rewrite firstn_app, length_skipn, length_streamOf. replace (Z.to_nat _ - _)%nat with O by lia. rewrite firstn_O, app_nil_r. unfold streamOf. rewrite skipn_map, firstn_map. do 2 f_equal. lia.
Qed.

Lemma decodeBatch_ok all j k out :
  (j + k <= List.length all)%nat -> (0 < k <= List.length out)%nat ->
  decodeBatchDefault w (skipn j (splitOf w all)) (Z.of_nat k) (len all) out = Some (map (fun v => v mod 2 ^ (8 * Z.of_nat w)) (firstn k (skipn j all))).
Proof.
  intros Hk Ho. unfold decodeBatchDefault. pose proof (streams_ok all j k w 0 Hk eq_refl) as HS. cbn [Z.of_nat] in HS. rewrite HS. cbn [opt_bind]. rewrite slice_ok by lia. cbn [opt_bind].
  rewrite (index_ok _ _ 0) by (rewrite length_firstn, length_skipn; lia). cbn [opt_bind]. fold (windows (firstn k (skipn j all))). rewrite Nat2Z.id. change 0 with (Z.of_nat 0) at 1.
  rewrite (gatherAll_ok (firstn k (skipn j all)) k 0) by (rewrite length_firstn, length_skipn; lia). cbn [skipn]. now rewrite firstn_firstn, Nat.min_id.
Qed.

End Window.

(** ** The decoder *)

Section Decoder.
Variable w : nat.
Hypothesis Hw : (w = 4 \/ w = 8)%nat.
Implicit Types (d : ByteSplitDecoder) (vs : list Z).

(** Some of the page's values have been read, and [vs] are left. *)
Definition bsdOk d vs : Prop :=
  exists pre, bs_stride d = len (pre ++ vs) /\ bs_nvals d = len vs /\ bs_data d = skipn (List.length pre) (splitOf w (pre ++ vs)) /\
    Forall (inS (8 * Z.of_nat w)) vs /\ Z.of_nat w * len (pre ++ vs) <= MaxInt32.

Lemma bsdOk_skip d vs n :
  bsdOk d vs -> (n <= List.length vs)%nat ->
  exists data, slice (bs_data d) (Z.of_nat n) (len (bs_data d)) = Some data /\ bsdOk (mkBSD (bs_nvals d - Z.of_nat n) data (bs_stride d)) (skipn n vs).
Proof.
  intros (pre & H1 & H2 & H3 & H4 & H5) Hn. assert (HL : (n <= List.length (bs_data d))%nat) by (rewrite H3, length_skipn, length_splitOf, length_app; destruct Hw as [->| ->]; lia).
  rewrite slice_ok by lia. eexists. split; [reflexivity|]. exists (pre ++ firstn n vs). rewrite <- app_assoc, firstn_skipn. cbn [bs_nvals bs_data bs_stride]. splits; auto.
  - rewrite length_skipn. lia.
  - rewrite firstn_all2 by (rewrite length_skipn; lia). rewrite H3, skipn_skipn, length_app, length_firstn, Nat2Z.id. f_equal. lia.
  - now apply Forall_skipn.
Qed.

Lemma wrap_words vs : Forall (inS (8 * Z.of_nat w)) vs -> map (wrapS (8 * Z.of_nat w)) (map (fun v => v mod 2 ^ (8 * Z.of_nat w)) vs) = vs.
Proof.
  intros HF. rewrite map_map. rewrite <- (map_id vs) at 2. apply map_ext_in. intros v Hv. rewrite Forall_forall in HF. rewrite <- (wrapS_id (8 * Z.of_nat w) v) at 2 by (try apply HF, Hv; lia).
  unfold wrapS. now rewrite Zplus_mod_idemp_l.
Qed.

Lemma bsdDecode_ok d vs out :
  bsdOk d vs -> let n := Nat.min (List.length out) (List.length vs) in (0 < n)%nat ->
  exists d', BSD.Decode w d out = Some (d', firstn n vs ++ skipn n out, Z.of_nat n, None) /\ bsdOk d' (skipn n vs).
Proof.
  intros HD n Hn. destruct (bsdOk_skip d vs n HD ltac:(lia)) as (data & HSl & HD'). destruct HD as (pre & H1 & H2 & H3 & H4 & H5).
  unfold BSD.Decode. rewrite H2. replace (Z.min (len out) (len vs)) with (Z.of_nat n) by lia. rewrite length_app in H5.
  assert (HL : len (bs_data d) = Z.of_nat w * len (pre ++ vs) - len pre) by (rewrite H3, length_skipn, length_splitOf, length_app; destruct Hw as [->| ->]; lia). rewrite length_app in HL.
  assert (Hfit : Z.of_nat n * Z.of_nat w <= len (bs_data d) /\ Z.of_nat n * Z.of_nat w <= MaxInt32) by (destruct Hw as [->| ->]; lia).
  bool_lia (len (bs_data d) <? Z.of_nat n * Z.of_nat w). bool_lia (MaxInt32 <? Z.of_nat n * Z.of_nat w). cbn [orb].
  assert (HB : decodeBatchDefault w (bs_data d) (Z.of_nat n) (bs_stride d) out = Some (map (fun v => v mod 2 ^ (8 * Z.of_nat w)) (firstn n vs))).
  { rewrite H3, H1, decodeBatch_ok by (rewrite ?length_app; lia). now rewrite skipn_app_exact. }
  rewrite HB. cbn [opt_bind]. rewrite HSl. cbn [opt_bind]. rewrite wrap_words by (now apply Forall_firstn). rewrite Nat2Z.id. rewrite H2 in HD'. eauto.
Qed.

#[export] Instance splitDecoder_page : PageDecoder ByteSplitDecoder Z := {
  decDecode := BSD.Decode w;
  decDiscard := fun d n => r <- BSD.Discard d n ;; let '(d', k) := r in Some (d', k, None);
  decDecodeSpaced := BSD.DecodeSpaced w
}.

(** The portable batch decoder has to have something to do. *)
Definition splitDecoder_ok : PageDecoderOk ByteSplitDecoder Z Z.
Proof.
  assert (HDec : forall d vs out, let n := Nat.min (List.length out) (List.length vs) in bsdOk d vs -> (0 < n)%nat ->
    exists d' outs, BSD.Decode w d out = Some (d', outs ++ skipn n out, Z.of_nat n, None) /\ Forall2 eq outs (firstn n vs) /\ bsdOk d' (skipn n vs)).
  { intros d vs out n HD Hn. destruct (bsdDecode_ok d vs out HD Hn) as (d' & HE & HD'). exists d', (firstn n vs). split; [exact HE|]. split; [|exact HD']. clear. induction (firstn n vs); constructor; auto. }
  refine {| holdsValues := bsdOk; shows := eq; mayTake := fun n => (0 < n)%nat |}; [exact HDec| |].
  - intros d vs k n HD. pose proof HD as (pre & _ & H2 & _). destruct (bsdOk_skip d vs n HD ltac:(lia)) as (data & HSl & HD'). cbn [decDiscard splitDecoder_page]. unfold BSD.Discard. rewrite H2.
    replace (Z.min (Z.of_nat k) (len vs)) with (Z.of_nat n) by lia. rewrite HSl. cbn [opt_bind]. rewrite H2 in HD'. eexists. split; [reflexivity|exact HD'].
  - intros d vs out bits off n HD HT HB HL.
    apply (decodeSpacedBy_ok (BSD.Decode w) bsdOk eq (ErrMsg "parquet: number of values / definitions levels read did not match") d vs out bits off); [|exact HB|exact HL].
    intros part HLp. fold n in HLp |- *. destruct (HDec d vs part HD ltac:(lia)) as (d' & outs & HE & HF & HD'). rewrite HLp in *. replace (Nat.min n (List.length vs)) with n in * by lia.
    rewrite skipn_all2, app_nil_r in HE by lia. eauto.
Defined.

Lemma bsdSetData_ok vs nvals :
  Forall (inS (8 * Z.of_nat w)) vs -> Z.of_nat w * len vs <= MaxInt32 -> len vs <= nvals -> exists d, BSD.SetData w nvals (splitOf w vs) = inl d /\ bsdOk d vs.
Proof.
  intros HF HM Hn. unfold BSD.SetData, validateByteStreamSplitPageData. rewrite length_splitOf. replace (Z.of_nat (w * List.length vs)) with (len vs * Z.of_nat w) by lia.
  rewrite Z.div_mul, Z.mod_mul by lia. cbn [Z.eqb negb]. rewrite andb_false_r, orb_false_r. bool_lia (nvals <? len vs). eexists. split; [reflexivity|].
  exists []. cbn [app bs_stride bs_nvals bs_data List.length skipn]. auto.
Qed.
End Decoder.

(** ** The encoder *)

Section Encoder.
Variable w : nat.
Hypothesis Hw : (w = 4 \/ w = 8)%nat.
Implicit Types enc : ByteSplitEncoder.

(** The plain bytes of [vs]; a flush buffer that is kept is as new. *)
Definition bseOk enc (vs : list Z) : Prop :=
  peOk (be_plain enc) (getBytes w vs) /\ match be_flushBuffer enc with None => True | Some fb => exists f, poolOk f /\ fb = PooledBufferWriter.NewPooledBufferWriter f 0 end.

Definition splitFits (vs : list Z) : Prop := Forall (inS (8 * Z.of_nat w)) vs /\ Z.of_nat w * len vs <= MaxInt32.

#[export] Instance splitEncoder_page : PageEncoder ByteSplitEncoder Z :=
  { encPut := fun e '(vals, valid) => match valid with None => Some (BSE.Put w e vals) | Some (bits, off) => BSE.PutSpaced w e vals bits off end }.

Definition splitEncoder_ok : PageEncoderOk ByteSplitEncoder Z.
Proof.
  refine {| hasPut := bseOk; mayPut := splitFits |}.
  - intros vs ws [HF HM]. apply Forall_app in HF as [HF _]. rewrite length_app in HM. split; [exact HF|destruct Hw as [->| ->]; lia].
  - intros e done [vals valid] [HP HB] HO [_ HM]. assert (H62 : MaxInt32 < 2 ^ 62) by reflexivity. rewrite length_app in HM. pose proof (length_getBytes w ltac:(lia) done) as HLd.
    destruct valid as [[bits off]|]; cbn [encPut splitEncoder_page putValues putOk] in *.
    + destruct (PutSpaced_ok w ltac:(lia) (be_plain e) (getBytes w done) vals bits off HP HO) as (p & HE & HP'); [rewrite HLd; destruct Hw as [->| ->]; lia|].
      unfold BSE.PutSpaced. rewrite HE. cbn [opt_bind]. eexists. split; [reflexivity|]. rewrite <- getBytes_app in HP'. split; assumption.
    + eexists. split; [reflexivity|]. destruct HP as [Hs Hr]. pose proof (length_getBytes w ltac:(lia) vals) as HLv.
      destruct (Write_streamed (pe_sink (be_plain e)) (getBytes w done) (getBytes w vals) Hs (getBytes_bytes w _)) as (sink & HW & Hs'); [rewrite HLd, HLv; destruct Hw as [->| ->]; lia|].
      split; [|exact HB]. rewrite getBytes_app. split; [cbn [BSE.Put be_plain PE.Put pe_sink]; rewrite HW; exact Hs'|exact Hr].
Defined.

(** The flush buffer, resized to the page, whatever memory it has. *)
Lemma flushed_ok f initial n data :
  poolOk f -> List.length data = n ->
  let fb := PooledBufferWriter.NewPooledBufferWriter f initial in
  let fb := PooledBufferWriter.sync (PooledBufferWriter.mk (Buffer.Resize (PooledBufferWriter.buf fb) (Z.of_nat n)) (PooledBufferWriter.pos fb) (PooledBufferWriter.offset fb)) in
  List.length (PooledBufferWriter.Bytes fb) = n /\ PooledBufferWriter.offset fb = 0 /\
  let b := PooledBufferWriter.buf fb in
  let b := Buffer.mk (splice (Buffer.buf b) 0 data) (Buffer.spare b) (Buffer.length b) in
  forall f3, exists m, PooledBufferWriter.Finish f3 (PooledBufferWriter.mk b (PooledBufferWriter.pos fb) (PooledBufferWriter.offset fb)) = (PooledBufferWriter.NewPooledBufferWriter f3 0, m) /\ Buffer.Bytes m = data.
Proof.
  intros [_ H0] HL fb0. set (b0 := PooledBufferWriter.buf fb0). assert (Hb0 : bufferOk b0) by (unfold bufferOk, b0, fb0, PooledBufferWriter.NewPooledBufferWriter; rewrite Reserve_length; cbn [PooledBufferWriter.buf]; lia).
  destruct (resize_ok b0 (Z.of_nat n) true Hb0 ltac:(lia)) as ([_ HC] & HN & _). change (Buffer.resize b0 (Z.of_nat n) true) with (Buffer.Resize b0 (Z.of_nat n)) in *. set (m := Buffer.Resize b0 (Z.of_nat n)) in *. intros fb.
  assert (Hfb : fb = PooledBufferWriter.mk m 0 0) by (subst fb; unfold PooledBufferWriter.sync, Buffer.Len; cbn [PooledBufferWriter.buf PooledBufferWriter.pos]; fold b0; fold m; change (PooledBufferWriter.pos fb0) with 0; rewrite HN; bool_lia (Z.of_nat n <? 0); reflexivity).
  rewrite Hfb. cbn [PooledBufferWriter.buf PooledBufferWriter.pos PooledBufferWriter.offset]. unfold PooledBufferWriter.Bytes, PooledBufferWriter.sync, Buffer.Len. cbn [PooledBufferWriter.buf PooledBufferWriter.pos PooledBufferWriter.offset].
  rewrite HN. bool_lia (Z.of_nat n <? 0). cbn [PooledBufferWriter.buf PooledBufferWriter.offset Z.to_nat skipn]. split; [unfold Buffer.Bytes; rewrite HN, length_firstn; lia|]. split; [reflexivity|].
  intros f3. unfold PooledBufferWriter.Finish, Buffer.Len. cbn [PooledBufferWriter.buf PooledBufferWriter.pos Buffer.length]. bool_lia (Z.of_nat n <? 0). eexists. split; [reflexivity|].
  unfold Buffer.Bytes. cbn [Buffer.buf Buffer.length]. rewrite Nat2Z.id, splice_in by lia. cbn [firstn app Nat.add]. now apply firstn_app_exact.
Qed.

Lemma splitFlush_ok f1 f2 f3 enc vs :
  poolOk f1 -> poolOk f2 -> poolOk f3 -> bseOk enc vs ->
  exists enc' page, BSE.FlushValues w f1 f2 f3 enc = Some (enc', page) /\ bseOk enc' [] /\ Buffer.Bytes page = splitOf w vs.
Proof.
  intros H1 H2 H3 [[Hs Hr] HB]. unfold BSE.FlushValues, PE.FlushValues. destruct (Finish_streamed f1 _ _ Hs) as (inb & HE & HI). rewrite HE.
  assert (HLi : Buffer.Len inb = Z.of_nat (w * List.length vs)).
  { destruct Hs as (_ & _ & Hp & Hle & _). unfold PooledBufferWriter.Finish in HE. injection HE as HE. rewrite <- HE. rewrite length_getBytes in Hp by lia. unfold Buffer.Len.
    destruct (Z.ltb_spec (Buffer.length (PooledBufferWriter.buf (pe_sink (be_plain enc)))) (PooledBufferWriter.pos (pe_sink (be_plain enc)))); [exact Hp|lia]. }
  rewrite HLi. set (fb0 := match be_flushBuffer enc with Some _ => _ | None => _ end).
  assert (Hfb0 : exists f initial, poolOk f /\ fb0 = PooledBufferWriter.NewPooledBufferWriter f initial) by (subst fb0; destruct (be_flushBuffer enc) as [fb|]; [destruct HB as (f & Hf & ->)|]; eauto).
  destruct Hfb0 as (f & initial & Hf & ->). destruct (flushed_ok f initial (w * List.length vs) (splitOf w vs) Hf (length_splitOf w vs)) as (HLb & Hoff & HFin).
  cbn zeta. set (fb := PooledBufferWriter.sync _) in *. rewrite HI, encode_page by (auto). cbn [opt_bind]. rewrite Hoff in HFin |- *. destruct (HFin f3) as (m & HM & HMB). cbn [Z.to_nat]. rewrite HM.
  eexists _, m. split; [reflexivity|]. split; [|exact HMB]. split; [|exists f3; auto]. split; [|exact Hr]. cbn [be_plain pe_sink getBytes]. now apply new_streamed.
Qed.
End Encoder.

(** ** Any page *)

(** A decoder that [SetData] made, after some reads: the window of the last stream ends with the data. *)
Definition bsdSafe (w : nat) (d : ByteSplitDecoder) : Prop := 0 <= bs_nvals d <= bs_stride d /\ len (bs_data d) = Z.of_nat w * bs_stride d - (bs_stride d - bs_nvals d).

Lemma streams_safe m s data n stride : 0 <= n -> 0 <= stride -> 0 <= s -> (m = O \/ (s + Z.of_nat m - 1) * stride + n <= len data) -> exists ss, streams m s data n stride = Some ss /\ List.length ss = m /\ Forall (fun x => len x = n) ss.
Proof.
  intros Hn Hst. revert s. induction m as [|m IH]; intros s Hs HL; cbn [streams]; [exists []; auto|]. destruct HL as [HL|HL]; [lia|].
  rewrite slice_ok by nia. cbn [opt_bind]. destruct (IH (s + 1)) as (ss & -> & HLs & HF); [lia|destruct m; [auto|right; nia]|]. cbn [opt_bind]. eexists. split; [reflexivity|].
  split; [cbn [List.length]; congruence|]. constructor; [rewrite length_firstn, length_skipn; nia|exact HF].
Qed.

Lemma gather_safe ss i shift n : Forall (fun x : list Z => len x = n) ss -> 0 <= i < n -> exists x, gather ss i shift = Some x.
Proof.
  intros HF Hi. revert shift. induction HF as [|s ss HL HF IH]; intros shift; cbn [gather]; [eauto|]. rewrite (index_ok _ _ 0) by lia. cbn [opt_bind]. destruct (IH (shift + 8)) as [x ->]. cbn [opt_bind]. eauto.
Qed.

Lemma gatherAll_safe ss n k i : Forall (fun x : list Z => len x = n) ss -> 0 <= i -> i + Z.of_nat k <= n -> exists xs, gatherAll k i ss = Some xs /\ List.length xs = k.
Proof.
  intros HF. revert i. induction k as [|k IH]; intros i Hi Hk; cbn [gatherAll]; [exists []; auto|]. destruct (gather_safe ss i 0 n HF ltac:(lia)) as [x ->]. cbn [opt_bind].
  destruct (IH (i + 1) ltac:(lia) ltac:(lia)) as (xs & -> & HL). cbn [opt_bind]. eexists. split; [reflexivity|]. cbn [List.length]. lia.
Qed.

Lemma bsdSetData_safe w nvals data d : (1 <= w)%nat -> BSD.SetData w nvals data = inl d -> bsdSafe w d.
Proof.
  intros Hw. unfold BSD.SetData, validateByteStreamSplitPageData. destruct (_ || _); [discriminate|]. destruct (Z.eqb_spec (len data mod Z.of_nat w) 0) as [H0|H0]; [|discriminate]. cbn [negb]. intros HE. injection HE as <-.
  unfold bsdSafe. cbn [bs_nvals bs_stride bs_data]. pose proof (Z.div_mod (len data) (Z.of_nat w) ltac:(lia)) as HD. rewrite H0 in HD. assert (0 <= len data / Z.of_nat w) by (apply Z.div_pos; lia). lia.
Qed.

Section Safe.
Variable w : nat.
Hypothesis Hw : (1 <= w)%nat.
Implicit Types d : ByteSplitDecoder.

Lemma bsdDecode_safe d out :
  bsdSafe w d ->
  match BSD.Decode w d out with
  | None => out = [] \/ bs_nvals d = 0
  | Some (d', out', n, e) => bsdSafe w d' /\ out <> [] /\ bs_nvals d <> 0 /\ List.length out' = List.length out /\ 0 <= n <= len out
  end.
Proof.
  intros Hd. pose proof Hd as [Hn HL]. unfold BSD.Decode. remember (Z.min (len out) (bs_nvals d)) as k eqn:Hk. destruct (Z.eq_dec k 0) as [H0|H0].
  - rewrite H0. bool_lia (len (bs_data d) <? 0 * Z.of_nat w). cbn [orb Z.mul MaxInt32 Z.ltb Z.compare]. unfold decodeBatchDefault. destruct (streams _ _ _ _ _) as [ss|]; cbn [opt_bind].
    + rewrite slice_ok by lia. cbn [opt_bind]. change (index (firstn (Z.to_nat (0 - 0)) (skipn (Z.to_nat 0) out)) 0) with (@None Z). cbn [opt_bind]. destruct out; [auto|right; cbn [List.length] in *; lia].
    + destruct out; [auto|right; cbn [List.length] in *; lia].
  - assert (Hout : out <> [] /\ bs_nvals d <> 0) by (split; [intros ->; cbn in *|]; lia). destruct Hout as [Ho Hnv]. destruct (_ || _) eqn:E; [splits; auto; lia|].
    unfold decodeBatchDefault. destruct (streams_safe w 0 (bs_data d) k (bs_stride d)) as (ss & -> & _ & HF); [lia|lia|lia|right; nia|]. cbn [opt_bind].
    rewrite slice_ok by lia. cbn [opt_bind]. rewrite (index_ok _ _ 0) by (rewrite length_firstn, length_skipn; lia). cbn [opt_bind].
    destruct (gatherAll_safe ss k (Z.to_nat k) 0 HF ltac:(lia) ltac:(lia)) as (xs & -> & HLx). cbn [opt_bind]. rewrite slice_ok by nia. cbn [opt_bind]. splits; auto; try lia.
    + unfold bsdSafe. cbn [bs_nvals bs_stride bs_data]. rewrite length_firstn, length_skipn. nia.
    + rewrite length_app, length_map, length_skipn. lia.
Qed.

Lemma bsdStep_safe d op d' res : bsdSafe w d -> pageStep (H := splitDecoder_page w) d op = Some (d', res) -> bsdSafe w d'.
Proof.
  intros Hd. destruct op as [out|k|out bits off]; cbn [pageStep decDecode decDiscard decDecodeSpaced splitDecoder_page].
  - pose proof (bsdDecode_safe d out Hd) as HS. destruct (BSD.Decode w d out) as [[[[d1 o] n] e]|]; [|discriminate]. cbn [opt_bind]. intros HE. injection HE as <- _. tauto.
  - unfold BSD.Discard. destruct Hd as [Hn HL]. rewrite slice_ok by nia. cbn [opt_bind]. intros HE. injection HE as <- _. unfold bsdSafe. cbn [bs_nvals bs_stride bs_data]. rewrite length_firstn, length_skipn. nia.
  - unfold BSD.DecodeSpaced. destruct (slice _ _ _) as [part|]; [|discriminate]. cbn [opt_bind]. pose proof (bsdDecode_safe d part Hd) as HS. destruct (BSD.Decode w d part) as [[[[d1 o] n] e]|]; [|discriminate].
    cbn [opt_bind]. destruct HS as [HS _]. destruct e as [e|]; [intros HE; injection HE as <- _; exact HS|]. destruct (negb _); [intros HE; injection HE as <- _; exact HS|].
    destruct (spacedExpand _ _ _ _) as [[o' m]|]; [|discriminate]. cbn [opt_bind]. intros HE. injection HE as <- _. exact HS.
Qed.

Lemma bsdReads_safe ops d d' res : bsdSafe w d -> pageReads (H := splitDecoder_page w) d ops = Some (d', res) -> bsdSafe w d'.
Proof.
  revert d res. induction ops as [|op ops IH]; intros d res Hd; cbn [pageReads]; [intros HE; injection HE as <- _; exact Hd|].
  destruct (pageStep d op) as [[d1 r]|] eqn:E; [|discriminate]. cbn [opt_bind]. destruct (pageReads d1 ops) as [[d2 rs]|] eqn:E2; [|discriminate]. cbn [opt_bind]. intros HE. injection HE as <- _.
  apply (IH d1 rs); [|exact E2]. exact (bsdStep_safe d op d1 r Hd E).
Qed.
End Safe.

(** ** Claims *)

(** The unrolled encoders of width 2, 4 and 8 do what the generic one does, on any input, also
    one that is not a whole number of values, and any destination with room for it. *)
Theorem split_encoders_equiv data inb :
  len inb <= len data ->
  encodeByteStreamSplitWidth2 data inb = encodeByteStreamSplit data inb 2 /\
  encodeByteStreamSplitWidth4 data inb = encodeByteStreamSplit data inb 4 /\
  encodeByteStreamSplitWidth8 data inb = encodeByteStreamSplit data inb 8 /\
  forall width, 0 < width -> exists data', encodeByteStreamSplit data inb width = Some data' /\ List.length data' = List.length data.
Proof.
  intros HL. assert (Hdiv : forall width, 0 < width -> 0 <= len inb / width /\ width * (len inb / width) <= len inb) by (intros width H; split; [apply Z.div_pos|apply Z.mul_div_le]; lia).
  rewrite width2_moves, width4_moves, width8_moves, !generic_moves by (apply Z.div_pos; lia). splits.
  1-3: symmetry; apply byStream_byElement; [apply Z.div_pos; lia|lia| |]; (etransitivity; [apply Z.mul_div_le|]); lia.
  intros width Hwd. destruct (Hdiv width Hwd) as [H1 H2]. rewrite generic_moves by exact H1.
  destruct (moves_ok inb width (len inb / width) (byStream width (len inb / width)) data) as (data' & HE & HL' & _); [|lia|lia|eauto]. apply Forall_forall. intros pt. apply in_byStream; lia.
Qed.

(** C19: a page of 4- or 8-byte values as byte streams. Any batches are put, with or without nulls,
    into an encoder that is new or has finished a page; the page is read, with its number of
    values or a larger one, by any sequence of discards, reads and reads with nulls that each
    come to at least one value. Every read reports the number it should and the values are those
    that were put, in order, less those discarded. The encoder is ready for the next page. *)
Theorem byte_stream_split_roundtrip w f1 f2 f3 enc puts nvals ops :
  let vals := allValues puts in
  (w = 4 \/ w = 8)%nat -> poolOk f1 -> poolOk f2 -> poolOk f3 -> bseOk w enc [] -> Forall putOk puts ->
  Forall (inS (8 * Z.of_nat w)) vals -> Z.of_nat w * len vals <= MaxInt32 -> len vals <= nvals -> readsFit (fun n => (0 < n)%nat) (List.length vals) ops ->
  exists enc1 enc' page d d',
    pagePuts (H := splitEncoder_page w) enc puts = Some enc1 /\ BSE.FlushValues w f1 f2 f3 enc1 = Some (enc', page) /\ bseOk w enc' [] /\
    BSD.SetData w nvals (Buffer.Bytes page) = inl d /\ pageReads (H := splitDecoder_page w) d ops = Some (d', readSpec vals ops).
Proof.
  intros vals Hw H1 H2 H3 HO HP HF HM Hn HR. destruct (@pagePuts_ok _ _ _ (splitEncoder_ok w Hw) puts enc [] HO HP (conj HF HM)) as (enc1 & HE & HO1). cbn [app] in HO1. fold vals in HO1.
  destruct (splitFlush_ok w Hw f1 f2 f3 enc1 vals H1 H2 H3 HO1) as (enc' & page & HFl & HO' & HB). destruct (bsdSetData_ok w Hw vals nvals HF HM Hn) as (d & HSD & Hd).
  destruct (@pageReads_ok _ _ _ _ (splitDecoder_ok w Hw) ops d vals Hd HR) as (d' & res & HRd & HS). apply eqResults in HS. subst res. exists enc1, enc', page, d, d'. rewrite HB. auto.
Qed.

(** On any page that [SetData] accepts, after any reads, the portable [Decode] panics when it
    is asked for no values or has none left, and only then: it takes the address of the first
    byte of an empty slice. *)
Theorem split_decode_panics w nvals data d ops d' res out :
  (w = 4 \/ w = 8)%nat -> BSD.SetData w nvals data = inl d -> pageReads (H := splitDecoder_page w) d ops = Some (d', res) ->
  (BSD.Decode w d' out = None <-> out = [] \/ bs_nvals d' = 0).
Proof.
  intros Hw' HS HR. assert (Hw : (1 <= w)%nat) by lia. apply (bsdSetData_safe w) in HS; [|exact Hw]. apply (bsdReads_safe w Hw) in HR; [|exact HS]. pose proof (bsdDecode_safe w Hw d' out HR) as HD.
  destruct (BSD.Decode w d' out) as [[[[? ?] ?] ?]|]; [|tauto]. split; [discriminate|tauto].
Qed.

Definition splitPuts : list (putBatch Z) := [([1; -2; 70000; 4; 5], Some ([22], 1)); ([-2147483648; 2147483647; 9], None)].
Definition splitReads : list (pageRead Z) := [ReadDecode [0; 0]; ReadDiscard 1; ReadSpaced (repeat 0 6) [36; 0] 1; ReadDecode [7; 7]].

Lemma byte_stream_split_witness :
  let p := Buffer.NewResizableBuffer in
  exists enc1 enc' page d d',
    pagePuts (H := splitEncoder_page 4) (BSE.New p) splitPuts = Some enc1 /\ BSE.FlushValues 4 p p p enc1 = Some (enc', page) /\ bseOk 4 enc' [] /\
    BSD.SetData 4 8 (Buffer.Bytes page) = inl d /\ pageReads (H := splitDecoder_page 4) d splitReads = Some (d', readSpec (allValues splitPuts) splitReads).
Proof.
  assert (HP : poolOk Buffer.NewResizableBuffer) by (repeat constructor).
  apply (byte_stream_split_roundtrip 4 Buffer.NewResizableBuffer Buffer.NewResizableBuffer Buffer.NewResizableBuffer (BSE.New Buffer.NewResizableBuffer) splitPuts 8 splitReads);
    [lia|exact HP|exact HP|exact HP| | | |vm_compute; discriminate|vm_compute; discriminate|].
  - split; [|exact I]. apply newPlainEncoder_ok; [constructor|constructor|reflexivity].
  - repeat constructor; vm_compute; discriminate || reflexivity.
  - change (allValues splitPuts) with [1; -2; 4; -2147483648; 2147483647; 9]. repeat constructor; vm_compute; discriminate || reflexivity.
  - change (List.length (allValues splitPuts)) with 6%nat. cbn. repeat split; repeat constructor; vm_compute; discriminate || reflexivity.
Defined.

