(* ===== verification/PathBuilder.v ===== *)
(** * Shredding nested arrays into levels (parquet/pqarrow/path_builder.go)

    [Visit] turns an arrow array into one path per leaf: nullable nodes, lists and a terminal.
    [writePath] walks a path with a stack of element ranges and appends definition and repetition
    levels.  A level is an int16 in a [PooledBufferWriter] ([int16BufferBuilder]). *)

From Stdlib Require Import ZArith List Lia Bool String.
From S2P Require Import Prelude GoStd BitUtil MathUtil Memory BitRunReader DictDecode.
Import ListNotations.
#[local] Open Scope Z_scope.
#[local] Open Scope go_scope.

(** ** Buffers of levels *)

(** [PooledBufferWriter.UnsafeWriteCopy] *)
Definition UnsafeWriteCopy (b : PooledBufferWriter.t) (ncopies : Z) (pattern : list Z) : option PooledBufferWriter.t :=
  let nbytes := len pattern * ncopies in
  let pos := PooledBufferWriter.pos b in
  let m := PooledBufferWriter.buf b in
  slc <- slice (Buffer.buf m) pos (pos + nbytes) ;;
  let slc := doubling (List.length slc) (splice slc 0 pattern) (len pattern) in
  Some (PooledBufferWriter.mk (Buffer.mk (splice (Buffer.buf m) (Z.to_nat pos) slc) (Buffer.spare m) (Buffer.length m)) (pos + nbytes) (PooledBufferWriter.offset b)).

Module Int16Buffer.

Definition Values (b : PooledBufferWriter.t) : list Z := let bs := PooledBufferWriter.Bytes b in fromBytes 2 (Nat.div (List.length bs) 2) bs.
Definition Reserve (b : PooledBufferWriter.t) (n : Z) : PooledBufferWriter.t := PooledBufferWriter.Reserve b (n * 2).
Definition LenOf (b : PooledBufferWriter.t) : Z := Z.quot (PooledBufferWriter.LenOf b) 2.
Definition AppendCopies (b : PooledBufferWriter.t) (count val : Z) : option PooledBufferWriter.t := UnsafeWriteCopy (Reserve b count) count (lebytes 2 val).
Definition Append (b : PooledBufferWriter.t) (v : Z) : PooledBufferWriter.t := fst (PooledBufferWriter.Write (PooledBufferWriter.Reserve b 2) (lebytes 2 v)).

End Int16Buffer.

(** ** Ranges of elements *)

Record elemRange : Type := mkER { er_start : Z; er_end : Z }.

Definition er_empty (e : elemRange) : bool := er_start e =? er_end e.
Definition er_size (e : elemRange) : Z := er_end e - er_start e.

Inductive rangeSelector : Type :=
| varRangeSelector (offsets : list Z)
| largeVarRangeSelector (offsets : list Z)
| fixedSizeRangeSelector (listSize : Z).

Definition GetRange (s : rangeSelector) (idx : Z) : option elemRange :=
  match s with
  | varRangeSelector offsets | largeVarRangeSelector offsets => a <- index offsets idx ;; b <- index offsets (idx + 1) ;; Some (mkER a b)
  | fixedSizeRangeSelector listSize => let start := idx * listSize in Some (mkER start (start + listSize))
  end.

(** ** Nodes *)

Inductive pathNode : Type :=
| allPresentTerminalNode (defLevel : Z)
| allNullsTerminalNode (defLevel repLevel : Z)
| nullableTerminalNode (bitmap : list Z) (elemOffset defLevelIfPresent defLevelIfNull : Z)
| listNode (selector : rangeSelector) (prevRepLevel repLevel defLevelIfEmpty : Z) (isLast : bool)
| nullableNode (bitmap : list Z) (entryOffset repLevelIfNull defLevelIfNull : Z) (validBitsReader : option bitRunReader) (newRange : bool).

Record pathWriteCtx : Type := mkCtx { cx_defLevels : PooledBufferWriter.t; cx_repLevels : PooledBufferWriter.t; cx_visitedElems : list elemRange }.

Inductive iterResult : Type := iterDone | iterNext.
Definition iterStep (r : iterResult) : Z := match r with iterDone => -1 | iterNext => 1 end.

Module PathCtx.
Implicit Types ctx : pathWriteCtx.

Definition ReserveDefLevels ctx (elems : Z) : pathWriteCtx := mkCtx (Int16Buffer.Reserve (cx_defLevels ctx) elems) (cx_repLevels ctx) (cx_visitedElems ctx).
Definition AppendDefLevels ctx (count defLevel : Z) : option pathWriteCtx :=
  b <- Int16Buffer.AppendCopies (cx_defLevels ctx) count defLevel ;; Some (mkCtx b (cx_repLevels ctx) (cx_visitedElems ctx)).
Definition AppendRepLevel ctx (lvl : Z) : pathWriteCtx := mkCtx (cx_defLevels ctx) (Int16Buffer.Append (cx_repLevels ctx) lvl) (cx_visitedElems ctx).
Definition AppendRepLevels ctx (count lvl : Z) : option pathWriteCtx :=
  b <- Int16Buffer.AppendCopies (cx_repLevels ctx) count lvl ;; Some (mkCtx (cx_defLevels ctx) b (cx_visitedElems ctx)).
Definition equalRepDeflevlsLen ctx : bool := Int16Buffer.LenOf (cx_defLevels ctx) =? Int16Buffer.LenOf (cx_repLevels ctx).

(** The last range is extended in place when the new one continues it. *)
Fixpoint visit (ranges : list elemRange) (rng : elemRange) : list elemRange :=
  match ranges with
  | [] => [rng]
  | [last] => if er_start rng =? er_end last then [mkER (er_start last) (er_end rng)] else [last; rng]
  | r :: ranges' => r :: visit ranges' rng
  end.

Definition recordPostListVisit ctx (rng : elemRange) : pathWriteCtx := mkCtx (cx_defLevels ctx) (cx_repLevels ctx) (visit (cx_visitedElems ctx) rng).

Definition fillRepLevels (count repLvl : Z) ctx : option pathWriteCtx :=
  if repLvl =? -1 then Some ctx
  else
    let fillCount := if negb (equalRepDeflevlsLen ctx) then count - 1 else count in
    AppendRepLevels ctx fillCount repLvl.

End PathCtx.

(** ** What a node does with its range *)

Module PathRun.
Import PathCtx.
Implicit Types (rng : elemRange) (ctx : pathWriteCtx).

(** [allPresentTerminalNode.run] and [allNullsTerminalNode.run] *)
Definition allPresent (defLevel : Z) rng ctx : option pathWriteCtx := AppendDefLevels ctx (er_size rng) defLevel.

Definition allNulls (defLevel repLevel : Z) rng ctx : option pathWriteCtx :=
  ctx <- fillRepLevels (er_size rng) repLevel ctx ;; AppendDefLevels ctx (er_size rng) defLevel.

(** The loop of [nullableTerminalNode.run]; a run has at least one bit, so that one unit of fuel
    per bit is enough. *)
Fixpoint nullableLoop (fuel : nat) (rdr : bitRunReader) (present null : Z) (b : PooledBufferWriter.t) : option PooledBufferWriter.t :=
  match fuel with
  | O => None
  | S fuel' =>
      r <- BRR.NextRun rdr ;;
      let '(rdr', run) := r in
      if RunLen run =? 0 then Some b
      else b' <- UnsafeWriteCopy b (RunLen run) (lebytes 2 (if RunSet run then present else null)) ;; nullableLoop fuel' rdr' present null b'
  end.

Definition nullableTerminal (bitmap : list Z) (elemOffset present null : Z) rng ctx : option pathWriteCtx :=
  let elems := er_size rng in
  let ctx := ReserveDefLevels ctx elems in
  rdr <- BRR.NewBitRunReader bitmap (elemOffset + er_start rng) elems ;;
  b <- nullableLoop (S (Z.to_nat elems)) rdr present null (cx_defLevels ctx) ;;
  Some (mkCtx b (cx_repLevels ctx) (cx_visitedElems ctx)).

(** The loop that skips empty lists: the range and the child's range afterwards. *)
Fixpoint skipEmpty (fuel : nat) (sel : rangeSelector) rng : option (elemRange * elemRange) :=
  match fuel with
  | O => None
  | S fuel' =>
      child <- GetRange sel (er_start rng) ;;
      if negb (er_empty child) then Some (rng, child)
      else
        let rng := mkER (er_start rng + 1) (er_end rng) in
        if er_empty rng then Some (rng, child) else skipEmpty fuel' sel rng
  end.

(** The loop of [fillForLast] over the lists that follow. *)
Fixpoint fillLoop (fuel : nat) (sel : rangeSelector) (prevRepLevel repLevel : Z) rng (child : elemRange) ctx : option (elemRange * elemRange * pathWriteCtx) :=
  if er_empty rng then Some (rng, child, ctx)
  else
    match fuel with
    | O => None
    | S fuel' =>
        sizeCheck <- GetRange sel (er_start rng) ;;
        if er_empty sizeCheck then Some (rng, child, ctx)
        else
          let ctx := AppendRepLevel ctx prevRepLevel in
          ctx <- AppendRepLevels ctx (er_size sizeCheck - 1) repLevel ;;
          fillLoop fuel' sel prevRepLevel repLevel (mkER (er_start rng + 1) (er_end rng)) (mkER (er_start child) (er_end sizeCheck)) ctx
    end.

Definition fillForLast (sel : rangeSelector) (prevRepLevel repLevel : Z) rng (child : elemRange) ctx : option (elemRange * elemRange * pathWriteCtx) :=
  ctx <- fillRepLevels (er_size child) repLevel ctx ;;
  r <- fillLoop (Z.to_nat (er_size rng)) sel prevRepLevel repLevel rng child ctx ;;
  let '(rng, child, ctx) := r in Some (rng, child, recordPostListVisit ctx child).

(** [listNode.run]: the two ranges, the context, what to do next. *)
Definition list_ (sel : rangeSelector) (prevRepLevel repLevel defLevelIfEmpty : Z) (isLast : bool) rng (child : elemRange) ctx
  : option (elemRange * elemRange * pathWriteCtx * iterResult) :=
  if er_empty rng then Some (rng, child, ctx, iterDone)
  else
    let start := er_start rng in
    r <- skipEmpty (Z.to_nat (er_size rng)) sel rng ;;
    let '(rng, child) := r in
    let emptyElems := er_start rng - start in
    ctx <- (if 0 <? emptyElems then ctx <- fillRepLevels emptyElems prevRepLevel ctx ;; AppendDefLevels ctx emptyElems defLevelIfEmpty else Some ctx) ;;
    let ctx := if equalRepDeflevlsLen ctx && negb (er_empty rng) then AppendRepLevel ctx prevRepLevel else ctx in
    if er_empty rng then Some (rng, child, ctx, iterDone)
    else
      let rng := mkER (er_start rng + 1) (er_end rng) in
      if isLast then r <- fillForLast sel prevRepLevel repLevel rng child ctx ;; let '(rng, child, ctx) := r in Some (rng, child, ctx, iterNext)
      else Some (rng, child, ctx, iterNext).

(** [nullableNode.run]: also the reader and the flag afterwards. *)
Definition nullable (bitmap : list Z) (entryOffset repLevelIfNull defLevelIfNull : Z) (rdr : option bitRunReader) (newRange : bool) rng (child : elemRange) ctx
  : option (bitRunReader * bool * elemRange * elemRange * pathWriteCtx * iterResult) :=
  rdr <- (if newRange then BRR.NewBitRunReader bitmap (entryOffset + er_start rng) (er_size rng) else rdr) ;;
  let child := mkER (er_start rng) (er_end child) in
  r <- BRR.NextRun rdr ;;
  let '(rdr, run) := r in
  r <- (if negb (RunSet run) then
          let rng := mkER (er_start rng + RunLen run) (er_end rng) in
          ctx <- fillRepLevels (RunLen run) repLevelIfNull ctx ;;
          ctx <- AppendDefLevels ctx (RunLen run) defLevelIfNull ;;
          r <- BRR.NextRun rdr ;;
          let '(rdr, run) := r in Some (rdr, run, rng, ctx)
        else Some (rdr, run, rng, ctx)) ;;
  let '(rdr, run, rng, ctx) := r in
  if er_empty rng then Some (rdr, true, rng, child, ctx, iterDone)
  else
    let child := mkER (er_start rng) (er_start rng + RunLen run) in
    let rng := mkER (er_start rng + er_size child) (er_end rng) in
    Some (rdr, false, rng, child, ctx, iterNext).

End PathRun.

(** ** Walking a path *)

Record pathInfo : Type := mkPathInfo { pi_path : list pathNode; pi_leafLen : Z; pi_maxDefLevel : Z; pi_maxRepLevel : Z; pi_leafIsNullable : bool }.

(** [repLevels] is [None] where the Go slice is nil. *)
Record multipathLevelResult : Type := mkLevels {
  ml_defLevels : list Z;
  ml_repLevels : option (list Z);
  ml_postListVisitedElems : list elemRange;
  ml_leafIsNullable : bool
}.

Record walkState : Type := mkWalk { wk_path : list pathNode; wk_stack : list elemRange; wk_pos : Z; wk_ctx : pathWriteCtx }.

Definition walkStep (st : walkState) : option walkState :=
  let '(mkWalk path stack pos ctx) := st in
  n <- index path pos ;;
  rng <- index stack pos ;;
  match n with
  | nullableNode bitmap entryOffset rep def rdr newRange =>
      child <- index stack (pos + 1) ;;
      r <- PathRun.nullable bitmap entryOffset rep def rdr newRange rng child ctx ;;
      let '(rdr, newRange, rng, child, ctx, res) := r in
      path <- store path pos (nullableNode bitmap entryOffset rep def (Some rdr) newRange) ;;
      stack <- store stack pos rng ;;
      stack <- store stack (pos + 1) child ;;
      Some (mkWalk path stack (pos + iterStep res) ctx)
  | listNode sel prev rep def isLast =>
      child <- index stack (pos + 1) ;;
      r <- PathRun.list_ sel prev rep def isLast rng child ctx ;;
      let '(rng, child, ctx, res) := r in
      stack <- store stack pos rng ;;
      stack <- store stack (pos + 1) child ;;
      Some (mkWalk path stack (pos + iterStep res) ctx)
  | nullableTerminalNode bitmap elemOffset present null =>
      ctx <- PathRun.nullableTerminal bitmap elemOffset present null rng ctx ;; Some (mkWalk path stack (pos + iterStep iterDone) ctx)
  | allPresentTerminalNode def => ctx <- PathRun.allPresent def rng ctx ;; Some (mkWalk path stack (pos + iterStep iterDone) ctx)
  | allNullsTerminalNode def rep => ctx <- PathRun.allNulls def rep rng ctx ;; Some (mkWalk path stack (pos + iterStep iterDone) ctx)
  end.

Fixpoint walk (fuel : nat) (st : walkState) : option walkState :=
  if wk_pos st <? 0 then Some st
  else match fuel with O => None | S fuel' => st' <- walkStep st ;; walk fuel' st' end.

(** [fresh1], [fresh2] are the buffers of the pool.  The path's nodes afterwards are returned:
    they are kept for the next call. *)
Definition writePath (fuel : nat) (fresh1 fresh2 : Buffer.t) (rootRange : elemRange) (info : pathInfo) : option (list pathNode * multipathLevelResult) :=
  if pi_maxDefLevel info =? 0 then Some (pi_path info, mkLevels [] None [mkER 0 (pi_leafLen info)] (pi_leafIsNullable info))
  else
    stack <- store (repeat (mkER 0 0) (List.length (pi_path info))) 0 rootRange ;;
    let defs := Int16Buffer.Reserve (PooledBufferWriter.NewPooledBufferWriter fresh1 0) (er_size rootRange) in
    let reps := PooledBufferWriter.NewPooledBufferWriter fresh2 0 in
    let reps := if 0 <? pi_maxRepLevel info then Int16Buffer.Reserve reps (er_size rootRange) else reps in
    st <- walk fuel (mkWalk (pi_path info) stack 0 (mkCtx defs reps [])) ;;
    let ctx := wk_ctx st in
    let '(repLevels, visited) :=
      if 0 <? Int16Buffer.LenOf (cx_repLevels ctx)
      then (Some (Int16Buffer.Values (cx_repLevels ctx)), match cx_visitedElems ctx with [] => [mkER 0 0] | v => v end)
      else (None, [mkER 0 (pi_leafLen info)]) in
    Some (wk_path st, mkLevels (Int16Buffer.Values (cx_defLevels ctx)) repLevels visited (pi_leafIsNullable info)).

(** ** Arrays and their paths *)

(** What the builder asks an array: its length, its offset into the bitmap, the null count that is
    stored ([None] where it is not known) and the bitmap, if there is one. *)
Record arrayData : Type := mkAD { ad_len : Z; ad_offset : Z; ad_nullN : option Z; ad_bitmap : option (list Z) }.

(** [ListArr] is a list or a map; [offsets] is the whole buffer, [values] the whole child.  The
    fields of a struct are cut to the struct already ([Struct.setData]), each with its
    nullability. *)
Inductive arrowArray : Type :=
| PrimitiveArr (d : arrayData)
| ListArr (d : arrayData) (offsets : list Z) (elemNullable : bool) (values : arrowArray)
| LargeListArr (d : arrayData) (offsets : list Z) (elemNullable : bool) (values : arrowArray)
| FixedSizeListArr (d : arrayData) (listSize : Z) (elemNullable : bool) (values : arrowArray)
| DictionaryArr (d : arrayData) (nestedValues : bool) (dictNulls : Z)
| StructArr (d : arrayData) (fields : list (bool * arrowArray))
| ExtensionArr (storage : arrowArray)
| UnionArr (d : arrayData).

Fixpoint dataOf (a : arrowArray) : arrayData :=
  match a with
  | PrimitiveArr d | ListArr d _ _ _ | LargeListArr d _ _ _ | FixedSizeListArr d _ _ _ | DictionaryArr d _ _ | StructArr d _ | UnionArr d => d
  | ExtensionArr s => dataOf s
  end.

Definition lazyNoNulls (d : arrayData) : bool :=
  match ad_nullN d with Some n => n =? 0 | None => match ad_bitmap d with None => true | Some _ => false end end.

(** [lazyNullCount(arr) == int64(arr.Len())] *)
Definition lazyAllNulls (d : arrayData) : bool := match ad_nullN d with Some n => n =? ad_len d | None => -1 =? ad_len d end.

Definition bitmapBytes (d : arrayData) : list Z := match ad_bitmap d with Some b => b | None => [] end.

(** [fixupVisitor.visit]: the node and the visitor's [repLevelIfNull] afterwards. *)
Definition fixupNode (maxRepLevel repLevelIfNull : Z) (n : pathNode) : pathNode * Z :=
  match n with
  | listNode sel prev rep def isLast => if rep =? maxRepLevel then (listNode sel prev rep def true, -1) else (n, rep)
  | allNullsTerminalNode def _ => if negb (repLevelIfNull =? -1) then (allNullsTerminalNode def repLevelIfNull, repLevelIfNull) else (n, repLevelIfNull)
  | nullableNode bm off _ def rdr nr => if negb (repLevelIfNull =? -1) then (nullableNode bm off repLevelIfNull def rdr nr, repLevelIfNull) else (n, repLevelIfNull)
  | _ => (n, repLevelIfNull)
  end.

Fixpoint fixupPath (maxRepLevel repLevelIfNull : Z) (path : list pathNode) : list pathNode :=
  match path with
  | [] => []
  | n :: path' => let '(n', r) := fixupNode maxRepLevel repLevelIfNull n in n' :: fixupPath maxRepLevel r path'
  end.

Definition fixup (info : pathInfo) : pathInfo :=
  if pi_maxRepLevel info =? 0 then info
  else mkPathInfo (fixupPath (pi_maxRepLevel info) (if 0 <? pi_maxRepLevel info then 0 else -1) (pi_path info)) (pi_leafLen info) (pi_maxDefLevel info) (pi_maxRepLevel info) (pi_leafIsNullable info).

Module PB.
Implicit Types info : pathInfo.

Definition addNode (info : pathInfo) (n : pathNode) : pathInfo := mkPathInfo (pi_path info ++ [n]) (pi_leafLen info) (pi_maxDefLevel info) (pi_maxRepLevel info) (pi_leafIsNullable info).
(** The levels are int16. *)
Definition setLevels (info : pathInfo) (def rep : Z) : pathInfo := mkPathInfo (pi_path info) (pi_leafLen info) (wrapS 16 def) (wrapS 16 rep) (pi_leafIsNullable info).

Definition maybeAddNullable (info : pathInfo) (nullableInParent : bool) (d : arrayData) : pathInfo :=
  if negb nullableInParent then info
  else
    let info := setLevels info (pi_maxDefLevel info + 1) (pi_maxRepLevel info) in
    if lazyNoNulls d then info
    else if lazyAllNulls d then addNode info (allNullsTerminalNode (pi_maxDefLevel info - 1) (-1))
    else addNode info (nullableNode (bitmapBytes d) (ad_offset d) (-1) (pi_maxDefLevel info - 1) None true).

(** The path that [addTerminalInfo] adds to the builder's. *)
Definition addTerminalInfo (info : pathInfo) (nullableInParent : bool) (d : arrayData) : pathInfo :=
  let info := if nullableInParent then setLevels info (pi_maxDefLevel info + 1) (pi_maxRepLevel info) else info in
  let def := pi_maxDefLevel info in
  let '(n, leafIsNullable) :=
    if lazyNoNulls d then (allPresentTerminalNode def, false)
    else if lazyAllNulls d then (allNullsTerminalNode (def - 1) (-1), nullableInParent)
    else (nullableTerminalNode (bitmapBytes d) (ad_offset d) def (def - 1), nullableInParent) in
  let info := addNode info n in
  fixup (mkPathInfo (pi_path info) (ad_len d) (pi_maxDefLevel info) (pi_maxRepLevel info) leafIsNullable).

(** The part of [visitListLike] before the child is visited. *)
Definition addList (info : pathInfo) (nullableInParent : bool) (d : arrayData) (sel : rangeSelector) (defLevelOffset : Z) : pathInfo :=
  let info := maybeAddNullable info nullableInParent d in
  let info := setLevels info (pi_maxDefLevel info + 1) (pi_maxRepLevel info + 1) in
  addNode info (listNode sel (pi_maxRepLevel info - 1) (pi_maxRepLevel info) (pi_maxDefLevel info + defLevelOffset) false).

(** [Visit]: the paths added, one per leaf; a struct goes on with its own state for each field. *)
Fixpoint Visit (arr : arrowArray) (info : pathInfo) (nullableInParent : bool) : option (list pathInfo + goerr) :=
  match arr with
  | ListArr d offsets elemNullable values =>
      offs <- slice offsets (ad_offset d) (len offsets) ;;
      Visit values (addList info nullableInParent d (varRangeSelector offs) (-1)) elemNullable
  | LargeListArr d offsets elemNullable values =>
      offs <- slice offsets (ad_offset d) (len offsets) ;;
      Visit values (addList info nullableInParent d (largeVarRangeSelector offs) (-1)) elemNullable
  | FixedSizeListArr d listSize elemNullable values => Visit values (addList info nullableInParent d (fixedSizeRangeSelector listSize) 0) elemNullable
  | DictionaryArr d nestedValues dictNulls =>
      if nestedValues then Some (inr (ErrMsg "writing DictionaryArray with nested dictionary type not yet supported"))
      else if 0 <? dictNulls then Some (inr (ErrMsg "writing DictionaryArray with null encoded in dictionary not yet supported"))
      else Some (inl [addTerminalInfo info nullableInParent d])
  | StructArr d fields =>
      let info := maybeAddNullable info nullableInParent d in
      (fix visitFields (fields : list (bool * arrowArray)) : option (list pathInfo + goerr) :=
         match fields with
         | [] => Some (inl [])
         | (nullable, f) :: fields' =>
             r <- Visit f info nullable ;;
             match r with
             | inr e => Some (inr e)
             | inl ps =>
                 r <- visitFields fields' ;;
                 match r with inr e => Some (inr e) | inl ps' => Some (inl (ps ++ ps')) end
             end
         end) fields
  | ExtensionArr storage => Visit storage info nullableInParent
  | UnionArr _ => Some (inr (ErrMsg "union types aren't supported in parquet"))
  | PrimitiveArr d => Some (inl [addTerminalInfo info nullableInParent d])
  end.

End PB.

(** ** The builder of all levels *)

Record multipathLevelBuilder : Type := mkMB { mb_rootRange : elemRange; mb_paths : list pathInfo }.

Module MB.

Definition newMultipathLevelBuilder (arr : arrowArray) (fieldNullable : bool) : option (multipathLevelBuilder + goerr) :=
  r <- PB.Visit arr (mkPathInfo [] 0 0 0 false) fieldNullable ;;
  match r with inr e => Some (inr e) | inl ps => Some (inl (mkMB (mkER 0 (ad_len (dataOf arr))) ps)) end.

Definition leafCount (m : multipathLevelBuilder) : Z := len (mb_paths m).

(** [fresh] are the two buffers of the pool that the call takes. *)
Definition write (fuel : nat) (fresh : Buffer.t * Buffer.t) (m : multipathLevelBuilder) (leafIdx : Z) : option (multipathLevelBuilder * multipathLevelResult) :=
  p <- index (mb_paths m) leafIdx ;;
  r <- writePath fuel (fst fresh) (snd fresh) (mb_rootRange m) p ;;
  let '(path, res) := r in
  paths <- store (mb_paths m) leafIdx (mkPathInfo path (pi_leafLen p) (pi_maxDefLevel p) (pi_maxRepLevel p) (pi_leafIsNullable p)) ;;
  Some (mkMB (mb_rootRange m) paths, res).

(** The loop of [writeAll] from leaf [idx]; [pool] gives each call its buffers. *)
Fixpoint writeFrom (fuel todo : nat) (pool : Z -> Buffer.t * Buffer.t) (m : multipathLevelBuilder) (idx : Z) : option (multipathLevelBuilder * list multipathLevelResult) :=
  match todo with
  | O => Some (m, [])
  | S todo' =>
      r <- write fuel (pool idx) m idx ;;
      let '(m, res) := r in
      r <- writeFrom fuel todo' pool m (idx + 1) ;;
      let '(m, rest) := r in Some (m, res :: rest)
  end.

Definition writeAll (fuel : nat) (pool : Z -> Buffer.t * Buffer.t) (m : multipathLevelBuilder) : option (multipathLevelBuilder * list multipathLevelResult) :=
  writeFrom fuel (Z.to_nat (leafCount m)) pool m 0.

End MB.
