(* ===== verification/PathShred.v ===== *)
(** * Shredding: the reference, and that the walk follows it

    [shred] gives the entries (repetition level, definition level) of one element, by recursion
    on the path, as the record-shredding algorithm is usually defined; [visits] the elements of
    the innermost lists that are reached.  The walk, which works on runs of elements, fills in
    repetition levels ahead of definition levels and comes back to a node again and again,
    produces the entries of its range. *)

From Stdlib Require Import ZArith List Lia Bool.
From S2P Require Import Prelude GoStd BitUtil MathUtil Memory BitBlocks BitRunReader DictDecode PathBuilder.
Import ListNotations.
#[local] Open Scope Z_scope.
#[local] Open Scope go_scope.

(** ** Buffers of levels *)

(** Doubling repeats a pattern. *)
Lemma doubling_pattern fuel (o pat : list Z) i :
  (0 < List.length pat)%nat -> (exists k, i = Z.of_nat (k * List.length pat)) -> 0 < i -> (List.length o - Z.to_nat i <= fuel)%nat ->
  (forall k, (k < Nat.min (Z.to_nat i) (List.length o))%nat -> nth k o 0 = nth (k mod List.length pat) pat 0) ->
  List.length (doubling fuel o i) = List.length o /\ forall k, (k < List.length o)%nat -> nth k (doubling fuel o i) 0 = nth (k mod List.length pat) pat 0.
Proof.
  intros Hp. revert o i. induction fuel as [|fuel IH]; intros o i Hk Hi Hf HF; cbn [doubling]; [split; [reflexivity|]; intros k Hlt; apply HF; lia|].
  destruct (Z.ltb_spec i (len o)) as [Hlt|Hge]; [|split; [reflexivity|]; intros k Hk'; apply HF; lia].
  assert (HL : List.length (splice o (Z.to_nat i) (firstn (Z.to_nat i) o)) = List.length o) by (apply length_splice; lia).
  destruct (IH (splice o (Z.to_nat i) (firstn (Z.to_nat i) o)) (i * 2)) as [HL' HN]; [destruct Hk as [k ->]; exists (k * 2)%nat; lia|lia|rewrite HL; lia| |rewrite HL in *; split; assumption].
  intros k Hk'. rewrite HL in Hk'. unfold splice. destruct (Nat.lt_ge_cases k (Z.to_nat i)) as [Hlt'|Hge'].
  - rewrite app_nth1 by (rewrite length_firstn; lia). rewrite nth_firstn. replace (k <? Z.to_nat i)%nat with true by (symmetry; apply Nat.ltb_lt; lia). apply HF. lia.
  - rewrite app_nth2 by (rewrite length_firstn; lia). rewrite length_firstn, Nat.min_l by lia. rewrite app_nth1 by (rewrite !length_firstn; lia).
    rewrite !nth_firstn. replace (k - Z.to_nat i <? List.length o - Z.to_nat i)%nat with true by (symmetry; apply Nat.ltb_lt; lia). replace (k - Z.to_nat i <? Z.to_nat i)%nat with true by (symmetry; apply Nat.ltb_lt; lia).
    rewrite HF by lia. destruct Hk as [m Hm]. assert (Hkm : k = (k - Z.to_nat i + m * List.length pat)%nat) by lia. rewrite Hkm at 2. now rewrite Nat.Div0.mod_add.
Qed.

Section Levels.
Import PooledBufferWriter.

(** The levels a buffer holds. *)
Definition levelsIn (b : t) (ls : list Z) : Prop := streamed b (getBytes 2 ls).

Lemma length_level ls : len (getBytes 2 ls) = 2 * len ls.
Proof. rewrite length_getBytes by lia. lia. Qed.

Lemma getBytes_repeat v n : List.length (getBytes 2 (repeat v n)) = (2 * n)%nat.
Proof. rewrite length_getBytes, repeat_length by lia. reflexivity. Qed.

Lemma level_bytes ls : bytes (getBytes 2 ls).
Proof. induction ls as [|v ls IH]; cbn [getBytes]; [constructor|]. apply bytes_app. auto with gobytes. Qed.

Lemma doubled v n slc :
  List.length slc = (2 * n)%nat -> doubling (List.length slc) (splice slc 0 (lebytes 2 v)) (len (lebytes 2 v)) = getBytes 2 (repeat v n).
Proof.
  intros HL. set (pat := lebytes 2 v). assert (Hp : List.length pat = 2%nat) by apply length_lebytes. assert (HLs : List.length (splice slc 0 pat) = List.length slc) by (apply length_splice; lia).
  destruct (doubling_pattern (List.length slc) (splice slc 0 pat) pat (len pat)) as [HD HN]; [lia|exists 1%nat; lia|lia|lia| |].
  { intros k Hk. unfold splice. cbn [firstn app]. rewrite HLs in Hk. rewrite app_nth1 by (rewrite length_firstn; lia). rewrite nth_firstn. replace (k <? List.length slc - 0)%nat with true by (symmetry; apply Nat.ltb_lt; lia).
    rewrite Nat.mod_small by lia. reflexivity. }
  rewrite HLs in HD, HN. apply (nth_ext_eq _ _ 0); [rewrite HD, getBytes_repeat; exact HL|]. intros k Hk. rewrite HD in Hk. rewrite HN by lia. rewrite Hp.
  rewrite (Nat.div_mod_eq k 2) at 2. assert (Hm : (k mod 2 < 2)%nat) by (apply Nat.mod_upper_bound; lia). assert (Hq : (k / 2 < n)%nat) by (apply Nat.Div0.div_lt_upper_bound; lia).
  rewrite nth_getBytes by (rewrite ?repeat_length; lia). rewrite nth_repeat_lt by exact Hq. reflexivity.
Qed.

Lemma UnsafeWriteCopy_ok b ls n v :
  levelsIn b ls -> 0 <= n -> 2 * (len ls + n) <= Buffer.Cap (buf b) ->
  exists b', UnsafeWriteCopy b n (lebytes 2 v) = Some b' /\ levelsIn b' (ls ++ repeat v (Z.to_nat n)) /\ Buffer.Cap (buf b') = Buffer.Cap (buf b).
Proof.
  intros Hs Hn Hcap. pose proof Hs as (_ & _ & Hpos & _ & HF). rewrite length_level in Hpos. unfold UnsafeWriteCopy. rewrite length_lebytes. change (Z.of_nat 2) with 2. unfold Buffer.Cap in Hcap. rewrite slice_ok by lia. cbn [opt_bind].
  set (slc := firstn _ _). assert (HL : List.length slc = (2 * Z.to_nat n)%nat) by (subst slc; rewrite length_firstn, length_skipn; lia). pose proof (doubled v (Z.to_nat n) slc HL) as HD. rewrite length_lebytes in HD. change (Z.of_nat 2) with 2 in HD. rewrite HD.
  eexists. split; [reflexivity|]. pose proof (getBytes_repeat v (Z.to_nat n)) as HG. split.
  - destruct (UnsafeWrite_streamed b (getBytes 2 ls) (getBytes 2 (repeat v (Z.to_nat n))) Hs (level_bytes _)) as (b' & HU & Hs'); [unfold Buffer.Cap; rewrite length_level, HG; lia|].
    unfold UnsafeWrite in HU. rewrite Z.min_l in HU by (unfold Buffer.Cap; rewrite HG; lia). injection HU as HU. red. rewrite getBytes_app. rewrite <- HU in Hs'. rewrite HG in Hs'. replace (2 * n) with (Z.of_nat (2 * Z.to_nat n)) by lia. exact Hs'.
  - unfold Buffer.Cap. cbn [buf Buffer.buf]. rewrite length_splice; [reflexivity|lia].
Qed.

Lemma AppendCopies_ok b ls n v :
  levelsIn b ls -> 0 <= n -> len ls + n < 2 ^ 60 -> exists b', Int16Buffer.AppendCopies b n v = Some b' /\ levelsIn b' (ls ++ repeat v (Z.to_nat n)).
Proof.
  intros Hs Hn HB. pose proof Hs as (_ & _ & Hpos & _). rewrite length_level in Hpos. unfold Int16Buffer.AppendCopies, Int16Buffer.Reserve.
  destruct (UnsafeWriteCopy_ok (Reserve b (n * 2)) ls n v (Reserve_streamed b _ (n * 2) Hs) Hn) as (b' & HE & Hs' & _); [|eauto]. pose proof (Reserve_cap b (n * 2) ltac:(lia)). lia.
Qed.

Lemma AppendLevel_ok b ls v : levelsIn b ls -> len ls + 1 < 2 ^ 60 -> levelsIn (Int16Buffer.Append b v) (ls ++ [v]).
Proof.
  intros Hs HB. unfold Int16Buffer.Append. destruct (Write_streamed (Reserve b 2) (getBytes 2 ls) (lebytes 2 v) (Reserve_streamed b _ 2 Hs)) as (b' & HE & Hs'); [apply lebytes_bytes|rewrite length_level, length_lebytes; lia|].
  rewrite HE. red. rewrite getBytes_app. cbn [getBytes]. rewrite app_nil_r. exact Hs'.
Qed.

Lemma LevelLen_ok b ls : levelsIn b ls -> Int16Buffer.LenOf b = len ls.
Proof. intros Hs. unfold Int16Buffer.LenOf. rewrite (LenOf_streamed _ _ Hs), length_level, Z.quot_div_nonneg by lia. rewrite Z.mul_comm. apply Z.div_mul. lia. Qed.

Lemma LevelValues_ok b ls : levelsIn b ls -> Forall (inS 16) ls -> Int16Buffer.Values b = ls.
Proof.
  intros Hs HF. unfold Int16Buffer.Values. destruct (sync_streamed b _ Hs) as [-> _]. rewrite length_getBytes by lia. rewrite Nat.mul_comm, Nat.div_mul by lia.
  pose proof (fromBytes_getBytes 2 ltac:(lia) ls [] HF) as HR. now rewrite app_nil_r in HR.
Qed.
End Levels.

(** ** The reference *)

Definition zrange (s e : Z) : list Z := zseq s (Z.to_nat (e - s)).

Lemma zrange_nil s : zrange s s = [].
Proof. unfold zrange. now rewrite Z.sub_diag. Qed.

Lemma zrange_cons s e : s < e -> zrange s e = s :: zrange (s + 1) e.
Proof. intros H. unfold zrange. replace (Z.to_nat (e - s)) with (S (Z.to_nat (e - (s + 1)))) by lia. apply zseq_S. Qed.

Lemma zrange_app a b c : a <= b <= c -> zrange a c = zrange a b ++ zrange b c.
Proof. intros H. unfold zrange. replace (Z.to_nat (c - a)) with (Z.to_nat (b - a) + Z.to_nat (c - b))%nat by lia. rewrite zseq_app. do 2 f_equal. lia. Qed.

Lemma length_zrange s e : List.length (zrange s e) = Z.to_nat (e - s).
Proof. apply length_zseq. Qed.

Lemma in_zrange s e x : In x (zrange s e) <-> s <= x < e.
Proof. unfold zrange. rewrite in_zseq. lia. Qed.

(** An entry: repetition level, definition level. *)
Abbreviation entry := (Z * Z)%type.

Definition bitAt (bm : list Z) (off idx : Z) : bool := Z.testbit (leval bm) (off + idx).

Definition rangeOf (sel : rangeSelector) (idx : Z) : Z * Z :=
  match sel with
  | varRangeSelector offs | largeVarRangeSelector offs => (nth (Z.to_nat idx) offs 0, nth (Z.to_nat (idx + 1)) offs 0)
  | fixedSizeRangeSelector n => (idx * n, idx * n + n)
  end.

(** The entries of element [idx], whose first entry has repetition level [r]. *)
Fixpoint shred (path : list pathNode) (r idx : Z) : list entry :=
  match path with
  | [] => []
  | allPresentTerminalNode def :: _ => [(r, def)]
  | allNullsTerminalNode def _ :: _ => [(r, def)]
  | nullableTerminalNode bm off present null :: _ => [(r, if bitAt bm off idx then present else null)]
  | nullableNode bm off _ def _ _ :: rest => if bitAt bm off idx then shred rest r idx else [(r, def)]
  | listNode sel _ rep def _ :: rest =>
      let '(s, e) := rangeOf sel idx in
      if s =? e then [(r, def)] else shred rest r s ++ flat_map (shred rest rep) (zrange (s + 1) e)
  end.

(** The elements of the innermost lists under element [idx]. *)
Fixpoint visits (path : list pathNode) (idx : Z) : list Z :=
  match path with
  | nullableNode bm off _ _ _ _ :: rest => if bitAt bm off idx then visits rest idx else []
  | listNode sel _ _ _ isLast :: rest => let '(s, e) := rangeOf sel idx in if isLast then zrange s e else flat_map (visits rest) (zrange s e)
  | _ => []
  end.

(** A range of elements whose entries begin with [R], the first one with [pend] if there is one. *)
Definition entries (path : list pathNode) (pend : option Z) (R s e : Z) : list entry :=
  match pend with
  | Some r => if s <? e then shred path r s ++ flat_map (shred path R) (zrange (s + 1) e) else []
  | None => flat_map (shred path R) (zrange s e)
  end.

Lemma entries_nil path pend R s : entries path pend R s s = [].
Proof. destruct pend; cbn [entries]; [now rewrite Z.ltb_irrefl|now rewrite zrange_nil]. Qed.

Lemma entries_split path pend R s a e :
  s <= a <= e -> entries path pend R s e = entries path pend R s a ++ entries path (if s <? a then None else pend) R a e.
Proof.
  intros H. destruct (Z.ltb_spec s a) as [Hlt|Hge]; [|replace a with s by lia; now rewrite entries_nil]. destruct pend as [r|]; cbn [entries].
  - bool_lia (s <? e). bool_lia (s <? a). rewrite <- app_assoc. f_equal. rewrite (zrange_app (s + 1) a e) by lia. apply flat_map_app.
  - rewrite (zrange_app s a e) by lia. apply flat_map_app.
Qed.

(** The first entry of an element, the one that carries [r]. *)
Lemma flat_map_ext_in {A B} (f h : A -> list B) l : (forall x, In x l -> f x = h x) -> flat_map f l = flat_map h l.
Proof. induction l as [|x l IH]; intros H; cbn [flat_map]; [reflexivity|]. rewrite H by (now left). f_equal. apply IH. intros. apply H. now right. Qed.

(** A node without its reader. *)
Definition eraseReader (n : pathNode) : pathNode :=
  match n with nullableNode bm off rep def _ newRange => nullableNode bm off rep def None newRange | _ => n end.

(** ** Paths the builder makes *)

(** The elements below [n] have bits. *)
Definition bitmapFits (bm : list Z) (off n : Z) : Prop := bytes bm /\ 8 * len bm < 2 ^ 63 - 7 /\ 0 <= off /\ off + n <= 8 * len bm.

(** The lists below [n] are consecutive ranges of the first [m] elements of the child. *)
Definition selectorFits (sel : rangeSelector) (n m : Z) : Prop :=
  match sel with
  | varRangeSelector offs | largeVarRangeSelector offs =>
      0 < n -> n < len offs /\ 0 <= nth 0 offs 0 /\ (forall i, 0 <= i < n -> nth (Z.to_nat i) offs 0 <= nth (Z.to_nat (i + 1)) offs 0) /\ nth (Z.to_nat n) offs 0 <= m
  | fixedSizeRangeSelector k => 0 <= k /\ n * k <= m
  end.

Fixpoint pathFits (path : list pathNode) (n : Z) : Prop :=
  match path with
  | [] => False
  | allPresentTerminalNode def :: _ => inS 16 def
  | allNullsTerminalNode def _ :: _ => inS 16 def
  | nullableTerminalNode bm off present null :: _ => inS 16 present /\ inS 16 null /\ bitmapFits bm off n
  | nullableNode bm off _ def _ newRange :: rest => inS 16 def /\ bitmapFits bm off n /\ newRange = true /\ pathFits rest n
  | listNode sel _ rep def _ :: rest => inS 16 def /\ inS 16 rep /\ exists m, selectorFits sel n m /\ pathFits rest m
  end.

(** After the last list, or without any: no repetition levels. *)
Fixpoint flatPath (path : list pathNode) : Prop :=
  match path with
  | [] => True
  | allPresentTerminalNode _ :: _ | nullableTerminalNode _ _ _ _ :: _ => True
  | allNullsTerminalNode _ rep :: _ => rep = -1
  | nullableNode _ _ rep _ _ _ :: rest => rep = -1 /\ flatPath rest
  | listNode _ _ _ _ _ :: _ => False
  end.

(** Inside a list of repetition level [R] (0 outside of lists), with lists to come. *)
Fixpoint nestedPath (R : Z) (path : list pathNode) : Prop :=
  match path with
  | allNullsTerminalNode _ rep :: _ => rep = R
  | nullableNode _ _ rep _ _ _ :: rest => rep = R /\ nestedPath R rest
  | listNode _ prev rep _ isLast :: rest => prev = R /\ R < rep /\ if isLast then flatPath rest else nestedPath rep rest
  | _ => False
  end.

Lemma selector_range sel n m i :
  selectorFits sel n m -> 0 <= i < n ->
  exists s e, rangeOf sel i = (s, e) /\ GetRange sel i = Some (mkER s e) /\ 0 <= s <= e /\ e <= m /\ (i + 1 < n -> fst (rangeOf sel (i + 1)) = e).
Proof.
  intros HS Hi.
  assert (Hvar : forall offs, n < len offs /\ 0 <= nth 0 offs 0 /\ (forall i, 0 <= i < n -> nth (Z.to_nat i) offs 0 <= nth (Z.to_nat (i + 1)) offs 0) /\ nth (Z.to_nat n) offs 0 <= m ->
    (forall j, 0 <= j <= n -> 0 <= nth (Z.to_nat j) offs 0) /\ (forall j, 0 <= j <= n -> nth (Z.to_nat j) offs 0 <= m)).
  { intros offs (HL & H0 & Hmono & Hm). split.
    - intros j Hj. assert (HI : forall k : nat, Z.of_nat k <= n -> 0 <= nth k offs 0).
      { induction k as [|k IH]; intros Hk; [exact H0|]. specialize (Hmono (Z.of_nat k) ltac:(lia)). replace (Z.to_nat (Z.of_nat k + 1)) with (S k) in Hmono by lia. rewrite Nat2Z.id in Hmono. specialize (IH ltac:(lia)). lia. }
      apply HI. lia.
    - intros j Hj. assert (HI : forall k : nat, Z.of_nat k <= n -> nth (Z.to_nat (n - Z.of_nat k)) offs 0 <= m).
      { induction k as [|k IH]; intros Hk; [now rewrite Z.sub_0_r|]. specialize (Hmono (n - Z.of_nat (S k)) ltac:(lia)). replace (n - Z.of_nat (S k) + 1) with (n - Z.of_nat k) in Hmono by lia. specialize (IH ltac:(lia)). lia. }
      specialize (HI (Z.to_nat (n - j)) ltac:(lia)). now replace (n - Z.of_nat (Z.to_nat (n - j))) with j in HI by lia. }
  destruct sel as [offs|offs|k]; cbn [selectorFits rangeOf GetRange] in *.
  1-2: specialize (HS ltac:(lia)); destruct (Hvar offs HS) as [Hlo Hhi]; destruct HS as (HL & H0 & Hmono & Hm); rewrite (index_ok offs i 0), (index_ok offs (i + 1) 0) by lia; cbn [opt_bind];
       eexists _, _; split; [reflexivity|]; split; [reflexivity|]; split; [split; [apply Hlo; lia|apply Hmono; lia]|]; split; [apply Hhi; lia|]; intros _; reflexivity.
  destruct HS as [Hk Hm]. eexists _, _. split; [reflexivity|]. split; [reflexivity|]. split; [nia|]. split; [nia|]. intros _. cbn [fst]. lia.
Qed.

(** ** The context *)

Definition flatRanges (rs : list elemRange) : list Z := flat_map (fun r => zrange (er_start r) (er_end r)) rs.

Definition ctxAt (ctx : pathWriteCtx) (defs reps vs : list Z) : Prop :=
  levelsIn (cx_defLevels ctx) defs /\ levelsIn (cx_repLevels ctx) reps /\
  flatRanges (cx_visitedElems ctx) = vs /\ Forall (fun r => er_start r <= er_end r) (cx_visitedElems ctx).

Lemma visit_flat rs rng :
  Forall (fun r => er_start r <= er_end r) rs -> er_start rng <= er_end rng ->
  flatRanges (PathCtx.visit rs rng) = flatRanges rs ++ zrange (er_start rng) (er_end rng) /\ Forall (fun r => er_start r <= er_end r) (PathCtx.visit rs rng).
Proof.
  intros HF Hr. induction HF as [|r rs Hr1 HF IH]; [cbn; rewrite app_nil_r; split; auto|]. destruct rs as [|r' rs'].
  - cbn [PathCtx.visit flatRanges flat_map]. destruct (Z.eqb_spec (er_start rng) (er_end r)) as [He|He].
    + cbn [flat_map er_start er_end]. rewrite !app_nil_r. split; [rewrite He; apply zrange_app; lia|constructor; [cbn; lia|constructor]].
    + cbn [flat_map]. rewrite !app_nil_r. split; auto.
  - cbn [PathCtx.visit] in *. destruct IH as [IH1 IH2]. split; [|constructor; auto]. unfold flatRanges in *. cbn [flat_map] in *. rewrite IH1, !app_assoc. reflexivity.
Qed.

Lemma AppendDefLevels_ok ctx defs reps vs n v :
  ctxAt ctx defs reps vs -> 0 <= n -> len defs + n < 2 ^ 60 -> exists ctx', PathCtx.AppendDefLevels ctx n v = Some ctx' /\ ctxAt ctx' (defs ++ repeat v (Z.to_nat n)) reps vs.
Proof. intros (H1 & H2 & H3) Hn HB. unfold PathCtx.AppendDefLevels. destruct (AppendCopies_ok _ _ n v H1 Hn HB) as (b & -> & Hb). cbn [opt_bind]. eexists. split; [reflexivity|]. split; auto. Qed.

Lemma AppendRepLevels_ok ctx defs reps vs n v :
  ctxAt ctx defs reps vs -> 0 <= n -> len reps + n < 2 ^ 60 -> exists ctx', PathCtx.AppendRepLevels ctx n v = Some ctx' /\ ctxAt ctx' defs (reps ++ repeat v (Z.to_nat n)) vs.
Proof. intros (H1 & H2 & H3) Hn HB. unfold PathCtx.AppendRepLevels. destruct (AppendCopies_ok _ _ n v H2 Hn HB) as (b & -> & Hb). cbn [opt_bind]. eexists. split; [reflexivity|]. split; auto. Qed.

Lemma AppendRepLevel_ok ctx defs reps vs v : ctxAt ctx defs reps vs -> len reps + 1 < 2 ^ 60 -> ctxAt (PathCtx.AppendRepLevel ctx v) defs (reps ++ [v]) vs.
Proof. intros (H1 & H2 & H3) HB. split; [exact H1|]. split; [now apply AppendLevel_ok|exact H3]. Qed.

Lemma equalLen_ok ctx defs reps vs : ctxAt ctx defs reps vs -> PathCtx.equalRepDeflevlsLen ctx = (len defs =? len reps).
Proof. intros (H1 & H2 & _). unfold PathCtx.equalRepDeflevlsLen. now rewrite (LevelLen_ok _ _ H1), (LevelLen_ok _ _ H2). Qed.

(** As many repetition as definition levels, or one more, for the next entry. *)
Definition pendRep (pend : option Z) : list Z := match pend with Some r => [r] | None => [] end.

Definition inLists (ctx : pathWriteCtx) (pend : option Z) (defs reps vs : list Z) : Prop := ctxAt ctx defs (reps ++ pendRep pend) vs /\ len reps = len defs.

(** The repetition levels of [k] entries. *)
Definition fillReps (pend : option Z) (R : Z) (k : nat) : list Z :=
  match pend, k with None, _ => repeat R k | Some r, O => [] | Some r, S k' => r :: repeat R k' end.

Lemma length_fillReps pend R k : List.length (fillReps pend R k) = k.
Proof. destruct pend, k; cbn [fillReps List.length]; rewrite ?repeat_length; reflexivity. Qed.

Lemma fillRepLevels_ok ctx pend defs reps vs R k :
  inLists ctx pend defs reps vs -> 0 <= R -> 0 <= k -> (0 < k \/ pend = None) -> len defs + k + 1 < 2 ^ 60 ->
  exists ctx', PathCtx.fillRepLevels k R ctx = Some ctx' /\ ctxAt ctx' defs (reps ++ fillReps pend R (Z.to_nat k)) vs.
Proof.
  intros [HC HL] HR Hk Hp HB. unfold PathCtx.fillRepLevels. bool_lia (R =? -1). rewrite (equalLen_ok _ _ _ _ HC), length_app. destruct pend as [r|]; cbn [pendRep List.length] in *.
  - bool_lia (len defs =? Z.of_nat (List.length reps + 1)). cbn [negb]. destruct Hp as [Hp|]; [|discriminate].
    destruct (AppendRepLevels_ok ctx defs (reps ++ [r]) vs (k - 1) R HC ltac:(lia) ltac:(rewrite length_app; cbn [List.length]; lia)) as (ctx' & HE & HC'). exists ctx'. split; [exact HE|].
    rewrite <- app_assoc in HC'. cbn [app] in HC'. unfold fillReps. replace (Z.to_nat k) with (S (Z.to_nat (k - 1))) by lia. exact HC'.
  - rewrite app_nil_r in HC. replace (len defs =? Z.of_nat (List.length reps + 0)) with true by (symmetry; apply Z.eqb_eq; lia). cbn [negb].
    destruct (AppendRepLevels_ok ctx defs reps vs k R HC Hk ltac:(lia)) as (ctx' & HE & HC'). exists ctx'. split; [exact HE|exact HC'].
Qed.

(** [k] null or empty elements. *)
Definition fillEntries (k rep def : Z) (ctx : pathWriteCtx) : option pathWriteCtx := ctx <- PathCtx.fillRepLevels k rep ctx ;; PathCtx.AppendDefLevels ctx k def.

Lemma fillEntries_nested ctx pend defs reps vs R def k :
  inLists ctx pend defs reps vs -> 0 <= R -> 0 <= k -> (0 < k \/ pend = None) -> len defs + k + 1 < 2 ^ 60 ->
  exists ctx', fillEntries k R def ctx = Some ctx' /\ inLists ctx' None (defs ++ repeat def (Z.to_nat k)) (reps ++ fillReps pend R (Z.to_nat k)) vs.
Proof.
  intros HI HR Hk Hp HB. pose proof HI as [_ HL]. unfold fillEntries. destruct (fillRepLevels_ok _ _ _ _ _ _ _ HI HR Hk Hp HB) as (c & -> & HC). cbn [opt_bind].
  destruct (AppendDefLevels_ok _ _ _ _ k def HC Hk ltac:(lia)) as (ctx' & -> & HC'). exists ctx'. split; [reflexivity|]. split; [cbn [pendRep]; rewrite app_nil_r; exact HC'|].
  rewrite !length_app, length_fillReps, repeat_length. lia.
Qed.

Lemma fillEntries_flat ctx defs reps vs def k :
  ctxAt ctx defs reps vs -> 0 <= k -> len defs + k < 2 ^ 60 -> exists ctx', fillEntries k (-1) def ctx = Some ctx' /\ ctxAt ctx' (defs ++ repeat def (Z.to_nat k)) reps vs.
Proof. intros HC Hk HB. unfold fillEntries, PathCtx.fillRepLevels. cbn [Z.eqb opt_bind]. now apply AppendDefLevels_ok. Qed.

(** ** Steps of the walk *)

Definition runs (st st' : walkState) : Prop := exists k, forall f, walk (k + f) st = walk f st'.

Lemma runs_trans a b c : runs a b -> runs b c -> runs a c.
Proof. intros [k Hk] [l Hl]. exists (k + l)%nat. intros f. rewrite <- Nat.add_assoc, Hk. apply Hl. Qed.

Lemma runs_step st st' : 0 <= wk_pos st -> walkStep st = Some st' -> runs st st'.
Proof. intros Hp HE. exists 1%nat. intros f. cbn [Nat.add walk]. bool_lia (wk_pos st <? 0). rewrite HE. reflexivity. Qed.

Section Split.
Context {A : Type}.
Implicit Types (pre post : list A) (x y : A).

Lemma index_split pre x post : index (pre ++ x :: post) (len pre) = Some x.
Proof. rewrite (index_ok _ _ x) by (rewrite length_app; cbn [List.length]; lia). now rewrite Nat2Z.id, nth_middle. Qed.

Lemma store_split pre x post y : store (pre ++ x :: post) (len pre) y = Some (pre ++ y :: post).
Proof. rewrite store_ok by (rewrite length_app; cbn [List.length]; lia). rewrite Nat2Z.id. f_equal. induction pre as [|a pre IH]; cbn [app List.length upd]; congruence. Qed.

Lemma index_split2 pre x y post : index (pre ++ x :: y :: post) (len pre + 1) = Some y.
Proof. pose proof (index_split (pre ++ [x]) y post) as H. rewrite <- app_assoc, length_app, Nat2Z.inj_add in H. exact H. Qed.

Lemma store_split2 pre x y post z : store (pre ++ x :: y :: post) (len pre + 1) z = Some (pre ++ x :: z :: post).
Proof. pose proof (store_split (pre ++ [x]) y post z) as H. rewrite <- !app_assoc, length_app, Nat2Z.inj_add in H. exact H. Qed.
End Split.

(** ** Nullable nodes *)

(** One visit of a nullable node: nulls up to [a], then a run of elements up to [z] for the child,
    or the end. *)
Lemma nullable_step bm off rep def rdr (nr : bool) s e child ctx b n (Q : Z -> pathWriteCtx -> Prop) :
  bitmapFits bm off n -> 0 <= s <= e -> e <= n ->
  (if nr then BRR.NewBitRunReader bm (off + s) (e - s) else rdr) = Some b -> runsAt bm (off + s) (off + e) b -> Q s ctx ->
  (forall a, s <= a <= e -> (s < a \/ s = e) -> (forall i, s <= i < a -> bitAt bm off i = false) -> exists ctx', fillEntries (a - s) rep def ctx = Some ctx' /\ Q a ctx') ->
  exists b' nr' a z child' ctx' res,
    PathRun.nullable bm off rep def rdr nr (mkER s e) child ctx = Some (b', nr', mkER z e, child', ctx', res) /\ Q a ctx' /\ s <= a <= z /\ z <= e /\ runsAt bm (off + z) (off + e) b' /\
    ((a = e /\ nr' = true /\ res = iterDone) \/ (a < z /\ nr' = false /\ res = iterNext /\ child' = mkER a z /\ forall i, a <= i < z -> bitAt bm off i = true)).
Proof.
  intros (Hb & Hsz & Ho & Hfit) Hs He Hrd HR HQ Hfill. unfold PathRun.nullable. cbn [er_start er_end]. change (er_size (mkER s e)) with (e - s). rewrite Hrd. cbn [opt_bind].
  assert (Hnull : forall a b1, s <= a <= e -> (s < a \/ s = e) -> (forall i, s <= i < a -> bitAt bm off i = false) -> runsAt bm (off + a) (off + e) b1 -> (a < e -> bitAt bm off a = true) ->
    exists b' nr' z child' ctx' res,
      (r <- (ctx <- PathCtx.fillRepLevels (a - s) rep ctx ;; ctx <- PathCtx.AppendDefLevels ctx (a - s) def ;; r <- BRR.NextRun b1 ;; let '(rdr, run) := r in Some (rdr, run, mkER (s + (a - s)) e, ctx)) ;;
       let '(rdr, run, rng, ctx) := r in
       if er_empty rng then Some (rdr, true, rng, mkER s (er_end child), ctx, iterDone)
       else let child := mkER (er_start rng) (er_start rng + RunLen run) in let rng := mkER (er_start rng + er_size child) (er_end rng) in Some (rdr, false, rng, child, ctx, iterNext))
      = Some (b', nr', mkER z e, child', ctx', res) /\ Q a ctx' /\ s <= a <= z /\ z <= e /\ runsAt bm (off + z) (off + e) b' /\
      ((a = e /\ nr' = true /\ res = iterDone) \/ (a < z /\ nr' = false /\ res = iterNext /\ child' = mkER a z /\ forall i, a <= i < z -> bitAt bm off i = true))).
  { intros a b1 Ha Hsa Hbits HR1 Hset. destruct (Hfill a Ha Hsa Hbits) as (c1 & HF & HQ1). unfold fillEntries in HF.
    destruct (PathCtx.fillRepLevels (a - s) rep ctx) as [c0|]; [|discriminate]. cbn [opt_bind] in HF |- *. rewrite HF. cbn [opt_bind]. replace (s + (a - s)) with a by lia.
    destruct (Z.eq_dec a e) as [->|Hne].
    - rewrite (runsAt_done bm (off + e) b1 HR1). cbn [opt_bind]. unfold er_empty. cbn [er_start er_end]. rewrite Z.eqb_refl. eexists _, _, e, _, _, _. split; [reflexivity|]. split; [exact HQ1|]. split; [lia|]. split; [lia|]. split; [exact HR1|]. left. auto.
    - destruct (runsAt_next bm (off + a) (off + e) b1 Hb Hsz ltac:(lia) HR1 ltac:(lia)) as (b2 & z & -> & Hz & Hrun & _ & HR2). cbn [opt_bind]. unfold er_empty. cbn [er_start er_end]. bool_lia (a =? e).
      cbn [RunLen]. unfold er_size. cbn [er_start er_end]. replace (a + (z - (off + a))) with (z - off) by lia. replace (a + (z - off - a)) with (z - off) by lia.
      eexists _, _, (z - off), _, _, _. split; [reflexivity|]. split; [exact HQ1|]. split; [lia|]. split; [lia|]. split; [now replace (off + (z - off)) with z by lia|].
      right. splits; auto; [lia|]. intros i Hi. unfold bitAt in *. rewrite Hrun by lia. apply Hset. lia. }
  destruct (Z.eq_dec s e) as [<-|Hne].
  - rewrite (runsAt_done bm (off + s) b HR). cbn [opt_bind RunSet RunLen negb]. destruct (Hnull s b) as (b' & nr' & z & child' & ctx' & res & HE & H'); [lia|auto|intros; lia|exact HR|lia|].
    exists b', nr', s, z, child', ctx', res. rewrite Z.sub_diag in HE. split; [exact HE|exact H'].
  - destruct (runsAt_next bm (off + s) (off + e) b Hb Hsz ltac:(lia) HR ltac:(lia)) as (b1 & a & -> & Ha & Hrun & Hend & HR1). cbn [opt_bind RunSet RunLen].
    change (Z.testbit (leval bm) (off + s)) with (bitAt bm off s). destruct (bitAt bm off s) eqn:Eb; cbn [negb].
    + cbn [opt_bind]. unfold er_empty. cbn [er_start er_end]. bool_lia (s =? e). cbn [RunLen]. unfold er_size. cbn [er_start er_end].
      replace (s + (a - (off + s))) with (a - off) by lia. replace (s + (a - off - s)) with (a - off) by lia.
      eexists _, _, s, (a - off), _, _, _. split; [reflexivity|]. split; [exact HQ|]. split; [lia|]. split; [lia|]. split; [now replace (off + (a - off)) with a by lia|].
      right. splits; auto; [lia|]. intros i Hi. unfold bitAt in *. rewrite Hrun by lia. exact Eb.
    + destruct (Hnull (a - off) b1) as (b' & nr' & z & child' & ctx' & res & HE & H'); [lia|lia|intros i Hi; unfold bitAt in *; rewrite Hrun by lia; exact Eb|now replace (off + (a - off)) with a by lia| |].
      { intros Hlt. unfold bitAt in *. replace (off + (a - off)) with a by lia. rewrite Hend by lia. rewrite Eb. reflexivity. }
      exists b', nr', (a - off), z, child', ctx', res. split; [|exact H']. rewrite <- HE. replace (a - off - s) with (a - (off + s)) by lia. reflexivity.
Qed.

(** The states of the walk at the node after [pre]. *)
Definition walkAt (pre : list pathNode) (spre : list elemRange) (suf : list pathNode) (stk : list elemRange) (ctx : pathWriteCtx) : walkState :=
  mkWalk (pre ++ suf) (spre ++ stk) (len pre) ctx.

(** Back at the node before. *)
Definition walkBack (pre : list pathNode) (spre : list elemRange) (suf : list pathNode) (stk : list elemRange) (ctx : pathWriteCtx) : walkState :=
  mkWalk (pre ++ suf) (spre ++ stk) (len pre - 1) ctx.

Lemma walkAt_next pre spre n rest rng stk ctx : mkWalk (pre ++ n :: rest) (spre ++ rng :: stk) (len pre + 1) ctx = walkAt (pre ++ [n]) (spre ++ [rng]) rest stk ctx.
Proof. unfold walkAt. rewrite <- !app_assoc, length_app, Nat2Z.inj_add. reflexivity. Qed.

Lemma walkBack_to pre spre n rest rng stk ctx : walkBack (pre ++ [n]) (spre ++ [rng]) rest stk ctx = walkAt pre spre (n :: rest) (rng :: stk) ctx.
Proof. unfold walkAt, walkBack. rewrite <- !app_assoc, length_app, Nat2Z.inj_add. cbn [List.length app]. f_equal. lia. Qed.

(** All of a nullable node's range; [I] holds at each position the node comes to. *)
Lemma nullable_walk bm off rep def rest0 n s e (I : Z -> pathWriteCtx -> Prop) :
  bitmapFits bm off n -> 0 <= s -> e <= n ->
  (forall p a ctx, I p ctx -> s <= p <= a -> a <= e -> (p < a \/ p = e) -> (forall i, p <= i < a -> bitAt bm off i = false) -> exists ctx', fillEntries (a - p) rep def ctx = Some ctx' /\ I a ctx') ->
  (forall p z pre spre rest stk ctx, I p ctx -> s <= p < z -> z <= e -> (forall i, p <= i < z -> bitAt bm off i = true) ->
     map eraseReader rest = rest0 -> List.length pre = List.length spre -> List.length (mkER p z :: stk) = List.length rest ->
     exists rest' stk' ctx', runs (walkAt pre spre rest (mkER p z :: stk) ctx) (walkBack pre spre rest' stk' ctx') /\ map eraseReader rest' = rest0 /\ List.length stk' = List.length rest /\ I z ctx') ->
  forall p (nr : bool) rdr b pre spre rest stk ctx,
    I p ctx -> s <= p <= e -> (if nr then BRR.NewBitRunReader bm (off + p) (e - p) else rdr) = Some b -> runsAt bm (off + p) (off + e) b ->
    map eraseReader rest = rest0 -> List.length pre = List.length spre -> List.length stk = List.length rest -> (0 < List.length rest)%nat ->
    exists rest' stk' ctx' b', runs (walkAt pre spre (nullableNode bm off rep def rdr nr :: rest) (mkER p e :: stk) ctx) (walkBack pre spre (nullableNode bm off rep def (Some b') true :: rest') stk' ctx') /\
      map eraseReader rest' = rest0 /\ List.length stk' = S (List.length rest) /\ I e ctx'.
Proof.
  intros HB Hs He Hnull Hchild p. remember (Z.to_nat (e - p)) as fuel eqn:Hfuel. revert p Hfuel. induction fuel as [fuel IHf] using lt_wf_ind.
  intros p Hfuel nr rdr b pre spre rest stk ctx HI Hp Hrd HR Hrest HLp HLs HLr. destruct stk as [|child stk]; [cbn in HLs; lia|].
  destruct (nullable_step bm off rep def rdr nr p e child ctx b n I HB ltac:(lia) He Hrd HR HI) as (b' & nr' & a & z & child' & ctx' & res & HE & HI' & Ha & Hz & HR' & Hres).
  { intros a Ha Hpa Hbits. apply (Hnull p a ctx HI ltac:(lia) ltac:(lia) Hpa Hbits). }
  assert (Hstep : walkStep (walkAt pre spre (nullableNode bm off rep def rdr nr :: rest) (mkER p e :: child :: stk) ctx)
    = Some (mkWalk (pre ++ nullableNode bm off rep def (Some b') nr' :: rest) (spre ++ mkER z e :: child' :: stk) (len pre + iterStep res) ctx')).
  { unfold walkAt, walkStep. rewrite index_split. cbn [opt_bind]. rewrite HLp, index_split. cbn [opt_bind]. rewrite index_split2. cbn [opt_bind]. rewrite HE. cbn [opt_bind]. rewrite <- HLp, store_split. cbn [opt_bind].
    rewrite HLp, store_split. cbn [opt_bind]. rewrite store_split2. reflexivity. }
  apply runs_step in Hstep; [|cbn [walkAt wk_pos]; lia]. destruct Hres as [(-> & -> & ->)|(Haz & -> & -> & -> & Hset)].
  - exists rest, (mkER z e :: child' :: stk), ctx', b'. split; [exact Hstep|]. splits; auto. cbn [List.length] in *. lia.
  - cbn [iterStep] in Hstep. rewrite walkAt_next in Hstep.
    destruct (Hchild a z (pre ++ [nullableNode bm off rep def (Some b') false]) (spre ++ [mkER z e]) rest stk ctx' HI' ltac:(lia) Hz Hset Hrest) as (rest' & stk' & ctx2 & Hrun & Hrest' & HL' & HI2); [rewrite !length_app; cbn; lia|cbn [List.length] in *; lia|].
    rewrite walkBack_to in Hrun. assert (HLr' : List.length rest' = List.length rest) by (rewrite <- (length_map eraseReader rest'), Hrest', <- Hrest; apply length_map).
    destruct (IHf (Z.to_nat (e - z)) ltac:(lia) z eq_refl false (Some b') b' pre spre rest' stk' ctx2) as (rest2 & stk2 & ctx3 & b2 & Hrun2 & H'); auto; try lia.
    exists rest2, stk2, ctx3, b2. split; [eapply runs_trans; [exact Hstep|]; eapply runs_trans; [exact Hrun|exact Hrun2]|]. now rewrite HLr' in H'.
Qed.

(** ** Terminals and paths without lists *)

Lemma flat_shred path idx n : flatPath path -> pathFits path n -> exists d, forall r, shred path r idx = [(r, d)].
Proof.
  revert n. induction path as [|[] rest IH]; intros n HF HP; cbn [flatPath pathFits shred] in *; try contradiction; eauto.
  destruct HP as (_ & _ & _ & HP). destruct (bitAt bitmap entryOffset idx); [|eauto]. destruct HF as [_ HF]. exact (IH n HF HP).
Qed.

Definition defOf (path : list pathNode) (idx : Z) : Z := match shred path 0 idx with (_, d) :: _ => d | [] => 0 end.

Lemma flat_defs path n r l : flatPath path -> pathFits path n -> flat_map (shred path r) l = map (fun i => (r, defOf path i)) l.
Proof.
  intros HF HP. induction l as [|i l IH]; cbn [flat_map map]; [reflexivity|]. destruct (flat_shred path i n HF HP) as [d Hd]. unfold defOf at 1. rewrite !Hd, IH. reflexivity.
Qed.

Lemma map_const {A B} (f : A -> B) v l : (forall x, In x l -> f x = v) -> map f l = repeat v (List.length l).
Proof. induction l as [|x l IH]; intros H; cbn [map List.length repeat]; [reflexivity|]. rewrite H by (now left). f_equal. apply IH. intros. apply H. now right. Qed.

Lemma nullableLoop_ok bm off present null e n :
  bitmapFits bm off n -> e <= n ->
  forall fuel p rdr b ls, runsAt bm (off + p) (off + e) rdr -> levelsIn b ls -> 0 <= p <= e -> 2 * (len ls + (e - p)) <= Buffer.Cap (PooledBufferWriter.buf b) -> e - p < Z.of_nat fuel ->
    exists b', PathRun.nullableLoop fuel rdr present null b = Some b' /\ levelsIn b' (ls ++ map (fun i => if bitAt bm off i then present else null) (zrange p e)).
Proof.
  intros (Hb & Hsz & Ho & Hfit) He. induction fuel as [|fuel IH]; intros p rdr b ls HR Hls Hp Hcap Hf; [lia|]. cbn [PathRun.nullableLoop]. destruct (Z.eq_dec p e) as [->|Hne].
  - rewrite (runsAt_done bm (off + e) rdr HR). cbn [opt_bind RunLen Z.eqb]. exists b. rewrite zrange_nil. cbn [map]. rewrite app_nil_r. auto.
  - destruct (runsAt_next bm (off + p) (off + e) rdr Hb Hsz ltac:(lia) HR ltac:(lia)) as (rdr' & z & -> & Hz & Hrun & _ & HR'). cbn [opt_bind RunLen RunSet]. bool_lia (z - (off + p) =? 0).
    change (Z.testbit (leval bm) (off + p)) with (bitAt bm off p). set (v := if bitAt bm off p then present else null).
    destruct (UnsafeWriteCopy_ok b ls (z - (off + p)) v Hls ltac:(lia) ltac:(lia)) as (b1 & -> & Hb1 & Hc1). cbn [opt_bind].
    destruct (IH (z - off) rdr' b1 (ls ++ repeat v (Z.to_nat (z - (off + p))))) as (b' & HE & Hb'); [now replace (off + (z - off)) with z by lia|exact Hb1|lia|rewrite Hc1, length_app, repeat_length; lia|lia|].
    exists b'. split; [exact HE|]. rewrite <- app_assoc in Hb'. rewrite (zrange_app p (z - off) e) by lia. rewrite map_app.
    rewrite (map_const (fun i => if bitAt bm off i then present else null) v (zrange p (z - off))); [rewrite length_zrange; replace (Z.to_nat (z - off - p)) with (Z.to_nat (z - (off + p))) by lia; exact Hb'|].
    intros i Hi. apply in_zrange in Hi. subst v. unfold bitAt. rewrite Hrun by lia. reflexivity.
Qed.

Lemma nullableTerminal_ok bm off present null s e n ctx defs reps vs :
  bitmapFits bm off n -> 0 <= s <= e -> e <= n -> ctxAt ctx defs reps vs -> len defs + (e - s) < 2 ^ 60 ->
  exists ctx', PathRun.nullableTerminal bm off present null (mkER s e) ctx = Some ctx' /\ ctxAt ctx' (defs ++ map (fun i => if bitAt bm off i then present else null) (zrange s e)) reps vs.
Proof.
  intros HB Hs He (H1 & H2 & H3) HL. unfold PathRun.nullableTerminal, PathCtx.ReserveDefLevels. change (er_size (mkER s e)) with (e - s). cbn [er_start cx_defLevels cx_repLevels cx_visitedElems].
  pose proof HB as (Hb & Hsz & Ho & Hfit). destruct (runsAt_new bm (off + s) (e - s) Hb Hsz ltac:(lia) ltac:(lia) ltac:(lia)) as (rdr & -> & HR). cbn [opt_bind]. replace (off + s + (e - s)) with (off + e) in HR by lia.
  pose proof H1 as (_ & _ & Hpos & _). rewrite length_level in Hpos. unfold Int16Buffer.Reserve.
  destruct (nullableLoop_ok bm off present null e n HB He (S (Z.to_nat (e - s))) s rdr (PooledBufferWriter.Reserve (cx_defLevels ctx) ((e - s) * 2)) defs HR) as (b' & -> & Hb'); [now apply Reserve_streamed|lia| |lia|].
  { pose proof (Reserve_cap (cx_defLevels ctx) ((e - s) * 2) ltac:(lia)). lia. }
  cbn [opt_bind]. eexists. split; [reflexivity|]. split; auto.
Qed.

Lemma walk_terminal pre spre n rest rng stk ctx ctx' :
  List.length pre = List.length spre ->
  match n with
  | nullableTerminalNode bm off p q => PathRun.nullableTerminal bm off p q rng ctx
  | allPresentTerminalNode def => PathRun.allPresent def rng ctx
  | allNullsTerminalNode def rep => PathRun.allNulls def rep rng ctx
  | _ => None
  end = Some ctx' ->
  runs (walkAt pre spre (n :: rest) (rng :: stk) ctx) (walkBack pre spre (n :: rest) (rng :: stk) ctx').
Proof.
  intros HL HE. apply runs_step; [cbn [walkAt wk_pos]; lia|]. unfold walkAt, walkBack, walkStep. rewrite index_split. cbn [opt_bind]. rewrite HL, index_split. cbn [opt_bind].
  destruct n; try discriminate; rewrite HE; cbn [opt_bind iterStep]; do 2 f_equal.
Qed.

(** A path without lists: the definition levels of the range. *)
Lemma walk_flat suf0 : forall pre spre suf stk ctx s e n defs reps vs,
  map eraseReader suf = suf0 -> flatPath suf0 -> pathFits suf0 n -> 0 <= s <= e -> e <= n -> List.length pre = List.length spre -> List.length (mkER s e :: stk) = List.length suf ->
  ctxAt ctx defs reps vs -> len defs + (e - s) < 2 ^ 60 ->
  exists suf' stk' ctx', runs (walkAt pre spre suf (mkER s e :: stk) ctx) (walkBack pre spre suf' stk' ctx') /\
    map eraseReader suf' = suf0 /\ List.length stk' = List.length suf /\ ctxAt ctx' (defs ++ map (defOf suf0) (zrange s e)) reps vs.
Proof.
  induction suf0 as [|n0 rest0 IH]; intros pre spre suf stk ctx s e n defs reps vs Hsuf HF HP Hs He HLp HLs HC HB; [destruct HP|]. destruct suf as [|n1 rest]; [discriminate|]. cbn [map] in Hsuf. injection Hsuf as Hn Hrest.
  assert (Hterm : forall ctx', runs (walkAt pre spre (n1 :: rest) (mkER s e :: stk) ctx) (walkBack pre spre (n1 :: rest) (mkER s e :: stk) ctx') -> ctxAt ctx' (defs ++ map (defOf (n0 :: rest0)) (zrange s e)) reps vs ->
    exists suf' stk' ctx', runs (walkAt pre spre (n1 :: rest) (mkER s e :: stk) ctx) (walkBack pre spre suf' stk' ctx') /\ map eraseReader suf' = n0 :: rest0 /\ List.length stk' = List.length (n1 :: rest) /\ ctxAt ctx' (defs ++ map (defOf (n0 :: rest0)) (zrange s e)) reps vs).
  { intros ctx' Hr Hc. exists (n1 :: rest), (mkER s e :: stk), ctx'. splits; auto. cbn [map]. congruence. }
  destruct n0 as [def|def rep|bm off present null|sel prev rep def isLast|bm off rep def rd nr]; cbn [flatPath pathFits] in HF, HP; try contradiction.
  - destruct n1; try discriminate. injection Hn as ->. destruct (AppendDefLevels_ok ctx defs reps vs (e - s) def HC ltac:(lia) HB) as (ctx' & HE & HC').
    apply (Hterm ctx'); [now apply walk_terminal|]. rewrite (map_const _ def), length_zrange by reflexivity. exact HC'.
  - destruct n1; try discriminate. injection Hn as -> ->. subst rep. destruct (fillEntries_flat ctx defs reps vs def (e - s) HC ltac:(lia) HB) as (ctx' & HE & HC').
    apply (Hterm ctx'); [now apply walk_terminal|]. rewrite (map_const _ def), length_zrange by reflexivity. exact HC'.
  - destruct n1; try discriminate. injection Hn as -> -> -> ->. destruct HP as (_ & _ & HBm). destruct (nullableTerminal_ok bm off present null s e n ctx defs reps vs HBm Hs He HC HB) as (ctx' & HE & HC').
    apply (Hterm ctx'); [now apply walk_terminal|exact HC'].
  - destruct n1 as [| | | |bm1 off1 rep1 def1 rd1 nr1]; try discriminate. injection Hn as -> -> -> -> <- ->. destruct HF as [-> HF]. destruct HP as (_ & HBm & -> & HP). pose proof HBm as (Hb & Hsz & Ho & Hfit).
    destruct (runsAt_new bm (off + s) (e - s) Hb Hsz ltac:(lia) ltac:(lia) ltac:(lia)) as (b & Hnew & HR). replace (off + s + (e - s)) with (off + e) in HR by lia.
    set (path := nullableNode bm off (-1) def None true :: rest0). cbn [List.length] in HLs. assert (HLr : (0 < List.length rest)%nat) by (destruct rest; [subst rest0; destruct HP|cbn; lia]).
    destruct (nullable_walk bm off (-1) def rest0 n s e (fun p c => ctxAt c (defs ++ map (defOf path) (zrange s p)) reps vs) HBm ltac:(lia) He) with (p := s) (nr := true) (rdr := rd1) (b := b) (pre := pre) (spre := spre) (rest := rest) (stk := stk) (ctx := ctx) as (rest' & stk' & ctx' & b' & Hrun & Hrest' & HL' & HC'); auto; try lia.
    + intros p a c Hc Hp Ha _ Hbits. destruct (fillEntries_flat c _ reps vs def (a - p) Hc ltac:(lia)) as (c' & HE & Hc'); [rewrite length_app, length_map, length_zrange; lia|]. exists c'. split; [exact HE|].
      rewrite (zrange_app s p a), map_app, app_assoc by lia. rewrite (map_const (defOf path) def (zrange p a)), length_zrange; [exact Hc'|]. intros i Hi. apply in_zrange in Hi. unfold defOf, path. cbn [shred]. now rewrite Hbits.
    + intros p z pre' spre' rest1 stk1 c Hc Hp Hz Hbits Hrest1 HLp1 HLs1. destruct (IH pre' spre' rest1 stk1 c p z n (defs ++ map (defOf path) (zrange s p)) reps vs Hrest1 HF HP ltac:(lia) ltac:(lia) HLp1 HLs1 Hc) as (suf' & stk' & c' & Hr & He' & HL' & Hc'); [rewrite length_app, length_map, length_zrange; lia|].
      exists suf', stk', c'. splits; auto. rewrite (zrange_app s p z), map_app, app_assoc by lia. replace (map (defOf path) (zrange p z)) with (map (defOf rest0) (zrange p z)); [exact Hc'|].
      apply map_ext_in. intros i Hi. apply in_zrange in Hi. unfold defOf, path. cbn [shred]. now rewrite Hbits.
    + rewrite zrange_nil. cbn [map]. now rewrite app_nil_r.
    + exists (nullableNode bm off (-1) def (Some b') true :: rest'), stk', ctx'. split; [exact Hrun|]. split; [cbn [map eraseReader]; now rewrite Hrest'|]. split; [cbn [List.length]; lia|exact HC'].
Qed.

(** ** Lists *)

(** Elements with one entry each. *)
Lemma entries_const path pend R s a def :
  s <= a -> (s < a \/ pend = None) -> (forall r i, s <= i < a -> shred path r i = [(r, def)]) ->
  map fst (entries path pend R s a) = fillReps pend R (Z.to_nat (a - s)) /\ map snd (entries path pend R s a) = repeat def (Z.to_nat (a - s)).
Proof.
  intros Hs Hp HS. assert (HE : forall p, s <= p <= a -> flat_map (shred path R) (zrange p a) = repeat (R, def) (Z.to_nat (a - p))).
  { assert (HL : forall l, (forall i, In i l -> s <= i < a) -> flat_map (shred path R) l = repeat (R, def) (List.length l)).
    { induction l as [|i l IH]; intros HI; [reflexivity|]. cbn [flat_map List.length repeat]. rewrite HS by (apply HI; now left). cbn [app]. f_equal. apply IH. intros. apply HI. now right. }
    intros p Hp'. rewrite HL, length_zrange; [reflexivity|]. intros i Hi. apply in_zrange in Hi. lia. }
  assert (Hrep : forall k, map fst (repeat (R, def) k) = repeat R k /\ map snd (repeat (R, def) k) = repeat def k) by (intros k; induction k as [|k [IH1 IH2]]; cbn [repeat map fst snd]; split; congruence).
  destruct pend as [r|]; cbn [entries].
  - destruct Hp as [Hp|]; [|discriminate]. bool_lia (s <? a). rewrite HS, HE by lia. replace (Z.to_nat (a - s)) with (S (Z.to_nat (a - (s + 1)))) by lia. cbn [app map fst snd fillReps repeat]. destruct (Hrep (Z.to_nat (a - (s + 1)))) as [-> ->]. auto.
  - rewrite HE by lia. apply Hrep.
Qed.

Section ListNode.
Variables (sel : rangeSelector) (R rep def : Z) (n m : Z).
Hypotheses (HSel : selectorFits sel n m).

Definition sizeOf (i : Z) : Z := snd (rangeOf sel i) - fst (rangeOf sel i).

Lemma skipEmpty_ok fuel s e :
  0 <= s < e -> e <= n -> e - s <= Z.of_nat fuel ->
  exists a child, PathRun.skipEmpty fuel sel (mkER s e) = Some (mkER a e, child) /\ s <= a <= e /\ (forall i, s <= i < a -> sizeOf i = 0) /\
    (a < e -> 0 < sizeOf a /\ child = mkER (fst (rangeOf sel a)) (snd (rangeOf sel a))).
Proof.
  revert s. induction fuel as [|fuel IH]; intros s Hs He Hf; [lia|]. cbn [PathRun.skipEmpty er_start er_end]. destruct (selector_range sel n m s HSel ltac:(lia)) as (cs & ce & HRo & -> & Hc & _). cbn [opt_bind].
  assert (Hsz : sizeOf s = ce - cs) by (unfold sizeOf; rewrite HRo; reflexivity). unfold er_empty at 1. cbn [er_start er_end]. destruct (Z.eqb_spec cs ce) as [->|Hne]; cbn [negb].
  - unfold er_empty. cbn [er_start er_end]. destruct (Z.eqb_spec (s + 1) e) as [<-|Hne].
    + exists (s + 1), (mkER ce ce). split; [reflexivity|]. split; [lia|]. split; [intros i Hi; replace i with s by lia; lia|lia].
    + destruct (IH (s + 1) ltac:(lia) He ltac:(lia)) as (a & child & HE & Ha & Hz & Hn). exists a, child. split; [exact HE|]. split; [lia|]. split; [|exact Hn]. intros i Hi. destruct (Z.eq_dec i s) as [->|]; [lia|apply Hz; lia].
  - exists s, (mkER cs ce). split; [reflexivity|]. split; [lia|]. split; [intros; lia|]. intros _. rewrite HRo. split; [lia|reflexivity].
Qed.

(** The repetition levels of a non-empty list. *)
Definition listReps (r i : Z) : list Z := r :: repeat rep (Z.to_nat (sizeOf i - 1)).

Lemma fillLoop_ok fuel p e cs ce ctx defs reps vs :
  0 <= p <= e -> e <= n -> e - p <= Z.of_nat fuel -> (p < e -> fst (rangeOf sel p) = ce) -> cs <= ce -> ctxAt ctx defs reps vs ->
  len reps + len (flat_map (listReps R) (zrange p e)) + 1 < 2 ^ 60 -> 0 <= ce <= m ->
  exists z ce' ctx', PathRun.fillLoop fuel sel R rep (mkER p e) (mkER cs ce) ctx = Some (mkER z e, mkER cs ce', ctx') /\ p <= z <= e /\ ce <= ce' <= m /\
    (forall i, p <= i < z -> 0 < sizeOf i) /\ flat_map (fun i => zrange (fst (rangeOf sel i)) (snd (rangeOf sel i))) (zrange p z) = zrange ce ce' /\
    ctxAt ctx' defs (reps ++ flat_map (listReps R) (zrange p z)) vs.
Proof.
  revert p ce ctx reps. induction fuel as [|fuel IH]; intros p ce ctx reps Hp He Hf Hst Hcs HC HB Hce.
  { assert (p = e) by lia. subst p. cbn [PathRun.fillLoop]. unfold er_empty. cbn [er_start er_end]. rewrite Z.eqb_refl. exists e, ce, ctx. rewrite !zrange_nil. cbn [flat_map]. rewrite app_nil_r. splits; auto; intros; lia. }
  cbn [PathRun.fillLoop]. unfold er_empty at 1. cbn [er_start er_end]. destruct (Z.eqb_spec p e) as [->|Hne].
  { exists e, ce, ctx. rewrite !zrange_nil. cbn [flat_map]. rewrite app_nil_r. splits; auto; intros; lia. }
  destruct (selector_range sel n m p HSel ltac:(lia)) as (ps & pe & HRo & -> & Hc & Hm & Hnext). cbn [opt_bind]. specialize (Hst ltac:(lia)). rewrite HRo in Hst. cbn [fst] in Hst. subst ps.
  assert (Hsz : sizeOf p = pe - ce) by (unfold sizeOf; rewrite HRo; reflexivity). unfold er_empty at 1. cbn [er_start er_end]. destruct (Z.eqb_spec ce pe) as [->|Hne'].
  { exists p, pe, ctx. rewrite !zrange_nil. cbn [flat_map]. rewrite app_nil_r. splits; auto; intros; lia. }
  unfold er_size. cbn [er_start er_end]. rewrite (zrange_cons p e) in HB by lia. cbn [flat_map] in HB. rewrite length_app in HB. unfold listReps at 1 in HB. cbn [List.length] in HB. rewrite repeat_length, Hsz in HB.
  pose proof (AppendRepLevel_ok ctx defs reps vs R HC ltac:(lia)) as HC1.
  destruct (AppendRepLevels_ok _ defs (reps ++ [R]) vs (pe - ce - 1) rep HC1 ltac:(lia)) as (ctx2 & -> & HC2); [rewrite length_app; cbn [List.length]; lia|]. cbn [opt_bind].
  destruct (IH (p + 1) pe ctx2 ((reps ++ [R]) ++ repeat rep (Z.to_nat (pe - ce - 1)))) as (z & ce' & ctx' & HE & Hz & Hce' & Hpos & Hvis & HC'); try lia; [exact HC2|rewrite !length_app, repeat_length; cbn [List.length]; lia|].
  exists z, ce', ctx'. split; [exact HE|]. split; [lia|]. split; [lia|]. split; [intros i Hi; destruct (Z.eq_dec i p) as [->|]; [lia|apply Hpos; lia]|].
  rewrite (zrange_cons p z) by lia. cbn [flat_map]. rewrite HRo, Hvis. cbn [fst snd]. split; [symmetry; apply zrange_app; lia|]. unfold listReps at 1. rewrite Hsz.
  replace (reps ++ (R :: repeat rep (Z.to_nat (pe - ce - 1))) ++ flat_map (listReps R) (zrange (p + 1) z)) with (((reps ++ [R]) ++ repeat rep (Z.to_nat (pe - ce - 1))) ++ flat_map (listReps R) (zrange (p + 1) z)) by (now rewrite <- !app_assoc). exact HC'.
Qed.

Section Entries.
Variables (rest0 : list pathNode) (isLast : bool).
Let path : list pathNode := listNode sel R rep def isLast :: rest0.

Lemma shred_empty r i : sizeOf i = 0 -> shred path r i = [(r, def)].
Proof. unfold sizeOf, path. cbn [shred]. destruct (rangeOf sel i) as [s e]. cbn [fst snd]. intros H. bool_lia (s =? e). reflexivity. Qed.

Lemma shred_full r i : 0 < sizeOf i -> shred path r i = entries rest0 (Some r) rep (fst (rangeOf sel i)) (snd (rangeOf sel i)).
Proof. unfold sizeOf, path. cbn [shred entries]. destruct (rangeOf sel i) as [s e]. cbn [fst snd]. intros H. bool_lia (s =? e). bool_lia (s <? e). reflexivity. Qed.

Lemma shred_flat r i :
  flatPath rest0 -> pathFits rest0 m -> 0 < sizeOf i ->
  map fst (shred path r i) = listReps r i /\ map snd (shred path r i) = map (defOf rest0) (zrange (fst (rangeOf sel i)) (snd (rangeOf sel i))).
Proof.
  intros HF HP Hs. rewrite shred_full by exact Hs. unfold sizeOf, listReps in *. unfold sizeOf. destruct (rangeOf sel i) as [s e]. cbn [fst snd entries] in *. bool_lia (s <? e).
  destruct (flat_shred rest0 s m HF HP) as [d Hd]. rewrite (flat_defs rest0 m rep _ HF HP), (zrange_cons s e) by lia. rewrite !map_app, !map_map. cbn [fst snd map]. unfold defOf at 2. rewrite !Hd. cbn [map fst snd app]. split; [|reflexivity].
  f_equal. rewrite (map_const _ rep), length_zrange by reflexivity. f_equal. lia.
Qed.

(** A run of non-empty lists of flat elements. *)
Lemma entries_flat pend a z :
  flatPath rest0 -> pathFits rest0 m -> a < z -> (forall i, a <= i < z -> 0 < sizeOf i) ->
  let r := match pend with Some r => r | None => R end in
  map fst (entries path pend R a z) = listReps r a ++ flat_map (listReps R) (zrange (a + 1) z) /\
  map snd (entries path pend R a z) = map (defOf rest0) (flat_map (fun i => zrange (fst (rangeOf sel i)) (snd (rangeOf sel i))) (zrange a z)).
Proof.
  intros HF HP Haz Hpos r. assert (HE : entries path pend R a z = shred path r a ++ flat_map (shred path R) (zrange (a + 1) z)).
  { subst r. destruct pend as [r|]; cbn [entries]; [now bool_lia (a <? z)|]. now rewrite (zrange_cons a z) by lia. }
  assert (Hrest : forall l, (forall i, In i l -> 0 < sizeOf i) -> map fst (flat_map (shred path R) l) = flat_map (listReps R) l /\ map snd (flat_map (shred path R) l) = map (defOf rest0) (flat_map (fun i => zrange (fst (rangeOf sel i)) (snd (rangeOf sel i))) l)).
  { induction l as [|i l IH]; intros Hl; [split; reflexivity|]. cbn [flat_map]. rewrite !map_app. destruct (shred_flat R i HF HP) as [-> ->]; [apply Hl; now left|]. destruct IH as [-> ->]; [intros; apply Hl; now right|]. auto. }
  rewrite HE, !map_app. destruct (shred_flat r a HF HP) as [-> ->]; [apply Hpos; lia|]. destruct (Hrest (zrange (a + 1) z)) as [-> ->]; [intros i Hi; apply in_zrange in Hi; apply Hpos; lia|]. split; [reflexivity|].
  rewrite (zrange_cons a z) by lia. cbn [flat_map]. now rewrite map_app.
Qed.
End Entries.
End ListNode.

(** ** The walk with lists *)

Lemma walk_list_step pre spre sel prev rep def isLast rest rng child stk ctx rng' child' ctx' res :
  List.length pre = List.length spre -> PathRun.list_ sel prev rep def isLast rng child ctx = Some (rng', child', ctx', res) ->
  runs (walkAt pre spre (listNode sel prev rep def isLast :: rest) (rng :: child :: stk) ctx)
       (mkWalk (pre ++ listNode sel prev rep def isLast :: rest) (spre ++ rng' :: child' :: stk) (len pre + iterStep res) ctx').
Proof.
  intros HL HE. apply runs_step; [cbn [walkAt wk_pos]; lia|]. unfold walkAt, walkStep. rewrite index_split. cbn [opt_bind]. rewrite HL, index_split. cbn [opt_bind]. rewrite index_split2. cbn [opt_bind].
  rewrite HE. cbn [opt_bind]. rewrite store_split. cbn [opt_bind]. rewrite store_split2. reflexivity.
Qed.

(** The beginning of a visit of a list node: empty lists up to [a], then the repetition level of
    the next list. *)
Lemma list_head sel R rep def isLast rest0 n m s e child ctx pend defs reps vs :
  let path := listNode sel R rep def isLast :: rest0 in
  selectorFits sel n m -> 0 <= R -> 0 <= s < e -> e <= n -> inLists ctx pend defs reps vs -> len defs + (e - s) + 1 < 2 ^ 60 ->
  exists a ctx1, s <= a <= e /\ (forall i, s <= i < a -> sizeOf sel i = 0) /\
    let E := entries path pend R s a in
    let pend1 := if s <? a then None else pend in
    if a =? e then exists child', PathRun.list_ sel R rep def isLast (mkER s e) child ctx = Some (mkER e e, child', ctx1, iterDone) /\ inLists ctx1 None (defs ++ map snd E) (reps ++ map fst E) vs
    else
      0 < sizeOf sel a /\ inLists ctx1 (Some (match pend1 with Some r => r | None => R end)) (defs ++ map snd E) (reps ++ map fst E) vs /\
      PathRun.list_ sel R rep def isLast (mkER s e) child ctx =
        let child := mkER (fst (rangeOf sel a)) (snd (rangeOf sel a)) in
        if isLast then r <- PathRun.fillForLast sel R rep (mkER (a + 1) e) child ctx1 ;; let '(rng, child, ctx) := r in Some (rng, child, ctx, iterNext)
        else Some (mkER (a + 1) e, child, ctx1, iterNext).
Proof.
  intros path HSel HR Hs He HI HB. pose proof HI as [HC HLr]. destruct (skipEmpty_ok sel n m HSel (Z.to_nat (e - s)) s e Hs He ltac:(lia)) as (a & child' & HSk & Ha & Hz & Hfull).
  set (run := PathRun.list_ sel R rep def isLast (mkER s e) child ctx).
  assert (Hshr : forall r i, s <= i < a -> shred path r i = [(r, def)]) by (intros r i Hi; apply shred_empty, Hz, Hi).
  assert (Hctx : exists ctx0, (if 0 <? a - s then ctx0 <- PathCtx.fillRepLevels (a - s) R ctx ;; PathCtx.AppendDefLevels ctx0 (a - s) def else Some ctx) = Some ctx0 /\
    inLists ctx0 (if s <? a then None else pend) (defs ++ map snd (entries path pend R s a)) (reps ++ map fst (entries path pend R s a)) vs).
  { destruct (Z.ltb_spec s a) as [Hlt|Hge].
    - bool_lia (0 <? a - s). destruct (entries_const path pend R s a def ltac:(lia) ltac:(auto) Hshr) as [-> ->]. destruct (fillEntries_nested ctx pend defs reps vs R def (a - s) HI HR ltac:(lia) ltac:(left; lia) ltac:(lia)) as (ctx0 & HE & HI0). exists ctx0. split; [exact HE|exact HI0].
    - bool_lia (0 <? a - s). replace a with s by lia. rewrite entries_nil. cbn [map]. rewrite !app_nil_r. eauto. }
  destruct Hctx as (ctx0 & Hc0 & HI0). set (E := entries path pend R s a) in *. set (ctx1 := if PathCtx.equalRepDeflevlsLen ctx0 && negb (a =? e) then PathCtx.AppendRepLevel ctx0 R else ctx0).
  assert (Hrun : run = if a =? e then Some (mkER a e, child', ctx1, iterDone)
    else if isLast then r <- PathRun.fillForLast sel R rep (mkER (a + 1) e) child' ctx1 ;; let '(rng, child, ctx) := r in Some (rng, child, ctx, iterNext) else Some (mkER (a + 1) e, child', ctx1, iterNext)).
  { subst run. unfold PathRun.list_, er_empty. cbn [er_start er_end]. change (er_size (mkER s e)) with (e - s). bool_lia (s =? e). rewrite HSk. cbn [opt_bind er_start er_end]. rewrite Hc0. reflexivity. }
  rewrite Hrun. clear Hrun Hc0. clearbody run. subst ctx1.
  destruct (Z.eqb_spec a e) as [->|Hne].
  - cbn [negb]. rewrite andb_false_r. exists e, ctx0. split; [lia|]. split; [exact Hz|]. cbn zeta. rewrite Z.eqb_refl. exists child'. split; [reflexivity|]. revert HI0. bool_lia (s <? e). auto.
  - destruct (Hfull ltac:(lia)) as [Hpos ->]. cbn [negb]. rewrite andb_true_r. pose proof HI0 as [HC0 HL0].
    assert (HLE : len (map snd E) <= a - s).
    { subst E. destruct (Z.ltb_spec s a) as [Hlt|Hge]; [|replace a with s by lia; rewrite entries_nil; cbn; lia]. destruct (entries_const path pend R s a def ltac:(lia) ltac:(auto) Hshr) as [_ ->]. rewrite repeat_length. lia. }
    exists a. eexists. split; [lia|]. split; [exact Hz|]. cbn zeta. bool_lia (a =? e). split; [exact Hpos|]. split; [|reflexivity].
    rewrite (equalLen_ok _ _ _ _ HC0), (length_app (reps ++ map fst E)). fold E. revert HI0 HC0. destruct (if s <? a then None else pend) as [r|]; intros HI0 HC0; cbn [pendRep List.length].
    + bool_lia (len (defs ++ map snd E) =? Z.of_nat (List.length (reps ++ map fst E) + 1)). exact HI0.
    + replace (len (defs ++ map snd E) =? Z.of_nat (List.length (reps ++ map fst E) + 0)) with true by (symmetry; apply Z.eqb_eq; lia). cbn [pendRep] in HC0. rewrite app_nil_r in HC0. split; [|exact HL0].
      cbn [pendRep]. apply AppendRepLevel_ok; [exact HC0|]. rewrite HL0, length_app. lia.
Qed.

Lemma shred_nonempty path n r i : pathFits path n -> (1 <= List.length (shred path r i))%nat.
Proof.
  revert n r i. induction path as [|[] rest IH]; intros n r i HP; cbn [pathFits shred] in *; try contradiction; cbn [List.length]; try lia.
  - destruct HP as (_ & _ & m & _ & HP). destruct (rangeOf selector i) as [s e]. destruct (s =? e); [cbn; lia|]. rewrite length_app. pose proof (IH m r s HP). lia.
  - destruct HP as (_ & _ & _ & HP). destruct (bitAt bitmap entryOffset i); [exact (IH n r i HP)|cbn; lia].
Qed.

Lemma entries_len path n pend R s e : pathFits path n -> s <= e -> e - s <= len (entries path pend R s e).
Proof.
  intros HP Hs. assert (HL : forall l, len l <= len (flat_map (shred path R) l)).
  { induction l as [|i l IH]; cbn [flat_map List.length]; [lia|]. rewrite length_app. pose proof (shred_nonempty path n R i HP). lia. }
  destruct pend as [r|]; cbn [entries].
  - destruct (Z.ltb_spec s e); [|lia]. rewrite length_app. pose proof (shred_nonempty path n r s HP). specialize (HL (zrange (s + 1) e)). rewrite length_zrange in HL. lia.
  - specialize (HL (zrange s e)). rewrite length_zrange in HL. lia.
Qed.

Section ListWalk.
Variables (sel : rangeSelector) (R rep def : Z) (isLast : bool) (rest0 : list pathNode) (n m : Z).
Hypotheses (HSel : selectorFits sel n m) (HR : 0 <= R) (HRr : R < rep) (HP : pathFits rest0 m) (Hdef : inS 16 def) (Hrep : inS 16 rep).
Let node : pathNode := listNode sel R rep def isLast.
Let path : list pathNode := node :: rest0.

(** From one visit of the node to the next, or to the end of its range. *)
Definition listRound : Prop :=
  forall s e pre spre rest stk ctx pend defs reps vs,
    map eraseReader rest = rest0 -> 0 <= s < e -> e <= n -> List.length pre = List.length spre -> List.length stk = List.length rest -> (0 < List.length rest)%nat ->
    inLists ctx pend defs reps vs -> len defs + len (entries path pend R s e) + 1 < 2 ^ 60 ->
    exists z rest' stk' ctx', s < z <= e /\ map eraseReader rest' = rest0 /\ List.length stk' = List.length rest /\
      inLists ctx' None (defs ++ map snd (entries path pend R s z)) (reps ++ map fst (entries path pend R s z)) (vs ++ flat_map (visits path) (zrange s z)) /\
      (runs (walkAt pre spre (node :: rest) (mkER s e :: stk) ctx) (walkAt pre spre (node :: rest') (mkER z e :: stk') ctx') \/
       z = e /\ runs (walkAt pre spre (node :: rest) (mkER s e :: stk) ctx) (walkBack pre spre (node :: rest') (mkER e e :: stk') ctx')).

Lemma list_walk :
  listRound ->
  forall s e pre spre rest stk ctx pend defs reps vs,
    map eraseReader rest = rest0 -> 0 <= s <= e -> e <= n -> List.length pre = List.length spre -> List.length stk = List.length rest -> (0 < List.length rest)%nat ->
    inLists ctx pend defs reps vs -> (s < e \/ pend = None) -> len defs + len (entries path pend R s e) + 1 < 2 ^ 60 ->
    exists rest' stk' ctx', runs (walkAt pre spre (node :: rest) (mkER s e :: stk) ctx) (walkBack pre spre (node :: rest') stk' ctx') /\ map eraseReader rest' = rest0 /\ List.length stk' = S (List.length rest) /\
      inLists ctx' None (defs ++ map snd (entries path pend R s e)) (reps ++ map fst (entries path pend R s e)) (vs ++ flat_map (visits path) (zrange s e)).
Proof.
  intros Hround s e. remember (Z.to_nat (e - s)) as fuel eqn:Hfuel. revert s Hfuel. induction fuel as [fuel IHf] using lt_wf_ind.
  intros s Hfuel pre spre rest stk ctx pend defs reps vs Hrest Hs He HLp HLs HLr HI Hp HB. destruct (Z.eq_dec s e) as [->|Hne].
  - destruct Hp as [| ->]; [lia|]. destruct stk as [|child stk]; [cbn in HLs; lia|]. exists rest, (mkER e e :: child :: stk), ctx. split.
    + apply (walk_list_step pre spre sel R rep def isLast rest (mkER e e) child stk ctx (mkER e e) child ctx iterDone HLp). unfold PathRun.list_, er_empty. cbn [er_start er_end]. now rewrite Z.eqb_refl.
    + split; [exact Hrest|]. split; [cbn [List.length] in *; lia|]. rewrite entries_nil, zrange_nil. cbn [map flat_map]. now rewrite !app_nil_r.
  - destruct (Hround s e pre spre rest stk ctx pend defs reps vs Hrest ltac:(lia) He HLp HLs HLr HI HB) as (z & rest1 & stk1 & ctx1 & Hz & Hrest1 & HL1 & HI1 & Hgo).
    destruct Hgo as [Hgo|[-> Hgo]]; [|exists rest1, (mkER e e :: stk1), ctx1; splits; auto; cbn [List.length]; lia].
    assert (HLr1 : List.length rest1 = List.length rest) by (rewrite <- (length_map eraseReader rest1), Hrest1, <- Hrest; apply length_map).
    pose proof (entries_split path pend R s z e ltac:(lia)) as Hsp. revert Hsp. bool_lia (s <? z). intros Hsp. rewrite Hsp, length_app in HB.
    destruct (IHf (Z.to_nat (e - z)) ltac:(lia) z eq_refl pre spre rest1 stk1 ctx1 None _ _ _ Hrest1 ltac:(lia) He HLp ltac:(lia) ltac:(lia) HI1 ltac:(auto)) as (rest2 & stk2 & ctx2 & Hgo2 & Hrest2 & HL2 & HI2); [rewrite length_app, length_map; lia|].
    exists rest2, stk2, ctx2. split; [eapply runs_trans; [exact Hgo|exact Hgo2]|]. split; [exact Hrest2|]. split; [lia|]. rewrite Hsp, !map_app, !app_assoc, (zrange_app s z e), flat_map_app, app_assoc by lia. exact HI2.
Qed.

Lemma visits_empty i : sizeOf sel i = 0 -> visits path i = [].
Proof. unfold sizeOf, path, node. cbn [visits]. destruct (rangeOf sel i) as [s e]. cbn [fst snd]. intros H. replace e with s by lia. rewrite zrange_nil. now destruct isLast. Qed.

Lemma flat_empty {A} (f : Z -> list A) s a : (forall i, s <= i < a -> f i = []) -> flat_map f (zrange s a) = [].
Proof.
  intros H. assert (HI : forall i, In i (zrange s a) -> f i = []) by (intros i Hi; apply in_zrange in Hi; auto). revert HI. generalize (zrange s a). intros l. induction l as [|i l IH]; intros HI; [reflexivity|].
  cbn [flat_map]. rewrite HI by (now left). apply IH. intros. apply HI. now right.
Qed.

(** The entries of one list, in a list of lists. *)
Lemma entries_one pend a : entries path pend R a (a + 1) = shred path (match pend with Some r => r | None => R end) a.
Proof.
  destruct pend as [r|]; cbn [entries]; [bool_lia (a <? a + 1); rewrite zrange_nil; cbn [flat_map]; apply app_nil_r|]. rewrite zrange_cons, zrange_nil by lia. cbn [flat_map]. apply app_nil_r.
Qed.

(** Lists of lists: the child takes the elements of one list. *)
Lemma round_inner :
  isLast = false ->
  (forall pre spre suf stk ctx s e r defs reps vs,
     map eraseReader suf = rest0 -> 0 <= s < e -> e <= m -> List.length pre = List.length spre -> List.length (mkER s e :: stk) = List.length suf ->
     inLists ctx (Some r) defs reps vs -> len defs + len (entries rest0 (Some r) rep s e) + 1 < 2 ^ 60 ->
     exists suf' stk' ctx', runs (walkAt pre spre suf (mkER s e :: stk) ctx) (walkBack pre spre suf' stk' ctx') /\ map eraseReader suf' = rest0 /\ List.length stk' = List.length suf /\
       inLists ctx' None (defs ++ map snd (entries rest0 (Some r) rep s e)) (reps ++ map fst (entries rest0 (Some r) rep s e)) (vs ++ flat_map (visits rest0) (zrange s e))) ->
  listRound.
Proof.
  intros Hlast Hchild s e pre spre rest stk ctx pend defs reps vs Hrest Hs He HLp HLs HLr HI HB. destruct stk as [|child stk]; [cbn in HLs; lia|].
  assert (HPath : pathFits path n) by (cbn [path node pathFits]; eauto). pose proof (entries_len path n pend R s e HPath ltac:(lia)) as HLe.
  destruct (list_head sel R rep def isLast rest0 n m s e child ctx pend defs reps vs HSel HR Hs He HI ltac:(lia)) as (a & ctx1 & Ha & Hz & Hhd). fold node in Hhd. fold path in Hhd. cbn zeta in Hhd.
  assert (Hvis : flat_map (visits path) (zrange s a) = []) by (apply flat_empty; intros i Hi; apply visits_empty, Hz, Hi). destruct (Z.eqb_spec a e) as [->|Hne].
  - destruct Hhd as (child' & HE & HI1). exists e, rest, (child' :: stk), ctx1. rewrite Hvis, app_nil_r. splits; auto; try lia. right. split; [reflexivity|]. exact (walk_list_step pre spre sel R rep def isLast rest (mkER s e) child stk ctx _ _ _ iterDone HLp HE).
  - destruct Hhd as (Hpos & HI1 & HE). replace (if isLast then _ else _) with (Some (mkER (a + 1) e, mkER (fst (rangeOf sel a)) (snd (rangeOf sel a)), ctx1, iterNext)) in HE by (rewrite Hlast; reflexivity). set (r := match _ with Some r => r | None => R end) in *. destruct (selector_range sel n m a HSel ltac:(lia)) as (cs & ce & HRo & _ & Hc & Hm & _).
    unfold sizeOf in Hpos. rewrite HRo in *. cbn [fst snd] in *. pose proof (walk_list_step pre spre sel R rep def isLast rest (mkER s e) child stk ctx _ _ _ _ HLp HE) as Hst. cbn [iterStep] in Hst. rewrite walkAt_next in Hst.
    pose proof (entries_split path pend R s a e ltac:(lia)) as Hsp1. set (pend1 := if s <? a then None else pend) in *. pose proof (entries_split path pend1 R a (a + 1) e ltac:(lia)) as Hsp2. rewrite entries_one in Hsp2. fold r in Hsp2.
    assert (Hone : shred path r a = entries rest0 (Some r) rep cs ce) by (unfold path, node; rewrite shred_full; unfold sizeOf; rewrite HRo; [reflexivity|cbn [fst snd]; lia]).
    rewrite Hsp1, Hsp2, !length_app in HB. rewrite Hone in HB.
    destruct (Hchild (pre ++ [node]) (spre ++ [mkER (a + 1) e]) rest stk ctx1 cs ce r _ _ _ Hrest ltac:(lia) Hm ltac:(rewrite !length_app; cbn; lia) ltac:(cbn [List.length] in *; lia) HI1) as (rest' & stk' & ctx' & Hgo & Hrest' & HL' & HI'); [rewrite length_app, length_map; lia|].
    exists (a + 1), rest', stk', ctx'. split; [lia|]. split; [exact Hrest'|]. split; [exact HL'|]. split.
    + rewrite (entries_split path pend R s a (a + 1)) by lia. fold pend1. rewrite entries_one. fold r. rewrite Hone, !map_app, !app_assoc. rewrite (zrange_app s a (a + 1)), flat_map_app, Hvis by lia. rewrite (zrange_cons a (a + 1)), zrange_nil by lia. cbn [flat_map app].
      replace (visits path a) with (flat_map (visits rest0) (zrange cs ce)); [rewrite app_nil_r; exact HI'|]. cbn [path node visits]. now rewrite HRo, Hlast.
    + left. eapply runs_trans; [exact Hst|]. rewrite <- walkBack_to. exact Hgo.
Qed.

(** Flat lists: the child takes the elements of as many lists as have some. *)
Lemma entries_reps l : flatPath rest0 -> (forall i, In i l -> 0 <= i < n) -> len (flat_map (shred path R) l) = len (flat_map (listReps sel rep R) l).
Proof.
  intros HF. induction l as [|i l IH]; intros Hl; cbn [flat_map]; [reflexivity|]. rewrite !length_app, !Nat2Z.inj_add, IH by (intros; apply Hl; now right). f_equal.
  destruct (selector_range sel n m i HSel ltac:(apply Hl; now left)) as (s & e & HRo & _ & Hse & _). destruct (Z.eq_dec s e) as [->|Hne].
  - unfold path, node. rewrite shred_empty by (unfold sizeOf; rewrite HRo; cbn [fst snd]; lia). unfold listReps, sizeOf. rewrite HRo. cbn [fst snd List.length]. rewrite repeat_length. lia.
  - rewrite <- (length_map fst (shred path R i)). unfold path, node. destruct (shred_flat sel R rep def m rest0 isLast R i HF HP) as [-> _]; [unfold sizeOf; rewrite HRo; cbn [fst snd]; lia|reflexivity].
Qed.

Lemma round_last : isLast = true -> flatPath rest0 -> listRound.
Proof.
  intros Hlast HF s e pre spre rest stk ctx pend defs reps vs Hrest Hs He HLp HLs HLr HI HB. destruct stk as [|child stk]; [cbn in HLs; lia|].
  assert (HPath : pathFits path n) by (cbn [path node pathFits]; eauto). pose proof (entries_len path n pend R s e HPath ltac:(lia)) as HLe.
  destruct (list_head sel R rep def isLast rest0 n m s e child ctx pend defs reps vs HSel HR Hs He HI ltac:(lia)) as (a & ctx1 & Ha & Hz & Hhd). fold node in Hhd. fold path in Hhd. cbn zeta in Hhd.
  assert (Hvis : flat_map (visits path) (zrange s a) = []) by (apply flat_empty; intros i Hi; apply visits_empty, Hz, Hi). destruct (Z.eqb_spec a e) as [->|Hne].
  - destruct Hhd as (child' & HE & HI1). exists e, rest, (child' :: stk), ctx1. rewrite Hvis, app_nil_r. splits; auto; try lia. right. split; [reflexivity|]. exact (walk_list_step pre spre sel R rep def isLast rest (mkER s e) child stk ctx _ _ _ iterDone HLp HE).
  - destruct Hhd as (Hpos & HI1 & HE). set (pend1 := if s <? a then None else pend) in *. set (r := match pend1 with Some r => r | None => R end) in *. destruct (selector_range sel n m a HSel ltac:(lia)) as (cs & ce & HRo & _ & Hc & Hm & Hnext).
    assert (Hsz : sizeOf sel a = ce - cs) by (unfold sizeOf; rewrite HRo; reflexivity). rewrite HRo in HE. cbn [fst snd] in HE. set (D := defs ++ map snd (entries path pend R s a)) in *. set (Rp := reps ++ map fst (entries path pend R s a)) in *. pose proof HI1 as [_ HLD].
    pose proof (entries_split path pend R s a e ltac:(lia)) as Hsp1. fold pend1 in Hsp1. pose proof (entries_split path pend1 R a (a + 1) e ltac:(lia)) as Hsp2. rewrite entries_one in Hsp2. fold r in Hsp2. revert Hsp2. bool_lia (a <? a + 1). intros Hsp2. cbn [entries] in Hsp2.
    destruct (shred_flat sel R rep def m rest0 isLast r a HF HP Hpos) as [Hf1 Hf2]. fold node in Hf1, Hf2. fold path in Hf1, Hf2.
    assert (HBD : len D + len (listReps sel rep r a) + len (flat_map (listReps sel rep R) (zrange (a + 1) e)) + 1 < 2 ^ 60).
    { rewrite Hsp1, Hsp2, !length_app in HB. subst D. rewrite length_app, length_map, <- Hf1, length_map, <- entries_reps by (auto; intros i Hi; apply in_zrange in Hi; lia). lia. }
    assert (Hlr : listReps sel rep r a = fillReps (Some r) rep (Z.to_nat (ce - cs))) by (unfold listReps, fillReps; rewrite Hsz; replace (Z.to_nat (ce - cs)) with (S (Z.to_nat (ce - cs - 1))) by lia; reflexivity).
    destruct (fillRepLevels_ok ctx1 (Some r) D Rp vs rep (ce - cs) HI1 ltac:(lia) ltac:(lia) ltac:(left; lia)) as (ctx2 & HE2 & HC2); [rewrite Hlr, length_fillReps in HBD; lia|]. rewrite <- Hlr in HC2.
    destruct (fillLoop_ok sel R rep n m HSel (Z.to_nat (e - (a + 1))) (a + 1) e cs ce ctx2 D (Rp ++ listReps sel rep r a) vs) as (z & ce' & ctx3 & HE3 & Hz3 & Hce' & Hpos3 & Hflat & HC3); try lia; [exact HC2|rewrite length_app; lia|].
    set (ctx4 := PathCtx.recordPostListVisit ctx3 (mkER cs ce')).
    assert (Hrun : PathRun.list_ sel R rep def isLast (mkER s e) child ctx = Some (mkER z e, mkER cs ce', ctx4, iterNext)).
    { rewrite HE. replace (if isLast then _ else _) with (r <- PathRun.fillForLast sel R rep (mkER (a + 1) e) (mkER cs ce) ctx1 ;; let '(rng, child, ctx) := r in Some (rng, child, ctx, iterNext)) by (rewrite Hlast; reflexivity).
      unfold PathRun.fillForLast. unfold er_size. cbn [er_start er_end]. rewrite HE2. cbn [opt_bind]. rewrite HE3. reflexivity. }
    pose proof (walk_list_step pre spre sel R rep def isLast rest (mkER s e) child stk ctx _ _ _ _ HLp Hrun) as Hst. cbn [iterStep] in Hst. rewrite walkAt_next in Hst.
    assert (HC4 : ctxAt ctx4 D ((Rp ++ listReps sel rep r a) ++ flat_map (listReps sel rep R) (zrange (a + 1) z)) (vs ++ zrange cs ce')).
    { destruct HC3 as (X1 & X2 & X3 & X4). split; [exact X1|]. split; [exact X2|]. unfold ctx4. cbn [PathCtx.recordPostListVisit cx_visitedElems]. destruct (visit_flat (cx_visitedElems ctx3) (mkER cs ce') X4) as [-> HF4]; [cbn; lia|]. cbn [er_start er_end]. rewrite X3. auto. }
    assert (Hposaz : forall i, a <= i < z -> 0 < sizeOf sel i) by (intros i Hi; destruct (Z.eq_dec i a) as [->|]; [exact Hpos|apply Hpos3; lia]).
    assert (Hall : flat_map (fun i => zrange (fst (rangeOf sel i)) (snd (rangeOf sel i))) (zrange a z) = zrange cs ce') by (rewrite (zrange_cons a z) by lia; cbn [flat_map]; rewrite HRo, Hflat; cbn [fst snd]; symmetry; apply zrange_app; lia).
    destruct (entries_flat sel R rep def m rest0 isLast pend1 a z HF HP ltac:(lia) Hposaz) as [He1 He2]. fold node in He1, He2. fold path in He1, He2. cbn zeta in He1. fold r in He1. rewrite Hall in He2.
    assert (HLz : len (map fst (entries path pend1 R a z)) = ce' - cs) by (rewrite length_map, <- (length_map snd), He2, length_map, length_zrange; lia).
    assert (HBz : len D + (ce' - cs) < 2 ^ 60).
    { rewrite Hsp1, length_app in HB. rewrite (entries_split path pend1 R a z e) in HB by lia. rewrite length_app in HB. rewrite length_map in HLz. subst D. rewrite length_app, length_map. lia. }
    destruct (walk_flat rest0 (pre ++ [node]) (spre ++ [mkER z e]) rest stk ctx4 cs ce' m D _ _ Hrest HF HP ltac:(lia) ltac:(lia) ltac:(rewrite !length_app; cbn; lia) ltac:(cbn [List.length] in *; lia) HC4 HBz) as (rest' & stk' & ctx' & Hgo & Hrest' & HL' & HC').
    exists z, rest', stk', ctx'. split; [lia|]. split; [exact Hrest'|]. split; [exact HL'|]. split.
    + rewrite (entries_split path pend R s a z) by lia. fold pend1. rewrite !map_app, !app_assoc, He1, He2. fold D. fold Rp. rewrite (zrange_app s a z), flat_map_app, Hvis by lia. cbn [app].
      replace (flat_map (visits path) (zrange a z)) with (zrange cs ce'); [split; [cbn [pendRep]; rewrite app_nil_r, app_assoc; exact HC'|]|].
      * rewrite <- He1, <- He2, !length_app, !length_map in *. lia.
      * rewrite <- Hall. apply flat_map_ext_in. intros i _. cbn [path node visits]. destruct (rangeOf sel i). cbn [fst snd]. now rewrite Hlast.
    + left. eapply runs_trans; [exact Hst|]. rewrite <- walkBack_to. exact Hgo.
Qed.
End ListWalk.


(** ** The walk of a path with lists *)

Section Nested.

(** What a walk of [suf0] over a range has to do; [pend] is the repetition level that was filled
    in already. *)
Definition walksNested (suf0 : list pathNode) (R n : Z) : Prop :=
  forall pre spre suf stk ctx s e pend defs reps vs,
    map eraseReader suf = suf0 -> 0 <= s <= e -> e <= n -> List.length pre = List.length spre -> List.length (mkER s e :: stk) = List.length suf ->
    inLists ctx pend defs reps vs -> (s < e \/ pend = None) -> len defs + len (entries suf0 pend R s e) + 1 < 2 ^ 60 ->
    exists suf' stk' ctx', runs (walkAt pre spre suf (mkER s e :: stk) ctx) (walkBack pre spre suf' stk' ctx') /\ map eraseReader suf' = suf0 /\ List.length stk' = List.length suf /\
      inLists ctx' None (defs ++ map snd (entries suf0 pend R s e)) (reps ++ map fst (entries suf0 pend R s e)) (vs ++ flat_map (visits suf0) (zrange s e)).

Lemma walks_nulls def R rest0 n : 0 <= R -> walksNested (allNullsTerminalNode def R :: rest0) R n.
Proof.
  intros HR pre spre suf stk ctx s e pend defs reps vs Hsuf Hs He HLp HLs HI Hp HB. destruct suf as [|n1 rest]; [discriminate|]. cbn [map] in Hsuf. injection Hsuf as Hn Hrest. destruct n1; try discriminate. injection Hn as -> ->.
  set (path := allNullsTerminalNode def R :: rest0) in *. destruct (entries_const path pend R s e def ltac:(lia) Hp ltac:(reflexivity)) as [E1 E2].
  assert (HL : len (entries path pend R s e) = e - s) by (rewrite <- (length_map snd), E2, repeat_length; lia).
  destruct (fillEntries_nested ctx pend defs reps vs R def (e - s) HI HR ltac:(lia) ltac:(destruct Hp; [left; lia|auto]) ltac:(lia)) as (ctx' & HE & HI').
  exists (allNullsTerminalNode def R :: rest), (mkER s e :: stk), ctx'. split; [now apply walk_terminal|]. split; [subst path; cbn [map eraseReader]; now rewrite Hrest|]. split; [exact HLs|].
  rewrite E1, E2, flat_empty by reflexivity. now rewrite app_nil_r.
Qed.

Lemma walks_nullable bm off R def rd rest0 n :
  0 <= R -> bitmapFits bm off n -> pathFits rest0 n -> walksNested rest0 R n -> walksNested (nullableNode bm off R def rd true :: rest0) R n.
Proof.
  intros HR HBm HP IH pre spre suf stk ctx s e pend defs reps vs Hsuf Hs He HLp HLs HI Hp HB. destruct suf as [|n1 rest]; [discriminate|]. cbn [map] in Hsuf. injection Hsuf as Hn Hrest. destruct n1 as [| | | |bm1 off1 rep1 def1 rd1 nr1]; try discriminate. injection Hn as -> -> -> -> <- ->.
  pose proof HBm as (Hb & Hsz & Ho & Hfit). destruct (runsAt_new bm (off + s) (e - s) Hb Hsz ltac:(lia) ltac:(lia) ltac:(lia)) as (b & Hnew & HRn). replace (off + s + (e - s)) with (off + e) in HRn by lia.
  set (path := nullableNode bm off R def None true :: rest0) in *. cbn [List.length] in HLs. assert (HLr : (0 < List.length rest)%nat) by (destruct rest; [subst rest0; destruct HP|cbn; lia]).
  set (pendAt p := if s <? p then None else pend). set (E p := entries path pend R s p).
  set (I p c := inLists c (pendAt p) (defs ++ map snd (E p)) (reps ++ map fst (E p)) (vs ++ flat_map (visits path) (zrange s p))).
  assert (HBp : forall p a, s <= p <= a -> a <= e -> len (defs ++ map snd (E p)) + len (entries path (pendAt p) R p a) + 1 < 2 ^ 60).
  { intros p a Hpa Hae. unfold E, pendAt. rewrite length_app, length_map. rewrite (entries_split path pend R s p e) in HB by lia. rewrite length_app, (entries_split path _ R p a e), length_app in HB by lia. lia. }
  assert (Hnext : forall p a c, s <= p <= a -> inLists c None (((defs ++ map snd (E p)) ++ map snd (entries path (pendAt p) R p a))) ((reps ++ map fst (E p)) ++ map fst (entries path (pendAt p) R p a)) ((vs ++ flat_map (visits path) (zrange s p)) ++ flat_map (visits path) (zrange p a)) -> (s < a \/ pend = None) -> I a c).
  { intros p a c Hpa Hc Ha. unfold I, E, pendAt in *. rewrite (entries_split path pend R s p a), !map_app, !app_assoc by lia. rewrite (zrange_app s p a), flat_map_app, app_assoc by lia. replace (if s <? a then None else pend) with (@None Z); [exact Hc|]. destruct (Z.ltb_spec s a); [reflexivity|]. destruct Ha; [lia|congruence]. }
  destruct (nullable_walk bm off R def rest0 n s e I HBm ltac:(lia) He) with (p := s) (nr := true) (rdr := rd1) (b := b) (pre := pre) (spre := spre) (rest := rest) (stk := stk) (ctx := ctx) as (rest' & stk' & ctx' & b' & Hrun & Hrest' & HL' & HC'); auto; try lia.
  - intros p a c Hc Hpa Ha Hlt Hbits. assert (Hsh : forall r i, p <= i < a -> shred path r i = [(r, def)]) by (intros r i Hi; unfold path; cbn [shred]; now rewrite Hbits).
    assert (Hpp : p < a \/ pendAt p = None) by (destruct Hlt as [|]; [auto|right; unfold pendAt; destruct (Z.ltb_spec s p); [reflexivity|destruct Hp; [lia|assumption]]]).
    destruct (entries_const path (pendAt p) R p a def ltac:(lia) Hpp Hsh) as [E1 E2]. specialize (HBp p a ltac:(lia) Ha).
    assert (HLc : len (entries path (pendAt p) R p a) = a - p) by (rewrite <- (length_map snd), E2, repeat_length; lia).
    destruct (fillEntries_nested c (pendAt p) _ _ _ R def (a - p) Hc HR ltac:(lia) ltac:(destruct Hpp; [left; lia|auto]) ltac:(lia)) as (c' & HE & Hc'). exists c'. split; [exact HE|].
    apply (Hnext p a); [lia| |destruct Hlt, Hp; auto; left; lia]. rewrite E1, E2, (flat_empty (visits path) p a), app_nil_r; [exact Hc'|]. intros i Hi. unfold path. cbn [visits]. now rewrite Hbits.
  - intros p z pre' spre' rest1 stk1 c Hc Hpz Hz Hbits Hrest1 HLp1 HLs1.
    assert (Hent : entries rest0 (pendAt p) R p z = entries path (pendAt p) R p z).
    { assert (Hsh : forall r i, p <= i < z -> shred rest0 r i = shred path r i) by (intros r i Hi; unfold path; cbn [shred]; now rewrite Hbits). destruct (pendAt p); cbn [entries]; [bool_lia (p <? z); f_equal; [apply Hsh; lia|]|]; apply flat_map_ext_in; intros i Hi; apply in_zrange in Hi; apply Hsh; lia. }
    specialize (HBp p z ltac:(lia) Hz). rewrite <- Hent in HBp.
    destruct (IH pre' spre' rest1 stk1 c p z (pendAt p) _ _ _ Hrest1 ltac:(lia) ltac:(lia) HLp1 HLs1 Hc ltac:(lia) HBp) as (suf' & stk' & c' & Hr & He' & HL' & Hc').
    exists suf', stk', c'. splits; auto. apply (Hnext p z); [lia| |lia]. rewrite Hent in Hc'. replace (flat_map (visits path) (zrange p z)) with (flat_map (visits rest0) (zrange p z)); [exact Hc'|].
    apply flat_map_ext_in. intros i Hi. apply in_zrange in Hi. unfold path. cbn [visits]. now rewrite Hbits.
  - unfold I, E, pendAt. rewrite entries_nil, zrange_nil, Z.ltb_irrefl. cbn [map flat_map]. now rewrite !app_nil_r.
  - exists (nullableNode bm off R def (Some b') true :: rest'), stk', ctx'. split; [exact Hrun|]. split; [cbn [map eraseReader]; now rewrite Hrest'|]. split; [cbn [List.length]; lia|].
    unfold I, pendAt in HC'. replace (if s <? e then None else pend) with (@None Z) in HC'; [exact HC'|]. destruct (Z.ltb_spec s e); [reflexivity|]. destruct Hp; [lia|congruence].
Qed.

(** The walk of a path with lists appends the entries of its range. *)
Lemma walk_nested suf0 : forall R n, nestedPath R suf0 -> 0 <= R -> pathFits suf0 n -> walksNested suf0 R n.
Proof.
  induction suf0 as [|n0 rest0 IH]; intros R n HN HR HP; [destruct HP|]. destruct n0 as [def|def rep|bm off present null|sel prev rep def isLast|bm off rep def rd nr]; cbn [nestedPath pathFits] in HN, HP; try contradiction.
  - subst rep. now apply walks_nulls.
  - destruct HN as (-> & HRr & HN). destruct HP as (Hd & Hr & m & HSel & HP). intros pre spre suf stk ctx s e pend defs reps vs Hsuf Hs He HLp HLs HI Hp HB.
    destruct suf as [|n1 rest]; [discriminate|]. cbn [map] in Hsuf. injection Hsuf as Hn Hrest. destruct n1; try discriminate. injection Hn as -> -> -> -> ->.
    cbn [List.length] in HLs. assert (HLr : (0 < List.length rest)%nat) by (destruct rest; [subst rest0; destruct HP|cbn; lia]).
    destruct (list_walk sel R rep def isLast rest0 n) with (s := s) (e := e) (pre := pre) (spre := spre) (rest := rest) (stk := stk) (ctx := ctx) (pend := pend) (defs := defs) (reps := reps) (vs := vs) as (rest' & stk' & ctx' & Hrun & Hrest' & HL' & HI'); auto; try lia.
    + destruct isLast; [now apply (round_last sel R rep def true rest0 n m)|]. apply (round_inner sel R rep def false rest0 n m); auto. intros pre' spre' suf' stk' ctx' s' e' r defs' reps' vs' Hs1 Hs2 Hs3 Hs4 Hs5 Hs6 Hs7.
      apply (IH rep m HN ltac:(lia) HP pre' spre' suf' stk' ctx' s' e' (Some r) defs' reps' vs'); auto; lia.
    + exists (listNode sel R rep def isLast :: rest'), stk', ctx'. split; [exact Hrun|]. split; [cbn [map eraseReader]; now rewrite Hrest'|]. split; [cbn [List.length]; lia|exact HI'].
  - destruct HN as [-> HN]. destruct HP as (Hd & HBm & -> & HP). apply walks_nullable; auto.
Qed.
End Nested.
