(* ===== verification/PathColumns.v ===== *)
(** * The columns of a nested array and their levels

    The reference for the shredding of arrow arrays: [columns] are the leaves of an array with the
    arrays above them, [valueOf] is the logical value of an element, [dremel] gives the entries of
    a value by the definition of repetition and definition levels.  The paths the builder makes
    describe the columns, and [writePath] writes the entries of all rows. *)

From Stdlib Require Import ZArith List Lia Bool.
From S2P Require Import Prelude GoStd BitUtil MathUtil Memory BitBlocks BitRunReader DictDecode PathBuilder PathShred.
Import ListNotations.
#[local] Open Scope Z_scope.
#[local] Open Scope go_scope.

(** ** Logical values and their entries *)

Inductive ltype : Type :=
| TLeaf (nullable : bool)
| TStruct (nullable : bool) (t : ltype)
| TList (nullable : bool) (t : ltype).

(** One column of a value: a struct has the field that leads to the column.  A null and a leaf
    carry their position. *)
Inductive value : Type :=
| VNull (i : Z)
| VLeaf (i : Z)
| VStruct (v : value)
| VList (vs : list value).

Fixpoint depth (t : ltype) : Z := match t with TLeaf _ => 0 | TStruct _ t => depth t | TList _ t => 1 + depth t end.
Fixpoint maxDef (t : ltype) : Z := match t with TLeaf nb => Z.b2z nb | TStruct nb t => Z.b2z nb + maxDef t | TList nb t => Z.b2z nb + 1 + maxDef t end.

(** Repetition level, definition level, and the position of the leaf's array that the entry takes
    up: below the innermost list every entry takes one. *)
Abbreviation slotted := (entry * option Z)%type.

(** The entries of [v] at repetition level [k] and definition level [d], the first one with
    repetition level [r]. *)
Fixpoint dremel (t : ltype) (d k r : Z) (v : value) : list slotted :=
  match v, t with
  | VNull i, _ => [(r, d, if depth t =? 0 then Some i else None)]
  | VLeaf i, TLeaf nb => [(r, d + Z.b2z nb, Some i)]
  | VStruct v, TStruct nb t => dremel t (d + Z.b2z nb) k r v
  | VList [], TList nb _ => [(r, d + Z.b2z nb, None)]
  | VList (v :: vs), TList nb t =>
      let d := d + Z.b2z nb + 1 in dremel t d (k + 1) r v ++ flat_map (dremel t d (k + 1) (k + 1)) vs
  | _, _ => []
  end.

Definition somes (l : list (option Z)) : list Z := flat_map (fun o => match o with Some i => [i] | None => [] end) l.
Definition slots (E : list slotted) : list Z := somes (map snd E).

(** ** Columns of arrays *)

(** A list of a fixed size starts [first] lists into the child: the offset of the array. *)
Inductive listLayout : Type := VarLayout (large : bool) (offsets : list Z) | FixedLayout (first listSize : Z).

(** [List.ValueOffsets] and [FixedSizeList.ValueOffsets], for an array with offset [off]. *)
Definition ListValueOffsets (offsets : list Z) (off i : Z) : option elemRange := let j := i + off in a <- index offsets j ;; b <- index offsets (j + 1) ;; Some (mkER a b).
Definition FixedValueOffsets (n off i : Z) : option elemRange := Some (mkER ((off + i) * n) ((off + (i + 1)) * n)).

Definition ValueOffsets (lay : listLayout) (off i : Z) : option elemRange :=
  match lay with VarLayout _ offsets => ListValueOffsets offsets off i | FixedLayout first n => FixedValueOffsets n first i end.

Inductive column : Type :=
| CLeaf (nullable : bool) (d : arrayData)
| CStruct (nullable : bool) (d : arrayData) (c : column)
| CList (nullable : bool) (d : arrayData) (lay : listLayout) (c : column).

Fixpoint columns (nullable : bool) (arr : arrowArray) : list column :=
  match arr with
  | PrimitiveArr d | DictionaryArr d _ _ => [CLeaf nullable d]
  | ListArr d offsets elemNullable values => map (CList nullable d (VarLayout false offsets)) (columns elemNullable values)
  | LargeListArr d offsets elemNullable values => map (CList nullable d (VarLayout true offsets)) (columns elemNullable values)
  | FixedSizeListArr d listSize elemNullable values => map (CList nullable d (FixedLayout (ad_offset d) listSize)) (columns elemNullable values)
  | StructArr d fields => flat_map (fun f => map (CStruct nullable d) (columns (fst f) (snd f))) fields
  | ExtensionArr storage => columns nullable storage
  | UnionArr _ => []
  end.

Fixpoint typeOf (c : column) : ltype :=
  match c with CLeaf nb _ => TLeaf nb | CStruct nb _ c => TStruct nb (typeOf c) | CList nb _ _ c => TList nb (typeOf c) end.

Definition colData (c : column) : arrayData := match c with CLeaf _ d | CStruct _ d _ | CList _ d _ _ => d end.
Definition colLen (c : column) : Z := ad_len (colData c).
Definition colNullable (c : column) : bool := match c with CLeaf nb _ | CStruct nb _ _ | CList nb _ _ _ => nb end.
Fixpoint leafData (c : column) : arrayData := match c with CLeaf _ d => d | CStruct _ _ c | CList _ _ _ c => leafData c end.

(** An array without a bitmap has no nulls, or only nulls (the null type). *)
Definition validAt (d : arrayData) (i : Z) : bool :=
  match ad_bitmap d with
  | Some bm => bitAt bm (ad_offset d) i
  | None => match ad_nullN d with Some c => c =? 0 | None => true end
  end.

Definition elemsOf (d : arrayData) (lay : listLayout) (i : Z) : Z * Z :=
  match ValueOffsets lay (ad_offset d) i with Some r => (er_start r, er_end r) | None => (0, 0) end.

Fixpoint valueOf (c : column) (i : Z) : value :=
  if negb (validAt (colData c) i) then VNull i
  else
    match c with
    | CLeaf _ _ => VLeaf i
    | CStruct _ _ c => VStruct (valueOf c i)
    | CList _ d lay c => let '(s, e) := elemsOf d lay i in VList (map (valueOf c) (zrange s e))
    end.

(** The entries of a column's rows. *)
Definition columnEntries (c : column) : list slotted := flat_map (fun i => dremel (typeOf c) 0 0 0 (valueOf c i)) (zrange 0 (colLen c)).

(** ** Arrays as they should be *)

(** The bitmap covers the array, and a null count of 0 or of all elements is right. *)
Definition dataOk (d : arrayData) : Prop :=
  0 <= ad_len d /\ 0 <= ad_offset d /\
  match ad_bitmap d with
  | Some bm =>
      bitmapFits bm (ad_offset d) (ad_len d) /\
      (forall c, ad_nullN d = Some c -> (c = 0 -> forall i, 0 <= i < ad_len d -> validAt d i = true) /\ (c = ad_len d -> forall i, 0 <= i < ad_len d -> validAt d i = false))
  | None => match ad_nullN d with Some c => c = 0 \/ c = ad_len d | None => True end
  end.

(** The offsets are in order and within the child, of [m] elements; so are the lists of a fixed
    size. *)
Definition layoutOk (lay : listLayout) (off n m : Z) : Prop :=
  match lay with
  | VarLayout _ offs => off <= len offs /\ (0 < n -> off + n < len offs /\ 0 <= nth (Z.to_nat off) offs 0 /\ (forall i, off <= i < off + n -> nth (Z.to_nat i) offs 0 <= nth (Z.to_nat (i + 1)) offs 0) /\ nth (Z.to_nat (off + n)) offs 0 <= m)
  | FixedLayout first k => 0 <= first /\ 0 <= k /\ (first + n) * k <= m
  end.

Fixpoint columnOk (c : column) : Prop :=
  dataOk (colData c) /\
  match c with
  | CLeaf _ _ => True
  | CStruct _ d c => colLen c = ad_len d /\ columnOk c
  | CList _ d lay c => layoutOk lay (ad_offset d) (ad_len d) (colLen c) /\ columnOk c
  end.

(** Lists of a fixed size that [Visit] treats right: they have some elements, and the array is not
    a slice that starts further in. *)
Definition plainLayout (lay : listLayout) : Prop := match lay with VarLayout _ _ => True | FixedLayout first k => first = 0 /\ 0 < k end.

Fixpoint plainFixed (c : column) : Prop := match c with CLeaf _ _ => True | CStruct _ _ c => plainFixed c | CList _ _ lay c => plainLayout lay /\ plainFixed c end.

(** What is not nullable has no null where it can be reached. *)
Fixpoint conforms (c : column) (i : Z) : Prop :=
  (colNullable c = true \/ validAt (colData c) i = true) /\
  match c with
  | CLeaf _ _ => True
  | CStruct _ d c => validAt d i = true -> conforms c i
  | CList _ d lay c => validAt d i = true -> forall j, fst (elemsOf d lay i) <= j < snd (elemsOf d lay i) -> conforms c j
  end.

(** ** The nodes of a column *)

Definition nullNodes (nb : bool) (a : arrayData) (d : Z) : list pathNode :=
  if negb nb then []
  else if lazyNoNulls a then []
  else if lazyAllNulls a then [allNullsTerminalNode d (-1)]
  else [nullableNode (bitmapBytes a) (ad_offset a) (-1) d None true].

Definition selOf (lay : listLayout) (off : Z) : rangeSelector :=
  match lay with VarLayout large offs => (if large then largeVarRangeSelector else varRangeSelector) (skipn (Z.to_nat off) offs) | FixedLayout _ k => fixedSizeRangeSelector k end.

Fixpoint nodesOf (c : column) (d k : Z) : list pathNode :=
  let d' := d + Z.b2z (colNullable c) in
  match c with
  | CLeaf nb a => [if lazyNoNulls a then allPresentTerminalNode d' else if lazyAllNulls a then allNullsTerminalNode (d' - 1) (-1) else nullableTerminalNode (bitmapBytes a) (ad_offset a) d' (d' - 1)]
  | CStruct nb a c => nullNodes nb a d ++ nodesOf c d' k
  | CList nb a lay c => nullNodes nb a d ++ listNode (selOf lay (ad_offset a)) k (k + 1) (match lay with VarLayout _ _ => d' | FixedLayout _ _ => d' + 1 end) false :: nodesOf c (d' + 1) (k + 1)
  end.

(** ** Facts on arrays *)

Lemma noNulls_valid a i : dataOk a -> lazyNoNulls a = true -> 0 <= i < ad_len a -> validAt a i = true.
Proof.
  intros (_ & _ & HD) HN Hi. unfold lazyNoNulls in HN. destruct (ad_bitmap a) as [bm|] eqn:Eb.
  - destruct HD as [_ HC]. destruct (ad_nullN a) as [c|]; [|discriminate]. apply Z.eqb_eq in HN. now apply (proj1 (HC c eq_refl)).
  - unfold validAt. rewrite Eb. destruct (ad_nullN a); [exact HN|reflexivity].
Qed.

Lemma allNulls_invalid a i : dataOk a -> lazyNoNulls a = false -> lazyAllNulls a = true -> 0 <= i < ad_len a -> validAt a i = false.
Proof.
  intros (H0 & _ & HD) HN HA Hi. unfold lazyNoNulls, lazyAllNulls in *. destruct (ad_nullN a) as [c|] eqn:En; [|apply Z.eqb_eq in HA; lia]. apply Z.eqb_eq in HA. destruct (ad_bitmap a) as [bm|] eqn:Eb.
  - destruct HD as [_ HC]. now apply (proj2 (HC c eq_refl)).
  - unfold validAt. rewrite Eb, En. exact HN.
Qed.

Lemma someNulls_bitmap a : dataOk a -> lazyNoNulls a = false -> lazyAllNulls a = false -> bitmapFits (bitmapBytes a) (ad_offset a) (ad_len a) /\ forall i, validAt a i = bitAt (bitmapBytes a) (ad_offset a) i.
Proof.
  intros (H0 & _ & HD) HN HA. unfold lazyNoNulls, lazyAllNulls, bitmapBytes, validAt in *. destruct (ad_bitmap a) as [bm|]; [split; [exact (proj1 HD)|reflexivity]|]. exfalso.
  destruct (ad_nullN a) as [c|]; [|discriminate]. apply Z.eqb_neq in HN, HA. lia.
Qed.

Lemma layout_selector lay a m : layoutOk lay (ad_offset a) (ad_len a) m -> dataOk a -> selectorFits (selOf lay (ad_offset a)) (ad_len a) m.
Proof.
  intros HL (H0 & Ho & _). assert (Hvar : forall offs, layoutOk (VarLayout false offs) (ad_offset a) (ad_len a) m -> selectorFits (varRangeSelector (skipn (Z.to_nat (ad_offset a)) offs)) (ad_len a) m).
  { intros offs [_ HV] Hn. destruct (HV Hn) as (H1 & H2 & H3 & H4). rewrite length_skipn. split; [lia|]. rewrite !nth_skipn, Nat.add_0_r. split; [exact H2|]. split.
    - intros i Hi. rewrite !nth_skipn. specialize (H3 (ad_offset a + i) ltac:(lia)). replace (Z.to_nat (ad_offset a) + Z.to_nat i)%nat with (Z.to_nat (ad_offset a + i)) by lia. replace (Z.to_nat (ad_offset a) + Z.to_nat (i + 1))%nat with (Z.to_nat (ad_offset a + i + 1)) by lia. exact H3.
    - now replace (Z.to_nat (ad_offset a) + Z.to_nat (ad_len a))%nat with (Z.to_nat (ad_offset a + ad_len a)) by lia. }
  destruct lay as [[] offs|b k]; cbn [selOf]; [exact (Hvar offs HL)|exact (Hvar offs HL)|]. destruct HL as (Hb & Hk & Hm). cbn [selectorFits]. nia.
Qed.

Lemma layout_range lay a m i : layoutOk lay (ad_offset a) (ad_len a) m -> plainLayout lay -> dataOk a -> 0 <= i < ad_len a -> rangeOf (selOf lay (ad_offset a)) i = elemsOf a lay i.
Proof.
  intros HL HP (H0 & Ho & _) Hi. unfold elemsOf. destruct lay as [[] offs|b k]; cbn [selOf rangeOf ValueOffsets layoutOk plainLayout] in *; unfold ListValueOffsets, FixedValueOffsets in *.
  1-2: destruct HL as [_ HV]; specialize (HV ltac:(lia)); rewrite (index_ok offs _ 0), (index_ok offs _ 0) by lia; cbn [opt_bind er_start er_end]; rewrite !nth_skipn; do 2 f_equal; lia.
  destruct HP as [-> _]. cbn [er_start er_end]. f_equal; lia.
Qed.

Lemma layout_bounds lay a m i :
  layoutOk lay (ad_offset a) (ad_len a) m -> dataOk a -> 0 <= i < ad_len a -> 0 <= fst (elemsOf a lay i) <= snd (elemsOf a lay i) /\ snd (elemsOf a lay i) <= m.
Proof.
  intros HL HD Hi. destruct lay as [large offs|b k].
  - destruct (selector_range _ _ _ i (layout_selector _ a m HL HD) Hi) as (s & e & HR & _ & Hse & Hm & _). rewrite (layout_range _ a m i HL I HD Hi) in HR. rewrite HR. auto.
  - destruct HL as (Hb & Hk & Hm). unfold elemsOf. cbn [ValueOffsets]. unfold FixedValueOffsets. cbn [fst snd er_start er_end]. nia.
Qed.

(** ** The path of a column *)

(** The nodes with their repetition levels. *)
Definition nullNodesAt (nb : bool) (a : arrayData) (d r : Z) : list pathNode :=
  if negb nb then []
  else if lazyNoNulls a then []
  else if lazyAllNulls a then [allNullsTerminalNode d r]
  else [nullableNode (bitmapBytes a) (ad_offset a) r d None true].

(** The repetition level of a null at level [k]: below the innermost list of a column with [M]
    lists there are none to write. *)
Definition repIfNull (k M : Z) : Z := if k <? M then k else -1.

(** The nodes of a column below [k] of its [M] lists, at definition level [d]: those for the nulls
    of an array come before the array, nothing is left open, and only the innermost list is the
    last. *)
Fixpoint pathOf (c : column) (d k M : Z) : list pathNode :=
  let d' := d + Z.b2z (colNullable c) in
  match c with
  | CLeaf _ a => [if lazyNoNulls a then allPresentTerminalNode d' else if lazyAllNulls a then allNullsTerminalNode (d' - 1) (repIfNull k M) else nullableTerminalNode (bitmapBytes a) (ad_offset a) d' (d' - 1)]
  | CStruct nb a c => nullNodesAt nb a d (repIfNull k M) ++ pathOf c d' k M
  | CList nb a lay c =>
      nullNodesAt nb a d (repIfNull k M) ++
      listNode (selOf lay (ad_offset a)) k (k + 1) (d' + match lay with VarLayout _ _ => 0 | FixedLayout _ _ => 1 end) (k + 1 =? M) :: pathOf c (d' + 1) (k + 1) M
  end.

Lemma fixup_nulls M r nb a d p : fixupPath M r (nullNodes nb a d ++ p) = nullNodesAt nb a d r ++ fixupPath M r p.
Proof.
  unfold nullNodes, nullNodesAt. destruct (negb nb); [reflexivity|]. destruct (lazyNoNulls a); [reflexivity|].
  destruct (lazyAllNulls a); cbn [app fixupPath fixupNode]; destruct (Z.eqb_spec r (-1)) as [->|]; reflexivity.
Qed.

Lemma depth_nonneg t : 0 <= depth t.
Proof. induction t; cbn [depth]; lia. Qed.

(** What [fixup] makes of the nodes that [Visit] has added. *)
Lemma fixup_pathOf c : forall d k M, k + depth (typeOf c) = M -> fixupPath M (repIfNull k M) (nodesOf c d k) = pathOf c d k M.
Proof.
  induction c as [nb a|nb a c IH|nb a lay c IH]; intros d k M HM; cbn [typeOf depth] in HM; cbn [nodesOf pathOf colNullable]; rewrite ?fixup_nulls.
  - unfold repIfNull. bool_lia (k <? M). destruct (lazyNoNulls a), (lazyAllNulls a); reflexivity.
  - now rewrite IH.
  - pose proof (depth_nonneg (typeOf c)). f_equal. rewrite <- IH by lia. unfold repIfNull. bool_lia (k <? M). cbn [fixupPath fixupNode].
    destruct (Z.eqb_spec (k + 1) M) as [He|He]; [bool_lia (k + 1 <? M)|bool_lia (k + 1 <? M)]; destruct lay; rewrite ?Z.add_0_r; reflexivity.
Qed.

Lemma pathOf_struct nb a c d k M : pathOf (CStruct nb a c) d k M = nullNodesAt nb a d (repIfNull k M) ++ pathOf c (d + Z.b2z nb) k M.
Proof. reflexivity. Qed.

Lemma pathOf_list nb a lay c d k M :
  k < M -> pathOf (CList nb a lay c) d k M =
    nullNodesAt nb a d k ++ listNode (selOf lay (ad_offset a)) k (k + 1) (d + Z.b2z nb + match lay with VarLayout _ _ => 0 | FixedLayout _ _ => 1 end) (k + 1 =? M) :: pathOf c (d + Z.b2z nb + 1) (k + 1) M.
Proof. intros Hk. cbn [pathOf colNullable]. unfold repIfNull. now bool_lia (k <? M). Qed.

Lemma nullNodes_flat nb a d p : flatPath p -> flatPath (nullNodesAt nb a d (-1) ++ p).
Proof. intros H. unfold nullNodesAt. destruct (negb nb), (lazyNoNulls a), (lazyAllNulls a); cbn [app flatPath]; auto. Qed.

Lemma nullNodes_nested nb a d k p : nestedPath k p -> nestedPath k (nullNodesAt nb a d k ++ p).
Proof. intros H. unfold nullNodesAt. destruct (negb nb), (lazyNoNulls a), (lazyAllNulls a); cbn [app nestedPath]; auto. Qed.

Lemma nullNodes_fits nb a d r p : dataOk a -> inS 16 d -> pathFits p (ad_len a) -> pathFits (nullNodesAt nb a d r ++ p) (ad_len a).
Proof.
  intros HD Hd H. unfold nullNodesAt. destruct (negb nb), (lazyNoNulls a) eqn:E1, (lazyAllNulls a) eqn:E2; cbn [app pathFits]; auto. pose proof (someNulls_bitmap a HD E1 E2) as [HB _]. auto.
Qed.

Lemma nullNodes_shred nb a d r' p r i :
  dataOk a -> 0 <= i < ad_len a -> nb = true \/ validAt a i = true ->
  shred (nullNodesAt nb a d r' ++ p) r i = (if validAt a i then shred p r i else [(r, d)]) /\ visits (nullNodesAt nb a d r' ++ p) i = if validAt a i then visits p i else [].
Proof.
  intros HD Hi Hv. unfold nullNodesAt. destruct nb; cbn [negb]; [|destruct Hv as [|Hv]; [discriminate|]; rewrite Hv; auto]. destruct (lazyNoNulls a) eqn:E1; [rewrite (noNulls_valid a i HD E1 Hi); auto|].
  destruct (lazyAllNulls a) eqn:E2; cbn [app shred visits]; [rewrite (allNulls_invalid a i HD E1 E2 Hi); auto|]. rewrite (proj2 (someNulls_bitmap a HD E1 E2) i). destruct (bitAt _ _ i); auto.
Qed.

Lemma maxDef_nonneg t : 0 <= maxDef t.
Proof. induction t; cbn [maxDef]; try destruct nullable; cbn [Z.b2z]; lia. Qed.

Lemma pathOf_shape c : forall d k M, 0 <= k -> k + depth (typeOf c) = M -> if depth (typeOf c) =? 0 then flatPath (pathOf c d k M) else nestedPath k (pathOf c d k M).
Proof.
  induction c as [nb a|nb a c IH|nb a lay c IH]; intros d k M Hk HM; cbn [typeOf depth] in *.
  - cbn [Z.eqb pathOf]. unfold repIfNull. bool_lia (k <? M). destruct (lazyNoNulls a), (lazyAllNulls a); exact I || reflexivity.
  - rewrite pathOf_struct. specialize (IH (d + Z.b2z nb) k M Hk HM). pose proof (depth_nonneg (typeOf c)). destruct (Z.eqb_spec (depth (typeOf c)) 0).
    + unfold repIfNull. bool_lia (k <? M). now apply nullNodes_flat.
    + unfold repIfNull. bool_lia (k <? M). now apply nullNodes_nested.
  - pose proof (depth_nonneg (typeOf c)). bool_lia (1 + depth (typeOf c) =? 0). rewrite pathOf_list by lia. apply nullNodes_nested. cbn [nestedPath]. split; [reflexivity|]. split; [lia|].
    specialize (IH (d + Z.b2z nb + 1) (k + 1) M ltac:(lia) ltac:(lia)). destruct (Z.eqb_spec (k + 1) M); destruct (Z.eqb_spec (depth (typeOf c)) 0); try lia; exact IH.
Qed.

Lemma level_inS x : -1 <= x < 2 ^ 15 -> inS 16 x.
Proof. unfold inS. change (2 ^ (16 - 1)) with (2 ^ 15). lia. Qed.

Lemma pathOf_fits c : forall d k M, columnOk c -> 0 <= d -> 0 <= k -> k + depth (typeOf c) = M -> M < 2 ^ 15 -> d + maxDef (typeOf c) < 2 ^ 15 -> pathFits (pathOf c d k M) (colLen c).
Proof.
  induction c as [nb a|nb a c IH|nb a lay c IH]; intros d k M [HD HC] Hd Hk HM HM' Hm; cbn [typeOf depth maxDef colData] in *.
  - assert (Hb : 0 <= Z.b2z nb <= 1) by (destruct nb; cbn; lia). cbn [pathOf colNullable]. unfold repIfNull. bool_lia (k <? M). unfold colLen. cbn [colData].
    destruct (lazyNoNulls a) eqn:E1; [cbn [pathFits]; apply level_inS; lia|]. destruct (lazyAllNulls a) eqn:E2; cbn [pathFits]; [apply level_inS; lia|]. split; [apply level_inS; lia|]. split; [apply level_inS; lia|exact (proj1 (someNulls_bitmap a HD E1 E2))].
  - destruct HC as [HL HC]. assert (Hb : 0 <= Z.b2z nb <= 1) by (destruct nb; cbn; lia). pose proof (maxDef_nonneg (typeOf c)). rewrite pathOf_struct. unfold colLen at 1. cbn [colData]. apply nullNodes_fits; [exact HD|apply level_inS; lia|]. rewrite <- HL. apply IH; auto; lia.
  - destruct HC as [HL HC]. assert (Hb : 0 <= Z.b2z nb <= 1) by (destruct nb; cbn; lia). pose proof (maxDef_nonneg (typeOf c)). pose proof (depth_nonneg (typeOf c)). rewrite pathOf_list by lia. unfold colLen at 1. cbn [colData]. apply nullNodes_fits; [exact HD|apply level_inS; lia|].
    cbn [pathFits]. split; [destruct lay; apply level_inS; lia|]. split; [apply level_inS; lia|]. exists (colLen c). split; [now apply layout_selector|]. apply IH; auto; lia.
Qed.

Lemma flat_map_map {A B C} (f : B -> list C) (g : A -> B) l : flat_map f (map g l) = flat_map (fun x => f (g x)) l.
Proof. induction l as [|x l IH]; cbn [map flat_map]; congruence. Qed.

Lemma map_flat_map {A B C} (f : B -> C) (g : A -> list B) l : map f (flat_map g l) = flat_map (fun x => map f (g x)) l.
Proof. induction l as [|x l IH]; cbn [map flat_map]; [reflexivity|]. now rewrite map_app, IH. Qed.

Lemma entrySlots_app E E' : slots (E ++ E') = slots E ++ slots E'.
Proof. unfold slots, somes. now rewrite map_app, flat_map_app. Qed.

Lemma slots_flat_map {A} (f : A -> list slotted) l : slots (flat_map f l) = flat_map (fun x => slots (f x)) l.
Proof. induction l as [|x l IH]; cbn [flat_map]; [reflexivity|]. now rewrite entrySlots_app, IH. Qed.

Lemma dremel_list nb t d k r g s e :
  let d' := d + Z.b2z nb in
  dremel (TList nb t) d k r (VList (map g (zrange s e))) =
    if s <? e then dremel t (d' + 1) (k + 1) r (g s) ++ flat_map (fun j => dremel t (d' + 1) (k + 1) (k + 1) (g j)) (zrange (s + 1) e) else [(r, d', None)].
Proof.
  intros d'. destruct (Z.ltb_spec s e) as [Hlt|Hge]; [rewrite zrange_cons by exact Hlt; cbn [map dremel]; now rewrite flat_map_map|]. unfold zrange. now replace (Z.to_nat (e - s)) with O by lia.
Qed.

(** What the path says of an element is what the levels of its value are. *)
Lemma pathOf_shred c : forall d k M r i,
  columnOk c -> plainFixed c -> conforms c i -> 0 <= i < colLen c -> k + depth (typeOf c) = M ->
  let E := dremel (typeOf c) d k r (valueOf c i) in
  map fst E = shred (pathOf c d k M) r i /\ slots E = if depth (typeOf c) =? 0 then [i] else visits (pathOf c d k M) i.
Proof.
  induction c as [nb a|nb a c IH|nb a lay c IH]; intros d k M r i [HD HC] HPl [Hv HF] Hi HM; unfold colLen in Hi; cbn [colData colNullable] in *.
  - cbn [typeOf depth valueOf colData] in *. cbn [pathOf colNullable]. unfold repIfNull. bool_lia (k <? M). destruct (lazyNoNulls a) eqn:E1.
    + rewrite (noNulls_valid a i HD E1 Hi). split; reflexivity.
    + destruct (lazyAllNulls a) eqn:E2.
      * rewrite (allNulls_invalid a i HD E1 E2 Hi) in *. destruct Hv as [->|]; [|discriminate]. cbn [negb dremel map fst shred Z.b2z]. split; [|reflexivity]. now replace (d + 1 - 1) with d by lia.
      * rewrite (proj2 (someNulls_bitmap a HD E1 E2) i) in *. cbn [shred]. destruct (bitAt (bitmapBytes a) (ad_offset a) i); [split; reflexivity|]. destruct Hv as [->|]; [|discriminate].
        cbn [negb dremel map fst Z.b2z]. split; [|reflexivity]. now replace (d + 1 - 1) with d by lia.
  - destruct HC as [HL HC]. rewrite pathOf_struct. destruct (nullNodes_shred nb a d (repIfNull k M) (pathOf c (d + Z.b2z nb) k M) r i HD Hi Hv) as [-> ->]. cbn [typeOf depth valueOf colData] in *.
    destruct (validAt a i) eqn:Ev; cbn [negb dremel]; [apply IH; auto; lia|]. cbn [depth map fst slots somes flat_map]. unfold slots, somes. cbn [map snd flat_map]. destruct (depth (typeOf c) =? 0); split; reflexivity.
  - destruct HC as [HL HC]. destruct HPl as [HPl HPc]. pose proof (depth_nonneg (typeOf c)) as Hdp. cbn [typeOf depth valueOf colData] in *. rewrite pathOf_list by lia. bool_lia (1 + depth (typeOf c) =? 0).
    match goal with |- context [nullNodesAt nb a d k ++ ?p] => destruct (nullNodes_shred nb a d k p r i HD Hi Hv) as [-> ->] end.
    destruct (validAt a i) eqn:Ev; cbn [negb].
    2: { cbn [dremel depth map fst]. unfold slots, somes. bool_lia (1 + depth (typeOf c) =? 0). split; reflexivity. }
    cbn [shred visits]. rewrite (layout_range lay a _ i HL HPl HD Hi). pose proof (layout_bounds lay a _ i HL HD Hi) as [Hse Hsm]. specialize (HF eq_refl).
    assert (Hfix : fst (elemsOf a lay i) = snd (elemsOf a lay i) -> match lay with VarLayout _ _ => 0 | FixedLayout _ _ => 1 end = 0) by (destruct lay as [|b n]; [reflexivity|]; unfold elemsOf; cbn; destruct HPl; nia).
    destruct (elemsOf a lay i) as [s e] eqn:Ee. cbn [fst snd] in *. rewrite dremel_list. cbn zeta.
    assert (Hel : forall r j, s <= j < e -> let E := dremel (typeOf c) (d + Z.b2z nb + 1) (k + 1) r (valueOf c j) in
      map fst E = shred (pathOf c (d + Z.b2z nb + 1) (k + 1) M) r j /\ slots E = if depth (typeOf c) =? 0 then [j] else visits (pathOf c (d + Z.b2z nb + 1) (k + 1) M) j) by (intros r' j Hj; apply IH; auto; lia).
    destruct (Z.ltb_spec s e) as [Hlt|Hge].
    + bool_lia (s =? e). split.
      * rewrite map_app, map_flat_map. f_equal; [apply Hel; lia|]. apply flat_map_ext_in. intros j Hj. apply in_zrange in Hj. apply Hel. lia.
      * rewrite entrySlots_app, slots_flat_map. rewrite (proj2 (Hel r s ltac:(lia))). rewrite (flat_map_ext_in _ (fun j => if depth (typeOf c) =? 0 then [j] else visits (pathOf c (d + Z.b2z nb + 1) (k + 1) M) j) (zrange (s + 1) e)) by (intros j Hj; apply in_zrange in Hj; apply Hel; lia).
        rewrite (zrange_cons s e) by lia. destruct (Z.eqb_spec (k + 1) M), (Z.eqb_spec (depth (typeOf c)) 0); try lia; [|reflexivity]. cbn [app]. f_equal. induction (zrange (s + 1) e) as [|j l IHl]; cbn [flat_map app]; congruence.
    + assert (s = e) by lia. subst e. rewrite Z.eqb_refl, zrange_nil. cbn [map fst flat_map]. rewrite (Hfix eq_refl). unfold slots, somes. cbn [map snd flat_map]. split; [do 2 f_equal; lia|now destruct (k + 1 =? M)].
Qed.

(** ** Writing a path *)

Lemma Forall_flat_map {A B} (P : B -> Prop) (f : A -> list B) l : (forall x, In x l -> Forall P (f x)) -> Forall P (flat_map f l).
Proof. induction l as [|x l IH]; intros H; cbn [flat_map]; [constructor|]. apply Forall_app. split; [apply H; now left|]. apply IH. intros. apply H. now right. Qed.

Lemma shred_inS path : forall n r i, pathFits path n -> inS 16 r -> Forall (fun e : entry => inS 16 (fst e) /\ inS 16 (snd e)) (shred path r i).
Proof.
  induction path as [|[def|def rep|bm off present null|sel prev rep def isLast|bm off rep def rd nr] rest IH]; intros n r i HP Hr; cbn [pathFits shred] in *; try contradiction.
  - constructor; auto.
  - constructor; auto.
  - destruct HP as (H1 & H2 & _). constructor; [|constructor]. split; [exact Hr|]. destruct (bitAt bm off i); assumption.
  - destruct HP as (H1 & H2 & m & _ & HP). destruct (rangeOf sel i) as [s e]. destruct (s =? e); [constructor; auto|]. apply Forall_app. split; [now apply (IH m)|]. apply Forall_flat_map. intros j _. now apply (IH m).
  - destruct HP as (H1 & _ & _ & HP). destruct (bitAt bm off i); [now apply (IH n)|constructor; auto].
Qed.

Lemma entries_inS path n s e : pathFits path n -> Forall (inS 16) (map snd (entries path None 0 s e)) /\ Forall (inS 16) (map fst (entries path None 0 s e)).
Proof.
  intros HP. assert (HF : Forall (fun e : entry => inS 16 (fst e) /\ inS 16 (snd e)) (entries path None 0 s e)) by (apply Forall_flat_map; intros i _; apply (shred_inS path n); [exact HP|apply level_inS; lia]).
  split; apply Forall_map; eapply Forall_impl; try exact HF; intros a [H1 H2]; assumption.
Qed.

Lemma runs_end pre spre suf stk ctx st : pre = [] -> spre = [] -> runs st (walkBack pre spre suf stk ctx) -> exists N, forall fuel, (N <= fuel)%nat -> walk fuel st = Some (mkWalk suf stk (-1) ctx).
Proof. intros -> -> [k Hk]. exists k. intros fuel Hf. replace fuel with (k + (fuel - k))%nat by lia. rewrite Hk. unfold walkBack. cbn. destruct (fuel - k)%nat; reflexivity. Qed.

Definition withPath (info : pathInfo) (path : list pathNode) : pathInfo := mkPathInfo path (pi_leafLen info) (pi_maxDefLevel info) (pi_maxRepLevel info) (pi_leafIsNullable info).

Section WritePath.
Variables (f1 f2 : Buffer.t) (info : pathInfo) (path0 : list pathNode) (n : Z).
Hypotheses (Hf1 : poolOk f1) (Hf2 : poolOk f2) (HE : map eraseReader path0 = pi_path info) (HP : pathFits (pi_path info) n) (Hn : 0 <= n) (Hdef : pi_maxDefLevel info <> 0).

Let defs0 := Int16Buffer.Reserve (PooledBufferWriter.NewPooledBufferWriter f1 0) n.
Let reps0 := let reps := PooledBufferWriter.NewPooledBufferWriter f2 0 in if 0 <? pi_maxRepLevel info then Int16Buffer.Reserve reps n else reps.

Lemma ctx_new : ctxAt (mkCtx defs0 reps0 []) [] [] [].
Proof.
  unfold defs0, reps0, Int16Buffer.Reserve. split; [apply Reserve_streamed, new_streamed, Hf1|]. split; [cbn [cx_repLevels]; destruct (0 <? pi_maxRepLevel info); [apply Reserve_streamed|]; apply new_streamed, Hf2|]. split; [reflexivity|constructor].
Qed.

Let stk0 := repeat (mkER 0 0) (List.length path0 - 1).

Lemma stack_new : List.length (mkER 0 n :: stk0) = List.length path0.
Proof.
  assert (HL : (0 < List.length path0)%nat) by (rewrite <- (length_map eraseReader), HE; destruct (pi_path info); [destruct HP|cbn; lia]). unfold stk0. cbn [List.length]. rewrite repeat_length. lia.
Qed.

(** [writePath], with the walk left to do. *)
Lemma writePath_walk fuel :
  writePath fuel f1 f2 (mkER 0 n) (withPath info path0) =
    (st <- walk fuel (walkAt [] [] path0 (mkER 0 n :: stk0) (mkCtx defs0 reps0 [])) ;;
     let ctx := wk_ctx st in
     let '(repLevels, visited) :=
       if 0 <? Int16Buffer.LenOf (cx_repLevels ctx)
       then (Some (Int16Buffer.Values (cx_repLevels ctx)), match cx_visitedElems ctx with [] => [mkER 0 0] | v => v end)
       else (None, [mkER 0 (pi_leafLen info)]) in
     Some (wk_path st, mkLevels (Int16Buffer.Values (cx_defLevels ctx)) repLevels visited (pi_leafIsNullable info))).
Proof.
  pose proof stack_new as HL. cbn [List.length] in HL. unfold writePath, withPath. cbn [pi_path pi_leafLen pi_maxDefLevel pi_maxRepLevel pi_leafIsNullable]. bool_lia (pi_maxDefLevel info =? 0).
  unfold er_size. cbn [er_start er_end]. rewrite Z.sub_0_r. rewrite store_ok by (rewrite repeat_length; lia). cbn [opt_bind]. unfold walkAt, stk0. cbn [app List.length]. change (Z.of_nat 0) with 0.
  destruct (List.length path0) as [|k]; [lia|]. cbn [repeat Z.to_nat upd]. replace (S k - 1)%nat with k by lia. reflexivity.
Qed.

(** Without lists: the definition levels. *)
Lemma writePath_flat :
  flatPath (pi_path info) -> n < 2 ^ 60 ->
  exists N, forall fuel, (N <= fuel)%nat -> exists path', map eraseReader path' = pi_path info /\
    writePath fuel f1 f2 (mkER 0 n) (withPath info path0) = Some (path', mkLevels (map snd (entries (pi_path info) None 0 0 n)) None [mkER 0 (pi_leafLen info)] (pi_leafIsNullable info)).
Proof.
  intros HF HB. destruct (walk_flat (pi_path info) [] [] path0 stk0 _ 0 n n [] [] [] HE HF HP ltac:(lia) ltac:(lia) eq_refl stack_new ctx_new ltac:(cbn; lia)) as (suf' & stk' & ctx' & Hr & Hs & _ & HC).
  destruct (runs_end [] [] suf' stk' ctx' _ eq_refl eq_refl Hr) as [N HN]. exists N. intros fuel Hfu. exists suf'. split; [exact Hs|]. rewrite writePath_walk, HN by exact Hfu. cbn [opt_bind wk_ctx wk_path app] in *. destruct HC as (H1 & H2 & _).
  replace (map (defOf (pi_path info)) (zrange 0 n)) with (map snd (entries (pi_path info) None 0 0 n)) in H1 by (cbn [entries]; rewrite (flat_defs _ n 0 _ HF HP), map_map; reflexivity).
  rewrite (LevelLen_ok _ _ H2), (LevelValues_ok _ _ H1) by (apply (entries_inS _ n), HP). reflexivity.
Qed.

(** With lists: both, and the elements visited. *)
Lemma writePath_nested :
  nestedPath 0 (pi_path info) -> 0 < n -> len (entries (pi_path info) None 0 0 n) + 1 < 2 ^ 60 ->
  let E := entries (pi_path info) None 0 0 n in
  exists N visited, flatRanges visited = flat_map (visits (pi_path info)) (zrange 0 n) /\ forall fuel, (N <= fuel)%nat -> exists path', map eraseReader path' = pi_path info /\
    writePath fuel f1 f2 (mkER 0 n) (withPath info path0) = Some (path', mkLevels (map snd E) (Some (map fst E)) visited (pi_leafIsNullable info)).
Proof.
  intros HN Hpos HB E. assert (HI : inLists (mkCtx defs0 reps0 []) None [] [] []) by (split; [exact ctx_new|reflexivity]).
  destruct (walk_nested (pi_path info) 0 n HN ltac:(lia) HP [] [] path0 stk0 _ 0 n None [] [] [] HE ltac:(lia) ltac:(lia) eq_refl stack_new HI ltac:(auto) ltac:(cbn [List.length]; lia)) as (suf' & stk' & ctx' & Hr & Hs & _ & [HC _]).
  destruct (runs_end [] [] suf' stk' ctx' _ eq_refl eq_refl Hr) as [N HN']. cbn [app pendRep] in HC. rewrite app_nil_r in HC. fold E in HC. destruct HC as (H1 & H2 & H3 & _).
  assert (HLE : n <= len E) by (pose proof (entries_len (pi_path info) n None 0 0 n HP ltac:(lia)); fold E in H; lia).
  exists N, (match cx_visitedElems ctx' with [] => [mkER 0 0] | v => v end). split; [rewrite <- H3; destruct (cx_visitedElems ctx'); reflexivity|].
  intros fuel Hfu. exists suf'. split; [exact Hs|]. rewrite writePath_walk, HN' by exact Hfu. cbn [opt_bind wk_ctx wk_path]. destruct (entries_inS (pi_path info) n 0 n HP) as [HS1 HS2].
  rewrite (LevelLen_ok _ _ H2), (LevelValues_ok _ _ H1), (LevelValues_ok _ _ H2) by assumption. rewrite length_map. bool_lia (0 <? len E). reflexivity.
Qed.
End WritePath.
