(* ===== verification/PathClaims.v ===== *)
(** * Claims on the shredding of arrays: the paths of a builder, the levels it writes *)

From Stdlib Require Import ZArith List Lia Bool String.
From S2P Require Import Prelude GoStd BitUtil MathUtil Memory BitBlocks BitRunReader DictDecode PathBuilder PathShred PathColumns.
Import ListNotations.
#[local] Open Scope Z_scope.
#[local] Open Scope go_scope.

(** ** Arrays *)

Lemma arrow_ind (P : arrowArray -> Prop) :
  (forall d, P (PrimitiveArr d)) -> (forall d offs nb v, P v -> P (ListArr d offs nb v)) -> (forall d offs nb v, P v -> P (LargeListArr d offs nb v)) ->
  (forall d k nb v, P v -> P (FixedSizeListArr d k nb v)) -> (forall d nested nulls, P (DictionaryArr d nested nulls)) ->
  (forall d fields, Forall (fun f => P (snd f)) fields -> P (StructArr d fields)) -> (forall s, P s -> P (ExtensionArr s)) -> (forall d, P (UnionArr d)) ->
  forall a, P a.
Proof.
  intros H1 H2 H3 H4 H5 H6 H7 H8. fix IH 1. intros a. destruct a as [d|d offs nb v|d offs nb v|d k nb v|d nested nulls|d fields|s|d]; [apply H1|apply H2, IH|apply H3, IH|apply H4, IH|apply H5| |apply H7, IH|apply H8].
  apply H6. induction fields as [|f fields IHf]; constructor; [apply IH|exact IHf].
Qed.

(** The first array that cannot be written. *)
Fixpoint firstError (arr : arrowArray) : option goerr :=
  match arr with
  | PrimitiveArr _ => None
  | ListArr _ _ _ v | LargeListArr _ _ _ v | FixedSizeListArr _ _ _ v | ExtensionArr v => firstError v
  | DictionaryArr _ nested nulls =>
      if nested then Some (ErrMsg "writing DictionaryArray with nested dictionary type not yet supported")
      else if 0 <? nulls then Some (ErrMsg "writing DictionaryArray with null encoded in dictionary not yet supported")
      else None
  | StructArr _ fields => fold_right (fun f acc => match firstError (snd f) with Some e => Some e | None => acc end) None fields
  | UnionArr _ => Some (ErrMsg "union types aren't supported in parquet")
  end.

(** How deep arrays are nested; each adds at most two levels. *)
Fixpoint height (arr : arrowArray) : Z :=
  match arr with
  | PrimitiveArr _ | DictionaryArr _ _ _ | UnionArr _ => 1
  | ListArr _ _ _ v | LargeListArr _ _ _ v | FixedSizeListArr _ _ _ v => 1 + height v
  | StructArr _ fields => 1 + fold_right (fun f acc => Z.max (height (snd f)) acc) 0 fields
  | ExtensionArr v => height v
  end.

(** The offset of a list is within its offsets. *)
Fixpoint offsetsOk (arr : arrowArray) : Prop :=
  match arr with
  | ListArr d offs _ v | LargeListArr d offs _ v => 0 <= ad_offset d <= len offs /\ offsetsOk v
  | FixedSizeListArr _ _ _ v | ExtensionArr v => offsetsOk v
  | StructArr _ fields => fold_right (fun f acc => offsetsOk (snd f) /\ acc) True fields
  | _ => True
  end.

Definition leafNullable (c : column) : bool := (fix go c := match c with CLeaf nb a => negb (lazyNoNulls a) && nb | CStruct _ _ c | CList _ _ _ c => go c end) c.

(** The information on a column's path below [info]. *)
Definition infoBelow (info : pathInfo) (c : column) : pathInfo :=
  fixup (mkPathInfo (pi_path info ++ nodesOf c (pi_maxDefLevel info) (pi_maxRepLevel info)) (ad_len (leafData c)) (pi_maxDefLevel info + maxDef (typeOf c)) (pi_maxRepLevel info + depth (typeOf c)) (leafNullable c)).

Lemma height_pos arr : 1 <= height arr.
Proof.
  induction arr using arrow_ind; cbn [height]; try lia. assert (H0 : 0 <= fold_right (fun f acc => Z.max (height (snd f)) acc) 0 fields) by (induction fields as [|f fields IH]; cbn [fold_right]; [lia|]; inversion H; subst; specialize (IH H3); lia). lia.
Qed.

Lemma setLevels_small info def rep : -1 <= def < 2 ^ 15 -> -1 <= rep < 2 ^ 15 -> PB.setLevels info def rep = mkPathInfo (pi_path info) (pi_leafLen info) def rep (pi_leafIsNullable info).
Proof. intros H1 H2. unfold PB.setLevels. rewrite !wrapS_id by (lia || now apply level_inS). reflexivity. Qed.

(** The levels have room for [h] more arrays. *)
Definition room (info : pathInfo) (h : Z) : Prop := 0 <= pi_maxDefLevel info /\ 0 <= pi_maxRepLevel info /\ pi_maxDefLevel info + 2 * h < 2 ^ 15 /\ pi_maxRepLevel info + h < 2 ^ 15.

Lemma maybeAddNullable_ok info nb a :
  room info 1 -> PB.maybeAddNullable info nb a = mkPathInfo (pi_path info ++ nullNodes nb a (pi_maxDefLevel info)) (pi_leafLen info) (pi_maxDefLevel info + Z.b2z nb) (pi_maxRepLevel info) (pi_leafIsNullable info).
Proof.
  intros (H1 & H2 & H3 & H4). unfold PB.maybeAddNullable, nullNodes. destruct nb; cbn [negb Z.b2z]; [|rewrite app_nil_r, Z.add_0_r; now destruct info]. rewrite setLevels_small by lia. unfold PB.addNode. cbn [pi_path pi_leafLen pi_maxDefLevel pi_maxRepLevel pi_leafIsNullable].
  replace (pi_maxDefLevel info + 1 - 1) with (pi_maxDefLevel info) by lia. destruct (lazyNoNulls a); [now rewrite app_nil_r|]. destruct (lazyAllNulls a); reflexivity.
Qed.

Lemma addTerminalInfo_ok info nb a : room info 1 -> PB.addTerminalInfo info nb a = infoBelow info (CLeaf nb a).
Proof.
  intros (H1 & H2 & H3 & H4). unfold PB.addTerminalInfo, infoBelow, PB.addNode. cbn [nodesOf colNullable typeOf maxDef depth leafData leafNullable]. rewrite Z.add_0_r.
  assert (HS : (if nb then PB.setLevels info (pi_maxDefLevel info + 1) (pi_maxRepLevel info) else info) = mkPathInfo (pi_path info) (pi_leafLen info) (pi_maxDefLevel info + Z.b2z nb) (pi_maxRepLevel info) (pi_leafIsNullable info)).
  { destruct nb; cbn [Z.b2z]; [apply setLevels_small; lia|]. rewrite Z.add_0_r. now destruct info. }
  rewrite HS. destruct (lazyNoNulls a); [reflexivity|]. destruct (lazyAllNulls a); reflexivity.
Qed.

Lemma infoBelow_struct info nb a c : room info 1 -> infoBelow (PB.maybeAddNullable info nb a) c = infoBelow info (CStruct nb a c).
Proof.
  intros HR. rewrite maybeAddNullable_ok by exact HR. unfold infoBelow. cbn [pi_path pi_maxDefLevel pi_maxRepLevel nodesOf colNullable typeOf maxDef depth leafData leafNullable]. rewrite <- app_assoc, Z.add_assoc. reflexivity.
Qed.

Lemma addList_ok info nb a lay c :
  room info 1 -> infoBelow (PB.addList info nb a (selOf lay (ad_offset a)) (match lay with VarLayout _ _ => -1 | FixedLayout _ _ => 0 end)) c = infoBelow info (CList nb a lay c).
Proof.
  intros HR. unfold PB.addList. rewrite maybeAddNullable_ok by exact HR. destruct HR as (H1 & H2 & H3 & H4). assert (0 <= Z.b2z nb <= 1) by (destruct nb; cbn; lia).
  rewrite setLevels_small by (cbn [pi_maxDefLevel pi_maxRepLevel]; lia). unfold PB.addNode, infoBelow. cbn [pi_path pi_leafLen pi_maxDefLevel pi_maxRepLevel pi_leafIsNullable nodesOf colNullable typeOf maxDef depth leafData leafNullable].
  rewrite <- !app_assoc. cbn [app]. replace (pi_maxRepLevel info + 1 - 1) with (pi_maxRepLevel info) by lia. do 2 f_equal; [|lia|lia]. do 3 f_equal. destruct lay; f_equal; lia.
Qed.

Lemma room_list info nb a sel o h : room info (1 + h) -> 0 <= h -> room (PB.addList info nb a sel o) h.
Proof.
  intros HR Hh. unfold PB.addList. rewrite maybeAddNullable_ok by (unfold room in *; lia). destruct HR as (H1 & H2 & H3 & H4). assert (0 <= Z.b2z nb <= 1) by (destruct nb; cbn; lia).
  rewrite setLevels_small by (cbn [pi_maxDefLevel pi_maxRepLevel]; lia). unfold room, PB.addNode. cbn [pi_maxDefLevel pi_maxRepLevel]. lia.
Qed.

Lemma room_struct info nb a h : room info (1 + h) -> 0 <= h -> room (PB.maybeAddNullable info nb a) h.
Proof.
  intros HR Hh. rewrite maybeAddNullable_ok by (unfold room in *; lia). destruct HR as (H1 & H2 & H3 & H4). assert (0 <= Z.b2z nb <= 1) by (destruct nb; cbn; lia). unfold room. cbn [pi_maxDefLevel pi_maxRepLevel]. lia.
Qed.

(** [Visit] gives an error, or one path for each column. *)
Lemma Visit_ok arr : forall info nb, offsetsOk arr -> room info (height arr) ->
  PB.Visit arr info nb = Some (match firstError arr with Some e => inr e | None => inl (map (infoBelow info) (columns nb arr)) end).
Proof.
  induction arr using arrow_ind; intros info nullable HO HR; cbn [PB.Visit firstError columns offsetsOk height] in *.
  - cbn [map]. now rewrite addTerminalInfo_ok.
  - destruct HO as [Ho HO]. pose proof (height_pos arr). rewrite slice_ok by lia. cbn [opt_bind]. rewrite firstn_all2 by (rewrite length_skipn; lia). rewrite IHarr; [|exact HO|apply room_list; [exact HR|lia]].
    destruct (firstError arr); [reflexivity|]. do 2 f_equal. rewrite map_map. apply map_ext. intros c. apply (addList_ok info nullable d (VarLayout false offs) c). unfold room in *. lia.
  - destruct HO as [Ho HO]. pose proof (height_pos arr). rewrite slice_ok by lia. cbn [opt_bind]. rewrite firstn_all2 by (rewrite length_skipn; lia). rewrite IHarr; [|exact HO|apply room_list; [exact HR|lia]].
    destruct (firstError arr); [reflexivity|]. do 2 f_equal. rewrite map_map. apply map_ext. intros c. apply (addList_ok info nullable d (VarLayout true offs) c). unfold room in *. lia.
  - pose proof (height_pos arr). rewrite IHarr; [|exact HO|apply room_list; [exact HR|lia]].
    destruct (firstError arr); [reflexivity|]. do 2 f_equal. rewrite map_map. apply map_ext. intros c. apply (addList_ok info nullable d (FixedLayout (ad_offset d) k) c). unfold room in *. lia.
  - destruct nested; [reflexivity|]. destruct (0 <? nulls); [reflexivity|]. cbn [map]. now rewrite addTerminalInfo_ok.
  - set (info' := PB.maybeAddNullable info nullable d).
    assert (HR1 : room info 1 /\ forall f, In f fields -> room info' (height (snd f))).
    { assert (HF : forall f, In f fields -> height (snd f) <= fold_right (fun f acc => Z.max (height (snd f)) acc) 0 fields) by (clear; induction fields as [|g fields IHf]; intros f Hf; [destruct Hf|]; cbn [fold_right]; destruct Hf as [->|Hf]; [lia|]; specialize (IHf f Hf); lia).
      assert (H0 : 0 <= fold_right (fun f acc => Z.max (height (snd f)) acc) 0 fields) by (clear; induction fields as [|g fields IHf]; cbn [fold_right]; lia).
      split; [unfold room in *; lia|]. intros f Hf. pose proof (height_pos (snd f)). apply room_struct; [|lia]. specialize (HF f Hf). unfold room in *. lia. }
    clear HR. destruct HR1 as [HR1 HRf]. revert H HO HRf. induction fields as [|[fnb f] fields IHf]; intros H HO HRf; [reflexivity|]. inversion H as [|? ? Hf Hfs]; subst. cbn [fold_right snd] in *. destruct HO as [HO1 HO2].
    rewrite Hf; [|exact HO1|apply (HRf (fnb, f)); now left]. cbn [opt_bind]. destruct (firstError f); [reflexivity|]. rewrite IHf; [|exact Hfs|exact HO2|intros g Hg; apply HRf; now right]. cbn [opt_bind].
    destruct (fold_right _ None fields); [reflexivity|]. do 2 f_equal. cbn [flat_map fst snd]. rewrite map_app, map_map. f_equal. apply map_ext. intros c. now apply infoBelow_struct.
  - now apply IHarr.
  - reflexivity.
Qed.

(** ** The builder *)

Definition rootInfo : pathInfo := mkPathInfo [] 0 0 0 false.

(** A column's path, as the builder keeps it; the readers of the nodes are left by the last call. *)
Definition pathFor (c : column) (p : pathInfo) : Prop :=
  let t := typeOf c in
  map eraseReader (pi_path p) = pathOf c 0 0 (depth t) /\ pi_leafLen p = ad_len (leafData c) /\ pi_maxDefLevel p = maxDef t /\ pi_maxRepLevel p = depth t /\ pi_leafIsNullable p = leafNullable c.

Definition builderFor (arr : arrowArray) (nullable : bool) (m : multipathLevelBuilder) : Prop :=
  mb_rootRange m = mkER 0 (ad_len (dataOf arr)) /\ Forall2 pathFor (columns nullable arr) (mb_paths m).

Lemma erase_nulls nb a d r : map eraseReader (nullNodesAt nb a d r) = nullNodesAt nb a d r.
Proof. unfold nullNodesAt. destruct (negb nb), (lazyNoNulls a), (lazyAllNulls a); reflexivity. Qed.

Lemma erase_pathOf c : forall d k M, k + depth (typeOf c) = M -> map eraseReader (pathOf c d k M) = pathOf c d k M.
Proof.
  induction c as [nb a|nb a c IH|nb a lay c IH]; intros d k M HM; cbn [typeOf depth] in HM.
  - cbn [pathOf]. destruct (lazyNoNulls a), (lazyAllNulls a); reflexivity.
  - rewrite pathOf_struct, map_app, erase_nulls, IH by exact HM. reflexivity.
  - pose proof (depth_nonneg (typeOf c)). rewrite pathOf_list, map_app, erase_nulls by lia. cbn [map eraseReader]. rewrite IH by lia. reflexivity.
Qed.

(** Without lists [fixup] has nothing to do. *)
Lemma depth0_pathOf c : forall d k M, k + depth (typeOf c) = M -> depth (typeOf c) = 0 -> nodesOf c d k = pathOf c d k M.
Proof.
  induction c as [nb a|nb a c IH|nb a lay c IH]; intros d k M HM HD; cbn [typeOf depth nodesOf pathOf colNullable] in *; unfold repIfNull; rewrite ?(proj2 (Z.ltb_ge k M)) by lia.
  - destruct (lazyNoNulls a), (lazyAllNulls a); reflexivity.
  - now rewrite (IH _ k M).
  - pose proof (depth_nonneg (typeOf c)). lia.
Qed.

Lemma pathFor_root c : pathFor c (infoBelow rootInfo c).
Proof.
  pose proof (depth_nonneg (typeOf c)) as Hd. assert (HE : map eraseReader (pi_path (infoBelow rootInfo c)) = pathOf c 0 0 (depth (typeOf c))).
  { rewrite <- (erase_pathOf c 0 0) by lia. f_equal. unfold infoBelow, fixup. cbn [rootInfo pi_path pi_leafLen pi_maxDefLevel pi_maxRepLevel pi_leafIsNullable app Z.add].
    destruct (Z.eqb_spec (depth (typeOf c)) 0) as [He|He]; [now apply depth0_pathOf|]. cbn [pi_path]. rewrite <- fixup_pathOf by lia. reflexivity. }
  unfold pathFor. split; [exact HE|]. unfold infoBelow, fixup. cbn [rootInfo pi_path pi_leafLen pi_maxDefLevel pi_maxRepLevel pi_leafIsNullable app Z.add]. destruct (depth (typeOf c) =? 0); auto.
Qed.

Lemma columns_len arr : forall nb c, In c (columns nb arr) -> colLen c = ad_len (dataOf arr).
Proof.
  induction arr using arrow_ind; intros nullable c Hc; cbn [columns dataOf] in *; try (destruct Hc as [<-|[]]; reflexivity); try (apply in_map_iff in Hc as (c' & <- & _); reflexivity); [|eauto|destruct Hc].
  apply in_flat_map in Hc as (f & _ & Hc). apply in_map_iff in Hc as (c' & <- & _). reflexivity.
Qed.

Lemma column_levels arr : forall nb c, In c (columns nb arr) -> maxDef (typeOf c) <= 2 * height arr /\ depth (typeOf c) <= height arr.
Proof.
  assert (Hb : forall b, 0 <= Z.b2z b <= 1) by (intros []; cbn; lia).
  assert (Hlist : forall v nb enb d lay c, (forall nb c, In c (columns nb v) -> maxDef (typeOf c) <= 2 * height v /\ depth (typeOf c) <= height v) -> In c (map (CList nb d lay) (columns enb v)) -> maxDef (typeOf c) <= 2 * (1 + height v) /\ depth (typeOf c) <= 1 + height v).
  { intros v nb enb d lay c IH Hc. apply in_map_iff in Hc as (c' & <- & Hc). apply IH in Hc. cbn [typeOf maxDef depth]. specialize (Hb nb). lia. }
  induction arr using arrow_ind; intros nullable c Hc; cbn [columns height] in *; try (destruct Hc as [<-|[]]; cbn [typeOf maxDef depth]; specialize (Hb nullable); lia); try (eapply Hlist; eassumption); [|eauto|destruct Hc].
  apply in_flat_map in Hc as (f & Hf & Hc). apply in_map_iff in Hc as (c' & <- & Hc). rewrite Forall_forall in H. apply (H f Hf) in Hc. cbn [typeOf maxDef depth]. specialize (Hb nullable).
  assert (height (snd f) <= fold_right (fun f acc => Z.max (height (snd f)) acc) 0 fields); [|lia]. clear - Hf. induction fields as [|g fields IHf]; [destruct Hf|]. cbn [fold_right]. destruct Hf as [->|Hf]; [lia|]. specialize (IHf Hf). lia.
Qed.

(** ** Writing *)

(** The levels a result should have. *)
Definition levelsFor (c : column) (res : multipathLevelResult) : Prop :=
  let E := columnEntries c in
  ml_defLevels res = (if maxDef (typeOf c) =? 0 then [] else map (fun x => snd (fst x)) E) /\
  ml_repLevels res = (if depth (typeOf c) =? 0 then None else Some (map (fun x => fst (fst x)) E)) /\
  flatRanges (ml_postListVisitedElems res) = slots E /\ ml_leafIsNullable res = leafNullable c.

(** A column that can be written. *)
Definition columnReady (c : column) : Prop := columnOk c /\ (forall i, 0 <= i < colLen c -> conforms c i) /\ len (columnEntries c) + 1 < 2 ^ 60.

Lemma column_entries c : columnOk c -> plainFixed c -> (forall i, 0 <= i < colLen c -> conforms c i) ->
  let p := pathOf c 0 0 (depth (typeOf c)) in
  map fst (columnEntries c) = entries p None 0 0 (colLen c) /\ slots (columnEntries c) = if depth (typeOf c) =? 0 then zrange 0 (colLen c) else flat_map (visits p) (zrange 0 (colLen c)).
Proof.
  intros HC HPl HF p. unfold columnEntries. cbn [entries].
  assert (HI : forall i, In i (zrange 0 (colLen c)) -> let E := dremel (typeOf c) 0 0 0 (valueOf c i) in map fst E = shred p 0 i /\ slots E = if depth (typeOf c) =? 0 then [i] else visits p i).
  { intros i Hi. apply in_zrange in Hi. apply (pathOf_shred c 0 0 (depth (typeOf c)) 0 i); auto. }
  split; [rewrite map_flat_map; apply flat_map_ext_in; intros i Hi; apply (HI i Hi)|]. rewrite slots_flat_map. destruct (depth (typeOf c) =? 0).
  - rewrite (flat_map_ext_in _ (fun i => [i])); [|intros i Hi; apply (HI i Hi)]. induction (zrange 0 (colLen c)) as [|i l IHl]; [reflexivity|]. cbn [flat_map app]. f_equal. apply IHl. intros j Hj. apply HI. now right.
  - apply flat_map_ext_in. intros i Hi. apply (HI i Hi).
Qed.

Lemma depth0_leaf c : columnOk c -> depth (typeOf c) = 0 -> ad_len (leafData c) = colLen c.
Proof.
  induction c as [nb a|nb a c IH|nb a lay c IH]; intros [HD HC] H0; cbn [typeOf depth leafData] in *; [reflexivity| |pose proof (depth_nonneg (typeOf c)); lia].
  destruct HC as [HL HC]. rewrite IH by auto. exact HL.
Qed.

Lemma maxDef0_depth t : maxDef t = 0 -> depth t = 0.
Proof. induction t as [nb|nb t IH|nb t IH]; cbn [maxDef depth]; intros H; [reflexivity| |]; pose proof (maxDef_nonneg t); assert (0 <= Z.b2z nb <= 1) by (destruct nb; cbn; lia); [apply IH; lia|lia]. Qed.

Lemma columnLen_nonneg c : columnOk c -> 0 <= colLen c.
Proof. destruct c; intros [[H _] _]; exact H. Qed.

Lemma withPath_id p : withPath p (pi_path p) = p.
Proof. now destruct p. Qed.

Lemma writePath_column f1 f2 c p :
  poolOk f1 -> poolOk f2 -> pathFor c p -> columnReady c -> plainFixed c -> 0 < colLen c -> maxDef (typeOf c) < 2 ^ 15 -> depth (typeOf c) < 2 ^ 15 ->
  exists N, forall fuel, (N <= fuel)%nat -> exists path' res, writePath fuel f1 f2 (mkER 0 (colLen c)) p = Some (path', res) /\ levelsFor c res /\ pathFor c (withPath p path').
Proof.
  intros Hf1 Hf2 (HE & HL & HM & HD & HN) (HC & HF & HB) HPl Hpos Hm Hd. pose proof (maxDef_nonneg (typeOf c)) as Hm0. pose proof (depth_nonneg (typeOf c)) as Hdp. destruct (column_entries c HC HPl HF) as [E1 E2]. set (path := pathOf c 0 0 (depth (typeOf c))) in *.
  assert (HPF : pathFits path (colLen c)) by (apply pathOf_fits; auto; lia). assert (HLE : len (columnEntries c) = len (entries path None 0 0 (colLen c))) by (rewrite <- E1; symmetry; f_equal; apply length_map).
  assert (Hdefs : map snd (entries path None 0 0 (colLen c)) = map (fun x => snd (fst x)) (columnEntries c)) by (rewrite <- E1, map_map; reflexivity).
  assert (Hreps : map fst (entries path None 0 0 (colLen c)) = map (fun x => fst (fst x)) (columnEntries c)) by (rewrite <- E1, map_map; reflexivity).
  assert (Hkeep : forall path', map eraseReader path' = path -> pathFor c (withPath p path')) by (intros path' Hp; red; unfold withPath; cbn [pi_path pi_leafLen pi_maxDefLevel pi_maxRepLevel pi_leafIsNullable]; auto).
  destruct (Z.eq_dec (maxDef (typeOf c)) 0) as [H0|Hne].
  - pose proof (maxDef0_depth _ H0) as Hd0. exists O. intros fuel _. exists (pi_path p), (mkLevels [] None [mkER 0 (pi_leafLen p)] (pi_leafIsNullable p)). split; [unfold writePath; rewrite HM, H0; reflexivity|]. split; [|rewrite withPath_id; red; auto].
    unfold levelsFor. rewrite H0, Hd0, E2, Hd0. cbn [Z.eqb ml_defLevels ml_repLevels ml_postListVisitedElems ml_leafIsNullable flatRanges flat_map er_start er_end]. rewrite app_nil_r, HL, depth0_leaf by assumption. auto.
  - set (info := withPath p path). assert (Hi : withPath info (pi_path p) = p) by (unfold info, withPath; cbn; now destruct p).
    assert (Hkey : exists N res, levelsFor c res /\ forall fuel, (N <= fuel)%nat -> exists path', map eraseReader path' = path /\ writePath fuel f1 f2 (mkER 0 (colLen c)) (withPath info (pi_path p)) = Some (path', res)).
    { pose proof (pathOf_shape c 0 0 (depth (typeOf c)) ltac:(lia) ltac:(lia)) as HS. fold path in HS. unfold levelsFor. bool_lia (maxDef (typeOf c) =? 0). rewrite E2. destruct (Z.eqb_spec (depth (typeOf c)) 0) as [Hd0|Hdn].
      - destruct (writePath_flat f1 f2 info (pi_path p) (colLen c) Hf1 Hf2 HE HPF ltac:(lia) ltac:(cbn; lia) HS) as (N & HNf); [pose proof (entries_len path (colLen c) None 0 0 (colLen c) HPF ltac:(lia)); lia|].
        exists N. eexists. split; [|exact HNf]. cbn [ml_defLevels ml_repLevels ml_postListVisitedElems ml_leafIsNullable info withPath pi_path pi_leafLen pi_leafIsNullable flatRanges flat_map er_start er_end]. rewrite app_nil_r, HL, depth0_leaf by assumption. auto.
      - destruct (writePath_nested f1 f2 info (pi_path p) (colLen c) Hf1 Hf2 HE HPF ltac:(lia) ltac:(cbn; lia) HS Hpos ltac:(cbn [info withPath pi_path]; lia)) as (N & vis & Hvis & HNf).
        exists N. eexists. split; [|exact HNf]. cbn [ml_defLevels ml_repLevels ml_postListVisitedElems ml_leafIsNullable info withPath pi_path pi_leafIsNullable] in *. rewrite Hdefs, Hreps. auto. }
    destruct Hkey as (N & res & HLv & HW). exists N. intros fuel Hfu. destruct (HW fuel Hfu) as (path' & Hp & HEq). exists path', res. rewrite Hi in HEq. auto.
Qed.

Definition poolsOk (pool : Z -> Buffer.t * Buffer.t) : Prop := forall i, poolOk (fst (pool i)) /\ poolOk (snd (pool i)).

Lemma writeFrom_ok pool n : poolsOk pool -> 0 < n ->
  forall cols paths k, Forall2 pathFor cols paths -> Forall (fun c => (columnReady c /\ plainFixed c) /\ colLen c = n /\ maxDef (typeOf c) < 2 ^ 15 /\ depth (typeOf c) < 2 ^ 15) cols ->
  exists N, forall fuel, (N <= fuel)%nat -> forall pre, len pre = k -> exists paths' results,
    MB.writeFrom fuel (List.length paths) pool (mkMB (mkER 0 n) (pre ++ paths)) k = Some (mkMB (mkER 0 n) (pre ++ paths'), results) /\ Forall2 levelsFor cols results /\ Forall2 pathFor cols paths'.
Proof.
  intros HPool Hn cols paths k HF. revert k. induction HF as [|c p cols paths Hp HF IH]; intros k HR.
  - exists O. intros fuel _ pre _. exists [], []. auto.
  - inversion HR as [|? ? ((Hc & Hpl) & Hl & Hm & Hd) HR']; subst. destruct (HPool k) as [Hf1 Hf2]. destruct (writePath_column _ _ c p Hf1 Hf2 Hp Hc Hpl ltac:(lia) Hm Hd) as [N1 HW].
    destruct (IH (k + 1) HR') as [N2 HN2]. exists (Nat.max N1 N2). intros fuel Hfu pre Hpre. destruct (HW fuel ltac:(lia)) as (path' & res & HE & HLv & Hp'). set (p' := withPath p path') in *.
    destruct (HN2 fuel ltac:(lia) (pre ++ [p'])) as (paths' & results & HE2 & HL2 & HP2); [rewrite length_app; cbn [List.length]; lia|].
    exists (p' :: paths'), (res :: results). rewrite <- !app_assoc in HE2. cbn [app] in HE2. split; [|auto]. cbn [List.length MB.writeFrom]. unfold MB.write. cbn [mb_paths mb_rootRange]. rewrite <- Hpre, index_split. cbn [opt_bind]. rewrite Hpre, HE. cbn [opt_bind].
    rewrite <- Hpre, store_split. cbn [opt_bind]. fold (withPath p path'). fold p'. rewrite Hpre, HE2. reflexivity.
Qed.

(** ** Checking arrays *)

Definition onRange (s e : Z) (f : Z -> bool) : bool := forallb f (zrange s e).

Lemma onRange_ok s e f : onRange s e f = true -> forall i, s <= i < e -> f i = true.
Proof. unfold onRange. rewrite forallb_forall. intros H i Hi. apply H, in_zrange, Hi. Qed.

Definition bitmapFitsb (bm : list Z) (off n : Z) : bool := forallb (fun b => (0 <=? b) && (b <? 256)) bm && (8 * len bm <? 2 ^ 63 - 7) && (0 <=? off) && (off + n <=? 8 * len bm).

Definition dataOkb (d : arrayData) : bool :=
  (0 <=? ad_len d) && (0 <=? ad_offset d) &&
  match ad_bitmap d, ad_nullN d with
  | Some bm, Some c => bitmapFitsb bm (ad_offset d) (ad_len d) && ((negb (c =? 0) || onRange 0 (ad_len d) (validAt d)) && (negb (c =? ad_len d) || onRange 0 (ad_len d) (fun i => negb (validAt d i))))
  | Some bm, None => bitmapFitsb bm (ad_offset d) (ad_len d)
  | None, Some c => (c =? 0) || (c =? ad_len d)
  | None, None => true
  end.

Definition layoutOkb (lay : listLayout) (off n m : Z) : bool :=
  match lay with
  | VarLayout _ offs =>
      (off <=? len offs) && ((n <=? 0) || (off + n <? len offs) && (0 <=? nth (Z.to_nat off) offs 0) && onRange off (off + n) (fun i => nth (Z.to_nat i) offs 0 <=? nth (Z.to_nat (i + 1)) offs 0) && (nth (Z.to_nat (off + n)) offs 0 <=? m))
  | FixedLayout first k => (0 <=? first) && (0 <=? k) && ((first + n) * k <=? m)
  end.

Fixpoint columnOkb (c : column) : bool :=
  dataOkb (colData c) &&
  match c with
  | CLeaf _ _ => true
  | CStruct _ d c => (colLen c =? ad_len d) && columnOkb c
  | CList _ d lay c => layoutOkb lay (ad_offset d) (ad_len d) (colLen c) && columnOkb c
  end.

Fixpoint conformsb (c : column) (i : Z) : bool :=
  (colNullable c || validAt (colData c) i) &&
  match c with
  | CLeaf _ _ => true
  | CStruct _ d c => negb (validAt d i) || conformsb c i
  | CList _ d lay c => negb (validAt d i) || onRange (fst (elemsOf d lay i)) (snd (elemsOf d lay i)) (conformsb c)
  end.

Definition columnReadyb (c : column) : bool := columnOkb c && onRange 0 (colLen c) (conformsb c) && (len (columnEntries c) + 1 <? 2 ^ 60).

Ltac bools := repeat match goal with
  | H : _ && _ = true |- _ => apply andb_true_iff in H as [? ?]
  | H : (_ <=? _) = true |- _ => apply Z.leb_le in H
  | H : (_ <? _) = true |- _ => apply Z.ltb_lt in H
  | H : (_ =? _) = true |- _ => apply Z.eqb_eq in H
  end.

Lemma bitmapFitsb_ok bm off n : bitmapFitsb bm off n = true -> bitmapFits bm off n.
Proof.
  unfold bitmapFitsb, bitmapFits. intros H. bools. splits; auto. apply Forall_forall. intros b Hb. rewrite forallb_forall in H. specialize (H b Hb). cbn beta in H. bools. red. lia.
Qed.

Lemma dataOkb_ok d : dataOkb d = true -> dataOk d.
Proof.
  unfold dataOkb, dataOk. intros H. bools. split; [assumption|]. split; [assumption|]. destruct (ad_bitmap d) as [bm|], (ad_nullN d) as [c|]; bools; auto.
  - split; [now apply bitmapFitsb_ok|]. intros c' [= <-]. split; intros -> i Hi.
    + rewrite Z.eqb_refl in *. cbn [negb orb] in *. now apply (onRange_ok 0 (ad_len d)).
    + rewrite Z.eqb_refl in *. cbn [negb orb] in *. apply negb_true_iff. now apply (onRange_ok 0 (ad_len d) (fun i => negb (validAt d i))).
  - split; [now apply bitmapFitsb_ok|]. intros c' [=].
  - apply orb_true_iff in H0 as [|]; bools; auto.
Qed.

Lemma layoutOkb_ok lay off n m : layoutOkb lay off n m = true -> layoutOk lay off n m.
Proof.
  destruct lay as [large offs|b k]; cbn [layoutOkb layoutOk]; intros H; bools; [|auto]. split; [assumption|]. intros Hn. apply orb_true_iff in H0 as [|]; bools; [lia|]. splits; auto.
  intros i Hi. apply Z.leb_le. now apply (onRange_ok off (off + n) (fun i => nth (Z.to_nat i) offs 0 <=? nth (Z.to_nat (i + 1)) offs 0)).
Qed.

Lemma columnOkb_ok c : columnOkb c = true -> columnOk c.
Proof.
  induction c as [nb a|nb a c IH|nb a lay c IH]; cbn [columnOkb columnOk]; intros H; bools; split; auto using dataOkb_ok, layoutOkb_ok.
Qed.

Lemma conformsb_ok c : forall i, conformsb c i = true -> conforms c i.
Proof.
  induction c as [nb a|nb a c IH|nb a lay c IH]; intros i; cbn [conformsb conforms]; intros H; bools; (split; [now apply orb_true_iff|]); auto.
  - intros Hv. rewrite Hv in *. auto.
  - intros Hv j Hj. rewrite Hv in *. cbn [negb orb] in *. apply IH. now apply (onRange_ok _ _ (conformsb c) H0).
Qed.

(** A column that passes the check can be written. *)
Lemma columnReadyb_ok c : columnReadyb c = true -> columnReady c.
Proof.
  unfold columnReadyb. intros H. bools. split; [now apply columnOkb_ok|]. split; [|assumption]. intros i Hi. apply conformsb_ok. now apply (onRange_ok 0 (colLen c) (conformsb c)).
Qed.

Lemma columnsReadyb_ok cs : forallb columnReadyb cs = true -> Forall columnReady cs.
Proof. rewrite forallb_forall. intros H. apply Forall_forall. intros c Hc. apply columnReadyb_ok, H, Hc. Qed.

(** ** All leaves *)

(** What a builder writes are the columns with the lists of a fixed size taken from the start of the
    child, whatever the offset of their array. *)
Definition layoutWritten (lay : listLayout) : listLayout := match lay with VarLayout large offs => VarLayout large offs | FixedLayout _ k => FixedLayout 0 k end.

Fixpoint written (c : column) : column :=
  match c with CLeaf nb d => CLeaf nb d | CStruct nb d c => CStruct nb d (written c) | CList nb d lay c => CList nb d (layoutWritten lay) (written c) end.

Lemma written_plain c : plainFixed c -> written c = c.
Proof.
  induction c as [nb a|nb a c IH|nb a lay c IH]; cbn [plainFixed written]; [reflexivity|intros H; now rewrite IH|].
  intros [HL HP]. rewrite IH by exact HP. destruct lay as [|b k]; [reflexivity|]. cbn [plainLayout layoutWritten] in *. now destruct HL as [-> _].
Qed.

Lemma written_data c : typeOf (written c) = typeOf c /\ colData (written c) = colData c /\ colNullable (written c) = colNullable c /\ leafData (written c) = leafData c /\ leafNullable (written c) = leafNullable c.
Proof. induction c as [nb a|nb a c IH|nb a lay c IH]; cbn [written typeOf colData colNullable leafData leafNullable]; splits; auto; try (f_equal; apply IH); apply IH. Qed.

Lemma written_pathOf c : forall d k M, pathOf (written c) d k M = pathOf c d k M.
Proof.
  induction c as [nb a|nb a c IH|nb a lay c IH]; intros d k M; cbn [written pathOf colNullable]; rewrite ?IH; [reflexivity|reflexivity|]. destruct lay; reflexivity.
Qed.

Lemma written_pathFor c p : pathFor c p -> pathFor (written c) p.
Proof. unfold pathFor. rewrite written_pathOf. destruct (written_data c) as (-> & _ & _ & -> & ->). auto. Qed.

Lemma written_paths cols paths : Forall2 pathFor cols paths -> Forall2 pathFor (map written cols) paths.
Proof. induction 1; cbn [map]; constructor; auto using written_pathFor. Qed.

Definition writable (c : column) : Prop := columnReady (written c) /\ plainFixed (written c).

Lemma levels_written cols results : Forall2 levelsFor (map written cols) results -> Forall2 (fun c => levelsFor (written c)) cols results.
Proof. revert results. induction cols as [|c cols IH]; intros results HF; inversion HF; subst; constructor; auto. Qed.

(** [writeAll]: the levels of every column as it is written. *)
Lemma writeAll_written arr nullable m pool :
  builderFor arr nullable m -> poolsOk pool -> 0 < ad_len (dataOf arr) -> 2 * height arr < 2 ^ 15 -> Forall writable (columns nullable arr) ->
  exists N, forall fuel, (N <= fuel)%nat -> exists m' results, MB.writeAll fuel pool m = Some (m', results) /\ Forall2 (fun c => levelsFor (written c)) (columns nullable arr) results /\
    mb_rootRange m' = mb_rootRange m /\ Forall2 pathFor (map written (columns nullable arr)) (mb_paths m').
Proof.
  intros [HR HF] HP Hn HH HC. destruct m as [rng paths]. cbn [mb_rootRange mb_paths] in *. subst rng. destruct (writeFrom_ok pool (ad_len (dataOf arr)) HP Hn (map written (columns nullable arr)) paths 0 (written_paths _ _ HF)) as [N HN].
  - apply Forall_map, Forall_forall. intros c Hc. rewrite Forall_forall in HC. destruct (column_levels arr nullable c Hc). pose proof (height_pos arr). unfold colLen. destruct (written_data c) as (-> & -> & _). split; [exact (HC c Hc)|]. split; [now apply (columns_len arr nullable)|]. split; lia.
  - exists N. intros fuel Hfu. destruct (HN fuel Hfu [] eq_refl) as (paths' & results & HE & HL & HP'). exists (mkMB (mkER 0 (ad_len (dataOf arr))) paths'), results. unfold MB.writeAll, MB.leafCount. cbn [mb_paths mb_rootRange]. rewrite Nat2Z.id. auto using levels_written.
Qed.

(** The lists of a fixed size start at the first element of the child, and the builder is as
    before. *)
Lemma writeAll_ok arr nullable m pool :
  builderFor arr nullable m -> poolsOk pool -> 0 < ad_len (dataOf arr) -> 2 * height arr < 2 ^ 15 -> Forall columnReady (columns nullable arr) -> Forall plainFixed (columns nullable arr) ->
  exists N, forall fuel, (N <= fuel)%nat -> exists m' results, MB.writeAll fuel pool m = Some (m', results) /\ Forall2 levelsFor (columns nullable arr) results /\ builderFor arr nullable m'.
Proof.
  intros HB HP Hn HH HC HPl. assert (HW : map written (columns nullable arr) = columns nullable arr) by (rewrite <- (map_id (columns nullable arr)) at 2; apply map_ext_in; intros c Hc; apply written_plain; rewrite Forall_forall in HPl; auto).
  destruct (writeAll_written arr nullable m pool HB HP Hn HH) as [N HN]; [apply Forall_forall; intros c Hc; rewrite Forall_forall in HC, HPl; unfold writable; rewrite written_plain by auto; auto|].
  exists N. intros fuel Hf. destruct (HN fuel Hf) as (m' & results & HE & HL & HR & HP'). exists m', results. split; [exact HE|]. split.
  - clear - HL HPl. induction HL as [|c res cols results Hc HL IH]; constructor; inversion HPl; subst; [now rewrite written_plain in Hc|auto].
  - split; [rewrite HR; apply HB|now rewrite HW in HP'].
Qed.

(** ** Claims *)

(** C20: [newMultipathLevelBuilder] on any array whose lists have their offset within the offsets:
    the error of the first union or unsupported dictionary in the order of the fields, or a
    builder with one path for each leaf, whose nodes, levels and leaf are those of the leaf's
    column. *)
Theorem builder_paths arr nullable :
  offsetsOk arr -> 2 * height arr < 2 ^ 15 ->
  match firstError arr with
  | Some e => MB.newMultipathLevelBuilder arr nullable = Some (inr e)
  | None => exists m, MB.newMultipathLevelBuilder arr nullable = Some (inl m) /\ builderFor arr nullable m
  end.
Proof.
  intros HO HH. unfold MB.newMultipathLevelBuilder. fold rootInfo. pose proof (height_pos arr). rewrite Visit_ok by (auto; unfold room; cbn [rootInfo pi_maxDefLevel pi_maxRepLevel]; lia). destruct (firstError arr); [reflexivity|]. cbn [opt_bind].
  eexists. split; [reflexivity|]. split; [reflexivity|]. cbn [mb_paths]. induction (columns nullable arr); constructor; [apply pathFor_root|assumption].
Qed.

(** C4: [writeAll] of a builder for an array with at least one row that is as it should be (bitmaps
    and offsets cover it, offsets are in order, fields that are not nullable have no nulls;
    [columnReady]): for each leaf the definition
    levels, the repetition levels and the positions of the leaf's array are those the definition
    of the levels gives to the logical values of the rows, whatever lists, structs and nulls are
    above it, as long as lists of a fixed size have at least one element and are not sliced
    ([plainFixed]; slices of them are written wrongly); the builder is left ready to write
    again. *)
Theorem shred_levels arr nullable m pool :
  builderFor arr nullable m -> poolsOk pool -> 0 < ad_len (dataOf arr) -> 2 * height arr < 2 ^ 15 -> Forall columnReady (columns nullable arr) -> Forall plainFixed (columns nullable arr) ->
  exists N, forall fuel, (N <= fuel)%nat -> exists m' results, MB.writeAll fuel pool m = Some (m', results) /\ Forall2 levelsFor (columns nullable arr) results /\ builderFor arr nullable m'.
Proof. intros. now apply (writeAll_ok arr nullable m pool). Qed.

(** A row group of a struct with a nullable field, a list of lists and a list of a fixed size, cut
    out of a larger one: rows [[[0, 1], [], null]], [null], [[[2, 3, 4]]] of the list of lists,
    where element 2 is null. *)
Definition exArray : arrowArray :=
  StructArr (mkAD 3 1 None (Some [14]))
    [(true, PrimitiveArr (mkAD 3 1 (Some 3) (Some [1])));
     (true, ListArr (mkAD 3 1 None (Some [11])) [0; 0; 3; 3; 4] true
        (ListArr (mkAD 4 0 (Some 1) (Some [11])) [0; 2; 2; 2; 5] true (PrimitiveArr (mkAD 5 0 (Some 1) (Some [27])))));
     (true, FixedSizeListArr (mkAD 3 0 (Some 1) (Some [6])) 2 false (PrimitiveArr (mkAD 6 0 (Some 0) None)))].

Definition exPools : Z -> Buffer.t * Buffer.t := fun _ => (Buffer.NewResizableBuffer, Buffer.NewResizableBuffer).

Lemma exPools_ok : poolsOk exPools.
Proof. intros i. split; (split; [split; constructor|reflexivity]). Qed.

Lemma exArray_ready : Forall columnReady (columns true exArray).
Proof. apply columnsReadyb_ok. vm_compute. reflexivity. Qed.

Lemma exArray_plain : Forall plainFixed (columns true exArray).
Proof. repeat constructor; lia. Qed.

(** The levels of the example. *)
Example ex_levels :
  (r <- MB.newMultipathLevelBuilder exArray true ;; match r with inl m => r <- MB.writeAll 100 exPools m ;; Some (map (fun l => (ml_defLevels l, ml_repLevels l, ml_postListVisitedElems l)) (snd r)) | inr _ => None end)
  = Some [([1; 1; 1], None, [mkER 0 3]); ([6; 6; 4; 3; 1; 5; 6; 6], Some [0; 2; 1; 1; 0; 0; 2; 2], [mkER 0 5]);
          ([1; 3; 3; 3; 3], Some [0; 0; 1; 0; 1], [mkER 2 6])].
Proof. vm_compute. reflexivity. Qed.

Lemma builder_paths_witness : exists m, MB.newMultipathLevelBuilder exArray true = Some (inl m) /\ builderFor exArray true m.
Proof. apply (builder_paths exArray true); [cbn; lia|reflexivity]. Defined.


Lemma shred_levels_witness : exists m, builderFor exArray true m /\
  exists N, forall fuel, (N <= fuel)%nat -> exists m' results, MB.writeAll fuel exPools m = Some (m', results) /\ Forall2 levelsFor (columns true exArray) results /\ builderFor exArray true m'.
Proof.
  exists (mkMB (mkER 0 3) (map (infoBelow rootInfo) (columns true exArray))). assert (HB : builderFor exArray true (mkMB (mkER 0 3) (map (infoBelow rootInfo) (columns true exArray)))).
  { split; [reflexivity|]. cbn [mb_paths]. induction (columns true exArray); constructor; [apply pathFor_root|assumption]. }
  split; [exact HB|]. apply (shred_levels exArray true _ exPools HB exPools_ok); [reflexivity|reflexivity|exact exArray_ready|exact exArray_plain].
Defined.

(** ** Lists of a fixed size with an offset *)

Lemma fixed_slots d first k lnb v i : validAt d i = true -> 0 < k ->
  slots (dremel (TList false (TLeaf lnb)) 0 0 0 (valueOf (CList false d (FixedLayout first k) (CLeaf lnb v)) i)) = zrange ((first + i) * k) ((first + (i + 1)) * k).
Proof.
  intros Hv Hk. cbn [valueOf colData]. rewrite Hv. cbn [negb]. unfold elemsOf. cbn [ValueOffsets]. unfold FixedValueOffsets. cbn [er_start er_end]. rewrite dremel_list. cbn zeta.
  assert (Hlt : (first + i) * k < (first + (i + 1)) * k) by nia. apply Z.ltb_lt in Hlt as ->.
  rewrite entrySlots_app, slots_flat_map, (zrange_cons ((first + i) * k)) by nia. change (?x :: ?l) with ([x] ++ l). f_equal.
  - cbn [valueOf colData]. destruct (validAt v _); reflexivity.
  - induction (zrange _ _) as [|j l IH]; [reflexivity|]. cbn [flat_map]. rewrite IH. cbn [valueOf colData]. destruct (validAt v j); reflexivity.
Qed.

Lemma slots_nullable nb d first k lnb v i : validAt d i = true ->
  slots (dremel (TList nb (TLeaf lnb)) 0 0 0 (valueOf (CList nb d (FixedLayout first k) (CLeaf lnb v)) i)) = slots (dremel (TList false (TLeaf lnb)) 0 0 0 (valueOf (CList false d (FixedLayout first k) (CLeaf lnb v)) i)).
Proof.
  intros Hv. cbn [valueOf colData]. rewrite Hv. cbn [negb]. unfold elemsOf. cbn [ValueOffsets]. unfold FixedValueOffsets. cbn [er_start er_end]. rewrite !dremel_list. cbn zeta. destruct (_ <? _); [|reflexivity]. rewrite !entrySlots_app, !slots_flat_map. f_equal; [|apply flat_map_ext; intros j]; cbn [valueOf colData]; destruct (validAt v _); reflexivity.
Qed.

(** The positions that the rows of an array of lists of a fixed size take up in the child, where no
    list is null. *)
Lemma fixed_entries nb d first k lnb v : 0 <= first -> 0 < k -> 0 <= ad_len d -> (forall i, 0 <= i < ad_len d -> validAt d i = true) ->
  slots (columnEntries (CList nb d (FixedLayout first k) (CLeaf lnb v))) = zrange (first * k) ((first + ad_len d) * k).
Proof.
  intros Hf Hk Hn Hv. unfold columnEntries, colLen. cbn [colData typeOf]. rewrite slots_flat_map.
  rewrite (flat_map_ext_in _ (fun i => zrange ((first + i) * k) ((first + (i + 1)) * k))) by (intros i Hi; apply in_zrange in Hi; rewrite slots_nullable by auto; apply fixed_slots; auto).
  clear Hv. rewrite <- (Z2Nat.id (ad_len d)) by exact Hn. induction (Z.to_nat (ad_len d)) as [|n IH]; [change (Z.of_nat 0) with 0; now rewrite Z.add_0_r, !zrange_nil|].
  rewrite (zrange_app 0 (Z.of_nat n)) by lia. rewrite flat_map_app, IH. rewrite (zrange_cons (Z.of_nat n)) by lia. replace (Z.of_nat n + 1) with (Z.of_nat (S n)) by lia. rewrite zrange_nil. cbn [flat_map]. rewrite app_nil_r. replace (Z.of_nat n + 1) with (Z.of_nat (S n)) by lia. symmetry. apply zrange_app. nia.
Qed.

(** An array of lists of a fixed size over a leaf, that starts [first] lists into the child and has
    no null list: what is written are the first elements of the child, its rows are the elements
    after [first] lists. *)
Definition takenFromStart (c : column) (res : multipathLevelResult) : Prop :=
  forall nb d first k lnb v, c = CList nb d (FixedLayout first k) (CLeaf lnb v) -> (forall i, 0 <= i < ad_len d -> validAt d i = true) -> 0 <= first ->
  flatRanges (ml_postListVisitedElems res) = zrange 0 (ad_len d * k) /\ slots (columnEntries c) = zrange (first * k) ((first + ad_len d) * k).

(** C32: for any array, sliced or not, [writeAll] takes the lists of a fixed size from the start of
    their child, whatever the offset of the array, and writes the levels of the rows they would
    have there; for a slice of an array of such lists over a leaf, with no null list, these are the
    elements 0 to [n * k] of the child instead of [first * k] to [(first + n) * k]. *)
Theorem fixed_size_slice_wrong arr nullable m pool :
  builderFor arr nullable m -> poolsOk pool -> 0 < ad_len (dataOf arr) -> 2 * height arr < 2 ^ 15 -> Forall writable (columns nullable arr) ->
  exists N, forall fuel, (N <= fuel)%nat -> exists m' results, MB.writeAll fuel pool m = Some (m', results) /\
    Forall2 (fun c res => levelsFor (written c) res /\ takenFromStart c res) (columns nullable arr) results.
Proof.
  intros HB HP Hn HH HW. destruct (writeAll_written arr nullable m pool HB HP Hn HH HW) as [N HN]. exists N. intros fuel Hf. destruct (HN fuel Hf) as (m' & results & HE & HL & _). exists m', results. split; [exact HE|].
  clear - HL HW. induction HL as [|c res cols results Hc HL IH]; constructor; inversion HW as [|? ? [HR HPl] HW']; subst; [|auto]. split; [exact Hc|].
  intros nb d first k lnb v -> Hv Hf. destruct Hc as (_ & _ & -> & _). destruct HR as (((H0 & _) & _) & _). cbn [written layoutWritten plainFixed plainLayout colData] in *. destruct HPl as ((_ & Hk) & _).
  split; [|now apply fixed_entries]. rewrite fixed_entries by (auto; lia). now rewrite Z.mul_0_l, Z.add_0_l.
Qed.

(** The second and third list of [[0, 1], [2, 3], [4, 5]], as a slice. *)
Definition exSlice : arrowArray := FixedSizeListArr (mkAD 2 1 (Some 0) None) 2 false (PrimitiveArr (mkAD 6 0 (Some 0) None)).

Lemma exSlice_writable : Forall writable (columns false exSlice).
Proof. constructor; [|constructor]. split; [apply columnReadyb_ok; vm_compute; reflexivity|]. cbn. lia. Qed.

(** Elements 0 to 3 are written, and the rows are elements 2 to 5. *)
Lemma fixed_size_slice_witness : exists m, MB.newMultipathLevelBuilder exSlice false = Some (inl m) /\
  map (fun c => map (valueOf c) (zrange 0 2)) (columns false exSlice) = [[VList [VLeaf 2; VLeaf 3]; VList [VLeaf 4; VLeaf 5]]] /\
  exists N, forall fuel, (N <= fuel)%nat -> exists m' results, MB.writeAll fuel exPools m = Some (m', results) /\
    Forall2 (fun c res => levelsFor (written c) res /\ takenFromStart c res) (columns false exSlice) results.
Proof.
  exists (mkMB (mkER 0 2) (map (infoBelow rootInfo) (columns false exSlice))). split; [vm_compute; reflexivity|]. split; [vm_compute; reflexivity|].
  apply (fixed_size_slice_wrong exSlice false); [|exact exPools_ok|reflexivity|reflexivity|exact exSlice_writable].
  split; [reflexivity|]. cbn [mb_paths]. induction (columns false exSlice); constructor; [apply pathFor_root|assumption].
Defined.
