(* ===== verification/Bmi.v ===== *)
(** * Bit selection (parquet/internal/bmi/bmi.go)

    The portable [extractBitsGo] and [greaterThanBitmapGo], with which definition levels become
    validity bits.  Bits are lists of booleans, least significant first. *)

From Stdlib Require Import ZArith List Lia Bool.
From S2P Require Import Prelude BitUtil.
Import ListNotations.
#[local] Open Scope Z_scope.
#[local] Open Scope go_scope.

Definition lookupBits : Z := 5.

Definition pextTable : list (list Z) :=
  [[0; 0; 0; 0; 0; 0; 0; 0; 0; 0; 0; 0; 0; 0; 0; 0; 0; 0; 0; 0; 0; 0; 0; 0; 0; 0; 0; 0; 0; 0; 0; 0];
   [0; 1; 0; 1; 0; 1; 0; 1; 0; 1; 0; 1; 0; 1; 0; 1; 0; 1; 0; 1; 0; 1; 0; 1; 0; 1; 0; 1; 0; 1; 0; 1];
   [0; 0; 1; 1; 0; 0; 1; 1; 0; 0; 1; 1; 0; 0; 1; 1; 0; 0; 1; 1; 0; 0; 1; 1; 0; 0; 1; 1; 0; 0; 1; 1];
   [0; 1; 2; 3; 0; 1; 2; 3; 0; 1; 2; 3; 0; 1; 2; 3; 0; 1; 2; 3; 0; 1; 2; 3; 0; 1; 2; 3; 0; 1; 2; 3];
   [0; 0; 0; 0; 1; 1; 1; 1; 0; 0; 0; 0; 1; 1; 1; 1; 0; 0; 0; 0; 1; 1; 1; 1; 0; 0; 0; 0; 1; 1; 1; 1];
   [0; 1; 0; 1; 2; 3; 2; 3; 0; 1; 0; 1; 2; 3; 2; 3; 0; 1; 0; 1; 2; 3; 2; 3; 0; 1; 0; 1; 2; 3; 2; 3];
   [0; 0; 1; 1; 2; 2; 3; 3; 0; 0; 1; 1; 2; 2; 3; 3; 0; 0; 1; 1; 2; 2; 3; 3; 0; 0; 1; 1; 2; 2; 3; 3];
   [0; 1; 2; 3; 4; 5; 6; 7; 0; 1; 2; 3; 4; 5; 6; 7; 0; 1; 2; 3; 4; 5; 6; 7; 0; 1; 2; 3; 4; 5; 6; 7];
   [0; 0; 0; 0; 0; 0; 0; 0; 1; 1; 1; 1; 1; 1; 1; 1; 0; 0; 0; 0; 0; 0; 0; 0; 1; 1; 1; 1; 1; 1; 1; 1];
   [0; 1; 0; 1; 0; 1; 0; 1; 2; 3; 2; 3; 2; 3; 2; 3; 0; 1; 0; 1; 0; 1; 0; 1; 2; 3; 2; 3; 2; 3; 2; 3];
   [0; 0; 1; 1; 0; 0; 1; 1; 2; 2; 3; 3; 2; 2; 3; 3; 0; 0; 1; 1; 0; 0; 1; 1; 2; 2; 3; 3; 2; 2; 3; 3];
   [0; 1; 2; 3; 0; 1; 2; 3; 4; 5; 6; 7; 4; 5; 6; 7; 0; 1; 2; 3; 0; 1; 2; 3; 4; 5; 6; 7; 4; 5; 6; 7];
   [0; 0; 0; 0; 1; 1; 1; 1; 2; 2; 2; 2; 3; 3; 3; 3; 0; 0; 0; 0; 1; 1; 1; 1; 2; 2; 2; 2; 3; 3; 3; 3];
   [0; 1; 0; 1; 2; 3; 2; 3; 4; 5; 4; 5; 6; 7; 6; 7; 0; 1; 0; 1; 2; 3; 2; 3; 4; 5; 4; 5; 6; 7; 6; 7];
   [0; 0; 1; 1; 2; 2; 3; 3; 4; 4; 5; 5; 6; 6; 7; 7; 0; 0; 1; 1; 2; 2; 3; 3; 4; 4; 5; 5; 6; 6; 7; 7];
   [0; 1; 2; 3; 4; 5; 6; 7; 8; 9; 10; 11; 12; 13; 14; 15; 0; 1; 2; 3; 4; 5; 6; 7; 8; 9; 10; 11; 12; 13; 14; 15];
   [0; 0; 0; 0; 0; 0; 0; 0; 0; 0; 0; 0; 0; 0; 0; 0; 1; 1; 1; 1; 1; 1; 1; 1; 1; 1; 1; 1; 1; 1; 1; 1];
   [0; 1; 0; 1; 0; 1; 0; 1; 0; 1; 0; 1; 0; 1; 0; 1; 2; 3; 2; 3; 2; 3; 2; 3; 2; 3; 2; 3; 2; 3; 2; 3];
   [0; 0; 1; 1; 0; 0; 1; 1; 0; 0; 1; 1; 0; 0; 1; 1; 2; 2; 3; 3; 2; 2; 3; 3; 2; 2; 3; 3; 2; 2; 3; 3];
   [0; 1; 2; 3; 0; 1; 2; 3; 0; 1; 2; 3; 0; 1; 2; 3; 4; 5; 6; 7; 4; 5; 6; 7; 4; 5; 6; 7; 4; 5; 6; 7];
   [0; 0; 0; 0; 1; 1; 1; 1; 0; 0; 0; 0; 1; 1; 1; 1; 2; 2; 2; 2; 3; 3; 3; 3; 2; 2; 2; 2; 3; 3; 3; 3];
   [0; 1; 0; 1; 2; 3; 2; 3; 0; 1; 0; 1; 2; 3; 2; 3; 4; 5; 4; 5; 6; 7; 6; 7; 4; 5; 4; 5; 6; 7; 6; 7];
   [0; 0; 1; 1; 2; 2; 3; 3; 0; 0; 1; 1; 2; 2; 3; 3; 4; 4; 5; 5; 6; 6; 7; 7; 4; 4; 5; 5; 6; 6; 7; 7];
   [0; 1; 2; 3; 4; 5; 6; 7; 0; 1; 2; 3; 4; 5; 6; 7; 8; 9; 10; 11; 12; 13; 14; 15; 8; 9; 10; 11; 12; 13; 14; 15];
   [0; 0; 0; 0; 0; 0; 0; 0; 1; 1; 1; 1; 1; 1; 1; 1; 2; 2; 2; 2; 2; 2; 2; 2; 3; 3; 3; 3; 3; 3; 3; 3];
   [0; 1; 0; 1; 0; 1; 0; 1; 2; 3; 2; 3; 2; 3; 2; 3; 4; 5; 4; 5; 4; 5; 4; 5; 6; 7; 6; 7; 6; 7; 6; 7];
   [0; 0; 1; 1; 0; 0; 1; 1; 2; 2; 3; 3; 2; 2; 3; 3; 4; 4; 5; 5; 4; 4; 5; 5; 6; 6; 7; 7; 6; 6; 7; 7];
   [0; 1; 2; 3; 0; 1; 2; 3; 4; 5; 6; 7; 4; 5; 6; 7; 8; 9; 10; 11; 8; 9; 10; 11; 12; 13; 14; 15; 12; 13; 14; 15];
   [0; 0; 0; 0; 1; 1; 1; 1; 2; 2; 2; 2; 3; 3; 3; 3; 4; 4; 4; 4; 5; 5; 5; 5; 6; 6; 6; 6; 7; 7; 7; 7];
   [0; 1; 0; 1; 2; 3; 2; 3; 4; 5; 4; 5; 6; 7; 6; 7; 8; 9; 8; 9; 10; 11; 10; 11; 12; 13; 12; 13; 14; 15; 14; 15];
   [0; 0; 1; 1; 2; 2; 3; 3; 4; 4; 5; 5; 6; 6; 7; 7; 8; 8; 9; 9; 10; 10; 11; 11; 12; 12; 13; 13; 14; 14; 15; 15];
   [0; 1; 2; 3; 4; 5; 6; 7; 8; 9; 10; 11; 12; 13; 14; 15; 16; 17; 18; 19; 20; 21; 22; 23; 24; 25; 26; 27; 28; 29; 30; 31]].

(** The loop of [extractBitsGo]; each round takes five bits. *)
Fixpoint extractLoop (fuel : nat) (bitmap selectBitmap bitValue bitLen : Z) : Z :=
  let lookupMask := Z.shiftl 1 lookupBits - 1 in
  if selectBitmap =? 0 then bitValue
  else
    match fuel with
    | O => bitValue
    | S fuel' =>
        let maskLen := OnesCount64 (selectBitmap & lookupMask) in
        let value := nth (Z.to_nat (bitmap & lookupMask)) (nth (Z.to_nat (selectBitmap & lookupMask)) pextTable []) 0 in
        extractLoop fuel' (bitmap >> lookupBits) (selectBitmap >> lookupBits) (Z.lor bitValue (u64 (Z.shiftl value bitLen))) (bitLen + maskLen)
    end.

Definition extractBitsGo (bitmap selectBitmap : Z) : Z :=
  if selectBitmap =? 2 ^ 64 - 1 then bitmap
  else if selectBitmap =? 0 then 0
  else extractLoop 13 bitmap selectBitmap 0 0.

(** The loop of [greaterThanBitmapGo] from index [idx]. *)
Fixpoint greaterThanLoop (levels : list Z) (rhs idx mask : Z) : Z :=
  match levels with
  | [] => mask
  | lvl :: levels' => greaterThanLoop levels' rhs (idx + 1) (Z.lor mask (u64 (Z.shiftl (if rhs <? lvl then 1 else 0) idx)))
  end.

Definition greaterThanBitmapGo (levels : list Z) (rhs : Z) : Z := greaterThanLoop levels rhs 0 0.

(** ** Lists of bits *)

Fixpoint bval (bs : list bool) : Z := match bs with [] => 0 | b :: bs' => Z.b2z b + 2 * bval bs' end.

Definition bitsOf (n : nat) (x : Z) : list bool := map (Z.testbit x) (zseq 0 n).

(** The bits of the second list that the first one selects. *)
Fixpoint pick (sel bs : list bool) : list bool :=
  match sel, bs with
  | s :: sel', b :: bs' => if s then b :: pick sel' bs' else pick sel' bs'
  | _, _ => []
  end.

Definition trues (bs : list bool) : Z := len (filter (fun b => b) bs).

Lemma bval_app a b : bval (a ++ b) = bval a + 2 ^ len a * bval b.
Proof. induction a as [|x a IH]; cbn [app bval List.length]; [change (2 ^ Z.of_nat 0) with 1; lia|]. rewrite IH, Nat2Z.inj_succ, Z.pow_succ_r by lia. lia. Qed.

Lemma bval_bound bs : 0 <= bval bs < 2 ^ len bs.
Proof. induction bs as [|x bs IH]; cbn [bval List.length]; [cbn; lia|]. rewrite Nat2Z.inj_succ, Z.pow_succ_r by lia. destruct x; cbn [Z.b2z]; lia. Qed.

Lemma bval_testbit bs i : 0 <= i -> Z.testbit (bval bs) i = nth (Z.to_nat i) bs false.
Proof.
  revert i. induction bs as [|b bs IH]; intros i Hi; cbn [bval]; [rewrite Z.testbit_0_l; now destruct (Z.to_nat i)|]. destruct (Z.eq_dec i 0) as [->|Hne].
  - rewrite Z.bit0_odd, Z.odd_add, Z.odd_mul. cbn [Z.odd andb]. destruct b; cbn; reflexivity.
  - replace i with (Z.succ (i - 1)) at 1 by lia. rewrite (Z.add_comm (Z.b2z b)), Z.testbit_succ_r by lia. rewrite IH by lia. replace (Z.to_nat i) with (S (Z.to_nat (i - 1))) by lia. reflexivity.
Qed.

Lemma length_bitsOf n x : List.length (bitsOf n x) = n.
Proof. unfold bitsOf. now rewrite length_map, length_zseq. Qed.

Lemma nth_bitsOf n x i : (i < n)%nat -> nth i (bitsOf n x) false = Z.testbit x (Z.of_nat i).
Proof.
  intros Hi. unfold bitsOf, zseq. rewrite map_map. rewrite (nth_indep _ false (Z.testbit x (0 + Z.of_nat 0))) by (rewrite length_map, length_seq; exact Hi). rewrite (map_nth (fun j => Z.testbit x (0 + Z.of_nat j))), seq_nth by exact Hi. reflexivity.
Qed.

Lemma bitsOf_app m n x : 0 <= x -> bitsOf (m + n) x = bitsOf m x ++ bitsOf n (x / 2 ^ Z.of_nat m).
Proof.
  intros Hx. unfold bitsOf. rewrite zseq_app, map_app. f_equal. unfold zseq. rewrite !map_map. apply map_ext. intros j. rewrite Z.div_pow2_bits by lia. f_equal. lia.
Qed.

Lemma bitsOf_mod m n x : (m <= n)%nat -> bitsOf m (x mod 2 ^ Z.of_nat n) = bitsOf m x.
Proof. intros H. apply map_ext_in. intros j Hj. apply in_zseq in Hj. apply Z.mod_pow2_bits_low. lia. Qed.

Lemma bitsOf_bval bs : bitsOf (List.length bs) (bval bs) = bs.
Proof. apply (nth_ext _ _ false false); rewrite length_bitsOf; [reflexivity|]. intros i Hi. rewrite nth_bitsOf by exact Hi. rewrite bval_testbit by lia. now rewrite Nat2Z.id. Qed.

Lemma bval_bitsOf n x : 0 <= x < 2 ^ Z.of_nat n -> bval (bitsOf n x) = x.
Proof.
  intros Hx. apply Z.bits_inj'. intros i Hi. rewrite bval_testbit by exact Hi. destruct (Z.lt_ge_cases i (Z.of_nat n)) as [Hlt|Hge].
  - rewrite nth_bitsOf by lia. f_equal. lia.
  - rewrite nth_overflow by (rewrite length_bitsOf; lia). symmetry. destruct (Z.eq_dec x 0) as [->|]; [apply Z.testbit_0_l|]. apply Z.bits_above_log2; [lia|]. apply Z.log2_lt_pow2; [lia|]. pose proof (pow2_le (Z.of_nat n) i Hge). lia.
Qed.

Lemma pick_app s1 s2 b1 b2 : List.length s1 = List.length b1 -> pick (s1 ++ s2) (b1 ++ b2) = pick s1 b1 ++ pick s2 b2.
Proof. revert b1. induction s1 as [|s s1 IH]; intros [|b b1] H; cbn [app pick List.length] in *; try discriminate; [reflexivity|]. injection H as H. rewrite IH by exact H. now destruct s. Qed.

Lemma pick_none s b : Forall (fun x => x = false) s -> pick s b = [].
Proof. intros H. revert b. induction H as [|x s -> H IH]; intros [|b bs]; cbn [pick]; auto. Qed.

Lemma length_pick s b : List.length s = List.length b -> len (pick s b) = trues s.
Proof.
  unfold trues. revert b. induction s as [|x s IH]; intros [|y b] H; cbn [pick filter List.length] in *; try discriminate; [reflexivity|]. injection H as H. specialize (IH b H). destruct x; cbn [List.length]; lia.
Qed.

Lemma trues_app a b : trues (a ++ b) = trues a + trues b.
Proof. unfold trues. rewrite filter_app, length_app. lia. Qed.

Lemma ones_trues n x : ones n x = trues (bitsOf n x).
Proof.
  rewrite ones_cnt. unfold bitsOf, trues. generalize 0 as p. induction n as [|n IH]; intros p; [reflexivity|]. rewrite cnt_S, zseq_S. cbn [map filter]. rewrite IH. destruct (Z.testbit x p); cbn [List.length]; lia.
Qed.

(** ** The loops *)

(** The table, by the definition its comment gives. *)
Lemma pextTable_pick s b : 0 <= s < 32 -> 0 <= b < 32 -> nth (Z.to_nat b) (nth (Z.to_nat s) pextTable []) 0 = bval (pick (bitsOf 5 s) (bitsOf 5 b)).
Proof.
  assert (H : forallb (fun s => forallb (fun b => nth (Z.to_nat b) (nth (Z.to_nat s) pextTable []) 0 =? bval (pick (bitsOf 5 s) (bitsOf 5 b))) (zseq 0 32)) (zseq 0 32) = true) by (vm_compute; reflexivity).
  intros Hs Hb. rewrite forallb_forall in H. specialize (H s ltac:(apply in_zseq; lia)). rewrite forallb_forall in H. specialize (H b ltac:(apply in_zseq; lia)). now apply Z.eqb_eq in H.
Qed.

Lemma land31 x : x & (Z.shiftl 1 lookupBits - 1) = x mod 2 ^ 5.
Proof. change (Z.shiftl 1 lookupBits - 1) with (Z.ones 5). apply Z.land_ones. lia. Qed.

Lemma ones_low s : 0 <= s < 32 -> OnesCount64 s = trues (bitsOf 5 s).
Proof. intros Hs. unfold OnesCount64. rewrite ones_trues. change 64%nat with (5 + 59)%nat. rewrite bitsOf_app, trues_app by lia. change (2 ^ Z.of_nat 5) with 32. rewrite Z.div_small by lia. cbn. lia. Qed.

Lemma bitsOf_0 n : Forall (fun b => b = false) (bitsOf n 0).
Proof. apply Forall_forall. intros b Hb. apply in_map_iff in Hb as (j & <- & _). apply Z.testbit_0_l. Qed.

Lemma bitsOf5 x : bitsOf 5 (x mod 2 ^ 5) = bitsOf 5 x.
Proof. apply (bitsOf_mod 5 5). lia. Qed.

Lemma extractLoop_pick fuel : forall bm sel bv bl,
  0 <= bm -> 0 <= sel < 2 ^ (5 * Z.of_nat fuel) -> 0 <= bl -> 0 <= bv < 2 ^ bl -> bl + trues (bitsOf (5 * fuel) sel) <= 64 ->
  extractLoop fuel bm sel bv bl = bv + 2 ^ bl * bval (pick (bitsOf (5 * fuel) sel) (bitsOf (5 * fuel) bm)).
Proof.
  induction fuel as [|fuel IH]; intros bm sel bv bl Hbm Hsel Hbl Hbv Hn.
  - change (2 ^ (5 * Z.of_nat 0)) with 1 in Hsel. replace sel with 0 by lia. cbn [extractLoop Z.eqb]. cbn. lia.
  - cbn [extractLoop]. destruct (Z.eqb_spec sel 0) as [->|Hne]; [rewrite pick_none by apply bitsOf_0; cbn [bval]; lia|].
    replace (5 * S fuel)%nat with (5 + 5 * fuel)%nat in * by lia. rewrite !bitsOf_app in * by lia. change (2 ^ Z.of_nat 5) with (2 ^ 5) in *. rewrite pick_app by (rewrite !length_bitsOf; reflexivity). rewrite trues_app in Hn.
    rewrite !land31. unfold lookupBits. rewrite !shiftr_div by lia. assert (Hs5 : 0 <= sel mod 2 ^ 5 < 32) by (apply Z.mod_pos_bound; lia). assert (Hb5 : 0 <= bm mod 2 ^ 5 < 32) by (apply Z.mod_pos_bound; lia).
    rewrite pextTable_pick, ones_low by assumption. rewrite !bitsOf5. set (P := pick (bitsOf 5 sel) (bitsOf 5 bm)).
    assert (HP : len P = trues (bitsOf 5 sel)) by (apply length_pick; rewrite !length_bitsOf; reflexivity). pose proof (bval_bound P) as HB. set (T := trues (bitsOf 5 sel)) in *.
    assert (HT : 0 <= T /\ 0 <= trues (bitsOf (5 * fuel) (sel / 2 ^ 5))) by (unfold T, trues; lia).
    assert (Hu : u64 (Z.shiftl (bval P) bl) = bval P * 2 ^ bl).
    { rewrite shiftl_mul by lia. unfold u64. apply Z.mod_small. pose proof (pow2_pos bl Hbl). pose proof (pow2_le (bl + T) 64 ltac:(lia)). rewrite pow2_split in * by lia. rewrite HP in HB. nia. }
    rewrite Hu, lor_disjoint by lia. rewrite IH.
    + rewrite bval_app, HP, pow2_split by lia. ring.
    + apply Z.div_pos; lia.
    + rewrite Nat2Z.inj_succ in Hsel. replace (5 * Z.succ (Z.of_nat fuel)) with (5 + 5 * Z.of_nat fuel) in Hsel by lia. rewrite pow2_split in Hsel by lia. split; [apply Z.div_pos; lia|]. apply Z.div_lt_upper_bound; lia.
    + lia.
    + rewrite pow2_split by lia. rewrite HP in HB. pose proof (pow2_pos bl Hbl). nia.
    + lia.
Qed.

Lemma bitsOf_len64 x : 0 <= x < 2 ^ 64 -> bitsOf 65 x = bitsOf 64 x ++ [false].
Proof. intros Hx. change 65%nat with (64 + 1)%nat. rewrite bitsOf_app by lia. change (2 ^ Z.of_nat 64) with (2 ^ 64). now rewrite Z.div_small by lia. Qed.

Lemma trues_le bs : 0 <= trues bs <= len bs.
Proof. unfold trues. induction bs as [|[] bs IH]; cbn [filter List.length]; lia. Qed.

(** [extractBitsGo] is the extraction of the selected bits. *)
Lemma extractBits_pick bm sel : 0 <= bm < 2 ^ 64 -> 0 <= sel < 2 ^ 64 -> extractBitsGo bm sel = bval (pick (bitsOf 64 sel) (bitsOf 64 bm)).
Proof.
  intros Hb Hs. unfold extractBitsGo. destruct (Z.eqb_spec sel (2 ^ 64 - 1)) as [->|_].
  - assert (HP : forall bs, pick (repeat true (List.length bs)) bs = bs) by (induction bs as [|b bs IH]; cbn [List.length repeat pick]; congruence).
    change (bitsOf 64 (2 ^ 64 - 1)) with (repeat true 64). specialize (HP (bitsOf 64 bm)). rewrite length_bitsOf in HP. rewrite HP. symmetry. now apply bval_bitsOf.
  - destruct (Z.eqb_spec sel 0) as [->|_]; [now rewrite pick_none by apply bitsOf_0|].
    rewrite extractLoop_pick; [|lia|change (2 ^ (5 * Z.of_nat 13)) with (2 * 2 ^ 64); lia|lia|change (2 ^ 0) with 1; lia|].
    + change (5 * 13)%nat with 65%nat. rewrite !bitsOf_len64 by assumption. rewrite pick_app by (rewrite !length_bitsOf; reflexivity). cbn [pick]. rewrite app_nil_r. change (2 ^ 0) with 1. lia.
    + change (5 * 13)%nat with 65%nat. rewrite bitsOf_len64, trues_app by assumption. pose proof (trues_le (bitsOf 64 sel)). rewrite length_bitsOf in *. change (trues [false]) with 0. lia.
Qed.

Lemma greaterThanLoop_bits levels rhs : forall idx mask, 0 <= idx -> idx + len levels <= 64 -> 0 <= mask < 2 ^ idx -> greaterThanLoop levels rhs idx mask = mask + 2 ^ idx * bval (map (fun l => rhs <? l) levels).
Proof.
  induction levels as [|l levels IH]; intros idx mask Hi HL Hm; cbn [greaterThanLoop map bval List.length] in *; [lia|]. pose proof (pow2_pos idx Hi) as Hp.
  assert (Hu : u64 (Z.shiftl (if rhs <? l then 1 else 0) idx) = Z.b2z (rhs <? l) * 2 ^ idx).
  { rewrite shiftl_mul by lia. replace (if rhs <? l then 1 else 0) with (Z.b2z (rhs <? l)) by (now destruct (rhs <? l)). unfold u64. apply Z.mod_small. pose proof (pow2_le (idx + 1) 64 ltac:(lia)) as H64. rewrite pow2_split in H64 by lia. destruct (rhs <? l); cbn [Z.b2z]; lia. }
  rewrite Hu, lor_disjoint by lia. rewrite IH; [rewrite (pow2_split idx 1) by lia; ring|lia|lia|]. rewrite pow2_split by lia. destruct (rhs <? l); cbn [Z.b2z]; lia.
Qed.

Lemma greaterThan_bits levels rhs : len levels <= 64 -> greaterThanBitmapGo levels rhs = bval (map (fun l => rhs <? l) levels).
Proof. intros HL. unfold greaterThanBitmapGo. rewrite greaterThanLoop_bits by (try lia; cbn; lia). change (2 ^ 0) with 1. lia. Qed.
