(* ===== verification/BitmapWriter.v ===== *)
(** * The bitmap writer for fresh bitmaps (parquet/internal/utils/bitmap_writer.go)

    [firstTimeBitmapWriter] keeps the byte it is working on aside and stores whole bytes.  It may
    clobber what follows the bits written; what comes before the start is kept. *)

From Stdlib Require Import ZArith List Lia Bool.
From S2P Require Import Prelude BitUtil BitRuns Bmi.
Import ListNotations.
#[local] Open Scope Z_scope.
#[local] Open Scope go_scope.

(** [bits.TrailingZeros32] *)
Definition TrailingZeros32 (x : Z) : Z := countZeros 32 x 0 1.

Record ftWriter : Type := mkFT { ft_buf : list Z; ft_pos : Z; ft_length : Z; ft_curByte : Z; ft_bitMask : Z; ft_byteOffset : Z }.

Module FT.

Definition NewFirstTimeBitmapWriter (buf : list Z) (start length : Z) : option ftWriter :=
  let byteOffset := Z.quot start 8 in
  mask <- index BitMask (Z.rem start 8) ;;
  if 0 <? length then
    b <- index buf byteOffset ;;
    pre <- index PrecedingBitmask (Z.rem start 8) ;;
    Some (mkFT buf 0 length (b & pre) mask byteOffset)
  else Some (mkFT buf 0 length 0 mask byteOffset).

Definition Reset (bw : ftWriter) (start length : Z) : option ftWriter :=
  let byteOffset := Z.quot start 8 in
  mask <- index BitMask (Z.rem start 8) ;;
  if 0 <? length then
    b <- index (ft_buf bw) byteOffset ;;
    pre <- index PrecedingBitmask (Z.rem start 8) ;;
    Some (mkFT (ft_buf bw) 0 length (b & pre) mask byteOffset)
  else Some (mkFT (ft_buf bw) 0 length (ft_curByte bw) mask byteOffset).

Definition Pos (bw : ftWriter) : Z := ft_pos bw.

(** The part of [AppendWord] from [bytesForWord] on: the next byte is free. *)
Definition appendAligned (buf : list Z) (app : Z) (word nbits bitMask : Z) : option (list Z * Z) :=
  let bytesForWord := BytesForBits nbits in
  bs <- slice (lebytes 8 word) 0 bytesForWord ;;
  let buf := splice buf (Z.to_nat app) bs in
  if bitMask =? 1 then Some (buf, 0) else b <- index buf (app + (bytesForWord - 1)) ;; Some (buf, b).

Definition AppendWord (bw : ftWriter) (word nbits : Z) : option ftWriter :=
  if nbits =? 0 then Some bw
  else
    let app := ft_byteOffset bw in
    if negb ((0 <=? app) && (app <=? len (ft_buf bw))) then None
    else
      let pos := ft_pos bw + nbits in
      let bitOffset := TrailingZeros32 (ft_bitMask bw) in
      bitMask <- index BitMask (Z.rem (bitOffset + nbits) 8) ;;
      let byteOffset := ft_byteOffset bw + Z.quot (bitOffset + nbits) 8 in
      if negb (bitOffset =? 0) then
        let carry := 8 - bitOffset in
        pre <- index PrecedingBitmask carry ;;
        let curByte := Z.lor (ft_curByte bw) (u8 (u64 (Z.shiftl (word & pre) bitOffset))) in
        if nbits <? carry then Some (mkFT (ft_buf bw) pos (ft_length bw) curByte bitMask byteOffset)
        else
          buf <- store (ft_buf bw) app curByte ;;
          r <- appendAligned buf (app + 1) (word >> carry) (nbits - carry) bitMask ;;
          Some (mkFT (fst r) pos (ft_length bw) (snd r) bitMask byteOffset)
      else
        r <- appendAligned (ft_buf bw) app word nbits bitMask ;;
        Some (mkFT (fst r) pos (ft_length bw) (snd r) bitMask byteOffset).

Definition Set_ (bw : ftWriter) : ftWriter := mkFT (ft_buf bw) (ft_pos bw) (ft_length bw) (Z.lor (ft_curByte bw) (ft_bitMask bw)) (ft_bitMask bw) (ft_byteOffset bw).

Definition Clear (bw : ftWriter) : ftWriter := bw.

Definition Next (bw : ftWriter) : option ftWriter :=
  let bitMask := u8 (Z.shiftl (ft_bitMask bw) 1) in
  let pos := ft_pos bw + 1 in
  if bitMask =? 0 then
    buf <- store (ft_buf bw) (ft_byteOffset bw) (ft_curByte bw) ;;
    Some (mkFT buf pos (ft_length bw) 0 1 (ft_byteOffset bw + 1))
  else Some (mkFT (ft_buf bw) pos (ft_length bw) (ft_curByte bw) bitMask (ft_byteOffset bw)).

(** The bitmap afterwards. *)
Definition Finish (bw : ftWriter) : option (list Z) :=
  if ((0 <? ft_length bw) && negb (ft_bitMask bw =? 1)) || (ft_pos bw <? ft_length bw)
  then store (ft_buf bw) (ft_byteOffset bw) (ft_curByte bw)
  else Some (ft_buf bw).

End FT.

(** ** What has been written *)

(** The bits of the bitmap before [start], then [bs]. *)
Definition bitsWritten (base : list Z) (start : Z) (bs : list bool) : Z := leval base mod 2 ^ start + 2 ^ start * bval bs.

Definition ftOk (base : list Z) (start : Z) (bs : list bool) (bw : ftWriter) : Prop :=
  let P := start + len bs in
  bytes (ft_buf bw) /\ len (ft_buf bw) = len base /\ ft_pos bw = len bs /\ ft_bitMask bw = 2 ^ (P mod 8) /\ ft_byteOffset bw = P / 8 /\
  0 <= ft_curByte bw < 2 ^ (P mod 8) /\
  leval (firstn (Z.to_nat (P / 8)) (ft_buf bw)) + 2 ^ (8 * (P / 8)) * ft_curByte bw = bitsWritten base start bs.

Lemma bitsWritten_bound base start bs : 0 <= start -> 0 <= bitsWritten base start bs < 2 ^ (start + len bs).
Proof. intros Hs. unfold bitsWritten. pose proof (Z.mod_pos_bound (leval base) (2 ^ start) ltac:(apply pow2_pos; lia)). pose proof (bval_bound bs). rewrite pow2_split by lia. nia. Qed.

Lemma bitsWritten_app base start a b : 0 <= start -> bitsWritten base start (a ++ b) = bitsWritten base start a + 2 ^ (start + len a) * bval b.
Proof. intros Hs. unfold bitsWritten. rewrite bval_app, pow2_split by lia. ring. Qed.

Lemma trailing_pow q : 0 <= q < 8 -> TrailingZeros32 (2 ^ q) = q.
Proof. intros Hq. assert (q = 0 \/ q = 1 \/ q = 2 \/ q = 3 \/ q = 4 \/ q = 5 \/ q = 6 \/ q = 7) as Hc by lia. repeat destruct Hc as [->|Hc]; try subst q; vm_compute; reflexivity. Qed.

Lemma preceding_land w q : 0 <= q < 8 -> w & nth (Z.to_nat q) PrecedingBitmask 0 = w mod 2 ^ q.
Proof.
  intros Hq. replace (nth (Z.to_nat q) PrecedingBitmask 0) with (Z.ones q); [apply Z.land_ones; lia|].
  assert (q = 0 \/ q = 1 \/ q = 2 \/ q = 3 \/ q = 4 \/ q = 5 \/ q = 6 \/ q = 7) as Hc by lia. repeat destruct Hc as [->|Hc]; try subst q; reflexivity.
Qed.

Lemma FTNew_ok base start length :
  bytes base -> 0 <= start -> 0 < length -> start + length <= 8 * len base -> exists bw, FT.NewFirstTimeBitmapWriter base start length = Some bw /\ ftOk base start [] bw /\ ft_length bw = length.
Proof.
  intros HB Hs Hl Hfit. unfold FT.NewFirstTimeBitmapWriter. rewrite Z.quot_div_nonneg, Z.rem_mod_nonneg by lia. pose proof (Z.mod_pos_bound start 8 ltac:(lia)) as Hm. bool_lia (0 <? length).
  assert (Ho : 0 <= start / 8 < len base) by (split; [apply Z.div_pos; lia|apply Z.div_lt_upper_bound; lia]). rewrite (index_ok BitMask _ 0), (index_ok base _ 0), (index_ok PrecedingBitmask _ 0) by (assumption || cbn; lia). cbn [opt_bind].
  eexists. split; [reflexivity|]. split; [|reflexivity]. unfold ftOk. cbn [ft_buf ft_pos ft_bitMask ft_byteOffset ft_curByte List.length]. change (Z.of_nat 0) with 0. rewrite !Z.add_0_r.
  assert (Hd : 8 * (start / 8) + start mod 8 = start) by (rewrite <- Z.div_mod; lia).
  rewrite BitMask_pow, preceding_land by lia. splits; auto; try (apply Z.mod_pos_bound, pow2_pos; lia).
  unfold bitsWritten. cbn [bval]. rewrite Z.mul_0_r, Z.add_0_r. rewrite nth_leval, leval_firstn by exact HB. rewrite !Z2Nat.id by lia. unfold field. rewrite Z.pow_0_r, Z.div_1_r.
  rewrite mod_mod_pow2 by lia. rewrite <- (div_mod_pow2 (leval base) (8 * (start / 8)) (start mod 8)) by lia. rewrite Hd.
  rewrite <- (mod_mod_pow2 (leval base) start (8 * (start / 8))) by lia. rewrite Z.add_comm. symmetry. apply Z.div_mod. pose proof (pow2_pos (8 * (start / 8)) ltac:(lia)). lia.
Qed.

Lemma appendAligned_ok buf o word n :
  bytes buf -> 0 <= o -> 0 <= n <= 64 -> 0 <= word < 2 ^ n -> 8 * o + n <= 8 * len buf ->
  exists buf' cur, FT.appendAligned buf o word n (2 ^ (n mod 8)) = Some (buf', cur) /\ bytes buf' /\ len buf' = len buf /\ 0 <= cur < 2 ^ (n mod 8) /\
    leval (firstn (Z.to_nat (o + n / 8)) buf') + 2 ^ (8 * (o + n / 8)) * cur = leval (firstn (Z.to_nat o) buf) + 2 ^ (8 * o) * word.
Proof.
  intros HB Ho Hn Hw Hfit. unfold FT.appendAligned. rewrite BytesForBits_div by lia. set (k := (n + 7) / 8). set (q := n / 8). set (m := n mod 8).
  assert (Hq : n = 8 * q + m /\ 0 <= m < 8 /\ 0 <= q) by (subst q m; pose proof (Z.div_mod n 8 ltac:(lia)); pose proof (Z.mod_pos_bound n 8 ltac:(lia)); lia).
  assert (Hk : (m = 0 -> k = q) /\ (m <> 0 -> k = q + 1)) by (subst k; split; intros; symmetry; [apply Z.div_unique with (r := 7)|apply Z.div_unique with (r := m - 1)]; lia).
  rewrite slice_ok by (rewrite ?length_lebytes; lia). cbn [opt_bind]. rewrite Z.sub_0_r. cbn [Z.to_nat skipn]. rewrite firstn_lebytes by lia.
  set (bs := lebytes (Z.to_nat k) word). assert (HL : List.length bs = Z.to_nat k) by apply length_lebytes. assert (Hfit' : (Z.to_nat o + List.length bs <= List.length buf)%nat) by (rewrite HL; lia).
  set (buf' := splice buf (Z.to_nat o) bs). assert (HB' : bytes buf') by (apply bytes_splice; [exact HB|apply lebytes_bytes]). assert (HL' : len buf' = len buf) by (unfold buf'; rewrite length_splice by lia; reflexivity).
  assert (Hsp : buf' = firstn (Z.to_nat o) buf ++ bs ++ skipn (Z.to_nat o + List.length bs) buf) by (apply splice_in; exact Hfit').
  assert (HLo : List.length (firstn (Z.to_nat o) buf) = Z.to_nat o) by (rewrite length_firstn; lia).
  assert (Hfst : leval (firstn (Z.to_nat (o + q)) buf') = leval (firstn (Z.to_nat o) buf) + 2 ^ (8 * o) * (word mod 2 ^ (8 * q))).
  { rewrite Hsp, firstn_app, HLo, firstn_firstn, Nat.min_r by lia. replace (Z.to_nat (o + q) - Z.to_nat o)%nat with (Z.to_nat q) by lia. rewrite firstn_app. replace (Z.to_nat q - List.length bs)%nat with O by (rewrite HL; lia). cbn [firstn]. rewrite app_nil_r.
    unfold bs. rewrite firstn_lebytes by lia. rewrite leval_app, HLo, leval_lebytes. now rewrite !Z2Nat.id by lia. }
  assert (Hpq : 0 < 2 ^ (8 * q)) by (apply pow2_pos; lia).
  assert (Hone : (2 ^ m =? 1) = (m =? 0)) by (destruct (Z.eqb_spec m 0) as [->|]; [reflexivity|]; apply Z.eqb_neq; pose proof (Z.pow_gt_1 2 m ltac:(lia)); lia).
  rewrite Hone. destruct (Z.eqb_spec m 0) as [Hm|Hm].
  - exists buf', 0. splits; auto; try lia; try (apply pow2_pos; lia). rewrite Hfst, Z.mod_small by (replace n with (8 * q) in Hw by lia; exact Hw). lia.
  - rewrite (index_ok buf' _ 0) by lia. cbn [opt_bind]. exists buf', (word / 2 ^ (8 * q)).
    assert (Hcur : nth (Z.to_nat (o + (k - 1))) buf' 0 = word / 2 ^ (8 * q)).
    { replace (Z.to_nat (o + (k - 1))) with (Z.to_nat o + Z.to_nat q)%nat by lia. rewrite Hsp, app_nth2, HLo by lia. replace (Z.to_nat o + Z.to_nat q - Z.to_nat o)%nat with (Z.to_nat q) by lia. rewrite app_nth1 by lia.
      rewrite nth_leval by apply lebytes_bytes. unfold bs. rewrite leval_lebytes, !Z2Nat.id by lia. rewrite Z.mod_small by (split; [lia|]; apply Z.lt_le_trans with (2 ^ n); [lia|apply pow2_le; lia]).
      unfold field. apply Z.mod_small. split; [apply Z.div_pos; lia|]. apply Z.div_lt_upper_bound; [lia|]. rewrite <- pow2_split by lia. apply Z.lt_le_trans with (2 ^ n); [lia|apply pow2_le; lia]. }
    rewrite Hcur. splits; auto; [apply Z.div_pos; lia|apply Z.div_lt_upper_bound; [lia|]; rewrite <- pow2_split by lia; replace (8 * q + m) with n by lia; lia|].
    rewrite Hfst. replace (8 * (o + q)) with (8 * o + 8 * q) by lia. rewrite pow2_split by lia. rewrite (Z.div_mod word (2 ^ (8 * q))) at 3 by lia. ring.
Qed.

Lemma AppendWord_ok base start bs bw ws :
  ftOk base start bs bw -> 0 <= start -> len ws <= 64 -> start + len bs + len ws <= 8 * len base ->
  exists bw', FT.AppendWord bw (bval ws) (len ws) = Some bw' /\ ftOk base start (bs ++ ws) bw' /\ ft_length bw' = ft_length bw.
Proof.
  intros (HB & HL & Hpos & Hmask & Hoff & Hcur & HV) Hs Hw Hfit. unfold FT.AppendWord. destruct (Z.eqb_spec (len ws) 0) as [H0|Hne].
  { assert (ws = []) by (destruct ws; [reflexivity|cbn [List.length] in H0; lia]). subst ws. exists bw. rewrite app_nil_r. splits; auto. red. auto 10. }
  set (P := start + len bs) in *. set (n := len ws) in *. assert (HP : 0 <= P) by lia. set (o := P / 8) in *. set (q := P mod 8) in *.
  assert (Hq : P = 8 * o + q /\ 0 <= q < 8 /\ 0 <= o) by (subst q o; pose proof (Z.div_mod P 8 ltac:(lia)); pose proof (Z.mod_pos_bound P 8 ltac:(lia)); lia).
  pose proof (bval_bound ws) as Hword. fold n in Hword. set (word := bval ws) in *. rewrite Hoff, HL. bool_lia (0 <=? o). bool_lia (o <=? len base). cbn [andb negb]. rewrite Hmask, trailing_pow by lia.
  rewrite Z.rem_mod_nonneg, Z.quot_div_nonneg by lia. pose proof (Z.mod_pos_bound (q + n) 8 ltac:(lia)) as Hm. rewrite (index_ok BitMask _ 0) by (cbn; lia). rewrite BitMask_pow by lia. cbn [opt_bind].
  assert (HP' : start + len (bs ++ ws) = P + n) by (rewrite length_app; lia). assert (Hmod : (P + n) mod 8 = (q + n) mod 8) by (replace (P + n) with (q + n + o * 8) by lia; apply Z.mod_add; lia).
  assert (Hdiv : (P + n) / 8 = o + (q + n) / 8) by (replace (P + n) with (q + n + o * 8) by lia; rewrite Z.div_add by lia; lia).
  assert (HVn : bitsWritten base start (bs ++ ws) = bitsWritten base start bs + 2 ^ P * word) by (apply bitsWritten_app; lia).
  destruct (Z.eqb_spec q 0) as [Hq0|Hqn]; cbn [negb].
  - rewrite Hq0, Z.add_0_l in *. destruct (appendAligned_ok (ft_buf bw) o word n HB ltac:(lia) ltac:(lia) Hword ltac:(lia)) as (buf' & cur & -> & HB' & HL' & Hc' & HV'). cbn [opt_bind fst snd].
    eexists. split; [reflexivity|]. split; [|reflexivity]. unfold ftOk. rewrite HP', Hmod, Hdiv. cbn [ft_buf ft_pos ft_bitMask ft_byteOffset ft_curByte]. rewrite length_app. splits; auto; try lia.
    rewrite HVn, <- HV, HV'. change (2 ^ 0) with 1 in Hcur. replace (ft_curByte bw) with 0 by lia. replace P with (8 * o) by lia. lia.
  - rewrite (index_ok PrecedingBitmask _ 0) by (change (len PrecedingBitmask) with 8; lia). cbn [opt_bind]. rewrite preceding_land by lia. set (lo := word mod 2 ^ (8 - q)).
    assert (Hlo : 0 <= lo < 2 ^ (8 - q)) by (apply Z.mod_pos_bound, pow2_pos; lia). assert (H8 : 2 ^ q * 2 ^ (8 - q) = 256) by (rewrite <- pow2_split by lia; replace (q + (8 - q)) with 8 by lia; reflexivity).
    pose proof (pow2_pos q ltac:(lia)) as Hpq. assert (Hsh : u8 (u64 (Z.shiftl lo q)) = lo * 2 ^ q) by (rewrite shiftl_mul by lia; unfold u8, u64; change (2 ^ 8) with 256; rewrite (Z.mod_small _ (2 ^ 64)) by nia; apply Z.mod_small; nia).
    rewrite Hsh, lor_disjoint by lia. set (cur1 := ft_curByte bw + lo * 2 ^ q). assert (Hc1 : 0 <= cur1 < 256) by (subst cur1; nia). destruct (Z.ltb_spec n (8 - q)) as [Hlt|Hge].
    + eexists. split; [reflexivity|]. split; [|reflexivity]. unfold ftOk. rewrite HP', Hmod, Hdiv. cbn [ft_buf ft_pos ft_bitMask ft_byteOffset ft_curByte]. rewrite length_app.
      assert (Hsm : (q + n) mod 8 = q + n /\ (q + n) / 8 = 0) by (split; [apply Z.mod_small; lia|apply Z.div_small; lia]). destruct Hsm as [Hs1 Hs2]. rewrite Hs1, Hs2, Z.add_0_r.
      assert (Hlw : lo = word) by (apply Z.mod_small; split; [lia|]; apply Z.lt_le_trans with (2 ^ n); [lia|apply pow2_le; lia]). splits; auto; try lia.
      * subst cur1. rewrite pow2_split by lia. rewrite Hlw. pose proof (Z.mul_le_mono_nonneg_r word (2 ^ n - 1) (2 ^ q) ltac:(lia) ltac:(lia)). lia.
      * rewrite HVn, <- HV. unfold cur1. rewrite Hlw. replace P with (8 * o + q) by lia. rewrite pow2_split by lia. ring.
    + rewrite store_ok by lia. cbn [opt_bind]. rewrite shiftr_div by lia. set (buf1 := upd (ft_buf bw) (Z.to_nat o) cur1). assert (HB1 : bytes buf1) by (apply bytes_upd; [exact HB|exact Hc1]). assert (HL1 : len buf1 = len base) by (unfold buf1; rewrite length_upd; exact HL).
      assert (Hd8 : (q + n) mod 8 = (n - (8 - q)) mod 8) by (replace (q + n) with (n - (8 - q) + 1 * 8) by lia; apply Z.mod_add; lia). assert (Hd8' : (q + n) / 8 = 1 + (n - (8 - q)) / 8) by (replace (q + n) with (n - (8 - q) + 1 * 8) by lia; rewrite Z.div_add by lia; lia).
      pose proof (pow2_pos (8 - q) ltac:(lia)) as Hp8. rewrite Hd8.
      destruct (appendAligned_ok buf1 (o + 1) (word / 2 ^ (8 - q)) (n - (8 - q)) HB1 ltac:(lia) ltac:(lia)) as (buf' & cur & -> & HB' & HL' & Hc' & HV').
      { split; [apply Z.div_pos; lia|]. apply Z.div_lt_upper_bound; [lia|]. rewrite <- pow2_split by lia. replace (8 - q + (n - (8 - q))) with n by lia. lia. }
      { lia. }
      cbn [opt_bind fst snd]. eexists. split; [reflexivity|]. split; [|reflexivity]. unfold ftOk. rewrite HP', Hmod, Hdiv, Hd8, Hd8'. cbn [ft_buf ft_pos ft_bitMask ft_byteOffset ft_curByte]. rewrite length_app. replace (o + (1 + (n - (8 - q)) / 8)) with (o + 1 + (n - (8 - q)) / 8) by lia. splits; auto; try lia.
      rewrite HV', HVn, <- HV. assert (Hf1 : leval (firstn (Z.to_nat (o + 1)) buf1) = leval (firstn (Z.to_nat o) (ft_buf bw)) + 2 ^ (8 * o) * cur1).
      { replace (Z.to_nat (o + 1)) with (S (Z.to_nat o)) by lia. rewrite (firstn_split buf1 (Z.to_nat o)) by lia. replace (S (Z.to_nat o) - Z.to_nat o)%nat with 1%nat by lia. rewrite (skipn_cons buf1 _ 0) by lia. cbn [firstn].
        unfold buf1 at 2. rewrite nth_upd_eq by lia. replace (firstn (Z.to_nat o) buf1) with (firstn (Z.to_nat o) (ft_buf bw)); [|apply (nth_ext_eq _ _ 0); unfold buf1; rewrite !length_firstn, ?length_upd; [reflexivity|]; intros i Hi; rewrite !nth_firstn; replace (i <? Z.to_nat o)%nat with true by (symmetry; apply Nat.ltb_lt; lia); rewrite nth_upd_ne by lia; reflexivity].
        rewrite leval_app, length_firstn, Nat.min_l by lia. cbn [leval]. rewrite Z2Nat.id by lia. lia. }
      rewrite Hf1. unfold cur1. replace (8 * (o + 1)) with (8 * o + 8) by lia. replace P with (8 * o + q) by lia. rewrite !pow2_split by lia. change (2 ^ 8) with 256. rewrite <- H8. pose proof (Z.div_mod word (2 ^ (8 - q)) ltac:(lia)) as Hwd. fold lo in Hwd. clearbody lo. set (W := word / 2 ^ (8 - q)) in *. clearbody W. rewrite Hwd. ring.
Qed.

Lemma firstn_upd {A} (l : list A) n i x : (n <= i)%nat -> firstn n (upd l i x) = firstn n l.
Proof. revert l i. induction n as [|n IH]; intros [|y l] [|i] H; cbn [upd firstn]; try lia; auto. f_equal. apply IH. lia. Qed.

(** [Set] or [Clear], then [Next]. *)
Definition putBit (b : bool) (bw : ftWriter) : option ftWriter := FT.Next (if b then FT.Set_ bw else FT.Clear bw).

Lemma putBit_ok base start bs bw b :
  ftOk base start bs bw -> 0 <= start -> start + len bs < 8 * len base -> exists bw', putBit b bw = Some bw' /\ ftOk base start (bs ++ [b]) bw' /\ ft_length bw' = ft_length bw.
Proof.
  intros (HB & HL & Hpos & Hmask & Hoff & Hcur & HV) Hs Hfit. set (P := start + len bs) in *. set (o := P / 8) in *. set (q := P mod 8) in *.
  assert (Hq : P = 8 * o + q /\ 0 <= q < 8 /\ 0 <= o) by (subst q o; pose proof (Z.div_mod P 8 ltac:(lia)); pose proof (Z.mod_pos_bound P 8 ltac:(lia)); lia). pose proof (pow2_pos q ltac:(lia)) as Hpq.
  set (cur := ft_curByte bw + Z.b2z b * 2 ^ q).
  assert (Hbw : (if b then FT.Set_ bw else FT.Clear bw) = mkFT (ft_buf bw) (ft_pos bw) (ft_length bw) cur (ft_bitMask bw) (ft_byteOffset bw)).
  { unfold cur. destruct b; cbn [Z.b2z]; [|rewrite Z.mul_0_l, Z.add_0_r; now destruct bw]. unfold FT.Set_. f_equal. rewrite Hmask. rewrite <- (Z.mul_1_l (2 ^ q)) at 1. rewrite lor_disjoint by lia. reflexivity. }
  unfold putBit. rewrite Hbw. unfold FT.Next. cbn [ft_buf ft_pos ft_length ft_curByte ft_bitMask ft_byteOffset]. rewrite Hmask, Hoff, shiftl_mul by lia. change (2 ^ 1) with 2.
  assert (HP' : start + len (bs ++ [b]) = P + 1) by (rewrite length_app; cbn [List.length]; lia). assert (HVn : bitsWritten base start (bs ++ [b]) = bitsWritten base start bs + 2 ^ P * Z.b2z b) by (rewrite bitsWritten_app by lia; cbn [bval]; fold P; lia).
  assert (Hc : 0 <= cur < 2 * 2 ^ q) by (unfold cur; destruct b; cbn [Z.b2z]; lia). assert (HPo : 2 ^ P = 2 ^ (8 * o) * 2 ^ q) by (rewrite <- pow2_split by lia; f_equal; lia).
  destruct (Z.eq_dec q 7) as [Hq7|Hqn].
  - rewrite Hq7. change (u8 (2 ^ 7 * 2) =? 0) with true. cbn match. rewrite store_ok by lia. cbn [opt_bind]. eexists. split; [reflexivity|]. split; [|reflexivity]. unfold ftOk. rewrite HP'. replace ((P + 1) / 8) with (o + 1) by (apply Z.div_unique with (r := 0); lia). replace ((P + 1) mod 8) with 0 by (apply Z.mod_unique with (q := o + 1); lia).
    cbn [ft_buf ft_pos ft_bitMask ft_byteOffset ft_curByte]. rewrite length_upd, length_app. cbn [List.length]. rewrite Hq7 in *. change (2 ^ 7) with 128 in *. splits; auto; try lia; [apply bytes_upd; [exact HB|red; lia]|].
    rewrite Z.mul_0_r, Z.add_0_r, HVn, <- HV. replace (Z.to_nat (o + 1)) with (S (Z.to_nat o)) by lia. rewrite (firstn_split _ (Z.to_nat o)) by lia. replace (S (Z.to_nat o) - Z.to_nat o)%nat with 1%nat by lia. rewrite (skipn_cons _ _ 0) by (rewrite length_upd; lia). cbn [firstn]. rewrite nth_upd_eq by lia.
    rewrite firstn_upd by lia. rewrite leval_app, length_firstn, Nat.min_l by lia. cbn [leval]. rewrite Z2Nat.id by lia. unfold cur. rewrite HPo, ?Hq7. change (2 ^ 7) with 128. ring.
  - assert (Hu : u8 (2 ^ q * 2) = 2 ^ (q + 1)) by (rewrite pow2_split by lia; change (2 ^ 1) with 2; unfold u8; apply Z.mod_small; pose proof (pow2_le q 6 ltac:(lia)); change (2 ^ 6) with 64 in *; change (2 ^ 8) with 256; lia).
    rewrite Hu. pose proof (pow2_pos (q + 1) ltac:(lia)). bool_lia (2 ^ (q + 1) =? 0). eexists. split; [reflexivity|]. split; [|reflexivity]. unfold ftOk. rewrite HP'. replace ((P + 1) / 8) with o by (apply Z.div_unique with (r := q + 1); lia). replace ((P + 1) mod 8) with (q + 1) by (apply Z.mod_unique with (q := o); lia).
    cbn [ft_buf ft_pos ft_bitMask ft_byteOffset ft_curByte]. rewrite length_app. cbn [List.length]. splits; auto; try lia; try (rewrite pow2_split by lia; change (2 ^ 1) with 2; lia).
Qed.

(** The bitmap holds the bits, and what was before them. *)
Definition bitmapHas (base : list Z) (start : Z) (bs : list bool) (buf : list Z) : Prop :=
  bytes buf /\ len buf = len base /\ (forall i, 0 <= i < start -> Z.testbit (leval buf) i = Z.testbit (leval base) i) /\ (forall i, 0 <= i < len bs -> Z.testbit (leval buf) (start + i) = nth (Z.to_nat i) bs false).

Lemma bitmapHas_mod base start bs buf :
  bytes buf -> len buf = len base -> 0 <= start -> leval buf mod 2 ^ (start + len bs) = bitsWritten base start bs -> bitmapHas base start bs buf.
Proof.
  intros HB HL Hs HV. assert (Hbit : forall i, 0 <= i < start + len bs -> Z.testbit (leval buf) i = Z.testbit (bitsWritten base start bs) i) by (intros i Hi; rewrite <- HV; symmetry; apply Z.mod_pow2_bits_low; lia).
  split; [exact HB|]. split; [exact HL|]. unfold bitsWritten in Hbit. split; intros i Hi.
  - rewrite Hbit by lia. rewrite <- (Z.mod_pow2_bits_low _ start) by lia. rewrite (Z.mul_comm (2 ^ start) (bval bs)), Z.mod_add by (pose proof (pow2_pos start Hs); lia). rewrite Z.mod_mod by (pose proof (pow2_pos start Hs); lia). apply Z.mod_pow2_bits_low. lia.
  - rewrite Hbit by lia. rewrite <- (Z.add_comm i), <- Z.div_pow2_bits by lia. rewrite (Z.mul_comm (2 ^ start)), Z.div_add by (pose proof (pow2_pos start Hs); lia). rewrite Z.div_small by (apply Z.mod_pos_bound, pow2_pos; lia). cbn [Z.add]. apply bval_testbit. lia.
Qed.

Lemma Finish_ok base start bs bw :
  ftOk base start bs bw -> 0 <= start -> 0 < ft_length bw -> start + ft_length bw <= 8 * len base -> start + len bs <= 8 * len base -> exists buf, FT.Finish bw = Some buf /\ bitmapHas base start bs buf.
Proof.
  intros (HB & HL & Hpos & Hmask & Hoff & Hcur & HV) Hs Hl Hfit Hbs. set (P := start + len bs) in *. set (o := P / 8) in *. set (q := P mod 8) in *.
  assert (Hq : P = 8 * o + q /\ 0 <= q < 8 /\ 0 <= o) by (subst q o; pose proof (Z.div_mod P 8 ltac:(lia)); pose proof (Z.mod_pos_bound P 8 ltac:(lia)); lia). unfold FT.Finish. bool_lia (0 <? ft_length bw). cbn [andb]. rewrite Hmask, Hpos, Hoff.
  assert (HPo : 2 ^ P = 2 ^ (8 * o) * 2 ^ q) by (rewrite <- pow2_split by lia; f_equal; lia). pose proof (pow2_pos q ltac:(lia)) as Hpq. pose proof (pow2_pos (8 * o) ltac:(lia)) as Hpo.
  assert (Hone : (2 ^ q =? 1) = (q =? 0)) by (destruct (Z.eqb_spec q 0) as [->|]; [reflexivity|]; apply Z.eqb_neq; pose proof (Z.pow_gt_1 2 q ltac:(lia)); lia). rewrite Hone. destruct (negb (q =? 0) || (len bs <? ft_length bw)) eqn:E.
  - assert (Ho : o < len base) by (apply orb_true_iff in E as [E|E]; [apply negb_true_iff, Z.eqb_neq in E; lia|apply Z.ltb_lt in E; lia]). rewrite store_ok by lia. eexists. split; [reflexivity|]. assert (Hcb : is_byte (ft_curByte bw)) by (red; pose proof (pow2_le q 7 ltac:(lia)); change (2 ^ 7) with 128 in *; lia).
    apply bitmapHas_mod; [apply bytes_upd; [exact HB|exact Hcb]|rewrite length_upd; exact HL|exact Hs|]. fold P. set (buf' := upd (ft_buf bw) (Z.to_nat o) (ft_curByte bw)).
    assert (Hsp : leval buf' = bitsWritten base start bs + 2 ^ P * (2 ^ (8 - q) * leval (skipn (S (Z.to_nat o)) buf'))).
    { rewrite <- (firstn_skipn (Z.to_nat o) buf') at 1. rewrite (skipn_cons buf' _ 0) by (unfold buf'; rewrite length_upd; lia). unfold buf' at 1 2. rewrite nth_upd_eq, firstn_upd by lia. rewrite leval_app, length_firstn, Nat.min_l by lia. cbn [leval]. rewrite Z2Nat.id by lia. rewrite <- HV.
      assert (H256 : 256 = 2 ^ q * 2 ^ (8 - q)) by (rewrite <- pow2_split by lia; replace (q + (8 - q)) with 8 by lia; reflexivity). rewrite HPo, H256. ring. }
    rewrite Hsp, (Z.mul_comm (2 ^ P)), Z.mod_add by nia. apply Z.mod_small. apply bitsWritten_bound. exact Hs.
  - apply orb_false_iff in E as [E1 E2]. apply negb_false_iff, Z.eqb_eq in E1. eexists. split; [reflexivity|]. apply bitmapHas_mod; auto. fold P. rewrite <- HV, E1 in *. change (2 ^ 0) with 1 in *. replace (ft_curByte bw) with 0 by lia. rewrite leval_firstn by exact HB. unfold field. rewrite Z.pow_0_r, Z.div_1_r, Z2Nat.id, Z.mul_0_r, Z.add_0_r by lia. do 2 f_equal. lia.
Qed.
