(* ===== verification/LevelConversion.v ===== *)
(** * From levels to validity bits and list offsets (parquet/file/level_conversion.go)

    A reader turns the levels of a column into the arrays above the leaf: [DefLevelsToBitmap]
    gives the validity of the slots of a leaf or struct, [DefRepLevelsToListInfo] the offsets and
    the validity of lists.  A panic is [None]; an error is returned beside what was written. *)

From Stdlib Require Import ZArith List Lia Bool String.
From S2P Require Import Prelude GoStd BitUtil MathUtil Bmi BitmapWriter.
Import ListNotations.
#[local] Open Scope Z_scope.
#[local] Open Scope go_scope.

Record LevelInfo : Type := mkLI { li_NullSlotUsage : Z; li_DefLevel : Z; li_RepLevel : Z; li_RepeatedAncestorDefLevel : Z }.

(** [parquet.Repetition] *)
Inductive Repetition : Type := Required | Optional | Repeated.

Module LI.

Definition HasNullableValues (l : LevelInfo) : bool := li_RepeatedAncestorDefLevel l <? li_DefLevel l.
Definition IncrementOptional (l : LevelInfo) : LevelInfo := mkLI (li_NullSlotUsage l) (wrapS 16 (li_DefLevel l + 1)) (li_RepLevel l) (li_RepeatedAncestorDefLevel l).

(** The levels and the ancestor's level before. *)
Definition IncrementRepeated (l : LevelInfo) : LevelInfo * Z :=
  let def := wrapS 16 (li_DefLevel l + 1) in
  (mkLI (li_NullSlotUsage l) def (wrapS 16 (li_RepLevel l + 1)) def, li_RepeatedAncestorDefLevel l).

Definition Increment (l : LevelInfo) (r : Repetition) : LevelInfo :=
  match r with Repeated => fst (IncrementRepeated l) | Optional => IncrementOptional l | Required => l end.

End LI.

(** [ValidBits] may be nil. *)
Record ValidityBitmapInputOutput : Type := mkIO { io_ReadUpperBound : Z; io_Read : Z; io_NullCount : Z; io_ValidBits : option (list Z); io_ValidBitsOffset : Z }.

Definition validBitsBytes (out : ValidityBitmapInputOutput) : list Z := match io_ValidBits out with Some b => b | None => [] end.

(** ** Definition levels *)

Definition maxbatch : Z := 64.

(** The loop of [defLevelsBatchToBitmap]. *)
Fixpoint batchLoop (fuel : nat) (defLevels : list Z) (remainingUpperBound : Z) (info : LevelInfo) (wr : ftWriter) (hasRepeatedParent : bool) (count : Z) : option (ftWriter * Z) :=
  match defLevels, fuel with
  | [], _ => Some (wr, count)
  | _, O => None
  | _, S fuel' =>
      let batchSize := Z.min maxbatch (len defLevels) in
      let batch := firstn (Z.to_nat batchSize) defLevels in
      let defLevels := skipn (Z.to_nat batchSize) defLevels in
      let definedBitmap := greaterThanBitmapGo batch (wrapS 16 (li_DefLevel info - 1)) in
      if hasRepeatedParent then
        let presentBitmap := greaterThanBitmapGo batch (wrapS 16 (li_RepeatedAncestorDefLevel info - 1)) in
        let selectedBits := extractBitsGo definedBitmap presentBitmap in
        let selectedCount := OnesCount64 presentBitmap in
        if remainingUpperBound <? selectedCount then None
        else wr <- FT.AppendWord wr selectedBits selectedCount ;; batchLoop fuel' defLevels remainingUpperBound info wr hasRepeatedParent (u64 (count + OnesCount64 selectedBits))
      else wr <- FT.AppendWord wr definedBitmap (len batch) ;; batchLoop fuel' defLevels remainingUpperBound info wr hasRepeatedParent (u64 (count + OnesCount64 definedBitmap))
  end.

Definition defLevelsBatchToBitmap (defLevels : list Z) (remainingUpperBound : Z) (info : LevelInfo) (wr : ftWriter) (hasRepeatedParent : bool) : option (ftWriter * Z) :=
  if negb hasRepeatedParent && (remainingUpperBound <? len defLevels) then None
  else batchLoop (List.length defLevels) defLevels remainingUpperBound info wr hasRepeatedParent 0.

Definition defLevelsToBitmapInternal (defLevels : list Z) (info : LevelInfo) (out : ValidityBitmapInputOutput) (hasRepeatedParent : bool) : option ValidityBitmapInputOutput :=
  wr <- FT.NewFirstTimeBitmapWriter (validBitsBytes out) (io_ValidBitsOffset out) (io_ReadUpperBound out) ;;
  r <- defLevelsBatchToBitmap defLevels (io_ReadUpperBound out) info wr hasRepeatedParent ;;
  let '(wr, setCount) := r in
  let read := FT.Pos wr in
  bits <- FT.Finish wr ;;
  Some (mkIO (io_ReadUpperBound out) read (io_NullCount out + (read - i64 setCount)) (match io_ValidBits out with Some _ => Some bits | None => None end) (io_ValidBitsOffset out)).

Definition DefLevelsToBitmap (defLevels : list Z) (info : LevelInfo) (out : ValidityBitmapInputOutput) : option ValidityBitmapInputOutput :=
  defLevelsToBitmapInternal defLevels info out (0 <? li_RepLevel info).

(** ** Repetition levels *)

(** The variables of [DefRepLevelsToListInfo]'s loop. *)
Record listState : Type := mkLS { ls_wr : option ftWriter; ls_nulls : Z; ls_offsets : list Z; ls_pos : Z }.

Section ListInfo.
Variables (bits : Z) (info : LevelInfo) (bound : Z).

Definition maxOffset : Z := 2 ^ (bits - 1) - 1.

Definition errOverflow : goerr := ErrMsg "list index overflow".
Definition errBound : goerr := ErrMsg "definition levels exceeded upper bound".
Definition errSlots : goerr := ErrMsg "null values with null_slot_usage > 1 not supported".

(** [offsets[pos]++], unless it is at its maximum. *)
Definition bump (offsets : list Z) (pos : Z) : option (list Z + goerr) :=
  v <- index offsets pos ;;
  if v =? maxOffset then Some (inr errOverflow) else offsets <- store offsets pos (v + 1) ;; Some (inl offsets).

(** The offset of a new list, if there are offsets. *)
Definition openList (def : Z) (st : listState) : option (listState * option goerr) :=
  if ls_pos st + 1 <? len (ls_offsets st) then
    let pos := ls_pos st + 1 in
    v <- index (ls_offsets st) (pos - 1) ;;
    offsets <- store (ls_offsets st) pos v ;;
    if li_DefLevel info <=? def then
      r <- bump offsets pos ;;
      match r with inr e => Some (mkLS (ls_wr st) (ls_nulls st) offsets pos, Some e) | inl offsets => Some (mkLS (ls_wr st) (ls_nulls st) offsets pos, None) end
    else Some (mkLS (ls_wr st) (ls_nulls st) offsets pos, None)
  else Some (st, None).

(** A new list: its offset, then its bit. *)
Definition newList (def : Z) (st : listState) : option (listState * option goerr) :=
  if (match ls_wr st with Some wr => bound <=? FT.Pos wr | None => false end) || (bound <=? ls_pos st) then Some (st, Some errBound)
  else
    r <- openList def st ;;
    let '(st, err) := r in
    match err with
    | Some e => Some (st, Some e)
    | None =>
        match ls_wr st with
        | None => Some (st, None)
        | Some wr =>
            if wrapS 16 (li_DefLevel info - 1) <=? def then wr <- FT.Next (FT.Set_ wr) ;; Some (mkLS (Some wr) (ls_nulls st) (ls_offsets st) (ls_pos st), None)
            else wr <- FT.Next (FT.Clear wr) ;; Some (mkLS (Some wr) (ls_nulls st + 1) (ls_offsets st) (ls_pos st), None)
        end
    end.

(** [repLevels] is cut to the same index as [defLevels]. *)
Fixpoint listLoop (defLevels repLevels : list Z) (st : listState) : option (listState * option goerr) :=
  match defLevels with
  | [] => Some (st, None)
  | def :: defLevels' =>
      if def <? li_RepeatedAncestorDefLevel info then listLoop defLevels' (tl repLevels) st
      else
        rep <- index repLevels 0 ;;
        if li_RepLevel info <? rep then listLoop defLevels' (tl repLevels) st
        else
          r <- (if rep =? li_RepLevel info then
                  if ls_pos st <? len (ls_offsets st) then
                    r <- bump (ls_offsets st) (ls_pos st) ;;
                    match r with inr e => Some (st, Some e) | inl offsets => Some (mkLS (ls_wr st) (ls_nulls st) offsets (ls_pos st), None) end
                  else Some (st, None)
                else newList def st) ;;
          let '(st, err) := r in
          match err with Some e => Some (st, Some e) | None => listLoop defLevels' (tl repLevels) st end
  end.
End ListInfo.

(** The result: [out], the offsets and the error.  The bitmap is finished in any case. *)
Definition DefRepLevelsToListInfo (bits : Z) (defLevels repLevels : list Z) (info : LevelInfo) (out : ValidityBitmapInputOutput) (offsets : list Z)
  : option (ValidityBitmapInputOutput * list Z * option goerr) :=
  wr <- (match io_ValidBits out with Some b => wr <- FT.NewFirstTimeBitmapWriter b (io_ValidBitsOffset out) (io_ReadUpperBound out) ;; Some (Some wr) | None => Some None end) ;;
  r <- listLoop bits info (io_ReadUpperBound out) defLevels repLevels (mkLS wr (io_NullCount out) offsets 0) ;;
  let '(st, err) := r in
  bm <- (match ls_wr st with Some wr => b <- FT.Finish wr ;; Some (Some b) | None => Some None end) ;;
  let read :=
    match err with
    | Some _ => io_Read out
    | None => if 0 <? len (ls_offsets st) then ls_pos st else match ls_wr st with Some wr => FT.Pos wr | None => io_Read out end
    end in
  let err := match err with Some e => Some e | None => if (0 <? ls_nulls st) && (1 <? li_NullSlotUsage info) then Some errSlots else None end in
  Some (mkIO (io_ReadUpperBound out) read (ls_nulls st) bm (io_ValidBitsOffset out), ls_offsets st, err).

Definition DefRepLevelsToBitmap (defLevels repLevels : list Z) (info : LevelInfo) (out : ValidityBitmapInputOutput) : option (ValidityBitmapInputOutput * list Z * option goerr) :=
  DefRepLevelsToListInfo 32 defLevels repLevels (mkLI (li_NullSlotUsage info) (wrapS 16 (li_DefLevel info + 1)) (wrapS 16 (li_RepLevel info + 1)) (li_RepeatedAncestorDefLevel info)) out [].

(** ** Validity of slots *)

(** The levels that take a slot, and the bits of the slots. *)
Definition slotLevels (info : LevelInfo) (defLevels : list Z) : list Z := if 0 <? li_RepLevel info then filter (fun d => li_RepeatedAncestorDefLevel info <=? d) defLevels else defLevels.
Definition slotBits (info : LevelInfo) (defLevels : list Z) : list bool := map (fun d => li_DefLevel info <=? d) (slotLevels info defLevels).

Definition falses (bs : list bool) : Z := len bs - trues bs.

Definition infoOk (info : LevelInfo) : Prop := 0 <= li_DefLevel info < 2 ^ 15 /\ 0 <= li_RepLevel info < 2 ^ 15 /\ 0 <= li_RepeatedAncestorDefLevel info < 2 ^ 15.

Lemma bitsOf_pad n bs : (List.length bs <= n)%nat -> bitsOf n (bval bs) = bs ++ repeat false (n - List.length bs).
Proof.
  intros H. pose proof (bval_bound bs) as HB. replace n with (List.length bs + (n - List.length bs))%nat at 1 by lia. rewrite bitsOf_app, bitsOf_bval by lia. f_equal. rewrite Z.div_small by lia. generalize (n - List.length bs)%nat as k. intros k.
  unfold bitsOf. rewrite (map_ext _ (fun _ => false)) by (intros; apply Z.testbit_0_l). rewrite <- (length_zseq 0 k) at 2. induction (zseq 0 k); cbn [map List.length repeat]; congruence.
Qed.

Lemma pick_filter {A} (f h : A -> bool) l : pick (map f l) (map h l) = map h (filter f l).
Proof. induction l as [|x l IH]; cbn [map pick filter]; [reflexivity|]. destruct (f x); cbn [map]; congruence. Qed.

Lemma pick_bval a b : (List.length a <= 64)%nat -> List.length a = List.length b -> pick (bitsOf 64 (bval a)) (bitsOf 64 (bval b)) = pick a b.
Proof.
  intros H HL. rewrite !bitsOf_pad by lia. rewrite pick_app by exact HL. rewrite HL, (pick_none (repeat false (64 - List.length b))), app_nil_r; [reflexivity|]. apply Forall_forall. intros x Hx. now apply repeat_spec in Hx.
Qed.

Lemma trues_repeat n : trues (repeat false n) = 0.
Proof. unfold trues. induction n; cbn [repeat filter]; auto. Qed.

Lemma OnesCount_bval bs : (List.length bs <= 64)%nat -> OnesCount64 (bval bs) = trues bs.
Proof. intros H. unfold OnesCount64. rewrite ones_trues, bitsOf_pad, trues_app, trues_repeat by exact H. lia. Qed.

Lemma trues_map {A} (f : A -> bool) l : trues (map f l) = len (filter f l).
Proof. unfold trues. induction l as [|x l IH]; cbn [map filter]; [reflexivity|]. destruct (f x); cbn [List.length]; lia. Qed.

Lemma level_above lvl batch : 0 <= lvl < 2 ^ 15 -> (List.length batch <= 64)%nat -> greaterThanBitmapGo batch (wrapS 16 (lvl - 1)) = bval (map (fun d => lvl <=? d) batch).
Proof.
  intros Hl HL. rewrite wrapS_id by (try lia; unfold inS; change (2 ^ (16 - 1)) with (2 ^ 15); lia). rewrite greaterThan_bits by lia. f_equal. apply map_ext. intros d. destruct (Z.leb_spec lvl d); [apply Z.ltb_lt; lia|apply Z.ltb_ge; lia].
Qed.

Lemma filter_firstn_skipn {A} (f : A -> bool) n l : filter f l = filter f (firstn n l) ++ filter f (skipn n l).
Proof. rewrite <- filter_app, firstn_skipn. reflexivity. Qed.

(** With a repeated parent every batch of 64 levels has at most [bound] slots. *)
Definition batchesWithin (info : LevelInfo) (bound : Z) (defs : list Z) : Prop :=
  forall k : nat, len (slotLevels info (firstn 64 (skipn (64 * k) defs))) <= bound.

Lemma slotLevels_firstn info n l : len (slotLevels info (firstn n l)) <= len (slotLevels info l).
Proof. unfold slotLevels. destruct (0 <? li_RepLevel info); [rewrite (filter_firstn_skipn _ n l), length_app; lia|rewrite length_firstn; lia]. Qed.

Lemma slotLevels_skipn info n l : len (slotLevels info (skipn n l)) <= len (slotLevels info l).
Proof. unfold slotLevels. destruct (0 <? li_RepLevel info); [rewrite (filter_firstn_skipn _ n l), length_app; lia|rewrite length_skipn; lia]. Qed.

Lemma batches_total info bound defs : len (slotLevels info defs) <= bound -> batchesWithin info bound defs.
Proof. intros H k. pose proof (slotLevels_firstn info 64 (skipn (64 * k) defs)). pose proof (slotLevels_skipn info (64 * k) defs). lia. Qed.

Lemma batches_rest info bound defs : batchesWithin info bound defs -> batchesWithin info bound (skipn 64 defs).
Proof. intros H k. rewrite skipn_skipn. replace (64 * k + 64)%nat with (64 * S k)%nat by lia. apply H. Qed.

(** [room] is how many slots the bitmap has bits for. *)
Lemma batchLoop_ok info base start bound room :
  infoOk info -> 0 <= start -> start + room <= 8 * len base ->
  forall fuel defs bs wr count, ftOk base start bs wr -> (List.length defs <= fuel)%nat -> batchesWithin info bound defs -> len bs + len (slotLevels info defs) <= room -> 0 <= count -> count + len defs < 2 ^ 63 ->
  exists wr', batchLoop fuel defs bound info wr (0 <? li_RepLevel info) count = Some (wr', count + trues (slotBits info defs)) /\ ftOk base start (bs ++ slotBits info defs) wr' /\ ft_length wr' = ft_length wr.
Proof.
  intros (HD & HR & HA) Hs Hfit. induction fuel as [|fuel IH]; intros defs bs wr count Hok Hf Hbat Hb Hc HB.
  - destruct defs; [|cbn in Hf; lia]. exists wr. unfold slotBits, slotLevels. destruct (0 <? li_RepLevel info); cbn [batchLoop map filter]; rewrite app_nil_r, Z.add_0_r; auto.
  - destruct defs as [|d0 defs0]; [exists wr; unfold slotBits, slotLevels; destruct (0 <? li_RepLevel info); cbn [batchLoop map filter]; rewrite app_nil_r, Z.add_0_r; auto|].
    cbn [batchLoop]. set (defs := d0 :: defs0) in *. set (n := Z.to_nat (Z.min maxbatch (len defs))). assert (Hn : (n <= 64)%nat /\ (0 < n <= List.length defs)%nat) by (subst n defs; unfold maxbatch; cbn [List.length]; lia).
    assert (Hn64 : firstn n defs = firstn 64 defs /\ skipn n defs = skipn 64 defs) by (clearbody defs; destruct (Nat.le_gt_cases 64 (List.length defs)); [replace n with 64%nat by (subst n; unfold maxbatch; lia); auto|replace n with (List.length defs) by (subst n; unfold maxbatch; lia); rewrite firstn_all, skipn_all, firstn_all2, skipn_all2 by lia; auto]).
    pose proof (Hbat O) as Hb0. rewrite Nat.mul_0_r, skipn_O in Hb0. apply batches_rest in Hbat. rewrite <- (proj1 Hn64) in Hb0. rewrite <- (proj2 Hn64) in Hbat. set (batch := firstn n defs) in *. set (rest := skipn n defs) in *. assert (HLb : List.length batch = n) by (unfold batch; rewrite length_firstn; lia). assert (HLr : (List.length rest = List.length defs - n)%nat) by apply length_skipn.
    assert (Hsp : slotLevels info defs = slotLevels info batch ++ slotLevels info rest) by (unfold slotLevels, batch, rest; destruct (0 <? li_RepLevel info); [apply filter_firstn_skipn|symmetry; apply firstn_skipn]).
    assert (Hspb : slotBits info defs = slotBits info batch ++ slotBits info rest) by (unfold slotBits; rewrite Hsp; apply map_app).
    rewrite Hsp, length_app in Hb. assert (HLw : len (slotBits info batch) = len (slotLevels info batch)) by (unfold slotBits; now rewrite length_map).
    assert (Hle : len (slotLevels info batch) <= Z.of_nat n) by (unfold slotLevels; destruct (0 <? li_RepLevel info); [pose proof (filter_length_le (fun d => li_RepeatedAncestorDefLevel info <=? d) batch); lia|lia]).
    destruct (AppendWord_ok base start bs wr (slotBits info batch) Hok Hs ltac:(lia) ltac:(lia)) as (wr1 & HE & Hok1 & Hl1). pose proof (trues_le (slotBits info batch)) as Htr.
    assert (Hgo : exists wr', batchLoop fuel rest bound info wr1 (0 <? li_RepLevel info) (u64 (count + OnesCount64 (bval (slotBits info batch)))) = Some (wr', count + trues (slotBits info defs)) /\ ftOk base start (bs ++ slotBits info defs) wr' /\ ft_length wr' = ft_length wr).
    { rewrite OnesCount_bval by lia. unfold u64. rewrite Z.mod_small by lia. destruct (IH rest (bs ++ slotBits info batch) wr1 (count + trues (slotBits info batch)) Hok1) as (wr' & HE' & Hok' & Hl'); [lia|exact Hbat|rewrite length_app; lia|lia|lia|].
      exists wr'. rewrite HE', Hspb, trues_app, app_assoc, Z.add_assoc. split; [reflexivity|]. split; [exact Hok'|congruence]. }
    rewrite !level_above by lia. unfold slotBits, slotLevels in HE, HLw, Hgo. destruct (0 <? li_RepLevel info) eqn:Erep.
    + rewrite extractBits_pick by (pose proof (bval_bound (map (fun d => li_DefLevel info <=? d) batch)) as H1; pose proof (bval_bound (map (fun d => li_RepeatedAncestorDefLevel info <=? d) batch)) as H2; rewrite length_map in *; pose proof (pow2_le (len batch) 64 ltac:(lia)); lia).
      rewrite pick_bval by (rewrite !length_map; lia). rewrite pick_filter, (OnesCount_bval (map (fun d => li_RepeatedAncestorDefLevel info <=? d) batch)), trues_map by (rewrite length_map; lia).
      unfold slotLevels in Hb0. rewrite Erep in Hb0. bool_lia (bound <? len (filter (fun d => li_RepeatedAncestorDefLevel info <=? d) batch)). rewrite HLw in HE. rewrite HE. cbn [opt_bind]. unfold slotBits, slotLevels. rewrite Erep. exact Hgo.
    + rewrite HLw in HE. rewrite HE. cbn [opt_bind]. unfold slotBits, slotLevels. rewrite Erep. exact Hgo.
Qed.

Lemma falses_app a b : falses (a ++ b) = falses a + falses b.
Proof. unfold falses. rewrite trues_app, length_app. lia. Qed.

Lemma slotLevels_le info defs : len (slotLevels info defs) <= len defs.
Proof. unfold slotLevels. destruct (0 <? li_RepLevel info); [pose proof (filter_length_le (fun d => li_RepeatedAncestorDefLevel info <=? d) defs); lia|lia]. Qed.

(** [DefLevelsToBitmap] writes the bits of the slots and counts them, whatever their number, when
    the levels are within the bound (of all of them without a repeated parent, of each batch with
    one). *)
Lemma DefLevelsToBitmap_batches info defs bm out :
  infoOk info -> io_ValidBits out = Some bm -> bytes bm -> 0 <= io_ValidBitsOffset out -> 0 < io_ReadUpperBound out -> io_ValidBitsOffset out + io_ReadUpperBound out <= 8 * len bm ->
  io_ValidBitsOffset out + len (slotLevels info defs) <= 8 * len bm -> batchesWithin info (io_ReadUpperBound out) defs -> (0 < li_RepLevel info \/ len defs <= io_ReadUpperBound out) -> len defs < 2 ^ 63 ->
  exists bm', DefLevelsToBitmap defs info out = Some (mkIO (io_ReadUpperBound out) (len (slotLevels info defs)) (io_NullCount out + falses (slotBits info defs)) (Some bm') (io_ValidBitsOffset out)) /\
    bitmapHas bm (io_ValidBitsOffset out) (slotBits info defs) bm'.
Proof.
  intros HI Hbm Hb Ho Hu Hfit Hroom Hbat Hn HL. unfold DefLevelsToBitmap, defLevelsToBitmapInternal, validBitsBytes. rewrite Hbm. destruct (FTNew_ok bm (io_ValidBitsOffset out) (io_ReadUpperBound out) Hb Ho Hu Hfit) as (wr & -> & Hok & Hl). cbn [opt_bind]. unfold defLevelsBatchToBitmap.
  replace (negb (0 <? li_RepLevel info) && (io_ReadUpperBound out <? len defs)) with false by (destruct (Z.ltb_spec 0 (li_RepLevel info)); cbn [negb andb]; [reflexivity|symmetry; apply Z.ltb_ge; lia]).
  destruct (batchLoop_ok info bm (io_ValidBitsOffset out) (io_ReadUpperBound out) (len (slotLevels info defs)) HI Ho Hroom (List.length defs) defs [] wr 0 Hok ltac:(lia) Hbat ltac:(cbn [List.length]; lia) ltac:(lia) ltac:(lia)) as (wr' & -> & Hok' & Hl'). cbn [opt_bind app] in *.
  assert (HLs : len (slotBits info defs) = len (slotLevels info defs)) by (unfold slotBits; now rewrite length_map). destruct (Finish_ok bm (io_ValidBitsOffset out) (slotBits info defs) wr' Hok' Ho ltac:(lia) ltac:(lia) ltac:(lia)) as (bm' & -> & Hhas). cbn [opt_bind].
  exists bm'. split; [|exact Hhas]. pose proof Hok' as (_ & _ & Hp & _). unfold FT.Pos. rewrite Hp, HLs. unfold falses. rewrite HLs. pose proof (trues_le (slotBits info defs)) as Ht. pose proof (slotLevels_le info defs) as HLd.
  replace (i64 (0 + trues (slotBits info defs))) with (trues (slotBits info defs)); [reflexivity|]. unfold i64. rewrite Z.mod_small by lia. lia.
Qed.

Lemma DefLevelsToBitmap_ok info defs bm out :
  infoOk info -> io_ValidBits out = Some bm -> bytes bm -> 0 <= io_ValidBitsOffset out -> 0 < io_ReadUpperBound out -> io_ValidBitsOffset out + io_ReadUpperBound out <= 8 * len bm ->
  len (slotLevels info defs) <= io_ReadUpperBound out -> len defs < 2 ^ 63 ->
  exists bm', DefLevelsToBitmap defs info out = Some (mkIO (io_ReadUpperBound out) (len (slotLevels info defs)) (io_NullCount out + falses (slotBits info defs)) (Some bm') (io_ValidBitsOffset out)) /\
    bitmapHas bm (io_ValidBitsOffset out) (slotBits info defs) bm'.
Proof.
  intros HI Hbm Hb Ho Hu Hfit Hn HL. apply DefLevelsToBitmap_batches; auto using batches_total; [lia|]. unfold slotLevels in Hn. destruct (Z.ltb_spec 0 (li_RepLevel info)); auto.
Qed.
