(* ===== verification/LevelLists.v ===== *)
(** * The lists that levels describe, and that [DefRepLevelsToListInfo] finds them

    [scan] reads levels as the lists of one nesting depth: for each list its validity and its
    size. *)

From Stdlib Require Import ZArith List Lia Bool String.
From S2P Require Import Prelude GoStd BitUtil MathUtil Bmi BitmapWriter LevelConversion PathShred.
Import ListNotations.
#[local] Open Scope Z_scope.
#[local] Open Scope go_scope.

(** A list: whether it is valid, and its size. *)
Abbreviation listSlot := (bool * Z)%type.

(** One more element for the last list. *)
Fixpoint grow (S : list listSlot) : option (list listSlot) :=
  match S with
  | [] => None
  | [(b, n)] => Some [(b, n + 1)]
  | x :: S' => S'' <- grow S' ;; Some (x :: S'')
  end.

Fixpoint scan (info : LevelInfo) (E : list entry) (S : list listSlot) : option (list listSlot) :=
  match E with
  | [] => Some S
  | (rep, def) :: E' =>
      if (def <? li_RepeatedAncestorDefLevel info) || (li_RepLevel info <? rep) then scan info E' S
      else if rep =? li_RepLevel info then S' <- grow S ;; scan info E' S'
      else scan info E' (S ++ [(li_DefLevel info - 1 <=? def, if li_DefLevel info <=? def then 1 else 0)])
  end.

(** The offsets of lists of sizes [ns]. *)
Fixpoint offsetsFrom (o : Z) (ns : list Z) : list Z := o :: match ns with [] => [] | n :: ns' => offsetsFrom (o + n) ns' end.

Definition sumOf (ns : list Z) : Z := fold_right Z.add 0 ns.

Lemma sumOf_app a b : sumOf (a ++ b) = sumOf a + sumOf b.
Proof. unfold sumOf. induction a as [|x a IH]; cbn [app fold_right]; lia. Qed.

Lemma offsetsFrom_snoc ns : forall o n, offsetsFrom o (ns ++ [n]) = offsetsFrom o ns ++ [o + sumOf ns + n].
Proof.
  induction ns as [|m ns IH]; intros o n; cbn [app offsetsFrom sumOf fold_right]; [do 3 f_equal; lia|]. rewrite IH. cbn [app]. do 2 f_equal. fold (sumOf ns). f_equal. lia.
Qed.

Lemma length_offsetsFrom ns : forall o, List.length (offsetsFrom o ns) = S (List.length ns).
Proof. induction ns as [|n ns IH]; intros o; cbn [offsetsFrom List.length]; [reflexivity|]. now rewrite IH. Qed.

Lemma offsetsFrom_last ns o : exists l, offsetsFrom o ns = l ++ [o + sumOf ns] /\ List.length l = List.length ns.
Proof.
  destruct ns as [|x ns] using rev_ind; [exists []; cbn; split; [do 2 f_equal; lia|reflexivity]|]. exists (offsetsFrom o ns). rewrite offsetsFrom_snoc, sumOf_app. cbn [sumOf fold_right]. rewrite length_offsetsFrom, length_app. cbn [List.length]. split; [do 2 f_equal; lia|lia].
Qed.

Lemma grow_snoc S b n : grow (S ++ [(b, n)]) = Some (S ++ [(b, n + 1)]).
Proof. induction S as [|x S IH]; [reflexivity|]. cbn [app grow]. destruct (S ++ [(b, n)]) eqn:E; [destruct S; discriminate|]. rewrite IH. now destruct x. Qed.

Lemma grow_inv S S' : grow S = Some S' -> exists S0 b n, S = S0 ++ [(b, n)] /\ S' = S0 ++ [(b, n + 1)].
Proof.
  intros H. destruct S as [|[b n] S] using rev_ind; [discriminate|]. rewrite grow_snoc in H. injection H as <-. eauto.
Qed.

Lemma scan_app info E1 : forall E2 S S1, scan info E1 S = Some S1 -> scan info (E1 ++ E2) S = scan info E2 S1.
Proof.
  induction E1 as [|[rep def] E1 IH]; intros E2 S S1 H; cbn [app scan] in *; [congruence|]. destruct ((def <? li_RepeatedAncestorDefLevel info) || (li_RepLevel info <? rep)); [now apply IH|]. destruct (rep =? li_RepLevel info); [|now apply IH].
  destruct (grow S) as [S'|]; [|discriminate]. cbn [opt_bind] in *. now apply IH.
Qed.

Definition sizes (S : list listSlot) : list Z := map snd S.
Definition valids (S : list listSlot) : list bool := map fst S.

Lemma scan_mono info E : forall S S', scan info E S = Some S' -> len S <= len S' /\ sumOf (sizes S) <= sumOf (sizes S').
Proof.
  induction E as [|[rep def] E IH]; intros S S' H; cbn [scan] in H; [injection H as <-; lia|]. destruct (_ || _); [now apply IH|]. destruct (rep =? li_RepLevel info).
  - destruct (grow S) as [S1|] eqn:EG; [|discriminate]. cbn [opt_bind] in H. apply IH in H. apply grow_inv in EG as (S0 & b & n & -> & ->). unfold sizes in *. rewrite !map_app, !sumOf_app, !length_app in *. cbn [map snd sumOf fold_right List.length] in *. lia.
  - apply IH in H. unfold sizes in *. rewrite map_app, sumOf_app, length_app in *. cbn [map snd sumOf fold_right List.length] in *. destruct (li_DefLevel info <=? def); lia.
Qed.

(** ** The loop *)

Section Loop.
Variables (bits : Z) (info : LevelInfo) (bound : Z) (bm : option (list Z)) (start : Z) (offs0 : list Z) (nulls0 : Z).
Hypotheses (HInfo : infoOk info) (Hb : 0 < bound) (Hs : 0 <= start) (Hfit : forall b, bm = Some b -> start + bound <= 8 * len b).

Definition offsetsAt (S : list listSlot) (offs : list Z) (pos : Z) : Prop :=
  match offs0 with
  | [] => offs = [] /\ pos = 0
  | o0 :: _ => offs = offsetsFrom o0 (sizes S) ++ skipn (Datatypes.S (List.length S)) offs0 /\ pos = len S
  end.

Definition bitsAt (S : list listSlot) (wr : option ftWriter) (nulls : Z) : Prop :=
  match bm, wr with
  | None, None => nulls = nulls0
  | Some b, Some wr => ftOk b start (valids S) wr /\ ft_length wr = bound /\ nulls = nulls0 + falses (valids S)
  | _, _ => False
  end.

Definition listsAtState (S : list listSlot) (st : listState) : Prop := offsetsAt S (ls_offsets st) (ls_pos st) /\ bitsAt S (ls_wr st) (ls_nulls st).

(** There is room for [S] and one more. *)
Definition roomFor (S : list listSlot) : Prop := len S <= bound /\ match offs0 with [] => True | o0 :: _ => len S < len offs0 /\ o0 + sumOf (sizes S) <= maxOffset bits end.

Lemma bump_ok (l : list Z) v r : v < maxOffset bits -> bump bits (l ++ v :: r) (len l) = Some (inl (l ++ (v + 1) :: r)).
Proof. intros Hv. unfold bump. rewrite index_split. cbn [opt_bind]. bool_lia (v =? maxOffset bits). rewrite store_split. reflexivity. Qed.

Lemma grow_state S b n st :
  listsAtState (S ++ [(b, n)]) st -> roomFor (S ++ [(b, n + 1)]) ->
  exists st', (if ls_pos st <? len (ls_offsets st) then r <- bump bits (ls_offsets st) (ls_pos st) ;; match r with inr e => Some (st, Some e) | inl offsets => Some (mkLS (ls_wr st) (ls_nulls st) offsets (ls_pos st), None) end else Some (st, None)) = Some (st', None) /\ listsAtState (S ++ [(b, n + 1)]) st'.
Proof.
  intros [HO HB] [_ HR]. assert (HB' : bitsAt (S ++ [(b, n + 1)]) (ls_wr st) (ls_nulls st)) by (unfold bitsAt, valids in *; rewrite map_app in *; exact HB). clear HB.
  unfold listsAtState, offsetsAt in *. destruct offs0 as [|o0 offs1] eqn:Eo.
  - destruct HO as [HO1 HO2]. rewrite HO1, HO2. cbn [List.length]. bool_lia (0 <? Z.of_nat 0). exists st. auto.
  - destruct HO as [HO1 HO2]. unfold sizes in *. rewrite !map_app in *. cbn [map snd] in *. rewrite offsetsFrom_snoc in *. set (r := skipn _ _) in HO1. rewrite <- app_assoc in *. cbn [app] in *.
    assert (HL : len (offsetsFrom o0 (map snd S)) = ls_pos st) by (rewrite HO2, length_offsetsFrom, length_map, length_app; cbn [List.length]; lia).
    assert (Hlt : ls_pos st < len (ls_offsets st)) by (rewrite HO1, <- HL, length_app; cbn [List.length]; lia). bool_lia (ls_pos st <? len (ls_offsets st)). rewrite HO1, <- HL.
    destruct HR as [_ HR]. rewrite sumOf_app in HR. cbn [sumOf fold_right] in HR. fold (sumOf (map snd S)) in HR. rewrite bump_ok by lia. cbn [opt_bind]. eexists. split; [reflexivity|]. cbn [ls_wr ls_nulls ls_offsets ls_pos]. split; [|exact HB'].
    split; [|rewrite HL, HO2, !length_app; reflexivity]. f_equal. f_equal; [lia|]. subst r. rewrite !length_app. reflexivity.
Qed.

Lemma newList_ok S st def :
  listsAtState S st -> roomFor (S ++ [(li_DefLevel info - 1 <=? def, if li_DefLevel info <=? def then 1 else 0)]) ->
  exists st', newList bits info bound def st = Some (st', None) /\ listsAtState (S ++ [(li_DefLevel info - 1 <=? def, if li_DefLevel info <=? def then 1 else 0)]) st'.
Proof.
  intros [HO HB] [HRb HR]. set (v := li_DefLevel info - 1 <=? def) in *. set (k := if li_DefLevel info <=? def then 1 else 0) in *. destruct HInfo as (HD & _ & _). unfold newList. rewrite length_app in HRb. cbn [List.length] in HRb.
  assert (Hpos : ls_pos st <= len S) by (unfold offsetsAt in HO; destruct offs0; destruct HO as [_ ->]; lia).
  replace ((match ls_wr st with Some wr => bound <=? FT.Pos wr | None => false end) || (bound <=? ls_pos st)) with false.
  2: { symmetry. apply orb_false_iff. split; [|apply Z.leb_gt; lia]. unfold bitsAt in HB. destruct bm, (ls_wr st) as [wr|]; try contradiction; [|reflexivity]. destruct HB as [(_ & _ & Hp & _) _]. apply Z.leb_gt. unfold FT.Pos, valids in *. rewrite Hp, length_map. lia. }
  assert (Hoff : exists st1, openList bits info def st = Some (st1, None) /\ ls_wr st1 = ls_wr st /\ ls_nulls st1 = ls_nulls st /\ offsetsAt (S ++ [(v, k)]) (ls_offsets st1) (ls_pos st1)).
  { unfold openList, offsetsAt in *. destruct offs0 as [|o0 offs1] eqn:Eo.
    - destruct HO as [HO1 HO2]. rewrite HO1, HO2. cbn [List.length]. bool_lia (0 + 1 <? Z.of_nat 0). exists st. auto.
    - destruct HO as [HO1 HO2]. destruct HR as [HRl HRs]. rewrite length_app in HRl. cbn [List.length] in HRl. cbn zeta. replace (ls_pos st + 1 - 1) with (ls_pos st) by lia.
      destruct (offsetsFrom_last (sizes S) o0) as (l & Hl & HLl). unfold sizes in HLl. rewrite length_map in HLl.
      assert (Hsk : exists x r, skipn (Datatypes.S (List.length S)) (o0 :: offs1) = x :: r /\ r = skipn (Datatypes.S (Datatypes.S (List.length S))) (o0 :: offs1)) by (exists (nth (Datatypes.S (List.length S)) (o0 :: offs1) 0); eexists; split; [apply skipn_cons; cbn [List.length]; lia|reflexivity]).
      destruct Hsk as (x & r & Hsk & Hr). rewrite Hsk, Hl, <- app_assoc in HO1. cbn [app] in HO1. set (u := o0 + sumOf (sizes S)) in *. assert (HLp : ls_pos st = len l) by lia. rewrite HO1, HLp.
      assert (Hlt : len l + 1 < len (l ++ u :: x :: r)) by (rewrite length_app; cbn [List.length]; lia). bool_lia (len l + 1 <? len (l ++ u :: x :: r)). rewrite index_split. cbn [opt_bind]. rewrite store_split2. cbn [opt_bind].
      unfold sizes in HRs. rewrite map_app, sumOf_app in HRs. cbn [map snd sumOf fold_right] in HRs. fold (sumOf (map snd S)) in HRs. fold (sizes S) in HRs.
      assert (Hfin : offsetsFrom o0 (sizes (S ++ [(v, k)])) ++ skipn (Datatypes.S (List.length (S ++ [(v, k)]))) (o0 :: offs1) = l ++ u :: (u + k) :: r).
      { unfold sizes at 1. rewrite map_app. cbn [map snd]. rewrite offsetsFrom_snoc. fold (sizes S). rewrite Hl, <- !app_assoc. cbn [app]. rewrite length_app. cbn [List.length]. replace (Datatypes.S (List.length S + 1)) with (Datatypes.S (Datatypes.S (List.length S))) by lia. now rewrite <- Hr. }
      destruct (li_DefLevel info <=? def) eqn:Ed; subst k.
      + pose proof (bump_ok (l ++ [u]) u r ltac:(lia)) as HBu. rewrite length_app in HBu. cbn [List.length] in HBu. rewrite <- !app_assoc in HBu. cbn [app] in HBu. replace (len l + 1) with (Z.of_nat (List.length l + 1)) by lia. rewrite HBu. cbn [opt_bind]. eexists. split; [reflexivity|]. cbn [ls_wr ls_nulls ls_offsets ls_pos]. rewrite Hfin, length_app. cbn [List.length]. splits; auto; lia.
      + eexists. split; [reflexivity|]. cbn [ls_wr ls_nulls ls_offsets ls_pos]. rewrite Hfin, Z.add_0_r, length_app. cbn [List.length]. splits; auto; lia. }
  destruct Hoff as (st1 & HE & Hw1 & Hn1 & HO1). rewrite HE. cbn [opt_bind]. rewrite Hw1, Hn1. rewrite wrapS_id by (try lia; unfold inS; change (2 ^ (16 - 1)) with (2 ^ 15); lia). fold v.
  unfold bitsAt in HB. destruct bm as [b|] eqn:Ebm, (ls_wr st) as [wr|] eqn:Ew; try contradiction.
  - destruct HB as (Hok & Hlen & Hnul). specialize (Hfit b eq_refl). assert (HLv : len (valids S) = len S) by (unfold valids; now rewrite length_map).
    destruct (putBit_ok b start (valids S) wr v Hok Hs ltac:(lia)) as (wr' & HP & Hok' & Hl'). assert (Hfl : falses (valids (S ++ [(v, k)])) = falses (valids S) + if v then 0 else 1) by (unfold valids; rewrite map_app, falses_app; cbn [map fst]; unfold falses, trues; destruct v; cbn; lia).
    assert (Hva : valids (S ++ [(v, k)]) = valids S ++ [v]) by (unfold valids; apply map_app). unfold putBit in HP. rewrite Hva in Hfl. clearbody v. destruct v; cbn match in Hfl; rewrite HP; cbn [opt_bind]; eexists; (split; [reflexivity|]); (split; [exact HO1|]); unfold bitsAt; rewrite Ebm; cbn [ls_wr ls_nulls]; rewrite Hva; (split; [exact Hok'|]); split; lia.
  - exists st1. split; [reflexivity|]. split; [exact HO1|]. unfold bitsAt. rewrite Ebm, Hw1, Hn1. exact HB.
Qed.

Lemma roomFor_le S S' : roomFor S' -> len S <= len S' -> sumOf (sizes S) <= sumOf (sizes S') -> roomFor S.
Proof. intros [H1 H2] HL HS. split; [lia|]. destruct offs0; [exact I|lia]. Qed.

(** The loop finds the lists of [scan]. *)
Lemma listLoop_ok E : forall S S' st, scan info E S = Some S' -> listsAtState S st -> roomFor S' -> exists st', listLoop bits info bound (map snd E) (map fst E) st = Some (st', None) /\ listsAtState S' st'.
Proof.
  induction E as [|[rep def] E IH]; intros S S' st HE HS HR; cbn [scan map fst snd listLoop tl] in *; [injection HE as <-; eauto|]. destruct (def <? li_RepeatedAncestorDefLevel info); cbn [orb] in HE; [now apply (IH S)|].
  cbn [index]. rewrite (index_ok (rep :: map fst E) 0 0) by (cbn [List.length]; lia). cbn [Z.to_nat nth opt_bind]. destruct (li_RepLevel info <? rep); [now apply (IH S)|]. destruct (rep =? li_RepLevel info).
  - destruct (grow S) as [S1|] eqn:EG; [|discriminate]. cbn [opt_bind] in HE. pose proof (scan_mono info E S1 S' HE) as [HL1 HL2]. apply grow_inv in EG as (S0 & b & n & -> & ->).
    destruct (grow_state S0 b n st HS ltac:(now apply (roomFor_le _ S'))) as (st1 & -> & HS1). cbn [opt_bind]. exact (IH _ S' st1 HE HS1 HR).
  - pose proof (scan_mono info E _ S' HE) as [HL1 HL2]. destruct (newList_ok S st def HS ltac:(now apply (roomFor_le _ S'))) as (st1 & -> & HS1). cbn [opt_bind]. exact (IH _ S' st1 HE HS1 HR).
Qed.
End Loop.

(** The lists of the levels: their offsets from the first one given, their validity bits, their
    number and that of the nulls. *)
Lemma DefRepLevelsToListInfo_ok bits info out offs0 E S :
  infoOk info -> 0 < io_ReadUpperBound out -> 0 <= io_ValidBitsOffset out ->
  (forall b, io_ValidBits out = Some b -> bytes b /\ io_ValidBitsOffset out + io_ReadUpperBound out <= 8 * len b) ->
  scan info E [] = Some S -> roomFor bits (io_ReadUpperBound out) offs0 S ->
  exists out' offs', let nulls := io_NullCount out + match io_ValidBits out with Some _ => falses (valids S) | None => 0 end in
    DefRepLevelsToListInfo bits (map snd E) (map fst E) info out offs0 = Some (out', offs', if (0 <? nulls) && (1 <? li_NullSlotUsage info) then Some errSlots else None) /\
    offsetsAt offs0 S offs' (match offs0 with [] => 0 | _ => len S end) /\ io_NullCount out' = nulls /\ io_ReadUpperBound out' = io_ReadUpperBound out /\ io_ValidBitsOffset out' = io_ValidBitsOffset out /\
    match io_ValidBits out with
    | Some b => io_Read out' = len S /\ exists b', io_ValidBits out' = Some b' /\ bitmapHas b (io_ValidBitsOffset out) (valids S) b'
    | None => io_ValidBits out' = None /\ (offs0 <> [] -> io_Read out' = len S)
    end.
Proof.
  intros HI Hb Ho HBits HE HR. set (bound := io_ReadUpperBound out) in *. set (start := io_ValidBitsOffset out) in *. unfold DefRepLevelsToListInfo. fold bound. fold start.
  assert (HLv : len (valids S) = len S) by (unfold valids; now rewrite length_map).
  assert (Hwr : exists wr, (match io_ValidBits out with Some b => wr <- FT.NewFirstTimeBitmapWriter b start bound ;; Some (Some wr) | None => Some None end) = Some wr /\ bitsAt bound (io_ValidBits out) start (io_NullCount out) [] wr (io_NullCount out)).
  { unfold bitsAt. destruct (io_ValidBits out) as [b|]; [|exists None; auto]. destruct (HBits b eq_refl) as [Hby Hfit]. destruct (FTNew_ok b start bound Hby Ho Hb Hfit) as (wr & -> & Hok & Hl). exists (Some wr). cbn [opt_bind valids map]. unfold falses, trues. cbn. split; [reflexivity|]. splits; auto. lia. }
  destruct Hwr as (wr & -> & HB0). cbn [opt_bind].
  assert (HS0 : listsAtState bound (io_ValidBits out) start offs0 (io_NullCount out) [] (mkLS wr (io_NullCount out) offs0 0)) by (split; [|exact HB0]; cbn [ls_offsets ls_pos]; unfold offsetsAt; destruct offs0; auto).
  destruct (listLoop_ok bits info bound (io_ValidBits out) start offs0 (io_NullCount out) HI Ho (fun b H => proj2 (HBits b H)) E [] S _ HE HS0 HR) as (st & -> & HO & HB). cbn [opt_bind].
  assert (Hpos : ls_pos st = match offs0 with [] => 0 | _ => len S end) by (unfold offsetsAt in HO; destruct offs0; apply HO). rewrite Hpos in HO.
  assert (Hlen : (0 <? len (ls_offsets st)) = match offs0 with [] => false | _ => true end) by (unfold offsetsAt in HO; destruct offs0; destruct HO as [-> _]; [reflexivity|]; apply Z.ltb_lt; rewrite length_app, length_offsetsFrom; lia).
  unfold bitsAt in HB. rewrite Hpos, Hlen. destruct (io_ValidBits out) as [b|] eqn:Eb, (ls_wr st) as [wr'|]; try contradiction.
  - destruct HB as (Hok & Hl & Hn). destruct HR as [HR1 _]. destruct (HBits b eq_refl) as [_ Hfit]. destruct (Finish_ok b start (valids S) wr' Hok Ho ltac:(lia) ltac:(lia) ltac:(lia)) as (b' & -> & Hhas). cbn [opt_bind]. rewrite Hn.
    eexists _, _. split; [reflexivity|]. split; [exact HO|]. cbn [io_NullCount io_Read io_ValidBits io_ReadUpperBound io_ValidBitsOffset]. split; [reflexivity|]. split; [reflexivity|]. split; [reflexivity|]. split; [|eauto]. destruct Hok as (_ & _ & Hp & _). unfold FT.Pos. destruct offs0; lia.
  - rewrite HB. cbn [opt_bind]. eexists _, _. rewrite Z.add_0_r. split; [reflexivity|]. split; [exact HO|]. cbn [io_NullCount io_Read io_ValidBits io_ReadUpperBound io_ValidBitsOffset]. splits; auto. destruct offs0; congruence.
Qed.
