(* ===== verification/Nested.v ===== *)
(** * Reading back what was shredded: the levels of values, read as lists and as leaf slots *)

From Stdlib Require Import ZArith List Lia Bool.
From S2P Require Import Prelude GoStd BitUtil MathUtil Memory Bmi BitmapWriter LevelConversion LevelLists PathBuilder PathShred PathColumns.
Import ListNotations.
#[local] Open Scope Z_scope.
#[local] Open Scope go_scope.

(** ** The level information of the lists and of the leaf of a type *)

Definition optional (nb : bool) (l : LevelInfo) : LevelInfo := LI.Increment l (if nb then Optional else Required).

(** Of the [j]-th list, from outside: as [listToSchemaField] has it. *)
Fixpoint listInfo (t : ltype) (j : nat) (l : LevelInfo) : LevelInfo :=
  match t with
  | TLeaf _ => l
  | TStruct nb t => listInfo t j (optional nb l)
  | TList nb t =>
      let '(l, repeatedAncestorDef) := LI.IncrementRepeated (optional nb l) in
      match j with
      | O => mkLI (li_NullSlotUsage l) (li_DefLevel l) (li_RepLevel l) repeatedAncestorDef
      | S j => listInfo t j l
      end
  end.

(** Of the leaf. *)
Fixpoint leafInfo (t : ltype) (l : LevelInfo) : LevelInfo :=
  match t with
  | TLeaf nb => optional nb l
  | TStruct nb t => leafInfo t (optional nb l)
  | TList nb t => leafInfo t (fst (LI.IncrementRepeated (optional nb l)))
  end.

Definition rootLevels : LevelInfo := mkLI 1 0 0 0.

(** ** The lists and the leaf slots of values *)

(** The outermost list of a value: [None] if it, or a struct above it, is null. *)
Fixpoint outer (t : ltype) (v : value) : option (list value) :=
  match t, v with
  | TStruct _ t, VStruct v => outer t v
  | TList _ _, VList vs => Some vs
  | _, _ => None
  end.

Fixpoint elemType (t : ltype) : ltype := match t with TLeaf _ => t | TStruct _ t => elemType t | TList _ t => t end.

(** The lists at the [j]-th list of the type, in order: one for each element of the lists around
    them. *)
Fixpoint listsOf (t : ltype) (j : nat) (vs : list value) : list (option (list value)) :=
  match j with
  | O => map (outer t) vs
  | S j => listsOf (elemType t) j (flat_map (fun v => match outer t v with Some l => l | None => [] end) vs)
  end.

Definition slotOf (l : option (list value)) : listSlot := match l with Some l => (true, len l) | None => (false, 0) end.

(** The slots of the leaf's array, and which of them have a value. *)
Fixpoint leafBits (t : ltype) (v : value) : list bool :=
  match v, t with
  | VNull _, _ => if depth t =? 0 then [false] else []
  | VLeaf _, TLeaf _ => [true]
  | VStruct v, TStruct _ t => leafBits t v
  | VList vs, TList _ t => flat_map (leafBits t) vs
  | _, _ => []
  end.

Definition typeNullable (t : ltype) : bool := match t with TLeaf nb | TStruct nb _ | TList nb _ => nb end.

(** A value of the type: nulls where they may be. *)
Fixpoint typed (t : ltype) (v : value) : Prop :=
  match v, t with
  | VNull _, _ => typeNullable t = true
  | VLeaf _, TLeaf _ => True
  | VStruct v, TStruct _ t => typed t v
  | VList vs, TList _ t => fold_right (fun v acc => typed t v /\ acc) True vs
  | _, _ => False
  end.

Lemma typed_elems t vs : fold_right (fun v acc => typed t v /\ acc) True vs <-> Forall (typed t) vs.
Proof. induction vs as [|v vs IH]; cbn [fold_right]; split; intros H; auto; [destruct H; constructor; tauto|inversion H; tauto]. Qed.

Lemma valueOf_typed c : forall i, columnOk c -> conforms c i -> 0 <= i < colLen c -> typed (typeOf c) (valueOf c i).
Proof.
  induction c as [nb a|nb a c IH|nb a lay c IH]; intros i [HD HC] [Hv HF] Hi; cbn [typeOf valueOf colData colNullable] in *; destruct (validAt a i) eqn:Ev; cbn [negb typed typeNullable]; try (destruct Hv; congruence); auto.
  - destruct HC as [HL HC]. apply IH; auto. unfold colLen in *. cbn [colData] in Hi. lia.
  - destruct HC as [HL HC]. unfold colLen in Hi. cbn [colData] in Hi. pose proof (layout_bounds lay a _ i HL HD Hi) as [Hse Hm]. specialize (HF eq_refl). destruct (elemsOf a lay i) as [s e]. cbn [fst snd] in *. cbn [typed]. apply typed_elems, Forall_map, Forall_forall.
    intros j Hj. apply in_zrange in Hj. apply IH; auto. lia.
Qed.

(** ** Level information *)

Lemma optional_ok nb u d k A : 0 <= d -> d + Z.b2z nb < 2 ^ 15 -> optional nb (mkLI u d k A) = mkLI u (d + Z.b2z nb) k A.
Proof. intros H0 H. destruct nb; cbn [optional LI.Increment LI.IncrementOptional Z.b2z li_NullSlotUsage li_DefLevel li_RepLevel li_RepeatedAncestorDefLevel] in *; unfold optional; cbn [LI.Increment]; [unfold LI.IncrementOptional; cbn; rewrite wrapS_id by (try lia; apply level_inS; lia); reflexivity|now rewrite Z.add_0_r]. Qed.

Lemma repeated_ok nb u d k A : 0 <= d -> 0 <= k -> d + Z.b2z nb + 1 < 2 ^ 15 -> k + 1 < 2 ^ 15 -> LI.IncrementRepeated (optional nb (mkLI u d k A)) = (mkLI u (d + Z.b2z nb + 1) (k + 1) (d + Z.b2z nb + 1), A).
Proof. intros H0 Hk H1 H2. assert (0 <= Z.b2z nb) by (destruct nb; cbn; lia). rewrite optional_ok by lia. unfold LI.IncrementRepeated. cbn [li_NullSlotUsage li_DefLevel li_RepLevel li_RepeatedAncestorDefLevel]. rewrite !wrapS_id by (try lia; apply level_inS; lia). reflexivity. Qed.

(** There are levels for the type below [d] and [k]. *)
Definition levelsLeft (t : ltype) (d k : Z) : Prop := 0 <= d /\ 0 <= k /\ d + maxDef t < 2 ^ 15 /\ k + depth t < 2 ^ 15.

Lemma b2z_bound b : 0 <= Z.b2z b <= 1.
Proof. destruct b; cbn; lia. Qed.

Lemma levelsLeft_struct nb t d k : levelsLeft (TStruct nb t) d k -> levelsLeft t (d + Z.b2z nb) k /\ d + Z.b2z nb < 2 ^ 15.
Proof. unfold levelsLeft. cbn [maxDef depth]. pose proof (b2z_bound nb). pose proof (maxDef_nonneg t). lia. Qed.

Lemma levelsLeft_list nb t d k : levelsLeft (TList nb t) d k -> levelsLeft t (d + Z.b2z nb + 1) (k + 1) /\ d + Z.b2z nb + 1 < 2 ^ 15 /\ k + 1 < 2 ^ 15.
Proof. unfold levelsLeft. cbn [maxDef depth]. pose proof (b2z_bound nb). pose proof (maxDef_nonneg t). pose proof (depth_nonneg t). lia. Qed.

Lemma listInfo_spec t : forall j u d k A, levelsLeft t d k -> 0 <= A <= d -> Z.of_nat j < depth t ->
  let li := listInfo t j (mkLI u d k A) in
  li_NullSlotUsage li = u /\ li_RepLevel li = k + 1 + Z.of_nat j /\ d + Z.b2z (typeNullable t) < li_DefLevel li < 2 ^ 15 /\
  (if (j =? 0)%nat then li_RepeatedAncestorDefLevel li = A else d + Z.b2z (typeNullable t) < li_RepeatedAncestorDefLevel li < 2 ^ 15).
Proof.
  induction t as [nb|nb t IH|nb t IH]; intros j u d k A HL HA Hj; cbn [depth listInfo typeNullable] in *; [lia| |].
  - destruct (levelsLeft_struct nb t d k HL) as [HL' Hd]. destruct HL as (H0 & Hk & _). rewrite optional_ok by lia. pose proof (b2z_bound nb). specialize (IH j u (d + Z.b2z nb) k A HL' ltac:(lia) Hj). cbn zeta in *. pose proof (b2z_bound (typeNullable t)). destruct IH as (I1 & I2 & I3 & I4).
    split; [exact I1|]. split; [exact I2|]. split; [lia|]. destruct (j =? 0)%nat; [exact I4|lia].
  - destruct (levelsLeft_list nb t d k HL) as (HL' & Hd & Hk'). destruct HL as (H0 & Hk & _). rewrite repeated_ok by lia. destruct j as [|j]; cbn [Nat.eqb].
    + cbn [li_NullSlotUsage li_DefLevel li_RepLevel li_RepeatedAncestorDefLevel]. pose proof (b2z_bound nb). splits; auto; lia.
    + pose proof (b2z_bound nb). specialize (IH j u (d + Z.b2z nb + 1) (k + 1) (d + Z.b2z nb + 1) HL' ltac:(lia) ltac:(lia)). cbn zeta in *. pose proof (b2z_bound (typeNullable t)). destruct IH as (I1 & I2 & I3 & I4).
      split; [exact I1|]. split; [lia|]. split; [lia|]. destruct (j =? 0)%nat; lia.
Qed.

Lemma leafInfo_spec t : forall u d k A, levelsLeft t d k -> 0 <= A <= d ->
  let li := leafInfo t (mkLI u d k A) in
  li_DefLevel li = d + maxDef t /\ li_RepLevel li = k + depth t /\ (if depth t =? 0 then li_RepeatedAncestorDefLevel li = A else d + Z.b2z (typeNullable t) < li_RepeatedAncestorDefLevel li <= d + maxDef t).
Proof.
  induction t as [nb|nb t IH|nb t IH]; intros u d k A HL HA; cbn [depth leafInfo maxDef typeNullable] in *.
  - destruct HL as (H0 & Hk & H1 & H2). cbn [maxDef] in H1. rewrite optional_ok by lia. cbn. splits; auto. lia.
  - destruct (levelsLeft_struct nb t d k HL) as [HL' Hd]. destruct HL as (H0 & Hk & _). rewrite optional_ok by lia. pose proof (b2z_bound nb). specialize (IH u (d + Z.b2z nb) k A HL' ltac:(lia)). cbn zeta in *. pose proof (b2z_bound (typeNullable t)). destruct IH as (I1 & I2 & I3).
    split; [lia|]. split; [exact I2|]. destruct (depth t =? 0); [exact I3|lia].
  - destruct (levelsLeft_list nb t d k HL) as (HL' & Hd & Hk'). destruct HL as (H0 & Hk & _). rewrite repeated_ok by lia. cbn [fst]. pose proof (b2z_bound nb). pose proof (depth_nonneg t). specialize (IH u (d + Z.b2z nb + 1) (k + 1) (d + Z.b2z nb + 1) HL' ltac:(lia)). cbn zeta in *. pose proof (b2z_bound (typeNullable t)). pose proof (maxDef_nonneg t). destruct IH as (I1 & I2 & I3).
    split; [lia|]. split; [lia|]. bool_lia (1 + depth t =? 0). destruct (depth t =? 0); lia.
Qed.

(** ** Entries as lists *)

(** The first entry of a value carries [r]; the others are inside the lists of the value. *)
Lemma dremel_head t : forall d k r v, typed t v -> exists d0 s rest, dremel t d k r v = (r, d0, s) :: rest /\ d <= d0 /\ Forall (fun e : slotted => k < fst (fst e)) rest.
Proof.
  induction t as [nb|nb t IH|nb t IH]; intros d k r v Hv; pose proof (b2z_bound nb); destruct v as [i|i|v|vs]; cbn [typed] in Hv; try contradiction; cbn [dremel]; try (eexists _, _, _; split; [reflexivity|]; split; [lia|constructor]).
  - destruct (IH (d + Z.b2z nb) k r v Hv) as (d0 & s & rest & -> & Hd & HF). eexists _, _, _. split; [reflexivity|]. split; [lia|exact HF].
  - destruct vs as [|v vs]; [eexists _, _, _; split; [reflexivity|]; split; [lia|constructor]|]. cbn [fold_right] in Hv. destruct Hv as [Hv Hvs]. destruct (IH (d + Z.b2z nb + 1) (k + 1) r v Hv) as (d0 & s & rest & -> & Hd & HF).
    eexists _, _, _. split; [reflexivity|]. split; [lia|]. apply Forall_app. split; [eapply Forall_impl; [|exact HF]; cbn; intros; lia|]. apply Forall_flat_map. intros w Hw. apply typed_elems in Hvs. rewrite Forall_forall in Hvs.
    destruct (IH (d + Z.b2z nb + 1) (k + 1) (k + 1) w (Hvs w Hw)) as (d1 & s1 & rest1 & -> & _ & HF1). constructor; [cbn; lia|]. eapply Forall_impl; [|exact HF1]. cbn. intros. lia.
Qed.

Lemma scan_skip li E S : Forall (fun e : slotted => li_RepLevel li < fst (fst e)) E -> scan li (map fst E) S = Some S.
Proof.
  intros HF. induction HF as [|[[rep def] s] E He HF IH]; cbn [map fst scan]; [reflexivity|]. cbn [fst] in He. bool_lia (li_RepLevel li <? rep). rewrite orb_true_r. exact IH.
Qed.

Lemma listsOf_app t j : forall a b, listsOf t j (a ++ b) = listsOf t j a ++ listsOf t j b.
Proof. revert t. induction j as [|j IH]; intros t a b; cbn [listsOf]; [apply map_app|]. rewrite flat_map_app. apply IH. Qed.

Lemma listsOf_nil t j : listsOf t j [] = [].
Proof. revert t. induction j as [|j IH]; intros t; cbn [listsOf map flat_map]; auto. Qed.

Lemma listsOf_struct nb t j v : listsOf (TStruct nb t) j [VStruct v] = listsOf t j [v].
Proof. destruct j; reflexivity. Qed.

Lemma listsOf_null t j i : listsOf t j [VNull i] = if (j =? 0)%nat then [None] else [].
Proof. destruct j; cbn [listsOf map flat_map Nat.eqb]; [destruct t; reflexivity|]. destruct t; cbn [outer app]; apply listsOf_nil. Qed.

(** One entry of an absent list: a null, or an empty list around the lists that are read. *)
Lemma scan_one li r d S : r < li_RepLevel li -> scan li [(r, d)] S = Some (if d <? li_RepeatedAncestorDefLevel li then S else S ++ [(li_DefLevel li - 1 <=? d, if li_DefLevel li <=? d then 1 else 0)]).
Proof. intros Hr. cbn [scan]. destruct (d <? li_RepeatedAncestorDefLevel li); cbn [orb]; [reflexivity|]. bool_lia (li_RepLevel li <? r). bool_lia (r =? li_RepLevel li). reflexivity. Qed.

(** The elements after the first of a list. *)
Lemma scan_elems t li d S b : forall vs n,
  Forall (typed t) vs -> li_RepeatedAncestorDefLevel li <= d ->
  scan li (map fst (flat_map (dremel t d (li_RepLevel li) (li_RepLevel li)) vs)) (S ++ [(b, n)]) = Some (S ++ [(b, n + len vs)]).
Proof.
  intros vs n HF HA. revert n. induction HF as [|v vs Hv HF IH]; intros n; cbn [flat_map map List.length]; [cbn; do 4 f_equal; lia|]. rewrite map_app. destruct (dremel_head t d (li_RepLevel li) (li_RepLevel li) v Hv) as (d0 & s & rest & -> & Hd & HR).
  rewrite (scan_app li _ _ _ (S ++ [(b, n + 1)])); [rewrite IH; do 4 f_equal; lia|]. cbn [map fst scan]. bool_lia (d0 <? li_RepeatedAncestorDefLevel li). bool_lia (li_RepLevel li <? li_RepLevel li). cbn [orb]. rewrite Z.eqb_refl, grow_snoc. cbn [opt_bind]. now apply scan_skip.
Qed.

(** The levels of a value, read at the [j]-th list. *)
Lemma scan_value t : forall j u d k A r v S, levelsLeft t d k -> typed t v -> 0 <= A <= d -> r <= k -> Z.of_nat j < depth t ->
  scan (listInfo t j (mkLI u d k A)) (map fst (dremel t d k r v)) S = Some (S ++ map slotOf (listsOf t j [v])).
Proof.
  induction t as [nb|nb t IH|nb t IH]; intros j u d k A r v S HL Hv HA Hr Hj; [cbn [depth] in Hj; lia| |].
  - destruct v as [i|i|v|vs]; try contradiction.
    + cbn [typed typeNullable] in Hv. pose proof (listInfo_spec (TStruct nb t) j u d k A HL HA Hj) as (_ & HR & HD & HAn). set (li := listInfo _ _ _) in *. cbn [typeNullable] in *. rewrite Hv in *. cbn [Z.b2z dremel map fst] in *. rewrite scan_one, listsOf_null by lia. f_equal.
      destruct (j =? 0)%nat; [rewrite HAn; bool_lia (d <? A); bool_lia (li_DefLevel li - 1 <=? d); bool_lia (li_DefLevel li <=? d); reflexivity|bool_lia (d <? li_RepeatedAncestorDefLevel li); cbn [map]; now rewrite app_nil_r].
    + cbn [typed] in Hv. destruct (levelsLeft_struct nb t d k HL) as [HL' Hd]. destruct HL as (H0 & Hk & _). pose proof (b2z_bound nb). cbn [listInfo dremel]. rewrite optional_ok by lia. rewrite listsOf_struct. apply IH; auto; lia.
  - pose proof (listInfo_spec (TList nb t) j u d k A HL HA Hj) as (_ & HR & HD & HAn). cbn [typeNullable] in *. destruct v as [i|i|v|vs]; try contradiction.
    + cbn [typed typeNullable] in Hv. set (li := listInfo _ _ _) in *. rewrite Hv in *. cbn [Z.b2z dremel map fst] in *. rewrite scan_one, listsOf_null by lia. f_equal.
      destruct (j =? 0)%nat; [rewrite HAn; bool_lia (d <? A); bool_lia (li_DefLevel li - 1 <=? d); bool_lia (li_DefLevel li <=? d); reflexivity|bool_lia (d <? li_RepeatedAncestorDefLevel li); cbn [map]; now rewrite app_nil_r].
    + destruct (levelsLeft_list nb t d k HL) as (HL' & Hd & Hk'). destruct HL as (H0 & Hk & _). pose proof (b2z_bound nb) as Hnb. cbn [listInfo] in *. rewrite repeated_ok in * by lia. cbn [typed] in Hv. destruct j as [|j]; cbn [Nat.eqb li_NullSlotUsage li_DefLevel li_RepLevel li_RepeatedAncestorDefLevel] in *.
      * set (li := mkLI u (d + Z.b2z nb + 1) (k + 1) A) in *. cbn [listsOf map outer slotOf]. destruct vs as [|v vs]; cbn [dremel].
        -- cbn [map fst]. rewrite scan_one by (cbn; lia). cbn [li li_DefLevel li_RepeatedAncestorDefLevel List.length]. bool_lia (d + Z.b2z nb <? A). bool_lia (d + Z.b2z nb + 1 - 1 <=? d + Z.b2z nb). bool_lia (d + Z.b2z nb + 1 <=? d + Z.b2z nb). reflexivity.
        -- cbn [fold_right] in Hv. destruct Hv as [Hv Hvs]. apply typed_elems in Hvs. rewrite map_app. destruct (dremel_head t (d + Z.b2z nb + 1) (k + 1) r v Hv) as (d0 & s & rest & -> & Hd0 & HF).
           rewrite (scan_app li _ _ S (S ++ [(true, 1)])).
           ++ change (k + 1) with (li_RepLevel li). rewrite (scan_elems t li (d + Z.b2z nb + 1) S true vs 1 Hvs) by (cbn; lia). cbn [List.length]. do 4 f_equal. lia.
           ++ cbn [map fst]. change ((r, d0) :: map fst rest) with ([(r, d0)] ++ map fst rest). rewrite (scan_app li _ _ S (S ++ [(true, 1)])); [now apply scan_skip|]. rewrite scan_one by (cbn; lia). cbn [li li_DefLevel li_RepeatedAncestorDefLevel]. bool_lia (d0 <? A). bool_lia (d + Z.b2z nb + 1 - 1 <=? d0). bool_lia (d + Z.b2z nb + 1 <=? d0). reflexivity.
      * cbn [depth] in Hj. set (l1 := mkLI u (d + Z.b2z nb + 1) (k + 1) (d + Z.b2z nb + 1)) in *. cbn [listsOf elemType flat_map outer]. rewrite app_nil_r. destruct vs as [|v vs]; cbn [dremel].
        -- cbn [map fst]. rewrite scan_one by lia. bool_lia (d + Z.b2z nb <? li_RepeatedAncestorDefLevel (listInfo t j l1)). rewrite listsOf_nil. cbn [map]. now rewrite app_nil_r.
        -- cbn [fold_right] in Hv. destruct Hv as [Hv Hvs]. apply typed_elems in Hvs. rewrite map_app. rewrite (scan_app _ _ _ S (S ++ map slotOf (listsOf t j [v]))) by (apply IH; auto; lia). clear Hv HR HD HAn. change (v :: vs) with ([v] ++ vs). rewrite listsOf_app, map_app, app_assoc.
           generalize (S ++ map slotOf (listsOf t j [v])) as S1. induction Hvs as [|w vs Hw Hvs IHv]; intros S1; cbn [flat_map map]; [rewrite listsOf_nil; cbn [map scan]; now rewrite app_nil_r|]. rewrite map_app. rewrite (scan_app _ _ _ S1 (S1 ++ map slotOf (listsOf t j [w]))) by (apply IH; auto; lia).
           rewrite IHv. change (w :: vs) with ([w] ++ vs). now rewrite listsOf_app, map_app, app_assoc.
Qed.

Lemma scan_rows t j vs : levelsLeft t 0 0 -> Forall (typed t) vs -> Z.of_nat j < depth t -> scan (listInfo t j rootLevels) (map fst (flat_map (dremel t 0 0 0) vs)) [] = Some (map slotOf (listsOf t j vs)).
Proof.
  intros HL HF Hj. change (map slotOf (listsOf t j vs)) with ([] ++ map slotOf (listsOf t j vs)). generalize (@nil listSlot) as S. induction HF as [|v vs Hv HF IH]; intros S; cbn [flat_map map]; [rewrite listsOf_nil; cbn [map scan]; now rewrite app_nil_r|].
  rewrite map_app, (scan_app _ _ _ S (S ++ map slotOf (listsOf t j [v]))) by (apply scan_value; auto; lia). rewrite IH. change (v :: vs) with ([v] ++ vs). now rewrite listsOf_app, map_app, app_assoc.
Qed.

(** ** Entries as leaf slots *)

Definition defsOf (E : list slotted) : list Z := map (fun e => snd (fst e)) E.

Lemma filter_flat_map {A B} (f : B -> bool) (g : A -> list B) l : filter f (flat_map g l) = flat_map (fun x => filter f (g x)) l.
Proof. induction l as [|x l IH]; cbn [flat_map]; [reflexivity|]. now rewrite filter_app, IH. Qed.

Lemma maxDef_nullable t : Z.b2z (typeNullable t) <= maxDef t.
Proof. destruct t; cbn [typeNullable maxDef]; try pose proof (maxDef_nonneg t); lia. Qed.

Lemma leaf_null t u d k A : levelsLeft t d k -> typeNullable t = true -> 0 <= A <= d ->
  let li := leafInfo t (mkLI u d k A) in
  map (fun x => li_DefLevel li <=? x) (filter (fun x => li_RepeatedAncestorDefLevel li <=? x) [d]) = if depth t =? 0 then [false] else [].
Proof.
  intros HL Hn HA. destruct (leafInfo_spec t u d k A HL HA) as (HD & _ & HAn). cbn zeta in *. set (li := leafInfo _ _) in *. pose proof (maxDef_nullable t) as Hm. rewrite Hn in *. cbn [Z.b2z filter] in *. destruct (depth t =? 0).
  - rewrite HAn. bool_lia (A <=? d). cbn [map]. bool_lia (li_DefLevel li <=? d). reflexivity.
  - bool_lia (li_RepeatedAncestorDefLevel li <=? d). reflexivity.
Qed.

(** The definition levels of a value, read at the leaf. *)
Lemma leaf_value t : forall u d k A r v, levelsLeft t d k -> typed t v -> 0 <= A <= d ->
  let li := leafInfo t (mkLI u d k A) in
  map (fun x => li_DefLevel li <=? x) (filter (fun x => li_RepeatedAncestorDefLevel li <=? x) (defsOf (dremel t d k r v))) = leafBits t v.
Proof.
  induction t as [nb|nb t IH|nb t IH]; intros u d k A r v HL Hv HA; (destruct v as [i|i|v|vs]; try contradiction); try exact (leaf_null _ u d k A HL Hv HA); pose proof (b2z_bound nb) as Hnb; cbn [typed] in Hv.
  - destruct (leafInfo_spec _ u d k A HL HA) as (HD & _ & HAn). cbn zeta in *. set (li := leafInfo _ _) in *. cbn [depth maxDef Z.eqb dremel defsOf map fst snd filter leafBits] in *. rewrite HAn, HD. bool_lia (A <=? d + Z.b2z nb). cbn [map]. bool_lia (d + Z.b2z nb <=? d + Z.b2z nb). reflexivity.
  - destruct (levelsLeft_struct nb t d k HL) as [HL' Hd]. destruct HL as (H0 & Hk & _). cbn [leafInfo dremel leafBits]. rewrite optional_ok by lia. apply IH; auto. lia.
  - pose proof (leafInfo_spec _ u d k A HL HA) as (_ & _ & HAn). cbn zeta in *. destruct (levelsLeft_list nb t d k HL) as (HL' & Hd & Hk'). destruct HL as (H0 & Hk & _). cbn [leafInfo depth typeNullable] in *. pose proof (depth_nonneg t). revert HAn. bool_lia (1 + depth t =? 0). rewrite repeated_ok by lia. cbn [fst leafBits]. intros HAn.
    set (l1 := mkLI u _ _ _) in *. destruct vs as [|v vs]; cbn [dremel flat_map]; [cbn [defsOf map fst snd filter]; bool_lia (li_RepeatedAncestorDefLevel (leafInfo t l1) <=? d + Z.b2z nb); reflexivity|].
    cbn [fold_right] in Hv. destruct Hv as [Hv Hvs]. apply typed_elems in Hvs. unfold defsOf. rewrite map_app, filter_app, map_app. f_equal; [apply (IH u (d + Z.b2z nb + 1) (k + 1) (d + Z.b2z nb + 1) r v); auto; lia|].
    rewrite map_flat_map, filter_flat_map, map_flat_map. apply flat_map_ext_in. intros w Hw. rewrite Forall_forall in Hvs. apply (IH u (d + Z.b2z nb + 1) (k + 1) (d + Z.b2z nb + 1) (k + 1) w); auto; lia.
Qed.

Lemma dremel_nonneg t : forall d k r v, typed t v -> Forall (fun e : slotted => d <= snd (fst e)) (dremel t d k r v).
Proof.
  induction t as [nb|nb t IH|nb t IH]; intros d k r v Hv; pose proof (b2z_bound nb); (destruct v as [i|i|v|vs]; cbn [typed] in Hv; try contradiction); cbn [dremel]; try (constructor; [cbn; lia|constructor]).
  - eapply Forall_impl; [|apply IH, Hv]. cbn. intros. lia.
  - destruct vs as [|v vs]; [constructor; [cbn; lia|constructor]|]. cbn [fold_right] in Hv. destruct Hv as [Hv Hvs]. apply typed_elems in Hvs. rewrite Forall_forall in Hvs. apply Forall_app. split; [eapply Forall_impl; [|apply IH, Hv]; cbn; intros; lia|].
    apply Forall_flat_map. intros w Hw. eapply Forall_impl; [|apply IH, Hvs, Hw]. cbn. intros. lia.
Qed.

(** The leaf slots of the rows. *)
Lemma leaf_rows t vs : levelsLeft t 0 0 -> Forall (typed t) vs -> slotBits (leafInfo t rootLevels) (defsOf (flat_map (dremel t 0 0 0) vs)) = flat_map (leafBits t) vs.
Proof.
  intros HL HF. rewrite Forall_forall in HF. destruct (leafInfo_spec t 1 0 0 0 HL ltac:(lia)) as (_ & HR & HAn). cbn zeta in *. fold rootLevels in *. unfold slotBits, slotLevels. pose proof (depth_nonneg t).
  assert (Hf : filter (fun d => li_RepeatedAncestorDefLevel (leafInfo t rootLevels) <=? d) (defsOf (flat_map (dremel t 0 0 0) vs)) = if 0 <? li_RepLevel (leafInfo t rootLevels) then filter (fun d => li_RepeatedAncestorDefLevel (leafInfo t rootLevels) <=? d) (defsOf (flat_map (dremel t 0 0 0) vs)) else defsOf (flat_map (dremel t 0 0 0) vs)).
  { destruct (Z.ltb_spec 0 (li_RepLevel (leafInfo t rootLevels))) as [|Hle]; [reflexivity|]. revert HAn. bool_lia (depth t =? 0). intros ->. apply forallb_filter_id, forallb_forall. intros x Hx. unfold defsOf in Hx. apply in_map_iff in Hx as (e & <- & He). apply in_flat_map in He as (v & Hv & He).
    pose proof (dremel_nonneg t 0 0 0 v (HF v Hv)) as HN. rewrite Forall_forall in HN. apply Z.leb_le, (HN e He). }
  rewrite <- Hf. unfold defsOf. rewrite map_flat_map, filter_flat_map, map_flat_map. apply flat_map_ext_in. intros v Hv. apply (leaf_value t 1 0 0 0 0 v HL (HF v Hv)). lia.
Qed.
