(* ===== verification/NestedClaims.v ===== *)
(** * Claims on reading levels: validity bits, list offsets, and nested arrays written and read *)

From Stdlib Require Import ZArith List Lia Bool.
From S2P Require Import Prelude GoStd BitUtil MathUtil Memory Bmi BitmapWriter LevelConversion LevelLists PathBuilder PathShred PathColumns PathClaims Nested.
Import ListNotations.
#[local] Open Scope Z_scope.
#[local] Open Scope go_scope.

(** The rows of a column. *)
Definition rows (c : column) : list value := map (valueOf c) (zrange 0 (colLen c)).

Definition listSlots (c : column) (j : nat) : list listSlot := map slotOf (listsOf (typeOf c) j (rows c)).
Definition leafSlots (c : column) : list bool := flat_map (leafBits (typeOf c)) (rows c).

(** The output has a bitmap with room for what is read. *)
Definition outputOk (out : ValidityBitmapInputOutput) (b : list Z) : Prop :=
  io_ValidBits out = Some b /\ bytes b /\ 0 <= io_ValidBitsOffset out /\ 0 < io_ReadUpperBound out /\ io_ValidBitsOffset out + io_ReadUpperBound out <= 8 * len b.

(** The lists of every depth are read back from the levels: offsets, validity, number. *)
Definition listsReadBack (c : column) (res : multipathLevelResult) : Prop :=
  forall j bits out b o0 offs, Z.of_nat j < depth (typeOf c) -> outputOk out b -> roomFor bits (io_ReadUpperBound out) (o0 :: offs) (listSlots c j) ->
  exists reps b', ml_repLevels res = Some reps /\
    DefRepLevelsToListInfo bits (ml_defLevels res) reps (listInfo (typeOf c) j rootLevels) out (o0 :: offs) =
      Some (mkIO (io_ReadUpperBound out) (len (listSlots c j)) (io_NullCount out + falses (valids (listSlots c j))) (Some b') (io_ValidBitsOffset out),
            offsetsFrom o0 (sizes (listSlots c j)) ++ skipn (List.length (listSlots c j)) offs, None) /\
    bitmapHas b (io_ValidBitsOffset out) (valids (listSlots c j)) b'.

(** The slots of the leaf are read back: which of them have a value; there are as many as elements
    of the leaf's array that were visited. *)
Definition leafReadBack (c : column) (res : multipathLevelResult) : Prop :=
  0 < maxDef (typeOf c) ->
  len (leafSlots c) = len (flatRanges (ml_postListVisitedElems res)) /\
  forall out b, outputOk out b -> len (leafSlots c) <= io_ReadUpperBound out ->
  exists b', DefLevelsToBitmap (ml_defLevels res) (leafInfo (typeOf c) rootLevels) out =
      Some (mkIO (io_ReadUpperBound out) (len (leafSlots c)) (io_NullCount out + falses (leafSlots c)) (Some b') (io_ValidBitsOffset out)) /\
    bitmapHas b (io_ValidBitsOffset out) (leafSlots c) b'.

Lemma rows_typed c : columnReady c -> Forall (typed (typeOf c)) (rows c).
Proof. intros (HC & HF & _). apply Forall_map, Forall_forall. intros i Hi. apply in_zrange in Hi. apply valueOf_typed; auto. Qed.

Lemma entries_rows c : columnEntries c = flat_map (dremel (typeOf c) 0 0 0) (rows c).
Proof. unfold columnEntries, rows. now rewrite flat_map_map. Qed.

Lemma slots_bits t : forall d k r v, typed t v -> len (slots (dremel t d k r v)) = len (leafBits t v).
Proof.
  induction t as [nb|nb t IH|nb t IH]; intros d k r v Hv; (destruct v as [i|i|v|vs]; cbn [typed] in Hv; try contradiction); cbn [dremel leafBits]; try (unfold slots, somes; cbn [map snd flat_map]; destruct (depth _ =? 0); reflexivity); auto.
  destruct vs as [|v vs]; [reflexivity|]. cbn [fold_right] in Hv. destruct Hv as [Hv Hvs]. apply typed_elems in Hvs. rewrite entrySlots_app, slots_flat_map. cbn [flat_map]. rewrite !length_app, !Nat2Z.inj_add, IH by exact Hv. f_equal.
  induction Hvs as [|w vs Hw Hvs IHv]; cbn [flat_map]; [reflexivity|]. rewrite !length_app, !Nat2Z.inj_add, IH, IHv by exact Hw. reflexivity.
Qed.

Lemma leafSlots_len c : columnReady c -> len (leafSlots c) = len (slots (columnEntries c)).
Proof.
  intros HC. rewrite entries_rows, slots_flat_map. unfold leafSlots. pose proof (rows_typed c HC) as HT. induction HT as [|v vs Hv HT IH]; cbn [flat_map]; [reflexivity|]. rewrite !length_app, !Nat2Z.inj_add, IH, slots_bits by exact Hv. reflexivity.
Qed.

Lemma levels_root t : maxDef t < 2 ^ 15 -> depth t < 2 ^ 15 -> levelsLeft t 0 0.
Proof. unfold levelsLeft. lia. Qed.

Lemma lists_back c res : columnReady c -> levelsFor c res -> maxDef (typeOf c) < 2 ^ 15 -> depth (typeOf c) < 2 ^ 15 -> listsReadBack c res.
Proof.
  intros HC (Hdef & Hrep & _) Hm Hd j bits out b o0 offs Hj (Hb & Hby & Ho & Hu & Hfit) HR. pose proof (levels_root _ Hm Hd) as HL. pose proof (depth_nonneg (typeOf c)) as Hdp. revert Hrep Hdef. bool_lia (depth (typeOf c) =? 0).
  replace (maxDef (typeOf c) =? 0) with false by (symmetry; apply Z.eqb_neq; intros H0; pose proof (maxDef0_depth _ H0); lia). intros Hrep Hdef.
  pose proof (scan_rows (typeOf c) j (rows c) HL (rows_typed c HC) Hj) as HS. rewrite <- entries_rows in HS. fold (listSlots c j) in HS. destruct (listInfo_spec (typeOf c) j 1 0 0 0 HL ltac:(lia) Hj) as (Hus & HRl & HDl & HAl). cbn zeta in *. fold rootLevels in *. set (li := listInfo _ _ _) in *.
  assert (HI : infoOk li) by (pose proof (b2z_bound (typeNullable (typeOf c))); unfold infoOk; destruct (j =? 0)%nat; lia).
  destruct (DefRepLevelsToListInfo_ok bits li out (o0 :: offs) (map fst (columnEntries c)) (listSlots c j) HI Hu Ho ltac:(intros b1 H1; rewrite Hb in H1; injection H1 as <-; auto) HS HR) as (out' & offs' & HE & HO & Hn & Hr1 & Hr2 & HB). rewrite Hb in *.
  destruct HB as (Hread & b' & Hb' & Hhas). exists (map (fun x => fst (fst x)) (columnEntries c)), b'. split; [exact Hrep|]. split; [|exact Hhas]. rewrite !map_map in HE. rewrite Hdef, HE, Hus. cbn [Z.ltb Z.compare]. rewrite andb_false_r. destruct HO as [HO _]. cbn [skipn] in HO. rewrite HO.
  destruct out' as [u1 r1 n1 v1 o1]. cbn [io_ReadUpperBound io_Read io_NullCount io_ValidBits io_ValidBitsOffset] in *. subst. reflexivity.
Qed.

Lemma leaf_back c res : columnReady c -> levelsFor c res -> maxDef (typeOf c) < 2 ^ 15 -> depth (typeOf c) < 2 ^ 15 -> leafReadBack c res.
Proof.
  intros HC (Hdef & _ & Hvis & _) Hm Hd Hpos. pose proof (levels_root _ Hm Hd) as HL. revert Hdef. bool_lia (maxDef (typeOf c) =? 0). intros Hdef. rewrite Hvis, leafSlots_len by exact HC. split; [reflexivity|]. intros out b (Hb & Hby & Ho & Hu & Hfit) Hn. rewrite <- leafSlots_len in * by exact HC.
  pose proof (leaf_rows (typeOf c) (rows c) HL (rows_typed c HC)) as HS. rewrite <- entries_rows in HS. fold (leafSlots c) in HS. destruct (leafInfo_spec (typeOf c) 1 0 0 0 HL ltac:(lia)) as (HDl & HRl & HAl). cbn zeta in *. fold rootLevels in *. set (li := leafInfo _ _) in *.
  assert (HI : infoOk li) by (pose proof (b2z_bound (typeNullable (typeOf c))); pose proof (depth_nonneg (typeOf c)); unfold infoOk; destruct (depth (typeOf c) =? 0); lia).
  assert (HLs : len (slotLevels li (defsOf (columnEntries c))) = len (leafSlots c)) by (rewrite <- HS; unfold slotBits; now rewrite length_map). destruct HC as (_ & _ & HB).
  destruct (DefLevelsToBitmap_ok li (defsOf (columnEntries c)) b out HI Hb Hby Ho Hu Hfit ltac:(lia)) as (b' & HE & Hhas); [unfold defsOf; rewrite length_map; lia|]. rewrite HLs, HS in *. exists b'. rewrite Hdef. auto.
Qed.

(** ** Claims *)

(** C2: Nested arrays through levels and back: [writeAll] writes the levels of every leaf, and from
    them [DefRepLevelsToListInfo] finds, for the lists at every depth above the leaf, the offsets,
    the validity and the number of lists that the logical values of the rows have, and
    [DefLevelsToBitmap] the slots of the leaf that have a value.  The array has at least one row and
    is as it should be: bitmaps and offsets cover it, offsets are in order, and fields that are not
    nullable have no nulls ([columnReady]).  Lists of a fixed size above a
    leaf have at least one element and are not sliced ([plainFixed]; slices of them are written
    wrongly). *)
Theorem nested_roundtrip arr nullable m pool :
  builderFor arr nullable m -> poolsOk pool -> 0 < ad_len (dataOf arr) -> 2 * height arr < 2 ^ 15 -> Forall columnReady (columns nullable arr) -> Forall plainFixed (columns nullable arr) ->
  exists N, forall fuel, (N <= fuel)%nat -> exists m' results, MB.writeAll fuel pool m = Some (m', results) /\ Forall2 (fun c res => listsReadBack c res /\ leafReadBack c res) (columns nullable arr) results.
Proof.
  intros HB HP Hn HH HC HPl. destruct (writeAll_ok arr nullable m pool HB HP Hn HH HC HPl) as [N HN]. exists N. intros fuel Hf. destruct (HN fuel Hf) as (m' & results & HE & HF & _). exists m', results. split; [exact HE|].
  assert (HL : Forall (fun c => columnReady c /\ maxDef (typeOf c) < 2 ^ 15 /\ depth (typeOf c) < 2 ^ 15) (columns nullable arr)) by (apply Forall_forall; intros c Hc; rewrite Forall_forall in HC; destruct (column_levels arr nullable c Hc); pose proof (height_pos arr); split; [auto|lia]).
  clear HN HC HPl HE. induction HF as [|c res cols results Hc HF IH]; [constructor|]. inversion HL as [|? ? (H1 & H2 & H3) HL']; subst. constructor; [split; [now apply lists_back|now apply leaf_back]|now apply IH].
Qed.

(** [DefLevelsToBitmap] on any levels with at most as many slots as the bound: it writes for
    each slot whether its level is at least that of a value, keeps the bits before the offset,
    and counts the slots and the nulls. *)
Theorem def_levels_bitmap info defs bm out :
  infoOk info -> outputOk out bm -> len (slotLevels info defs) <= io_ReadUpperBound out -> len defs < 2 ^ 63 ->
  exists bm', DefLevelsToBitmap defs info out = Some (mkIO (io_ReadUpperBound out) (len (slotLevels info defs)) (io_NullCount out + falses (slotBits info defs)) (Some bm') (io_ValidBitsOffset out)) /\
    bitmapHas bm (io_ValidBitsOffset out) (slotBits info defs) bm'.
Proof. intros HI (H1 & H2 & H3 & H4 & H5) HL HD. now apply DefLevelsToBitmap_ok. Qed.

(** [extractBitsGo], with its table of five bits at a time, gives for any two words the bits of
    the first that the second selects, in order, and [greaterThanBitmapGo] the comparisons of up
    to 64 levels. *)
Theorem bit_selection bm sel levels rhs :
  0 <= bm < 2 ^ 64 -> 0 <= sel < 2 ^ 64 -> len levels <= 64 ->
  extractBitsGo bm sel = bval (pick (bitsOf 64 sel) (bitsOf 64 bm)) /\ greaterThanBitmapGo levels rhs = bval (map (fun l => rhs <? l) levels).
Proof. intros. split; [now apply extractBits_pick|now apply greaterThan_bits]. Qed.

(** ** Witnesses *)

Lemma nested_roundtrip_witness : exists m, builderFor exArray true m /\
  exists N, forall fuel, (N <= fuel)%nat -> exists m' results, MB.writeAll fuel exPools m = Some (m', results) /\ Forall2 (fun c res => listsReadBack c res /\ leafReadBack c res) (columns true exArray) results.
Proof.
  exists (mkMB (mkER 0 3) (map (infoBelow rootInfo) (columns true exArray))). assert (HB : builderFor exArray true (mkMB (mkER 0 3) (map (infoBelow rootInfo) (columns true exArray)))).
  { split; [reflexivity|]. cbn [mb_paths]. induction (columns true exArray); constructor; [apply pathFor_root|assumption]. }
  split; [exact HB|]. apply (nested_roundtrip exArray true _ exPools HB exPools_ok); [reflexivity|reflexivity|exact exArray_ready|exact exArray_plain].
Defined.

(** The lists of lists of the example, read from their levels. *)
Example ex_lists :
  let c := nth 1 (columns true exArray) (CLeaf true (mkAD 0 0 None None)) in
  let out := mkIO 8 0 0 (Some [170; 0]) 3 in
  (listSlots c 1, DefRepLevelsToListInfo 32 [6; 6; 4; 3; 1; 5; 6; 6] [0; 2; 1; 1; 0; 0; 2; 2] (listInfo (typeOf c) 1 rootLevels) out [0; 0; 0; 0; 0])
  = ([(true, 2); (true, 0); (false, 0); (true, 3)], Some (mkIO 8 4 1 (Some [90; 0]) 3, [0; 2; 2; 2; 5], None)).
Proof. vm_compute. reflexivity. Qed.

Definition exInfo : LevelInfo := mkLI 1 3 1 2.
Definition exOut : ValidityBitmapInputOutput := mkIO 10 0 0 (Some [255; 255]) 5.

Lemma exOut_ok : outputOk exOut [255; 255].
Proof. unfold outputOk, exOut. cbn. splits; try reflexivity; try lia. repeat constructor; lia. Qed.

(** ** The bound *)

(** C33: with a repeated parent, for any levels with more slots than [ReadUpperBound], but at most
    that many in each batch of 64 levels, and a bitmap that has bits for all of them,
    [DefLevelsToBitmap] does not stop at the bound: it reads and writes every slot, as it compares
    each batch with the whole bound. *)
Theorem def_levels_exceed_bound info defs bm out :
  infoOk info -> 0 < li_RepLevel info -> outputOk out bm -> len defs < 2 ^ 63 ->
  batchesWithin info (io_ReadUpperBound out) defs -> io_ReadUpperBound out < len (slotLevels info defs) -> io_ValidBitsOffset out + len (slotLevels info defs) <= 8 * len bm ->
  exists bm' out', DefLevelsToBitmap defs info out = Some out' /\ io_Read out' = len (slotLevels info defs) /\ io_ReadUpperBound out' < io_Read out' /\
    io_ValidBits out' = Some bm' /\ bitmapHas bm (io_ValidBitsOffset out) (slotBits info defs) bm'.
Proof.
  intros HI HR (Hb & Hby & Ho & Hu & Hfit) HL Hbat Hover Hroom. destruct (DefLevelsToBitmap_batches info defs bm out HI Hb Hby Ho Hu Hfit Hroom Hbat (or_introl HR) HL) as (bm' & HE & Hhas). exists bm'. eexists. split; [exact HE|]. auto.
Qed.

(** A bound of 64 is enough for any batches. *)
Lemma batches_64 info bound defs : 64 <= bound -> batchesWithin info bound defs.
Proof. intros Hb k. pose proof (slotLevels_le info (firstn 64 (skipn (64 * k) defs))) as H. rewrite length_firstn in H. lia. Qed.

(** 128 levels with a slot each, for a bound of 64. *)
Lemma def_levels_exceed_witness :
  exists bm' out', DefLevelsToBitmap (repeat 3 128) exInfo (mkIO 64 0 0 (Some (repeat 0 16)) 0) = Some out' /\ io_Read out' = 128 /\ io_ReadUpperBound out' < io_Read out' /\
    io_ValidBits out' = Some bm' /\ bitmapHas (repeat 0 16) 0 (slotBits exInfo (repeat 3 128)) bm'.
Proof.
  apply (def_levels_exceed_bound exInfo (repeat 3 128) (repeat 0 16) (mkIO 64 0 0 (Some (repeat 0 16)) 0)); try (vm_compute; reflexivity || discriminate); [unfold infoOk; cbn; lia| |apply batches_64; cbn; lia].
  unfold outputOk. cbn. splits; try reflexivity; try lia. repeat constructor; lia.
Defined.
