(* ===== verification/Bitmaps.v ===== *)
(** * Bitmap readers, writers and operations (arrow/bitutil/bitmaps.go, bitmap_ops.go)

    A reader holds the bytes it may still look at.  A word writer works in a window that moves
    over the caller's bitmap: [ww_base] is where the window starts, and the window ends with the
    bitmap.  Sources and destinations are different slices.  Words are read and written in
    little-endian order (endian_default.go), the byte loops are those of the portable
    implementation (bitmap_ops_noasm.go). *)

From Stdlib Require Import ZArith List Lia Bool String.
From S2P Require Import Prelude BitUtil BitmapWriter.
Import ListNotations.
#[local] Open Scope Z_scope.
#[local] Open Scope go_scope.

(** [endian.Native.Uint64] and [PutUint64] panic on fewer than 8 bytes. *)
Definition Uint64 (b : list Z) : option Z := if 8 <=? len b then Some (leval (firstn 8 b)) else None.

(** [PutUint64(b[at:], v)] *)
Definition PutUint64 (b : list Z) (at_ v : Z) : option (list Z) :=
  s <- slice b at_ (len b) ;;
  if 8 <=? len s then Some (splice b (Z.to_nat at_) (lebytes 8 v)) else None.

Definition getLSB (v : Z) : Z := u8 v.
Definition setLSB (v b : Z) : Z := Z.lor (Z.ldiff v 255) b.

(** ** BitmapReader *)

Record BitmapReader : Type := mkBMR { bmr_bitmap : list Z; bmr_pos : Z; bmr_len : Z; bmr_current : Z; bmr_byteOffset : Z; bmr_bitOffset : Z }.

Module BMR.

(** A nil bitmap is [None]. *)
Definition NewBitmapReader (bitmap : option (list Z)) (offset length : Z) : option BitmapReader :=
  let data := match bitmap with Some b => b | None => [] end in
  curbyte <- (if (0 <? length) && (match bitmap with Some _ => true | None => false end) then index data (Z.quot offset 8) else Some 0) ;;
  Some (mkBMR data 0 length curbyte (Z.quot offset 8) (Z.rem offset 8)).

Definition Set_ (b : BitmapReader) : bool := negb (bmr_current b & u8 (Z.shiftl 1 (bmr_bitOffset b)) =? 0).
Definition NotSet (b : BitmapReader) : bool := bmr_current b & u8 (Z.shiftl 1 (bmr_bitOffset b)) =? 0.

Definition Next (b : BitmapReader) : option BitmapReader :=
  let bitOffset := bmr_bitOffset b + 1 in
  let pos := bmr_pos b + 1 in
  if bitOffset =? 8 then
    let byteOffset := bmr_byteOffset b + 1 in
    current <- (if pos <? bmr_len b then index (bmr_bitmap b) byteOffset else Some (bmr_current b)) ;;
    Some (mkBMR (bmr_bitmap b) pos (bmr_len b) current byteOffset 0)
  else Some (mkBMR (bmr_bitmap b) pos (bmr_len b) (bmr_current b) (bmr_byteOffset b) bitOffset).

Definition Pos (b : BitmapReader) : Z := bmr_pos b.
Definition Len (b : BitmapReader) : Z := bmr_len b.

End BMR.

(** ** BitmapWordReader *)

Record BitmapWordReader : Type := mkWR { wr_bitmap : list Z; wr_offset : Z; wr_nwords : Z; wr_trailingBits : Z; wr_trailingBytes : Z; wr_curword : Z }.

Module WR.

Definition NewBitmapWordReader (bitmap : list Z) (offset length : Z) : option BitmapWordReader :=
  let bitoffset := Z.rem offset 8 in
  let byteOffset := Z.quot offset 8 in
  bm <- slice bitmap byteOffset (byteOffset + BytesForBits (bitoffset + length)) ;;
  let nwords := Z.quot length 64 - 1 in
  let nwords := if nwords <? 0 then 0 else nwords in
  let trailingBits := length - nwords * 8 * 8 in
  let trailingBytes := BytesForBits trailingBits in
  curword <- (if 0 <? nwords then Uint64 bm else if 0 <? length then b <- index bm 0 ;; Some (setLSB 0 b) else Some 0) ;;
  Some (mkWR bm bitoffset nwords trailingBits trailingBytes curword).

Definition NextWord (bm : BitmapWordReader) : option (BitmapWordReader * Z) :=
  bitmap <- slice (wr_bitmap bm) 8 (len (wr_bitmap bm)) ;;
  nextWord <- Uint64 bitmap ;;
  let word := if wr_offset bm =? 0 then wr_curword bm
              else Z.lor (wr_curword bm >> wr_offset bm) (u64 (Z.shiftl nextWord (64 - wr_offset bm))) in
  Some (mkWR bitmap (wr_offset bm) (wr_nwords bm) (wr_trailingBits bm) (wr_trailingBytes bm) nextWord, word).

(** The loop over the bits of the last byte. *)
Definition lastStep (s : Z * BitmapReader) : option (Z * BitmapReader) :=
  let val := fst s >> 1 in
  let val := if BMR.Set_ (snd s) then Z.lor val 128 else val in
  rdr <- BMR.Next (snd s) ;; Some (val, rdr).

Definition lastBits (rdr : BitmapReader) (validBits : Z) : option Z :=
  r <- for_up (Z.to_nat validBits) 0 (fun _ => lastStep) (0, rdr) ;;
  Some (fst r >> (8 - validBits)).

(** The value and the number of valid bits. *)
Definition NextTrailingByte (bm : BitmapWordReader) : option (BitmapWordReader * Z * Z) :=
  if wr_trailingBits bm <=? 8 then
    let validBits := wr_trailingBits bm in
    rdr <- BMR.NewBitmapReader (Some (wr_bitmap bm)) (wr_offset bm) validBits ;;
    val <- lastBits rdr validBits ;;
    Some (mkWR (wr_bitmap bm) (wr_offset bm) (wr_nwords bm) 0 (wr_trailingBytes bm) (wr_curword bm), val, validBits)
  else
    bitmap <- slice (wr_bitmap bm) 1 (len (wr_bitmap bm)) ;;
    nextByte <- index bitmap 0 ;;
    let val := getLSB (wr_curword bm) in
    let val := if wr_offset bm =? 0 then val else Z.lor (val >> wr_offset bm) (u8 (Z.shiftl nextByte (8 - wr_offset bm))) in
    Some (mkWR bitmap (wr_offset bm) (wr_nwords bm) (wr_trailingBits bm - 8) (wr_trailingBytes bm - 1) (setLSB (wr_curword bm) nextByte), val, 8).

Definition Words (bm : BitmapWordReader) : Z := wr_nwords bm.
Definition TrailingBytes (bm : BitmapWordReader) : Z := wr_trailingBytes bm.

End WR.

(** ** BitmapWriter, except [AppendBitmap] *)

Record BitmapWriter : Type := mkBW { bw_buf : list Z; bw_pos : Z; bw_length : Z; bw_curByte : Z; bw_bitMask : Z; bw_byteOffset : Z }.

Module BW.

Definition NewBitmapWriter (bitmap : list Z) (start length : Z) : option BitmapWriter :=
  let byteOffset := Z.quot start 8 in
  mask <- index BitMask (Z.rem start 8) ;;
  curByte <- (if 0 <? length then index bitmap byteOffset else Some 0) ;;
  Some (mkBW bitmap 0 length curByte mask byteOffset).

Definition Reset (b : BitmapWriter) (start length : Z) : option BitmapWriter :=
  let byteOffset := Z.quot start 8 in
  mask <- index BitMask (Z.rem start 8) ;;
  curByte <- (if 0 <? length then index (bw_buf b) byteOffset else Some (bw_curByte b)) ;;
  Some (mkBW (bw_buf b) 0 length curByte mask byteOffset).

Definition Pos (b : BitmapWriter) : Z := bw_pos b.

Definition withCur (b : BitmapWriter) (c : Z) : BitmapWriter := mkBW (bw_buf b) (bw_pos b) (bw_length b) c (bw_bitMask b) (bw_byteOffset b).

Definition Set_ (b : BitmapWriter) : BitmapWriter := withCur b (Z.lor (bw_curByte b) (bw_bitMask b)).
Definition Clear (b : BitmapWriter) : BitmapWriter := withCur b (bw_curByte b & u8 (Z.lnot (bw_bitMask b))).

Definition Next (b : BitmapWriter) : option BitmapWriter :=
  let bitMask := u8 (Z.shiftl (bw_bitMask b) 1) in
  let pos := bw_pos b + 1 in
  if bitMask =? 0 then
    buf <- store (bw_buf b) (bw_byteOffset b) (bw_curByte b) ;;
    let byteOffset := bw_byteOffset b + 1 in
    curByte <- (if pos <? bw_length b then index buf byteOffset else Some (bw_curByte b)) ;;
    Some (mkBW buf pos (bw_length b) curByte 1 byteOffset)
  else Some (mkBW (bw_buf b) pos (bw_length b) (bw_curByte b) bitMask (bw_byteOffset b)).

(** [appslice], the bytes from [byteOffset] on, is written in place. *)
Definition AppendBools (b : BitmapWriter) (ins : list bool) : option (BitmapWriter * Z) :=
  let space := Z.min (bw_length b - bw_pos b) (len ins) in
  if space =? 0 then Some (b, 0)
  else
    let bitOffset := TrailingZeros32 (bw_bitMask b) in
    appslice <- slice (bw_buf b) (bw_byteOffset b) (bw_byteOffset b + BytesForBits (bitOffset + space)) ;;
    appslice <- store appslice 0 (bw_curByte b) ;;
    vs <- slice ins 0 space ;;
    appslice <- for_up (List.length vs) 0
      (fun i s => if nth (Z.to_nat i) vs false then SetBit s (i + bitOffset) else ClearBit s (i + bitOffset)) appslice ;;
    mask <- index BitMask (Z.rem (bitOffset + space) 8) ;;
    curByte <- index appslice (len appslice - 1) ;;
    Some (mkBW (splice (bw_buf b) (Z.to_nat (bw_byteOffset b)) appslice) (bw_pos b + space) (bw_length b) curByte mask (bw_byteOffset b + Z.quot (bitOffset + space) 8), space).

(** The writer, whose buffer is the bitmap afterwards. *)
Definition Finish (b : BitmapWriter) : option BitmapWriter :=
  if (0 <? bw_length b) && (negb (bw_bitMask b =? 1) || (bw_pos b <? bw_length b)) then
    buf <- store (bw_buf b) (bw_byteOffset b) (bw_curByte b) ;;
    Some (mkBW buf (bw_pos b) (bw_length b) (bw_curByte b) (bw_bitMask b) (bw_byteOffset b))
  else Some b.

End BW.

(** ** BitmapWordWriter *)

Record BitmapWordWriter : Type := mkWW { ww_buf : list Z; ww_base : Z; ww_offset : Z; ww_len : Z; ww_bitMask : Z; ww_currentWord : Z }.

Module WW.

(** The window. *)
Definition window (bm : BitmapWordWriter) : list Z := skipn (Z.to_nat (ww_base bm)) (ww_buf bm).

Definition NewBitmapWordWriter (bitmap : list Z) (start length : Z) : option BitmapWordWriter :=
  win <- slice bitmap (Z.quot start 8) (len bitmap) ;;
  let offset := Z.rem start 8 in
  let bitMask := u64 (u64 (Z.shiftl 1 offset) - 1) in
  currentWord <-
    (if negb (offset =? 0) then
       if 64 <=? length then Uint64 win
       else if 0 <? length then b <- index win 0 ;; Some (setLSB 0 b) else Some 0
     else Some 0) ;;
  Some (mkWW bitmap (Z.quot start 8) offset length bitMask currentWord).

Definition PutNextWord (bm : BitmapWordWriter) (word : Z) : option BitmapWordWriter :=
  r <- (if negb (ww_offset bm =? 0) then
          let word := Z.lor (u64 (Z.shiftl word (ww_offset bm))) (word >> (64 - ww_offset bm)) in
          rest <- slice (window bm) 8 (len (window bm)) ;;
          next <- Uint64 rest ;;
          let currentWord := Z.lor (ww_currentWord bm & ww_bitMask bm) (Z.ldiff word (ww_bitMask bm)) in
          let next := Z.lor (Z.ldiff next (ww_bitMask bm)) (word & ww_bitMask bm) in
          buf <- PutUint64 (ww_buf bm) (ww_base bm) currentWord ;;
          buf <- PutUint64 buf (ww_base bm + 8) next ;;
          Some (buf, next)
        else
          buf <- PutUint64 (ww_buf bm) (ww_base bm) word ;;
          Some (buf, ww_currentWord bm)) ;;
  _ <- slice (fst r) (ww_base bm + 8) (len (fst r)) ;;
  Some (mkWW (fst r) (ww_base bm + 8) (ww_offset bm) (ww_len bm) (ww_bitMask bm) (snd r)).

(** The loop over the bits of an incomplete byte. *)
Definition putStep (s : BitmapWriter * Z) : option (BitmapWriter * Z) :=
  let wr := if negb (snd s & 1 =? 0) then BW.Set_ (fst s) else BW.Clear (fst s) in
  wr <- BW.Next wr ;; Some (wr, snd s >> 1).

Definition putBits (wr : BitmapWriter) (b validBits : Z) : option BitmapWriter :=
  r <- for_up (Z.to_nat validBits) 0 (fun _ => putStep) (wr, b) ;;
  BW.Finish (fst r).

Definition PutNextTrailingByte (bm : BitmapWordWriter) (b validBits : Z) : option BitmapWordWriter :=
  let curbyte := getLSB (ww_currentWord bm) in
  if validBits =? 8 then
    r <- (if negb (ww_offset bm =? 0) then
            let b := Z.lor (u8 (Z.shiftl b (ww_offset bm))) (b >> (8 - ww_offset bm)) in
            next <- index (window bm) 1 ;;
            let curbyte := Z.lor (curbyte & u8 (ww_bitMask bm)) (Z.ldiff b (u8 (ww_bitMask bm))) in
            let next := Z.lor (Z.ldiff next (u8 (ww_bitMask bm))) (b & u8 (ww_bitMask bm)) in
            buf <- store (ww_buf bm) (ww_base bm) curbyte ;;
            buf <- store buf (ww_base bm + 1) next ;;
            Some (buf, next)
          else
            buf <- store (ww_buf bm) (ww_base bm) b ;;
            Some (buf, ww_currentWord bm)) ;;
    _ <- slice (fst r) (ww_base bm + 1) (len (fst r)) ;;
    Some (mkWW (fst r) (ww_base bm + 1) (ww_offset bm) (ww_len bm) (ww_bitMask bm) (snd r))
  else
    wr <- BW.NewBitmapWriter (window bm) (ww_offset bm) validBits ;;
    wr <- putBits wr b validBits ;;
    Some (mkWW (firstn (Z.to_nat (ww_base bm)) (ww_buf bm) ++ bw_buf wr) (ww_base bm) (ww_offset bm) (ww_len bm) (ww_bitMask bm) (ww_currentWord bm)).

End WW.
