(* ===== verification/BitmapOps.v ===== *)
(** * Bitmap operations (arrow/bitutil/bitmaps.go, bitmap_ops.go)

    Copying and inverting a range, the binary operations with their byte-aligned and their
    word-by-word paths, the comparison, [BitmapWriter.AppendBitmap] and [VisitWordsAndWrite]. *)

From Stdlib Require Import ZArith List Lia Bool String.
From S2P Require Import Prelude BitUtil BitmapWriter Bitmaps.
Import ListNotations.
#[local] Open Scope Z_scope.
#[local] Open Scope go_scope.

(** ** Copy and invert *)

Inductive transferMode : Type := transferCopy | transferInvert.

Definition transferWord (mode : transferMode) (w : Z) : Z := match mode with transferInvert => u64 (Z.lnot w) | transferCopy => w end.
Definition transferByte (mode : transferMode) (b : Z) : Z := match mode with transferInvert => u8 (Z.lnot b) | transferCopy => b end.

Fixpoint transferWords (nwords : nat) (mode : transferMode) (rdr : BitmapWordReader) (wr : BitmapWordWriter) : option (BitmapWordReader * BitmapWordWriter) :=
  match nwords with
  | O => Some (rdr, wr)
  | S n => r <- WR.NextWord rdr ;; wr <- WW.PutNextWord wr (transferWord mode (snd r)) ;; transferWords n mode (fst r) wr
  end.

Fixpoint transferBytes (nbytes : nat) (mode : transferMode) (rdr : BitmapWordReader) (wr : BitmapWordWriter) : option (BitmapWordReader * BitmapWordWriter) :=
  match nbytes with
  | O => Some (rdr, wr)
  | S n => r <- WR.NextTrailingByte rdr ;;
           wr <- WW.PutNextTrailingByte wr (transferByte mode (snd (fst r))) (snd r) ;; transferBytes n mode (fst (fst r)) wr
  end.

(** The whole bytes of an aligned range, and the data of the last one. *)
Definition transferHead (mode : transferMode) (src head dst : list Z) (base nbytes : Z) : option (list Z * Z) :=
  match mode with
  | transferInvert =>
      dst <- for_up (List.length head) 0 (fun i dst => store dst (base + i) (u8 (Z.lnot (nth (Z.to_nat i) head 0)))) dst ;;
      last <- index src (nbytes - 1) ;; Some (dst, u8 (Z.lnot last))
  | transferCopy => last <- index src (nbytes - 1) ;; Some (splice dst (Z.to_nat base) head, last)
  end.

(** The destination afterwards. *)
Definition transferBitmap (mode : transferMode) (src : list Z) (srcOffset length : Z) (dst : list Z) (dstOffset : Z) : option (list Z) :=
  if length =? 0 then Some dst
  else if negb (Z.rem srcOffset 8 =? 0) || negb (Z.rem dstOffset 8 =? 0) then
    rdr <- WR.NewBitmapWordReader src srcOffset length ;;
    wr <- WW.NewBitmapWordWriter dst dstOffset length ;;
    r <- transferWords (Z.to_nat (WR.Words rdr)) mode rdr wr ;;
    r <- transferBytes (Z.to_nat (WR.TrailingBytes (fst r))) mode (fst r) (snd r) ;;
    Some (ww_buf (snd r))
  else
    let nbytes := BytesForBits length in
    src <- slice src (Z.quot srcOffset 8) (len src) ;;
    let base := Z.quot dstOffset 8 in
    _ <- slice dst base (len dst) ;;
    let trailingBits := nbytes * 8 - length in
    let trailMask := u8 (u8 (Z.shiftl 1 (8 - trailingBits)) - 1) in
    head <- slice src 0 (nbytes - 1) ;;
    r <- transferHead mode src head dst base nbytes ;;
    let dst := fst r in
    let lastData := snd r in
    b <- index dst (base + (nbytes - 1)) ;;
    dst <- store dst (base + (nbytes - 1)) (b & u8 (Z.lnot trailMask)) ;;
    b <- index dst (base + (nbytes - 1)) ;;
    store dst (base + (nbytes - 1)) (Z.lor b (lastData & trailMask)).

Definition CopyBitmap (src : list Z) (srcOffset length : Z) (dst : list Z) (dstOffset : Z) : option (list Z) :=
  transferBitmap transferCopy src srcOffset length dst dstOffset.

Definition InvertBitmap (src : list Z) (srcOffset length : Z) (dst : list Z) (dstOffset : Z) : option (list Z) :=
  transferBitmap transferInvert src srcOffset length dst dstOffset.

(** [BitmapWriter.AppendBitmap]: the writer and the number of bits written. *)
Definition AppendBitmap (b : BitmapWriter) (srcBitmap : list Z) (srcOffset length : Z) : option (BitmapWriter * Z) :=
  let space := Z.min (bw_length b - bw_pos b) length in
  if space =? 0 then Some (b, 0)
  else
    let bitOffset := TrailingZeros32 (bw_bitMask b) in
    let dstOffset := bw_byteOffset b * 8 + bitOffset in
    buf <- store (bw_buf b) (bw_byteOffset b) (bw_curByte b) ;;
    buf <- CopyBitmap srcBitmap srcOffset space buf dstOffset ;;
    mask <- index BitMask (Z.rem (bitOffset + space) 8) ;;
    let byteOffset := bw_byteOffset b + Z.quot (bitOffset + space) 8 in
    curByte <- (if byteOffset <? len buf then index buf byteOffset else Some (bw_curByte b)) ;;
    Some (mkBW buf (bw_pos b + space) (bw_length b) curByte mask byteOffset, space).

(** ** Binary operations *)

Record bitOp : Type := mkOp { opWord : Z -> Z -> Z; opByte : Z -> Z -> Z; opAligned : list Z -> list Z -> list Z -> option (list Z) }.

(** The words of [out], if it has more bytes than one word; also the index of the next byte. *)
Definition alignedWords (opw : Z -> Z -> Z) (left right out : list Z) : option (list Z * Z) :=
  if 8 <? len out then
    let leftWords := bytesToUint64 left in
    let rightWords := bytesToUint64 right in
    let nWords := List.length (bytesToUint64 out) in
    out' <- for_up nWords 0 (fun w out => l <- index leftWords w ;; r <- index rightWords w ;; Some (splice out (Z.to_nat (8 * w)) (lebytes 8 (opw l r)))) out ;;
    Some (out', Z.of_nat nWords * 8)
  else Some (out, 0).

(** The words of [out] and then its remaining bytes; the five functions of bitmap_ops.go have
    this body, each with its own operator. *)
Definition alignedGo (opw opb : Z -> Z -> Z) (left right out : list Z) : option (list Z) :=
  r <- alignedWords opw left right out ;;
  for_up (Z.to_nat (len out - snd r)) (snd r) (fun i out => l <- index left i ;; r <- index right i ;; store out i (opb l r)) (fst r).

Definition alignedBitAndGo : list Z -> list Z -> list Z -> option (list Z) := alignedGo Z.land Z.land.
Definition alignedBitAndNotGo : list Z -> list Z -> list Z -> option (list Z) := alignedGo Z.ldiff Z.ldiff.
Definition alignedBitOrGo : list Z -> list Z -> list Z -> option (list Z) := alignedGo Z.lor Z.lor.
Definition alignedBitXorGo : list Z -> list Z -> list Z -> option (list Z) := alignedGo Z.lxor Z.lxor.
Definition alignedBitXnorGo : list Z -> list Z -> list Z -> option (list Z) := alignedGo (fun l r => u64 (Z.lnot (Z.lxor l r))) (fun l r => u8 (Z.lnot (Z.lxor l r))).

Definition bitAndOp : bitOp := mkOp Z.land Z.land alignedBitAndGo.
Definition bitOrOp : bitOp := mkOp Z.lor Z.lor alignedBitOrGo.
Definition bitAndNotOp : bitOp := mkOp Z.ldiff Z.ldiff alignedBitAndNotGo.
Definition bitXorOp : bitOp := mkOp Z.lxor Z.lxor alignedBitXorGo.
Definition bitXnorOp : bitOp := mkOp (fun l r => u64 (Z.lnot (Z.lxor l r))) (fun l r => u8 (Z.lnot (Z.lxor l r))) alignedBitXnorGo.

(** [out[i] = (out[i] & mask) | (op.opByte(left[j], right[j]) &^ mask)] *)
Definition maskedOp (op : bitOp) (left right out : list Z) (i j mask : Z) : option (list Z) :=
  o <- index out i ;; l <- index left j ;; r <- index right j ;; store out i (Z.lor (o & mask) (Z.ldiff (opByte op l r) mask)).

Definition alignedBitmapOp (op : bitOp) (left right : list Z) (lOffset rOffset : Z) (out : list Z) (outOffset length : Z) : option (list Z) :=
  let nbytes := BytesForBits (length + Z.rem lOffset 8) in
  left <- slice left (Z.quot lOffset 8) (len left) ;;
  right <- slice right (Z.quot rOffset 8) (len right) ;;
  let base := Z.quot outOffset 8 in
  _ <- slice out base (len out) ;;
  let endMask := Z.rem (lOffset + length) 8 in
  firstByteMask <- index PrecedingBitmask (Z.rem lOffset 8) ;;
  lastByteMask <- (if negb (endMask =? 0) then index TrailingBitmask (Z.rem (lOffset + length) 8) else Some 0) ;;
  if nbytes =? 0 then Some out
  else if nbytes =? 1 then maskedOp op left right out base 0 (Z.lor firstByteMask lastByteMask)
  else if nbytes =? 2 then
    out <- maskedOp op left right out base 0 firstByteMask ;;
    maskedOp op left right out (base + 1) 1 lastByteMask
  else
    out <- maskedOp op left right out base 0 firstByteMask ;;
    l <- slice left 1 (nbytes - 1) ;;
    r <- slice right 1 (nbytes - 1) ;;
    o <- slice out (base + 1) (base + (nbytes - 1)) ;;
    mid <- opAligned op l r o ;;
    maskedOp op left right (splice out (Z.to_nat (base + 1)) mid) (base + (nbytes - 1)) (nbytes - 1) lastByteMask.

Fixpoint opWords (nwords : nat) (op : bitOp) (l r : BitmapWordReader) (wr : BitmapWordWriter) : option (BitmapWordReader * BitmapWordReader * BitmapWordWriter) :=
  match nwords with
  | O => Some (l, r, wr)
  | S n => a <- WR.NextWord l ;; b <- WR.NextWord r ;; wr <- WW.PutNextWord wr (opWord op (snd a) (snd b)) ;; opWords n op (fst a) (fst b) wr
  end.

Fixpoint opBytes (nbytes : nat) (op : bitOp) (l r : BitmapWordReader) (wr : BitmapWordWriter) : option BitmapWordWriter :=
  match nbytes with
  | O => Some wr
  | S n => a <- WR.NextTrailingByte l ;; b <- WR.NextTrailingByte r ;;
           wr <- WW.PutNextTrailingByte wr (opByte op (snd (fst a)) (snd (fst b))) (snd a) ;; opBytes n op (fst (fst a)) (fst (fst b)) wr
  end.

Definition unalignedBitmapOp (op : bitOp) (left right : list Z) (lOffset rOffset : Z) (out : list Z) (outOffset length : Z) : option (list Z) :=
  l <- WR.NewBitmapWordReader left lOffset length ;;
  r <- WR.NewBitmapWordReader right rOffset length ;;
  wr <- WW.NewBitmapWordWriter out outOffset length ;;
  s <- opWords (Z.to_nat (WR.Words l)) op l r wr ;;
  wr <- opBytes (Z.to_nat (WR.TrailingBytes (fst (fst s)))) op (fst (fst s)) (snd (fst s)) (snd s) ;;
  Some (ww_buf wr).

Definition BitmapOp (op : bitOp) (left right : list Z) (lOffset rOffset : Z) (out : list Z) (outOffset length : Z) : option (list Z) :=
  if (Z.rem outOffset 8 =? Z.rem lOffset 8) && (Z.rem outOffset 8 =? Z.rem rOffset 8)
  then alignedBitmapOp op left right lOffset rOffset out outOffset length
  else unalignedBitmapOp op left right lOffset rOffset out outOffset length.

(** The new buffer is as long as the bits need; [Resize] gives zeroed bytes of a fresh buffer. *)
Definition BitmapOpAlloc (op : bitOp) (left right : list Z) (lOffset rOffset length outOffset : Z) : option (list Z) :=
  BitmapOp op left right lOffset rOffset (repeat 0 (Z.to_nat (BytesForBits (length + outOffset)))) outOffset length.

Definition BitmapAnd := BitmapOp bitAndOp.
Definition BitmapOr := BitmapOp bitOrOp.
Definition BitmapAndNot := BitmapOp bitAndNotOp.
Definition BitmapXor := BitmapOp bitXorOp.
Definition BitmapXnor := BitmapOp bitXnorOp.

(** ** Comparison *)

Fixpoint equalWords (nwords : nat) (l r : BitmapWordReader) : option (bool * BitmapWordReader * BitmapWordReader) :=
  match nwords with
  | O => Some (true, l, r)
  | S n => a <- WR.NextWord l ;; b <- WR.NextWord r ;; if snd a =? snd b then equalWords n (fst a) (fst b) else Some (false, fst a, fst b)
  end.

Fixpoint equalBytes (nbytes : nat) (l r : BitmapWordReader) : option bool :=
  match nbytes with
  | O => Some true
  | S n => a <- WR.NextTrailingByte l ;; b <- WR.NextTrailingByte r ;; if snd (fst a) =? snd (fst b) then equalBytes n (fst (fst a)) (fst (fst b)) else Some false
  end.

(** [bytes.Equal] *)
Fixpoint bytesEqual (a b : list Z) : bool :=
  match a, b with
  | [], [] => true
  | x :: a, y :: b => (x =? y) && bytesEqual a b
  | _, _ => false
  end.

(** The loop over the bits from [i] on, which ends at the first difference. *)
Fixpoint equalBits (n : nat) (left right : list Z) (lOffset rOffset i : Z) : option bool :=
  match n with
  | O => Some true
  | S n => l <- BitIsSet left (lOffset + i) ;; r <- BitIsSet right (rOffset + i) ;; if Bool.eqb l r then equalBits n left right lOffset rOffset (i + 1) else Some false
  end.

Definition BitmapEquals (left right : list Z) (lOffset rOffset length : Z) : option bool :=
  if (Z.rem lOffset 8 =? 0) && (Z.rem rOffset 8 =? 0) then
    let byteLen := Z.quot length 8 in
    let lStart := Z.quot lOffset 8 in
    let rStart := Z.quot rOffset 8 in
    l <- slice left lStart (lStart + byteLen) ;;
    r <- slice right rStart (rStart + byteLen) ;;
    if negb (bytesEqual l r) then Some false
    else equalBits (Z.to_nat (length - Z.quot length 8 * 8)) left right lOffset rOffset (Z.quot length 8 * 8)
  else
    l <- WR.NewBitmapWordReader left lOffset length ;;
    r <- WR.NewBitmapWordReader right rOffset length ;;
    s <- equalWords (Z.to_nat (WR.Words l)) l r ;;
    if fst (fst s) then equalBytes (Z.to_nat (WR.TrailingBytes (snd (fst s)))) (snd (fst s)) (snd s) else Some false.

(** [OptionalBitIndexer.GetBit] *)
Definition GetBit (bitmap : option (list Z)) (offset i : Z) : option bool :=
  match bitmap with None => Some true | Some b => BitIsSet b (offset + i) end.
