(* ===== verification/BitmapsOk.v ===== *)
(** * What bitmap readers deliver and bitmap writers write

    A reader delivers the bits of its range, as words or as bytes; a writer changes the bits of
    its range and no others.  [WordSource] is what the word loops need of the bits they write:
    a reader, a reader with its bits inverted, or two readers with an operator between them. *)

From Stdlib Require Import ZArith List Lia Bool.
From S2P Require Import Prelude BitUtil BitmapWriter Bitmaps BitmapOps.
Import ListNotations.
#[local] Open Scope Z_scope.
#[local] Open Scope go_scope.

(** ** Ranges of bits *)

(** In [buf'] the [n] bits from [pos] on are those of [f], the others are as in [buf]. *)
Definition bitsPut (buf : list Z) (pos n : Z) (f : Z -> bool) (buf' : list Z) : Prop :=
  List.length buf' = List.length buf /\ bytes buf' /\
  forall j, 0 <= j -> Z.testbit (leval buf') j = if (pos <=? j) && (j <? pos + n) then f (j - pos) else Z.testbit (leval buf) j.

Lemma bitsPut_refl buf pos f : bytes buf -> bitsPut buf pos 0 f buf.
Proof. intros H. split; [reflexivity|]. split; [assumption|]. intros j Hj. destruct (Z.leb_spec pos j), (Z.ltb_spec j (pos + 0)); cbn [andb]; (reflexivity || lia). Qed.

Lemma bitsPut_ext buf pos n f g buf' : bitsPut buf pos n f buf' -> (forall i, 0 <= i < n -> f i = g i) -> bitsPut buf pos n g buf'.
Proof.
  intros (HL & HB & HT) H. split; [assumption|]. split; [assumption|]. intros j Hj. rewrite HT by assumption.
  destruct (Z.leb_spec pos j), (Z.ltb_spec j (pos + n)); cbn [andb]; try reflexivity. apply H. lia.
Qed.

Lemma bitsPut_trans buf pos n m f buf1 buf2 :
  0 <= n -> 0 <= m -> bitsPut buf pos n f buf1 -> bitsPut buf1 (pos + n) m (fun i => f (n + i)) buf2 -> bitsPut buf pos (n + m) f buf2.
Proof.
  intros Hn Hm (L1 & B1 & T1) (L2 & B2 & T2). split; [congruence|]. split; [assumption|]. intros j Hj. rewrite T2, T1 by assumption.
  destruct (Z.leb_spec pos j), (Z.ltb_spec j (pos + (n + m))), (Z.leb_spec (pos + n) j), (Z.ltb_spec j (pos + n + m)), (Z.ltb_spec j (pos + n)); cbn [andb]; try reflexivity; try lia. f_equal. lia.
Qed.

Lemma bitsPut_bytes buf pos n f buf' : bitsPut buf pos n f buf' -> bytes buf' /\ List.length buf' = List.length buf.
Proof. intros (? & ? & _). auto. Qed.

(** A bitmap with the same bits is the same. *)
Lemma bits_inj l1 l2 : bytes l1 -> bytes l2 -> List.length l1 = List.length l2 -> (forall j, 0 <= j < 8 * len l1 -> Z.testbit (leval l1) j = Z.testbit (leval l2) j) -> l1 = l2.
Proof.
  intros H1 H2 HL H. apply leval_inj; auto. pose proof (leval_bound l1 H1). pose proof (leval_bound l2 H2). apply Z.bits_inj'. intros j Hj.
  destruct (Z.lt_ge_cases j (8 * len l1)) as [Hlt|Hge]; [apply H; lia|].
  rewrite <- (Z.mod_small (leval l1) (2 ^ (8 * len l1))), <- (Z.mod_small (leval l2) (2 ^ (8 * len l2))) by lia. now rewrite !Z.mod_pow2_bits_high by lia.
Qed.

(** A value of [n] bits, by its bits. *)
Lemma bits_bound x n : 0 <= n -> 0 <= x -> (forall i, n <= i -> Z.testbit x i = false) -> 0 <= x < 2 ^ n.
Proof.
  intros Hn Hx H. split; [assumption|]. rewrite <- (Z.mod_small x (2 ^ (Z.log2 x + 1 + n))).
  - replace (x mod 2 ^ (Z.log2 x + 1 + n)) with (x mod 2 ^ n); [apply Z.mod_pos_bound, pow2_pos; lia|]. apply Z.bits_inj'. intros i Hi. pose proof (Z.log2_nonneg x).
    destruct (Z.lt_ge_cases i n) as [Hlt|Hge]; [now rewrite !Z.mod_pow2_bits_low by lia|]. rewrite Z.mod_pow2_bits_high by lia.
    destruct (Z.lt_ge_cases i (Z.log2 x + 1 + n)); [rewrite Z.mod_pow2_bits_low, H by lia|rewrite Z.mod_pow2_bits_high by lia]; reflexivity.
  - split; [assumption|]. pose proof (Z.log2_nonneg x). destruct (Z.eq_dec x 0) as [->|]; [apply pow2_pos; lia|]. apply Z.log2_lt_pow2; lia.
Qed.

Lemma testbit_above x n i : 0 <= x < 2 ^ n -> n <= i -> Z.testbit x i = false.
Proof. intros Hx Hi. destruct (Z.lt_ge_cases n 0) as [Hneg|Hn]; [rewrite Z.pow_neg_r in Hx by assumption; lia|]. rewrite <- (Z.mod_small x (2 ^ n)) by assumption. apply Z.mod_pow2_bits_high. lia. Qed.

Lemma testbit_u8 x i : 0 <= i < 8 -> Z.testbit (u8 x) i = Z.testbit x i.
Proof. intros H. unfold u8. now rewrite Z.mod_pow2_bits_low by lia. Qed.

Lemma testbit_u64 x i : 0 <= i < 64 -> Z.testbit (u64 x) i = Z.testbit x i.
Proof. intros H. unfold u64. now rewrite Z.mod_pow2_bits_low by lia. Qed.

Lemma testbit_head l i : bytes l -> 0 <= i < 64 -> Z.testbit (leval (firstn 8 l)) i = Z.testbit (leval l) i.
Proof. intros Hl Hi. rewrite leval_firstn, testbit_field by (auto; lia). change (8 * Z.of_nat 8) with 64. bool_lia (i <? 64). bool_lia (0 <=? i). reflexivity. Qed.

Lemma head_bound l : bytes l -> (8 <= List.length l)%nat -> 0 <= leval (firstn 8 l) < 2 ^ 64.
Proof. intros Hl H8. pose proof (leval_bound (firstn 8 l) (bytes_firstn _ _ Hl)) as HB. rewrite length_firstn, Nat.min_l in HB by lia. exact HB. Qed.

Lemma testbit_first l i : bytes l -> 0 <= i < 8 -> Z.testbit (nth 0 l 0) i = Z.testbit (leval l) i.
Proof. intros Hl Hi. rewrite (testbit_leval l i Hl) by lia. now rewrite Z.div_small, Z.mod_small by lia. Qed.

Lemma testbit_nth l k i : bytes l -> 0 <= k -> 0 <= i < 8 -> Z.testbit (nth (Z.to_nat k) l 0) i = Z.testbit (leval l) (8 * k + i).
Proof. intros Hl Hk Hi. rewrite (testbit_leval l (8 * k + i) Hl) by lia. replace ((8 * k + i) / 8) with k by zdiv. now replace ((8 * k + i) mod 8) with i by zdiv. Qed.

Lemma testbit_skip l k i : bytes l -> 0 <= k -> 0 <= i -> Z.testbit (leval (skipn (Z.to_nat k) l)) i = Z.testbit (leval l) (8 * k + i).
Proof. intros Hl Hk Hi. rewrite leval_skipn, Z.div_pow2_bits by (auto; lia). f_equal. lia. Qed.

(** [slice l k len]: the rest from [k] on. *)
Lemma slice_from {A} (l : list A) k : 0 <= k <= len l -> slice l k (len l) = Some (skipn (Z.to_nat k) l).
Proof. intros H. rewrite slice_ok by lia. f_equal. apply firstn_all2. rewrite length_skipn. lia. Qed.

Lemma Uint64_ok l : (8 <= List.length l)%nat -> Uint64 l = Some (leval (firstn 8 l)).
Proof. intros H. unfold Uint64. bool_lia (8 <=? len l). reflexivity. Qed.

Lemma byte_bits b : (forall i, 8 <= i -> Z.testbit b i = false) -> 0 <= b -> is_byte b.
Proof. intros H Hb. apply byte_testbit. auto. Qed.

Lemma byte_high b i : is_byte b -> 8 <= i -> Z.testbit b i = false.
Proof. intros Hb Hi. destruct (proj1 (byte_testbit b) Hb) as [_ H]. auto. Qed.

(** ** Stores *)

Lemma store_put buf i b : bytes buf -> is_byte b -> 0 <= i < len buf -> exists buf', store buf i b = Some buf' /\ bitsPut buf (8 * i) 8 (Z.testbit b) buf'.
Proof.
  intros Hb Hx Hi. rewrite store_ok by assumption. eexists. split; [reflexivity|]. split; [apply length_upd|]. split; [auto with gobytes|]. intros j Hj.
  rewrite testbit_upd by (auto; lia). rewrite Z2Nat.id by lia. destruct (Z.eqb_spec (j / 8) i) as [<-|Hne].
  - replace ((8 * (j / 8) <=? j) && (j <? 8 * (j / 8) + 8)) with true; [f_equal; zdiv|]. symmetry. apply andb_true_iff. rewrite Z.leb_le, Z.ltb_lt. zdiv.
  - replace ((8 * i <=? j) && (j <? 8 * i + 8)) with false; [reflexivity|]. symmetry. apply andb_false_iff. rewrite Z.leb_gt, Z.ltb_ge. zdiv.
Qed.

Lemma splice_put buf i p : bytes buf -> bytes p -> 0 <= i -> i + len p <= len buf -> bitsPut buf (8 * i) (8 * len p) (Z.testbit (leval p)) (splice buf (Z.to_nat i) p).
Proof.
  intros Hb Hp Hi Hle. split; [apply length_splice; lia|]. split; [auto with gobytes|]. intros j Hj. rewrite testbit_splice by (auto; lia). rewrite Z2Nat.id by lia.
  destruct (Z.leb_spec i (j / 8)), (Z.ltb_spec (j / 8) (i + len p)), (Z.leb_spec (8 * i) j), (Z.ltb_spec j (8 * i + 8 * len p)); cbn [andb]; try reflexivity; try zdiv.
  rewrite (testbit_leval p (j - 8 * i)) by (auto; lia). f_equal; [f_equal; zdiv|zdiv].
Qed.

Lemma PutUint64_put buf i v : bytes buf -> 0 <= i -> i + 8 <= len buf -> exists buf', PutUint64 buf i v = Some buf' /\ bitsPut buf (8 * i) 64 (Z.testbit v) buf'.
Proof.
  intros Hb Hi Hle. unfold PutUint64. rewrite slice_from by lia. cbn [opt_bind]. rewrite length_skipn. bool_lia (8 <=? Z.of_nat (List.length buf - Z.to_nat i)). eexists. split; [reflexivity|].
  pose proof (splice_put buf i (lebytes 8 v) Hb (lebytes_bytes 8 v) Hi) as HP. rewrite length_lebytes in HP. specialize (HP ltac:(lia)). apply (bitsPut_ext _ _ _ _ _ _ HP).
  intros k Hk. rewrite leval_lebytes. apply Z.mod_pow2_bits_low. lia.
Qed.

(** ** BitmapReader *)

(** The reader is at bit [p] of [bm]; [n] bits are left. *)
Definition bmrAt (bm : list Z) (p n : Z) (r : BitmapReader) : Prop :=
  bmr_bitmap r = bm /\ bmr_byteOffset r = p / 8 /\ bmr_bitOffset r = p mod 8 /\ bmr_len r - bmr_pos r = n /\ (0 < n -> bmr_current r = nth (Z.to_nat (p / 8)) bm 0).

Lemma BMRNew_ok bm offset n : bytes bm -> 0 <= offset -> 0 <= n -> offset + n <= 8 * len bm -> exists r, BMR.NewBitmapReader (Some bm) offset n = Some r /\ bmrAt bm offset n r.
Proof.
  intros Hb Ho Hn Hle. unfold BMR.NewBitmapReader, bmrAt. rewrite Z.quot_div_nonneg, Z.rem_mod_nonneg, andb_true_r by lia. destruct (Z.ltb_spec 0 n) as [Hlt|Hge].
  - rewrite (index_ok bm (offset / 8) 0) by (split; [apply Z.div_pos; lia|apply Z.div_lt_upper_bound; lia]). cbn [opt_bind]. eexists. split; [reflexivity|]. cbn. splits; auto; lia.
  - cbn [opt_bind]. eexists. split; [reflexivity|]. cbn. splits; auto; lia.
Qed.

Lemma one_shift k : 0 <= k < 8 -> u8 (Z.shiftl 1 k) = 2 ^ k.
Proof. intros H. unfold u8. rewrite shiftl_mul, Z.mul_1_l by lia. apply Z.mod_small. split; [apply Z.pow_nonneg; lia|]. apply Z.pow_lt_mono_r; lia. Qed.

Lemma BMRSet_ok bm p n r : bytes bm -> 0 <= p -> 0 < n -> bmrAt bm p n r -> BMR.Set_ r = Z.testbit (leval bm) p /\ BMR.NotSet r = negb (Z.testbit (leval bm) p).
Proof.
  intros Hb Hp Hn (_ & H2 & H3 & H4 & H5). unfold BMR.Set_, BMR.NotSet. pose proof (Z.mod_pos_bound p 8 ltac:(lia)). rewrite H3, one_shift, land_pow2, negb_involutive by lia. now rewrite H5, testbit_leval by (assumption || lia).
Qed.

Lemma BMRNext_ok bm p n r : bytes bm -> 0 <= p -> 0 < n -> p + n <= 8 * len bm -> bmrAt bm p n r -> exists r', BMR.Next r = Some r' /\ bmrAt bm (p + 1) (n - 1) r'.
Proof.
  intros Hb Hp Hn Hle (H1 & H2 & H3 & H4 & H5). unfold BMR.Next. rewrite H1, H2, H3. destruct (Z.eqb_spec (p mod 8 + 1) 8) as [He|Hne].
  - assert (Hd : (p + 1) / 8 = p / 8 + 1 /\ (p + 1) mod 8 = 0) by zdiv. destruct Hd as [Hd Hm]. destruct (Z.ltb_spec (bmr_pos r + 1) (bmr_len r)).
    + rewrite (index_ok bm (p / 8 + 1) 0) by zdiv. cbn [opt_bind]. eexists. split; [reflexivity|]. unfold bmrAt. cbn. rewrite Hd, Hm. splits; auto; lia.
    + cbn [opt_bind]. eexists. split; [reflexivity|]. unfold bmrAt. cbn. rewrite Hd, Hm. splits; auto; lia.
  - assert (Hd : (p + 1) / 8 = p / 8 /\ (p + 1) mod 8 = p mod 8 + 1) by zdiv. destruct Hd as [Hd Hm]. eexists. split; [reflexivity|]. unfold bmrAt. cbn. rewrite Hd, Hm. splits; auto; try lia.
Qed.

(** The loop of [NextTrailingByte]: bit [i] read goes to bit [8 - v + i]. *)
Lemma lastBits_loop bm v : bytes bm -> forall k p r acc m, 0 <= p -> p + Z.of_nat k <= 8 * len bm -> bmrAt bm p (Z.of_nat k) r -> 0 <= m -> 0 <= acc < 2 ^ 8 -> m + Z.of_nat k = v -> v <= 8 ->
  (forall i, 0 <= i < 8 -> Z.testbit acc i = (8 - m <=? i) && Z.testbit (leval bm) (p - m + (i - (8 - m)))) ->
  exists val r', for_up k m (fun _ => WR.lastStep) (acc, r) = Some (val, r') /\ 0 <= val < 2 ^ 8 /\
    forall i, 0 <= i < 8 -> Z.testbit val i = (8 - v <=? i) && Z.testbit (leval bm) (p - m + (i - (8 - v))).
Proof.
  intros Hb. induction k as [|k IH]; intros p r acc m Hp Hle Hr Hm Hacc Hv H8 HA.
  - exists acc, r. split; [reflexivity|]. split; [assumption|]. replace v with m by lia. exact HA.
  - cbn [for_up]. unfold WR.lastStep at 1. cbn [fst snd]. destruct (BMRSet_ok bm p (Z.of_nat (S k)) r Hb Hp ltac:(lia) Hr) as [-> _]. destruct (BMRNext_ok bm p (Z.of_nat (S k)) r Hb Hp ltac:(lia) Hle Hr) as (r' & -> & Hr'). cbn [opt_bind].
    set (val := if Z.testbit (leval bm) p then Z.lor (acc >> 1) 128 else acc >> 1). assert (HV : forall i, 0 <= i -> Z.testbit val i = if i =? 7 then Z.testbit (leval bm) p else Z.testbit acc (i + 1)).
    { intros i Hi. subst val. change 128 with (2 ^ 7). destruct (Z.testbit (leval bm) p) eqn:E; rewrite ?Z.lor_spec, Z.shiftr_spec, ?Z.pow2_bits_eqb by lia; destruct (Z.eqb_spec i 7) as [->|Hne].
      - apply orb_true_r.
      - destruct (Z.eqb_spec 7 i); [lia|apply orb_false_r].
      - apply (testbit_above acc 8); [assumption|lia].
      - reflexivity. }
    assert (Hval : 0 <= val < 2 ^ 8).
    { apply bits_bound; [lia| |].
      - subst val. assert (0 <= acc >> 1) by (apply Z.shiftr_nonneg; lia). destruct (Z.testbit _ p); [apply Z.lor_nonneg; split; lia|assumption].
      - intros i Hi. rewrite HV by lia. destruct (Z.eqb_spec i 7); [lia|]. apply (testbit_above acc 8); [assumption|lia]. }
    destruct (IH (p + 1) r' val (m + 1)) as (val' & r'' & HE & HB' & HT); [lia|lia|now replace (Z.of_nat k) with (Z.of_nat (S k) - 1) by lia|lia|assumption|lia|assumption| |].
    + intros i Hi. rewrite HV by lia. replace (p + 1 - (m + 1)) with (p - m) by lia. destruct (Z.eqb_spec i 7) as [->|Hne].
      * bool_lia (8 - (m + 1) <=? 7). cbn [andb]. f_equal. lia.
      * rewrite HA by lia. destruct (Z.leb_spec (8 - m) (i + 1)), (Z.leb_spec (8 - (m + 1)) i); cbn [andb]; try reflexivity; try lia; f_equal; lia.
    + exists val', r''. split; [exact HE|]. split; [assumption|]. intros i Hi. rewrite HT by assumption. do 2 f_equal. lia.
Qed.

Lemma lastBits_ok bm offset v : bytes bm -> 0 <= offset -> 0 <= v <= 8 -> offset + v <= 8 * len bm ->
  exists val, (r <- BMR.NewBitmapReader (Some bm) offset v ;; WR.lastBits r v) = Some val /\ 0 <= val /\ forall i, 0 <= i -> Z.testbit val i = (i <? v) && Z.testbit (leval bm) (offset + i).
Proof.
  intros Hb Ho Hv Hle. destruct (BMRNew_ok bm offset v Hb Ho ltac:(lia) Hle) as (r & -> & Hr). cbn [opt_bind]. unfold WR.lastBits.
  destruct (lastBits_loop bm v Hb (Z.to_nat v) offset r 0 0) as (val & r' & -> & HB & HT); [lia|lia|now rewrite Z2Nat.id by lia|lia|lia|lia|lia|intros i Hi; rewrite Z.bits_0; bool_lia (8 - 0 <=? i); reflexivity|].
  cbn [opt_bind fst]. eexists. split; [reflexivity|]. split; [apply Z.shiftr_nonneg; lia|]. intros i Hi. rewrite Z.shiftr_spec by lia. destruct (Z.ltb_spec i v) as [Hlt|Hge]; cbn [andb].
  - rewrite HT by lia. bool_lia (8 - v <=? i + (8 - v)). cbn [andb]. f_equal. lia.
  - apply (testbit_above val 8); [assumption|lia].
Qed.

(** ** BitmapWordReader *)

(** [k] words and then [n - 64 k] bits are left, [n] in all, and they are those of [f]. *)
Definition delivers (r : BitmapWordReader) (k n : Z) (f : Z -> bool) : Prop :=
  bytes (wr_bitmap r) /\ 0 <= wr_offset r < 8 /\ wr_offset r + n <= 8 * len (wr_bitmap r) /\ 0 <= k /\ (0 < k -> 64 <= n - 64 * k) /\
  wr_trailingBits r = n - 64 * k /\
  (forall i, 0 <= i < n -> Z.testbit (leval (wr_bitmap r)) (wr_offset r + i) = f i) /\
  0 <= wr_curword r /\ (if 0 <? k then wr_curword r = leval (firstn 8 (wr_bitmap r)) else 0 < n -> getLSB (wr_curword r) = nth 0 (wr_bitmap r) 0).

Lemma getLSB_set v b : is_byte b -> 0 <= v -> getLSB (setLSB v b) = b /\ 0 <= setLSB v b.
Proof.
  intros Hb Hv. unfold getLSB, setLSB. split.
  - apply Z.bits_inj'. intros i Hi. destruct (Z.lt_ge_cases i 8) as [Hlt|Hge].
    + rewrite testbit_u8, Z.lor_spec, Z.ldiff_spec by lia. change 255 with (Z.ones 8). rewrite Z.ones_spec_low by lia. now rewrite andb_false_r.
    + unfold u8. rewrite Z.mod_pow2_bits_high, byte_high by (assumption || lia). reflexivity.
  - apply Z.lor_nonneg. split; [apply Z.ldiff_nonneg; lia|]. red in Hb. lia.
Qed.

Lemma getLSB_head l : bytes l -> (1 <= List.length l)%nat -> getLSB (leval (firstn 8 l)) = nth 0 l 0.
Proof.
  intros Hl H1. apply Z.bits_inj'. intros i Hi. unfold getLSB. destruct (Z.lt_ge_cases i 8) as [Hlt|Hge].
  - rewrite testbit_u8, testbit_head, testbit_first by (assumption || lia). reflexivity.
  - unfold u8. rewrite Z.mod_pow2_bits_high by lia. now rewrite byte_high by auto with gobytes.
Qed.

(** A range inside a bitmap, small enough for the arithmetic on its bits. *)
Definition rangeOk (bm : list Z) (offset n : Z) : Prop := bytes bm /\ 0 <= offset /\ 0 <= n /\ offset + n <= 8 * len bm /\ offset + n < 2 ^ 63 - 15.

Definition rangeOkb (bm : list Z) (offset n : Z) : bool := forallb (fun b => (0 <=? b) && (b <? 256)) bm && ((0 <=? offset) && (0 <=? n) && (offset + n <=? 8 * len bm) && (offset + n <? 2 ^ 63 - 15)).

Lemma rangeOkb_ok bm offset n : rangeOkb bm offset n = true -> rangeOk bm offset n.
Proof.
  unfold rangeOkb. rewrite !andb_true_iff, !Z.leb_le, Z.ltb_lt, forallb_forall. intros (HB & ((H1 & H2) & H3) & H4). split; [|auto]. apply Forall_forall. intros b Hb. specialize (HB b Hb). rewrite andb_true_iff, Z.leb_le, Z.ltb_lt in HB. exact HB.
Qed.

Lemma WRNew_ok bm offset n : rangeOk bm offset n ->
  exists r, WR.NewBitmapWordReader bm offset n = Some r /\ delivers r (Z.max 0 (n / 64 - 1)) n (fun i => Z.testbit (leval bm) (offset + i)) /\ WR.Words r = Z.max 0 (n / 64 - 1) /\ WR.TrailingBytes r = (n - 64 * Z.max 0 (n / 64 - 1) + 7) / 8.
Proof.
  intros (Hb & Ho & Hn & Hle & Hmax). unfold WR.NewBitmapWordReader. rewrite !Z.quot_div_nonneg, Z.rem_mod_nonneg by lia. pose proof (Z.mod_pos_bound offset 8 ltac:(lia)) as Hm.
  set (k := Z.max 0 (n / 64 - 1)). replace (if n / 64 - 1 <? 0 then 0 else n / 64 - 1) with k by (subst k; destruct (Z.ltb_spec (n / 64 - 1) 0); lia).
  assert (Hk : 0 <= k /\ (0 < k -> 64 <= n - 64 * k) /\ 64 * k <= n) by (subst k; zdiv). destruct Hk as (Hk0 & Hk1 & Hk2).
  rewrite !BytesForBits_div by zdiv. rewrite slice_ok by zdiv. cbn [opt_bind]. set (b := firstn _ _).
  assert (HL : len b = (offset mod 8 + n + 7) / 8) by (subst b; rewrite length_firstn, length_skipn; zdiv).
  assert (HB : bytes b) by (subst b; auto with gobytes).
  assert (HT : forall i, 0 <= i < n -> Z.testbit (leval b) (offset mod 8 + i) = Z.testbit (leval bm) (offset + i)).
  { intros i Hi. subst b. rewrite leval_firstn, testbit_field by (auto with gobytes; lia). rewrite Z2Nat.id in * by zdiv. bool_lia (0 <=? offset mod 8 + i). replace (offset mod 8 + i <? _) with true by (symmetry; apply Z.ltb_lt; zdiv).
    cbn [andb]. rewrite Z.add_0_l, testbit_skip by (assumption || zdiv). f_equal. zdiv. }
  assert (Hcur : exists cur, (if 0 <? k then Uint64 b else if 0 <? n then x <- index b 0 ;; Some (setLSB 0 x) else Some 0) = Some cur /\ 0 <= cur /\
    (if 0 <? k then cur = leval (firstn 8 b) else 0 < n -> getLSB cur = nth 0 b 0)).
  { destruct (Z.ltb_spec 0 k) as [Hlt|Hge].
    - rewrite Uint64_ok by zdiv. eexists. split; [reflexivity|]. split; [|reflexivity]. apply head_bound; [assumption|zdiv].
    - destruct (Z.ltb_spec 0 n) as [Hp|Hz]; [|exists 0; splits; auto; lia]. rewrite (index_ok b 0 0) by zdiv. cbn [opt_bind]. change (Z.to_nat 0) with 0%nat.
      destruct (getLSB_set 0 (nth 0 b 0)) as [HG Hge0]; [auto with gobytes|lia|]. eexists. split; [reflexivity|]. split; [assumption|]. intros _. exact HG. }
  destruct Hcur as (cur & -> & Hc0 & Hc1). cbn [opt_bind]. eexists. split; [reflexivity|]. unfold delivers, WR.Words, WR.TrailingBytes. cbn [wr_bitmap wr_offset wr_nwords wr_trailingBits wr_trailingBytes wr_curword].
  split; [|split; [reflexivity|f_equal; lia]]. split; [assumption|]. split; [assumption|]. split; [zdiv|]. split; [assumption|]. split; [assumption|]. split; [lia|]. auto.
Qed.

(** The bits of two adjacent words, the first one shifted out by [o]. *)
Lemma join_bits w a b o i : 0 <= w -> 0 <= o < w -> 0 <= a < 2 ^ w -> 0 <= i < w ->
  Z.testbit (Z.lor (a >> o) (Z.shiftl b (w - o) mod 2 ^ w)) i = if i <? w - o then Z.testbit a (o + i) else Z.testbit b (i - (w - o)).
Proof.
  intros Hw Ho Ha Hi. rewrite Z.lor_spec, Z.shiftr_spec, Z.mod_pow2_bits_low, Z.shiftl_spec by lia. rewrite (Z.add_comm i o). destruct (Z.ltb_spec i (w - o)) as [Hlt|Hge].
  - rewrite (Z.testbit_neg_r b) by lia. apply orb_false_r.
  - now rewrite (testbit_above a w) by (assumption || lia).
Qed.

Lemma join_bound w a b o : 0 <= w -> 0 <= o -> 0 <= a < 2 ^ w -> 0 <= Z.lor (a >> o) (Z.shiftl b (w - o) mod 2 ^ w) < 2 ^ w.
Proof.
  intros Hw Ho Ha. pose proof (Z.mod_pos_bound (Z.shiftl b (w - o)) (2 ^ w) (pow2_pos w Hw)) as HM. assert (HS : 0 <= a >> o) by (apply Z.shiftr_nonneg; lia).
  apply bits_bound; [assumption|apply Z.lor_nonneg; split; lia|]. intros i Hi. rewrite Z.lor_spec, Z.shiftr_spec by lia. rewrite (testbit_above a w), (testbit_above _ w i HM) by (assumption || lia). reflexivity.
Qed.

Lemma deliverWord_ok r k n f : delivers r (k + 1) n f -> 0 <= k ->
  exists r' w, WR.NextWord r = Some (r', w) /\ 0 <= w < 2 ^ 64 /\ (forall i, 0 <= i < 64 -> Z.testbit w i = f i) /\ delivers r' k (n - 64) (fun i => f (64 + i)) /\ wr_trailingBytes r' = wr_trailingBytes r.
Proof.
  intros (Hb & Ho & Hroom & Hk & Hk1 & Htb & Hf & Hc0 & Hc) Hk0. bool_lia (0 <? k + 1). rewrite (proj2 (Z.ltb_lt 0 (k + 1)) ltac:(lia)) in Hc. specialize (Hk1 ltac:(lia)). unfold WR.NextWord.
  assert (HL : 16 <= len (wr_bitmap r)) by lia. rewrite slice_from by lia. cbn [opt_bind]. change (Z.to_nat 8) with 8%nat. set (bm' := skipn 8 (wr_bitmap r)).
  assert (HL' : len bm' = len (wr_bitmap r) - 8) by (subst bm'; rewrite length_skipn; lia). assert (HB' : bytes bm') by (subst bm'; auto with gobytes). rewrite Uint64_ok by lia. cbn [opt_bind].
  assert (HT : forall i, 0 <= i -> Z.testbit (leval bm') i = Z.testbit (leval (wr_bitmap r)) (64 + i)) by (intros i Hi; subst bm'; change 8%nat with (Z.to_nat 8); now rewrite testbit_skip by (assumption || lia)).
  pose proof (head_bound (wr_bitmap r) Hb ltac:(lia)) as Hcb. rewrite <- Hc in Hcb. pose proof (head_bound bm' HB' ltac:(lia)) as Hnb. eexists _, _. split; [reflexivity|].
  assert (Hw : forall w, w = (if wr_offset r =? 0 then wr_curword r else Z.lor (wr_curword r >> wr_offset r) (u64 (Z.shiftl (leval (firstn 8 bm')) (64 - wr_offset r)))) -> 0 <= w < 2 ^ 64 /\ forall i, 0 <= i < 64 -> Z.testbit w i = f i).
  { intros w ->. destruct (Z.eqb_spec (wr_offset r) 0) as [H0|Hne].
    - split; [assumption|]. intros i Hi. rewrite <- Hf, H0, Hc, testbit_head by (assumption || lia). reflexivity.
    - split; [apply join_bound; lia|]. intros i Hi. unfold u64. rewrite join_bits by lia. rewrite <- Hf by lia. destruct (Z.ltb_spec i (64 - wr_offset r)).
      + now rewrite Hc, testbit_head by (assumption || lia).
      + rewrite testbit_head, HT by (assumption || lia). f_equal. lia. }
  destruct (Hw _ eq_refl) as [HW1 HW2]. split; [assumption|]. split; [assumption|]. split; [|reflexivity]. unfold delivers. cbn [wr_bitmap wr_offset wr_trailingBits wr_curword].
  split; [assumption|]. split; [assumption|]. split; [lia|]. split; [lia|]. split; [lia|]. split; [lia|]. split; [|split; [lia|]].
  - intros i Hi. rewrite HT by lia. rewrite <- Hf by lia. f_equal. lia.
  - destruct (0 <? k); [reflexivity|]. intros _. apply getLSB_head; [assumption|lia].
Qed.

Lemma NextTrailingByte_ok r n f : delivers r 0 n f -> 0 < n ->
  exists r' v, WR.NextTrailingByte r = Some (r', v, Z.min 8 n) /\ is_byte v /\ (forall i, 0 <= i -> Z.testbit v i = (i <? Z.min 8 n) && f i) /\ (8 < n -> delivers r' 0 (n - 8) (fun i => f (8 + i))).
Proof.
  intros (Hb & Ho & Hroom & Hk & Hk1 & Htb & Hf & Hc0 & Hc) Hn. cbn in Hc. specialize (Hc Hn). unfold WR.NextTrailingByte. rewrite Htb. replace (n - 64 * 0) with n by lia. destruct (Z.leb_spec n 8) as [Hle|Hgt].
  - destruct (lastBits_ok (wr_bitmap r) (wr_offset r) n Hb ltac:(lia) ltac:(lia) Hroom) as (val & HE & Hv0 & HV).
    destruct (BMR.NewBitmapReader (Some (wr_bitmap r)) (wr_offset r) n) as [rdr|]; [|discriminate]. cbn [opt_bind] in *. rewrite HE. cbn [opt_bind]. rewrite Z.min_r by lia. eexists _, _. split; [reflexivity|].
    assert (HT : forall i, 0 <= i -> Z.testbit val i = (i <? n) && f i).
    { intros i Hi. rewrite HV by assumption. destruct (Z.ltb_spec i n); cbn [andb]; [|reflexivity]. now rewrite Hf by lia. }
    split; [apply byte_bits; [|assumption]; intros i Hi; rewrite HT by lia; bool_lia (i <? n); reflexivity|]. split; [assumption|lia].
  - rewrite Z.min_l by lia. assert (HL : 2 <= len (wr_bitmap r)) by lia. rewrite slice_from by lia. cbn [opt_bind]. change (Z.to_nat 1) with 1%nat. set (bm' := skipn 1 (wr_bitmap r)).
    assert (HL' : len bm' = len (wr_bitmap r) - 1) by (subst bm'; rewrite length_skipn; lia). assert (HB' : bytes bm') by (subst bm'; auto with gobytes). rewrite (index_ok bm' 0 0) by lia. cbn [opt_bind]. change (Z.to_nat 0) with 0%nat.
    assert (HT : forall i, 0 <= i -> Z.testbit (leval bm') i = Z.testbit (leval (wr_bitmap r)) (8 + i)) by (intros i Hi; subst bm'; change 1%nat with (Z.to_nat 1); now rewrite testbit_skip by (assumption || lia)).
    assert (Hnb : is_byte (nth 0 bm' 0)) by auto with gobytes. destruct (getLSB_set (wr_curword r) (nth 0 bm' 0) Hnb Hc0) as [HG HG0]. rewrite Hc. eexists _, _. split; [reflexivity|].
    assert (Hcb : is_byte (nth 0 (wr_bitmap r) 0)) by auto with gobytes. red in Hcb.
    assert (Hw : forall w, w = (if wr_offset r =? 0 then nth 0 (wr_bitmap r) 0 else Z.lor (nth 0 (wr_bitmap r) 0 >> wr_offset r) (u8 (Z.shiftl (nth 0 bm' 0) (8 - wr_offset r)))) -> is_byte w /\ forall i, 0 <= i < 8 -> Z.testbit w i = f i).
    { intros w ->. destruct (Z.eqb_spec (wr_offset r) 0) as [H0|Hne].
      - split; [assumption|]. intros i Hi. rewrite <- Hf, H0, testbit_first by (assumption || lia). reflexivity.
      - split; [apply (join_bound 8); lia|]. intros i Hi. unfold u8. rewrite join_bits by lia. rewrite <- Hf by lia. destruct (Z.ltb_spec i (8 - wr_offset r)).
        + now rewrite testbit_first by (assumption || lia).
        + rewrite testbit_first, HT by (assumption || lia). f_equal. lia. }
    destruct (Hw _ eq_refl) as [HW1 HW2]. split; [assumption|]. split; [|intros _].
    + intros i Hi. destruct (Z.ltb_spec i 8); cbn [andb]; [apply HW2; lia|apply byte_high; assumption].
    + unfold delivers. cbn [wr_bitmap wr_offset wr_trailingBits wr_curword]. split; [assumption|]. split; [assumption|]. split; [lia|]. split; [lia|]. split; [lia|]. split; [lia|]. split; [|split; [assumption|]].
      * intros i Hi. rewrite HT by lia. rewrite <- Hf by lia. f_equal. lia.
      * cbn [Z.ltb Z.compare]. intros _. exact HG.
Qed.

(** ** BitmapWriter *)

(** The bitmap [Finish] leaves. *)
Definition bwView (w : BitmapWriter) : list Z :=
  if (bw_bitMask w =? 1) && (bw_length w <=? bw_pos w) then bw_buf w else upd (bw_buf w) (Z.to_nat (bw_byteOffset w)) (bw_curByte w).

(** The writer is at bit [P]; its range ends inside the bitmap. *)
Definition bwAt (w : BitmapWriter) (P : Z) : Prop :=
  bytes (bw_buf w) /\ is_byte (bw_curByte w) /\ 0 <= P /\ bw_bitMask w = 2 ^ (P mod 8) /\ bw_byteOffset w = P / 8 /\
  0 <= bw_pos w <= bw_length w /\ 0 < bw_length w /\ P + (bw_length w - bw_pos w) <= 8 * len (bw_buf w).

Lemma mask_one P : (2 ^ (P mod 8) =? 1) = (P mod 8 =? 0).
Proof. pose proof (Z.mod_pos_bound P 8 ltac:(lia)). destruct (Z.eqb_spec (P mod 8) 0) as [->|Hne]; [reflexivity|]. apply Z.eqb_neq. assert (2 ^ 1 <= 2 ^ (P mod 8)) by (apply Z.pow_le_mono_r; lia). lia. Qed.

Lemma bwAt_inside w P : bwAt w P -> (P mod 8 =? 0) && (bw_length w <=? bw_pos w) = false -> 0 <= P / 8 < len (bw_buf w).
Proof. intros (_ & _ & HP & _ & _ & Hpos & _ & Hle) H. apply andb_false_iff in H. rewrite Z.eqb_neq, Z.leb_gt in H. zdiv. Qed.

Lemma bwView_bytes w P : bwAt w P -> bytes (bwView w) /\ List.length (bwView w) = List.length (bw_buf w).
Proof. intros (Hb & Hc & _). unfold bwView. destruct (_ && _); [auto|]. split; [auto with gobytes|apply length_upd]. Qed.

Lemma BWFinish_ok w P : bwAt w P -> exists w', BW.Finish w = Some w' /\ bw_buf w' = bwView w /\ bw_pos w' = bw_pos w /\ bw_length w' = bw_length w /\ bwAt w' P /\ bwView w' = bwView w.
Proof.
  intros Hw. pose proof Hw as (Hb & Hc & HP & Hm & Ho & Hpos & Hl & Hle). unfold BW.Finish, bwView. bool_lia (0 <? bw_length w). cbn [andb]. rewrite Hm, mask_one, Ho.
  replace (negb (P mod 8 =? 0) || (bw_pos w <? bw_length w)) with (negb ((P mod 8 =? 0) && (bw_length w <=? bw_pos w))) by (rewrite negb_andb; f_equal; destruct (Z.leb_spec (bw_length w) (bw_pos w)), (Z.ltb_spec (bw_pos w) (bw_length w)); (reflexivity || lia)).
  destruct ((P mod 8 =? 0) && (bw_length w <=? bw_pos w)) eqn:E; cbn [negb].
  - exists w. rewrite Hm, mask_one, E. auto 8.
  - pose proof (bwAt_inside w P Hw E). rewrite store_ok by assumption. cbn [opt_bind]. eexists. split; [reflexivity|]. cbn [bw_buf bw_pos bw_length bw_bitMask bw_byteOffset bw_curByte]. rewrite ?Hm, ?Ho, ?mask_one, ?E. splits; auto.
    + unfold bwAt. cbn [bw_buf bw_pos bw_length bw_bitMask bw_byteOffset bw_curByte]. rewrite length_upd. splits; auto with gobytes; lia.
    + apply (nth_ext_eq _ _ 0); [now rewrite !length_upd|]. intros k Hk. destruct (Nat.eq_dec (Z.to_nat (P / 8)) k) as [<-|Hne]; [|now rewrite !nth_upd_ne by assumption]. now rewrite !nth_upd_eq by (rewrite ?length_upd in *; lia).
Qed.

(** The view of a writer inside its bitmap. *)
Lemma bwView_bit w P j : bwAt w P -> (P mod 8 =? 0) && (bw_length w <=? bw_pos w) = false -> 0 <= j -> Z.testbit (leval (bwView w)) j = if j / 8 =? P / 8 then Z.testbit (bw_curByte w) (j mod 8) else Z.testbit (leval (bw_buf w)) j.
Proof.
  intros Hw E Hj. pose proof (bwAt_inside w P Hw E) as HI. destruct Hw as (Hb & Hc & HP & Hm & Ho & _). unfold bwView. rewrite Hm, mask_one, E, Ho. rewrite testbit_upd by (assumption || lia). now rewrite Z2Nat.id by lia.
Qed.

Lemma BWNew_ok buf start n : bytes buf -> 0 <= start -> 0 < n -> start + n <= 8 * len buf -> exists w, BW.NewBitmapWriter buf start n = Some w /\ bwAt w start /\ bwView w = buf /\ bw_pos w = 0 /\ bw_length w = n.
Proof.
  intros Hb Hs Hn Hle. unfold BW.NewBitmapWriter. rewrite Z.quot_div_nonneg, Z.rem_mod_nonneg by lia. pose proof (Z.mod_pos_bound start 8 ltac:(lia)) as Hm. bool_lia (0 <? n). assert (HI : 0 <= start / 8 < len buf) by zdiv.
  rewrite (index_ok BitMask _ 0), (index_ok buf _ 0) by (assumption || cbn; lia). cbn [opt_bind]. rewrite BitMask_pow by assumption. eexists. split; [reflexivity|]. unfold bwAt, bwView. cbn [bw_buf bw_pos bw_length bw_bitMask bw_byteOffset bw_curByte].
  bool_lia (n <=? 0). rewrite andb_false_r. splits; auto with gobytes; try lia. apply (nth_ext_eq _ _ 0); [apply length_upd|]. intros k Hk. rewrite length_upd in Hk. destruct (Nat.eq_dec (Z.to_nat (start / 8)) k) as [<-|Hne]; [now rewrite nth_upd_eq by lia|now rewrite nth_upd_ne by assumption].
Qed.

Lemma BWReset_ok w start n : bytes (bw_buf w) -> 0 <= start -> 0 < n -> start + n <= 8 * len (bw_buf w) -> exists w', BW.Reset w start n = Some w' /\ bwAt w' start /\ bwView w' = bw_buf w /\ bw_buf w' = bw_buf w /\ bw_pos w' = 0 /\ bw_length w' = n.
Proof.
  intros Hb Hs Hn Hle. destruct (BWNew_ok (bw_buf w) start n Hb Hs Hn Hle) as (w' & HE & HA & HV & Hp & Hl). unfold BW.NewBitmapWriter in HE. unfold BW.Reset. bool_lia (0 <? n). rewrite (proj2 (Z.ltb_lt 0 n) Hn) in HE.
  destruct (index BitMask (Z.rem start 8)); [|discriminate]. cbn [opt_bind] in *. destruct (index (bw_buf w) (Z.quot start 8)); [|discriminate]. cbn [opt_bind] in *. exists w'. injection HE as <-. auto 8.
Qed.

(** The byte with the bit written. *)
Definition putBit (w : BitmapWriter) (b : bool) : BitmapWriter := if b then BW.Set_ w else BW.Clear w.

Lemma putBit_cur w b P i : bwAt w P -> 0 <= i < 8 -> Z.testbit (bw_curByte (putBit w b)) i = if i =? P mod 8 then b else Z.testbit (bw_curByte w) i.
Proof.
  intros (_ & Hc & HP & Hm & _) Hi. pose proof (Z.mod_pos_bound P 8 ltac:(lia)). destruct b; cbn [putBit BW.Set_ BW.Clear BW.withCur bw_curByte]; rewrite Hm.
  - rewrite Z.lor_spec, Z.pow2_bits_eqb, (Z.eqb_sym (P mod 8)) by lia. destruct (i =? P mod 8); [apply orb_true_r|apply orb_false_r].
  - rewrite Z.land_spec, testbit_u8, Z.lnot_spec, Z.pow2_bits_eqb, (Z.eqb_sym (P mod 8)) by lia. destruct (i =? P mod 8); [apply andb_false_r|apply andb_true_r].
Qed.

Lemma putBit_byte w b P : bwAt w P -> is_byte (bw_curByte (putBit w b)).
Proof.
  intros (_ & Hc & HP & Hm & _). assert (HM : is_byte (2 ^ (P mod 8))) by (pose proof (Z.mod_pos_bound P 8 ltac:(lia)); split; [apply Z.pow_nonneg; lia|]; change 256 with (2 ^ 8); apply Z.pow_lt_mono_r; lia).
  destruct b; cbn [putBit BW.Set_ BW.Clear BW.withCur bw_curByte]; rewrite Hm; apply byte_lor || apply byte_land; auto. red. unfold u8. apply Z.mod_pos_bound. lia.
Qed.

Lemma BWNext_ok w P b : bwAt w P -> bw_pos w < bw_length w ->
  exists w', BW.Next (putBit w b) = Some w' /\ bwAt w' (P + 1) /\ bw_pos w' = bw_pos w + 1 /\ bw_length w' = bw_length w /\ bitsPut (bwView w) P 1 (fun _ => b) (bwView w') /\ List.length (bw_buf w') = List.length (bw_buf w).
Proof.
  intros Hw Hlt. pose proof Hw as (Hb & Hc & HP & Hm & Ho & Hpos & Hl & Hle). pose proof (Z.mod_pos_bound P 8 ltac:(lia)) as HM. assert (HI : 0 <= P / 8 < len (bw_buf w)) by zdiv.
  assert (E : (P mod 8 =? 0) && (bw_length w <=? bw_pos w) = false) by (apply andb_false_iff; right; apply Z.leb_gt; lia). pose proof (bwView_bytes w P Hw) as [HVb HVl].
  pose proof (putBit_byte w b P Hw) as HCb. pose proof (putBit_cur w b P) as HCc. set (c := bw_curByte (putBit w b)) in *.
  assert (Hsame : bw_buf (putBit w b) = bw_buf w /\ bw_pos (putBit w b) = bw_pos w /\ bw_length (putBit w b) = bw_length w /\ bw_bitMask (putBit w b) = bw_bitMask w /\ bw_byteOffset (putBit w b) = bw_byteOffset w) by (destruct b; cbn; auto). destruct Hsame as (S1 & S2 & S3 & S4 & S5).
  unfold BW.Next. fold c. rewrite S1, S2, S3, S4, S5, Hm, Ho.
  (* the bits of the buffer with the byte [c] *)
  assert (HBit : forall j, 0 <= j -> (if j / 8 =? P / 8 then Z.testbit c (j mod 8) else Z.testbit (leval (bw_buf w)) j) = if (P <=? j) && (j <? P + 1) then b else Z.testbit (leval (bwView w)) j).
  { intros j Hj. rewrite (bwView_bit w P j Hw E Hj). pose proof (Z.mod_pos_bound j 8 ltac:(lia)). destruct (Z.eqb_spec (j / 8) (P / 8)) as [He|Hne].
    - rewrite HCc by (assumption || lia). destruct (Z.eqb_spec (j mod 8) (P mod 8)), (Z.leb_spec P j), (Z.ltb_spec j (P + 1)); cbn [andb]; (reflexivity || (exfalso; zdiv)).
    - destruct (Z.leb_spec P j), (Z.ltb_spec j (P + 1)); cbn [andb]; try reflexivity. exfalso. apply Hne. f_equal. lia. }
  assert (Hshift : u8 (Z.shiftl (2 ^ (P mod 8)) 1) = if P mod 8 =? 7 then 0 else 2 ^ (P mod 8 + 1)).
  { unfold u8. rewrite shiftl_mul, <- Z.pow_add_r by lia. destruct (Z.eqb_spec (P mod 8) 7) as [->|]; [reflexivity|]. apply Z.mod_small. split; [apply Z.pow_nonneg; lia|apply Z.pow_lt_mono_r; lia]. }
  rewrite Hshift. destruct (Z.eqb_spec (P mod 8) 7) as [H7|Hn7].
  - cbn [Z.eqb]. assert (Hd : (P + 1) / 8 = P / 8 + 1 /\ (P + 1) mod 8 = 0) by zdiv. destruct Hd as [Hd Hd']. rewrite store_ok by assumption. cbn [opt_bind].
    assert (Hcur : exists cur, (if bw_pos w + 1 <? bw_length w then index (upd (bw_buf w) (Z.to_nat (P / 8)) c) (P / 8 + 1) else Some c) = Some cur /\ is_byte cur /\ (bw_pos w + 1 < bw_length w -> cur = nth (Z.to_nat (P / 8 + 1)) (upd (bw_buf w) (Z.to_nat (P / 8)) c) 0)).
    { destruct (Z.ltb_spec (bw_pos w + 1) (bw_length w)); [|exists c; splits; auto; lia]. rewrite (index_ok _ _ 0) by (rewrite length_upd; zdiv). eexists. splits; auto with gobytes. }
    destruct Hcur as (cur & -> & Hcur & Hcur'). cbn [opt_bind]. eexists. split; [reflexivity|].
    assert (HA : bwAt (mkBW (upd (bw_buf w) (Z.to_nat (P / 8)) c) (bw_pos w + 1) (bw_length w) cur 1 (P / 8 + 1)) (P + 1)).
    { unfold bwAt. cbn [bw_buf bw_pos bw_length bw_bitMask bw_byteOffset bw_curByte]. rewrite length_upd, Hd, Hd'. splits; auto with gobytes; lia. }
    split; [exact HA|]. split; [reflexivity|]. split; [reflexivity|]. split; [|apply length_upd]. set (w' := mkBW _ _ _ _ _ _) in *. pose proof (bwView_bytes _ _ HA) as [HV'b HV'l]. split; [rewrite HV'l, HVl; apply length_upd|]. split; [assumption|].
    intros j Hj. rewrite <- HBit by assumption. assert (Hupd : Z.testbit (leval (upd (bw_buf w) (Z.to_nat (P / 8)) c)) j = if j / 8 =? P / 8 then Z.testbit c (j mod 8) else Z.testbit (leval (bw_buf w)) j) by (rewrite testbit_upd by (assumption || lia); now rewrite Z2Nat.id by lia).
    destruct ((((P + 1) mod 8 =? 0) && (bw_length w' <=? bw_pos w'))) eqn:E'.
    + unfold bwView. cbn [bw_bitMask w']. change (bw_length w') with (bw_length w). change (bw_pos w') with (bw_pos w + 1). rewrite Hd' in E'. cbn [Z.eqb andb bw_length bw_pos w'] in E'. rewrite E'. cbn [Z.eqb Pos.eqb andb bw_buf]. exact Hupd.
    + rewrite (bwView_bit w' (P + 1) j HA E' Hj). cbn [bw_buf bw_curByte w']. rewrite Hd' in E'. cbn [Z.eqb andb bw_length bw_pos w'] in E'. apply Z.leb_gt in E'. rewrite Hd, (Hcur' E'). destruct (Z.eqb_spec (j / 8) (P / 8 + 1)) as [Hj8|_]; [|exact Hupd].
      rewrite <- Hj8, <- testbit_leval by (auto with gobytes; lia). exact Hupd.
  - rewrite (proj2 (Z.eqb_neq (2 ^ (P mod 8 + 1)) 0)) by (apply Z.pow_nonzero; lia). assert (Hd : (P + 1) / 8 = P / 8 /\ (P + 1) mod 8 = P mod 8 + 1) by zdiv. destruct Hd as [Hd Hd']. eexists. split; [reflexivity|].
    set (w' := mkBW _ _ _ _ _ _). assert (HA : bwAt w' (P + 1)) by (unfold bwAt; cbn [bw_buf bw_pos bw_length bw_bitMask bw_byteOffset bw_curByte w']; rewrite Hd, Hd'; splits; auto; lia).
    split; [exact HA|]. split; [reflexivity|]. split; [reflexivity|]. split; [|reflexivity]. pose proof (bwView_bytes _ _ HA) as [HV'b HV'l]. split; [now rewrite HV'l, HVl|]. split; [assumption|]. intros j Hj. rewrite <- HBit by assumption.
    rewrite (bwView_bit w' (P + 1) j HA) by (assumption || (apply andb_false_iff; left; apply Z.eqb_neq; lia)). now rewrite Hd.
Qed.

(** Writing single bits in a row. *)
Lemma bits_loop vs o : forall k i s, bitmapOk s -> 0 <= o -> 0 <= i -> i + Z.of_nat k = len vs -> o + len vs <= 8 * len s ->
  exists s', for_up k i (fun i s => if nth (Z.to_nat i) vs false then SetBit s (i + o) else ClearBit s (i + o)) s = Some s' /\ bitsPut s (o + i) (Z.of_nat k) (fun j => nth (Z.to_nat (i + j)) vs false) s'.
Proof.
  induction k as [|k IH]; intros i s Hs Ho Hi Hk Hle; cbn [for_up]; [exists s; split; [reflexivity|]; apply bitsPut_refl, Hs|].
  change (if nth (Z.to_nat i) vs false then SetBit s (i + o) else ClearBit s (i + o)) with (SetBitTo s (i + o) (nth (Z.to_nat i) vs false)). destruct (SetBitTo_ok s (i + o) Hs ltac:(lia) (nth (Z.to_nat i) vs false)) as (s1 & -> & HL1 & HB1 & HT1). cbn [opt_bind].
  destruct (IH (i + 1) s1) as (s' & HE & HP); [split; [assumption|rewrite HL1; apply Hs]|lia|lia|lia|rewrite HL1; lia|]. exists s'. split; [exact HE|].
  replace (Z.of_nat (S k)) with (1 + Z.of_nat k) by lia. apply (bitsPut_trans s (o + i) 1 (Z.of_nat k) _ s1); [lia|lia| |].
  - split; [assumption|]. split; [assumption|]. intros j Hj. rewrite HT1 by assumption. destruct (Z.eqb_spec j (i + o)), (Z.leb_spec (o + i) j), (Z.ltb_spec j (o + i + 1)); cbn [andb]; try reflexivity; try lia. do 2 f_equal. lia.
  - replace (o + i + 1) with (o + (i + 1)) by lia. apply (bitsPut_ext _ _ _ _ _ _ HP). intros j Hj. do 2 f_equal. lia.
Qed.

(** Writing in the bytes from [b] on. *)
Lemma bitsPut_window buf b m pos n f win' :
  bytes buf -> 0 <= b -> 0 <= m -> b + m <= len buf -> 0 <= pos -> 0 <= n -> pos + n <= 8 * m -> bitsPut (firstn (Z.to_nat m) (skipn (Z.to_nat b) buf)) pos n f win' ->
  bitsPut buf (8 * b + pos) n f (splice buf (Z.to_nat b) win').
Proof.
  intros Hb Hb0 Hm Hle Hp Hn Hfit (HL & HB & HT). rewrite length_firstn, length_skipn, Nat.min_l in HL by lia. assert (HLz : len win' = m) by lia.
  destruct (splice_put buf b win' Hb HB Hb0 ltac:(lia)) as (SL & SB & ST). split; [assumption|]. split; [assumption|]. intros j Hj. rewrite ST, HLz by assumption.
  destruct (Z.leb_spec (8 * b) j), (Z.ltb_spec j (8 * b + 8 * m)); cbn [andb].
  - rewrite HT by lia. rewrite leval_firstn, testbit_field by (auto with gobytes; lia). bool_lia (0 <=? j - 8 * b). replace (j - 8 * b <? 8 * Z.of_nat (Z.to_nat m)) with true by (symmetry; apply Z.ltb_lt; lia). cbn [andb]. rewrite Z.add_0_l, testbit_skip by (assumption || lia).
    destruct (Z.leb_spec pos (j - 8 * b)), (Z.ltb_spec (j - 8 * b) (pos + n)), (Z.leb_spec (8 * b + pos) j), (Z.ltb_spec j (8 * b + pos + n)); cbn [andb]; try lia; f_equal; lia.
  - destruct (Z.leb_spec (8 * b + pos) j), (Z.ltb_spec j (8 * b + pos + n)); cbn [andb]; try reflexivity; lia.
  - destruct (Z.leb_spec (8 * b + pos) j), (Z.ltb_spec j (8 * b + pos + n)); cbn [andb]; try reflexivity; lia.
  - lia.
Qed.

Lemma trailing_mask P : TrailingZeros32 (2 ^ (P mod 8)) = P mod 8.
Proof. apply trailing_pow, Z.mod_pos_bound. lia. Qed.

(** A writer that has just moved over [n] bits of its buffer. *)
Lemma bwMoved_view w P : bwAt w P -> (bw_length w <= bw_pos w -> P mod 8 <> 0 -> bw_curByte w = nth (Z.to_nat (P / 8)) (bw_buf w) 0) -> (bw_pos w < bw_length w -> bw_curByte w = nth (Z.to_nat (P / 8)) (bw_buf w) 0) -> bwView w = bw_buf w.
Proof.
  intros Hw H1 H2. destruct ((P mod 8 =? 0) && (bw_length w <=? bw_pos w)) eqn:E; unfold bwView; destruct Hw as (Hb & Hc & HP & Hm & Ho & _); rewrite Hm, mask_one, E; [reflexivity|].
  assert (Hcur : bw_curByte w = nth (Z.to_nat (P / 8)) (bw_buf w) 0) by (apply andb_false_iff in E; rewrite Z.eqb_neq, Z.leb_gt in E; destruct (Z.lt_ge_cases (bw_pos w) (bw_length w)); [apply H2; lia|apply H1; lia]). rewrite Hcur, Ho.
  apply (nth_ext_eq _ _ 0); [apply length_upd|]. intros k Hk. rewrite length_upd in Hk. destruct (Nat.eq_dec (Z.to_nat (P / 8)) k) as [<-|Hne]; [now rewrite nth_upd_eq by lia|now rewrite nth_upd_ne by assumption].
Qed.

(** The slots of [b] are those of a [bitsPut] that starts at the view. *)
Lemma bitsPut_from_view w P n f buf' : bwAt w P -> bw_pos w < bw_length w -> bitsPut (upd (bw_buf w) (Z.to_nat (P / 8)) (bw_curByte w)) P n f buf' -> bitsPut (bwView w) P n f buf'.
Proof. intros (_ & _ & HP & Hm & Ho & _) Hlt H. unfold bwView. bool_lia (bw_length w <=? bw_pos w). rewrite andb_false_r, Ho. exact H. Qed.

Lemma AppendBools_ok w P ins : bwAt w P -> 8 * len (bw_buf w) < 2 ^ 63 - 15 ->
  let space := Z.min (bw_length w - bw_pos w) (len ins) in
  exists w', BW.AppendBools w ins = Some (w', space) /\ bwAt w' (P + space) /\ bw_pos w' = bw_pos w + space /\ bw_length w' = bw_length w /\ List.length (bw_buf w') = List.length (bw_buf w) /\
    (0 < space -> bitsPut (bwView w) P space (fun i => nth (Z.to_nat i) ins false) (bw_buf w')) /\
    ((P + space) mod 8 <> 0 \/ bw_pos w + space = bw_length w \/ space = 0 -> bitsPut (bwView w) P space (fun i => nth (Z.to_nat i) ins false) (bwView w')).
Proof.
  intros Hw Hmax space. pose proof Hw as (Hb & Hc & HP & Hm & Ho & Hpos & Hl & Hle). unfold BW.AppendBools. fold space. assert (Hsp : 0 <= space <= len ins /\ space <= bw_length w - bw_pos w) by (subst space; lia).
  destruct (Z.eqb_spec space 0) as [H0|Hne].
  { exists w. rewrite H0, !Z.add_0_r. splits; auto; try lia. intros _. apply bitsPut_refl, (bwView_bytes w P Hw). }
  pose proof (Z.mod_pos_bound P 8 ltac:(lia)) as HM. rewrite Hm, trailing_mask, Ho, BytesForBits_div by lia. set (o := P mod 8) in *. set (m := (o + space + 7) / 8). assert (HP8 : P = 8 * (P / 8) + o) by (subst o; zdiv). assert (HD : P / 8 + m <= len (bw_buf w) /\ 1 <= m /\ o + space <= 8 * m /\ 8 * m < o + space + 8) by (subst m; zdiv). destruct HD as (HD1 & HD2 & HD3 & HD4).
  assert (Hq : 0 <= P / 8) by (apply Z.div_pos; lia). rewrite slice_ok by lia. cbn [opt_bind]. replace (P / 8 + m - P / 8) with m by lia. set (app := firstn _ _). assert (Happ : len app = m) by (subst app; rewrite length_firstn, length_skipn; lia). assert (HappB : bytes app) by (subst app; auto with gobytes).
  rewrite store_ok by lia. cbn [opt_bind]. change (Z.to_nat 0) with 0%nat. rewrite slice_ok by lia. cbn [opt_bind]. rewrite Z.sub_0_r. change (skipn (Z.to_nat 0) ins) with ins. set (vs := firstn (Z.to_nat space) ins). assert (Hvs : len vs = space) by (subst vs; rewrite length_firstn; lia).
  destruct (bits_loop vs o (List.length vs) 0 (upd app 0 (bw_curByte w))) as (s' & -> & HPut); [split; [auto with gobytes|rewrite length_upd; lia]|lia|lia|lia|rewrite length_upd; lia|]. cbn [opt_bind]. rewrite Z.add_0_r, Hvs in HPut.
  pose proof (bitsPut_bytes _ _ _ _ _ HPut) as [HsB HsL]. rewrite length_upd in HsL. rewrite Z.quot_div_nonneg, Z.rem_mod_nonneg by lia. pose proof (Z.mod_pos_bound (o + space) 8 ltac:(lia)). rewrite (index_ok BitMask _ 0), (index_ok s' _ 0) by (cbn; lia). cbn [opt_bind]. rewrite BitMask_pow by assumption.
  assert (Hmod : (P + space) mod 8 = (o + space) mod 8 /\ (P + space) / 8 = P / 8 + (o + space) / 8) by (subst o; zdiv). destruct Hmod as [Hmod Hdiv].
  eexists. split; [reflexivity|]. set (w' := mkBW _ _ _ _ _ _). assert (HLs : List.length (splice (bw_buf w) (Z.to_nat (P / 8)) s') = List.length (bw_buf w)) by (apply length_splice; lia).
  assert (HA : bwAt w' (P + space)). { unfold bwAt. cbn [bw_buf bw_pos bw_length bw_bitMask bw_byteOffset bw_curByte w']. rewrite HLs, Hmod, Hdiv. splits; auto with gobytes; lia. }
  assert (HBuf : bitsPut (bwView w) P space (fun i => nth (Z.to_nat i) ins false) (bw_buf w')).
  { apply bitsPut_from_view; [assumption|lia|]. cbn [bw_buf w']. assert (HU : firstn (Z.to_nat m) (skipn (Z.to_nat (P / 8)) (upd (bw_buf w) (Z.to_nat (P / 8)) (bw_curByte w))) = upd app 0 (bw_curByte w)).
    { apply (nth_ext_eq _ _ 0); [rewrite length_firstn, length_skipn, !length_upd; lia|]. intros k Hk. rewrite length_firstn, length_skipn, length_upd in Hk. rewrite nth_firstn, nth_skipn. replace (k <? Z.to_nat m)%nat with true by (symmetry; apply Nat.ltb_lt; lia).
      destruct k as [|k]; [rewrite Nat.add_0_r, !nth_upd_eq by lia; reflexivity|]. rewrite !nth_upd_ne by lia. subst app. rewrite nth_firstn, nth_skipn. now replace (S k <? Z.to_nat m)%nat with true by (symmetry; apply Nat.ltb_lt; lia). }
    assert (HS : splice (bw_buf w) (Z.to_nat (P / 8)) s' = splice (upd (bw_buf w) (Z.to_nat (P / 8)) (bw_curByte w)) (Z.to_nat (P / 8)) s').
    { unfold splice. rewrite length_upd. f_equal; [|f_equal; now rewrite skipn_upd by lia]. apply (nth_ext_eq _ _ 0); [now rewrite !length_firstn, length_upd|]. intros k Hk. rewrite length_firstn in Hk. rewrite !nth_firstn. replace (k <? Z.to_nat (P / 8))%nat with true by (symmetry; apply Nat.ltb_lt; lia). now rewrite nth_upd_ne by lia. }
    rewrite HS. rewrite HP8 at 2. apply (bitsPut_window _ (P / 8) m); [auto with gobytes|lia|lia|rewrite length_upd; lia|lia|lia|lia|]. rewrite HU. apply (bitsPut_ext _ _ _ _ _ _ HPut). intros i Hi. subst vs. rewrite Z.add_0_l, nth_firstn. now replace (Z.to_nat i <? Z.to_nat space)%nat with true by (symmetry; apply Nat.ltb_lt; lia). }
  assert (Hlast : (P + space) mod 8 <> 0 -> bw_curByte w' = nth (Z.to_nat ((P + space) / 8)) (bw_buf w') 0).
  { intros Hmz. cbn [bw_curByte bw_buf w']. rewrite splice_in by (rewrite ?HsL; lia). assert (Hk : Z.to_nat ((P + space) / 8) = (Z.to_nat (P / 8) + Z.to_nat (len s' - 1))%nat) by (rewrite HsL, Happ, Hdiv; subst m; zdiv).
    rewrite Hk, app_nth2 by (rewrite length_firstn; lia). rewrite length_firstn, Nat.min_l by lia. rewrite app_nth1 by lia. f_equal. lia. }
  split; [assumption|]. split; [reflexivity|]. split; [reflexivity|]. split; [exact HLs|]. split; [auto|]. intros HC. rewrite (bwMoved_view w' (P + space)); [assumption|assumption|auto|].
  cbn [bw_pos bw_length w']. intros Hlt. apply Hlast. lia.
Qed.

(** The loop of [PutNextTrailingByte] and [Finish]. *)
Lemma putBits_loop x : forall k i w P, bwAt w P -> bw_pos w + Z.of_nat k = bw_length w -> 0 <= i ->
  exists w' x', for_up k i (fun _ => WW.putStep) (w, x >> i) = Some (w', x') /\ bwAt w' (P + Z.of_nat k) /\ bitsPut (bwView w) P (Z.of_nat k) (fun j => Z.testbit x (i + j)) (bwView w').
Proof.
  induction k as [|k IH]; intros i w P Hw Hk Hi; cbn [for_up].
  - exists w, (x >> i). rewrite Z.add_0_r. split; [reflexivity|]. split; [assumption|]. apply bitsPut_refl, (bwView_bytes w P Hw).
  - unfold WW.putStep at 1. cbn [fst snd]. assert (HB : negb (x >> i & 1 =? 0) = Z.testbit x i) by (change 1 with (2 ^ 0); rewrite (land_pow2 (x >> i) 0), negb_involutive, Z.shiftr_spec, Z.add_0_l by lia; reflexivity). rewrite HB. change (if Z.testbit x i then BW.Set_ w else BW.Clear w) with (putBit w (Z.testbit x i)).
    destruct (BWNext_ok w P (Z.testbit x i) Hw ltac:(lia)) as (w1 & -> & HA & Hp & Hl & HP1 & _). cbn [opt_bind]. rewrite Z.shiftr_shiftr by lia. destruct (IH (i + 1) w1 (P + 1) HA ltac:(lia) ltac:(lia)) as (w' & x' & HE & HA' & HP'). exists w', x'. split; [exact HE|].
    replace (P + Z.of_nat (S k)) with (P + 1 + Z.of_nat k) by lia. split; [assumption|]. replace (Z.of_nat (S k)) with (1 + Z.of_nat k) by lia. apply (bitsPut_trans _ P 1 (Z.of_nat k) _ (bwView w1)); [lia|lia| |].
    + apply (bitsPut_ext _ _ _ _ _ _ HP1). intros j Hj. f_equal. lia.
    + apply (bitsPut_ext _ _ _ _ _ _ HP'). intros j Hj. f_equal. lia.
Qed.

(** ** BitmapWordWriter *)

(** The writer is at bit [P] of its bitmap; below the offset the word it keeps has the bits of
    the bitmap. *)
Definition wwAt (w : BitmapWordWriter) (P : Z) : Prop :=
  bytes (ww_buf w) /\ 0 <= ww_base w /\ 0 <= ww_offset w < 8 /\ P = 8 * ww_base w + ww_offset w /\ ww_bitMask w = Z.ones (ww_offset w) /\ 0 <= ww_currentWord w /\
  (forall i, 0 <= i < ww_offset w -> Z.testbit (ww_currentWord w) i = Z.testbit (leval (ww_buf w)) (8 * ww_base w + i)).

Lemma WWNew_ok buf start n : rangeOk buf start n -> 0 < n -> exists w, WW.NewBitmapWordWriter buf start n = Some w /\ wwAt w start /\ ww_buf w = buf.
Proof.
  intros (Hb & Hs & Hn & Hle & Hmax) Hpos. unfold WW.NewBitmapWordWriter. rewrite Z.quot_div_nonneg, Z.rem_mod_nonneg by lia. pose proof (Z.mod_pos_bound start 8 ltac:(lia)) as HM. assert (HQ : 0 <= start / 8 < len buf) by zdiv. rewrite slice_from by lia. cbn [opt_bind].
  set (win := skipn _ buf). assert (HW : bytes win) by (subst win; auto with gobytes). assert (HL : len win = len buf - start / 8) by (subst win; rewrite length_skipn; lia).
  assert (HT : forall i, 0 <= i -> Z.testbit (leval win) i = Z.testbit (leval buf) (8 * (start / 8) + i)) by (intros i Hi; subst win; now rewrite testbit_skip by (assumption || lia)).
  assert (Hcur : exists cur, (if negb (start mod 8 =? 0) then if 64 <=? n then Uint64 win else if 0 <? n then b <- index win 0 ;; Some (setLSB 0 b) else Some 0 else Some 0) = Some cur /\ 0 <= cur /\
    forall i, 0 <= i < start mod 8 -> Z.testbit cur i = Z.testbit (leval buf) (8 * (start / 8) + i)).
  { destruct (Z.eqb_spec (start mod 8) 0) as [H0|Hne]; cbn [negb]; [exists 0; splits; auto; lia|]. destruct (Z.leb_spec 64 n) as [H64|Hlt].
    - assert (8 <= len win) by zdiv. rewrite Uint64_ok by lia. eexists. split; [reflexivity|]. split; [apply head_bound; [assumption|lia]|]. intros i Hi. rewrite testbit_head by (assumption || lia). apply HT. lia.
    - bool_lia (0 <? n). rewrite (index_ok win 0 0) by lia. cbn [opt_bind]. change (Z.to_nat 0) with 0%nat. destruct (getLSB_set 0 (nth 0 win 0)) as [HG HG0]; [auto with gobytes|lia|]. eexists. split; [reflexivity|]. split; [assumption|].
      intros i Hi. rewrite <- HT, <- testbit_first by (assumption || lia). rewrite <- HG at 2. unfold getLSB. now rewrite testbit_u8 by lia. }
  destruct Hcur as (cur & -> & Hc0 & HcT). cbn [opt_bind]. eexists. split; [reflexivity|]. split; [|reflexivity]. unfold wwAt. cbn [ww_buf ww_base ww_offset ww_bitMask ww_currentWord]. splits; auto; try lia; try zdiv.
  rewrite Z.ones_equiv, shiftl_mul, Z.mul_1_l by lia. assert (0 < 2 ^ (start mod 8) <= 2 ^ 7) by (split; [apply pow2_pos; lia|apply Z.pow_le_mono_r; lia]). unfold u64. rewrite (Z.mod_small (2 ^ (start mod 8))) by lia. rewrite Z.mod_small by lia. lia.
Qed.

(** A word or byte rotated by the offset. *)
Lemma rotate_bits w x o i : 0 <= w -> 0 < o < w -> 0 <= x < 2 ^ w -> 0 <= i < w -> Z.testbit (Z.lor (Z.shiftl x o mod 2 ^ w) (x >> (w - o))) i = Z.testbit x (if i <? o then w - o + i else i - o).
Proof.
  intros Hw Ho Hx Hi. rewrite Z.lor_spec, Z.shiftr_spec, Z.mod_pow2_bits_low, Z.shiftl_spec by lia. destruct (Z.ltb_spec i o) as [Hlt|Hge].
  - rewrite Z.testbit_neg_r by lia. cbn [orb]. f_equal. lia.
  - rewrite (testbit_above x w (i + (w - o))) by (assumption || lia). apply orb_false_r.
Qed.

Lemma ones_bit o i : 0 <= o -> 0 <= i -> Z.testbit (Z.ones o) i = (i <? o).
Proof. intros Ho Hi. destruct (Z.ltb_spec i o); [apply Z.ones_spec_low; lia|apply Z.ones_spec_high; lia]. Qed.

(** The two cells a rotated value of width [w] is spread over. *)
Lemma spread_bits w o cur next x i : 0 <= w -> 0 < o < w -> 0 <= x < 2 ^ w -> 0 <= i < w ->
  let y := Z.lor (Z.shiftl x o mod 2 ^ w) (x >> (w - o)) in
  Z.testbit (Z.lor (cur & Z.ones o) (Z.ldiff y (Z.ones o))) i = (if i <? o then Z.testbit cur i else Z.testbit x (i - o)) /\
  Z.testbit (Z.lor (Z.ldiff next (Z.ones o)) (y & Z.ones o)) i = (if i <? o then Z.testbit x (w - o + i) else Z.testbit next i).
Proof.
  intros Hw Ho Hx Hi y. rewrite !Z.lor_spec, !Z.land_spec, !Z.ldiff_spec, !ones_bit by lia. subst y. rewrite rotate_bits by assumption.
  destruct (i <? o); cbn [negb]; rewrite ?andb_true_r, ?andb_false_r, ?orb_false_r; auto.
Qed.

(** Two writes that together are one, [o] bits further. *)
Lemma spread_put w o b buf buf1 buf2 cur next x f1 f2 : 0 < o < w -> 0 <= b ->
  bitsPut buf (8 * b) w f1 buf1 -> bitsPut buf1 (8 * b + w) w f2 buf2 ->
  (forall i, 0 <= i < w -> f1 i = if i <? o then Z.testbit cur i else Z.testbit x (i - o)) -> (forall i, 0 <= i < w -> f2 i = if i <? o then Z.testbit x (w - o + i) else Z.testbit next i) ->
  (forall i, 0 <= i < o -> Z.testbit cur i = Z.testbit (leval buf) (8 * b + i)) -> (forall i, 0 <= i < w -> Z.testbit next i = Z.testbit (leval buf) (8 * b + w + i)) ->
  bitsPut buf (8 * b + o) w (Z.testbit x) buf2.
Proof.
  intros Ho Hb (L1 & B1 & T1) (L2 & B2 & T2) H1 H2 Hcur Hnext. split; [congruence|]. split; [assumption|]. intros j Hj. rewrite T2, T1 by assumption.
  destruct (Z.leb_spec (8 * b + w) j), (Z.ltb_spec j (8 * b + w + w)), (Z.leb_spec (8 * b) j), (Z.ltb_spec j (8 * b + w)), (Z.leb_spec (8 * b + o) j), (Z.ltb_spec j (8 * b + o + w)); cbn [andb]; try lia; try reflexivity; rewrite ?H1, ?H2 by lia.
  - bool_lia (j - (8 * b + w) <? o). f_equal. lia.
  - bool_lia (j - (8 * b + w) <? o). rewrite Hnext by lia. f_equal. lia.
  - bool_lia (j - 8 * b <? o). f_equal. lia.
  - bool_lia (j - 8 * b <? o). rewrite Hcur by lia. f_equal. lia.
Qed.

Lemma bitsPut_at buf pos n f buf' i : bitsPut buf pos n f buf' -> 0 <= pos -> 0 <= i < n -> Z.testbit (leval buf') (pos + i) = f i.
Proof. intros (_ & _ & HT) Hp Hi. rewrite HT by lia. bool_lia (pos <=? pos + i). bool_lia (pos + i <? pos + n). cbn [andb]. f_equal. lia. Qed.

Lemma bitsPut_nonneg_word o cur next x : 0 <= cur -> 0 <= next -> 0 <= x -> 0 <= Z.lor (cur & Z.ones o) (Z.ldiff x (Z.ones o)) /\ 0 <= Z.lor (Z.ldiff next (Z.ones o)) (x & Z.ones o).
Proof. intros Hc Hn Hx. split; apply Z.lor_nonneg; split; (apply Z.land_nonneg; lia) || (apply Z.ldiff_nonneg; lia). Qed.

Lemma rotate_nonneg w x o : 0 <= w -> 0 <= x -> 0 <= Z.lor (Z.shiftl x o mod 2 ^ w) (x >> (w - o)).
Proof. intros Hw Hx. apply Z.lor_nonneg. split; [apply Z.mod_pos_bound, pow2_pos; lia|apply Z.shiftr_nonneg; lia]. Qed.

Lemma PutNextWord_ok w P x : wwAt w P -> P + 128 <= 8 * len (ww_buf w) -> 0 <= x < 2 ^ 64 ->
  exists w', WW.PutNextWord w x = Some w' /\ wwAt w' (P + 64) /\ bitsPut (ww_buf w) P 64 (Z.testbit x) (ww_buf w').
Proof.
  intros (Hb & Hbase & Ho & HP & Hm & Hc0 & Hc) Hroom Hx. unfold WW.PutNextWord. rewrite Hm. destruct (Z.eqb_spec (ww_offset w) 0) as [H0|Hne]; cbn [negb].
  - destruct (PutUint64_put (ww_buf w) (ww_base w) x Hb Hbase ltac:(lia)) as (buf & -> & HPut). cbn [opt_bind fst snd]. pose proof (bitsPut_bytes _ _ _ _ _ HPut) as [HB HL]. rewrite slice_from by lia. cbn [opt_bind]. eexists. split; [reflexivity|]. cbn [ww_buf].
    split; [|replace P with (8 * ww_base w) by lia; assumption]. unfold wwAt. cbn [ww_buf ww_base ww_offset ww_bitMask ww_currentWord]. rewrite ?Hm, ?H0. splits; auto; try lia.
  - set (o := ww_offset w) in *. unfold WW.window. set (win := skipn _ _). assert (HLw : len win = len (ww_buf w) - ww_base w) by (subst win; rewrite length_skipn; lia). assert (HW : bytes win) by (subst win; auto with gobytes).
    rewrite slice_from by lia. cbn [opt_bind]. change (Z.to_nat 8) with 8%nat. set (rest := skipn 8 win). assert (HR : bytes rest) by (subst rest; auto with gobytes). assert (HLr : len rest = len win - 8) by (subst rest; rewrite length_skipn; lia).
    rewrite Uint64_ok by lia. cbn [opt_bind]. pose proof (head_bound rest HR ltac:(lia)) as Hn. set (next := leval (firstn 8 rest)) in *.
    assert (Hnext : forall i, 0 <= i < 64 -> Z.testbit next i = Z.testbit (leval (ww_buf w)) (8 * ww_base w + 64 + i)).
    { intros i Hi. subst next. rewrite testbit_head by (assumption || lia). subst rest win. change 8%nat with (Z.to_nat 8). rewrite !testbit_skip by (auto with gobytes; lia). f_equal. lia. }
    unfold u64. set (y := Z.lor (Z.shiftl x o mod 2 ^ 64) (x >> (64 - o))). assert (Hy : 0 <= y) by (apply rotate_nonneg; lia).
    destruct (PutUint64_put (ww_buf w) (ww_base w) (Z.lor (ww_currentWord w & Z.ones o) (Z.ldiff y (Z.ones o))) Hb Hbase ltac:(lia)) as (buf1 & -> & HP1). cbn [opt_bind]. pose proof (bitsPut_bytes _ _ _ _ _ HP1) as [HB1 HL1].
    destruct (PutUint64_put buf1 (ww_base w + 8) (Z.lor (Z.ldiff next (Z.ones o)) (y & Z.ones o)) HB1 ltac:(lia) ltac:(lia)) as (buf2 & -> & HP2). cbn [opt_bind fst snd]. pose proof (bitsPut_bytes _ _ _ _ _ HP2) as [HB2 HL2].
    rewrite slice_from by lia. cbn [opt_bind]. eexists. split; [reflexivity|]. cbn [ww_buf]. destruct (bitsPut_nonneg_word o (ww_currentWord w) next y Hc0 ltac:(lia) Hy) as [_ HN0].
    split.
    + unfold wwAt. cbn [ww_buf ww_base ww_offset ww_bitMask ww_currentWord]. fold o. splits; auto; try lia. intros i Hi. symmetry. apply (bitsPut_at _ _ _ _ _ _ HP2); lia.
    + rewrite HP. replace (8 * (ww_base w + 8)) with (8 * ww_base w + 64) in HP2 by lia. apply (spread_put 64 o (ww_base w) _ buf1 buf2 (ww_currentWord w) next x _ _ ltac:(lia) Hbase HP1 HP2); [| |assumption|assumption]; intros i Hi; cbv beta; apply (spread_bits 64 o (ww_currentWord w) next x i); lia.
Qed.

Lemma u8_ones o : 0 <= o < 8 -> u8 (Z.ones o) = Z.ones o.
Proof. intros Ho. unfold u8. apply Z.mod_small. rewrite Z.ones_equiv. assert (0 < 2 ^ o <= 2 ^ 7) by (split; [apply pow2_pos; lia|apply Z.pow_le_mono_r; lia]). lia. Qed.

Lemma PutNextTrailingByte_ok w P b v : wwAt w P -> 0 < v <= 8 -> P + v <= 8 * len (ww_buf w) -> is_byte b ->
  exists w', WW.PutNextTrailingByte w b v = Some w' /\ (v = 8 -> wwAt w' (P + 8)) /\ bitsPut (ww_buf w) P v (Z.testbit b) (ww_buf w').
Proof.
  intros (Hb & Hbase & Ho & HP & Hm & Hc0 & Hc) Hv Hroom Hx. pose proof Hx as Hx'. red in Hx'. unfold WW.PutNextTrailingByte. rewrite Hm, u8_ones by assumption. destruct (Z.eqb_spec v 8) as [->|Hv8].
  - destruct (Z.eqb_spec (ww_offset w) 0) as [H0|Hne]; cbn [negb].
    + destruct (store_put (ww_buf w) (ww_base w) b Hb Hx ltac:(lia)) as (buf & -> & HPut). cbn [opt_bind fst snd]. pose proof (bitsPut_bytes _ _ _ _ _ HPut) as [HB HL]. rewrite slice_from by lia. cbn [opt_bind]. eexists. split; [reflexivity|]. cbn [ww_buf].
      split; [intros _|replace P with (8 * ww_base w) by lia; assumption]. unfold wwAt. cbn [ww_buf ww_base ww_offset ww_bitMask ww_currentWord]. rewrite ?Hm, ?H0. splits; auto; try lia.
    + set (o := ww_offset w) in *. unfold WW.window. rewrite (index_ok _ 1 0) by (rewrite length_skipn; lia). cbn [opt_bind]. rewrite nth_skipn. set (next := nth _ _ 0). assert (Hnb : is_byte next) by (subst next; auto with gobytes).
      assert (Hnext : forall i, 0 <= i < 8 -> Z.testbit next i = Z.testbit (leval (ww_buf w)) (8 * ww_base w + 8 + i)).
      { intros i Hi. subst next. replace (Z.to_nat (ww_base w) + Z.to_nat 1)%nat with (Z.to_nat (ww_base w + 1)) by lia. rewrite testbit_nth by (assumption || lia). f_equal. lia. }
      unfold u8. set (y := Z.lor (Z.shiftl b o mod 2 ^ 8) (b >> (8 - o))). assert (Hy : 0 <= y) by (apply rotate_nonneg; lia). unfold getLSB. set (cur := u8 (ww_currentWord w)). red in Hnb.
      assert (Hcur : 0 <= cur < 256) by (apply Z.mod_pos_bound; lia). destruct (bitsPut_nonneg_word o cur next y ltac:(lia) ltac:(lia) Hy) as [HN1 HN2].
      assert (Hy8 : forall i, 8 <= i -> Z.testbit y i = false). { intros i Hi. subst y. rewrite Z.lor_spec, Z.mod_pow2_bits_high, Z.shiftr_spec by lia. now rewrite (testbit_above b 8) by lia. }
      assert (HB1 : is_byte (Z.lor (cur & Z.ones o) (Z.ldiff y (Z.ones o)))). { apply byte_bits; [|assumption]. intros i Hi. rewrite Z.lor_spec, Z.land_spec, Z.ldiff_spec, Hy8, (testbit_above cur 8) by lia. reflexivity. }
      assert (HB2 : is_byte (Z.lor (Z.ldiff next (Z.ones o)) (y & Z.ones o))). { apply byte_bits; [|assumption]. intros i Hi. rewrite Z.lor_spec, Z.land_spec, Z.ldiff_spec, Hy8, (testbit_above next 8) by lia. reflexivity. }
      destruct (store_put (ww_buf w) (ww_base w) _ Hb HB1 ltac:(lia)) as (buf1 & -> & HP1). cbn [opt_bind]. pose proof (bitsPut_bytes _ _ _ _ _ HP1) as [HBb1 HL1].
      destruct (store_put buf1 (ww_base w + 1) _ HBb1 HB2 ltac:(lia)) as (buf2 & -> & HP2). cbn [opt_bind fst snd]. pose proof (bitsPut_bytes _ _ _ _ _ HP2) as [HBb2 HL2].
      rewrite slice_from by lia. cbn [opt_bind]. eexists. split; [reflexivity|]. cbn [ww_buf]. split; [intros _|].
      * unfold wwAt. cbn [ww_buf ww_base ww_offset ww_bitMask ww_currentWord]. fold o. splits; auto; try lia. intros i Hi. symmetry. apply (bitsPut_at _ _ _ _ _ _ HP2); lia.
      * rewrite HP. replace (8 * (ww_base w + 1)) with (8 * ww_base w + 8) in HP2 by lia. apply (spread_put 8 o (ww_base w) _ buf1 buf2 cur next b _ _ ltac:(lia) Hbase HP1 HP2); [| | |assumption].
        1-2: intros i Hi; cbv beta; apply (spread_bits 8 o cur next b i); lia. intros i Hi. subst cur. rewrite testbit_u8 by lia. apply Hc. assumption.
  - assert (HLw : len (WW.window w) = len (ww_buf w) - ww_base w) by (unfold WW.window; rewrite length_skipn; lia). assert (HW : bytes (WW.window w)) by (unfold WW.window; auto with gobytes).
    destruct (BWNew_ok (WW.window w) (ww_offset w) v HW ltac:(lia) ltac:(lia) ltac:(lia)) as (bw & -> & HA & HV & Hp0 & Hl). cbn [opt_bind]. unfold WW.putBits.
    destruct (putBits_loop b (Z.to_nat v) 0 bw (ww_offset w) HA ltac:(lia) ltac:(lia)) as (bw' & x' & HE & HA' & HPut). rewrite Z.shiftr_0_r in HE. rewrite HE. cbn [opt_bind fst].
    destruct (BWFinish_ok bw' _ HA') as (bw2 & -> & HBuf & _). cbn [opt_bind]. eexists. split; [reflexivity|]. split; [lia|]. cbn [ww_buf]. rewrite HBuf. rewrite HV, Z2Nat.id in HPut by lia.
    pose proof (bitsPut_bytes _ _ _ _ _ HPut) as [HBv HLv]. replace (firstn (Z.to_nat (ww_base w)) (ww_buf w) ++ bwView bw') with (splice (ww_buf w) (Z.to_nat (ww_base w)) (bwView bw')).
    + rewrite HP. apply (bitsPut_window _ (ww_base w) (len (WW.window w))); [assumption|lia|lia|lia|lia|lia|lia|]. unfold WW.window in *. rewrite firstn_all2 by lia. apply (bitsPut_ext _ _ _ _ _ _ HPut). intros i Hi. now rewrite Z.add_0_l.
    + unfold splice. rewrite (firstn_all2 (bwView bw')), (skipn_all2 (ww_buf w)), app_nil_r by lia. reflexivity.
Qed.
