(* ===== verification/BitmapOpsOk.v ===== *)
(** * Bitmap operations act bit by bit

    Every path of [transferBitmap], of the five binary operations and of [BitmapEquals], and
    [BitmapWriter.AppendBitmap]. *)

From Stdlib Require Import ZArith List Lia Bool.
From S2P Require Import Prelude BitUtil BitmapWriter Bitmaps BitmapOps BitmapsOk.
Import ListNotations.
#[local] Open Scope Z_scope.
#[local] Open Scope go_scope.

(** ** Sources of words *)

(** What the loops need of the bits they write: words while there are any, then bytes.
    [supplies s k n f]: [k] words and [n] bits in all are left, the bits of [f]. *)
Class WordSource (S : Type) : Type := {
  nextWord : S -> option (S * Z);
  nextByte : S -> option (S * Z * Z);
  supplies : S -> Z -> Z -> (Z -> bool) -> Prop;
  supplies_room : forall s k n f, supplies s k n f -> 0 < k -> 64 <= n - 64 * k;
  supplies_ext : forall s k n f g, supplies s k n f -> (forall i, 0 <= i < n -> f i = g i) -> supplies s k n g;
  nextWord_supplies : forall s k n f, supplies s (k + 1) n f -> 0 <= k ->
    exists s' w, nextWord s = Some (s', w) /\ 0 <= w < 2 ^ 64 /\ (forall i, 0 <= i < 64 -> Z.testbit w i = f i) /\ supplies s' k (n - 64) (fun i => f (64 + i));
  nextByte_supplies : forall s n f, supplies s 0 n f -> 0 < n ->
    exists s' v, nextByte s = Some (s', v, Z.min 8 n) /\ is_byte v /\ (forall i, 0 <= i < Z.min 8 n -> Z.testbit v i = f i) /\ (8 < n -> supplies s' 0 (n - 8) (fun i => f (8 + i)))
}.

Section Pump.
Context {S : Type} `{WordSource S}.

Fixpoint pumpWords (n : nat) (s : S) (w : BitmapWordWriter) : option (S * BitmapWordWriter) :=
  match n with
  | O => Some (s, w)
  | Datatypes.S n => r <- nextWord s ;; w <- WW.PutNextWord w (snd r) ;; pumpWords n (fst r) w
  end.

Fixpoint pumpBytes (n : nat) (s : S) (w : BitmapWordWriter) : option (S * BitmapWordWriter) :=
  match n with
  | O => Some (s, w)
  | Datatypes.S n => r <- nextByte s ;; w <- WW.PutNextTrailingByte w (snd (fst r)) (snd r) ;; pumpBytes n (fst (fst r)) w
  end.

Lemma pumpWords_ok : forall k s w P n f, supplies s (Z.of_nat k) n f -> wwAt w P -> P + n <= 8 * len (ww_buf w) ->
  exists s' w', pumpWords k s w = Some (s', w') /\ supplies s' 0 (n - 64 * Z.of_nat k) (fun i => f (64 * Z.of_nat k + i)) /\ wwAt w' (P + 64 * Z.of_nat k) /\ bitsPut (ww_buf w) P (64 * Z.of_nat k) f (ww_buf w').
Proof.
  induction k as [|k IH]; intros s w P n f Hs Hw Hroom; cbn [pumpWords].
  - exists s, w. change (Z.of_nat 0) with 0 in *. rewrite Z.mul_0_r, Z.add_0_r, Z.sub_0_r. splits; auto. apply bitsPut_refl, Hw.
  - replace (Z.of_nat (Datatypes.S k)) with (Z.of_nat k + 1) in * by lia. pose proof (supplies_room _ _ _ _ Hs ltac:(lia)) as Hr. destruct (nextWord_supplies s (Z.of_nat k) n f Hs ltac:(lia)) as (s1 & x & -> & Hx & HT & Hs1). cbn [opt_bind fst snd].
    destruct (PutNextWord_ok w P x Hw ltac:(lia) Hx) as (w1 & -> & Hw1 & HP1). cbn [opt_bind]. pose proof (bitsPut_bytes _ _ _ _ _ HP1) as [_ HL1].
    destruct (IH s1 w1 (P + 64) (n - 64) _ Hs1 Hw1 ltac:(lia)) as (s' & w' & HE & Hs' & Hw' & HP'). exists s', w'. split; [exact HE|].
    replace (n - 64 * (Z.of_nat k + 1)) with (n - 64 - 64 * Z.of_nat k) by lia. replace (P + 64 * (Z.of_nat k + 1)) with (P + 64 + 64 * Z.of_nat k) by lia. replace (64 * (Z.of_nat k + 1)) with (64 + 64 * Z.of_nat k) by lia. split; [|split; [assumption|]].
    + apply (supplies_ext _ _ _ _ _ Hs'). intros i Hi. f_equal. lia.
    + apply (bitsPut_trans _ P 64 _ _ (ww_buf w1)); [lia|lia| |assumption]. exact (bitsPut_ext _ _ _ _ _ _ HP1 HT).
Qed.

Lemma pumpBytes_ok : forall k s w P n f, supplies s 0 n f -> wwAt w P -> 0 <= n -> P + n <= 8 * len (ww_buf w) -> Z.of_nat k = (n + 7) / 8 ->
  exists s' w', pumpBytes k s w = Some (s', w') /\ bitsPut (ww_buf w) P n f (ww_buf w').
Proof.
  induction k as [|k IH]; intros s w P n f Hs Hw Hn Hroom Hk; cbn [pumpBytes].
  - exists s, w. replace n with 0 by zdiv. split; [reflexivity|]. apply bitsPut_refl, Hw.
  - assert (Hpos : 0 < n) by zdiv. destruct (nextByte_supplies s n f Hs Hpos) as (s1 & v & -> & Hv & HT & Hs1). cbn [opt_bind fst snd].
    destruct (PutNextTrailingByte_ok w P v (Z.min 8 n) Hw ltac:(lia) ltac:(lia) Hv) as (w1 & -> & Hw1 & HP1). cbn [opt_bind]. pose proof (bitsPut_bytes _ _ _ _ _ HP1) as [_ HL1]. pose proof (bitsPut_ext _ _ _ _ _ _ HP1 HT) as HP.
    destruct (Z.lt_ge_cases 8 n) as [Hlt|Hge].
    + rewrite Z.min_l in * by lia. destruct (IH s1 w1 (P + 8) (n - 8) _ (Hs1 Hlt) (Hw1 eq_refl) ltac:(lia) ltac:(lia) ltac:(zdiv)) as (s' & w' & HE & HP'). exists s', w'. split; [exact HE|].
      replace n with (8 + (n - 8)) by lia. apply (bitsPut_trans _ P 8 _ _ (ww_buf w1)); [lia|lia|assumption|assumption].
    + rewrite Z.min_r in * by lia. assert (k = 0%nat) as -> by zdiv. exists s1, w1. split; [reflexivity|assumption].
Qed.

(** Words, then bytes. *)
Lemma pump_ok k m s w P n f : supplies s (Z.of_nat k) n f -> wwAt w P -> P + n <= 8 * len (ww_buf w) -> 64 * Z.of_nat k <= n -> Z.of_nat m = (n - 64 * Z.of_nat k + 7) / 8 ->
  exists s1 w1 s2 w2, pumpWords k s w = Some (s1, w1) /\ pumpBytes m s1 w1 = Some (s2, w2) /\ bitsPut (ww_buf w) P n f (ww_buf w2).
Proof.
  intros Hs Hw Hroom Hk Hm. destruct (pumpWords_ok k s w P n f Hs Hw Hroom) as (s1 & w1 & HE1 & Hs1 & Hw1 & HP1). pose proof (bitsPut_bytes _ _ _ _ _ HP1) as [_ HL1].
  destruct (pumpBytes_ok m s1 w1 _ _ _ Hs1 Hw1 ltac:(lia) ltac:(lia) Hm) as (s2 & w2 & HE2 & HP2). exists s1, w1, s2, w2. split; [assumption|]. split; [assumption|].
  replace n with (64 * Z.of_nat k + (n - 64 * Z.of_nat k)) by lia. apply (bitsPut_trans _ P _ _ _ (ww_buf w1)); [lia|lia|assumption|assumption].
Qed.
End Pump.

(** ** The sources *)

Lemma delivers_ext r k n f g : delivers r k n f -> (forall i, 0 <= i < n -> f i = g i) -> delivers r k n g.
Proof.
  intros (Hb & Ho & Hroom & Hk & Hk1 & Htb & Hf & Hc0 & Hc) H. unfold delivers. do 6 (split; [assumption|]). split; [|auto]. intros i Hi. rewrite Hf by assumption. auto.
Qed.

Definition inverted (mode : transferMode) : bool := match mode with transferInvert => true | transferCopy => false end.

Lemma not_bits w x i : 0 <= w -> 0 <= i < w -> Z.testbit (Z.lnot x mod 2 ^ w) i = negb (Z.testbit x i).
Proof. intros Hw Hi. rewrite Z.mod_pow2_bits_low, Z.lnot_spec by lia. reflexivity. Qed.

Lemma transferWord_ok mode w : 0 <= w < 2 ^ 64 -> 0 <= transferWord mode w < 2 ^ 64 /\ forall i, 0 <= i < 64 -> Z.testbit (transferWord mode w) i = xorb (inverted mode) (Z.testbit w i).
Proof.
  intros Hw. destruct mode; cbn [transferWord inverted]; [split; [assumption|]; intros; now destruct (Z.testbit w i)|]. split; [apply Z.mod_pos_bound; lia|]. intros i Hi. unfold u64. rewrite not_bits by lia. now destruct (Z.testbit w i).
Qed.

Lemma transferByte_ok mode b : is_byte b -> is_byte (transferByte mode b) /\ forall i, 0 <= i < 8 -> Z.testbit (transferByte mode b) i = xorb (inverted mode) (Z.testbit b i).
Proof.
  intros Hw. destruct mode; cbn [transferByte inverted]; [split; [assumption|]; intros; now destruct (Z.testbit b i)|]. split; [apply Z.mod_pos_bound; lia|]. intros i Hi. unfold u8. rewrite not_bits by lia. now destruct (Z.testbit b i).
Qed.

(** A reader whose bits are copied or inverted. *)
#[refine] Definition readerSource (mode : transferMode) : WordSource BitmapWordReader := {|
  nextWord r := a <- WR.NextWord r ;; Some (fst a, transferWord mode (snd a));
  nextByte r := a <- WR.NextTrailingByte r ;; Some (fst (fst a), transferByte mode (snd (fst a)), snd a);
  supplies r k n f := exists g, delivers r k n g /\ forall i, 0 <= i < n -> f i = xorb (inverted mode) (g i)
|}.
Proof.
  - intros r k n f (g & Hg & _). apply Hg.
  - intros r k n f f' (g & Hg & HE) H. exists g. split; [assumption|]. intros i Hi. rewrite <- H by assumption. auto.
  - intros r k n f (g & Hg & HE) Hk. assert (64 <= n) by (pose proof Hg as (_ & _ & _ & _ & Hr & _); specialize (Hr ltac:(lia)); lia). destruct (deliverWord_ok r k n g Hg Hk) as (r' & w & -> & Hw & HT & Hr' & _). cbn [opt_bind fst snd]. destruct (transferWord_ok mode w Hw) as [HB HW]. eexists _, _. split; [reflexivity|]. split; [assumption|]. split.
    + intros i Hi. rewrite HW, HT, HE by lia. reflexivity.
    + eexists. split; [exact Hr'|]. intros i Hi. cbv beta. apply HE. lia.
  - intros r n f (g & Hg & HE) Hn. destruct (NextTrailingByte_ok r n g Hg Hn) as (r' & v & -> & Hv & HT & Hr'). cbn [opt_bind fst snd]. destruct (transferByte_ok mode v Hv) as [HB HW]. eexists _, _. split; [reflexivity|]. split; [assumption|]. split.
    + intros i Hi. rewrite HW, HT, HE by lia. bool_lia (i <? Z.min 8 n). reflexivity.
    + intros Hlt. eexists. split; [exact (Hr' Hlt)|]. intros i Hi. cbv beta. apply HE. lia.
Defined.

(** A binary operation acts on each bit with [b]. *)
Class Bitwise (op : bitOp) (b : bool -> bool -> bool) : Prop := {
  word_bits : forall x y, 0 <= x < 2 ^ 64 -> 0 <= y < 2 ^ 64 -> 0 <= opWord op x y < 2 ^ 64 /\ forall i, 0 <= i < 64 -> Z.testbit (opWord op x y) i = b (Z.testbit x i) (Z.testbit y i);
  byte_op_bits : forall x y, is_byte x -> is_byte y -> is_byte (opByte op x y) /\ forall i, 0 <= i < 8 -> Z.testbit (opByte op x y) i = b (Z.testbit x i) (Z.testbit y i);
  aligned_go : opAligned op = alignedGo (opWord op) (opByte op)
}.

(** Two readers with an operation between them. *)
#[refine] Definition opSource (op : bitOp) (b : bool -> bool -> bool) (H : Bitwise op b) : WordSource (BitmapWordReader * BitmapWordReader) := {|
  nextWord s := x <- WR.NextWord (fst s) ;; y <- WR.NextWord (snd s) ;; Some ((fst x, fst y), opWord op (snd x) (snd y));
  nextByte s := x <- WR.NextTrailingByte (fst s) ;; y <- WR.NextTrailingByte (snd s) ;; Some ((fst (fst x), fst (fst y)), opByte op (snd (fst x)) (snd (fst y)), snd x);
  supplies s k n f := exists g h, delivers (fst s) k n g /\ delivers (snd s) k n h /\ forall i, 0 <= i < n -> f i = b (g i) (h i)
|}.
Proof.
  - intros s k n f (g & h & Hg & _). apply Hg.
  - intros s k n f f' (g & h & Hg & Hh & HE) He. exists g, h. split; [assumption|]. split; [assumption|]. intros i Hi. rewrite <- He by assumption. auto.
  - intros s k n f (g & h & Hg & Hh & HE) Hk. assert (64 <= n) by (pose proof Hg as (_ & _ & _ & _ & Hr & _); specialize (Hr ltac:(lia)); lia). destruct (deliverWord_ok _ k n g Hg Hk) as (r1 & x & -> & Hx & HX & Hr1 & _), (deliverWord_ok _ k n h Hh Hk) as (r2 & y & -> & Hy & HY & Hr2 & _). cbn [opt_bind fst snd].
    destruct (word_bits x y Hx Hy) as [HB HW]. eexists _, _. split; [reflexivity|]. split; [assumption|]. split.
    + intros i Hi. rewrite HW, HX, HY, HE by lia. reflexivity.
    + eexists _, _. split; [exact Hr1|]. split; [exact Hr2|]. intros i Hi. cbv beta. apply HE. lia.
  - intros s n f (g & h & Hg & Hh & HE) Hn. destruct (NextTrailingByte_ok _ n g Hg Hn) as (r1 & x & -> & Hx & HX & Hr1), (NextTrailingByte_ok _ n h Hh Hn) as (r2 & y & -> & Hy & HY & Hr2). cbn [opt_bind fst snd].
    destruct (byte_op_bits x y Hx Hy) as [HB HW]. eexists _, _. split; [reflexivity|]. split; [assumption|]. split.
    + intros i Hi. rewrite HW, HX, HY, HE by lia. bool_lia (i <? Z.min 8 n). reflexivity.
    + intros Hlt. eexists _, _. split; [exact (Hr1 Hlt)|]. split; [exact (Hr2 Hlt)|]. intros i Hi. cbv beta. apply HE. lia.
Defined.

(** ** Copy and invert *)

Lemma NextWord_trailing r r' w : WR.NextWord r = Some (r', w) -> wr_trailingBytes r' = wr_trailingBytes r.
Proof. unfold WR.NextWord. destruct (slice _ _ _) as [b|]; [|discriminate]. cbn [opt_bind]. destruct (Uint64 b); [|discriminate]. cbn [opt_bind]. now intros [= <- _]. Qed.

Lemma transferWords_pump mode n : forall r w, transferWords n mode r w = @pumpWords _ (readerSource mode) n r w.
Proof. induction n as [|n IH]; intros r w; cbn [transferWords pumpWords nextWord readerSource]; [reflexivity|]. destruct (WR.NextWord r) as [[r' x]|]; cbn [opt_bind fst snd]; [|reflexivity]. destruct (WW.PutNextWord w _); cbn [opt_bind]; [apply IH|reflexivity]. Qed.

Lemma transferBytes_pump mode n : forall r w, transferBytes n mode r w = @pumpBytes _ (readerSource mode) n r w.
Proof. induction n as [|n IH]; intros r w; cbn [transferBytes pumpBytes nextByte readerSource]; [reflexivity|]. destruct (WR.NextTrailingByte r) as [[[r' x] v]|]; cbn [opt_bind fst snd]; [|reflexivity]. destruct (WW.PutNextTrailingByte w _ _); cbn [opt_bind]; [apply IH|reflexivity]. Qed.

Lemma transferWords_trailing mode n : forall r w r' w', transferWords n mode r w = Some (r', w') -> wr_trailingBytes r' = wr_trailingBytes r.
Proof.
  induction n as [|n IH]; intros r w r' w'; cbn [transferWords]; [now intros [= <- _]|]. destruct (WR.NextWord r) as [[r1 x]|] eqn:E; cbn [opt_bind fst snd]; [|discriminate]. destruct (WW.PutNextWord w _); cbn [opt_bind]; [|discriminate]. intros HE. rewrite (IH _ _ _ _ HE). exact (NextWord_trailing _ _ _ E).
Qed.

Lemma transfer_unaligned mode src srcOffset n dst dstOffset : rangeOk src srcOffset n -> rangeOk dst dstOffset n -> 0 < n ->
  exists dst', (rdr <- WR.NewBitmapWordReader src srcOffset n ;;
    wr <- WW.NewBitmapWordWriter dst dstOffset n ;;
    r <- transferWords (Z.to_nat (WR.Words rdr)) mode rdr wr ;;
    r <- transferBytes (Z.to_nat (WR.TrailingBytes (fst r))) mode (fst r) (snd r) ;;
    Some (ww_buf (snd r))) = Some dst' /\ bitsPut dst dstOffset n (fun i => xorb (inverted mode) (Z.testbit (leval src) (srcOffset + i))) dst'.
Proof.
  intros Hsrc Hdst Hn. destruct (WRNew_ok src srcOffset n Hsrc) as (rdr & -> & Hrdr & Hw & Ht). destruct (WWNew_ok dst dstOffset n Hdst Hn) as (wr & -> & Hwr & Hbuf). cbn [opt_bind]. rewrite Hw. set (k := Z.max 0 (n / 64 - 1)) in *.
  assert (Hk : 0 <= k /\ 64 * k <= n) by (subst k; zdiv). destruct Hk as [Hk0 Hk1]. destruct Hdst as (_ & _ & _ & Hle & _).
  destruct (@pump_ok _ (readerSource mode) (Z.to_nat k) (Z.to_nat ((n - 64 * k + 7) / 8)) rdr wr dstOffset n (fun i => xorb (inverted mode) (Z.testbit (leval src) (srcOffset + i)))) as (s1 & w1 & s2 & w2 & HE1 & HE2 & HP).
  - cbn [supplies readerSource]. rewrite Z2Nat.id by lia. eexists. split; [exact Hrdr|]. reflexivity.
  - assumption.
  - rewrite Hbuf. assumption.
  - lia.
  - rewrite !Z2Nat.id by zdiv. reflexivity.
  - rewrite transferWords_pump, HE1. cbn [opt_bind fst snd]. rewrite <- transferWords_pump in HE1. unfold WR.TrailingBytes in *. rewrite (transferWords_trailing _ _ _ _ _ _ HE1), Ht, transferBytes_pump, HE2. cbn [opt_bind snd]. exists (ww_buf w2). split; [reflexivity|]. now rewrite Hbuf in HP.
Qed.

(** The loop that stores inverted bytes. *)
Lemma invert_loop head base : forall k i dst, bytes dst -> bytes head -> 0 <= base -> 0 <= i -> i + Z.of_nat k = len head -> base + len head <= len dst ->
  exists dst', for_up k i (fun i dst => store dst (base + i) (u8 (Z.lnot (nth (Z.to_nat i) head 0)))) dst = Some dst' /\ bitsPut dst (8 * (base + i)) (8 * Z.of_nat k) (fun j => negb (Z.testbit (leval head) (8 * i + j))) dst'.
Proof.
  induction k as [|k IH]; intros i dst Hd Hh Hb Hi Hk Hle; cbn [for_up]; [exists dst; split; [reflexivity|]; now apply bitsPut_refl|].
  assert (HB : is_byte (u8 (Z.lnot (nth (Z.to_nat i) head 0)))) by (apply Z.mod_pos_bound; lia). destruct (store_put dst (base + i) _ Hd HB ltac:(lia)) as (d1 & -> & HP1). cbn [opt_bind]. pose proof (bitsPut_bytes _ _ _ _ _ HP1) as [HB1 HL1].
  destruct (IH (i + 1) d1) as (dst' & HE & HP'); [assumption|assumption|lia|lia|lia|lia|]. exists dst'. split; [exact HE|]. replace (8 * Z.of_nat (S k)) with (8 + 8 * Z.of_nat k) by lia. apply (bitsPut_trans _ _ 8 _ _ d1); [lia|lia| |].
  - apply (bitsPut_ext _ _ _ _ _ _ HP1). intros j Hj. unfold u8. rewrite not_bits, testbit_nth by (assumption || lia). reflexivity.
  - replace (8 * (base + i) + 8) with (8 * (base + (i + 1))) by lia. apply (bitsPut_ext _ _ _ _ _ _ HP'). intros j Hj. do 2 f_equal. lia.
Qed.

(** [b[i] &= ^mask; b[i] |= data & mask] for a mask of the low [t] bits. *)
Lemma mask_low dst i data t : bytes dst -> 0 <= i < len dst -> is_byte data -> 0 < t <= 8 ->
  exists dst', (b <- index dst i ;; dst1 <- store dst i (b & u8 (Z.lnot (u8 (u8 (Z.shiftl 1 t) - 1)))) ;; b <- index dst1 i ;; store dst1 i (Z.lor b (data & u8 (u8 (Z.shiftl 1 t) - 1)))) = Some dst' /\ bitsPut dst (8 * i) t (Z.testbit data) dst'.
Proof.
  intros Hd Hi Hdata Ht. assert (HM : u8 (u8 (Z.shiftl 1 t) - 1) = Z.ones t) by (assert (t = 1 \/ t = 2 \/ t = 3 \/ t = 4 \/ t = 5 \/ t = 6 \/ t = 7 \/ t = 8) as Hc by lia; repeat destruct Hc as [->|Hc]; try subst t; reflexivity). rewrite HM.
  assert (HO : is_byte (Z.ones t)) by (rewrite <- HM; apply Z.mod_pos_bound; lia). assert (HN : is_byte (u8 (Z.lnot (Z.ones t)))) by (apply Z.mod_pos_bound; lia). pose proof (bytes_nth dst (Z.to_nat i) Hd) as Hnb.
  rewrite (index_ok dst i 0) by assumption. cbn [opt_bind]. rewrite store_ok by assumption. cbn [opt_bind]. rewrite (index_ok _ i 0) by (rewrite length_upd; assumption). cbn [opt_bind]. rewrite nth_upd_eq, store_ok by (rewrite ?length_upd; lia). set (v := Z.lor _ _). assert (Hv : is_byte v) by (subst v; auto with gobytes).
  eexists. split; [reflexivity|]. split; [now rewrite !length_upd|]. split; [auto with gobytes|]. intros j Hj. rewrite testbit_upd by (rewrite ?length_upd; auto with gobytes; lia). rewrite testbit_upd by (auto with gobytes; lia). rewrite Z2Nat.id by lia. pose proof (Z.mod_pos_bound j 8 ltac:(lia)).
  destruct (Z.eqb_spec (j / 8) i) as [He|Hne].
  - subst v. rewrite Z.lor_spec, !Z.land_spec, testbit_u8, Z.lnot_spec, ones_bit, testbit_nth by (assumption || lia). replace (8 * i + j mod 8) with j by zdiv. replace (j - 8 * i) with (j mod 8) by zdiv. replace (8 * i <=? j) with true by (symmetry; apply Z.leb_le; zdiv). replace (j <? 8 * i + t) with (j mod 8 <? t) by (destruct (Z.ltb_spec (j mod 8) t), (Z.ltb_spec j (8 * i + t)); (reflexivity || zdiv)).
    cbn [andb]. destruct (j mod 8 <? t); cbn [negb]; rewrite ?andb_true_r, ?andb_false_r, ?orb_false_r; reflexivity.
  - destruct (Z.leb_spec (8 * i) j), (Z.ltb_spec j (8 * i + t)); cbn [andb]; try reflexivity. exfalso. zdiv.
Qed.

Lemma transferBitmap_ok mode src srcOffset n dst dstOffset : rangeOk src srcOffset n -> rangeOk dst dstOffset n ->
  exists dst', transferBitmap mode src srcOffset n dst dstOffset = Some dst' /\ bitsPut dst dstOffset n (fun i => xorb (inverted mode) (Z.testbit (leval src) (srcOffset + i))) dst'.
Proof.
  intros Hsrc Hdst. unfold transferBitmap. pose proof Hsrc as (Hsb & Hs0 & Hn & Hsl & Hmax). pose proof Hdst as (Hdb & Hd0 & _ & Hdl & Hmax'). destruct (Z.eqb_spec n 0) as [->|Hne]; [exists dst; split; [reflexivity|]; now apply bitsPut_refl|].
  destruct (negb (Z.rem srcOffset 8 =? 0) || negb (Z.rem dstOffset 8 =? 0)) eqn:E; [apply transfer_unaligned; (assumption || lia)|].
  apply orb_false_iff in E as [E1 E2]. apply negb_false_iff, Z.eqb_eq in E1, E2. rewrite Z.rem_mod_nonneg in E1, E2 by lia. rewrite !Z.quot_div_nonneg, BytesForBits_div by lia. set (nb := (n + 7) / 8). set (sb := srcOffset / 8). set (db := dstOffset / 8).
  assert (HD : 1 <= nb /\ 8 * nb < n + 8 /\ n <= 8 * nb /\ sb + nb <= len src /\ db + nb <= len dst /\ 8 * sb = srcOffset /\ 8 * db = dstOffset /\ 0 <= sb /\ 0 <= db) by (subst nb sb db; zdiv). destruct HD as (D1 & D2 & D3 & D4 & D5 & D6 & D7 & D8 & D9).
  rewrite slice_from by lia. cbn [opt_bind]. set (s := skipn _ src). assert (HsB : bytes s) by (subst s; auto with gobytes). assert (HsL : len s = len src - sb) by (subst s; rewrite length_skipn; lia). rewrite slice_from by lia. cbn [opt_bind]. rewrite slice_ok by lia. cbn [opt_bind]. rewrite Z.sub_0_r. change (skipn (Z.to_nat 0) s) with s.
  set (head := firstn _ s). assert (HhB : bytes head) by (subst head; auto with gobytes). assert (HhL : len head = nb - 1) by (subst head; rewrite length_firstn; lia).
  assert (HsT : forall i, 0 <= i -> Z.testbit (leval s) i = Z.testbit (leval src) (srcOffset + i)) by (intros i Hi; subst s; rewrite testbit_skip by (assumption || lia); now rewrite D6).
  assert (HhT : forall i, 0 <= i < 8 * (nb - 1) -> Z.testbit (leval head) i = Z.testbit (leval src) (srcOffset + i)).
  { intros i Hi. subst head. rewrite leval_firstn, testbit_field by (auto; lia). rewrite Z2Nat.id by lia. bool_lia (0 <=? i). bool_lia (i <? 8 * (nb - 1)). cbn [andb]. apply HsT. lia. }
  set (last := nth (Z.to_nat (nb - 1)) s 0). assert (HlB : is_byte last) by (subst last; auto with gobytes). assert (HlT : forall i, 0 <= i < 8 -> Z.testbit last i = Z.testbit (leval src) (srcOffset + 8 * (nb - 1) + i)) by (intros i Hi; subst last; rewrite testbit_nth, HsT by (assumption || lia); f_equal; lia).
  assert (HHead : exists d1 data, transferHead mode s head dst db nb = Some (d1, data) /\
      bitsPut dst dstOffset (8 * (nb - 1)) (fun i => xorb (inverted mode) (Z.testbit (leval src) (srcOffset + i))) d1 /\ is_byte data /\ forall i, 0 <= i < 8 -> Z.testbit data i = xorb (inverted mode) (Z.testbit last i)).
  { unfold transferHead. rewrite (index_ok s (nb - 1) 0) by lia. fold last. destruct mode; cbn [inverted opt_bind].
    - eexists _, _. split; [reflexivity|]. split; [|split; [assumption|now intros i; destruct (Z.testbit last i)]]. pose proof (splice_put dst db head Hdb HhB D9 ltac:(lia)) as HP. rewrite HhL, D7 in HP. apply (bitsPut_ext _ _ _ _ _ _ HP). intros i Hi. rewrite HhT by lia. now destruct (Z.testbit _ _).
    - destruct (invert_loop head db (List.length head) 0 dst Hdb HhB D9 ltac:(lia) ltac:(lia) ltac:(lia)) as (d1 & -> & HP). cbn [opt_bind]. eexists _, _. split; [reflexivity|]. rewrite HhL, Z.add_0_r, D7 in HP. split; [|split; [apply Z.mod_pos_bound; lia|]].
      + apply (bitsPut_ext _ _ _ _ _ _ HP). intros i Hi. rewrite Z.mul_0_r, Z.add_0_l, HhT by lia. now destruct (Z.testbit _ _).
      + intros i Hi. unfold u8. rewrite not_bits by lia. now destruct (Z.testbit last i). }
  destruct HHead as (d1 & data & -> & HP1 & HdB & HdT). cbn [opt_bind fst snd]. pose proof (bitsPut_bytes _ _ _ _ _ HP1) as [HB1 HL1]. replace (8 - (nb * 8 - n)) with (n - 8 * (nb - 1)) by lia.
  destruct (mask_low d1 (db + (nb - 1)) data (n - 8 * (nb - 1)) HB1 ltac:(lia) HdB ltac:(lia)) as (d2 & -> & HP2). exists d2. split; [reflexivity|]. replace n with (8 * (nb - 1) + (n - 8 * (nb - 1))) by lia. apply (bitsPut_trans _ _ _ _ _ d1); [lia|lia|assumption|].
  replace (dstOffset + 8 * (nb - 1)) with (8 * (db + (nb - 1))) by lia. replace (8 * (nb - 1) + (n - 8 * (nb - 1)) - 8 * (nb - 1)) with (n - 8 * (nb - 1)) in HP2 by lia. apply (bitsPut_ext _ _ _ _ _ _ HP2). intros i Hi. rewrite HdT, HlT by lia. do 2 f_equal. lia.
Qed.

(** [AppendBitmap] copies into what the writer has so far. *)
Lemma AppendBitmap_ok w P src srcOffset n : bwAt w P -> 8 * len (bw_buf w) < 2 ^ 63 - 15 -> rangeOk src srcOffset n ->
  let space := Z.min (bw_length w - bw_pos w) n in
  exists w', AppendBitmap w src srcOffset n = Some (w', space) /\ bwAt w' (P + space) /\ bw_pos w' = bw_pos w + space /\ bw_length w' = bw_length w /\ List.length (bw_buf w') = List.length (bw_buf w) /\
    bitsPut (bwView w) P space (fun i => Z.testbit (leval src) (srcOffset + i)) (bwView w') /\ (0 < space -> bw_buf w' = bwView w').
Proof.
  intros Hw Hmax (Hsb & Hs0 & Hn & Hsl & Hsm) space. pose proof Hw as (Hb & Hc & HP & Hm & Ho & Hpos & Hl & Hle). unfold AppendBitmap. fold space. assert (Hsp : 0 <= space <= n /\ space <= bw_length w - bw_pos w) by (subst space; lia).
  destruct (Z.eqb_spec space 0) as [H0|Hne].
  { exists w. rewrite H0, !Z.add_0_r. splits; auto; try lia. apply bitsPut_refl, (bwView_bytes w P Hw). }
  pose proof (Z.mod_pos_bound P 8 ltac:(lia)) as HM. rewrite Hm, trailing_mask, Ho. replace (P / 8 * 8 + P mod 8) with P by zdiv. assert (HI : 0 <= P / 8 < len (bw_buf w)) by zdiv. rewrite store_ok by assumption. cbn [opt_bind].
  destruct (transferBitmap_ok transferCopy src srcOffset space (upd (bw_buf w) (Z.to_nat (P / 8)) (bw_curByte w)) P) as (buf & HE & HPut); [red; splits; auto; lia|red; rewrite length_upd; splits; auto with gobytes; lia|].
  unfold CopyBitmap. rewrite HE. cbn [opt_bind]. pose proof (bitsPut_bytes _ _ _ _ _ HPut) as [HB HL]. rewrite length_upd in HL. rewrite Z.quot_div_nonneg, Z.rem_mod_nonneg by lia. pose proof (Z.mod_pos_bound (P mod 8 + space) 8 ltac:(lia)). rewrite (index_ok BitMask _ 0) by (cbn; lia). cbn [opt_bind]. rewrite BitMask_pow by assumption.
  assert (Hmod : (P + space) mod 8 = (P mod 8 + space) mod 8 /\ (P + space) / 8 = P / 8 + (P mod 8 + space) / 8) by zdiv. destruct Hmod as [Hmod Hdiv]. rewrite <- Hmod, <- Hdiv. assert (Hq : 0 <= (P + space) / 8) by (apply Z.div_pos; lia).
  assert (Hcur : exists cur, (if (P + space) / 8 <? len buf then index buf ((P + space) / 8) else Some (bw_curByte w)) = Some cur /\ is_byte cur /\ ((P + space) / 8 < len buf -> cur = nth (Z.to_nat ((P + space) / 8)) buf 0)).
  { destruct (Z.ltb_spec ((P + space) / 8) (len buf)); [|exists (bw_curByte w); splits; auto; lia]. rewrite (index_ok buf _ 0) by lia. eexists. splits; auto with gobytes. }
  destruct Hcur as (cur & -> & Hcb & Hcur). cbn [opt_bind]. eexists. split; [reflexivity|]. set (w' := mkBW _ _ _ _ _ _). assert (HA : bwAt w' (P + space)) by (unfold bwAt; cbn [bw_buf bw_pos bw_length bw_bitMask bw_byteOffset bw_curByte w']; rewrite HL; splits; auto; lia).
  assert (HV : bwView w' = bw_buf w'). { apply (bwMoved_view w' (P + space)); [assumption| |]; cbn [bw_pos bw_length bw_curByte bw_buf w']; intros; apply Hcur; rewrite HL; zdiv. }
  split; [exact HA|]. split; [reflexivity|]. split; [reflexivity|]. split; [exact HL|]. rewrite HV. split; [|reflexivity]. apply bitsPut_from_view; [assumption|lia|]. apply (bitsPut_ext _ _ _ _ _ _ HPut). intros i Hi. cbn [inverted]. apply xorb_false_l.
Qed.

(** ** The five operations *)

Ltac bitwise_word := intros x y Hx Hy; split; [|intros i Hi]; cbn [opWord opByte].

Lemma word_op_bound (f : Z -> Z -> Z) (g : bool -> bool -> bool) w x y : 0 <= w -> 0 <= f x y -> g false false = false -> (forall i, 0 <= i -> Z.testbit (f x y) i = g (Z.testbit x i) (Z.testbit y i)) -> 0 <= x < 2 ^ w -> 0 <= y < 2 ^ w -> 0 <= f x y < 2 ^ w.
Proof. intros Hw Hf Hg HT Hx Hy. apply bits_bound; [assumption|assumption|]. intros i Hi. rewrite HT, (testbit_above x w), (testbit_above y w) by (assumption || lia). assumption. Qed.

Lemma land_ok : forall x y i, Z.testbit (x & y) i = Z.testbit x i && Z.testbit y i.
Proof. intros. apply Z.land_spec. Qed.

#[export] Instance and_bitwise : Bitwise bitAndOp andb.
Proof.
  split; [bitwise_word|bitwise_word|reflexivity].
  - apply (word_op_bound Z.land andb 64); auto; try lia; [apply Z.land_nonneg; lia|intros; apply Z.land_spec].
  - apply Z.land_spec.
  - now apply byte_land.
  - apply Z.land_spec.
Qed.

#[export] Instance or_bitwise : Bitwise bitOrOp orb.
Proof.
  split; [bitwise_word|bitwise_word|reflexivity].
  - apply (word_op_bound Z.lor orb 64); auto; try lia; [apply Z.lor_nonneg; lia|intros; apply Z.lor_spec].
  - apply Z.lor_spec.
  - now apply byte_lor.
  - apply Z.lor_spec.
Qed.

#[export] Instance andnot_bitwise : Bitwise bitAndNotOp (fun a b => a && negb b).
Proof.
  split; [bitwise_word|bitwise_word|reflexivity].
  - apply (word_op_bound Z.ldiff (fun a b => a && negb b) 64); auto; try lia; [apply Z.ldiff_nonneg; lia|intros; apply Z.ldiff_spec].
  - apply Z.ldiff_spec.
  - now apply byte_ldiff.
  - apply Z.ldiff_spec.
Qed.

#[export] Instance xor_bitwise : Bitwise bitXorOp xorb.
Proof.
  split; [bitwise_word|bitwise_word|reflexivity].
  - apply (word_op_bound Z.lxor xorb 64); auto; try lia; [apply Z.lxor_nonneg; lia|intros; apply Z.lxor_spec].
  - apply Z.lxor_spec.
  - apply (word_op_bound Z.lxor xorb 8); auto; try lia; [apply Z.lxor_nonneg; red in Hx, Hy; lia|intros; apply Z.lxor_spec].
  - apply Z.lxor_spec.
Qed.

#[export] Instance xnor_bitwise : Bitwise bitXnorOp Bool.eqb.
Proof.
  assert (HE : forall a b, negb (xorb a b) = Bool.eqb a b) by (now intros [] []).
  split; [bitwise_word|bitwise_word|reflexivity]; cbn [opWord opByte bitXnorOp]; unfold u64, u8; try (apply Z.mod_pos_bound; lia).
  all: rewrite not_bits, Z.lxor_spec by lia; apply HE.
Qed.

(** The words of a byte slice. *)
Lemma index_words n : forall b w, (8 * n <= List.length b)%nat -> 0 <= w < Z.of_nat n -> index (wordsOf n b) w = Some (leval (firstn 8 (skipn (Z.to_nat (8 * w)) b))).
Proof.
  intros b w Hb Hw. assert (HL : forall n b, List.length (wordsOf n b) = n) by (clear; induction n as [|n IH]; intros b; cbn; auto). rewrite (index_ok _ w 0) by (rewrite HL; lia). f_equal.
  revert b w Hb Hw. induction n as [|n IH]; intros b w Hb Hw; [lia|]. cbn [wordsOf]. destruct (Z.eq_dec w 0) as [->|Hne]; [reflexivity|]. replace (Z.to_nat w) with (S (Z.to_nat (w - 1))) by lia. cbn [nth]. rewrite IH by (rewrite ?length_skipn; lia). rewrite skipn_skipn. do 3 f_equal. lia.
Qed.

Lemma length_words b : List.length (bytesToUint64 b) = (List.length b / 8)%nat.
Proof. unfold bytesToUint64. generalize (List.length b / 8)%nat as n. intros n. revert b. induction n as [|n IH]; intros b; cbn; auto. Qed.

Section Aligned.
Variables (op : bitOp) (b : bool -> bool -> bool).
Context `{HB : Bitwise op b}.
Variables (left right : list Z).
Hypothesis (Hl : bytes left) (Hr : bytes right) (Hlr : List.length left = List.length right).

Let both (i : Z) : bool := b (Z.testbit (leval left) i) (Z.testbit (leval right) i).

Lemma words_loop : forall k i out, bytes out -> List.length out = List.length left -> 0 <= i -> (Z.of_nat k + i) * 8 <= len out ->
  exists out', for_up k i (fun w out => l <- index (bytesToUint64 left) w ;; r <- index (bytesToUint64 right) w ;; Some (splice out (Z.to_nat (8 * w)) (lebytes 8 (opWord op l r)))) out = Some out' /\
    bitsPut out (64 * i) (64 * Z.of_nat k) (fun j => both (64 * i + j)) out'.
Proof.
  induction k as [|k IH]; intros i out Ho HL Hi Hle; cbn [for_up]; [exists out; split; [reflexivity|]; now apply bitsPut_refl|].
  assert (Hdiv : forall l, List.length l = List.length left -> index (bytesToUint64 l) i = Some (leval (firstn 8 (skipn (Z.to_nat (8 * i)) l)))).
  { intros l HLl. unfold bytesToUint64. pose proof (Nat.div_mod_eq (List.length l) 8). pose proof (Nat.mod_upper_bound (List.length l) 8 ltac:(lia)). apply index_words; lia. }
  rewrite (Hdiv left eq_refl), (Hdiv right (eq_sym Hlr)). cbn [opt_bind]. set (l := leval _). set (r := leval _).
  assert (Hl64 : 0 <= l < 2 ^ 64) by (apply head_bound; [auto with gobytes|rewrite length_skipn; lia]). assert (Hr64 : 0 <= r < 2 ^ 64) by (apply head_bound; [auto with gobytes|rewrite length_skipn; lia]). destruct (word_bits l r Hl64 Hr64) as [HW HT].
  pose proof (splice_put out (8 * i) (lebytes 8 (opWord op l r)) Ho (lebytes_bytes _ _) ltac:(lia)) as HP. rewrite length_lebytes in HP. specialize (HP ltac:(lia)). set (out1 := splice _ _ _) in *. pose proof (bitsPut_bytes _ _ _ _ _ HP) as [HB1 HL1].
  destruct (IH (i + 1) out1 HB1 ltac:(congruence) ltac:(lia) ltac:(lia)) as (out' & HE & HP'). exists out'. split; [exact HE|]. replace (64 * Z.of_nat (S k)) with (64 + 64 * Z.of_nat k) by lia. apply (bitsPut_trans _ _ 64 _ _ out1); [lia|lia| |].
  - replace (64 * i) with (8 * (8 * i)) by lia. change (8 * Z.of_nat 8) with 64 in HP. apply (bitsPut_ext _ _ _ _ _ _ HP). intros j Hj. rewrite leval_lebytes. change (8 * Z.of_nat 8) with 64. rewrite Z.mod_pow2_bits_low, HT by lia. unfold both, l, r. rewrite !testbit_head, !testbit_skip by (auto with gobytes; lia). reflexivity.
  - replace (64 * i + 64) with (64 * (i + 1)) by lia. apply (bitsPut_ext _ _ _ _ _ _ HP'). intros j Hj. f_equal. lia.
Qed.

Lemma bytes_loop : forall k i out, bytes out -> List.length out = List.length left -> 0 <= i -> i + Z.of_nat k = len out ->
  exists out', for_up k i (fun i out => l <- index left i ;; r <- index right i ;; store out i (opByte op l r)) out = Some out' /\ bitsPut out (8 * i) (8 * Z.of_nat k) (fun j => both (8 * i + j)) out'.
Proof.
  induction k as [|k IH]; intros i out Ho HL Hi Hk; cbn [for_up]; [exists out; split; [reflexivity|]; now apply bitsPut_refl|].
  rewrite (index_ok left i 0), (index_ok right i 0) by lia. cbn [opt_bind]. destruct (byte_op_bits (nth (Z.to_nat i) left 0) (nth (Z.to_nat i) right 0)) as [HW HT]; [auto with gobytes..|].
  destruct (store_put out i _ Ho HW ltac:(lia)) as (out1 & -> & HP). cbn [opt_bind]. pose proof (bitsPut_bytes _ _ _ _ _ HP) as [HB1 HL1]. destruct (IH (i + 1) out1 HB1 ltac:(congruence) ltac:(lia) ltac:(lia)) as (out' & HE & HP'). exists out'. split; [exact HE|].
  replace (8 * Z.of_nat (S k)) with (8 + 8 * Z.of_nat k) by lia. apply (bitsPut_trans _ _ 8 _ _ out1); [lia|lia| |].
  - apply (bitsPut_ext _ _ _ _ _ _ HP). intros j Hj. rewrite HT, !testbit_nth by (assumption || lia). reflexivity.
  - replace (8 * i + 8) with (8 * (i + 1)) by lia. apply (bitsPut_ext _ _ _ _ _ _ HP'). intros j Hj. f_equal. lia.
Qed.

Lemma aligned_ok out : bytes out -> List.length out = List.length left -> exists out', opAligned op left right out = Some out' /\ bitsPut out 0 (8 * len out) both out'.
Proof.
  intros Ho HL. rewrite aligned_go. unfold alignedGo. pose proof (Nat.div_mod_eq (List.length out) 8) as HD. pose proof (Nat.mod_upper_bound (List.length out) 8 ltac:(lia)) as HM.
  assert (HW : exists out1 m, alignedWords (opWord op) left right out = Some (out1, m) /\ 0 <= m <= len out /\ bitsPut out 0 (8 * m) both out1).
  { unfold alignedWords. destruct (Z.ltb_spec 8 (len out)) as [Hlt|Hge].
    - rewrite length_words. destruct (words_loop (List.length out / 8) 0 out Ho HL ltac:(lia) ltac:(lia)) as (out1 & -> & HP). cbn [opt_bind]. eexists _, _. split; [reflexivity|]. split; [lia|]. replace (8 * _) with (64 * Z.of_nat (List.length out / 8)) by lia. apply (bitsPut_ext _ _ _ _ _ _ HP). intros j Hj. f_equal.
    - exists out, 0. split; [reflexivity|]. split; [lia|]. now apply bitsPut_refl. }
  destruct HW as (out1 & m & -> & Hm & HP1). cbn [opt_bind fst snd]. pose proof (bitsPut_bytes _ _ _ _ _ HP1) as [HB1 HL1]. destruct (bytes_loop (Z.to_nat (len out - m)) m out1 HB1 ltac:(congruence) ltac:(lia) ltac:(lia)) as (out2 & -> & HP2).
  exists out2. split; [reflexivity|]. replace (8 * len out) with (8 * m + 8 * Z.of_nat (Z.to_nat (len out - m))) by lia. apply (bitsPut_trans _ 0 _ _ _ out1); [lia|lia|assumption|exact HP2].
Qed.
End Aligned.

Section BinaryOp.
Variables (op : bitOp) (b : bool -> bool -> bool).
Context `{HB : Bitwise op b}.

(** The bits of one byte that the mask leaves open, from [lo] to [hi]. *)
Lemma maskedOp_put left right out i j mask lo hi :
  bytes left -> bytes right -> bytes out -> 0 <= i < len out -> 0 <= j < len left -> j < len right -> is_byte mask -> 0 <= lo <= hi -> hi <= 8 -> (forall t, 0 <= t < 8 -> Z.testbit mask t = negb ((lo <=? t) && (t <? hi))) ->
  exists out', maskedOp op left right out i j mask = Some out' /\ bitsPut out (8 * i + lo) (hi - lo) (fun t => b (Z.testbit (leval left) (8 * j + lo + t)) (Z.testbit (leval right) (8 * j + lo + t))) out'.
Proof.
  intros Hl Hr Ho Hi Hj Hj' Hmb Hlo Hhi Hm. unfold maskedOp. rewrite (index_ok out i 0), (index_ok left j 0), (index_ok right j 0) by lia. cbn [opt_bind]. destruct (byte_op_bits (nth (Z.to_nat j) left 0) (nth (Z.to_nat j) right 0)) as [HW HT]; [auto with gobytes..|].
  pose proof (bytes_nth out (Z.to_nat i) Ho) as Hob. set (v := Z.lor _ _). assert (Hv : is_byte v) by (subst v; auto with gobytes). destruct (store_put out i v Ho Hv Hi) as (out' & -> & HL & HB' & HP). exists out'. split; [reflexivity|]. split; [assumption|]. split; [assumption|].
  intros k Hk. rewrite HP by assumption. destruct (Z.leb_spec (8 * i) k), (Z.ltb_spec k (8 * i + 8)); cbn [andb].
  - subst v. rewrite Z.lor_spec, Z.land_spec, Z.ldiff_spec, HT, !testbit_nth, Hm by (assumption || lia). replace (8 * i + (k - 8 * i)) with k by lia.
    destruct (Z.leb_spec lo (k - 8 * i)), (Z.ltb_spec (k - 8 * i) hi), (Z.leb_spec (8 * i + lo) k), (Z.ltb_spec k (8 * i + lo + (hi - lo))); cbn [andb negb]; try lia; rewrite ?andb_true_r, ?andb_false_r, ?orb_false_r, ?orb_false_l; try reflexivity. do 2 f_equal; lia.
  - destruct (Z.leb_spec (8 * i + lo) k), (Z.ltb_spec k (8 * i + lo + (hi - lo))); cbn [andb]; try lia; reflexivity.
  - destruct (Z.leb_spec (8 * i + lo) k), (Z.ltb_spec k (8 * i + lo + (hi - lo))); cbn [andb]; try lia; reflexivity.
  - lia.
Qed.

Lemma alignedBitmapOp_ok left right lOffset rOffset out outOffset n :
  rangeOk left lOffset n -> rangeOk right rOffset n -> rangeOk out outOffset n -> 0 < n -> lOffset mod 8 = outOffset mod 8 -> rOffset mod 8 = outOffset mod 8 ->
  exists out', alignedBitmapOp op left right lOffset rOffset out outOffset n = Some out' /\ bitsPut out outOffset n (fun i => b (Z.testbit (leval left) (lOffset + i)) (Z.testbit (leval right) (rOffset + i))) out'.
Proof.
  intros (Hlb & Hl0 & _ & Hll & Hlm) (Hrb & Hr0 & _ & Hrl & _) (Hob & Ho0 & _ & Hol & _) Hn Hlo Hro. unfold alignedBitmapOp. rewrite !Z.quot_div_nonneg, !Z.rem_mod_nonneg by lia. pose proof (Z.mod_pos_bound outOffset 8 ltac:(lia)) as HM. rewrite Hlo. set (o := outOffset mod 8) in *.
  rewrite BytesForBits_div by lia. set (nb := (n + o + 7) / 8). set (lq := lOffset / 8). set (rq := rOffset / 8). set (oq := outOffset / 8).
  assert (HD : 1 <= nb /\ 8 * nb < n + o + 8 /\ n + o <= 8 * nb /\ lOffset = 8 * lq + o /\ rOffset = 8 * rq + o /\ outOffset = 8 * oq + o /\ 0 <= lq /\ 0 <= rq /\ 0 <= oq) by (subst nb lq rq oq o; zdiv). destruct HD as (D1 & D2 & D3 & D4 & D5 & D6 & D7 & D8 & D9).
  assert (D : lq + nb <= len left /\ rq + nb <= len right /\ oq + nb <= len out) by lia. destruct D as (D10 & D11 & D12). rewrite !slice_from by lia. cbn [opt_bind]. set (l := skipn (Z.to_nat lq) left). set (r := skipn (Z.to_nat rq) right).
  assert (HlB : bytes l) by (subst l; auto with gobytes). assert (HrB : bytes r) by (subst r; auto with gobytes). assert (HlL : len l = len left - lq) by (subst l; rewrite length_skipn; lia). assert (HrL : len r = len right - rq) by (subst r; rewrite length_skipn; lia).
  set (f := fun i => b (Z.testbit (leval left) (lOffset + i)) (Z.testbit (leval right) (rOffset + i))).
  assert (HF : forall i, 0 <= i -> b (Z.testbit (leval l) (o + i)) (Z.testbit (leval r) (o + i)) = f i) by (intros i Hi; subst f l r; cbv beta; rewrite !testbit_skip by (assumption || lia); do 2 f_equal; lia).
  set (e := (lOffset + n) mod 8). assert (He : 0 <= e < 8) by (apply Z.mod_pos_bound; lia). rewrite (index_ok PrecedingBitmask o 0) by (cbn; lia). cbn [opt_bind]. set (first := nth (Z.to_nat o) PrecedingBitmask 0).
  assert (Hfirst : is_byte first /\ forall t, 0 <= t < 8 -> Z.testbit first t = negb ((o <=? t) && (t <? 8))).
  { split; [apply masks_byte|]. intros t Ht. subst first. rewrite PrecedingBitmask_bit by lia. bool_lia (t <? 8). rewrite andb_true_r. destruct (Z.ltb_spec t o), (Z.leb_spec o t); (reflexivity || lia). }
  (* how many bits of the last byte *)
  set (h := n + o - 8 * (nb - 1)). assert (Hh : 0 < h <= 8) by (subst h; lia).
  assert (Hlast : exists last, (if negb (e =? 0) then index TrailingBitmask e else Some 0) = Some last /\ is_byte last /\ forall t, 0 <= t < 8 -> Z.testbit last t = negb ((0 <=? t) && (t <? h))).
  { assert (Heh : e = h mod 8) by (subst e h; rewrite D4; zdiv). destruct (Z.eqb_spec e 0) as [E0|En]; cbn [negb].
    - exists 0. split; [reflexivity|]. split; [red; lia|]. intros t Ht. assert (h = 8) by zdiv. rewrite Z.bits_0. bool_lia (0 <=? t). bool_lia (t <? h). reflexivity.
    - rewrite (index_ok TrailingBitmask e 0) by (cbn; lia). eexists. split; [reflexivity|]. split; [apply masks_byte|]. intros t Ht. assert (h = e) by zdiv. rewrite TrailingBitmask_bit by lia. bool_lia (0 <=? t). destruct (Z.ltb_spec t h), (Z.leb_spec e t); (reflexivity || lia). }
  destruct Hlast as (last & HE & Hlastb & Hlast). rewrite HE. cbn [opt_bind]. clear HE. destruct Hfirst as [Hfb Hfirst]. bool_lia (nb =? 0). destruct (Z.eqb_spec nb 1) as [Hn1|Hn1].
  - destruct (maskedOp_put l r out oq 0 (Z.lor first last) o h HlB HrB Hob) as (out' & -> & HP); [lia|lia|lia|auto with gobytes|lia|lia| |].
    { intros t Ht. rewrite Z.lor_spec, Hfirst, Hlast by assumption. bool_lia (t <? 8). bool_lia (0 <=? t). rewrite andb_true_r. cbn [andb]. destruct (Z.leb_spec o t), (Z.ltb_spec t h); reflexivity. }
    exists out'. split; [reflexivity|]. replace (h - o) with n in HP by (subst h; lia). rewrite D6 at 1. apply (bitsPut_ext _ _ _ _ _ _ HP). intros i Hi. cbv beta. rewrite Z.mul_0_r, Z.add_0_l. apply HF. lia.
  - destruct (maskedOp_put l r out oq 0 first o 8 HlB HrB Hob) as (out1 & -> & HP1); [lia|lia|lia|assumption|lia|lia|assumption|]. pose proof (bitsPut_bytes _ _ _ _ _ HP1) as [HB1 HL1].
    assert (HP1' : bitsPut out outOffset (8 - o) f out1) by (rewrite D6 at 1; apply (bitsPut_ext _ _ _ _ _ _ HP1); intros i Hi; cbv beta; rewrite Z.mul_0_r, Z.add_0_l; apply HF; lia).
    (* the whole bytes in between *)
    assert (HMid : exists out2, (if nb =? 2 then Some out1 else l0 <- slice l 1 (nb - 1) ;; r0 <- slice r 1 (nb - 1) ;; o0 <- slice out1 (oq + 1) (oq + (nb - 1)) ;; mid <- opAligned op l0 r0 o0 ;; Some (splice out1 (Z.to_nat (oq + 1)) mid)) = Some out2 /\ bitsPut out outOffset (8 * (nb - 1) - o) f out2).
    { destruct (Z.eqb_spec nb 2) as [->|Hn2]; [exists out1; split; [reflexivity|]; exact HP1'|]. rewrite !slice_ok by lia. cbn [opt_bind]. replace (oq + (nb - 1) - (oq + 1)) with (nb - 2) by lia. replace (nb - 1 - 1) with (nb - 2) by lia.
      set (l0 := firstn _ (skipn _ l)). set (r0 := firstn _ (skipn _ r)). set (o0 := firstn _ (skipn _ out1)). assert (HL0 : len l0 = nb - 2) by (subst l0; rewrite length_firstn, length_skipn; lia). assert (HR0 : len r0 = nb - 2) by (subst r0; rewrite length_firstn, length_skipn; lia). assert (HO0 : len o0 = nb - 2) by (subst o0; rewrite length_firstn, length_skipn; lia).
      destruct (aligned_ok op b l0 r0) with (out := o0) as (mid & -> & HPm); [subst l0; auto with gobytes|subst r0; auto with gobytes|lia|subst o0; auto with gobytes|lia|]. cbn [opt_bind]. eexists. split; [reflexivity|]. rewrite HO0 in HPm.
      pose proof (bitsPut_window out1 (oq + 1) (nb - 2) 0 (8 * (nb - 2)) _ mid HB1 ltac:(lia) ltac:(lia) ltac:(lia) ltac:(lia) ltac:(lia) ltac:(lia) HPm) as HW. replace (8 * (nb - 1) - o) with (8 - o + 8 * (nb - 2)) by lia. apply (bitsPut_trans _ _ _ _ _ out1); [lia|lia|assumption|].
      replace (outOffset + (8 - o)) with (8 * (oq + 1) + 0) by lia. apply (bitsPut_ext _ _ _ _ _ _ HW). intros i Hi. cbv beta. replace (f (8 - o + i)) with (b (Z.testbit (leval l) (8 + i)) (Z.testbit (leval r) (8 + i))) by (rewrite <- HF by lia; do 2 f_equal; lia).
      subst l0 r0. rewrite !leval_firstn, !testbit_field by (auto with gobytes; lia). rewrite Z2Nat.id by lia. bool_lia (0 <=? i). bool_lia (i <? 8 * (nb - 2)). cbn [andb]. rewrite Z.add_0_l. rewrite !testbit_skip by (assumption || lia). reflexivity. }
    destruct HMid as (out2 & HE2 & HP2). pose proof (bitsPut_bytes _ _ _ _ _ HP2) as [HB2 HL2].
    destruct (maskedOp_put l r out2 (oq + (nb - 1)) (nb - 1) last 0 h HlB HrB HB2) as (out' & HE' & HP'); [lia|lia|lia|assumption|lia|lia|assumption|].
    exists out'. split.
    + cbn [opt_bind]. destruct (Z.eqb_spec nb 2) as [Hn2|Hn2]; [injection HE2 as <-; rewrite Hn2 in HE'; exact HE'|].
      destruct (slice l 1 (nb - 1)); [|discriminate]. cbn [opt_bind] in *. destruct (slice r 1 (nb - 1)); [|discriminate]. cbn [opt_bind] in *. destruct (slice out1 _ _); [|discriminate]. cbn [opt_bind] in *. destruct (opAligned op _ _ _); [|discriminate]. cbn [opt_bind] in *. injection HE2 as ->. exact HE'.
    + replace n with (8 * (nb - 1) - o + h) by (subst h; lia). apply (bitsPut_trans _ _ _ _ _ out2); [lia|lia|assumption|]. replace (outOffset + (8 * (nb - 1) - o)) with (8 * (oq + (nb - 1)) + 0) by lia. rewrite Z.sub_0_r in HP'. apply (bitsPut_ext _ _ _ _ _ _ HP'). intros i Hi. cbv beta. rewrite <- HF by lia. do 2 f_equal; lia.
Qed.

Lemma opWords_pump n : forall x y w, opWords n op x y w = (r <- @pumpWords _ (opSource op b HB) n (x, y) w ;; Some (fst (fst r), snd (fst r), snd r)).
Proof. induction n as [|n IH]; intros x y w; cbn [opWords pumpWords nextWord opSource fst snd]; [reflexivity|]. destruct (WR.NextWord x) as [[x' p]|]; cbn [opt_bind fst snd]; [|reflexivity]. destruct (WR.NextWord y) as [[y' q]|]; cbn [opt_bind fst snd]; [|reflexivity]. destruct (WW.PutNextWord w _); cbn [opt_bind]; [apply IH|reflexivity]. Qed.

Lemma opBytes_pump n : forall x y w, opBytes n op x y w = (r <- @pumpBytes _ (opSource op b HB) n (x, y) w ;; Some (snd r)).
Proof. induction n as [|n IH]; intros x y w; cbn [opBytes pumpBytes nextByte opSource fst snd]; [reflexivity|]. destruct (WR.NextTrailingByte x) as [[[x' p] v]|]; cbn [opt_bind fst snd]; [|reflexivity]. destruct (WR.NextTrailingByte y) as [[[y' q] v']|]; cbn [opt_bind fst snd]; [|reflexivity]. destruct (WW.PutNextTrailingByte w _ _); cbn [opt_bind]; [apply IH|reflexivity]. Qed.

Lemma opWords_trailing n : forall x y w x' y' w', opWords n op x y w = Some (x', y', w') -> wr_trailingBytes x' = wr_trailingBytes x.
Proof.
  induction n as [|n IH]; intros x y w x' y' w'; cbn [opWords]; [now intros [= <- _ _]|]. destruct (WR.NextWord x) as [[x1 p]|] eqn:E; cbn [opt_bind fst snd]; [|discriminate]. destruct (WR.NextWord y) as [[y1 q]|]; cbn [opt_bind fst snd]; [|discriminate]. destruct (WW.PutNextWord w _); cbn [opt_bind]; [|discriminate].
  intros HE. rewrite (IH _ _ _ _ _ _ HE). exact (NextWord_trailing _ _ _ E).
Qed.

Lemma unalignedBitmapOp_ok left right lOffset rOffset out outOffset n :
  rangeOk left lOffset n -> rangeOk right rOffset n -> rangeOk out outOffset n -> 0 < n ->
  exists out', unalignedBitmapOp op left right lOffset rOffset out outOffset n = Some out' /\ bitsPut out outOffset n (fun i => b (Z.testbit (leval left) (lOffset + i)) (Z.testbit (leval right) (rOffset + i))) out'.
Proof.
  intros HL HR HO Hn. unfold unalignedBitmapOp. destruct (WRNew_ok left lOffset n HL) as (l & -> & Hl & Hw & Ht), (WRNew_ok right rOffset n HR) as (r & -> & Hr & _). destruct (WWNew_ok out outOffset n HO Hn) as (wr & -> & Hwr & Hbuf). cbn [opt_bind]. rewrite Hw. set (k := Z.max 0 (n / 64 - 1)) in *.
  assert (Hk : 0 <= k /\ 64 * k <= n) by (subst k; zdiv). destruct Hk as [Hk0 Hk1]. destruct HO as (_ & _ & _ & Hle & _).
  destruct (@pump_ok _ (opSource op b HB) (Z.to_nat k) (Z.to_nat ((n - 64 * k + 7) / 8)) (l, r) wr outOffset n (fun i => b (Z.testbit (leval left) (lOffset + i)) (Z.testbit (leval right) (rOffset + i)))) as ([x1 y1] & w1 & s2 & w2 & HE1 & HE2 & HP).
  - cbn [supplies opSource fst snd]. rewrite Z2Nat.id by lia. eexists _, _. split; [exact Hl|]. split; [exact Hr|]. reflexivity.
  - assumption.
  - rewrite Hbuf. assumption.
  - lia.
  - rewrite !Z2Nat.id by zdiv. reflexivity.
  - assert (HE : opWords (Z.to_nat k) op l r wr = Some (x1, y1, w1)) by (rewrite opWords_pump, HE1; reflexivity). rewrite HE. cbn [opt_bind fst snd]. unfold WR.TrailingBytes in *. rewrite (opWords_trailing _ _ _ _ _ _ _ HE), Ht, opBytes_pump, HE2. cbn [opt_bind snd]. exists (ww_buf w2). split; [reflexivity|]. now rewrite Hbuf in HP.
Qed.

Lemma BitmapOp_ok left right lOffset rOffset out outOffset n :
  rangeOk left lOffset n -> rangeOk right rOffset n -> rangeOk out outOffset n -> 0 < n ->
  exists out', BitmapOp op left right lOffset rOffset out outOffset n = Some out' /\ bitsPut out outOffset n (fun i => b (Z.testbit (leval left) (lOffset + i)) (Z.testbit (leval right) (rOffset + i))) out'.
Proof.
  intros HL HR HO Hn. unfold BitmapOp. destruct ((Z.rem outOffset 8 =? Z.rem lOffset 8) && (Z.rem outOffset 8 =? Z.rem rOffset 8)) eqn:E; [|now apply unalignedBitmapOp_ok].
  apply andb_true_iff in E as [E1 E2]. apply Z.eqb_eq in E1, E2. pose proof HL as (_ & H1 & _). pose proof HR as (_ & H2 & _). pose proof HO as (_ & H3 & _). rewrite !Z.rem_mod_nonneg in E1, E2 by lia. apply alignedBitmapOp_ok; auto; lia.
Qed.
End BinaryOp.

(** ** Comparison *)

Lemma word_eq w x y f g : 0 <= w -> 0 <= x < 2 ^ w -> 0 <= y < 2 ^ w -> (forall i, 0 <= i < w -> Z.testbit x i = f i) -> (forall i, 0 <= i < w -> Z.testbit y i = g i) -> (x =? y) = true <-> forall i, 0 <= i < w -> f i = g i.
Proof.
  intros Hw Hx Hy HX HY. rewrite Z.eqb_eq. split.
  - intros -> i Hi. rewrite <- HX, <- HY by assumption. reflexivity.
  - intros H. apply Z.bits_inj'. intros i Hi. destruct (Z.lt_ge_cases i w); [rewrite HX, HY by lia; apply H; lia|]. now rewrite (testbit_above x w), (testbit_above y w) by (assumption || lia).
Qed.

Lemma equalWords_ok : forall k l r n f g, delivers l (Z.of_nat k) n f -> delivers r (Z.of_nat k) n g -> 64 * Z.of_nat k <= n ->
  exists e l' r', equalWords k l r = Some (e, l', r') /\ (e = true <-> forall i, 0 <= i < 64 * Z.of_nat k -> f i = g i) /\
    (e = true -> delivers l' 0 (n - 64 * Z.of_nat k) (fun i => f (64 * Z.of_nat k + i)) /\ delivers r' 0 (n - 64 * Z.of_nat k) (fun i => g (64 * Z.of_nat k + i)) /\ wr_trailingBytes l' = wr_trailingBytes l).
Proof.
  induction k as [|k IH]; intros l r n f g Hl Hr Hn; cbn [equalWords].
  - exists true, l, r. change (Z.of_nat 0) with 0 in *. rewrite Z.mul_0_r, Z.sub_0_r in *. split; [reflexivity|]. split; [split; [lia|reflexivity]|]. intros _. auto.
  - replace (Z.of_nat (S k)) with (Z.of_nat k + 1) in * by lia. destruct (deliverWord_ok l _ n f Hl ltac:(lia)) as (l1 & x & -> & Hx & HX & Hl1 & Htl), (deliverWord_ok r _ n g Hr ltac:(lia)) as (r1 & y & -> & Hy & HY & Hr1 & _). cbn [opt_bind fst snd].
    pose proof (word_eq 64 x y f g ltac:(lia) Hx Hy HX HY) as HW. destruct (x =? y) eqn:E.
    + destruct (IH l1 r1 (n - 64) _ _ Hl1 Hr1 ltac:(lia)) as (e & l' & r' & -> & He & Hd). exists e, l', r'. split; [reflexivity|]. split.
      * rewrite He. split; intros H i Hi; [|specialize (H (64 + i) ltac:(lia)); exact H]. destruct (Z.lt_ge_cases i 64); [now apply HW|]. specialize (H (i - 64) ltac:(lia)). cbv beta in H. now replace (64 + (i - 64)) with i in H by lia.
      * intros He'. destruct (Hd He') as (H1 & H2 & H3). replace (n - 64 * (Z.of_nat k + 1)) with (n - 64 - 64 * Z.of_nat k) by lia. split; [|split; [|congruence]]; [apply (delivers_ext _ _ _ _ _ H1)|apply (delivers_ext _ _ _ _ _ H2)]; intros i Hi; cbv beta; f_equal; lia.
    + exists false, l1, r1. split; [reflexivity|]. split; [|discriminate]. split; [discriminate|]. intros H. exfalso. apply diff_false_true. apply HW. intros i Hi. apply H. lia.
Qed.

Lemma equalBytes_ok : forall k l r n f g, delivers l 0 n f -> delivers r 0 n g -> 0 <= n -> Z.of_nat k = (n + 7) / 8 -> exists e, equalBytes k l r = Some e /\ (e = true <-> forall i, 0 <= i < n -> f i = g i).
Proof.
  induction k as [|k IH]; intros l r n f g Hl Hr Hn Hk; cbn [equalBytes]; [exists true; split; [reflexivity|]; split; [intros _ i Hi; zdiv|reflexivity]|].
  assert (Hpos : 0 < n) by zdiv. destruct (NextTrailingByte_ok l n f Hl Hpos) as (l1 & x & -> & Hx & HX & Hl1), (NextTrailingByte_ok r n g Hr Hpos) as (r1 & y & -> & Hy & HY & Hr1). cbn [opt_bind fst snd].
  assert (HW : (x =? y) = true <-> forall i, 0 <= i < Z.min 8 n -> f i = g i).
  { rewrite (word_eq 8 x y (fun i => (i <? Z.min 8 n) && f i) (fun i => (i <? Z.min 8 n) && g i)); [|lia|assumption|assumption|intros; apply HX; lia|intros; apply HY; lia]. split; intros H i Hi.
    - specialize (H i ltac:(lia)). rewrite (proj2 (Z.ltb_lt i (Z.min 8 n))) in H by lia. exact H.
    - destruct (Z.ltb_spec i (Z.min 8 n)); cbn [andb]; [apply H; lia|reflexivity]. }
  destruct (x =? y) eqn:E.
  - destruct (Z.lt_ge_cases 8 n) as [Hlt|Hge].
    + destruct (IH l1 r1 (n - 8) _ _ (Hl1 Hlt) (Hr1 Hlt) ltac:(lia) ltac:(zdiv)) as (e & -> & He). exists e. split; [reflexivity|]. rewrite He. split; intros H i Hi; [|specialize (H (8 + i) ltac:(lia)); exact H].
      destruct (Z.lt_ge_cases i 8); [apply HW; [reflexivity|lia]|]. specialize (H (i - 8) ltac:(lia)). cbv beta in H. now replace (8 + (i - 8)) with i in H by lia.
    + assert (k = 0%nat) as -> by zdiv. exists true. split; [reflexivity|]. split; [|reflexivity]. intros _ i Hi. apply HW; [reflexivity|lia].
  - exists false. split; [reflexivity|]. split; [discriminate|]. intros H. exfalso. apply diff_false_true. apply HW. intros i Hi. apply H. lia.
Qed.

Lemma bytesEqual_ok a : forall b, bytesEqual a b = true <-> a = b.
Proof.
  induction a as [|x a IH]; intros [|y b]; cbn [bytesEqual]; try (split; (reflexivity || discriminate)). rewrite andb_true_iff, Z.eqb_eq, IH. split; [intros [-> ->]; reflexivity|intros [= -> ->]; auto].
Qed.

Lemma equalBits_ok left right lo ro : bitmapOk left -> bitmapOk right -> 0 <= lo -> 0 <= ro -> forall k i, 0 <= i -> lo + i + Z.of_nat k <= 8 * len left -> ro + i + Z.of_nat k <= 8 * len right ->
  exists e, equalBits k left right lo ro i = Some e /\ (e = true <-> forall j, i <= j < i + Z.of_nat k -> Z.testbit (leval left) (lo + j) = Z.testbit (leval right) (ro + j)).
Proof.
  intros Hl Hr Hlo Hro. induction k as [|k IH]; intros i Hi Hll Hrl; cbn [equalBits]; [exists true; split; [reflexivity|]; split; [intros; lia|reflexivity]|].
  rewrite (BitIsSet_ok left), (BitIsSet_ok right) by (assumption || lia). cbn [opt_bind]. destruct (Bool.eqb _ _) eqn:E.
  - apply Bool.eqb_prop in E. destruct (IH (i + 1) ltac:(lia) ltac:(lia) ltac:(lia)) as (e & -> & He). exists e. split; [reflexivity|]. rewrite He. split; intros H j Hj; [|apply H; lia]. destruct (Z.eq_dec j i) as [->|]; [assumption|apply H; lia].
  - exists false. split; [reflexivity|]. split; [discriminate|]. intros H. specialize (H i ltac:(lia)). apply Bool.eqb_false_iff in E. contradiction.
Qed.

Lemma BitmapEquals_ok left right lOffset rOffset n : rangeOk left lOffset n -> rangeOk right rOffset n -> 8 * len left < 2 ^ 63 -> 8 * len right < 2 ^ 63 ->
  exists e, BitmapEquals left right lOffset rOffset n = Some e /\ (e = true <-> forall i, 0 <= i < n -> Z.testbit (leval left) (lOffset + i) = Z.testbit (leval right) (rOffset + i)).
Proof.
  intros HL HR Hlm Hrm. pose proof HL as (Hlb & Hl0 & Hn & Hll & _). pose proof HR as (Hrb & Hr0 & _ & Hrl & _). unfold BitmapEquals. destruct ((Z.rem lOffset 8 =? 0) && (Z.rem rOffset 8 =? 0)) eqn:E.
  - apply andb_true_iff in E as [E1 E2]. apply Z.eqb_eq in E1, E2. rewrite Z.rem_mod_nonneg in E1, E2 by lia. rewrite !Z.quot_div_nonneg by lia. set (m := n / 8). set (lq := lOffset / 8). set (rq := rOffset / 8).
    assert (HD : 0 <= m /\ 8 * m <= n < 8 * m + 8 /\ lOffset = 8 * lq /\ rOffset = 8 * rq /\ 0 <= lq /\ 0 <= rq) by (subst m lq rq; zdiv). destruct HD as (D1 & D2 & D3 & D4 & D5 & D6). rewrite !slice_ok by lia. cbn [opt_bind].
    replace (lq + m - lq) with m by lia. replace (rq + m - rq) with m by lia. set (l := firstn _ (skipn _ left)). set (r := firstn _ (skipn _ right)).
    assert (HT : forall q s, bytes s -> 0 <= q -> forall i, 0 <= i < 8 * m -> Z.testbit (leval (firstn (Z.to_nat m) (skipn (Z.to_nat q) s))) i = Z.testbit (leval s) (8 * q + i)).
    { intros q s Hs Hq i Hi. rewrite leval_firstn, testbit_field by (auto with gobytes; lia). rewrite Z2Nat.id by lia. bool_lia (0 <=? i). bool_lia (i <? 8 * m). cbn [andb]. now rewrite Z.add_0_l, testbit_skip by (assumption || lia). }
    assert (HEq : l = r <-> forall i, 0 <= i < 8 * m -> Z.testbit (leval left) (lOffset + i) = Z.testbit (leval right) (rOffset + i)).
    { rewrite D3, D4. split.
      - intros He i Hi. rewrite <- (HT lq left), <- (HT rq right) by (assumption || lia). fold l r. now rewrite He.
      - intros H. assert (HLl : len l = m) by (subst l; rewrite length_firstn, length_skipn; lia). assert (HLr : len r = m) by (subst r; rewrite length_firstn, length_skipn; lia). apply bits_inj; [subst l; auto with gobytes|subst r; auto with gobytes|lia|].
        intros i Hi. subst l r. rewrite !HT by (assumption || lia). apply H. lia. }
    pose proof (bytesEqual_ok l r) as HBE. destruct (bytesEqual l r); cbn [negb].
    + destruct (equalBits_ok left right lOffset rOffset (conj Hlb Hlm) (conj Hrb Hrm) Hl0 Hr0 (Z.to_nat (n - m * 8)) (m * 8) ltac:(lia) ltac:(lia) ltac:(lia)) as (e & -> & He). exists e. split; [reflexivity|]. rewrite He. pose proof (proj1 HEq (proj1 HBE eq_refl)) as HHead.
      split; intros H i Hi; [|apply H; lia]. destruct (Z.lt_ge_cases i (8 * m)); [apply HHead; lia|apply H; lia].
    + exists false. split; [reflexivity|]. split; [discriminate|]. intros H. apply HBE, HEq. intros i Hi. apply H. lia.
  - destruct (WRNew_ok left lOffset n HL) as (l & -> & Hl & Hw & Ht), (WRNew_ok right rOffset n HR) as (r & -> & Hr & _). cbn [opt_bind]. rewrite Hw. set (k := Z.max 0 (n / 64 - 1)) in *. assert (Hk : 0 <= k /\ 64 * k <= n) by (subst k; zdiv). destruct Hk as [Hk0 Hk1].
    destruct (equalWords_ok (Z.to_nat k) l r n _ _ ltac:(rewrite Z2Nat.id by lia; exact Hl) ltac:(rewrite Z2Nat.id by lia; exact Hr) ltac:(lia)) as (e & l' & r' & -> & He & Hd). cbn [opt_bind fst snd]. rewrite Z2Nat.id in He, Hd by lia. destruct e.
    + destruct (Hd eq_refl) as (Hl' & Hr' & Htl). unfold WR.TrailingBytes in *. rewrite Htl, Ht. destruct (equalBytes_ok (Z.to_nat ((n - 64 * k + 7) / 8)) l' r' _ _ _ Hl' Hr' ltac:(lia) ltac:(rewrite Z2Nat.id by zdiv; reflexivity)) as (e & -> & He'). exists e. split; [reflexivity|]. rewrite He'. pose proof (proj1 He eq_refl) as HHead.
      split; intros H i Hi; [|specialize (H (64 * k + i) ltac:(lia)); exact H]. destruct (Z.lt_ge_cases i (64 * k)); [apply HHead; lia|]. specialize (H (i - 64 * k) ltac:(lia)). cbv beta in H. now replace (64 * k + (i - 64 * k)) with i in H by lia.
    + exists false. split; [reflexivity|]. split; [discriminate|]. intros H. apply He. intros i Hi. apply H. lia.
Qed.
