(* ===== verification/BitmapClaims.v ===== *)
(** * Claims about bitmaps

    The operations of arrow/bitutil/bitmaps.go bit by bit, the sequential bitmap writer, and the
    byte [AppendBools] carries over. *)

From Stdlib Require Import ZArith List Lia Bool.
From S2P Require Import Prelude BitUtil BitmapWriter Bitmaps BitmapOps BitmapsOk BitmapOpsOk.
Import ListNotations.
#[local] Open Scope Z_scope.
#[local] Open Scope go_scope.

(** ** Sequences of writes *)

Inductive writeOp : Type :=
| WBit (b : bool)
| WBools (bs : list bool)
| WBitmap (src : list Z) (srcOffset n : Z).

Definition opBits (o : writeOp) : list bool :=
  match o with
  | WBit b => [b]
  | WBools bs => bs
  | WBitmap src off n => map (fun i => Z.testbit (leval src) (off + i)) (zseq 0 (Z.to_nat n))
  end.

(** One operation; the count is what the call returns, or 1. *)
Definition runOp (w : BitmapWriter) (o : writeOp) : option (BitmapWriter * Z) :=
  match o with
  | WBit b => w <- BW.Next (if b then BW.Set_ w else BW.Clear w) ;; Some (w, 1)
  | WBools bs => BW.AppendBools w bs
  | WBitmap src off n => AppendBitmap w src off n
  end.

Fixpoint runOps (w : BitmapWriter) (os : list writeOp) : option (BitmapWriter * Z) :=
  match os with
  | [] => Some (w, 0)
  | o :: os => r <- runOp w o ;; s <- runOps (fst r) os ;; Some (fst s, snd r + snd s)
  end.

(** The sources are inside their bitmaps, and booleans appended at once end inside a byte or
    with the range ([left] bits of it are left at [P]). *)
Fixpoint opsOk (P left : Z) (os : list writeOp) : Prop :=
  match os with
  | [] => True
  | o :: os =>
      match o with
      | WBit _ => True
      | WBools bs => (P + len bs) mod 8 <> 0 \/ len bs = left \/ bs = []
      | WBitmap src off n => rangeOk src off n
      end /\ opsOk (P + len (opBits o)) (left - len (opBits o)) os
  end.

Lemma nth_bits src off n i : 0 <= i < n -> nth (Z.to_nat i) (opBits (WBitmap src off n)) false = Z.testbit (leval src) (off + i).
Proof.
  intros Hi. cbn [opBits]. rewrite (nth_indep _ false (Z.testbit (leval src) (off + 0))) by (rewrite length_map, length_zseq; lia). rewrite (map_nth (fun i => Z.testbit (leval src) (off + i))). do 2 f_equal. unfold zseq. rewrite (nth_indep _ 0 (0 + Z.of_nat 0)) by (rewrite length_map, length_seq; lia).
  rewrite (map_nth (fun j => 0 + Z.of_nat j)), seq_nth by lia. lia.
Qed.

Lemma length_opBits src off n : 0 <= n -> len (opBits (WBitmap src off n)) = n.
Proof. intros H. cbn [opBits]. rewrite length_map, length_zseq. lia. Qed.

Lemma runOp_ok w P o : bwAt w P -> 8 * len (bw_buf w) < 2 ^ 63 - 15 -> len (opBits o) <= bw_length w - bw_pos w -> opsOk P (bw_length w - bw_pos w) [o] ->
  exists w', runOp w o = Some (w', len (opBits o)) /\ bwAt w' (P + len (opBits o)) /\ bw_pos w' = bw_pos w + len (opBits o) /\ bw_length w' = bw_length w /\ List.length (bw_buf w') = List.length (bw_buf w) /\
    bitsPut (bwView w) P (len (opBits o)) (fun i => nth (Z.to_nat i) (opBits o) false) (bwView w').
Proof.
  intros Hw Hmax Hfit [Ho _]. destruct o as [b|bs|src off n]; cbn [runOp].
  - cbn [opBits List.length] in *. change (if b then BW.Set_ w else BW.Clear w) with (putBit w b). destruct (BWNext_ok w P b Hw ltac:(lia)) as (w' & -> & HA & Hp & Hl & HP & HL). cbn [opt_bind]. exists w'. change (Z.of_nat 1) with 1. splits; auto. apply (bitsPut_ext _ _ _ _ _ _ HP). intros i Hi. now replace (Z.to_nat i) with 0%nat by lia.
  - cbn [opBits] in *. destruct (AppendBools_ok w P bs Hw Hmax) as (w' & HE & HA & Hp & Hl & HL & _ & HV). rewrite Z.min_r in * by lia. exists w'. splits; auto. apply HV. destruct Ho as [H|[H|H]]; [auto|right; left; lia|right; right; now rewrite H].
  - pose proof Ho as (_ & _ & Hn & _). pose proof (length_opBits src off n Hn) as HLn. rewrite HLn in *. destruct (AppendBitmap_ok w P src off n Hw Hmax Ho) as (w' & HE & HA & Hp & Hl & HL & HP & _). rewrite Z.min_r in * by lia. exists w'. splits; auto. apply (bitsPut_ext _ _ _ _ _ _ HP). intros i Hi. now rewrite nth_bits by lia.
Qed.

Lemma runOps_ok : forall os w P, bwAt w P -> 8 * len (bw_buf w) < 2 ^ 63 - 15 -> len (flat_map opBits os) <= bw_length w - bw_pos w -> opsOk P (bw_length w - bw_pos w) os ->
  exists w', runOps w os = Some (w', len (flat_map opBits os)) /\ bwAt w' (P + len (flat_map opBits os)) /\ bitsPut (bwView w) P (len (flat_map opBits os)) (fun i => nth (Z.to_nat i) (flat_map opBits os) false) (bwView w').
Proof.
  induction os as [|o os IH]; intros w P Hw Hmax Hfit Hok; cbn [runOps flat_map].
  - exists w. change (len []) with 0. rewrite Z.add_0_r. splits; auto. apply bitsPut_refl, (bwView_bytes w P Hw).
  - cbn [flat_map] in Hfit. rewrite length_app in *. destruct Hok as [Ho Hos]. destruct (runOp_ok w P o Hw Hmax ltac:(lia) (conj Ho I)) as (w1 & -> & HA1 & Hp1 & Hl1 & HL1 & HP1). cbn [opt_bind fst snd].
    destruct (IH w1 (P + len (opBits o)) HA1 ltac:(rewrite HL1; assumption) ltac:(lia)) as (w' & -> & HA' & HP'); [rewrite Hl1, Hp1; replace (bw_length w - (bw_pos w + len (opBits o))) with (bw_length w - bw_pos w - len (opBits o)) by lia; exact Hos|]. cbn [opt_bind fst snd].
    exists w'. rewrite Nat2Z.inj_add. split; [reflexivity|]. rewrite Z.add_assoc. split; [assumption|]. apply (bitsPut_trans _ P _ _ _ (bwView w1)); [lia|lia| |].
    + apply (bitsPut_ext _ _ _ _ _ _ HP1). intros i Hi. now rewrite app_nth1 by lia.
    + apply (bitsPut_ext _ _ _ _ _ _ HP'). intros i Hi. rewrite app_nth2 by lia. f_equal. lia.
Qed.

(** ** Claims *)

(** The bits of [l] and [r], each from its offset on, with [b] between them. *)
Definition zipped (b : bool -> bool -> bool) (l r : list Z) (lo ro : Z) : Z -> bool := fun i => b (Z.testbit (leval l) (lo + i)) (Z.testbit (leval r) (ro + i)).

(** C9: [CopyBitmap], [InvertBitmap] and the five binary operations, on ranges at any bit offsets and
    of any length, whether they go byte by byte or word by word: the bits of the destination
    range are those of the operation, every other bit and the length stay as they are, and
    nothing outside the slices is touched. *)
Theorem bitmap_ops_correct left right lo ro out oo n :
  rangeOk left lo n -> rangeOk right ro n -> rangeOk out oo n -> 0 < n ->
  (exists o, CopyBitmap left lo n out oo = Some o /\ bitsPut out oo n (fun i => Z.testbit (leval left) (lo + i)) o) /\
  (exists o, InvertBitmap left lo n out oo = Some o /\ bitsPut out oo n (fun i => negb (Z.testbit (leval left) (lo + i))) o) /\
  (exists o, BitmapAnd left right lo ro out oo n = Some o /\ bitsPut out oo n (zipped andb left right lo ro) o) /\
  (exists o, BitmapOr left right lo ro out oo n = Some o /\ bitsPut out oo n (zipped orb left right lo ro) o) /\
  (exists o, BitmapAndNot left right lo ro out oo n = Some o /\ bitsPut out oo n (zipped (fun a b => a && negb b) left right lo ro) o) /\
  (exists o, BitmapXor left right lo ro out oo n = Some o /\ bitsPut out oo n (zipped xorb left right lo ro) o) /\
  (exists o, BitmapXnor left right lo ro out oo n = Some o /\ bitsPut out oo n (zipped Bool.eqb left right lo ro) o).
Proof.
  intros HL HR HO Hn. unfold zipped. splits.
  - destruct (transferBitmap_ok transferCopy left lo n out oo HL HO) as (o & HE & HP). exists o. split; [exact HE|]. apply (bitsPut_ext _ _ _ _ _ _ HP). intros i Hi. apply xorb_false_l.
  - destruct (transferBitmap_ok transferInvert left lo n out oo HL HO) as (o & HE & HP). exists o. split; [exact HE|]. apply (bitsPut_ext _ _ _ _ _ _ HP). intros i Hi. apply xorb_true_l.
  - now apply (BitmapOp_ok bitAndOp andb).
  - now apply (BitmapOp_ok bitOrOp orb).
  - now apply (BitmapOp_ok bitAndNotOp (fun a b => a && negb b)).
  - now apply (BitmapOp_ok bitXorOp xorb).
  - now apply (BitmapOp_ok bitXnorOp Bool.eqb).
Qed.

(** [BitmapEquals] is true exactly when the two ranges have the same bits, on the byte-aligned
    path and on the word path; bits outside the ranges do not matter. *)
Theorem bitmap_equals_correct left right lo ro n :
  rangeOk left lo n -> rangeOk right ro n -> 8 * len left < 2 ^ 63 -> 8 * len right < 2 ^ 63 ->
  exists e, BitmapEquals left right lo ro n = Some e /\ (e = true <-> forall i, 0 <= i < n -> Z.testbit (leval left) (lo + i) = Z.testbit (leval right) (ro + i)).
Proof. apply BitmapEquals_ok. Qed.

(** [BitmapWriter]: any sequence of single bits, slices of booleans and ranges of other bitmaps,
    followed by [Finish], leaves exactly these bits in the range and all others as they were,
    provided a slice of booleans ends inside a byte or at the end of the range. *)
Theorem bitmap_writer_correct buf start n os :
  rangeOk buf start n -> 0 < n -> 8 * len buf < 2 ^ 63 - 15 -> len (flat_map opBits os) <= n -> opsOk start n os ->
  exists w w1 w2, BW.NewBitmapWriter buf start n = Some w /\ runOps w os = Some (w1, len (flat_map opBits os)) /\ BW.Finish w1 = Some w2 /\
    bitsPut buf start (len (flat_map opBits os)) (fun i => nth (Z.to_nat i) (flat_map opBits os) false) (bw_buf w2).
Proof.
  intros (Hb & Hs & _ & Hle & _) Hn Hmax Hfit Hok. destruct (BWNew_ok buf start n Hb Hs Hn Hle) as (w & HE & HA & HV & Hp & Hl). assert (HL : List.length (bw_buf w) = List.length buf) by (rewrite <- HV; symmetry; apply (bwView_bytes w start HA)).
  destruct (runOps_ok os w start HA) as (w1 & HE1 & HA1 & HP1); [rewrite HL; assumption|lia|rewrite Hl, Hp, Z.sub_0_r; assumption|]. destruct (BWFinish_ok w1 _ HA1) as (w2 & HE2 & HB2 & _). exists w, w1, w2. rewrite HB2. rewrite HV in HP1. auto.
Qed.

(** [AppendBools] that ends at a byte boundary keeps the byte before it as the current one: of a
    range of 11 bits, written as 8 and 3 booleans, the bits 11 to 15 behind the range, which were
    clear, come out set.  Written bit by bit they stay clear. *)
Theorem append_bools_clobbers :
  let run os := w <- BW.NewBitmapWriter [0; 0] 0 11 ;; r <- runOps w os ;; w <- BW.Finish (fst r) ;; Some (bw_buf w) in
  run [WBools (repeat true 8); WBools [false; false; false]] = Some [255; 248] /\
  run (repeat (WBit true) 8 ++ repeat (WBit false) 3) = Some [255; 0].
Proof. split; vm_compute; reflexivity. Qed.

(** ** Witnesses *)

Definition exBitmap : list Z := [177; 60; 7; 250; 33; 90; 18; 201; 5; 77; 130; 64; 99; 12; 254; 1; 200; 31; 8].

Lemma bitmap_ops_witness : exists o, BitmapXor exBitmap exBitmap 3 5 (repeat 0 19) 6 140 = Some o /\ bitsPut (repeat 0 19) 6 140 (zipped xorb exBitmap exBitmap 3 5) o.
Proof.
  destruct (bitmap_ops_correct exBitmap exBitmap 3 5 (repeat 0 19) 6 140) as (_ & _ & _ & _ & _ & H & _); [now apply rangeOkb_ok..|lia|exact H].
Defined.

