(* ===== verification/Booleans.v ===== *)
(** * Boolean pages (parquet/internal/encoding/boolean_encoder.go, boolean_decoder.go)

    The plain encoding, one bit for each value, and the RLE encoding.  The plain encoder collects
    bits in a buffer of 1024 bytes through a [BitmapWriter]; [bitsBuffer] is the buffer of that
    writer.  [fresh] is the buffer the pool returns.  [BytesToBools] is the portable
    [bytesToBoolsGo]. *)

From Stdlib Require Import ZArith List Lia Bool String.
From S2P Require Import Prelude GoStd BitUtil BitRuns BitWriter RleDecoder RleEncoder MathUtil Memory Spaced Bitmaps BitmapOps.
Import ListNotations.
#[local] Open Scope Z_scope.
#[local] Open Scope go_scope.

Definition boolBufSize : Z := 1024.
Definition boolsInBuf : Z := boolBufSize * 8.
Definition scalarBitmapRunLimit : Z := 32.

(** ** The plain encoder *)

(** [be_scratch] has the capacity of [spacedScratch]. *)
Record PlainBooleanEncoder : Type := mkBE { be_sink : PooledBufferWriter.t; be_wr : option BitmapWriter; be_scratch : list bool }.

Module BE.

Definition newEncoder (fresh : Buffer.t) : PlainBooleanEncoder := mkBE (PooledBufferWriter.NewPooledBufferWriter fresh 1024) None [].

Definition append (sink : PooledBufferWriter.t) (data : list Z) : PooledBufferWriter.t := fst (PooledBufferWriter.Write sink data).

Definition withWr (enc : PlainBooleanEncoder) (wr : BitmapWriter) : PlainBooleanEncoder := mkBE (be_sink enc) (Some wr) (be_scratch enc).

Definition initBitmapWriter (enc : PlainBooleanEncoder) : option (PlainBooleanEncoder * BitmapWriter) :=
  match be_wr enc with
  | Some wr => Some (enc, wr)
  | None => wr <- BW.NewBitmapWriter (repeat 0 (Z.to_nat boolBufSize)) 0 boolsInBuf ;; Some (withWr enc wr, wr)
  end.

(** [enc.wr.Finish(); enc.append(enc.bitsBuffer); enc.wr.Reset(0, boolsInBuf)] *)
Definition flushBits (enc : PlainBooleanEncoder) (wr : BitmapWriter) : option (PlainBooleanEncoder * BitmapWriter) :=
  wr <- BW.Finish wr ;;
  let sink := append (be_sink enc) (bw_buf wr) in
  wr <- BW.Reset wr 0 boolsInBuf ;;
  Some (mkBE sink (Some wr) (be_scratch enc), wr).

(** The loop of [Put], after [n] of the values have been appended. *)
Fixpoint putLoop (fuel : nat) (enc : PlainBooleanEncoder) (wr : BitmapWriter) (n : Z) (ins : list bool) : option PlainBooleanEncoder :=
  if n <? len ins then
    match fuel with
    | O => None
    | S fuel' =>
        r <- flushBits enc wr ;;
        ins <- slice ins n (len ins) ;;
        a <- BW.AppendBools (snd r) ins ;;
        putLoop fuel' (withWr (fst r) (fst a)) (fst a) (snd a) ins
    end
  else Some enc.

Definition Put (enc : PlainBooleanEncoder) (ins : list bool) : option PlainBooleanEncoder :=
  r <- initBitmapWriter enc ;;
  if len ins =? 0 then Some (fst r)
  else a <- BW.AppendBools (snd r) ins ;; putLoop (S (List.length ins)) (withWr (fst r) (fst a)) (fst a) (snd a) ins.

Fixpoint putBitmapLoop (fuel : nat) (enc : PlainBooleanEncoder) (wr : BitmapWriter) (bitmap : list Z) (offset length : Z) : option PlainBooleanEncoder :=
  if 0 <? length then
    match fuel with
    | O => None
    | S fuel' =>
        a <- AppendBitmap wr bitmap offset length ;;
        let n := snd a in
        let enc := withWr enc (fst a) in
        if 0 <? length - n then
          r <- flushBits enc (fst a) ;; putBitmapLoop fuel' (fst r) (snd r) bitmap (offset + n) (length - n)
        else Some enc
    end
  else Some enc.

Definition PutBitmap (enc : PlainBooleanEncoder) (bitmap : list Z) (offset length : Z) : option PlainBooleanEncoder :=
  r <- initBitmapWriter enc ;;
  if length =? 0 then Some (fst r) else putBitmapLoop (S (S (Z.to_nat length))) (fst r) (snd r) bitmap offset length.

Definition scalarStep (bitmap : list Z) (offset i : Z) (st : PlainBooleanEncoder * BitmapWriter) : option (PlainBooleanEncoder * BitmapWriter) :=
  let '(enc, wr) := st in
  r <- (if BW.Pos wr =? boolsInBuf then flushBits enc wr else Some (enc, wr)) ;;
  b <- BitIsSet bitmap (offset + i) ;;
  wr <- BW.Next (if (b : bool) then BW.Set_ (snd r) else BW.Clear (snd r)) ;;
  Some (fst r, wr).

Definition putBitmapScalar (enc : PlainBooleanEncoder) (bitmap : list Z) (offset length : Z) : option PlainBooleanEncoder :=
  r <- initBitmapWriter enc ;;
  r <- for_up (Z.to_nat length) 0 (scalarStep bitmap offset) r ;;
  wr <- BW.Finish (snd r) ;;
  Some (withWr (fst r) wr).

(** A scratch slice of [n] booleans: the slice, and the capacity behind it. *)
Definition scratchOf (scratch : list bool) (n : nat) : list bool * list bool :=
  if (List.length scratch <? n)%nat then (repeat false n, []) else (firstn n scratch, skipn n scratch).

Definition PutSpaced (enc : PlainBooleanEncoder) (ins : list bool) (validBits : list Z) (validBitsOffset : Z) : option PlainBooleanEncoder :=
  let s := scratchOf (be_scratch enc) (List.length ins) in
  r <- spacedCompress ins (fst s) validBits validBitsOffset ;;
  vals <- slice (fst r) 0 (snd r) ;;
  Put (mkBE (be_sink enc) (be_wr enc) (fst r ++ snd s)) vals.

(** One run of valid values: the encoder and [numValid]. *)
Definition putRun (bitmap : list Z) (bitmapOffset : Z) (pos n : Z) (st : PlainBooleanEncoder * Z) : option (PlainBooleanEncoder * Z * option goerr) :=
  let '(enc, numValid) := st in
  enc <- (if (n =? 8) || (n =? 16) || (n =? 24) then
            let srcOffset := bitmapOffset + pos in
            let dstOffset := match be_wr enc with Some wr => BW.Pos wr | None => 0 end in
            if negb (Z.rem srcOffset 8 =? 0) || negb (Z.rem dstOffset 8 =? 0) then putBitmapScalar enc bitmap srcOffset n else PutBitmap enc bitmap srcOffset n
          else if n <? scalarBitmapRunLimit then putBitmapScalar enc bitmap (bitmapOffset + pos) n
          else PutBitmap enc bitmap (bitmapOffset + pos) n) ;;
  Some (enc, numValid + n, None).

(** The encoder and the number of valid values. *)
Definition PutSpacedBitmap (enc : PlainBooleanEncoder) (bitmap : list Z) (bitmapOffset numValues : Z) (validBits : list Z) (validBitsOffset : Z) : option (PlainBooleanEncoder * Z) :=
  if numValues =? 0 then Some (enc, 0)
  else
    reader <- SBR.newBaseSetBitRunReader validBits validBitsOffset numValues false ;;
    r <- SBR.VisitRuns reader (putRun bitmap bitmapOffset) (enc, 0) ;;
    Some (snd (fst r)).

(** A nil writer panics. *)
Definition EstimatedDataEncodedSize (enc : PlainBooleanEncoder) : option Z :=
  wr <- be_wr enc ;; Some (PooledBufferWriter.LenOf (be_sink enc) + BytesForBits (BW.Pos wr)).

Definition FlushValues (fresh : Buffer.t) (enc : PlainBooleanEncoder) : option (PlainBooleanEncoder * Buffer.t) :=
  wr <- be_wr enc ;;
  sink <- (if 0 <? BW.Pos wr then part <- slice (bw_buf wr) 0 (BytesForBits (BW.Pos wr)) ;; Some (append (be_sink enc) part) else Some (be_sink enc)) ;;
  wr <- BW.Reset wr 0 boolsInBuf ;;
  let '(sink, buf) := PooledBufferWriter.Finish fresh sink in
  Some (mkBE sink (Some wr) (be_scratch enc), buf).

End BE.

(** ** The plain decoder *)

Record PlainBooleanDecoder : Type := mkBD { bd_data : list Z; bd_nvals : Z; bd_bitOffset : Z }.

(** [bytesToBoolsGo] (parquet/internal/utils/unpack_bool.go): [out] afterwards. *)
Definition bytesToBoolsGo (ins : list Z) (out : list bool) : list bool :=
  splice out 0 (flat_map (fun b => map (fun j => negb (b & Z.shiftl 1 (Z.of_nat j) =? 0)) (seq 0 8)) ins).

(** [DecodeSpaced] has the same body in both decoders: [decode] is their [Decode], [mismatch] their
    message for a short count. *)
Definition spacedDecode {D} (decode : D -> list bool -> option (D * list bool * Z * option goerr)) (mismatch : goerr) (dec : D) (out : list bool) (nullCount : Z) (validBits : list Z) (validBitsOffset : Z) : option (D * list bool * Z * option goerr) :=
  if 0 <? nullCount then
    let toRead := len out - nullCount in
    part <- slice out 0 toRead ;;
    r <- decode dec part ;;
    let '(dec, part, valuesRead, err) := r in
    let out := splice out 0 part in
    match err with
    | Some e => Some (dec, out, 0, Some e)
    | None =>
        if negb (valuesRead =? toRead) then Some (dec, out, valuesRead, Some mismatch)
        else r <- spacedExpand out nullCount validBits validBitsOffset ;; Some (dec, fst r, snd r, None)
    end
  else decode dec out.

Module BD.

Definition SetData (nvals : Z) (data : list Z) : PlainBooleanDecoder + goerr :=
  if nvals <? 0 then inr (ErrMsg "parquet: invalid number of boolean values") else inl (mkBD data nvals 0).

(** The error wraps [io.ErrUnexpectedEOF]. *)
Definition ensureBitsAvailable (dec : PlainBooleanDecoder) (n : Z) : option goerr :=
  if len (bd_data dec) * 8 - bd_bitOffset dec <? n then Some ErrUnexpectedEOF else None.

Definition Discard (dec : PlainBooleanDecoder) (n : Z) : option (PlainBooleanDecoder * Z * option goerr) :=
  let n := Z.min n (bd_nvals dec) in
  match ensureBitsAvailable dec n with
  | Some e => Some (dec, 0, Some e)
  | None =>
      let nvals := bd_nvals dec - n in
      if bd_bitOffset dec + n <? 8 then Some (mkBD (bd_data dec) nvals (bd_bitOffset dec + n), n, None)
      else
        let remaining := n - (8 - bd_bitOffset dec) in
        data <- slice (bd_data dec) 1 (len (bd_data dec)) ;;
        let bytesToSkip := BytesForBits (Z.quot remaining 8 * 8) in
        data <- slice data bytesToSkip (len data) ;;
        Some (mkBD data nvals (remaining - bytesToSkip * 8), n, None)
  end.

(** The loop of [unalignedExtract]: at most 8 rounds. *)
Fixpoint extractLoop (fuel : nat) (data : list Z) (max bitOffset i : Z) (out : list bool) : option (list bool * Z * Z) :=
  match fuel with
  | O => Some (out, bitOffset, i)
  | S fuel' =>
      if (bitOffset <? 8) && (i <? max) then
        b <- index data 0 ;;
        out <- store out i (negb (b & u8 (Z.shiftl 1 bitOffset) =? 0)) ;;
        extractLoop fuel' data max (bitOffset + 1) (i + 1) out
      else Some (out, bitOffset, i)
  end.

(** The remaining data, the bit offset, [out] and the next index. *)
Definition unalignedExtract (data : list Z) (bitOffset max i : Z) (out : list bool) : option (list Z * Z * list bool * Z) :=
  r <- extractLoop 9 data max bitOffset i out ;;
  let '(out, bitOffset, i) := r in
  if bitOffset =? 8 then data <- slice data 1 (len data) ;; Some (data, 0, out, i) else Some (data, bitOffset, out, i).

Definition Decode (dec : PlainBooleanDecoder) (out : list bool) : option (PlainBooleanDecoder * list bool * Z * option goerr) :=
  let max := Z.min (len out) (bd_nvals dec) in
  match ensureBitsAvailable dec max with
  | Some e => Some (dec, out, 0, Some e)
  | None =>
      r <- (if negb (bd_bitOffset dec =? 0) then unalignedExtract (bd_data dec) (bd_bitOffset dec) max 0 out else Some (bd_data dec, bd_bitOffset dec, out, 0)) ;;
      let '(data, bitOffset, out, i) := r in
      let bitsRemain := max - i in
      let batch := Z.quot bitsRemain 8 * 8 in
      r <- (if 0 <? batch then
              let alignedBytes := BytesForBits batch in
              part <- slice data 0 alignedBytes ;;
              rest <- slice out i (len out) ;;
              data <- slice data alignedBytes (len data) ;;
              Some (data, firstn (Z.to_nat i) out ++ bytesToBoolsGo part rest, i + alignedBytes * 8)
            else Some (data, out, i)) ;;
      let '(data, out, i) := r in
      r <- unalignedExtract data bitOffset max i out ;;
      let '(data, bitOffset, out, _) := r in
      Some (mkBD data (bd_nvals dec - max) bitOffset, out, max, None)
  end.

(** The decoder, the bitmap afterwards, the count and the error. *)
Definition DecodeToBitmap (dec : PlainBooleanDecoder) (out : list Z) (outOffset length : Z) : option (PlainBooleanDecoder * list Z * Z * option goerr) :=
  let max := Z.min length (bd_nvals dec) in
  if max =? 0 then Some (dec, out, 0, None)
  else
    match ensureBitsAvailable dec max with
    | Some e => Some (dec, out, 0, Some e)
    | None =>
        if (bd_bitOffset dec =? 0) && (Z.rem outOffset 8 =? 0) then
          let bytesToCopy := BytesForBits max in
          srcSlice <- slice (bd_data dec) 0 bytesToCopy ;;
          let base := Z.quot outOffset 8 in
          dstSlice <- slice out base (base + bytesToCopy) ;;
          let fullBytes := Z.quot max 8 in
          dstSlice <- (if 0 <? fullBytes then head <- slice srcSlice 0 fullBytes ;; Some (splice dstSlice 0 head) else Some dstSlice) ;;
          let trailingBits := Z.rem max 8 in
          dstSlice <- (if 0 <? trailingBits then
                         lastByte <- index srcSlice fullBytes ;;
                         let mask := u8 (Z.shiftl 1 trailingBits - 1) in
                         d <- index dstSlice fullBytes ;;
                         store dstSlice fullBytes (Z.lor (Z.ldiff d mask) (lastByte & mask))
                       else Some dstSlice) ;;
          data <- slice (bd_data dec) fullBytes (len (bd_data dec)) ;;
          Some (mkBD data (bd_nvals dec - max) trailingBits, splice out (Z.to_nat base) dstSlice, max, None)
        else
          out <- CopyBitmap (bd_data dec) (bd_bitOffset dec) max out outOffset ;;
          let totalBitsRead := bd_bitOffset dec + max in
          data <- slice (bd_data dec) (Z.quot totalBitsRead 8) (len (bd_data dec)) ;;
          Some (mkBD data (bd_nvals dec - max) (Z.rem totalBitsRead 8), out, max, None)
    end.

Definition mismatch : goerr := ErrMsg "parquet: boolean decoder: number of values / definition levels read did not match".

Definition DecodeSpaced : PlainBooleanDecoder -> list bool -> Z -> list Z -> Z -> option (PlainBooleanDecoder * list bool * Z * option goerr) := spacedDecode Decode mismatch.

End BD.

(** ** Moving bits within a bitmap *)

Definition copyBitmapChunk (buf : list Z) (srcOffset dstOffset length : Z) : option (list Z) :=
  let srcByte := Z.quot srcOffset 8 in
  let srcBit := Z.rem srcOffset 8 in
  b <- index buf srcByte ;;
  let value := b >> srcBit in
  value <- (if 8 <? srcBit + length then b1 <- index buf (srcByte + 1) ;; Some (Z.lor value (u16 (Z.shiftl b1 (8 - srcBit)))) else Some value) ;;
  let value := value & u16 (u16 (Z.shiftl 1 length) - 1) in
  let dstByte := Z.quot dstOffset 8 in
  let dstBit := Z.rem dstOffset 8 in
  let first := Z.min length (8 - dstBit) in
  let firstMask := u8 (Z.shiftl (u8 (Z.shiftl 1 first - 1)) dstBit) in
  d <- index buf dstByte ;;
  buf <- store buf dstByte (Z.lor (Z.ldiff d firstMask) (u8 (Z.shiftl (u8 value) dstBit) & firstMask)) ;;
  if first <? length then
    let remaining := length - first in
    let secondMask := u8 (Z.shiftl 1 remaining - 1) in
    d <- index buf (dstByte + 1) ;;
    store buf (dstByte + 1) (Z.lor (Z.ldiff d secondMask) (u8 (value >> first) & secondMask))
  else Some buf.

Fixpoint copyForward (fuel : nat) (buf : list Z) (srcOffset dstOffset length copied : Z) : option (list Z) :=
  if copied <? length then
    match fuel with
    | O => None
    | S fuel' =>
        let n := Z.min (length - copied) 8 in
        buf <- copyBitmapChunk buf (srcOffset + copied) (dstOffset + copied) n ;;
        copyForward fuel' buf srcOffset dstOffset length (copied + n)
    end
  else Some buf.

Fixpoint copyBackward (fuel : nat) (buf : list Z) (srcOffset dstOffset copied : Z) : option (list Z) :=
  if 0 <? copied then
    match fuel with
    | O => None
    | S fuel' =>
        let n := Z.min copied 8 in
        let copied := copied - n in
        buf <- copyBitmapChunk buf (srcOffset + copied) (dstOffset + copied) n ;;
        copyBackward fuel' buf srcOffset dstOffset copied
    end
  else Some buf.

Definition copyBitmapWithinBuffer (buf : list Z) (srcOffset dstOffset length : Z) : option (list Z) :=
  if (length =? 0) || (srcOffset =? dstOffset) then Some buf
  else if dstOffset <? srcOffset then copyForward (S (Z.to_nat length)) buf srcOffset dstOffset length 0
  else copyBackward (S (Z.to_nat length)) buf srcOffset dstOffset length.

(** One logical index: the bitmap and [physicalIndex]. *)
Definition perBitStep (outOffset physicalOffset : Z) (validBits : list Z) (validBitsOffset : Z) (logicalIndex : Z) (st : list Z * Z) : option (list Z * Z) :=
  let '(out, physicalIndex) := st in
  v <- BitIsSet validBits (validBitsOffset + logicalIndex) ;;
  if (v : bool) then
    value <- BitIsSet out (physicalOffset + physicalIndex) ;;
    out <- SetBitTo out (outOffset + logicalIndex) value ;;
    Some (out, physicalIndex + 1)
  else Some (out, physicalIndex).

Definition expandSpacedBitmapPerBit (out : list Z) (outOffset length nullCount : Z) (validBits : list Z) (validBitsOffset : Z) : option (list Z) :=
  r <- for_up (Z.to_nat length) 0 (perBitStep outOffset (outOffset + nullCount) validBits validBitsOffset) (out, 0) ;;
  Some (fst r).

Definition expandRun (outOffset nullCount : Z) (pos n : Z) (st : list Z * Z) : option (list Z * Z * option goerr) :=
  let '(out, physicalIndex) := st in
  out <- copyBitmapWithinBuffer out (outOffset + nullCount + physicalIndex) (outOffset + pos) n ;;
  Some (out, physicalIndex + n, None).

(** The [BooleanBitmapDecoder] it is given is its [DecodeToBitmap]. *)
Section Spaced.
Context {D : Type}.
Variable decodeToBitmap : D -> list Z -> Z -> Z -> option (D * list Z * Z * option goerr).

Definition decodeSpacedToBitmap (dec : D) (out : list Z) (outOffset length nullCount : Z) (validBits : list Z) (validBitsOffset : Z) : option (D * list Z * Z * option goerr) :=
  if nullCount =? 0 then decodeToBitmap dec out outOffset length
  else
    let valuesToRead := length - nullCount in
    r <- decodeToBitmap dec out (outOffset + nullCount) valuesToRead ;;
    let '(dec, out, valuesRead, err) := r in
    match err with
    | Some e => Some (dec, out, valuesRead, Some e)
    | None =>
        if negb (valuesRead =? valuesToRead) then Some (dec, out, valuesRead, Some BD.mismatch)
        else
          let perBitThreshold := Z.quot length 8 + (if negb (Z.rem length 8 =? 0) then 1 else 0) in
          if perBitThreshold <=? nullCount then
            out <- expandSpacedBitmapPerBit out outOffset length nullCount validBits validBitsOffset ;; Some (dec, out, length, None)
          else
            runs <- SBR.newBaseSetBitRunReader validBits validBitsOffset length false ;;
            r <- SBR.VisitRuns runs (expandRun outOffset nullCount) (out, 0) ;;
            Some (dec, fst (snd (fst r)), length, None)
    end.
End Spaced.

Definition DecodeSpacedToBitmap : PlainBooleanDecoder -> list Z -> Z -> Z -> Z -> list Z -> Z -> option (PlainBooleanDecoder * list Z * Z * option goerr) := decodeSpacedToBitmap BD.DecodeToBitmap.
