(* ===== verification/BooleansOk.v ===== *)
(** * The plain boolean encoder

    What the encoder holds after any [Put], [PutSpaced], [PutBitmap] or [PutSpacedBitmap], and the
    page [FlushValues] returns: bit [i] of the page is value [i].  The bits that fill up the last
    byte are whatever the buffer had there. *)

From Stdlib Require Import ZArith List Lia Bool.
From S2P Require Import Prelude BitUtil BitRuns BitBlocks BitRunReader Memory Spaced Bitmaps BitmapOps BitmapsOk BitmapOpsOk Booleans.
Import ListNotations.
#[local] Open Scope Z_scope.
#[local] Open Scope go_scope.

(** Bits [0, len vs) of [x] are [vs]. *)
Definition bitsAre (x : Z) (vs : list bool) : Prop := forall i, 0 <= i < len vs -> Z.testbit x i = nth (Z.to_nat i) vs false.

(** The bits of a range as a list. *)
Definition bitList (bm : list Z) (off n : Z) : list bool := map (fun i => Z.testbit (leval bm) (off + i)) (zseq 0 (Z.to_nat n)).

Lemma length_bitList bm off n : 0 <= n -> len (bitList bm off n) = n.
Proof. intros H. unfold bitList. rewrite length_map, length_zseq. lia. Qed.

Lemma nth_zseq i k j : (j < k)%nat -> nth j (zseq i k) 0 = i + Z.of_nat j.
Proof. intros H. unfold zseq. rewrite (nth_indep _ 0 (i + Z.of_nat 0)) by (rewrite length_map, length_seq; lia). rewrite (map_nth (fun j => i + Z.of_nat j)), seq_nth by lia. lia. Qed.

Lemma nth_bitList bm off n i : 0 <= i < n -> nth (Z.to_nat i) (bitList bm off n) false = Z.testbit (leval bm) (off + i).
Proof. intros Hi. unfold bitList. rewrite (nth_indep _ false (Z.testbit (leval bm) (off + 0))) by (rewrite length_map, length_zseq; lia). rewrite (map_nth (fun i => Z.testbit (leval bm) (off + i))), nth_zseq by lia. f_equal. lia. Qed.

Lemma bitList_ext l bm off n : len l = n -> (forall i, 0 <= i < n -> nth (Z.to_nat i) l false = Z.testbit (leval bm) (off + i)) -> l = bitList bm off n.
Proof. intros HL H. pose proof (length_bitList bm off n ltac:(lia)). apply (nth_ext_eq _ _ false); [lia|]. intros k Hk. specialize (H (Z.of_nat k) ltac:(lia)). rewrite Nat2Z.id in H. rewrite H, <- nth_bitList with (n := n) by lia. now rewrite Nat2Z.id. Qed.

Lemma bitList_app bm off a b : 0 <= a -> 0 <= b -> bitList bm off (a + b) = bitList bm off a ++ bitList bm (off + a) b.
Proof.
  intros Ha Hb. symmetry. pose proof (length_bitList bm off a Ha). pose proof (length_bitList bm (off + a) b Hb). apply bitList_ext; [rewrite length_app; lia|]. intros i Hi. destruct (Z.lt_ge_cases i a).
  - rewrite app_nth1 by lia. now rewrite nth_bitList by lia.
  - rewrite app_nth2 by lia. replace (Z.to_nat i - List.length (bitList bm off a))%nat with (Z.to_nat (i - a)) by lia. rewrite nth_bitList by lia. f_equal. lia.
Qed.

Lemma bitList_slice bm off n p k : 0 <= p -> 0 <= k -> p + k <= n -> firstn (Z.to_nat k) (skipn (Z.to_nat p) (bitList bm off n)) = bitList bm (off + p) k.
Proof.
  intros Hp Hk Hle. pose proof (length_bitList bm off n ltac:(lia)). apply bitList_ext; [rewrite length_firstn, length_skipn; lia|]. intros i Hi. rewrite nth_firstn, nth_skipn. replace (Z.to_nat i <? Z.to_nat k)%nat with true by (symmetry; apply Nat.ltb_lt; lia).
  replace (Z.to_nat p + Z.to_nat i)%nat with (Z.to_nat (p + i)) by lia. rewrite nth_bitList by lia. f_equal. lia.
Qed.

Lemma bitsAre_app x n vs ws y : len vs = n -> bitsAre x vs -> (forall i, 0 <= i < n -> Z.testbit y i = Z.testbit x i) -> (forall i, 0 <= i < len ws -> Z.testbit y (n + i) = nth (Z.to_nat i) ws false) -> bitsAre y (vs ++ ws).
Proof.
  intros HL HX HY HW i Hi. rewrite length_app in Hi. destruct (Z.lt_ge_cases i n) as [Hlt|Hge].
  - rewrite HY, HX by lia. now rewrite app_nth1 by lia.
  - rewrite app_nth2 by lia. replace (Z.to_nat i - List.length vs)%nat with (Z.to_nat (i - n)) by lia. rewrite <- HW by lia. f_equal. lia.
Qed.

(** ** What the encoder holds *)

(** The sink holds whole buffers, the writer is at [pos] of the next one; together they are [vs].
    [x]: the bits of the buffer. *)
Definition collected (sink : PooledBufferWriter.t) (pos x : Z) (vs : list bool) : Prop :=
  exists data last, streamed sink data /\ bytes data /\ len last = pos /\ bitsAre (leval data) (firstn (8 * List.length data) vs) /\ vs = firstn (8 * List.length data) vs ++ last /\ 8 * len data + pos = len vs /\ bitsAre x last.

Definition writerOk (w : BitmapWriter) : Prop := bwAt w (bw_pos w) /\ bw_length w = boolsInBuf /\ len (bw_buf w) = boolBufSize.

(** In the middle of a call, and between calls. *)
Definition midOk (enc : PlainBooleanEncoder) (w : BitmapWriter) (vs : list bool) : Prop := writerOk w /\ collected (be_sink enc) (bw_pos w) (leval (bwView w)) vs.

Definition beOk (enc : PlainBooleanEncoder) (vs : list bool) : Prop :=
  match be_wr enc with
  | None => vs = [] /\ streamed (be_sink enc) []
  | Some w => midOk enc w vs /\ forall i, 0 <= i < bw_pos w -> Z.testbit (leval (bw_buf w)) i = Z.testbit (leval (bwView w)) i
  end.

Lemma collected_more sink pos x x' vs ws : 0 <= pos -> collected sink pos x vs -> (forall i, 0 <= i < pos -> Z.testbit x' i = Z.testbit x i) -> (forall i, 0 <= i < len ws -> Z.testbit x' (pos + i) = nth (Z.to_nat i) ws false) ->
  collected sink (pos + len ws) x' (vs ++ ws).
Proof.
  intros Hp (data & last & Hs & Hb & Hl & HD & Hvs & Hlen & HX) HX' HW. assert (HF : firstn (8 * List.length data) (vs ++ ws) = firstn (8 * List.length data) vs).
  { rewrite firstn_app. replace (8 * List.length data - List.length vs)%nat with 0%nat by lia. now rewrite firstn_O, app_nil_r. }
  exists data, (last ++ ws). rewrite HF, !length_app, !Nat2Z.inj_add. splits; auto; try lia.
  - rewrite app_assoc. now rewrite <- Hvs.
  - apply (bitsAre_app x pos); auto.
Qed.

Lemma put_prefix buf P n f buf' i : bitsPut buf P n f buf' -> 0 <= i < P -> Z.testbit (leval buf') i = Z.testbit (leval buf) i.
Proof. intros (_ & _ & HT) Hi. rewrite HT by lia. bool_lia (P <=? i). reflexivity. Qed.

(** A full buffer goes to the sink. *)
Lemma flushBits_ok enc w vs : midOk enc w vs -> bw_pos w = boolsInBuf -> len vs < 2 ^ 61 -> exists enc' w', BE.flushBits enc w = Some (enc', w') /\ be_wr enc' = Some w' /\ be_scratch enc' = be_scratch enc /\ midOk enc' w' vs /\ bw_pos w' = 0 /\ bwView w' = bw_buf w'.
Proof.
  intros ((HA & HL & HB) & data & last & Hs & Hdb & Hl & HD & Hvs & Hlen & HX) Hfull Hmax. unfold boolsInBuf, boolBufSize in *. unfold BE.flushBits. destruct (BWFinish_ok w _ HA) as (w1 & -> & Hbuf & Hp1 & Hl1 & HA1 & HV1). cbn [opt_bind]. pose proof (bwView_bytes w _ HA) as [HVb HVl].
  unfold BE.append. destruct (Write_streamed (be_sink enc) data (bw_buf w1) Hs ltac:(rewrite Hbuf; assumption) ltac:(rewrite Hbuf; lia)) as (sink & HW & Hs'). rewrite HW. cbn [fst].
  destruct (BWReset_ok w1 0 boolsInBuf) as (w2 & -> & HA2 & HV2 & HB2 & Hp2 & Hl2); [rewrite Hbuf; assumption|lia|reflexivity|rewrite Hbuf; unfold boolsInBuf, boolBufSize; lia|]. cbn [opt_bind]. eexists _, _. split; [reflexivity|]. cbn [be_wr be_scratch be_sink]. do 2 (split; [reflexivity|]). split; [|split; [assumption|congruence]].
  split; [split; [rewrite Hp2; assumption|]; split; [assumption|rewrite HB2, Hbuf; unfold boolBufSize; lia]|]. exists (data ++ bw_buf w1), []. rewrite Hbuf in *. cbn [be_sink]. rewrite Hp2, length_app. rewrite firstn_all2 by lia. splits; auto.
  - apply bytes_app. auto.
  - rewrite Hvs. apply (bitsAre_app (leval data) (8 * len data)); [rewrite length_firstn; lia|assumption| |].
    + intros i Hi. rewrite leval_app. rewrite <- (Z.mod_pow2_bits_low (leval data + _) (8 * len data)) by lia. f_equal. rewrite Z.mul_comm, Z_mod_plus_full. apply Z.mod_small, leval_bound. assumption.
    + intros i Hi. rewrite <- HX by lia. rewrite leval_app. replace (8 * len data + i) with (i + 8 * len data) by lia. rewrite <- Z.div_pow2_bits by lia. f_equal. rewrite Z.mul_comm, Z.div_add by (apply Z.pow_nonzero; lia). rewrite Z.div_small by (apply leval_bound; assumption). lia.
  - now rewrite app_nil_r.
  - lia.
  - intros i Hi. cbn in Hi. lia.
Qed.

(** ** Putting *)

Lemma init_ok enc vs : beOk enc vs -> exists enc' w, BE.initBitmapWriter enc = Some (enc', w) /\ be_wr enc' = Some w /\ be_scratch enc' = be_scratch enc /\ midOk enc' w vs /\ beOk enc' vs.
Proof.
  intros H. unfold BE.initBitmapWriter. unfold beOk in H. destruct (be_wr enc) as [w|] eqn:E.
  - exists enc, w. destruct H as [HM Hbuf]. splits; auto. unfold beOk. rewrite E. auto.
  - destruct H as [-> Hs]. destruct (BWNew_ok (repeat 0 (Z.to_nat boolBufSize)) 0 boolsInBuf) as (w & -> & HA & HV & Hp & Hl); [apply bytes_repeat0|lia|reflexivity|rewrite repeat_length; unfold boolsInBuf, boolBufSize; lia|]. cbn [opt_bind].
    pose proof (bwView_bytes w 0 HA) as [_ HVl]. assert (HM : midOk (BE.withWr enc w) w []).
    { split; [split; [rewrite Hp; exact HA|]; split; [exact Hl|rewrite HV, repeat_length in HVl; unfold boolBufSize in *; lia]|]. exists [], []. rewrite Hp. cbn. splits; auto; try constructor; intros i Hi; cbn in Hi; lia. }
    exists (BE.withWr enc w), w. split; [reflexivity|]. do 2 (split; [reflexivity|]). split; [exact HM|]. cbn [beOk be_wr BE.withWr]. split; [exact HM|]. intros i Hi. lia.
Qed.

Lemma max_bits w : writerOk w -> 8 * len (bw_buf w) < 2 ^ 63 - 15.
Proof. intros (_ & _ & H). rewrite H. reflexivity. Qed.

(** The view below an aligned position is the buffer. *)
Lemma view_below w P i : bwAt w P -> P mod 8 = 0 -> 0 <= i < P -> Z.testbit (leval (bwView w)) i = Z.testbit (leval (bw_buf w)) i.
Proof.
  intros HA Hm Hi. destruct ((P mod 8 =? 0) && (bw_length w <=? bw_pos w)) eqn:E.
  - unfold bwView. destruct HA as (_ & _ & _ & HM & _). rewrite HM, mask_one, E. reflexivity.
  - rewrite (bwView_bit w P i HA E) by lia. destruct (Z.eqb_spec (i / 8) (P / 8)); [|reflexivity]. exfalso. zdiv.
Qed.

(** Appending booleans: as many as fit. *)
Lemma append_ok enc w vs ins : midOk enc w vs ->
  let n := Z.min (boolsInBuf - bw_pos w) (len ins) in
  exists w', BW.AppendBools w ins = Some (w', n) /\ bw_pos w' = bw_pos w + n /\ midOk (BE.withWr enc w') w' (vs ++ firstn (Z.to_nat n) ins) /\ (0 < n -> beOk (BE.withWr enc w') (vs ++ firstn (Z.to_nat n) ins)).
Proof.
  intros ((HA & HL & HB) & HC) n. destruct (AppendBools_ok w (bw_pos w) ins HA (max_bits w (conj HA (conj HL HB)))) as (w' & HE & HA' & Hp & Hl & HLb & HBuf & HV). rewrite HL in *. fold n in HE, HA', Hp, HBuf, HV. exists w'. split; [exact HE|]. split; [exact Hp|].
  assert (Hn : 0 <= n <= len ins) by (subst n; destruct HA as (_ & _ & _ & _ & _ & HP & _); lia). assert (Hf : len (firstn (Z.to_nat n) ins) = n) by (rewrite length_firstn; lia). pose proof HA as (_ & _ & Hp0 & _).
  assert (HNth : forall i, 0 <= i < n -> nth (Z.to_nat i) (firstn (Z.to_nat n) ins) false = nth (Z.to_nat i) ins false) by (intros i Hi; rewrite nth_firstn; now replace (Z.to_nat i <? Z.to_nat n)%nat with true by (symmetry; apply Nat.ltb_lt; lia)).
  (* the view below the new position *)
  assert (HView : forall i, 0 <= i < bw_pos w + n -> Z.testbit (leval (bwView w')) i = if i <? bw_pos w then Z.testbit (leval (bwView w)) i else nth (Z.to_nat (i - bw_pos w)) ins false).
  { intros i Hi. assert (HP : forall buf', bitsPut (bwView w) (bw_pos w) n (fun i => nth (Z.to_nat i) ins false) buf' -> Z.testbit (leval buf') i = if i <? bw_pos w then Z.testbit (leval (bwView w)) i else nth (Z.to_nat (i - bw_pos w)) ins false).
    { intros buf' (_ & _ & HT). rewrite HT by lia. destruct (Z.leb_spec (bw_pos w) i), (Z.ltb_spec i (bw_pos w + n)), (Z.ltb_spec i (bw_pos w)); cbn [andb]; try lia; reflexivity. }
    destruct (Z.eq_dec ((bw_pos w + n) mod 8) 0) as [Hz|Hz]; [|apply HP, HV; auto]. destruct (Z.eq_dec n 0) as [H0|H0]; [apply HP, HV; auto|]. rewrite (view_below w' (bw_pos w + n) i) by auto. apply HP, HBuf. lia. }
  assert (HM : midOk (BE.withWr enc w') w' (vs ++ firstn (Z.to_nat n) ins)).
  { split; [split; [rewrite Hp; exact HA'|]; split; [exact Hl|lia]|]. rewrite Hp. cbn [be_sink BE.withWr]. rewrite <- Hf at 1. apply (collected_more _ _ (leval (bwView w))); [lia|assumption| |].
    - intros i Hi. rewrite HView by lia. bool_lia (i <? bw_pos w). reflexivity.
    - intros i Hi. rewrite HView by lia. bool_lia (bw_pos w + i <? bw_pos w). rewrite HNth by lia. do 2 f_equal. lia. }
  split; [exact HM|]. intros Hpos. cbn [beOk be_wr BE.withWr]. split; [exact HM|]. intros i Hi. rewrite Hp in Hi. rewrite HView by lia. destruct (HBuf Hpos) as (_ & _ & HT). rewrite HT by lia. destruct (Z.leb_spec (bw_pos w) i), (Z.ltb_spec i (bw_pos w + n)), (Z.ltb_spec i (bw_pos w)); cbn [andb]; try lia; reflexivity.
Qed.

Lemma firstn_skipn_app {A} n m (l : list A) : firstn n l ++ firstn m (skipn n l) = firstn (n + m) l.
Proof. rewrite (firstn_split l n (n + m)) by lia. do 2 f_equal. lia. Qed.

Lemma putLoop_ok : forall fuel enc w vs ins n, midOk enc w (vs ++ firstn (Z.to_nat n) ins) -> be_wr enc = Some w -> 0 <= n <= len ins -> (n < len ins -> bw_pos w = boolsInBuf) -> (n = len ins -> beOk enc (vs ++ ins)) -> (List.length ins - Z.to_nat n < fuel)%nat -> len (vs ++ ins) < 2 ^ 61 ->
  exists enc', BE.putLoop fuel enc w n ins = Some enc' /\ beOk enc' (vs ++ ins) /\ be_scratch enc' = be_scratch enc.
Proof.
  induction fuel as [|fuel IH]; intros enc w vs ins n HM HW Hn Hfull Hdone Hfu Hmax; [lia|]. cbn [BE.putLoop]. destruct (Z.ltb_spec n (len ins)) as [Hlt|Hge]; [|exists enc; split; [reflexivity|]; split; [apply Hdone; lia|reflexivity]].
  rewrite length_app in Hmax. assert (Hmax' : len (vs ++ firstn (Z.to_nat n) ins) < 2 ^ 61) by (rewrite length_app, length_firstn; lia). destruct (flushBits_ok enc w _ HM (Hfull Hlt) Hmax') as (enc1 & w1 & -> & HW1 & HS1 & HM1 & Hp1 & _). cbn [opt_bind fst snd]. rewrite slice_from by lia. cbn [opt_bind].
  set (rest := skipn (Z.to_nat n) ins). assert (Hrest : len rest = len ins - n) by (subst rest; rewrite length_skipn; lia). destruct (append_ok enc1 w1 _ rest HM1) as (w2 & -> & Hp2 & HM2 & HB2). cbn [opt_bind fst snd]. rewrite Hp1, Z.sub_0_r in *. set (m := Z.min boolsInBuf (len rest)) in *.
  assert (Hm : 0 < m <= len rest) by (subst m; unfold boolsInBuf, boolBufSize; lia). assert (HEq : vs ++ ins = (vs ++ firstn (Z.to_nat n) ins) ++ rest) by (rewrite <- app_assoc; subst rest; now rewrite firstn_skipn).
  destruct (IH (BE.withWr enc1 w2) w2 (vs ++ firstn (Z.to_nat n) ins) rest m HM2 eq_refl) as (enc' & HE & HB & HSc); [lia|intros; subst m; lia| |lia|rewrite <- HEq, length_app; lia|].
  - intros Hmr. specialize (HB2 ltac:(lia)). now rewrite (firstn_all2 rest) in HB2 by lia.
  - exists enc'. rewrite HEq. split; [exact HE|]. split; [exact HB|]. rewrite HSc. exact HS1.
Qed.

Lemma putBools_ok enc vs ins : beOk enc vs -> len (vs ++ ins) < 2 ^ 61 -> exists enc', BE.Put enc ins = Some enc' /\ beOk enc' (vs ++ ins) /\ be_scratch enc' = be_scratch enc.
Proof.
  intros HO Hmax. unfold BE.Put. destruct (init_ok enc vs HO) as (enc1 & w & -> & HW & HS & HM & HO1). cbn [opt_bind fst snd]. destruct (Z.eqb_spec (len ins) 0) as [H0|Hne].
  - exists enc1. destruct ins; [|cbn in H0; lia]. rewrite app_nil_r. auto.
  - destruct (append_ok enc1 w vs ins HM) as (w1 & -> & Hp1 & HM1 & HB1). cbn [opt_bind fst snd]. set (n := Z.min (boolsInBuf - bw_pos w) (len ins)) in *. assert (Hn : 0 <= n <= len ins) by (subst n; destruct HM as [(HA & HL & _) _]; destruct HA as (_ & _ & _ & _ & _ & HP & _); lia).
    destruct (putLoop_ok (S (List.length ins)) (BE.withWr enc1 w1) w1 vs ins n HM1 eq_refl Hn) as (enc' & HE & HB & HSc); [intros; subst n; lia| |lia|assumption|].
    + intros Hne'. specialize (HB1 ltac:(lia)). now rewrite firstn_all2 in HB1 by lia.
    + exists enc'. split; [exact HE|]. split; [exact HB|]. rewrite HSc. exact HS.
Qed.

(** Appending bits of a bitmap. *)
Lemma appendBitmap_ok enc w vs bm off n : midOk enc w vs -> rangeOk bm off n ->
  let k := Z.min (boolsInBuf - bw_pos w) n in
  exists w', AppendBitmap w bm off n = Some (w', k) /\ bw_pos w' = bw_pos w + k /\ midOk (BE.withWr enc w') w' (vs ++ bitList bm off k) /\ (0 < k -> beOk (BE.withWr enc w') (vs ++ bitList bm off k)).
Proof.
  intros ((HA & HL & HB) & HC) HR k. destruct (AppendBitmap_ok w (bw_pos w) bm off n HA (max_bits w (conj HA (conj HL HB))) HR) as (w' & HE & HA' & Hp & Hl & HLb & HV & HBuf). rewrite HL in *. fold k in HE, HA', Hp, HBuf, HV. exists w'. split; [exact HE|]. split; [exact Hp|].
  assert (Hk : 0 <= k) by (subst k; destruct HR as (_ & _ & Hn & _); destruct HA as (_ & _ & _ & _ & _ & HP & _); lia). pose proof (length_bitList bm off k Hk) as Hlen. pose proof HA as (_ & _ & Hp0 & _).
  assert (HM : midOk (BE.withWr enc w') w' (vs ++ bitList bm off k)).
  { split; [split; [rewrite Hp; exact HA'|]; split; [exact Hl|lia]|]. rewrite Hp. cbn [be_sink BE.withWr]. rewrite <- Hlen at 1. apply (collected_more _ _ (leval (bwView w))); [lia|assumption| |].
    - intros i Hi. apply (put_prefix _ _ _ _ _ i HV). lia.
    - intros i Hi. rewrite (bitsPut_at _ _ _ _ _ i HV) by lia. now rewrite nth_bitList by lia. }
  split; [exact HM|]. intros Hpos. cbn [beOk be_wr BE.withWr]. split; [exact HM|]. intros i Hi. now rewrite HBuf by assumption.
Qed.

Lemma putBitmapLoop_ok : forall fuel enc w vs bm off n, midOk enc w vs -> be_wr enc = Some w -> rangeOk bm off n -> (n = 0 -> beOk enc vs) -> (Z.to_nat n + (if (bw_pos w <? boolsInBuf)%Z then 1 else 2) <= fuel)%nat -> len vs + n < 2 ^ 61 ->
  exists enc', BE.putBitmapLoop fuel enc w bm off n = Some enc' /\ beOk enc' (vs ++ bitList bm off n) /\ be_scratch enc' = be_scratch enc.
Proof.
  induction fuel as [|fuel IH]; intros enc w vs bm off n HM HW HR Hdone Hfu Hmax; [destruct (_ <? _) in Hfu; lia|]. pose proof HR as (Hb & Ho & Hn & Hle & Hm). cbn [BE.putBitmapLoop]. destruct (Z.ltb_spec 0 n) as [Hlt|Hge].
  - destruct (appendBitmap_ok enc w vs bm off n HM HR) as (w1 & -> & Hp1 & HM1 & HB1). cbn [opt_bind fst snd]. set (k := Z.min (boolsInBuf - bw_pos w) n) in *. assert (Hk : 0 <= k <= n) by (subst k; destruct HM as [(HA & HL & _) _]; destruct HA as (_ & _ & _ & _ & _ & HP & _); lia).
    destruct (Z.ltb_spec 0 (n - k)) as [Hmore|Hend].
    + pose proof (length_bitList bm off k ltac:(lia)) as Hlen. destruct (flushBits_ok _ w1 _ HM1) as (enc2 & w2 & -> & HW2 & HS2 & HM2 & Hp2 & HV2); [subst k; lia|rewrite length_app; lia|]. cbn [opt_bind fst snd].
      destruct (IH enc2 w2 (vs ++ bitList bm off k) bm (off + k) (n - k) HM2 HW2) as (enc' & HE & HB & HSc); [red; splits; auto; lia|lia| |rewrite length_app; lia|].
      * rewrite Hp2. change (0 <? boolsInBuf) with true. cbv iota. destruct (Z.ltb_spec (bw_pos w) boolsInBuf); lia.
      * exists enc'. split; [exact HE|]. split; [|rewrite HSc; exact HS2]. rewrite <- app_assoc, <- bitList_app in HB by lia. now replace (k + (n - k)) with n in HB by lia.
    + assert (k = n) by lia. exists (BE.withWr enc w1). split; [reflexivity|]. split; [|reflexivity]. rewrite <- H. apply HB1. lia.
  - exists enc. split; [reflexivity|]. split; [|reflexivity]. replace n with 0 by lia. unfold bitList. cbn. rewrite app_nil_r. apply Hdone. lia.
Qed.

Lemma PutBitmap_ok enc vs bm off n : beOk enc vs -> rangeOk bm off n -> len vs + n < 2 ^ 61 -> exists enc', BE.PutBitmap enc bm off n = Some enc' /\ beOk enc' (vs ++ bitList bm off n) /\ be_scratch enc' = be_scratch enc.
Proof.
  intros HO HR Hmax. unfold BE.PutBitmap. destruct (init_ok enc vs HO) as (enc1 & w & -> & HW & HS & HM & HO1). cbn [opt_bind fst snd]. destruct (Z.eqb_spec n 0) as [->|Hne].
  - exists enc1. unfold bitList. cbn. rewrite app_nil_r. auto.
  - pose proof HR as (_ & _ & Hn & _). destruct (putBitmapLoop_ok (S (S (Z.to_nat n))) enc1 w vs bm off n HM HW HR) as (enc' & HE & HB & HSc); [lia|destruct (_ <? _); lia|assumption|]. exists enc'. rewrite HSc. auto.
Qed.

(** One bit after the other. *)
Lemma scalarStep_ok enc w vs bm off i : midOk enc w vs -> bitmapOk bm -> 0 <= off + i < 8 * len bm -> len vs < 2 ^ 61 ->
  exists enc' w', BE.scalarStep bm off i (enc, w) = Some (enc', w') /\ midOk enc' w' (vs ++ [Z.testbit (leval bm) (off + i)]) /\ be_scratch enc' = be_scratch enc.
Proof.
  intros HM Hb Hi Hmax. unfold BE.scalarStep, BW.Pos.
  assert (HF : exists enc1 w1, (if bw_pos w =? boolsInBuf then BE.flushBits enc w else Some (enc, w)) = Some (enc1, w1) /\ midOk enc1 w1 vs /\ bw_pos w1 < boolsInBuf /\ be_scratch enc1 = be_scratch enc).
  { destruct (Z.eqb_spec (bw_pos w) boolsInBuf) as [Hf|Hf].
    - destruct (flushBits_ok enc w vs HM Hf Hmax) as (enc1 & w1 & HE & _ & HS & HM1 & Hp & _). exists enc1, w1. rewrite Hp. splits; auto. reflexivity.
    - exists enc, w. splits; auto. destruct HM as [(HA & HL & _) _]. destruct HA as (_ & _ & _ & _ & _ & HP & _). lia. }
  destruct HF as (enc1 & w1 & -> & ((HA & HL & HB) & HC) & Hlt & HS). cbn [opt_bind fst snd]. rewrite BitIsSet_ok by assumption. cbn [opt_bind]. set (b := Z.testbit _ _). change (if b then BW.Set_ w1 else BW.Clear w1) with (putBit w1 b).
  destruct (BWNext_ok w1 _ b HA ltac:(lia)) as (w' & -> & HA' & Hp & Hl & HP & HLb). cbn [opt_bind]. exists enc1, w'. split; [reflexivity|]. split; [|exact HS]. pose proof HA as (_ & _ & Hp0 & _).
  split; [split; [rewrite Hp; exact HA'|]; split; [lia|lia]|]. rewrite Hp. apply (collected_more _ _ (leval (bwView w1)) _ _ [b]); [lia|assumption| |].
  - intros j Hj. apply (put_prefix _ _ _ _ _ j HP). lia.
  - intros j Hj. cbn in Hj. replace j with 0 by lia. now rewrite (bitsPut_at _ _ _ _ _ 0 HP) by lia.
Qed.

Lemma putScalar_ok bm off : bitmapOk bm -> 0 <= off -> forall k i enc w vs, midOk enc w vs -> 0 <= i -> off + i + Z.of_nat k <= 8 * len bm -> len vs + Z.of_nat k < 2 ^ 61 ->
  exists enc' w', for_up k i (BE.scalarStep bm off) (enc, w) = Some (enc', w') /\ midOk enc' w' (vs ++ bitList bm (off + i) (Z.of_nat k)) /\ be_scratch enc' = be_scratch enc.
Proof.
  intros Hb Ho. induction k as [|k IH]; intros i enc w vs HM Hi Hle Hmax; cbn [for_up].
  - exists enc, w. unfold bitList. cbn. now rewrite app_nil_r.
  - destruct (scalarStep_ok enc w vs bm off i HM Hb ltac:(lia) ltac:(lia)) as (enc1 & w1 & -> & HM1 & HS1). cbn [opt_bind]. destruct (IH (i + 1) enc1 w1 _ HM1 ltac:(lia) ltac:(lia) ltac:(rewrite length_app; cbn [List.length]; lia)) as (enc' & w' & HE & HM' & HS'). exists enc', w'. split; [exact HE|]. split; [|congruence].
    replace (Z.of_nat (S k)) with (1 + Z.of_nat k) by lia. rewrite bitList_app by lia. rewrite <- app_assoc in HM'. replace (off + (i + 1)) with (off + i + 1) in HM' by lia. replace (bitList bm (off + i) 1) with [Z.testbit (leval bm) (off + i)]; [exact HM'|]. apply bitList_ext; [reflexivity|]. intros j Hj. replace j with 0 by lia. now rewrite Z.add_0_r.
Qed.

Lemma putBitmapScalar_ok enc vs bm off n : beOk enc vs -> bitmapOk bm -> 0 <= off -> 0 <= n -> off + n <= 8 * len bm -> len vs + n < 2 ^ 61 -> exists enc', BE.putBitmapScalar enc bm off n = Some enc' /\ beOk enc' (vs ++ bitList bm off n) /\ be_scratch enc' = be_scratch enc.
Proof.
  intros HO Hb Ho Hn Hle Hmax. unfold BE.putBitmapScalar. destruct (init_ok enc vs HO) as (enc1 & w & -> & HW & HS & HM & HO1). cbn [opt_bind]. destruct (putScalar_ok bm off Hb Ho (Z.to_nat n) 0 enc1 w vs HM ltac:(lia) ltac:(lia) ltac:(lia)) as (enc2 & w2 & -> & ((HA & HL & HB) & HC) & HS2). cbn [opt_bind fst snd].
  rewrite Z.add_0_r, Z2Nat.id in HC by lia. destruct (BWFinish_ok w2 _ HA) as (w3 & -> & Hbuf & Hp & Hl & HA3 & HV3). cbn [opt_bind]. exists (BE.withWr enc2 w3). split; [reflexivity|]. split; [|cbn [be_scratch BE.withWr]; congruence]. pose proof (bwView_bytes w2 _ HA) as [_ HVl].
  cbn [beOk be_wr BE.withWr]. split; [|intros i Hi; now rewrite HV3, Hbuf]. split; [split; [rewrite Hp; exact HA3|]; split; [congruence|rewrite Hbuf; lia]|]. rewrite Hp, HV3. exact HC.
Qed.

(** The scratch slice. *)
Lemma scratch_len s n : List.length (fst (BE.scratchOf s n)) = n.
Proof. unfold BE.scratchOf. destruct (Nat.ltb_spec (List.length s) n); cbn [fst]; [apply repeat_length|rewrite length_firstn; lia]. Qed.

Lemma PutSpaced_bools enc vs ins bits off : beOk enc vs -> bitsOk bits off (len ins) -> len (vs ++ compress (validAt bits off) 0 ins) < 2 ^ 61 -> exists enc', BE.PutSpaced enc ins bits off = Some enc' /\ beOk enc' (vs ++ compress (validAt bits off) 0 ins).
Proof.
  intros HO HB Hmax. unfold BE.PutSpaced. pose proof (scratch_len (be_scratch enc) (List.length ins)) as HS. pose proof (countIf_bound (validAt bits off) (List.length ins)) as Hk. rewrite spacedCompress_ok by (auto; lia). cbn [opt_bind fst snd].
  assert (HLc : len (compress (validAt bits off) 0 ins) = countIf (validAt bits off) (List.length ins)) by (rewrite compress_count; apply countIf_ext; intros; now rewrite Z.add_0_l).
  rewrite slice_ok by (rewrite ?length_app; lia). cbn [opt_bind Z.to_nat skipn]. rewrite Z.sub_0_r, firstn_app_exact by lia. destruct (putBools_ok (mkBE (be_sink enc) (be_wr enc) ((compress (validAt bits off) 0 ins ++ skipn (Z.to_nat (countIf (validAt bits off) (List.length ins))) (fst (BE.scratchOf (be_scratch enc) (List.length ins)))) ++ snd (BE.scratchOf (be_scratch enc) (List.length ins)))) vs (compress (validAt bits off) 0 ins)) as (enc' & HE & HB' & _); [exact HO|assumption|]. eauto.
Qed.

(** ** Bitmaps with nulls *)

Lemma putRun_ok bm boff N enc vs p n nv : beOk enc vs -> rangeOk bm boff N -> 8 * len bm < 2 ^ 63 -> 0 <= p -> 0 < n -> p + n <= N -> len vs + n < 2 ^ 61 ->
  exists enc', BE.putRun bm boff p n (enc, nv) = Some (enc', nv + n, None) /\ beOk enc' (vs ++ bitList bm (boff + p) n).
Proof.
  intros HO (Hb & Ho & HN & Hle & Hm) Hmb Hp Hn Hpn Hmax. unfold BE.putRun. assert (HR : rangeOk bm (boff + p) n) by (red; splits; auto; lia).
  destruct (PutBitmap_ok enc vs bm (boff + p) n HO HR Hmax) as (e1 & HE1 & HO1 & _). destruct (putBitmapScalar_ok enc vs bm (boff + p) n HO (conj Hb Hmb) ltac:(lia) ltac:(lia) ltac:(lia) Hmax) as (e2 & HE2 & HO2 & _).
  destruct ((n =? 8) || (n =? 16) || (n =? 24)); [destruct (negb _ || negb _)|destruct (n <? _)]; rewrite ?HE1, ?HE2; cbn [opt_bind]; eauto.
Qed.

Lemma putRuns_bits bm boff N rs : rangeOk bm boff N -> 8 * len bm < 2 ^ 63 -> forall c enc vs nv, asc c N rs -> 0 <= c -> beOk enc vs -> len vs + total rs < 2 ^ 61 ->
  exists enc', visitAll (BE.putRun bm boff) rs (enc, nv) = Some (enc', nv + total rs, None) /\ beOk enc' (vs ++ slots (bitList bm boff N) rs).
Proof.
  intros HR Hmb. induction rs as [|[p n] rs IH]; intros c enc vs nv HA Hc HO Hmax; cbn [visitAll].
  - exists enc. cbn [total slots map List.concat]. rewrite Z.add_0_r, app_nil_r. auto.
  - cbn [asc total] in *. destruct HA as (H1 & H2 & H3 & H4). pose proof (asc_total _ _ _ H4). destruct (putRun_ok bm boff N enc vs p n nv HO HR Hmb ltac:(lia) H2 ltac:(lia) ltac:(lia)) as (e1 & -> & HO1). cbn [opt_bind].
    pose proof (length_bitList bm (boff + p) n ltac:(lia)) as HLb. destruct (IH (p + n) e1 _ (nv + n) H4 ltac:(lia) HO1 ltac:(rewrite length_app; lia)) as (enc' & HE & HO'). exists enc'. split; [rewrite HE; do 3 f_equal; lia|].
    change (slots (bitList bm boff N) ((p, n) :: rs)) with (runSlice (bitList bm boff N) (p, n) ++ slots (bitList bm boff N) rs). unfold runSlice. cbn [fst snd]. rewrite bitList_slice by lia. now rewrite app_assoc.
Qed.

Lemma PutSpacedBitmap_ok enc vs bm boff n bits off : beOk enc vs -> rangeOk bm boff n -> 8 * len bm < 2 ^ 63 -> bitsOk bits off n -> len vs + n < 2 ^ 61 ->
  exists enc', BE.PutSpacedBitmap enc bm boff n bits off = Some (enc', cnt (leval bits) off (Z.to_nat n)) /\ beOk enc' (vs ++ compress (validAt bits off) 0 (bitList bm boff n)).
Proof.
  intros HO HR Hmb HB Hmax. pose proof HR as (_ & _ & Hn & _). unfold BE.PutSpacedBitmap. destruct (Z.eqb_spec n 0) as [->|Hne]; [exists enc; unfold bitList, cnt; cbn; rewrite app_nil_r; auto|].
  pose proof (length_bitList bm boff n Hn) as HL. destruct (range_slots bits off (bitList bm boff n)) as (HA & HS & HT). rewrite HL in *. destruct HB as (Hb & Ho & Hfit). unfold SBR.newBaseSetBitRunReader.
  destruct (VisitRange_ok bits off n false (BE.putRun bm boff) (mkSBR [] 0 0 0 0 0 false 0) Hb Ho Hn Hfit eq_refl) as (br & -> & Hv). cbn [opt_bind]. specialize (Hv (enc, 0)). unfold rangeRuns in Hv. pose proof (asc_total _ _ _ HA).
  destruct (putRuns_bits bm boff n _ HR Hmb 0 enc vs 0 HA ltac:(lia) HO ltac:(lia)) as (enc' & HE & HO'). rewrite HE in Hv. unfold visits in Hv. destruct (SBR.VisitRuns br _ _) as [[[br' st] e]|]; [|discriminate]. destruct Hv as [Hv _]. injection Hv as <- <-. cbn [opt_bind fst snd].
  exists enc'. rewrite ?Z.add_0_l, HT, cnt_countIf. replace (List.length (bitList bm boff n)) with (Z.to_nat n) by lia. rewrite <- HS. auto.
Qed.

(** ** The page *)

Lemma BoolFlush_ok fresh enc vs : beOk enc vs -> be_wr enc <> None -> poolOk fresh -> len vs < 2 ^ 61 ->
  exists enc' page, BE.FlushValues fresh enc = Some (enc', page) /\ beOk enc' [] /\ be_wr enc' <> None /\ bytes (Buffer.Bytes page) /\ len (Buffer.Bytes page) = (len vs + 7) / 8 /\ bitsAre (leval (Buffer.Bytes page)) vs.
Proof.
  intros HO HW HF Hmax. unfold beOk in HO. unfold BE.FlushValues. destruct (be_wr enc) as [w|]; [|congruence]. destruct HO as [((HA & HL & HB) & data & last & Hs & Hdb & Hl & HD & Hvs & Hlen & HX) Hbuf]. cbn [opt_bind]. unfold BW.Pos. pose proof HA as (Hbb & _ & Hp0 & _ & _ & Hpos & _). unfold boolsInBuf, boolBufSize in HL, HB.
  set (m := (bw_pos w + 7) / 8). assert (Hm : 0 <= m <= len (bw_buf w) /\ bw_pos w <= 8 * m) by (subst m; zdiv). destruct Hm as [Hm1 Hm2].
  assert (HSink : exists sink, (if 0 <? bw_pos w then part <- slice (bw_buf w) 0 (BytesForBits (bw_pos w)) ;; Some (BE.append (be_sink enc) part) else Some (be_sink enc)) = Some sink /\ streamed sink (data ++ firstn (Z.to_nat m) (bw_buf w))).
  { destruct (Z.ltb_spec 0 (bw_pos w)) as [Hlt|Hge].
    - rewrite BytesForBits_div by lia. fold m. rewrite slice_ok by lia. cbn [opt_bind Z.to_nat skipn]. rewrite Z.sub_0_r. unfold BE.append. destruct (Write_streamed (be_sink enc) data (firstn (Z.to_nat m) (bw_buf w)) Hs ltac:(auto with gobytes) ltac:(rewrite length_firstn; lia)) as (sink & HE & HS). rewrite HE. cbn [fst]. eauto.
    - assert (m = 0) by (subst m; replace (bw_pos w) with 0 by lia; reflexivity). rewrite H. cbn [Z.to_nat firstn]. rewrite app_nil_r. eauto. }
  destruct HSink as (sink & -> & Hs'). cbn [opt_bind]. destruct (BWReset_ok w 0 boolsInBuf Hbb) as (w1 & -> & HA1 & HV1 & HB1 & Hp1 & Hl1); [lia|reflexivity|unfold boolsInBuf, boolBufSize; lia|]. cbn [opt_bind]. destruct (Finish_streamed fresh sink _ Hs') as (page & -> & HPg).
  eexists _, _. split; [reflexivity|]. rewrite HPg. split; [|split; [discriminate|]].
  - cbn [beOk be_wr]. split; [|intros i Hi; lia]. split; [split; [rewrite Hp1; exact HA1|]; split; [exact Hl1|rewrite HB1; unfold boolBufSize; lia]|]. exists [], []. rewrite Hp1. cbn [be_sink]. split; [now apply new_streamed|]. cbn. splits; auto; try constructor; intros i Hi; cbn in Hi; lia.
  - split; [apply bytes_app; split; auto with gobytes|]. rewrite length_app, length_firstn. split; [subst m; zdiv|]. rewrite Hvs. apply (bitsAre_app (leval data) (8 * len data)); [rewrite length_firstn; lia|assumption| |].
    + intros i Hi. rewrite leval_app. rewrite <- (Z.mod_pow2_bits_low (leval data + _) (8 * len data)) by lia. f_equal. rewrite Z.mul_comm, Z_mod_plus_full. apply Z.mod_small, leval_bound. assumption.
    + intros i Hi. rewrite <- HX, <- Hbuf by lia. rewrite leval_app. replace (8 * len data + i) with (i + 8 * len data) by lia. rewrite <- Z.div_pow2_bits by lia. rewrite Z.mul_comm, Z.div_add by (apply Z.pow_nonzero; lia). rewrite Z.div_small by (apply leval_bound; assumption).
      rewrite Z.add_0_l, leval_firstn, testbit_field by (assumption || lia). rewrite Z2Nat.id by lia. bool_lia (0 <=? i). replace (i <? 8 * m) with true by (symmetry; apply Z.ltb_lt; lia). reflexivity.
Qed.
