(* ===== verification/BooleanDecode.v ===== *)
(** * The plain boolean decoder

    On any data the decoder stands for the bits from its offset on and for the number of values
    announced; every read delivers the next bits, or reports that there are not enough. *)

From Stdlib Require Import ZArith List Lia Bool.
From S2P Require Import Prelude BitUtil BitRuns BitBlocks BitRunReader Memory Spaced Bitmaps BitmapOps BitmapsOk BitmapOpsOk Booleans BooleansOk.
Import ListNotations.
#[local] Open Scope Z_scope.
#[local] Open Scope go_scope.

(** ** The bits that are left *)

Definition stands (data : list Z) (bo : Z) (B : list bool) : Prop := bytes data /\ 0 <= bo < 8 /\ bo <= 8 * len data /\ B = bitList data bo (8 * len data - bo) /\ 8 * len data < 2 ^ 63 - 15.

Lemma stands_len data bo B : stands data bo B -> len B = 8 * len data - bo.
Proof. intros (_ & _ & H & -> & _). apply length_bitList. lia. Qed.

Lemma bitList_skip bm off n t : 0 <= t <= n -> skipn (Z.to_nat t) (bitList bm off n) = bitList bm (off + t) (n - t).
Proof. intros H. pose proof (length_bitList bm off n ltac:(lia)). rewrite <- (bitList_slice bm off n t (n - t)) by lia. symmetry. apply firstn_all2. rewrite length_skipn. lia. Qed.

Lemma bitList_bytes bm k off n : bytes bm -> 0 <= k -> 0 <= off -> 0 <= n -> bitList (skipn (Z.to_nat k) bm) off n = bitList bm (8 * k + off) n.
Proof. intros Hb Hk Ho Hn. apply bitList_ext; [now apply length_bitList|]. intros i Hi. rewrite nth_bitList, testbit_skip by (assumption || lia). f_equal. lia. Qed.

(** Moving on by [t] bits. *)
Lemma stands_skip data bo B t : stands data bo B -> 0 <= t <= len B -> stands (skipn (Z.to_nat ((bo + t) / 8)) data) ((bo + t) mod 8) (skipn (Z.to_nat t) B).
Proof.
  intros HS Ht. rewrite (stands_len _ _ _ HS) in Ht. destruct HS as (Hb & Ho & Hle & -> & Hm). pose proof (Z.mod_pos_bound (bo + t) 8 ltac:(lia)). assert (Hq : 0 <= (bo + t) / 8 /\ bo + t = 8 * ((bo + t) / 8) + (bo + t) mod 8) by zdiv. destruct Hq as [Hq Hd].
  assert (HL : len (skipn (Z.to_nat ((bo + t) / 8)) data) = len data - (bo + t) / 8) by (rewrite length_skipn; zdiv). split; [auto with gobytes|]. split; [assumption|]. split; [lia|]. split; [|lia]. rewrite bitList_skip, bitList_bytes by (assumption || lia). f_equal; lia.
Qed.

(** What a decoder stands for: its bits and the number of values. *)
Definition bdOk (d : PlainBooleanDecoder) (B : list bool) (n : Z) : Prop := stands (bd_data d) (bd_bitOffset d) B /\ bd_nvals d = n /\ 0 <= n.

Lemma ensureBits_ok d B n k : bdOk d B n -> BD.ensureBitsAvailable d k = if len B <? k then Some ErrUnexpectedEOF else None.
Proof. intros (HS & _). unfold BD.ensureBitsAvailable. rewrite (stands_len _ _ _ HS). replace (8 * len (bd_data d) - bd_bitOffset d) with (len (bd_data d) * 8 - bd_bitOffset d) by lia. reflexivity. Qed.

Lemma discardBits_ok d B n m : bdOk d B n -> 0 <= m -> let k := Z.min m n in
  if len B <? k then BD.Discard d m = Some (d, 0, Some ErrUnexpectedEOF)
  else exists d', BD.Discard d m = Some (d', k, None) /\ bdOk d' (skipn (Z.to_nat k) B) (n - k).
Proof.
  intros HD Hm k. pose proof HD as (HS & Hn & Hn0). unfold BD.Discard. rewrite Hn. fold k. rewrite (ensureBits_ok d B n k HD). destruct (Z.ltb_spec (len B) k) as [Hlt|Hge]; [reflexivity|]. assert (Hk : 0 <= k <= len B) by (subst k; lia). pose proof (stands_skip _ _ _ k HS Hk) as HS'. pose proof HS as (Hb & Ho & Hle & _ & Hmx). rewrite (stands_len _ _ _ HS) in *.
  destruct (Z.ltb_spec (bd_bitOffset d + k) 8) as [H8|H8].
  - eexists. split; [reflexivity|]. split; [|cbn; lia]. cbn [bd_data bd_bitOffset]. rewrite Z.div_small, Z.mod_small in HS' by lia. exact HS'.
  - rewrite slice_from by lia. cbn [opt_bind]. set (r := k - (8 - bd_bitOffset d)). rewrite Z.quot_div_nonneg, BytesForBits_div by (subst r; zdiv). replace ((r / 8 * 8 + 7) / 8) with (r / 8) by zdiv. rewrite slice_from by (rewrite length_skipn; subst r; zdiv). cbn [opt_bind]. eexists. split; [reflexivity|]. split; [|cbn; lia]. cbn [bd_data bd_bitOffset].
    rewrite skipn_skipn. replace (Z.to_nat (r / 8) + Z.to_nat 1)%nat with (Z.to_nat ((bd_bitOffset d + k) / 8)) by (subst r; zdiv). replace (r - r / 8 * 8) with ((bd_bitOffset d + k) mod 8) by (subst r; zdiv). exact HS'.
Qed.

(** ** Decoding into booleans *)

Lemma store_next {A} (V out : list A) i b : len V = i -> i < len out -> store (V ++ skipn (Z.to_nat i) out) i b = Some ((V ++ [b]) ++ skipn (Z.to_nat (i + 1)) out).
Proof.
  intros HV Hi. rewrite store_ok by (rewrite length_app, length_skipn; lia). f_equal. destruct (skipn (Z.to_nat i) out) as [|x t] eqn:E; [apply (f_equal (@List.length A)) in E; rewrite length_skipn in E; cbn in E; lia|].
  replace (skipn (Z.to_nat (i + 1)) out) with t; [|replace (Z.to_nat (i + 1)) with (1 + Z.to_nat i)%nat by lia; rewrite <- skipn_skipn, E; reflexivity].
  rewrite <- app_assoc. cbn [app]. replace (Z.to_nat i) with (List.length V) by lia. clear. induction V as [|v V IH]; cbn; [reflexivity|]. now rewrite IH.
Qed.

Lemma byte_bit data bo : bytes data -> 0 <= bo < 8 -> negb (nth 0 data 0 & u8 (Z.shiftl 1 bo) =? 0) = Z.testbit (leval data) bo.
Proof. intros Hb Ho. rewrite one_shift, land_pow2, negb_involutive, testbit_first by (assumption || lia). reflexivity. Qed.

Lemma extractLoop_ok data out max : bytes data -> max <= len out -> forall fuel bo i V, 0 <= bo <= 8 -> len V = i -> i <= max -> (0 < Z.min (8 - bo) (max - i) -> data <> []) -> 8 - bo < Z.of_nat fuel ->
  let t := Z.min (8 - bo) (max - i) in BD.extractLoop fuel data max bo i (V ++ skipn (Z.to_nat i) out) = Some ((V ++ bitList data bo t) ++ skipn (Z.to_nat (i + t)) out, bo + t, i + t).
Proof.
  intros Hb Hmax. induction fuel as [|fuel IH]; intros bo i V Ho HV Hi Hne Hf t; [lia|]. cbn [BD.extractLoop]. destruct (Z.ltb_spec bo 8) as [H8|H8]; destruct (Z.ltb_spec i max) as [Him|Him]; cbn [andb].
  - assert (Ht : 0 < t) by (subst t; lia). specialize (Hne Ht). destruct data as [|b0 data]; [congruence|]. change (index (b0 :: data) 0) with (Some b0). cbn [opt_bind]. rewrite store_next by lia. cbn [opt_bind].
    pose proof (byte_bit (b0 :: data) bo Hb ltac:(lia)) as HBit. cbn [nth] in HBit. rewrite HBit. rewrite (IH (bo + 1) (i + 1) (V ++ [_])); [|lia|rewrite length_app; cbn; lia|lia|discriminate|lia]. set (t' := Z.min (8 - (bo + 1)) (max - (i + 1))). assert (Htt : t = 1 + t') by (subst t t'; lia). rewrite Htt.
    rewrite bitList_app by (subst t'; lia). assert (H1 : bitList (b0 :: data) bo 1 = [Z.testbit (leval (b0 :: data)) bo]) by (symmetry; apply bitList_ext; [reflexivity|]; intros j Hj; replace j with 0 by lia; now rewrite Z.add_0_r). rewrite H1, <- !app_assoc. replace (i + (1 + t')) with (i + 1 + t') by lia. replace (bo + (1 + t')) with (bo + 1 + t') by lia. reflexivity.
  - assert (t = 0) as -> by (subst t; lia). unfold bitList. cbn. rewrite app_nil_r, !Z.add_0_r. reflexivity.
  - assert (t = 0) as -> by (subst t; lia). unfold bitList. cbn. rewrite app_nil_r, !Z.add_0_r. reflexivity.
  - assert (t = 0) as -> by (subst t; lia). unfold bitList. cbn. rewrite app_nil_r, !Z.add_0_r. reflexivity.
Qed.

Lemma firstn_bits data bo n t : 0 <= t <= n -> firstn (Z.to_nat t) (bitList data bo n) = bitList data bo t.
Proof. intros H. pose proof (bitList_slice data bo n 0 t ltac:(lia) ltac:(lia) ltac:(lia)) as HS. cbn [Z.to_nat skipn] in HS. now rewrite Z.add_0_r in HS. Qed.

(** Up to the end of the byte, or of the values asked for. *)
Lemma unalignedExtract_ok data bo B out max i V : stands data bo B -> max <= len out -> len V = i -> i <= max -> max - i <= len B ->
  let t := Z.min (8 - bo) (max - i) in
  exists data' bo', BD.unalignedExtract data bo max i (V ++ skipn (Z.to_nat i) out) = Some (data', bo', (V ++ firstn (Z.to_nat t) B) ++ skipn (Z.to_nat (i + t)) out, i + t) /\ stands data' bo' (skipn (Z.to_nat t) B) /\ (t < max - i -> bo' = 0).
Proof.
  intros HS Hmax HV Hi HB t. pose proof HS as (Hb & Ho & Hle & HBe & Hm). pose proof (stands_len _ _ _ HS) as HLB. unfold BD.unalignedExtract. rewrite (extractLoop_ok data out max Hb Hmax 9 bo i V) by (try lia; intros; intros ->; cbn in HLB; lia). cbn [opt_bind]. fold t.
  assert (Ht : 0 <= t <= len B) by (subst t; lia). pose proof (stands_skip _ _ _ t HS Ht) as HS'. assert (HF : firstn (Z.to_nat t) B = bitList data bo t) by (rewrite HBe; apply firstn_bits; lia). rewrite HF. destruct (Z.eqb_spec (bo + t) 8) as [H8|H8].
  - rewrite slice_from by lia. cbn [opt_bind]. eexists _, _. split; [reflexivity|]. rewrite H8 in HS'. split; [exact HS'|reflexivity].
  - eexists _, _. split; [reflexivity|]. rewrite Z.div_small, Z.mod_small in HS' by (subst t; lia). split; [exact HS'|]. subst t. lia.
Qed.

Lemma bools_of_bytes ins : bytes ins -> flat_map (fun b => map (fun j => negb (b & Z.shiftl 1 (Z.of_nat j) =? 0)) (seq 0 8)) ins = bitList ins 0 (8 * len ins).
Proof.
  induction ins as [|b ins IH]; intros Hb; [reflexivity|]. inversion Hb as [|? ? Hx Hxs]; subst. cbn [flat_map]. rewrite IH by assumption. replace (8 * len (b :: ins)) with (8 + 8 * len ins) by (cbn [List.length]; lia). rewrite bitList_app by lia. f_equal.
  - apply bitList_ext; [reflexivity|]. intros i Hi. assert (Hn : nth (Z.to_nat i) (map (fun j => negb (b & Z.shiftl 1 (Z.of_nat j) =? 0)) (seq 0 8)) false = negb (b & Z.shiftl 1 i =? 0)).
    { rewrite (nth_indep _ false (negb (b & Z.shiftl 1 (Z.of_nat 0) =? 0))) by (rewrite length_map, length_seq; lia). rewrite (map_nth (fun j => negb (b & Z.shiftl 1 (Z.of_nat j) =? 0))), seq_nth by lia. cbn [Nat.add]. now rewrite Z2Nat.id by lia. }
    rewrite Hn, shiftl_mul, Z.mul_1_l, land_pow2, negb_involutive, Z.add_0_l by lia. pose proof (testbit_first (b :: ins) i Hb Hi) as HF. exact HF.
  - replace (0 + 8) with (8 * 1 + 0) by lia. rewrite <- bitList_bytes by (assumption || lia). reflexivity.
Qed.

Lemma decodeBools_ok d B n out : bdOk d B n -> let k := Z.min (len out) n in
  if len B <? k then BD.Decode d out = Some (d, out, 0, Some ErrUnexpectedEOF)
  else exists d', BD.Decode d out = Some (d', firstn (Z.to_nat k) B ++ skipn (Z.to_nat k) out, k, None) /\ bdOk d' (skipn (Z.to_nat k) B) (n - k).
Proof.
  intros HD k. pose proof HD as (HS & Hn & Hn0). unfold BD.Decode. rewrite Hn. fold k. rewrite (ensureBits_ok d B n k HD). destruct (Z.ltb_spec (len B) k) as [Hlt|Hge]; [reflexivity|]. assert (Hk : 0 <= k <= len B /\ k <= len out) by (subst k; lia).
  (* up to the next byte *)
  assert (H1 : exists data bo t, (if negb (bd_bitOffset d =? 0) then BD.unalignedExtract (bd_data d) (bd_bitOffset d) k 0 out else Some (bd_data d, bd_bitOffset d, out, 0)) = Some (data, bo, firstn (Z.to_nat t) B ++ skipn (Z.to_nat t) out, t) /\ stands data bo (skipn (Z.to_nat t) B) /\ 0 <= t <= k /\ (t < k -> bo = 0)).
  { destruct (Z.eqb_spec (bd_bitOffset d) 0) as [H0|H0]; cbn [negb].
    - exists (bd_data d), (bd_bitOffset d), 0. cbn [Z.to_nat firstn skipn app]. splits; auto; lia.
    - destruct (unalignedExtract_ok (bd_data d) (bd_bitOffset d) B out k 0 [] HS ltac:(lia) eq_refl ltac:(lia) ltac:(lia)) as (data & bo & HE & HS' & Hbo). cbn [Z.to_nat skipn app] in HE. rewrite HE. set (t := Z.min (8 - bd_bitOffset d) (k - 0)) in *. exists data, bo, t. rewrite Z.add_0_l. pose proof HS as (_ & Ho & _).
      split; [reflexivity|]. split; [assumption|]. split; [subst t; lia|]. intros Htk. apply Hbo. lia. }
  destruct H1 as (data & bo & t & -> & HS1 & Ht & Hbo). cbn [opt_bind]. set (B1 := skipn (Z.to_nat t) B) in *. assert (HB1 : len B1 = len B - t) by (subst B1; rewrite length_skipn; lia).
  (* the whole bytes *)
  rewrite Z.quot_div_nonneg by lia. set (m := (k - t) / 8). assert (Hm : 0 <= m /\ 8 * m <= k - t < 8 * m + 8) by (subst m; zdiv). destruct Hm as [Hm0 Hm1].
  assert (H2 : exists data2, (if 0 <? m * 8 then part <- slice data 0 (BytesForBits (m * 8)) ;; rest <- slice (firstn (Z.to_nat t) B ++ skipn (Z.to_nat t) out) t (len (firstn (Z.to_nat t) B ++ skipn (Z.to_nat t) out)) ;; data <- slice data (BytesForBits (m * 8)) (len data) ;;
        Some (data, firstn (Z.to_nat t) (firstn (Z.to_nat t) B ++ skipn (Z.to_nat t) out) ++ bytesToBoolsGo part rest, t + BytesForBits (m * 8) * 8) else Some (data, firstn (Z.to_nat t) B ++ skipn (Z.to_nat t) out, t))
      = Some (data2, firstn (Z.to_nat (t + 8 * m)) B ++ skipn (Z.to_nat (t + 8 * m)) out, t + 8 * m) /\ stands data2 bo (skipn (Z.to_nat (8 * m)) B1)).
  { assert (HLt : List.length (firstn (Z.to_nat t) B) = Z.to_nat t) by (rewrite length_firstn; lia). destruct (Z.ltb_spec 0 (m * 8)) as [Hp|Hz].
    - pose proof HS1 as (Hb & _ & Hle & HBe & Hmx). pose proof (stands_len _ _ _ HS1) as HLB. rewrite (Hbo ltac:(lia)) in *. rewrite BytesForBits_div by lia. replace ((m * 8 + 7) / 8) with m by zdiv. rewrite slice_ok by lia. cbn [opt_bind Z.to_nat skipn]. rewrite Z.sub_0_r.
      rewrite slice_from by (rewrite length_app, length_skipn; lia). cbn [opt_bind]. rewrite slice_from by lia. cbn [opt_bind]. exists (skipn (Z.to_nat m) data). split.
      + rewrite firstn_app_exact, skipn_app_exact by assumption. unfold bytesToBoolsGo. rewrite bools_of_bytes by auto with gobytes. rewrite length_firstn. replace (Z.of_nat (Nat.min (Z.to_nat m) (List.length data))) with m by lia.
        assert (HF : bitList (firstn (Z.to_nat m) data) 0 (8 * m) = firstn (Z.to_nat (8 * m)) B1).
        { rewrite HBe, firstn_bits by lia. apply bitList_ext; [apply length_bitList; lia|]. intros j Hj. rewrite nth_bitList, leval_firstn, testbit_field by (assumption || lia). rewrite Z2Nat.id by lia. rewrite !Z.add_0_l. bool_lia (0 <=? j). bool_lia (j <? 8 * m). reflexivity. }
        rewrite HF. assert (HLf : List.length (firstn (Z.to_nat (8 * m)) B1) = Z.to_nat (8 * m)) by (rewrite length_firstn; lia). rewrite splice_in by (rewrite HLf, length_skipn; lia). cbn [firstn app Nat.add]. rewrite HLf, skipn_skipn. subst B1. rewrite app_assoc, firstn_skipn_app. do 3 f_equal; [f_equal; [f_equal; lia|f_equal; lia]|lia].
      + pose proof (stands_skip _ _ _ (8 * m) HS1 ltac:(lia)) as HS2. rewrite Z.add_0_l in HS2. replace (8 * m / 8) with m in HS2 by zdiv. replace ((8 * m) mod 8) with 0 in HS2 by zdiv. exact HS2.
    - assert (m = 0) as Hmz by lia. exists data. rewrite Hmz, Z.mul_0_r, Z.add_0_r. split; [reflexivity|]. exact HS1. }
  destruct H2 as (data2 & -> & HS2). cbn [opt_bind]. set (B2 := skipn (Z.to_nat (8 * m)) B1) in *. assert (HB2 : len B2 = len B1 - 8 * m) by (subst B2; rewrite length_skipn; lia).
  (* the rest *)
  destruct (unalignedExtract_ok data2 bo B2 out k (t + 8 * m) (firstn (Z.to_nat (t + 8 * m)) B) HS2 ltac:(lia) ltac:(rewrite length_firstn; lia) ltac:(lia) ltac:(lia)) as (data3 & bo3 & -> & HS3 & _). cbn [opt_bind]. set (t3 := Z.min (8 - bo) (k - (t + 8 * m))) in *.
  assert (Ht3 : t3 = k - (t + 8 * m)) by (subst t3; destruct (Z.eq_dec t k); [pose proof HS1 as (_ & Hbo8 & _); lia|rewrite (Hbo ltac:(lia)); lia]). eexists. split.
  - do 4 f_equal. subst B2 B1. rewrite skipn_skipn. replace (Z.to_nat (8 * m) + Z.to_nat t)%nat with (Z.to_nat (t + 8 * m)) by lia. rewrite firstn_skipn_app, Ht3. f_equal; f_equal; lia.
  - split; [|cbn; lia]. cbn [bd_data bd_bitOffset]. replace (skipn (Z.to_nat k) B) with (skipn (Z.to_nat t3) B2); [exact HS3|]. subst B2 B1. rewrite !skipn_skipn. f_equal. lia.
Qed.

(** ** Decoding into a bitmap *)

(** [b[i] = (b[i] &^ mask) | (v & mask)] for a mask of the bits from [lo] to [hi]. *)
Lemma mask_put buf i v mask lo hi : bytes buf -> 0 <= i < len buf -> is_byte v -> is_byte mask -> 0 <= lo <= hi -> hi <= 8 -> (forall t, 0 <= t < 8 -> Z.testbit mask t = (lo <=? t) && (t <? hi)) ->
  exists buf', store buf i (Z.lor (Z.ldiff (nth (Z.to_nat i) buf 0) mask) (v & mask)) = Some buf' /\ bitsPut buf (8 * i + lo) (hi - lo) (fun t => Z.testbit v (lo + t)) buf'.
Proof.
  intros Hb Hi Hv Hmb Hlo Hhi Hm. pose proof (bytes_nth buf (Z.to_nat i) Hb) as Hob. set (x := Z.lor _ _). assert (Hx : is_byte x) by (subst x; auto with gobytes). destruct (store_put buf i x Hb Hx Hi) as (buf' & -> & HL & HB & HP). exists buf'. split; [reflexivity|]. split; [assumption|]. split; [assumption|].
  intros k Hk. rewrite HP by assumption. destruct (Z.leb_spec (8 * i) k), (Z.ltb_spec k (8 * i + 8)); cbn [andb].
  - subst x. rewrite Z.lor_spec, Z.land_spec, Z.ldiff_spec, testbit_nth, Hm by (assumption || lia). replace (8 * i + (k - 8 * i)) with k by lia. replace (lo + (k - (8 * i + lo))) with (k - 8 * i) by lia.
    destruct (Z.leb_spec lo (k - 8 * i)), (Z.ltb_spec (k - 8 * i) hi), (Z.leb_spec (8 * i + lo) k), (Z.ltb_spec k (8 * i + lo + (hi - lo))); cbn [andb negb]; try lia; rewrite ?andb_true_r, ?andb_false_r, ?orb_false_r, ?orb_false_l; reflexivity.
  - destruct (Z.leb_spec (8 * i + lo) k), (Z.ltb_spec k (8 * i + lo + (hi - lo))); cbn [andb]; try lia; reflexivity.
  - destruct (Z.leb_spec (8 * i + lo) k), (Z.ltb_spec k (8 * i + lo + (hi - lo))); cbn [andb]; try lia; reflexivity.
  - lia.
Qed.

Lemma low_mask t : 0 <= t <= 8 -> u8 (Z.shiftl 1 t - 1) = Z.ones t.
Proof. intros Ht. assert (t = 0 \/ t = 1 \/ t = 2 \/ t = 3 \/ t = 4 \/ t = 5 \/ t = 6 \/ t = 7 \/ t = 8) as Hc by lia. repeat destruct Hc as [->|Hc]; try subst t; reflexivity. Qed.

Lemma low_mask_byte t : 0 <= t <= 8 -> is_byte (Z.ones t).
Proof. intros Ht. rewrite <- low_mask by assumption. apply Z.mod_pos_bound. lia. Qed.

(** Whole bytes, then the bits of the last one. *)
Lemma alignedCopy_ok src dst k : bytes src -> bytes dst -> 0 < k -> len src = (k + 7) / 8 -> len dst = len src -> exists dst',
  (let fullBytes := Z.quot k 8 in
   d1 <- (if 0 <? fullBytes then head <- slice src 0 fullBytes ;; Some (splice dst 0 head) else Some dst) ;;
   if 0 <? Z.rem k 8 then
     lastByte <- index src fullBytes ;;
     d <- index d1 fullBytes ;;
     store d1 fullBytes (Z.lor (Z.ldiff d (u8 (Z.shiftl 1 (Z.rem k 8) - 1))) (lastByte & u8 (Z.shiftl 1 (Z.rem k 8) - 1)))
   else Some d1) = Some dst' /\ bitsPut dst 0 k (Z.testbit (leval src)) dst'.
Proof.
  intros Hs Hd Hk HL HL'. rewrite Z.quot_div_nonneg, Z.rem_mod_nonneg by lia. cbv zeta. set (f := k / 8). set (t := k mod 8). assert (HF : 0 <= f <= len src /\ k = 8 * f + t /\ 0 <= t < 8 /\ (0 < t -> f < len src)) by (subst f t; zdiv). destruct HF as (F1 & F2 & F3 & F4).
  assert (H1 : exists d1, (if 0 <? f then head <- slice src 0 f ;; Some (splice dst 0 head) else Some dst) = Some d1 /\ bitsPut dst 0 (8 * f) (Z.testbit (leval src)) d1).
  { destruct (Z.ltb_spec 0 f) as [Hf|Hf].
    - rewrite slice_ok by lia. cbn [opt_bind Z.to_nat skipn]. rewrite Z.sub_0_r. eexists. split; [reflexivity|]. assert (HLf : len (firstn (Z.to_nat f) src) = f) by (rewrite length_firstn; lia). pose proof (splice_put dst 0 (firstn (Z.to_nat f) src) Hd ltac:(auto with gobytes) ltac:(lia) ltac:(lia)) as HP. rewrite HLf in HP.
      apply (bitsPut_ext _ _ _ _ _ _ HP). intros i Hi. rewrite leval_firstn, testbit_field by (assumption || lia). rewrite Z2Nat.id, Z.add_0_l by lia. bool_lia (0 <=? i). bool_lia (i <? 8 * f). reflexivity.
    - exists dst. split; [reflexivity|]. replace f with 0 by lia. now apply bitsPut_refl. }
  destruct H1 as (d1 & -> & HP1). cbn [opt_bind]. pose proof (bitsPut_bytes _ _ _ _ _ HP1) as [HB1 HL1]. destruct (Z.ltb_spec 0 t) as [Ht|Ht].
  - rewrite (index_ok src f 0), (index_ok d1 f 0) by lia. cbn [opt_bind]. rewrite low_mask by lia. destruct (mask_put d1 f (nth (Z.to_nat f) src 0) (Z.ones t) 0 t HB1 ltac:(lia) ltac:(auto with gobytes) ltac:(apply low_mask_byte; lia) ltac:(lia) ltac:(lia)) as (d2 & -> & HP2); [intros i Hi; rewrite ones_bit by lia; bool_lia (0 <=? i); reflexivity|].
    exists d2. split; [reflexivity|]. rewrite F2. apply (bitsPut_trans _ _ _ _ _ d1); [lia|lia|assumption|]. rewrite Z.add_0_r, Z.sub_0_r in HP2. apply (bitsPut_ext _ _ _ _ _ _ HP2). intros i Hi. rewrite Z.add_0_l. now apply testbit_nth; try lia.
  - exists d1. split; [reflexivity|]. now replace k with (8 * f) by lia.
Qed.

Lemma DecodeToBitmap_ok d B n out off m : bdOk d B n -> let k := Z.min m n in rangeOk out off k ->
  if len B <? k then BD.DecodeToBitmap d out off m = Some (d, out, 0, Some ErrUnexpectedEOF)
  else exists d' out', BD.DecodeToBitmap d out off m = Some (d', out', k, None) /\ bitsPut out off k (fun i => nth (Z.to_nat i) B false) out' /\ bdOk d' (skipn (Z.to_nat k) B) (n - k).
Proof.
  intros HD k HR. pose proof HD as (HS & Hn & Hn0). pose proof HR as (Hob & Ho & Hk0 & Hfit & Hmx). unfold BD.DecodeToBitmap. rewrite Hn. fold k. destruct (Z.eqb_spec k 0) as [H0|Hne].
  { rewrite H0. destruct (Z.ltb_spec (len B) 0); [lia|]. exists d, out. cbn [Z.to_nat skipn]. rewrite Z.sub_0_r. split; [reflexivity|]. split; [now apply bitsPut_refl|assumption]. }
  rewrite (ensureBits_ok d B n k HD). destruct (Z.ltb_spec (len B) k) as [Hlt|Hge]; [reflexivity|]. pose proof (stands_skip _ _ _ k HS ltac:(lia)) as HS'. pose proof (stands_len _ _ _ HS) as HLB. pose proof HS as (Hb & Hbo & Hle & HBe & Hmb).
  assert (HBit : forall i, 0 <= i < k -> Z.testbit (leval (bd_data d)) (bd_bitOffset d + i) = nth (Z.to_nat i) B false) by (intros i Hi; rewrite HBe; symmetry; apply nth_bitList; lia).
  destruct ((bd_bitOffset d =? 0) && (Z.rem off 8 =? 0)) eqn:E.
  - apply andb_true_iff in E as [E1%Z.eqb_eq E2%Z.eqb_eq]. rewrite Z.rem_mod_nonneg in E2 by lia. rewrite E1 in *. rewrite BytesForBits_div by lia. set (nb := (k + 7) / 8). set (base := Z.quot off 8). assert (HF : 0 <= base /\ off = 8 * base /\ 0 < nb <= len (bd_data d) /\ base + nb <= len out /\ k <= 8 * nb) by (subst nb base; zdiv). destruct HF as (F1 & F2 & F3 & F4 & F5).
    rewrite slice_ok by lia. cbn [opt_bind Z.to_nat skipn]. rewrite Z.sub_0_r, slice_ok by lia. cbn [opt_bind]. replace (base + nb - base) with nb by lia. set (src := firstn (Z.to_nat nb) (bd_data d)). set (dst := firstn _ (skipn _ out)).
    assert (HLs : len src = nb) by (subst src; rewrite length_firstn; lia). assert (HLd : len dst = nb) by (subst dst; rewrite length_firstn, length_skipn; lia). destruct (alignedCopy_ok src dst k) as (dst' & HE & HP); [subst src; auto with gobytes|subst dst; auto with gobytes|lia|exact HLs|lia|].
    cbv zeta in HE. destruct (if 0 <? Z.quot k 8 then _ else Some dst) as [d1|]; [|discriminate HE]. cbn [opt_bind] in HE |- *. rewrite HE. cbn [opt_bind]. rewrite Z.quot_div_nonneg, Z.rem_mod_nonneg by lia. rewrite slice_from by (subst nb; zdiv). cbn [opt_bind].
    eexists _, _. split; [reflexivity|]. split; [|split; [rewrite Z.add_0_l in HS'; exact HS'|cbn; lia]]. rewrite F2, <- (Z.add_0_r (8 * base)). apply (bitsPut_window _ base nb); [assumption|lia..|]. fold dst. apply (bitsPut_ext _ _ _ _ _ _ HP). intros i Hi. rewrite <- HBit by assumption. subst src. rewrite leval_firstn, testbit_field by (assumption || lia). rewrite Z2Nat.id by lia. bool_lia (0 <=? i). replace (i <? 8 * nb) with true by (symmetry; apply Z.ltb_lt; lia). reflexivity.
  - destruct (transferBitmap_ok transferCopy (bd_data d) (bd_bitOffset d) k out off) as (out' & HE & HP); [red; splits; auto; lia|assumption|]. unfold CopyBitmap. rewrite HE. cbn [opt_bind]. rewrite Z.quot_div_nonneg, Z.rem_mod_nonneg by lia. rewrite slice_from by zdiv. cbn [opt_bind].
    eexists _, _. split; [reflexivity|]. split; [|split; [exact HS'|cbn; lia]]. apply (bitsPut_ext _ _ _ _ _ _ HP). intros i Hi. cbn [inverted]. rewrite HBit by assumption. now destruct (nth _ _ _).
Qed.
