(* ===== verification/BooleanSpaced.v ===== *)
(** * Boolean decoding with nulls

    Moving bits within one bitmap, whichever way the ranges overlap, and the two ways of spreading
    the decoded bits over the valid slots. *)

From Stdlib Require Import ZArith List Lia Bool.
From S2P Require Import Prelude BitUtil BitRuns BitBlocks Memory Spaced Bitmaps BitmapOps BitmapsOk BitmapOpsOk Booleans BooleansOk BooleanDecode.
Import ListNotations.
#[local] Open Scope Z_scope.
#[local] Open Scope go_scope.

(** ** Booleans *)

Section Decoder.
(** A decoder [d] in front of the bits [B], of which [n] are values; [has] says so of any decoder. *)
Context {D : Type}.
Variables (has : D -> list bool -> Z -> Prop) (d : D) (B : list bool) (n : Z).
Hypothesis (Hn0 : 0 <= n).

(** What [Decode] and [DecodeToBitmap] do. *)
Definition decodesBools (decode : D -> list bool -> option (D * list bool * Z * option goerr)) : Prop := forall out, let k := Z.min (len out) n in
  if len B <? k then decode d out = Some (d, out, 0, Some ErrUnexpectedEOF)
  else exists d', decode d out = Some (d', firstn (Z.to_nat k) B ++ skipn (Z.to_nat k) out, k, None) /\ has d' (skipn (Z.to_nat k) B) (n - k).

Definition decodesBits (decode : D -> list Z -> Z -> Z -> option (D * list Z * Z * option goerr)) : Prop := forall out off m, let k := Z.min m n in rangeOk out off k -> 8 * len out < 2 ^ 63 ->
  if len B <? k then decode d out off m = Some (d, out, 0, Some ErrUnexpectedEOF)
  else exists d' out', decode d out off m = Some (d', out', k, None) /\ bitsPut out off k (fun i => nth (Z.to_nat i) B false) out' /\ has d' (skipn (Z.to_nat k) B) (n - k).

(** [DecodeSpaced]: the error of a short page, the error of a short count, or the values at the
    valid slots. *)
Lemma spacedDecode_ok decode mm out bits off : decodesBools decode -> bitsOk bits off (len out) ->
  let k := countIf (validAt bits off) (List.length out) in let nulls := len out - k in
  if len B <? Z.min k n then spacedDecode decode mm d out nulls bits off = Some (d, out, 0, Some ErrUnexpectedEOF)
  else if n <? k then exists d' out', spacedDecode decode mm d out nulls bits off = Some (d', out', n, if 0 <? nulls then Some mm else None) /\ has d' (skipn (Z.to_nat n) B) 0
  else exists d' out', spacedDecode decode mm d out nulls bits off = Some (d', out', len out, None) /\ List.length out' = List.length out /\ compress (validAt bits off) 0 out' = firstn (Z.to_nat k) B /\ has d' (skipn (Z.to_nat k) B) (n - k).
Proof.
  intros HD HB k nulls. pose proof (countIf_bound (validAt bits off) (List.length out)) as Hk. fold k in Hk. unfold spacedDecode. destruct (Z.ltb_spec 0 nulls) as [Hnu|Hnu].
  - replace (len out - nulls) with k by lia. rewrite slice_ok by lia. cbn [opt_bind Z.to_nat skipn]. rewrite Z.sub_0_r. set (part := firstn _ out). assert (HLp : len part = k) by (subst part; rewrite length_firstn; lia). pose proof (HD part) as HDec. cbv zeta in HDec. rewrite HLp in HDec.
    destruct (Z.ltb_spec (len B) (Z.min k n)) as [Hlt|Hge].
    + rewrite HDec. cbn [opt_bind]. subst part. rewrite splice_in by (rewrite length_firstn; lia). cbn [firstn app Nat.add]. rewrite length_firstn, Nat.min_l, firstn_skipn by lia. reflexivity.
    + destruct HDec as (d' & -> & HD'). cbn [opt_bind]. destruct (Z.ltb_spec n k) as [Hnk|Hnk].
      * rewrite Z.min_r in * by lia. replace (n =? k) with false by (symmetry; apply Z.eqb_neq; lia). cbn [negb]. eexists _, _. split; [reflexivity|]. now rewrite Z.sub_diag in HD'.
      * rewrite Z.min_l in * by lia. rewrite Z.eqb_refl. cbn [negb]. rewrite (skipn_all2 part) by lia. rewrite app_nil_r. set (buf := splice out 0 (firstn (Z.to_nat k) B)). assert (HLf : List.length (firstn (Z.to_nat k) B) = Z.to_nat k) by (rewrite length_firstn; lia). assert (HLb : List.length buf = List.length out) by (subst buf; apply length_splice; lia).
        pose proof (spacedExpand_ok buf bits off) as HE. rewrite HLb in HE. destruct (HE HB) as (out' & HX & HL' & HC). fold k in HX. rewrite HLb in HC, HL'. fold k in HC. fold nulls in HX. rewrite HX. cbn [opt_bind fst snd]. exists d', out'. split; [reflexivity|]. split; [assumption|]. split; [|assumption]. rewrite HC. subst buf. rewrite splice_in by lia. cbn [firstn app]. now rewrite firstn_app_exact.
  - assert (Hfull : k = len out) by lia. pose proof (HD out) as HDec. cbv zeta in HDec. rewrite <- Hfull in HDec. destruct (Z.ltb_spec (len B) (Z.min k n)) as [Hlt|Hge]; [exact HDec|]. destruct HDec as (d' & -> & HD'). destruct (Z.ltb_spec n k) as [Hnk|Hnk]; [rewrite Z.min_r in * by lia; rewrite Z.sub_diag in HD'; eauto|]. rewrite Z.min_l in * by lia. eexists _, _. split; [rewrite <- Hfull; reflexivity|]. rewrite (skipn_all2 out), app_nil_r by lia.
    assert (HLf : List.length (firstn (Z.to_nat k) B) = List.length out) by (rewrite length_firstn; lia). split; [assumption|]. split; [|assumption]. apply compress_all. rewrite HLf. intros i Hi. apply (countIf_full _ _ Hfull). lia.
Qed.

End Decoder.

(** ** Moving bits within a bitmap *)

(** A short run read from one or two bytes. *)
Lemma chunk_value b b1 s n i : is_byte b -> is_byte b1 -> 0 <= s < 8 -> 0 < n <= 8 -> 0 <= i < n ->
  Z.testbit ((if 8 <? s + n then Z.lor (b >> s) (u16 (Z.shiftl b1 (8 - s))) else b >> s) & u16 (u16 (Z.shiftl 1 n) - 1)) i = if s + i <? 8 then Z.testbit b (s + i) else Z.testbit b1 (s + i - 8).
Proof.
  intros Hb Hb1 Hs Hn Hi. assert (HM : u16 (u16 (Z.shiftl 1 n) - 1) = Z.ones n) by (assert (n = 1 \/ n = 2 \/ n = 3 \/ n = 4 \/ n = 5 \/ n = 6 \/ n = 7 \/ n = 8) as Hc by lia; repeat destruct Hc as [->|Hc]; try subst n; reflexivity). rewrite HM, Z.land_spec, ones_bit by lia. bool_lia (i <? n). rewrite andb_true_r.
  assert (H1 : Z.testbit (b >> s) i = if s + i <? 8 then Z.testbit b (s + i) else false) by (rewrite Z.shiftr_spec by lia; replace (i + s) with (s + i) by lia; destruct (Z.ltb_spec (s + i) 8); [reflexivity|now apply byte_high]). destruct (Z.ltb_spec 8 (s + n)) as [H8|H8].
  - rewrite Z.lor_spec, H1. unfold u16. rewrite Z.mod_pow2_bits_low, Z.shiftl_spec by lia. destruct (Z.ltb_spec (s + i) 8); [rewrite (Z.testbit_neg_r b1) by lia; apply orb_false_r|]. rewrite orb_false_l. f_equal. lia.
  - rewrite H1. destruct (Z.ltb_spec (s + i) 8); [reflexivity|lia].
Qed.

Lemma value_byte v i n : 0 <= n -> n + i < 8 -> 0 <= i -> Z.testbit (u8 (Z.shiftl (u8 v) n)) (n + i) = Z.testbit v i.
Proof. intros Hn Hi Hi0. rewrite testbit_u8, Z.shiftl_spec by lia. replace (n + i - n) with i by lia. apply testbit_u8. lia. Qed.

Lemma chunk_mask first dstBit t : 0 <= dstBit -> 0 < first -> first + dstBit <= 8 -> 0 <= t < 8 -> Z.testbit (u8 (Z.shiftl (u8 (Z.shiftl 1 first - 1)) dstBit)) t = (dstBit <=? t) && (t <? dstBit + first).
Proof.
  intros Hd Hf Hfit Ht. rewrite low_mask, testbit_u8, Z.shiftl_spec by lia. destruct (Z.leb_spec dstBit t) as [Hle|Hgt]; cbn [andb]; [|apply Z.testbit_neg_r; lia]. rewrite ones_bit by lia. destruct (Z.ltb_spec (t - dstBit) first), (Z.ltb_spec t (dstBit + first)); (reflexivity || lia).
Qed.

Lemma chunk_ok buf src dst n : bytes buf -> 0 <= src -> 0 <= dst -> 0 < n <= 8 -> src + n <= 8 * len buf -> dst + n <= 8 * len buf ->
  exists buf', copyBitmapChunk buf src dst n = Some buf' /\ bitsPut buf dst n (fun i => Z.testbit (leval buf) (src + i)) buf'.
Proof.
  intros Hb Hs Hd Hn Hsl Hdl. unfold copyBitmapChunk. rewrite !Z.quot_div_nonneg, !Z.rem_mod_nonneg by lia. set (sB := src / 8). set (sb := src mod 8). set (dB := dst / 8). set (db := dst mod 8).
  assert (HF : 0 <= sB < len buf /\ 0 <= dB < len buf /\ src = 8 * sB + sb /\ dst = 8 * dB + db /\ 0 <= sb < 8 /\ 0 <= db < 8) by (subst sB sb dB db; zdiv). destruct HF as (F1 & F2 & F3 & F4 & F5 & F6). rewrite (index_ok buf sB 0) by lia. cbn [opt_bind]. cbv zeta.
  set (b := nth (Z.to_nat sB) buf 0). set (b1 := nth (Z.to_nat (sB + 1)) buf 0). assert (HV : (if 8 <? sb + n then b1 <- index buf (sB + 1) ;; Some (Z.lor (b >> sb) (u16 (Z.shiftl b1 (8 - sb)))) else Some (b >> sb)) = Some (if 8 <? sb + n then Z.lor (b >> sb) (u16 (Z.shiftl b1 (8 - sb))) else b >> sb)).
  { destruct (Z.ltb_spec 8 (sb + n)); [|reflexivity]. rewrite (index_ok buf (sB + 1) 0) by lia. reflexivity. }
  rewrite HV. cbn [opt_bind]. set (v := _ & u16 (u16 (Z.shiftl 1 n) - 1)). assert (Hv : forall i, 0 <= i < n -> Z.testbit v i = Z.testbit (leval buf) (src + i)).
  { intros i Hi. subst v. rewrite chunk_value by (subst b b1; auto with gobytes; lia). subst b b1. destruct (Z.ltb_spec (sb + i) 8); rewrite testbit_nth by (assumption || lia); f_equal; lia. }
  clearbody v. clear HV. set (first := Z.min n (8 - db)). assert (Hf : 0 < first <= n /\ first + db <= 8) by (subst first; lia). rewrite (index_ok buf dB 0) by lia. cbn [opt_bind].
  destruct (mask_put buf dB (u8 (Z.shiftl (u8 v) db)) (u8 (Z.shiftl (u8 (Z.shiftl 1 first - 1)) db)) db (db + first) Hb F2 ltac:(apply Z.mod_pos_bound; lia) ltac:(apply Z.mod_pos_bound; lia) ltac:(lia) ltac:(lia)) as (buf1 & -> & HP1); [intros t Ht; apply chunk_mask; lia|]. cbn [opt_bind].
  replace (8 * dB + db) with dst in HP1 by lia. replace (db + first - db) with first in HP1 by lia. apply bitsPut_ext with (g := fun i => Z.testbit (leval buf) (src + i)) in HP1; [|intros i Hi; rewrite value_byte by lia; apply Hv; lia].
  destruct (Z.ltb_spec first n) as [Hlt|Hge]; [|exists buf1; split; [reflexivity|]; now replace n with first by lia].
  pose proof (bitsPut_bytes _ _ _ _ _ HP1) as [HB1 HL1]. assert (Hfd : first + db = 8) by (subst first; lia). rewrite (index_ok buf1 (dB + 1) 0) by lia. cbn [opt_bind]. rewrite low_mask by lia.
  destruct (mask_put buf1 (dB + 1) (u8 (v >> first)) (Z.ones (n - first)) 0 (n - first) HB1 ltac:(lia) ltac:(apply Z.mod_pos_bound; lia) ltac:(apply low_mask_byte; lia) ltac:(lia) ltac:(lia)) as (buf2 & -> & HP2); [intros t Ht; rewrite ones_bit by lia; bool_lia (0 <=? t); reflexivity|].
  exists buf2. split; [reflexivity|]. replace n with (first + (n - first)) by lia. apply (bitsPut_trans _ _ _ _ _ buf1); [lia|lia|assumption|]. replace (dst + first) with (8 * (dB + 1) + 0) by lia. rewrite Z.sub_0_r in HP2. replace (first + (n - first) - first) with (n - first) by lia. apply (bitsPut_ext _ _ _ _ _ _ HP2). intros i Hi. rewrite Z.add_0_l, testbit_u8, Z.shiftr_spec by lia. rewrite Hv by lia. f_equal. lia.
Qed.

(** Outside of a range that was written, a bitmap is as before. *)
Lemma bitsPut_out buf pos n f buf' j : bitsPut buf pos n f buf' -> 0 <= j -> j < pos \/ pos + n <= j -> Z.testbit (leval buf') j = Z.testbit (leval buf) j.
Proof. intros (_ & _ & HT) Hj H. rewrite HT by assumption. destruct (Z.leb_spec pos j), (Z.ltb_spec j (pos + n)); cbn [andb]; (reflexivity || lia). Qed.

(** A range written after the one behind it. *)
Lemma bitsPut_before buf pos n m f buf1 buf2 : 0 <= n -> 0 <= m -> bitsPut buf (pos + n) m (fun i => f (n + i)) buf1 -> bitsPut buf1 pos n f buf2 -> bitsPut buf pos (n + m) f buf2.
Proof.
  intros Hn Hm (L1 & B1 & T1) (L2 & B2 & T2). split; [congruence|]. split; [assumption|]. intros j Hj. rewrite T2, T1 by assumption.
  destruct (Z.leb_spec pos j), (Z.ltb_spec j (pos + (n + m))), (Z.leb_spec (pos + n) j), (Z.ltb_spec j (pos + n + m)), (Z.ltb_spec j (pos + n)); cbn [andb]; try reflexivity; try lia. f_equal. lia.
Qed.

Section Move.
Variables (buf : list Z) (src dst n : Z).
Hypothesis (Hb : bytes buf) (Hs : 0 <= src) (Hd : 0 <= dst) (Hsl : src + n <= 8 * len buf) (Hdl : dst + n <= 8 * len buf).

Let moved (i : Z) : bool := Z.testbit (leval buf) (src + i).

Lemma forward_ok : dst < src -> forall fuel c cur, 0 <= c <= n -> n - c < Z.of_nat fuel -> bitsPut buf dst c moved cur -> exists buf', copyForward fuel cur src dst n c = Some buf' /\ bitsPut buf dst n moved buf'.
Proof.
  intros Hlt. induction fuel as [|fuel IH]; intros c cur Hc Hf HP; [lia|]. cbn [copyForward]. destruct (Z.ltb_spec c n) as [Hcn|Hcn]; [|exists cur; split; [reflexivity|]; now replace n with c by lia].
  set (m := Z.min (n - c) 8). assert (Hm : 0 < m <= 8 /\ c + m <= n) by (subst m; lia). pose proof (bitsPut_bytes _ _ _ _ _ HP) as [HB HL]. destruct (chunk_ok cur (src + c) (dst + c) m HB) as (b1 & -> & HP1); [lia..|]. cbn [opt_bind]. apply IH; [lia|lia|]. apply (bitsPut_trans _ _ _ _ _ cur); [lia|lia|assumption|].
  apply (bitsPut_ext _ _ _ _ _ _ HP1). intros i Hi. rewrite (bitsPut_out _ _ _ _ _ _ HP) by lia. unfold moved. f_equal. lia.
Qed.

Lemma backward_ok : src < dst -> forall fuel c cur, 0 <= c <= n -> c < Z.of_nat fuel -> bitsPut buf (dst + c) (n - c) (fun i => moved (c + i)) cur -> exists buf', copyBackward fuel cur src dst c = Some buf' /\ bitsPut buf dst n moved buf'.
Proof.
  intros Hlt. induction fuel as [|fuel IH]; intros c cur Hc Hf HP; [lia|]. cbn [copyBackward]. destruct (Z.ltb_spec 0 c) as [Hcn|Hcn].
  2:{ exists cur. split; [reflexivity|]. replace c with 0 in HP by lia. rewrite Z.add_0_r, Z.sub_0_r in HP. exact HP. }
  set (m := Z.min c 8). assert (Hm : 0 < m <= 8 /\ m <= c) by (subst m; lia). pose proof (bitsPut_bytes _ _ _ _ _ HP) as [HB HL]. destruct (chunk_ok cur (src + (c - m)) (dst + (c - m)) m HB) as (b1 & -> & HP1); [lia..|]. cbn [opt_bind]. apply IH; [lia|lia|]. replace (n - (c - m)) with (m + (n - c)) by lia. apply (bitsPut_before _ _ _ _ _ cur); [lia|lia| |].
  - replace (dst + (c - m) + m) with (dst + c) by lia. apply (bitsPut_ext _ _ _ _ _ _ HP). intros i Hi. f_equal. lia.
  - apply (bitsPut_ext _ _ _ _ _ _ HP1). intros i Hi. rewrite (bitsPut_out _ _ _ _ _ _ HP) by lia. unfold moved. f_equal. lia.
Qed.

(** The bits arrive as they were, also where the ranges overlap. *)
Lemma within_ok : 0 <= n -> exists buf', copyBitmapWithinBuffer buf src dst n = Some buf' /\ bitsPut buf dst n (fun i => Z.testbit (leval buf) (src + i)) buf'.
Proof.
  intros Hn. unfold copyBitmapWithinBuffer. destruct (Z.eqb_spec n 0) as [H0|H0]; cbn [orb]; [exists buf; split; [reflexivity|]; rewrite H0; now apply bitsPut_refl|]. destruct (Z.eqb_spec src dst) as [He|He].
  - exists buf. split; [reflexivity|]. split; [reflexivity|]. split; [assumption|]. intros j Hj. destruct (_ && _); [f_equal; lia|reflexivity].
  - destruct (Z.ltb_spec dst src) as [Hlt|Hge]; [apply forward_ok; [lia|lia|lia|now apply bitsPut_refl]|]. apply backward_ok; [lia|lia|lia|]. rewrite Z.sub_diag. now apply bitsPut_refl.
Qed.

End Move.

(** ** Spreading the values over the valid slots *)

Lemma countIf_false g a n : (forall i, 0 <= i < Z.of_nat n -> g (a + i) = false) -> countIf (fun i => g (a + i)) n = 0.
Proof. intros H. rewrite (countIf_ext _ (fun _ => false)) by assumption. unfold countIf. generalize (seq 0 n). now intros l; induction l. Qed.

Lemma countIf_true g a n : (forall i, 0 <= i < Z.of_nat n -> g (a + i) = true) -> countIf (fun i => g (a + i)) n = Z.of_nat n.
Proof. intros H. rewrite (countIf_ext _ (fun _ => true)) by assumption. now apply countIf_all. Qed.

Lemma countIf_to g c p : 0 <= c <= p -> countIf g (Z.to_nat p) = countIf g (Z.to_nat c) + countIf (fun i => g (c + i)) (Z.to_nat (p - c)).
Proof. intros H. replace (Z.to_nat p) with (Z.to_nat c + Z.to_nat (p - c))%nat by lia. rewrite countIf_app. now rewrite Z2Nat.id by lia. Qed.

Section Spread.
(** [orig] is the bitmap before, [N] slots from [off] on; [V] the decoded values. *)
Variables (orig bits : list Z) (off boff N : Z) (V : list bool).
Let g := validAt bits boff.
Let nulls := N - len V.
Hypothesis (HV : countIf g (Z.to_nat N) = len V) (Ho : 0 <= off) (HN : 0 <= N) (Hfit : off + N <= 8 * len orig) (Hmx : 8 * len orig < 2 ^ 63) (Hbits : bitsOk bits boff N) (Hbm : 8 * len bits < 2 ^ 63).

(** The slots up to [c] have their values; the others are still behind the nulls. *)
Definition spreadTo (c : Z) (out : list Z) (j : Z) : Prop :=
  List.length out = List.length orig /\ bytes out /\ 0 <= c <= N /\ j = countIf g (Z.to_nat c) /\ (forall i, 0 <= i -> i < off \/ off + N <= i -> Z.testbit (leval out) i = Z.testbit (leval orig) i) /\
  (forall t, j <= t < len V -> Z.testbit (leval out) (off + nulls + t) = nth (Z.to_nat t) V false) /\ compress g 0 (bitList out off c) = firstn (Z.to_nat j) V.

Lemma spread_room c out j : spreadTo c out j -> 0 <= j <= len V /\ 0 <= j <= c /\ c - j <= nulls /\ 0 <= nulls.
Proof. intros (_ & _ & Hc & Hj & _). pose proof (countIf_to g c N Hc) as HE. pose proof (countIf_bound g (Z.to_nat c)). pose proof (countIf_bound (fun i => g (c + i)) (Z.to_nat (N - c))). subst nulls. lia. Qed.

Lemma spread_gap c p out j : spreadTo c out j -> c <= p <= N -> (forall i, c <= i < p -> g i = false) -> spreadTo p out j.
Proof.
  intros (HL & HB & Hc & Hj & HOut & HT & HC) Hp Hz. red. splits; auto; try lia.
  - rewrite (countIf_to g c p), countIf_false by (lia || (intros; apply Hz; lia)). lia.
  - replace p with (c + (p - c)) by lia. rewrite bitList_app, compress_app, length_bitList, HC by lia. rewrite compress_none; [apply app_nil_r|]. rewrite length_bitList by lia. intros i Hi. apply Hz. lia.
Qed.

Lemma spread_run p n out j out' : spreadTo p out j -> 0 < n -> p + n <= N -> (forall i, p <= i < p + n -> g i = true) -> bitsPut out (off + p) n (fun i => Z.testbit (leval out) (off + nulls + j + i)) out' -> spreadTo (p + n) out' (j + n).
Proof.
  intros HS Hn Hp Ho1 HP. pose proof (spread_room _ _ _ HS) as (R1 & R2 & R3 & R4). pose proof HS as (HL & HB & Hc & Hj & HOut & HT & HC). pose proof (bitsPut_bytes _ _ _ _ _ HP) as [HB' HL'].
  assert (Hcnt : j + n = countIf g (Z.to_nat (p + n))) by (rewrite (countIf_to g p (p + n)), countIf_true by (lia || (intros; apply Ho1; lia)); lia).
  assert (Hjn : j + n <= len V) by (pose proof (countIf_to g (p + n) N ltac:(lia)); pose proof (countIf_bound (fun i => g (p + n + i)) (Z.to_nat (N - (p + n)))); lia). red. splits; auto; try lia.
  - intros i Hi Hi'. rewrite (bitsPut_out _ _ _ _ _ _ HP) by lia. now apply HOut.
  - intros t Ht. rewrite (bitsPut_out _ _ _ _ _ _ HP) by lia. apply HT. lia.
  - rewrite bitList_app, compress_app, length_bitList, (compress_all g (0 + p)) by (try lia; rewrite length_bitList by lia; intros i Hi; apply Ho1; lia). replace (bitList out' off p) with (bitList out off p).
    2:{ apply bitList_ext; [apply length_bitList; lia|]. intros i Hi. rewrite nth_bitList by assumption. symmetry. apply (bitsPut_out _ _ _ _ _ _ HP); lia. }
    rewrite HC. replace (Z.to_nat (j + n)) with (Z.to_nat j + Z.to_nat n)%nat by lia. rewrite <- firstn_skipn_app. f_equal. symmetry. apply bitList_ext; [rewrite length_firstn, length_skipn; lia|]. intros i Hi. rewrite (bitsPut_at _ _ _ _ _ i HP) by lia. rewrite nth_firstn, nth_skipn. replace (Z.to_nat i <? Z.to_nat n)%nat with true by (symmetry; apply Nat.ltb_lt; lia).
    replace (off + nulls + j + i) with (off + nulls + (j + i)) by lia. rewrite HT by lia. f_equal. lia.
Qed.

(** Run by run. *)
Lemma spread_runs c rs : maxRuns g N c rs -> forall out j, spreadTo c out j -> exists out' j', visitAll (expandRun off nulls) rs (out, j) = Some (out', j', None) /\ spreadTo N out' j'.
Proof.
  induction 1 as [c Hz|c p e rs Hp He Hz H1 Hend HM IH]; intros out j HS; cbn [visitAll].
  - exists out, j. split; [reflexivity|]. destruct HS as (HL & HB & Hc & HS). apply (spread_gap c); [red; splits; tauto|lia|assumption].
  - apply (spread_gap c p) in HS; [|lia|assumption]. pose proof (spread_room _ _ _ HS) as (R1 & R2 & R3 & R4). pose proof HS as (HL & HB & _ & Hj & _). unfold expandRun at 1.
    assert (Hje : j + (e - p) <= len V) by (pose proof (countIf_to g p e ltac:(lia)) as E1; rewrite countIf_true in E1 by (intros; apply H1; lia); pose proof (countIf_to g e N ltac:(lia)); pose proof (countIf_bound (fun i => g (e + i)) (Z.to_nat (N - e))); lia).
    destruct (within_ok out (off + nulls + j) (off + p) (e - p) HB) as (out1 & -> & HP); [unfold nulls in *; lia..|]. cbn [opt_bind]. apply IH. replace e with (p + (e - p)) at 1 by lia. apply (spread_run p (e - p) out); auto; try lia. intros i Hi. apply H1. lia.
Qed.

(** Bit by bit. *)
Lemma perBit_ok c out j : spreadTo c out j -> c < N -> exists out' j', perBitStep off (off + nulls) bits boff c (out, j) = Some (out', j') /\ spreadTo (c + 1) out' j'.
Proof.
  intros HS Hc. pose proof (spread_room _ _ _ HS) as (R1 & R2 & R3 & R4). pose proof HS as (HL & HB & Hc0 & Hj & _). destruct Hbits as (Hbb & Hbo & Hbl). unfold perBitStep.
  rewrite BitIsSet_ok by (try split; auto; lia). cbn [opt_bind]. change (Z.testbit (leval bits) (boff + c)) with (g c). destruct (g c) eqn:E.
  - assert (Hj1 : j + 1 <= len V) by (pose proof (countIf_to g c (c + 1) ltac:(lia)) as E1; rewrite countIf_true in E1 by (intros i Hi; replace (c + i) with c by lia; assumption); pose proof (countIf_to g (c + 1) N ltac:(lia)); pose proof (countIf_bound (fun i => g (c + 1 + i)) (Z.to_nat (N - (c + 1)))); lia).
    rewrite BitIsSet_ok by (try split; auto; unfold nulls in *; lia). cbn [opt_bind]. destruct (SetBitTo_ok out (off + c) ltac:(split; [assumption|lia]) ltac:(lia) (Z.testbit (leval out) (off + nulls + j))) as (out1 & -> & H1 & H2 & H3). cbn [opt_bind]. exists out1, (j + 1). split; [reflexivity|].
    apply (spread_run c 1 out); auto; try lia; [intros i Hi; now replace i with c by lia|]. split; [assumption|]. split; [assumption|]. intros i Hi. rewrite H3 by assumption. destruct (Z.eqb_spec i (off + c)), (Z.leb_spec (off + c) i), (Z.ltb_spec i (off + c + 1)); cbn [andb]; try lia; [f_equal; lia|reflexivity..].
  - exists out, j. split; [reflexivity|]. apply (spread_gap c); [assumption|lia|]. intros i Hi. now replace i with c by lia.
Qed.

End Spread.

(** What the caller gets: the values at the valid slots of the range, and nothing outside of it. *)
Definition spreadOver (orig bits : list Z) (off boff N : Z) (V : list bool) (out : list Z) : Prop :=
  List.length out = List.length orig /\ bytes out /\ (forall i, 0 <= i -> i < off \/ off + N <= i -> Z.testbit (leval out) i = Z.testbit (leval orig) i) /\ compress (validAt bits boff) 0 (bitList out off N) = V.

Lemma spreadTo_all orig bits off boff N V out j : countIf (validAt bits boff) (Z.to_nat N) = len V -> spreadTo orig bits off boff N V N out j -> spreadOver orig bits off boff N V out.
Proof. intros HV (HL & HB & HN & Hj & HO & _ & HC). red. splits; auto. rewrite HC. apply firstn_all2. lia. Qed.

Lemma perBits_ok orig bits off boff N V : countIf (validAt bits boff) (Z.to_nat N) = len V -> 0 <= off -> 0 <= N -> off + N <= 8 * len orig -> 8 * len orig < 2 ^ 63 -> bitsOk bits boff N -> 8 * len bits < 2 ^ 63 ->
  forall m c out j, c + Z.of_nat m = N -> spreadTo orig bits off boff N V c out j -> exists out' j', for_up m c (perBitStep off (off + (N - len V)) bits boff) (out, j) = Some (out', j') /\ spreadTo orig bits off boff N V N out' j'.
Proof.
  intros HV Ho HN Hfit Hmx Hbits Hbm. induction m as [|m IH]; intros c out j Hc HS; cbn [for_up].
  - exists out, j. split; [reflexivity|]. now replace c with N in HS by lia.
  - destruct (perBit_ok orig bits off boff N V HV Ho HN Hfit Hmx Hbits Hbm c out j HS ltac:(lia)) as (out1 & j1 & -> & HS1). cbn [opt_bind]. apply IH; [lia|assumption].
Qed.

(** Before the first slot the values stand behind the nulls. *)
Lemma spread_start orig bits off boff N V out : countIf (validAt bits boff) (Z.to_nat N) = len V -> 0 <= off -> len V <= N -> bitsPut orig (off + (N - len V)) (len V) (fun i => nth (Z.to_nat i) V false) out -> spreadTo orig bits off boff N V 0 out 0.
Proof.
  intros HV Ho HN HP. pose proof (bitsPut_bytes _ _ _ _ _ HP) as [HB HL]. red. splits; auto; try lia; try reflexivity.
  - intros i Hi Hi'. apply (bitsPut_out _ _ _ _ _ _ HP); lia.
  - intros t Ht. rewrite (bitsPut_at _ _ _ _ _ t HP) by lia. reflexivity.
Qed.

Lemma decodeSpacedToBitmap_ok {D} (has : D -> list bool -> Z -> Prop) decode d B n out off N bits boff : 0 <= n -> decodesBits has d B n decode -> rangeOk out off N -> 8 * len out < 2 ^ 63 -> bitsOk bits boff N -> 8 * len bits < 2 ^ 63 ->
  let k := countIf (validAt bits boff) (Z.to_nat N) in let nulls := N - k in
  if len B <? Z.min k n then decodeSpacedToBitmap decode d out off N nulls bits boff = Some (d, out, 0, Some ErrUnexpectedEOF)
  else if n <? k then exists d' out', decodeSpacedToBitmap decode d out off N nulls bits boff = Some (d', out', n, if 0 <? nulls then Some BD.mismatch else None) /\ has d' (skipn (Z.to_nat n) B) 0
  else exists d' out', decodeSpacedToBitmap decode d out off N nulls bits boff = Some (d', out', N, None) /\ spreadOver out bits off boff N (firstn (Z.to_nat k) B) out' /\ has d' (skipn (Z.to_nat k) B) (n - k).
Proof.
  intros Hn0 HD HR Hmx Hbits Hbm k nulls. pose proof HR as (Hob & Ho & HN & Hfit & Hmr). pose proof (countIf_bound (validAt bits boff) (Z.to_nat N)) as Hk. fold k in Hk. unfold decodeSpacedToBitmap.
  pose proof (HD out (off + nulls) k) as HDec. cbv zeta in HDec. specialize (HDec ltac:(red; splits; auto; subst nulls; lia) Hmx). destruct (Z.eqb_spec nulls 0) as [H0|H0].
  - rewrite H0, Z.add_0_r in HDec. replace (decode d out off N) with (decode d out off k) by (f_equal; lia). destruct (Z.ltb_spec (len B) (Z.min k n)); [exact HDec|]. destruct HDec as (d' & out' & -> & HP & HD'). destruct (Z.ltb_spec n k) as [Hnk|Hnk]; [rewrite Z.min_r in * by lia; rewrite Z.sub_diag in HD'; rewrite H0; cbn [Z.ltb Z.compare]; eauto|]. rewrite Z.min_l in * by lia. exists d', out'. split; [do 3 f_equal; lia|]. split; [|assumption]. pose proof (bitsPut_bytes _ _ _ _ _ HP) as [HB' HL'].
    red. splits; auto; [intros i Hi Hi'; apply (bitsPut_out _ _ _ _ _ _ HP); lia|]. rewrite compress_all.
    + symmetry. apply bitList_ext; [rewrite length_firstn; lia|]. intros i Hi. rewrite nth_firstn. replace (Z.to_nat i <? Z.to_nat k)%nat with true by (symmetry; apply Nat.ltb_lt; lia). symmetry. apply (bitsPut_at _ _ _ _ _ i HP); lia.
    + rewrite length_bitList by lia. intros i Hi. apply (countIf_full (validAt bits boff) (Z.to_nat N)); fold k; lia.
  - replace (N - nulls) with k by (subst nulls; lia). destruct (Z.ltb_spec (len B) (Z.min k n)); [now rewrite HDec|]. destruct HDec as (d' & out1 & -> & HP & HD'). cbn [opt_bind]. replace (0 <? nulls) with true by (symmetry; apply Z.ltb_lt; subst nulls; lia). destruct (Z.ltb_spec n k) as [Hnk|Hnk].
    + rewrite Z.min_r in * by lia. replace (n =? k) with false by (symmetry; apply Z.eqb_neq; lia). cbn [negb]. eexists _, _. split; [reflexivity|]. now rewrite Z.sub_diag in HD'.
    + rewrite Z.min_l in * by lia. rewrite Z.eqb_refl. cbn [negb]. set (V := firstn (Z.to_nat k) B) in *. assert (HLV : len V = k) by (subst V; rewrite length_firstn; lia). assert (HV : countIf (validAt bits boff) (Z.to_nat N) = len V) by (fold k; lia).
      assert (HS : spreadTo out bits off boff N V 0 out1 0).
      { apply spread_start; [assumption|assumption|lia|]. rewrite HLV. apply (bitsPut_ext _ _ _ _ _ _ HP). intros i Hi. subst V. rewrite nth_firstn. now replace (Z.to_nat i <? Z.to_nat k)%nat with true by (symmetry; apply Nat.ltb_lt; lia). }
      destruct (_ <=? nulls).
      * unfold expandSpacedBitmapPerBit. destruct (perBits_ok out bits off boff N V HV Ho HN Hfit Hmx Hbits Hbm (Z.to_nat N) 0 out1 0 ltac:(lia) HS) as (out' & j' & HE & HS'). rewrite HLV in HE. fold nulls in HE. rewrite HE. cbn [opt_bind fst]. exists d', out'. split; [reflexivity|]. split; [now apply (spreadTo_all _ _ _ _ _ _ _ j')|assumption].
      * destruct Hbits as (Hbb & Hbo & Hbf). unfold SBR.newBaseSetBitRunReader. destruct (VisitRange_ok bits boff N false (expandRun off nulls) (mkSBR [] 0 0 0 0 0 false 0) Hbb Hbo HN Hbf eq_refl) as (br & -> & Hv). cbn [opt_bind]. specialize (Hv (out1, 0)). unfold rangeRuns in Hv.
        destruct (spread_runs out bits off boff N V HV Ho HN Hfit 0 _ (setBitRuns_max bits boff N HN) out1 0 HS) as (out' & j' & HE & HS'). rewrite HLV in HE. fold nulls in HE. rewrite HE in Hv. unfold visits in Hv. destruct (SBR.VisitRuns br _ _) as [[[br' st] e]|]; [|discriminate]. destruct Hv as [Hv _]. injection Hv as <- <-. cbn [opt_bind fst snd].
        exists d', out'. split; [reflexivity|]. split; [now apply (spreadTo_all _ _ _ _ _ _ _ j')|assumption].
Qed.
