(* ===== verification/BooleanPages.v ===== *)
(** * Boolean pages, whatever the encoding (parquet/types.go, parquet/internal/encoding/types.go)

    Any sequence of puts and of reads of the boolean encoders and decoders: [BoolEncoder] and
    [BoolDecoder] are the methods, [BoolEncoderOk] and [BoolDecoderOk] what an encoding promises of
    them; a decoder is a queue of bits of which some are values. *)

From Stdlib Require Import ZArith List Lia Bool.
From S2P Require Import Prelude BitUtil BitRuns BitBlocks Memory Spaced Bitmaps BitmapOps BitmapsOk BitmapOpsOk Booleans BooleansOk BooleanDecode BooleanSpaced.
Import ListNotations.
#[local] Open Scope Z_scope.
#[local] Open Scope go_scope.

(** ** Puts *)

Inductive boolPut : Type :=
| PutBools (vs : list bool)
| PutSpacedBools (vs : list bool) (bits : list Z) (off : Z)
| PutBits (bitmap : list Z) (off n : Z)
| PutSpacedBits (bitmap : list Z) (boff n : Z) (bits : list Z) (off : Z).

(** [encPutBitmap] is [None] for an encoder without the method. *)
Class BoolEncoder (E : Type) : Type := {
  encPutBools : E -> list bool -> option E;
  encPutSpaced : E -> list bool -> list Z -> Z -> option E;
  encPutBitmap : option (E -> list Z -> Z -> Z -> option E);
  encPutSpacedBitmap : E -> list Z -> Z -> Z -> list Z -> Z -> option (E * Z)
}.

Definition runPut {E} `{BoolEncoder E} (enc : E) (p : boolPut) : option E :=
  match p with
  | PutBools vs => encPutBools enc vs
  | PutSpacedBools vs bits off => encPutSpaced enc vs bits off
  | PutBits bm off n => put <- encPutBitmap ;; put enc bm off n
  | PutSpacedBits bm boff n bits off => r <- encPutSpacedBitmap enc bm boff n bits off ;; Some (fst r)
  end.

Fixpoint runPuts {E} `{BoolEncoder E} (enc : E) (ps : list boolPut) : option E :=
  match ps with
  | [] => Some enc
  | p :: ps => enc <- runPut enc p ;; runPuts enc ps
  end.

(** The values of a put, and its slots. *)
Definition boolValues (p : boolPut) : list bool :=
  match p with
  | PutBools vs => vs
  | PutSpacedBools vs bits off => compress (validAt bits off) 0 vs
  | PutBits bm off n => bitList bm off n
  | PutSpacedBits bm boff n bits off => compress (validAt bits off) 0 (bitList bm boff n)
  end.

Definition boolSlots (p : boolPut) : Z := match p with PutBools vs | PutSpacedBools vs _ _ => len vs | PutBits _ _ n | PutSpacedBits _ _ n _ _ => n end.

Definition boolPutOk (p : boolPut) : Prop :=
  match p with
  | PutBools _ => True
  | PutSpacedBools vs bits off => bitsOk bits off (len vs)
  | PutBits bm off n => rangeOk bm off n
  | PutSpacedBits bm boff n bits off => rangeOk bm boff n /\ 8 * len bm < 2 ^ 63 /\ bitsOk bits off n /\ 8 * len bits < 2 ^ 63 - 7
  end.

Fixpoint sumSlots (ps : list boolPut) : Z := match ps with [] => 0 | p :: ps => boolSlots p + sumSlots ps end.

Lemma values_slots p : boolPutOk p -> 0 <= len (boolValues p) <= boolSlots p.
Proof.
  destruct p as [vs|vs bits off|bm off n|bm boff n bits off]; cbn [boolPutOk boolValues boolSlots]; intros H.
  - lia.
  - rewrite compress_count. pose proof (countIf_bound (fun i => validAt bits off (0 + i)) (List.length vs)). lia.
  - destruct H as (_ & _ & H & _). rewrite length_bitList; lia.
  - destruct H as ((_ & _ & H & _) & _). rewrite compress_count. pose proof (countIf_bound (fun i => validAt bits off (0 + i)) (List.length (bitList bm boff n))). pose proof (length_bitList bm boff n H). lia.
Qed.

Lemma sumSlots_bound ps : Forall boolPutOk ps -> 0 <= len (flat_map boolValues ps) <= sumSlots ps.
Proof. induction 1 as [|p ps H _ IH]; cbn [flat_map sumSlots]; [cbn; lia|]. rewrite length_app. pose proof (values_slots p H). lia. Qed.

(** [encHas e vs]: the values since the last page; [mayPut]: the puts the encoder has a method for. *)
Class BoolEncoderOk (E : Type) `{BoolEncoder E} : Type := {
  encHas : E -> list bool -> Prop;
  mayPut : boolPut -> Prop;
  encPut_ok : forall enc vs p, encHas enc vs -> mayPut p -> boolPutOk p -> len vs + boolSlots p < 2 ^ 61 -> exists enc', runPut enc p = Some enc' /\ encHas enc' (vs ++ boolValues p)
}.

Lemma runPuts_ok {E} `{BoolEncoderOk E} ps : forall enc vs, encHas enc vs -> Forall mayPut ps -> Forall boolPutOk ps -> len vs + sumSlots ps < 2 ^ 61 -> exists enc', runPuts enc ps = Some enc' /\ encHas enc' (vs ++ flat_map boolValues ps).
Proof.
  induction ps as [|p ps IH]; intros enc vs HO HY HF Hm; cbn [runPuts flat_map sumSlots] in *; [exists enc; rewrite app_nil_r; auto|]. inversion HF as [|? ? HP HF']; subst. inversion HY as [|? ? HQ HY']; subst. pose proof (values_slots p HP). pose proof (sumSlots_bound ps HF').
  destruct (encPut_ok enc vs p HO HQ HP ltac:(lia)) as (e1 & -> & HO1). cbn [opt_bind]. rewrite app_assoc. apply IH; [assumption..|]. rewrite length_app. lia.
Qed.

(** ** Reads *)

Inductive boolRead : Type :=
| ReadBools (out : list bool)
| SkipBools (m : Z)
| ReadSpacedBools (out : list bool) (bits : list Z) (off : Z)
| ReadBits (out : list Z) (off m : Z)
| ReadSpacedBits (out : list Z) (off m : Z) (bits : list Z) (boff : Z).

(** What a read leaves in the slice or in the bitmap of the caller. *)
Inductive target : Type :=
| InBools (out : list bool)
| InBits (out : list Z).

Definition validOf (bits : list Z) (off m : Z) : Z := countIf (validAt bits off) (Z.to_nat m).

(** The decoder interfaces; [decMismatch] is the message of [DecodeSpaced] for a short count. *)
Class BoolDecoder (D : Type) : Type := {
  decBools : D -> list bool -> option (D * list bool * Z * option goerr);
  decSkip : D -> Z -> option (D * Z * option goerr);
  decSpacedBools : D -> list bool -> Z -> list Z -> Z -> option (D * list bool * Z * option goerr);
  decBits : D -> list Z -> Z -> Z -> option (D * list Z * Z * option goerr);
  decSpacedBits : D -> list Z -> Z -> Z -> Z -> list Z -> Z -> option (D * list Z * Z * option goerr);
  decMismatch : goerr
}.

Definition runRead {D} `{BoolDecoder D} (d : D) (r : boolRead) : option (D * target * Z * option goerr) :=
  match r with
  | ReadBools out => x <- decBools d out ;; let '(d, out, n, e) := x in Some (d, InBools out, n, e)
  | SkipBools m => x <- decSkip d m ;; let '(d, n, e) := x in Some (d, InBools [], n, e)
  | ReadSpacedBools out bits off => x <- decSpacedBools d out (len out - validOf bits off (len out)) bits off ;; let '(d, out, n, e) := x in Some (d, InBools out, n, e)
  | ReadBits out off m => x <- decBits d out off m ;; let '(d, out, n, e) := x in Some (d, InBits out, n, e)
  | ReadSpacedBits out off m bits boff => x <- decSpacedBits d out off m (m - validOf bits boff m) bits boff ;; let '(d, out, n, e) := x in Some (d, InBits out, n, e)
  end.

Fixpoint runReads {D} `{BoolDecoder D} (d : D) (rs : list boolRead) : option (list (target * Z * option goerr)) :=
  match rs with
  | [] => Some []
  | r :: rs => x <- runRead d r ;; let '(d, t, n, e) := x in xs <- runReads d rs ;; Some ((t, n, e) :: xs)
  end.

Definition boolReadOk (r : boolRead) : Prop :=
  match r with
  | ReadBools _ => True
  | SkipBools m => 0 <= m
  | ReadSpacedBools out bits off => bitsOk bits off (len out)
  | ReadBits out off m => rangeOk out off m /\ 8 * len out < 2 ^ 63
  | ReadSpacedBits out off m bits boff => rangeOk out off m /\ 8 * len out < 2 ^ 63 /\ bitsOk bits boff m /\ 8 * len bits < 2 ^ 63
  end.

(** How many values the caller asks for, and whether it has null slots. *)
Definition wants (r : boolRead) : Z :=
  match r with
  | ReadBools out => len out
  | SkipBools m | ReadBits _ _ m => m
  | ReadSpacedBools out bits off => validOf bits off (len out)
  | ReadSpacedBits _ _ m bits boff => validOf bits boff m
  end.

Definition hasNulls (r : boolRead) : bool :=
  match r with
  | ReadSpacedBools out bits off => 0 <? len out - validOf bits off (len out)
  | ReadSpacedBits _ _ m bits boff => 0 <? m - validOf bits boff m
  | _ => false
  end.

(** The slots of a read. *)
Definition slotsOf (r : boolRead) : Z := match r with ReadBools out | ReadSpacedBools out _ _ => len out | SkipBools m | ReadBits _ _ m | ReadSpacedBits _ _ m _ _ => m end.

(** The caller's memory before. *)
Definition before (r : boolRead) : target := match r with ReadBools out | ReadSpacedBools out _ _ => InBools out | SkipBools _ => InBools [] | ReadBits out _ _ | ReadSpacedBits out _ _ _ _ => InBits out end.

(** [V] arrived at the valid slots, and no other memory changed. *)
Definition arrived (r : boolRead) (V : list bool) (t : target) : Prop :=
  match r, t with
  | ReadBools out, InBools out' => out' = V ++ skipn (List.length V) out
  | SkipBools _, InBools out' => out' = []
  | ReadSpacedBools out bits off, InBools out' => List.length out' = List.length out /\ compress (validAt bits off) 0 out' = V
  | ReadBits out off _, InBits out' => bitsPut out off (len V) (fun i => nth (Z.to_nat i) V false) out'
  | ReadSpacedBits out off m bits boff, InBits out' => spreadOver out bits off boff m V out'
  | _, _ => False
  end.

(** A read of a queue [B] of which [n] are values: too few bits are an error before anything
    moves; too few values are an error where there are nulls, and a short read otherwise. *)
Definition gives (mm : goerr) (B : list bool) (n : Z) (r : boolRead) (t : target) (cnt : Z) (e : option goerr) : Prop :=
  let k := Z.min (wants r) n in
  if len B <? k then t = before r /\ cnt = 0 /\ e = Some ErrUnexpectedEOF
  else if n <? wants r then cnt = n /\ e = (if hasNulls r then Some (match r with ReadSpacedBits _ _ _ _ _ => BD.mismatch | _ => mm end) else None) /\ (match r with ReadSpacedBools _ _ _ | ReadSpacedBits _ _ _ _ _ => True | _ => arrived r (firstn (Z.to_nat k) B) t end)
  else cnt = slotsOf r /\ e = None /\ arrived r (firstn (Z.to_nat k) B) t.

Definition takenBy (B : list bool) (n : Z) (r : boolRead) : Z := let k := Z.min (wants r) n in if len B <? k then 0 else k.

Fixpoint giveAll (mm : goerr) (B : list bool) (n : Z) (rs : list boolRead) (xs : list (target * Z * option goerr)) : Prop :=
  match rs, xs with
  | [], [] => True
  | r :: rs, (t, cnt, e) :: xs => gives mm B n r t cnt e /\ giveAll mm (skipn (Z.to_nat (takenBy B n r)) B) (n - takenBy B n r) rs xs
  | _, _ => False
  end.

Lemma firstn_len {A} (l : list A) k : 0 <= k <= len l -> len (firstn (Z.to_nat k) l) = k.
Proof. intros H. rewrite length_firstn. lia. Qed.

Lemma validOf_bound bits off m : 0 <= m -> 0 <= validOf bits off m <= m.
Proof. intros H. unfold validOf. pose proof (countIf_bound (validAt bits off) (Z.to_nat m)). lia. Qed.

(** [decHas d B n]: [d] is in front of the bits [B], of which [n] are values. *)
Class BoolDecoderOk (D : Type) `{BoolDecoder D} : Type := {
  decHas : D -> list bool -> Z -> Prop;
  decHas_count : forall d B n, decHas d B n -> 0 <= n;
  decBools_ok : forall d B n, decHas d B n -> decodesBools decHas d B n decBools;
  decSkip_ok : forall d B n m, decHas d B n -> 0 <= m -> let k := Z.min m n in
    if len B <? k then decSkip d m = Some (d, 0, Some ErrUnexpectedEOF)
    else exists d', decSkip d m = Some (d', k, None) /\ decHas d' (skipn (Z.to_nat k) B) (n - k);
  decBits_ok : forall d B n, decHas d B n -> decodesBits decHas d B n decBits;
  decSpacedBools_eq : decSpacedBools = spacedDecode decBools decMismatch;
  decSpacedBits_eq : decSpacedBits = decodeSpacedToBitmap decBits
}.

Section Reads.
Context {D : Type} `{BoolDecoderOk D}.

Lemma runRead_ok (d : D) B n r : decHas d B n -> boolReadOk r ->
  exists d' t cnt e, runRead d r = Some (d', t, cnt, e) /\ gives decMismatch B n r t cnt e /\ decHas d' (skipn (Z.to_nat (takenBy B n r)) B) (n - takenBy B n r).
Proof.
  intros HD HR. pose proof (decHas_count _ _ _ HD) as Hn0. assert (HD0 : decHas d (skipn (Z.to_nat 0) B) (n - 0)) by (now rewrite Z.sub_0_r). unfold gives, takenBy.
  destruct r as [out|m|out bits off|out off m|out off m bits boff]; cbn [runRead boolReadOk wants hasNulls slotsOf before arrived] in *; unfold validOf in *.
  - pose proof (decBools_ok d B n HD out) as HX. cbv zeta in HX. destruct (Z.ltb_spec (len B) (Z.min (len out) n)) as [Hlt|Hge]; [rewrite HX; cbn [opt_bind]; eexists _, _, _, _; repeat split; apply HD0|].
    destruct HX as (d' & -> & HD'). cbn [opt_bind]. eexists _, _, _, _. split; [reflexivity|]. split; [|exact HD']. pose proof (firstn_len B (Z.min (len out) n) ltac:(lia)) as HL. replace (List.length (firstn (Z.to_nat (Z.min (len out) n)) B)) with (Z.to_nat (Z.min (len out) n)) by lia. destruct (Z.ltb_spec n (len out)); splits; auto; lia.
  - pose proof (decSkip_ok d B n m HD HR) as HX. cbv zeta in HX. destruct (Z.ltb_spec (len B) (Z.min m n)) as [Hlt|Hge]; [rewrite HX; cbn [opt_bind]; eexists _, _, _, _; repeat split; apply HD0|].
    destruct HX as (d' & -> & HD'). cbn [opt_bind]. eexists _, _, _, _. split; [reflexivity|]. split; [|exact HD']. destruct (Z.ltb_spec n m); splits; auto; lia.
  - rewrite decSpacedBools_eq. pose proof (spacedDecode_ok decHas d B n decBools decMismatch out bits off (decBools_ok d B n HD) HR) as HX. cbv zeta in HX. rewrite Nat2Z.id in *. set (k := countIf _ _) in *. destruct (Z.ltb_spec (len B) (Z.min k n)) as [Hlt|Hge]; [rewrite HX; cbn [opt_bind]; eexists _, _, _, _; repeat split; apply HD0|].
    destruct (Z.ltb_spec n k) as [Hnk|Hnk].
    + destruct HX as (d' & out' & -> & HD'). cbn [opt_bind]. eexists _, _, _, _. split; [reflexivity|]. rewrite Z.min_r, Z.sub_diag by lia. auto.
    + destruct HX as (d' & out' & -> & HL & HC & HD'). cbn [opt_bind]. eexists _, _, _, _. split; [reflexivity|]. rewrite Z.min_l by lia. auto 7.
  - pose proof HR as ((Hob & Ho & Hm & Hfit & Hmx) & Hmo). pose proof (decBits_ok d B n HD out off m) as HX. cbv zeta in HX. specialize (HX ltac:(red; splits; auto; lia) Hmo). destruct (Z.ltb_spec (len B) (Z.min m n)) as [Hlt|Hge]; [rewrite HX; cbn [opt_bind]; eexists _, _, _, _; repeat split; apply HD0|].
    destruct HX as (d' & out' & -> & HP & HD'). cbn [opt_bind]. eexists _, _, _, _. split; [reflexivity|]. split; [|exact HD']. assert (HP' : bitsPut out off (len (firstn (Z.to_nat (Z.min m n)) B)) (fun i => nth (Z.to_nat i) (firstn (Z.to_nat (Z.min m n)) B) false) out').
    { rewrite firstn_len by lia. apply (bitsPut_ext _ _ _ _ _ _ HP). intros i Hi. rewrite nth_firstn. now replace (Z.to_nat i <? Z.to_nat (Z.min m n))%nat with true by (symmetry; apply Nat.ltb_lt; lia). }
    destruct (Z.ltb_spec n m); splits; auto; lia.
  - destruct HR as (HRo & Hmo & Hbits & Hmb). rewrite decSpacedBits_eq. pose proof (decodeSpacedToBitmap_ok decHas decBits d B n out off m bits boff Hn0 (decBits_ok d B n HD) HRo Hmo Hbits Hmb) as HX. cbv zeta in HX. set (k := countIf _ _) in *. destruct (Z.ltb_spec (len B) (Z.min k n)) as [Hlt|Hge]; [rewrite HX; cbn [opt_bind]; eexists _, _, _, _; repeat split; apply HD0|].
    destruct (Z.ltb_spec n k) as [Hnk|Hnk].
    + destruct HX as (d' & out' & -> & HD'). cbn [opt_bind]. eexists _, _, _, _. split; [reflexivity|]. rewrite Z.min_r, Z.sub_diag by lia. auto.
    + destruct HX as (d' & out' & -> & HS & HD'). cbn [opt_bind]. eexists _, _, _, _. split; [reflexivity|]. rewrite Z.min_l by lia. auto.
Qed.

Lemma runReads_ok rs : forall (d : D) B n, decHas d B n -> Forall boolReadOk rs -> exists xs, runReads d rs = Some xs /\ giveAll decMismatch B n rs xs.
Proof.
  induction rs as [|r rs IH]; intros d B n HD HF; cbn [runReads]; [exists []; cbn; auto|]. inversion HF as [|? ? HR HF']; subst. destruct (runRead_ok d B n r HD HR) as (d' & t & cnt & e & -> & HG & HD'). cbn [opt_bind].
  destruct (IH d' _ _ HD' HF') as (xs & -> & HA). cbn [opt_bind]. eexists. split; [reflexivity|]. cbn [giveAll]. auto.
Qed.

End Reads.

(** Bits behind the values do not matter. *)
Lemma giveAll_prefix mm pad rs : forall vs xs, Forall boolReadOk rs -> giveAll mm (vs ++ pad) (len vs) rs xs -> giveAll mm vs (len vs) rs xs.
Proof.
  induction rs as [|r rs IH]; intros vs [|[[t cnt] e] xs] HF; cbn [giveAll]; auto. inversion HF as [|? ? HR HF']; subst. assert (Hw : 0 <= wants r) by (destruct r as [out|m|out bits off|out off m|out off m bits boff]; cbn [wants boolReadOk] in *; try lia; [pose proof (validOf_bound bits off (len out)); lia|destruct HR as ((_ & _ & Hm & _) & _); lia|destruct HR as ((_ & _ & Hm & _) & _); pose proof (validOf_bound bits boff m Hm); lia]).
  unfold gives, takenBy. set (k := Z.min (wants r) (len vs)). replace (len (vs ++ pad) <? k) with false by (symmetry; apply Z.ltb_ge; rewrite length_app; subst k; lia). replace (len vs <? k) with false by (symmetry; apply Z.ltb_ge; subst k; lia).
  assert (Hk : (Z.to_nat k <= List.length vs)%nat) by (subst k; lia). assert (HF1 : firstn (Z.to_nat k) (vs ++ pad) = firstn (Z.to_nat k) vs) by (rewrite firstn_app; replace (Z.to_nat k - List.length vs)%nat with 0%nat by lia; now rewrite firstn_O, app_nil_r). rewrite HF1. intros [HG HA]. split; [exact HG|].
  rewrite skipn_app in HA. replace (Z.to_nat k - List.length vs)%nat with 0%nat in HA by lia. cbn [skipn] in HA. replace (len vs - k) with (len (skipn (Z.to_nat k) vs)) in * by (rewrite length_skipn; lia). now apply IH.
Qed.
