(* ===== verification/BooleanClaims.v ===== *)
(** * Claims about plain boolean pages

    Any puts, from slices of booleans and from bitmaps, with and without nulls, then the page, then
    any reads, into slices and into bitmaps; the decoder on any data; an encoder that has seen
    nothing but nulls. *)

From Stdlib Require Import ZArith List Lia Bool.
From S2P Require Import Prelude BitUtil BitRuns BitBlocks Memory Spaced Bitmaps BitmapOps BitmapsOk BitmapOpsOk Booleans BooleansOk BooleanDecode BooleanSpaced BooleanPages.
Import ListNotations.
#[local] Open Scope Z_scope.
#[local] Open Scope go_scope.

(** ** The interfaces *)

#[export] Instance plainEncoder : BoolEncoder PlainBooleanEncoder := { encPutBools := BE.Put; encPutSpaced := BE.PutSpaced; encPutBitmap := Some BE.PutBitmap; encPutSpacedBitmap := BE.PutSpacedBitmap }.

#[export] Instance plainDecoder : BoolDecoder PlainBooleanDecoder := { decBools := BD.Decode; decSkip := BD.Discard; decSpacedBools := BD.DecodeSpaced; decBits := BD.DecodeToBitmap; decSpacedBits := DecodeSpacedToBitmap; decMismatch := BD.mismatch }.

Lemma plainPut_ok enc vs p : beOk enc vs -> boolPutOk p -> len vs + boolSlots p < 2 ^ 61 -> exists enc', runPut enc p = Some enc' /\ beOk enc' (vs ++ boolValues p).
Proof.
  intros HO HP Hm. pose proof (values_slots p HP) as HL. destruct p as [ws|ws bits off|bm off n|bm boff n bits off]; cbn [runPut encPutBools encPutSpaced encPutBitmap encPutSpacedBitmap plainEncoder boolPutOk boolValues boolSlots opt_bind] in *.
  - destruct (putBools_ok enc vs ws HO) as (e & HE & HB & _); [rewrite length_app; lia|]. eauto.
  - destruct (PutSpaced_bools enc vs ws bits off HO HP) as (e & HE & HB); [rewrite length_app; lia|]. eauto.
  - destruct (PutBitmap_ok enc vs bm off n HO HP) as (e & HE & HB & _); [lia|]. eauto.
  - destruct HP as (HR & Hmb & Hbits & _). destruct (PutSpacedBitmap_ok enc vs bm boff n bits off HO HR Hmb Hbits) as (e & -> & HB); [lia|]. cbn [opt_bind fst]. eauto.
Qed.

#[export] Instance plainEncoder_ok : BoolEncoderOk PlainBooleanEncoder.
Proof. refine {| encHas := beOk; mayPut := fun _ => True |}. intros enc vs p HO _. now apply plainPut_ok. Defined.

#[export] Instance plainDecoder_ok : BoolDecoderOk PlainBooleanDecoder.
Proof.
  refine {| decHas := bdOk |}.
  - intros d B n (_ & _ & H). exact H.
  - intros d B n HD out. now apply decodeBools_ok.
  - exact discardBits_ok.
  - intros d B n HD out off m k HR _. now apply DecodeToBitmap_ok.
  - reflexivity.
  - reflexivity.
Defined.

Lemma be_start fresh : poolOk fresh -> beOk (BE.newEncoder fresh) [].
Proof. intros H. split; [reflexivity|]. now apply new_streamed. Qed.

(** The page of an encoder is data the decoder stands on. *)
Lemma page_stands data vs n : bytes data -> bitsAre (leval data) vs -> n = len vs -> n <= 8 * len data -> 8 * len data < 2 ^ 63 - 15 -> exists pad, bdOk (mkBD data n 0) (vs ++ pad) n.
Proof.
  intros Hb HA Hn Hle Hmx. exists (bitList data n (8 * len data - n)). split; [|cbn; lia]. cbn [bd_data bd_bitOffset]. red. splits; auto; try lia. replace (8 * len data - 0) with (n + (8 * len data - n)) by lia. rewrite bitList_app by lia. rewrite Z.add_0_l. f_equal.
  apply bitList_ext; [lia|]. intros i Hi. symmetry. rewrite Z.add_0_l. apply HA. lia.
Qed.

(** [Put] leaves a writer. *)
Lemma putLoop_wr fuel : forall enc w k ins enc', be_wr enc <> None -> BE.putLoop fuel enc w k ins = Some enc' -> be_wr enc' <> None.
Proof.
  induction fuel as [|fuel IH]; intros enc w k ins enc' HW HE; cbn [BE.putLoop] in HE; destruct (k <? len ins); try discriminate; try (injection HE as <-; exact HW). destruct (BE.flushBits enc w) as [r|]; [|discriminate]. cbn [opt_bind] in HE. destruct (slice _ _ _) as [v2|]; [|discriminate]. cbn [opt_bind] in HE.
  destruct (BW.AppendBools (snd r) v2) as [a|]; [|discriminate]. cbn [opt_bind] in HE. eapply IH; [|exact HE]. discriminate.
Qed.

Lemma Put_wr enc ins enc' : BE.Put enc ins = Some enc' -> be_wr enc' <> None.
Proof.
  unfold BE.Put. intros HE. assert (HI : forall e w, BE.initBitmapWriter enc = Some (e, w) -> be_wr e <> None) by (unfold BE.initBitmapWriter; destruct (be_wr enc) eqn:E; [intros e w H; injection H as <- <-; congruence|destruct (BW.NewBitmapWriter _ _ _); [|discriminate]; intros e w H; injection H as <- <-; discriminate]).
  destruct (BE.initBitmapWriter enc) as [[e w]|]; [|discriminate]. specialize (HI e w eq_refl). cbn [opt_bind fst snd] in HE. destruct (len ins =? 0); [now injection HE as <-|]. destruct (BW.AppendBools w ins) as [a|]; [|discriminate]. cbn [opt_bind] in HE. eapply putLoop_wr; [|exact HE]. discriminate.
Qed.

(** ** Claims *)

(** C6: Plain boolean pages: any sequence of [Put], [PutSpaced], [PutBitmap] and [PutSpacedBitmap] that
    comes to at least one value, then [FlushValues], gives one bit for each value, in as many
    bytes as that takes, and an encoder for the next page; and any sequence of [Decode],
    [Discard], [DecodeSpaced], [DecodeToBitmap] and [DecodeSpacedToBitmap] on that page delivers
    exactly these values in order, to the valid slots, and changes nothing else. *)
Theorem bool_page_roundtrip fresh fresh' puts reads :
  poolOk fresh -> poolOk fresh' -> Forall boolPutOk puts -> sumSlots puts < 2 ^ 61 -> Forall boolReadOk reads ->
  let vs := flat_map boolValues puts in vs <> [] ->
  exists enc enc' page d xs, runPuts (BE.newEncoder fresh) puts = Some enc /\ BE.FlushValues fresh' enc = Some (enc', page) /\ len (Buffer.Bytes page) = (len vs + 7) / 8 /\ beOk enc' [] /\
    BD.SetData (len vs) (Buffer.Bytes page) = inl d /\ runReads d reads = Some xs /\ giveAll BD.mismatch vs (len vs) reads xs.
Proof.
  intros HF HF' HP Hm HR vs Hne. pose proof (sumSlots_bound puts HP) as HL. fold vs in HL. destruct (@runPuts_ok _ _ plainEncoder_ok puts (BE.newEncoder fresh) [] (be_start fresh HF)) as (enc & HE & HO); [now apply Forall_forall|exact HP|cbn; lia|]. cbn [app encHas plainEncoder_ok] in HO. fold vs in HO.
  assert (HW : be_wr enc <> None) by (intros E; unfold beOk in HO; rewrite E in HO; tauto). destruct (BoolFlush_ok fresh' enc vs HO HW HF' ltac:(lia)) as (enc' & page & HFl & HO' & _ & Hb & HLp & HA).
  destruct (page_stands (Buffer.Bytes page) vs (len vs) Hb HA eq_refl) as (pad & HD); [zdiv|zdiv|]. destruct (@runReads_ok _ _ plainDecoder_ok reads _ _ _ HD HR) as (xs & HX & HG). exists enc, enc', page, (mkBD (Buffer.Bytes page) (len vs) 0), xs. splits; auto.
  - unfold BD.SetData. destruct (Z.ltb_spec (len vs) 0); [lia|reflexivity].
  - now apply (giveAll_prefix _ pad).
Qed.

(** C21: The plain boolean decoder on any bytes and any announced number of values, such as a corrupt
    page: a negative count is an error, and otherwise every sequence of reads returns without a
    panic; the reads deliver the bits of the data in order; a read that needs more bits than
    are left reports an unexpected end and moves neither the decoder nor the caller's memory; a
    read with nulls that needs more values than were announced reports a mismatch. *)
Theorem bool_decoder_refines nvals data reads :
  bytes data -> 8 * len data < 2 ^ 63 - 15 -> Forall boolReadOk reads ->
  if nvals <? 0 then exists e, BD.SetData nvals data = inr e
  else exists d xs, BD.SetData nvals data = inl d /\ runReads d reads = Some xs /\ giveAll BD.mismatch (bitList data 0 (8 * len data)) nvals reads xs.
Proof.
  intros Hb Hm HR. unfold BD.SetData. destruct (Z.ltb_spec nvals 0); [eauto|]. assert (HD : bdOk (mkBD data nvals 0) (bitList data 0 (8 * len data)) nvals) by (split; [|cbn; lia]; red; cbn [bd_data bd_bitOffset]; rewrite Z.sub_0_r; splits; auto; lia).
  destruct (@runReads_ok _ _ plainDecoder_ok reads _ _ _ HD HR) as (xs & HX & HG). eauto.
Qed.

(** C34: [copyBitmapWithinBuffer] moves a range of bits within one bitmap the way [memmove] moves bytes:
    whichever way source and destination overlap, the destination gets the bits the source had
    before the call, and every other bit stays. *)
Theorem bitmap_move_correct buf src dst n :
  rangeOk buf src n -> rangeOk buf dst n -> exists buf', copyBitmapWithinBuffer buf src dst n = Some buf' /\ bitsPut buf dst n (fun i => Z.testbit (leval buf) (src + i)) buf'.
Proof. intros (Hb & Hs & Hn & Hsl & _) (_ & Hd & _ & Hdl & _). now apply within_ok. Qed.

(** C36: A plain boolean encoder whose first batch from a bitmap has nulls only has no bitmap writer yet:
    its estimated size and its page are nil dereferences.  A batch from a slice, with the same
    nulls, leaves an encoder with an empty page. *)
Theorem bool_all_null_panics fresh bitmap n bits :
  poolOk fresh -> rangeOk bitmap 0 n -> 8 * len bitmap < 2 ^ 63 -> bitsOk bits 0 n -> 0 < n < 2 ^ 60 -> cnt (leval bits) 0 (Z.to_nat n) = 0 ->
  (exists enc, BE.PutSpacedBitmap (BE.newEncoder fresh) bitmap 0 n bits 0 = Some (enc, 0) /\ BE.EstimatedDataEncodedSize enc = None /\ forall f, BE.FlushValues f enc = None) /\
  (exists enc enc' page, BE.PutSpaced (BE.newEncoder fresh) (repeat true (Z.to_nat n)) bits 0 = Some enc /\ BE.FlushValues fresh enc = Some (enc', page) /\ Buffer.Bytes page = []).
Proof.
  intros HF HR Hmb Hbits Hn H0. split.
  - unfold BE.PutSpacedBitmap. replace (n =? 0) with false by (symmetry; apply Z.eqb_neq; lia). destruct Hbits as (Hb & Ho & Hfit). unfold SBR.newBaseSetBitRunReader. destruct (VisitRange_ok bits 0 n false (BE.putRun bitmap 0) (mkSBR [] 0 0 0 0 0 false 0) Hb Ho ltac:(lia) Hfit eq_refl) as (br & -> & Hv). cbn [opt_bind]. specialize (Hv (BE.newEncoder fresh, 0)). unfold rangeRuns in Hv.
    replace (setBitRuns bits 0 n) with (@nil (Z * Z)) in Hv.
    + cbn [visitAll] in Hv. unfold visits in Hv. destruct (SBR.VisitRuns br _ _) as [[[br' st] e]|]; [|discriminate]. destruct Hv as [Hv _]. injection Hv as <- <-. cbn [opt_bind fst snd]. eexists. split; [reflexivity|]. split; reflexivity.
    + symmetry. destruct (range_slots bits 0 (repeat true (Z.to_nat n))) as (HA & _ & HT). rewrite repeat_length, Z2Nat.id in * by lia. change (validAt bits 0) with (fun i => Z.testbit (leval bits) (0 + i)) in HT. rewrite <- cnt_countIf, H0 in HT. destruct (setBitRuns bits 0 n) as [|[p m] rs]; [reflexivity|]. cbn [asc total] in *. destruct HA as (_ & Hm & _ & HA). pose proof (asc_total _ _ _ HA). lia.
  - assert (HC : compress (validAt bits 0) 0 (repeat true (Z.to_nat n)) = []) by (apply nothing_valid; rewrite repeat_length; change (validAt bits 0) with (fun i => Z.testbit (leval bits) (0 + i)); now rewrite <- cnt_countIf).
    assert (HLr : len (repeat true (Z.to_nat n)) = n) by (rewrite repeat_length; lia). destruct (PutSpaced_bools (BE.newEncoder fresh) [] (repeat true (Z.to_nat n)) bits 0 (be_start fresh HF)) as (enc & HE & HO); [now rewrite HLr|rewrite HC; cbn; lia|]. rewrite HC in HO.
    assert (HW : be_wr enc <> None).
    { unfold BE.PutSpaced in HE. destruct (spacedCompress _ _ _ _); [|discriminate]. cbn [opt_bind] in HE. destruct (slice _ _ _) as [vals|]; [|discriminate]. exact (Put_wr _ _ _ HE). }
    destruct (BoolFlush_ok fresh enc [] HO HW HF ltac:(cbn; lia)) as (enc' & page & HFl & _ & _ & _ & HL & _). exists enc, enc', page. splits; auto. change ((len [] + 7) / 8) with 0 in HL. destruct (Buffer.Bytes page); [reflexivity|cbn in HL; lia].
Qed.

(** ** Witnesses *)

Definition exPage : Buffer.t := Buffer.NewResizableBuffer.

Lemma exPage_ok : poolOk exPage.
Proof. split; [split; constructor|reflexivity]. Qed.

Definition exBits : list Z := [177; 60; 7; 250; 33].

Definition exBoolPuts : list boolPut := [PutBools [true; false; true]; PutSpacedBits exBits 3 30 [219; 6; 255; 15] 1; PutBits exBits 2 20; PutSpacedBools [true; true; false; true] [5] 0].

Definition exBoolReads : list boolRead := [ReadBools (repeat false 5); ReadSpacedBits [0; 255; 0; 255] 3 20 [90; 181; 7] 2; SkipBools 4; ReadBits [170; 170] 5 9; ReadSpacedBools (repeat true 6) [44] 1; ReadBools (repeat true 100)].

Lemma exBoolPuts_ok : Forall boolPutOk exBoolPuts.
Proof. repeat constructor; first [now apply rangeOkb_ok | discriminate | reflexivity]. Qed.

Lemma exBoolReads_ok : Forall boolReadOk exBoolReads.
Proof. repeat constructor; first [now apply rangeOkb_ok | discriminate | reflexivity]. Qed.

Lemma bool_page_witness : exists enc enc' page d xs, runPuts (BE.newEncoder exPage) exBoolPuts = Some enc /\ BE.FlushValues exPage enc = Some (enc', page) /\ len (Buffer.Bytes page) = (len (flat_map boolValues exBoolPuts) + 7) / 8 /\ beOk enc' [] /\
  BD.SetData (len (flat_map boolValues exBoolPuts)) (Buffer.Bytes page) = inl d /\ runReads d exBoolReads = Some xs /\ giveAll BD.mismatch (flat_map boolValues exBoolPuts) (len (flat_map boolValues exBoolPuts)) exBoolReads xs.
Proof. apply (bool_page_roundtrip exPage exPage exBoolPuts exBoolReads); [exact exPage_ok|exact exPage_ok|exact exBoolPuts_ok|reflexivity|exact exBoolReads_ok|discriminate]. Defined.

Lemma bool_decoder_witness : exists d xs, BD.SetData 30 exBits = inl d /\ runReads d exBoolReads = Some xs /\ giveAll BD.mismatch (bitList exBits 0 40) 30 exBoolReads xs.
Proof. apply (bool_decoder_refines 30 exBits exBoolReads); [repeat constructor; discriminate|reflexivity|exact exBoolReads_ok]. Defined.

Lemma bitmap_move_witness : exists buf', copyBitmapWithinBuffer exBits 3 11 26 = Some buf' /\ bitsPut exBits 11 26 (fun i => Z.testbit (leval exBits) (3 + i)) buf'.
Proof. apply (bitmap_move_correct exBits 3 11 26); now apply rangeOkb_ok. Defined.

Lemma bool_all_null_witness : exists enc, BE.PutSpacedBitmap (BE.newEncoder exPage) [3] 0 5 [0] 0 = Some (enc, 0) /\ BE.EstimatedDataEncodedSize enc = None /\ forall f, BE.FlushValues f enc = None.
Proof.
  apply (bool_all_null_panics exPage [3] 5 [0]); [exact exPage_ok|now apply rangeOkb_ok|reflexivity| |lia|reflexivity]. split; [repeat constructor; discriminate|]. split; discriminate.
Defined.
