(* ===== verification/BitReaderBitmap.v ===== *)
(** * Decoding one-bit values into a bitmap (parquet/internal/utils/bit_reader.go, rle.go)

    [BitReader.GetBatchBitmap] copies whole groups of 32 bits through the scratch array
    [unpackBuf]; what that array holds when a call starts is its argument [scratch].
    [RleDecoder.GetBatchBitmap] is one more sink of the loop over runs; in it [None] is a panic of
    a write outside the bitmap. *)

From Stdlib Require Import ZArith List Lia Bool String.
From S2P Require Import Prelude GoStd BitUtil BitPacking BitReader RleFormat RleDecoder Bitmaps BitmapOps BitmapsOk BitmapOpsOk.
Import ListNotations.
#[local] Open Scope Z_scope.
#[local] Open Scope go_scope.

Module BRB.

(** The loops around [next(1)]: at most [n] bits from [pos] on; the count and the error. *)
Fixpoint bitLoop (untilAligned : bool) (n : nat) (b : BitReader) (out : list Z) (pos : Z) : option (BitReader * list Z * Z * option goerr) :=
  match n with
  | O => Some (b, out, 0, None)
  | S n' =>
      if untilAligned && (br_bitoffset b =? 0) then Some (b, out, 0, None)
      else
        match BR.next b 1 with
        | (b1, inr e) => Some (b1, out, 0, Some e)
        | (b1, inl val) =>
            out <- SetBitTo out pos (negb (val =? 0)) ;;
            r <- bitLoop untilAligned n' b1 out (pos + 1) ;;
            let '(b2, out, k, e) := r in Some (b2, out, 1 + k, e)
        end
  end.

(** [completeBytes] of [packed] to bit [pos] of [out]. *)
Definition copyPacked (packed out : list Z) (pos completeBytes : Z) : option (list Z) :=
  if Z.rem pos 8 =? 0 then
    part <- slice packed 0 completeBytes ;;
    _ <- slice out (Z.quot pos 8) (len out) ;;
    Some (splice out (Z.to_nat (Z.quot pos 8)) part)
  else CopyBitmap packed 0 (completeBytes * 8) out pos.

(** The loop over groups of 32 bits; every round but the last copies at least one. *)
Fixpoint groupLoop (fuel : nat) (b : BitReader) (scratch out : list Z) (pos length : Z) : option (BitReader * list Z * list Z * Z * option goerr) :=
  if 0 <? length then
    match fuel with
    | O => None
    | S fuel' =>
        let batch := Z.quot (Z.min buflen length) 32 * 32 in
        if batch =? 0 then Some (b, scratch, out, 0, None)
        else
          let packedBytes := Z.quot batch 8 in
          let '(rd, bs, err) := BytesReader.ReadFull (br_reader b) packedBytes in
          let scratch := splice scratch 0 bs in
          packed <- slice scratch 0 packedBytes ;;
          let nread := len bs in
          let err := match err with Some ErrUnexpectedEOF => if Z.rem nread 4 =? 0 then Some EOF else err | _ => err end in
          let completeBytes := Z.quot nread 4 * 4 in
          out <- (if 0 <? completeBytes then copyPacked packed out pos completeBytes else Some out) ;;
          let b1 := mkBR rd (br_buffer b) (br_byteoffset b + completeBytes) (br_bitoffset b) (br_validBits b) (br_raw b) in
          match err with
          | Some e => Some (b1, scratch, out, completeBytes * 8, Some e)
          | None =>
              r <- groupLoop fuel' b1 scratch out (pos + completeBytes * 8) (length - completeBytes * 8) ;;
              let '(b2, scratch, out, k, e) := r in Some (b2, scratch, out, completeBytes * 8 + k, e)
          end
    end
  else Some (b, scratch, out, 0, None).

(** The reader, the scratch array, the bitmap, the count and the error. *)
Definition GetBatchBitmap (b : BitReader) (scratch out : list Z) (outOffset length : Z) : option (BitReader * list Z * list Z * Z * option goerr) :=
  if length =? 0 then Some (b, scratch, out, 0, None)
  else
    r <- bitLoop true (Z.to_nat length) b out outOffset ;;
    let '(b1, out, i1, e1) := r in
    match e1 with
    | Some e => Some (b1, scratch, out, i1, Some e)
    | None =>
        r <- groupLoop (S (Z.to_nat length)) (BR.seekTo b1) scratch out (outOffset + i1) (length - i1) ;;
        let '(b2, scratch, out, i2, e2) := r in
        match e2 with
        | Some e => Some (b2, scratch, out, i1 + i2, Some e)
        | None =>
            match BR.fillbuffer b2 with
            | (b3, Some e) => Some (b3, scratch, out, i1 + i2, Some e)
            | (b3, None) =>
                r <- bitLoop false (Z.to_nat (length - i1 - i2)) b3 out (outOffset + i1 + i2) ;;
                let '(b4, out, i4, e4) := r in
                Some (b4, scratch, out, match e4 with Some _ => i1 + i2 + i4 | None => length end, e4)
            end
        end
    end.

End BRB.

(** ** The sink of [RleDecoder.GetBatchBitmap] *)
Module RDB.

(** The bitmap, the next position in it, and [unpackBuf]. *)
Definition bitmapState : Type := option (list Z * Z * list Z).

Definition bitmapSink : RD.RunSink bitmapState :=
  RD.mkSink
    (fun s v n => st <- s ;; let '(out, pos, scratch) := st in out <- SetBitsTo out pos n (negb (v =? 0)) ;; Some (out, pos + n, scratch))
    (fun b width s litbatch =>
       match (st <- s ;; let '(out, pos, scratch) := st in r <- BRB.GetBatchBitmap b scratch out pos litbatch ;; Some (r, pos)) with
       | Some ((b', scratch, out, n, e), pos) => (b', Some (out, pos + n, scratch), n, e)
       | None => (b, None, 0, Some ErrUnexpectedEOF)
       end).

Definition GetBatchBitmap (r : RleDecoder) (scratch out : list Z) (outOffset size : Z) : option (RleDecoder * list Z * list Z * Z * option goerr) :=
  if negb (rd_bitWidth r =? 1) then Some (r, scratch, out, 0, Some (ErrMsg "bitmap decoding requires a bit width of 1"))
  else
    res <- RD.rleLoop bitmapSink (RD.loopFuel size) r (Some (out, outOffset, scratch)) 0 size ;;
    let '(r, s, read, e) := res in
    st <- s ;; let '(out, _, scratch) := st in Some (r, scratch, out, read, e).

End RDB.

(** ** Enough data *)

Lemma field_bit x p : 0 <= p -> negb (field x p 1 =? 0) = Z.testbit x p.
Proof. intros Hp. unfold field. change (2 ^ 1) with 2. rewrite <- Z.shiftr_div_pow2 by lia. replace (Z.testbit x p) with (Z.testbit (x >> p) 0) by (rewrite Z.shiftr_spec by lia; reflexivity). rewrite Z.bit0_odd, Zmod_odd. now destruct (Z.odd _). Qed.

Lemma nth_fields x p w k i : (i < k)%nat -> nth i (fields x p w k) 0 = field x (p + Z.of_nat i * w) w.
Proof. intros Hi. unfold fields. rewrite (nth_indep _ 0 (field x (p + Z.of_nat 0 * w) w)) by (rewrite length_map, length_seq; lia). rewrite (map_nth (fun j => field x (p + Z.of_nat j * w) w)), seq_nth by assumption. reflexivity. Qed.

Lemma onlyBit_put buf i v buf' : onlyBit buf i v buf' -> 0 <= i -> bitsPut buf i 1 (fun _ => v) buf'.
Proof. intros (HL & HB & HT) Hi. split; [assumption|]. split; [assumption|]. intros j Hj. rewrite HT by assumption. destruct (Z.eqb_spec j i), (Z.leb_spec i j), (Z.ltb_spec j (i + 1)); cbn [andb]; (reflexivity || lia). Qed.

Definition bitsFrom (b : BitReader) (i : Z) : bool := Z.testbit (br_val b) (br_pos b + i).

Lemma bitsFrom_moved b b' n i : movedTo b b' (br_pos b + n) -> bitsFrom b' i = bitsFrom b (n + i).
Proof. intros HM. destruct (movedTo_val _ _ _ HM) as (HV & _ & HP). unfold bitsFrom. rewrite HV, HP. f_equal. lia. Qed.

Lemma bitLoop_ok u : forall n b out pos, brOk b -> (u = false \/ br_bitoffset b <> 0 -> filled b) -> br_pos b + Z.of_nat n <= 8 * len (br_data b) -> bitmapOk out -> 0 <= pos -> pos + Z.of_nat n <= 8 * len out ->
  exists b' out' k, BRB.bitLoop u n b out pos = Some (b', out', k, None) /\ 0 <= k <= Z.of_nat n /\ movedTo b b' (br_pos b + k) /\ bitsPut out pos k (bitsFrom b) out' /\ (k = Z.of_nat n \/ u = true /\ br_bitoffset b' = 0).
Proof.
  induction n as [|n IH]; intros b out pos HO HF Hle [Hb Hmx] Hp Hfit; cbn [BRB.bitLoop].
  - exists b, out, 0. splits; auto; try lia; [rewrite Z.add_0_r; now apply movedTo_refl|now apply bitsPut_refl].
  - destruct (u && (br_bitoffset b =? 0)) eqn:Eu.
    + apply andb_true_iff in Eu as [-> Eb%Z.eqb_eq]. exists b, out, 0. splits; auto; try lia; [rewrite Z.add_0_r; now apply movedTo_refl|now apply bitsPut_refl].
    + assert (HFb : filled b) by (apply HF; destruct u; [right; cbn [andb] in Eu; now apply Z.eqb_neq|now left]). destruct (next_ok b 1 HO HFb ltac:(lia) ltac:(lia)) as (b1 & -> & [HM HF1]). destruct (movedTo_val _ _ _ HM) as (HV & HD & HP).
      rewrite field_bit by (destruct HO; unfold br_pos; lia). destruct (SetBitTo_ok out pos ltac:(split; assumption) ltac:(lia) (Z.testbit (br_val b) (br_pos b))) as (out1 & -> & HB1). cbn [opt_bind]. apply onlyBit_put in HB1; [|assumption]. pose proof (bitsPut_bytes _ _ _ _ _ HB1) as [Hb1 HL1].
      destruct (IH b1 out1 (pos + 1)) as (b' & out' & k & -> & Hk & HM' & HP' & Hend); [apply HM|auto|rewrite HP, HD; lia|split; [assumption|lia]|lia|lia|]. cbn [opt_bind]. exists b', out', (1 + k). rewrite HP in HM'. splits; auto; try lia.
      * replace (br_pos b + (1 + k)) with (br_pos b + 1 + k) by lia. eauto using movedTo_trans.
      * apply (bitsPut_trans _ _ _ _ _ out1); [lia|lia| |]; [apply (bitsPut_ext _ _ _ _ _ _ HB1); intros i Hi; unfold bitsFrom; f_equal; lia|]. apply (bitsPut_ext _ _ _ _ _ _ HP'). intros i Hi. now apply bitsFrom_moved.
      * destruct Hend as [->|]; [left; lia|auto].
Qed.

Lemma copyPacked_ok packed out pos m : bytes packed -> 0 <= m <= len packed -> rangeOk out pos (8 * m) -> exists out', BRB.copyPacked packed out pos m = Some out' /\ bitsPut out pos (8 * m) (Z.testbit (leval packed)) out'.
Proof.
  intros Hpk Hm HR. pose proof HR as (Hb & Hp & _ & Hfit & Hmx). unfold BRB.copyPacked. rewrite Z.rem_mod_nonneg, Z.quot_div_nonneg by lia. destruct (Z.eqb_spec (pos mod 8) 0) as [H8|H8].
  - rewrite slice_ok by lia. cbn [opt_bind Z.to_nat skipn]. rewrite Z.sub_0_r, slice_from by zdiv. cbn [opt_bind]. eexists. split; [reflexivity|]. assert (HL : len (firstn (Z.to_nat m) packed) = m) by (rewrite length_firstn; lia). pose proof (splice_put out (pos / 8) (firstn (Z.to_nat m) packed) Hb ltac:(auto with gobytes) ltac:(zdiv) ltac:(rewrite HL; zdiv)) as HP.
    rewrite HL in HP. replace (8 * (pos / 8)) with pos in HP by zdiv. apply (bitsPut_ext _ _ _ _ _ _ HP). intros i Hi. rewrite leval_firstn, testbit_field by (assumption || lia). rewrite Z2Nat.id, Z.add_0_l by lia. bool_lia (0 <=? i). bool_lia (i <? 8 * m). reflexivity.
  - destruct (transferBitmap_ok transferCopy packed 0 (8 * m) out pos) as (out' & HE & HP); [red; splits; auto; lia|assumption|]. unfold CopyBitmap. replace (m * 8) with (8 * m) by lia. rewrite HE. exists out'. split; [reflexivity|]. apply (bitsPut_ext _ _ _ _ _ _ HP). intros i Hi. cbn [inverted]. apply xorb_false_l.
Qed.

(** Room for a chunk of [buflen] bits. *)
Definition scratchOk (scratch : list Z) : Prop := bytes scratch /\ 4 * buflen <= len scratch.

Lemma groupLoop_ok : forall fuel b scratch out pos n, brOk b -> br_bitoffset b = 0 -> BytesReader.pos (br_reader b) = br_byteoffset b -> br_pos b + n <= 8 * len (br_data b) -> scratchOk scratch -> rangeOk out pos n -> n < Z.of_nat fuel ->
  exists b' scratch' out' k, BRB.groupLoop fuel b scratch out pos n = Some (b', scratch', out', k, None) /\ 0 <= k <= n /\ movedTo b b' (br_pos b + k) /\ br_bitoffset b' = 0 /\ scratchOk scratch' /\ bitsPut out pos k (bitsFrom b) out'.
Proof.
  induction fuel as [|fuel IH]; intros b scratch out pos n HO H0 Hrd Hle [Hsb HsL] HR Hfu; [destruct HR as (_ & _ & ? & _); lia|]. pose proof HR as (Hb & Hp & Hn & Hfit & Hmx).
  assert (Hstop : exists b' scratch' out' k, Some (b, scratch, out, 0, @None goerr) = Some (b', scratch', out', k, None) /\ 0 <= k <= n /\ movedTo b b' (br_pos b + k) /\ br_bitoffset b' = 0 /\ scratchOk scratch' /\ bitsPut out pos k (bitsFrom b) out').
  { exists b, scratch, out, 0. splits; auto; try lia; [rewrite Z.add_0_r; now apply movedTo_refl|split; assumption|now apply bitsPut_refl]. }
  cbn [BRB.groupLoop]. destruct (Z.ltb_spec 0 n) as [Hlt|Hge]; [|exact Hstop]. rewrite Z.quot_div_nonneg by (unfold buflen; lia). set (batch := Z.min buflen n / 32 * 32). destruct (Z.eqb_spec batch 0) as [Hz|Hz]; [exact Hstop|]. clear Hstop.
  assert (HB : 32 <= batch <= n /\ batch <= buflen /\ batch mod 32 = 0) by (subst batch; unfold buflen in *; zdiv). destruct HB as (HB1 & HB2 & HB3). unfold buflen in HB2, HsL. rewrite Z.quot_div_nonneg by lia. set (m := batch / 8). assert (Hm : 4 <= m /\ 8 * m = batch /\ m mod 4 = 0) by (subst m; zdiv). destruct Hm as (Hm1 & Hm2 & Hm3).
  assert (Hpos : br_pos b = 8 * br_byteoffset b) by (unfold br_pos; lia). assert (Hboff : 0 <= br_byteoffset b) by apply HO. pose proof (ok_bytes _ HO) as Hdb. rewrite BytesReader.ReadFull_ok by (rewrite ?Hrd; fold (br_data b); lia). rewrite Hrd. fold (br_data b). set (bs := firstn _ (skipn _ (br_data b))). assert (HLb : len bs = m) by (subst bs; rewrite length_firstn, length_skipn; lia).
  assert (Hbs : bytes bs) by (subst bs; auto with gobytes). rewrite splice_in by lia. cbn [firstn app Nat.add]. set (scratch1 := bs ++ skipn _ scratch). rewrite slice_ok by (subst scratch1; rewrite ?length_app; lia). cbn [opt_bind Z.to_nat skipn]. rewrite Z.sub_0_r, HLb. replace (firstn (Z.to_nat m) scratch1) with bs by (subst scratch1; now rewrite firstn_app_exact by lia).
  rewrite Z.quot_div_nonneg by lia. replace (m / 4 * 4) with m by zdiv. bool_lia (0 <? m). destruct (copyPacked_ok bs out pos m Hbs ltac:(lia)) as (out1 & -> & HP1); [red; splits; auto; lia|]. cbn [opt_bind]. replace (m * 8) with batch by lia. rewrite Hm2 in HP1. pose proof (bitsPut_bytes _ _ _ _ _ HP1) as [Hb1 HL1].
  set (b1 := mkBR _ _ _ _ _ _). assert (HM1 : movedTo b b1 (br_pos b + batch)) by (split; [|split; [reflexivity|unfold br_pos; cbn [b1 br_byteoffset br_bitoffset]; lia]]; destruct HO as [A1 A2 A3 A4 A5]; constructor; [exact A1|cbn [b1 br_byteoffset]; lia|exact A3|exact A4|cbn [b1 br_bitoffset]; congruence]).
  destruct (movedTo_val _ _ _ HM1) as (HV & HD & HPb). destruct (IH b1 scratch1 out1 (pos + batch) (n - batch)) as (b' & scratch' & out' & k & -> & Hk & HM' & Hb' & Hs' & HP'); [apply HM1|exact H0|cbn; reflexivity|rewrite HD, HPb; lia| |red; splits; auto; lia|lia|].
  { split; [subst scratch1; apply bytes_app; split; auto with gobytes|]. subst scratch1. unfold buflen. rewrite length_app, length_skipn. lia. }
  cbn [opt_bind]. exists b', scratch', out', (batch + k). rewrite HPb in HM'. splits; auto; try lia; [rewrite Z.add_assoc; eauto using movedTo_trans|]. apply (bitsPut_trans _ _ _ _ _ out1); [lia|lia| |].
  - apply (bitsPut_ext _ _ _ _ _ _ HP1). intros i Hi. unfold bitsFrom. rewrite Hpos. subst bs. rewrite leval_firstn, testbit_field by (auto with gobytes; lia). rewrite Z2Nat.id by lia. bool_lia (0 <=? i). bool_lia (i <? 8 * m). cbn [andb]. rewrite Z.add_0_l, testbit_skip by (assumption || lia). reflexivity.
  - apply (bitsPut_ext _ _ _ _ _ _ HP'). intros i Hi. now apply bitsFrom_moved.
Qed.

(** The bits of the reader, in the range of the bitmap. *)
Lemma GetBatchBitmap_ok b scratch out pos n : brOk b -> br_pos b + n <= 8 * len (br_data b) -> scratchOk scratch -> rangeOk out pos n -> 8 * len out < 2 ^ 63 ->
  exists b' scratch' out', BRB.GetBatchBitmap b scratch out pos n = Some (b', scratch', out', n, None) /\ movedTo b b' (br_pos b + n) /\ scratchOk scratch' /\ bitsPut out pos n (bitsFrom b) out'.
Proof.
  intros HO Hle Hs HR Hmx. pose proof HR as (Hb & Hp & Hn & Hfit & Hmr). unfold BRB.GetBatchBitmap. destruct (Z.eqb_spec n 0) as [->|Hne]; [exists b, scratch, out; splits; auto; [rewrite Z.add_0_r; now apply movedTo_refl|now apply bitsPut_refl]|].
  destruct (bitLoop_ok true (Z.to_nat n) b out pos HO) as (b1 & out1 & i1 & -> & Hi1 & HM1 & HP1 & Hend); [intros [?|?]; [discriminate|now apply HO]|lia|split; assumption|lia|lia|]. cbn [opt_bind]. destruct (movedTo_val _ _ _ HM1) as (HV1 & HD1 & Hpos1). pose proof (bitsPut_bytes _ _ _ _ _ HP1) as [Hb1 HL1]. rewrite Z2Nat.id in * by lia.
  assert (HS : movedTo b1 (BR.seekTo b1) (br_pos b1)) by (split; [now destruct HM1 as [[] _]|split; reflexivity]).
  assert (HG : exists b2 scratch2 out2 i2, BRB.groupLoop (S (Z.to_nat n)) (BR.seekTo b1) scratch out1 (pos + i1) (n - i1) = Some (b2, scratch2, out2, i2, None) /\ 0 <= i2 <= n - i1 /\ movedTo b1 b2 (br_pos b1 + i2) /\ scratchOk scratch2 /\ bitsPut out1 (pos + i1) i2 (bitsFrom b1) out2).
  { destruct Hend as [->|[_ Hal]].
    - rewrite Z.sub_diag. exists (BR.seekTo b1), scratch, out1, 0. splits; auto; try lia; [rewrite Z.add_0_r; exact HS|now apply bitsPut_refl].
    - destruct (groupLoop_ok (S (Z.to_nat n)) (BR.seekTo b1) scratch out1 (pos + i1) (n - i1)) as (b2 & s2 & out2 & i2 & HE & Hi2 & HM2 & _ & Hs2 & HP2); [apply HS|exact Hal|reflexivity|change (br_pos (BR.seekTo b1)) with (br_pos b1); change (br_data (BR.seekTo b1)) with (br_data b1); rewrite Hpos1, HD1; lia|assumption|red; splits; auto; lia|lia|].
      exists b2, s2, out2, i2. splits; auto; lia. }
  destruct HG as (b2 & scratch2 & out2 & i2 & -> & Hi2 & HM2 & Hs2 & HP2). cbn [opt_bind]. destruct (movedTo_val _ _ _ HM2) as (HV2 & HD2 & Hpos2). pose proof (bitsPut_bytes _ _ _ _ _ HP2) as [Hb2 HL2]. pose proof HM2 as [HO2 _].
  destruct (fillbuffer_ok b2 ltac:(apply HO2) ltac:(apply HO2) ltac:(apply HO2)) as (b3 & -> & HO3 & HF3 & HD3 & Hby & Hbi & _). assert (HM3 : movedTo b2 b3 (br_pos b2)) by (split; [assumption|split; [assumption|unfold br_pos; lia]]). destruct (movedTo_val _ _ _ HM3) as (HV3 & HD3' & Hpos3).
  destruct (bitLoop_ok false (Z.to_nat (n - i1 - i2)) b3 out2 (pos + i1 + i2) HO3) as (b4 & out4 & i4 & -> & Hi4 & HM4 & HP4 & Hend4); [auto|rewrite HD3', HD2, HD1, Hpos3, Hpos2, Hpos1; lia|split; [assumption|lia]|lia|lia|]. cbn [opt_bind]. destruct Hend4 as [->|[? _]]; [|discriminate]. rewrite Z2Nat.id in * by lia.
  assert (HM12 : movedTo b b2 (br_pos b + (i1 + i2))) by (replace (br_pos b + (i1 + i2)) with (br_pos b1 + i2) by lia; eauto using movedTo_trans). assert (HM13 : movedTo b b3 (br_pos b + (i1 + i2))) by (replace (br_pos b + (i1 + i2)) with (br_pos b2) by lia; eauto using movedTo_trans).
  exists b4, scratch2, out4. split; [reflexivity|]. splits; auto.
  - replace (br_pos b + n) with (br_pos b3 + (n - i1 - i2)) by lia. eauto using movedTo_trans.
  - replace n with (i1 + (i2 + (n - i1 - i2))) by lia. apply (bitsPut_trans _ _ _ _ _ out1); [lia|lia|assumption|]. apply (bitsPut_trans _ _ _ _ _ out2); [lia|lia| |].
    + apply (bitsPut_ext _ _ _ _ _ _ HP2). intros i Hi. now apply bitsFrom_moved.
    + apply (bitsPut_ext _ _ _ _ _ _ HP4). intros i Hi. rewrite (bitsFrom_moved _ _ _ _ HM13). f_equal. lia.
Qed.

(** ** The sink *)

(** The bits for the values [vs], and [room] more. *)
Definition bitmapSink_ok (orig : list Z) (off : Z) : SinkOk RDB.bitmapSink.
Proof.
  refine {| sk_max := 1; sk_rel := fun s vs room => exists out scratch, s = Some (out, off + len vs, scratch) /\ scratchOk scratch /\ rangeOk orig off (len vs + room) /\ 8 * len orig < 2 ^ 63 /\ 0 <= room /\ bitsPut orig off (len vs) (fun i => negb (nth (Z.to_nat i) vs 0 =? 0)) out |}.
  - intros s vs room v n (out & scratch & -> & Hs & HR & Hmx & Hro & HP) Hn. pose proof HR as (Hb & Ho & _ & Hfit & Hmr). pose proof (bitsPut_bytes _ _ _ _ _ HP) as [Hb1 HL1]. cbn [RD.sk_rep RDB.bitmapSink opt_bind]. destruct (SetBitsTo_ok out (off + len vs) n (negb (v =? 0)) Hb1 ltac:(lia) ltac:(lia) ltac:(lia)) as (out' & -> & H1 & H2 & H3). cbn [opt_bind].
    exists out', scratch. rewrite length_app, repeat_length, Nat2Z.inj_add, Z2Nat.id by lia. split; [do 3 f_equal; lia|]. splits; auto; try lia; [now replace (len vs + n + (room - n)) with (len vs + room) by lia|]. apply (bitsPut_trans _ _ _ _ _ out); [lia|lia| |].
    + apply (bitsPut_ext _ _ _ _ _ _ HP). intros i Hi. now rewrite app_nth1 by lia.
    + split; [assumption|]. split; [assumption|]. intros j Hj. rewrite H3 by assumption. destruct (Z.leb_spec (off + len vs) j), (Z.ltb_spec j (off + len vs + n)); cbn [andb]; try reflexivity. rewrite app_nth2 by lia. f_equal. f_equal. rewrite (nth_indep _ 0 v) by (rewrite repeat_length; lia). now rewrite nth_repeat.
  - intros b w s vs room n HO Hw _ (out & scratch & -> & Hs & HR & Hmx & Hro & HP) Hn Hle. assert (w = 1) as -> by lia. pose proof HR as (Hb & Ho & _ & Hfit & Hmr). pose proof (bitsPut_bytes _ _ _ _ _ HP) as [Hb1 HL1]. cbn [RD.sk_lit RDB.bitmapSink opt_bind]. rewrite Z.mul_1_r in *.
    destruct (GetBatchBitmap_ok b scratch out (off + len vs) n HO Hle Hs ltac:(red; splits; auto; lia) ltac:(lia)) as (b' & scratch' & out' & -> & HM & Hs' & HP'). cbn [opt_bind]. eexists _, _. split; [reflexivity|]. split; [assumption|]. exists out', scratch'. rewrite length_app, length_fields, Nat2Z.inj_add, Z2Nat.id by lia. split; [do 3 f_equal; lia|].
    splits; auto; try lia; [now replace (len vs + n + (room - n)) with (len vs + room) by lia|]. apply (bitsPut_trans _ _ _ _ _ out); [lia|lia| |].
    + apply (bitsPut_ext _ _ _ _ _ _ HP). intros i Hi. now rewrite app_nth1 by lia.
    + apply (bitsPut_ext _ _ _ _ _ _ HP'). intros i Hi. rewrite app_nth2 by lia. replace (Z.to_nat (len vs + i) - List.length vs)%nat with (Z.to_nat i) by lia. unfold bitsFrom. rewrite <- field_bit by (destruct HO; unfold br_pos; lia). rewrite nth_fields by lia. now rewrite Z.mul_1_r, Z2Nat.id by lia.
Defined.
