(* ===== verification/BooleanRle.v ===== *)
(** * RLE boolean pages (parquet/internal/encoding/boolean_encoder.go, boolean_decoder.go)

    The encoder keeps the booleans and runs the RLE encoder over them when a page is finished; the
    page is the number of bytes in four bytes, then the runs.  [fresh] is the buffer the pool
    returns; [scratch] is what [unpackBuf] of the bit reader holds when a call starts. *)

From Stdlib Require Import ZArith List Lia Bool String.
From S2P Require Import Prelude GoStd BitUtil BitRuns BitWriter BitReader RleFormat RleDecoder RleEncoder Memory Spaced Bitmaps BitmapOps Booleans BitReaderBitmap.
Import ListNotations.
#[local] Open Scope Z_scope.
#[local] Open Scope go_scope.

Definition rleLengthInBytes : Z := 4.

Record RleBooleanEncoder : Type := mkRB { rb_sink : PooledBufferWriter.t; rb_bufferedValues : list bool; rb_scratch : list bool }.

Module RB.

Definition newEncoder (fresh : Buffer.t) : RleBooleanEncoder := mkRB (PooledBufferWriter.NewPooledBufferWriter fresh 1024) [] [].

Definition Put (enc : RleBooleanEncoder) (ins : list bool) : RleBooleanEncoder := mkRB (rb_sink enc) (rb_bufferedValues enc ++ ins) (rb_scratch enc).

Definition PutSpaced (enc : RleBooleanEncoder) (ins : list bool) (validBits : list Z) (validBitsOffset : Z) : option RleBooleanEncoder :=
  let s := BE.scratchOf (rb_scratch enc) (List.length ins) in
  r <- spacedCompress ins (fst s) validBits validBitsOffset ;;
  vals <- slice (fst r) 0 (snd r) ;;
  Some (Put (mkRB (rb_sink enc) (rb_bufferedValues enc) (fst r ++ snd s)) vals).

(** One bit of a run: the scratch slice and [idx]. *)
Definition extractStep (bitmap : list Z) (base : Z) (i : Z) (st : list bool * Z) : option (list bool * Z) :=
  let '(scratch, idx) := st in
  v <- BitIsSet bitmap (base + i) ;;
  scratch <- store scratch idx v ;;
  Some (scratch, idx + 1).

Definition extractRun (bitmap : list Z) (bitmapOffset pos n : Z) (st : list bool * Z) : option (list bool * Z * option goerr) :=
  st <- for_up (Z.to_nat n) 0 (extractStep bitmap (bitmapOffset + pos)) st ;; Some (st, None).

Definition PutSpacedBitmap (enc : RleBooleanEncoder) (bitmap : list Z) (bitmapOffset numValues : Z) (validBits : list Z) (validBitsOffset : Z) : option (RleBooleanEncoder * Z) :=
  if numValues =? 0 then Some (enc, 0)
  else
    numValid <- CountSetBits validBits validBitsOffset numValues ;;
    if numValid =? 0 then Some (enc, 0)
    else
      let s := BE.scratchOf (rb_scratch enc) (Z.to_nat numValid) in
      reader <- SBR.newBaseSetBitRunReader validBits validBitsOffset numValues false ;;
      r <- SBR.VisitRuns reader (extractRun bitmap bitmapOffset) (fst s, 0) ;;
      let '(scratch, idx) := snd (fst r) in
      vals <- slice scratch 0 idx ;;
      Some (Put (mkRB (rb_sink enc) (rb_bufferedValues enc) (scratch ++ snd s)) vals, numValid).

Definition maxRleBufferSize (enc : RleBooleanEncoder) : Z := MaxRLEBufferSize 1 (len (rb_bufferedValues enc)) + MinRLEBufferSize 1.

Definition EstimatedDataEncodedSize (enc : RleBooleanEncoder) : Z := rleLengthInBytes + maxRleBufferSize enc.

(** The values into the RLE encoder; the errors of its [Put] are not looked at. *)
Definition putAll (e : RleEncoder PooledBufferWriter.t) (vs : list bool) : RleEncoder PooledBufferWriter.t := fold_left (fun e (v : bool) => fst (RE.Put e (if v then 1 else 0))) vs e.

(** [binary.LittleEndian.PutUint32(buf.Bytes(), v)] *)
Definition PutUint32 (buf : Buffer.t) (v : Z) : option Buffer.t :=
  if len (Buffer.Bytes buf) <? 4 then None else Some (Buffer.mk (splice (Buffer.buf buf) 0 (lebytes 4 v)) (Buffer.spare buf) (Buffer.length buf)).

Definition FlushValues (fresh : Buffer.t) (enc : RleBooleanEncoder) : option (RleBooleanEncoder * Buffer.t) :=
  let sink := PooledBufferWriter.SetOffset (rb_sink enc) rleLengthInBytes in
  let sink := PooledBufferWriter.Reserve sink (maxRleBufferSize enc) in
  let '(e, n) := RE.Flush (putAll (RE.NewRleEncoder sink 1) (rb_bufferedValues enc)) in
  let '(sink, buf) := PooledBufferWriter.Finish fresh (bw_wr (re_w e)) in
  buf <- PutUint32 buf (u32 n) ;;
  Some (mkRB sink (rb_bufferedValues enc) (rb_scratch enc), buf).

End RB.

(** ** The decoder *)

Record RleBooleanDecoder : Type := mkRBD { rbd_nvals : Z; rbd_rleDec : option RleDecoder }.

Module RBD.

(** The decoder afterwards and the error. *)
Definition SetData (dec : RleBooleanDecoder) (nvals : Z) (data : list Z) : option (RleBooleanDecoder * option goerr) :=
  let dec := mkRBD nvals (rbd_rleDec dec) in
  if len data <? 4 then Some (dec, Some (ErrMsg "invalid length (corrupt data page?)"))
  else
    head <- slice data 0 4 ;;
    let nbytes := leval head in
    if len data - 4 <? nbytes then Some (dec, Some (ErrMsg "received invalid number of bytes (corrupt data page?)"))
    else
      data <- slice data 4 (4 + nbytes) ;;
      Some (mkRBD nvals (Some (match rbd_rleDec dec with
                               | None => RD.NewRleDecoder (BytesReader.new data) 1
                               | Some r => RD.Reset r (BytesReader.new data) 1
                               end)), None).

Definition Discard (dec : RleBooleanDecoder) (n : Z) : option (RleBooleanDecoder * Z * option goerr) :=
  let n := Z.min n (rbd_nvals dec) in
  rle <- rbd_rleDec dec ;;
  r <- RD.Discard rle n ;;
  Some (mkRBD (rbd_nvals dec - snd r) (Some (fst r)), snd r, None).

(** The loop of [Decode]: [n] of [max] values are missing; [buf] has room for 1024; the part of
    [out] that is filled, and the rest. *)
Fixpoint decodeLoop (fuel : nat) (rle : RleDecoder) (buf : list Z) (n : Z) (filled out : list bool) : option (RleDecoder * list bool * list bool * Z * option goerr) :=
  if 0 <? n then
    match fuel with
    | O => None
    | S fuel' =>
        let batch := Z.min (len buf) n in
        vals <- slice buf 0 batch ;;
        r <- RD.GetBatch rle vals ;;
        let '(rle, vals, decoded, err) := r in
        let buf := vals ++ skipn (Z.to_nat batch) buf in
        got <- slice buf 0 decoded ;;
        rest <- slice out decoded (len out) ;;
        let filled := filled ++ map (fun v => negb (v =? 0)) got in
        let n := n - decoded in
        match err with
        | Some e => Some (rle, filled, rest, n, Some e)
        | None => if negb (decoded =? batch) then Some (rle, filled, rest, n, Some ErrUnexpectedEOF) else decodeLoop fuel' rle buf n filled rest
        end
    end
  else Some (rle, filled, out, n, None).

Definition Decode (dec : RleBooleanDecoder) (out : list bool) : option (RleBooleanDecoder * list bool * Z * option goerr) :=
  let max := Z.min (len out) (rbd_nvals dec) in
  match rbd_rleDec dec with
  | None => if 0 <? max then None else Some (mkRBD (rbd_nvals dec - max) None, out, max, None)
  | Some rle =>
      r <- decodeLoop (S (Z.to_nat max)) rle (repeat 0 1024) max [] out ;;
      let '(rle, filled, rest, n, err) := r in
      match err with
      | Some e => Some (mkRBD (rbd_nvals dec - (max - n)) (Some rle), filled ++ rest, max - n, Some e)
      | None => Some (mkRBD (rbd_nvals dec - max) (Some rle), filled ++ rest, max, None)
      end
  end.

Definition DecodeToBitmap (scratch : list Z) (dec : RleBooleanDecoder) (out : list Z) (outOffset length : Z) : option (RleBooleanDecoder * list Z * Z * option goerr) :=
  let max := Z.min length (rbd_nvals dec) in
  if max =? 0 then Some (dec, out, 0, None)
  else
    rle <- rbd_rleDec dec ;;
    r <- RDB.GetBatchBitmap rle scratch out outOffset max ;;
    let '(rle, _, out, decoded, err) := r in
    let dec := mkRBD (rbd_nvals dec - decoded) (Some rle) in
    match err with
    | Some e => Some (dec, out, decoded, Some e)
    | None => if negb (decoded =? max) then Some (dec, out, decoded, Some ErrUnexpectedEOF) else Some (dec, out, max, None)
    end.

Definition mismatch : goerr := ErrMsg "parquet: rle boolean decoder: number of values / definition levels read did not match".

Definition DecodeSpaced : RleBooleanDecoder -> list bool -> Z -> list Z -> Z -> option (RleBooleanDecoder * list bool * Z * option goerr) := spacedDecode Decode mismatch.

Definition DecodeSpacedToBitmap (scratch : list Z) : RleBooleanDecoder -> list Z -> Z -> Z -> Z -> list Z -> Z -> option (RleBooleanDecoder * list Z * Z * option goerr) := decodeSpacedToBitmap (DecodeToBitmap scratch).

End RBD.
