(* ===== verification/BooleanRleOk.v ===== *)
(** * RLE boolean pages are read back

    The RLE encoder writes through offsets, so that the length of a page is that of its last
    write: [reached] says that the writer has written up to its position.  With it the page of the
    encoder is the length and the runs, and the decoder stands in front of their values. *)

From Stdlib Require Import ZArith List Lia Bool.
From S2P Require Import Prelude GoStd BitUtil BitRuns BitBlocks BitWriter BitReader RleFormat RleDecoder RleEncoder Codec Memory Spaced Bitmaps BitmapOps BitmapsOk Booleans BooleansOk BooleanDecode BooleanSpaced BitReaderBitmap BooleanRle.
Import ListNotations.
#[local] Open Scope Z_scope.
#[local] Open Scope go_scope.

(** ** How far a pooled writer has been written *)

Section Reach.
Import PooledBufferWriter.

Definition reach (s : t) : Z := Z.max (Buffer.length (buf s)) (pos s) - offset s.

(** A step of the writer: it keeps its position and its offset, and reaches as far or further. *)
Definition grows (s s' : t) : Prop := pos s' = pos s /\ offset s' = offset s /\ reach s <= reach s' /\ Buffer.Cap (buf s) <= Buffer.Cap (buf s').

Lemma sinkGrows_refl s : grows s s.
Proof. repeat split; lia. Qed.

Lemma sinkGrows_trans s s1 s2 : grows s s1 -> grows s1 s2 -> grows s s2.
Proof. intros (A1 & A2 & A3 & A4) (B1 & B2 & B3 & B4). repeat split; (congruence || lia). Qed.

Lemma Reserve_grows s n : grows s (Reserve s n).
Proof. destruct (Reserve_extends s n) as (u & Hu & _). repeat split; unfold reach, Buffer.Cap; [rewrite Reserve_length; cbn; lia|]. rewrite Hu, length_app. lia. Qed.

Lemma writeAt_grows s p off : grows s (fst (fst (writeAt s p off))) /\ snd (writeAt s p off) = None /\ (0 < len p -> off + len p <= reach (fst (fst (writeAt s p off)))).
Proof.
  unfold writeAt. destruct (Z.eqb_spec (len p) 0) as [H0|H0]; [cbn [fst snd]; splits; auto using sinkGrows_refl; lia|]. set (b1 := if Buffer.Cap _ <=? _ then _ else s). assert (HG : grows s b1 /\ Buffer.length (buf b1) = Buffer.length (buf s)) by (subst b1; destruct (_ <=? _); [split; [apply Reserve_grows|apply Reserve_length]|split; [apply sinkGrows_refl|reflexivity]]).
  destruct HG as ((Hp & Ho & _ & Hc) & HL). cbn [fst snd]. assert (HR : forall b need, Buffer.length (if Buffer.Len b <? need then Buffer.ResizeNoShrink b need else b) = Z.max (Buffer.length b) need) by (intros b need; unfold Buffer.Len; destruct (Z.ltb_spec (Buffer.length b) need); [cbn; lia|lia]).
  assert (HC : forall b need, Buffer.Cap b <= Buffer.Cap (if Buffer.Len b <? need then Buffer.ResizeNoShrink b need else b)) by (intros b need; destruct (_ <? _); [|lia]; destruct (ResizeNoShrink_extends b need) as (u & Hu & _); unfold Buffer.Cap; rewrite Hu, length_app; lia).
  unfold grows, reach. cbn [buf pos offset]. rewrite !HR. cbn [Buffer.length]. splits; auto; try lia. etransitivity; [exact Hc|]. etransitivity; [|apply HC]. unfold Buffer.Cap. cbn [Buffer.buf]. destruct (Z.le_gt_cases (Z.of_nat (Z.to_nat (off + offset s))) (len (Buffer.buf (buf b1)))); [rewrite length_splice by lia; lia|]. unfold splice. rewrite !length_app, !length_firstn, length_skipn. lia.
Qed.
End Reach.

(** ** The bit writer has written up to its position *)

Abbreviation pooled := PooledBufferWriter.t.

Definition bwReached (b : BitWriter pooled) : Prop := 0 <= bw_bitoffset b < 64 /\ 0 <= bw_byteoffset b /\ (bw_bitoffset b = 0 -> bw_byteoffset b <= reach (bw_wr b)).

Lemma Flush_reached align b : bwReached b -> let b' := BW.Flush align b in
  bwReached b' /\ grows (bw_wr b) (bw_wr b') /\ BW.Written b' <= reach (bw_wr b') /\ (align = true -> bw_bitoffset b' = 0 /\ bw_byteoffset b' <= reach (bw_wr b')).
Proof.
  intros (H1 & H2 & H3). unfold BW.Flush. destruct (Z.ltb_spec 0 (bw_bitoffset b)) as [Hb|Hb].
  - rewrite BytesForBits_div by lia. set (nb := (bw_bitoffset b + 7) / 8). assert (Hnb : 1 <= nb <= 8) by (subst nb; zdiv). set (p := firstn _ _). assert (HLp : len p = nb) by (subst p; rewrite length_firstn, length_lebytes; lia).
    destruct (writeAt_grows (bw_wr b) p (bw_byteoffset b)) as (HG & _ & HR). specialize (HR ltac:(lia)). change (WriteAt (bw_wr b) p (bw_byteoffset b)) with (PooledBufferWriter.writeAt (bw_wr b) p (bw_byteoffset b)). set (s := fst (fst _)) in *.
    destruct align; cbn [bw_wr bw_bitoffset bw_byteoffset]; unfold bwReached, BW.Written; cbn [bw_wr bw_bitoffset bw_byteoffset]; rewrite ?BytesForBits_div by lia; fold nb; change ((0 + 7) / 8) with 0; splits; auto; try lia.
  - assert (H0 : bw_bitoffset b = 0) by lia. specialize (H3 H0). destruct align; cbn [bw_wr bw_bitoffset bw_byteoffset]; unfold bwReached, BW.Written; cbn [bw_wr bw_bitoffset bw_byteoffset]; rewrite ?H0, ?BytesForBits_div by lia; change ((0 + 7) / 8) with 0; splits; auto using sinkGrows_refl; try lia.
Qed.

(** Bytes at the aligned position. *)
Lemma aligned_write b p (ok : bool) b' : bw_bitoffset b = 0 -> 0 <= bw_byteoffset b -> 0 < len p ->
  (let '(wr, _, e) := WriteAt (bw_wr b) p (bw_byteoffset b) in match e with Some _ => (BitWriter.mkBW wr (bw_buffer b) (bw_byteoffset b) (bw_bitoffset b), false) | None => (BitWriter.mkBW wr (bw_buffer b) (bw_byteoffset b + len p) (bw_bitoffset b), true) end) = (b', ok) ->
  bwReached b' /\ grows (bw_wr b) (bw_wr b').
Proof.
  intros H0 Hb Hp. destruct (writeAt_grows (bw_wr b) p (bw_byteoffset b)) as (HG & HE & HR). specialize (HR Hp). change (WriteAt (bw_wr b) p (bw_byteoffset b)) with (PooledBufferWriter.writeAt (bw_wr b) p (bw_byteoffset b)). destruct (PooledBufferWriter.writeAt _ _ _) as [[wr k] e]. cbn [fst snd] in *. subst e. intros HE. injection HE as <- <-.
  unfold bwReached. cbn [bw_wr bw_bitoffset bw_byteoffset]. splits; auto; lia.
Qed.

Lemma WriteVlqInt_reached b v b' ok : bwReached b -> 0 <= v -> BW.WriteVlqInt b v = (b', ok) -> bwReached b' /\ grows (bw_wr b) (bw_wr b').
Proof.
  intros HB Hv HE. destruct (Flush_reached true b HB) as ((_ & Hy & _) & HG & _ & Hal). destruct (Hal eq_refl) as [H0 _]. unfold BW.WriteVlqInt in HE. assert (HL : 1 <= len (Binary.PutUvarint v)) by (pose proof (Binary.putUvarint_length Binary.MaxVarintLen64 v) as H; unfold Binary.PutUvarint, Binary.MaxVarintLen64 in *; lia).
  apply aligned_write in HE; [|assumption|assumption|lia]. destruct HE as [HE1 HE2]. split; [assumption|]. eapply sinkGrows_trans; eassumption.
Qed.

Lemma WriteAligned_reached b v b' ok : bwReached b -> BW.WriteAligned b v 1 = (b', ok) -> bwReached b' /\ grows (bw_wr b) (bw_wr b').
Proof.
  intros HB HE. destruct (Flush_reached true b HB) as ((_ & Hy & _) & HG & _ & Hal). destruct (Hal eq_refl) as [H0 _]. unfold BW.WriteAligned in HE. change 1 with (len (firstn (Z.to_nat 1) (lebytes 8 v))) in HE at 2.
  apply aligned_write in HE; [|assumption|assumption|reflexivity]. destruct HE as [HE1 HE2]. split; [assumption|]. eapply sinkGrows_trans; eassumption.
Qed.

(** Bits: any of them bring the writer up to its position. *)
Lemma WriteValues_reached : forall vs b, 0 <= bw_bitoffset b < 64 -> 0 <= bw_byteoffset b -> (vs = [] -> bwReached b) ->
  exists b', BW.WriteValues b vs 1 = (b', None) /\ bwReached b' /\ grows (bw_wr b) (bw_wr b').
Proof.
  induction vs as [|v vs IH]; intros b Hb Hy Hne; cbn [BW.WriteValues]; [exists b; split; [reflexivity|]; split; [now apply Hne|apply sinkGrows_refl]|]. destruct (Z.leb_spec 64 (bw_bitoffset b + 1)) as [H64|H64].
  - set (p := lebytes 8 _). destruct (writeAt_grows (bw_wr b) p (bw_byteoffset b)) as (HG & HE & HR). assert (HLp : len p = 8) by (subst p; rewrite length_lebytes; reflexivity). specialize (HR ltac:(lia)). change (WriteAt (bw_wr b) p (bw_byteoffset b)) with (PooledBufferWriter.writeAt (bw_wr b) p (bw_byteoffset b)). destruct (PooledBufferWriter.writeAt _ _ _) as [[wr k] e]. cbn [fst snd] in *. subst e.
    destruct (IH (BitWriter.mkBW wr (shr64 v (1 - (bw_bitoffset b + 1 - 64))) (bw_byteoffset b + 8) (bw_bitoffset b + 1 - 64))) as (b' & -> & HB & HG'); [cbn; lia|cbn; lia|intros _; unfold bwReached; cbn [bw_wr bw_bitoffset bw_byteoffset]; splits; lia|]. exists b'. split; [reflexivity|]. split; [assumption|]. eapply sinkGrows_trans; [exact HG|exact HG'].
  - destruct (IH (BitWriter.mkBW (bw_wr b) (Z.lor (bw_buffer b) (u64 (Z.shiftl v (bw_bitoffset b)))) (bw_byteoffset b) (bw_bitoffset b + 1))) as (b' & -> & HB & HG'); [cbn; lia|cbn; lia|intros _; unfold bwReached; cbn [bw_wr bw_bitoffset bw_byteoffset]; splits; lia|]. eauto.
Qed.

(** ** The encoder *)

Definition reReached (r : RleEncoder pooled) : Prop := bwReached (re_w r) /\ re_bitWidth r = 1 /\ (re_litCount r = 0 \/ re_litOff r <> -1).

Definition reGrows (r r' : RleEncoder pooled) : Prop := grows (bw_wr (re_w r)) (bw_wr (re_w r')).

Lemma flushLiteral_reached r upd : bwReached (re_w r) -> re_bitWidth r = 1 -> (re_litOff r = -1 -> re_buffer r <> []) -> reReached (fst (RE.flushLiteral r upd)) /\ reGrows r (fst (RE.flushLiteral r upd)).
Proof.
  intros HB HW Hne. unfold RE.flushLiteral. rewrite HW.
  assert (H1 : exists w1 off, (if re_litOff r =? -1 then BW.SkipBytes (re_w r) 1 else (re_w r, re_litOff r)) = (w1, off) /\ 0 <= bw_bitoffset w1 < 64 /\ 0 <= bw_byteoffset w1 /\ (re_buffer r = [] -> bwReached w1) /\ grows (bw_wr (re_w r)) (bw_wr w1) /\ off <> -1).
  { destruct (Z.eqb_spec (re_litOff r) (-1)) as [Ho|Ho].
    - destruct (Flush_reached true (re_w r) HB) as ((_ & Hy & _) & HG & _ & Hal). destruct (Hal eq_refl) as [H0 _]. unfold BW.SkipBytes. eexists _, _. split; [reflexivity|]. cbn [bw_wr bw_bitoffset bw_byteoffset]. rewrite H0. splits; try lia; [intros He; now apply Hne in He|]. eapply sinkGrows_trans; [exact HG|apply Reserve_grows].
    - exists (re_w r), (re_litOff r). pose proof HB as (? & ? & _). splits; auto using sinkGrows_refl; lia. }
  destruct H1 as (w1 & off & -> & Hb & Hy & Hr & HG & Ho). destruct (WriteValues_reached (re_buffer r) w1 Hb Hy Hr) as (w2 & -> & HB2 & HG2). pose proof (sinkGrows_trans _ _ _ HG HG2) as HG12. destruct upd.
  - unfold BW.WriteAtBW. set (p := [_]). destruct (writeAt_grows (bw_wr w2) p off) as (HG3 & HE & _). change (WriteAt (bw_wr w2) p off) with (PooledBufferWriter.writeAt (bw_wr w2) p off). destruct (PooledBufferWriter.writeAt _ _ _) as [[wr k] e]. cbn [fst snd] in *. split; [|eapply sinkGrows_trans; [exact HG12|exact HG3]].
    destruct HB2 as (A1 & A2 & A3). destruct HG3 as (_ & _ & A4 & _). unfold reReached, bwReached. cbn [re_w bw_wr bw_bitoffset bw_byteoffset re_bitWidth re_litCount]. splits; auto; try lia.
  - cbn [fst]. split; [|exact HG12]. unfold reReached. cbn [re_w re_bitWidth re_litCount re_litOff]. auto.
Qed.

Lemma flushRepeated_reached r : reReached r -> reReached (fst (RE.flushRepeated r)) /\ reGrows r (fst (RE.flushRepeated r)).
Proof.
  intros (HB & HW & HK). unfold RE.flushRepeated. rewrite HW. change (BytesForBits 1) with 1. destruct (BW.WriteVlqInt _ _) as [w1 ok1] eqn:E1. apply WriteVlqInt_reached in E1; [|assumption|apply Z.mod_pos_bound; lia]. destruct E1 as [HB1 HG1]. destruct ok1.
  - destruct (BW.WriteAligned _ _ _) as [w2 ok2] eqn:E2. apply WriteAligned_reached in E2; [|assumption]. destruct E2 as [HB2 HG2]. cbn [fst]. unfold reReached, reGrows. cbn [re_w re_bitWidth re_litCount re_litOff]. splits; auto. eapply sinkGrows_trans; eassumption.
  - cbn [fst]. unfold reReached, reGrows. cbn [re_w re_bitWidth re_litCount re_litOff]. auto.
Qed.

Lemma putBuffer_reached r v : reReached r -> reReached (fst (RE.putBuffer r v)) /\ reGrows r (fst (RE.putBuffer r v)).
Proof.
  intros HR. unfold RE.putBuffer. set (r1 := RE.setBuffer r (re_buffer r ++ [v])). assert (HR1 : reReached r1) by exact HR. change (reGrows r) with (reGrows r1). assert (Hne : re_buffer r1 <> []) by (cbn; now destruct (re_buffer r)). clearbody r1. destruct (_ =? 8); [|split; [exact HR1|apply sinkGrows_refl]]. unfold RE.flushBuffered. destruct (8 <=? re_repCount r1).
  - cbn [RE.setBuffer re_litCount]. destruct (Z.eqb_spec (re_litCount r1) 0) as [H0|H0]; cbn [negb]; [split; [exact HR1|apply sinkGrows_refl]|]. destruct HR1 as (HB & HW & HK). apply (flushLiteral_reached (RE.setBuffer r1 []) true); [exact HB|exact HW|]. cbn. destruct HK; congruence.
  - set (r2 := RE.setLit r1 _). destruct HR1 as (HB & HW & HK). assert (HF : forall upd, reReached (fst (RE.flushLiteral r2 upd)) /\ reGrows r1 (fst (RE.flushLiteral r2 upd))) by (intros upd; apply (flushLiteral_reached r2 upd); [exact HB|exact HW|intros _; exact Hne]). clearbody r2. clear - HF.
    destruct (_ <=? _); [specialize (HF true); destruct (RE.flushLiteral r2 true)|specialize (HF false); destruct (RE.flushLiteral r2 false)]; exact HF.
Qed.

Lemma Put_reached r v : reReached r -> reReached (fst (RE.Put r v)) /\ reGrows r (fst (RE.Put r v)).
Proof.
  intros HR. unfold RE.Put. destruct (_ =? v).
  - destruct (8 <? _); [split; [exact HR|apply sinkGrows_refl]|]. now apply (putBuffer_reached (RE.setRep r _)).
  - destruct (8 <=? _).
    + destruct (flushRepeated_reached r HR) as [HR1 HG1]. destruct (RE.flushRepeated r) as [r1 ok]. cbn [fst] in *. destruct ok; [|split; assumption]. destruct (putBuffer_reached (RE.setCur (RE.setRep r1 1) v) v HR1) as [HR2 HG2]. split; [assumption|]. eapply sinkGrows_trans; [exact HG1|exact HG2].
    + now apply (putBuffer_reached (RE.setCur (RE.setRep r 1) v)).
Qed.

(** After [Flush] the bytes it counts have been written. *)
Lemma Flush_end_reached r : reReached r -> let '(r', n) := RE.Flush r in n <= reach (bw_wr (re_w r')) /\ reGrows r r'.
Proof.
  intros HR. unfold RE.Flush. set (r1 := if _ || _ || _ then _ else r).
  assert (H1 : reReached r1 /\ reGrows r r1).
  { subst r1. pose proof HR as (HB & HW & HK). destruct ((0 <? re_litCount r) || (0 <? re_repCount r) || (0 <? len (re_buffer r))) eqn:E1; [|split; [exact HR|apply sinkGrows_refl]]. destruct ((0 <? re_repCount r) && _) eqn:E2; [now apply flushRepeated_reached|].
    set (pad := if _ && _ then _ else []). set (r2 := RE.setLit _ _). assert (HF : reReached (fst (RE.flushLiteral r2 true)) /\ reGrows r (fst (RE.flushLiteral r2 true))); [|destruct HF as [HF1 HF2]; split; assumption].
    apply (flushLiteral_reached r2 true); [exact HB|exact HW|]. cbn. intros Ho He. apply app_eq_nil in He as [He _]. rewrite He in *. cbn [List.length Z.of_nat] in *. destruct HK as [HK|HK]; [|contradiction]. rewrite HK in *. cbn [Z.ltb Z.compare Z.eqb orb andb] in *. rewrite orb_false_r in E1. rewrite orb_true_r, andb_true_r in E2. congruence. }
  destruct H1 as ((HB & _) & HG). destruct (Flush_reached false (re_w r1) HB) as (_ & HG2 & HWr & _). cbn [re_w]. split; [exact HWr|]. eapply sinkGrows_trans; [exact HG|exact HG2].
Qed.

(** ** The page *)

Definition bval (b : bool) : Z := if b then 1 else 0.

Section Page.
(** The writer behind the four bytes of the length. *)
#[local] Instance behindLength : WriterAtOk pooled := PooledBufferWriter_ok 4.

Lemma putAll_puts : forall vs e e', RE.puts e (map bval vs) = (e', None) -> RB.putAll e vs = e'.
Proof.
  induction vs as [|v vs IH]; intros e e' HE; cbn [map RE.puts] in HE; [now injection HE as <-|]. unfold RB.putAll in *. cbn [fold_left]. change (if v then 1 else 0) with (bval v). destruct (RE.Put e (bval v)) as [e1 [err|]]; [discriminate|]. now apply IH.
Qed.

Lemma putAll_reached : forall vs e, reReached e -> reReached (RB.putAll e vs) /\ reGrows e (RB.putAll e vs).
Proof.
  induction vs as [|v vs IH]; intros e HR; [split; [exact HR|apply sinkGrows_refl]|]. unfold RB.putAll in *. cbn [fold_left]. destruct (Put_reached e (if v then 1 else 0) HR) as [HR1 HG1]. destruct (IH _ HR1) as [HR2 HG2]. split; [assumption|]. eapply sinkGrows_trans; [exact HG1|exact HG2].
Qed.

Lemma bvals_fit vs : Forall (fits 1) (map bval vs).
Proof. apply Forall_map, Forall_forall. intros [|] _; split; cbn; lia. Qed.

(** The bytes of the page: the length, the runs, and perhaps more. *)
Definition rlePage (bytes : list Z) (runs : list run) : Prop := exists rest, bytes = lebytes 4 (len (encodes 1 runs)) ++ encodes 1 runs ++ rest.

Lemma FlushRle_ok fresh enc : sinkReady (rb_sink enc) -> freshOk fresh -> len (rb_bufferedValues enc) <= MaxInt32 ->
  exists enc' page runs k, RB.FlushValues fresh enc = Some (enc', page) /\ sinkReady (rb_sink enc') /\ rb_bufferedValues enc' = rb_bufferedValues enc /\ rb_scratch enc' = rb_scratch enc /\
    runsOk 1 runs /\ expand runs = map bval (rb_bufferedValues enc) ++ repeat 0 k /\ len (encodes 1 runs) <= MaxRLEBufferSize 1 (len (rb_bufferedValues enc)) /\ rlePage (Buffer.Bytes page) runs.
Proof.
  intros [Hok Hpos] Hfr Hmax. set (vs := rb_bufferedValues enc) in *. assert (Hoff : PooledBufferWriter.offset (rb_sink enc) = 0) by (destruct Hok as (_ & _ & ?); lia). unfold RB.FlushValues. fold vs. set (s0 := PooledBufferWriter.SetOffset _ _). set (m := RB.maxRleBufferSize enc). set (s1 := PooledBufferWriter.Reserve s0 m).
  assert (H0 : pooledOk s0) by (destruct Hok as (A & B & _); red; cbn; rewrite Hpos, Hoff; splits; auto; unfold rleLengthInBytes; lia). assert (Hp0 : PooledBufferWriter.pos s0 = 4) by (cbn; rewrite Hpos, Hoff; reflexivity). destruct (grow_ok s0 s1 (Reserve_extends _ _) eq_refl eq_refl H0) as [H1 _].
  assert (Hsz : sizeFor 1 (len vs) <= 2 ^ 61) by (unfold sizeFor, MaxInt32 in *; zdiv). assert (Hm : 0 <= m < 2 ^ 61) by (subst m; unfold RB.maxRleBufferSize; fold vs; rewrite MaxRLEBufferSize_sizeFor by lia; change (MinRLEBufferSize 1) with 65; unfold sizeFor, MaxInt32 in *; zdiv).
  assert (Hcap : 4 <= Buffer.Cap (PooledBufferWriter.buf s1)) by (pose proof (Reserve_cap s0 m ltac:(lia)); fold s1 in H; lia).
  assert (HE : encRel (2 ^ 61) 1 (RE.NewRleEncoder s1 1) []) by (apply NewRleEncoder_rel; [lia|split; [exact H1|reflexivity]|change (PooledBufferWriter.pos s1 + 2 ^ 61 < 2 ^ 62); change (PooledBufferWriter.pos s1) with (PooledBufferWriter.pos s0); lia]).
  destruct (puts_ok (2 ^ 61) 1 (RE.NewRleEncoder s1 1) [] (map bval vs) HE (bvals_fit vs)) as (e1 & HP & HE1); [cbn [List.length]; rewrite length_map; lia|cbn [List.length]; rewrite length_map, Z.add_0_l; exact Hsz|]. cbn [app] in HE1.
  assert (HR0 : reReached (RE.NewRleEncoder s1 1)) by (unfold reReached, bwReached, reach; cbn [RE.NewRleEncoder re_w BW.NewBitWriter bw_wr bw_bitoffset bw_byteoffset re_bitWidth re_litCount]; change (PooledBufferWriter.pos s1) with (PooledBufferWriter.pos s0); change (PooledBufferWriter.offset s1) with 4; splits; auto; lia).
  destruct (putAll_reached vs _ HR0) as [HR1 HG1]. rewrite (putAll_puts _ _ _ HP) in *. destruct (Flush_rel (2 ^ 61) 1 e1 (map bval vs) HE1) as (e2 & runs & k & HFl & Hruns & _ & Hexp & Hlen & Hmem); [rewrite length_map; lia|rewrite length_map; exact Hsz|]. rewrite length_map in Hlen.
  pose proof (Flush_end_reached e1 HR1) as HF. rewrite HFl in HF |- *. destruct HF as [Hreach HG2]. pose proof (sinkGrows_trans _ _ _ HG1 HG2) as (Gp & Go & _ & Gc). cbn [RE.NewRleEncoder re_w BW.NewBitWriter bw_wr] in Gp, Go, Gc. set (w := bw_wr (re_w e2)) in *. change (PooledBufferWriter.pos s1) with (PooledBufferWriter.pos s0) in Gp. change (PooledBufferWriter.offset s1) with 4 in Go. rewrite Hp0 in Gp.
  set (n := len (encodes 1 runs)) in *. unfold PooledBufferWriter.Finish. set (buf1 := if _ <? _ then _ else _). assert (He : extends (PooledBufferWriter.buf w) buf1) by (subst buf1; destruct (_ <? _); [apply ResizeNoShrink_extends|apply extends_refl]). destruct He as (u & Hu & _).
  assert (HL1 : Buffer.length buf1 = reach w + 4) by (subst buf1; unfold reach, Buffer.Len; rewrite Gp, Go; destruct (Z.ltb_spec (Buffer.length (PooledBufferWriter.buf w)) 4); cbn; lia). cbn [wbuf PooledBufferWriter.WriterAt_PooledBufferWriter] in Hmem. rewrite Go in Hmem. change (Z.to_nat 4) with 4%nat in Hmem. unfold Buffer.Cap in Gc, Hcap.
  set (mem := Buffer.buf (PooledBufferWriter.buf w)) in *. assert (Hn : n <= len mem - 4) by (apply (f_equal (@List.length Z)) in Hmem; rewrite length_firstn, length_skipn in Hmem; lia). assert (HLm : n + 4 <= len (Buffer.buf buf1)) by (rewrite Hu, length_app; lia).
  assert (Hn32 : 0 <= n < 2 ^ 32) by (unfold sizeFor, MaxInt32 in *; zdiv). unfold RB.PutUint32. assert (HLB : 4 <= len (Buffer.Bytes buf1)) by (unfold Buffer.Bytes; rewrite length_firstn; lia). destruct (Z.ltb_spec (len (Buffer.Bytes buf1)) 4); [lia|]. cbn [opt_bind].
  eexists _, _, runs, k. split; [reflexivity|]. split; [now apply (Reset_ready fresh)|]. do 2 (split; [reflexivity|]). split; [exact Hruns|]. split; [exact Hexp|]. rewrite MaxRLEBufferSize_sizeFor by lia. split; [exact Hlen|]. unfold u32. rewrite Z.mod_small by lia.
  exists (skipn (Z.to_nat n) (firstn (Z.to_nat (reach w)) (skipn 4 (Buffer.buf buf1)))). unfold Buffer.Bytes. cbn [Buffer.buf Buffer.length]. rewrite splice_in by (rewrite length_lebytes; lia). cbn [firstn app Nat.add]. rewrite length_lebytes, HL1. rewrite firstn_app, length_lebytes. rewrite (firstn_all2 (lebytes 4 n)) by (rewrite length_lebytes; lia). f_equal. replace (Z.to_nat (reach w + 4) - 4)%nat with (Z.to_nat (reach w)) by lia.
  replace (encodes 1 runs) with (firstn (Z.to_nat n) (firstn (Z.to_nat (reach w)) (skipn 4 (Buffer.buf buf1)))); [now rewrite firstn_skipn|]. rewrite firstn_firstn, Nat.min_l by lia. rewrite Hu, skipn_app. replace (4 - List.length mem)%nat with 0%nat by lia. rewrite skipn_O, firstn_app, length_skipn. replace (Z.to_nat n - (List.length mem - 4))%nat with 0%nat by lia. rewrite firstn_O, app_nil_r. subst n. now rewrite Nat2Z.id.
Qed.
End Page.

(** ** The decoder *)

Lemma bitmapLoop_width {S} (sk : RD.RunSink S) : forall fuel r s read size r' s' k e, RD.rleLoop sk fuel r s read size = Some (r', s', k, e) -> rd_bitWidth r' = rd_bitWidth r.
Proof.
  induction fuel as [|fuel IH]; intros r s read size r' s' k e; cbn [RD.rleLoop]; destruct (read <? size); try discriminate; try (intros HE; now injection HE as <- _ _ _). destruct (0 <? rd_repCount r); [intros HE; apply IH in HE; exact HE|]. destruct (0 <? rd_litCount r).
  - destruct (RD.sk_lit _ _ _ _ _) as [[[b s1] m] err]. destruct err; [intros HE; now injection HE as <- _ _ _|]. destruct (_ =? _); [intros HE; apply IH in HE; exact HE|intros HE; now injection HE as <- _ _ _].
  - pose proof (Next_width r) as HW. destruct (RD.Next r) as [r1 [|]]; cbn [fst] in HW; [intros HE; apply IH in HE; congruence|intros HE; injection HE as <- _ _ _; exact HW].
Qed.

Lemma GetBatch_width r vals r' out k e : RD.GetBatch r vals = Some (r', out, k, e) -> rd_bitWidth r' = rd_bitWidth r.
Proof. unfold RD.GetBatch. destruct (RD.rleLoop _ _ _ _ _ _) as [[[[r1 [f o]] m] err]|] eqn:E; [|discriminate]. intros HE. injection HE as <- _ _ _. now apply bitmapLoop_width in E. Qed.

Lemma Discard_width r n r' k : RD.Discard r n = Some (r', k) -> rd_bitWidth r' = rd_bitWidth r.
Proof. unfold RD.Discard. destruct (RD.rleLoop _ _ _ _ _ _) as [[[[r1 s] m] err]|] eqn:E; [|discriminate]. intros HE. injection HE as <- _. now apply bitmapLoop_width in E. Qed.

(** The bits of the next values. *)
Lemma GetBatchBitmap_rel d vs scratch out off n : decRel d vs -> rd_bitWidth d = 1 -> scratchOk scratch -> rangeOk out off n -> 8 * len out < 2 ^ 63 ->
  let k := Z.min n (len vs) in exists d' scratch' out', RDB.GetBatchBitmap d scratch out off n = Some (d', scratch', out', k, None) /\ rd_bitWidth d' = 1 /\ bitsPut out off k (fun i => negb (nth (Z.to_nat i) vs 0 =? 0)) out' /\ (n <= len vs -> decRel d' (skipn (Z.to_nat k) vs)).
Proof.
  intros HD Hw Hs HR Hmx k. pose proof HR as (Hb & Ho & Hn & _). unfold RDB.GetBatchBitmap. rewrite Hw. cbn [Z.eqb Pos.eqb negb].
  destruct (@rleLoop_ok _ _ (bitmapSink_ok out off) (RD.loopFuel n) d vs (Some (out, off, scratch)) [] 0 n) as (d' & s' & HE & HRel & HD'); auto; [cbn; lia|lia| |apply loopFuel_enough|].
  - exists out, scratch. cbn [List.length Z.of_nat]. rewrite Z.add_0_r, Z.sub_0_r. splits; auto; try lia. now apply bitsPut_refl.
  - rewrite Z.sub_0_r in *. fold k in HE, HRel, HD'. pose proof (bitmapLoop_width _ _ _ _ _ _ _ _ _ _ HE) as HW'. rewrite HE. cbn [opt_bind]. destruct HRel as (out' & scratch' & -> & Hs' & _ & _ & _ & HP). cbn [opt_bind]. exists d', scratch', out'. rewrite Z.add_0_l. split; [reflexivity|]. split; [congruence|]. split; [|exact HD'].
    cbn [app] in HP. rewrite length_firstn in HP. replace (Z.of_nat (Nat.min (Z.to_nat k) (List.length vs))) with k in HP by lia. apply (bitsPut_ext _ _ _ _ _ _ HP). intros i Hi. rewrite nth_firstn. now replace (Z.to_nat i <? Z.to_nat k)%nat with true by (symmetry; apply Nat.ltb_lt; lia).
Qed.

Lemma bval_bools l : map (fun v => negb (v =? 0)) (map bval l) = l.
Proof. rewrite map_map. rewrite <- (map_id l) at 2. apply map_ext. now intros []. Qed.

(** [d] is in front of the values [B], of which [n] were announced. *)
Definition rdHas (d : RleBooleanDecoder) (B : list bool) (n : Z) : Prop := exists rd, rbd_rleDec d = Some rd /\ decRel rd (map bval B) /\ rd_bitWidth rd = 1 /\ rbd_nvals d = n /\ 0 <= n <= len B.

Lemma rleDecodeLoop_ok : forall fuel rle buf B n filled out, decRel rle (map bval B) -> rd_bitWidth rle = 1 -> len buf = 1024 -> 0 <= n <= len B -> n <= len out -> n < Z.of_nat fuel ->
  exists rle', RBD.decodeLoop fuel rle buf n filled out = Some (rle', filled ++ firstn (Z.to_nat n) B, skipn (Z.to_nat n) out, 0, None) /\ decRel rle' (map bval (skipn (Z.to_nat n) B)) /\ rd_bitWidth rle' = 1.
Proof.
  induction fuel as [|fuel IH]; intros rle buf B n filled out HD Hw HL Hn Ho Hf; [lia|]. cbn [RBD.decodeLoop]. destruct (Z.ltb_spec 0 n) as [Hlt|Hge]; [|exists rle; replace n with 0 by lia; cbn [Z.to_nat firstn skipn]; rewrite app_nil_r; auto].
  set (batch := Z.min (len buf) n). assert (Hb : 0 < batch <= n /\ batch <= len buf) by (subst batch; lia). rewrite slice_ok by lia. cbn [opt_bind Z.to_nat skipn]. rewrite Z.sub_0_r. set (vals := firstn (Z.to_nat batch) buf). assert (HLv : len vals = batch) by (subst vals; rewrite length_firstn; lia).
  destruct (GetBatch_rel rle (map bval B) vals HD) as (rle1 & HE & HD1). cbv zeta in HE. rewrite length_map, HLv in HE, HD1. rewrite Z.min_l in HE, HD1 by lia. pose proof (GetBatch_width _ _ _ _ _ _ HE) as HW1. rewrite HE. cbn [opt_bind]. rewrite (skipn_all2 vals), app_nil_r by lia. rewrite firstn_map, skipn_map in *. set (F := firstn (Z.to_nat batch) B) in *. assert (HLF : len F = batch) by (subst F; rewrite length_firstn; lia).
  rewrite slice_ok by (rewrite ?length_app, ?length_map; lia). cbn [opt_bind Z.to_nat skipn]. rewrite Z.sub_0_r. rewrite firstn_app_exact by (rewrite length_map; lia). rewrite slice_from by lia. cbn [opt_bind]. rewrite bval_bools, Z.eqb_refl. cbn [negb].
  destruct (IH rle1 (map bval F ++ skipn (Z.to_nat batch) buf) (skipn (Z.to_nat batch) B) (n - batch) (filled ++ F) (skipn (Z.to_nat batch) out)) as (rle' & -> & HD' & HW'); [apply HD1; lia|congruence|rewrite length_app, length_map, length_skipn; lia|rewrite length_skipn; lia|rewrite length_skipn; lia|lia|].
  exists rle'. rewrite !skipn_skipn in *. replace (Z.to_nat (n - batch) + Z.to_nat batch)%nat with (Z.to_nat n) in * by lia. split; [|auto]. do 5 f_equal. rewrite <- app_assoc. f_equal. subst F. rewrite firstn_skipn_app. f_equal. lia.
Qed.

Lemma rleDecode_ok d B n : rdHas d B n -> decodesBools rdHas d B n RBD.Decode.
Proof.
  intros (rd & Hd & HD & Hw & Hn & Hle) out k. destruct (Z.ltb_spec (len B) k); [lia|]. unfold RBD.Decode. rewrite Hd, Hn. fold k.
  destruct (rleDecodeLoop_ok (S (Z.to_nat k)) rd (repeat 0 1024) B k [] out HD Hw) as (rd' & -> & HD' & Hw'); [reflexivity|lia|lia|lia|]. cbn [opt_bind app]. eexists. split; [reflexivity|]. exists rd'. cbn [rbd_rleDec rbd_nvals]. rewrite length_skipn. splits; auto; lia.
Qed.

Lemma rleDiscard_ok d B n m : rdHas d B n -> 0 <= m -> let k := Z.min m n in
  if len B <? k then RBD.Discard d m = Some (d, 0, Some ErrUnexpectedEOF) else exists d', RBD.Discard d m = Some (d', k, None) /\ rdHas d' (skipn (Z.to_nat k) B) (n - k).
Proof.
  intros (rd & Hd & HD & Hw & Hn & Hle) Hm k. destruct (Z.ltb_spec (len B) k); [lia|]. unfold RBD.Discard. rewrite Hd, Hn. fold k. cbn [opt_bind]. destruct (Discard_rel rd (map bval B) k HD ltac:(lia)) as (rd' & HE & HD'). rewrite length_map in HE, HD'. rewrite Z.min_l in HE, HD' by lia. pose proof (Discard_width _ _ _ _ HE) as Hw'.
  rewrite HE. cbn [opt_bind fst snd]. eexists. split; [reflexivity|]. exists rd'. cbn [rbd_rleDec rbd_nvals]. rewrite length_skipn, <- skipn_map. splits; auto; try lia; apply HD'; lia.
Qed.

Lemma rleBits_ok scratch d B n : scratchOk scratch -> rdHas d B n -> decodesBits rdHas d B n (RBD.DecodeToBitmap scratch).
Proof.
  intros Hs (rd & Hd & HD & Hw & Hn & Hle) out off m k HR Hmx. pose proof HR as (Hb & Ho & Hk & Hfit & Hmr). destruct (Z.ltb_spec (len B) k); [lia|]. unfold RBD.DecodeToBitmap. rewrite Hn. fold k. destruct (Z.eqb_spec k 0) as [H0|H0].
  - rewrite H0. exists d, out. cbn [Z.to_nat skipn]. rewrite Z.sub_0_r. split; [reflexivity|]. split; [now apply bitsPut_refl|]. exists rd. auto 6.
  - rewrite Hd. cbn [opt_bind]. destruct (GetBatchBitmap_rel rd (map bval B) scratch out off k HD Hw Hs HR Hmx) as (rd' & s' & out' & HE & Hw' & HP & HD'). rewrite length_map in HE, HD', HP. rewrite Z.min_l in HE, HD', HP by lia. rewrite HE. cbn [opt_bind]. rewrite Z.eqb_refl. cbn [negb].
    eexists _, out'. split; [reflexivity|]. split.
    + apply (bitsPut_ext _ _ _ _ _ _ HP). intros i Hi. rewrite (nth_indep _ 0 (bval false)) by (rewrite length_map; lia). rewrite map_nth. now destruct (nth _ B false).
    + exists rd'. cbn [rbd_rleDec rbd_nvals]. rewrite length_skipn, <- skipn_map. splits; auto; try lia; apply HD'; lia.
Qed.

(** A page in front of a new decoder. *)
Lemma SetDataRle_ok d0 nvals bytes runs B : rbd_rleDec d0 = None -> rlePage bytes runs -> runsOk 1 runs -> len (encodes 1 runs) < 2 ^ 32 -> expand runs = map bval B -> 0 <= nvals <= len B -> exists d, RBD.SetData d0 nvals bytes = Some (d, None) /\ rdHas d B nvals.
Proof.
  intros Hd (rest & ->) Hruns Hlen Hexp Hn. unfold RBD.SetData. cbn [rbd_rleDec]. rewrite Hd. set (n := len (encodes 1 runs)) in *. rewrite !length_app, length_lebytes. destruct (Z.ltb_spec (Z.of_nat (4 + (List.length (encodes 1 runs) + List.length rest))) 4); [lia|]. rewrite slice_ok by (rewrite ?length_app, ?length_lebytes; lia). cbn [opt_bind Z.to_nat skipn].
  change (Z.to_nat (4 - 0)) with 4%nat. rewrite firstn_app_exact by apply length_lebytes. rewrite leval_lebytes. change (8 * Z.of_nat 4) with 32. rewrite Z.mod_small by lia. destruct (Z.ltb_spec (Z.of_nat (4 + (List.length (encodes 1 runs) + List.length rest)) - 4) n); [lia|].
  rewrite slice_ok by (rewrite ?length_app, ?length_lebytes; lia). cbn [opt_bind]. change (Z.to_nat 4) with 4%nat. rewrite skipn_app_exact by apply length_lebytes. replace (Z.to_nat (4 + n - 4)) with (List.length (encodes 1 runs)) by lia. rewrite firstn_app_exact by reflexivity.
  eexists. split; [reflexivity|]. eexists. split; [reflexivity|]. rewrite <- Hexp. split; [apply NewRleDecoder_rel; [lia|assumption|unfold dataFits; fold n; lia]|]. splits; auto; lia.
Qed.
