(* ===== verification/BooleanRleClaims.v ===== *)
(** * Claims about RLE boolean pages

    The encoder's puts, the round trip of its first page, and what its second page holds. *)

From Stdlib Require Import ZArith List Lia Bool.
From S2P Require Import Prelude GoStd BitUtil BitRuns BitBlocks BitReader RleFormat RleDecoder RleEncoder Codec Memory Spaced Bitmaps BitmapOps BitmapsOk Booleans BooleansOk BooleanDecode BooleanSpaced BooleanPages BitReaderBitmap BooleanRle BooleanRleOk.
Import ListNotations.
#[local] Open Scope Z_scope.
#[local] Open Scope go_scope.

(** ** Putting *)

(** The values since the encoder was made. *)
Definition rbHas (enc : RleBooleanEncoder) (vs : list bool) : Prop := rb_bufferedValues enc = vs /\ sinkReady (rb_sink enc).

Lemma extractLoop_bits bm base scr : bitmapOk bm -> 0 <= base -> forall k i V idx, 0 <= i -> base + i + Z.of_nat k <= 8 * len bm -> len V = idx -> idx + Z.of_nat k <= len scr ->
  for_up k i (RB.extractStep bm base) (V ++ skipn (Z.to_nat idx) scr, idx) = Some ((V ++ bitList bm (base + i) (Z.of_nat k)) ++ skipn (Z.to_nat (idx + Z.of_nat k)) scr, idx + Z.of_nat k).
Proof.
  intros Hb Ho. induction k as [|k IH]; intros i V idx Hi Hle HV Hs; cbn [for_up].
  - unfold bitList. cbn [Z.of_nat Z.to_nat zseq seq map]. now rewrite app_nil_r, Z.add_0_r.
  - unfold RB.extractStep at 1. rewrite BitIsSet_ok by (auto; lia). cbn [opt_bind]. rewrite store_next by lia. cbn [opt_bind]. rewrite IH by (rewrite ?length_app; cbn [List.length]; lia). do 2 f_equal; [|lia]. replace (Z.of_nat (S k)) with (1 + Z.of_nat k) by lia. rewrite bitList_app by lia. rewrite <- !app_assoc. f_equal.
    replace (bitList bm (base + i) 1) with [Z.testbit (leval bm) (base + i)] by (apply bitList_ext; [reflexivity|]; intros j Hj; replace j with 0 by lia; now rewrite Z.add_0_r). cbn [app]. f_equal. f_equal; [f_equal; lia|]. f_equal. lia.
Qed.

Lemma extractRuns_bits bm boff N scr rs : bitmapOk bm -> 0 <= boff -> boff + N <= 8 * len bm -> forall c V idx, asc c N rs -> 0 <= c -> len V = idx -> idx + total rs <= len scr ->
  visitAll (RB.extractRun bm boff) rs (V ++ skipn (Z.to_nat idx) scr, idx) = Some ((V ++ slots (bitList bm boff N) rs) ++ skipn (Z.to_nat (idx + total rs)) scr, idx + total rs, None).
Proof.
  intros Hb Ho Hfit. induction rs as [|[p n] rs IH]; intros c V idx HA Hc HV Hs; cbn [visitAll].
  - cbn [total slots map List.concat]. now rewrite app_nil_r, Z.add_0_r.
  - cbn [asc total] in *. destruct HA as (H1 & H2 & H3 & H4). pose proof (asc_total _ _ _ H4). unfold RB.extractRun at 1. rewrite extractLoop_bits by (auto; lia). cbn [opt_bind]. rewrite Z.add_0_r, Z2Nat.id by lia. rewrite (IH (p + n)) by (try lia; auto; rewrite length_app; pose proof (length_bitList bm (boff + p) n ltac:(lia)); lia). do 3 f_equal; [|lia].
    change (slots (bitList bm boff N) ((p, n) :: rs)) with (runSlice (bitList bm boff N) (p, n) ++ slots (bitList bm boff N) rs). unfold runSlice. cbn [fst snd]. rewrite bitList_slice by lia. rewrite <- !app_assoc. do 3 f_equal. f_equal. lia.
Qed.

Lemma rlePutSpacedBitmap_ok enc vs bm boff n bits off : rbHas enc vs -> rangeOk bm boff n -> 8 * len bm < 2 ^ 63 -> bitsOk bits off n -> 8 * len bits < 2 ^ 63 - 7 ->
  exists enc', RB.PutSpacedBitmap enc bm boff n bits off = Some (enc', cnt (leval bits) off (Z.to_nat n)) /\ rbHas enc' (vs ++ compress (validAt bits off) 0 (bitList bm boff n)).
Proof.
  intros [Hvs Hs] (Hb & Ho & Hn & Hfit & _) Hmb (Hbb & Hbo & Hbf) Hmx. unfold RB.PutSpacedBitmap. destruct (Z.eqb_spec n 0) as [->|Hne]; [exists enc; unfold bitList, cnt; cbn; rewrite app_nil_r; split; [reflexivity|split; assumption]|]. rewrite CountSetBits_ok by (try split; assumption || lia). cbn [opt_bind].
  pose proof (length_bitList bm boff n Hn) as HL. destruct (range_slots bits off (bitList bm boff n)) as (HA & HS & HT). rewrite HL in HA, HS, HT. replace (List.length (bitList bm boff n)) with (Z.to_nat n) in HT by lia. set (k := cnt _ _ _). assert (Hk : k = countIf (validAt bits off) (Z.to_nat n)) by apply cnt_countIf. pose proof (countIf_bound (validAt bits off) (Z.to_nat n)) as Hkb. destruct (Z.eqb_spec k 0) as [H0|H0].
  - exists enc. rewrite H0. split; [reflexivity|]. rewrite nothing_valid, app_nil_r; [split; assumption|]. replace (List.length (bitList bm boff n)) with (Z.to_nat n) by lia. lia.
  - unfold SBR.newBaseSetBitRunReader. destruct (VisitRange_ok bits off n false (RB.extractRun bm boff) (mkSBR [] 0 0 0 0 0 false 0) Hbb Hbo Hn Hbf eq_refl) as (br & -> & Hv). cbn [opt_bind]. set (s := BE.scratchOf _ _). pose proof (scratch_len (rb_scratch enc) (Z.to_nat k)) as HSl. fold s in HSl. specialize (Hv (fst s, 0)). unfold rangeRuns in Hv.
    pose proof (extractRuns_bits bm boff n (fst s) _ (conj Hb Hmb) Ho Hfit 0 [] 0 HA ltac:(lia) eq_refl ltac:(lia)) as HX. cbn [Z.to_nat skipn app] in HX. rewrite HX in Hv. unfold visits in Hv. destruct (SBR.VisitRuns br _ _) as [[[br' st] e]|]; [|discriminate]. destruct Hv as [Hv _]. injection Hv as <- <-. cbn [opt_bind fst snd]. rewrite ?Z.add_0_l, HT, <- Hk, HS.
    rewrite (skipn_all2 (fst s)) by lia. rewrite app_nil_r. assert (HLc : len (compress (validAt bits off) 0 (bitList bm boff n)) = k) by (rewrite compress_count, Hk; replace (List.length (bitList bm boff n)) with (Z.to_nat n) by lia; apply countIf_ext; intros; now rewrite Z.add_0_l). rewrite slice_ok by lia. cbn [opt_bind Z.to_nat skipn]. rewrite Z.sub_0_r, firstn_all2 by lia.
    eexists. split; [reflexivity|]. split; [cbn; now rewrite Hvs|exact Hs].
Qed.

Lemma rlePutSpaced_ok enc vs ins bits off : rbHas enc vs -> bitsOk bits off (len ins) -> exists enc', RB.PutSpaced enc ins bits off = Some enc' /\ rbHas enc' (vs ++ compress (validAt bits off) 0 ins).
Proof.
  intros [Hvs Hs] HB. unfold RB.PutSpaced. pose proof (scratch_len (rb_scratch enc) (List.length ins)) as HS. pose proof (countIf_bound (validAt bits off) (List.length ins)) as Hk. rewrite spacedCompress_ok by (auto; lia). cbn [opt_bind fst snd].
  assert (HLc : len (compress (validAt bits off) 0 ins) = countIf (validAt bits off) (List.length ins)) by (rewrite compress_count; apply countIf_ext; intros; now rewrite Z.add_0_l). rewrite slice_ok by (rewrite ?length_app; lia). cbn [opt_bind Z.to_nat skipn]. rewrite Z.sub_0_r, firstn_app_exact by lia. eexists. split; [reflexivity|]. split; [cbn; now rewrite Hvs|exact Hs].
Qed.

(** ** The interfaces *)

#[export] Instance rleBoolEncoder : BoolEncoder RleBooleanEncoder := { encPutBools := fun e vs => Some (RB.Put e vs); encPutSpaced := RB.PutSpaced; encPutBitmap := None; encPutSpacedBitmap := RB.PutSpacedBitmap }.

Definition notBitmap (p : boolPut) : Prop := match p with PutBits _ _ _ => False | _ => True end.

#[export] Instance rleBoolEncoder_ok : BoolEncoderOk RleBooleanEncoder.
Proof.
  refine {| encHas := rbHas; mayPut := notBitmap |}. intros enc vs p HO HY HP _. destruct p as [ws|ws bits off|bm off n|bm boff n bits off]; cbn [runPut encPutBools encPutSpaced encPutBitmap encPutSpacedBitmap rleBoolEncoder boolPutOk boolValues notBitmap] in *.
  - destruct HO as [Hvs Hs]. eexists. split; [reflexivity|]. split; [cbn; now rewrite Hvs|exact Hs].
  - now apply rlePutSpaced_ok.
  - contradiction.
  - destruct HP as (HR & Hmb & Hbits & Hmx). destruct (rlePutSpacedBitmap_ok enc vs bm boff n bits off HO HR Hmb Hbits Hmx) as (e & -> & HB). cbn [opt_bind fst]. eauto.
Defined.

Definition rleBoolDecoder (scratch : list Z) : BoolDecoder RleBooleanDecoder := {| decBools := RBD.Decode; decSkip := RBD.Discard; decSpacedBools := RBD.DecodeSpaced; decBits := RBD.DecodeToBitmap scratch; decSpacedBits := RBD.DecodeSpacedToBitmap scratch; decMismatch := RBD.mismatch |}.

Definition rleBoolDecoder_ok (scratch : list Z) (Hs : scratchOk scratch) : @BoolDecoderOk RleBooleanDecoder (rleBoolDecoder scratch).
Proof.
  refine (@Build_BoolDecoderOk _ (rleBoolDecoder scratch) rdHas _ _ _ _ _ _).
  - intros d B n (rd & _ & _ & _ & _ & H). lia.
  - exact rleDecode_ok.
  - exact rleDiscard_ok.
  - intros d B n HD. now apply rleBits_ok.
  - reflexivity.
  - reflexivity.
Defined.

Lemma rb_start fresh : poolOk fresh -> rbHas (RB.newEncoder fresh) [].
Proof. intros [HF _]. split; [reflexivity|]. destruct HF as [H1 H2]. set (s0 := PooledBufferWriter.mk fresh 0 0). assert (H0 : pooledOk s0) by (red; cbn; splits; auto; lia). split; [|reflexivity]. now destruct (grow_ok s0 (PooledBufferWriter.Reserve s0 1024) (Reserve_extends _ _) eq_refl eq_refl H0). Qed.

(** A page of the encoder, in front of a new decoder; at most seven zeros follow the values. *)
Lemma rlePage_read fresh enc vs n : rbHas enc vs -> poolOk fresh -> len vs <= MaxInt32 -> 0 <= n <= len vs ->
  exists enc' page d pad, RB.FlushValues fresh enc = Some (enc', page) /\ rbHas enc' vs /\ 4 + leval (firstn 4 (Buffer.Bytes page)) <= RB.EstimatedDataEncodedSize enc /\
    RBD.SetData (mkRBD 0 None) n (Buffer.Bytes page) = Some (d, None) /\ rdHas d (vs ++ pad) n.
Proof.
  intros [Hvs Hs] [HF _] Hmax Hn. destruct (FlushRle_ok fresh enc Hs HF ltac:(now rewrite Hvs)) as (enc' & page & runs & k & HE & Hs' & Hv' & _ & Hruns & Hexp & Hlen & Hpage). rewrite Hvs in *. assert (H32 : len (encodes 1 runs) < 2 ^ 32) by (rewrite MaxRLEBufferSize_sizeFor in Hlen by lia; unfold sizeFor, MaxInt32 in *; zdiv).
  assert (Hexp' : expand runs = map bval (vs ++ repeat false k)) by (rewrite map_app, map_repeat; exact Hexp). destruct (SetDataRle_ok (mkRBD 0 None) n (Buffer.Bytes page) runs (vs ++ repeat false k) eq_refl Hpage Hruns H32 Hexp' ltac:(rewrite length_app; lia)) as (d & HSet & HD).
  exists enc', page, d, (repeat false k). splits; auto; [split; assumption|]. destruct Hpage as (rest & ->). rewrite firstn_app_exact by apply length_lebytes. rewrite leval_lebytes. change (8 * Z.of_nat 4) with 32. rewrite Z.mod_small by lia. unfold RB.EstimatedDataEncodedSize, RB.maxRleBufferSize, rleLengthInBytes. rewrite Hvs. change (MinRLEBufferSize 1) with 65. lia.
Qed.

(** ** Claims *)

(** C22: RLE boolean pages: any sequence of [Put], [PutSpaced] and [PutSpacedBitmap] on a new encoder, then
    [FlushValues], gives a page whose length field is within the estimated size; and any sequence
    of [Decode], [Discard], [DecodeSpaced], [DecodeToBitmap] and [DecodeSpacedToBitmap] on that
    page delivers exactly the values in order, to the valid slots, and changes nothing else. *)
Theorem rle_bool_roundtrip fresh fresh' scratch puts reads :
  poolOk fresh -> poolOk fresh' -> scratchOk scratch -> Forall notBitmap puts -> Forall boolPutOk puts -> sumSlots puts <= MaxInt32 -> Forall boolReadOk reads ->
  let vs := flat_map boolValues puts in
  exists enc enc' page d xs, runPuts (RB.newEncoder fresh) puts = Some enc /\ RB.FlushValues fresh' enc = Some (enc', page) /\ 4 + leval (firstn 4 (Buffer.Bytes page)) <= RB.EstimatedDataEncodedSize enc /\
    RBD.SetData (mkRBD 0 None) (len vs) (Buffer.Bytes page) = Some (d, None) /\ @runReads _ (rleBoolDecoder scratch) d reads = Some xs /\ giveAll RBD.mismatch vs (len vs) reads xs.
Proof.
  intros HF HF' Hs HY HP Hm HR vs. pose proof (sumSlots_bound puts HP) as HL. fold vs in HL. destruct (@runPuts_ok _ _ rleBoolEncoder_ok puts (RB.newEncoder fresh) [] (rb_start fresh HF) HY HP) as (enc & HE & HO); [unfold MaxInt32 in *; cbn; lia|]. cbn [app] in HO. fold vs in HO.
  destruct (rlePage_read fresh' enc vs (len vs) HO HF' ltac:(lia) ltac:(lia)) as (enc' & page & d & pad & HFl & _ & Hsz & HSet & HD). destruct (@runReads_ok _ _ (rleBoolDecoder_ok scratch Hs) reads d (vs ++ pad) (len vs) HD HR) as (xs & HX & HG).
  exists enc, enc', page, d, xs. splits; auto. now apply (giveAll_prefix _ pad).
Qed.

(** C37: [FlushValues] of the RLE boolean encoder does not forget its values: its next page starts with
    those of the page before, so that a reader of the values put since then gets the values of
    the first page instead. *)
Theorem rle_bool_second_page f0 f1 f2 vs ws :
  poolOk f0 -> poolOk f1 -> poolOk f2 -> len vs + len ws <= MaxInt32 ->
  exists enc1 page1 enc2 page2 d d', RB.FlushValues f1 (RB.Put (RB.newEncoder f0) vs) = Some (enc1, page1) /\ RB.FlushValues f2 (RB.Put enc1 ws) = Some (enc2, page2) /\
    RBD.SetData (mkRBD 0 None) (len ws) (Buffer.Bytes page2) = Some (d, None) /\ RBD.Decode d (repeat false (List.length ws)) = Some (d', firstn (List.length ws) (vs ++ ws), len ws, None).
Proof.
  intros H0 H1 H2 Hm. pose proof (rb_start f0 H0) as HO. assert (HO1 : rbHas (RB.Put (RB.newEncoder f0) vs) vs) by (split; [reflexivity|apply HO]). destruct (rlePage_read f1 _ vs 0 HO1 H1 ltac:(lia) ltac:(lia)) as (enc1 & page1 & _ & _ & HF1 & [Hv Hs] & _).
  assert (HO2 : rbHas (RB.Put enc1 ws) (vs ++ ws)) by (split; [cbn; now rewrite Hv|exact Hs]). destruct (rlePage_read f2 _ (vs ++ ws) (len ws) HO2 H2) as (enc2 & page2 & d & pad & HF2 & _ & _ & HSet & HD); [rewrite length_app; lia..|].
  pose proof (rleDecode_ok d _ _ HD (repeat false (List.length ws))) as HDec. cbv zeta in HDec. rewrite repeat_length, Z.min_id in HDec. destruct (Z.ltb_spec (len ((vs ++ ws) ++ pad)) (len ws)) as [Hlt|_]; [rewrite !length_app in Hlt; lia|]. destruct HDec as (d' & HDec & _).
  exists enc1, page1, enc2, page2, d, d'. splits; auto. rewrite HDec. do 4 f_equal. rewrite Nat2Z.id, (skipn_all2 (repeat _ _)), app_nil_r by (rewrite repeat_length; lia). rewrite firstn_app. replace (List.length ws - List.length (vs ++ ws))%nat with 0%nat by (rewrite length_app; lia). now rewrite firstn_O, app_nil_r.
Qed.

(** ** Witnesses *)

Definition exRlePool : Buffer.t := Buffer.NewResizableBuffer.

Lemma exRlePool_ok : poolOk exRlePool.
Proof. split; [split; constructor|reflexivity]. Qed.

Definition exScratch : list Z := repeat 0 4096.

Lemma exScratch_ok : scratchOk exScratch.
Proof. split; [apply bytes_repeat0|unfold exScratch; rewrite repeat_length; reflexivity]. Qed.

Definition exRlePuts : list boolPut := [PutBools (repeat true 11); PutSpacedBits [177; 60; 7; 250; 33] 3 30 [219; 6; 255; 15] 1; PutSpacedBools [true; true; false; true] [5] 0].

Definition exRleReads : list boolRead := [ReadBools (repeat false 5); ReadSpacedBits [0; 255; 0; 255] 3 20 [90; 181; 7] 2; SkipBools 4; ReadBits [170; 170] 5 9; ReadSpacedBools (repeat true 6) [44] 1; ReadBools (repeat true 100)].

Lemma exRlePuts_ok : Forall notBitmap exRlePuts /\ Forall boolPutOk exRlePuts.
Proof. split; repeat constructor; first [now apply rangeOkb_ok | discriminate | reflexivity]. Qed.

Lemma exRleReads_ok : Forall boolReadOk exRleReads.
Proof. repeat constructor; first [now apply rangeOkb_ok | discriminate | reflexivity]. Qed.

Lemma rle_bool_witness : exists enc enc' page d xs, runPuts (RB.newEncoder exRlePool) exRlePuts = Some enc /\ RB.FlushValues exRlePool enc = Some (enc', page) /\ 4 + leval (firstn 4 (Buffer.Bytes page)) <= RB.EstimatedDataEncodedSize enc /\
  RBD.SetData (mkRBD 0 None) (len (flat_map boolValues exRlePuts)) (Buffer.Bytes page) = Some (d, None) /\ @runReads _ (rleBoolDecoder exScratch) d exRleReads = Some xs /\ giveAll RBD.mismatch (flat_map boolValues exRlePuts) (len (flat_map boolValues exRlePuts)) exRleReads xs.
Proof. apply (rle_bool_roundtrip exRlePool exRlePool exScratch exRlePuts exRleReads); [exact exRlePool_ok|exact exRlePool_ok|exact exScratch_ok|exact (proj1 exRlePuts_ok)|exact (proj2 exRlePuts_ok)|discriminate|exact exRleReads_ok]. Defined.

Lemma rle_bool_second_witness : exists enc1 page1 enc2 page2 d d', RB.FlushValues exRlePool (RB.Put (RB.newEncoder exRlePool) [true; true]) = Some (enc1, page1) /\ RB.FlushValues exRlePool (RB.Put enc1 [false; false]) = Some (enc2, page2) /\
  RBD.SetData (mkRBD 0 None) 2 (Buffer.Bytes page2) = Some (d, None) /\ RBD.Decode d (repeat false 2) = Some (d', [true; true], 2, None).
Proof. apply (rle_bool_second_page exRlePool exRlePool exRlePool [true; true] [false; false]); [exact exRlePool_ok|exact exRlePool_ok|exact exRlePool_ok|discriminate]. Defined.
