(* ===== verification/RunEnds.v ===== *)
(** * Run-end encoded arrays (arrow/encoded/ree_utils.go)

    Which run a logical index is in, how many runs a slice touches, and [MergedRuns], which walks
    over two arrays run by run.  An array is its offset, its length and its child of run ends; a
    slice expression past the buffer is a panic. *)

From Stdlib Require Import ZArith List Lia Bool Sorted.
From S2P Require Import Prelude BitUtil.
Import ListNotations.
#[local] Open Scope Z_scope.
#[local] Open Scope go_scope.

Inductive runEndType : Type := INT16 | INT32 | INT64 | OtherType.

(** The child with the run ends: [re_buf] is its buffer cast to integers. *)
Record RunEndData : Type := mkRunEnds { re_type : runEndType; re_offset : Z; re_len : Z; re_buf : list Z }.

(** [ra_isREE]: the type is [RUN_END_ENCODED]; [ra_valuesOffset] is the offset of the child with the
    values. *)
Record ReeData : Type := mkRee { ra_isREE : bool; ra_offset : Z; ra_len : Z; ra_runEnds : RunEndData; ra_valuesOffset : Z }.

(** ** sort.Search *)

Fixpoint searchLoop (fuel : nat) (i j : Z) (f : Z -> option bool) : option Z :=
  if i <? j then
    match fuel with
    | O => None
    | S fuel' =>
        let h := (i + j) >> 1 in
        b <- f h ;;
        if (b : bool) then searchLoop fuel' i h f else searchLoop fuel' (h + 1) j f
    end
  else Some i.

Definition Search (n : Z) (f : Z -> option bool) : option Z := searchLoop (S (Z.to_nat n)) 0 n f.

(** ** Physical indices *)

(** [int16(logicalIdx)] and the like. *)
Definition narrow (t : runEndType) (x : Z) : Z := match t with INT16 => i16 x | INT32 => i32 x | INT64 => i64 x | OtherType => x end.

(** [runEnds[start : start+length]] of an integer type; any other type panics. *)
Definition castRunEnds (data : RunEndData) (start length : Z) : option (list Z) := match re_type data with OtherType => None | _ => slice (re_buf data) start (start + length) end.

Definition searchRunEnds (t : runEndType) (runEnds : list Z) (idx : Z) : option Z := Search (len runEnds) (fun i => e <- index runEnds i ;; Some (narrow t idx <? e)).

Definition FindPhysicalIndex (arr : ReeData) (logicalIdx : Z) : option Z :=
  let data := ra_runEnds arr in
  if re_len data =? 0 then Some 0
  else runEnds <- castRunEnds data (re_offset data) (re_len data) ;; searchRunEnds (re_type data) runEnds logicalIdx.

Definition FindPhysicalOffset (arr : ReeData) : option Z := FindPhysicalIndex arr (ra_offset arr).

Definition GetPhysicalLength (arr : ReeData) : option Z :=
  if ra_len arr =? 0 then Some 0
  else
    let data := ra_runEnds arr in
    physicalOffset <- FindPhysicalOffset arr ;;
    let start := re_offset data + physicalOffset in
    let length := re_len data - physicalOffset in
    let offset := ra_offset arr + ra_len arr - 1 in
    runEnds <- castRunEnds data start length ;;
    k <- searchRunEnds (re_type data) runEnds offset ;;
    Some (k + 1).

(** The closure is the slice it captures; calling it is indexing. *)
Definition getRunEnds (data : RunEndData) : option (list Z) := castRunEnds data (re_offset data) (re_len data).

(** ** MergedRuns *)

Record MergedRuns : Type := mkMR {
  mr_inputs : ReeData * ReeData;
  mr_runIndex : Z * Z;
  mr_inputRunEnds : list Z * list Z;
  mr_runEnds : Z * Z;
  mr_logicalLen : Z;
  mr_logicalPos : Z;
  mr_mergedEnd : Z
}.

Module MR.

(** One input of [NewMergedRuns]: its run ends and its first run index. *)
Definition newInput (logicalLen : Z) (arr : ReeData) : option (list Z * Z) :=
  if negb (ra_isREE arr) then None
  else if negb (ra_len arr =? logicalLen) then None
  else
    runEnds <- getRunEnds (ra_runEnds arr) ;;
    off <- FindPhysicalOffset arr ;;
    Some (runEnds, off - 1).

Definition NewMergedRuns (a b : ReeData) : option MergedRuns :=
  let logicalLen := ra_len a in
  x <- newInput logicalLen a ;;
  y <- newInput logicalLen b ;;
  Some (mkMR (a, b) (snd x, snd y) (fst x, fst y) (0, 0) logicalLen 0 0).

Definition isEnd (mr : MergedRuns) : bool := mr_logicalPos mr =? mr_logicalLen mr.

(** One round of the loop of [findMergedRun]: the run end of the input and [mergedEnd]. *)
Definition mergeInput (logicalLen : Z) (arr : ReeData) (runEnds : list Z) (runIndex mergedEnd : Z) : option (Z * Z) :=
  e <- index runEnds runIndex ;;
  let runEnd := e - ra_offset arr in
  let runEnd := if logicalLen <? runEnd then logicalLen else runEnd in
  Some (runEnd, if runEnd <? mergedEnd then runEnd else mergedEnd).

Definition findMergedRun (mr : MergedRuns) : option MergedRuns :=
  x <- mergeInput (mr_logicalLen mr) (fst (mr_inputs mr)) (fst (mr_inputRunEnds mr)) (fst (mr_runIndex mr)) MaxInt64 ;;
  y <- mergeInput (mr_logicalLen mr) (snd (mr_inputs mr)) (snd (mr_inputRunEnds mr)) (snd (mr_runIndex mr)) (snd x) ;;
  Some (mkMR (mr_inputs mr) (mr_runIndex mr) (mr_inputRunEnds mr) (fst x, fst y) (mr_logicalLen mr) (mr_logicalPos mr) (snd y)).

Definition Next (mr : MergedRuns) : option (MergedRuns * bool) :=
  let pos := mr_mergedEnd mr in
  let bump i e := if pos =? e then i + 1 else i in
  let mr := mkMR (mr_inputs mr) (mr_runIndex mr) (mr_inputRunEnds mr) (mr_runEnds mr) (mr_logicalLen mr) pos (mr_mergedEnd mr) in
  if isEnd mr then Some (mr, false)
  else
    let idx := (bump (fst (mr_runIndex mr)) (fst (mr_runEnds mr)), bump (snd (mr_runIndex mr)) (snd (mr_runEnds mr))) in
    mr <- findMergedRun (mkMR (mr_inputs mr) idx (mr_inputRunEnds mr) (mr_runEnds mr) (mr_logicalLen mr) pos (mr_mergedEnd mr)) ;;
    Some (mr, true).

Definition IndexIntoArray (mr : MergedRuns) : Z * Z := mr_runIndex mr.

Definition IndexIntoBuffer (mr : MergedRuns) : Z * Z := (fst (mr_runIndex mr) + ra_valuesOffset (fst (mr_inputs mr)), snd (mr_runIndex mr) + ra_valuesOffset (snd (mr_inputs mr))).

Definition RunLength (mr : MergedRuns) : Z := mr_mergedEnd mr - mr_logicalPos mr.

Definition AccumulatedRunLength (mr : MergedRuns) : Z := mr_mergedEnd mr.

End MR.
