(* ===== verification/RunEndsOk.v ===== *)
(** * Run-end encoded arrays: which run, how many, and two at a time

    [rank ends x] is the number of run ends up to [x], which is the index of the run that holds [x];
    [phys] is that of a logical position of an array. *)

From Stdlib Require Import ZArith List Lia Bool Sorted.
From S2P Require Import Prelude BitUtil BitmapsOk BooleansOk RunEnds.
Import ListNotations.
#[local] Open Scope Z_scope.
#[local] Open Scope go_scope.

(** ** Ranks *)

Definition rank (ends : list Z) (x : Z) : Z := len (filter (fun e => e <=? x) ends).

Lemma rank_bound ends x : 0 <= rank ends x <= len ends.
Proof. unfold rank. pose proof (filter_length_le (fun e => e <=? x) ends). lia. Qed.

Lemma rank_above ends x : Forall (fun e => x < e) ends -> rank ends x = 0.
Proof. unfold rank. induction 1 as [|e ends He _ IH]; [reflexivity|]. cbn [filter]. destruct (Z.leb_spec e x); [lia|exact IH]. Qed.

(** The ends up to [x] come first. *)
Lemma rank_nth ends x : StronglySorted Z.lt ends -> forall i, 0 <= i < len ends -> (nth (Z.to_nat i) ends 0 <=? x) = (i <? rank ends x).
Proof.
  induction 1 as [|e ends _ IH HF]; intros i Hi; [cbn in Hi; lia|]. unfold rank. cbn [filter]. destruct (Z.leb_spec e x) as [Hle|Hgt].
  - cbn [List.length]. change (len (filter (fun e => e <=? x) ends)) with (rank ends x) in *. destruct (Z.eq_dec i 0) as [->|Hne]; [cbn [Z.to_nat nth]; rewrite (proj2 (Z.leb_le e x)) by lia; symmetry; apply Z.ltb_lt; lia|]. replace (Z.to_nat i) with (S (Z.to_nat (i - 1))) by lia. cbn [nth List.length] in *. rewrite IH by lia. unfold rank. destruct (Z.ltb_spec (i - 1) (len (filter (fun e => e <=? x) ends))), (Z.ltb_spec i (Z.of_nat (S (List.length (filter (fun e => e <=? x) ends))))); (reflexivity || lia).
  - assert (HA : Forall (fun e' => x < e') ends) by (eapply Forall_impl; [|exact HF]; cbn; intros; lia). pose proof (rank_above ends x HA) as H0. unfold rank in H0. rewrite H0. replace (i <? 0) with false by (symmetry; apply Z.ltb_ge; lia). apply Z.leb_gt. destruct (Z.to_nat i) as [|k] eqn:Ek; cbn [nth]; [assumption|]. rewrite Forall_forall in HA. apply HA, nth_In. cbn [List.length] in Hi. lia.
Qed.

(** The rank is where the ends pass [x]. *)
Lemma rank_unique ends x k : StronglySorted Z.lt ends -> 0 <= k <= len ends -> (0 < k -> nth (Z.to_nat (k - 1)) ends 0 <= x) -> (k < len ends -> x < nth (Z.to_nat k) ends 0) -> rank ends x = k.
Proof.
  intros HS Hk Hlo Hhi. pose proof (rank_bound ends x) as HB. destruct (Z.lt_trichotomy (rank ends x) k) as [H|[H|H]]; [|assumption|].
  - specialize (Hlo ltac:(lia)). apply Z.leb_le in Hlo. rewrite rank_nth in Hlo by (assumption || lia). apply Z.ltb_lt in Hlo. lia.
  - specialize (Hhi ltac:(lia)). apply Z.leb_gt in Hhi. rewrite rank_nth in Hhi by (assumption || lia). apply Z.ltb_ge in Hhi. lia.
Qed.

Lemma rank_at ends x : StronglySorted Z.lt ends -> rank ends x < len ends -> x < nth (Z.to_nat (rank ends x)) ends 0.
Proof. intros HS Hlt. apply Z.leb_gt. rewrite rank_nth by (assumption || (pose proof (rank_bound ends x); lia)). apply Z.ltb_irrefl. Qed.

Lemma rank_before ends x : StronglySorted Z.lt ends -> 0 < rank ends x -> nth (Z.to_nat (rank ends x - 1)) ends 0 <= x.
Proof. intros HS Hlt. apply Z.leb_le. rewrite rank_nth by (assumption || (pose proof (rank_bound ends x); lia)). apply Z.ltb_lt. lia. Qed.

Lemma nth_mono ends i j : StronglySorted Z.lt ends -> 0 <= i < j -> j < len ends -> nth (Z.to_nat i) ends 0 < nth (Z.to_nat j) ends 0.
Proof.
  intros HS. revert i j. induction HS as [|e ends _ IH HF]; intros i j Hi Hj; [cbn in Hj; lia|]. cbn [List.length] in Hj. replace (Z.to_nat j) with (S (Z.to_nat (j - 1))) by lia. destruct (Z.eq_dec i 0) as [->|Hne].
  - cbn [Z.to_nat nth]. rewrite Forall_forall in HF. apply HF, nth_In. lia.
  - replace (Z.to_nat i) with (S (Z.to_nat (i - 1))) by lia. cbn [nth]. apply IH; lia.
Qed.

Lemma rank_mono ends x y : x <= y -> rank ends x <= rank ends y.
Proof. intros H. unfold rank. induction ends as [|e ends IH]; [reflexivity|]. cbn [filter]. destruct (Z.leb_spec e x), (Z.leb_spec e y); cbn [List.length]; lia. Qed.

Lemma rank_app a b x : rank (a ++ b) x = rank a x + rank b x.
Proof. unfold rank. rewrite filter_app, length_app. lia. Qed.

(** ** sort.Search *)

Lemma Search_ok n f k : 0 <= k <= n -> (forall i, 0 <= i < n -> f i = Some (k <=? i)) -> Search n f = Some k.
Proof.
  intros Hk Hf. unfold Search. assert (HL : forall fuel i j, 0 <= i <= k -> k <= j <= n -> j - i < Z.of_nat fuel -> searchLoop fuel i j f = Some k).
  { induction fuel as [|fuel IH]; intros i j Hi Hj Hfu; [lia|]. cbn [searchLoop]. destruct (Z.ltb_spec i j) as [Hlt|Hge]; [|f_equal; lia]. rewrite shiftr_div by lia. change (2 ^ 1) with 2. set (h := (i + j) / 2). assert (Hh : i <= h < j) by (subst h; zdiv). rewrite Hf by lia. cbn [opt_bind]. destruct (Z.leb_spec k h); apply IH; lia. }
  apply HL; lia.
Qed.

Lemma searchRunEnds_ok t ends x : StronglySorted Z.lt ends -> narrow t x = x -> searchRunEnds t ends x = Some (rank ends x).
Proof.
  intros HS Ht. unfold searchRunEnds. apply Search_ok; [apply rank_bound|]. intros i Hi. rewrite (index_ok ends i 0) by assumption. cbn [opt_bind]. rewrite Ht. f_equal. pose proof (rank_nth ends x HS i Hi) as H. destruct (Z.leb_spec (nth (Z.to_nat i) ends 0) x), (Z.ltb_spec i (rank ends x)); try discriminate; destruct (Z.ltb_spec x (nth (Z.to_nat i) ends 0)), (Z.leb_spec (rank ends x) i); (reflexivity || lia).
Qed.

(** ** Arrays *)

Definition maxOf (t : runEndType) : Z := match t with INT16 => 2 ^ 15 - 1 | INT32 => 2 ^ 31 - 1 | _ => 2 ^ 63 - 1 end.

Definition endsOf (a : ReeData) : list Z := firstn (Z.to_nat (re_len (ra_runEnds a))) (skipn (Z.to_nat (re_offset (ra_runEnds a))) (re_buf (ra_runEnds a))).

(** A valid array: its run ends increase, fit their type and reach the end of the array. *)
Definition reeOk (a : ReeData) : Prop :=
  let d := ra_runEnds a in
  ra_isREE a = true /\ re_type d <> OtherType /\ 0 <= re_offset d /\ 0 <= re_len d /\ re_offset d + re_len d <= len (re_buf d) /\ StronglySorted Z.lt (endsOf a) /\
  0 <= ra_offset a /\ 0 <= ra_len a /\ ra_offset a + ra_len a <= maxOf (re_type d) /\ (ra_len a = 0 \/ ra_offset a + ra_len a <= last (endsOf a) 0).

(** The run of a logical position. *)
Definition phys (a : ReeData) (p : Z) : Z := rank (endsOf a) (ra_offset a + p).

Lemma narrow_id t x : 0 <= x <= maxOf t -> narrow t x = x.
Proof. intros H. destruct t; cbn [narrow maxOf] in *; unfold i16, i32, i64; try rewrite Z.mod_small by lia; lia. Qed.

Lemma castRunEnds_ok a k : reeOk a -> 0 <= k <= re_len (ra_runEnds a) -> castRunEnds (ra_runEnds a) (re_offset (ra_runEnds a) + k) (re_len (ra_runEnds a) - k) = Some (skipn (Z.to_nat k) (endsOf a)).
Proof.
  intros (_ & Ht & Ho & Hl & Hfit & _) Hk. unfold castRunEnds. rewrite slice_ok by lia. unfold endsOf. rewrite skipn_firstn_comm, skipn_skipn. replace (re_offset (ra_runEnds a) + k + (re_len (ra_runEnds a) - k) - (re_offset (ra_runEnds a) + k)) with (re_len (ra_runEnds a) - k) by lia.
  replace (Z.to_nat (re_len (ra_runEnds a)) - Z.to_nat k)%nat with (Z.to_nat (re_len (ra_runEnds a) - k)) by lia. replace (Z.to_nat k + Z.to_nat (re_offset (ra_runEnds a)))%nat with (Z.to_nat (re_offset (ra_runEnds a) + k)) by lia. destruct (re_type (ra_runEnds a)); (reflexivity || congruence).
Qed.

Lemma length_ends a : reeOk a -> len (endsOf a) = re_len (ra_runEnds a).
Proof. intros (_ & _ & Ho & Hl & Hfit & _). unfold endsOf. rewrite length_firstn, length_skipn. lia. Qed.

Lemma castAll_ok a : reeOk a -> getRunEnds (ra_runEnds a) = Some (endsOf a).
Proof. intros HA. pose proof HA as (_ & _ & _ & Hl & _). pose proof (castRunEnds_ok a 0 HA ltac:(lia)) as H. rewrite Z.add_0_r, Z.sub_0_r in H. exact H. Qed.

Lemma FindPhysical_ok a x : reeOk a -> 0 <= x <= maxOf (re_type (ra_runEnds a)) -> FindPhysicalIndex a x = Some (rank (endsOf a) x).
Proof.
  intros HA Hx. pose proof HA as (_ & _ & _ & Hl & _ & HS & _). pose proof (length_ends a HA) as HL. unfold FindPhysicalIndex. destruct (Z.eqb_spec (re_len (ra_runEnds a)) 0) as [H0|H0]; [destruct (endsOf a); [reflexivity|cbn [List.length] in HL; lia]|].
  pose proof (castAll_ok a HA) as HC. unfold getRunEnds in HC. rewrite HC. cbn [opt_bind]. apply searchRunEnds_ok; [assumption|now apply narrow_id].
Qed.

Lemma sorted_skipn n : forall l, StronglySorted Z.lt l -> StronglySorted Z.lt (skipn n l).
Proof. induction n as [|n IH]; intros l HS; [assumption|]. destruct HS; [constructor|]. now apply IH. Qed.

Lemma last_nth (l : list Z) : last l 0 = nth (List.length l - 1) l 0.
Proof. induction l as [|x l IH]; [reflexivity|]. destruct l as [|y l]; [reflexivity|]. change (last (x :: y :: l) 0) with (last (y :: l) 0). rewrite IH. cbn [List.length]. now replace (S (S (List.length l)) - 1)%nat with (S (S (List.length l) - 1)) by lia. Qed.

(** Every logical position has its run. *)
Lemma phys_bound a p : reeOk a -> 0 <= p < ra_len a -> 0 <= phys a p < len (endsOf a).
Proof.
  intros (_ & _ & _ & _ & _ & HS & Ho & Hl & _ & Hc) Hp. destruct Hc as [|Hc]; [lia|]. pose proof (rank_bound (endsOf a) (ra_offset a + p)) as HB. unfold phys. destruct (Z.eq_dec (rank (endsOf a) (ra_offset a + p)) (len (endsOf a))) as [He|He]; [|lia]. destruct (endsOf a) as [|e l] eqn:E; [cbn in Hc; lia|]. rewrite <- E in *. assert (HLp : 0 < len (endsOf a)) by (rewrite E; cbn; lia).
  pose proof (rank_before (endsOf a) (ra_offset a + p) HS ltac:(lia)) as HX. rewrite He in HX. rewrite last_nth in Hc. replace (Z.to_nat (len (endsOf a) - 1)) with (List.length (endsOf a) - 1)%nat in HX by lia. lia.
Qed.

Lemma phys_end a p : reeOk a -> 0 <= p < ra_len a -> ra_offset a + p < nth (Z.to_nat (phys a p)) (endsOf a) 0.
Proof. intros HA Hp. apply rank_at; [apply HA|]. now apply phys_bound. Qed.

Lemma PhysicalLength_ok a : reeOk a -> 0 < ra_len a -> GetPhysicalLength a = Some (phys a (ra_len a - 1) - phys a 0 + 1).
Proof.
  intros HA Hlen. pose proof HA as (_ & _ & Hro & Hl & _ & HS & Ho & _ & Hmax & _). pose proof (length_ends a HA) as HL. unfold GetPhysicalLength. destruct (Z.eqb_spec (ra_len a) 0); [lia|]. unfold FindPhysicalOffset. rewrite FindPhysical_ok by (assumption || lia). cbn [opt_bind]. set (k := rank (endsOf a) (ra_offset a)). pose proof (rank_bound (endsOf a) (ra_offset a)) as Hk. fold k in Hk.
  rewrite castRunEnds_ok by (assumption || lia). cbn [opt_bind]. rewrite searchRunEnds_ok by (try apply sorted_skipn; try assumption; apply narrow_id; lia). cbn [opt_bind]. f_equal. unfold phys. rewrite Z.add_0_r. fold k. replace (ra_offset a + (ra_len a - 1)) with (ra_offset a + ra_len a - 1) by lia. set (x := ra_offset a + ra_len a - 1).
  assert (HX : rank (endsOf a) x = k + rank (skipn (Z.to_nat k) (endsOf a)) x); [|lia]. rewrite <- (firstn_skipn (Z.to_nat k) (endsOf a)) at 1. rewrite rank_app. f_equal. assert (HF : len (firstn (Z.to_nat k) (endsOf a)) = k) by (rewrite length_firstn; lia). rewrite <- HF at 2. unfold rank. f_equal. f_equal. apply forallb_filter_id, forallb_forall. intros e He. apply Z.leb_le. destruct (In_nth _ _ 0 He) as (j & Hj & <-). rewrite nth_firstn. replace (j <? Z.to_nat k)%nat with true by (symmetry; apply Nat.ltb_lt; lia).
  pose proof (rank_nth (endsOf a) (ra_offset a) HS (Z.of_nat j) ltac:(lia)) as HN. fold k in HN. rewrite Nat2Z.id in HN. replace (Z.of_nat j <? k) with true in HN by (symmetry; apply Z.ltb_lt; lia). apply Z.leb_le in HN. subst x. lia.
Qed.

(** The runs a slice touches are those from its first to its last. *)
Lemma touched a k : reeOk a -> 0 < ra_len a -> (exists p, 0 <= p < ra_len a /\ phys a p = k) <-> phys a 0 <= k <= phys a (ra_len a - 1).
Proof.
  intros HA Hlen. pose proof HA as (_ & _ & _ & _ & _ & HS & Ho & _). split.
  - intros (p & Hp & <-). unfold phys. split; apply rank_mono; lia.
  - intros Hk. destruct (Z.eq_dec k (phys a 0)) as [->|Hne]; [exists 0; split; [lia|reflexivity]|]. pose proof (phys_bound a (ra_len a - 1) HA ltac:(lia)) as HB. pose proof (phys_bound a 0 HA ltac:(lia)) as HB0. exists (nth (Z.to_nat (k - 1)) (endsOf a) 0 - ra_offset a).
    assert (H1 : ra_offset a < nth (Z.to_nat (k - 1)) (endsOf a) 0) by (apply Z.leb_gt; rewrite rank_nth by (assumption || lia); apply Z.ltb_ge; unfold phys in *; rewrite Z.add_0_r in *; lia).
    assert (H2 : nth (Z.to_nat (k - 1)) (endsOf a) 0 <= ra_offset a + (ra_len a - 1)) by (apply Z.leb_le; rewrite rank_nth by (assumption || lia); apply Z.ltb_lt; unfold phys in *; lia). split; [lia|].
    unfold phys. replace (ra_offset a + (nth (Z.to_nat (k - 1)) (endsOf a) 0 - ra_offset a)) with (nth (Z.to_nat (k - 1)) (endsOf a) 0) by lia. apply rank_unique; [assumption|lia|lia|]. intros _. apply nth_mono; (assumption || lia).
Qed.
