(* ===== verification/RunEndsClaims.v ===== *)
(** * Claims about run-end encoded arrays

    The physical index and the physical length of a slice, and the walk over two arrays: what it
    delivers, and that it ends. *)

From Stdlib Require Import ZArith List Lia Bool Sorted.
From S2P Require Import Prelude BitUtil BitmapsOk BooleansOk RunEnds RunEndsOk.
Import ListNotations.
#[local] Open Scope Z_scope.
#[local] Open Scope go_scope.

(** ** One step of the walk *)

(** Before [Next] at position [p]: the run of an input is over, or goes on. *)
Definition inputAt (a : ReeData) (p idx runEnd : Z) : Prop := p < ra_len a -> (runEnd = p /\ idx + 1 = phys a p) \/ (p < runEnd /\ idx = phys a p).

Definition mrAt (a b : ReeData) (p : Z) (mr : MergedRuns) : Prop :=
  mr_inputs mr = (a, b) /\ mr_inputRunEnds mr = (endsOf a, endsOf b) /\ mr_logicalLen mr = ra_len a /\ mr_mergedEnd mr = p /\ 0 <= p <= ra_len a /\
  inputAt a p (fst (mr_runIndex mr)) (fst (mr_runEnds mr)) /\ inputAt b p (snd (mr_runIndex mr)) (snd (mr_runEnds mr)).

(** The end of the run at [p]. *)
Definition runEndAt (a : ReeData) (p : Z) : Z := Z.min (ra_len a) (nth (Z.to_nat (phys a p)) (endsOf a) 0 - ra_offset a).

Lemma phys_const a p p' : reeOk a -> 0 <= p < ra_len a -> p <= p' < runEndAt a p -> phys a p' = phys a p.
Proof.
  intros HA Hp Hp'. pose proof HA as (_ & _ & _ & _ & _ & HS & _). pose proof (phys_bound a p HA Hp) as HB. unfold runEndAt in Hp'. unfold phys at 1. apply rank_unique; [assumption|lia| |lia]. intros H0. pose proof (rank_before (endsOf a) (ra_offset a + p) HS H0) as HX. fold (phys a p) in HX. lia.
Qed.

Lemma runEndAt_after a p : reeOk a -> 0 <= p < ra_len a -> p < runEndAt a p <= ra_len a.
Proof. intros HA Hp. pose proof (phys_end a p HA Hp). unfold runEndAt. lia. Qed.

(** At the end of a run the next one starts. *)
Lemma phys_next a p : reeOk a -> 0 <= p < ra_len a -> runEndAt a p < ra_len a -> phys a (runEndAt a p) = phys a p + 1.
Proof.
  intros HA Hp Hlt. pose proof HA as (_ & _ & _ & _ & _ & HS & _). pose proof (phys_bound a p HA Hp) as HB. unfold phys at 1. unfold runEndAt in *. rewrite Z.min_r in * by lia. replace (ra_offset a + (nth (Z.to_nat (phys a p)) (endsOf a) 0 - ra_offset a)) with (nth (Z.to_nat (phys a p)) (endsOf a) 0) by lia.
  apply rank_unique; [assumption|lia| |]; [intros _; now replace (phys a p + 1 - 1) with (phys a p) by lia|]. intros H. apply nth_mono; (assumption || lia).
Qed.

Lemma inputAt_next a p q : reeOk a -> 0 <= p < ra_len a -> p < q <= runEndAt a p -> inputAt a q (phys a p) (runEndAt a p).
Proof.
  intros HA Hp Hq Hlt. destruct (Z.eq_dec q (runEndAt a p)) as [->|Hne].
  - left. split; [reflexivity|]. symmetry. now apply phys_next.
  - right. split; [lia|]. symmetry. apply phys_const; (assumption || lia).
Qed.

Lemma mergeInput_ok a p m : reeOk a -> 0 <= p < ra_len a -> MR.mergeInput (ra_len a) a (endsOf a) (phys a p) m = Some (runEndAt a p, Z.min (runEndAt a p) m).
Proof.
  intros HA Hp. pose proof (phys_bound a p HA Hp) as HB. unfold MR.mergeInput. rewrite (index_ok (endsOf a) (phys a p) 0) by assumption. cbn [opt_bind]. fold (runEndAt a p). set (e := nth _ _ 0 - ra_offset a). assert (He : (if ra_len a <? e then ra_len a else e) = runEndAt a p) by (unfold runEndAt; fold e; destruct (Z.ltb_spec (ra_len a) e); lia). rewrite He.
  destruct (Z.ltb_spec (runEndAt a p) m); do 2 f_equal; lia.
Qed.

Lemma runBump_ok a p idx runEnd : inputAt a p idx runEnd -> p < ra_len a -> (if p =? runEnd then idx + 1 else idx) = phys a p.
Proof. intros H Hp. destruct (H Hp) as [[-> He]|[Hlt ->]]; [now rewrite Z.eqb_refl|]. destruct (Z.eqb_spec p runEnd); [lia|reflexivity]. Qed.

(** The next merged run: up to the first of the two run ends. *)
Definition nextEnd (a b : ReeData) (p : Z) : Z := Z.min (runEndAt a p) (runEndAt b p).

Lemma Next_run a b p mr : reeOk a -> reeOk b -> ra_len b = ra_len a -> mrAt a b p mr -> p < ra_len a ->
  exists mr', MR.Next mr = Some (mr', true) /\ mrAt a b (nextEnd a b p) mr' /\ MR.IndexIntoArray mr' = (phys a p, phys b p) /\ MR.RunLength mr' = nextEnd a b p - p.
Proof.
  intros HA HB HL (H1 & H2 & H3 & H4 & H5 & H6 & H7) Hp. unfold MR.Next, MR.isEnd. cbn [mr_logicalPos mr_logicalLen mr_runIndex mr_runEnds mr_inputs mr_inputRunEnds mr_mergedEnd]. rewrite H1, H2, H3, H4. destruct (Z.eqb_spec p (ra_len a)); [lia|]. rewrite (runBump_ok a p _ _ H6 Hp), (runBump_ok b p _ _ H7 ltac:(lia)).
  pose proof (runEndAt_after a p HA ltac:(lia)) as Ra. pose proof (runEndAt_after b p HB ltac:(lia)) as Rb. pose proof HA as (_ & _ & _ & _ & _ & _ & Hoff & _ & Hmax & _).
  unfold MR.findMergedRun. cbn [mr_logicalLen mr_inputs mr_inputRunEnds mr_runIndex fst snd]. rewrite mergeInput_ok by (assumption || lia). cbn [opt_bind fst snd]. rewrite <- HL. rewrite mergeInput_ok by (assumption || lia). cbn [opt_bind fst snd]. eexists. split; [reflexivity|]. unfold mrAt, MR.IndexIntoArray, MR.RunLength. cbn [mr_inputs mr_inputRunEnds mr_logicalLen mr_mergedEnd mr_runIndex mr_runEnds mr_logicalPos fst snd].
  assert (HM : Z.min (runEndAt b p) (Z.min (runEndAt a p) MaxInt64) = nextEnd a b p) by (unfold nextEnd, MaxInt64; assert (maxOf (re_type (ra_runEnds a)) <= 2 ^ 63 - 1) by (destruct (re_type (ra_runEnds a)); cbn; lia); lia). rewrite HM. assert (Hq : p < nextEnd a b p <= runEndAt a p /\ nextEnd a b p <= runEndAt b p) by (unfold nextEnd; lia). splits; auto; try lia; apply inputAt_next; (assumption || lia).
Qed.

Lemma Next_last a b mr : mrAt a b (ra_len a) mr -> exists mr', MR.Next mr = Some (mr', false) /\ mr_logicalPos mr' = ra_len a /\ mrAt a b (ra_len a) mr'.
Proof. intros (H1 & H2 & H3 & H4 & H5 & H6 & H7). unfold MR.Next, MR.isEnd. cbn [mr_logicalPos mr_logicalLen]. rewrite H3, H4, Z.eqb_refl. eexists. split; [reflexivity|]. split; [reflexivity|]. unfold mrAt. cbn [mr_inputs mr_inputRunEnds mr_logicalLen mr_mergedEnd mr_runIndex mr_runEnds]. auto 8. Qed.

Lemma New_at a b : reeOk a -> reeOk b -> ra_len b = ra_len a -> exists mr, MR.NewMergedRuns a b = Some mr /\ mrAt a b 0 mr.
Proof.
  assert (HI : forall x l, reeOk x -> ra_len x = l -> MR.newInput l x = Some (endsOf x, phys x 0 - 1)).
  { intros x l HX Hl. pose proof HX as (Hr & _ & _ & _ & _ & _ & Ho & Hn & Hmax & _). unfold MR.newInput. rewrite Hr, Hl, Z.eqb_refl. cbn [negb]. rewrite castAll_ok by assumption. cbn [opt_bind]. unfold FindPhysicalOffset. rewrite FindPhysical_ok by (assumption || lia). cbn [opt_bind]. unfold phys. now rewrite Z.add_0_r. }
  intros HA HB HL. unfold MR.NewMergedRuns. rewrite (HI a (ra_len a) HA eq_refl), (HI b (ra_len a) HB HL). cbn [opt_bind fst snd]. eexists. split; [reflexivity|]. pose proof HA as (_ & _ & _ & _ & _ & _ & _ & Hn & _). unfold mrAt. cbn [mr_inputs mr_inputRunEnds mr_logicalLen mr_mergedEnd mr_runIndex mr_runEnds fst snd]. splits; auto; try lia; intros _; left; lia.
Qed.

(** ** The whole walk *)

(** [for mr.Next() { ... }]: the indices and the length of every run. *)
Fixpoint walk (fuel : nat) (mr : MergedRuns) : option (list (Z * Z * Z)) :=
  match fuel with
  | O => None
  | S fuel' =>
      r <- MR.Next mr ;;
      if snd r then rest <- walk fuel' (fst r) ;; Some ((MR.IndexIntoArray (fst r), MR.RunLength (fst r)) :: rest) else Some []
  end.

Definition spread (runs : list (Z * Z * Z)) : list (Z * Z) := flat_map (fun r => repeat (fst r) (Z.to_nat (snd r))) runs.

Lemma map_const_in {A B} (f : A -> B) c l : (forall x, In x l -> f x = c) -> map f l = repeat c (List.length l).
Proof. intros H. induction l as [|x l IH]; [reflexivity|]. cbn [map List.length repeat]. rewrite H by (left; reflexivity). f_equal. apply IH. intros y Hy. apply H. now right. Qed.

Section Walk.
Variables a b : ReeData.
Hypothesis HA : reeOk a.
Hypothesis HB : reeOk b.
Hypothesis HL : ra_len b = ra_len a.

(** The runs from the position [p] to the end of the two arrays. *)
Definition pairs (p : Z) : list (Z * Z) := map (fun i => (phys a i, phys b i)) (zseq p (Z.to_nat (ra_len a - p))).

(** How often [Next] can still succeed: every time, one of the two indices goes up. *)
Definition budget (p : Z) : Z := if p <? ra_len a then (phys a (ra_len a - 1) - phys a p) + (phys b (ra_len a - 1) - phys b p) + 1 else 0.

Lemma nextEnd_after p : 0 <= p < ra_len a -> p < nextEnd a b p <= ra_len a.
Proof. intros Hp. pose proof (runEndAt_after a p HA Hp). pose proof (runEndAt_after b p HB ltac:(lia)). unfold nextEnd. lia. Qed.

Lemma budget_pos p : 0 <= p -> 0 <= budget p.
Proof. intros Hp. unfold budget. destruct (Z.ltb_spec p (ra_len a)); [|lia]. pose proof (rank_mono (endsOf a) (ra_offset a + p) (ra_offset a + (ra_len a - 1)) ltac:(lia)). pose proof (rank_mono (endsOf b) (ra_offset b + p) (ra_offset b + (ra_len a - 1)) ltac:(lia)). unfold phys. lia. Qed.

Lemma budget_next p : 0 <= p < ra_len a -> budget (nextEnd a b p) + 1 <= budget p.
Proof.
  intros Hp. pose proof (nextEnd_after p Hp) as Hn. pose proof (budget_pos p ltac:(lia)) as H0. unfold budget in *. destruct (Z.ltb_spec p (ra_len a)); [|lia].
  pose proof (rank_mono (endsOf a) (ra_offset a + p) (ra_offset a + nextEnd a b p) ltac:(lia)) as Ma. pose proof (rank_mono (endsOf b) (ra_offset b + p) (ra_offset b + nextEnd a b p) ltac:(lia)) as Mb.
  pose proof (rank_mono (endsOf a) (ra_offset a + p) (ra_offset a + (ra_len a - 1)) ltac:(lia)) as Na. pose proof (rank_mono (endsOf b) (ra_offset b + p) (ra_offset b + (ra_len a - 1)) ltac:(lia)) as Nb. fold (phys a p) (phys a (nextEnd a b p)) (phys a (ra_len a - 1)) in *. fold (phys b p) (phys b (nextEnd a b p)) (phys b (ra_len a - 1)) in *.
  destruct (Z.ltb_spec (nextEnd a b p) (ra_len a)) as [Hlt|]; [|lia]. unfold nextEnd in *. destruct (Z.le_ge_cases (runEndAt a p) (runEndAt b p)) as [Hle|Hle].
  - rewrite Z.min_l in * by assumption. pose proof (phys_next a p HA Hp Hlt). lia.
  - rewrite Z.min_r in * by assumption. pose proof (phys_next b p HB ltac:(lia) ltac:(lia)). lia.
Qed.

Lemma pairs_run p : 0 <= p < ra_len a -> pairs p = repeat (phys a p, phys b p) (Z.to_nat (nextEnd a b p - p)) ++ pairs (nextEnd a b p).
Proof.
  intros Hp. pose proof (nextEnd_after p Hp) as Hn. unfold pairs. replace (Z.to_nat (ra_len a - p)) with (Z.to_nat (nextEnd a b p - p) + Z.to_nat (ra_len a - nextEnd a b p))%nat by lia. rewrite zseq_app, map_app. replace (p + Z.of_nat (Z.to_nat (nextEnd a b p - p))) with (nextEnd a b p) by lia. f_equal.
  rewrite <- (length_zseq p (Z.to_nat (nextEnd a b p - p))) at 2. apply map_const_in. intros i Hi. apply in_zseq in Hi. unfold nextEnd in *. rewrite (phys_const a p i), (phys_const b p i) by (assumption || lia). reflexivity.
Qed.

Lemma walk_ok fuel : forall p mr, mrAt a b p mr -> budget p <= Z.of_nat fuel ->
  exists runs, walk (S fuel) mr = Some runs /\ Forall (fun r => 0 < snd r) runs /\ len runs <= budget p /\ spread runs = pairs p.
Proof.
  induction fuel as [|fuel IH]; intros p mr HM Hf; pose proof HM as (_ & _ & _ & _ & Hp & _).
  all: destruct (Z.eq_dec p (ra_len a)) as [->|Hne].
  1, 3: destruct (Next_last a b mr HM) as (mr' & HN & _); cbn [walk]; rewrite HN; cbn [opt_bind snd]; exists []; unfold budget, pairs; rewrite Z.ltb_irrefl, Z.sub_diag; splits; (reflexivity || constructor).
  - pose proof (budget_next p ltac:(lia)). pose proof (budget_pos (nextEnd a b p)). pose proof (nextEnd_after p). lia.
  - destruct (Next_run a b p mr HA HB HL HM ltac:(lia)) as (mr' & HN & HM' & HI & HR). pose proof (budget_next p ltac:(lia)) as Hb. pose proof (nextEnd_after p ltac:(lia)) as Hn. destruct (IH _ mr' HM' ltac:(lia)) as (runs & HW & HF & HC & HS).
    change (walk (S (S fuel)) mr) with (r <- MR.Next mr ;; if (snd r : bool) then rest <- walk (S fuel) (fst r) ;; Some ((MR.IndexIntoArray (fst r), MR.RunLength (fst r)) :: rest) else Some []). rewrite HN. cbn [opt_bind snd fst]. rewrite HW. cbn [opt_bind]. rewrite HI, HR. eexists. split; [reflexivity|]. splits; [constructor; [cbn; lia|assumption]|cbn [List.length]; lia|]. unfold spread in *. cbn [flat_map fst snd]. rewrite HS. symmetry. apply pairs_run. lia.
Qed.
End Walk.

(** The states after [n] calls of [Next] that gave true. *)
Inductive runsOf : nat -> MergedRuns -> MergedRuns -> Prop :=
| runs_none mr : runsOf O mr mr
| runs_more n mr mr' mr'' : MR.Next mr = Some (mr', true) -> runsOf n mr' mr'' -> runsOf (S n) mr mr''.

Lemma runs_at a b n mr mr' : reeOk a -> reeOk b -> ra_len b = ra_len a -> runsOf n mr mr' -> forall p, mrAt a b p mr -> exists q, mrAt a b q mr' /\ Z.of_nat n + budget a b q <= budget a b p.
Proof.
  intros HA HB HL. induction 1 as [mr|n mr mr1 mr2 HN _ IH]; intros p HM; [exists p; split; [assumption|lia]|]. pose proof HM as (_ & _ & _ & _ & Hp & _). destruct (Z.eq_dec p (ra_len a)) as [->|Hne].
  - destruct (Next_last a b mr HM) as (? & HN' & _). congruence.
  - destruct (Next_run a b p mr HA HB HL HM ltac:(lia)) as (mr' & HN' & HM' & _). rewrite HN in HN'. injection HN' as <-. destruct (IH _ HM') as (q & Hq & Hb). exists q. split; [assumption|]. pose proof (budget_next a b HA HB HL p ltac:(lia)). lia.
Qed.

Lemma Next_over a b mr : mrAt a b (ra_len a) mr -> exists mr', MR.Next mr = Some (mr', false) /\ mr_logicalPos mr' = ra_len a /\ MR.Next mr' = Some (mr', false).
Proof. intros (_ & _ & H3 & H4 & _). unfold MR.Next, MR.isEnd. cbn [mr_logicalPos mr_logicalLen]. rewrite H3, H4, Z.eqb_refl. eexists. splits; [reflexivity|reflexivity|]. cbn [mr_logicalPos mr_logicalLen mr_mergedEnd mr_inputs mr_runIndex mr_inputRunEnds mr_runEnds]. now rewrite Z.eqb_refl. Qed.

(** From any state on the way the end is reached. *)
Lemma ends_from a b fuel : reeOk a -> reeOk b -> ra_len b = ra_len a -> forall p mr, mrAt a b p mr -> budget a b p <= Z.of_nat fuel -> exists n mr1, runsOf n mr mr1 /\ mrAt a b (ra_len a) mr1 /\ Z.of_nat n <= budget a b p.
Proof.
  intros HA HB HL. induction fuel as [|fuel IH]; intros p mr HM Hf; pose proof HM as (_ & _ & _ & _ & Hp & _).
  all: destruct (Z.eq_dec p (ra_len a)) as [->|Hne]; [exists O, mr; splits; [constructor|assumption|pose proof (budget_pos a b (ra_len a) ltac:(lia)); lia]|].
  all: pose proof (budget_next a b HA HB HL p ltac:(lia)) as Hb; pose proof (nextEnd_after a b HA HB HL p ltac:(lia)) as Hn; pose proof (budget_pos a b (nextEnd a b p) ltac:(lia)).
  1: lia.
  destruct (Next_run a b p mr HA HB HL HM ltac:(lia)) as (mr' & HN & HM' & _). destruct (IH _ mr' HM' ltac:(lia)) as (n & mr1 & HR & HE & Hc). exists (S n), mr1. splits; [econstructor; eassumption|assumption|lia].
Qed.

(** ** Claims *)

(** In a valid run-end encoded array, cut anywhere, [FindPhysicalIndex] gives every logical
    position the run that holds it (the first whose end is after the position), and
    [FindPhysicalOffset] and [GetPhysicalLength] delimit exactly the runs that some position of the
    slice is in: none for an empty slice. *)
Theorem physical_index_correct a : reeOk a ->
  (forall p, 0 <= p < ra_len a -> exists k, FindPhysicalIndex a (ra_offset a + p) = Some k /\ 0 <= k < len (endsOf a) /\
    (0 < k -> nth (Z.to_nat (k - 1)) (endsOf a) 0 <= ra_offset a + p) /\ ra_offset a + p < nth (Z.to_nat k) (endsOf a) 0) /\
  exists first n, FindPhysicalOffset a = Some first /\ GetPhysicalLength a = Some n /\
    forall k, first <= k < first + n <-> exists p, 0 <= p < ra_len a /\ FindPhysicalIndex a (ra_offset a + p) = Some k.
Proof.
  intros HA. pose proof HA as (_ & _ & _ & _ & _ & HS & Ho & Hl & Hmax & _).
  assert (HF : forall p, 0 <= p <= ra_len a -> FindPhysicalIndex a (ra_offset a + p) = Some (phys a p)) by (intros p Hp; apply FindPhysical_ok; (assumption || lia)). split.
  - intros p Hp. exists (phys a p). splits; [apply HF; lia|now apply phys_bound|now apply phys_bound|now apply rank_before|now apply phys_end].
  - exists (phys a 0). unfold FindPhysicalOffset. pose proof (HF 0 ltac:(lia)) as H0. rewrite Z.add_0_r in H0. rewrite H0. destruct (Z.eq_dec (ra_len a) 0) as [He|Hne].
    + exists 0. unfold GetPhysicalLength. rewrite He. splits; [reflexivity|reflexivity|]. intros k. split; [lia|intros (p & Hp & _); lia].
    + eexists. splits; [reflexivity|apply PhysicalLength_ok; (assumption || lia)|]. intros k. pose proof (touched a k HA ltac:(lia)) as HT. split.
      * intros Hk. destruct (proj2 HT ltac:(lia)) as (p & Hp & <-). exists p. split; [assumption|apply HF; lia].
      * intros (p & Hp & HE). rewrite HF in HE by lia. injection HE as <-. enough (phys a 0 <= phys a p <= phys a (ra_len a - 1)) by lia. apply HT. now exists p.
Qed.

(** C8: [MergedRuns] over two valid arrays of one length, with any offsets and run end types, gives
    the runs of both: the loop over [Next] ends without a panic, every run has a length above zero,
    and repeating the pair of indices of every run as often as the run is long gives for every
    logical position what [FindPhysicalIndex] finds in the one and in the other array. *)
Theorem merged_runs_correct a b : reeOk a -> reeOk b -> ra_len b = ra_len a ->
  exists mr fuel runs, MR.NewMergedRuns a b = Some mr /\ walk fuel mr = Some runs /\ Forall (fun r => 0 < snd r) runs /\
    map (fun r => (Some (fst r), Some (snd r))) (spread runs) =
    map (fun p => (FindPhysicalIndex a (ra_offset a + p), FindPhysicalIndex b (ra_offset b + p))) (zseq 0 (Z.to_nat (ra_len a))).
Proof.
  intros HA HB HL. destruct (New_at a b HA HB HL) as (mr & HN & HM). destruct (walk_ok a b HA HB HL (Z.to_nat (budget a b 0)) 0 mr HM ltac:(lia)) as (runs & HW & HF & _ & HS). exists mr, (S (Z.to_nat (budget a b 0))), runs. splits; [assumption..|]. rewrite HS. unfold pairs. rewrite Z.sub_0_r, map_map. apply map_ext_in. intros p Hp. apply in_zseq in Hp. cbn [fst snd].
  pose proof HA as (_ & _ & _ & _ & _ & _ & ? & _ & ? & _). pose proof HB as (_ & _ & _ & _ & _ & _ & ? & _ & ? & _). unfold phys. now rewrite !FindPhysical_ok by (assumption || lia).
Qed.

(** C23: however far a walk over two valid arrays of one length has come, [Next] does not panic and
    the walk reaches its end, where the logical position is the length of the arrays and [Next]
    keeps giving false; over arrays that are not empty, [Next] succeeds in all fewer times than the
    two slices have runs together. *)
Theorem merged_runs_ends a b mr0 k mr : reeOk a -> reeOk b -> ra_len b = ra_len a -> MR.NewMergedRuns a b = Some mr0 -> runsOf k mr0 mr ->
  exists n mr1 mr2, runsOf n mr mr1 /\ MR.Next mr1 = Some (mr2, false) /\ mr_logicalPos mr2 = ra_len a /\ MR.Next mr2 = Some (mr2, false) /\
    (0 < ra_len a -> exists pa pb, GetPhysicalLength a = Some pa /\ GetPhysicalLength b = Some pb /\ Z.of_nat (k + n) < pa + pb).
Proof.
  intros HA HB HL H0 HR. destruct (New_at a b HA HB HL) as (mr' & HN & HM). rewrite H0 in HN. injection HN as <-. destruct (runs_at a b k mr0 mr HA HB HL HR 0 HM) as (q & Hq & Hb). destruct (ends_from a b (Z.to_nat (budget a b q)) HA HB HL q mr Hq ltac:(lia)) as (n & mr1 & HR1 & HE & Hc). destruct (Next_over a b mr1 HE) as (mr2 & HN1 & HP & HN2). exists n, mr1, mr2. splits; [assumption..|].
  intros Hlen. exists (phys a (ra_len a - 1) - phys a 0 + 1), (phys b (ra_len a - 1) - phys b 0 + 1). splits; [now apply PhysicalLength_ok|rewrite <- HL; apply PhysicalLength_ok; (assumption || lia)|]. unfold budget at 2 in Hb. destruct (Z.ltb_spec 0 (ra_len a)); lia.
Qed.

(** ** Witnesses *)

(** Runs that end at 4, 9 and 12, cut to seven positions from the third on; and runs that end at 1,
    2, 6 and 20, cut to seven positions from the second on, with a child that is cut too. *)
Definition reeA : ReeData := mkRee true 2 7 (mkRunEnds INT16 0 3 [4; 9; 12]) 0.
Definition reeB : ReeData := mkRee true 1 7 (mkRunEnds INT64 1 4 [0; 1; 2; 6; 20; 33]) 0.

Ltac ree_ok := unfold reeOk; cbn [ra_isREE ra_offset ra_len ra_runEnds re_type re_offset re_len re_buf reeA reeB maxOf]; repeat split; try discriminate; try (vm_compute; discriminate); try (right; vm_compute; discriminate); vm_compute; repeat constructor.

Lemma reeA_ok : reeOk reeA.
Proof. ree_ok. Qed.

Lemma reeB_ok : reeOk reeB.
Proof. ree_ok. Qed.

Lemma merged_runs_witness : exists mr fuel runs, MR.NewMergedRuns reeA reeB = Some mr /\ walk fuel mr = Some runs /\ len (spread runs) = 7 /\ walk 5 mr = Some [(0, 1, 1); (0, 2, 1); (1, 2, 3); (1, 3, 2)].
Proof.
  destruct (merged_runs_correct reeA reeB reeA_ok reeB_ok eq_refl) as (mr & fuel & runs & H1 & H2 & _ & H3). exists mr, fuel, runs. splits; [assumption|assumption| |]; [|vm_compute in H1; injection H1 as <-; vm_compute; reflexivity]. apply (f_equal (@List.length _)) in H3. rewrite !length_map, length_zseq in H3. rewrite H3. reflexivity.
Defined.

Lemma merged_runs_ends_witness : exists mr0 mr n mr1 mr2, MR.NewMergedRuns reeA reeB = Some mr0 /\ MR.Next mr0 = Some (mr, true) /\ runsOf n mr mr1 /\ MR.Next mr1 = Some (mr2, false) /\ mr_logicalPos mr2 = 7.
Proof.
  destruct (MR.NewMergedRuns reeA reeB) as [mr0|] eqn:H0; [|discriminate]. destruct (MR.Next mr0) as [[mr [|]]|] eqn:H1; [|vm_compute in H0; injection H0 as <-; discriminate..].
  destruct (merged_runs_ends reeA reeB mr0 1 mr reeA_ok reeB_ok eq_refl H0 (runs_more _ _ _ _ H1 (runs_none mr))) as (n & mr1 & mr2 & HR & HN & HP & _). exists mr0, mr, n, mr1, mr2. splits; (reflexivity || assumption).
Defined.
