(* ===== verification/Decimals.v ===== *)
(** * Decimals (arrow/decimal, arrow/decimal128, arrow/decimal256)

    The integers of 32, 64, 128 and 256 bits that hold decimals, with the interface [Num] that all
    four implement.  [math/big.Int] is [Z], [math/bits] is written out.  The assertions of
    [debug.Assert] are off in a normal build and do nothing; [None] is a panic.  The conversions
    from and to floating point numbers are not modelled. *)

From Stdlib Require Import ZArith List Lia Bool.
From S2P Require Import Prelude MathUtil.
Import ListNotations.
#[local] Open Scope Z_scope.
#[local] Open Scope go_scope.

(** [errors.New("rescale data loss")]. *)
Inductive decErr : Type := RescaleDataLoss.

Definition errIf (loss : bool) : option decErr := if loss then Some RescaleDataLoss else None.

(** ** math/bits and math/big *)

Definition Add64 (x y carry : Z) : Z * Z := (u64 (x + y + carry), (x + y + carry) / 2 ^ 64).

Definition Sub64 (x y borrow : Z) : Z * Z := (u64 (x - y - borrow), if x <? y + borrow then 1 else 0).

(** [bits.Mul32] and [bits.Mul64]: the high and the low word. *)
Definition MulW (w x y : Z) : Z * Z := ((x * y) / 2 ^ w, (x * y) mod 2 ^ w).

(** [bits.Div32] and [bits.Div64] with a high word of zero. *)
Definition DivW (x y : Z) : option (Z * Z) := if y =? 0 then None else Some (x / y, x mod y).

Definition BitLen (v : Z) : Z := if v =? 0 then 0 else Z.log2 (Z.abs v) + 1.

(** The words of the absolute value, the lowest first. *)
Definition Bits (v : Z) : list Z := fields (Z.abs v) 0 64 (Z.to_nat ((BitLen v + 63) / 64)).

Definition SetBits (ws : list Z) : Z := packed 64 ws.

Definition QuoRem (x y : Z) : option (Z * Z) := if y =? 0 then None else Some (Z.quot x y, Z.rem x y).

(** [Exp] with a nil modulus. *)
Definition Exp (x y : Z) : Z := if y <=? 0 then 1 else x ^ y.

(** ** decimal128 *)

Module D128.

Definition MaxPrecision : Z := 38.
Definition MaxScale : Z := 38.

Record Num : Type := mkNum { lo : Z; hi : Z }.

Definition New (hi lo : Z) : Num := mkNum lo hi.

Definition FromU64 (v : Z) : Num := New 0 v.

Definition FromI64 (v : Z) : Num := if 0 <? v then New 0 (u64 v) else if v <? 0 then New (-1) (u64 v) else mkNum 0 0.

Definition MaxDecimal128 : Num := New 542101086242752217 (687399551400673280 - 1).

Definition scaleMultipliers : list Num := [
  FromU64 1; FromU64 10; FromU64 100; FromU64 1000; FromU64 10000; FromU64 100000; FromU64 1000000; FromU64 10000000;
  FromU64 100000000; FromU64 1000000000; FromU64 10000000000; FromU64 100000000000; FromU64 1000000000000; FromU64 10000000000000;
  FromU64 100000000000000; FromU64 1000000000000000; FromU64 10000000000000000; FromU64 100000000000000000; FromU64 1000000000000000000;
  New 0 10000000000000000000; New 5 7766279631452241920; New 54 3875820019684212736; New 542 1864712049423024128;
  New 5421 200376420520689664; New 54210 2003764205206896640; New 542101 1590897978359414784; New 5421010 15908979783594147840;
  New 54210108 11515845246265065472; New 542101086 4477988020393345024; New 5421010862 7886392056514347008; New 54210108624 5076944270305263616;
  New 542101086242 13875954555633532928; New 5421010862427 9632337040368467968; New 54210108624275 4089650035136921600;
  New 542101086242752 4003012203950112768; New 5421010862427522 3136633892082024448; New 54210108624275221 12919594847110692864;
  New 542101086242752217 68739955140067328; New 5421010862427522170 687399551400673280
].

Definition scaleMultipliersHalf : list Num := [
  FromU64 0; FromU64 5; FromU64 50; FromU64 500; FromU64 5000; FromU64 50000; FromU64 500000; FromU64 5000000;
  FromU64 50000000; FromU64 500000000; FromU64 5000000000; FromU64 50000000000; FromU64 500000000000; FromU64 5000000000000;
  FromU64 50000000000000; FromU64 500000000000000; FromU64 5000000000000000; FromU64 50000000000000000; FromU64 500000000000000000;
  FromU64 5000000000000000000; New 2 13106511852580896768; New 27 1937910009842106368; New 271 932356024711512064;
  New 2710 9323560247115120640; New 27105 1001882102603448320; New 271050 10018821026034483200; New 2710505 7954489891797073920;
  New 27105054 5757922623132532736; New 271050543 2238994010196672512; New 2710505431 3943196028257173504; New 27105054312 2538472135152631808;
  New 271050543121 6937977277816766464; New 2710505431213 14039540557039009792; New 27105054312137 11268197054423236608;
  New 271050543121376 2001506101975056384; New 2710505431213761 1568316946041012224; New 27105054312137610 15683169460410122240;
  New 271050543121376108 9257742014424809472; New 2710505431213761085 343699775700336640
].

Definition Negate (n : Num) : Num :=
  let l := u64 (Z.lnot (lo n) + 1) in
  let h := Z.lnot (hi n) in
  mkNum l (if l =? 0 then i64 (h + 1) else h).

Definition FromBigInt (v : Z) : option Num :=
  let bitlen := BitLen v in
  if 127 <? bitlen then None
  else if bitlen =? 0 then Some (mkNum 0 0)
  else
    let b := Bits v in
    l <- index b 0 ;;
    h <- (if 1 <? len b then x <- index b 1 ;; Some (i64 x) else Some 0) ;;
    let n := mkNum l h in
    Some (if Z.sgn v <? 0 then Negate n else n).

Definition Add (n rhs : Num) : Num :=
  let h := i64 (hi n + hi rhs) in
  let r := Add64 (lo n) (lo rhs) 0 in
  mkNum (fst r) (i64 (h + i64 (snd r))).

Definition Sub (n rhs : Num) : Num :=
  let h := i64 (hi n - hi rhs) in
  let r := Sub64 (lo n) (lo rhs) 0 in
  mkNum (fst r) (i64 (h - i64 (snd r))).

Definition Mul (n rhs : Num) : Num :=
  let r := MulW 64 (lo n) (lo rhs) in
  let h := u64 (fst r + u64 (u64 (u64 (hi n) * lo rhs) + u64 (lo n * u64 (hi rhs)))) in
  mkNum (snd r) (i64 h).

Definition Sign (n : Num) : Z := if (lo n =? 0) && (hi n =? 0) then 0 else Z.lor 1 (hi n >> 63).

Definition toBigIntPositive (n : Num) : Z := SetBits [lo n; u64 (hi n)].

Definition BigInt (n : Num) : Z := if Sign n <? 0 then - toBigIntPositive (Negate n) else toBigIntPositive n.

Definition Div (n rhs : Num) : option (Num * Num) :=
  r <- QuoRem (BigInt n) (BigInt rhs) ;;
  out <- FromBigInt (fst r) ;;
  remainder <- FromBigInt (snd r) ;;
  Some (out, remainder).

Definition Pow (n rhs : Num) : option Num := FromBigInt (Exp (BigInt n) (BigInt rhs)).

Definition Less (n other : Num) : bool := (hi n <? hi other) || ((hi n =? hi other) && (lo n <? lo other)).

Definition Greater (n other : Num) : bool := Less other n.

Definition GreaterEqual (n other : Num) : bool := negb (Less n other).

Definition LessEqual (n other : Num) : bool := negb (Greater n other).

Definition Max (first : Num) (rest : list Num) : Num := fold_left (fun answer number => if Greater number answer then number else answer) rest first.

Definition Min (first : Num) (rest : list Num) : Num := fold_left (fun answer number => if Less number answer then number else answer) rest first.

Definition Cmp (n other : Num) : Z := if Greater n other then 1 else if Less n other then -1 else 0.

Definition GetMaxValue (prec : Z) : option Num := m <- index scaleMultipliers prec ;; Some (Sub m (FromU64 1)).

Definition IncreaseScaleBy (n : Num) (increase : Z) : option Num :=
  m <- index scaleMultipliers increase ;;
  FromBigInt (BigInt n * BigInt m).

Definition ReduceScaleBy (n : Num) (reduce : Z) (round : bool) : option Num :=
  if reduce =? 0 then Some n
  else
    m <- index scaleMultipliers reduce ;;
    r <- QuoRem (BigInt n) (BigInt m) ;;
    if round then
      divisorHalf <- index scaleMultipliersHalf reduce ;;
      FromBigInt (if Z.abs (snd r) <? BigInt divisorHalf then fst r else fst r + Sign n)
    else FromBigInt (fst r).

Definition rescaleWouldCauseDataLoss (n : Num) (deltaScale : Z) (multiplier : Num) : option (Num * bool) :=
  let value := BigInt n in
  if deltaScale <? 0 then
    r <- QuoRem value (BigInt multiplier) ;;
    out <- FromBigInt (fst r) ;;
    Some (out, negb (snd r =? 0))
  else
    let result := value * BigInt multiplier in
    out <- FromBigInt result ;;
    Some (out, if Sign n <? 0 then value <? result else result <? value).

Definition Rescale (n : Num) (originalScale newScale : Z) : option (Num * option decErr) :=
  if originalScale =? newScale then Some (n, None)
  else
    let deltaScale := i32 (newScale - originalScale) in
    multiplier <- index scaleMultipliers (Z.abs deltaScale) ;;
    r <- rescaleWouldCauseDataLoss n deltaScale multiplier ;;
    Some (fst r, errIf (snd r)).

Definition Abs (n : Num) : Num := if Sign n =? -1 then Negate n else n.

Definition FitsInPrecision (n : Num) (prec : Z) : option bool := m <- index scaleMultipliers prec ;; Some (Less (Abs n) m).

End D128.

(** ** decimal256 *)

Module D256.

Definition MaxPrecision : Z := 76.
Definition MaxScale : Z := 76.

(** The four words, the lowest first. *)
Record Num : Type := mkNum { arr : list Z }.

Definition New (x1 x2 x3 x4 : Z) : Num := mkNum [x4; x3; x2; x1].

Definition zero : Num := mkNum [0; 0; 0; 0].

Definition FromU64 (v : Z) : Num := mkNum [v; 0; 0; 0].

Definition MaxUint64 : Z := 18446744073709551615.

Definition FromI64 (v : Z) : Num := if 0 <? v then New 0 0 0 (u64 v) else if v <? 0 then New MaxUint64 MaxUint64 MaxUint64 (u64 v) else zero.

Definition FromDecimal128 (n : D128.Num) : Num :=
  let topBits := if D128.Sign n <? 0 then MaxUint64 else 0 in
  New topBits topBits (u64 (D128.hi n)) (D128.lo n).

Definition scaleMultipliers : list Num := [
  FromU64 1; FromU64 10; FromU64 100; FromU64 1000; FromU64 10000; FromU64 100000; FromU64 1000000; FromU64 10000000;
  FromU64 100000000; FromU64 1000000000; FromU64 10000000000; FromU64 100000000000; FromU64 1000000000000; FromU64 10000000000000;
  FromU64 100000000000000; FromU64 1000000000000000; FromU64 10000000000000000; FromU64 100000000000000000; FromU64 1000000000000000000;
  New 0 0 0 10000000000000000000; New 0 0 5 7766279631452241920; New 0 0 54 3875820019684212736; New 0 0 542 1864712049423024128;
  New 0 0 5421 200376420520689664; New 0 0 54210 2003764205206896640; New 0 0 542101 1590897978359414784; New 0 0 5421010 15908979783594147840;
  New 0 0 54210108 11515845246265065472; New 0 0 542101086 4477988020393345024; New 0 0 5421010862 7886392056514347008;
  New 0 0 54210108624 5076944270305263616; New 0 0 542101086242 13875954555633532928; New 0 0 5421010862427 9632337040368467968;
  New 0 0 54210108624275 4089650035136921600; New 0 0 542101086242752 4003012203950112768; New 0 0 5421010862427522 3136633892082024448;
  New 0 0 54210108624275221 12919594847110692864; New 0 0 542101086242752217 68739955140067328; New 0 0 5421010862427522170 687399551400673280;
  New 0 2 17316620476856118468 6873995514006732800; New 0 29 7145508105175220139 13399722918938673152; New 0 293 16114848830623546549 4870020673419870208;
  New 0 2938 13574535716559052564 11806718586779598848; New 0 29387 6618148649623664334 7386721425538678784; New 0 293873 10841254275107988496 80237960548581376;
  New 0 2938735 16178822382532126880 802379605485813760; New 0 29387358 14214271235644855872 8023796054858137600;
  New 0 293873587 13015503840481697412 6450984253743169536; New 0 2938735877 1027829888850112811 9169610316303040512;
  New 0 29387358770 10278298888501128114 17909126868192198656; New 0 293873587705 10549268516463523069 13070572018536022016;
  New 0 2938735877055 13258964796087472617 1578511669393358848; New 0 29387358770557 3462439444907864858 15785116693933588480;
  New 0 293873587705571 16177650375369096972 10277214349659471872; New 0 2938735877055718 14202551164014556797 10538423128046960640;
  New 0 29387358770557187 12898303124178706663 13150510911921848320; New 0 293873587705571876 18302566799529756941 2377900603251621888;
  New 0 2938735877055718769 17004971331911604867 5332261958806667264; New 1 10940614696847636083 4029016655730084128 16429131440647569408;
  New 15 17172426599928602752 3396678409881738056 16717361816799281152; New 159 5703569335900062977 15520040025107828953 1152921504606846976;
  New 1593 1695461137871974930 7626447661401876602 11529215046068469760; New 15930 16954611378719749304 2477500319180559562 4611686018427387904;
  New 159309 3525417123811528497 6328259118096044006 9223372036854775808; New 1593091 16807427164405733357 7942358959831785217 0;
  New 15930919 2053574980671369030 5636613303479645706 0; New 159309191 2089005733004138687 1025900813667802212 0;
  New 1593091911 2443313256331835254 10259008136678022120 0; New 15930919111 5986388489608800929 10356360998232463120 0;
  New 159309191113 4523652674959354447 11329889613776873120 0; New 1593091911132 8343038602174441244 2618431695511421504 0;
  New 15930919111324 9643409726906205977 7737572881404663424 0; New 159309191113245 4200376900514301694 3588752519208427776 0;
  New 1593091911132452 5110280857723913709 17440781118374726144 0; New 15930919111324522 14209320429820033867 8387114520361296896 0;
  New 159309191113245227 12965995782233477362 10084168908774762496 0; New 1593091911132452277 532749306367912313 8607968719199866880 0
].

Definition scaleMultipliersHalf : list Num := [
  FromU64 0; FromU64 5; FromU64 50; FromU64 500; FromU64 5000; FromU64 50000; FromU64 500000; FromU64 5000000;
  FromU64 50000000; FromU64 500000000; FromU64 5000000000; FromU64 50000000000; FromU64 500000000000; FromU64 5000000000000;
  FromU64 50000000000000; FromU64 500000000000000; FromU64 5000000000000000; FromU64 50000000000000000; FromU64 500000000000000000;
  FromU64 5000000000000000000; New 0 0 2 13106511852580896768; New 0 0 27 1937910009842106368; New 0 0 271 932356024711512064;
  New 0 0 2710 9323560247115120640; New 0 0 27105 1001882102603448320; New 0 0 271050 10018821026034483200; New 0 0 2710505 7954489891797073920;
  New 0 0 27105054 5757922623132532736; New 0 0 271050543 2238994010196672512; New 0 0 2710505431 3943196028257173504;
  New 0 0 27105054312 2538472135152631808; New 0 0 271050543121 6937977277816766464; New 0 0 2710505431213 14039540557039009792;
  New 0 0 27105054312137 11268197054423236608; New 0 0 271050543121376 2001506101975056384; New 0 0 2710505431213761 1568316946041012224;
  New 0 0 27105054312137610 15683169460410122240; New 0 0 271050543121376108 9257742014424809472; New 0 0 2710505431213761085 343699775700336640;
  New 0 1 8658310238428059234 3436997757003366400; New 0 14 12796126089442385877 15923233496324112384; New 0 146 17280796452166549082 11658382373564710912;
  New 0 1469 6787267858279526282 5903359293389799424; New 0 14693 12532446361666607975 3693360712769339392; New 0 146936 14643999174408770056 40118980274290688;
  New 0 1469367 17312783228120839248 401189802742906880; New 0 14693679 7107135617822427936 4011898027429068800;
  New 0 146936793 15731123957095624514 3225492126871584768; New 0 1469367938 9737286981279832213 13808177195006296064;
  New 0 14693679385 5139149444250564057 8954563434096099328; New 0 146936793852 14498006295086537342 15758658046122786816;
  New 0 1469367938527 15852854434898512116 10012627871551455232; New 0 14693679385278 10954591759308708237 7892558346966794240;
  New 0 146936793852785 17312197224539324294 5138607174829735936; New 0 1469367938527859 7101275582007278398 14492583600878256128;
  New 0 14693679385278593 15672523598944129139 15798627492815699968; New 0 146936793852785938 9151283399764878470 10412322338480586752;
  New 0 1469367938527859384 17725857702810578241 11889503016258109440; New 0 14693679385278593849 11237880364719817872 8214565720323784704;
  New 7 17809585336819077184 1698339204940869028 8358680908399640576; New 79 12075156704804807296 16983392049408690284 9799832789158199296;
  New 796 10071102605790763273 3813223830700938301 5764607523034234880; New 7965 8477305689359874652 1238750159590279781 2305843009213693952;
  New 79654 10986080598760540056 12387501595902797811 4611686018427387904; New 796545 17627085619057642486 13194551516770668416 9223372036854775808;
  New 7965459 10250159527190460323 2818306651739822853 0; New 79654595 10267874903356845151 9736322443688676914 0;
  New 796545955 10445028665020693435 5129504068339011060 0; New 7965459555 12216566281659176272 14401552535971007368 0;
  New 79654595556 11485198374334453031 14888316843743212368 0; New 796545955566 4171519301087220622 1309215847755710752 0;
  New 7965459555662 4821704863453102988 13092158477557107520 0; New 79654595556622 11323560487111926655 1794376259604213888 0;
  New 796545955566226 2555140428861956854 17943762596042138880 0; New 7965459555662261 7104660214910016933 13416929297035424256 0;
  New 79654595556622613 15706369927971514489 5042084454387381248 0; New 796545955566226138 9489746690038731964 13527356396454709248 0
].

Fixpoint negateLoop (carry : Z) (ws : list Z) : list Z :=
  match ws with
  | [] => []
  | x :: ws' => let y := u64 (Z.lnot x + carry) in y :: negateLoop (if y =? 0 then carry else 0) ws'
  end.

Definition Negate (n : Num) : Num := mkNum (negateLoop 1 (arr n)).

Fixpoint addLoop (carry : Z) (xs ys : list Z) : list Z :=
  match xs, ys with
  | x :: xs', y :: ys' => let r := Add64 x y carry in fst r :: addLoop (snd r) xs' ys'
  | _, _ => []
  end.

Definition Add (n rhs : Num) : Num := mkNum (addLoop 0 (arr n) (arr rhs)).

Definition Sub (n rhs : Num) : Num := Add n (Negate rhs).

(** [n.arr[i]]; the array has four words. *)
Definition word (n : Num) (i : nat) : Z := nth i (arr n) 0.

Definition isZero (n : Num) : bool := (word n 0 =? 0) && (word n 1 =? 0) && (word n 2 =? 0) && (word n 3 =? 0).

Definition Sign (n : Num) : Z := if isZero n then 0 else Z.lor 1 (i64 (word n 3) >> 63).

(** [for i, bits := range b { n.arr[i] = uint64(bits) }] from the zero value. *)
Fixpoint storeBits (i : Z) (b a : list Z) : option (list Z) :=
  match b with
  | [] => Some a
  | x :: b' => a <- store a i x ;; storeBits (i + 1) b' a
  end.

Definition FromBigInt (v : Z) : option Num :=
  let bitlen := BitLen v in
  if 255 <? bitlen then None
  else if bitlen =? 0 then Some zero
  else
    a <- storeBits 0 (Bits v) (arr zero) ;;
    Some (if Z.sgn v <? 0 then Negate (mkNum a) else mkNum a).

Definition toBigIntPositive (n : Num) : Z := SetBits (arr n).

Definition BigInt (n : Num) : Z := if Sign n <? 0 then - toBigIntPositive (Negate n) else toBigIntPositive n.

Definition Mul (n rhs : Num) : option Num := FromBigInt (BigInt n * BigInt rhs).

Definition Div (n rhs : Num) : option (Num * Num) :=
  r <- QuoRem (BigInt n) (BigInt rhs) ;;
  out <- FromBigInt (fst r) ;;
  remainder <- FromBigInt (snd r) ;;
  Some (out, remainder).

Definition Pow (n rhs : Num) : option Num := FromBigInt (Exp (BigInt n) (BigInt rhs)).

Definition Less (n other : Num) : bool :=
  if negb (word n 3 =? word other 3) then i64 (word n 3) <? i64 (word other 3)
  else if negb (word n 2 =? word other 2) then word n 2 <? word other 2
  else if negb (word n 1 =? word other 1) then word n 1 <? word other 1
  else word n 0 <? word other 0.

Definition Greater (n other : Num) : bool := Less other n.

Definition GreaterEqual (n other : Num) : bool := negb (Less n other).

Definition LessEqual (n other : Num) : bool := negb (Greater n other).

Definition Max (first : Num) (rest : list Num) : Num := fold_left (fun answer number => if Greater number answer then number else answer) rest first.

Definition Min (first : Num) (rest : list Num) : Num := fold_left (fun answer number => if Less number answer then number else answer) rest first.

Definition Cmp (n other : Num) : Z := if Greater n other then 1 else if Less n other then -1 else 0.

Definition GetMaxValue (prec : Z) : option Num := m <- index scaleMultipliers prec ;; Some (Sub m (FromU64 1)).

Definition IncreaseScaleBy (n : Num) (increase : Z) : option Num :=
  m <- index scaleMultipliers increase ;;
  FromBigInt (BigInt n * BigInt m).

Definition ReduceScaleBy (n : Num) (reduce : Z) (round : bool) : option Num :=
  if reduce =? 0 then Some n
  else
    m <- index scaleMultipliers reduce ;;
    r <- QuoRem (BigInt n) (BigInt m) ;;
    if round then
      divisorHalf <- index scaleMultipliersHalf reduce ;;
      FromBigInt (if Z.abs (snd r) <? BigInt divisorHalf then fst r else fst r + Sign n)
    else FromBigInt (fst r).

Definition rescaleWouldCauseDataLoss (n : Num) (deltaScale : Z) (multiplier : Num) : option (Num * bool) :=
  if deltaScale <? 0 then
    r <- Div n multiplier ;;
    Some (fst r, negb (isZero (snd r)))
  else
    out <- Mul n multiplier ;;
    Some (out, if Sign n <? 0 then Less n out else Less out n).

Definition Rescale (n : Num) (original newscale : Z) : option (Num * option decErr) :=
  if original =? newscale then Some (n, None)
  else
    let deltaScale := i32 (newscale - original) in
    multiplier <- index scaleMultipliers (Z.abs deltaScale) ;;
    r <- rescaleWouldCauseDataLoss n deltaScale multiplier ;;
    Some (fst r, errIf (snd r)).

Definition Abs (n : Num) : Num := if Sign n =? -1 then Negate n else n.

Definition FitsInPrecision (n : Num) (prec : Z) : option bool := m <- index scaleMultipliers prec ;; Some (Less (Abs n) m).

End D256.

(** ** Decimal32 and Decimal64 *)

(** [intPow] at an integer type of [tw] bits: the loop has no bound of its own, [None] is a loop that
    has not ended after [fuel] more rounds. *)
Fixpoint intPowLoop (tw : Z) (fuel : nat) (base exp result : Z) : option Z :=
  let result := if Z.land exp 1 =? 1 then wrapS tw (result * base) else result in
  let exp := exp >> 1 in
  if exp =? 0 then Some result
  else match fuel with O => None | S fuel' => intPowLoop tw fuel' (wrapS tw (base * base)) exp result end.

(** An exponent of [tw] bits that is not negative is zero after [tw] shifts. *)
Definition intPow (tw base exp : Z) : option Z := intPowLoop tw (Z.to_nat tw) base exp 1.

Module DW.

(** [Decimal32] for [w = 32], [Decimal64] for [w = 64]. *)
Definition Num (w : Z) : Type := Z.

Section Width.
Variable w : Z.

Definition MaxPrecision : Z := if w =? 32 then 9 else 18.

Definition Negate (d : Num w) : Num w := wrapS w (- d).

Definition Add (d rhs : Num w) : Num w := wrapS w (d + rhs).

Definition Sub (d rhs : Num w) : Num w := wrapS w (d - rhs).

Definition Mul (d rhs : Num w) : Num w := wrapS w (d * rhs).

(** Division truncates and panics for a divisor of zero; the least integer by -1 wraps. *)
Definition Div (d rhs : Num w) : option (Num w * Num w) := if rhs =? 0 then None else Some (wrapS w (Z.quot d rhs), Z.rem d rhs).

Definition Pow (d rhs : Num w) : option (Num w) := intPow w d rhs.

Definition Sign (d : Num w) : Z := if d =? 0 then 0 else Z.lor 1 (d >> (w - 1)).

Definition Abs (n : Num w) : Num w := if n <? 0 then wrapS w (- n) else n.

(** [math.Pow10] converted to the integer type: only defined when the power fits. *)
Definition FitsInPrecision (n : Num w) (prec : Z) : option bool := if (0 <=? prec) && (10 ^ prec <? 2 ^ (w - 1)) then Some (Abs n <? 10 ^ prec) else None.

Definition cmpDec (lhs rhs : Num w) : Z := if rhs <? lhs then 1 else if lhs <? rhs then -1 else 0.

Definition Cmp (n other : Num w) : Z := cmpDec n other.

(** The power is computed at the width of the decimal. *)
Definition IncreaseScaleBy (n : Num w) (increase : Z) : option (Num w) := p <- intPow w 10 increase ;; Some (wrapS w (n * p)).

(** [reduce] is an [int32], and so is [intPow(10, reduce)]. *)
Definition reduceScale (n : Num w) (reduce : Z) (round : bool) : option (Num w) :=
  if reduce =? 0 then Some n
  else
    divisor <- intPow 32 10 reduce ;;
    if negb round then r <- Div n divisor ;; Some (fst r)
    else
      r <- Div n divisor ;;
      let divisorHalf := Z.quot divisor 2 in
      Some (if divisorHalf <=? Abs (snd r) then (if 0 <? n then wrapS w (fst r + 1) else wrapS w (fst r - 1)) else fst r).

Definition ReduceScaleBy (n : Num w) (reduce : Z) (round : bool) : option (Num w) := reduceScale n reduce round.

(** [uint32(n)] and [uint64(n)]. *)
Definition unsigned (n : Num w) : Z := n mod 2 ^ w.

Definition rescaleWouldCauseDataLoss (n : Num w) (deltaScale : Z) (multiplier : Num w) : option (Num w * bool) :=
  if deltaScale <? 0 then
    r <- DivW (unsigned n) (unsigned multiplier) ;;
    Some (wrapS w (fst r), negb (snd r =? 0))
  else
    let r := MulW w (unsigned n) (unsigned multiplier) in
    if negb (fst r =? 0) then Some (wrapS w (snd r), true)
    else
      let out := wrapS w (snd r) in
      Some (out, out <? n).

(** [absDeltaScale] is an [int32], and so is [intPow(10, absDeltaScale)]. *)
Definition rescale (n : Num w) (originalScale newScale : Z) : option (Num w * option decErr) :=
  if originalScale =? newScale then Some (n, None)
  else
    let deltaScale := i32 (newScale - originalScale) in
    let absDeltaScale := Z.abs deltaScale in
    let sign := Sign n in
    let n := if n <? 0 then wrapS w (- n) else n in
    multiplier <- intPow 32 10 absDeltaScale ;;
    r <- rescaleWouldCauseDataLoss n deltaScale multiplier ;;
    Some (wrapS w (fst r * sign), errIf (snd r)).

Definition Rescale (n : Num w) (originalScale newScale : Z) : option (Num w * option decErr) := rescale n originalScale newScale.

End Width.

End DW.

(** ** The interface [Num] *)

(** What the four types have in common; the operations that can panic have an option. *)
Class DecNum (T : Type) := {
  Negate : T -> T;
  Add : T -> T -> T;
  Sub : T -> T -> T;
  Mul : T -> T -> option T;
  Div : T -> T -> option (T * T);
  Pow : T -> T -> option T;
  FitsInPrecision : T -> Z -> option bool;
  Abs : T -> T;
  Sign : T -> Z;
  Rescale : T -> Z -> Z -> option (T * option decErr);
  Cmp : T -> T -> Z;
  IncreaseScaleBy : T -> Z -> option T;
  ReduceScaleBy : T -> Z -> bool -> option T
}.

Inductive decKind : Type := Decimal32 | Decimal64 | Decimal128 | Decimal256.

Definition numOf (k : decKind) : Type := match k with Decimal32 => DW.Num 32 | Decimal64 => DW.Num 64 | Decimal128 => D128.Num | Decimal256 => D256.Num end.

Definition dwNum (w : Z) : DecNum (DW.Num w) := {|
  Negate := DW.Negate w; Add := DW.Add w; Sub := DW.Sub w; Mul := fun a b => Some (DW.Mul w a b); Div := DW.Div w; Pow := DW.Pow w;
  FitsInPrecision := DW.FitsInPrecision w; Abs := DW.Abs w; Sign := DW.Sign w; Rescale := DW.Rescale w; Cmp := DW.Cmp w;
  IncreaseScaleBy := DW.IncreaseScaleBy w; ReduceScaleBy := DW.ReduceScaleBy w |}.

Definition d128Num : DecNum D128.Num := {|
  Negate := D128.Negate; Add := D128.Add; Sub := D128.Sub; Mul := fun a b => Some (D128.Mul a b); Div := D128.Div; Pow := D128.Pow;
  FitsInPrecision := D128.FitsInPrecision; Abs := D128.Abs; Sign := D128.Sign; Rescale := D128.Rescale; Cmp := D128.Cmp;
  IncreaseScaleBy := D128.IncreaseScaleBy; ReduceScaleBy := D128.ReduceScaleBy |}.

Definition d256Num : DecNum D256.Num := {|
  Negate := D256.Negate; Add := D256.Add; Sub := D256.Sub; Mul := D256.Mul; Div := D256.Div; Pow := D256.Pow;
  FitsInPrecision := D256.FitsInPrecision; Abs := D256.Abs; Sign := D256.Sign; Rescale := D256.Rescale; Cmp := D256.Cmp;
  IncreaseScaleBy := D256.IncreaseScaleBy; ReduceScaleBy := D256.ReduceScaleBy |}.

#[export] Instance kindNum (k : decKind) : DecNum (numOf k) := match k with Decimal32 => dwNum 32 | Decimal64 => dwNum 64 | Decimal128 => d128Num | Decimal256 => d256Num end.
