(* ===== verification/DecimalLaws.v ===== *)
(** * What the decimal types promise

    The laws of the interface [Num] in terms of the integer a decimal holds, and what their proofs
    share: wrapping, the words of a big integer, rounding, and the code of decimal128 and decimal256
    that goes through [big.Int]. *)

From Stdlib Require Import ZArith List Lia Bool.
From S2P Require Import Prelude MathUtil Decimals.
Import ListNotations.
#[local] Open Scope Z_scope.
#[local] Open Scope go_scope.

(** ** Wrapping *)

Lemma wrapS_unique w x y : 1 <= w -> inS w y -> (exists k, y = x + k * 2 ^ w) -> wrapS w x = y.
Proof.
  intros Hw Hy (k & ->). unfold wrapS, inS in *. assert (H2 : 2 ^ w = 2 * 2 ^ (w - 1)) by (rewrite <- Z.pow_succ_r by lia; f_equal; lia). rewrite <- (Z.mod_add _ k) by (pose proof (pow2_pos w); lia). replace (x + 2 ^ (w - 1) + k * 2 ^ w) with (x + k * 2 ^ w + 2 ^ (w - 1)) by ring. rewrite Z.mod_small; lia.
Qed.

Lemma wrapS_shift w x y k : 1 <= w -> x = y + k * 2 ^ w -> wrapS w x = wrapS w y.
Proof. intros Hw ->. destruct (wrapS_spec w y Hw) as (HI & j & Hj). apply wrapS_unique; [assumption..|]. exists (j - k). rewrite Hj. ring. Qed.

Lemma wrapS_mul_l w x y : 1 <= w -> wrapS w (wrapS w x * y) = wrapS w (x * y).
Proof. intros Hw. destruct (wrapS_spec w x Hw) as (_ & k & ->). apply (wrapS_shift w _ _ (k * y)); [assumption|ring]. Qed.

Lemma wrapS_mul_r w x y : 1 <= w -> wrapS w (x * wrapS w y) = wrapS w (x * y).
Proof. intros Hw. rewrite Z.mul_comm, wrapS_mul_l by assumption. now rewrite Z.mul_comm. Qed.

Lemma half_pow w : 1 <= w -> 2 ^ w = 2 * 2 ^ (w - 1).
Proof. intros Hw. rewrite <- Z.pow_succ_r by lia. f_equal. lia. Qed.

Lemma inS_abs w x : 1 <= w -> Z.abs x < 2 ^ (w - 1) -> inS w x.
Proof. unfold inS. lia. Qed.

Lemma wrapS_abs w x : 1 <= w -> Z.abs x < 2 ^ (w - 1) -> wrapS w x = x.
Proof. intros Hw H. apply wrapS_id, inS_abs; assumption. Qed.

(** ** Truncation and rounding *)

(** [v / d] rounded to the nearest, and away from zero when it is in the middle. *)
Definition roundHalf (v d : Z) : Z := Z.sgn v * ((2 * Z.abs v + d) / (2 * d)).

Lemma quot_sgn v d : 0 < d -> Z.quot v d = Z.sgn v * (Z.abs v / d).
Proof.
  intros Hd. destruct (Z.le_gt_cases 0 v) as [Hv|Hv].
  - rewrite Z.quot_div_nonneg, Z.abs_eq by lia. destruct (Z.eq_dec v 0) as [->|]; [reflexivity|]. rewrite Z.sgn_pos by lia. lia.
  - rewrite Z.sgn_neg, Z.abs_neq by lia. rewrite <- (Z.opp_involutive v) at 1. rewrite Z.quot_opp_l, Z.quot_div_nonneg by lia. lia.
Qed.

Lemma rem_abs v d : 0 < d -> Z.abs (Z.rem v d) = Z.abs v mod d.
Proof. intros Hd. pose proof (Z.rem_abs v d ltac:(lia)) as H. rewrite <- H. rewrite (Z.abs_eq d) by lia. apply Z.rem_mod_nonneg; lia. Qed.

Lemma round_quot v d : 0 < d -> roundHalf v d = if 2 * (Z.abs v mod d) <? d then Z.quot v d else Z.quot v d + Z.sgn v.
Proof.
  intros Hd. rewrite quot_sgn by assumption. unfold roundHalf. set (a := Z.abs v). pose proof (Z.div_mod a d ltac:(lia)) as Hdm. pose proof (Z.mod_pos_bound a d Hd) as Hm. set (q := a / d) in *. set (r := a mod d) in *. destruct (Z.ltb_spec (2 * r) d).
  - f_equal. symmetry. apply (Z.div_unique _ _ _ (2 * r + d)); [left; lia|rewrite Hdm; ring].
  - replace (Z.sgn v * q + Z.sgn v) with (Z.sgn v * (q + 1)) by ring. f_equal. symmetry. apply (Z.div_unique _ _ _ (2 * r - d)); [left; lia|rewrite Hdm; ring].
Qed.

Lemma quot_small v d B : 0 < d -> Z.abs v < B -> Z.abs (Z.quot v d) < B.
Proof. intros Hd Hv. rewrite <- (Z.quot_abs v d) by lia. rewrite (Z.abs_eq d), Z.quot_div_nonneg by lia. assert (Z.abs v / d <= Z.abs v) by (apply Z.div_le_upper_bound; nia). lia. Qed.

(** ** Big integers *)

Lemma BitLen_le v k : 0 <= k -> (BitLen v <= k <-> Z.abs v < 2 ^ k).
Proof.
  intros Hk. unfold BitLen. destruct (Z.eqb_spec v 0) as [->|Hv]; [cbn [Z.abs]; pose proof (pow2_pos k Hk); lia|]. pose proof (Z.log2_lt_pow2 (Z.abs v) k ltac:(lia)). lia.
Qed.

Lemma BitLen_zero v : BitLen v = 0 <-> v = 0.
Proof. unfold BitLen. destruct (Z.eqb_spec v 0); [tauto|]. pose proof (Z.log2_nonneg (Z.abs v)). lia. Qed.

Lemma packed_words k : forall x p, 0 <= p -> packed 64 (fields x p 64 k) = field x p (64 * Z.of_nat k).
Proof.
  induction k as [|k IH]; intros x p Hp; [unfold field; rewrite Z.mul_0_r, Z.pow_0_r, Z.mod_1_r; reflexivity|].
  rewrite fields_S. cbn [packed]. rewrite IH by lia. unfold field. replace (64 * Z.of_nat (S k)) with (64 + 64 * Z.of_nat k) by lia. rewrite (pow2_split p 64), <- Z.div_div by (try apply Z.pow_nonzero; lia || apply pow2_pos; lia). set (y := x / 2 ^ p). rewrite pow2_split by lia. rewrite Z.rem_mul_r by (lia || apply pow2_pos; lia). reflexivity.
Qed.

Lemma Bits_ok v : packed 64 (Bits v) = Z.abs v.
Proof.
  unfold Bits. rewrite packed_words by lia. assert (HB : 0 <= BitLen v) by (unfold BitLen; destruct (v =? 0); [lia|pose proof (Z.log2_nonneg (Z.abs v)); lia]). pose proof (proj1 (BitLen_le v (BitLen v) HB) ltac:(lia)) as HL. apply field_full. split; [lia|]. eapply Z.lt_le_trans; [exact HL|]. apply pow2_le. rewrite Z2Nat.id by (apply Z.div_pos; lia). pose proof (Z.div_mod (BitLen v + 63) 64). pose proof (Z.mod_pos_bound (BitLen v + 63) 64). lia.
Qed.

Lemma Bits_fits v : Forall (fits 64) (Bits v).
Proof. unfold Bits, fields. apply Forall_forall. intros x Hx. apply in_map_iff in Hx. destruct Hx as (j & <- & _). apply field_bound. lia. Qed.

Lemma Bits_len v k : 0 <= k -> BitLen v <= 64 * k -> len (Bits v) <= k.
Proof. intros Hk HB. unfold Bits. rewrite length_fields. assert ((BitLen v + 63) / 64 < k + 1) by (apply Z.div_lt_upper_bound; lia). lia. Qed.

Lemma Bits_nil v : v <> 0 -> 1 <= len (Bits v).
Proof. intros Hv. unfold Bits. rewrite length_fields. pose proof (proj1 (BitLen_zero v)) as H. assert (1 <= BitLen v) by (unfold BitLen in *; destruct (Z.eqb_spec v 0); [lia|pose proof (Z.log2_nonneg (Z.abs v)); lia]). assert (1 <= (BitLen v + 63) / 64) by (apply Z.div_le_lower_bound; lia). lia. Qed.

(** ** The laws *)

Definition cmpZ (a b : Z) : Z := match a ?= b with Lt => -1 | Eq => 0 | Gt => 1 end.

(** [W] is the width, [P] the greatest precision, [S] the greatest step of scale that [Rescale] and
    [ReduceScaleBy] handle. *)
Class DecLaws (T : Type) (N : DecNum T) (W P S : Z) (valid : T -> Prop) (val : T -> Z) : Prop := {
  law_in n : valid n -> inS W (val n);
  law_inj a b : valid a -> valid b -> val a = val b -> a = b;
  law_onto v : inS W v -> exists n, valid n /\ val n = v;
  law_neg n : valid n -> valid (Negate n) /\ val (Negate n) = wrapS W (- val n);
  law_add a b : valid a -> valid b -> valid (Add a b) /\ val (Add a b) = wrapS W (val a + val b);
  law_sub a b : valid a -> valid b -> valid (Sub a b) /\ val (Sub a b) = wrapS W (val a - val b);
  law_mul a b : valid a -> valid b -> Z.abs (val a * val b) < 2 ^ (W - 1) -> exists c, Mul a b = Some c /\ valid c /\ val c = val a * val b;
  law_div a b : valid a -> valid b -> - 2 ^ (W - 1) < val a -> val b <> 0 -> exists q r, Div a b = Some (q, r) /\ valid q /\ valid r /\ val q = Z.quot (val a) (val b) /\ val r = Z.rem (val a) (val b);
  law_div_zero a b : valid a -> valid b -> val b = 0 -> Div a b = None;
  law_pow a b : valid a -> valid b -> 0 <= val b -> Z.abs (val a ^ val b) < 2 ^ (W - 1) -> exists c, Pow a b = Some c /\ valid c /\ val c = val a ^ val b;
  law_sign n : valid n -> Sign n = Z.sgn (val n);
  law_abs n : valid n -> valid (Abs n) /\ val (Abs n) = wrapS W (Z.abs (val n));
  law_cmp a b : valid a -> valid b -> Cmp a b = cmpZ (val a) (val b);
  law_fits n p : valid n -> 0 <= p <= P -> FitsInPrecision n p = Some (wrapS W (Z.abs (val n)) <? 10 ^ p);
  law_increase n k : valid n -> 0 <= k <= P -> Z.abs (val n * 10 ^ k) < 2 ^ (W - 1) -> exists m, IncreaseScaleBy n k = Some m /\ valid m /\ val m = val n * 10 ^ k;
  law_reduce n k round : valid n -> 0 <= k <= S -> exists m, ReduceScaleBy n k round = Some m /\ valid m /\ val m = if round then roundHalf (val n) (10 ^ k) else Z.quot (val n) (10 ^ k);
  law_same n s : valid n -> Rescale n s s = Some (n, None);
  law_up n o s : valid n -> 0 < s - o <= S -> Z.abs (val n * 10 ^ (s - o)) < 2 ^ (W - 1) -> exists m, Rescale n o s = Some (m, None) /\ valid m /\ val m = val n * 10 ^ (s - o);
  law_over n o s : valid n -> 0 < s - o <= S -> 2 ^ (W - 1) <= Z.abs (val n * 10 ^ (s - o)) -> forall m, Rescale n o s <> Some (m, None);
  law_down n o s : valid n -> 0 < o - s <= S -> exists m, Rescale n o s = Some (m, errIf (negb (Z.rem (val n) (10 ^ (o - s)) =? 0))) /\ valid m /\ val m = Z.quot (val n) (10 ^ (o - s))
}.
