(* ===== verification/DecimalsOk.v ===== *)
(** * The decimal types keep their promises

    [DecLaws] for Decimal32 and Decimal64, for decimal128 and for decimal256; the last two share the
    proofs about the code that goes through [big.Int]. *)

From Stdlib Require Import ZArith List Lia Bool.
From S2P Require Import Prelude MathUtil Decimals DecimalLaws.
Import ListNotations.
#[local] Open Scope Z_scope.
#[local] Open Scope go_scope.

(** ** intPow *)

Lemma land_one x : Z.land x 1 = x mod 2.
Proof. change 1 with (Z.ones 1). rewrite Z.land_ones by lia. reflexivity. Qed.

Lemma intPowLoop_ok tw fuel : 2 <= tw -> forall base exp result, inS tw result -> 0 <= exp < 2 ^ Z.of_nat (S fuel) -> intPowLoop tw fuel base exp result = Some (wrapS tw (result * base ^ exp)).
Proof.
  intros Htw. induction fuel as [|fuel IH]; intros base exp result HR He; cbn [intPowLoop]; rewrite land_one, shiftr_div by lia; change (2 ^ 1) with 2.
  all: set (r := if exp mod 2 =? 1 then wrapS tw (result * base) else result); assert (HI : inS tw r) by (subst r; destruct (exp mod 2 =? 1); [apply wrapS_spec; lia|assumption]).
  all: assert (Hr : forall y, wrapS tw (r * y) = wrapS tw (result * base ^ (exp mod 2) * y)) by (intros y; subst r; pose proof (Z.mod_pos_bound exp 2 ltac:(lia)); destruct (Z.eqb_spec (exp mod 2) 1) as [E|E]; [rewrite E, Z.pow_1_r; now apply wrapS_mul_l; lia|replace (exp mod 2) with 0 by lia; now rewrite Z.pow_0_r, Z.mul_1_r]).
  all: pose proof (Z.div_mod exp 2 ltac:(lia)) as Hdm; pose proof (Z.mod_pos_bound exp 2 ltac:(lia)) as Hm; destruct (Z.eqb_spec (exp / 2) 0) as [H0|H0].
  1, 3: rewrite <- (wrapS_id tw r) by (assumption || lia); rewrite <- (Z.mul_1_r r), Hr; do 2 f_equal; rewrite Z.mul_1_r; do 2 f_equal; lia.
  - cbn in He. lia.
  - rewrite IH; [|assumption|rewrite Nat2Z.inj_succ, Z.pow_succ_r in He by lia; lia]. f_equal. rewrite Hr. set (s := wrapS tw (base * base)). assert (HP : forall k c, 0 <= k -> wrapS tw (c * s ^ k) = wrapS tw (c * (base * base) ^ k)).
    { intros k c Hk. revert c. pattern k. apply natlike_ind; [reflexivity| |assumption]. intros j Hj IHj c. rewrite !Z.pow_succ_r, !Z.mul_assoc by assumption. rewrite IHj. subst s. destruct (wrapS_spec tw (base * base) ltac:(lia)) as (_ & q & ->). apply (wrapS_shift tw _ _ (c * q * (base * base) ^ j)); [lia|ring]. }
    rewrite HP by (apply Z.div_pos; lia). f_equal. rewrite <- Z.pow_2_r, <- Z.pow_mul_r by (apply Z.div_pos || idtac; lia). rewrite <- Z.mul_assoc, <- Z.pow_add_r by lia. do 2 f_equal. lia.
Qed.

Lemma intPow_ok tw base exp : 2 <= tw -> 0 <= exp < 2 ^ tw -> intPow tw base exp = Some (wrapS tw (base ^ exp)).
Proof. intros Htw He. unfold intPow. rewrite intPowLoop_ok; [now rewrite Z.mul_1_l|assumption|apply inS_abs; [lia|]; pose proof (Z.pow_gt_1 2 (tw - 1) ltac:(lia)); cbn; lia|]. rewrite Nat2Z.inj_succ, Z.pow_succ_r, Z2Nat.id by lia. pose proof (pow2_pos tw). lia. Qed.

(** A negative exponent is shifted to -1 and stays there. *)
Lemma intPowLoop_negative tw fuel : forall base exp result, exp < 0 -> intPowLoop tw fuel base exp result = None.
Proof.
  induction fuel as [|fuel IH]; intros base exp result He; cbn [intPowLoop]; rewrite shiftr_div by lia; change (2 ^ 1) with 2; assert (exp / 2 < 0) by (apply Z.div_lt_upper_bound; lia); destruct (Z.eqb_spec (exp / 2) 0); try lia; [reflexivity|]. now apply IH.
Qed.

Lemma pow10_pos k : 0 <= k -> 0 < 10 ^ k.
Proof. intros Hk. apply Z.pow_pos_nonneg; lia. Qed.

Lemma intPow_10 tw k : (tw = 32 /\ 0 <= k <= 9) \/ (tw = 64 /\ 0 <= k <= 18) -> intPow tw 10 k = Some (10 ^ k).
Proof.
  intros H. rewrite intPow_ok by (destruct H as [(-> & ?)|(-> & ?)]; lia). f_equal. apply wrapS_abs; [destruct H as [(-> & ?)|(-> & ?)]; lia|]. rewrite Z.abs_eq by (pose proof (pow10_pos k); lia). destruct H as [(-> & Hk)|(-> & Hk)].
  - pose proof (Z.pow_le_mono_r 10 k 9 ltac:(lia) ltac:(lia)). cbn in *. lia.
  - pose proof (Z.pow_le_mono_r 10 k 18 ltac:(lia) ltac:(lia)). cbn in *. lia.
Qed.

Lemma i32_small x : - 2 ^ 31 <= x < 2 ^ 31 -> i32 x = x.
Proof. intros Hx. unfold i32. rewrite Z.mod_small; lia. Qed.

(** ** Decimal32 and Decimal64 *)

Ltac same_err := match goal with |- Some (_, errIf ?x) = Some (_, errIf ?y) => let H := fresh in enough (H : x = y) by (rewrite H; reflexivity) end.

Section Words.
Variable w : Z.
Hypothesis Hw : w = 32 \/ w = 64.

Let width_pos : 1 <= w.
Proof. lia. Qed.

Lemma w_pow : 2 ^ 31 <= 2 ^ (w - 1) /\ 2 ^ w = 2 * 2 ^ (w - 1).
Proof. split; [apply pow2_le; lia|now apply half_pow]. Qed.

Lemma dw_sign n : inS w n -> DW.Sign w n = Z.sgn n.
Proof.
  intros Hn. unfold DW.Sign. destruct (Z.eqb_spec n 0) as [->|H0]; [reflexivity|]. rewrite shiftr_div by lia. unfold inS in Hn. destruct (Z.lt_ge_cases n 0) as [Hneg|Hpos].
  - replace (n / 2 ^ (w - 1)) with (-1) by (apply (Z.div_unique _ _ _ (n + 2 ^ (w - 1))); lia). rewrite Z.sgn_neg by assumption. reflexivity.
  - rewrite Z.div_small, Z.sgn_pos by lia. reflexivity.
Qed.

Lemma dw_abs n : inS w n -> DW.Abs w n = wrapS w (Z.abs n).
Proof. intros Hn. unfold DW.Abs. destruct (Z.ltb_spec n 0); [now rewrite Z.abs_neq by lia|]. rewrite Z.abs_eq, wrapS_id by (assumption || lia). reflexivity. Qed.

Lemma dw_unsigned n : inS w n -> DW.unsigned w (if n <? 0 then wrapS w (- n) else n) = Z.abs n.
Proof.
  intros Hn. destruct w_pow as (_ & H2). unfold DW.unsigned. destruct (Z.ltb_spec n 0).
  - destruct (wrapS_spec w (- n) width_pos) as (_ & k & ->). rewrite Z.mod_add by (pose proof (pow2_pos w); lia). unfold inS in Hn. rewrite Z.mod_small; lia.
  - unfold inS in Hn. rewrite Z.mod_small; lia.
Qed.

Lemma step_small k : 0 <= k <= 9 -> 0 < 10 ^ k < 2 ^ 31.
Proof. intros Hk. split; [apply pow10_pos; lia|]. pose proof (Z.pow_le_mono_r 10 k 9 ltac:(lia) ltac:(lia)). cbn in *. lia. Qed.

Lemma step_large k : 0 < k -> 10 <= 10 ^ k.
Proof. intros Hk. pose proof (Z.pow_le_mono_r 10 1 k ltac:(lia) ltac:(lia)). lia. Qed.

Lemma step_bounds k : 0 < k <= 9 -> 10 <= 10 ^ k < 2 ^ 31.
Proof. intros Hk. split; [now apply step_large|apply step_small; lia]. Qed.

(** The quotient by a power of ten is far from the bounds. *)
Lemma quot_room n d : inS w n -> 10 <= d -> Z.abs (Z.quot n d) + 1 < 2 ^ (w - 1).
Proof.
  intros Hn Hd. destruct w_pow as (H1 & _). rewrite quot_sgn, Z.abs_mul by lia. assert (Z.abs (Z.sgn n) <= 1) by (destruct n; cbn; lia). pose proof (Z.div_pos (Z.abs n) d ltac:(lia) ltac:(lia)). unfold inS in Hn. assert (Z.abs n / d <= 2 ^ (w - 1) / 10) by (transitivity (2 ^ (w - 1) / d); [apply Z.div_le_mono; lia|apply Z.div_le_compat_l; lia]). assert (2 ^ (w - 1) / 10 <= 2 ^ (w - 1) - 2) by (apply Z.div_le_upper_bound; lia). rewrite (Z.abs_eq (Z.abs n / d)) by assumption. nia.
Qed.

Lemma dw_reduce n k round : inS w n -> 0 <= k <= 9 -> DW.ReduceScaleBy w n k round = Some (if round then roundHalf n (10 ^ k) else Z.quot n (10 ^ k)).
Proof.
  intros Hn Hk. unfold DW.ReduceScaleBy, DW.reduceScale. destruct (Z.eqb_spec k 0) as [->|H0].
  { change (10 ^ 0) with 1. rewrite Z.quot_1_r, round_quot, Z.mod_1_r, Z.quot_1_r by lia. now destruct round. }
  rewrite intPow_10 by lia. cbn [opt_bind]. pose proof (step_small k Hk) as Hs. pose proof (step_large k ltac:(lia)) as Hl. pose proof (quot_room n (10 ^ k) Hn Hl) as Hq. destruct w_pow as (Hw1 & _). unfold DW.Div. destruct (Z.eqb_spec (10 ^ k) 0); [lia|]. cbn [opt_bind fst snd]. rewrite (wrapS_abs w (Z.quot n (10 ^ k))) by lia. destruct round; cbn [negb]; [|reflexivity]. f_equal.
  assert (HR : inS w (Z.rem n (10 ^ k))) by (apply inS_abs; [lia|]; rewrite rem_abs by lia; pose proof (Z.mod_pos_bound (Z.abs n) (10 ^ k) ltac:(lia)); lia). rewrite dw_abs, rem_abs by (assumption || lia). rewrite wrapS_abs by (try rewrite Z.abs_eq; pose proof (Z.mod_pos_bound (Z.abs n) (10 ^ k) ltac:(lia)); lia). rewrite round_quot by lia.
  assert (HE : Z.quot (10 ^ k) 2 * 2 = 10 ^ k) by (replace k with (1 + (k - 1)) by lia; rewrite Z.pow_add_r by lia; change (10 ^ 1) with (5 * 2); replace (5 * 2 * 10 ^ (k - 1)) with (5 * 10 ^ (k - 1) * 2) by ring; rewrite Z.quot_mul by lia; reflexivity).
  set (q := Z.quot n (10 ^ k)) in *. set (r := Z.abs n mod 10 ^ k) in *. set (h := Z.quot (10 ^ k) 2) in *. destruct (Z.leb_spec h r), (Z.ltb_spec (2 * r) (10 ^ k)); try lia. destruct (Z.ltb_spec 0 n).
  - rewrite Z.sgn_pos by assumption. apply wrapS_abs; lia.
  - destruct (Z.eq_dec n 0) as [->|]; [subst r; rewrite Z.mod_0_l in * by lia; lia|]. rewrite Z.sgn_neg by lia. apply wrapS_abs; lia.
Qed.

Lemma sgn_abs v x : Z.sgn v * Z.abs (v * x) = v * Z.abs x.
Proof. rewrite Z.abs_mul, Z.mul_assoc. f_equal. destruct v; cbn; lia. Qed.

(** [Rescale] multiplies by whatever [intPow] gives, as long as it is positive. *)
Lemma dw_up_by n o s m : inS w n -> 0 < s - o < 2 ^ 31 -> intPow 32 10 (s - o) = Some m -> 10 <= m < 2 ^ 31 ->
  exists r, DW.Rescale w n o s = Some (r, errIf (2 ^ (w - 1) <=? Z.abs (n * m))) /\ (Z.abs (n * m) < 2 ^ (w - 1) -> r = n * m).
Proof.
  intros Hn Hk HI Hs. destruct w_pow as (Hw1 & Hw2). unfold DW.Rescale, DW.rescale. destruct (Z.eqb_spec o s); [lia|]. rewrite i32_small by lia. rewrite Z.abs_eq, HI by lia. cbn [opt_bind]. unfold DW.rescaleWouldCauseDataLoss. destruct (Z.ltb_spec (s - o) 0); [lia|]. rewrite dw_unsigned by assumption. unfold DW.unsigned. rewrite (Z.mod_small m) by lia.
  assert (HA : Z.abs n * m = Z.abs (n * m)) by (rewrite Z.abs_mul, (Z.abs_eq m) by lia; reflexivity). unfold MulW. cbn [fst snd]. rewrite HA. destruct (Z.lt_ge_cases (Z.abs (n * m)) (2 ^ w)) as [Hlt|Hge].
  - rewrite (Z.div_small (Z.abs (n * m)) (2 ^ w)), (Z.mod_small (Z.abs (n * m)) (2 ^ w)) by lia. cbn [Z.eqb negb opt_bind fst snd]. set (out := wrapS w (Z.abs (n * m))). exists (wrapS w (out * DW.Sign w n)). split; [same_err|].
    + destruct (Z.leb_spec (2 ^ (w - 1)) (Z.abs (n * m))).
      * assert (out = Z.abs (n * m) - 2 ^ w) by (apply wrapS_unique; [assumption|unfold inS; lia|exists (-1); lia]). apply Z.ltb_lt. unfold inS in Hn. destruct (Z.ltb_spec n 0); [rewrite wrapS_abs by nia|]; lia.
      * assert (out = Z.abs (n * m)) by (apply wrapS_id; [assumption|unfold inS; lia]). apply Z.ltb_ge. destruct (Z.ltb_spec n 0); [rewrite wrapS_abs by nia|]; nia.
    + intros Hf. subst out. rewrite (wrapS_abs w (Z.abs (n * m))) by lia. rewrite dw_sign, Z.mul_comm, sgn_abs, (Z.abs_eq m) by (assumption || lia). now apply wrapS_abs.
  - destruct (Z.eqb_spec (Z.abs (n * m) / 2 ^ w) 0) as [E|E]; [pose proof (Z.div_le_lower_bound (Z.abs (n * m)) (2 ^ w) 1 ltac:(lia) ltac:(lia)); lia|]. cbn [negb opt_bind fst snd]. eexists. split; [same_err; symmetry; apply Z.leb_le; lia|lia].
Qed.

Lemma dw_up n o s : inS w n -> 0 < s - o <= 9 ->
  exists m, DW.Rescale w n o s = Some (m, errIf (2 ^ (w - 1) <=? Z.abs (n * 10 ^ (s - o)))) /\ (Z.abs (n * 10 ^ (s - o)) < 2 ^ (w - 1) -> m = n * 10 ^ (s - o)).
Proof. intros Hn Hk. apply dw_up_by; [exact Hn|lia|apply intPow_10; lia|now apply step_bounds]. Qed.

Lemma dw_down_by n o s m : inS w n -> 0 < o - s < 2 ^ 31 -> intPow 32 10 (o - s) = Some m -> 10 <= m < 2 ^ 31 -> DW.Rescale w n o s = Some (Z.quot n m, errIf (negb (Z.rem n m =? 0))).
Proof.
  intros Hn Hk HI Hs. destruct w_pow as (Hw1 & Hw2). unfold DW.Rescale, DW.rescale. destruct (Z.eqb_spec o s); [lia|]. rewrite i32_small by lia. replace (Z.abs (s - o)) with (o - s) by lia. rewrite HI. cbn [opt_bind]. pose proof (quot_room n m Hn ltac:(lia)) as Hq. unfold DW.rescaleWouldCauseDataLoss. destruct (Z.ltb_spec (s - o) 0); [|lia]. rewrite dw_unsigned by assumption. unfold DW.unsigned. rewrite (Z.mod_small m) by lia.
  unfold DivW. destruct (Z.eqb_spec m 0); [lia|]. cbn [opt_bind fst snd]. rewrite dw_sign by assumption. pose proof (quot_sgn n m ltac:(lia)) as HQ. assert (HB : Z.abs (Z.abs n / m) < 2 ^ (w - 1)) by (assert (Z.abs n / m = Z.abs (Z.quot n m)) as -> by (rewrite <- Z.quot_abs, (Z.abs_eq m), Z.quot_div_nonneg by lia; reflexivity); lia). rewrite (wrapS_abs w (Z.abs n / m)), Z.mul_comm, <- HQ, wrapS_abs by lia. same_err. f_equal. rewrite <- rem_abs by lia. destruct (Z.eqb_spec (Z.abs (Z.rem n m)) 0), (Z.eqb_spec (Z.rem n m) 0); (reflexivity || lia).
Qed.

Lemma dw_down n o s : inS w n -> 0 < o - s <= 9 -> DW.Rescale w n o s = Some (Z.quot n (10 ^ (o - s)), errIf (negb (Z.rem n (10 ^ (o - s)) =? 0))).
Proof. intros Hn Hk. apply dw_down_by; [exact Hn|lia|apply intPow_10; lia|now apply step_bounds]. Qed.

Lemma dwLaws : DecLaws (DW.Num w) (dwNum w) w (if w =? 32 then 9 else 18) 9 (inS w) (fun n => n).
Proof.
  destruct w_pow as (Hw1 & Hw2). constructor; cbn [dwNum Negate Add Sub Mul Div Pow Sign Abs Cmp FitsInPrecision IncreaseScaleBy ReduceScaleBy Rescale].
  - auto.
  - auto.
  - intros v Hv. now exists v.
  - intros n Hn. split; [now apply wrapS_spec|reflexivity].
  - intros a b Ha Hb. split; [now apply wrapS_spec|reflexivity].
  - intros a b Ha Hb. split; [now apply wrapS_spec|reflexivity].
  - intros a b Ha Hb Hf. exists (a * b). unfold DW.Mul. rewrite wrapS_abs by assumption. splits; [reflexivity|now apply inS_abs|reflexivity].
  - intros a b Ha Hb Hm H0. unfold DW.Div, inS in *. destruct (Z.eqb_spec b 0); [lia|]. assert (HQ : Z.abs (Z.quot a b) < 2 ^ (w - 1)) by (rewrite <- Z.quot_abs, Z.quot_div_nonneg by lia; assert (Z.abs a / Z.abs b <= Z.abs a) by (apply Z.div_le_upper_bound; nia); lia). rewrite wrapS_abs by assumption. exists (Z.quot a b), (Z.rem a b). splits; try reflexivity; try lia; pose proof (Z.rem_bound_abs a b ltac:(lia)); lia.
  - intros a b Ha Hb ->. reflexivity.
  - intros a b Ha Hb Hp Hf. exists (a ^ b). unfold DW.Pow. unfold inS in Hb. rewrite intPow_ok by lia. rewrite wrapS_abs by assumption. splits; [reflexivity|now apply inS_abs|reflexivity].
  - exact dw_sign.
  - intros n Hn. rewrite dw_abs by assumption. split; [now apply wrapS_spec|reflexivity].
  - intros a b Ha Hb. unfold DW.Cmp, DW.cmpDec, cmpZ. destruct (Z.compare_spec a b); destruct (Z.ltb_spec b a), (Z.ltb_spec a b); (reflexivity || lia).
  - intros n p Hn Hp. unfold DW.FitsInPrecision. rewrite dw_abs by assumption. destruct (Z.leb_spec 0 p); [|lia]. assert (10 ^ p < 2 ^ (w - 1)) as HP by (destruct Hw as [-> | ->]; cbn [Z.eqb Pos.eqb] in Hp; [pose proof (Z.pow_le_mono_r 10 p 9 ltac:(lia) ltac:(lia))|pose proof (Z.pow_le_mono_r 10 p 18 ltac:(lia) ltac:(lia))]; cbn in *; lia). apply Z.ltb_lt in HP. now rewrite HP.
  - intros n k Hn Hk Hf. exists (n * 10 ^ k). unfold DW.IncreaseScaleBy. rewrite intPow_10 by (destruct Hw as [-> | ->]; cbn [Z.eqb Pos.eqb] in Hk; lia). cbn [opt_bind]. rewrite wrapS_abs by assumption. splits; [reflexivity|now apply inS_abs|reflexivity].
  - intros n k round Hn Hk. rewrite dw_reduce by assumption. eexists. splits; [reflexivity| |reflexivity]. destruct (Z.eq_dec k 0) as [->|Hk0]; [change (10 ^ 0) with 1; rewrite round_quot, Z.mod_1_r, Z.quot_1_r by lia; now destruct round|]. pose proof (quot_room n (10 ^ k) Hn (step_large k ltac:(lia))). apply inS_abs; [assumption|]. rewrite round_quot by (pose proof (pow10_pos k); lia). destruct round; [|lia]. destruct (Z.ltb_spec (2 * (Z.abs n mod 10 ^ k)) (10 ^ k)); [lia|]. assert (Z.abs (Z.sgn n) <= 1) by (destruct n; cbn; lia). lia.
  - intros n s _. unfold DW.Rescale, DW.rescale. now rewrite Z.eqb_refl.
  - intros n o s Hn Hk Hf. destruct (dw_up n o s Hn Hk) as (m & HR & HV). rewrite HR, (HV Hf). apply Z.leb_gt in Hf as Hb. rewrite Hb. eexists. splits; [reflexivity|now apply inS_abs|reflexivity].
  - intros n o s Hn Hk Hf m' HE. destruct (dw_up n o s Hn Hk) as (m & HR & _). rewrite HR in HE. apply Z.leb_le in Hf. rewrite Hf in HE. discriminate.
  - intros n o s Hn Hk. rewrite dw_down by assumption. eexists. splits; [reflexivity| |reflexivity]. pose proof (quot_room n (10 ^ (o - s)) Hn (step_large (o - s) ltac:(lia))). apply inS_abs; [assumption|lia].
Qed.
End Words.

(** ** Decimal64 by more than nine places *)

(** The power of ten as an [int32]. *)
Definition power32 (d : Z) : Z := wrapS 32 (10 ^ d).

Lemma power32_table d : 10 <= d <= 18 -> 10 <= Z.abs (power32 d) < 2 ^ 31 /\ 2 * Z.abs (power32 d) <= 10 ^ d /\ (0 < power32 d <-> d <> 12 /\ d <> 15 /\ d <> 18) /\ intPow 32 10 d = Some (power32 d) /\ intPow 64 10 d = Some (10 ^ d).
Proof.
  intros Hd. split; [|split; [|split; [|split; [apply intPow_ok; lia|apply intPow_10; lia]]]]; (assert (d = 10 \/ d = 11 \/ d = 12 \/ d = 13 \/ d = 14 \/ d = 15 \/ d = 16 \/ d = 17 \/ d = 18) as Hc by lia; clear Hd; repeat destruct Hc as [->|Hc]; try subst d);
    match goal with |- context [power32 ?d] => let v := eval vm_compute in (power32 d) in change (power32 d) with v end; cbn; lia.
Qed.

(** A negative multiplier is a large one as a [uint64]. *)
Lemma unsigned_neg p : - 2 ^ 31 < p < 0 -> DW.unsigned 64 p = 2 ^ 64 + p.
Proof. intros Hp. unfold DW.unsigned. symmetry. apply (Z.mod_unique _ _ (-1)); lia. Qed.

Lemma dw64_up_neg n o d : inS 64 n -> n <> 0 -> 0 < d < 2 ^ 31 -> intPow 32 10 d = Some (power32 d) -> - 2 ^ 31 < power32 d < 0 -> exists r, DW.Rescale 64 n o (o + d) = Some (r, Some RescaleDataLoss).
Proof.
  intros Hn H0 Hd HI HP. set (p := power32 d) in *. unfold DW.Rescale, DW.rescale. destruct (Z.eqb_spec o (o + d)); [lia|]. replace (o + d - o) with d by lia. rewrite i32_small by lia. rewrite Z.abs_eq, HI by lia. cbn [opt_bind]. unfold DW.rescaleWouldCauseDataLoss. destruct (Z.ltb_spec d 0); [lia|].
  rewrite dw_unsigned by (assumption || lia). rewrite unsigned_neg by assumption. unfold MulW. cbn [fst snd]. set (x := Z.abs n * (2 ^ 64 + p)). destruct (Z.eqb_spec (x / 2 ^ 64) 0) as [E|E]; cbn [negb opt_bind fst snd]; [|eexists; reflexivity].
  assert (HX : x < 2 ^ 64) by (apply Z.div_small_iff in E; lia). assert (Hone : Z.abs n = 1) by nia. assert (x = 2 ^ 64 + p) as -> by (subst x; rewrite Hone; lia). rewrite Z.mod_small by lia.
  assert (wrapS 64 (2 ^ 64 + p) = p) as -> by (apply wrapS_unique; [lia|unfold inS; change (2 ^ (64 - 1)) with (2 ^ 63); lia|exists (-1); lia]).
  assert (Hlt : (p <? (if n <? 0 then wrapS 64 (- n) else n)) = true) by (apply Z.ltb_lt; destruct (Z.ltb_spec n 0); [rewrite wrapS_abs by (try (rewrite Z.abs_opp, Hone; cbn); lia)|]; lia). rewrite Hlt. eexists. reflexivity.
Qed.

Lemma dw64_down_neg n o d : inS 64 n -> n <> 0 -> 0 < d < 2 ^ 31 -> intPow 32 10 d = Some (power32 d) -> - 2 ^ 31 < power32 d < 0 -> exists r, DW.Rescale 64 n (o + d) o = Some (r, Some RescaleDataLoss).
Proof.
  intros Hn H0 Hd HI HP. set (p := power32 d) in *. unfold DW.Rescale, DW.rescale. destruct (Z.eqb_spec (o + d) o); [lia|]. replace (o - (o + d)) with (- d) by lia. rewrite i32_small by lia. rewrite Z.abs_opp, Z.abs_eq, HI by lia. cbn [opt_bind]. unfold DW.rescaleWouldCauseDataLoss. destruct (Z.ltb_spec (- d) 0); [|lia].
  rewrite dw_unsigned by (assumption || lia). rewrite unsigned_neg by assumption. unfold DivW. destruct (Z.eqb_spec (2 ^ 64 + p) 0); [lia|]. cbn [opt_bind fst snd]. unfold inS in Hn. change (2 ^ (64 - 1)) with (2 ^ 63) in Hn. rewrite Z.mod_small by lia. destruct (Z.eqb_spec (Z.abs n) 0); [lia|]. eexists. reflexivity.
Qed.

(** Quotients by a divisor and by one at least twice as large agree only when both are 0. *)
Lemma quot_smaller n p t : 0 < Z.abs p -> 2 * Z.abs p <= t -> Z.quot n p = Z.quot n t <-> Z.abs n < Z.abs p.
Proof.
  intros Hp Ht. assert (HA : forall q, q <> 0 -> Z.abs (Z.quot n q) = Z.abs n / Z.abs q) by (intros q Hq; rewrite <- Z.quot_abs, Z.quot_div_nonneg by lia; reflexivity). split.
  - intros E. destruct (Z.lt_ge_cases (Z.abs n) (Z.abs p)) as [|Hge]; [assumption|exfalso]. apply (f_equal Z.abs) in E. rewrite !HA, (Z.abs_eq t) in E by lia. assert (1 <= Z.abs n / Z.abs p) by (apply Z.div_le_lower_bound; lia). assert (Z.abs n / t <= Z.abs n / (Z.abs p * 2)) by (apply Z.div_le_compat_l; lia). rewrite <- Z.div_div in H0 by lia. assert (Z.abs n / Z.abs p / 2 < Z.abs n / Z.abs p) by (apply Z.div_lt; lia). lia.
  - intros Hlt. assert (Hz : forall q, Z.abs n < Z.abs q -> Z.quot n q = 0) by (intros q Hq; apply Z.abs_0_iff; rewrite HA by lia; apply Z.div_small; lia). rewrite !Hz by lia. reflexivity.
Qed.

Lemma dw64_reduce n d : inS 64 n -> 10 <= d <= 18 -> DW.ReduceScaleBy 64 n d false = Some (Z.quot n (power32 d)).
Proof.
  intros Hn Hd. destruct (power32_table d Hd) as ((H1 & H2) & _ & _ & HI & _). unfold DW.ReduceScaleBy, DW.reduceScale. destruct (Z.eqb_spec d 0); [lia|]. rewrite HI. cbn [opt_bind negb]. unfold DW.Div. destruct (Z.eqb_spec (power32 d) 0); [lia|]. cbn [opt_bind fst snd]. f_equal.
  apply wrapS_abs; [lia|]. rewrite <- Z.quot_abs, Z.quot_div_nonneg by lia. unfold inS in Hn. change (2 ^ (64 - 1)) with (2 ^ 63) in *. apply Z.div_lt_upper_bound; lia.
Qed.

(** ** Through [big.Int] *)

Section Big.
Context {T : Type}.
Variables (W P : Z) (valid : T -> Prop) (val BigInt : T -> Z) (FromBigInt : Z -> option T) (Sign : T -> Z) (table half : list T).
Hypothesis HW : 8 <= W.
Hypothesis Hin : forall n, valid n -> inS W (val n).
Hypothesis HBig : forall n, valid n -> BigInt n = val n.
Hypothesis HFrom : forall v, Z.abs v < 2 ^ (W - 1) -> exists n, FromBigInt v = Some n /\ valid n /\ val n = v.
Hypothesis HSign : forall n, valid n -> Sign n = Z.sgn (val n).
Hypothesis HTable : forall k, 0 <= k <= P -> exists m, index table k = Some m /\ valid m /\ val m = 10 ^ k.
Hypothesis HHalf : forall k, 1 <= k <= P -> exists h, index half k = Some h /\ valid h /\ 2 * val h = 10 ^ k.

(** Only the least value by 1 or -1 has a quotient that does not fit. *)
Lemma quot_fits a b : valid a -> - 2 ^ (W - 1) < val a -> val b <> 0 -> Z.abs (Z.quot (val a) (val b)) < 2 ^ (W - 1).
Proof. intros Ha Hm H0. pose proof (Hin a Ha) as Ia. unfold inS in Ia. rewrite <- Z.quot_abs, Z.quot_div_nonneg by lia. assert (Z.abs (val a) / Z.abs (val b) <= Z.abs (val a)) by (apply Z.div_le_upper_bound; nia). lia. Qed.

Lemma big_div a b : valid a -> valid b -> Z.abs (Z.quot (val a) (val b)) < 2 ^ (W - 1) -> val b <> 0 ->
  exists q r, (x <- QuoRem (BigInt a) (BigInt b) ;; out <- FromBigInt (fst x) ;; remainder <- FromBigInt (snd x) ;; Some (out, remainder)) = Some (q, r) /\ valid q /\ valid r /\ val q = Z.quot (val a) (val b) /\ val r = Z.rem (val a) (val b).
Proof.
  intros Ha Hb HQ H0. rewrite !HBig by assumption. unfold QuoRem. destruct (Z.eqb_spec (val b) 0); [lia|]. cbn [opt_bind fst snd]. pose proof (Hin a Ha) as Ia. pose proof (Hin b Hb) as Ib. unfold inS in *.
  assert (HR : Z.abs (Z.rem (val a) (val b)) < 2 ^ (W - 1)) by (pose proof (Z.rem_bound_abs (val a) (val b) ltac:(lia)); lia).
  destruct (HFrom _ HQ) as (q & -> & Vq & Eq). destruct (HFrom _ HR) as (r & -> & Vr & Er). cbn [opt_bind]. exists q, r. splits; auto.
Qed.

Lemma big_pow a b : valid a -> valid b -> 0 <= val b -> Z.abs (val a ^ val b) < 2 ^ (W - 1) -> exists c, FromBigInt (Exp (BigInt a) (BigInt b)) = Some c /\ valid c /\ val c = val a ^ val b.
Proof.
  intros Ha Hb H0 Hf. rewrite !HBig by assumption. replace (Exp (val a) (val b)) with (val a ^ val b); [now apply HFrom|]. unfold Exp. destruct (Z.leb_spec (val b) 0); [replace (val b) with 0 by lia|]; reflexivity.
Qed.

Lemma big_increase n k : valid n -> 0 <= k <= P -> Z.abs (val n * 10 ^ k) < 2 ^ (W - 1) -> exists m, (m <- index table k ;; FromBigInt (BigInt n * BigInt m)) = Some m /\ valid m /\ val m = val n * 10 ^ k.
Proof. intros Hn Hk Hf. destruct (HTable k Hk) as (m & -> & Vm & Em). cbn [opt_bind]. rewrite !HBig, Em by assumption. now apply HFrom. Qed.

Lemma big_room n d : valid n -> 10 <= d -> Z.abs (Z.quot (val n) d) + 1 < 2 ^ (W - 1).
Proof.
  intros Hn Hd. pose proof (Hin n Hn) as I. unfold inS in I. pose proof (pow2_le 7 (W - 1) ltac:(lia)) as H7. change (2 ^ 7) with 128 in H7. rewrite <- Z.quot_abs, Z.quot_div_nonneg by lia. assert (Z.abs (val n) / Z.abs d <= 2 ^ (W - 1) / 10) by (transitivity (2 ^ (W - 1) / Z.abs d); [apply Z.div_le_mono; lia|apply Z.div_le_compat_l; lia]). assert (2 ^ (W - 1) / 10 <= 2 ^ (W - 1) - 2) by (apply Z.div_le_upper_bound; lia). lia.
Qed.

Lemma big_reduce n k (round : bool) : valid n -> 0 <= k <= P ->
  exists m, (if k =? 0 then Some n
    else m <- index table k ;; r <- QuoRem (BigInt n) (BigInt m) ;;
      if round then divisorHalf <- index half k ;; FromBigInt (if Z.abs (snd r) <? BigInt divisorHalf then fst r else fst r + Sign n)
      else FromBigInt (fst r)) = Some m /\ valid m /\ val m = if round then roundHalf (val n) (10 ^ k) else Z.quot (val n) (10 ^ k).
Proof.
  intros Hn Hk. destruct (Z.eqb_spec k 0) as [->|H0].
  { exists n. splits; [reflexivity|assumption|]. change (10 ^ 0) with 1. rewrite round_quot, Z.mod_1_r, Z.quot_1_r by lia. now destruct round. }
  destruct (HTable k Hk) as (m & -> & Vm & Em). cbn [opt_bind]. rewrite !HBig, Em by assumption. pose proof (pow10_pos k ltac:(lia)) as Hp. pose proof (big_room n (10 ^ k) Hn (step_large k ltac:(lia))) as HR. unfold QuoRem. destruct (Z.eqb_spec (10 ^ k) 0); [lia|]. cbn [opt_bind fst snd]. destruct round; [|apply HFrom; lia]. destruct (HHalf k ltac:(lia)) as (h & -> & Vh & Eh). cbn [opt_bind]. rewrite HBig, HSign, rem_abs by assumption. rewrite round_quot by assumption.
  replace (Z.abs (val n) mod 10 ^ k <? val h) with (2 * (Z.abs (val n) mod 10 ^ k) <? 10 ^ k) by (destruct (Z.ltb_spec (2 * (Z.abs (val n) mod 10 ^ k)) (10 ^ k)), (Z.ltb_spec (Z.abs (val n) mod 10 ^ k) (val h)); (reflexivity || lia)). apply HFrom. assert (Z.abs (Z.sgn (val n)) <= 1) by (destruct (val n); cbn; lia). destruct (Z.ltb_spec (2 * (Z.abs (val n) mod 10 ^ k)) (10 ^ k)); lia.
Qed.
End Big.

(** A table whose entries are the powers of ten. *)
Lemma table_ok {T} (valid : T -> Prop) (val : T -> Z) (table : list T) (d : T) n : Forall valid table -> map val table = map (fun k => 10 ^ k) (zseq 0 n) -> forall k, 0 <= k <= Z.of_nat n - 1 -> exists m, index table k = Some m /\ valid m /\ val m = 10 ^ k.
Proof.
  intros HF HM k Hk. assert (HL : List.length table = n) by (apply (f_equal (@List.length _)) in HM; now rewrite !length_map, length_zseq in HM). exists (nth (Z.to_nat k) table d). splits; [apply index_ok; lia|rewrite Forall_forall in HF; apply HF, nth_In; lia|]. rewrite <- (map_nth val table d), HM. rewrite (nth_indep _ _ (10 ^ 0)) by (rewrite length_map, length_zseq; lia). rewrite (map_nth (fun k => 10 ^ k)). f_equal. unfold zseq. rewrite (nth_indep _ 0 (0 + Z.of_nat 0)) by (rewrite length_map, length_seq; lia). rewrite (map_nth (fun j => 0 + Z.of_nat j)), seq_nth by lia. lia.
Qed.
