(* ===== verification/Decimal128Ok.v ===== *)
(** * decimal128 keeps the promises of [Num] *)

From Stdlib Require Import ZArith List Lia Bool.
From S2P Require Import Prelude MathUtil Decimals DecimalLaws DecimalsOk.
Import ListNotations.
#[local] Open Scope Z_scope.
#[local] Open Scope go_scope.

Definition valid128 (n : D128.Num) : Prop := 0 <= D128.lo n < 2 ^ 64 /\ inS 64 (D128.hi n).

Definition val128 (n : D128.Num) : Z := D128.hi n * 2 ^ 64 + D128.lo n.

#[local] Ltac words := change (2 ^ 128) with (2 ^ 64 * 2 ^ 64) in *; change (2 ^ 127) with (2 ^ 63 * 2 ^ 64) in *; change (2 ^ 64) with 18446744073709551616 in *; change (2 ^ 63) with 9223372036854775808 in *.

Lemma in64 x : inS 64 x <-> - 2 ^ 63 <= x < 2 ^ 63.
Proof. reflexivity. Qed.

Lemma in128 n : valid128 n -> inS 128 (val128 n).
Proof. intros (H1 & H2). unfold inS, val128 in *. change (128 - 1) with 127. change (64 - 1) with 63 in H2. words. lia. Qed.

Lemma u64_k x : 0 <= u64 x < 2 ^ 64 /\ exists k, u64 x = x + k * 2 ^ 64.
Proof. unfold u64. split; [apply Z.mod_pos_bound; lia|]. exists (- (x / 2 ^ 64)). pose proof (Z.div_mod x (2 ^ 64) ltac:(lia)). lia. Qed.

Lemma i64_k x : inS 64 (i64 x) /\ exists k, i64 x = x + k * 2 ^ 64.
Proof. rewrite i64_wrapS. apply wrapS_spec. lia. Qed.

(** A result of two words that is right up to a multiple of the modulus. *)
Lemma wraps128 l h x : 0 <= l < 2 ^ 64 -> inS 64 h -> (exists k, h * 2 ^ 64 + l = x + k * 2 ^ 128) -> valid128 (D128.mkNum l h) /\ val128 (D128.mkNum l h) = wrapS 128 x.
Proof. intros Hl Hh HE. assert (HV : valid128 (D128.mkNum l h)) by (split; assumption). split; [assumption|]. symmetry. apply wrapS_unique; [lia|now apply in128|exact HE]. Qed.

Lemma neg128 n : valid128 n -> valid128 (D128.Negate n) /\ val128 (D128.Negate n) = wrapS 128 (- val128 n).
Proof.
  intros (Hl & Hh). apply (proj1 (in64 _)) in Hh. unfold D128.Negate, val128. unfold Z.lnot. replace (Z.pred (- D128.lo n) + 1) with (- D128.lo n) by lia. destruct (Z.eqb_spec (u64 (- D128.lo n)) 0) as [E|E].
  - assert (H0 : D128.lo n = 0) by (unfold u64 in E; words; zdiv). rewrite E. destruct (i64_k (Z.pred (- D128.hi n) + 1)) as (HI & k & Hk). apply wraps128; [lia|assumption|]. exists k. rewrite Hk, H0. change (2 ^ 128) with (2 ^ 64 * 2 ^ 64). unfold Z.pred. ring.
  - assert (H0 : D128.lo n <> 0) by (intros H0; rewrite H0 in E; now apply E). assert (HU : u64 (- D128.lo n) = 2 ^ 64 - D128.lo n) by (unfold u64; words; zdiv). rewrite HU. apply wraps128; [lia|apply (proj2 (in64 _)); unfold Z.pred; lia|]. exists 0. unfold Z.pred. ring.
Qed.

Lemma add128 a b : valid128 a -> valid128 b -> valid128 (D128.Add a b) /\ val128 (D128.Add a b) = wrapS 128 (val128 a + val128 b).
Proof.
  intros (La & Ha) (Lb & Hb). unfold D128.Add, Add64, val128. cbn [fst snd]. rewrite Z.add_0_r. set (s := D128.lo a + D128.lo b). pose proof (Z.div_mod s (2 ^ 64) ltac:(lia)) as Hs. pose proof (Z.mod_pos_bound s (2 ^ 64) ltac:(lia)) as Hm. assert (Hc : - 2 ^ 63 <= s / 2 ^ 64 < 2 ^ 63) by (subst s; words; zdiv). rewrite (i64_small (s / 2 ^ 64)) by exact Hc.
  destruct (i64_k (D128.hi a + D128.hi b)) as (_ & k1 & ->). destruct (i64_k (D128.hi a + D128.hi b + k1 * 2 ^ 64 + s / 2 ^ 64)) as (HI & k2 & HE). apply wraps128; [exact Hm|assumption|]. exists (k1 + k2). rewrite HE. fold (u64 s) in *. replace (D128.hi a * 2 ^ 64 + D128.lo a + (D128.hi b * 2 ^ 64 + D128.lo b)) with ((D128.hi a + D128.hi b) * 2 ^ 64 + s) by (subst s; ring). rewrite Hs at 3. unfold u64. change (2 ^ 128) with (2 ^ 64 * 2 ^ 64). ring.
Qed.

Lemma sub128 a b : valid128 a -> valid128 b -> valid128 (D128.Sub a b) /\ val128 (D128.Sub a b) = wrapS 128 (val128 a - val128 b).
Proof.
  intros (La & Ha) (Lb & Hb). unfold D128.Sub, Sub64, val128. cbn [fst snd]. rewrite Z.sub_0_r, Z.add_0_r. set (c := if D128.lo a <? D128.lo b then 1 else 0). assert (HU : u64 (D128.lo a - D128.lo b) = D128.lo a - D128.lo b + c * 2 ^ 64) by (unfold u64; subst c; destruct (Z.ltb_spec (D128.lo a) (D128.lo b)); words; zdiv). rewrite (i64_small c) by (subst c; destruct (D128.lo a <? D128.lo b); lia).
  destruct (i64_k (D128.hi a - D128.hi b)) as (_ & k1 & ->). destruct (i64_k (D128.hi a - D128.hi b + k1 * 2 ^ 64 - c)) as (HI & k2 & HE). apply wraps128; [apply u64_k|assumption|]. exists (k1 + k2). rewrite HE, HU. change (2 ^ 128) with (2 ^ 64 * 2 ^ 64). ring.
Qed.

Lemma mul128 a b : valid128 a -> valid128 b -> valid128 (D128.Mul a b) /\ val128 (D128.Mul a b) = wrapS 128 (val128 a * val128 b).
Proof.
  intros (La & Ha) (Lb & Hb). unfold D128.Mul, MulW, val128. cbn [fst snd]. set (p := D128.lo a * D128.lo b). pose proof (Z.div_mod p (2 ^ 64) ltac:(lia)) as Hp. pose proof (Z.mod_pos_bound p (2 ^ 64) ltac:(lia)) as Hm.
  destruct (u64_k (D128.hi a)) as (_ & ka & ->). destruct (u64_k (D128.hi b)) as (_ & kb & ->). destruct (u64_k ((D128.hi a + ka * 2 ^ 64) * D128.lo b)) as (_ & k1 & ->). destruct (u64_k (D128.lo a * (D128.hi b + kb * 2 ^ 64))) as (_ & k2 & ->).
  match goal with |- context [u64 (p / 2 ^ 64 + u64 ?x)] => destruct (u64_k x) as (_ & k3 & ->) end. match goal with |- context [i64 (u64 ?x)] => destruct (u64_k x) as (_ & k4 & ->) end. match goal with |- context [i64 ?x] => destruct (i64_k x) as (HI & k5 & HE) end. apply wraps128; [exact Hm|assumption|]. rewrite HE.
  exists (ka * D128.lo b + D128.lo a * kb + k1 + k2 + k3 + k4 + k5 - D128.hi a * D128.hi b). replace ((D128.hi a * 2 ^ 64 + D128.lo a) * (D128.hi b * 2 ^ 64 + D128.lo b)) with (D128.hi a * D128.hi b * (2 ^ 64 * 2 ^ 64) + (D128.hi a * D128.lo b + D128.lo a * D128.hi b) * 2 ^ 64 + p) by (subst p; ring). rewrite Hp at 3. change (2 ^ 128) with (2 ^ 64 * 2 ^ 64). ring.
Qed.

Lemma sign128 n : valid128 n -> D128.Sign n = Z.sgn (val128 n).
Proof.
  intros (Hl & Hh). apply (proj1 (in64 _)) in Hh. unfold D128.Sign, val128. destruct (Z.eqb_spec (D128.lo n) 0) as [E1|E1], (Z.eqb_spec (D128.hi n) 0) as [E2|E2]; cbn [andb].
  1: now rewrite E1, E2.
  all: rewrite shiftr_div by lia; destruct (Z.lt_ge_cases (D128.hi n) 0) as [Hn|Hn].
  1, 3, 5: replace (D128.hi n / 2 ^ 63) with (-1) by (apply (Z.div_unique _ _ _ (D128.hi n + 2 ^ 63)); lia); rewrite Z.sgn_neg by lia; reflexivity.
  all: rewrite Z.div_small, Z.sgn_pos by lia; reflexivity.
Qed.

Lemma positive128 l h : inS 64 h -> D128.toBigIntPositive (D128.mkNum l h) = l + 2 ^ 64 * u64 h.
Proof. intros Hh. unfold D128.toBigIntPositive, SetBits. cbn [packed D128.lo D128.hi]. ring. Qed.

Lemma big128 n : valid128 n -> D128.BigInt n = val128 n.
Proof.
  intros Hn. pose proof (neg128 n Hn) as ((Hl & Hh) & HV). pose proof (in128 n Hn) as HI. unfold D128.BigInt. rewrite sign128 by assumption. destruct (Z.ltb_spec (Z.sgn (val128 n)) 0) as [Hs|Hs].
  - assert (Hneg : val128 n < 0) by (destruct (val128 n); cbn in Hs; lia). destruct (D128.Negate n) as [l h]. rewrite positive128 by assumption. unfold val128 at 1 in HV. cbn [D128.lo D128.hi] in *. apply (proj1 (in64 _)) in Hh. unfold inS in HI. change (128 - 1) with 127 in HI. destruct (Z.eq_dec (val128 n) (- 2 ^ 127)) as [E|E].
    + rewrite E in *. assert (HW : wrapS 128 (- - 2 ^ 127) = - 2 ^ 127) by reflexivity. rewrite HW in HV. unfold u64. words. zdiv.
    + rewrite wrapS_id in HV by (try lia; unfold inS; change (128 - 1) with 127; words; lia). unfold u64. words. zdiv.
  - destruct Hn as (Ln & Hn). destruct n as [l h]. rewrite positive128 by assumption. apply (proj1 (in64 _)) in Hn. unfold val128 in *. cbn [D128.lo D128.hi] in *. assert (0 <= h) by (destruct (Z.lt_ge_cases h 0); [rewrite Z.sgn_neg in Hs by lia; lia|assumption]). unfold u64. rewrite Z.mod_small by lia. ring.
Qed.

Lemma from128 v : Z.abs v < 2 ^ 127 -> exists n, D128.FromBigInt v = Some n /\ valid128 n /\ val128 n = v.
Proof.
  intros Hv. unfold D128.FromBigInt. pose proof (proj2 (BitLen_le v 127 ltac:(lia)) Hv) as HB. destruct (Z.ltb_spec 127 (BitLen v)); [lia|]. destruct (Z.eqb_spec (BitLen v) 0) as [E|E].
  - apply (proj1 (BitLen_zero v)) in E. subst v. eexists. splits; [reflexivity|unfold valid128, inS; cbn; lia|reflexivity].
  - assert (H0 : v <> 0) by (intros HE; now apply E, BitLen_zero). pose proof (Bits_nil v H0) as H1. pose proof (Bits_len v 2 ltac:(lia) ltac:(lia)) as H2. pose proof (Bits_fits v) as HF. pose proof (Bits_ok v) as HP. destruct (Bits v) as [|x [|y [|]]]; cbn [List.length] in *; try lia.
    all: cbn [packed] in HP; inversion HF as [|? ? Fx HF']; subst; unfold fits in Fx; cbn [index Z.ltb Z.compare opt_bind]; try (inversion HF' as [|? ? Fy _]; subst; unfold fits in Fy).
    all: assert (HN : forall n, valid128 n -> val128 n = Z.abs v -> exists m, Some (if Z.sgn v <? 0 then D128.Negate n else n) = Some m /\ valid128 m /\ val128 m = v).
    1, 3: intros n Vn En; destruct (Z.ltb_spec (Z.sgn v) 0) as [Hs|Hs]; [destruct (neg128 n Vn) as (Vm & Em); eexists; splits; [reflexivity|assumption|]; rewrite Em, En; rewrite wrapS_id by (try lia; unfold inS; change (128 - 1) with 127; lia); destruct v; cbn in *; lia|eexists; splits; [reflexivity|assumption|]; rewrite En; destruct v; cbn in *; lia].
    + cbn. apply HN; [unfold valid128, inS; cbn; lia|unfold val128; cbn [D128.lo D128.hi]; lia].
    + change (index [x; y] 0) with (Some x). change (1 <? Z.of_nat 2) with true. cbv iota. change (index [x; y] 1) with (Some y). cbn [opt_bind]. rewrite i64_small by (words; lia). apply HN; [unfold valid128, inS; cbn [D128.lo D128.hi]; change (64 - 1) with 63; words; lia|unfold val128; cbn [D128.lo D128.hi]; lia].
Qed.

Lemma from128_large v : 2 ^ 127 <= Z.abs v -> D128.FromBigInt v = None.
Proof. intros Hv. unfold D128.FromBigInt. pose proof (proj1 (BitLen_le v 127 ltac:(lia))) as HB. destruct (Z.ltb_spec 127 (BitLen v)); [reflexivity|lia]. Qed.

Lemma less128 a b : valid128 a -> valid128 b -> D128.Less a b = (val128 a <? val128 b).
Proof.
  intros (La & _) (Lb & _). unfold D128.Less, val128. words. destruct (Z.ltb_spec (D128.hi a) (D128.hi b)), (Z.eqb_spec (D128.hi a) (D128.hi b)), (Z.ltb_spec (D128.lo a) (D128.lo b)), (Z.ltb_spec (D128.hi a * 18446744073709551616 + D128.lo a) (D128.hi b * 18446744073709551616 + D128.lo b)); cbn [orb andb]; (reflexivity || lia).
Qed.

(** ** The tables *)

Definition ok128 (n : D128.Num) : bool := (0 <=? D128.lo n) && (D128.lo n <? 2 ^ 64) && (- 2 ^ 63 <=? D128.hi n) && (D128.hi n <? 2 ^ 63).

Lemma ok128_valid l : forallb ok128 l = true -> Forall valid128 l.
Proof. intros H. rewrite forallb_forall in H. apply Forall_forall. intros n Hn. specialize (H n Hn). unfold ok128 in H. rewrite !andb_true_iff, !Z.leb_le, !Z.ltb_lt in H. destruct H as (((H1 & H2) & H3) & H4). split; [lia|apply (proj2 (in64 _)); lia]. Qed.

Lemma table128 k : 0 <= k <= 38 -> exists m, index D128.scaleMultipliers k = Some m /\ valid128 m /\ val128 m = 10 ^ k.
Proof. intros Hk. apply (table_ok valid128 val128 _ (D128.FromU64 0) 39); [apply ok128_valid; vm_compute; reflexivity|vm_compute; reflexivity|lia]. Qed.

Lemma half128 k : 1 <= k <= 38 -> exists h, index D128.scaleMultipliersHalf k = Some h /\ valid128 h /\ 2 * val128 h = 10 ^ k.
Proof.
  intros Hk. assert (HF : Forall valid128 D128.scaleMultipliersHalf) by (apply ok128_valid; vm_compute; reflexivity).
  assert (HM : forallb (fun k => 2 * val128 (nth (Z.to_nat k) D128.scaleMultipliersHalf (D128.FromU64 0)) =? 10 ^ k) (zseq 1 38) = true) by (vm_compute; reflexivity).
  rewrite forallb_forall in HM. specialize (HM k ltac:(apply in_zseq; lia)). apply Z.eqb_eq in HM. eexists. splits; [apply index_ok; cbn; lia| |exact HM]. rewrite Forall_forall in HF. apply HF, nth_In. cbn. lia.
Qed.

(** ** The interface *)

Lemma abs128 n : valid128 n -> valid128 (D128.Abs n) /\ val128 (D128.Abs n) = wrapS 128 (Z.abs (val128 n)).
Proof.
  intros Hn. unfold D128.Abs. rewrite sign128 by assumption. destruct (Z.eqb_spec (Z.sgn (val128 n)) (-1)) as [E|E].
  - apply Z.sgn_neg_iff in E. rewrite Z.abs_neq by lia. now apply neg128.
  - split; [assumption|]. rewrite Z.abs_eq by (destruct (val128 n); cbn in *; lia). symmetry. apply wrapS_id; [lia|now apply in128].
Qed.

Lemma up128 n o s : valid128 n -> 0 < s - o <= 38 -> D128.Rescale n o s = (out <- D128.FromBigInt (val128 n * 10 ^ (s - o)) ;; Some (out, None)).
Proof.
  intros Hn Hk. unfold D128.Rescale. destruct (Z.eqb_spec o s); [lia|]. rewrite i32_small, Z.abs_eq by lia. destruct (table128 (s - o) ltac:(lia)) as (m & -> & Vm & Em). cbn [opt_bind]. unfold D128.rescaleWouldCauseDataLoss. destruct (Z.ltb_spec (s - o) 0); [lia|]. rewrite !big128, Em, sign128 by assumption. destruct (D128.FromBigInt (val128 n * 10 ^ (s - o))); cbn [opt_bind fst snd]; [|reflexivity]. match goal with |- context [errIf ?x] => enough (HX : x = false) by (rewrite HX; reflexivity) end. pose proof (step_large (s - o) ltac:(lia)).
  destruct (Z.ltb_spec (Z.sgn (val128 n)) 0) as [Hs|Hs]; apply Z.ltb_ge; destruct (val128 n); cbn in Hs; nia.
Qed.

Lemma down128 n o s : valid128 n -> 0 < o - s <= 38 -> exists m, D128.Rescale n o s = Some (m, errIf (negb (Z.rem (val128 n) (10 ^ (o - s)) =? 0))) /\ valid128 m /\ val128 m = Z.quot (val128 n) (10 ^ (o - s)).
Proof.
  intros Hn Hk. unfold D128.Rescale. destruct (Z.eqb_spec o s); [lia|]. rewrite i32_small by lia. replace (Z.abs (s - o)) with (o - s) by lia. destruct (table128 (o - s) ltac:(lia)) as (m & -> & Vm & Em). cbn [opt_bind]. unfold D128.rescaleWouldCauseDataLoss. destruct (Z.ltb_spec (s - o) 0); [|lia]. rewrite !big128, Em by assumption. pose proof (step_large (o - s) ltac:(lia)) as Hl. unfold QuoRem. destruct (Z.eqb_spec (10 ^ (o - s)) 0); [lia|]. cbn [opt_bind fst snd].
  pose proof (big_room 128 valid128 val128 ltac:(lia) in128 n (10 ^ (o - s)) Hn Hl) as HR. destruct (from128 (Z.quot (val128 n) (10 ^ (o - s))) ltac:(change (128 - 1) with 127 in HR; lia)) as (q & -> & Vq & Eq). cbn [opt_bind fst snd]. exists q. splits; [reflexivity|assumption..].
Qed.

Lemma val128_inj a b : valid128 a -> valid128 b -> val128 a = val128 b -> a = b.
Proof. destruct a as [la ha], b as [lb hb]. unfold valid128, val128. cbn [D128.lo D128.hi]. intros (La & _) (Lb & _) HE. assert (ha = hb /\ la = lb) as (-> & ->) by (words; lia). reflexivity. Qed.

(** Every value of 128 bits is a decimal. *)
Lemma val128_onto v : inS 128 v -> exists n, valid128 n /\ val128 n = v.
Proof.
  intros Hv. exists (D128.mkNum (v mod 2 ^ 64) (v / 2 ^ 64)). unfold valid128, val128. cbn [D128.lo D128.hi]. pose proof (Z.div_mod v (2 ^ 64) ltac:(lia)). pose proof (Z.mod_pos_bound v (2 ^ 64) ltac:(lia)). unfold inS in *. change (128 - 1) with 127 in Hv. change (64 - 1) with 63. splits; try lia; words; lia.
Qed.

Lemma d128Laws : DecLaws D128.Num d128Num 128 38 38 valid128 val128.
Proof.
  constructor; cbn [d128Num Negate Add Sub Mul Div Pow Sign Abs Cmp FitsInPrecision IncreaseScaleBy ReduceScaleBy Rescale].
  - exact in128.
  - exact val128_inj.
  - exact val128_onto.
  - exact neg128.
  - exact add128.
  - exact sub128.
  - intros a b Ha Hb Hf. destruct (mul128 a b Ha Hb) as (V & E). rewrite wrapS_abs in E by (assumption || lia). eauto.
  - intros a b Ha Hb Hm H0. apply (big_div 128 valid128 val128 D128.BigInt D128.FromBigInt ltac:(lia) in128 big128 from128); try assumption. now apply (quot_fits 128 valid128 val128 ltac:(lia) in128).
  - intros a b Ha Hb H0. unfold D128.Div, QuoRem. rewrite (big128 b Hb), H0. reflexivity.
  - intros a b Ha Hb. apply (big_pow 128 valid128 val128 D128.BigInt D128.FromBigInt big128 from128); assumption.
  - exact sign128.
  - exact abs128.
  - intros a b Ha Hb. unfold D128.Cmp, D128.Greater, cmpZ. rewrite !less128 by assumption. destruct (Z.compare_spec (val128 a) (val128 b)); destruct (Z.ltb_spec (val128 b) (val128 a)), (Z.ltb_spec (val128 a) (val128 b)); (reflexivity || lia).
  - intros n p Hn Hp. unfold D128.FitsInPrecision. destruct (table128 p Hp) as (m & -> & Vm & Em). cbn [opt_bind]. destruct (abs128 n Hn) as (V & E). now rewrite less128, E, Em.
  - intros n k Hn Hk. apply (big_increase 128 38 valid128 val128 D128.BigInt D128.FromBigInt D128.scaleMultipliers big128 from128 table128); assumption.
  - intros n k round Hn Hk. apply (big_reduce 128 38 valid128 val128 D128.BigInt D128.FromBigInt D128.Sign D128.scaleMultipliers D128.scaleMultipliersHalf ltac:(lia) in128 big128 from128 sign128 table128 half128); assumption.
  - intros n s _. unfold D128.Rescale. now rewrite Z.eqb_refl.
  - intros n o s Hn Hk Hf. rewrite up128 by assumption. destruct (from128 _ Hf) as (m & -> & V & E). cbn [opt_bind]. eauto.
  - intros n o s Hn Hk Hf m. rewrite up128 by assumption. rewrite from128_large by assumption. discriminate.
  - exact down128.
Qed.
