(* ===== verification/Decimal256Ok.v ===== *)
(** * decimal256 keeps the promises of [Num] *)

From Stdlib Require Import ZArith List Lia Bool.
From S2P Require Import Prelude MathUtil Decimals DecimalLaws DecimalsOk Decimal128Ok.
Import ListNotations.
#[local] Open Scope Z_scope.
#[local] Open Scope go_scope.

Definition valid256 (n : D256.Num) : Prop := List.length (D256.arr n) = 4%nat /\ Forall (fits 64) (D256.arr n).

Definition val256 (n : D256.Num) : Z := wrapS 256 (packed 64 (D256.arr n)).

Lemma in256 n : valid256 n -> inS 256 (val256 n).
Proof. intros _. apply wrapS_spec. lia. Qed.

Lemma packed256 n : valid256 n -> 0 <= packed 64 (D256.arr n) < 2 ^ 256.
Proof. intros (HL & HF). pose proof (packed_bound 64 (D256.arr n) ltac:(lia) HF) as H. rewrite HL in H. exact H. Qed.

(** ** Words and carries *)

Lemma pow_words n : 2 ^ (64 * Z.of_nat (S n)) = 2 ^ 64 * 2 ^ (64 * Z.of_nat n).
Proof. replace (64 * Z.of_nat (S n)) with (64 + 64 * Z.of_nat n) by lia. apply pow2_split; lia. Qed.

Lemma addLoop_ok xs : forall carry ys, List.length ys = List.length xs -> List.length (D256.addLoop carry xs ys) = List.length xs /\ Forall (fits 64) (D256.addLoop carry xs ys) /\
  exists k, packed 64 (D256.addLoop carry xs ys) = packed 64 xs + packed 64 ys + carry + k * 2 ^ (64 * Z.of_nat (List.length xs)).
Proof.
  induction xs as [|x xs IH]; intros carry [|y ys] HL; try discriminate; [splits; [reflexivity|constructor|]; exists (- carry); cbn; lia|]. cbn [D256.addLoop Add64 fst snd]. set (s := x + y + carry). destruct (IH (s / 2 ^ 64) ys ltac:(now injection HL)) as (H1 & H2 & k & H3). cbn [List.length packed]. splits; [now rewrite H1|constructor; [apply u64_k|assumption]|].
  exists k. rewrite H3, pow_words. pose proof (Z.div_mod s (2 ^ 64) ltac:(lia)) as HD. fold (u64 s) in HD. replace (x + 2 ^ 64 * packed 64 xs + (y + 2 ^ 64 * packed 64 ys) + carry) with (s + 2 ^ 64 * (packed 64 xs + packed 64 ys)) by (subst s; ring). rewrite HD at 3. ring.
Qed.

Lemma negateLoop_ok ws : forall carry, Forall (fits 64) ws -> carry = 0 \/ carry = 1 -> List.length (D256.negateLoop carry ws) = List.length ws /\ Forall (fits 64) (D256.negateLoop carry ws) /\
  exists k, packed 64 (D256.negateLoop carry ws) = - packed 64 ws - 1 + carry + k * 2 ^ (64 * Z.of_nat (List.length ws)).
Proof.
  induction ws as [|x ws IH]; intros carry HF Hc; [cbn [D256.negateLoop]; splits; [reflexivity|assumption|]; exists (1 - carry); cbn [packed List.length]; change (2 ^ (64 * Z.of_nat 0)) with 1; lia|]. inversion HF as [|? ? Hx HF']; subst. cbn [D256.negateLoop]. unfold Z.lnot. set (y := u64 (Z.pred (- x) + carry)). set (c := if y =? 0 then carry else 0). assert (Hc' : c = 0 \/ c = 1) by (subst c; destruct (y =? 0); lia). destruct (IH c HF' Hc') as (H1 & H2 & k & H3). cbn [List.length packed]. splits; [now rewrite H1|constructor; [apply u64_k|assumption]|].
  exists k. rewrite H3, pow_words. assert (HY : y = - x - 1 + carry - 2 ^ 64 * (c - 1)); [|rewrite HY; ring]. unfold fits in Hx. subst c. assert (Hy : y = (- x - 1 + carry) mod 2 ^ 64) by (subst y; unfold u64; f_equal; lia). clearbody y. change (2 ^ 64) with 18446744073709551616 in *. destruct (Z.eqb_spec y 0); zdiv.
Qed.

(** A result of four words that is right up to a multiple of the modulus. *)
Lemma wraps256 ws x : List.length ws = 4%nat -> Forall (fits 64) ws -> (exists k, packed 64 ws = x + k * 2 ^ 256) -> valid256 (D256.mkNum ws) /\ val256 (D256.mkNum ws) = wrapS 256 x.
Proof. intros HL HF (k & HE). split; [split; assumption|]. unfold val256. cbn [D256.arr]. now apply (wrapS_shift 256 _ _ k). Qed.

Lemma val256_k n : exists k, val256 n = packed 64 (D256.arr n) + k * 2 ^ 256.
Proof. apply wrapS_spec. lia. Qed.

Lemma neg256 n : valid256 n -> valid256 (D256.Negate n) /\ val256 (D256.Negate n) = wrapS 256 (- val256 n).
Proof.
  intros (HL & HF). destruct (negateLoop_ok (D256.arr n) 1 HF (or_intror eq_refl)) as (H1 & H2 & k & H3). rewrite HL in *. change (64 * Z.of_nat 4) with 256 in H3. apply wraps256; [assumption..|]. destruct (val256_k n) as (j & ->). exists (k + j). rewrite H3. ring.
Qed.

Lemma add256 a b : valid256 a -> valid256 b -> valid256 (D256.Add a b) /\ val256 (D256.Add a b) = wrapS 256 (val256 a + val256 b).
Proof.
  intros (La & Fa) (Lb & Fb). destruct (addLoop_ok (D256.arr a) 0 (D256.arr b) ltac:(congruence)) as (H1 & H2 & k & H3). rewrite La in *. change (64 * Z.of_nat 4) with 256 in H3. apply wraps256; [assumption..|]. destruct (val256_k a) as (ja & ->). destruct (val256_k b) as (jb & ->). exists (k - ja - jb). rewrite H3. ring.
Qed.

Lemma sub256 a b : valid256 a -> valid256 b -> valid256 (D256.Sub a b) /\ val256 (D256.Sub a b) = wrapS 256 (val256 a - val256 b).
Proof.
  intros Ha Hb. destruct (neg256 b Hb) as (Vn & En). destruct (add256 a _ Ha Vn) as (Vs & Es). split; [assumption|]. unfold D256.Sub. rewrite Es, En. destruct (wrapS_spec 256 (- val256 b) ltac:(lia)) as (_ & k & ->). apply (wrapS_shift 256 _ _ k); [lia|ring].
Qed.

(** The value by its words: the highest has the sign. *)
Lemma words256 n : valid256 n -> exists a b c d, D256.arr n = [a; b; c; d] /\ fits 64 a /\ fits 64 b /\ fits 64 c /\ fits 64 d /\ val256 n = a + 2 ^ 64 * (b + 2 ^ 64 * (c + 2 ^ 64 * i64 d)).
Proof.
  intros (HL & HF). destruct n as [l]. unfold val256. cbn [D256.arr] in *. destruct l as [|a [|b [|c [|d [|]]]]]; try discriminate. repeat match goal with H : Forall _ (_ :: _) |- _ => inversion_clear H end. exists a, b, c, d. splits; try assumption; [reflexivity|]. unfold fits in *. destruct (i64_k d) as (Hi & k & Hk). apply wrapS_unique; [lia| |exists k; cbn [packed]; rewrite Hk; change (2 ^ 256) with (2 ^ 64 * (2 ^ 64 * (2 ^ 64 * 2 ^ 64))); ring].
  unfold inS in *. change (64 - 1) with 63 in Hi. change (2 ^ (256 - 1)) with (2 ^ 64 * (2 ^ 64 * (2 ^ 64 * 2 ^ 63))). change (2 ^ 64) with 18446744073709551616 in *. change (2 ^ 63) with 9223372036854775808 in *. lia.
Qed.

#[local] Ltac numerals := change (2 ^ 64) with 18446744073709551616 in *; change (2 ^ 63) with 9223372036854775808 in *.

Lemma i64_word d : fits 64 d -> - 2 ^ 63 <= i64 d < 2 ^ 63 /\ (i64 d = d \/ i64 d = d - 2 ^ 64).
Proof. unfold fits, i64. intros Hd. numerals. zdiv. Qed.

Lemma less256 x y : valid256 x -> valid256 y -> D256.Less x y = (val256 x <? val256 y).
Proof.
  intros Hx Hy. destruct (words256 x Hx) as (a & b & c & d & Ex & Fa & Fb & Fc & Fd & ->). destruct (words256 y Hy) as (a' & b' & c' & d' & Ey & Fa' & Fb' & Fc' & Fd' & ->). unfold D256.Less, D256.word. rewrite Ex, Ey. cbn [nth]. destruct (i64_word d Fd) as (I & K). destruct (i64_word d' Fd') as (I' & K'). unfold fits in *. numerals.
  assert (HE : i64 d = i64 d' <-> d = d') by lia. match goal with |- _ = (?l <? ?r) => destruct (Z.ltb_spec l r) end.
  all: destruct (Z.eqb_spec d d'); cbn [negb]; [|first [apply Z.ltb_lt | apply Z.ltb_ge]; lia].
  all: destruct (Z.eqb_spec c c'); cbn [negb]; [|first [apply Z.ltb_lt | apply Z.ltb_ge]; lia].
  all: destruct (Z.eqb_spec b b'); cbn [negb]; first [apply Z.ltb_lt | apply Z.ltb_ge]; lia.
Qed.

Lemma isZero256 n : valid256 n -> D256.isZero n = (val256 n =? 0).
Proof.
  intros Hn. destruct (words256 n Hn) as (a & b & c & d & E & Fa & Fb & Fc & Fd & ->). unfold D256.isZero, D256.word. rewrite E. cbn [nth]. destruct (i64_word d Fd) as (I & K). unfold fits in *. numerals. match goal with |- _ = (?l =? 0) => destruct (Z.eqb_spec l 0) end; destruct (Z.eqb_spec a 0), (Z.eqb_spec b 0), (Z.eqb_spec c 0), (Z.eqb_spec d 0); cbn [andb]; (reflexivity || lia).
Qed.

Lemma sign256 n : valid256 n -> D256.Sign n = Z.sgn (val256 n).
Proof.
  intros Hn. unfold D256.Sign. rewrite isZero256 by assumption. destruct (Z.eqb_spec (val256 n) 0) as [->|H0]; [reflexivity|]. destruct (words256 n Hn) as (a & b & c & d & E & Fa & Fb & Fc & Fd & HV). unfold D256.word. rewrite E. cbn [nth]. rewrite shiftr_div by lia. destruct (i64_word d Fd) as (I & _). unfold fits in *. rewrite HV in *. destruct (Z.lt_ge_cases (i64 d) 0).
  - replace (i64 d / 2 ^ 63) with (-1) by (apply (Z.div_unique _ _ _ (i64 d + 2 ^ 63)); lia). rewrite Z.sgn_neg by (numerals; lia). reflexivity.
  - rewrite Z.div_small, Z.sgn_pos by (numerals; lia). reflexivity.
Qed.

(** The words of a value that is not negative are the value. *)
Lemma packed_val n : valid256 n -> packed 64 (D256.arr n) = val256 n mod 2 ^ 256.
Proof. intros Hn. destruct (val256_k n) as (k & ->). rewrite Z.mod_add by lia. symmetry. apply Z.mod_small, packed256, Hn. Qed.

Lemma big256 n : valid256 n -> D256.BigInt n = val256 n.
Proof.
  intros Hn. destruct (neg256 n Hn) as (Vn & En). pose proof (in256 n Hn) as HI. unfold inS in HI. change (256 - 1) with 255 in HI. assert (H2 : 2 ^ 256 = 2 * 2 ^ 255) by reflexivity. unfold D256.BigInt. rewrite sign256 by assumption. unfold D256.toBigIntPositive, SetBits. destruct (Z.ltb_spec (Z.sgn (val256 n)) 0) as [Hs|Hs].
  - rewrite packed_val, En by assumption. destruct (wrapS_spec 256 (- val256 n) ltac:(lia)) as (_ & k & ->). rewrite Z.mod_add, Z.mod_small by (try lia; destruct (val256 n); cbn in Hs; lia). lia.
  - rewrite packed_val by assumption. apply Z.mod_small. destruct (val256 n); cbn in Hs; lia.
Qed.

Lemma storeBits_ok b : (List.length b <= 4)%nat -> D256.storeBits 0 b [0; 0; 0; 0] = Some (b ++ skipn (List.length b) [0; 0; 0; 0]).
Proof. intros HL. destruct b as [|x [|y [|z [|t [|]]]]]; cbn [List.length] in HL; try lia; reflexivity. Qed.

Lemma packed_zeros k : packed 64 (repeat 0 k) = 0.
Proof. induction k as [|k IH]; [reflexivity|]. cbn [repeat packed]. rewrite IH. reflexivity. Qed.

Lemma from256 v : Z.abs v < 2 ^ 255 -> exists n, D256.FromBigInt v = Some n /\ valid256 n /\ val256 n = v.
Proof.
  intros Hv. unfold D256.FromBigInt. pose proof (proj2 (BitLen_le v 255 ltac:(lia)) Hv) as HB. destruct (Z.ltb_spec 255 (BitLen v)); [lia|]. destruct (Z.eqb_spec (BitLen v) 0) as [E|E].
  - apply (proj1 (BitLen_zero v)) in E. subst v. eexists. splits; [reflexivity|split; [reflexivity|repeat constructor; cbn; lia]|reflexivity].
  - pose proof (Bits_len v 4 ltac:(lia) ltac:(lia)) as HL. rewrite storeBits_ok by lia. cbn [opt_bind]. change [0; 0; 0; 0] with (repeat 0 4). assert (HS : forall k m, skipn k (repeat 0 m) = repeat 0 (m - k)) by (induction k; intros [|m]; cbn [skipn repeat Nat.sub]; auto). rewrite HS. set (ws := Bits v ++ repeat 0 (4 - List.length (Bits v))).
    assert (VW : valid256 (D256.mkNum ws)) by (split; cbn [D256.arr]; subst ws; [rewrite length_app, repeat_length; lia|apply Forall_app; split; [apply Bits_fits|apply Forall_forall; intros z Hz; apply repeat_spec in Hz; subst z; split; lia]]).
    assert (EW : val256 (D256.mkNum ws) = Z.abs v) by (unfold val256; cbn [D256.arr]; subst ws; rewrite packed_app, packed_zeros, Bits_ok, Z.mul_0_r, Z.add_0_r by lia; apply wrapS_abs; [lia|rewrite Z.abs_idemp; exact Hv]).
    destruct (Z.ltb_spec (Z.sgn v) 0) as [Hs|Hs]; (eexists; split; [reflexivity|]).
    + destruct (neg256 _ VW) as (Vn & En). split; [assumption|]. rewrite En, EW, wrapS_abs by (try lia; change (256 - 1) with 255; lia). destruct v; cbn in *; lia.
    + split; [assumption|]. rewrite EW. destruct v; cbn in *; lia.
Qed.

Lemma from256_large v : 2 ^ 255 <= Z.abs v -> D256.FromBigInt v = None.
Proof. intros Hv. unfold D256.FromBigInt. pose proof (proj1 (BitLen_le v 255 ltac:(lia))) as HB. destruct (Z.ltb_spec 255 (BitLen v)); [reflexivity|lia]. Qed.

(** A decimal128 keeps its value. *)
Lemma from128_256 n : valid128 n -> valid256 (D256.FromDecimal128 n) /\ val256 (D256.FromDecimal128 n) = val128 n.
Proof.
  intros Hn. pose proof Hn as (Hl & Hh). pose proof (in128 n Hn) as HI. unfold inS in Hh. change (64 - 1) with 63 in Hh. unfold D256.FromDecimal128, D256.New. rewrite sign128 by assumption. set (t := if Z.sgn (val128 n) <? 0 then D256.MaxUint64 else 0). assert (Ht : fits 64 t) by (subst t; unfold fits; destruct (Z.sgn (val128 n) <? 0); unfold D256.MaxUint64; lia). destruct (u64_k (D128.hi n)) as (Hu & k & Hk).
  assert (VV : valid256 (D256.mkNum [D128.lo n; u64 (D128.hi n); t; t])) by (split; [reflexivity|cbn [D256.arr]; repeat (apply Forall_cons || apply Forall_nil); [exact Hl|exact Hu|exact Ht|exact Ht]]). split; [assumption|]. destruct (words256 _ VV) as (a & b & c & d & E & _ & _ & _ & _ & ->). cbn [D256.arr] in E. injection E as <- <- <- <-. unfold val128 in *.
  assert (HC : (0 <= D128.hi n /\ t = 0) \/ (D128.hi n < 0 /\ t = D256.MaxUint64)).
  { subst t. destruct (Z.lt_ge_cases (D128.hi n) 0) as [Hneg|Hpos]; [right; rewrite Z.sgn_neg by lia; now split|left; split; [assumption|]]. destruct (Z.ltb_spec (Z.sgn (D128.hi n * 2 ^ 64 + D128.lo n)) 0) as [Hs|]; [|reflexivity]. pose proof (proj2 (Z.sgn_nonneg (D128.hi n * 2 ^ 64 + D128.lo n)) ltac:(lia)). lia. }
  destruct HC as [(H0 & ->)|(H0 & ->)].
  - change (i64 0) with 0. unfold u64. rewrite Z.mod_small by lia. ring.
  - change (i64 D256.MaxUint64) with (-1). unfold D256.MaxUint64. assert (HX : u64 (D128.hi n) = D128.hi n + 2 ^ 64) by (unfold u64; numerals; zdiv). rewrite HX. numerals. lia.
Qed.

(** ** The tables *)

Definition ok256 (n : D256.Num) : bool := (List.length (D256.arr n) =? 4)%nat && forallb (fun w => (0 <=? w) && (w <? 2 ^ 64)) (D256.arr n).

Lemma ok256_valid l : forallb ok256 l = true -> Forall valid256 l.
Proof.
  intros H. rewrite forallb_forall in H. apply Forall_forall. intros n Hn. specialize (H n Hn). unfold ok256 in H. apply andb_true_iff in H. destruct H as (H1 & H2). split; [now apply Nat.eqb_eq|]. rewrite forallb_forall in H2. apply Forall_forall. intros w Hw. specialize (H2 w Hw). rewrite andb_true_iff, Z.leb_le, Z.ltb_lt in H2. exact H2.
Qed.

Lemma table256 k : 0 <= k <= 76 -> exists m, index D256.scaleMultipliers k = Some m /\ valid256 m /\ val256 m = 10 ^ k.
Proof. intros Hk. apply (table_ok valid256 val256 _ D256.zero 77); [apply ok256_valid; vm_compute; reflexivity|vm_compute; reflexivity|lia]. Qed.

Lemma half256 k : 1 <= k <= 76 -> exists h, index D256.scaleMultipliersHalf k = Some h /\ valid256 h /\ 2 * val256 h = 10 ^ k.
Proof.
  intros Hk. assert (HF : Forall valid256 D256.scaleMultipliersHalf) by (apply ok256_valid; vm_compute; reflexivity).
  assert (HM : forallb (fun k => 2 * val256 (nth (Z.to_nat k) D256.scaleMultipliersHalf D256.zero) =? 10 ^ k) (zseq 1 76) = true) by (vm_compute; reflexivity).
  rewrite forallb_forall in HM. specialize (HM k ltac:(apply in_zseq; lia)). apply Z.eqb_eq in HM. eexists. splits; [apply index_ok; cbn; lia| |exact HM]. rewrite Forall_forall in HF. apply HF, nth_In. cbn. lia.
Qed.

(** ** The interface *)

Lemma abs256 n : valid256 n -> valid256 (D256.Abs n) /\ val256 (D256.Abs n) = wrapS 256 (Z.abs (val256 n)).
Proof.
  intros Hn. unfold D256.Abs. rewrite sign256 by assumption. destruct (Z.eqb_spec (Z.sgn (val256 n)) (-1)) as [E|E].
  - apply Z.sgn_neg_iff in E. rewrite Z.abs_neq by lia. now apply neg256.
  - split; [assumption|]. rewrite Z.abs_eq by (destruct (val256 n); cbn in *; lia). symmetry. apply wrapS_id; [lia|now apply in256].
Qed.

Lemma mul256 a b : valid256 a -> valid256 b -> D256.Mul a b = D256.FromBigInt (val256 a * val256 b).
Proof. intros Ha Hb. unfold D256.Mul. now rewrite !big256. Qed.

Lemma up256 n o s : valid256 n -> 0 < s - o <= 76 -> D256.Rescale n o s = (out <- D256.FromBigInt (val256 n * 10 ^ (s - o)) ;; Some (out, None)).
Proof.
  intros Hn Hk. unfold D256.Rescale. destruct (Z.eqb_spec o s); [lia|]. rewrite i32_small, Z.abs_eq by lia. destruct (table256 (s - o) ltac:(lia)) as (m & -> & Vm & Em). cbn [opt_bind]. unfold D256.rescaleWouldCauseDataLoss. destruct (Z.ltb_spec (s - o) 0); [lia|]. rewrite mul256, Em by assumption. destruct (Z.lt_ge_cases (Z.abs (val256 n * 10 ^ (s - o))) (2 ^ 255)) as [Hlt|Hge]; [|now rewrite from256_large]. destruct (from256 _ Hlt) as (out & -> & Vo & Eo). cbn [opt_bind fst snd].
  match goal with |- context [errIf ?x] => enough (HX : x = false) by (rewrite HX; reflexivity) end. rewrite sign256, !less256, Eo by assumption. pose proof (step_large (s - o) ltac:(lia)). destruct (Z.ltb_spec (Z.sgn (val256 n)) 0) as [Hs|Hs]; apply Z.ltb_ge; destruct (val256 n); cbn in Hs; nia.
Qed.

Lemma down256 n o s : valid256 n -> 0 < o - s <= 76 -> exists m, D256.Rescale n o s = Some (m, errIf (negb (Z.rem (val256 n) (10 ^ (o - s)) =? 0))) /\ valid256 m /\ val256 m = Z.quot (val256 n) (10 ^ (o - s)).
Proof.
  intros Hn Hk. unfold D256.Rescale. destruct (Z.eqb_spec o s); [lia|]. rewrite i32_small by lia. replace (Z.abs (s - o)) with (o - s) by lia. destruct (table256 (o - s) ltac:(lia)) as (m & -> & Vm & Em). cbn [opt_bind]. unfold D256.rescaleWouldCauseDataLoss. destruct (Z.ltb_spec (s - o) 0); [|lia]. pose proof (step_large (o - s) ltac:(lia)) as Hl.
  pose proof (big_room 256 valid256 val256 ltac:(lia) in256 n (10 ^ (o - s)) Hn Hl) as HR. destruct (big_div 256 valid256 val256 D256.BigInt D256.FromBigInt ltac:(lia) in256 big256 from256 n m Hn Vm ltac:(rewrite Em; lia) ltac:(lia)) as (q & r & HD & Vq & Vr & Eq & Er). fold (D256.Div n m) in HD. rewrite HD. cbn [opt_bind fst snd]. rewrite isZero256, Er, Em by assumption. exists q. splits; [reflexivity|assumption|now rewrite Eq, Em].
Qed.

Lemma val256_inj a b : valid256 a -> valid256 b -> val256 a = val256 b -> a = b.
Proof.
  intros Ha Hb HE. pose proof (packed_val a Ha) as Pa. pose proof (packed_val b Hb) as Pb. rewrite HE, <- Pb in Pa. destruct a as [x], b as [y], Ha as (La & Fa), Hb as (Lb & Fb). cbn [D256.arr] in *. f_equal. rewrite <- (fields_packed 64 x), <- (fields_packed 64 y) by (assumption || lia). now rewrite Pa, La, Lb.
Qed.

Lemma val256_onto v : inS 256 v -> exists n, valid256 n /\ val256 n = v.
Proof.
  intros Hv. exists (D256.mkNum (fields v 0 64 4)). assert (HP : packed 64 (fields v 0 64 4) = v mod 2 ^ 256) by (rewrite packed_words by lia; unfold field; rewrite Z.pow_0_r, Z.div_1_r; reflexivity).
  split; [split; [apply length_fields|apply Forall_forall; intros x Hx; apply in_map_iff in Hx; destruct Hx as (j & <- & _); apply field_bound; lia]|]. unfold val256. cbn [D256.arr]. rewrite HP. apply wrapS_unique; [lia|assumption|]. exists (v / 2 ^ 256). pose proof (Z.div_mod v (2 ^ 256) ltac:(lia)). lia.
Qed.

Lemma d256Laws : DecLaws D256.Num d256Num 256 76 76 valid256 val256.
Proof.
  constructor; cbn [d256Num Negate Add Sub Mul Div Pow Sign Abs Cmp FitsInPrecision IncreaseScaleBy ReduceScaleBy Rescale].
  - exact in256.
  - exact val256_inj.
  - exact val256_onto.
  - exact neg256.
  - exact add256.
  - exact sub256.
  - intros a b Ha Hb Hf. rewrite mul256 by assumption. now apply from256.
  - intros a b Ha Hb Hm H0. apply (big_div 256 valid256 val256 D256.BigInt D256.FromBigInt ltac:(lia) in256 big256 from256); try assumption. now apply (quot_fits 256 valid256 val256 ltac:(lia) in256).
  - intros a b Ha Hb H0. unfold D256.Div, QuoRem. rewrite (big256 b Hb), H0. reflexivity.
  - intros a b Ha Hb. apply (big_pow 256 valid256 val256 D256.BigInt D256.FromBigInt big256 from256); assumption.
  - exact sign256.
  - exact abs256.
  - intros a b Ha Hb. unfold D256.Cmp, D256.Greater, cmpZ. rewrite !less256 by assumption. destruct (Z.compare_spec (val256 a) (val256 b)); destruct (Z.ltb_spec (val256 b) (val256 a)), (Z.ltb_spec (val256 a) (val256 b)); (reflexivity || lia).
  - intros n p Hn Hp. unfold D256.FitsInPrecision. destruct (table256 p Hp) as (m & -> & Vm & Em). cbn [opt_bind]. destruct (abs256 n Hn) as (V & E). now rewrite less256, E, Em.
  - intros n k Hn Hk. apply (big_increase 256 76 valid256 val256 D256.BigInt D256.FromBigInt D256.scaleMultipliers big256 from256 table256); assumption.
  - intros n k round Hn Hk. apply (big_reduce 256 76 valid256 val256 D256.BigInt D256.FromBigInt D256.Sign D256.scaleMultipliers D256.scaleMultipliersHalf ltac:(lia) in256 big256 from256 sign256 table256 half256); assumption.
  - intros n s _. unfold D256.Rescale. now rewrite Z.eqb_refl.
  - intros n o s Hn Hk Hf. rewrite up256 by assumption. destruct (from256 _ Hf) as (m & -> & V & E). cbn [opt_bind]. eauto.
  - intros n o s Hn Hk Hf m. rewrite up256 by assumption. rewrite from256_large by assumption. discriminate.
  - exact down256.
Qed.
