(* ===== verification/DecimalText.v ===== *)
(** * Decimals as text (ToString, PrecScaleFromString)

    The text of a decimal128 and of a decimal256, and how precision and scale are read from a text.
    A string is its bytes.  The text of a number with more digits than the greatest precision goes
    through [big.Float] and is a parameter. *)

From Stdlib Require Import ZArith List Lia Bool.
From S2P Require Import Prelude MathUtil Decimals.
Import ListNotations.
#[local] Open Scope Z_scope.
#[local] Open Scope go_scope.

(** ** [big.Int.String] *)

Fixpoint digitsLoop (fuel : nat) (x : Z) (acc : list Z) : list Z :=
  match fuel with
  | O => acc
  | S fuel' => if x <? 10 then (48 + x) :: acc else digitsLoop fuel' (x / 10) ((48 + x mod 10) :: acc)
  end.

(** A number has no more digits than bits. *)
Definition digitsOf (x : Z) : list Z := digitsLoop (S (Z.to_nat (Z.log2 x))) x [].

Definition bigString (v : Z) : list Z := if v <? 0 then 45 :: digitsOf (- v) else digitsOf v.

Definition bytes_eqb (a b : list Z) : bool := if list_eq_dec Z.eq_dec a b then true else false.

(** ** ToString *)

(** The two packages have the same code with their own constants; [bigText] is
    [n.ToBigFloat(scale).Text('f', int(scale))]. *)
Definition toString (maxScale maxPrecision : Z) (bigText : Z -> Z -> list Z) (v scale : Z) : option (list Z) :=
  if (scale <? - maxScale) || (maxScale <? scale) then None
  else
    let value := bigString v in
    c <- index value 0 ;;
    let digits := if c =? 45 then len value - 1 else len value in
    if maxPrecision <? digits then Some (bigText v scale)
    else if scale <=? 0 then
      Some (if (scale <? 0) && negb (bytes_eqb value [48]) then value ++ repeat 48 (Z.to_nat (- scale)) else value)
    else
      let negative := c =? 45 in
      value <- (if negative then slice value 1 (len value) else Some value) ;;
      let places := scale in
      result <- (if len value <=? places then Some ([48; 46] ++ repeat 48 (Z.to_nat (places - len value)) ++ value)
                 else
                   let at_ := len value - places in
                   whole <- slice value 0 at_ ;;
                   fract <- slice value at_ (len value) ;;
                   Some (whole ++ [46] ++ fract)) ;;
      Some (if negative then [45] ++ result else result).

Definition ToString128 (bigText : Z -> Z -> list Z) (n : D128.Num) (scale : Z) : option (list Z) := toString D128.MaxScale D128.MaxPrecision bigText (D128.BigInt n) scale.

Definition ToString256 (bigText : Z -> Z -> list Z) (n : D256.Num) (scale : Z) : option (list Z) := toString D256.MaxScale D256.MaxPrecision bigText (D256.BigInt n) scale.

(** ** PrecScaleFromString *)

Record decComponents : Type := mkComponents { wholeDigits : list Z; fractDigits : list Z; exp : Z; sign : Z; hasExponent : bool }.

Definition isSign (s : Z) : bool := (s =? 45) || (s =? 43).

Definition isDot (s : Z) : bool := s =? 46.

Definition startsExponent (s : Z) : bool := (s =? 101) || (s =? 69).

Definition isDigit (r : Z) : bool := negb ((r <? 48) || (57 <? r)).

(** The first rune that is not a digit starts at the first byte that is not one. *)
Fixpoint parseDigitsRun (s : list Z) : list Z * list Z :=
  match s with
  | [] => ([], [])
  | c :: s' => if isDigit c then let r := parseDigitsRun s' in (c :: fst r, snd r) else ([], s)
  end.

Definition digitsVal (ds : list Z) : Z := fold_left (fun a c => 10 * a + (c - 48)) ds 0.

(** [strconv.Atoi]: an optional sign, digits, and a value that fits. *)
Definition Atoi (s : list Z) : option Z :=
  let sg := match s with c :: _ => isSign c | [] => false end in
  let neg := match s with c :: _ => c =? 45 | [] => false end in
  let ds := if sg then tl s else s in
  let v := if neg then - digitsVal ds else digitsVal ds in
  if negb (len ds =? 0) && forallb isDigit ds && (- 2 ^ 63 <=? v) && (v <? 2 ^ 63) then Some v else None.

Definition noComponents : decComponents := mkComponents [] [] 0 0 false.

Definition parseDecimalComponents (s : list Z) : decComponents * bool :=
  match s with
  | [] => (noComponents, false)
  | c :: s' =>
      let sg := if isSign c then c else 0 in
      let s := if isSign c then s' else s in
      let w := parseDigitsRun s in
      let whole := fst w in
      match snd w with
      | [] => (mkComponents whole [] 0 sg false, negb (len whole =? 0))
      | c :: s' =>
          let f := if isDot c then parseDigitsRun s' else ([], c :: s') in
          let fract := fst f in
          let d := mkComponents whole fract 0 sg false in
          if (len whole =? 0) && (len fract =? 0) then (d, false)
          else
            match snd f with
            | [] => (d, true)
            | c :: s' =>
                if startsExponent c then
                  let s := match s' with c :: s'' => if c =? 43 then s'' else s' | [] => s' end in
                  match Atoi s with
                  | None => (mkComponents whole fract 0 sg true, false)
                  | Some e => (mkComponents whole fract (i32 e) sg true, len s =? 0)
                  end
                else (d, len (c :: s') =? 0)
            end
      end
  end.

Inductive precErr : Type := EmptyString | NotADecimal.

(** [strings.TrimLeft(s, "0")]. *)
Fixpoint trimZeros (s : list Z) : list Z := match s with c :: s' => if c =? 48 then trimZeros s' else s | [] => [] end.

Definition PrecScaleFromString (s : list Z) : (Z * Z) + precErr :=
  if len s =? 0 then inr EmptyString
  else
    let r := parseDecimalComponents s in
    let d := fst r in
    if negb (snd r) then inr NotADecimal
    else
      let digits := trimZeros (wholeDigits d) in
      let significantDigits := len (fractDigits d) + len digits in
      let scale := if hasExponent d then i32 (i32 (- exp d) + i32 (len (fractDigits d))) else i32 (len (fractDigits d)) in
      inl (i32 significantDigits, scale).
