(* ===== verification/DecimalTextOk.v ===== *)
(** * What the text of a decimal says

    [plainDecimal] is the grammar of a decimal without an exponent; [ToString] writes one with the
    right value, and [PrecScaleFromString] accepts exactly these. *)

From Stdlib Require Import ZArith List Lia Bool.
From S2P Require Import Prelude MathUtil Decimals DecimalLaws DecimalsOk DecimalText.
Import ListNotations.
#[local] Open Scope Z_scope.
#[local] Open Scope go_scope.

(** ** Digits *)

Definition allDigits (ds : list Z) : Prop := forallb isDigit ds = true.

Lemma isDigit_spec c : isDigit c = true <-> 48 <= c <= 57.
Proof. unfold isDigit. destruct (Z.ltb_spec c 48), (Z.ltb_spec 57 c); cbn; lia. Qed.

Lemma digits_app a b : allDigits (a ++ b) <-> allDigits a /\ allDigits b.
Proof. unfold allDigits. rewrite forallb_app. apply andb_true_iff. Qed.

Lemma digits_zeros k : allDigits (repeat 48 k).
Proof. apply forallb_forall. intros x Hx. apply repeat_spec in Hx. now subst x. Qed.

Lemma digitsVal_acc ds : forall a, fold_left (fun a c => 10 * a + (c - 48)) ds a = a * 10 ^ len ds + digitsVal ds.
Proof.
  unfold digitsVal. induction ds as [|c ds IH]; intros a; [cbn; lia|]. cbn [fold_left List.length]. rewrite IH, (IH (10 * 0 + (c - 48))), Nat2Z.inj_succ, Z.pow_succ_r by lia. ring.
Qed.

Lemma digitsVal_app a b : digitsVal (a ++ b) = digitsVal a * 10 ^ len b + digitsVal b.
Proof. unfold digitsVal at 1. rewrite fold_left_app. apply digitsVal_acc. Qed.

Lemma digitsVal_cons c ds : digitsVal (c :: ds) = (c - 48) * 10 ^ len ds + digitsVal ds.
Proof. change (c :: ds) with ([c] ++ ds). rewrite digitsVal_app. unfold digitsVal at 1. cbn [fold_left]. lia. Qed.

Lemma digitsVal_bound ds : allDigits ds -> 0 <= digitsVal ds < 10 ^ len ds.
Proof.
  induction ds as [|c ds IH]; intros H; [cbn; lia|]. unfold allDigits in *. cbn [forallb] in H. apply andb_true_iff in H. destruct H as (Hc & H). apply isDigit_spec in Hc. specialize (IH H). rewrite digitsVal_cons. cbn [List.length]. rewrite Nat2Z.inj_succ, Z.pow_succ_r by lia. pose proof (pow10_pos (len ds)). nia.
Qed.

Lemma digitsVal_zeros k : digitsVal (repeat 48 k) = 0.
Proof. induction k as [|k IH]; [reflexivity|]. cbn [repeat]. rewrite digitsVal_cons, IH. lia. Qed.

(** The text of a natural number: its digits, without a zero in front. *)
Definition numeral (x : Z) (ds : list Z) : Prop := allDigits ds /\ digitsVal ds = x /\ 1 <= len ds /\ (ds = [48] \/ 10 ^ (len ds - 1) <= x).

Lemma digitsLoop_ok fuel : forall x, 0 <= x < 10 ^ Z.of_nat (S fuel) -> exists ds, numeral x ds /\ forall acc, digitsLoop (S fuel) x acc = ds ++ acc.
Proof.
  assert (HB : forall x, 0 <= x < 10 -> numeral x [48 + x]).
  { intros x Hx. unfold numeral, allDigits. cbn [forallb List.length]. splits; [apply andb_true_iff; split; [apply isDigit_spec; lia|reflexivity]|unfold digitsVal; cbn [fold_left]; lia|lia|]. destruct (Z.eq_dec x 0) as [->|]; [left; reflexivity|right; cbn; lia]. }
  induction fuel as [|fuel IH]; intros x Hx.
  - exists [48 + x]. cbn in Hx. split; [apply HB; lia|]. intros acc. cbn [digitsLoop]. destruct (Z.ltb_spec x 10); [reflexivity|lia].
  - destruct (Z.lt_ge_cases x 10) as [Hlt|Hge]; [exists [48 + x]; split; [apply HB; lia|]; intros acc; cbn [digitsLoop]; destruct (Z.ltb_spec x 10); [reflexivity|lia]|].
    pose proof (Z.div_mod x 10 ltac:(lia)) as Hd. pose proof (Z.mod_pos_bound x 10 ltac:(lia)) as Hm. rewrite Nat2Z.inj_succ, Z.pow_succ_r in Hx by lia. destruct (IH (x / 10) ltac:(lia)) as (ds & (H1 & H2 & H3 & H4) & HD). exists (ds ++ [48 + x mod 10]). split.
    + unfold numeral. rewrite length_app. cbn [List.length]. splits; [apply digits_app; split; [assumption|]; unfold allDigits; cbn [forallb]; apply andb_true_iff; split; [apply isDigit_spec; lia|reflexivity]|rewrite digitsVal_app, H2; unfold digitsVal; cbn [fold_left List.length]; change (10 ^ len [48 + x mod 10]) with 10; lia|lia|]. right. destruct H4 as [->|H4]; [cbn in H2; lia|]. replace (Z.of_nat (List.length ds + 1) - 1) with (Z.succ (len ds - 1)) by lia. rewrite Z.pow_succ_r by lia. lia.
    + intros acc. change (digitsLoop (S (S fuel)) x acc) with (if x <? 10 then (48 + x) :: acc else digitsLoop (S fuel) (x / 10) ((48 + x mod 10) :: acc)). destruct (Z.ltb_spec x 10); [lia|]. rewrite HD, <- app_assoc. reflexivity.
Qed.

Lemma digitsOf_ok x : 0 <= x -> numeral x (digitsOf x).
Proof.
  intros Hx. destruct (digitsLoop_ok (Z.to_nat (Z.log2 x)) x) as (ds & HN & HD); [|unfold digitsOf; rewrite HD, app_nil_r; exact HN]. split; [assumption|]. rewrite Nat2Z.inj_succ, Z2Nat.id by apply Z.log2_nonneg. destruct (Z.eq_dec x 0) as [->|]; [cbn; lia|]. pose proof (Z.log2_spec x ltac:(lia)) as HL. pose proof (Z.pow_le_mono_l 2 10 (Z.succ (Z.log2 x)) ltac:(lia)). lia.
Qed.

(** ** The grammar *)

Definition fractOf (fr : option (list Z)) : list Z := match fr with Some f => f | None => [] end.

(** An optional sign, digits, and optionally a dot and digits; at least one digit in all. *)
Definition plainDecimal (sg w : list Z) (fr : option (list Z)) (s : list Z) : Prop :=
  s = sg ++ w ++ match fr with Some f => 46 :: f | None => [] end /\ (sg = [] \/ sg = [45] \/ sg = [43]) /\ allDigits w /\ allDigits (fractOf fr) /\ w ++ fractOf fr <> [].

(** Its value without the dot. *)
Definition plainValue (sg w : list Z) (fr : option (list Z)) : Z := let x := digitsVal (w ++ fractOf fr) in if bytes_eqb sg [45] then - x else x.

Lemma digitRun_app w r : allDigits w -> match r with c :: _ => isDigit c = false | [] => True end -> parseDigitsRun (w ++ r) = (w, r).
Proof.
  intros Hw Hr. induction w as [|c w IH]; cbn [app parseDigitsRun]; [destruct r as [|c r]; [reflexivity|]; cbn [parseDigitsRun]; now rewrite Hr|]. unfold allDigits in Hw. cbn [forallb] in Hw. apply andb_true_iff in Hw. destruct Hw as (Hc & Hw). rewrite Hc, (IH Hw). reflexivity.
Qed.

Lemma run_spec s : s = fst (parseDigitsRun s) ++ snd (parseDigitsRun s) /\ allDigits (fst (parseDigitsRun s)).
Proof.
  induction s as [|c s IH]; cbn [parseDigitsRun]; [split; reflexivity|]. destruct (isDigit c) eqn:E; cbn [fst snd app]; [|split; reflexivity]. destruct IH as (H1 & H2). split; [now f_equal|]. unfold allDigits in *. cbn [forallb]. now rewrite E, H2.
Qed.

Lemma sign_not_digit c : isSign c = true -> isDigit c = false /\ isDot c = false.
Proof. unfold isSign, isDigit, isDot. intros H. apply orb_true_iff in H. destruct H as [H|H]; apply Z.eqb_eq in H; subst c; split; reflexivity. Qed.

(** Without its sign. *)
Definition afterSign (s : list Z) : list Z := match s with c :: s' => if isSign c then s' else s | [] => [] end.

Lemma plain_sign sg w fr s : plainDecimal sg w fr s -> s <> [] /\ afterSign s = w ++ match fr with Some f => 46 :: f | None => [] end.
Proof.
  intros (-> & Hsg & Hw & Hf & Hne). destruct Hsg as [-> | [-> | ->]]; [|split; [discriminate|reflexivity]..]. cbn [app]. destruct w as [|c w].
  - cbn [app fractOf] in *. destruct fr as [f|]; [split; [discriminate|reflexivity]|now elim Hne].
  - split; [discriminate|]. cbn [app afterSign]. destruct (isSign c) eqn:E; [|reflexivity]. apply sign_not_digit in E. unfold allDigits in Hw. cbn [forallb] in Hw. destruct E as (E & _). rewrite E in Hw. discriminate.
Qed.

(** [parseDecimalComponents] after the sign. *)
Definition componentsOf (sg : Z) (s : list Z) : decComponents * bool :=
  let w := parseDigitsRun s in
  let whole := fst w in
  match snd w with
  | [] => (mkComponents whole [] 0 sg false, negb (len whole =? 0))
  | c :: s' =>
      let f := if isDot c then parseDigitsRun s' else ([], c :: s') in
      let fract := fst f in
      let d := mkComponents whole fract 0 sg false in
      if (len whole =? 0) && (len fract =? 0) then (d, false)
      else
        match snd f with
        | [] => (d, true)
        | c :: s' =>
            if startsExponent c then
              let s := match s' with c :: s'' => if c =? 43 then s'' else s' | [] => s' end in
              match Atoi s with
              | None => (mkComponents whole fract 0 sg true, false)
              | Some e => (mkComponents whole fract (i32 e) sg true, len s =? 0)
              end
            else (d, len (c :: s') =? 0)
        end
  end.

Lemma components_sign s : s <> [] -> exists sg, parseDecimalComponents s = componentsOf sg (afterSign s).
Proof. intros H. destruct s as [|c s]; [congruence|]. exists (if isSign c then c else 0). reflexivity. Qed.

Lemma len_zero {A} (l : list A) : (len l =? 0) = true <-> l = [].
Proof. destruct l; cbn [List.length]; [split; reflexivity|]. split; [intros H; apply Z.eqb_eq in H; lia|discriminate]. Qed.

Lemma components_plain sg w fr : allDigits w -> allDigits (fractOf fr) -> w ++ fractOf fr <> [] -> componentsOf sg (w ++ match fr with Some f => 46 :: f | None => [] end) = (mkComponents w (fractOf fr) 0 sg false, true).
Proof.
  intros Hw Hf Hne. unfold componentsOf. rewrite digitRun_app by (assumption || (destruct fr; [reflexivity|exact I])). cbn [fst snd]. destruct fr as [f|]; cbn [fractOf] in *.
  - cbn [isDot Z.eqb Pos.eqb]. rewrite <- (app_nil_r f), digitRun_app by (assumption || exact I). rewrite app_nil_r. cbn [fst snd]. destruct (len w =? 0) eqn:E1, (len f =? 0) eqn:E2; cbn [andb]; try reflexivity. apply len_zero in E1, E2. subst. now elim Hne.
  - rewrite app_nil_r in Hne. destruct (len w =? 0) eqn:E; [apply len_zero in E; congruence|reflexivity].
Qed.

(** An exponent is never accepted: its digits are read, but not taken from the text. *)
Lemma components_valid sg s d : componentsOf sg s = (d, true) -> exists fr, s = wholeDigits d ++ match fr with Some f => 46 :: f | None => [] end /\ allDigits (wholeDigits d) /\ allDigits (fractOf fr) /\ wholeDigits d ++ fractOf fr <> [] /\ fractDigits d = fractOf fr /\ hasExponent d = false.
Proof.
  unfold componentsOf. destruct (run_spec s) as (Hs & Hw). destruct (parseDigitsRun s) as [w r]. cbn [fst snd] in *. destruct r as [|c r].
  - intros H. destruct (len w =? 0) eqn:E; [discriminate|]. injection H as <-. exists None. cbn [wholeDigits fractDigits hasExponent fractOf]. rewrite app_nil_r in *. splits; try assumption; try reflexivity. intros ->. discriminate.
  - destruct (isDot c) eqn:Ed; [apply Z.eqb_eq in Ed; subst c; destruct (run_spec r) as (Hr & Hf); destruct (parseDigitsRun r) as [f r'] eqn:Er|]; cbn [fst snd] in *.
    + destruct ((len w =? 0) && (len f =? 0)) eqn:E; [discriminate|]. destruct r' as [|c' r'].
      * intros H. injection H as <-. exists (Some f). cbn [wholeDigits fractDigits hasExponent fractOf]. rewrite app_nil_r in Hr. splits; try assumption; try reflexivity; [now subst r|]. intros H. apply app_eq_nil in H. destruct H as (-> & ->). discriminate.
      * destruct (startsExponent c'); [|discriminate]. match goal with |- context [Atoi ?x] => destruct (Atoi x) as [e|] eqn:EA; [|discriminate]; destruct (len x =? 0) eqn:EL end; [|discriminate]. apply len_zero in EL. rewrite EL in EA. discriminate.
    + rewrite andb_true_r. destruct (len w =? 0); [discriminate|]. destruct (startsExponent c); [|discriminate]. match goal with |- context [Atoi ?x] => destruct (Atoi x) as [e|] eqn:EA; [|discriminate]; destruct (len x =? 0) eqn:EL end; [|discriminate]. apply len_zero in EL. rewrite EL in EA. discriminate.
Qed.

(** ** ToString *)

Definition signOf (v : Z) : list Z := if v <? 0 then [45] else [].

Lemma bigString_sign v : bigString v = signOf v ++ digitsOf (Z.abs v).
Proof. unfold bigString, signOf. destruct (Z.ltb_spec v 0); [now rewrite Z.abs_neq by lia|now rewrite Z.abs_eq by lia]. Qed.

Lemma signOf_plain v : signOf v = [] \/ signOf v = [45] \/ signOf v = [43].
Proof. unfold signOf. destruct (v <? 0); auto. Qed.

Lemma signOf_value v x : (if bytes_eqb (signOf v) [45] then - (Z.abs v * x) else Z.abs v * x) = v * x.
Proof. unfold signOf. destruct (Z.ltb_spec v 0); [change (bytes_eqb [45] [45]) with true|change (bytes_eqb [] [45]) with false]; cbv iota; [rewrite Z.abs_neq by lia; ring|now rewrite Z.abs_eq by lia]. Qed.

(** The first character tells the sign. *)
Lemma first_char v : exists c, index (bigString v) 0 = Some c /\ (c =? 45) = (v <? 0).
Proof.
  pose proof (digitsOf_ok (Z.abs v) ltac:(lia)) as (HD & _ & HL & _). rewrite bigString_sign. unfold signOf. destruct (Z.ltb_spec v 0); [exists 45; split; reflexivity|]. cbn [app]. destruct (digitsOf (Z.abs v)) as [|c ds]; [cbn in HL; lia|]. exists c. split; [reflexivity|]. unfold allDigits in HD. cbn [forallb] in HD. apply andb_true_iff in HD. destruct HD as (Hc & _). apply isDigit_spec in Hc. apply Z.eqb_neq. lia.
Qed.

Lemma digits_fit v P : 1 <= P -> Z.abs v < 10 ^ P -> len (digitsOf (Z.abs v)) <= P.
Proof.
  intros HP Hv. pose proof (digitsOf_ok (Z.abs v) ltac:(lia)) as (_ & _ & HL & [->|H]); [cbn; lia|]. assert (10 ^ (len (digitsOf (Z.abs v)) - 1) < 10 ^ P) as HX by lia. apply Z.pow_lt_mono_r_iff in HX; lia.
Qed.

Lemma toString_ok M P text v scale : - M <= scale <= M -> 1 <= P -> Z.abs v < 10 ^ P ->
  exists s sg w fr, toString M P text v scale = Some s /\ plainDecimal sg w fr s /\ len (fractOf fr) = Z.max 0 scale /\ plainValue sg w fr = v * 10 ^ Z.max 0 (- scale) /\ len s <= M + P + 3.
Proof.
  intros Hs HP Hv. assert (HSg : len (signOf v) <= 1) by (unfold signOf; destruct (v <? 0); cbn; lia). unfold toString. replace ((scale <? - M) || (M <? scale)) with false by (symmetry; apply orb_false_iff; split; apply Z.ltb_ge; lia). destruct (first_char v) as (c & -> & Hc). cbn [opt_bind]. rewrite Hc. pose proof (digits_fit v P HP Hv) as HF. pose proof (digitsOf_ok (Z.abs v) ltac:(lia)) as (HD & HV & HL & HN). rewrite bigString_sign. set (ds := digitsOf (Z.abs v)) in *. rewrite length_app.
  assert (Hdig : (if v <? 0 then Z.of_nat (List.length (signOf v) + List.length ds) - 1 else Z.of_nat (List.length (signOf v) + List.length ds)) = len ds) by (unfold signOf; destruct (v <? 0); cbn [List.length]; lia). rewrite Hdig. destruct (Z.ltb_spec P (len ds)); [lia|]. destruct (Z.leb_spec scale 0) as [Hle|Hgt].
  - set (z := if (scale <? 0) && negb (bytes_eqb (signOf v ++ ds) [48]) then repeat 48 (Z.to_nat (- scale)) else []). exists (signOf v ++ ds ++ z), (signOf v), (ds ++ z), None. splits.
    + subst z. destruct ((scale <? 0) && negb (bytes_eqb (signOf v ++ ds) [48])); [now rewrite <- app_assoc|now rewrite app_nil_r].
    + unfold plainDecimal. cbn [fractOf]. rewrite !app_nil_r. splits; [reflexivity|apply signOf_plain|apply digits_app; split; [assumption|]; subst z; destruct ((scale <? 0) && _); [apply digits_zeros|reflexivity]|reflexivity|]. intros HE. apply app_eq_nil in HE. destruct HE as (HE & _). rewrite HE in HL. cbn in HL. lia.
    + cbn. lia.
    + unfold plainValue. cbn [fractOf]. rewrite app_nil_r, digitsVal_app, HV. rewrite <- (signOf_value v (10 ^ Z.max 0 (- scale))). assert (HZ : Z.abs v * 10 ^ len z + digitsVal z = Z.abs v * 10 ^ Z.max 0 (- scale)); [|now rewrite HZ]. subst z. destruct (Z.ltb_spec scale 0) as [Hneg|Hz]; cbn [andb].
      * unfold bytes_eqb. destruct (list_eq_dec Z.eq_dec (signOf v ++ ds) [48]) as [HE|HE]; cbn [negb]; [|rewrite digitsVal_zeros, repeat_length; rewrite Z2Nat.id, Z.max_r by lia; lia]. assert (H0 : v = 0); [|subst v; rewrite Z.mul_0_l; reflexivity]. unfold signOf in HE. destruct (v <? 0); [discriminate|]. cbn [app] in HE. rewrite HE in HV. cbn in HV. lia.
      * rewrite Z.max_l by lia. cbn. lia.
    + assert (len z <= M) by (subst z; destruct ((scale <? 0) && _); [rewrite repeat_length|cbn]; lia). rewrite !length_app. lia.
  - assert (HS : (if v <? 0 then slice (signOf v ++ ds) 1 (Z.of_nat (List.length (signOf v) + List.length ds)) else Some (signOf v ++ ds)) = Some ds).
    { unfold signOf. destruct (v <? 0); [|reflexivity]. cbn [List.length]. rewrite slice_ok by (cbn [app List.length]; lia). change (Z.to_nat 1) with 1%nat. cbn [app skipn]. rewrite firstn_all2 by lia. reflexivity. }
    rewrite HS. cbn [opt_bind].
    assert (HR : forall w f, allDigits w -> allDigits f -> w <> [] -> len f = scale -> digitsVal (w ++ f) = Z.abs v -> len w + len f <= M + P + 1 ->
      exists s sg w' fr, Some (if v <? 0 then [45] ++ w ++ [46] ++ f else w ++ [46] ++ f) = Some s /\ plainDecimal sg w' fr s /\ len (fractOf fr) = Z.max 0 scale /\ plainValue sg w' fr = v * 10 ^ Z.max 0 (- scale) /\ len s <= M + P + 3).
    { intros w f Hw Hf Hne Hlf Hval Hlen. exists (signOf v ++ w ++ [46] ++ f), (signOf v), w, (Some f). splits; [unfold signOf; destruct (v <? 0); reflexivity| |cbn [fractOf]; lia| |rewrite !length_app; cbn [List.length]; lia].
      - unfold plainDecimal. cbn [fractOf]. splits; try assumption; [reflexivity|apply signOf_plain|]. intros HE. apply app_eq_nil in HE. now apply Hne.
      - unfold plainValue. cbn [fractOf]. rewrite Hval, Z.max_l, Z.pow_0_r by lia. rewrite <- (signOf_value v 1), Z.mul_1_r. reflexivity. }
    destruct (Z.leb_spec (len ds) scale) as [Hsm|Hlg].
    + cbn [opt_bind]. change ([48; 46] ++ repeat 48 (Z.to_nat (scale - len ds)) ++ ds) with ([48] ++ [46] ++ repeat 48 (Z.to_nat (scale - len ds)) ++ ds). apply HR; [reflexivity|apply digits_app; split; [apply digits_zeros|assumption]|discriminate|rewrite length_app, repeat_length; lia| |cbn [List.length]; rewrite length_app, repeat_length; lia]. change ([48] ++ repeat 48 (Z.to_nat (scale - len ds)) ++ ds) with (repeat 48 (S (Z.to_nat (scale - len ds))) ++ ds). rewrite digitsVal_app, digitsVal_zeros. lia.
    + rewrite !slice_ok by lia. cbn [opt_bind]. change (Z.to_nat 0) with 0%nat. rewrite skipn_O, Z.sub_0_r. set (k := Z.to_nat (len ds - scale)). rewrite (firstn_all2 (skipn k ds)) by (rewrite length_skipn; lia). pose proof (firstn_skipn k ds) as HE. rewrite <- HE in HD. apply digits_app in HD. apply HR; [apply HD|apply HD| |rewrite length_skipn; lia|now rewrite HE|rewrite length_firstn, length_skipn; lia]. intros H0. apply (f_equal (@List.length _)) in H0. rewrite length_firstn in H0. cbn [List.length] in H0. lia.
Qed.

(** ** PrecScaleFromString *)

Lemma trim_val w f : digitsVal (trimZeros w ++ f) = digitsVal (w ++ f).
Proof. induction w as [|c w IH]; [reflexivity|]. cbn [trimZeros]. destruct (Z.eqb_spec c 48) as [->|]; [|reflexivity]. rewrite IH. cbn [app]. rewrite digitsVal_cons. lia. Qed.

Lemma trim_digits w : allDigits w -> allDigits (trimZeros w) /\ len (trimZeros w) <= len w.
Proof. induction w as [|c w IH]; intros H; [split; [reflexivity|cbn; lia]|]. cbn [trimZeros]. destruct (c =? 48); [|split; [assumption|lia]]. unfold allDigits in *. cbn [forallb] in H. apply andb_true_iff in H. destruct (IH (proj2 H)). split; [assumption|]. cbn [List.length]. lia. Qed.

(** Without its zeros in front a run of digits is as long as its value says. *)
Lemma trim_low w f : allDigits w -> allDigits f -> trimZeros w = [] \/ 10 ^ (len (trimZeros w) + len f - 1) <= digitsVal (w ++ f).
Proof.
  intros Hw Hf. destruct (trim_digits w Hw) as (Ht & _). rewrite <- trim_val. assert (HH : trimZeros w = [] \/ exists c t, trimZeros w = c :: t /\ c <> 48) by (clear; induction w as [|c w IH]; [left; reflexivity|]; cbn [trimZeros]; destruct (Z.eqb_spec c 48); [assumption|right; eauto]). destruct HH as [H|(c & t & E & Hc)]; [now left|right]. rewrite E in *. unfold allDigits in Ht. cbn [forallb] in Ht. apply andb_true_iff in Ht. destruct Ht as (Hd & Ht). apply isDigit_spec in Hd.
  cbn [app]. rewrite digitsVal_cons. pose proof (digitsVal_bound (t ++ f) (proj2 (digits_app t f) (conj Ht Hf))) as HB. cbn [List.length]. replace (Z.of_nat (S (List.length t)) + len f - 1) with (len (t ++ f)) by (rewrite length_app; lia). pose proof (pow10_pos (len (t ++ f))). nia.
Qed.

Lemma prec_plain sg w fr s : plainDecimal sg w fr s -> len s < 2 ^ 31 -> PrecScaleFromString s = inl (len (fractOf fr) + len (trimZeros w), len (fractOf fr)).
Proof.
  intros HP HL. destruct (plain_sign sg w fr s HP) as (Hne & HA). destruct HP as (Hs & Hsg & Hw & Hf & Hd). unfold PrecScaleFromString. destruct (len s =? 0) eqn:E; [apply len_zero in E; congruence|]. destruct (components_sign s Hne) as (c & ->). rewrite HA, components_plain by assumption. cbn [fst snd negb wholeDigits fractDigits hasExponent]. destruct (trim_digits w Hw) as (_ & Ht).
  assert (HB : len w + len (fractOf fr) <= len s) by (rewrite Hs, !length_app; destruct fr; cbn [fractOf List.length]; lia). rewrite !i32_small by lia. reflexivity.
Qed.

(** The precision that is found is the least with which the number fits at its scale. *)
Lemma prec_value sg w fr s : plainDecimal sg w fr s -> let p := len (fractOf fr) + len (trimZeros w) in
  Z.abs (plainValue sg w fr) < 10 ^ p /\ (len (fractOf fr) < p -> 10 ^ (p - 1) <= Z.abs (plainValue sg w fr)).
Proof.
  intros (_ & _ & Hw & Hf & _) p. destruct (trim_digits w Hw) as (Ht & _). assert (HV : Z.abs (plainValue sg w fr) = digitsVal (trimZeros w ++ fractOf fr)) by (unfold plainValue; rewrite trim_val; pose proof (digitsVal_bound (w ++ fractOf fr) (proj2 (digits_app _ _) (conj Hw Hf))); destruct (bytes_eqb sg [45]); lia). rewrite HV. pose proof (digitsVal_bound _ (proj2 (digits_app _ _) (conj Ht Hf))) as HB. rewrite length_app in HB. subst p. split; [replace (len (fractOf fr) + len (trimZeros w)) with (Z.of_nat (List.length (trimZeros w) + List.length (fractOf fr))) by lia; lia|].
  intros Hlt. rewrite trim_val. destruct (trim_low w (fractOf fr) Hw Hf) as [H|H]; [rewrite H in Hlt; cbn in Hlt; lia|]. now replace (len (fractOf fr) + len (trimZeros w) - 1) with (len (trimZeros w) + len (fractOf fr) - 1) by lia.
Qed.
