(* ===== verification/DecimalClaims.v ===== *)
(** * Claims about decimals

    Proved against the interface [Num] for all four types at once; the text of decimals for the two
    types that write it without floating point. *)

From Stdlib Require Import ZArith List Lia Bool.
From S2P Require Import Prelude MathUtil Decimals DecimalLaws DecimalsOk Decimal128Ok Decimal256Ok DecimalText DecimalTextOk.
Import ListNotations.
#[local] Open Scope Z_scope.
#[local] Open Scope go_scope.

(** ** The four types *)

Definition width (k : decKind) : Z := match k with Decimal32 => 32 | Decimal64 => 64 | Decimal128 => 128 | Decimal256 => 256 end.

Definition maxPrec (k : decKind) : Z := match k with Decimal32 => 9 | Decimal64 => 18 | Decimal128 => 38 | Decimal256 => 76 end.

(** How far [Rescale] and [ReduceScaleBy] are right; for Decimal64 not as far as its precision. *)
Definition maxStep (k : decKind) : Z := match k with Decimal32 => 9 | Decimal64 => 9 | Decimal128 => 38 | Decimal256 => 76 end.

Definition valid (k : decKind) : numOf k -> Prop := match k with Decimal32 => inS 32 | Decimal64 => inS 64 | Decimal128 => valid128 | Decimal256 => valid256 end.

Definition val (k : decKind) : numOf k -> Z := match k with Decimal32 => fun n => n | Decimal64 => fun n => n | Decimal128 => val128 | Decimal256 => val256 end.

#[export] Instance kindLaws (k : decKind) : DecLaws (numOf k) (kindNum k) (width k) (maxPrec k) (maxStep k) (valid k) (val k).
Proof. destruct k; [exact (dwLaws 32 (or_introl eq_refl))|exact (dwLaws 64 (or_intror eq_refl))|exact d128Laws|exact d256Laws]. Qed.

Lemma width_1 k : 1 <= width k.
Proof. destruct k; cbn; lia. Qed.

Lemma maxStep_le k : 0 <= maxStep k <= maxPrec k.
Proof. destruct k; cbn; lia. Qed.

(** The powers of ten up to the greatest precision fit. *)
Lemma pow10_fits k p : 0 <= p <= maxPrec k -> 0 < 10 ^ p < 2 ^ (width k - 1).
Proof. intros Hp. split; [apply pow10_pos; lia|]. apply Z.le_lt_trans with (10 ^ maxPrec k); [apply Z.pow_le_mono_r; lia|destruct k; vm_compute; reflexivity]. Qed.

(** ** Claims *)

(** C24: arithmetic of the four decimal types.  [Negate], [Add] and [Sub] are those of the integers
    modulo 2^w, so exact unless the result leaves the type; [Mul] is exact when the product fits;
    [Div] truncates and panics only for a divisor of zero (or, which the hypothesis leaves out, for
    the least number); [Cmp] and [Sign] are those of the integers. *)
Theorem decimal_arithmetic k (a b : numOf k) : valid k a -> valid k b ->
  (valid k (Negate a) /\ val k (Negate a) = wrapS (width k) (- val k a)) /\
  (valid k (Add a b) /\ val k (Add a b) = wrapS (width k) (val k a + val k b)) /\
  (valid k (Sub a b) /\ val k (Sub a b) = wrapS (width k) (val k a - val k b)) /\
  (Z.abs (val k a * val k b) < 2 ^ (width k - 1) -> exists c, Mul a b = Some c /\ valid k c /\ val k c = val k a * val k b) /\
  (val k b = 0 -> Div a b = None) /\
  (val k b <> 0 -> - 2 ^ (width k - 1) < val k a -> exists q r, Div a b = Some (q, r) /\ valid k q /\ valid k r /\ val k a = val k q * val k b + val k r /\ Z.abs (val k r) < Z.abs (val k b) /\ 0 <= val k r * val k a) /\
  Cmp a b = cmpZ (val k a) (val k b) /\ Sign a = Z.sgn (val k a).
Proof.
  intros Ha Hb. split; [exact (law_neg a Ha)|]. split; [exact (law_add a b Ha Hb)|]. split; [exact (law_sub a b Ha Hb)|]. split; [exact (law_mul a b Ha Hb)|]. split; [exact (law_div_zero a b Ha Hb)|]. split; [|split; [exact (law_cmp a b Ha Hb)|exact (law_sign a Ha)]].
  intros H0 Hm. destruct (law_div a b Ha Hb Hm H0) as (q & r & HD & Vq & Vr & Eq & Er). exists q, r. rewrite Eq, Er. splits; try assumption; [rewrite Z.mul_comm; apply Z.quot_rem; assumption|apply Z.rem_bound_abs; assumption|]. apply Z.rem_sign_mul. assumption.
Qed.

(** C7: what [Rescale] gives without an error is exact, and whenever the exact result is a number
    of the type (apart from the least one) it is given without an error: up to 9 places for
    Decimal32 and Decimal64, up to the greatest scale for decimal128 and decimal256. *)
Theorem rescale_correct k (n : numOf k) o s : valid k n -> Z.abs (s - o) <= maxStep k ->
  (forall m, Rescale n o s = Some (m, None) -> valid k m /\ val k m * 10 ^ Z.max 0 (o - s) = val k n * 10 ^ Z.max 0 (s - o)) /\
  (forall v, Z.abs v < 2 ^ (width k - 1) -> v * 10 ^ Z.max 0 (o - s) = val k n * 10 ^ Z.max 0 (s - o) -> exists m, Rescale n o s = Some (m, None) /\ valid k m /\ val k m = v).
Proof.
  intros Hn Hd. destruct (Z.lt_trichotomy o s) as [Hlt|[->|Hgt]].
  - assert (HS : 0 < s - o <= maxStep k) by lia. rewrite (Z.max_l 0 (o - s)), (Z.max_r 0 (s - o)), Z.pow_0_r by lia. split.
    + intros m HR. destruct (Z.lt_ge_cases (Z.abs (val k n * 10 ^ (s - o))) (2 ^ (width k - 1))) as [Hf|Hf]; [|exfalso; now apply (law_over n o s Hn HS Hf m)]. destruct (law_up n o s Hn HS Hf) as (m' & HR' & Vm & Em). rewrite HR in HR'. injection HR' as <-. split; [assumption|lia].
    + intros v Hv HE. rewrite Z.mul_1_r in HE. subst v. exact (law_up n o s Hn HS Hv).
  - rewrite Z.sub_diag, Z.max_id, Z.pow_0_r. rewrite (law_same n s Hn). split; [intros m H; injection H as <-; split; [assumption|reflexivity]|]. intros v _ HE. exists n. splits; [reflexivity|assumption|lia].
  - assert (HS : 0 < o - s <= maxStep k) by lia. rewrite (Z.max_r 0 (o - s)), (Z.max_l 0 (s - o)), Z.pow_0_r by lia. destruct (law_down n o s Hn HS) as (q & -> & Vq & Eq). pose proof (pow10_pos (o - s) ltac:(lia)) as Hp. pose proof (Z.quot_rem (val k n) (10 ^ (o - s)) ltac:(lia)) as HQ. rewrite <- Eq in HQ. split.
    + intros m HR. destruct (Z.eqb_spec (Z.rem (val k n) (10 ^ (o - s))) 0) as [E|E]; [|discriminate]. injection HR as <-. split; [assumption|lia].
    + intros v Hv HE. rewrite Z.mul_1_r in HE. rewrite <- HE in *. rewrite Z.rem_mul by lia. exists q. splits; [reflexivity|assumption|]. rewrite Eq. apply Z.quot_mul. lia.
Qed.

(** A decimal whose scale is increased comes back unchanged when it is reduced again, by
    [Rescale] in both directions and by [IncreaseScaleBy] and [ReduceScaleBy], rounding or not,
    whenever the larger number fits. *)
Theorem rescale_roundtrip k (n : numOf k) o d : valid k n -> 0 < d <= maxStep k -> Z.abs (val k n * 10 ^ d) < 2 ^ (width k - 1) ->
  exists m, Rescale n o (o + d) = Some (m, None) /\ Rescale m (o + d) o = Some (n, None) /\ IncreaseScaleBy n d = Some m /\ forall round, ReduceScaleBy m d round = Some n.
Proof.
  intros Hn Hd Hf. pose proof (maxStep_le k) as HS. pose proof (pow10_pos d ltac:(lia)) as Hp. assert (Ed : o + d - o = d) by lia. assert (HU : 0 < o + d - o <= maxStep k) by lia. assert (HI : 0 <= d <= maxPrec k) by lia. assert (HR : 0 <= d <= maxStep k) by lia. assert (Hf' : Z.abs (val k n * 10 ^ (o + d - o)) < 2 ^ (width k - 1)) by now rewrite Ed. destruct (law_up n o (o + d) Hn HU Hf') as (m & HUp & Vm & Em). rewrite Ed in Em. exists m. split; [assumption|]. destruct (law_increase n d Hn HI Hf) as (m' & HInc & Vm' & Em'). assert (m' = m) as -> by (apply (law_inj m' m Vm' Vm); congruence).
  destruct (law_down m (o + d) o Vm HU) as (q & HD & Vq & Eq). rewrite Ed, Em in *. rewrite Z.quot_mul in Eq by lia. rewrite Z.rem_mul in HD by lia. rewrite (law_inj q n Vq Hn Eq) in HD. splits; [exact HD|exact HInc|].
  intros round. destruct (law_reduce m d round Vm HR) as (r & HRed & Vr & Er). rewrite HRed. f_equal. apply (law_inj r n Vr Hn). rewrite Er, Em. rewrite round_quot, Z.quot_mul by lia. rewrite Z.abs_mul, (Z.abs_eq (10 ^ d)), Z.mod_mul by lia. destruct round; [|reflexivity]. destruct (Z.ltb_spec (2 * 0) (10 ^ d)); [reflexivity|lia].
Qed.

(** C25: [ReduceScaleBy] without rounding truncates towards zero; with rounding it gives the nearest
    number and, between two, the one away from zero: up to 9 places for Decimal32 and Decimal64 (a
    larger step of a Decimal64 goes wrong), up to the greatest scale for decimal128 and decimal256. *)
Theorem reduce_scale_correct k (n : numOf k) d : valid k n -> 0 <= d <= maxStep k ->
  exists t r, ReduceScaleBy n d false = Some t /\ valid k t /\ ReduceScaleBy n d true = Some r /\ valid k r /\
    (Z.abs (val k t) * 10 ^ d <= Z.abs (val k n) < (Z.abs (val k t) + 1) * 10 ^ d /\ 0 <= val k t * val k n) /\
    2 * Z.abs (val k r * 10 ^ d - val k n) <= 10 ^ d /\
    (2 * Z.abs (val k r * 10 ^ d - val k n) = 10 ^ d -> Z.abs (val k n) < Z.abs (val k r * 10 ^ d)).
Proof.
  intros Hn Hd. destruct (law_reduce n d false Hn Hd) as (t & HT & Vt & Et). destruct (law_reduce n d true Hn Hd) as (r & HR & Vr & Er). exists t, r. pose proof (pow10_pos d ltac:(lia)) as Hp. set (v := val k n) in *. set (D := 10 ^ d) in *. split; [assumption|]. split; [assumption|]. split; [assumption|]. split; [assumption|]. rewrite Et, Er. clear - Hp. split.
  - rewrite quot_sgn by assumption. pose proof (Z.div_mod (Z.abs v) D ltac:(lia)) as HD. pose proof (Z.mod_pos_bound (Z.abs v) D Hp) as HM. pose proof (Z.div_pos (Z.abs v) D ltac:(lia) Hp) as HQ. rewrite Z.abs_mul, (Z.abs_eq (Z.abs v / D)) by assumption. destruct v; cbn [Z.sgn Z.abs] in *; nia.
  - unfold roundHalf. pose proof (Z.div_mod (2 * Z.abs v + D) (2 * D) ltac:(lia)) as HD. pose proof (Z.mod_pos_bound (2 * Z.abs v + D) (2 * D) ltac:(lia)) as HM. set (h := (2 * Z.abs v + D) / (2 * D)) in *. assert (Hh : 0 <= h) by (apply Z.div_pos; lia). destruct (Z.eq_dec v 0) as [H0|H0]; [assert (h = 0) by (subst h; rewrite H0; apply Z.div_small; cbn [Z.abs]; lia); rewrite H0; cbn [Z.sgn]; lia|].
    replace (Z.sgn v * h * D - v) with (Z.sgn v * (h * D - Z.abs v)) by (destruct v; cbn [Z.sgn Z.abs]; lia). rewrite !Z.abs_mul. replace (Z.abs (Z.sgn v)) with 1 by (destruct v; cbn; lia). rewrite (Z.abs_eq h), (Z.abs_eq D) by lia. lia.
Qed.

(** C35: [FitsInPrecision] compares the absolute value with the power of ten of the precision, for
    every number but the least of its type: its absolute value wraps to itself, so that it is said
    to fit in every precision. *)
Theorem fits_in_precision k (n : numOf k) p : valid k n -> 0 < p <= maxPrec k ->
  FitsInPrecision n p = Some ((Z.abs (val k n) <? 10 ^ p) || (val k n =? - 2 ^ (width k - 1))).
Proof.
  intros Hn Hp. assert (Hp' : 0 <= p <= maxPrec k) by lia. rewrite (law_fits n p Hn Hp'). f_equal. pose proof (law_in n Hn) as HI. unfold inS in HI. pose proof (pow10_fits k p Hp') as HP. destruct (Z.eqb_spec (val k n) (- 2 ^ (width k - 1))) as [E|E].
  - rewrite orb_true_r. apply Z.ltb_lt. rewrite E. assert (wrapS (width k) (Z.abs (- 2 ^ (width k - 1))) = - 2 ^ (width k - 1)) as -> by (apply wrapS_unique; [apply width_1|unfold inS; lia|]; exists (-1); pose proof (half_pow (width k) (width_1 k)); lia). lia.
  - rewrite orb_false_r, wrapS_abs by (try apply width_1; lia). reflexivity.
Qed.

(** [intPow], by squaring, ends for every exponent that is not negative, with the power modulo
    2^w; for a negative exponent the loop never ends, as the exponent is shifted to -1 and stays. *)
Theorem int_pow_loop tw base exp : 2 <= tw ->
  (0 <= exp < 2 ^ (tw - 1) -> intPow tw base exp = Some (wrapS tw (base ^ exp))) /\
  (exp < 0 -> forall fuel, intPowLoop tw fuel base exp 1 = None).
Proof.
  intros Htw. split; [intros He; apply intPow_ok; [assumption|]; pose proof (half_pow tw ltac:(lia)); lia|]. intros He fuel. now apply intPowLoop_negative.
Qed.

(** [Rescale] to a larger scale multiplies by the wrapped power, or reports an error. *)
Lemma step64_up n o d : inS 64 n -> n <> 0 -> 10 <= d <= 18 ->
  (forall m, DW.Rescale 64 n o (o + d) = Some (m, None) -> m = n * power32 d /\ m <> n * 10 ^ d) /\
  ((exists m, DW.Rescale 64 n o (o + d) = Some (m, None)) <-> 0 < power32 d /\ Z.abs (n * power32 d) < 2 ^ 63).
Proof.
  intros Hn H0 Hd. destruct (power32_table d Hd) as (HB & HT & _ & HI & _). assert (Ed : o + d - o = d) by lia. destruct (Z.lt_ge_cases 0 (power32 d)) as [Hp|Hp].
  - destruct (dw_up_by 64 (or_intror eq_refl) n o (o + d) (power32 d) Hn) as (r & HR & HV); rewrite ?Ed; [lia|assumption|lia|]. change (64 - 1) with 63 in *. rewrite HR. destruct (Z.leb_spec (2 ^ 63) (Z.abs (n * power32 d))) as [Hf|Hf]; (split; [|split]).
    + discriminate.
    + intros (m & Hm). discriminate.
    + lia.
    + intros m Hm. injection Hm as <-. rewrite (HV Hf). split; [reflexivity|]. intros E. apply Z.mul_reg_l in E; lia.
    + auto.
    + exists r. reflexivity.
  - destruct (dw64_up_neg n o d Hn H0 ltac:(lia) HI ltac:(lia)) as (r & ->). split; [discriminate|]. split; [intros (m & Hm); discriminate|lia].
Qed.

(** [Rescale] to a smaller scale divides by it, or reports an error. *)
Lemma step64_down n o d m : inS 64 n -> n <> 0 -> 10 <= d <= 18 -> DW.Rescale 64 n (o + d) o = Some (m, None) -> m * power32 d = n /\ m * 10 ^ d <> n.
Proof.
  intros Hn H0 Hd HR. destruct (power32_table d Hd) as (HB & HT & _ & HI & _). assert (Ed : o + d - o = d) by lia. destruct (Z.lt_ge_cases 0 (power32 d)) as [Hp|Hp].
  - rewrite (dw_down_by 64 (or_intror eq_refl) n (o + d) o (power32 d)) in HR by (rewrite ?Ed; (assumption || lia)). pose proof (Z.quot_rem n (power32 d) ltac:(lia)) as HQ. destruct (Z.eqb_spec (Z.rem n (power32 d)) 0) as [E|E]; [|discriminate]. injection HR as <-. assert (HM : Z.quot n (power32 d) * power32 d = n) by lia. split; [assumption|]. intros HE. rewrite <- HE in HM at 2. apply Z.mul_reg_l in HM; [lia|]. intros Hz. rewrite Hz in HE. lia.
  - destruct (dw64_down_neg n o d Hn H0 ltac:(lia) HI ltac:(lia)) as (r & Hr). rewrite HR in Hr. discriminate.
Qed.

(** C38: a Decimal64 has room for a step of 10 to 18 places, but [Rescale] and [ReduceScaleBy]
    compute the power of ten as an [int32], which wraps to [power32 d].  For every number but zero:
    what [Rescale] gives without an error is never the right number, up it is the number times the
    wrapped power and down the number divided by it; up it gives one without an error exactly when
    the wrapped power is positive (not for 12, 15 and 18 places, where it reports an error) and the
    product fits.  [ReduceScaleBy] divides by the wrapped power, which is right only when both
    quotients are zero; [IncreaseScaleBy] is right whenever the result fits. *)
Theorem decimal64_step_wrong n o d : inS 64 n -> n <> 0 -> 10 <= d <= 18 ->
  (forall m, DW.Rescale 64 n o (o + d) = Some (m, None) -> m = n * power32 d /\ m <> n * 10 ^ d) /\
  ((exists m, DW.Rescale 64 n o (o + d) = Some (m, None)) <-> 0 < power32 d /\ Z.abs (n * power32 d) < 2 ^ 63) /\
  (forall m, DW.Rescale 64 n (o + d) o = Some (m, None) -> m * power32 d = n /\ m * 10 ^ d <> n) /\
  (0 < power32 d <-> d <> 12 /\ d <> 15 /\ d <> 18) /\
  DW.ReduceScaleBy 64 n d false = Some (Z.quot n (power32 d)) /\
  (Z.quot n (power32 d) = Z.quot n (10 ^ d) <-> Z.abs n < Z.abs (power32 d)) /\
  (Z.abs (n * 10 ^ d) < 2 ^ 63 -> DW.IncreaseScaleBy 64 n d = Some (n * 10 ^ d)).
Proof.
  intros Hn H0 Hd. destruct (power32_table d Hd) as (HB & HT & HS & _ & H64). destruct (step64_up n o d Hn H0 Hd) as (HU1 & HU2). splits; try assumption.
  - intros m. now apply step64_down.
  - now apply dw64_reduce.
  - apply quot_smaller; lia.
  - intros Hf. unfold DW.IncreaseScaleBy. rewrite H64. cbn [opt_bind]. now rewrite wrapS_abs by (cbn; lia).
Qed.

(** Decimal128 and decimal256 to [big.Int] and back: [BigInt] gives the value, [FromBigInt] of
    it gives the number again unless it is the least of the type, for which it panics as for every
    integer beyond; a decimal128 made a decimal256 keeps its value. *)
Theorem decimal_bigint :
  (forall n, valid128 n -> D128.BigInt n = val128 n /\ (val128 n <> - 2 ^ 127 -> D128.FromBigInt (D128.BigInt n) = Some n) /\ valid256 (D256.FromDecimal128 n) /\ D256.BigInt (D256.FromDecimal128 n) = val128 n) /\
  (forall n, valid256 n -> D256.BigInt n = val256 n /\ (val256 n <> - 2 ^ 255 -> D256.FromBigInt (D256.BigInt n) = Some n)) /\
  (forall v, Z.abs v < 2 ^ 127 -> exists n, D128.FromBigInt v = Some n /\ valid128 n /\ val128 n = v) /\ (forall v, 2 ^ 127 <= Z.abs v -> D128.FromBigInt v = None) /\
  (forall v, Z.abs v < 2 ^ 255 -> exists n, D256.FromBigInt v = Some n /\ valid256 n /\ val256 n = v) /\ (forall v, 2 ^ 255 <= Z.abs v -> D256.FromBigInt v = None).
Proof.
  split; [|split; [|split; [exact from128|split; [exact from128_large|split; [exact from256|exact from256_large]]]]].
  - intros n Hn. rewrite (big128 n Hn). destruct (from128_256 n Hn) as (V & E). splits; [reflexivity| |assumption|now rewrite big256]. intros Hm. pose proof (in128 n Hn) as HI. unfold inS in HI. change (128 - 1) with 127 in HI. destruct (from128 (val128 n) ltac:(lia)) as (m & -> & Vm & Em). f_equal. now apply val128_inj.
  - intros n Hn. rewrite (big256 n Hn). split; [reflexivity|]. intros Hm. pose proof (in256 n Hn) as HI. unfold inS in HI. change (256 - 1) with 255 in HI. destruct (from256 (val256 n) ltac:(lia)) as (m & -> & Vm & Em). f_equal. now apply val256_inj.
Qed.

(** What [ToString] says of a value [v] at a scale: a plain decimal with that value, in which
    [PrecScaleFromString] finds the scale, or 0 when it is negative, and the least precision with
    which it fits. *)
Definition textOk (v scale : Z) (text : option (list Z)) : Prop :=
  exists s sg w fr p, text = Some s /\ plainDecimal sg w fr s /\ len (fractOf fr) = Z.max 0 scale /\ plainValue sg w fr = v * 10 ^ Z.max 0 (- scale) /\
    PrecScaleFromString s = inl (p, Z.max 0 scale) /\ Z.abs (v * 10 ^ Z.max 0 (- scale)) < 10 ^ p /\ (Z.max 0 scale < p -> 10 ^ (p - 1) <= Z.abs (v * 10 ^ Z.max 0 (- scale))).

Lemma toString_text M P text v scale : - M <= scale <= M -> 1 <= P -> Z.abs v < 10 ^ P -> M + P + 3 < 2 ^ 31 -> textOk v scale (toString M P text v scale).
Proof.
  intros HS HP Hv HB. destruct (toString_ok M P text v scale HS HP Hv) as (s & sg & w & fr & HT & HD & HF & HV & HL). exists s, sg, w, fr, (len (fractOf fr) + len (trimZeros w)). rewrite <- HV, <- HF. pose proof (prec_value sg w fr s HD) as HX. cbv zeta in HX. splits; [assumption|assumption|reflexivity|reflexivity|apply (prec_plain sg w fr s HD); lia|apply HX|apply HX].
Qed.

(** C26: the text that [ToString] gives of a decimal128 below 10^38 at a scale from -38 to 38, or of
    a decimal256 below 10^76 at a scale from -76 to 76, is a plain decimal of the same value.  At a
    scale of 0 or more it has that many digits after the dot; at a negative scale it is an integer,
    with the zeros written out.  [PrecScaleFromString] reads from it this number of digits (0 for a
    negative scale) and the least precision that holds the value written. *)
Theorem decimal_text bigText scale :
  (forall n, valid128 n -> Z.abs (val128 n) < 10 ^ 38 -> -38 <= scale <= 38 -> textOk (val128 n) scale (ToString128 bigText n scale)) /\
  (forall n, valid256 n -> Z.abs (val256 n) < 10 ^ 76 -> -76 <= scale <= 76 -> textOk (val256 n) scale (ToString256 bigText n scale)).
Proof.
  split; intros n Hn Hv Hs.
  - unfold ToString128. rewrite big128 by assumption. apply toString_text; first [exact Hs | exact Hv | vm_compute; (reflexivity || discriminate)].
  - unfold ToString256. rewrite big256 by assumption. apply toString_text; first [exact Hs | exact Hv | vm_compute; (reflexivity || discriminate)].
Qed.

(** C27: [PrecScaleFromString] accepts exactly the decimals without an exponent (an optional sign,
    digits, optionally a dot and digits, at least one digit) and gives the digits after the dot as
    the scale and these with the others, less the zeros in front, as the precision.  In particular
    it rejects every text with an exponent, although it reads one. *)
Theorem prec_scale_accepts s p sc : len s < 2 ^ 31 ->
  PrecScaleFromString s = inl (p, sc) <-> exists sg w fr, plainDecimal sg w fr s /\ sc = len (fractOf fr) /\ p = len (fractOf fr) + len (trimZeros w).
Proof.
  intros HL. split; [|intros (sg & w & fr & HD & -> & ->); now apply (prec_plain sg w fr s HD)]. intros HE. pose proof HE as HE'. unfold PrecScaleFromString in HE'. destruct (len s =? 0) eqn:E; [discriminate|]. assert (Hne : s <> []) by (intros ->; discriminate). destruct (components_sign s Hne) as (c & HC). rewrite HC in HE'. destruct (componentsOf c (afterSign s)) as [d [|]] eqn:ED; cbn [fst snd negb] in HE'; [|discriminate].
  destruct (components_valid c _ d ED) as (fr & HA & Hw & Hf & Hd & _ & _). set (sg := match s with c :: _ => if isSign c then [c] else [] | [] => [] end). assert (HP : plainDecimal sg (wholeDigits d) fr s).
  { unfold plainDecimal. rewrite <- HA. subst sg. destruct s as [|x s]; [congruence|]. cbn [afterSign]. destruct (isSign x) eqn:Ex; splits; try assumption; try reflexivity; [right|left; reflexivity]. unfold isSign in Ex. apply orb_true_iff in Ex. destruct Ex as [Ex|Ex]; apply Z.eqb_eq in Ex; subst x; auto. }
  rewrite (prec_plain _ _ _ _ HP HL) in HE. injection HE as <- <-. exists sg, (wholeDigits d), fr. auto.
Qed.

(** The constant is not the greatest decimal128 of 38 digits. *)
Lemma max_decimal128_wrong : D128.GetMaxValue 38 = Some (D128.New 5421010862427522170 687399551400673279) /\ val128 (D128.New 5421010862427522170 687399551400673279) = 10 ^ 38 - 1 /\ D128.MaxDecimal128 = D128.New 542101086242752217 687399551400673279.
Proof. repeat split; vm_compute; reflexivity. Qed.

(** ** Witnesses *)

(** 12345 and -7. *)
Definition dec12345 : numOf Decimal128 := D128.New 0 12345.
Definition decMinus7 : numOf Decimal128 := D128.New (-1) 18446744073709551609.

Lemma dec12345_ok : valid Decimal128 dec12345.
Proof. repeat split; vm_compute; (reflexivity || discriminate). Qed.

Lemma decMinus7_ok : valid Decimal128 decMinus7.
Proof. repeat split; vm_compute; (reflexivity || discriminate). Qed.

Lemma decimal_arithmetic_witness : exists q r, Div dec12345 decMinus7 = Some (q, r) /\ val Decimal128 dec12345 = val Decimal128 q * val Decimal128 decMinus7 + val Decimal128 r /\ val Decimal128 q = -1763.
Proof.
  destruct (decimal_arithmetic Decimal128 dec12345 decMinus7 dec12345_ok decMinus7_ok) as (_ & _ & _ & _ & _ & HD & _). destruct (HD ltac:(vm_compute; discriminate) ltac:(vm_compute; reflexivity)) as (q & r & H1 & _ & _ & H2 & _). exists q, r. splits; [assumption|assumption|]. vm_compute in H1. injection H1 as <- <-. vm_compute. reflexivity.
Defined.

Lemma rescale_correct_witness : exists m, Rescale dec12345 2 5 = Some (m, None) /\ val Decimal128 m = 12345000.
Proof.
  destruct (rescale_correct Decimal128 dec12345 2 5 dec12345_ok ltac:(vm_compute; discriminate)) as (_ & H). destruct (H 12345000 ltac:(vm_compute; reflexivity) ltac:(vm_compute; reflexivity)) as (m & HR & _ & HV). exists m. split; assumption.
Defined.

Lemma reduce_scale_witness : exists t r, ReduceScaleBy dec12345 1 false = Some t /\ ReduceScaleBy dec12345 1 true = Some r /\ val Decimal128 t = 1234 /\ val Decimal128 r = 1235.
Proof.
  destruct (reduce_scale_correct Decimal128 dec12345 1 dec12345_ok ltac:(split; vm_compute; discriminate)) as (t & r & HT & _ & HR & _). exists t, r. splits; [assumption|assumption|vm_compute in HT; injection HT as <-; vm_compute; reflexivity|vm_compute in HR; injection HR as <-; vm_compute; reflexivity].
Defined.

(** The least Decimal32 has ten digits. *)
Lemma fits_in_precision_witness : FitsInPrecision (T := numOf Decimal32) (-2147483648) 1 = Some true /\ FitsInPrecision dec12345 4 = Some false.
Proof.
  split; [rewrite (fits_in_precision Decimal32 (-2147483648) 1 ltac:(split; vm_compute; (reflexivity || discriminate)) ltac:(split; vm_compute; (reflexivity || discriminate))); vm_compute; reflexivity|].
  rewrite (fits_in_precision Decimal128 dec12345 4 dec12345_ok ltac:(split; vm_compute; (reflexivity || discriminate))). vm_compute. reflexivity.
Defined.

(** One rescaled by ten places, and what is left of 10^10 when ten places are removed. *)
Lemma decimal64_step_witness : DW.Rescale 64 1 0 (0 + 10) = Some (1410065408, None) /\ 1410065408 <> 1 * 10 ^ 10 /\ DW.ReduceScaleBy 64 (10 ^ 10) 10 false = Some 7.
Proof.
  destruct (decimal64_step_wrong 1 0 10 ltac:(split; vm_compute; (reflexivity || discriminate)) ltac:(lia) ltac:(lia)) as (HU & _). destruct (decimal64_step_wrong (10 ^ 10) 0 10 ltac:(split; vm_compute; (reflexivity || discriminate)) ltac:(lia) ltac:(lia)) as (_ & _ & _ & _ & HR & _). assert (E : DW.Rescale 64 1 0 (0 + 10) = Some (1410065408, None)) by reflexivity. split; [exact E|]. split; [apply (HU _ E)|]. rewrite HR. reflexivity.
Defined.

Lemma decimal_text_witness : textOk 12345 2 (ToString128 (fun _ _ => []) dec12345 2) /\ ToString128 (fun _ _ => []) dec12345 2 = Some [49; 50; 51; 46; 52; 53].
Proof. split; [|vm_compute; reflexivity]. apply (proj1 (decimal_text (fun _ _ => []) 2) dec12345 dec12345_ok); [vm_compute; reflexivity|split; vm_compute; discriminate]. Defined.

(** "-0.05" and "1e5". *)
Lemma prec_scale_witness : (exists sg w fr, plainDecimal sg w fr [45; 48; 46; 48; 53]) /\ forall p sc, PrecScaleFromString [49; 101; 53] <> inl (p, sc).
Proof.
  split; [|intros p sc; vm_compute; discriminate]. destruct (proj1 (prec_scale_accepts [45; 48; 46; 48; 53] 2 2 ltac:(vm_compute; reflexivity)) ltac:(vm_compute; reflexivity)) as (sg & w & fr & H & _). exists sg, w, fr. assumption.
Defined.
